(* ===== verification/_CoqProject ===== *)
-Q . S2P
Prelude.v
StdSet.v
StdMap.v
Text.v
Env.v
Endian.v
Address.v
AddressSpec.v
Buffer.v
ByteArray.v
ByteArraySpec.v
ByteCodec.v
ByteArrayTheorems.v
Timer.v
Fiber.v
FiberContext.v
Scheduler.v
SchedulerSpec.v
SchedulerOwn.v
SchedulerTheorems.v
Caller.v
Sync.v
Locks.v
Worker.v
Module.v
IOManager.v
EventLoop.v
EventTable.v
FdManager.v
Hook.v
HookSpec.v
HookTheorems.v
Socket.v
SocketSpec.v
SocketTheorems.v
TcpServer.v
ConfigCast.v
Config.v
ConfigSpec.v
Settings.v
ServerConf.v
LogFormat.v
Log.v
LogSpec.v
LogCast.v
LogTheorems.v
HashUtil.v
Digest.v
Stream.v
StreamBuffer.v
WebSocket.v
WebSocketSpec.v
Http.v
HttpParser.v
Ragel.v
Http11.v
HttpClient.v
ClientRequests.v
ConnPool.v
Servlet.v
Thread.v
FsUtil.v
UriParser.v
ClientMachine.v
FsSpec.v
Util.v
StringPiece.v
Timestamp.v
FileUtils.v
ProcessInfo.v
Plot.v
Procmon.v
Dummyload.v
NetUtil.v
Netcat.v
NetPrograms.v
Programs.v
Daemon.v
Application.v
AppSpec.v
