(* ===== verification/Prelude.v ===== *)
(** * The sylar network library, verified

    The repository is a C++ network framework, sylar (src/sylar), with a few
    network programs on top of it (src/1_ttcp, 2_roundtrip, 3_netcat, 4_procmon).
    This development models the framework's own logic and proves what makes each
    part correct; where the code does not keep a promise, a theorem says exactly
    when.

    ** The program and its model

    - Memory buffers. [ByteArray] (sylar/bytearray.{h,cc}) is a chain of blocks with
      a cursor. [Endian] models sylar/endian.h; [ByteArray] the buffer and its
      operations, a block list with an optional index as the cursor's node pointer;
      [Buffer] is the interface (classes [Buffer] and [BufferLaws]) that the codecs
      of [ByteCodec] are written and proved against; [ByteArraySpec] shows that the
      buffer implements it; [ByteArrayTheorems] holds the results: any sequence of
      operations refines a flat byte list, the round trips of every codec, gather
      access, files, and the states [clear], [getWriteBuffers] and the 64-bit
      varints spoil.
    - Time. [Timer] models sylar/timer.{h,cc}: a heap of timers and the ordered set
      of those that are pending ([StdSet] models std::set). Reachable states are
      those any sequence of calls leads to; the theorems say that no call fails,
      which callbacks an expiry hands out, that cancelled and spent timers stay
      silent, and what the waiting time means.
    - Concurrency. [Fiber] models the life cycle of a fiber (sylar/fiber.{h,cc}) and
      [Scheduler] the scheduler (sylar/scheduler.{h,cc}): each thread has a program
      counter in [run], and [run_step] is one of its atomic steps, so that a
      schedule is a sequence of such steps. [SchedulerSpec] and [SchedulerOwn] hold
      the invariants; [SchedulerTheorems] shows that the counters are exact, that no
      fiber runs on two threads, that a stopped pool has drained its queue, and the
      way a pinned task can be stranded. [FiberContext] models the switches of one
      thread, a context being the code that it resumes: which fiber is the current one
      at every switch. [Caller] adds the root fiber with which a scheduler uses the
      thread of its caller, and shows that it is one more thread of the pool.
    - Events. [IOManager] models sylar/iomanager.{h,cc}: the contexts of the file
      descriptors over the class [Epoll], whose laws are those of epoll_ctl(2); the
      scheduler and the fiber of the calling thread are arguments, and a descriptor may be
      negative. The theorems show that handlers are counted and run once, and the way [idle] runs
      handlers nobody reported. [EventTable] takes the calls of several threads apart
      into their critical sections and shows that they act at one point each, but for
      a race of two threads that grow the table; [EventLoop] is one turn of [idle] with
      the timers, the wait and the pipe.
    - Locks, workers and modules. [Sync] models the guards, the spin lock and the
      fiber semaphore of sylar/mutex.{h,cc}: each call of a fiber or thread is a
      sequence of atomic steps. [Worker] models sylar/worker.{h,cc} over the
      semaphore, [Module] the registry of sylar/module.cc with its critical
      sections as steps. The theorems show that no wake-up is lost, that a worker
      group never starts its work, which worker a name gives, and that a module is
      unloaded once. [Locks] models the lock classes and all guards on one lock over the
      class [Lock], whose laws are those of the pthread locks.
    - Text and environment. [Text] holds the text functions of C and C++ the rest
      uses (decimal numbers, searching, comparing); [Env] models sylar/env.{h,cc},
      with the grammar of the command lines it accepts.
    - Descriptors and hooks. [FdManager] models the table of descriptors
      (sylar/fd_manager.{h,cc}) and the hooked calls that consult it, over the
      class [Kernel]; [Hook] the waiting calls of sylar/hook.cc as programs of a
      step relation of fibers, timers and events, with a clock that may be set back; [HookSpec] its invariant,
      [HookTheorems] the results: a waiting call has something that will wake it,
      timeouts are reported as such, and the one interleaving that loses a timeout.
    - Addresses and sockets. [Address] and [AddressSpec] model sylar/address.{h,cc},
      an address being the memory of its sockaddr. [Socket] models
      sylar/socket.{h,cc} over a [world] made of the kernel, the table of
      descriptors and the event loop; the classes [Net] and [OpenSSL] are the rest
      of the system. [SocketSpec] states what each operation does to descriptors,
      under the laws [NetLaws]; [SocketTheorems] shows that descriptors have one
      owner, and the effects of stale contexts and cached addresses. [TcpServer]
      models sylar/tcp_server.cc over a heap of shared sockets, with the laws [BindLaws] on
      what bind and listen do to a kernel's names, [ServerConf] the
      configuration of a server.
    - Configuration. [ConfigCast] models the conversions of sylar/config.h,
      [Config] the variables, their listeners and the registry, [ConfigSpec] the
      theorems: a name keeps its type, loading a document sets what it names, and
      the race of two writers. [Settings] models the settings that other parts copy into
      variables of their own when they change.
    - Logging. [LogFormat] models the pattern language and the items of
      sylar/log.cc, [Log] appenders, loggers and the manager over a heap of shared
      objects, [LogSpec] their invariants, [LogCast] the conversions of the
      configuration, [LogTheorems] the macros with the life of an event and the
      results: who receives an event and in which form, and what a change of the configuration leads to.
    - Streams and text. [Stream] models sylar/stream.cc and sylar/socket_stream.cc
      over a kernel that transfers what it likes, [StreamBuffer] their operations on a
      [ByteArray], whose blocks the kernel fills directly; [HashUtil] models
      sylar/util/hash_util.cc, and [Digest] its digests and keyed hashes over the class
      [Digest]: the keyed hashes are those of RFC 2104.
    - HTTP. [Http] models the messages (sylar/http/http.{h,cc}; [StdMap] models
      std::map with its comparison); [HttpParser] the callbacks of the parser,
      HttpSession::recvRequest and the websocket handshake, for any state machine;
      [Ragel] is the language of the .rl files, regular expressions with actions and the
      machines that are generated from them, and [Http11] the machine of
      http11_parser.rl: what dump writes recvRequest reads, and on any bytes the machine
      stays within its buffer; [UriParser] is the machine of sylar/uri.rl, which reads
      the URIs that toString writes; [HttpClient]
      HttpConnection::recvResponse with chunked bodies, and [ClientMachine] the machine of
      httpclient_parser.rl: what dump writes recvResponse reads, a body in chunks is
      their data, and on any bytes the machine returns; [ClientRequests] the requests
      the client builds and the websocket client (sylar/http/ws_connection.cc);
      [ConnPool] the connection pool and the requests over it; [Servlet]
      the dispatcher and the client loops of HttpServer and WSServer; [WebSocket] and [WebSocketSpec]
      the frames of sylar/http/ws_session.cc. The theorems show what is taken off a
      stream for a message and for which reasons receiving one fails, what the server reads
      and writes on a connection up to its end, which servlet answers, and that messages
      arrive as they were sent.
    - Threads and shared objects. [Thread] models sylar/thread.{h,cc} as steps of any
      number of threads, [Module] sylar/library.cc over an interface to the linker.
      The theorems show that a constructor returns only after its thread has set its
      fields, and always returns, and that a shared object stays open once for each
      module.
    - Utilities. [FsUtil] models the file functions of sylar/util.cc over the class
      [FileSystem], [FsSpec] their results on a tree of files: what is removed, listed
      and made. [FileUtils] models sylar/file_utils.cc, [Util] numbers, times and
      sylar/util/json_util.cc, [StringPiece] sylar/stringpiece.h over blocks of
      memory, [Timestamp] sylar/timestamp.{h,cc} with the calendar of gmtime_r: its
      texts are read back to the time they were made from.
    - The application. [Daemon] models the supervisor of sylar/daemon.cc, the program
      it runs being a function on what processes share. [Application] puts the parts
      together: sylar/application.cc and main.cc over [Env], [Config], [FsUtil],
      [Module], [Worker], [Address], [TcpServer] and [Daemon], and [AppSpec] shows
      which servers run after the start, with which sockets, that one process has a
      working directory, and what the supervisor makes of a start that failed.
    - Programs. [ProcessInfo] models sylar/process_info.cc, [Procmon] and
      [Plot] the monitor of 4_procmon, its start and its chart (the commands given to the
      drawing library), [Dummyload] the load generator and its threads,
      [NetUtil] util/util.cc and [NetPrograms] ttcp, the echo pair, the clock difference
      over UDP and the delay test (1_ttcp, 2_roundtrip, 3_netcat): both ends of a
      connection and the bytes under way are one state. [Netcat] models netcat's two
      threads with the user and the peer, and the programs that copy a file, [Programs]
      the generator with its meter and what the main functions make of their
      arguments. The theorems show that transfers of a fixed
      size are exact, that a ttcp session ends with everything acknowledged, when the
      echo pair blocks, how good the measured clock difference is, that netcat passes
      bytes on unchanged, and that the curve of a chart lies within it.

    ** Conventions

    Bytes and strings are lists of integers ([Z]) between 0 and 255, machine
    integers are [Z] with the wrap-around written out ([u8], [s32], [u64], ...). A
    call returns, throws or is stuck ([outcome]); [Stuck] stands for undefined
    behaviour (null or dangling pointers, accesses outside a block) and for a loop
    that ran out of fuel. Fuel is always a bound that the code itself implies (the
    bytes still to come, the blocks of the buffer), and the theorems show results,
    so that it is never used up. Time, random numbers, the choices of the kernel and
    of user code are arguments.

    Parameters: the state machine in the theorems on [HttpParser] and [HttpClient] (record
    [Engine], which may throw or abort and is assumed to stay within its buffer when it
    returns, as the machines of the two .rl files do, which [Http11] and [ClientMachine]
    model), the memory that is there for the body of a message (class [Memory]), the
    OpenSSL digests (class [Digest]) and sessions, the pthread locks (class [Lock]),
    boost::lexical_cast, yaml-cpp, fnmatch, strftime,
    epoll, the system calls behind [Kernel], [Net] and [FileSystem], stdio, the
    contents of /proc, fork and waitpid, getaddrinfo, inet_pton and getifaddrs, the
    dynamic linker, jsoncpp, floating point values and their texts (in [Plot] the
    rounding of double, class [Rounding]), libgd, select, the opening of files, and the user's callbacks. Each theorem with such a parameter has a witness
    with a concrete one.

    What counts as one step: in [Scheduler], [Caller], [EventTable], [Hook], [Sync],
    [Locks], [Worker], [Module], [Thread], [Netcat], [Dummyload], [Programs] and the
    races of [Config] and [FdManager] a critical section, a statement of a thread, or
    what a fiber does between two switches. An operation of a [Socket] is one step of
    its fiber.

    ** Not modelled

    Functions that only print or dump a state, functions that return one value of the
    system, the registers and stacks of fibers (a context is the code it resumes), the
    loading of the original functions with dlsym, the handlers of modules, which are
    user code, the null locks for debugging, which have no state, the calls with which
    the small programs set a plain socket up, the example modules and the test programs.
    The libraries are parameters.

    ** This file

    Outcomes, fixed-width integers, lists with slices and overwriting. *)

From stdpp Require Import base numbers list list_numbers strings option tactics.
From Stdlib Require Import ZArith Lia.

Declare Scope sylar_scope.
Delimit Scope sylar_scope with sylar.

(** ** Outcomes of C++ code *)

(** The exceptions the modelled code throws. *)
Inductive exn : Type :=
| out_of_range (what : string)
| invalid_argument (what : string)
| logic_error (what : string)
| bad_alloc
| assertion_failed (what : string).

(** A call returns a value, throws, or is stuck: [Stuck] stands for a
    dereference of a null pointer, an access outside an allocated object, or a
    loop that ran out of the fuel its model gives it. *)
Inductive outcome (A : Type) : Type :=
| Ok (a : A)
| Throw (e : exn)
| Stuck.
Arguments Ok {A} a.
Arguments Throw {A} e.
Arguments Stuck {A}.

#[export] Instance exn_eq_dec : EqDecision exn.
Proof. solve_decision. Defined.

#[export] Instance outcome_ret : MRet outcome := @Ok.

#[export] Instance outcome_bind : MBind outcome := fun A B f m =>
  match m with
  | Ok a => f a
  | Throw e => Throw e
  | Stuck => Stuck
  end.

(** [SYLAR_ASSERT(b)]: the program aborts when [b] is false. *)
Definition sylar_assert (b : bool) (what : string) : outcome unit :=
  if b then Ok tt else Throw (assertion_failed what).

(** A pointer that has to be non-null. *)
Definition deref {A} (p : option A) : outcome A :=
  match p with
  | Some a => Ok a
  | None => Stuck
  end.

Definition is_ok {A} (m : outcome A) : bool :=
  match m with Ok _ => true | _ => false end.

(** A call that fails as [m] does. *)
Definition failed {A B} (m : outcome A) : outcome B :=
  match m with Throw e => Throw e | _ => Stuck end.

Lemma outcome_cases {A B} (m : outcome A) (f : A → outcome B) :
  (∃ a, m = Ok a ∧ (m ≫= f) = f a) ∨ (is_ok m = false ∧ (m ≫= f) = failed m).
Proof. destruct m as [a| |]; [left; by exists a|by right..]. Qed.

(** [for (auto& x : l) a = f(a, x);] *)
Fixpoint ofoldl {A B} (f : A → B → outcome A) (a : A) (l : list B) : outcome A :=
  match l with
  | [] => Ok a
  | x :: l => match f a x with Ok a => ofoldl f a l | Throw e => Throw e | Stuck => Stuck end
  end.

Lemma ofoldl_app {A B} (f : A → B → outcome A) (l1 l2 : list B) : ∀ a,
  ofoldl f a (l1 ++ l2) = match ofoldl f a l1 with Ok a => ofoldl f a l2 | Throw e => Throw e | Stuck => Stuck end.
Proof. induction l1 as [|x l1 IH]; intros a; [done|]. simpl. by destruct (f a x). Qed.

Lemma outcome_bind_ok {A B} (m : outcome A) (f : A → outcome B) b :
  (m ≫= f) = Ok b ↔ ∃ a, m = Ok a ∧ f a = Ok b.
Proof.
  destruct m as [a| |]; cbn; [|split; [done|by intros (? & ? & _)]..].
  split; [by eauto|]. by intros (? & [= ->] & ?).
Qed.

Lemma deref_ok {A} (p : option A) a : deref p = Ok a ↔ p = Some a.
Proof. destruct p; cbn; split; congruence. Qed.

Create HintDb sylar.

(** Run the outcome monad without unfolding the operations it sequences. *)
Ltac osimpl := cbn [mbind mret outcome_bind outcome_ret deref].
Tactic Notation "osimpl" "in" hyp(H) := cbn [mbind mret outcome_bind outcome_ret deref] in H.

(** ** Machine integers *)

Section machine.
Local Open Scope Z_scope.

(** The value of the integer [z] in an unsigned [w]-bit variable. *)
Definition uwrap (w z : Z) : Z := z mod 2 ^ w.

(** The value of [z] in a two's complement [w]-bit variable. *)
Definition swrap (w z : Z) : Z :=
  let u := z mod 2 ^ w in if u <? 2 ^ (w - 1) then u else u - 2 ^ w.

Definition in_unsigned (w z : Z) : Prop := 0 <= z < 2 ^ w.

Definition in_signed (w z : Z) : Prop := - 2 ^ (w - 1) <= z < 2 ^ (w - 1).

#[export] Instance in_unsigned_dec w z : Decision (in_unsigned w z).
Proof. unfold in_unsigned. apply _. Defined.

#[export] Instance in_signed_dec w z : Decision (in_signed w z).
Proof. unfold in_signed. apply _. Defined.

Lemma uwrap_range w z : 0 <= w → in_unsigned w (uwrap w z).
Proof. intros. apply Z.mod_pos_bound. lia. Qed.

Lemma uwrap_small w z : in_unsigned w z → uwrap w z = z.
Proof. apply Z.mod_small. Qed.

Lemma pow_half w : 0 < w → 2 ^ w = 2 * 2 ^ (w - 1).
Proof. intros. rewrite <-Z.pow_succ_r by lia. f_equal. lia. Qed.

Lemma swrap_range w z : 0 < w → in_signed w (swrap w z).
Proof.
  intros Hw. unfold in_signed, swrap. pose proof (pow_half w Hw).
  pose proof (Z.mod_pos_bound z (2 ^ w)). case_match; lia.
Qed.

Lemma swrap_small w z : 0 < w → in_signed w z → swrap w z = z.
Proof.
  intros Hw Hz. unfold in_signed, swrap in *. pose proof (pow_half w Hw).
  destruct (Z.ltb_spec (z mod 2 ^ w) (2 ^ (w - 1))) as [H1|H1];
    destruct (Z.neg_nonneg_cases z).
  - rewrite <-(Z.mod_add z 1) in H1 by lia. rewrite Z.mod_small in H1; lia.
  - apply Z.mod_small. lia.
  - rewrite <-(Z.mod_add z 1) by lia. rewrite Z.mod_small; lia.
  - rewrite Z.mod_small in H1; lia.
Qed.

(** Reading the bits of an unsigned variable as a signed one and back. *)
Lemma swrap_uwrap w z : swrap w (uwrap w z) = swrap w z.
Proof. unfold swrap, uwrap. by rewrite Zmod_mod. Qed.

Lemma uwrap_swrap w z : 0 <= w → uwrap w (swrap w z) = uwrap w z.
Proof.
  intros Hw. unfold swrap, uwrap. case_match; [apply Zmod_mod|].
  replace (z mod 2 ^ w - 2 ^ w) with (z mod 2 ^ w + (-1) * 2 ^ w) by lia.
  rewrite Z.mod_add by lia. apply Zmod_mod.
Qed.

Lemma swrap_add w a b : 0 <= w → swrap w (swrap w a + b) = swrap w (a + b).
Proof.
  intros Hw. rewrite <-(swrap_uwrap w (swrap w a + b)), <-(swrap_uwrap w (a + b)). f_equal.
  unfold uwrap. rewrite Z.add_mod by lia. fold (uwrap w (swrap w a)). rewrite uwrap_swrap by done.
  unfold uwrap. by rewrite <-Z.add_mod by lia.
Qed.

Lemma lor_add_shift r x i : 0 <= i → 0 <= r < 2 ^ i → Z.lor r (x * 2 ^ i) = r + x * 2 ^ i.
Proof.
  intros Hi Hr.
  assert (Z.land r (x * 2 ^ i) = 0) as Hdisj.
  { rewrite <-Z.shiftl_mul_pow2 by done. apply Z.bits_inj'. intros k Hk.
    rewrite Z.land_spec, Z.bits_0. destruct (Z.lt_ge_cases k i).
    - rewrite (Z.shiftl_spec_low x i k) by done. apply andb_false_r.
    - rewrite <-(Z.mod_small r (2 ^ i)) by done. by rewrite Z.mod_pow2_bits_high by lia. }
  rewrite <-Z.lxor_lor by done. symmetry. by apply Z.add_nocarry_lxor.
Qed.

(** Appending the bits of [v] to those of [x]. *)
Lemma lor_shiftl_add x v n : 0 <= n → 0 <= v < 2 ^ n → Z.lor (Z.shiftl x n) v = x * 2 ^ n + v.
Proof.
  intros Hn Hv. rewrite Z.shiftl_mul_pow2, Z.lor_comm, lor_add_shift by done. lia.
Qed.

Lemma land_low x n : 0 <= n → Z.land x (2 ^ n - 1) = x mod 2 ^ n.
Proof. intros. by rewrite <-Z.land_ones, Z.ones_equiv, Z.sub_1_r. Qed.

End machine.

(** Linear arithmetic with quotients and remainders by constants, powers of two
    among them. *)
Ltac dlia :=
  repeat match goal with
  | |- context [(2 ^ (Zpos ?n))%Z] =>
    let v := eval vm_compute in (2 ^ (Zpos n))%Z in change (2 ^ (Zpos n))%Z with v
  end; Z.to_euclidean_division_equations; lia.

Abbreviation u8 := (uwrap 8).
Abbreviation u16 := (uwrap 16).
Abbreviation u32 := (uwrap 32).
Abbreviation u64 := (uwrap 64).
Abbreviation s32 := (swrap 32).
Abbreviation s64 := (swrap 64).

(** A byte of memory is the value of an [unsigned char]. *)
Definition is_byte (b : Z) : Prop := (0 <= b < 256)%Z.

#[export] Instance is_byte_dec b : Decision (is_byte b).
Proof. unfold is_byte. apply _. Defined.

(** Text as the bytes of its characters. *)
Definition bytes_of_string (s : string) : list Z :=
  (λ c, Z.of_N (Ascii.N_of_ascii c)) <$> String.list_ascii_of_string s.

(** ** Slices of buffers *)

(** [n] elements of [l] from offset [off], and [l] with the elements from [off]
    on replaced by [bs]: what [memcpy] reads and writes. *)
Definition slice {A} (off n : nat) (l : list A) : list A := take n (drop off l).

Definition overwrite {A} (off : nat) (bs l : list A) : list A :=
  take off l ++ bs ++ drop (off + length bs) l.

Section slices.
Context {A : Type}.
Implicit Types l bs : list A.

Lemma length_slice off n l : off + n ≤ length l → length (slice off n l) = n.
Proof. intros. unfold slice. rewrite length_take, length_drop. lia. Qed.

Lemma slice_0 off l : slice off 0 l = [].
Proof. done. Qed.

Lemma slice_all l : slice 0 (length l) l = l.
Proof. unfold slice. rewrite drop_0. by apply take_ge. Qed.

Lemma slice_split off n1 n2 l :
  slice off (n1 + n2) l = slice off n1 l ++ slice (off + n1) n2 l.
Proof. unfold slice. by rewrite <-drop_drop, take_take_drop. Qed.

Lemma slice_app_l off n l1 l2 :
  off + n ≤ length l1 → slice off n (l1 ++ l2) = slice off n l1.
Proof.
  intros. unfold slice. rewrite drop_app_le by lia.
  apply take_app_le. rewrite length_drop. lia.
Qed.

Lemma slice_app_r off n l1 l2 :
  length l1 ≤ off → slice off n (l1 ++ l2) = slice (off - length l1) n l2.
Proof. intros. unfold slice. by rewrite drop_app_ge. Qed.

Lemma slice_take off n m l : off + n ≤ m → slice off n (take m l) = slice off n l.
Proof.
  intros. unfold slice. rewrite skipn_firstn_comm, take_take. f_equal. lia.
Qed.

Lemma length_overwrite off bs l :
  off + length bs ≤ length l → length (overwrite off bs l) = length l.
Proof. intros. unfold overwrite. rewrite !length_app, length_take, length_drop. lia. Qed.

Lemma overwrite_nil off l : overwrite off [] l = l.
Proof. unfold overwrite. simpl. by rewrite Nat.add_0_r, take_drop. Qed.

Lemma overwrite_all bs l : length bs = length l → overwrite 0 bs l = bs.
Proof.
  intros H. unfold overwrite. simpl. rewrite drop_ge by lia. by rewrite app_nil_r.
Qed.

Lemma overwrite_app_l off bs l1 l2 :
  off + length bs ≤ length l1 → overwrite off bs (l1 ++ l2) = overwrite off bs l1 ++ l2.
Proof.
  intros. unfold overwrite. rewrite take_app_le, drop_app_le by lia. by rewrite !(assoc_L (++)).
Qed.

Lemma overwrite_app_r off bs l1 l2 :
  length l1 ≤ off → overwrite off bs (l1 ++ l2) = l1 ++ overwrite (off - length l1) bs l2.
Proof.
  intros. unfold overwrite. rewrite take_app_ge, drop_app_ge by lia.
  rewrite <-(assoc_L (++)). do 4 f_equal. lia.
Qed.

(** Writing two adjacent pieces is writing them at once. *)
Lemma overwrite_overwrite off bs1 bs2 l :
  off ≤ length l →
  overwrite (off + length bs1) bs2 (overwrite off bs1 l) = overwrite off (bs1 ++ bs2) l.
Proof.
  intros. unfold overwrite.
  rewrite (assoc_L (++) (take off l) bs1).
  rewrite take_app_length', drop_app_ge by (rewrite length_app, length_take; lia).
  rewrite drop_drop, length_app. rewrite <-!(assoc_L (++)). do 4 f_equal.
  rewrite length_app, length_take. lia.
Qed.

(** Reading back what was written, and reading elsewhere. *)
Lemma slice_overwrite off bs l :
  off + length bs ≤ length l → slice off (length bs) (overwrite off bs l) = bs.
Proof.
  intros. unfold overwrite. rewrite slice_app_r by (rewrite length_take; lia).
  rewrite length_take, Nat.min_l, Nat.sub_diag by lia.
  rewrite slice_app_l by lia. apply slice_all.
Qed.

(** What stands at [off] after a write there, also when it grew the list. *)
Lemma drop_overwrite off bs l :
  off ≤ length l → drop off (overwrite off bs l) = bs ++ drop (off + length bs) l.
Proof.
  intros. unfold overwrite. rewrite drop_app_length'; [done|rewrite length_take; lia].
Qed.

Lemma length_overwrite_ge off bs l :
  off ≤ length l → length (overwrite off bs l) = length l `max` (off + length bs).
Proof. intros. unfold overwrite. rewrite !length_app, length_take, length_drop. lia. Qed.

Lemma take_overwrite off m bs l :
  m ≤ off → off ≤ length l → take m (overwrite off bs l) = take m l.
Proof.
  intros. unfold overwrite. rewrite take_app_le by (rewrite length_take; lia).
  rewrite take_take. f_equal. lia.
Qed.

Lemma take_overwrite_ge off m bs l :
  off + length bs ≤ m → m ≤ length l →
  take m (overwrite off bs l) = overwrite off bs (take m l).
Proof.
  intros. unfold overwrite. rewrite take_take, Nat.min_l by lia.
  rewrite !take_app, length_take, !(take_ge bs) by lia.
  rewrite take_take. f_equal; [f_equal; lia|]. f_equal.
  rewrite Nat.min_l by lia. rewrite skipn_firstn_comm. f_equal. lia.
Qed.

(** Overwriting at the end of what is kept extends it. *)
Lemma take_overwrite_max off n bs l :
  off ≤ n → n ≤ length l → off + length bs ≤ length l →
  take (n `max` (off + length bs)) (overwrite off bs l) = overwrite off bs (take n l).
Proof.
  intros. destruct (decide (off + length bs ≤ n)).
  - rewrite Nat.max_l by lia. by apply take_overwrite_ge.
  - rewrite Nat.max_r by lia. unfold overwrite.
    rewrite !(assoc_L (++)), take_app_length' by (rewrite length_app, length_take; lia).
    rewrite take_take, Nat.min_l by lia.
    rewrite (drop_ge (take _ _)) by (rewrite length_take; lia). by rewrite app_nil_r.
Qed.

End slices.
