(* ===== verification/StdSet.v ===== *)
(** [std::set] and [std::map] as the sources use them: an ordered sequence
    without equivalent elements, searched with [lower_bound]. *)

From stdpp Require Import base numbers list sets option tactics sorting.
From S2P Require Import Prelude.

(** ** Operations *)

Section ops.
Context {A : Type}.

(** The first position whose element is not [below] the key. *)
Fixpoint lower_bound (below : A → bool) (l : list A) : nat :=
  match l with
  | [] => 0
  | y :: l => if below y then S (lower_bound below l) else 0
  end.

Context (lt : A → A → bool).

(** [find]: the position of the element equivalent to [x]; [None] is [end()]. *)
Definition set_find (l : list A) (x : A) : option nat :=
  let it := lower_bound (λ y, lt y x) l in
  match l !! it with
  | Some y => if lt x y then None else Some it
  | None => None
  end.

(** [insert(x).first] and the new set. *)
Definition set_insert (l : list A) (x : A) : nat * list A :=
  let it := lower_bound (λ y, lt y x) l in
  match set_find l x with
  | Some it => (it, l)
  | None => (it, take it l ++ x :: drop it l)
  end.

(** [erase(it)]; erasing [end()] is undefined. *)
Definition set_erase (l : list A) (it : option nat) : outcome (list A) :=
  match it with
  | Some i => Ok (delete i l)
  | None => Stuck
  end.

End ops.

(** ** Laws for a strict total order *)

Section laws.
Context {A : Type} (lt : A → A → bool).

(** The order of the elements of [l] is strict, total and transitive there. *)
Record strict_on (P : A → Prop) : Prop := {
  lt_irrefl x : P x → lt x x = false;
  lt_trans x y z : P x → P y → P z → lt x y = true → lt y z = true → lt x z = true;
  lt_total x y : P x → P y → lt x y = false → lt y x = false → x = y
}.

Definition ordered (l : list A) : Prop := StronglySorted (λ x y, lt x y = true) l.

Lemma lower_bound_le below (l : list A) : lower_bound below l ≤ length l.
Proof. induction l; simpl; [done|]. case_match; lia. Qed.

Lemma lower_bound_take below (l : list A) :
  Forall (λ y, below y = true) (take (lower_bound below l) l).
Proof. induction l as [|y l IH]; simpl; [done|]. case_match; simpl; by constructor. Qed.

Lemma lower_bound_head below (l : list A) y :
  l !! lower_bound below l = Some y → below y = false.
Proof.
  induction l as [|z l IH]; simpl; [done|]. case_match eqn:E; simpl; [done|].
  by intros [= ->].
Qed.

Lemma ordered_app l1 l2 :
  ordered (l1 ++ l2) ↔
  ordered l1 ∧ ordered l2 ∧ ∀ x y, x ∈ l1 → y ∈ l2 → lt x y = true.
Proof.
  unfold ordered. induction l1 as [|z l1 IH]; simpl.
  - split; [|by intros (_ & ? & _)]. intros. split_and!; [constructor|done|].
    intros x y Hx. by apply not_elem_of_nil in Hx.
  - split.
    + intros [Hs Hf]%StronglySorted_inv. apply IH in Hs as (H1 & H2 & H12).
      apply Forall_app in Hf as [Hf1 Hf2]. rewrite Forall_forall in Hf2.
      split_and!; [by constructor|done|]. intros x y [->|Hx]%elem_of_cons Hy; auto.
    + intros ([H1 Hf]%StronglySorted_inv & H2 & H12). constructor.
      * apply IH. split_and!; [done|done|]. intros. apply H12; [by right|done].
      * apply Forall_app. split; [done|]. apply Forall_forall. intros. apply H12; [by left|done].
Qed.

Lemma ordered_NoDup P l : strict_on P → Forall P l → ordered l → NoDup l.
Proof.
  intros HP. induction l as [|x l IH]; intros Hl Ho; [constructor|].
  apply Forall_cons in Hl as [Hx Hl]. apply StronglySorted_inv in Ho as [Ho Hf].
  constructor; [|by apply IH]. intros Hin. rewrite Forall_forall in Hf.
  pose proof (Hf x Hin). by rewrite (lt_irrefl P HP x Hx) in *.
Qed.

(** Everything from [lower_bound] on is not below a key that respects the order. *)
Lemma lower_bound_drop P below l :
  strict_on P → Forall P l → ordered l →
  (∀ x y, P x → P y → lt x y = true → below y = true → below x = true) →
  Forall (λ y, below y = false) (drop (lower_bound below l) l).
Proof.
  intros HP Hl Ho Hmono. induction l as [|y l IH]; simpl; [done|].
  apply Forall_cons in Hl as [Hy Hl]. apply StronglySorted_inv in Ho as [Ho Hf].
  destruct (below y) eqn:E; simpl; [by apply IH|]. constructor; [done|].
  rewrite Forall_forall in Hf, Hl |- *. intros z Hz.
  destruct (below z) eqn:Ez; [|done].
  by rewrite (Hmono y z Hy (Hl z Hz) (Hf z Hz) Ez) in E.
Qed.

(** So it cuts the sequence at a predicate that is downward closed. *)
Lemma lower_bound_filter P below l :
  strict_on P → Forall P l → ordered l →
  (∀ x y, P x → P y → lt x y = true → below y = true → below x = true) →
  take (lower_bound below l) l = filter (λ y, below y = true) l ∧
  drop (lower_bound below l) l = filter (λ y, below y = false) l.
Proof.
  intros HP Hl Ho Hmono. pose proof (lower_bound_take below l) as Ht.
  pose proof (lower_bound_drop P below l HP Hl Ho Hmono) as Hd.
  set (n := lower_bound below l) in *. clearbody n.
  rewrite <-(take_drop n l) at 2 4. rewrite !filter_app.
  assert (∀ b (k : list A), Forall (λ y, below y = b) k →
    filter (λ y, below y = b) k = k ∧ filter (λ y, below y = negb b) k = []) as Hk.
  { intros b k. induction 1 as [|z k Hz _ [IH1 IH2]]; [done|].
    rewrite !filter_cons, decide_True, decide_False, IH1, IH2 by (destruct b; simpl; congruence).
    done. }
  apply Hk in Ht as [Ht1 Ht2], Hd as [Hd1 Hd2]. simpl in *.
  by rewrite Ht1, Ht2, Hd1, Hd2, app_nil_r.
Qed.

Lemma below_mono P x :
  strict_on P → P x → ∀ y z, P y → P z → lt y z = true → lt z x = true → lt y x = true.
Proof. intros HP Hx y z Hy Hz. by apply (lt_trans P HP). Qed.

(** [find] returns the element itself when the set has it. *)
Lemma set_find_in P l x :
  strict_on P → P x → Forall P l → ordered l → x ∈ l →
  ∃ i, set_find lt l x = Some i ∧ l !! i = Some x.
Proof.
  intros HP Hx Hl Ho Hin. unfold set_find.
  destruct (lower_bound_filter P (λ y, lt y x) l HP Hl Ho (below_mono P x HP Hx)) as [Ht Hd].
  pose proof (lower_bound_head (λ y, lt y x) l) as Hh.
  set (n := lower_bound _ l) in *. clearbody n.
  assert (x ∈ drop n l) as Hxd.
  { rewrite Hd. apply list_elem_of_filter. split; [|done]. by apply (lt_irrefl P HP). }
  destruct (l !! n) as [y|] eqn:Ey.
  - rewrite (drop_S _ _ _ Ey) in Hxd. specialize (Hh y eq_refl). simpl in Hh.
    rewrite Forall_forall in Hl. pose proof (Hl y (list_elem_of_lookup_2 _ _ _ Ey)) as Hy.
    apply elem_of_cons in Hxd as [->|Hxd].
    + rewrite (lt_irrefl P HP) by done. by exists n.
    + rewrite <-(take_drop_middle _ _ _ Ey) in Ho. apply ordered_app in Ho as (_ & Ho & _).
      apply StronglySorted_inv in Ho as [_ Hf]. rewrite Forall_forall in Hf.
      specialize (Hf x Hxd). simpl in Hf. congruence.
  - apply lookup_ge_None in Ey. rewrite drop_ge in Hxd by done. by apply not_elem_of_nil in Hxd.
Qed.

Lemma set_find_notin P l x :
  strict_on P → P x → Forall P l → x ∉ l → set_find lt l x = None.
Proof.
  intros HP Hx Hl Hin. unfold set_find. case_match eqn:E; [|done].
  pose proof (lower_bound_head _ _ _ E) as Hh. simpl in Hh. destruct (lt x a) eqn:Ea; [done|].
  apply list_elem_of_lookup_2 in E. rewrite Forall_forall in Hl.
  apply (lt_total P HP) in Hh; [|by auto..]. by subst.
Qed.

(** Inserting a new element keeps the order and adds just that element. *)
Lemma set_insert_new P l x :
  strict_on P → P x → Forall P l → ordered l → x ∉ l →
  ordered (set_insert lt l x).2 ∧
  (∀ y, y ∈ (set_insert lt l x).2 ↔ y = x ∨ y ∈ l) ∧
  ((set_insert lt l x).1 = 0 ↔ ∀ y, y ∈ l → lt x y = true).
Proof.
  intros HP Hx Hl Ho Hin. unfold set_insert. rewrite (set_find_notin P) by done. simpl.
  pose proof (lower_bound_take (λ y, lt y x) l) as Ht. rewrite Forall_forall in Ht.
  pose proof (lower_bound_drop P (λ y, lt y x) l HP Hl Ho (below_mono P x HP Hx)) as Hd.
  pose proof (lower_bound_le (λ y, lt y x) l) as Hle.
  set (n := lower_bound _ l) in *. clearbody n.
  assert (∀ y, y ∈ drop n l → lt x y = true) as Hgt.
  { intros y Hy. rewrite Forall_forall in Hd, Hl. specialize (Hd y Hy). simpl in Hd.
    pose proof (subseteq_drop _ _ _ Hy) as Hyl.
    destruct (lt x y) eqn:E; [done|]. apply (lt_total P HP) in E; [|by auto..]. by subst. }
  rewrite <-(take_drop n l) in Ho. apply ordered_app in Ho as (Ho1 & Ho2 & Ho12).
  split_and!.
  - apply ordered_app. split_and!; [done|constructor; [done|by apply Forall_forall]|].
    intros y z Hy [->|Hz]%elem_of_cons; [by apply Ht|by apply Ho12].
  - intros y. rewrite elem_of_app, elem_of_cons. rewrite <-(take_drop n l) at 3.
    rewrite elem_of_app. tauto.
  - split.
    + intros -> y Hy. apply Hgt. by rewrite drop_0.
    + intros Hall. destruct l as [|z l]; [simpl in Hle; lia|]. destruct n as [|n]; [done|].
      assert (z ∈ z :: l) as Hz by by left. specialize (Hall z Hz).
      assert (lt z x = true) as Hzx by (apply Ht; simpl; left).
      rewrite Forall_forall in Hl.
      pose proof (lt_trans P HP x z x Hx (Hl z Hz) Hx Hall Hzx).
      by rewrite (lt_irrefl P HP x Hx) in *.
Qed.

Lemma set_delete_spec P l i x :
  strict_on P → Forall P l → ordered l → l !! i = Some x →
  ordered (delete i l) ∧ ∀ y, y ∈ delete i l ↔ y ∈ l ∧ y ≠ x.
Proof.
  intros HP Hl Ho Hi. rewrite delete_take_drop.
  pose proof (ordered_NoDup P l HP Hl Ho) as Hnd.
  rewrite <-(take_drop_middle _ _ _ Hi) in Ho, Hnd.
  apply ordered_app in Ho as (Ho1 & Ho2 & Ho12). apply StronglySorted_inv in Ho2 as [Ho2 _].
  apply NoDup_app in Hnd as (_ & Hd & Hnd). apply NoDup_cons in Hnd as [Hnd _]. split.
  - apply ordered_app. split_and!; [done|done|]. intros. apply Ho12; [done|by right].
  - intros y. rewrite <-(take_drop_middle _ _ _ Hi) at 3.
    rewrite !elem_of_app, elem_of_cons. set_solver.
Qed.

(** Two orders that agree on the elements sort them alike. *)
Lemma ordered_ext (lt' : A → A → bool) l :
  (∀ x y, x ∈ l → y ∈ l → lt x y = lt' x y) → ordered l →
  StronglySorted (λ x y, lt' x y = true) l.
Proof.
  intros Heq. induction 1 as [|x l Ho IH Hf]; constructor.
  - apply IH. intros. apply Heq; by right.
  - rewrite Forall_forall in Hf |- *. intros y Hy.
    rewrite <-Heq; [by apply Hf|by left|by right].
Qed.

End laws.

Arguments lt_irrefl {A lt P}.
Arguments lt_trans {A lt P}.
Arguments lt_total {A lt P}.
