(* ===== verification/StdMap.v ===== *)
(** [std::map] with a user-given comparison, as the HTTP headers use it: an
    ordered association list in which keys the comparison cannot tell apart are
    one key. *)

From stdpp Require Import gmap base numbers sets option tactics sorting list.
From S2P Require Import Prelude StdSet.

Section map.
Context {K V C : Type} (canon : K → C) (lt : C → C → bool).
Implicit Types m : list (K * V).

Definition map_pos m (k : K) : nat := lower_bound (λ kv, lt (canon kv.1) (canon k)) m.

(** [find(k)]: the pair found, none for [end()]. *)
Definition map_lookup m (k : K) : option (K * V) :=
  match m !! map_pos m k with
  | Some kv => if lt (canon k) (canon kv.1) then None else Some kv
  | None => None
  end.

Definition map_find m (k : K) : option V := snd <$> map_lookup m k.

(** [m[k] = v]: an equivalent key that is already there is kept. *)
Definition map_set m (k : K) (v : V) : list (K * V) :=
  let i := map_pos m k in
  match map_lookup m k with
  | Some kv => <[i := (kv.1, v)]> m
  | None => take i m ++ (k, v) :: drop i m
  end.

(** [erase(k)]. *)
Definition map_erase m (k : K) : list (K * V) :=
  match map_lookup m k with
  | Some _ => delete (map_pos m k) m
  | None => m
  end.

(** ** Laws *)

Definition map_ok m : Prop := ordered lt ((λ kv, canon kv.1) <$> m).

Hypothesis Hlt : strict_on lt (λ _, True).

Lemma all_keys (l : list C) : Forall (λ _, True) l.
Proof. by apply Forall_true. Qed.

Lemma lower_bound_fmap {A B} (f : A → B) (P : B → bool) (l : list A) :
  lower_bound P (f <$> l) = lower_bound (λ x, P (f x)) l.
Proof. induction l; simpl; [done|]. case_match; [by f_equal|done]. Qed.

(** Everything before the position is smaller, everything after it greater. *)
Lemma map_split m k :
  map_ok m →
  ∃ m1 m2, m = m1 ++ match map_lookup m k with Some kv => kv :: m2 | None => m2 end ∧
    length m1 = map_pos m k ∧
    (∀ kv, kv ∈ m1 → lt (canon kv.1) (canon k) = true) ∧
    (∀ kv, kv ∈ m2 → lt (canon k) (canon kv.1) = true) ∧
    match map_lookup m k with Some kv => canon kv.1 = canon k | None => True end.
Proof.
  intros Hok. unfold map_lookup. set (i := map_pos m k).
  assert (Forall (λ kv, lt (canon kv.1) (canon k) = true) (take i m)) as Htake
    by apply lower_bound_take.
  assert (i ≤ length m) as Hi by apply lower_bound_le.
  assert (length (take i m) = i) as Hlen by (rewrite length_take; lia).
  rewrite Forall_forall in Htake.
  destruct (m !! i) as [kv|] eqn:E.
  - assert (lt (canon kv.1) (canon k) = false) as Hge by by apply (lower_bound_head _ _ _ E).
    unfold map_ok in Hok. rewrite <-(take_drop_middle m i kv E) in Hok.
    rewrite fmap_app, fmap_cons in Hok. apply ordered_app in Hok as (_ & Hok & _).
    apply StronglySorted_inv in Hok as [_ Hf]. rewrite Forall_fmap, Forall_forall in Hf. simpl in Hf.
    destruct (lt (canon k) (canon kv.1)) eqn:Ek.
    + exists (take i m), (kv :: drop (S i) m). split_and!; [by rewrite take_drop_middle|done|done| |done].
      intros kv' [->|Hin]%elem_of_cons; [done|].
      apply (lt_trans Hlt _ (canon kv.1)); [done..|]. by apply Hf.
    + assert (canon kv.1 = canon k) as Heq by by apply (lt_total Hlt).
      exists (take i m), (drop (S i) m). split_and!; [by rewrite take_drop_middle|done|done| |done].
      intros kv' Hin. rewrite <-Heq. by apply Hf.
  - apply lookup_ge_None in E. exists (take i m), [].
    split_and!; [by rewrite app_nil_r, take_ge|done|done|intros ? ?%not_elem_of_nil; done|done].
Qed.

Lemma map_lookup_iff m k kv :
  map_ok m → map_lookup m k = Some kv ↔ kv ∈ m ∧ canon kv.1 = canon k.
Proof.
  intros Hok. destruct (map_split m k Hok) as (m1 & m2 & Hm & _ & H1 & H2 & Hk).
  destruct (map_lookup m k) as [kv'|]; rewrite Hm.
  - split; [intros [= ->]; split; [set_solver|done]|]. intros [Hin Heq]. f_equal.
    apply elem_of_app in Hin as [Hin|[->|Hin]%elem_of_cons]; [|done|].
    + apply H1 in Hin. by rewrite Heq, (lt_irrefl Hlt) in Hin.
    + apply H2 in Hin. by rewrite Heq, (lt_irrefl Hlt) in Hin.
  - split; [done|]. intros [[Hin|Hin]%elem_of_app Heq].
    + apply H1 in Hin. by rewrite Heq, (lt_irrefl Hlt) in Hin.
    + apply H2 in Hin. by rewrite Heq, (lt_irrefl Hlt) in Hin.
Qed.

Lemma map_find_iff m k v :
  map_ok m → map_find m k = Some v ↔ ∃ k', (k', v) ∈ m ∧ canon k' = canon k.
Proof.
  intros Hok. unfold map_find. rewrite fmap_Some. split.
  - intros ([k' v'] & Hl & ->). apply map_lookup_iff in Hl as [? ?]; [|done]. by exists k'.
  - intros (k' & Hin & Heq). exists (k', v). split; [|done]. by apply map_lookup_iff.
Qed.

Lemma map_ok_nil : map_ok [].
Proof. constructor. Qed.

Lemma map_set_ok m k v :
  map_ok m → map_ok (map_set m k v) ∧
  ∀ kv, kv ∈ map_set m k v ↔
    (kv ∈ m ∧ canon kv.1 ≠ canon k) ∨
    kv = (default k (fst <$> map_lookup m k), v).
Proof.
  intros Hok. destruct (map_split m k Hok) as (m1 & m2 & Hm & Hlen & H1 & H2 & Hk).
  assert (∀ kv, kv ∈ m1 → canon kv.1 ≠ canon k) as N1.
  { intros kv Hin%H1 Heq. by rewrite Heq, (lt_irrefl Hlt) in Hin. }
  assert (∀ kv, kv ∈ m2 → canon kv.1 ≠ canon k) as N2.
  { intros kv Hin%H2 Heq. by rewrite Heq, (lt_irrefl Hlt) in Hin. }
  unfold map_set. rewrite <-Hlen. destruct (map_lookup m k) as [kv0|] eqn:El; simpl.
  - assert (<[length m1 := (kv0.1, v)]> m = m1 ++ (kv0.1, v) :: m2) as ->.
    { rewrite Hm, insert_app_r_alt, Nat.sub_diag by done. done. }
    split.
    + unfold map_ok in *. rewrite Hm in Hok. rewrite !fmap_app, !fmap_cons in *. done.
    + intros kv. rewrite Hm, !elem_of_app, !elem_of_cons. split.
      * intros [?|[->|?]]; [left; split; [auto|by apply N1]|by right|left; split; [auto|by apply N2]].
      * intros [[[?|[->|?]] ?]| ->]; auto. done.
  - assert (take (length m1) m ++ (k, v) :: drop (length m1) m = m1 ++ (k, v) :: m2) as ->.
    { rewrite Hm. by rewrite take_app_length, drop_app_length. }
    split.
    + unfold map_ok in *. rewrite Hm in Hok. rewrite fmap_app in Hok.
      apply ordered_app in Hok as (O1 & O2 & O12).
      rewrite fmap_app, fmap_cons. apply ordered_app. split_and!; [done| |].
      * constructor; [done|]. rewrite Forall_fmap, Forall_forall. intros kv Hin. by apply H2.
      * intros x y Hx [->|Hy]%elem_of_cons; [|by apply O12].
        apply list_elem_of_fmap in Hx as (kv & -> & Hin). by apply H1.
    + intros kv. rewrite Hm, !elem_of_app, !elem_of_cons. split.
      * intros [?|[->|?]]; [left; split; [auto|by apply N1]|by right|left; split; [auto|by apply N2]].
      * intros [[[?|?] ?]| ->]; auto.
Qed.

Lemma map_erase_ok m k :
  map_ok m → map_ok (map_erase m k) ∧ ∀ kv, kv ∈ map_erase m k ↔ kv ∈ m ∧ canon kv.1 ≠ canon k.
Proof.
  intros Hok. destruct (map_split m k Hok) as (m1 & m2 & Hm & Hlen & H1 & H2 & Hk).
  assert (∀ kv, kv ∈ m1 → canon kv.1 ≠ canon k) as N1.
  { intros kv Hin%H1 Heq. by rewrite Heq, (lt_irrefl Hlt) in Hin. }
  assert (∀ kv, kv ∈ m2 → canon kv.1 ≠ canon k) as N2.
  { intros kv Hin%H2 Heq. by rewrite Heq, (lt_irrefl Hlt) in Hin. }
  unfold map_erase. rewrite <-Hlen. destruct (map_lookup m k) as [kv0|] eqn:El.
  - assert (delete (length m1) m = m1 ++ m2) as ->.
    { rewrite Hm, delete_middle. done. }
    split.
    + unfold map_ok in *. rewrite Hm in Hok. rewrite fmap_app, fmap_cons in Hok.
      apply ordered_app in Hok as (O1 & O2 & O12). apply StronglySorted_inv in O2 as [O2 _].
      rewrite fmap_app. apply ordered_app. split_and!; [done|done|].
      intros x y Hx Hy. apply O12; [done|by right].
    + intros kv. rewrite Hm, !elem_of_app, !elem_of_cons. split.
      * intros [?|?]; split; auto.
      * intros [[?|[->|?]] ?]; auto. done.
  - split; [done|]. intros kv. split; [|by intros [? _]]. intros Hin. split; [done|].
    rewrite Hm in Hin. apply elem_of_app in Hin as [?|?]; auto.
Qed.

(** Reading what was written, and reading something else. *)
Lemma map_find_set_eq m k k' v :
  map_ok m → canon k' = canon k → map_find (map_set m k v) k' = Some v.
Proof.
  intros Hok Heq. destruct (map_set_ok m k v Hok) as [Hok' Hin].
  apply map_find_iff; [done|]. exists (default k (fst <$> map_lookup m k)). split.
  - apply Hin. by right.
  - destruct (map_lookup m k) as [kv|] eqn:E; simpl; [|done].
    apply map_lookup_iff in E as [_ ?]; [|done]. congruence.
Qed.

Lemma map_find_ext m m' k :
  map_ok m → map_ok m' → (∀ kv, canon kv.1 = canon k → kv ∈ m ↔ kv ∈ m') →
  map_find m k = map_find m' k.
Proof.
  intros Hm Hm' Hext. apply option_eq. intros v. rewrite !map_find_iff by done.
  split; intros (k' & Hin & Heq); exists k'; (split; [by apply Hext|done]).
Qed.

Lemma map_find_set_ne m k k' v :
  map_ok m → canon k' ≠ canon k → map_find (map_set m k v) k' = map_find m k'.
Proof.
  intros Hok Hne. destruct (map_set_ok m k v Hok) as [Hok' Hin].
  apply map_find_ext; [done|done|]. intros kv Hkv. rewrite Hin. split.
  - intros [[? _]| ->]; [done|]. exfalso. simpl in Hkv.
    destruct (map_lookup m k) as [kv0|] eqn:E; simpl in Hkv; [|congruence].
    apply map_lookup_iff in E as [_ ?]; [|done]. congruence.
  - intros ?. left. split; [done|]. congruence.
Qed.

Lemma map_find_erase_eq m k k' :
  map_ok m → canon k' = canon k → map_find (map_erase m k) k' = None.
Proof.
  intros Hok Heq. destruct (map_erase_ok m k Hok) as [Hok' Hin].
  destruct (map_find (map_erase m k) k') as [v|] eqn:E; [|done].
  apply map_find_iff in E as (k2 & [_ Hne]%Hin & Hk2); [|done]. simpl in *. congruence.
Qed.

Lemma map_find_erase_ne m k k' :
  map_ok m → canon k' ≠ canon k → map_find (map_erase m k) k' = map_find m k'.
Proof.
  intros Hok Hne. destruct (map_erase_ok m k Hok) as [Hok' Hin].
  apply map_find_ext; [done|done|]. intros kv Hkv. rewrite Hin. split; [by intros [? _]|].
  intros ?. split; [done|]. congruence.
Qed.

(** ** Sequences of operations *)

(** [m[k] = v] and [m.erase(k)]. *)
Inductive map_op : Type :=
| MSet (k : K) (v : V)
| MErase (k : K).

Definition map_step m (o : map_op) : list (K * V) :=
  match o with
  | MSet k v => map_set m k v
  | MErase k => map_erase m k
  end.

(** The same on a finite map from canonical keys. *)
Definition canon_step `{Countable C} (s : gmap C V) (o : map_op) : gmap C V :=
  match o with
  | MSet k v => <[canon k := v]> s
  | MErase k => delete (canon k) s
  end.

Lemma map_step_ok m o : map_ok m → map_ok (map_step m o).
Proof. intros Hok. destruct o; simpl; [by apply map_set_ok|by apply map_erase_ok]. Qed.

Lemma map_steps_ok ops : ∀ m, map_ok m → map_ok (foldl map_step m ops).
Proof. induction ops as [|o ops IH]; intros m Hok; simpl; [done|]. by apply IH, map_step_ok. Qed.

Lemma map_step_refines `{Countable C} m (s : gmap C V) o :
  map_ok m → (∀ k, map_find m k = s !! canon k) →
  ∀ k, map_find (map_step m o) k = canon_step s o !! canon k.
Proof.
  intros Hok Hs k. destruct o as [k' v|k']; simpl; destruct (decide (canon k = canon k')) as [E|E].
  - rewrite E, lookup_insert_eq. by apply map_find_set_eq.
  - rewrite lookup_insert_ne by done. by rewrite map_find_set_ne.
  - rewrite E, lookup_delete_eq. by apply map_find_erase_eq.
  - rewrite lookup_delete_ne by done. by rewrite map_find_erase_ne.
Qed.

Lemma map_steps_refine `{Countable C} ops : ∀ m (s : gmap C V),
  map_ok m → (∀ k, map_find m k = s !! canon k) →
  ∀ k, map_find (foldl map_step m ops) k = foldl canon_step s ops !! canon k.
Proof.
  induction ops as [|o ops IH]; intros m s Hok Hs; simpl; [done|].
  apply IH; [by apply map_step_ok|by apply map_step_refines].
Qed.

End map.

Arguments MSet {K V} k v.
Arguments MErase {K V} k.
