(* ===== verification/Text.v ===== *)
(** Text as the code handles it: a [std::string] or a zero-terminated array is
    the list of its bytes; searching, comparing, printing and reading numbers as
    the C and C++ libraries do. *)

From Stdlib Require Import ZArith Lia.
From stdpp Require Import base numbers option strings pretty tactics sets sorting list list_numbers.
From S2P Require Import Prelude StdSet.

Local Open Scope Z_scope.

Definition text (s : string) : list Z := bytes_of_string s.

(** A number as [operator<<] prints it. *)
Definition dec (n : Z) : list Z := text (pretty n).

(** What a [const char*] to these bytes ends at. *)
Fixpoint c_str (s : list Z) : list Z :=
  match s with
  | [] => []
  | c :: s => if decide (c = 0) then [] else c :: c_str s
  end.

Definition tolower (c : Z) : Z := if decide (65 <= c <= 90) then c + 32 else c.

(** Lexicographic order of zero-terminated strings. *)
Fixpoint bytes_lt (a b : list Z) : bool :=
  match a, b with
  | _, [] => false
  | [], _ :: _ => true
  | x :: a, y :: b => if decide (x < y) then true else if decide (y < x) then false else bytes_lt a b
  end.

Lemma bytes_lt_irrefl a : bytes_lt a a = false.
Proof. induction a as [|x a IH]; simpl; [done|]. by rewrite !decide_False by lia. Qed.

Lemma bytes_lt_trans a : ∀ b c, bytes_lt a b = true → bytes_lt b c = true → bytes_lt a c = true.
Proof.
  induction a as [|x a IH]; intros [|y b] [|z c]; simpl; try done.
  repeat case_decide; try done; try lia. apply IH.
Qed.

Lemma bytes_lt_total a : ∀ b, bytes_lt a b = false → bytes_lt b a = false → a = b.
Proof.
  induction a as [|x a IH]; intros [|y b]; simpl; try done.
  repeat case_decide; try done; try lia. intros H1 H2.
  assert (x = y) as -> by lia. f_equal. by apply IH.
Qed.

Lemma bytes_lt_strict : strict_on bytes_lt (λ _, True).
Proof.
  split.
  - intros x _. apply bytes_lt_irrefl.
  - intros x y z _ _ _. apply bytes_lt_trans.
  - intros x y _ _. apply bytes_lt_total.
Qed.

(** [str.find(c, from)] and [str.find_first_of(set, from)]. *)
Fixpoint find_first (P : Z → bool) (s : list Z) : option nat :=
  match s with
  | [] => None
  | c :: s => if P c then Some 0%nat else S <$> find_first P s
  end.

Definition find_from (P : Z → bool) (s : list Z) (from : nat) : option nat :=
  (λ i, (from + i)%nat) <$> find_first P (drop from s).

(** [str.find(sub, from)]; an empty [sub] is found at [from] if that is in range. *)
Fixpoint find_sub (sub s : list Z) : option nat :=
  if bool_decide (take (length sub) s = sub) then Some 0%nat
  else match s with
       | [] => None
       | _ :: s => S <$> find_sub sub s
       end.

Definition find_sub_from (sub s : list Z) (from : nat) : option nat :=
  if decide (length s < from)%nat then None
  else (λ i, (from + i)%nat) <$> find_sub sub (drop from s).

(** [atoi]: blanks, a sign, and the digits that follow. *)
Definition is_space (c : Z) : bool := bool_decide (c = 32 ∨ 9 <= c <= 13).
Definition is_digit (c : Z) : bool := bool_decide (48 <= c <= 57).

Fixpoint skip_space (s : list Z) : list Z :=
  match s with
  | c :: s' => if is_space c then skip_space s' else s
  | [] => []
  end.

Fixpoint digits (acc : Z) (s : list Z) : Z :=
  match s with
  | c :: s => if is_digit c then digits (acc * 10 + (c - 48)) s else acc
  | [] => acc
  end.

Definition atoi (s : list Z) : Z :=
  match skip_space s with
  | 45 :: s => - digits 0 s
  | 43 :: s => digits 0 s
  | s => digits 0 s
  end.

(** [str.rfind(c)] and [find_last_of]: the last position, none for [npos]. *)
Fixpoint find_last (P : Z → bool) (s : list Z) : option nat :=
  match s with
  | [] => None
  | c :: s => match find_last P s with
              | Some i => Some (S i)
              | None => if P c then Some 0%nat else None
              end
  end.

(** A number as [operator<<] prints it under [std::hex]; the fuel is the number
    of hexadecimal digits of the widest value. *)
Definition hex_digit (d : Z) : Z := if decide (d < 10) then 48 + d else 87 + d.

Fixpoint hex_go (fuel : nat) (n : Z) (acc : list Z) : list Z :=
  match fuel with
  | O => acc
  | S fuel =>
    let acc := hex_digit (n mod 16) :: acc in
    if decide (n / 16 = 0) then acc else hex_go fuel (n / 16) acc
  end.

Definition hex (n : Z) : list Z := hex_go 16 n [].

(** ** Searching *)

Lemma find_first_Some P s i :
  find_first P s = Some i ↔
  ∃ c, s !! i = Some c ∧ P c = true ∧ Forall (λ c, P c = false) (take i s).
Proof.
  revert i. induction s as [|x s IH]; intros i; simpl.
  { split; [done|]. intros (c & Hc & _). by rewrite lookup_nil in Hc. }
  destruct (P x) eqn:E.
  - split.
    + intros [= <-]. exists x. split_and!; [done|done|constructor].
    + intros (c & Hc & HP & Hf). destruct i as [|i]; [done|]. simpl in Hf.
      apply Forall_cons in Hf as [Hx _]. congruence.
  - destruct i as [|i]; simpl.
    + split; [by destruct (find_first P s)|]. intros (c & [= ->] & ? & _). congruence.
    + transitivity (find_first P s = Some i); [destruct (find_first P s); naive_solver|].
      rewrite IH. setoid_rewrite Forall_cons. naive_solver.
Qed.

Lemma find_first_None P s : find_first P s = None ↔ Forall (λ c, P c = false) s.
Proof.
  induction s as [|x s IH]; simpl; [by split|]. rewrite Forall_cons.
  destruct (P x) eqn:E; [split; [done|naive_solver]|].
  rewrite <-IH. destruct (find_first P s); naive_solver.
Qed.

(** The first match in a text is where the part without a match ends. *)
Lemma find_first_app P s c t :
  Forall (λ c, P c = false) s → P c = true → find_first P (s ++ c :: t) = Some (length s).
Proof.
  intros Hs Hc. apply find_first_Some. exists c. split_and!; [|done|].
  - by rewrite lookup_app_r, Nat.sub_diag by lia.
  - by rewrite take_app_length.
Qed.

Lemma find_last_app P s c t :
  P c = true → Forall (λ c, P c = false) t → find_last P (s ++ c :: t) = Some (length s).
Proof.
  intros Hc Ht. assert (find_last P t = None) as Hn.
  { induction Ht as [|x t Hx _ IH]; simpl; [done|]. by rewrite IH, Hx. }
  induction s as [|x s IH]; simpl; [by rewrite Hn, Hc|]. by rewrite IH.
Qed.

Lemma find_last_None P s : find_last P s = None ↔ Forall (λ c, P c = false) s.
Proof.
  induction s as [|x s IH]; simpl; [by split|]. rewrite Forall_cons, <-IH.
  destruct (find_last P s); [naive_solver|]. destruct (P x); naive_solver.
Qed.

Lemma find_last_lt P s i : find_last P s = Some i → (i < length s)%nat.
Proof.
  revert i. induction s as [|x s IH]; intros i; simpl; [done|].
  destruct (find_last P s) as [j|]; [intros [= <-]; specialize (IH j eq_refl); lia|].
  destruct (P x); [intros [= <-]; lia|done].
Qed.

Lemma c_str_id s : Forall (λ c, c ≠ 0) s → c_str s = s.
Proof. induction 1 as [|c s Hc _ IH]; simpl; [done|]. rewrite decide_False by done. by f_equal. Qed.

Lemma c_str_app_0 s t : Forall (λ c, c ≠ 0) s → c_str (s ++ 0 :: t) = s.
Proof. induction 1 as [|c s Hc _ IH]; simpl; [done|]. rewrite decide_False by done. by f_equal. Qed.

(** ** Numbers *)

Lemma digit_char n : (n < 10)%N → Z.of_N (Ascii.N_of_ascii (pretty_N_char n)) = 48 + Z.of_N n.
Proof.
  intros Hn. assert (n ∈ [0; 1; 2; 3; 4; 5; 6; 7; 8; 9]%N) as Hin.
  { assert (n = 0 ∨ n = 1 ∨ n = 2 ∨ n = 3 ∨ n = 4 ∨ n = 5 ∨ n = 6 ∨ n = 7 ∨ n = 8 ∨ n = 9)%N by lia.
    set_solver. }
  repeat (apply elem_of_cons in Hin as [->|Hin]; [reflexivity|]). by apply elem_of_nil in Hin.
Qed.

Lemma text_cons c s : text (String c s) = Z.of_N (Ascii.N_of_ascii c) :: text s.
Proof. done. Qed.

(** What [pretty_N_go] puts before [s]. *)
Lemma pretty_N_go_digits n s :
  Forall (λ c, is_digit c = true) (text s) →
  Forall (λ c, is_digit c = true) (text (pretty_N_go n s)) ∧
  ∀ t, digits 0 (text (pretty_N_go n s) ++ t) = digits (Z.of_N n) (text s ++ t).
Proof.
  revert s. induction (N.lt_wf_0 n) as [n _ IH]; intros s Hs.
  destruct (decide (n = 0%N)) as [->|Hn]; [by rewrite pretty_N_go_0|].
  rewrite pretty_N_go_step by lia.
  assert (n `mod` 10 < 10)%N as Hm by (apply N.mod_lt; lia).
  assert (is_digit (Z.of_N (Ascii.N_of_ascii (pretty_N_char (n `mod` 10)))) = true) as Hd.
  { rewrite digit_char by done. revert Hm. generalize (n `mod` 10)%N. intros d Hd.
    apply bool_decide_eq_true. lia. }
  destruct (IH (n `div` 10)%N) with (s := String (pretty_N_char (n `mod` 10)) s) as [H1 H2].
  { apply N.div_lt; lia. }
  { rewrite text_cons. by constructor. }
  split; [done|]. intros t. rewrite H2, text_cons. simpl. rewrite Hd. f_equal.
  rewrite digit_char by done. rewrite N2Z.inj_div, N2Z.inj_mod.
  rewrite (Z.div_mod (Z.of_N n) 10) at 3 by lia. lia.
Qed.

(** Printing a natural number gives digits, and reading them gives it back. *)
Lemma dec_digits n : 0 <= n → Forall (λ c, is_digit c = true) (dec n).
Proof.
  intros Hn. unfold dec. destruct n as [|p|p]; [by repeat constructor| |lia].
  change (pretty (Z.pos p)) with (pretty_N_go (N.pos p) "").
  by apply pretty_N_go_digits.
Qed.

Lemma digits_dec n t :
  0 <= n → match t with c :: _ => is_digit c = false | [] => True end →
  digits 0 (dec n ++ t) = n.
Proof.
  intros Hn Ht. assert (∀ a, digits a t = a) as Hstop.
  { intros a. destruct t as [|c t]; simpl; [done|]. by rewrite Ht. }
  unfold dec. destruct n as [|p|p]; [apply Hstop| |lia].
  change (pretty (Z.pos p)) with (pretty_N_go (N.pos p) "").
  rewrite (proj2 (pretty_N_go_digits _ "" (Forall_nil_2 _))). apply Hstop.
Qed.

(** A printed number followed by a separator determines the number and the
    rest. *)
Lemma dec_app_inj n m s t :
  0 <= n → 0 <= m →
  match s with c :: _ => is_digit c = false | [] => True end →
  match t with c :: _ => is_digit c = false | [] => True end →
  dec n ++ s = dec m ++ t → n = m ∧ s = t.
Proof.
  intros Hn Hm Hs Ht E. assert (n = m) as ->.
  { by rewrite <-(digits_dec n s), E, digits_dec. }
  split; [done|]. by apply app_inv_head in E.
Qed.

(** [atoi] reads what [operator<<] printed. *)
Lemma atoi_digits s : s ≠ [] → Forall (λ c, is_digit c = true) s → atoi s = digits 0 s.
Proof.
  intros Hs Hd. destruct s as [|c s]; [done|]. apply Forall_cons in Hd as [Hc _].
  apply bool_decide_eq_true in Hc. unfold atoi. simpl skip_space.
  replace (is_space c) with false by (symmetry; apply bool_decide_eq_false; lia).
  assert (c = 48 ∨ c = 49 ∨ c = 50 ∨ c = 51 ∨ c = 52 ∨ c = 53 ∨ c = 54 ∨ c = 55 ∨ c = 56 ∨ c = 57) as Hcase by lia.
  by destruct_or!; subst c.
Qed.

Lemma dec_nonempty n : 0 <= n → dec n ≠ [].
Proof. intros Hn E. pose proof (digits_dec n [] Hn I) as Hz. rewrite app_nil_r, E in Hz. simpl in Hz. by subst n. Qed.

Lemma atoi_dec n : atoi (dec n) = n.
Proof.
  destruct (Z.neg_nonneg_cases n) as [Hn|Hn].
  - destruct n as [|p|p]; [lia..|].
    assert (dec (Z.neg p) = 45 :: dec (Z.pos p)) as -> by exact (text_cons _ _).
    unfold atoi. simpl skip_space. replace (is_space 45) with false by done. cbv iota.
    pose proof (digits_dec (Z.pos p) [] ltac:(lia) I) as E. rewrite app_nil_r in E. by rewrite E.
  - rewrite atoi_digits by (by apply dec_nonempty || by apply dec_digits).
    pose proof (digits_dec n [] Hn I) as E. by rewrite app_nil_r in E.
Qed.
