(* ===== verification/Env.v ===== *)
(** The process environment (sylar/env.h, sylar/env.cc): the command line, the
    help texts and the paths relative to the program. The system's own
    environment variables are a map the caller passes. *)

From Stdlib Require Import ZArith Lia.
From stdpp Require Import base numbers gmap option strings tactics sets list_numbers list.
From S2P Require Import Prelude StdSet StdMap Text.

Local Open Scope Z_scope.

Abbreviation args_map := (list (list Z * list Z)).

(** [class Env]. *)
Record Env : Type := mkEnv {
  m_args : args_map;
  m_helpers : list (list Z * list Z);
  m_program : list Z;
  m_exe : list Z;
  m_cwd : list Z
}.

Definition Env_new : Env := mkEnv [] [] [] [] [].

Definition set_args (e : Env) (args : args_map) : Env :=
  mkEnv args (m_helpers e) (m_program e) (m_exe e) (m_cwd e).

Definition args_set (args : args_map) (key val : list Z) : args_map := map_set id bytes_lt args key val.
Definition args_find (args : args_map) (key : list Z) : option (list Z) := map_find id bytes_lt args key.

Definition env_add (e : Env) (key val : list Z) : Env := set_args e (args_set (m_args e) key val).
Definition env_has (e : Env) (key : list Z) : bool := bool_decide (is_Some (args_find (m_args e) key)).
Definition env_del (e : Env) (key : list Z) : Env := set_args e (map_erase id bytes_lt (m_args e) key).
Definition env_get (e : Env) (key default_val : list Z) : list Z := default default_val (args_find (m_args e) key).

(** ** The command line *)

(** The character '-'. *)
Definition DASH : Z := 45.
Definition SLASH : Z := 47.

Definition is_option (arg : list Z) : bool := bool_decide (head arg = Some DASH).

(** [if (now_key) add(now_key, val);] *)
Definition add_key (args : args_map) (now_key : option (list Z)) (val : list Z) : args_map :=
  match now_key with Some key => args_set args key val | None => args end.

(** The loop of [init] over the arguments after the first. *)
Fixpoint parse_args (argv : list (list Z)) (now_key : option (list Z)) (args : args_map) : bool * args_map :=
  match argv with
  | [] => (true, add_key args now_key [])
  | arg :: argv =>
    if is_option arg then
      if decide (1 < length arg)%nat then parse_args argv (Some (tail arg)) (add_key args now_key [])
      else (false, args)
    else
      match now_key with
      | Some key => parse_args argv None (args_set args key arg)
      | None => (false, args)
      end
  end.

(** [find_last_of("/")] and [substr(0, pos)]. *)
Definition last_slash (s : list Z) : option nat := find_last (λ c, bool_decide (c = SLASH)) s.

Definition before_slash (s : list Z) : list Z :=
  match last_slash s with Some i => take i s | None => s end.

(** The size of the buffers for the path of the program. *)
Definition PATH_BUFFER : nat := 1024.

(** [init(argc, argv)]: [exe] is what [readlink] returns. A path that fills the
    buffer is not terminated. *)
Definition env_init (e : Env) (argv : list (list Z)) (exe : option (list Z)) : outcome (bool * Env) :=
  match exe with
  | None => mret (false, e)
  | Some path =>
    if decide (PATH_BUFFER <= length path)%nat then Stuck else
    program ← deref (argv !! 0%nat);
    let '(ok, args) := parse_args (tail argv) None (m_args e) in
    mret (ok, mkEnv args (m_helpers e) program path (before_slash path ++ [SLASH]))
  end.

(** ** Help texts and paths *)

(** [removeHelper]: the loop with [erase]. *)
Fixpoint remove_helper (l : list (list Z * list Z)) (key : list Z) : list (list Z * list Z) :=
  match l with
  | [] => []
  | h :: l => if decide (h.1 = key) then remove_helper l key else h :: remove_helper l key
  end.

Definition removeHelper (e : Env) (key : list Z) : Env :=
  mkEnv (m_args e) (remove_helper (m_helpers e) key) (m_program e) (m_exe e) (m_cwd e).

Definition addHelper (e : Env) (key desc : list Z) : Env :=
  let e := removeHelper e key in
  mkEnv (m_args e) (m_helpers e ++ [(key, desc)]) (m_program e) (m_exe e) (m_cwd e).

(** [printHelper]: what it prints. *)
Definition printHelper (e : Env) : list Z :=
  text "Usage: " ++ m_program e ++ text " [options]" ++ [10] ++
  mjoin ((λ h : list Z * list Z, text "    -" ++ h.1 ++ text " : " ++ h.2 ++ [10]) <$> m_helpers e).

(** [setEnv] and [getEnv] over the variables of the process; [setenv] refuses
    names that are empty or contain '='. *)
Definition setEnv (vars : gmap (list Z) (list Z)) (key val : list Z) : bool * gmap (list Z) (list Z) :=
  if decide (key = [] ∨ 61 ∈ key) then (false, vars) else (true, <[key := val]> vars).

Definition getEnv (vars : gmap (list Z) (list Z)) (key default_val : list Z) : list Z :=
  default default_val (vars !! key).

Definition getAbsolutePath (e : Env) (path : list Z) : list Z :=
  match path with
  | [] => [SLASH]
  | c :: _ => if decide (c = SLASH) then path else m_cwd e ++ path
  end.

Definition getConfigPath (e : Env) : list Z := getAbsolutePath e (env_get e (text "c") (text "conf")).

(** ** Correctness *)

(** A command line as the user means it: keys, some of them with a value. *)
Definition option_ok (o : list Z * option (list Z)) : Prop :=
  o.1 ≠ [] ∧ match o.2 with Some v => is_option v = false | None => True end.

Definition render_option (o : list Z * option (list Z)) : list (list Z) :=
  (DASH :: o.1) :: option_list o.2.

Definition render (opts : list (list Z * option (list Z))) : list (list Z) := mjoin (render_option <$> opts).

(** Their effect, in order; a key without a value has the empty one. *)
Definition apply_options (args : args_map) (opts : list (list Z * option (list Z))) : args_map :=
  foldl (λ args o, args_set args o.1 (default [] o.2)) args opts.

Lemma is_option_true arg : is_option arg = true ↔ ∃ key, arg = DASH :: key.
Proof.
  unfold is_option. rewrite bool_decide_eq_true. destruct arg as [|c key]; simpl.
  - split; [done|by intros [? ?]].
  - split; [intros [= ->]; by exists key|by intros [? [= -> _]]].
Qed.

(** The loop, with a key still to be given its value. *)
Lemma parse_args_spec argv : ∀ now_key args args',
  parse_args argv now_key args = (true, args') ↔
  ∃ v opts, Forall option_ok opts ∧ argv = option_list v ++ render opts ∧
    args' = apply_options (add_key args now_key (default [] v)) opts ∧
    match v with Some v => is_option v = false ∧ is_Some now_key | None => True end.
Proof.
  induction argv as [|arg argv IH]; intros now_key args args'; cbn [parse_args].
  - split.
    + intros [= <-]. exists None, []. split_and!; [constructor|done..].
    + intros ([v|] & [|[k ov] opts] & _ & E & -> & _); simplify_eq/=; done.
  - destruct (is_option arg) eqn:Eo.
    + apply is_option_true in Eo as [key ->]. case_decide as Hlen.
      * rewrite IH. simpl tail. split.
        -- intros (v & opts & Hok & -> & -> & Hv). exists None, ((key, v) :: opts). split_and!; [|done..].
           constructor; [|done]. split; [simpl in *; by destruct key; [simpl in Hlen; lia|]|]. by destruct v; [destruct Hv|].
        -- intros ([v|] & opts & Hok & E & -> & Hv).
           { injection E as <- _. destruct Hv as [Hv _]. done. }
           destruct opts as [|[k ov] opts]; [done|]. injection E as <- ->.
           apply Forall_cons in Hok as [[Hk Hov] Hok]. exists ov, opts. split_and!; [done..|].
           simpl in Hov. destruct ov; [split; [done|by eexists]|done].
      * split; [done|]. intros ([v|] & opts & Hok & E & -> & Hv).
        { injection E as <- _. destruct Hv as [Hv _]. done. }
        destruct opts as [|[k ov] opts]; [done|]. injection E as <- ->.
        apply Forall_cons in Hok as [[Hk _] _]. destruct key; [done|]. simpl in Hlen. lia.
    + destruct now_key as [key|].
      * rewrite IH. split.
        -- intros ([v|] & opts & Hok & -> & -> & Hv); [by destruct Hv as [_ [? ?]]|].
           exists (Some arg), opts. split_and!; [done..|by eexists].
        -- intros ([v|] & opts & Hok & E & -> & Hv).
           { injection E as -> ->. exists None, opts. by split_and!. }
           destruct opts as [|[k ov] opts]; [done|]. injection E as -> _. done.
      * split; [done|]. intros ([v|] & opts & Hok & E & -> & Hv); [by destruct Hv as [_ [? ?]]|].
        destruct opts as [|[k ov] opts]; [done|]. injection E as -> _. done.
Qed.

Lemma apply_options_snoc args opts o :
  apply_options args (opts ++ [o]) = args_set (apply_options args opts) o.1 (default [] o.2).
Proof. unfold apply_options. by rewrite foldl_app. Qed.

Lemma apply_options_ok args opts : map_ok id bytes_lt args → map_ok id bytes_lt (apply_options args opts).
Proof.
  intros Hok. induction opts as [|o opts IH] using rev_ind; [done|]. rewrite apply_options_snoc.
  by apply (map_set_ok id bytes_lt bytes_lt_strict).
Qed.

(** The option that decides the value of a key. *)
Definition deciding (opts : list (list Z * option (list Z))) (key : list Z) : option (list Z * option (list Z)) :=
  last (filter (λ o, o.1 = key) opts).

Lemma apply_options_find args opts key :
  map_ok id bytes_lt args →
  args_find (apply_options args opts) key =
  match deciding opts key with Some o => Some (default [] o.2) | None => args_find args key end.
Proof.
  intros Hok. induction opts as [|o opts IH] using rev_ind; [done|].
  rewrite apply_options_snoc. unfold deciding, args_find, args_set in *. rewrite filter_app.
  pose proof (apply_options_ok args opts Hok) as Hok'.
  destruct (decide (o.1 = key)) as [Heq|Hne].
  - rewrite filter_cons_True, filter_nil, last_snoc by done.
    by apply (map_find_set_eq id bytes_lt bytes_lt_strict).
  - rewrite filter_cons_False, filter_nil, app_nil_r by done.
    rewrite (map_find_set_ne id bytes_lt bytes_lt_strict) by (done || naive_solver). done.
Qed.

(** [init] accepts exactly the command lines that are made of keys, each
    followed by at most one value that does not begin with a dash, and then
    every key has the value that was given last, the empty one if it had none,
    and keys not mentioned keep what they had. Anything else is refused: a value
    without a key, a single dash, and every value after a first one. *)
Theorem command_line_roundtrip e argv path b e' :
  map_ok id bytes_lt (m_args e) → env_init e argv (Some path) = Ok (b, e') →
  (b = true ↔ ∃ opts, Forall option_ok opts ∧ tail argv = render opts) ∧
  (∀ opts, Forall option_ok opts → tail argv = render opts →
     ∀ key def, env_get e' key def =
       match deciding opts key with Some o => default [] o.2 | None => env_get e key def end ∧
     (env_has e' key = true ↔ is_Some (deciding opts key) ∨ env_has e key = true)).
Proof.
  intros Hok. unfold env_init. case_decide; [done|].
  intros (program & _ & E)%outcome_bind_ok.
  destruct (parse_args (tail argv) None (m_args e)) as [ok args] eqn:Ep. injection E as -> <-.
  assert (∀ args', parse_args (tail argv) None (m_args e) = (true, args') ↔
    ∃ opts, Forall option_ok opts ∧ tail argv = render opts ∧ args' = apply_options (m_args e) opts) as Hspec.
  { intros args'. rewrite parse_args_spec. split.
    - intros ([v|] & opts & Ho & E1 & E2 & Hv); [by destruct Hv as [_ [? ?]]|]. by exists opts.
    - intros (opts & Ho & E1 & E2). by exists None, opts. }
  split.
  - split.
    + intros ->. apply Hspec in Ep as (opts & ? & ? & _). by exists opts.
    + intros (opts & Ho & E). pose proof (proj2 (Hspec _) (ex_intro _ opts (conj Ho (conj E eq_refl)))). congruence.
  - intros opts Ho E key def.
    pose proof (proj2 (Hspec _) (ex_intro _ opts (conj Ho (conj E eq_refl)))) as E2.
    rewrite Ep in E2. injection E2 as -> ->. unfold env_get, env_has. simpl.
    rewrite apply_options_find by done. destruct (deciding opts key) as [o|]; simpl.
    + split; [done|]. split; [left; by eexists|done].
    + split; [done|]. split; [by right|]. by intros [[? ?]|?].
Qed.

(** -d -c conf *)
Definition daemon_line : list (list Z) := [text "server"; text "-d"; text "-c"; text "conf"].
Definition daemon_opts : list (list Z * option (list Z)) := [(text "d", None); (text "c", Some (text "conf"))].

Definition daemon_env : bool * Env :=
  match env_init Env_new daemon_line (Some (text "/opt/sylar/server")) with Ok r => r | _ => (false, Env_new) end.

Lemma command_line_roundtrip_witness :
  env_get daemon_env.2 (text "c") [] = text "conf" ∧ env_has daemon_env.2 (text "d") = true.
Proof.
  assert (∀ key def, env_get daemon_env.2 key def =
       match deciding daemon_opts key with Some o => default [] o.2 | None => env_get Env_new key def end ∧
     (env_has daemon_env.2 key = true ↔ is_Some (deciding daemon_opts key) ∨ env_has Env_new key = true)) as H.
  { apply (command_line_roundtrip Env_new daemon_line (text "/opt/sylar/server") daemon_env.1 daemon_env.2).
    - constructor.
    - vm_compute. reflexivity.
    - constructor; [split; [discriminate|exact I]|]. constructor; [split; [discriminate|reflexivity]|constructor].
    - reflexivity. }
  split.
  - rewrite (proj1 (H (text "c") [])). vm_compute. reflexivity.
  - apply (H (text "d") []). left. vm_compute. eexists. reflexivity.
Defined.

(** ** Help and paths *)

Lemma remove_helper_filter l key : remove_helper l key = filter (λ h, h.1 ≠ key) l.
Proof.
  induction l as [|h l IH]; [done|]. simpl. case_decide.
  - rewrite filter_cons_False by naive_solver. done.
  - rewrite filter_cons_True by done. by rewrite IH.
Qed.

(** A help text replaces the one its key had, and the others stay in order. *)
Lemma addHelper_replaces e key desc :
  filter (λ h, h.1 = key) (m_helpers (addHelper e key desc)) = [(key, desc)] ∧
  filter (λ h, h.1 ≠ key) (m_helpers (addHelper e key desc)) = filter (λ h, h.1 ≠ key) (m_helpers e).
Proof.
  simpl. rewrite remove_helper_filter, !filter_app.
  assert (filter (λ h, h.1 = key) (filter (λ h, h.1 ≠ key) (m_helpers e)) = []) as ->.
  { induction (m_helpers e) as [|h l IH]; [done|]. destruct (decide (h.1 = key)).
    - rewrite (filter_cons_False (λ h, h.1 ≠ key)) by naive_solver. done.
    - rewrite (filter_cons_True (λ h, h.1 ≠ key)) by done. by rewrite filter_cons_False. }
  rewrite filter_cons_True, filter_cons_False by naive_solver. rewrite !filter_nil, app_nil_r.
  split; [done|]. rewrite list_filter_filter. apply list_filter_iff. naive_solver.
Qed.

(** The paths the program uses are absolute, and what the user gave as an
    absolute path is used as it is. *)
Lemma getAbsolutePath_absolute e path :
  head (m_cwd e) = Some SLASH →
  head (getAbsolutePath e path) = Some SLASH ∧ (head path = Some SLASH → getAbsolutePath e path = path).
Proof.
  intros Hcwd. unfold getAbsolutePath. destruct path as [|c path]; [done|]. case_decide as Hc.
  - subst c. done.
  - split; [by destruct (m_cwd e)|]. intros [= ->]. done.
Qed.

Lemma last_slash_None s : last_slash s = None → SLASH ∉ s.
Proof. intros Hf%find_last_None Hin. by apply (proj1 (Forall_forall _ _) Hf), bool_decide_eq_false in Hin. Qed.

Lemma last_slash_split s i :
  last_slash s = Some i → s = take i s ++ SLASH :: drop (S i) s ∧ SLASH ∉ drop (S i) s.
Proof.
  unfold last_slash. revert i. induction s as [|c s IH]; intros i; simpl; [done|].
  destruct (find_last _ s) as [j|] eqn:E.
  - intros [= <-]. destruct (IH j eq_refl) as [H1 H2]. simpl. split; [by f_equal|done].
  - case_bool_decide as Hc; [|done]. intros [= <-]. subst c. simpl. rewrite drop_0.
    split; [done|by apply last_slash_None].
Qed.

(** The directory of the program, with a slash at its end: the path of the
    program is that directory and a name without slashes. *)
Lemma env_init_cwd e argv path b e' :
  env_init e argv (Some path) = Ok (b, e') → SLASH ∈ path →
  ∃ name, path = m_cwd e' ++ name ∧ SLASH ∉ name.
Proof.
  unfold env_init. case_decide; [done|]. intros (program & _ & E)%outcome_bind_ok Hin.
  destruct (parse_args _ _ _) as [ok args]. injection E as <- <-. simpl. unfold before_slash.
  destruct (last_slash path) as [i|] eqn:El; [|by apply last_slash_None in El].
  destruct (last_slash_split path i El) as [H1 H2]. exists (drop (S i) path).
  split; [by rewrite <-(assoc_L (++))|done].
Qed.
