(* ===== verification/Endian.v ===== *)
(** Byte order: the integer types of the wire formats, their representation in
    memory and the [byteswap] templates of [sylar/endian.h].

    The byte order of the machine is chosen by the preprocessor
    ([SYLAR_BYTE_ORDER]); here it is a parameter, and every theorem holds for
    both orders. *)

From stdpp Require Import base numbers list list_numbers tactics.
From Stdlib Require Import ZArith Lia.
From S2P Require Import Prelude.

Local Open Scope Z_scope.

(** [SYLAR_LITTLE_ENDIAN] and [SYLAR_BIG_ENDIAN]. *)
Inductive endian : Type := SYLAR_LITTLE_ENDIAN | SYLAR_BIG_ENDIAN.

#[export] Instance endian_eq_dec : EqDecision endian.
Proof. solve_decision. Defined.

(** An integer type: its size in bytes and its signedness. *)
Record ctype : Type := CType { sizeof : nat; is_signed : bool }.

Definition int8_t := CType 1 true.
Definition uint8_t := CType 1 false.
Definition int16_t := CType 2 true.
Definition uint16_t := CType 2 false.
Definition int32_t := CType 4 true.
Definition uint32_t := CType 4 false.
Definition int64_t := CType 8 true.
Definition uint64_t := CType 8 false.

Definition bits (t : ctype) : Z := 8 * Z.of_nat (sizeof t).

(** The conversion [(T)z]. *)
Definition cast (t : ctype) (z : Z) : Z :=
  if is_signed t then swrap (bits t) z else uwrap (bits t) z.

Definition in_type (t : ctype) (z : Z) : Prop :=
  if is_signed t then in_signed (bits t) z else in_unsigned (bits t) z.

#[export] Instance in_type_dec t z : Decision (in_type t z).
Proof. unfold in_type. destruct (is_signed t); apply _. Defined.

(** The bytes of a value, least significant first, and the value of bytes. *)
Fixpoint bytes_le (n : nat) (z : Z) : list Z :=
  match n with
  | O => []
  | S n => z mod 256 :: bytes_le n (z / 256)
  end.

Fixpoint le_value (bs : list Z) : Z :=
  match bs with
  | [] => 0
  | b :: bs => b + 256 * le_value bs
  end.

(** What the object representation of a [t] holding [z] is in memory, and the
    value of a [t] whose representation is [bs]. *)
Definition to_memory (order : endian) (t : ctype) (z : Z) : list Z :=
  let bs := bytes_le (sizeof t) z in
  match order with
  | SYLAR_LITTLE_ENDIAN => bs
  | SYLAR_BIG_ENDIAN => reverse bs
  end.

Definition of_memory (order : endian) (t : ctype) (bs : list Z) : Z :=
  cast t (le_value match order with
                   | SYLAR_LITTLE_ENDIAN => bs
                   | SYLAR_BIG_ENDIAN => reverse bs
                   end).

(** glibc's [bswap_16], [bswap_32] and [bswap_64]: reverse the bytes. *)
Definition bswap (n : nat) (z : Z) : Z := le_value (reverse (bytes_le n z)).

(** [byteswap(T val)]: one template per size, each [(T)bswap_w((uintw_t)val)]. *)
Definition byteswap (t : ctype) (val : Z) : Z :=
  cast t (bswap (sizeof t) (uwrap (bits t) val)).

Definition byteswapOnLittleEndian (order : endian) (t : ctype) (v : Z) : Z :=
  match order with
  | SYLAR_BIG_ENDIAN => v
  | SYLAR_LITTLE_ENDIAN => byteswap t v
  end.

Definition byteswapOnBigEndian (order : endian) (t : ctype) (v : Z) : Z :=
  match order with
  | SYLAR_BIG_ENDIAN => byteswap t v
  | SYLAR_LITTLE_ENDIAN => v
  end.

(** ** Lemmas *)

Lemma bits_nonneg t : 0 <= bits t.
Proof. unfold bits. lia. Qed.

Lemma length_bytes_le n z : length (bytes_le n z) = n.
Proof. revert z. induction n; intros; simpl; auto. Qed.

Lemma bytes_le_bytes n z : Forall is_byte (bytes_le n z).
Proof.
  revert z. induction n; intros; simpl; constructor; auto.
  apply Z.mod_pos_bound. lia.
Qed.

Lemma pow256_S n : 2 ^ (8 * Z.of_nat (S n)) = 256 * 2 ^ (8 * Z.of_nat n).
Proof.
  replace (8 * Z.of_nat (S n)) with (8 + 8 * Z.of_nat n) by lia.
  rewrite Z.pow_add_r by lia. reflexivity.
Qed.

Lemma le_value_bytes_le n z : le_value (bytes_le n z) = z mod 2 ^ (8 * Z.of_nat n).
Proof.
  revert z. induction n as [|n IH]; intros z; [symmetry; apply Z.mod_1_r|].
  cbn [bytes_le le_value]. rewrite IH, pow256_S.
  symmetry. apply Z.rem_mul_r; lia.
Qed.

Lemma le_value_range bs :
  Forall is_byte bs → 0 <= le_value bs < 2 ^ (8 * Z.of_nat (length bs)).
Proof.
  induction 1 as [|b bs Hb _ IH]; [done|].
  cbn [length le_value]. rewrite pow256_S. unfold is_byte in Hb. lia.
Qed.

Lemma bytes_le_le_value bs : Forall is_byte bs → bytes_le (length bs) (le_value bs) = bs.
Proof.
  induction 1 as [|b bs Hb _ IH]; [done|]. cbn [length le_value bytes_le].
  unfold is_byte in Hb. f_equal.
  - rewrite Z.mul_comm, Z.mod_add, Z.mod_small; lia.
  - rewrite Z.add_comm, Z.mul_comm, Z.div_add_l, Z.div_small by lia.
    by rewrite Z.add_0_r.
Qed.

Lemma bytes_le_mod n z : bytes_le n (z mod 2 ^ (8 * Z.of_nat n)) = bytes_le n z.
Proof.
  rewrite <-(le_value_bytes_le n z).
  rewrite <-(length_bytes_le n z) at 1. apply bytes_le_le_value, bytes_le_bytes.
Qed.

Lemma cast_in_type t z : (0 < sizeof t)%nat → in_type t (cast t z).
Proof.
  intros. unfold in_type, cast, bits. destruct (is_signed t).
  - apply swrap_range. lia.
  - apply uwrap_range. lia.
Qed.

Lemma cast_id t z : (0 < sizeof t)%nat → in_type t z → cast t z = z.
Proof.
  intros ?. unfold in_type, cast. destruct (is_signed t); intros.
  - apply swrap_small; [unfold bits; lia|done].
  - by apply uwrap_small.
Qed.

Lemma cast_uwrap t z : cast t (uwrap (bits t) z) = cast t z.
Proof.
  unfold cast. destruct (is_signed t); [apply swrap_uwrap|].
  apply uwrap_small, uwrap_range, bits_nonneg.
Qed.

Lemma bytes_le_cast t z : bytes_le (sizeof t) (cast t z) = bytes_le (sizeof t) z.
Proof.
  rewrite <-(bytes_le_mod _ (cast t z)), <-(bytes_le_mod _ z).
  change (8 * Z.of_nat (sizeof t)) with (bits t).
  change (bytes_le (sizeof t) (uwrap (bits t) (cast t z)) =
          bytes_le (sizeof t) (uwrap (bits t) z)).
  f_equal. pose proof (bits_nonneg t). unfold cast. destruct (is_signed t).
  - by apply uwrap_swrap.
  - by rewrite (uwrap_small _ (uwrap _ _)) by by apply uwrap_range.
Qed.

Lemma cast_le_value_bytes_le t z : cast t (le_value (bytes_le (sizeof t) z)) = cast t z.
Proof. rewrite le_value_bytes_le. apply cast_uwrap. Qed.

Lemma bytes_le_bswap n z : bytes_le n (bswap n z) = reverse (bytes_le n z).
Proof.
  unfold bswap.
  replace n with (length (reverse (bytes_le n z))) at 1
    by by rewrite length_reverse, length_bytes_le.
  apply bytes_le_le_value. apply Forall_reverse, bytes_le_bytes.
Qed.

(** The bytes of a swapped value are the bytes of the value reversed. *)
Lemma bytes_le_byteswap t z :
  bytes_le (sizeof t) (byteswap t z) = reverse (bytes_le (sizeof t) z).
Proof.
  unfold byteswap. rewrite bytes_le_cast, bytes_le_bswap. f_equal. apply bytes_le_mod.
Qed.

Lemma byteswap_in_type t z : (0 < sizeof t)%nat → in_type t (byteswap t z).
Proof. apply cast_in_type. Qed.

Lemma length_to_memory order t z : length (to_memory order t z) = sizeof t.
Proof. destruct order; simpl; by rewrite ?length_reverse, length_bytes_le. Qed.

Lemma to_memory_bytes order t z : Forall is_byte (to_memory order t z).
Proof. destruct order; [|apply Forall_reverse]; apply bytes_le_bytes. Qed.

Lemma of_to_memory order t z : of_memory order t (to_memory order t z) = cast t z.
Proof.
  destruct order; unfold of_memory, to_memory; rewrite ?reverse_involutive;
    apply cast_le_value_bytes_le.
Qed.

Lemma of_to_memory_id order t z :
  (0 < sizeof t)%nat → in_type t z → of_memory order t (to_memory order t z) = z.
Proof. intros. rewrite of_to_memory. by apply cast_id. Qed.

(** Involution of [byteswap], the fact every endian-neutral reader
    relies on. *)
Lemma byteswap_byteswap t z : byteswap t (byteswap t z) = cast t z.
Proof.
  unfold byteswap at 1. unfold bswap.
  rewrite <-(bytes_le_mod (sizeof t) (uwrap _ _)).
  change (2 ^ (8 * Z.of_nat (sizeof t))) with (2 ^ bits t).
  unfold uwrap. rewrite Zmod_mod. change (2 ^ bits t) with (2 ^ (8 * Z.of_nat (sizeof t))).
  rewrite bytes_le_mod, bytes_le_byteswap, reverse_involutive.
  apply cast_le_value_bytes_le.
Qed.

(** Storing the swapped value is storing the value in the other order. *)
Lemma to_memory_byteswap order t z :
  to_memory order t (byteswap t z) = reverse (to_memory order t z).
Proof.
  destruct order; unfold to_memory; by rewrite bytes_le_byteswap, ?reverse_involutive.
Qed.

(** [byteswapOnLittleEndian] puts a value into network order on both kinds of
    machine. *)
Lemma to_memory_network order t z :
  to_memory order t (byteswapOnLittleEndian order t z) = reverse (bytes_le (sizeof t) z).
Proof.
  destruct order; cbn [byteswapOnLittleEndian]; [by rewrite to_memory_byteswap|done].
Qed.

Lemma byteswapOnLittleEndian_twice order t z :
  (0 < sizeof t)%nat → in_type t z →
  byteswapOnLittleEndian order t (byteswapOnLittleEndian order t z) = z.
Proof.
  intros. destruct order; simpl; [|done]. rewrite byteswap_byteswap. by apply cast_id.
Qed.
