(* ===== verification/Address.v ===== *)
(** Socket addresses (sylar/address.h, sylar/address.cc): the four kinds of
    address with the socket structures they hold, their text forms, masks,
    comparison, and the lookup of names and network interfaces. The resolver and
    the interface list of the system are parameters. *)

From Stdlib Require Import ZArith Lia.
From stdpp Require Import base numbers option strings tactics sorting list list_numbers.
From S2P Require Import Prelude StdSet Text Endian.

Local Open Scope Z_scope.

(** ** Socket structures *)

Definition AF_UNSPEC : Z := 0.
Definition AF_UNIX : Z := 1.
Definition AF_INET : Z := 2.
Definition AF_INET6 : Z := 10.

(** The structures of the system's headers; ports and IPv4 addresses are the
    values of their variables, which hold them in network order. *)
Record sockaddr_in : Type := mkIn {
  sin_family : Z;
  sin_port : Z;
  s_addr : Z;
  sin_zero : list Z
}.

Record sockaddr_in6 : Type := mkIn6 {
  sin6_family : Z;
  sin6_port : Z;
  sin6_flowinfo : Z;
  s6_addr : list Z;
  sin6_scope_id : Z
}.

Record sockaddr_un : Type := mkUn {
  sun_family : Z;
  sun_path : list Z
}.

Record sockaddr : Type := mkSa {
  sa_family : Z;
  sa_data : list Z
}.

(** The classes derived from [Address]. *)
Inductive Address : Type :=
| IPv4Address (m_addr : sockaddr_in)
| IPv6Address (m_addr : sockaddr_in6)
| UnixAddress (m_addr : sockaddr_un) (m_length : Z)
| UnknownAddress (m_addr : sockaddr).

(** [sizeof(sun_path)] and [offsetof(sockaddr_un, sun_path)]. *)
Definition SUN_PATH : Z := 108.
Definition SUN_OFFSET : Z := 2.

Definition MAX_PATH_LEN : Z := SUN_PATH - 1.

(** [CreateMask<uint32_t>(bits)]: the shift is that of an [int]; it is undefined
    for the full width, and so is the subtraction from the smallest [int]. *)
Definition CreateMask (bits : Z) : outcome Z :=
  let shift := u64 (32 - bits) in
  if decide (32 <= shift) then Stuck else
  let one := s32 (Z.shiftl 1 shift) in
  if decide (one - 1 < - 2 ^ 31) then Stuck else Ok (u32 (one - 1)).

(** [CountBytes<T>(value)] for an unsigned [T] of [w] bits: the loop clears one
    bit per turn. *)
Fixpoint CountBytes_loop (fuel : nat) (value result : Z) : outcome Z :=
  match fuel with
  | O => Stuck
  | S fuel =>
    if decide (value = 0) then Ok result
    else CountBytes_loop fuel (Z.land value (value - 1)) (u32 (result + 1))
  end.

Definition CountBytes (t : ctype) (value : Z) : outcome Z :=
  CountBytes_loop (S (Z.to_nat (bits t))) value 0.

Section address.
(** The byte order of the machine. *)
Context (order : endian).

(** ** Memory images *)

Definition u16_at (bs : list Z) (i : nat) : Z := of_memory order uint16_t (slice i 2 bs).
Definition u32_at (bs : list Z) (i : nat) : Z := of_memory order uint32_t (slice i 4 bs).

Definition in_bytes (a : sockaddr_in) : list Z :=
  to_memory order uint16_t (sin_family a) ++ to_memory order uint16_t (sin_port a) ++
  to_memory order uint32_t (s_addr a) ++ sin_zero a.

Definition in6_bytes (a : sockaddr_in6) : list Z :=
  to_memory order uint16_t (sin6_family a) ++ to_memory order uint16_t (sin6_port a) ++
  to_memory order uint32_t (sin6_flowinfo a) ++ s6_addr a ++
  to_memory order uint32_t (sin6_scope_id a).

Definition un_bytes (a : sockaddr_un) : list Z :=
  to_memory order uint16_t (sun_family a) ++ sun_path a.

Definition sa_bytes (a : sockaddr) : list Z :=
  to_memory order uint16_t (sa_family a) ++ sa_data a.

(** [*(const sockaddr_in* )addr] and the like: the object has to be there. *)
Definition read_in (bs : list Z) : outcome sockaddr_in :=
  if decide (16 <= length bs)%nat then
    Ok (mkIn (u16_at bs 0) (u16_at bs 2) (u32_at bs 4) (slice 8 8 bs))
  else Stuck.

Definition read_in6 (bs : list Z) : outcome sockaddr_in6 :=
  if decide (28 <= length bs)%nat then
    Ok (mkIn6 (u16_at bs 0) (u16_at bs 2) (u32_at bs 4) (slice 8 16 bs) (u32_at bs 24))
  else Stuck.

Definition read_sa (bs : list Z) : outcome sockaddr :=
  if decide (16 <= length bs)%nat then Ok (mkSa (u16_at bs 0) (slice 2 14 bs)) else Stuck.

(** [getAddr() const]: the bytes from the returned pointer to the end of the
    object. The one of [IPv6Address] points at [sin6_addr]. *)
Definition getAddr_const (a : Address) : list Z :=
  match a with
  | IPv4Address m => in_bytes m
  | IPv6Address m => drop 8 (in6_bytes m)
  | UnixAddress m _ => un_bytes m
  | UnknownAddress m => sa_bytes m
  end.

(** [getAddr()] of an object that is not const. *)
Definition getAddr (a : Address) : list Z :=
  match a with
  | IPv4Address m => in_bytes m
  | IPv6Address m => in6_bytes m
  | UnixAddress m _ => un_bytes m
  | UnknownAddress m => sa_bytes m
  end.

Definition getAddrLen (a : Address) : Z :=
  match a with
  | IPv4Address _ => 16
  | IPv6Address _ => 28
  | UnixAddress _ m_length => m_length
  | UnknownAddress _ => 16
  end.

(** [Address::getFamily() const]. *)
Definition getFamily (a : Address) : Z := u16_at (getAddr_const a) 0.

(** [Address::Create(addr, addrlen)]: the length is not looked at; [bs] is the
    memory [addr] points to. *)
Definition Address_Create (addr : option (list Z)) : outcome (option Address) :=
  match addr with
  | None => mret None
  | Some bs =>
    if decide (length bs < 2)%nat then Stuck else
    let sa_family := u16_at bs 0 in
    if decide (sa_family = AF_INET) then m ← read_in bs; mret (Some (IPv4Address m))
    else if decide (sa_family = AF_INET6) then m ← read_in6 bs; mret (Some (IPv6Address m))
    else m ← read_sa bs; mret (Some (UnknownAddress m))
  end.

(** ** Comparison *)

(** [memcmp(a, b, n)], negative, zero or positive; both objects have to be that
    large. *)
Fixpoint bytes_compare (a b : list Z) : comparison :=
  match a, b with
  | x :: a, y :: b => match x ?= y with Eq => bytes_compare a b | c => c end
  | _, _ => Eq
  end.

Definition memcmp (a b : list Z) (n : Z) : outcome comparison :=
  if decide (n <= Z.of_nat (length a) ∧ n <= Z.of_nat (length b)) then
    Ok (bytes_compare (take (Z.to_nat n) a) (take (Z.to_nat n) b))
  else Stuck.

(** [operator<]. *)
Definition address_lt (a rhs : Address) : outcome bool :=
  let minlen := Z.min (getAddrLen a) (getAddrLen rhs) in
  result ← memcmp (getAddr_const a) (getAddr_const rhs) minlen;
  mret match result with
       | Lt => true
       | Gt => false
       | Eq => bool_decide (getAddrLen a < getAddrLen rhs)
       end.

(** [operator==] and [operator!=]. *)
Definition address_eq (a rhs : Address) : outcome bool :=
  if decide (getAddrLen a = getAddrLen rhs) then
    result ← memcmp (getAddr_const a) (getAddr_const rhs) (getAddrLen a);
    mret (match result with Eq => true | _ => false end)
  else mret false.

Definition address_ne (a rhs : Address) : outcome bool :=
  b ← address_eq a rhs; mret (negb b).

(** ** IPv4 *)

Definition net32 (v : Z) : Z := byteswapOnLittleEndian order uint32_t v.
Definition net16 (v : Z) : Z := byteswapOnLittleEndian order uint16_t v.

(** [IPv4Address(address, port)]. *)
Definition IPv4Address_new (address port : Z) : sockaddr_in :=
  mkIn AF_INET (net16 port) (net32 address) (replicate 8 0).

Definition v4_insert (a : sockaddr_in) : list Z :=
  let addr := net32 (s_addr a) in
  dec (Z.land (Z.shiftr addr 24) 255) ++ text "." ++
  dec (Z.land (Z.shiftr addr 16) 255) ++ text "." ++
  dec (Z.land (Z.shiftr addr 8) 255) ++ text "." ++
  dec (Z.land addr 255) ++
  text ":" ++ dec (net16 (sin_port a)).

Definition set_s_addr (a : sockaddr_in) (v : Z) : sockaddr_in :=
  mkIn (sin_family a) (sin_port a) v (sin_zero a).

Definition v4_broadcastAddress (a : sockaddr_in) (prefix_len : Z) : outcome (option Address) :=
  if decide (32 < prefix_len) then mret None else
  mask ← CreateMask prefix_len;
  mret (Some (IPv4Address (set_s_addr a (Z.lor (s_addr a) (net32 mask))))).

Definition v4_networkAddress (a : sockaddr_in) (prefix_len : Z) : outcome (option Address) :=
  if decide (32 < prefix_len) then mret None else
  mask ← CreateMask prefix_len;
  mret (Some (IPv4Address (set_s_addr a (Z.land (s_addr a) (u32 (Z.lnot (net32 mask))))))).

Definition v4_subnetMask (prefix_len : Z) : outcome (option Address) :=
  mask ← CreateMask prefix_len;
  mret (Some (IPv4Address (mkIn AF_INET 0 (u32 (Z.lnot (net32 mask))) (replicate 8 0)))).

Definition v4_getPort (a : sockaddr_in) : Z := net16 (sin_port a).

Definition v4_setPort (a : sockaddr_in) (port : Z) : sockaddr_in :=
  mkIn (sin_family a) (net16 port) (s_addr a) (sin_zero a).

(** ** IPv6 *)

Definition IPv6Address_new : sockaddr_in6 := mkIn6 AF_INET6 0 0 (replicate 16 0) 0.

(** [IPv6Address(address, port)]. *)
Definition IPv6Address_of (address : list Z) (port : Z) : sockaddr_in6 :=
  mkIn6 AF_INET6 (net16 port) 0 address 0.

(** [addr[i]] of [uint16_t* addr = s6_addr]. *)
Definition group (a : sockaddr_in6) (i : nat) : Z := u16_at (s6_addr a) (2 * i).

(** The loop of [insert] over the groups from [i] on: the text and
    [used_zeros]. *)
Fixpoint v6_groups (a : sockaddr_in6) (i n : nat) (used_zeros : bool) : list Z * bool :=
  match n with
  | O => ([], used_zeros)
  | S n =>
    if decide (group a i = 0) then v6_groups a (S i) n used_zeros else
    let first := bool_decide (i ≠ 0%nat ∧ group a (i - 1) = 0) && negb used_zeros in
    let '(rest, used) := v6_groups a (S i) n (used_zeros || first) in
    ((if first then text ":" else []) ++
     (if decide (i = 0)%nat then [] else text ":") ++
     hex (net16 (group a i)) ++ rest, used)
  end.

Definition v6_insert (a : sockaddr_in6) : list Z :=
  let '(groups, used_zeros) := v6_groups a 0 8 false in
  text "[" ++ groups ++
  (if negb used_zeros && bool_decide (group a 7 = 0) then text "::" else []) ++
  text "]:" ++ dec (net16 (sin6_port a)).

Definition set_s6_addr (a : sockaddr_in6) (v : list Z) : sockaddr_in6 :=
  mkIn6 (sin6_family a) (sin6_port a) (sin6_flowinfo a) v (sin6_scope_id a).

(** [s6_addr[i]] read and written: the array has sixteen bytes. *)
Definition byte_at (bs : list Z) (i : Z) : outcome Z := deref (bs !! Z.to_nat i).

Definition v6_broadcastAddress (a : sockaddr_in6) (prefix_len : Z) : outcome (option Address) :=
  mask ← CreateMask (prefix_len mod 8);
  b ← byte_at (s6_addr a) (prefix_len / 8);
  let i := Z.to_nat (prefix_len / 8) in
  let bs := <[i := u8 (Z.lor b mask)]> (s6_addr a) in
  mret (Some (IPv6Address (set_s6_addr a (take (S i) bs ++ replicate (16 - S i) 255)))).

Definition v6_networkAddress (a : sockaddr_in6) (prefix_len : Z) : outcome (option Address) :=
  mask ← CreateMask (prefix_len mod 8);
  b ← byte_at (s6_addr a) (prefix_len / 8);
  let i := Z.to_nat (prefix_len / 8) in
  mret (Some (IPv6Address (set_s6_addr a
    (<[i := u8 (Z.land b (u32 (Z.lnot mask)))]> (s6_addr a))))).

Definition v6_subnetMask (prefix_len : Z) : outcome (option Address) :=
  mask ← CreateMask (prefix_len mod 8);
  let zeros := replicate 16 0 in
  _ ← byte_at zeros (prefix_len / 8);
  let i := Z.to_nat (prefix_len / 8) in
  let bs := <[i := u8 (u32 (Z.lnot mask))]> zeros in
  mret (Some (IPv6Address (mkIn6 AF_INET6 0 0 (replicate i 255 ++ drop i bs) 0))).

Definition v6_getPort (a : sockaddr_in6) : Z := net16 (sin6_port a).

Definition v6_setPort (a : sockaddr_in6) (port : Z) : sockaddr_in6 :=
  mkIn6 (sin6_family a) (net16 port) (sin6_flowinfo a) (s6_addr a) (sin6_scope_id a).

(** ** Unix *)

Definition UnixAddress_default : Address :=
  UnixAddress (mkUn AF_UNIX (replicate (Z.to_nat SUN_PATH) 0)) (SUN_OFFSET + MAX_PATH_LEN).

(** [UnixAddress(path)]. *)
Definition UnixAddress_new (path : list Z) : outcome Address :=
  let m_length := u32 (Z.of_nat (length path) + 1) in
  let m_length := if bool_decide (head path = Some 0) then u32 (m_length - 1) else m_length in
  if decide (SUN_PATH < m_length) then Throw (logic_error "path too long") else
  mret (UnixAddress
    (mkUn AF_UNIX (overwrite 0 (take (Z.to_nat m_length) (path ++ [0]))
                     (replicate (Z.to_nat SUN_PATH) 0)))
    (u32 (m_length + SUN_OFFSET))).

Definition setAddrLen (a : Address) (v : Z) : Address :=
  match a with UnixAddress m _ => UnixAddress m v | a => a end.

(** [os << sun_path]: up to the terminating zero, which has to be there. *)
Definition print_path (path : list Z) : outcome (list Z) :=
  if decide (0 ∈ path) then Ok (c_str path) else Stuck.

(** [std::string(sun_path + 1, n)]. *)
Definition abstract_name (path : list Z) (n : Z) : outcome (list Z) :=
  if decide (n <= SUN_PATH - 1) then Ok (slice 1 (Z.to_nat n) path) else Stuck.

(** [UnixAddress::getPath], which [insert] repeats. *)
Definition getPath (m : sockaddr_un) (m_length : Z) : outcome (list Z) :=
  if bool_decide (SUN_OFFSET < m_length) && bool_decide (head (sun_path m) = Some 0) then
    s ← abstract_name (sun_path m) (m_length - SUN_OFFSET - 1);
    mret (text "\0" ++ s)
  else print_path (sun_path m).

(** [UnknownAddress(family)]. *)
Definition UnknownAddress_new (family : Z) : Address :=
  UnknownAddress (mkSa (u16 family) (replicate 14 0)).

Definition unknown_insert (m : sockaddr) : list Z :=
  text "[UnknownAddress family = " ++ dec (sa_family m) ++ text "]".

(** [toString], through the virtual [insert]. *)
Definition toString (a : Address) : outcome (list Z) :=
  match a with
  | IPv4Address m => mret (v4_insert m)
  | IPv6Address m => mret (v6_insert m)
  | UnixAddress m m_length => getPath m m_length
  | UnknownAddress m => mret (unknown_insert m)
  end.

(** [setPort] of an [IPAddress]; the cast fails for the others. *)
Definition set_port (a : Address) (port : Z) : option Address :=
  match a with
  | IPv4Address m => Some (IPv4Address (v4_setPort m port))
  | IPv6Address m => Some (IPv6Address (v6_setPort m port))
  | _ => None
  end.

End address.

(** ** Looking addresses up *)

(** The node and the position of the service that [Lookup] takes from a host
    name; the service runs to the end of the name. *)
Definition split_host (host : list Z) : list Z * option nat :=
  let '(node, service) :=
    if bool_decide (head host = Some 91) then
      match find_from (λ c, bool_decide (c = 93)) host 1 with
      | Some endipv6 =>
        (slice 1 (endipv6 - 1) host,
         if bool_decide ((host ++ [0]) !! S endipv6 = Some 58) then Some (S (S endipv6)) else None)
      | None => ([], None)
      end
    else ([], None) in
  let '(node, service) :=
    match node with
    | [] =>
      match find_first (λ c, bool_decide (c = 58)) host with
      | Some service =>
        match find_first (λ c, bool_decide (c = 58)) (drop (S service) host) with
        | None => (take service host, Some (S service))
        | Some _ => ([], Some service)
        end
      | None => ([], None)
      end
    | _ => (node, service)
    end in
  (match node with [] => host | _ => node end, service).

Definition service_text (host : list Z) (service : option nat) : option (list Z) :=
  (λ i, c_str (drop i host)) <$> service.

(** An entry of the list of interfaces. *)
Record ifaddrs : Type := mkIf {
  ifa_name : list Z;
  ifa_addr : option (list Z);
  ifa_netmask : option (list Z)
}.

(** [std::multimap::insert]: after the entries with an equal key. *)
Definition multimap_insert {V} (m : list (list Z * V)) (k : list Z) (v : V) : list (list Z * V) :=
  let i := lower_bound (λ kv, negb (bytes_lt k kv.1)) m in
  take i m ++ (k, v) :: drop i m.

Section lookup.
Context (order : endian).
(** [getaddrinfo] with a node, a service and the hints it is called with: the
    addresses found, none on an error. *)
Context (getaddrinfo : list Z → option (list Z) → Z → Z → Z → bool → option (list (list Z))).
(** [getifaddrs] and [inet_pton]. *)
Context (getifaddrs : option (list ifaddrs)).
Context (inet_pton : Z → list Z → option (list Z)).

(** [result.push_back(Create(...))] for each address found. *)
Fixpoint create_all (found : list (list Z)) : outcome (list (option Address)) :=
  match found with
  | [] => mret []
  | bs :: found =>
    a ← Address_Create order (Some bs);
    rest ← create_all found;
    mret (a :: rest)
  end.

(** [Address::Lookup], with the vector it appends to. *)
Definition Lookup (result : list (option Address)) (host : list Z) (family type protocol : Z) :
    outcome (bool * list (option Address)) :=
  let '(node, service) := split_host host in
  match getaddrinfo (c_str node) (service_text host service) family type protocol false with
  | None => mret (false, result)
  | Some found => l ← create_all found; mret (true, result ++ l)
  end.

Definition LookupAny (host : list Z) (family type protocol : Z) : outcome (option Address) :=
  '(ok, result) ← Lookup [] host family type protocol;
  if (ok : bool) then deref (head result) else mret None.

(** [dynamic_pointer_cast<IPAddress>]. *)
Definition as_ip (a : option Address) : option Address :=
  match a with
  | Some (IPv4Address _ | IPv6Address _) => a
  | _ => None
  end.

Fixpoint first_ip (l : list (option Address)) : option Address :=
  match l with
  | [] => None
  | a :: l => match as_ip a with Some v => Some v | None => first_ip l end
  end.

Definition LookupAnyIPAddress (host : list Z) (family type protocol : Z) : outcome (option Address) :=
  '(ok, result) ← Lookup [] host family type protocol;
  mret (if (ok : bool) then first_ip result else None).

(** [IPAddress::Create(address, port)]. *)
Definition IPAddress_Create (address : list Z) (port : Z) : outcome (option Address) :=
  match getaddrinfo (c_str address) None AF_UNSPEC 0 0 true with
  | None => mret None
  | Some results =>
    bs ← deref (head results);
    a ← Address_Create order (Some bs);
    mret (as_ip a ≫= λ v, set_port order v port)
  end.

(** [IPv4Address::Create] and [IPv6Address::Create]. *)
Definition IPv4Address_Create (address : list Z) (port : Z) : option sockaddr_in :=
  let rt := v4_setPort order (IPv4Address_new order 0 0) port in
  (λ bs, set_s_addr rt (of_memory order uint32_t bs)) <$> inet_pton AF_INET (c_str address).

Definition IPv6Address_Create (address : list Z) (port : Z) : option sockaddr_in6 :=
  let rt := v6_setPort order IPv6Address_new port in
  (λ bs, set_s6_addr rt bs) <$> inet_pton AF_INET6 (c_str address).

Abbreviation Interfaces := (list (list Z * (Address * Z))).

(** [prefix_len += CountBytes(netmask.s6_addr[i])]. *)
Fixpoint count_netmask (netmask : list Z) (prefix_len : Z) : outcome Z :=
  match netmask with
  | [] => mret prefix_len
  | b :: netmask => n ← CountBytes uint8_t b; count_netmask netmask (u32 (prefix_len + n))
  end.

(** One turn of the loop over the interfaces: the address and the prefix length,
    no address where the turn adds nothing. *)
Definition interface_address (next : ifaddrs) (family : Z) : outcome (option (Address * Z)) :=
  bs ← deref (ifa_addr next);
  let sa_family := u16_at order bs 0 in
  if bool_decide (family ≠ AF_UNSPEC) && bool_decide (family ≠ sa_family) then mret None
  else if decide (sa_family = AF_INET) then
    addr ← Address_Create order (Some bs);
    mask ← deref (ifa_netmask next);
    netmask ← read_in order mask;
    prefix_len ← CountBytes uint32_t (s_addr netmask);
    mret ((λ a, (a, prefix_len)) <$> addr)
  else if decide (sa_family = AF_INET6) then
    addr ← Address_Create order (Some bs);
    mask ← deref (ifa_netmask next);
    netmask ← read_in6 order mask;
    prefix_len ← count_netmask (s6_addr netmask) 0;
    mret ((λ a, (a, prefix_len)) <$> addr)
  else mret None.

Fixpoint interface_loop (l : list ifaddrs) (family : Z) (result : Interfaces) : outcome Interfaces :=
  match l with
  | [] => mret result
  | next :: l =>
    r ← interface_address next family;
    interface_loop l family
      match r with
      | Some v => multimap_insert result (c_str (ifa_name next)) v
      | None => result
      end
  end.

(** The two versions of [Address::GetInterfaceAddresses]. *)
Definition GetInterfaceAddresses (result : Interfaces) (family : Z) : outcome (bool * Interfaces) :=
  match getifaddrs with
  | None => mret (false, result)
  | Some l =>
    result ← interface_loop l family result;
    mret (negb (bool_decide (result = []) ), result)
  end.

Definition GetInterfaceAddresses_of (result : list (Address * Z)) (iface : list Z) (family : Z) :
    outcome (bool * list (Address * Z)) :=
  if bool_decide (iface = [] ∨ iface = text "*") then
    let v4 := if bool_decide (family = AF_INET ∨ family = AF_UNSPEC)
              then [(IPv4Address (IPv4Address_new order 0 0), 0)] else [] in
    let v6 := if bool_decide (family = AF_INET6 ∨ family = AF_UNSPEC)
              then [(IPv6Address IPv6Address_new, 0)] else [] in
    mret (true, result ++ v4 ++ v6)
  else
    '(ok, results) ← GetInterfaceAddresses [] family;
    if (ok : bool) then
      let result := result ++ (snd <$> filter (λ kv, kv.1 = iface) results) in
      mret (negb (bool_decide (result = [])), result)
    else mret (false, result).

End lookup.
