(* ===== verification/AddressSpec.v ===== *)
(** The laws of addresses (see Address): the masks as arithmetic on the host's
    value, text forms and their inverses, comparison, and the decomposition of
    host names. *)

From Stdlib Require Import ZArith Lia.
From stdpp Require Import base numbers option strings tactics sets sorting list list_numbers.
From S2P Require Import Prelude StdSet Text Endian Address.

Local Open Scope Z_scope.

(** ** Bitwise operations and byte order *)

Lemma testbit_byte_add x v k :
  is_byte x → 0 <= k →
  Z.testbit (x + 256 * v) k = if decide (k < 8) then Z.testbit x k else Z.testbit v (k - 8).
Proof.
  unfold is_byte. intros Hx Hk. rewrite (Z.mul_comm 256 v). change 256 with (2 ^ 8).
  rewrite <-lor_add_shift by lia. rewrite Z.lor_spec, <-Z.shiftl_mul_pow2 by lia. case_decide.
  - rewrite (Z.shiftl_spec_low v) by lia. apply orb_false_r.
  - rewrite Z.shiftl_spec by lia. rewrite <-(Z.mod_small x (2 ^ 8)) by lia.
    by rewrite Z.mod_pow2_bits_high by lia.
Qed.

Section bitwise.
Context (f : Z → Z → Z) (fb : bool → bool → bool).
Context (f_spec : ∀ a b k, Z.testbit (f a b) k = fb (Z.testbit a k) (Z.testbit b k)).
Context (fb_false : fb false false = false).

Lemma op_mod a b n : 0 <= n → f a b mod 2 ^ n = f (a mod 2 ^ n) (b mod 2 ^ n).
Proof.
  intros Hn. apply Z.bits_inj'. intros k Hk. rewrite f_spec. destruct (Z.lt_ge_cases k n).
  - by rewrite !Z.mod_pow2_bits_low, f_spec by lia.
  - by rewrite !Z.mod_pow2_bits_high, fb_false by lia.
Qed.

Lemma op_div a b n : 0 <= n → f a b / 2 ^ n = f (a / 2 ^ n) (b / 2 ^ n).
Proof.
  intros Hn. apply Z.bits_inj'. intros k Hk. rewrite f_spec.
  by rewrite !Z.div_pow2_bits, f_spec by lia.
Qed.

Lemma op_range a b n : 0 <= n → 0 <= a < 2 ^ n → 0 <= b < 2 ^ n → 0 <= f a b < 2 ^ n.
Proof.
  intros Hn Ha Hb. rewrite <-(Z.mod_small a (2 ^ n)), <-(Z.mod_small b (2 ^ n)) by done.
  rewrite <-op_mod by done. apply Z.mod_pos_bound. lia.
Qed.

Lemma bytes_le_op n a b : bytes_le n (f a b) = zip_with f (bytes_le n a) (bytes_le n b).
Proof.
  revert a b. induction n as [|n IH]; intros a b; [done|]. simpl. f_equal.
  - by apply (op_mod a b 8).
  - rewrite <-IH. f_equal. by apply (op_div a b 8).
Qed.

Lemma le_value_op xs ys :
  Forall is_byte xs → Forall is_byte ys → length xs = length ys →
  le_value (zip_with f xs ys) = f (le_value xs) (le_value ys).
Proof.
  intros Hxs. revert ys. induction Hxs as [|x xs Hx _ IH]; intros [|y ys] Hys Hl; try done.
  - simpl. apply Z.bits_inj'. intros k Hk. by rewrite f_spec, Z.bits_0, fb_false.
  - apply Forall_cons in Hys as [Hy Hys]. simpl. rewrite IH by (done || (simpl in Hl; lia)).
    apply Z.bits_inj'. intros k Hk. rewrite f_spec, !testbit_byte_add; try done.
    + case_decide; by rewrite f_spec.
    + apply (op_range x y 8); [lia|apply Hx|apply Hy].
Qed.

Lemma zip_with_reverse xs ys :
  length xs = length ys → reverse (zip_with f xs ys) = zip_with f (reverse xs) (reverse ys).
Proof.
  revert ys. induction xs as [|x xs IH]; intros [|y ys] Hl; try done. simpl in *.
  rewrite !reverse_cons, IH by lia. rewrite zip_with_app; [done|]. rewrite !length_reverse. lia.
Qed.

Lemma net32_op order a b :
  0 <= a < 2 ^ 32 → 0 <= b < 2 ^ 32 → net32 order (f a b) = f (net32 order a) (net32 order b).
Proof.
  intros Ha Hb. pose proof (op_range a b 32 ltac:(lia) Ha Hb) as Hf. unfold net32.
  destruct order; [|done]. cbn [byteswapOnLittleEndian]. unfold byteswap, cast.
  cbn [is_signed sizeof uint32_t]. change (bits uint32_t) with 32.
  rewrite !(uwrap_small 32 a), !(uwrap_small 32 b), !(uwrap_small 32 (f a b)) by done.
  unfold bswap. rewrite bytes_le_op, zip_with_reverse by by rewrite !length_bytes_le.
  rewrite le_value_op by (try apply Forall_reverse; auto using bytes_le_bytes;
    by rewrite !length_reverse, !length_bytes_le).
  unfold uwrap. rewrite op_mod by lia. done.
Qed.

End bitwise.

(** ** Masks *)

Lemma CreateMask_ok p : 2 <= p <= 32 → CreateMask p = Ok (2 ^ (32 - p) - 1).
Proof.
  intros Hp. unfold CreateMask. rewrite (uwrap_small 64) by (unfold in_unsigned; lia).
  rewrite decide_False by lia. rewrite Z.shiftl_1_l.
  assert (2 ^ (32 - p) <= 2 ^ 30) by (apply Z.pow_le_mono_r; lia).
  assert (0 < 2 ^ (32 - p)) by lia.
  rewrite swrap_small by (unfold in_signed; lia). rewrite decide_False by lia.
  rewrite uwrap_small by (unfold in_unsigned; lia). done.
Qed.

Lemma CreateMask_stuck p : 0 <= p < 2 ∨ 32 < p < 2 ^ 32 → CreateMask p = Stuck.
Proof.
  intros [Hp|Hp]; unfold CreateMask.
  - assert (p = 0 ∨ p = 1) as [-> | ->] by lia; reflexivity.
  - rewrite decide_True; [done|]. unfold uwrap.
    rewrite <-(Z.mod_add _ 1) by lia. rewrite Z.mod_small; lia.
Qed.

(** The number of bits that are set. *)
Fixpoint ones_pos (p : positive) : Z :=
  match p with
  | xH => 1
  | xO p => ones_pos p
  | xI p => 1 + ones_pos p
  end.

Definition popcount (v : Z) : Z := match v with Zpos p => ones_pos p | _ => 0 end.

Lemma popcount_double v : popcount (2 * v) = popcount v.
Proof. by destruct v. Qed.

Lemma popcount_nonneg v : 0 <= popcount v.
Proof. destruct v as [|p|p]; simpl; [done| |done]. induction p; simpl; lia. Qed.

Lemma land_double a b : Z.land (2 * a) (2 * b) = 2 * Z.land a b.
Proof.
  rewrite !(Z.mul_comm 2). change 2 with (2 ^ 1). rewrite <-!Z.shiftl_mul_pow2 by lia.
  by rewrite <-Z.shiftl_land.
Qed.

Lemma land_double_succ a b : Z.land (2 * a) (2 * b + 1) = 2 * Z.land a b.
Proof.
  apply Z.bits_inj'. intros k Hk. rewrite Z.land_spec. destruct (decide (k = 0)) as [->|].
  - by rewrite !Z.testbit_even_0.
  - replace k with (Z.succ (k - 1)) by lia.
    rewrite Z.testbit_odd_succ, !Z.testbit_even_succ by lia. by rewrite Z.land_spec.
Qed.

(** Clearing the lowest bit takes one off the count. *)
Lemma popcount_clear v :
  0 < v → popcount (Z.land v (v - 1)) = popcount v - 1 ∧ 0 <= Z.land v (v - 1) < v.
Proof.
  intros Hv. destruct v as [|p|p]; [lia| |lia]. clear Hv. induction p as [p IH|p IH|].
  - replace (Z.pos p~1 - 1) with (2 * Z.pos p) by lia.
    replace (Z.pos p~1) with (2 * Z.pos p + 1) by lia.
    rewrite Z.land_comm, land_double_succ, Z.land_diag, popcount_double.
    change (2 * Z.pos p + 1) with (Z.pos p~1). simpl popcount. lia.
  - replace (Z.pos p~0 - 1) with (2 * (Z.pos p - 1) + 1) by lia.
    change (Z.pos p~0) with (2 * Z.pos p). rewrite land_double_succ, !popcount_double. lia.
  - done.
Qed.

Lemma popcount_bound v w : 0 <= v < 2 ^ w → 0 <= w → popcount v <= w.
Proof.
  revert w. destruct v as [|p|p]; [simpl; lia| |lia].
  induction p as [p IH|p IH|]; intros w Hv Hw; simpl.
  1-2: assert (0 < w) by (destruct (decide (w = 0)) as [->|]; lia);
    pose proof (pow_half w) as Hp; specialize (IH (w - 1)); simpl in IH; lia.
  destruct (decide (w = 0)) as [->|]; lia.
Qed.

Lemma CountBytes_loop_ok fuel : ∀ v r,
  0 <= v → popcount v < Z.of_nat fuel → 0 <= r → r + popcount v < 2 ^ 32 →
  CountBytes_loop fuel v r = Ok (r + popcount v).
Proof.
  induction fuel as [|fuel IH]; intros v r Hv Hf Hr Hrv; [pose proof (popcount_nonneg v); lia|].
  cbn [CountBytes_loop]. case_decide as H0; [subst; simpl; f_equal; lia|].
  destruct (popcount_clear v) as [Hc Hb]; [lia|]. pose proof (popcount_nonneg v).
  assert (0 < popcount v) by (pose proof (popcount_nonneg (Z.land v (v - 1))); lia).
  rewrite uwrap_small by (unfold in_unsigned; lia).
  rewrite IH by lia. f_equal. lia.
Qed.

(** [CountBytes] counts the bits of its argument. *)
Lemma CountBytes_popcount t v :
  0 <= v < 2 ^ bits t → bits t < 2 ^ 32 → CountBytes t v = Ok (popcount v).
Proof.
  intros Hv Ht. pose proof (bits_nonneg t). pose proof (popcount_bound v (bits t) Hv).
  unfold CountBytes. rewrite CountBytes_loop_ok; [done|lia..].
Qed.

Definition in4_ok (a : sockaddr_in) : Prop :=
  in_unsigned 16 (sin_family a) ∧ in_unsigned 16 (sin_port a) ∧ in_unsigned 32 (s_addr a) ∧
  length (sin_zero a) = 8%nat ∧ Forall is_byte (sin_zero a).

(** The address as a number, its first byte the highest. *)
Definition ip4 (order : endian) (a : sockaddr_in) : Z := net32 order (s_addr a).

Lemma net32_range order v : in_unsigned 32 v → in_unsigned 32 (net32 order v).
Proof.
  intros Hv. destruct order; [|done]. apply (byteswap_in_type uint32_t). simpl. lia.
Qed.

Lemma net32_twice order v : in_unsigned 32 v → net32 order (net32 order v) = v.
Proof. intros. apply byteswapOnLittleEndian_twice; [simpl; lia|done]. Qed.

Lemma net16_twice order v : in_unsigned 16 v → net16 order (net16 order v) = v.
Proof. intros. apply byteswapOnLittleEndian_twice; [simpl; lia|done]. Qed.

Lemma net16_range order v : in_unsigned 16 v → in_unsigned 16 (net16 order v).
Proof.
  intros Hv. destruct order; [|done]. apply (byteswap_in_type uint16_t). simpl. lia.
Qed.

Lemma lor_mask v n : 0 <= n → Z.lor v (2 ^ n - 1) = v / 2 ^ n * 2 ^ n + (2 ^ n - 1).
Proof.
  intros Hn. rewrite <-(lor_shiftl_add (v / 2 ^ n)) by lia.
  apply Z.bits_inj'. intros k Hk. rewrite !Z.lor_spec.
  rewrite Z.sub_1_r, <-Z.ones_equiv.
  destruct (Z.lt_ge_cases k n).
  - by rewrite (Z.ones_spec_low n k), !orb_true_r by lia.
  - rewrite (Z.ones_spec_high n k), !orb_false_r by lia.
    rewrite Z.shiftl_spec, Z.div_pow2_bits by lia. f_equal. lia.
Qed.

Lemma ldiff_mask v n : 0 <= n → Z.ldiff v (2 ^ n - 1) = v / 2 ^ n * 2 ^ n.
Proof.
  intros Hn. rewrite Z.sub_1_r, <-Z.ones_equiv, Z.ldiff_ones_r by done.
  by rewrite Z.shiftr_div_pow2, Z.shiftl_mul_pow2.
Qed.

Lemma land_u32_lnot v m :
  in_unsigned 32 v → Z.land v (u32 (Z.lnot m)) = Z.ldiff v m.
Proof.
  intros Hv. apply Z.bits_inj'. intros k Hk. rewrite Z.land_spec, Z.ldiff_spec. unfold uwrap.
  destruct (Z.lt_ge_cases k 32).
  - rewrite Z.mod_pow2_bits_low, Z.lnot_spec by lia. done.
  - rewrite <-(Z.mod_small v (2 ^ 32)) by done. by rewrite !Z.mod_pow2_bits_high by lia.
Qed.

(** The bits of a subnet mask are its prefix, in either byte order. *)
Lemma subnet_bits order p :
  2 <= p <= 32 → CountBytes uint32_t (u32 (Z.lnot (net32 order (2 ^ (32 - p) - 1)))) = Ok p.
Proof.
  intros Hp. assert (Forall (λ p, CountBytes uint32_t
    (u32 (Z.lnot (net32 order (2 ^ (32 - p) - 1)))) = Ok p) (seqZ 2 31)) as Hall.
  { destruct order; repeat constructor. }
  rewrite Forall_forall in Hall. apply Hall, elem_of_seqZ. lia.
Qed.

(** For a prefix length [p] of 2 to 32 bits the three functions of an IPv4
    address compute, on machines of either byte order, what their names say of
    the address read as a number: [networkAddress] rounds it down to a multiple
    of [2^(32-p)], [broadcastAddress] is the last number of that block, and
    [subnetMask] is [2^32 - 2^(32-p)], whose bits [CountBytes] counts back to
    [p]; family and port are kept. Larger prefixes give no address (but
    [subnetMask] shifts by a negative width), and prefixes 0 and 1 are undefined
    for all three. *)
Theorem ipv4_masks order a p :
  in4_ok a → 0 <= p < 2 ^ 32 →
  (2 <= p <= 32 → ∃ n b m,
     v4_networkAddress order a p = Ok (Some (IPv4Address n)) ∧
     v4_broadcastAddress order a p = Ok (Some (IPv4Address b)) ∧
     v4_subnetMask order p = Ok (Some (IPv4Address m)) ∧
     ip4 order n = ip4 order a / 2 ^ (32 - p) * 2 ^ (32 - p) ∧
     ip4 order b = ip4 order n + (2 ^ (32 - p) - 1) ∧
     ip4 order m = 2 ^ 32 - 2 ^ (32 - p) ∧
     CountBytes uint32_t (s_addr m) = Ok p ∧
     set_s_addr n (s_addr a) = a ∧ set_s_addr b (s_addr a) = a) ∧
  (32 < p → v4_networkAddress order a p = Ok None ∧ v4_broadcastAddress order a p = Ok None ∧
     v4_subnetMask order p = Stuck) ∧
  (p < 2 → v4_networkAddress order a p = Stuck ∧ v4_broadcastAddress order a p = Stuck ∧
     v4_subnetMask order p = Stuck).
Proof.
  intros (_ & _ & Ha & _) Hp. unfold v4_networkAddress, v4_broadcastAddress, v4_subnetMask.
  split_and!; intros Hr.
  - rewrite !decide_False by lia. rewrite CreateMask_ok by done. osimpl.
    set (n := 32 - p). assert (0 <= n) by lia.
    assert (in_unsigned 32 (2 ^ n - 1)) as Hm.
    { unfold in_unsigned. assert (2 ^ n <= 2 ^ 30) by (apply Z.pow_le_mono_r; lia). lia. }
    pose proof (net32_range order _ Hm) as Hnm.
    do 3 eexists. split_and!; [done..| | | | | |]; unfold ip4; simpl.
    + rewrite land_u32_lnot by done.
      rewrite (net32_op Z.ldiff (λ a b, a && negb b) Z.ldiff_spec) by done.
      rewrite net32_twice by done. by apply ldiff_mask.
    + rewrite land_u32_lnot by done.
      rewrite (net32_op Z.ldiff (λ a b, a && negb b) Z.ldiff_spec) by done.
      rewrite (net32_op Z.lor orb Z.lor_spec) by done.
      rewrite net32_twice, lor_mask, ldiff_mask by done. done.
    + assert (u32 (Z.lnot (net32 order (2 ^ n - 1))) = Z.ldiff (2 ^ 32 - 1) (net32 order (2 ^ n - 1)))
        as ->.
      { rewrite <-(land_u32_lnot (2 ^ 32 - 1)) by done. rewrite Z.land_comm, land_low by done.
        unfold uwrap. by rewrite Zmod_mod. }
      rewrite (net32_op Z.ldiff (λ a b, a && negb b) Z.ldiff_spec) by done.
      rewrite net32_twice, ldiff_mask by done.
      assert (net32 order (2 ^ 32 - 1) = 2 ^ 32 - 1) as -> by by destruct order.
      assert (2 ^ 32 = 2 ^ (32 - n) * 2 ^ n) as E by (rewrite <-Z.pow_add_r by lia; f_equal; lia).
      replace (2 ^ 32 - 1) with (2 ^ n - 1 + (2 ^ (32 - n) - 1) * 2 ^ n) by lia.
      rewrite Z.div_add, Z.div_small by lia. lia.
    + by apply subnet_bits.
    + by destruct a.
    + by destruct a.
  - rewrite !decide_True by lia. rewrite CreateMask_stuck by lia. done.
  - rewrite !decide_False by lia. rewrite CreateMask_stuck by lia. done.
Qed.

(** 192.168.10.77 with the prefix length 22, on a little-endian machine. *)
Definition host_77 : sockaddr_in := IPv4Address_new SYLAR_LITTLE_ENDIAN 3232238157 80.

Lemma ipv4_masks_witness :
  ∃ n, v4_networkAddress SYLAR_LITTLE_ENDIAN host_77 22 = Ok (Some (IPv4Address n)) ∧
       ip4 SYLAR_LITTLE_ENDIAN n = 3232237568.
Proof.
  destruct (ipv4_masks SYLAR_LITTLE_ENDIAN host_77 22) as [H _].
  - split_and!; vm_compute; try (split; congruence); try done. repeat constructor; done.
  - lia.
  - destruct (H ltac:(lia)) as (n & b & m & Hn & _ & _ & Hip & _). exists n. split; [exact Hn|].
    rewrite Hip. vm_compute. reflexivity.
Defined.

(** ** IPv6 *)

Definition in6_ok (a : sockaddr_in6) : Prop :=
  in_unsigned 16 (sin6_family a) ∧ in_unsigned 16 (sin6_port a) ∧
  in_unsigned 32 (sin6_flowinfo a) ∧ in_unsigned 32 (sin6_scope_id a) ∧
  length (s6_addr a) = 16%nat ∧ Forall is_byte (s6_addr a).

(** The 32-bit mask covers the whole byte. *)
Lemma byte_mask b m :
  is_byte b → 2 <= m < 8 →
  u8 (Z.lor b (2 ^ (32 - m) - 1)) = 255 ∧ u8 (Z.land b (u32 (Z.lnot (2 ^ (32 - m) - 1)))) = 0 ∧
  u8 (u32 (Z.lnot (2 ^ (32 - m) - 1))) = 0.
Proof.
  intros Hb Hm. unfold uwrap at 1 2.
  rewrite (op_mod Z.lor orb Z.lor_spec), (op_mod Z.land andb Z.land_spec) by done.
  assert (m = 2 ∨ m = 3 ∨ m = 4 ∨ m = 5 ∨ m = 6 ∨ m = 7) as Hc by lia.
  assert (Z.lor (b mod 2 ^ 8) 255 = 255) as Hor.
  { change 255 with (2 ^ 8 - 1). rewrite lor_mask by lia. rewrite Z.div_small; [done|].
    apply Z.mod_pos_bound. lia. }
  destruct Hc as [->|[->|[->|[->|[->| ->]]]]]; (split; [exact Hor|]); (split; [apply Z.land_0_r|done]).
Qed.

(** The IPv6 versions of the three functions work on whole bytes: for a
    prefix length [p] that is not a multiple of 8 nor one more, the bits of byte
    [p / 8] that belong to the prefix are lost, so that the broadcast address and
    the subnet mask are those of the prefix rounded down to bytes, and the
    network address clears that byte only and keeps the host bits after it. For
    all other prefix lengths, every multiple of 8 among them, and from 128 on,
    the code is undefined. *)
Theorem ipv6_masks_by_byte a p :
  in6_ok a → 0 <= p < 2 ^ 32 →
  let i := Z.to_nat (p / 8) in
  (2 <= p mod 8 → p < 128 →
     v6_broadcastAddress a p =
       Ok (Some (IPv6Address (set_s6_addr a (take i (s6_addr a) ++ replicate (16 - i) 255)))) ∧
     v6_networkAddress a p =
       Ok (Some (IPv6Address (set_s6_addr a (take i (s6_addr a) ++ 0 :: drop (S i) (s6_addr a))))) ∧
     v6_subnetMask p =
       Ok (Some (IPv6Address (mkIn6 AF_INET6 0 0 (replicate i 255 ++ replicate (16 - i) 0) 0)))) ∧
  (p mod 8 < 2 ∨ 128 <= p →
     v6_broadcastAddress a p = Stuck ∧ v6_networkAddress a p = Stuck ∧ v6_subnetMask p = Stuck).
Proof.
  intros (_ & _ & _ & _ & Hl & Hb) Hp i. pose proof (Z.mod_pos_bound p 8).
  assert (0 <= p / 8) by dlia. unfold v6_broadcastAddress, v6_networkAddress, v6_subnetMask, byte_at.
  fold i. split.
  - intros Hm H128. assert (i < 16)%nat as Hi by (subst i; dlia).
    rewrite CreateMask_ok by lia. osimpl.
    destruct (lookup_lt_is_Some_2 (s6_addr a) i) as [b Hbi]; [lia|]. rewrite Hbi. osimpl.
    rewrite lookup_replicate_2 by done. osimpl.
    rewrite Forall_lookup in Hb. destruct (byte_mask b (p mod 8)) as (-> & -> & ->);
      [by eapply Hb|lia|].
    split_and!; do 4 f_equal.
    + rewrite (take_S_r _ _ 255) by (rewrite list_lookup_insert_eq; [done|lia]).
      rewrite take_insert_ge by lia. rewrite <-(assoc_L (++)). f_equal.
      by replace (16 - i)%nat with (S (16 - S i)) by lia.
    + by apply insert_take_drop; rewrite Hl.
    + rewrite drop_insert_ge by done. rewrite Nat.sub_diag, drop_replicate.
      by destruct (16 - i)%nat eqn:E; [lia|].
  - intros Hs. destruct (decide (p mod 8 < 2)).
    { rewrite CreateMask_stuck by lia. done. }
    assert (16 <= i)%nat as Hi by (subst i; dlia).
    rewrite CreateMask_ok by lia. osimpl. rewrite lookup_ge_None_2 by lia.
    rewrite (proj1 (lookup_replicate_None 16 0 i)) by done. done.
Qed.

Lemma ipv6_masks_by_byte_witness :
  v6_networkAddress (IPv6Address_of SYLAR_LITTLE_ENDIAN (replicate 16 171) 80) 12 =
  Ok (Some (IPv6Address (IPv6Address_of SYLAR_LITTLE_ENDIAN
    (171 :: 0 :: replicate 14 171) 80))) ∧
  v6_networkAddress (IPv6Address_of SYLAR_LITTLE_ENDIAN (replicate 16 171) 80) 64 = Stuck.
Proof.
  assert (in6_ok (IPv6Address_of SYLAR_LITTLE_ENDIAN (replicate 16 171) 80)) as Hok.
  { split_and!; vm_compute; try (split; congruence); try done. repeat constructor; done. }
  split.
  - destruct (ipv6_masks_by_byte _ 12 Hok ltac:(lia)) as [H _].
    destruct H as (_ & H & _); [vm_compute; congruence|lia|]. rewrite H. reflexivity.
  - destruct (ipv6_masks_by_byte _ 64 Hok ltac:(lia)) as [_ H].
    destruct H as (_ & H & _); [left; reflexivity|]. exact H.
Defined.

(** ** Comparison *)

(** Well-formed objects of the four classes. *)
Definition address_ok (a : Address) : Prop :=
  match a with
  | IPv4Address m => in4_ok m
  | IPv6Address m => in6_ok m
  | UnixAddress m m_length =>
    in_unsigned 16 (sun_family m) ∧ length (sun_path m) = 108%nat ∧ Forall is_byte (sun_path m) ∧
    2 <= m_length <= 110
  | UnknownAddress m =>
    in_unsigned 16 (sa_family m) ∧ length (sa_data m) = 14%nat ∧ Forall is_byte (sa_data m)
  end.

Definition is_ipv6 (a : Address) : bool := match a with IPv6Address _ => true | _ => false end.

(** The bytes of the address that are passed to the system. *)
Definition image (order : endian) (a : Address) : list Z :=
  take (Z.to_nat (getAddrLen a)) (getAddr order a).

Lemma address_size order a :
  address_ok a → is_ipv6 a = false →
  0 <= getAddrLen a <= Z.of_nat (length (getAddr_const order a)) ∧
  getAddr_const order a = getAddr order a.
Proof.
  destruct a as [m|m|m l|m]; simpl; intros H H6; try done.
  - destruct H as (_ & _ & _ & H & _). unfold in_bytes.
    rewrite !length_app, !length_to_memory, H. simpl. split; [lia|done].
  - destruct H as (_ & H & _ & Hl). unfold un_bytes. rewrite length_app, length_to_memory, H. simpl. split; [lia|done].
  - destruct H as (_ & H & _). unfold sa_bytes. rewrite length_app, length_to_memory, H. simpl. split; [lia|done].
Qed.

Lemma bytes_compare_lt xs : ∀ ys,
  bytes_lt xs ys =
  match bytes_compare (take (length xs `min` length ys) xs) (take (length xs `min` length ys) ys) with
  | Lt => true
  | Gt => false
  | Eq => bool_decide (length xs < length ys)%nat
  end.
Proof.
  induction xs as [|x xs IH]; intros [|y ys]; simpl; try done.
  destruct (Z.compare_spec x y).
  - rewrite !decide_False by lia. rewrite IH. case_match; [|done..]. apply bool_decide_ext. lia.
  - by rewrite decide_True.
  - by rewrite decide_False, decide_True by lia.
Qed.

Lemma bytes_compare_eq xs : ∀ ys,
  length xs = length ys → bytes_compare xs ys = Eq ↔ xs = ys.
Proof.
  induction xs as [|x xs IH]; intros [|y ys] Hl; simpl in *; try done.
  destruct (Z.compare_spec x y) as [->|H|H].
  - rewrite IH by lia. naive_solver.
  - split; [done|]. intros [= -> _]. lia.
  - split; [done|]. intros [= -> _]. lia.
Qed.

Lemma take_image order a n :
  (n <= Z.to_nat (getAddrLen a))%nat → take n (getAddr order a) = take n (image order a).
Proof. intros Hn. unfold image. rewrite take_take. f_equal. lia. Qed.

(** On well-formed addresses that are not IPv6 the operators [<] and [==]
    are the lexicographic order and the equality of the bytes passed to the
    system, hence a strict total order for ordered containers. Comparing two
    IPv6 addresses reads past the object (the const [getAddr] points at
    [sin6_addr]), and [getFamily] of an IPv6 address is the first two bytes of
    the address instead of [AF_INET6]. *)
Theorem address_order order a b :
  address_ok a → address_ok b →
  (is_ipv6 a = false → is_ipv6 b = false →
     address_lt order a b = Ok (bytes_lt (image order a) (image order b)) ∧
     address_eq order a b = Ok (bool_decide (image order a = image order b)) ∧
     getFamily order a = u16_at order (image order a) 0) ∧
  (is_ipv6 a = true → is_ipv6 b = true →
     address_lt order a b = Stuck ∧ address_eq order a b = Stuck ∧
     ∀ m, a = IPv6Address m → getFamily order a = u16_at order (s6_addr m) 0).
Proof.
  intros Ha Hb. split.
  - intros Ha6 Hb6. destruct (address_size order a Ha Ha6) as [Hla Ea].
    destruct (address_size order b Hb Hb6) as [Hlb Eb].
    assert (length (image order a) = Z.to_nat (getAddrLen a)) as Hia.
    { unfold image. rewrite <-Ea, length_take. lia. }
    assert (length (image order b) = Z.to_nat (getAddrLen b)) as Hib.
    { unfold image. rewrite <-Eb, length_take. lia. }
    split_and!.
    + unfold address_lt, memcmp. rewrite decide_True by lia. osimpl. f_equal.
      rewrite bytes_compare_lt, Hia, Hib, Ea, Eb.
      rewrite (take_image order a), (take_image order b) by lia.
      rewrite <-Z2Nat.inj_min. case_match; [|done..]. apply bool_decide_ext. lia.
    + unfold address_eq, memcmp. case_decide as Hl.
      * rewrite decide_True by lia. osimpl. f_equal. rewrite Ea, Eb.
        rewrite (take_image order a), (take_image order b) by lia.
        rewrite !take_ge by lia.
        assert (length (image order a) = length (image order b)) as Hlen by lia.
        pose proof (bytes_compare_eq _ _ Hlen) as Hc. case_bool_decide as He.
        { by rewrite (proj2 Hc He). }
        destruct (bytes_compare _ _); [by destruct He; apply Hc|done..].
      * osimpl. rewrite bool_decide_eq_false_2; [done|]. intros E. rewrite E in Hia. lia.
    + unfold getFamily, u16_at. rewrite Ea. f_equal. unfold image.
      rewrite slice_take; [done|]. destruct a; simpl in *; lia.
  - destruct a as [m|m|m l|m], b as [m'|m'|m' l'|m']; simpl; intros ? ?; try done.
    assert (∀ m, in6_ok m → length (drop 8 (in6_bytes order m)) = 20%nat) as H20.
    { intros m0 (_ & _ & _ & _ & Hl & _). rewrite length_drop. unfold in6_bytes.
      rewrite !length_app, !length_to_memory, Hl. done. }
    split_and!.
    + unfold address_lt, memcmp. cbn [getAddrLen getAddr_const]. rewrite !H20 by done. done.
    + unfold address_eq, memcmp. cbn [getAddrLen getAddr_const]. rewrite !H20 by done. done.
    + intros ? [= <-]. unfold getFamily, getAddr_const, u16_at, in6_bytes. f_equal.
      destruct Ha as (_ & _ & _ & _ & Hl & _).
      rewrite !drop_app_ge, !length_to_memory by (rewrite ?length_to_memory; simpl; lia).
      simpl. apply slice_app_l. lia.
Qed.

Lemma address_order_witness :
  address_lt SYLAR_LITTLE_ENDIAN (IPv4Address host_77) (UnknownAddress_new 5) = Ok true ∧
  address_eq SYLAR_LITTLE_ENDIAN (IPv6Address IPv6Address_new) (IPv6Address IPv6Address_new) = Stuck.
Proof.
  split.
  - destruct (address_order SYLAR_LITTLE_ENDIAN (IPv4Address host_77) (UnknownAddress_new 5)) as [H _].
    + split_and!; vm_compute; try (split; congruence); try done. repeat constructor; done.
    + split_and!; vm_compute; try (split; congruence); try done. repeat constructor; done.
    + destruct H as (H & _); [reflexivity|reflexivity|]. rewrite H. vm_compute. reflexivity.
  - destruct (address_order SYLAR_LITTLE_ENDIAN (IPv6Address IPv6Address_new)
      (IPv6Address IPv6Address_new)) as [_ H].
    + split_and!; vm_compute; try (split; congruence); try done. repeat constructor; done.
    + split_and!; vm_compute; try (split; congruence); try done. repeat constructor; done.
    + destruct H as (_ & H & _); [reflexivity|reflexivity|]. exact H.
Defined.

(** ** Host names *)

Lemma slice_app_exact {A} (pre mid post : list A) :
  slice (length pre) (length mid) (pre ++ mid ++ post) = mid.
Proof. rewrite slice_app_r, Nat.sub_diag by lia. unfold slice. by rewrite drop_0, take_app_length. Qed.

Definition no_char (c : Z) (s : list Z) : Prop := Forall (λ x, x ≠ c) s.

Lemma no_char_find c s : no_char c s ↔ Forall (λ x, bool_decide (x = c) = false) s.
Proof. unfold no_char. by setoid_rewrite bool_decide_eq_false. Qed.

(** [name:service]. *)
Lemma split_host_name node service :
  node ≠ [] → head node ≠ Some 91 → no_char 58 node → no_char 58 service →
  split_host (node ++ 58 :: service) = (node, Some (S (length node))).
Proof.
  intros Hne Hh Hn Hs. unfold split_host. rewrite bool_decide_eq_false_2 by by destruct node.
  rewrite (find_first_app _ node 58) by (done || by apply no_char_find).
  replace (drop (S (length node)) (node ++ 58 :: service)) with service
    by by rewrite drop_app_ge, Nat.sub_succ_l, Nat.sub_diag by lia.
  rewrite (proj2 (find_first_None _ _)) by by apply no_char_find.
  rewrite take_app_length. by destruct node.
Qed.

(** [[address]:service]. *)
Lemma split_host_bracket node service :
  node ≠ [] → no_char 93 node →
  split_host (91 :: node ++ 93 :: 58 :: service) = (node, Some (3 + length node)%nat).
Proof.
  intros Hne Hn. unfold split_host. rewrite bool_decide_eq_true_2 by done.
  unfold find_from.
  change (drop 1 (91 :: node ++ 93 :: 58 :: service)) with (node ++ 93 :: 58 :: service).
  rewrite (find_first_app _ node 93) by (done || by apply no_char_find).
  cbn [fmap option_fmap option_map]. replace (1 + length node - 1)%nat with (length node) by lia.
  change (91 :: node ++ 93 :: 58 :: service) with ([91] ++ node ++ 93 :: 58 :: service).
  rewrite (slice_app_exact [91] node). rewrite bool_decide_eq_true_2.
  - by destruct node.
  - change (S (1 + length node)) with (S (S (length node))). simpl. rewrite <-(assoc_L (++)).
    rewrite lookup_app_r by lia. by rewrite Nat.sub_succ_l, Nat.sub_diag by lia.
Qed.

(** A bare IPv6 literal keeps its tail as a service. *)
Lemma split_host_literal a b rest :
  no_char 58 a → no_char 58 b → head (a ++ [58]) ≠ Some 91 →
  split_host (a ++ 58 :: b ++ 58 :: rest) = (a ++ 58 :: b ++ 58 :: rest, Some (length a)).
Proof.
  intros Ha Hb Hh. unfold split_host. rewrite bool_decide_eq_false_2 by by destruct a.
  rewrite (find_first_app _ a 58) by (done || by apply no_char_find).
  replace (drop (S (length a)) (a ++ 58 :: b ++ 58 :: rest)) with (b ++ 58 :: rest)
    by by rewrite drop_app_ge, Nat.sub_succ_l, Nat.sub_diag by lia.
  by rewrite (find_first_app _ b 58) by (done || by apply no_char_find).
Qed.

(** ** IPv4 text *)

Definition dotted (ip : Z) : list Z :=
  dec (ip / 2 ^ 24) ++ text "." ++ dec (ip / 2 ^ 16 mod 256) ++ text "." ++
  dec (ip / 2 ^ 8 mod 256) ++ text "." ++ dec (ip mod 256).

Lemma v4_insert_dotted order a :
  in4_ok a → v4_insert order a = dotted (ip4 order a) ++ 58 :: dec (v4_getPort order a).
Proof.
  intros (_ & _ & Ha & _). pose proof (net32_range order _ Ha) as Hr.
  unfold v4_insert, dotted, ip4, v4_getPort. rewrite !Z.shiftr_div_pow2 by lia.
  change 255 with (2 ^ 8 - 1). rewrite !land_low by lia.
  rewrite (Z.mod_small (_ / 2 ^ 24)).
  - by rewrite <-!(assoc_L (++)).
  - unfold in_unsigned in Hr. split; [apply Z.div_pos; lia|]. apply Z.div_lt_upper_bound; lia.
Qed.

Lemma digits_no_char c s : is_digit c = false → Forall (λ c, is_digit c = true) s → no_char c s.
Proof. intros Hc Hs. apply (Forall_impl _ _ _ Hs). intros x Hx ->. congruence. Qed.

Lemma dec_no_char c n : is_digit c = false → 0 <= n → no_char c (dec n).
Proof. intros. apply digits_no_char; [done|]. by apply dec_digits. Qed.

Lemma dotted_no_char c ip : is_digit c = false → c ≠ 46 → 0 <= ip → no_char c (dotted ip).
Proof.
  intros Hc H46 Hip. unfold dotted, no_char.
  pose proof (Z.mod_pos_bound (ip / 2 ^ 16) 256). pose proof (Z.mod_pos_bound (ip / 2 ^ 8) 256).
  pose proof (Z.mod_pos_bound ip 256). assert (0 <= ip / 2 ^ 24) by (apply Z.div_pos; lia).
  assert (Forall (λ x, x ≠ c) (text ".")) by (apply (Forall_singleton _ 46); congruence).
  repeat (apply Forall_app; split); try done; (apply dec_no_char; [done|lia]).
Qed.

Lemma dec_ne_nil n : 0 <= n → dec n ≠ [].
Proof.
  intros Hn E. destruct n as [|p|p]; [done| |lia]. pose proof (digits_dec (Z.pos p) [] Hn I) as H'.
  rewrite app_nil_r, E in H'. done.
Qed.

Lemma ip_bytes ip : in_unsigned 32 ip →
  reverse (bytes_le 4 ip) = [ip / 2 ^ 24; ip / 2 ^ 16 mod 256; ip / 2 ^ 8 mod 256; ip mod 256].
Proof.
  unfold in_unsigned. intros Hip. cbn [bytes_le]. rewrite !Z.div_div by lia.
  change (256 * 256 * 256) with (2 ^ 24). change (256 * 256) with (2 ^ 16). change 256 with (2 ^ 8).
  rewrite (Z.mod_small (ip / 2 ^ 24)); [done|].
  split; [apply Z.div_pos; lia|]. apply Z.div_lt_upper_bound; lia.
Qed.

Lemma of_memory_network order v :
  in_unsigned 32 v → of_memory order uint32_t (reverse (bytes_le 4 v)) = net32 order v.
Proof.
  intros Hv. change 4%nat with (sizeof uint32_t). rewrite <-(to_memory_network order).
  rewrite of_to_memory_id; [done|simpl; lia|]. by apply (net32_range order).
Qed.

(** The text of an IPv4 address is its four numbers and its port; a host
    name of that form is taken apart by [Lookup] into the address and the
    service, reading the service as a number gives the port, and
    [IPv4Address::Create] of the two parts gives the address back. [inet_pton] is
    the system's, which reads dotted decimals. *)
Theorem ipv4_text_roundtrip order (inet_pton : Z → list Z → option (list Z)) ip port :
  (∀ v, in_unsigned 32 v → inet_pton AF_INET (dotted v) = Some (reverse (bytes_le 4 v))) →
  in_unsigned 32 ip → in_unsigned 16 port →
  let a := IPv4Address_new order ip port in
  ∃ s pos, toString order (IPv4Address a) = Ok s ∧ split_host s = (dotted ip, Some pos) ∧
    service_text s (Some pos) = Some (dec port) ∧ digits 0 (dec port) = port ∧
    IPv4Address_Create order inet_pton (dotted ip) port = Some a.
Proof.
  intros Hpton Hip Hport a. unfold in_unsigned in Hip, Hport.
  assert (in4_ok a) as Hok.
  { split_and!; try done; simpl; [by apply net16_range|by apply net32_range|repeat constructor; done]. }
  exists (dotted ip ++ 58 :: dec port), (S (length (dotted ip))). split_and!.
  - cbn [toString mret outcome_ret]. rewrite v4_insert_dotted by done. unfold ip4, v4_getPort. simpl.
    by rewrite net32_twice, net16_twice.
  - apply split_host_name.
    + unfold dotted. intros [H _]%app_eq_nil. apply dec_ne_nil in H; [done|apply Z.div_pos; lia].
    + intros H. pose proof (dotted_no_char 91 ip eq_refl ltac:(lia) ltac:(lia)) as Hn.
      destruct (dotted ip) as [|c l]; [done|]. injection H as ->. by apply Forall_cons in Hn as [Hn _].
    + apply dotted_no_char; [done|lia|lia].
    + apply dec_no_char; [done|lia].
  - unfold service_text. cbn [fmap option_fmap option_map]. f_equal.
    rewrite drop_app_ge, Nat.sub_succ_l, Nat.sub_diag by lia. simpl. apply c_str_id.
    apply dec_no_char; [done|lia].
  - pose proof (digits_dec port [] ltac:(lia) I) as H. by rewrite app_nil_r in H.
  - unfold IPv4Address_Create. rewrite c_str_id by (apply dotted_no_char; [done|lia|lia]).
    rewrite Hpton by done. cbn [fmap option_fmap option_map]. by rewrite of_memory_network.
Qed.

(** A reader of dotted decimals. *)
Definition read_dotted (s : list Z) : option (list Z) :=
  let rest (s : list Z) := match find_first (λ c, bool_decide (c = 46)) s with
                           | Some i => drop (S i) s | None => [] end in
  Some [digits 0 s; digits 0 (rest s); digits 0 (rest (rest s)); digits 0 (rest (rest (rest s)))].

Lemma read_dotted_dotted v :
  in_unsigned 32 v → read_dotted (dotted v) = Some (reverse (bytes_le 4 v)).
Proof.
  intros Hv. rewrite ip_bytes by done. unfold in_unsigned in Hv. unfold read_dotted, dotted.
  assert (0 <= v / 2 ^ 24) by (apply Z.div_pos; lia).
  pose proof (Z.mod_pos_bound (v / 2 ^ 16) 256). pose proof (Z.mod_pos_bound (v / 2 ^ 8) 256).
  pose proof (Z.mod_pos_bound v 256).
  assert (∀ n t, 0 <= n →
    match find_first (λ c, bool_decide (c = 46)) (dec n ++ text "." ++ t) with
    | Some i => drop (S i) (dec n ++ text "." ++ t) | None => [] end = t) as Hrest.
  { intros n t Hn. change (text "." ++ t) with (46 :: t).
    rewrite find_first_app by (done || (apply no_char_find, dec_no_char; [done|lia])).
    by rewrite drop_app_ge, Nat.sub_succ_l, Nat.sub_diag by lia. }
  rewrite !Hrest by lia. rewrite !digits_dec by (done || lia).
  pose proof (digits_dec (v mod 256) [] ltac:(lia) I) as H'. rewrite app_nil_r in H'. by rewrite H'.
Qed.

Lemma ipv4_text_roundtrip_witness :
  IPv4Address_Create SYLAR_BIG_ENDIAN (λ _, read_dotted) (text "10.0.0.1") 8080 =
  Some (IPv4Address_new SYLAR_BIG_ENDIAN 167772161 8080).
Proof.
  destruct (ipv4_text_roundtrip SYLAR_BIG_ENDIAN (λ _, read_dotted) 167772161 8080)
    as (s & pos & _ & _ & _ & _ & H).
  - intros v Hv. by apply read_dotted_dotted.
  - vm_compute; split; congruence.
  - vm_compute; split; congruence.
  - exact H.
Defined.

(** ** IPv6 text *)

(** The eight numbers of an address. *)
Definition groups_of (order : endian) (a : sockaddr_in6) : list Z :=
  (λ i, net16 order (group order a i)) <$> seq 0 8.

(** The loop over the groups, on their list. *)
Fixpoint walk (start prev0 used : bool) (gs : list Z) : list Z * bool :=
  match gs with
  | [] => ([], used)
  | g :: gs =>
    if decide (g = 0) then walk false true used gs else
    let first := prev0 && negb used in
    let '(rest, used) := walk false false (used || first) gs in
    ((if first then text ":" else []) ++ (if start then [] else text ":") ++ hex g ++ rest, used)
  end.

Lemma group_range order a i : in_unsigned 16 (group order a i).
Proof. apply (cast_in_type uint16_t). simpl. lia. Qed.

Lemma net16_0 order v : in_unsigned 16 v → net16 order v = 0 ↔ v = 0.
Proof.
  intros Hv. assert (net16 order 0 = 0) as H0 by by destruct order.
  split; [|by intros ->]. intros E. by rewrite <-(net16_twice order v), E, H0.
Qed.

Lemma v6_groups_walk order a n : ∀ i used,
  v6_groups order a i n used =
  walk (bool_decide (i = 0%nat)) (bool_decide (i ≠ 0%nat ∧ group order a (i - 1) = 0)) used
    ((λ i, net16 order (group order a i)) <$> seq i n).
Proof.
  induction n as [|n IH]; intros i used; [done|]. cbn [v6_groups seq fmap list_fmap walk].
  destruct (decide (group order a i = 0)) as [H0|H0];
    rewrite (IH (S i)); rewrite (bool_decide_eq_false_2 (S i = 0%nat)) by done;
    replace (S i - 1)%nat with i by lia.
  - rewrite (decide_True (P := net16 order (group order a i) = 0))
      by (by apply net16_0; [apply group_range|]).
    by rewrite (bool_decide_eq_true_2 (S i ≠ 0%nat ∧ _)) by done.
  - rewrite (decide_False (P := net16 order (group order a i) = 0))
      by (rewrite net16_0; [done|apply group_range]).
    rewrite (bool_decide_eq_false_2 (S i ≠ 0%nat ∧ _)) by naive_solver.
    destruct (walk _ _ _ _) as [rest u]. f_equal. do 2 f_equal.
    case_decide; [by rewrite bool_decide_eq_true_2|by rewrite bool_decide_eq_false_2].
Qed.

(** Numbers separated by colons. *)
Definition colons (gs : list Z) : list Z := concat ((λ g, text ":" ++ hex g) <$> gs).

Definition joined (gs : list Z) : list Z :=
  match gs with [] => [] | g :: gs => hex g ++ colons gs end.

Definition nonzero (gs : list Z) : Prop := Forall (λ g, g ≠ 0) gs.

Lemma walk_nonzero used gs rest :
  nonzero gs → walk false false used (gs ++ rest) =
  let '(t, u) := walk false false used rest in (colons gs ++ t, u).
Proof.
  intros Hgs. induction Hgs as [|g gs Hg _ IH]; simpl; [by destruct (walk _ _ _ _)|].
  rewrite decide_False by done. rewrite orb_false_r, IH. destruct (walk _ _ _ rest) as [t u]. simpl.
  unfold colons. simpl. by rewrite <-!(assoc_L (++)).
Qed.

Lemma walk_start pre rest :
  nonzero pre → walk true false false (pre ++ rest) =
  let '(t, u) := walk (bool_decide (pre = [])) false false rest in (joined pre ++ t, u).
Proof.
  intros Hpre. destruct Hpre as [|g gs Hg Hgs]; simpl; [by destruct (walk _ _ _ _)|].
  rewrite decide_False by done. rewrite walk_nonzero by done.
  destruct (walk _ _ _ rest) as [t u]. simpl. by rewrite <-!(assoc_L (++)).
Qed.

Lemma walk_zeros start used k rest :
  walk start false used (replicate (S k) 0 ++ rest) = walk false true used rest.
Proof.
  simpl. induction k as [|k IH]; simpl; [done|]. apply IH.
Qed.

Lemma walk_after post :
  nonzero post → walk false true false post =
  (if decide (post = []) then [] else text "::" ++ joined post, negb (bool_decide (post = []))).
Proof.
  intros Hpost. destruct Hpost as [|g gs Hg Hgs]; [done|]. cbn [walk].
  rewrite decide_False by done. rewrite <-(app_nil_r gs), walk_nonzero by done.
  simpl. rewrite !app_nil_r. done.
Qed.

Lemma group_7 order a : bool_decide (group order a 7 = 0) = bool_decide (last (groups_of order a) = Some 0).
Proof.
  apply bool_decide_ext. unfold groups_of. simpl. rewrite <-(net16_0 order) by apply group_range.
  split; [by intros ->|by intros [= ->]].
Qed.

(** The text of an IPv6 address whose zero groups are together is the usual
    one: the groups in hexadecimal, the run of zeros written as two colons, in
    brackets before the port. Where there are several runs of zeros the others
    are dropped without a trace, so that different addresses get the same
    text. *)
Theorem ipv6_text order a pre k post :
  groups_of order a = pre ++ replicate k 0 ++ post → nonzero pre → nonzero post →
  v6_insert order a =
    text "[" ++ (if decide (k = 0%nat) then joined (pre ++ post)
                 else joined pre ++ text "::" ++ joined post) ++
    text "]:" ++ dec (v6_getPort order a) ∧
  ∃ b c, in6_ok b ∧ in6_ok c ∧ groups_of order b ≠ groups_of order c ∧
    v6_insert order b = v6_insert order c.
Proof.
  intros Hg Hpre Hpost. split.
  - unfold v6_insert. rewrite v6_groups_walk. fold (groups_of order a).
    rewrite (bool_decide_eq_true_2 (0%nat = 0%nat)) by done.
    rewrite (bool_decide_eq_false_2 (0%nat ≠ 0%nat ∧ _)) by naive_solver.
    rewrite group_7, Hg. destruct k as [|k].
    + simpl. rewrite <-(app_nil_r (pre ++ post)), walk_start by by apply Forall_app.
      simpl. rewrite bool_decide_eq_false_2; [by rewrite !app_nil_r|].
      intros Hl%last_Some_elem_of. rewrite app_nil_r in Hl.
      apply elem_of_app in Hl as [Hl|Hl]; [by eapply Forall_forall in Hl; [|apply Hpre]|].
      by eapply Forall_forall in Hl; [|apply Hpost].
    + rewrite walk_start by done. rewrite walk_zeros, walk_after by done.
      rewrite (decide_False (P := S k = 0%nat)) by done. case_decide as Hp.
      * subst post. rewrite app_nil_r.
        rewrite (bool_decide_eq_true_2 ([] = [])) by done. simpl negb. cbn [andb].
        rewrite bool_decide_eq_true_2.
        { by rewrite app_nil_r, <-!(assoc_L (++)). }
        by rewrite app_nil_r, replicate_S_end, (assoc_L (++)), last_snoc.
      * rewrite bool_decide_eq_false_2 by done. simpl. by rewrite <-!(assoc_L (++)).
  - exists (IPv6Address_of order [0;1;0;0;0;0;0;1;0;0;0;0;0;1;0;1] 80),
      (IPv6Address_of order [0;1;0;0;0;0;0;0;0;0;0;1;0;1;0;1] 80).
    destruct order; split_and!; try (apply (bool_decide_unpack _); vm_compute; exact I); done.
Qed.

Lemma ipv6_text_witness :
  v6_insert SYLAR_LITTLE_ENDIAN
    (IPv6Address_of SYLAR_LITTLE_ENDIAN [32;1;13;184;0;0;0;0;0;0;0;0;0;0;0;171] 80) =
  text "[2001:db8::ab]:80".
Proof.
  destruct (ipv6_text SYLAR_LITTLE_ENDIAN
    (IPv6Address_of SYLAR_LITTLE_ENDIAN [32;1;13;184;0;0;0;0;0;0;0;0;0;0;0;171] 80)
    [8193; 3512] 5 [171]) as [H _].
  - vm_compute. reflexivity.
  - repeat constructor; done.
  - repeat constructor; done.
  - rewrite H. vm_compute. reflexivity.
Defined.

(** ** Unix paths *)

(** A [UnixAddress] keeps the path it is made from: an ordinary path of at
    most 107 bytes is printed as it was given, an abstract one (with a leading
    zero byte) of at most 108 bytes as its name after a backslash and a zero
    digit, with the length that the system expects; longer paths throw. The
    empty path is taken for an abstract one. *)
Theorem unix_path_roundtrip (path : list Z) :
  Z.of_nat (length path) < 2 ^ 31 →
  (no_char 0 path → path ≠ [] → (length path <= 107)%nat → ∃ m,
     UnixAddress_new path = Ok (UnixAddress m (2 + Z.of_nat (length path) + 1)) ∧
     length (sun_path m) = 108%nat ∧
     getPath m (2 + Z.of_nat (length path) + 1) = Ok path) ∧
  (∀ name, path = 0 :: name → (length path <= 108)%nat → ∃ m,
     UnixAddress_new path = Ok (UnixAddress m (2 + Z.of_nat (length path))) ∧
     length (sun_path m) = 108%nat ∧
     getPath m (2 + Z.of_nat (length path)) = Ok (text "\0" ++ name)) ∧
  ((if decide (head path = Some 0) then 108 else 107) < Z.of_nat (length path) →
     UnixAddress_new path = Throw (logic_error "path too long")) ∧
  (path = [] → ∃ m, UnixAddress_new path = Ok (UnixAddress m 3) ∧ getPath m 3 = Ok (text "\0")).
Proof.
  intros Hlen. unfold UnixAddress_new. rewrite (uwrap_small 32 (_ + 1)) by (unfold in_unsigned; lia).
  split_and!.
  - intros H0 Hne Hl. assert (head path ≠ Some 0) as Hh.
    { destruct path; [done|]. intros [= ->]. by apply Forall_cons in H0 as [H0 _]. }
    rewrite bool_decide_eq_false_2 by done. unfold SUN_PATH, SUN_OFFSET. rewrite decide_False by lia.
    eexists. split_and!; [cbn [mret outcome_ret]; rewrite (uwrap_small 32) by (unfold in_unsigned; lia);
      do 2 f_equal; lia| |].
    + cbn [sun_path]. rewrite length_overwrite; [apply length_replicate|].
      rewrite length_take, length_app, length_replicate. simpl. lia.
    + unfold getPath, SUN_OFFSET. cbn [sun_path].
      rewrite take_ge by (rewrite length_app; simpl; lia).
      unfold overwrite. simpl. rewrite <-(assoc_L (++)). simpl.
      rewrite (bool_decide_eq_false_2 (head _ = _)) by by destruct path.
      rewrite andb_false_r. unfold print_path. rewrite decide_True by set_solver.
      by rewrite c_str_app_0.
  - intros name -> Hl. rewrite bool_decide_eq_true_2 by done. simpl length in *.
    rewrite (uwrap_small 32 (_ - 1)) by (unfold in_unsigned; lia).
    unfold SUN_PATH, SUN_OFFSET. rewrite decide_False by lia.
    eexists. split_and!; [cbn [mret outcome_ret]; rewrite (uwrap_small 32) by (unfold in_unsigned; lia);
      do 2 f_equal; lia| |].
    + cbn [sun_path]. rewrite length_overwrite; [apply length_replicate|].
      rewrite length_take, length_app, length_replicate. simpl. lia.
    + unfold getPath, SUN_OFFSET. cbn [sun_path].
      replace (Z.to_nat (Z.of_nat (S (length name)) + 1 - 1)) with (length (0 :: name)) by (simpl; lia).
      rewrite take_app_length. unfold overwrite. simpl take.
      rewrite (bool_decide_eq_true_2 (_ < _)) by lia. rewrite bool_decide_eq_true_2 by done. cbn [andb].
      unfold abstract_name, SUN_PATH. rewrite decide_True by lia. osimpl. do 2 f_equal.
      unfold slice. simpl. replace (Z.to_nat _) with (length name) by lia. apply take_app_length.
  - intros Hl. unfold SUN_PATH. case_decide as Hh.
    + rewrite bool_decide_eq_true_2 by done. rewrite uwrap_small by (unfold in_unsigned; lia).
      by rewrite decide_True by lia.
    + rewrite bool_decide_eq_false_2 by done. by rewrite decide_True by lia.
  - intros ->. eexists. split; reflexivity.
Qed.

Lemma unix_path_roundtrip_witness :
  ∃ m, UnixAddress_new (text "/tmp/s") = Ok (UnixAddress m 9) ∧ getPath m 9 = Ok (text "/tmp/s").
Proof.
  destruct (unix_path_roundtrip (text "/tmp/s")) as [H _]; [vm_compute; reflexivity|].
  destruct H as (m & H1 & _ & H2).
  - repeat constructor; done.
  - done.
  - vm_compute. lia.
  - exists m. split; [exact H1|exact H2].
Defined.

(** ** Raw addresses *)

Lemma slice_to_memory order t v pre post :
  slice (length pre) (sizeof t) (pre ++ to_memory order t v ++ post) = to_memory order t v.
Proof. rewrite <-(length_to_memory order t v). apply slice_app_exact. Qed.

Lemma u16_of order v pre post i :
  in_unsigned 16 v → length pre = i → u16_at order (pre ++ to_memory order uint16_t v ++ post) i = v.
Proof.
  intros Hv <-. unfold u16_at. change 2%nat with (sizeof uint16_t). rewrite slice_to_memory.
  apply of_to_memory_id; [simpl; lia|done].
Qed.

Lemma u32_of order v pre post i :
  in_unsigned 32 v → length pre = i → u32_at order (pre ++ to_memory order uint32_t v ++ post) i = v.
Proof.
  intros Hv <-. unfold u32_at. change 4%nat with (sizeof uint32_t). rewrite slice_to_memory.
  apply of_to_memory_id; [simpl; lia|done].
Qed.

Lemma u16_head order v post : in_unsigned 16 v → u16_at order (to_memory order uint16_t v ++ post) 0 = v.
Proof. intros Hv. by apply (u16_of order v [] post 0). Qed.

Lemma read_in_bytes order m : in4_ok m → read_in order (in_bytes order m) = Ok m.
Proof.
  destruct m as [fam port ad z]. intros (H1 & H2 & H3 & H4 & _). simpl in *. unfold read_in, in_bytes.
  simpl. rewrite decide_True by (rewrite !length_app, !length_to_memory, H4; simpl; lia).
  rewrite u16_head by done.
  rewrite (u16_of order port (to_memory order uint16_t fam) _ 2) by (done || apply length_to_memory).
  pose proof (u32_of order ad (to_memory order uint16_t fam ++ to_memory order uint16_t port) z 4) as E.
  rewrite <-(assoc_L (++)) in E. rewrite E by (done || (rewrite length_app, !length_to_memory; done)).
  do 2 f_equal. rewrite !slice_app_r, !length_to_memory by (rewrite ?length_to_memory; simpl; lia).
  simpl. rewrite <-H4. apply slice_all.
Qed.

Lemma read_in6_bytes order m : in6_ok m → read_in6 order (in6_bytes order m) = Ok m.
Proof.
  destruct m as [fam port fl ad sc]. intros (H1 & H2 & H3 & H4 & H5 & _). simpl in *.
  unfold read_in6, in6_bytes. simpl.
  rewrite decide_True by (rewrite !length_app, !length_to_memory, H5; simpl; lia).
  rewrite u16_head by done.
  rewrite (u16_of order port (to_memory order uint16_t fam) _ 2) by (done || apply length_to_memory).
  pose proof (u32_of order fl (to_memory order uint16_t fam ++ to_memory order uint16_t port)
    (ad ++ to_memory order uint32_t sc) 4) as E.
  rewrite <-(assoc_L (++)) in E. rewrite E by (done || (rewrite length_app, !length_to_memory; done)).
  pose proof (u32_of order sc (to_memory order uint16_t fam ++ to_memory order uint16_t port ++
    to_memory order uint32_t fl ++ ad) [] 24) as E2.
  rewrite <-!(assoc_L (++)), app_nil_r in E2.
  rewrite E2 by (done || (rewrite !length_app, !length_to_memory, H5; done)).
  do 2 f_equal. rewrite !slice_app_r, !length_to_memory by (rewrite ?length_to_memory; simpl; lia).
  simpl. rewrite slice_app_l by lia. rewrite <-H5. apply slice_all.
Qed.

Lemma read_sa_bytes order fam data :
  in_unsigned 16 fam → (14 <= length data)%nat →
  read_sa order (to_memory order uint16_t fam ++ data) = Ok (mkSa fam (take 14 data)).
Proof.
  intros Hf Hl. unfold read_sa. rewrite decide_True by (rewrite length_app, length_to_memory; simpl; lia).
  rewrite u16_head by done. do 2 f_equal.
  rewrite slice_app_r by (rewrite length_to_memory; simpl; lia). by rewrite length_to_memory.
Qed.

(** An IP address survives being passed as a raw [sockaddr]; Unix addresses come
    back as [UnknownAddress]. *)
Lemma Create_getAddr order a :
  address_ok a →
  match a with
  | IPv4Address m => sin_family m = AF_INET
  | IPv6Address m => sin6_family m = AF_INET6
  | UnixAddress m _ => sun_family m = AF_UNIX
  | UnknownAddress m => sa_family m ≠ AF_INET ∧ sa_family m ≠ AF_INET6
  end →
  Address_Create order (Some (getAddr order a)) =
  Ok (Some (match a with
            | UnixAddress m _ => UnknownAddress (mkSa AF_UNIX (take 14 (sun_path m)))
            | a => a
            end)).
Proof.
  intros Hok Hf. unfold Address_Create.
  assert (∀ fam rest, (length (to_memory order uint16_t fam ++ rest) < 2)%nat → False) as Hlen.
  { intros fam rest. rewrite length_app, length_to_memory. simpl. lia. }
  destruct a as [m|m|m l|m]; cbn [getAddr] in *; (rewrite decide_False by (intros ?%Hlen; done)).
  - assert (u16_at order (in_bytes order m) 0 = sin_family m) as -> by apply u16_head, (proj1 Hok).
    rewrite decide_True by done. by rewrite read_in_bytes.
  - assert (u16_at order (in6_bytes order m) 0 = sin6_family m) as -> by apply u16_head, (proj1 Hok).
    rewrite Hf. by rewrite read_in6_bytes.
  - destruct m as [fam path], Hok as (H1 & H2 & _). simpl in *. subst fam. unfold un_bytes. simpl.
    rewrite u16_head by done. rewrite !decide_False by done. rewrite read_sa_bytes by (done || lia). done.
  - destruct m as [fam d], Hok as (H1 & H2 & _), Hf. simpl in *. unfold sa_bytes. simpl.
    rewrite u16_head by done. rewrite !decide_False by done. rewrite read_sa_bytes by (done || lia).
    by rewrite take_ge by lia.
Qed.

(** ** Network interfaces *)

Definition by_name {V} (name : list Z) (m : list (list Z * V)) : list V :=
  snd <$> filter (λ kv, kv.1 = name) m.

(** The keys of a [std::multimap], in order. *)
Definition keys_sorted {V} (m : list (list Z * V)) : Prop :=
  StronglySorted (λ x y, bytes_lt y x = false) (fst <$> m).

Lemma bytes_lt_asym a b : bytes_lt a b = true → bytes_lt b a = false.
Proof.
  intros H. destruct (bytes_lt b a) eqn:E; [|done].
  pose proof (bytes_lt_trans _ _ _ H E) as H'. by rewrite bytes_lt_irrefl in H'.
Qed.

Lemma multimap_insert_cons {V} (m : list (list Z * V)) k0 v0 k v :
  multimap_insert ((k0, v0) :: m) k v =
  if bytes_lt k k0 then (k, v) :: (k0, v0) :: m else (k0, v0) :: multimap_insert m k v.
Proof. unfold multimap_insert. simpl. by destruct (bytes_lt k k0). Qed.

Lemma multimap_insert_keys {V} (m : list (list Z * V)) k v x :
  x ∈ (multimap_insert m k v).*1 ↔ x = k ∨ x ∈ m.*1.
Proof.
  unfold multimap_insert. set (i := lower_bound _ m). rewrite fmap_app, fmap_cons.
  assert (m.*1 = (take i m).*1 ++ (drop i m).*1) as -> by by rewrite <-fmap_app, take_drop.
  set_solver.
Qed.

Lemma multimap_insert_sorted {V} (m : list (list Z * V)) k v :
  keys_sorted m → keys_sorted (multimap_insert m k v).
Proof.
  unfold keys_sorted. induction m as [|[k0 v0] m IH]; intros Hs; [by repeat constructor|].
  apply StronglySorted_inv in Hs as [Hs Hall]. rewrite multimap_insert_cons.
  destruct (bytes_lt k k0) eqn:E; simpl.
  - constructor; [by constructor|]. constructor; [by apply bytes_lt_asym|].
    rewrite Forall_forall in Hall |- *. intros x Hx. destruct (bytes_lt x k) eqn:Ex; [|done].
    rewrite <-(Hall x Hx). symmetry. by eapply bytes_lt_trans.
  - constructor; [by apply IH|]. rewrite Forall_forall in Hall |- *.
    intros x [->|Hx]%multimap_insert_keys; [done|by apply Hall].
Qed.

Lemma by_name_cons {V} name k v (m : list (list Z * V)) :
  by_name name ((k, v) :: m) = (if decide (k = name) then [v] else []) ++ by_name name m.
Proof. unfold by_name. rewrite filter_cons. simpl. by case_decide. Qed.

Lemma by_name_above {V} name k (m : list (list Z * V)) :
  bytes_lt name k = true → Forall (λ x, bytes_lt x k = false) m.*1 → by_name name m = [].
Proof.
  intros Hlt. induction m as [|[k0 v0] m IH]; [done|]. rewrite fmap_cons.
  intros [Hk0 Hm]%Forall_cons. rewrite by_name_cons, IH by done. case_decide; [|done].
  simpl in Hk0. congruence.
Qed.

(** Inserting appends to the entries of its key. *)
Lemma by_name_insert {V} (m : list (list Z * V)) k v name :
  keys_sorted m →
  by_name name (multimap_insert m k v) = by_name name m ++ (if decide (k = name) then [v] else []).
Proof.
  unfold keys_sorted. induction m as [|[k0 v0] m IH]; intros Hs.
  { change (multimap_insert [] k v) with [(k, v)]. rewrite by_name_cons. by rewrite app_nil_r. }
  apply StronglySorted_inv in Hs as [Hs Hall]. rewrite multimap_insert_cons.
  destruct (bytes_lt k k0) eqn:E.
  - rewrite by_name_cons. case_decide as Hk; [|by rewrite app_nil_r]. subst k.
    rewrite (by_name_above name k0); [done|done|].
    rewrite fmap_cons. constructor; [apply bytes_lt_irrefl|done].
  - rewrite !by_name_cons, IH by done. by rewrite (assoc_L (++)).
Qed.

(** The loop over the interfaces when every entry has an address. *)
Lemma interface_loop_by_name order family name l : ∀ result out,
  keys_sorted result → interface_loop order l family result = Ok out →
  by_name name out = by_name name result ++
    omap (λ next, if decide (c_str (ifa_name next) = name) then
                    match interface_address order next family with Ok r => r | _ => None end
                  else None) l.
Proof.
  induction l as [|next l IH]; intros result out Hs; simpl.
  { intros [= <-]. by rewrite app_nil_r. }
  destruct (interface_address order next family) as [r| |]; [|done..]. osimpl. destruct r as [v|].
  - intros E. apply IH in E; [|by apply multimap_insert_sorted].
    rewrite E, by_name_insert by done. rewrite <-(assoc_L (++)). f_equal. by case_decide.
  - intros E. apply IH in E; [|done]. rewrite E. by case_decide.
Qed.

(** Asking for the addresses of one interface gives those of the entries with
    that name, in the order the system lists them. *)
Lemma interface_query order getifaddrs iface family ok out :
  iface ≠ [] → iface ≠ text "*" →
  GetInterfaceAddresses_of order getifaddrs [] iface family = Ok (ok, out) →
  (ok = true ↔ out ≠ []) ∧ ∀ l, getifaddrs = Some l →
  out = omap (λ next, if decide (c_str (ifa_name next) = iface) then
                    match interface_address order next family with Ok r => r | _ => None end
                  else None) l.
Proof.
  intros H1 H2. unfold GetInterfaceAddresses_of, GetInterfaceAddresses.
  rewrite bool_decide_eq_false_2 by naive_solver.
  destruct getifaddrs as [l|]; [|intros [= <- <-]; naive_solver].
  destruct (interface_loop order l family []) as [res| |] eqn:E; [|done..]. osimpl.
  apply (interface_loop_by_name _ _ iface) in E; [|constructor]. simpl in E. unfold by_name in E at 1.
  case_bool_decide as Hres; simpl.
  - subst res. intros [= <- <-]. simpl in E. split; [naive_solver|]. by intros ? [= <-].
  - intros [= <- <-]. rewrite E. split; [|by intros ? [= <-]].
    rewrite negb_true_iff, bool_decide_eq_false. done.
Qed.
