(* ===== verification/Buffer.v ===== *)
(** The interface between the byte buffer and its clients: a sequence of bytes
    with a cursor and a byte order.  The encodings ([ByteCodec]) are proved
    against it; [ByteArraySpec] shows that [ByteArray] implements it. *)

From stdpp Require Import base numbers list list_numbers strings option tactics.
From Stdlib Require Import ZArith Lia.
From S2P Require Import Prelude Endian.

(** The operations, and what can be observed of a buffer. *)
Class Buffer (B : Type) := {
  buf_ok : B → Prop;
  buf_data : B → list Z;
  buf_pos : B → nat;
  buf_order : B → endian;
  buf_write : B → list Z → outcome B;
  buf_read : B → nat → outcome (list Z * B);
  buf_seek : B → nat → outcome B
}.

(** [b'] is [b] after the bytes [bs] were written at its cursor. *)
Definition wrote `{Buffer B} (b : B) (bs : list Z) (b' : B) : Prop :=
  buf_ok b' ∧ buf_data b' = overwrite (buf_pos b) bs (buf_data b) ∧
  buf_pos b' = buf_pos b + length bs ∧ buf_order b' = buf_order b.

(** [b'] is [b] with its cursor at [p]. *)
Definition moved `{Buffer B} (b : B) (p : nat) (b' : B) : Prop :=
  buf_ok b' ∧ buf_data b' = buf_data b ∧ buf_pos b' = p ∧ buf_order b' = buf_order b.

Class BufferLaws (B : Type) `{Buffer B} : Prop := {
  buf_pos_le (b : B) : buf_ok b → buf_pos b ≤ length (buf_data b);
  buf_write_law (b : B) bs : buf_ok b → ∃ b', buf_write b bs = Ok b' ∧ wrote b bs b';
  buf_read_law (b : B) n :
    buf_ok b → 0 < n → buf_pos b + n ≤ length (buf_data b) →
    ∃ b', buf_read b n = Ok (slice (buf_pos b) n (buf_data b), b') ∧ moved b (buf_pos b + n) b';
  buf_short_law (b : B) n :
    buf_ok b → length (buf_data b) < buf_pos b + n →
    buf_read b n = Throw (out_of_range "not enough length");
  buf_seek_law (b : B) p :
    buf_ok b → p ≤ length (buf_data b) → ∃ b', buf_seek b p = Ok b' ∧ moved b p b'
}.

Section facts.
Context `{BufferLaws B}.
Implicit Types b : B.

(** The bytes [bs] stand at the cursor. *)
Definition at_cursor b (bs : list Z) : Prop :=
  buf_ok b ∧ bs `prefix_of` drop (buf_pos b) (buf_data b).

Lemma wrote_nil b : buf_ok b → wrote b [] b.
Proof. intros. split_and!; simpl; rewrite ?overwrite_nil; done || lia. Qed.

Lemma wrote_trans b bs1 b1 bs2 b2 :
  buf_ok b → wrote b bs1 b1 → wrote b1 bs2 b2 → wrote b (bs1 ++ bs2) b2.
Proof.
  intros Hb (_ & Hd1 & Hp1 & He1) (Hok & Hd2 & Hp2 & He2). pose proof (buf_pos_le b Hb).
  split_and!; [done| |rewrite length_app; lia|congruence].
  by rewrite Hd2, Hd1, Hp1, overwrite_overwrite.
Qed.

(** Seeking back to where a write started puts what it wrote at the cursor. *)
Lemma wrote_at_cursor b bs b' :
  buf_ok b → wrote b bs b' →
  ∃ b'', buf_seek b' (buf_pos b) = Ok b'' ∧ moved b' (buf_pos b) b'' ∧ at_cursor b'' bs.
Proof.
  intros Hb (Hok & Hd & Hp & He). pose proof (buf_pos_le b Hb).
  destruct (buf_seek_law b' (buf_pos b)) as (b'' & Hs & Hm); [done| |].
  { rewrite Hd, length_overwrite_ge; lia. }
  exists b''. split_and!; [done..|]. destruct Hm as (Hok' & Hd' & Hp' & _).
  split; [done|]. rewrite Hd', Hp', Hd, drop_overwrite by lia. by eexists.
Qed.

(** Reading the first of the bytes at the cursor leaves the others there. *)
Lemma at_cursor_read b bs1 bs2 :
  at_cursor b (bs1 ++ bs2) → 0 < length bs1 →
  ∃ b', buf_read b (length bs1) = Ok (bs1, b') ∧ at_cursor b' bs2 ∧
    moved b (buf_pos b + length bs1) b'.
Proof.
  intros [Hok [rest Hpre]] Hpos. pose proof (buf_pos_le b Hok).
  assert (length (drop (buf_pos b) (buf_data b)) = length (bs1 ++ bs2 ++ rest)) as Hlen
    by (rewrite Hpre, <-(assoc_L (++)); done).
  rewrite length_drop, !length_app in Hlen.
  destruct (buf_read_law b (length bs1)) as (b' & Hr & Hm); [done..|lia|].
  exists b'. split_and!; [|destruct Hm as (Hok' & Hd' & Hp' & _); split; [done|]|done].
  - rewrite Hr. unfold slice. rewrite Hpre, <-(assoc_L (++)), take_app_length. done.
  - rewrite Hd', Hp', <-drop_drop, Hpre, <-(assoc_L (++)), drop_app_length. by eexists.
Qed.

Lemma at_cursor_read_all b bs :
  at_cursor b bs → 0 < length bs →
  ∃ b', buf_read b (length bs) = Ok (bs, b') ∧ moved b (buf_pos b + length bs) b'.
Proof.
  intros Hb Hpos. destruct (at_cursor_read b bs []) as (b' & ? & _ & ?);
    [by rewrite app_nil_r|done|by exists b'].
Qed.

Lemma at_cursor_ok b bs : at_cursor b bs → buf_ok b.
Proof. by intros []. Qed.

Lemma at_cursor_prefix b bs rest : at_cursor b (bs ++ rest) → at_cursor b bs.
Proof. intros [? [k Hk]]. split; [done|]. exists (rest ++ k). by rewrite Hk, (assoc_L (++)). Qed.

(** Moving over the first bytes at the cursor leaves the others there. *)
Lemma moved_at_cursor b bs rest b' :
  at_cursor b (bs ++ rest) → moved b (buf_pos b + length bs) b' → at_cursor b' rest.
Proof.
  intros [_ [k Hk]] (Hok & Hd & Hp & _). split; [done|]. exists k.
  by rewrite Hd, Hp, <-drop_drop, Hk, <-(assoc_L (++)), drop_app_length.
Qed.

Lemma moved_trans b p b1 p' b2 : moved b p b1 → moved b1 p' b2 → moved b p' b2.
Proof. unfold moved. intros (?&?&?&?) (?&?&?&?). split_and!; congruence. Qed.

End facts.

#[export] Hint Resolve at_cursor_ok wrote_nil : sylar.
