(* ===== verification/ByteArray.v ===== *)
(** [sylar::ByteArray] ([sylar/bytearray.{h,cc}]): a growable byte buffer kept
    in a linked list of blocks of [m_baseSize] bytes, with one cursor.

    The list of nodes from [m_root] is a list of [Node]s; a [Node*] into it is
    an index, and [None] is the null pointer.  Operations that would follow a
    null pointer or leave a block are [Stuck].  Sizes are [nat]s: they count
    bytes the process holds, so they stay far from [2^64].  Theorems relate the
    blocks to the flat byte sequence they represent. *)

From stdpp Require Import base numbers list list_numbers strings option tactics.
From Stdlib Require Import ZArith Lia.
From S2P Require Import Prelude Endian.

(** ** Data *)

(** [struct ByteArray::Node]; [next] is the position in the list. *)
Record Node : Type := mkNode { ptr : list Z; node_size : nat }.

(** [class ByteArray]. *)
Record ByteArray : Type := mkByteArray {
  m_baseSize : nat;
  m_position : nat;
  m_capacity : nat;
  m_size : nat;
  m_endian : endian;
  m_nodes : list Node;
  m_cur : option nat
}.

#[export] Instance Node_eq_dec : EqDecision Node.
Proof. solve_decision. Defined.

#[export] Instance ByteArray_eq_dec : EqDecision ByteArray.
Proof. solve_decision. Defined.

(** [struct iovec]: a block, an offset into it and a length. *)
Record iovec : Type := mkIovec { iov_node : nat; iov_off : nat; iov_len : nat }.

Section bytearray.
(** What the bytes of a block are before anything is written to it. *)
Context (garbage : nat → Z).

(** [Node(size_t s)]. *)
Definition Node_new (s : nat) : Node := mkNode (garbage <$> seq 0 s) s.

(** [ByteArray(size_t base_size)]. *)
Definition ByteArray_new (base_size : nat) : ByteArray :=
  mkByteArray base_size 0 base_size 0 SYLAR_BIG_ENDIAN [Node_new base_size] (Some 0).

(** ** Access to nodes *)

(** [nodes[i]->next]. *)
Definition node_next (nodes : list Node) (i : nat) : option nat :=
  if decide (S i < length nodes) then Some (S i) else None.

(** [*p] for a [Node* p]. *)
Definition node_deref (nodes : list Node) (p : option nat) : outcome (nat * Node) :=
  i ← deref p; nd ← deref (nodes !! i); mret (i, nd).

(** [memcpy(nd->ptr + off, bs, |bs|)]. *)
Definition node_store (nd : Node) (off : nat) (bs : list Z) : outcome Node :=
  if decide (off + length bs ≤ length (ptr nd))
  then Ok (mkNode (overwrite off bs (ptr nd)) (node_size nd)) else Stuck.

(** [memcpy(_, buf + off, n)] out of a buffer or a block. *)
Definition load (l : list Z) (off n : nat) : outcome (list Z) :=
  if decide (off + n ≤ length l) then Ok (slice off n l) else Stuck.

(** ** Sizes *)

(** [getReadSize], [getCapacity]. *)
Definition getReadSize (st : ByteArray) : nat := m_size st - m_position st.
Definition getCapacity (st : ByteArray) : nat := m_capacity st - m_position st.

Definition isLittleEndian (st : ByteArray) : bool :=
  bool_decide (m_endian st = SYLAR_LITTLE_ENDIAN).

Definition setIsLittleEndian (val : bool) (st : ByteArray) : ByteArray :=
  mkByteArray (m_baseSize st) (m_position st) (m_capacity st) (m_size st)
    (if val then SYLAR_LITTLE_ENDIAN else SYLAR_BIG_ENDIAN) (m_nodes st) (m_cur st).

(** [ceil(1.0 * size / m_baseSize)]. *)
Definition ceil_div (n d : nat) : nat := (n + d - 1) / d.

(** [addCapaticy]: append blocks until [size] bytes fit after the cursor. *)
Definition addCapaticy (st : ByteArray) (size : nat) : ByteArray :=
  if decide (size = 0) then st else
  let old_cap := getCapacity st in
  if decide (size ≤ old_cap) then st else
  let count := ceil_div (size - old_cap) (m_baseSize st) in
  let first := length (m_nodes st) in
  mkByteArray (m_baseSize st) (m_position st)
    (m_capacity st + count * m_baseSize st) (m_size st) (m_endian st)
    (m_nodes st ++ replicate count (Node_new (m_baseSize st)))
    (if decide (old_cap = 0)
     then (if decide (0 < count) then Some first else None) else m_cur st).

(** ** Writing *)

(** The [while (size > 0)] loop of [write]. *)
Fixpoint write_loop (fuel : nat) (buf : list Z) (nodes : list Node) (cur : option nat)
    (position npos ncap bpos size : nat) : outcome (list Node * option nat * nat) :=
  match fuel with
  | O => Stuck
  | S fuel =>
    if decide (size = 0) then Ok (nodes, cur, position) else
    '(i, nd) ← node_deref nodes cur;
    if decide (size ≤ ncap) then
      bs ← load buf bpos size;
      nd' ← node_store nd npos bs;
      write_loop fuel buf (<[i := nd']> nodes)
        (if decide (node_size nd = npos + size) then node_next nodes i else cur)
        (position + size) npos ncap bpos 0
    else
      bs ← load buf bpos ncap;
      nd' ← node_store nd npos bs;
      let nodes' := <[i := nd']> nodes in
      '(i', nd2) ← node_deref nodes' (node_next nodes i);
      write_loop fuel buf nodes' (Some i') (position + ncap) 0 (node_size nd2)
        (bpos + ncap) (size - ncap)
  end.

(** Enough for one pass over the blocks and the final test of the condition. *)
Definition loop_fuel (nodes : list Node) : nat := S (S (length nodes)).

(** [write(const void* buf, size_t size)]. *)
Definition write (st : ByteArray) (buf : list Z) (size : nat) : outcome ByteArray :=
  if decide (size = 0) then Ok st else
  let st := addCapaticy st size in
  let npos := m_position st mod m_baseSize st in
  '(_, nd) ← node_deref (m_nodes st) (m_cur st);
  let ncap := node_size nd - npos in
  '(nodes, cur, position) ←
    write_loop (loop_fuel (m_nodes st)) buf (m_nodes st) (m_cur st)
      (m_position st) npos ncap 0 size;
  mret (mkByteArray (m_baseSize st) position (m_capacity st)
          (if decide (m_size st < position) then position else m_size st)
          (m_endian st) nodes cur).

(** ** Reading *)

(** The [while (size > 0)] loop both [read] functions have; [out] is what has
    been copied to the caller's buffer. *)
Fixpoint read_loop (fuel : nat) (nodes : list Node) (cur : option nat)
    (position npos ncap size : nat) (out : list Z) : outcome (list Z * option nat * nat) :=
  match fuel with
  | O => Stuck
  | S fuel =>
    if decide (size = 0) then Ok (out, cur, position) else
    '(i, nd) ← node_deref nodes cur;
    if decide (size ≤ ncap) then
      bs ← load (ptr nd) npos size;
      read_loop fuel nodes
        (if decide (node_size nd = npos + size) then node_next nodes i else cur)
        (position + size) npos ncap 0 (out ++ bs)
    else
      bs ← load (ptr nd) npos ncap;
      '(i', nd2) ← node_deref nodes (node_next nodes i);
      read_loop fuel nodes (Some i') (position + ncap) 0 (node_size nd2)
        (size - ncap) (out ++ bs)
  end.

(** [read(void* buf, size_t size)]: the bytes copied out and the new state. *)
Definition read (st : ByteArray) (size : nat) : outcome (list Z * ByteArray) :=
  if decide (getReadSize st < size) then Throw (out_of_range "not enough length") else
  let npos := m_position st mod m_baseSize st in
  '(_, nd) ← node_deref (m_nodes st) (m_cur st);
  let ncap := node_size nd - npos in
  '(out, cur, position) ←
    read_loop (loop_fuel (m_nodes st)) (m_nodes st) (m_cur st)
      (m_position st) npos ncap size [];
  mret (out, mkByteArray (m_baseSize st) position (m_capacity st) (m_size st)
               (m_endian st) (m_nodes st) cur).

(** [read(void* buf, size_t size, size_t position) const]: starts at [m_cur]
    with the offset of [position] in its block. *)
Definition read_at (st : ByteArray) (size position : nat) : outcome (list Z) :=
  if decide (getReadSize st < size) then Throw (out_of_range "not enough length") else
  let npos := position mod m_baseSize st in
  '(_, nd) ← node_deref (m_nodes st) (m_cur st);
  let ncap := node_size nd - npos in
  '(out, _, _) ←
    read_loop (loop_fuel (m_nodes st)) (m_nodes st) (m_cur st)
      position npos ncap size [];
  mret out.

(** [toString]. *)
Definition toString (st : ByteArray) : outcome (list Z) :=
  let n := getReadSize st in
  if decide (n = 0) then Ok [] else read_at st n (m_position st).

(** ** Moving the cursor *)

(** [while (v > m_cur->size) { v -= m_cur->size; m_cur = m_cur->next; }]. *)
Fixpoint setPosition_loop (fuel : nat) (nodes : list Node) (cur : option nat) (v : nat) :
    outcome (option nat) :=
  match fuel with
  | O => Stuck
  | S fuel =>
    '(i, nd) ← node_deref nodes cur;
    if decide (node_size nd < v)
    then setPosition_loop fuel nodes (node_next nodes i) (v - node_size nd)
    else Ok (if decide (v = node_size nd) then node_next nodes i else cur)
  end.

(** [setPosition(size_t v)]. *)
Definition setPosition (st : ByteArray) (v : nat) : outcome ByteArray :=
  if decide (m_capacity st < v)
  then Throw (out_of_range "set_position out of range") else
  cur ← setPosition_loop (loop_fuel (m_nodes st)) (m_nodes st) (Some 0) v;
  mret (mkByteArray (m_baseSize st) v (m_capacity st)
          (if decide (m_size st < v) then v else m_size st)
          (m_endian st) (m_nodes st) cur).

(** [clear]: the blocks after the first are freed and the cursor goes back;
    [m_size] is not assigned. *)
Definition clear (st : ByteArray) : ByteArray :=
  mkByteArray (m_baseSize st) 0 (m_baseSize st) (m_size st) (m_endian st)
    (take 1 (m_nodes st)) (Some 0).

(** ** Scatter/gather access *)

(** The [while (len > 0)] loop of [getReadBuffers]. *)
Fixpoint getReadBuffers_loop (fuel : nat) (nodes : list Node) (cur : option nat)
    (npos ncap len : nat) (buffers : list iovec) : outcome (list iovec) :=
  match fuel with
  | O => Stuck
  | S fuel =>
    if decide (len = 0) then Ok buffers else
    '(i, nd) ← node_deref nodes cur;
    if decide (len ≤ ncap) then
      getReadBuffers_loop fuel nodes cur npos ncap 0 (buffers ++ [mkIovec i npos len])
    else
      '(i', nd2) ← node_deref nodes (node_next nodes i);
      getReadBuffers_loop fuel nodes (Some i') 0 (node_size nd2) (len - ncap)
        (buffers ++ [mkIovec i npos ncap])
  end.

(** [getReadBuffers(buffers, len) const]. *)
Definition getReadBuffers (st : ByteArray) (len : nat) : outcome (list iovec * nat) :=
  let len := if decide (getReadSize st < len) then getReadSize st else len in
  if decide (len = 0) then Ok ([], 0) else
  let npos := m_position st mod m_baseSize st in
  '(_, nd) ← node_deref (m_nodes st) (m_cur st);
  buffers ← getReadBuffers_loop (loop_fuel (m_nodes st)) (m_nodes st) (m_cur st)
              npos (node_size nd - npos) len [];
  mret (buffers, len).

(** [while (count > 0 && cur) { cur = cur->next; --count; }]. *)
Fixpoint skip_nodes (nodes : list Node) (cur : option nat) (count : nat) : option nat :=
  match count, cur with
  | S count, Some i => skip_nodes nodes (node_next nodes i) count
  | _, _ => cur
  end.

(** [getReadBuffers(buffers, len, position) const]. *)
Definition getReadBuffers_at (st : ByteArray) (len position : nat) :
    outcome (list iovec * nat) :=
  let len := if decide (getReadSize st < len) then getReadSize st else len in
  if decide (len = 0) then Ok ([], 0) else
  let npos := position mod m_baseSize st in
  let cur := skip_nodes (m_nodes st) (Some 0) (position / m_baseSize st) in
  '(_, nd) ← node_deref (m_nodes st) cur;
  buffers ← getReadBuffers_loop (loop_fuel (m_nodes st)) (m_nodes st) cur
              npos (node_size nd - npos) len [];
  mret (buffers, len).

(** The loop of [getWriteBuffers]: a vector that does not end in its block is
    given the length [len] of all that is left. *)
Fixpoint getWriteBuffers_loop (fuel : nat) (nodes : list Node) (cur : option nat)
    (npos ncap len : nat) (buffers : list iovec) : outcome (list iovec) :=
  match fuel with
  | O => Stuck
  | S fuel =>
    if decide (len = 0) then Ok buffers else
    '(i, nd) ← node_deref nodes cur;
    if decide (len ≤ ncap) then
      getWriteBuffers_loop fuel nodes cur npos ncap 0 (buffers ++ [mkIovec i npos len])
    else
      '(i', nd2) ← node_deref nodes (node_next nodes i);
      getWriteBuffers_loop fuel nodes (Some i') 0 (node_size nd2) (len - ncap)
        (buffers ++ [mkIovec i npos len])
  end.

(** [getWriteBuffers(buffers, len)]. *)
Definition getWriteBuffers (st : ByteArray) (len : nat) :
    outcome (list iovec * nat * ByteArray) :=
  if decide (len = 0) then Ok ([], 0, st) else
  let st := addCapaticy st len in
  let npos := m_position st mod m_baseSize st in
  '(_, nd) ← node_deref (m_nodes st) (m_cur st);
  buffers ← getWriteBuffers_loop (loop_fuel (m_nodes st)) (m_nodes st) (m_cur st)
              npos (node_size nd - npos) len [];
  mret (buffers, len, st).

(** ** Files *)

(** The loop of [writeToFile]; [int64_t] counters, so a length can come out
    negative, which [ofstream::write] does not take. *)
Fixpoint writeToFile_loop (fuel : nat) (base : Z) (nodes : list Node) (cur : option nat)
    (pos read_size : Z) (file : list Z) : outcome (list Z) :=
  match fuel with
  | O => Stuck
  | S fuel =>
    if decide (read_size <= 0)%Z then Ok file else
    let diff := (pos mod base)%Z in
    let len := ((if decide (base < read_size)%Z then base else read_size) - diff)%Z in
    '(i, nd) ← node_deref nodes cur;
    if decide (len < 0)%Z then Stuck else
    bs ← load (ptr nd) (Z.to_nat diff) (Z.to_nat len);
    writeToFile_loop fuel base nodes (node_next nodes i) (pos + len)%Z (read_size - len)%Z
      (file ++ bs)
  end.

(** [writeToFile(name) const]: [None] when the file cannot be opened (the call
    returns false), otherwise the file's new contents. *)
Definition writeToFile (can_open : bool) (st : ByteArray) : outcome (option (list Z)) :=
  if can_open then
    file ← writeToFile_loop (loop_fuel (m_nodes st)) (Z.of_nat (m_baseSize st)) (m_nodes st)
             (m_cur st) (Z.of_nat (m_position st)) (Z.of_nat (getReadSize st)) [];
    mret (Some file)
  else Ok None.

(** The [while (!ifs.eof())] loop of [readFromFile]: the stream is at its end
    once a read returns fewer bytes than it asked for. *)
Fixpoint readFromFile_loop (fuel : nat) (st : ByteArray) (file : list Z) : outcome ByteArray :=
  match fuel with
  | O => Stuck
  | S fuel =>
    let buf := take (m_baseSize st) file in
    st' ← write st buf (length buf);
    if decide (length buf < m_baseSize st) then Ok st'
    else readFromFile_loop fuel st' (drop (m_baseSize st) file)
  end.

(** [readFromFile(name)]: the result of the call and the new state. *)
Definition readFromFile (file : option (list Z)) (st : ByteArray) : outcome (bool * ByteArray) :=
  match file with
  | None => Ok (false, st)
  | Some data => st' ← readFromFile_loop (S (length data)) st data; mret (true, st')
  end.

(** ** Printing *)

Definition hex_digit (d : Z) : Z := if decide (d < 10)%Z then (48 + d)%Z else (87 + d)%Z.

(** [toHexString]: two digits and a space per byte, a line break every 32. *)
Definition hex_of_bytes (str : list Z) : list Z :=
  mjoin (imap (λ i b, (if decide (0 < i ∧ i mod 32 = 0) then [10%Z] else []) ++
                      [hex_digit (b / 16); hex_digit (b mod 16); 32%Z]) str).

Definition toHexString (st : ByteArray) : outcome (list Z) :=
  str ← toString st; mret (hex_of_bytes str).

End bytearray.
