(* ===== verification/ByteArraySpec.v ===== *)
(** The contract of [ByteArray]: the representation invariant, the flat buffer
    the blocks stand for, and what every operation does to it. *)

From stdpp Require Import base numbers list list_numbers strings option tactics.
From Stdlib Require Import ZArith Lia.
From S2P Require Import Prelude Endian Buffer ByteArray.

(** ** The representation *)

Definition node_ok (base : nat) (nd : Node) : Prop :=
  node_size nd = base ∧ length (ptr nd) = base.

(** The block list as one sequence of bytes. *)
Definition flat (nodes : list Node) : list Z := mjoin (ptr <$> nodes).

(** The block a cursor at [pos] belongs to: none at the very end. *)
Definition cur_of (base n pos : nat) : option nat :=
  if decide (pos / base < n) then Some (pos / base) else None.

Record wf (st : ByteArray) : Prop := {
  wf_base : 0 < m_baseSize st;
  wf_nodes : Forall (node_ok (m_baseSize st)) (m_nodes st);
  wf_capacity : m_capacity st = m_baseSize st * length (m_nodes st);
  wf_position : m_position st ≤ m_size st;
  wf_size : m_size st ≤ m_capacity st;
  wf_nonempty : 0 < length (m_nodes st);
  wf_cur : m_cur st = cur_of (m_baseSize st) (length (m_nodes st)) (m_position st)
}.

(** What the buffer holds. *)
Definition contents (st : ByteArray) : list Z := take (m_size st) (flat (m_nodes st)).

(** ** Lemmas on blocks *)

Section blocks.
Context (base : nat) (Hbase : 0 < base).
Implicit Types nodes : list Node.

Lemma length_flat nodes :
  Forall (node_ok base) nodes → length (flat nodes) = base * length nodes.
Proof.
  unfold flat. induction 1 as [|nd nodes [_ Hl] _ IH]; csimpl; [lia|].
  rewrite length_app, IH. lia.
Qed.

Lemma flat_app nodes1 nodes2 : flat (nodes1 ++ nodes2) = flat nodes1 ++ flat nodes2.
Proof. unfold flat. by rewrite fmap_app, join_app. Qed.

Lemma flat_middle nodes1 nd nodes2 :
  flat (nodes1 ++ nd :: nodes2) = flat nodes1 ++ ptr nd ++ flat nodes2.
Proof. by rewrite flat_app. Qed.

Lemma flat_load nodes i nd off n :
  Forall (node_ok base) nodes → nodes !! i = Some nd → off + n ≤ base →
  slice off n (ptr nd) = slice (i * base + off) n (flat nodes).
Proof.
  intros Hok Hi Hn. pose proof (Forall_lookup_1 _ _ _ _ Hok Hi) as [_ Hlen].
  pose proof (lookup_lt_Some _ _ _ Hi).
  assert (length (flat (take i nodes)) = i * base) as Hpre.
  { rewrite length_flat by by apply Forall_take. rewrite length_take. nia. }
  rewrite <-(take_drop_middle nodes i nd Hi) at 1. rewrite flat_middle.
  rewrite slice_app_r by lia. rewrite slice_app_l by lia. f_equal. lia.
Qed.

Lemma flat_store nodes i nd off bs :
  Forall (node_ok base) nodes → nodes !! i = Some nd → off + length bs ≤ base →
  flat (<[i := mkNode (overwrite off bs (ptr nd)) (node_size nd)]> nodes) =
    overwrite (i * base + off) bs (flat nodes).
Proof.
  intros Hok Hi Hn. pose proof (Forall_lookup_1 _ _ _ _ Hok Hi) as [_ Hlen].
  pose proof (lookup_lt_Some _ _ _ Hi).
  assert (length (flat (take i nodes)) = i * base) as Hpre.
  { rewrite length_flat by by apply Forall_take. rewrite length_take. nia. }
  rewrite insert_take_drop by done.
  rewrite <-(take_drop_middle nodes i nd Hi) at 3. rewrite !flat_middle. simpl.
  rewrite overwrite_app_r by lia. rewrite overwrite_app_l by lia. do 3 f_equal. lia.
Qed.

Lemma store_ok nodes i nd off bs :
  Forall (node_ok base) nodes → nodes !! i = Some nd → off + length bs ≤ base →
  node_store nd off bs = Ok (mkNode (overwrite off bs (ptr nd)) (node_size nd)) ∧
  Forall (node_ok base) (<[i := mkNode (overwrite off bs (ptr nd)) (node_size nd)]> nodes).
Proof.
  intros Hok Hi Hn. pose proof (Forall_lookup_1 _ _ _ _ Hok Hi) as [Hs Hlen]. split.
  - unfold node_store. rewrite decide_True by lia. done.
  - apply Forall_insert; [done|]. split; simpl; [done|]. by rewrite length_overwrite by lia.
Qed.

Lemma cur_of_Some n pos : pos < base * n → cur_of base n pos = Some (pos / base).
Proof.
  intros. unfold cur_of. rewrite decide_True; [done|]. apply Nat.Div0.div_lt_upper_bound. lia.
Qed.

Lemma cur_of_end n : cur_of base n (base * n) = None.
Proof.
  unfold cur_of. rewrite Nat.mul_comm, Nat.div_mul by lia. rewrite decide_False; [done|lia].
Qed.

Lemma cur_of_block n i off : off < base → i < n → cur_of base n (i * base + off) = Some i.
Proof.
  intros. rewrite cur_of_Some by nia. f_equal.
  rewrite Nat.div_add_l, Nat.div_small by lia. lia.
Qed.

(** The cursor after the last byte of block [i] has been used. *)
Lemma cur_of_next nodes i :
  i < length nodes → cur_of base (length nodes) (S i * base) = node_next nodes i.
Proof.
  intros. unfold cur_of, node_next. rewrite Nat.div_mul by lia. done.
Qed.

Lemma node_deref_ok nodes i nd : nodes !! i = Some nd → node_deref nodes (Some i) = Ok (i, nd).
Proof. intros Hi. unfold node_deref. cbn. by rewrite Hi. Qed.

Lemma load_ok l off n : off + n ≤ length l → load l off n = Ok (slice off n l).
Proof. intros. unfold load. by rewrite decide_True. Qed.

Lemma load_node nodes i nd off n :
  Forall (node_ok base) nodes → nodes !! i = Some nd → off + n ≤ base →
  load (ptr nd) off n = Ok (slice (i * base + off) n (flat nodes)).
Proof.
  intros Hok Hi Hn. pose proof (Forall_lookup_1 _ _ _ _ Hok Hi) as [_ Hlen].
  rewrite load_ok by lia. f_equal. by apply flat_load.
Qed.

Lemma lookup_block nodes i : i < length nodes → ∃ nd, nodes !! i = Some nd.
Proof. intros. by apply lookup_lt_is_Some_2. Qed.

Lemma node_next_Some nodes i : S i < length nodes → node_next nodes i = Some (S i).
Proof. intros. unfold node_next. by rewrite decide_True. Qed.

(** ** The loops *)

(** The cursor when [size] more bytes of block [i] have been used. *)
Lemma cur_of_within nodes i npos size :
  i < length nodes → npos < base → 0 < size → size ≤ base - npos →
  (if decide (base = npos + size) then node_next nodes i else Some i) =
    cur_of base (length nodes) (i * base + npos + size).
Proof.
  intros. case_decide.
  - rewrite <-cur_of_next by done. f_equal. lia.
  - rewrite <-Nat.add_assoc, cur_of_block; [done|lia|done].
Qed.

Lemma write_loop_spec fuel : ∀ buf nodes i position npos bpos size,
  Forall (node_ok base) nodes → i < length nodes → npos < base → 0 < size →
  i * base + npos + size ≤ base * length nodes → bpos + size ≤ length buf →
  S (length nodes - i) < fuel →
  ∃ nodes',
    write_loop fuel buf nodes (Some i) position npos (base - npos) bpos size =
      Ok (nodes', cur_of base (length nodes) (i * base + npos + size), position + size) ∧
    Forall (node_ok base) nodes' ∧ length nodes' = length nodes ∧
    flat nodes' = overwrite (i * base + npos) (slice bpos size buf) (flat nodes).
Proof.
  induction fuel as [|fuel IH]; intros buf nodes i position npos bpos size
    Hok Hi Hnpos Hsize Hcap Hbuf Hfuel; [lia|].
  destruct (lookup_block nodes i Hi) as [nd Hnd].
  pose proof (Forall_lookup_1 _ _ _ _ Hok Hnd) as [Hns _].
  cbn [write_loop]. rewrite decide_False by lia. rewrite (node_deref_ok _ _ _ Hnd). cbn.
  case_decide as Hfit.
  - rewrite load_ok by lia. cbn.
    destruct (store_ok nodes i nd npos (slice bpos size buf)) as [-> Hok'];
      [done..|rewrite length_slice by lia; lia|]. cbn.
    destruct fuel as [|fuel]; [lia|]. cbn [write_loop].
    rewrite decide_True by done.
    exists (<[i := mkNode (overwrite npos (slice bpos size buf) (ptr nd)) (node_size nd)]> nodes).
    rewrite <-cur_of_within by done.
    split_and!; [by rewrite Hns|done|by rewrite length_insert|].
    apply flat_store; [done|done|]. rewrite length_slice by lia. lia.
  - rewrite load_ok by lia. cbn.
    destruct (store_ok nodes i nd npos (slice bpos (base - npos) buf)) as [-> Hok'];
      [done..|rewrite length_slice by lia; lia|]. cbn.
    assert (S i < length nodes) as HSi by nia.
    rewrite node_next_Some by done.
    set (nodes1 := <[i:=_]> nodes) in *.
    assert (length nodes1 = length nodes) as Hlen by apply length_insert.
    destruct (lookup_block nodes1 (S i)) as [nd2 Hnd2]; [lia|].
    pose proof (Forall_lookup_1 _ _ _ _ Hok' Hnd2) as [Hns2 _].
    rewrite (node_deref_ok _ _ _ Hnd2). cbn. rewrite Hns2.
    destruct (IH buf nodes1 (S i) (position + (base - npos)) 0 (bpos + (base - npos))
      (size - (base - npos))) as (nodes2 & Hrun & Hok2 & Hlen2 & Hflat2); [done|lia..|].
    rewrite Nat.sub_0_r in Hrun. rewrite Hrun.
    exists nodes2. rewrite Hlen. split_and!; [|done|lia|].
    + f_equal. f_equal; [f_equal; f_equal; lia|lia].
    + rewrite Hflat2. unfold nodes1. rewrite flat_store; [|done|done|rewrite length_slice; lia].
      replace size with (base - npos + (size - (base - npos))) at 2 by lia.
      rewrite slice_split, <-overwrite_overwrite; [|rewrite length_flat by done; lia].
      rewrite length_slice by lia. f_equal. lia.
Qed.

Lemma read_loop_spec fuel : ∀ nodes i position npos size out,
  Forall (node_ok base) nodes → i < length nodes → npos < base → 0 < size →
  i * base + npos + size ≤ base * length nodes → S (length nodes - i) < fuel →
  read_loop fuel nodes (Some i) position npos (base - npos) size out =
    Ok (out ++ slice (i * base + npos) size (flat nodes),
        cur_of base (length nodes) (i * base + npos + size), position + size).
Proof.
  induction fuel as [|fuel IH]; intros nodes i position npos size out
    Hok Hi Hnpos Hsize Hcap Hfuel; [lia|].
  destruct (lookup_block nodes i Hi) as [nd Hnd].
  pose proof (Forall_lookup_1 _ _ _ _ Hok Hnd) as [Hns _].
  cbn [read_loop]. rewrite decide_False by lia. rewrite (node_deref_ok _ _ _ Hnd). cbn.
  case_decide as Hfit.
  - rewrite (load_node nodes i) by (done || lia). cbn.
    destruct fuel as [|fuel]; [lia|]. cbn [read_loop].
    rewrite decide_True by done. by rewrite Hns, cur_of_within.
  - rewrite (load_node nodes i) by (done || lia). cbn.
    assert (S i < length nodes) as HSi by nia. rewrite node_next_Some by done.
    destruct (lookup_block nodes (S i) HSi) as [nd2 Hnd2].
    pose proof (Forall_lookup_1 _ _ _ _ Hok Hnd2) as [Hns2 _].
    rewrite (node_deref_ok _ _ _ Hnd2). cbn. rewrite Hns2.
    pose proof (IH nodes (S i) (position + (base - npos)) 0 (size - (base - npos))) as Hrun.
    rewrite Nat.sub_0_r in Hrun. rewrite Hrun by (done || lia).
    f_equal. f_equal; [f_equal; [|f_equal; lia]|lia].
    replace size with (base - npos + (size - (base - npos))) at 2 by lia.
    rewrite slice_split, (assoc_L (++)). do 2 f_equal. lia.
Qed.

Lemma setPosition_loop_spec fuel : ∀ nodes i v,
  Forall (node_ok base) nodes → i < length nodes → i * base + v ≤ base * length nodes →
  length nodes - i < fuel →
  setPosition_loop fuel nodes (Some i) v = Ok (cur_of base (length nodes) (i * base + v)).
Proof.
  induction fuel as [|fuel IH]; intros nodes i v Hok Hi Hv Hfuel; [lia|].
  destruct (lookup_block nodes i Hi) as [nd Hnd].
  pose proof (Forall_lookup_1 _ _ _ _ Hok Hnd) as [Hns _].
  cbn [setPosition_loop]. rewrite (node_deref_ok _ _ _ Hnd). cbn. rewrite Hns.
  case_decide.
  - rewrite node_next_Some by nia. rewrite IH by (done || nia). do 2 f_equal. nia.
  - f_equal. case_decide.
    + rewrite <-cur_of_next by done. f_equal. lia.
    + rewrite cur_of_block; [done|lia|done].
Qed.

End blocks.

(** ** The operations on the flat buffer *)

Lemma ceil_div_ge n d : 0 < d → n ≤ ceil_div n d * d.
Proof.
  intros. unfold ceil_div. pose proof (Nat.div_mod_eq (n + d - 1) d).
  pose proof (Nat.mod_upper_bound (n + d - 1) d). nia.
Qed.

Lemma ceil_div_pos n d : 0 < d → 0 < n → 0 < ceil_div n d.
Proof. intros. pose proof (ceil_div_ge n d). nia. Qed.

Lemma length_contents st : wf st → length (contents st) = m_size st.
Proof.
  intros []. unfold contents. rewrite length_take, (length_flat (m_baseSize st)) by done. lia.
Qed.

Section operations.
Context (garbage : nat → Z).
Implicit Types st : ByteArray.

Lemma Node_new_ok base : node_ok base (Node_new garbage base).
Proof. split; [done|]. simpl. by rewrite length_fmap, length_seq. Qed.

Lemma wf_new base : 0 < base → wf (ByteArray_new garbage base).
Proof.
  intros. split; simpl; [lia| |lia..|].
  - constructor; [apply Node_new_ok|constructor].
  - unfold cur_of. by rewrite Nat.Div0.div_0_l.
Qed.

Lemma contents_new base : contents (ByteArray_new garbage base) = [].
Proof. done. Qed.

(** Growing keeps the representation and everything that can be observed. *)
Lemma addCapaticy_spec st size :
  wf st →
  let st' := addCapaticy garbage st size in
  wf st' ∧ size ≤ getCapacity st' ∧ contents st' = contents st ∧
  m_position st' = m_position st ∧ m_size st' = m_size st ∧
  m_baseSize st' = m_baseSize st ∧ m_endian st' = m_endian st.
Proof.
  intros Hwf st'. subst st'. unfold addCapaticy.
  case_decide; [split_and!; done || (unfold getCapacity; lia)|].
  case_decide as Hfit; [by split_and!|].
  destruct Hwf as [Hb Hn Hc Hp Hs Hne Hcur].
  set (count := ceil_div _ _). unfold getCapacity in *.
  assert (size - (m_capacity st - m_position st) ≤ count * m_baseSize st)
    by by apply ceil_div_ge.
  assert (0 < count) by (apply ceil_div_pos; lia).
  split; [|simpl; split; [lia|split; [|done]]].
  - split; simpl; rewrite ?length_app, ?length_replicate; [done| |lia..|].
    + apply Forall_app; split; [done|]. apply Forall_replicate, Node_new_ok.
    + case_decide as Hold.
      * rewrite decide_True by done. symmetry.
        replace (m_position st) with (length (m_nodes st) * m_baseSize st + 0) by lia.
        apply cur_of_block; lia.
      * rewrite Hcur, !cur_of_Some by nia. done.
  - unfold contents. simpl. rewrite flat_app. apply take_app_le.
    rewrite (length_flat (m_baseSize st)) by done. lia.
Qed.

(** A wf state whose cursor is before the end of the blocks: where it is. *)
Lemma wf_block st :
  wf st → m_position st < m_capacity st →
  let i := m_position st / m_baseSize st in
  let npos := m_position st mod m_baseSize st in
  m_cur st = Some i ∧ i < length (m_nodes st) ∧ npos < m_baseSize st ∧
  m_position st = i * m_baseSize st + npos ∧
  ∃ nd, node_deref (m_nodes st) (m_cur st) = Ok (i, nd) ∧ node_size nd = m_baseSize st.
Proof.
  intros [Hb Hn Hc Hp Hs Hne Hcur] Hlt i npos.
  assert (i < length (m_nodes st)) as Hi by (apply Nat.Div0.div_lt_upper_bound; lia).
  pose proof (Nat.mod_upper_bound (m_position st) (m_baseSize st)).
  pose proof (Nat.div_mod_eq (m_position st) (m_baseSize st)).
  destruct (lookup_block (m_nodes st) i Hi) as [nd Hnd].
  rewrite Hcur, cur_of_Some by lia. split_and!; [done|done|subst npos; lia|subst i npos; lia|].
  exists nd. split; [by apply node_deref_ok|]. apply (Forall_lookup_1 _ _ _ _ Hn Hnd).
Qed.

(** [write] stores the bytes at the cursor, growing the buffer as needed. *)
Lemma write_spec st buf size :
  wf st → size ≤ length buf →
  ∃ st', write garbage st buf size = Ok st' ∧ wf st' ∧
    contents st' = overwrite (m_position st) (take size buf) (contents st) ∧
    m_position st' = m_position st + size ∧
    m_baseSize st' = m_baseSize st ∧ m_endian st' = m_endian st.
Proof.
  intros Hwf Hbuf. unfold write. case_decide as Hz.
  { subst. exists st. rewrite take_0, overwrite_nil, Nat.add_0_r. done. }
  destruct (addCapaticy_spec st size Hwf) as (Hwf1 & Hcap & Hcont & Hpos & Hsz & Hbs & Hend).
  set (st1 := addCapaticy garbage st size) in *.
  destruct (wf_block st1 Hwf1) as (Hcur & Hi & Hnpos & Hp & nd & Hnd & Hns);
    [unfold getCapacity in Hcap; lia|].
  destruct Hwf1 as [Hb Hn Hc Hp1 Hs Hne _].
  rewrite Hnd. osimpl. rewrite Hns, Hcur.
  destruct (write_loop_spec (m_baseSize st1) Hb (loop_fuel (m_nodes st1)) buf (m_nodes st1)
    (m_position st1 / m_baseSize st1) (m_position st1) (m_position st1 mod m_baseSize st1)
    0 size) as (nodes' & -> & Hok' & Hlen' & Hflat');
    [done|done|lia|lia|unfold getCapacity in Hcap; lia|lia|unfold loop_fuel; lia|].
  osimpl. eexists. split; [done|]. rewrite <-Hp in *. unfold slice in Hflat'. rewrite drop_0 in Hflat'.
  assert (length (flat (m_nodes st1)) = m_capacity st1) as Hlf
    by (rewrite (length_flat (m_baseSize st1)); lia || done).
  assert (length (take size buf) = size) as Hlt by (rewrite length_take; lia).
  unfold getCapacity in Hcap.
  split_and!; simpl; [|unfold contents at 1; simpl|lia|done|done].
  - split; simpl; rewrite ?Hlen'; [done..|case_decide; lia|case_decide; lia|lia|done].
  - rewrite Hflat', <-Hcont, <-Hpos. unfold contents.
    rewrite <-take_overwrite_max by lia. f_equal. case_decide; lia.
Qed.

(** [read] returns the bytes at the cursor and advances it. *)
Lemma read_spec st size :
  wf st → size ≤ getReadSize st → 0 < size ∨ m_position st < m_capacity st →
  ∃ st', read st size = Ok (slice (m_position st) size (contents st), st') ∧ wf st' ∧
    contents st' = contents st ∧ m_position st' = m_position st + size ∧
    m_size st' = m_size st ∧ m_capacity st' = m_capacity st ∧
    m_baseSize st' = m_baseSize st ∧ m_endian st' = m_endian st.
Proof.
  intros Hwf Hsize Hpos. unfold read, getReadSize in *. rewrite decide_False by lia.
  pose proof Hwf as [Hb Hn Hc Hp1 Hs Hne Hcur0].
  destruct (wf_block st Hwf) as (Hcur & Hi & Hnpos & Hp & nd & Hnd & Hns); [lia|].
  rewrite Hnd. osimpl. rewrite Hns. destruct (decide (size = 0)) as [->|Hnz].
  - simpl. eexists. split; [done|]. rewrite Nat.add_0_r.
    by split_and!.
  - rewrite Hcur, read_loop_spec by (done || unfold loop_fuel; lia). rewrite <-Hp. osimpl.
    eexists. split.
    + do 2 f_equal. unfold contents. rewrite slice_take; [done|lia].
    + split_and!; try done. split; simpl; done || lia.
Qed.

(** A read of more than there is throws. *)
Lemma read_throws st size :
  getReadSize st < size → read st size = Throw (out_of_range "not enough length").
Proof. intros. unfold read. by rewrite decide_True. Qed.

Lemma toString_spec st :
  wf st → toString st = Ok (drop (m_position st) (contents st)).
Proof.
  intros Hwf. unfold toString, read_at. pose proof (length_contents st Hwf) as Hlen.
  pose proof Hwf as [Hb Hn Hc Hp1 Hs Hne Hcur0]. unfold getReadSize in *. case_decide.
  - rewrite drop_ge; [done|lia].
  - rewrite decide_False by lia.
    destruct (wf_block st Hwf) as (Hcur & Hi & Hnpos & Hp & nd & Hnd & Hns); [lia|].
    rewrite Hnd. osimpl. rewrite Hns, Hcur, read_loop_spec by (done || unfold loop_fuel; lia).
    rewrite <-Hp. osimpl. f_equal. rewrite <-(slice_take _ _ (m_size st)) by lia.
    unfold slice. apply take_ge. rewrite length_drop. fold (contents st). lia.
Qed.

(** [setPosition] moves the cursor; past [m_size] it makes the bytes up to the
    new position readable. *)
Lemma setPosition_spec st v :
  wf st → v ≤ m_capacity st →
  ∃ st', setPosition st v = Ok st' ∧ wf st' ∧ m_position st' = v ∧
    m_size st' = m_size st `max` v ∧ take (m_size st) (contents st') = contents st ∧
    m_capacity st' = m_capacity st ∧ m_nodes st' = m_nodes st ∧
    m_baseSize st' = m_baseSize st ∧ m_endian st' = m_endian st.
Proof.
  intros [Hb Hn Hc Hp1 Hs Hne Hcur0] Hv. unfold setPosition. rewrite decide_False by lia.
  rewrite (setPosition_loop_spec (m_baseSize st)) by (done || unfold loop_fuel; lia).
  osimpl. eexists. split; [done|]. split_and!; simpl; try done.
  - split; simpl; done || case_decide; lia.
  - case_decide; lia.
  - unfold contents. simpl. rewrite take_take. f_equal. case_decide; lia.
Qed.

Lemma setPosition_throws st v :
  m_capacity st < v → setPosition st v = Throw (out_of_range "set_position out of range").
Proof. intros. unfold setPosition. by rewrite decide_True. Qed.

End operations.

(** ** Scatter/gather *)

(** A vector stays inside its block. *)
Definition in_block (nodes : list Node) (v : iovec) : Prop :=
  ∃ nd, nodes !! iov_node v = Some nd ∧ iov_off v + iov_len v ≤ length (ptr nd).

(** The bytes a list of vectors points to. *)
Definition gather (nodes : list Node) (vs : list iovec) : list Z :=
  mjoin ((λ v, match nodes !! iov_node v with
               | Some nd => slice (iov_off v) (iov_len v) (ptr nd)
               | None => []
               end) <$> vs).

Lemma gather_app nodes vs1 vs2 : gather nodes (vs1 ++ vs2) = gather nodes vs1 ++ gather nodes vs2.
Proof. unfold gather. by rewrite fmap_app, join_app. Qed.

Lemma gather_one nodes base i nd off n :
  0 < base → Forall (node_ok base) nodes → nodes !! i = Some nd → off + n ≤ base →
  gather nodes [mkIovec i off n] = slice (i * base + off) n (flat nodes) ∧
  in_block nodes (mkIovec i off n).
Proof.
  intros Hbase Hok Hi Hle. unfold gather. csimpl. rewrite Hi, app_nil_r. split.
  - by apply flat_load.
  - exists nd. split; [done|]. simpl.
    pose proof (Forall_lookup_1 _ _ _ _ Hok Hi) as [_ ->]. done.
Qed.

Lemma getReadBuffers_loop_spec base fuel : 0 < base → ∀ nodes i npos len acc,
  Forall (node_ok base) nodes → i < length nodes → npos < base → 0 < len →
  i * base + npos + len ≤ base * length nodes → S (length nodes - i) < fuel →
  ∃ vs, getReadBuffers_loop fuel nodes (Some i) npos (base - npos) len acc = Ok (acc ++ vs) ∧
    Forall (in_block nodes) vs ∧ gather nodes vs = slice (i * base + npos) len (flat nodes).
Proof.
  intros Hbase. induction fuel as [|fuel IH]; intros nodes i npos len acc
    Hok Hi Hnpos Hlen Hcap Hfuel; [lia|].
  destruct (lookup_block nodes i Hi) as [nd Hnd].
  cbn [getReadBuffers_loop]. rewrite decide_False by lia.
  rewrite (node_deref_ok _ _ _ Hnd). osimpl. case_decide as Hfit.
  - destruct (gather_one nodes base i nd npos len Hbase Hok Hnd) as [Hg Hin]; [lia|].
    destruct fuel as [|fuel]; [lia|]. cbn [getReadBuffers_loop]. rewrite decide_True by done.
    exists [mkIovec i npos len]. split_and!; [done| |done]. by constructor.
  - destruct (gather_one nodes base i nd npos (base - npos) Hbase Hok Hnd) as [Hg Hin]; [lia|].
    assert (S i < length nodes) as HSi by nia. rewrite node_next_Some by done.
    destruct (lookup_block nodes (S i) HSi) as [nd2 Hnd2].
    pose proof (Forall_lookup_1 _ _ _ _ Hok Hnd2) as [Hns2 _].
    rewrite (node_deref_ok _ _ _ Hnd2). osimpl. rewrite Hns2.
    destruct (IH nodes (S i) 0 (len - (base - npos)) (acc ++ [mkIovec i npos (base - npos)]))
      as (vs & Hrun & Hall & Hgs); [done|lia..|].
    rewrite Nat.sub_0_r in Hrun. rewrite Hrun.
    exists (mkIovec i npos (base - npos) :: vs). split_and!; [|by constructor|].
    + f_equal. by rewrite <-(assoc_L (++)).
    + change (mkIovec i npos (base - npos) :: vs) with ([mkIovec i npos (base - npos)] ++ vs).
      rewrite gather_app, Hg, Hgs.
      replace len with (base - npos + (len - (base - npos))) at 2 by lia.
      rewrite slice_split. do 2 f_equal. lia.
Qed.

Lemma getReadBuffers_spec st len :
  wf st →
  ∃ vs, getReadBuffers st len = Ok (vs, len `min` getReadSize st) ∧
    Forall (in_block (m_nodes st)) vs ∧
    gather (m_nodes st) vs = slice (m_position st) (len `min` getReadSize st) (contents st).
Proof.
  intros Hwf. unfold getReadBuffers.
  assert ((if decide (getReadSize st < len) then getReadSize st else len) =
          len `min` getReadSize st) as -> by (case_decide; lia).
  case_decide as Hz; [exists []; rewrite Hz; by split_and!|].
  pose proof Hwf as [Hb Hn Hc Hp1 Hs Hne Hcur0]. unfold getReadSize in *.
  destruct (wf_block st Hwf) as (Hcur & Hi & Hnpos & Hp & nd & Hnd & Hns); [lia|].
  rewrite Hnd. osimpl. rewrite Hns, Hcur.
  destruct (getReadBuffers_loop_spec (m_baseSize st) (loop_fuel (m_nodes st)) Hb (m_nodes st)
    (m_position st / m_baseSize st) (m_position st mod m_baseSize st)
    (len `min` (m_size st - m_position st)) []) as (vs & -> & Hall & Hg);
    [done|done|lia|lia|lia|unfold loop_fuel; lia|].
  osimpl. exists vs. rewrite <-Hp in Hg. split_and!; [done..|].
  rewrite Hg. unfold contents. rewrite slice_take; [done|lia].
Qed.

Lemma skip_nodes_spec nodes count : ∀ i,
  i < length nodes → i + count < length nodes → skip_nodes nodes (Some i) count = Some (i + count).
Proof.
  induction count as [|count IH]; intros i Hi Hc; cbn [skip_nodes]; [f_equal; lia|].
  rewrite node_next_Some by lia. rewrite IH by lia. f_equal. lia.
Qed.

(** The vectors of a range anywhere in the allocated blocks. *)
Lemma getReadBuffers_at_spec st len position :
  wf st → position + len `min` getReadSize st ≤ m_capacity st →
  ∃ vs, getReadBuffers_at st len position = Ok (vs, len `min` getReadSize st) ∧
    Forall (in_block (m_nodes st)) vs ∧
    gather (m_nodes st) vs = slice position (len `min` getReadSize st) (flat (m_nodes st)).
Proof.
  intros Hwf Hle. unfold getReadBuffers_at.
  assert ((if decide (getReadSize st < len) then getReadSize st else len) =
          len `min` getReadSize st) as -> by (case_decide; lia).
  case_decide as Hz; [exists []; rewrite Hz; by split_and!|].
  destruct Hwf as [Hb Hn Hc _ _ Hne _].
  pose proof (Nat.div_mod_eq position (m_baseSize st)).
  pose proof (Nat.mod_upper_bound position (m_baseSize st)).
  assert (position / m_baseSize st < length (m_nodes st)) as Hi
    by (apply Nat.Div0.div_lt_upper_bound; lia).
  rewrite skip_nodes_spec, Nat.add_0_l by lia.
  destruct (lookup_block (m_nodes st) (position / m_baseSize st)) as [nd Hnd]; [done|].
  pose proof (Forall_lookup_1 _ _ _ _ Hn Hnd) as [Hns _].
  rewrite (node_deref_ok _ _ _ Hnd). osimpl. rewrite Hns.
  destruct (getReadBuffers_loop_spec (m_baseSize st) (loop_fuel (m_nodes st)) Hb (m_nodes st)
    (position / m_baseSize st) (position mod m_baseSize st)
    (len `min` getReadSize st) []) as (vs & -> & Hall & Hg);
    [done|done|lia|lia|lia|unfold loop_fuel; lia|].
  osimpl. exists vs. split_and!; [done..|]. rewrite Hg. f_equal. lia.
Qed.

(** [getWriteBuffers] on a range inside one block, and across blocks. *)
Lemma getWriteBuffers_loop_first base fuel : 0 < base → ∀ nodes i npos len acc,
  Forall (node_ok base) nodes → i < length nodes → npos < base → 0 < len →
  i * base + npos + len ≤ base * length nodes → S (length nodes - i) < fuel →
  ∃ vs, getWriteBuffers_loop fuel nodes (Some i) npos (base - npos) len acc =
    Ok (acc ++ mkIovec i npos len :: vs) ∧ (len ≤ base - npos → vs = []).
Proof.
  intros Hbase. induction fuel as [|fuel IH]; intros nodes i npos len acc
    Hok Hi Hnpos Hlen Hcap Hfuel; [lia|].
  destruct (lookup_block nodes i Hi) as [nd Hnd].
  cbn [getWriteBuffers_loop]. rewrite decide_False by lia.
  rewrite (node_deref_ok _ _ _ Hnd). osimpl. case_decide as Hfit.
  - destruct fuel as [|fuel]; [lia|]. cbn [getWriteBuffers_loop]. rewrite decide_True by done.
    by exists [].
  - assert (S i < length nodes) as HSi by nia. rewrite node_next_Some by done.
    destruct (lookup_block nodes (S i) HSi) as [nd2 Hnd2].
    pose proof (Forall_lookup_1 _ _ _ _ Hok Hnd2) as [Hns2 _].
    rewrite (node_deref_ok _ _ _ Hnd2). osimpl. rewrite Hns2.
    destruct (IH nodes (S i) 0 (len - (base - npos)) (acc ++ [mkIovec i npos len]))
      as (vs & Hrun & _); [done|lia..|].
    rewrite Nat.sub_0_r in Hrun. rewrite Hrun. eexists. split; [by rewrite <-(assoc_L (++))|lia].
Qed.

(** [getWriteBuffers] reserves [len] bytes; its first vector has that length,
    whatever is left of the block, and is the only one if it fits. *)
Lemma getWriteBuffers_spec garbage st len :
  wf st → 0 < len →
  let npos := m_position st mod m_baseSize st in
  let st' := addCapaticy garbage st len in
  ∃ vs nd, getWriteBuffers garbage st len = Ok (mkIovec (m_position st / m_baseSize st) npos len :: vs, len, st') ∧
    (len ≤ m_baseSize st - npos → vs = []) ∧ m_nodes st' !! (m_position st / m_baseSize st) = Some nd ∧
    npos < m_baseSize st ∧ m_position st = m_position st / m_baseSize st * m_baseSize st + npos.
Proof.
  intros Hwf Hlen npos st'. unfold getWriteBuffers. rewrite decide_False by lia.
  destruct (addCapaticy_spec garbage st len Hwf) as (Hwf' & Hcap & _ & Hp & _ & Hbs & _). fold st'.
  fold st' in Hwf', Hcap, Hp, Hbs. unfold getCapacity in Hcap.
  destruct (wf_block st' Hwf') as (Hcur & Hi & Hnpos & Hpos & nd & Hnd & Hns); [lia|].
  rewrite Hnd. osimpl. rewrite Hns, Hcur.
  pose proof (wf_base _ Hwf'). pose proof (wf_capacity _ Hwf'). pose proof (wf_nodes _ Hwf').
  destruct (getWriteBuffers_loop_first (m_baseSize st') (loop_fuel (m_nodes st')) ltac:(done)
    (m_nodes st') (m_position st' / m_baseSize st') (m_position st' mod m_baseSize st') len [])
    as (vs & -> & Hvs); [done|done|done|done|nia|unfold loop_fuel; lia|].
  rewrite Hp, Hbs in *. destruct (lookup_block (m_nodes st') _ Hi) as [nd' Hnd'].
  osimpl. by exists vs, nd'.
Qed.

(** ** [ByteArray] implements the buffer interface *)

Section instance.
Context (garbage : nat → Z).

#[local] Instance bytearray_buffer : Buffer ByteArray := {|
  buf_ok := wf;
  buf_data := contents;
  buf_pos := m_position;
  buf_order := m_endian;
  buf_write st bs := write garbage st bs (length bs);
  buf_read := read;
  buf_seek := setPosition
|}.

Lemma seek_within st v :
  wf st → v ≤ m_size st → ∃ st', setPosition st v = Ok st' ∧ moved st v st'.
Proof.
  intros Hwf Hv. pose proof (wf_size st Hwf).
  destruct (setPosition_spec st v Hwf) as (st' & Hs & Hwf' & Hp & Hsz & Hc & _ & _ & _ & He);
    [lia|].
  exists st'. split; [done|]. split_and!; [done| |done|done].
  simpl. rewrite <-Hc. rewrite Nat.max_l in Hsz by done. rewrite <-Hsz.
  symmetry. apply take_ge. by rewrite length_contents.
Qed.

#[local] Instance bytearray_laws : BufferLaws ByteArray.
Proof.
  split; simpl.
  - intros st Hwf. rewrite length_contents by done. by apply wf_position.
  - intros st bs Hwf. destruct (write_spec garbage st bs (length bs) Hwf)
      as (st' & Hw & Hwf' & Hc & Hp & _ & He); [done|].
    exists st'. split; [done|]. split_and!; [done| |done|done].
    simpl. rewrite Hc. by rewrite take_ge.
  - intros st n Hwf Hn Hle. rewrite length_contents in Hle by done.
    destruct (read_spec st n Hwf) as (st' & Hr & Hwf' & Hc & Hp & _ & _ & _ & He);
      [unfold getReadSize; lia|by left|].
    exists st'. by split_and!.
  - intros st n Hwf Hle. rewrite length_contents in Hle by done.
    apply read_throws. unfold getReadSize. pose proof (wf_position st Hwf). lia.
  - intros st p Hwf Hle. rewrite length_contents in Hle by done. by apply seek_within.
Qed.

End instance.

(** ** Files *)

Section files.
Context (garbage : nat → Z).
#[local] Instance file_buffer : Buffer ByteArray := bytearray_buffer garbage.
#[local] Instance file_laws : BufferLaws ByteArray := bytearray_laws garbage.

(** Reading a file in blocks writes its bytes at the cursor. *)
Lemma readFromFile_loop_spec fuel : ∀ st data,
  wf st → length data < fuel →
  ∃ st', readFromFile_loop garbage fuel st data = Ok st' ∧ wrote st data st' ∧
         m_baseSize st' = m_baseSize st.
Proof.
  induction fuel as [|fuel IH]; intros st data Hwf Hfuel; [lia|]. cbn [readFromFile_loop].
  set (buf := take _ data). pose proof (wf_base st Hwf).
  destruct (write_spec garbage st buf (length buf) Hwf)
    as (st1 & Hw & Hwf1 & Hc & Hp & Hbs & He); [done|]. rewrite Hw. osimpl.
  assert (wrote st buf st1) as Hwrote
    by (split_and!; [done|simpl; by rewrite Hc, (take_ge buf)|done|done]).
  case_decide as Heof.
  - exists st1. split_and!; [done| |done]. subst buf. rewrite length_take in Heof.
    rewrite take_ge in Hwrote by lia. done.
  - subst buf. rewrite length_take in Heof.
    destruct (IH st1 (drop (m_baseSize st) data)) as (st2 & -> & Hwrote2 & Hbs2);
      [done|rewrite length_drop; lia|].
    exists st2. split_and!; [done| |congruence].
    rewrite <-(take_drop (m_baseSize st) data). eapply wrote_trans; done.
Qed.

Lemma writeToFile_loop_spec base fuel : (0 < base) → ∀ nodes i (n : nat) file,
  Forall (node_ok base) nodes → i * base + n ≤ base * length nodes →
  (0 < n → i < length nodes) → length nodes - i < fuel →
  writeToFile_loop fuel (Z.of_nat base) nodes (cur_of base (length nodes) (i * base))
    (Z.of_nat (i * base)) (Z.of_nat n) file = Ok (file ++ slice (i * base) n (flat nodes)).
Proof.
  intros Hbase. induction fuel as [|fuel IH]; intros nodes i n file Hok Hcap Hi Hfuel; [lia|].
  cbn [writeToFile_loop]. case_decide as Hz.
  { assert (n = 0) as -> by lia. by rewrite slice_0, app_nil_r. }
  assert (i < length nodes) as Hlt by (apply Hi; lia).
  destruct (lookup_block nodes i Hlt) as [nd Hnd].
  replace (i * base) with (i * base + 0) at 1 by lia. rewrite cur_of_block by lia.
  rewrite (node_deref_ok _ _ _ Hnd). osimpl.
  rewrite Nat2Z.inj_mul, Z.mod_mul by lia. rewrite Z.sub_0_r.
  set (len := n `min` base).
  assert ((if decide (Z.of_nat base < Z.of_nat n)%Z then Z.of_nat base else Z.of_nat n) =
          Z.of_nat len) as -> by (unfold len; case_decide; lia).
  rewrite decide_False by lia. rewrite Nat2Z.id. change (Z.to_nat 0) with 0.
  rewrite (load_node base Hbase nodes i) by (done || lia). osimpl.
  rewrite <-(cur_of_next base Hbase nodes i) by done.
  rewrite <-Nat2Z.inj_mul, <-Nat2Z.inj_add, <-Nat2Z.inj_sub by lia.
  rewrite Nat.add_0_r. destruct (decide (n ≤ base)) as [Hlast|Hmore].
  - replace (n - len) with 0 by lia. destruct fuel as [|fuel]; [lia|].
    cbn [writeToFile_loop]. rewrite decide_True by lia. by replace len with n by lia.
  - replace (i * base + len) with (S i * base) by lia. rewrite IH by (done || nia).
    rewrite <-(assoc_L (++)). do 2 f_equal.
    replace n with (base + (n - base)) at 2 by lia. rewrite slice_split.
    replace len with base by lia. do 2 f_equal. lia.
Qed.

End files.

(** From a block boundary, [writeToFile] writes what can be read. *)
Lemma writeToFile_spec st :
  wf st → m_position st mod m_baseSize st = 0 →
  writeToFile true st = Ok (Some (drop (m_position st) (contents st))).
Proof.
  intros Hwf Hal. unfold writeToFile. pose proof (length_contents st Hwf).
  destruct Hwf as [Hb Hn Hc Hp Hs Hne Hcur]. rewrite Hcur.
  pose proof (Nat.div_mod_eq (m_position st) (m_baseSize st)).
  assert (m_position st / m_baseSize st * m_baseSize st = m_position st) as Hq by lia.
  pose proof (writeToFile_loop_spec (m_baseSize st) (loop_fuel (m_nodes st)) Hb (m_nodes st)
    (m_position st / m_baseSize st) (getReadSize st) [] Hn) as Hloop.
  rewrite Hq in Hloop. unfold getReadSize, loop_fuel in *. rewrite Hloop; [|lia| |lia].
  - osimpl. do 2 f_equal. simpl. rewrite <-(slice_take _ _ (m_size st)) by lia.
    apply take_ge. rewrite length_drop. fold (contents st). lia.
  - intros. apply Nat.Div0.div_lt_upper_bound. lia.
Qed.

Lemma readFromFile_spec garbage st data :
  wf st →
  ∃ st', readFromFile garbage (Some data) st = Ok (true, st') ∧ wf st' ∧
    contents st' = overwrite (m_position st) data (contents st) ∧
    m_position st' = m_position st + length data.
Proof.
  intros Hwf. unfold readFromFile.
  destruct (readFromFile_loop_spec garbage (S (length data)) st data)
    as (st' & -> & (Hok & Hd & Hp & _) & _); [done|lia|].
  osimpl. by exists st'.
Qed.
