(* ===== verification/ByteCodec.v ===== *)
(** The encodings of [ByteArray] ([sylar/bytearray.cc]): fixed-width integers in
    either byte order, variable-length integers with the zigzag mapping, and
    length-prefixed strings.  All of them are written over the [Buffer]
    interface; [native] is the byte order of the machine ([SYLAR_BYTE_ORDER]). *)

From stdpp Require Import base numbers list list_numbers strings option tactics.
From Stdlib Require Import ZArith Lia.
From S2P Require Import Prelude Endian Buffer.

Local Open Scope Z_scope.

(** ** Zigzag *)

Definition EncodeZigzag32 (v : Z) : Z :=
  if decide (v < 0)
  then u32 (u32 (Z.shiftl (u32 (s32 (- v))) 1) - 1)
  else u32 (s32 (Z.shiftl v 1)).

Definition EncodeZigzag64 (v : Z) : Z :=
  if decide (v < 0)
  then u64 (u64 (Z.shiftl (u64 (s64 (- v))) 1) - 1)
  else u64 (s64 (Z.shiftl v 1)).

Definition DecodeZigzag32 (v : Z) : Z :=
  s32 (Z.lxor (Z.shiftr v 1) (u32 (- Z.land v 1))).

Definition DecodeZigzag64 (v : Z) : Z :=
  s64 (Z.lxor (Z.shiftr v 1) (u64 (- Z.land v 1))).

(** ** Variable-length integers *)

(** The loop that fills [tmp] with seven bits per byte; [slots] is the room
    left in [tmp]. *)
Fixpoint varint_loop (slots : nat) (value : Z) : outcome (list Z) :=
  match slots with
  | O => Stuck
  | S slots =>
    if decide (128 <= value) then
      rest ← varint_loop slots (Z.shiftr value 7);
      mret (Z.lor (Z.land value 127) 128 :: rest)
    else mret [u8 value]
  end.

Section codec.
Context {B : Type} `{!Buffer B} (native : endian).
Implicit Types b : B.

(** ** Fixed-width integers *)

(** The body shared by [writeFint16] ... [writeFuint64]. *)
Definition writeF (t : ctype) b (value : Z) : outcome B :=
  let value := if decide (buf_order b ≠ native) then byteswap t value else value in
  buf_write b (to_memory native t value).

Definition writeFint8 b (value : Z) : outcome B := buf_write b (to_memory native int8_t value).
Definition writeFuint8 b (value : Z) : outcome B := buf_write b (to_memory native uint8_t value).
Definition writeFint16 b (value : Z) : outcome B := writeF int16_t b value.
Definition writeFuint16 b (value : Z) : outcome B := writeF uint16_t b value.
Definition writeFint32 b (value : Z) : outcome B := writeF int32_t b value.
Definition writeFuint32 b (value : Z) : outcome B := writeF uint32_t b value.
Definition writeFint64 b (value : Z) : outcome B := writeF int64_t b value.
Definition writeFuint64 b (value : Z) : outcome B := writeF uint64_t b value.

(** The macro [XX(type)] of the readers. *)
Definition readF (t : ctype) b : outcome (Z * B) :=
  '(bs, b') ← buf_read b (sizeof t);
  let v := of_memory native t bs in
  mret (if decide (buf_order b ≠ native) then byteswap t v else v, b').

Definition readFint8 b : outcome (Z * B) :=
  '(bs, b') ← buf_read b 1; mret (of_memory native int8_t bs, b').
Definition readFuint8 b : outcome (Z * B) :=
  '(bs, b') ← buf_read b 1; mret (of_memory native uint8_t bs, b').
Definition readFint16 b : outcome (Z * B) := readF int16_t b.
Definition readFuint16 b : outcome (Z * B) := readF uint16_t b.
Definition readFint32 b : outcome (Z * B) := readF int32_t b.
Definition readFuint32 b : outcome (Z * B) := readF uint32_t b.
Definition readFint64 b : outcome (Z * B) := readF int64_t b.
Definition readFuint64 b : outcome (Z * B) := readF uint64_t b.

(** ** Variable-length integers *)

Definition writeUint32 b (value : Z) : outcome B := tmp ← varint_loop 5 value; buf_write b tmp.
Definition writeUint64 b (value : Z) : outcome B := tmp ← varint_loop 10 value; buf_write b tmp.
Definition writeInt32 b (value : Z) : outcome B := writeUint32 b (EncodeZigzag32 value).
Definition writeInt64 b (value : Z) : outcome B := writeUint64 b (EncodeZigzag64 value).

(** [for (int i = 0; i < 32; i += 7)], the loop of [readUint32] and of
    [readUint64]; [w] is the width of [result]. *)
Fixpoint readVarint_loop (w : Z) (fuel : nat) b (i result : Z) : outcome (Z * B) :=
  match fuel with
  | O => Stuck
  | S fuel =>
    if decide (32 <= i) then Ok (result, b) else
    '(c, b') ← readFuint8 b;
    if decide (c < 128)
    then Ok (Z.lor result (uwrap w (Z.shiftl c i)), b')
    else readVarint_loop w fuel b' (i + 7) (Z.lor result (uwrap w (Z.shiftl (Z.land c 127) i)))
  end.

Definition readUint32 b : outcome (Z * B) := readVarint_loop 32 6 b 0 0.
Definition readUint64 b : outcome (Z * B) := readVarint_loop 64 6 b 0 0.

Definition readInt32 b : outcome (Z * B) :=
  '(v, b') ← readUint32 b; mret (DecodeZigzag32 v, b').
Definition readInt64 b : outcome (Z * B) :=
  '(v, b') ← readUint64 b; mret (DecodeZigzag64 v, b').

(** ** Floating point, as bit patterns *)

Definition writeFloat b (pattern : Z) : outcome B := writeFuint32 b pattern.
Definition writeDouble b (pattern : Z) : outcome B := writeFuint64 b pattern.
Definition readFloat b : outcome (Z * B) := readFuint32 b.
Definition readDouble b : outcome (Z * B) := readFuint64 b.

(** ** Strings *)

(** The size of a string converted to the type of the prefix. *)
Definition string_size (t : ctype) (value : list Z) : Z := cast t (Z.of_nat (length value)).

Definition writeStringF16 b (value : list Z) : outcome B :=
  b ← writeFuint16 b (string_size uint16_t value); buf_write b value.
Definition writeStringF32 b (value : list Z) : outcome B :=
  b ← writeFuint32 b (string_size uint32_t value); buf_write b value.
Definition writeStringF64 b (value : list Z) : outcome B :=
  b ← writeFuint64 b (string_size uint64_t value); buf_write b value.
Definition writeStringVint b (value : list Z) : outcome B :=
  b ← writeUint64 b (string_size uint64_t value); buf_write b value.
Definition writeStringWithoutLength b (value : list Z) : outcome B := buf_write b value.

Definition readStringF16 b : outcome (list Z * B) :=
  '(len, b') ← readFuint16 b; buf_read b' (Z.to_nat len).
Definition readStringF32 b : outcome (list Z * B) :=
  '(len, b') ← readFuint32 b; buf_read b' (Z.to_nat len).
Definition readStringF64 b : outcome (list Z * B) :=
  '(len, b') ← readFuint64 b; buf_read b' (Z.to_nat len).
Definition readStringVint b : outcome (list Z * B) :=
  '(len, b') ← readUint64 b; buf_read b' (Z.to_nat len).

End codec.

(** ** Zigzag is a bijection on the machine integers *)

Lemma lxor_ones_neg w x : 0 <= w → 0 <= x < 2 ^ w → Z.lxor x (Z.ones w) = 2 ^ w - 1 - x.
Proof.
  intros Hw Hx. rewrite <-(Z.mod_small x (2 ^ w)) at 1 by done.
  rewrite <-Z.land_ones by done.
  assert (Z.lxor (Z.land x (Z.ones w)) (Z.ones w) = Z.land (Z.lnot x) (Z.ones w)) as ->.
  { apply Z.bits_inj'. intros i Hi. rewrite Z.lxor_spec, !Z.land_spec, Z.lnot_spec by done.
    by destruct (Z.testbit x i), (Z.testbit (Z.ones w) i). }
  rewrite Z.land_ones by done. unfold Z.lnot.
  replace (Z.pred (- x)) with (2 ^ w - 1 - x + (-1) * 2 ^ w) by lia.
  rewrite Z.mod_add by lia. apply Z.mod_small. lia.
Qed.

Lemma zigzag_decode_even w v : 0 < w → 0 <= v < 2 ^ (w - 1) →
  swrap w (Z.lxor (Z.shiftr (2 * v) 1) (uwrap w (- Z.land (2 * v) 1))) = v.
Proof.
  intros Hw Hv. change 1 with (Z.ones 1) at 2. rewrite Z.land_ones by lia.
  change (2 ^ 1) with 2. rewrite Z.mul_comm, Z.mod_mul by lia.
  rewrite Z.shiftr_div_pow2 by lia. change (2 ^ 1) with 2. rewrite Z.div_mul by lia.
  unfold uwrap. rewrite Z.mod_0_l by lia. rewrite Z.lxor_0_r.
  apply swrap_small; [done|]. unfold in_signed. lia.
Qed.

Lemma zigzag_decode_odd w v : 0 < w → 0 <= v < 2 ^ (w - 1) →
  swrap w (Z.lxor (Z.shiftr (2 * v + 1) 1) (uwrap w (- Z.land (2 * v + 1) 1))) = - v - 1.
Proof.
  intros Hw Hv. pose proof (pow_half w Hw) as Hp.
  change 1 with (Z.ones 1) at 4. rewrite Z.land_ones by lia.
  change (2 ^ 1) with 2. rewrite Z.add_comm, Z.mul_comm, Z.mod_add by lia.
  rewrite Z.shiftr_div_pow2 by lia. change (2 ^ 1) with 2. rewrite Z.div_add by lia.
  change (1 / 2) with 0. change (- (1 mod 2)) with (-1).
  assert (uwrap w (-1) = Z.ones w) as ->.
  { unfold uwrap. rewrite Z.ones_equiv. replace (-1) with (2 ^ w - 1 + (-1) * 2 ^ w) by lia.
    rewrite Z.mod_add by lia. rewrite Z.mod_small; lia. }
  rewrite lxor_ones_neg by lia.
  unfold swrap. rewrite Z.mod_small by lia. case_match; lia.
Qed.

Lemma uwrap_sub_uwrap w x y : uwrap w (uwrap w x - y) = uwrap w (x - y).
Proof. unfold uwrap. apply Zminus_mod_idemp_l. Qed.

Lemma zigzag_encode_neg w v : 0 < w → in_signed w v → v < 0 →
  uwrap w (uwrap w (Z.shiftl (uwrap w (swrap w (- v))) 1) - 1) = 2 * (- v - 1) + 1.
Proof.
  intros Hw Hv Hneg. unfold in_signed in Hv. pose proof (pow_half w Hw).
  rewrite uwrap_sub_uwrap, uwrap_swrap by lia. rewrite Z.shiftl_mul_pow2 by lia.
  change (2 ^ 1) with 2. rewrite (uwrap_small w (- v)) by (unfold in_unsigned; lia).
  rewrite uwrap_small; [lia|]. unfold in_unsigned. lia.
Qed.

Lemma zigzag_encode_nonneg w v : 0 < w → in_signed w v → 0 <= v →
  uwrap w (swrap w (Z.shiftl v 1)) = 2 * v.
Proof.
  intros Hw Hv Hneg. unfold in_signed in Hv. pose proof (pow_half w Hw).
  rewrite uwrap_swrap, Z.shiftl_mul_pow2 by lia. change (2 ^ 1) with 2.
  rewrite uwrap_small; [lia|]. unfold in_unsigned. lia.
Qed.

Lemma EncodeZigzag32_range v : in_signed 32 v → in_unsigned 32 (EncodeZigzag32 v).
Proof. intros. unfold EncodeZigzag32. case_decide; apply uwrap_range; lia. Qed.

Lemma EncodeZigzag64_range v : in_signed 64 v → in_unsigned 64 (EncodeZigzag64 v).
Proof. intros. unfold EncodeZigzag64. case_decide; apply uwrap_range; lia. Qed.

Lemma DecodeEncodeZigzag32 v : in_signed 32 v → DecodeZigzag32 (EncodeZigzag32 v) = v.
Proof.
  intros Hv. unfold DecodeZigzag32, EncodeZigzag32. case_decide.
  - rewrite zigzag_encode_neg by (done || lia). unfold in_signed in Hv.
    rewrite zigzag_decode_odd; lia.
  - rewrite zigzag_encode_nonneg by (done || lia). unfold in_signed in Hv.
    apply zigzag_decode_even; lia.
Qed.

Lemma DecodeEncodeZigzag64 v : in_signed 64 v → DecodeZigzag64 (EncodeZigzag64 v) = v.
Proof.
  intros Hv. unfold DecodeZigzag64, EncodeZigzag64. case_decide.
  - rewrite zigzag_encode_neg by (done || lia). unfold in_signed in Hv.
    rewrite zigzag_decode_odd; lia.
  - rewrite zigzag_encode_nonneg by (done || lia). unfold in_signed in Hv.
    apply zigzag_decode_even; lia.
Qed.

(** Small magnitudes have small codes. *)
Lemma EncodeZigzag32_value v :
  in_signed 32 v → EncodeZigzag32 v = if decide (v < 0) then - 2 * v - 1 else 2 * v.
Proof.
  intros Hv. unfold EncodeZigzag32. case_decide.
  - rewrite zigzag_encode_neg by (done || lia). lia.
  - by rewrite zigzag_encode_nonneg by (done || lia).
Qed.

Lemma EncodeZigzag64_value v :
  in_signed 64 v → EncodeZigzag64 v = if decide (v < 0) then - 2 * v - 1 else 2 * v.
Proof.
  intros Hv. unfold EncodeZigzag64. case_decide.
  - rewrite zigzag_encode_neg by (done || lia). lia.
  - by rewrite zigzag_encode_nonneg by (done || lia).
Qed.

(** ** The bytes of a variable-length integer *)

Lemma land_127 v : Z.land v 127 = v mod 128.
Proof. change 127 with (Z.ones 7). by rewrite Z.land_ones. Qed.

Lemma varint_head v : 0 <= v → Z.lor (Z.land v 127) 128 = v mod 128 + 128.
Proof.
  intros. rewrite land_127. change 128 with (1 * 2 ^ 7) at 2.
  rewrite lor_add_shift; [done|lia|]. apply Z.mod_pos_bound. lia.
Qed.

(** Enough slots: the encoder terminates inside [tmp]. *)
Lemma varint_loop_ok slots : ∀ v,
  (0 < slots)%nat → 0 <= v < 2 ^ (7 * Z.of_nat slots) →
  ∃ bs, varint_loop slots v = Ok bs ∧ Forall is_byte bs ∧ (0 < length bs ≤ slots)%nat.
Proof.
  induction slots as [|slots IH]; intros v Hs Hv; [lia|]. cbn [varint_loop].
  case_decide as Hbig.
  - assert (2 ^ (7 * Z.of_nat (S slots)) = 2 ^ (7 * Z.of_nat slots) * 128) as Hpow.
    { replace (7 * Z.of_nat (S slots)) with (7 * Z.of_nat slots + 7) by lia.
      rewrite Z.pow_add_r by lia. done. }
    destruct slots as [|slots]; [change (2 ^ (7 * Z.of_nat 1)) with 128 in Hv; lia|].
    rewrite Z.shiftr_div_pow2 by lia. change (2 ^ 7) with 128.
    destruct (IH (v / 128)) as (bs & -> & Hby & Hlen); [lia| |].
    { split; [apply Z.div_pos; lia|]. apply Z.div_lt_upper_bound; lia. }
    osimpl. eexists. split_and!; [done| |simpl; lia..].
    constructor; [|done]. rewrite varint_head by lia.
    pose proof (Z.mod_pos_bound v 128). unfold is_byte. lia.
  - osimpl. eexists. split_and!; [done| |simpl; lia..].
    constructor; [|done]. apply uwrap_range. lia.
Qed.

(** The number of bytes does not depend on the size of [tmp]. *)
Lemma varint_loop_length (n : nat) : ∀ slots v bs,
  (0 < n)%nat → 0 <= v → v < 2 ^ (7 * Z.of_nat n) → varint_loop slots v = Ok bs →
  (0 < length bs)%nat ∧ (length bs ≤ n)%nat.
Proof.
  induction n as [|n IH]; intros slots v bs Hn Hv Hlt Henc; [lia|].
  destruct slots as [|slots]; [done|]. cbn [varint_loop] in Henc. case_decide.
  - apply outcome_bind_ok in Henc as (rest & Henc & [= <-]). simpl. split; [lia|].
    destruct n as [|n]; [change (2 ^ (7 * Z.of_nat 1)) with 128 in Hlt; lia|].
    apply le_n_S. rewrite Z.shiftr_div_pow2 in Henc by lia.
    apply IH in Henc; [lia|lia|apply Z.div_pos; lia|].
    apply Z.div_lt_upper_bound; [lia|]. rewrite <-Z.pow_add_r by lia.
    eapply Z.lt_le_trans; [done|]. apply Z.pow_le_mono_r; lia.
  - injection Henc as <-. simpl. lia.
Qed.

(** ** Round trips against the buffer interface *)

Section roundtrips.
Context {B : Type} `{!Buffer B, !BufferLaws B} (native : endian).
Implicit Types b : B.

(** The bytes an integer has on the wire: the order of the buffer decides, the
    order of the machine does not matter. *)
Lemma writeF_wrote t b v :
  buf_ok b → ∃ b', writeF native t b v = Ok b' ∧ wrote b (to_memory (buf_order b) t v) b'.
Proof.
  intros Hb. unfold writeF.
  destruct (buf_write_law b (to_memory (buf_order b) t v) Hb) as (b' & Hw & Hwrote).
  exists b'. split; [|done]. rewrite <-Hw. f_equal. case_decide as Hord.
  - rewrite to_memory_byteswap. destruct (buf_order b), native; simpl in *;
      rewrite ?reverse_involutive; done.
  - by rewrite Hord.
Qed.

Lemma readF_at_cursor t b v bs :
  (0 < sizeof t)%nat → in_type t v →
  at_cursor b (to_memory (buf_order b) t v ++ bs) →
  ∃ b', readF native t b = Ok (v, b') ∧ at_cursor b' bs ∧
    moved b (buf_pos b + sizeof t) b'.
Proof.
  intros Ht Hv Hat.
  destruct (at_cursor_read b _ _ Hat) as (b' & Hr & Hat' & Hm);
    [by rewrite length_to_memory|].
  rewrite length_to_memory in Hr, Hm. exists b'. split_and!; [|done..].
  unfold readF. rewrite Hr. osimpl. do 2 f_equal. case_decide as Hord.
  - replace (to_memory (buf_order b) t v) with (to_memory native t (byteswap t v)).
    + rewrite of_to_memory_id, byteswap_byteswap by (done || by apply byteswap_in_type).
      by apply cast_id.
    + rewrite to_memory_byteswap. destruct (buf_order b), native; simpl in *;
        rewrite ?reverse_involutive; done.
  - rewrite Hord. by apply of_to_memory_id.
Qed.

Lemma readFuint8_at_cursor b c bs :
  is_byte c → at_cursor b (c :: bs) →
  ∃ b', readFuint8 native b = Ok (c, b') ∧ at_cursor b' bs ∧ moved b (buf_pos b + 1) b'.
Proof.
  intros Hc Hat. destruct (at_cursor_read b [c] bs Hat) as (b' & Hr & Hat' & Hm); [simpl; lia|].
  exists b'. split_and!; [|done..]. unfold readFuint8. simpl in Hr. rewrite Hr. osimpl.
  do 2 f_equal. unfold of_memory.
  replace (le_value _) with c by (destruct native; simpl; lia).
  by apply uwrap_small.
Qed.

(** What the decoding loop makes of an encoded value: the seven bits of each of
    the at most [n] bytes that the bound [i < 32] lets it read. *)
Lemma readVarint_loop_spec w (n : nat) : ∀ fuel slots b i r v bs,
  (n < fuel)%nat → 0 <= i → 32 <= i + 7 * Z.of_nat n → i + 7 * Z.of_nat n < 39 →
  0 <= r < 2 ^ i → 0 <= v → r + v * 2 ^ i < 2 ^ w →
  varint_loop slots v = Ok bs → at_cursor b bs →
  ∃ b', readVarint_loop native w fuel b i r =
          Ok (r + (v mod 2 ^ (7 * Z.of_nat n)) * 2 ^ i, b') ∧
        moved b (buf_pos b + n `min` length bs) b'.
Proof.
  induction n as [|n IH]; intros fuel slots b i r v bs Hf Hi Hlo Hhi Hr Hv Hw Henc Hat.
  { destruct fuel as [|fuel]; [lia|]. cbn [readVarint_loop]. rewrite decide_True by lia.
    exists b. rewrite Z.mod_1_r, Z.mul_0_l, Z.add_0_r. simpl. rewrite Nat.add_0_r.
    split; [done|]. destruct Hat. by split_and!. }
  destruct fuel as [|fuel]; [lia|]. cbn [readVarint_loop]. rewrite decide_False by lia.
  destruct slots as [|slots]; [done|]. cbn [varint_loop] in Henc.
  assert (2 ^ (7 * Z.of_nat (S n)) = 128 * 2 ^ (7 * Z.of_nat n)) as Hpow.
  { replace (7 * Z.of_nat (S n)) with (7 + 7 * Z.of_nat n) by lia. by rewrite Z.pow_add_r by lia. }
  assert (0 < 2 ^ (7 * Z.of_nat n)) by lia. assert (0 < 2 ^ i) by lia.
  pose proof (Z.mod_pos_bound v 128 ltac:(lia)) as Hm128.
  pose proof (Z.div_mod v 128 ltac:(lia)) as Hdm.
  case_decide as Hbig.
  - apply outcome_bind_ok in Henc as (rest & Henc & [= <-]).
    rewrite Z.shiftr_div_pow2 in Henc by lia. change (2 ^ 7) with 128 in Henc.
    rewrite varint_head in Hat by done.
    destruct (readFuint8_at_cursor b (v mod 128 + 128) rest)
      as (b1 & -> & Hat1 & Hmv1); [unfold is_byte; lia|done|].
    osimpl. rewrite decide_False by lia. rewrite land_127.
    replace ((v mod 128 + 128) mod 128) with (v mod 128)
      by (Z.to_euclidean_division_equations; lia).
    rewrite Z.shiftl_mul_pow2 by done.
    rewrite uwrap_small by (unfold in_unsigned; nia).
    rewrite lor_add_shift by done.
    assert (2 ^ (i + 7) = 128 * 2 ^ i) as Hi7 by (rewrite Z.pow_add_r by lia; lia).
    destruct (IH fuel slots b1 (i + 7) (r + v mod 128 * 2 ^ i) (v / 128) rest)
      as (b2 & -> & Hmv2); [lia|lia|lia|lia|nia|apply Z.div_pos; lia|nia|done|done|].
    exists b2. split.
    + do 2 f_equal. rewrite Hpow, Hi7. rewrite (Z.rem_mul_r v 128) by lia. ring.
    + eapply moved_trans; [done|]. destruct Hmv1 as (_ & _ & Hp1 & _).
      rewrite Hp1, <-Nat.add_assoc in Hmv2. done.
  - injection Henc as <-. rewrite uwrap_small in Hat by (unfold in_unsigned; lia).
    destruct (readFuint8_at_cursor b v []) as (b1 & -> & _ & Hmv1);
      [unfold is_byte; lia|done|].
    osimpl. rewrite decide_True by lia. rewrite Z.shiftl_mul_pow2 by done.
    rewrite uwrap_small by (unfold in_unsigned; nia). rewrite lor_add_shift by done.
    exists b1. split; [|simpl; by rewrite Nat.min_0_r].
    rewrite (Z.mod_small v); [done|]. split; [done|nia].
Qed.

(** Writing [x], going back and reading returns [x]; the data is as the writer
    left it and the cursor [n] bytes after where it was. *)
Definition roundtrips {A} (w : B → outcome B) (r : B → outcome (A * B)) b (x : A) (n : nat) :
    Prop :=
  ∃ b1 b2 b3, w b = Ok b1 ∧ buf_seek b1 (buf_pos b) = Ok b2 ∧ r b2 = Ok (x, b3) ∧
    buf_pos b3 = (buf_pos b + n)%nat ∧ buf_data b3 = buf_data b1 ∧ buf_ok b3.

(** A writer whose bytes a reader turns into [x] round-trips. *)
Lemma roundtrips_intro {A} (w : B → outcome B) (r : B → outcome (A * B)) b bs (x : A) n :
  buf_ok b → (∃ b', w b = Ok b' ∧ wrote b bs b') →
  (∀ b2, buf_order b2 = buf_order b → at_cursor b2 bs →
     ∃ b3, r b2 = Ok (x, b3) ∧ moved b2 (buf_pos b2 + n) b3) →
  roundtrips w r b x n.
Proof.
  intros Hb (b1 & Hw & Hwrote) Hr.
  destruct (wrote_at_cursor b bs b1 Hb Hwrote) as (b2 & Hs & Hm2 & Hat).
  destruct Hwrote as (_ & _ & _ & Ho1). destruct Hm2 as (_ & Hd2 & Hp2 & Ho2).
  destruct (Hr b2) as (b3 & Hr3 & Hok3 & Hd3 & Hp3 & _); [congruence|done|].
  exists b1, b2, b3. split_and!; try done; congruence.
Qed.

Lemma readF_all t b v :
  (0 < sizeof t)%nat → in_type t v → at_cursor b (to_memory (buf_order b) t v) →
  ∃ b', readF native t b = Ok (v, b') ∧ moved b (buf_pos b + sizeof t) b'.
Proof.
  intros Ht Hv Hat. destruct (readF_at_cursor t b v []) as (b' & ? & _ & ?);
    [done..|by rewrite app_nil_r|by exists b'].
Qed.

Lemma writeF_roundtrips t b v :
  (0 < sizeof t)%nat → buf_ok b → in_type t v →
  roundtrips (λ b, writeF native t b v) (readF native t) b v (sizeof t).
Proof.
  intros Ht Hb Hv. apply (roundtrips_intro _ _ _ (to_memory (buf_order b) t v)); [done| |].
  - by apply writeF_wrote.
  - intros b2 Ho Hat. rewrite <-Ho in Hat. by apply readF_all.
Qed.

Lemma write8_roundtrips t b v :
  sizeof t = 1%nat → buf_ok b → in_type t v →
  roundtrips (λ b, buf_write b (to_memory native t v))
    (λ b, '(bs, b') ← buf_read b 1; mret (of_memory native t bs, b')) b v 1.
Proof.
  intros Ht Hb Hv. apply (roundtrips_intro _ _ _ (to_memory native t v)); [done| |].
  - by apply buf_write_law.
  - intros b2 _ Hat. destruct (at_cursor_read_all b2 _ Hat) as (b3 & Hr & Hm);
      [rewrite length_to_memory; lia|].
    rewrite length_to_memory, Ht in Hr, Hm. exists b3. split; [|done].
    rewrite Hr. osimpl. rewrite of_to_memory_id; [done|lia|done].
Qed.

(** The variable-length writers: [slots] bytes of [tmp] suffice. *)
Lemma writeVarint_wrote slots b v :
  (0 < slots)%nat → buf_ok b → 0 <= v < 2 ^ (7 * Z.of_nat slots) →
  ∃ bs b', varint_loop slots v = Ok bs ∧ (0 < length bs ≤ slots)%nat ∧
    (tmp ← varint_loop slots v; buf_write b tmp) = Ok b' ∧ wrote b bs b'.
Proof.
  intros Hs Hb Hv. destruct (varint_loop_ok slots v Hs Hv) as (bs & Henc & _ & Hlen).
  destruct (buf_write_law b bs Hb) as (b' & Hw & Hwrote).
  exists bs, b'. split_and!; [done|lia|lia| |done]. by rewrite Henc.
Qed.

Lemma readVarint_at_cursor w slots b v bs :
  0 <= v < 2 ^ w → varint_loop slots v = Ok bs → at_cursor b bs →
  ∃ b', readVarint_loop native w 6 b 0 0 = Ok (v mod 2 ^ 35, b') ∧
        moved b (buf_pos b + 5 `min` length bs) b'.
Proof.
  intros Hv Henc Hat.
  destruct (readVarint_loop_spec w 5 6 slots b 0 0 v bs) as (b' & Hr & Hm);
    [lia|lia|lia|lia|done|lia|lia|done|done|].
  exists b'. split; [|done]. rewrite Hr. do 2 f_equal.
  change (7 * Z.of_nat 5) with 35. change (2 ^ 0) with 1. lia.
Qed.

Lemma writeUint32_roundtrips b v :
  buf_ok b → in_unsigned 32 v →
  ∃ n, (n ≤ 5)%nat ∧ roundtrips (λ b, writeUint32 b v) (readUint32 native) b v n.
Proof.
  intros Hb Hv. unfold in_unsigned in Hv.
  destruct (writeVarint_wrote 5 b v) as (bs & b' & Henc & Hlen & Hw & Hwrote);
    [lia|done|change (7 * Z.of_nat 5) with 35; lia|].
  exists (length bs). split; [lia|]. apply (roundtrips_intro _ _ _ bs); [done|by exists b'|].
  intros b2 _ Hat. destruct (readVarint_at_cursor 32 5 b2 v bs) as (b3 & Hr & Hm); [done..|].
  exists b3. rewrite Nat.min_r in Hm by lia. split; [|done].
  rewrite Z.mod_small in Hr by lia. done.
Qed.

Lemma writeUint64_roundtrips b v :
  buf_ok b → in_unsigned 64 v →
  ∃ n, (n ≤ 5)%nat ∧
    roundtrips (λ b, writeUint64 b v) (readUint64 native) b (v mod 2 ^ 35) n.
Proof.
  intros Hb Hv. unfold in_unsigned in Hv.
  destruct (writeVarint_wrote 10 b v) as (bs & b' & Henc & Hlen & Hw & Hwrote);
    [lia|done|change (7 * Z.of_nat 10) with 70; lia|].
  exists (5 `min` length bs)%nat. split; [lia|].
  apply (roundtrips_intro _ _ _ bs); [done|by exists b'|].
  intros b2 _ Hat. by apply (readVarint_at_cursor 64 10).
Qed.

(** Strings: a prefix writer and its reader, then the characters. *)
Lemma string_roundtrips (wlen : B → outcome B) (rlen : B → outcome (Z * B)) b bs n (value : list Z) :
  buf_ok b → (0 < length value)%nat → n = length value →
  (∃ b', wlen b = Ok b' ∧ wrote b bs b') →
  (∀ b2, buf_order b2 = buf_order b → at_cursor b2 (bs ++ value) →
     ∃ b3, rlen b2 = Ok (Z.of_nat n, b3) ∧ at_cursor b3 value ∧
           moved b2 (buf_pos b2 + length bs) b3) →
  roundtrips (λ b, b ← wlen b; buf_write b value)
    (λ b, '(len, b') ← rlen b; buf_read b' (Z.to_nat len)) b value (length bs + length value).
Proof.
  intros Hb Hpos -> (b1 & Hw & Hwrote) Hr.
  apply (roundtrips_intro _ _ _ (bs ++ value)); [done| |].
  - destruct (buf_write_law b1 value) as (b2 & Hw2 & Hwrote2); [by destruct Hwrote|].
    exists b2. rewrite Hw. osimpl. split; [done|]. by eapply wrote_trans.
  - intros b2 Ho Hat. destruct (Hr b2 Ho Hat) as (b3 & Hr3 & Hat3 & Hm3).
    destruct (at_cursor_read_all b3 value Hat3 Hpos) as (b4 & Hr4 & Hm4).
    exists b4. rewrite Hr3. osimpl. rewrite Nat2Z.id. split; [done|].
    eapply moved_trans; [done|]. destruct Hm3 as (_ & _ & Hp3 & _).
    by rewrite Nat.add_assoc, <-Hp3.
Qed.

Lemma stringF_roundtrips t b value :
  (0 < sizeof t)%nat → is_signed t = false → buf_ok b →
  0 < Z.of_nat (length value) < 2 ^ bits t →
  roundtrips (λ b, b ← writeF native t b (string_size t value); buf_write b value)
    (λ b, '(len, b') ← readF native t b; buf_read b' (Z.to_nat len)) b value
    (sizeof t + length value).
Proof.
  intros Ht Hu Hb Hlen.
  assert (in_type t (Z.of_nat (length value))) as Hin
    by (unfold in_type; rewrite Hu; unfold in_unsigned; lia).
  unfold string_size. rewrite cast_id by done.
  rewrite <-(length_to_memory (buf_order b) t (Z.of_nat (length value))).
  apply (string_roundtrips _ _ _ _ (length value)); [done|lia|done|by apply writeF_wrote|].
  intros b2 Ho Hat. rewrite <-Ho in Hat. rewrite length_to_memory. by apply readF_at_cursor.
Qed.

Lemma stringVint_roundtrips b value :
  buf_ok b → 0 < Z.of_nat (length value) < 2 ^ 35 →
  ∃ n, roundtrips (λ b, writeStringVint b value) (readStringVint native) b value n.
Proof.
  intros Hb Hlen. unfold writeStringVint, readStringVint, string_size.
  rewrite cast_id by (simpl; unfold in_type, in_unsigned, bits; simpl; lia).
  destruct (writeVarint_wrote 10 b (Z.of_nat (length value)))
    as (bs & b' & Henc & Hlb & Hw & Hwrote);
    [lia|done|change (7 * Z.of_nat 10) with 70; lia|].
  exists (length bs + length value)%nat.
  apply (string_roundtrips _ _ _ _ (length value)); [done|lia|done|by exists b'|].
  intros b2 _ Hat. pose proof (at_cursor_prefix _ _ _ Hat) as Hat1.
  destruct (readVarint_at_cursor 64 10 b2 (Z.of_nat (length value)) bs)
    as (b3 & Hr & Hm); [lia|done..|].
  destruct (varint_loop_length 5 10 (Z.of_nat (length value)) bs) as [_ Hle];
    [lia|lia|change (7 * Z.of_nat 5) with 35; lia|done|].
  rewrite Nat.min_r in Hm by done. exists b3. unfold readUint64. rewrite Hr, Z.mod_small by lia.
  split_and!; [done|by eapply moved_at_cursor|done].
Qed.

End roundtrips.
