(* ===== verification/ByteArrayTheorems.v ===== *)
(** What [ByteArray] guarantees: refinement of a flat buffer by any sequence of
    reads, writes and seeks, the round trips of its encodings, gather access
    and files; and the states in which it does not keep its promises. *)

From stdpp Require Import base numbers list list_numbers strings option tactics.
From Stdlib Require Import ZArith Lia.
From S2P Require Import Prelude Endian Buffer ByteArray ByteArraySpec ByteCodec.

(** ** The abstract machine: a byte list and a cursor *)

Record FlatBuffer : Type := mkFlat { f_data : list Z; f_pos : nat }.

Inductive command : Type :=
| CWrite (bs : list Z)
| CRead (n : nat)
| CSeek (p : nat).

(** What the caller sees: bytes, or the exception of a short read. *)
Inductive reply : Type :=
| Bytes (bs : list Z)
| Failed (e : exn).

Definition flat_step (f : FlatBuffer) (c : command) : reply * FlatBuffer :=
  match c with
  | CWrite bs => (Bytes [], mkFlat (overwrite (f_pos f) bs (f_data f)) (f_pos f + length bs))
  | CRead n =>
    if decide (length (f_data f) < f_pos f + n)
    then (Failed (out_of_range "not enough length"), f)
    else (Bytes (slice (f_pos f) n (f_data f)), mkFlat (f_data f) (f_pos f + n))
  | CSeek p => (Bytes [], mkFlat (f_data f) p)
  end.

Fixpoint flat_run (f : FlatBuffer) (cs : list command) : list reply * FlatBuffer :=
  match cs with
  | [] => ([], f)
  | c :: cs =>
    let '(r, f1) := flat_step f c in
    let '(rs, f2) := flat_run f1 cs in (r :: rs, f2)
  end.

(** A command the buffer is specified for: a read of at least one byte, a seek
    inside the data. *)
Definition allowed (f : FlatBuffer) (c : command) : bool :=
  match c with
  | CWrite _ => true
  | CRead n => bool_decide (0 < n)
  | CSeek p => bool_decide (p ≤ length (f_data f))
  end.

Fixpoint all_allowed (f : FlatBuffer) (cs : list command) : bool :=
  match cs with
  | [] => true
  | c :: cs => allowed f c && all_allowed (flat_step f c).2 cs
  end.

(** ** The concrete machine *)

Section machine.
Context (garbage : nat → Z).
#[local] Instance the_buffer : Buffer ByteArray := bytearray_buffer garbage.
#[local] Instance the_laws : BufferLaws ByteArray := bytearray_laws garbage.

(** A command on a [ByteArray]; an exception leaves the object as it was. *)
Definition step (st : ByteArray) (c : command) : outcome (reply * ByteArray) :=
  match c with
  | CWrite bs => st' ← write garbage st bs (length bs); mret (Bytes [], st')
  | CRead n =>
    match read st n with
    | Ok (bs, st') => Ok (Bytes bs, st')
    | Throw e => Ok (Failed e, st)
    | Stuck => Stuck
    end
  | CSeek p =>
    match setPosition st p with
    | Ok st' => Ok (Bytes [], st')
    | Throw e => Ok (Failed e, st)
    | Stuck => Stuck
    end
  end.

Fixpoint run (st : ByteArray) (cs : list command) : outcome (list reply * ByteArray) :=
  match cs with
  | [] => Ok ([], st)
  | c :: cs => '(r, st1) ← step st c; '(rs, st2) ← run st1 cs; mret (r :: rs, st2)
  end.

Definition abs (st : ByteArray) : FlatBuffer := mkFlat (contents st) (m_position st).

Lemma step_refines st c :
  wf st → allowed (abs st) c →
  ∃ st', step st c = Ok ((flat_step (abs st) c).1, st') ∧ wf st' ∧
         abs st' = (flat_step (abs st) c).2.
Proof.
  intros Hwf Hok. pose proof (buf_pos_le st Hwf) as Hple. simpl in Hple.
  destruct c as [bs|n|p]; simpl in *.
  - pose proof (buf_write_law st bs Hwf) as (st' & Hw & Hwf' & Hd & Hp & _). simpl in *.
    exists st'. rewrite Hw. unfold abs. rewrite Hd, Hp. done.
  - apply bool_decide_unpack in Hok. case_decide.
    + pose proof (buf_short_law st n Hwf) as Hshort. simpl in Hshort.
      exists st. by rewrite Hshort by done.
    + pose proof (buf_read_law st n Hwf Hok) as (st' & Hr & Hwf' & Hd & Hp & _); [simpl; lia|].
      simpl in *. exists st'. rewrite Hr. unfold abs. rewrite Hd, Hp. done.
  - apply bool_decide_unpack in Hok.
    pose proof (buf_seek_law st p Hwf Hok) as (st' & Hs & Hwf' & Hd & Hp & _). simpl in *.
    exists st'. rewrite Hs. unfold abs. rewrite Hd, Hp. done.
Qed.

Lemma run_refines cs : ∀ st,
  wf st → all_allowed (abs st) cs →
  ∃ st', run st cs = Ok ((flat_run (abs st) cs).1, st') ∧ wf st' ∧
         abs st' = (flat_run (abs st) cs).2.
Proof.
  induction cs as [|c cs IH]; intros st Hwf Hok; simpl in *; [by exists st|].
  apply andb_True in Hok as [Hc Hcs].
  destruct (step_refines st c Hwf Hc) as (st1 & -> & Hwf1 & Habs1). osimpl.
  rewrite <-Habs1 in Hcs. destruct (IH st1 Hwf1 Hcs) as (st2 & -> & Hwf2 & Habs2).
  osimpl. exists st2. rewrite Habs1 in *. destruct (flat_step (abs st) c) as [r f1]. simpl in *.
  destruct (flat_run f1 cs). done.
Qed.

End machine.

(** C1. Any sequence of writes, of reads of at least one byte and of seeks to no further
    than the end of the data, on a fresh [ByteArray] with a positive block size,
    gives the replies a plain byte list with a cursor would give (short reads
    throw and change nothing), never follows a null pointer or leaves a block, and
    ends in a well-formed state holding the same bytes. A read of no bytes is left
    out, since it follows a null pointer at the end of the last block. *)
Theorem bytearray_refines_flat garbage base cs :
  0 < base → all_allowed (mkFlat [] 0) cs →
  ∃ st, run garbage (ByteArray_new garbage base) cs = Ok ((flat_run (mkFlat [] 0) cs).1, st) ∧
        wf st ∧ abs st = (flat_run (mkFlat [] 0) cs).2.
Proof. intros Hb Hok. by apply run_refines; [apply wf_new|]. Qed.

Lemma bytearray_refines_flat_witness :
  ∃ st, run (λ _, 0%Z) (ByteArray_new (λ _, 0%Z) 2)
          [CWrite [1; 2; 3]%Z; CSeek 1; CRead 2; CRead 1] =
        Ok ([Bytes []; Bytes []; Bytes [2; 3]%Z; Failed (out_of_range "not enough length")], st).
Proof.
  destruct (bytearray_refines_flat (λ _, 0%Z) 2
    [CWrite [1; 2; 3]%Z; CSeek 1; CRead 2; CRead 1]) as (st & Hrun & _ & _).
  - lia.
  - vm_compute. exact I.
  - exists st. exact Hrun.
Defined.

(** ** Encodings *)

Section encodings.
Context (garbage : nat → Z) (native : endian).
#[local] Instance enc_buffer : Buffer ByteArray := bytearray_buffer garbage.
#[local] Instance enc_laws : BufferLaws ByteArray := bytearray_laws garbage.

(** Every fixed-width integer a [ByteArray] writes is read back unchanged
    after seeking to where it was written, in both buffer byte orders and on
    both kinds of machine, and exactly its bytes are consumed. *)
Theorem fixed_width_roundtrip st :
  wf st →
  (∀ v, in_type int8_t v → roundtrips (λ b, writeFint8 native b v) (readFint8 native) st v 1) ∧
  (∀ v, in_type uint8_t v → roundtrips (λ b, writeFuint8 native b v) (readFuint8 native) st v 1) ∧
  (∀ v, in_type int16_t v → roundtrips (λ b, writeFint16 native b v) (readFint16 native) st v 2) ∧
  (∀ v, in_type uint16_t v →
     roundtrips (λ b, writeFuint16 native b v) (readFuint16 native) st v 2) ∧
  (∀ v, in_type int32_t v → roundtrips (λ b, writeFint32 native b v) (readFint32 native) st v 4) ∧
  (∀ v, in_type uint32_t v →
     roundtrips (λ b, writeFuint32 native b v) (readFuint32 native) st v 4) ∧
  (∀ v, in_type int64_t v → roundtrips (λ b, writeFint64 native b v) (readFint64 native) st v 8) ∧
  (∀ v, in_type uint64_t v →
     roundtrips (λ b, writeFuint64 native b v) (readFuint64 native) st v 8).
Proof.
  intros Hwf. split_and!; intros v Hv;
    first [by apply (write8_roundtrips native) | by apply (writeF_roundtrips native); simpl; lia || done].
Qed.

(** The bytes of a fixed-width integer on the wire depend on the byte order
    of the buffer only: two machines of different byte order produce the same
    buffer, most significant byte first in a big-endian one. *)
Theorem wire_format_host_independent t st v :
  wf st → m_endian st = SYLAR_BIG_ENDIAN →
  writeF SYLAR_LITTLE_ENDIAN t st v = writeF SYLAR_BIG_ENDIAN t st v ∧
  ∃ st', writeF native t st v = Ok st' ∧
    contents st' = overwrite (m_position st) (reverse (bytes_le (sizeof t) v)) (contents st).
Proof.
  intros Hwf He. split.
  - unfold writeF. f_equal. change (buf_order st) with (m_endian st). rewrite He.
    rewrite decide_True, decide_False by (done || naive_solver).
    by rewrite to_memory_byteswap.
  - pose proof (writeF_wrote native t st v Hwf) as (st' & Hw & _ & Hd & _).
    exists st'. split; [done|]. change (buf_order st) with (m_endian st) in Hd.
    by rewrite He in Hd.
Qed.

(** Variable-length 32-bit integers, unsigned and zigzag-coded signed ones,
    take at most five bytes and are read back unchanged. *)
Theorem varint32_roundtrip st :
  wf st →
  (∀ v, in_unsigned 32 v → ∃ n, n ≤ 5 ∧
     roundtrips (λ b, writeUint32 b v) (readUint32 native) st v n) ∧
  (∀ v, in_signed 32 v → ∃ n, n ≤ 5 ∧
     roundtrips (λ b, writeInt32 b v) (readInt32 native) st v n).
Proof.
  intros Hwf. split; intros v Hv; [by apply writeUint32_roundtrips|].
  pose proof (writeUint32_roundtrips native st (EncodeZigzag32 v) Hwf)
    as (n & Hn & b1 & b2 & b3 & Hw & Hs & Hr & Hrest); [by apply EncodeZigzag32_range|].
  exists n. split; [done|]. exists b1, b2, b3. split_and!; [done|done| |by apply Hrest..].
  unfold readInt32. rewrite Hr. osimpl. by rewrite DecodeEncodeZigzag32.
Qed.

(** A variable-length 64-bit integer comes back modulo [2^35]: the reader
    stops after five bytes, so exactly the values below [2^35] (for signed
    ones, between [-2^34] and [2^34 - 1]) survive the round trip. *)
Theorem varint64_roundtrip_mod st :
  wf st →
  (∀ v, in_unsigned 64 v → ∃ n, n ≤ 5 ∧
     roundtrips (λ b, writeUint64 b v) (readUint64 native) st (v mod 2 ^ 35)%Z n) ∧
  (∀ v, in_unsigned 64 v → (v mod 2 ^ 35 = v ↔ v < 2 ^ 35)%Z) ∧
  (∀ v, (- 2 ^ 34 <= v < 2 ^ 34)%Z → ∃ n, n ≤ 5 ∧
     roundtrips (λ b, writeInt64 b v) (readInt64 native) st v n).
Proof.
  intros Hwf. split_and!; intros v Hv; [by apply writeUint64_roundtrips| |].
  - unfold in_unsigned in Hv. pose proof (Z.mod_pos_bound v (2 ^ 35)).
    split; intros; [lia|]. apply Z.mod_small. lia.
  - assert (in_signed 64 v) as Hin by (unfold in_signed; lia).
    pose proof (writeUint64_roundtrips native st (EncodeZigzag64 v) Hwf)
      as (n & Hn & b1 & b2 & b3 & Hw & Hs & Hr & Hrest); [by apply EncodeZigzag64_range|].
    exists n. split; [done|]. exists b1, b2, b3. split_and!; [done|done| |by apply Hrest..].
    unfold readInt64. rewrite Hr. osimpl. rewrite Z.mod_small.
    + by rewrite DecodeEncodeZigzag64.
    + rewrite EncodeZigzag64_value by done. case_decide; lia.
Qed.

(** A non-empty string whose length fits the prefix is read back unchanged,
    for each of the four kinds of prefix. *)
Theorem string_roundtrip st value :
  wf st → 0 < length value →
  ((Z.of_nat (length value) < 2 ^ 16)%Z →
     roundtrips (λ b, writeStringF16 native b value) (readStringF16 native) st value
       (2 + length value)) ∧
  ((Z.of_nat (length value) < 2 ^ 32)%Z →
     roundtrips (λ b, writeStringF32 native b value) (readStringF32 native) st value
       (4 + length value)) ∧
  ((Z.of_nat (length value) < 2 ^ 64)%Z →
     roundtrips (λ b, writeStringF64 native b value) (readStringF64 native) st value
       (8 + length value)) ∧
  ((Z.of_nat (length value) < 2 ^ 35)%Z →
     ∃ n, roundtrips (λ b, writeStringVint b value) (readStringVint native) st value n).
Proof.
  intros Hwf Hpos. split_and!; intros Hlen.
  - apply (stringF_roundtrips native uint16_t st value); [simpl; lia|done|done|].
    change (bits uint16_t) with 16%Z. lia.
  - apply (stringF_roundtrips native uint32_t st value); [simpl; lia|done|done|].
    change (bits uint32_t) with 32%Z. lia.
  - apply (stringF_roundtrips native uint64_t st value); [simpl; lia|done|done|].
    change (bits uint64_t) with 64%Z. lia.
  - apply (stringVint_roundtrips native st value); [done|lia].
Qed.

End encodings.

(** A small buffer: blocks of four bytes, nothing written yet. *)
Definition small : ByteArray := ByteArray_new (λ _, 0%Z) 4.

Lemma wf_small : wf small.
Proof. apply wf_new. lia. Qed.

(** Six bytes over two blocks, the cursor at the start. *)
Definition loaded : ByteArray :=
  mkByteArray 4 0 8 6 SYLAR_BIG_ENDIAN [mkNode [1; 2; 3; 4]%Z 4; mkNode [5; 6; 0; 0]%Z 4] (Some 0).

Lemma wf_loaded : wf loaded.
Proof. split; simpl; try lia; [|done]. by repeat constructor. Qed.

Section small_buffer.
#[local] Instance small_instance : Buffer ByteArray := bytearray_buffer (λ _, 0%Z).
Abbreviation LE := SYLAR_LITTLE_ENDIAN.

Lemma fixed_width_roundtrip_witness :
  roundtrips (λ b, writeFint64 LE b (-2)%Z) (readFint64 LE) small (-2)%Z 8.
Proof.
  destruct (fixed_width_roundtrip (λ _, 0%Z) LE small wf_small) as (_ & _ & _ & _ & _ & _ & H & _).
  refine (H (-2)%Z _). vm_compute. split; discriminate || reflexivity.
Defined.

Lemma wire_format_host_independent_witness :
  ∃ st', writeF LE uint32_t small 258%Z = Ok st' ∧ contents st' = [0; 0; 1; 2]%Z.
Proof.
  destruct (wire_format_host_independent (λ _, 0%Z) LE uint32_t small 258%Z wf_small eq_refl)
    as [_ (st' & Hw & Hc)].
  exists st'. split; [exact Hw|]. rewrite Hc. reflexivity.
Defined.

Lemma varint32_roundtrip_witness :
  ∃ n, n ≤ 5 ∧ roundtrips (λ b, writeInt32 b (-300)%Z) (readInt32 LE) small (-300)%Z n.
Proof.
  destruct (varint32_roundtrip (λ _, 0%Z) LE small wf_small) as [_ H].
  refine (H (-300)%Z _). vm_compute. split; discriminate || reflexivity.
Defined.

Lemma varint64_roundtrip_mod_witness :
  ∃ n, n ≤ 5 ∧ roundtrips (λ b, writeUint64 b (2 ^ 35 + 7)%Z) (readUint64 LE) small 7%Z n.
Proof.
  destruct (varint64_roundtrip_mod (λ _, 0%Z) LE small wf_small) as [H _].
  refine (H (2 ^ 35 + 7)%Z _). vm_compute. split; discriminate || reflexivity.
Defined.

Lemma string_roundtrip_witness :
  roundtrips (λ b, writeStringF16 LE b [104; 105]%Z) (readStringF16 LE) small [104; 105]%Z 4.
Proof.
  destruct (string_roundtrip (λ _, 0%Z) LE small [104; 105]%Z wf_small) as [H _]; [simpl; lia|].
  refine (H _). simpl. lia.
Defined.

End small_buffer.

(** ** Gather access, files, and the broken promises *)

(** [getReadBuffers] hands out, without copying, vectors that stay inside
    their blocks and that together point to exactly the next bytes that can be
    read, at most [len] of them; the state is not touched. *)
Theorem getReadBuffers_gathers st len :
  wf st →
  ∃ vs, getReadBuffers st len = Ok (vs, len `min` getReadSize st) ∧
    Forall (in_block (m_nodes st)) vs ∧
    gather (m_nodes st) vs = slice (m_position st) (len `min` getReadSize st) (contents st).
Proof. apply getReadBuffers_spec. Qed.

Lemma getReadBuffers_gathers_witness :
  ∃ vs, getReadBuffers loaded 5 = Ok (vs, 5) ∧ gather (m_nodes loaded) vs = [1; 2; 3; 4; 5]%Z.
Proof.
  destruct (getReadBuffers_gathers loaded 5 wf_loaded) as (vs & Hr & _ & Hg).
  exists vs. split; [exact Hr|exact Hg].
Defined.

(** [getWriteBuffers] reserves [len] bytes and keeps the buffer
    well-formed, but its first vector always has length [len]: when fewer than
    [len] bytes are left in the current block, that vector reaches beyond the
    memory of the block. *)
Theorem getWriteBuffers_first_vector garbage st len :
  wf st → 0 < len →
  ∃ v vs st', getWriteBuffers garbage st len = Ok (v :: vs, len, st') ∧
    wf st' ∧ contents st' = contents st ∧ len ≤ getCapacity st' ∧
    iov_off v = m_position st mod m_baseSize st ∧ iov_len v = len ∧
    (in_block (m_nodes st') v ↔ len ≤ m_baseSize st - m_position st mod m_baseSize st).
Proof.
  intros Hwf Hlen. destruct (getWriteBuffers_spec garbage st len Hwf Hlen) as (vs & nd & E & _ & Hnd & Hnp & _).
  destruct (addCapaticy_spec garbage st len Hwf) as (Hwf' & Hcap & Hcont & _ & _ & Hbs & _).
  eexists _, vs, _. split; [exact E|]. split_and!; [done..|]. unfold in_block. simpl. rewrite Hnd.
  pose proof (Forall_lookup_1 _ _ _ _ (wf_nodes _ Hwf') Hnd) as [_ Hl]. rewrite Hbs in Hl.
  split; [intros (? & [= <-] & ?); lia|]. intros. exists nd. split; [done|lia].
Qed.

Lemma getWriteBuffers_first_vector_witness :
  ∃ v vs st', getWriteBuffers (λ _, 0%Z) small 6 = Ok (v :: vs, 6, st') ∧
    iov_len v = 6 ∧ ¬ in_block (m_nodes st') v.
Proof.
  destruct (getWriteBuffers_first_vector (λ _, 0%Z) small 6 wf_small)
    as (v & vs & st' & Hg & _ & _ & _ & _ & Hl & Hin); [lia|].
  exists v, vs, st'. split; [exact Hg|]. split; [exact Hl|].
  intros Hv. apply Hin in Hv. vm_compute in Hv. lia.
Defined.

(** [clear] frees every block but the first and rewinds, and leaves the
    buffer well-formed exactly when its old size fits one block: [m_size] is
    kept, so a larger buffer then offers bytes that no longer exist. *)
Theorem clear_wf_iff st :
  wf st →
  m_position (clear st) = 0 ∧ length (m_nodes (clear st)) = 1 ∧
  getReadSize (clear st) = m_size st ∧
  (wf (clear st) ↔ m_size st ≤ m_baseSize st).
Proof.
  intros [Hb Hn Hc Hp Hs Hne Hcur]. unfold getReadSize, clear. simpl.
  assert (length (take 1 (m_nodes st)) = 1) as Hl by (rewrite length_take; lia).
  split_and!; [done|done|lia|]. split.
  - intros [_ _ _ _ Hs' _ _]. exact Hs'.
  - intros Hfit. split; simpl; rewrite ?Hl; [done| |lia..|].
    + by apply Forall_take.
    + symmetry. unfold cur_of. rewrite Nat.Div0.div_0_l. done.
Qed.

Lemma clear_wf_iff_witness :
  ∃ st, write (λ _, 0%Z) small [1; 2; 3; 4; 5]%Z 5 = Ok st ∧ ¬ wf (clear st) ∧
        getReadSize (clear st) = 5.
Proof.
  destruct (write_spec (λ _, 0%Z) small [1; 2; 3; 4; 5]%Z 5 wf_small) as (st & Hw & Hwf & _);
    [simpl; lia|].
  exists st. split; [exact Hw|]. destruct (clear_wf_iff st Hwf) as (_ & _ & Hr & Hiff).
  vm_compute in Hw. injection Hw as <-.
  split; [|exact Hr]. intros Hc. apply Hiff in Hc. vm_compute in Hc. lia.
Defined.

(** Saving a buffer whose cursor is at a block boundary and loading the
    file into another one appends exactly the unread bytes there. *)
Theorem file_roundtrip garbage st target :
  wf st → wf target → m_position st mod m_baseSize st = 0 →
  ∃ data target', writeToFile true st = Ok (Some data) ∧
    readFromFile garbage (Some data) target = Ok (true, target') ∧ wf target' ∧
    data = drop (m_position st) (contents st) ∧
    contents target' = overwrite (m_position target) data (contents target).
Proof.
  intros Hwf Hwt Hal. exists (drop (m_position st) (contents st)).
  destruct (readFromFile_spec garbage target (drop (m_position st) (contents st)) Hwt)
    as (t' & Hr & Hwf' & Hc & _).
  exists t'. split; [by apply writeToFile_spec|]. by split_and!.
Qed.

Lemma file_roundtrip_witness :
  ∃ data target', writeToFile true loaded = Ok (Some data) ∧
    readFromFile (λ _, 0%Z) (Some data) small = Ok (true, target') ∧
    contents target' = [1; 2; 3; 4; 5; 6]%Z.
Proof.
  destruct (file_roundtrip (λ _, 0%Z) loaded small wf_loaded wf_small eq_refl)
    as (data & t' & Hw & Hr & _ & Hd & Hc).
  exists data, t'. split; [exact Hw|]. split; [exact Hr|]. rewrite Hc, Hd. reflexivity.
Defined.
