(* ===== verification/Timer.v ===== *)
(** Timers (sylar/timer.h, sylar/timer.cc): the set of pending timers of a
    [TimerManager], shared with the [Timer] objects its users hold. *)

From stdpp Require Import base numbers list sets gmap option strings tactics sorting.
From Stdlib Require Import ZArith Lia.
From S2P Require Import Prelude StdSet.

(** ** Data *)

(** A callback is named by a number. [addConditionTimer] binds [onTimer] to a
    weak pointer and a callback. *)
Inductive callback : Type :=
| Plain (cb : nat)
| onTimer_bound (weak_cond cb : nat).

(** [onTimer(weak_cond, cb)], and calling any callback: what is really run,
    given which conditions are still alive. *)
Definition onTimer (alive : nat → bool) (weak_cond cb : nat) : option nat :=
  if alive weak_cond then Some cb else None.

Definition call (alive : nat → bool) (c : callback) : option nat :=
  match c with
  | Plain cb => Some cb
  | onTimer_bound weak_cond cb => onTimer alive weak_cond cb
  end.

(** [class Timer]. *)
Record Timer : Type := mkTimer {
  m_recurrring : bool;
  m_ms : Z;
  m_next : Z;
  m_cb : option callback
}.

(** [class TimerManager] with the [Timer] objects, by address, that it and its
    users point to. *)
Record TimerManager : Type := mkManager {
  m_heap : gmap positive Timer;
  m_timers : list positive;
  m_tickled : bool;
  m_previousTime : Z
}.

(** ** Order *)

(** [Timer::Comparator]: deadline first, then address; a null pointer is first.
    A pointer is given as the deadline of its object and its address. *)
Definition Comparator (lhs rhs : option (Z * positive)) : bool :=
  match lhs, rhs with
  | None, None => false
  | None, Some _ => true
  | Some _, None => false
  | Some (lnext, l), Some (rnext, r) =>
    if bool_decide (lnext < rnext)%Z then true
    else if bool_decide (rnext < lnext)%Z then false
    else bool_decide (l < r)%positive
  end.

Definition next_of (heap : gmap positive Timer) (t : positive) : Z :=
  match heap !! t with Some timer => m_next timer | None => 0%Z end.

Definition key (heap : gmap positive Timer) (t : positive) : option (Z * positive) :=
  Some (next_of heap t, t).

Definition timer_lt (heap : gmap positive Timer) (a b : positive) : bool :=
  Comparator (key heap a) (key heap b).

(** ** Operations *)

(** [Timer::Timer(ms, cb, recurring, manager)]; [now] is [GetCurretMS()]. *)
Definition Timer_new (now ms : Z) (cb : option callback) (recurring : bool) : Timer :=
  mkTimer recurring ms (u64 (now + ms)) cb.

Definition TimerManager_new (now : Z) : TimerManager := mkManager ∅ [] false now.

(** [addTimer(timer, lock)]: the new state and whether
    [onTimerInsertedAtFront] is called. *)
Definition addTimer_locked (tm : TimerManager) (t : positive) : TimerManager * bool :=
  let '(it, timers) := set_insert (timer_lt (m_heap tm)) (m_timers tm) t in
  let at_front := bool_decide (it = 0) && negb (m_tickled tm) in
  (mkManager (m_heap tm) timers (at_front || m_tickled tm) (m_previousTime tm), at_front).

(** [addTimer(ms, cb, recurring)]; [t] is the address of the new object. *)
Definition addTimer (tm : TimerManager) (now : Z) (t : positive) (ms : Z)
    (cb : option callback) (recurring : bool) : TimerManager * bool :=
  addTimer_locked (mkManager (<[t := Timer_new now ms cb recurring]> (m_heap tm)) (m_timers tm)
                     (m_tickled tm) (m_previousTime tm)) t.

Definition addConditionTimer (tm : TimerManager) (now : Z) (t : positive) (ms : Z)
    (cb weak_cond : nat) (recurring : bool) : TimerManager * bool :=
  addTimer tm now t ms (Some (onTimer_bound weak_cond cb)) recurring.

Definition set_heap (tm : TimerManager) (heap : gmap positive Timer) (timers : list positive) :
    TimerManager :=
  mkManager heap timers (m_tickled tm) (m_previousTime tm).

(** [Timer::cancel]. *)
Definition cancel (tm : TimerManager) (t : positive) : outcome (bool * TimerManager) :=
  timer ← deref (m_heap tm !! t);
  match m_cb timer with
  | Some _ =>
    let heap := <[t := mkTimer (m_recurrring timer) (m_ms timer) (m_next timer) None]>
                  (m_heap tm) in
    let it := set_find (timer_lt heap) (m_timers tm) t in
    timers ← set_erase (m_timers tm) it;
    mret (true, set_heap tm heap timers)
  | None => mret (false, tm)
  end.

(** [Timer::refresh]. *)
Definition refresh (tm : TimerManager) (now : Z) (t : positive) : outcome (bool * TimerManager) :=
  timer ← deref (m_heap tm !! t);
  match m_cb timer, set_find (timer_lt (m_heap tm)) (m_timers tm) t with
  | Some _, Some it =>
    timers ← set_erase (m_timers tm) (Some it);
    let heap := <[t := mkTimer (m_recurrring timer) (m_ms timer) (u64 (now + m_ms timer))
                         (m_cb timer)]> (m_heap tm) in
    mret (true, set_heap tm heap (set_insert (timer_lt heap) timers t).2)
  | _, _ => mret (false, tm)
  end.

(** [Timer::reset(ms, from_now)]: the result, the new state and whether
    [onTimerInsertedAtFront] is called. *)
Definition reset (tm : TimerManager) (now : Z) (t : positive) (ms : Z) (from_now : bool) :
    outcome (bool * TimerManager * bool) :=
  timer ← deref (m_heap tm !! t);
  if bool_decide (ms = m_ms timer) && negb from_now then mret (true, tm, false) else
  match m_cb timer, set_find (timer_lt (m_heap tm)) (m_timers tm) t with
  | Some _, Some it =>
    timers ← set_erase (m_timers tm) (Some it);
    let start := if from_now then now else u64 (m_next timer - m_ms timer) in
    let heap := <[t := mkTimer (m_recurrring timer) ms (u64 (start + ms)) (m_cb timer)]>
                  (m_heap tm) in
    let '(tm', at_front) := addTimer_locked (set_heap tm heap timers) t in
    mret (true, tm', at_front)
  | _, _ => mret (false, tm, false)
  end.

(** [hasTimer]. *)
Definition hasTimer (tm : TimerManager) : bool :=
  match m_timers tm with [] => false | _ => true end.

(** [getNextTimer]: milliseconds until the first deadline. *)
Definition getNextTimer (tm : TimerManager) (now : Z) : Z * TimerManager :=
  let tm := mkManager (m_heap tm) (m_timers tm) false (m_previousTime tm) in
  match m_timers tm with
  | [] => ((2 ^ 64 - 1)%Z, tm)
  | next :: _ =>
    (if bool_decide (next_of (m_heap tm) next <= now)%Z then 0%Z
     else (next_of (m_heap tm) next - now)%Z, tm)
  end.

(** [detectedClockRollover(now_ms)]: the clock went back by more than an hour.
    The subtraction is unsigned. *)
Definition detectedClockRollover (tm : TimerManager) (now_ms : Z) : bool * TimerManager :=
  (bool_decide (now_ms < m_previousTime tm)%Z &&
   bool_decide (now_ms < u64 (m_previousTime tm - 60 * 60 * 1000))%Z,
   mkManager (m_heap tm) (m_timers tm) (m_tickled tm) now_ms).

(** [while (it != m_timers.end() && ( *it)->m_next == now_ms) ++it]. *)
Fixpoint skip_due (heap : gmap positive Timer) (now_ms : Z) (rest : list positive) : nat :=
  match rest with
  | [] => 0
  | t :: rest =>
    if bool_decide (next_of heap t = now_ms) then S (skip_due heap now_ms rest) else 0
  end.

(** The end of the expired range; [now_addr] is the address of the probe
    [now_timer], anywhere among those of the timers. *)
Definition expired_end (tm : TimerManager) (now_ms : Z) (now_addr : positive) (rollover : bool) :
    nat :=
  let it := if rollover then length (m_timers tm)
            else lower_bound (λ t, Comparator (key (m_heap tm) t) (Some (now_ms, now_addr)))
                   (m_timers tm) in
  it + skip_due (m_heap tm) now_ms (drop it (m_timers tm)).

(** The loop over the expired timers. *)
Fixpoint expire (now_ms : Z) (expired : list positive) (heap : gmap positive Timer)
    (timers : list positive) :
    outcome (list (option callback) * gmap positive Timer * list positive) :=
  match expired with
  | [] => mret ([], heap, timers)
  | t :: expired =>
    timer ← deref (heap !! t);
    '(cbs, heap, timers) ←
      (if m_recurrring timer then
         let heap := <[t := mkTimer true (m_ms timer) (u64 (now_ms + m_ms timer)) (m_cb timer)]>
                       heap in
         expire now_ms expired heap (set_insert (timer_lt heap) timers t).2
       else
         expire now_ms expired
           (<[t := mkTimer false (m_ms timer) (m_next timer) None]> heap) timers);
    mret (m_cb timer :: cbs, heap, timers)
  end.

(** [listExpiredCb(cbs)]: the callbacks appended to [cbs] and the new state. *)
Definition listExpiredCb (tm : TimerManager) (now_ms : Z) (now_addr : positive) :
    outcome (list (option callback) * TimerManager) :=
  match m_timers tm with
  | [] => mret ([], tm)
  | first :: _ =>
    let '(rollover, tm) := detectedClockRollover tm now_ms in
    if negb rollover && bool_decide (now_ms < next_of (m_heap tm) first)%Z then mret ([], tm)
    else
      let it := expired_end tm now_ms now_addr rollover in
      '(cbs, heap, timers) ← expire now_ms (take it (m_timers tm)) (m_heap tm)
                               (drop it (m_timers tm));
      mret (cbs, set_heap tm heap timers)
  end.

(** ** The invariant *)

(** The set is ordered by the current deadlines, points to existing timers, and
    holds every timer that still has a callback. *)
Record timers_ok (heap : gmap positive Timer) (timers : list positive) : Prop := {
  ok_ordered : ordered (timer_lt heap) timers;
  ok_exist t : t ∈ timers → is_Some (heap !! t)
}.

Record tm_inv (tm : TimerManager) : Prop := {
  inv_timers : timers_ok (m_heap tm) (m_timers tm);
  inv_pending t timer : m_heap tm !! t = Some timer → is_Some (m_cb timer) → t ∈ m_timers tm
}.

(** What is due at [now_ms]. *)
Definition due (heap : gmap positive Timer) (now_ms : Z) (t : positive) : Prop :=
  (next_of heap t <= now_ms)%Z.

#[export] Instance due_dec heap now_ms t : Decision (due heap now_ms t).
Proof. unfold due. apply _. Defined.

(** The timers [listExpiredCb] fires. *)
Definition fires (tm : TimerManager) (now_ms : Z) : list positive :=
  if (detectedClockRollover tm now_ms).1 then m_timers tm
  else filter (due (m_heap tm) now_ms) (m_timers tm).

(** What firing does to a timer. *)
Definition after_fire (now_ms : Z) (timer : Timer) : Timer :=
  if m_recurrring timer
  then mkTimer true (m_ms timer) (u64 (now_ms + m_ms timer)) (m_cb timer)
  else mkTimer false (m_ms timer) (m_next timer) None.

Lemma Comparator_strict (K : positive → Z * positive) :
  (∀ t, (K t).2 = t) →
  strict_on (λ a b, Comparator (Some (K a)) (Some (K b))) (λ _, True).
Proof.
  intros HK. split; intros.
  - simpl. destruct (K x). repeat case_bool_decide; try done; lia.
  - simpl in *. destruct (K x), (K y), (K z). repeat case_bool_decide; try done; lia.
  - pose proof (HK x). pose proof (HK y). simpl in *. destruct (K x), (K y). simpl in *. subst.
    repeat case_bool_decide; try done; lia.
Qed.

Lemma timer_lt_strict heap : strict_on (timer_lt heap) (λ _, True).
Proof. by apply (Comparator_strict (λ t, (next_of heap t, t))). Qed.

Lemma all_true {A} (l : list A) : Forall (λ _, True) l.
Proof. by apply Forall_true. Qed.
#[local] Hint Resolve timer_lt_strict all_true : core.

Lemma next_of_insert_ne heap t t' timer : t ≠ t' → next_of (<[t := timer]> heap) t' = next_of heap t'.
Proof. intros. unfold next_of. by rewrite lookup_insert_ne. Qed.

(** A timer outside the set can change without disturbing the set. *)
Lemma ok_insert heap timers t timer :
  timers_ok heap timers → t ∉ timers → timers_ok (<[t := timer]> heap) timers.
Proof.
  intros [Ho He] Hn. split.
  - apply (ordered_ext (timer_lt heap)); [|done]. intros x y Hx Hy.
    unfold timer_lt, key. rewrite !next_of_insert_ne by set_solver. done.
  - intros t' Ht'. rewrite lookup_insert_is_Some'. auto.
Qed.

(** Changing anything but the deadline disturbs nothing. *)
Lemma ok_same_next heap timers t timer :
  timers_ok heap timers → next_of heap t = m_next timer →
  timers_ok (<[t := timer]> heap) timers.
Proof.
  intros [Ho He] Hn.
  assert (∀ x, next_of (<[t := timer]> heap) x = next_of heap x) as Heq.
  { intros x. destruct (decide (t = x)) as [->|]; [|by apply next_of_insert_ne].
    unfold next_of at 1. by rewrite lookup_insert_eq. }
  split.
  - apply (ordered_ext (timer_lt heap)); [|done]. intros. unfold timer_lt, key. by rewrite !Heq.
  - intros t' Ht'. rewrite lookup_insert_is_Some'. auto.
Qed.

(** Inserting a timer that is not in the set. *)
Lemma ok_set_insert heap timers t :
  timers_ok heap timers → t ∉ timers → is_Some (heap !! t) →
  let r := set_insert (timer_lt heap) timers t in
  timers_ok heap r.2 ∧ (∀ x, x ∈ r.2 ↔ x = t ∨ x ∈ timers) ∧
  (r.1 = 0 ↔ ∀ x, x ∈ timers → timer_lt heap t x = true).
Proof.
  intros [Ho He] Hn Ht r.
  destruct (set_insert_new (timer_lt heap) (λ _, True) timers t) as (Ho' & Hin & Hf); auto.
  split_and!; [|done|done]. split; [done|]. intros x [->|Hx]%Hin; auto.
Qed.

(** Erasing a timer of the set. *)
Lemma ok_set_erase heap timers t :
  timers_ok heap timers → t ∈ timers →
  ∃ i, set_find (timer_lt heap) timers t = Some i ∧ timers_ok heap (delete i timers) ∧
       ∀ x, x ∈ delete i timers ↔ x ∈ timers ∧ x ≠ t.
Proof.
  intros [Ho He] Ht.
  destruct (set_find_in (timer_lt heap) (λ _, True) timers t) as (i & Hf & Hi); auto.
  destruct (set_delete_spec (timer_lt heap) (λ _, True) timers i t) as [Ho' Hin]; auto.
  exists i. split_and!; [done| |done]. split; [done|]. intros x [Hx _]%Hin. auto.
Qed.

Lemma ok_take_drop heap timers n :
  timers_ok heap timers → timers_ok heap (drop n timers) ∧
  ∀ x, x ∈ take n timers → x ∉ drop n timers.
Proof.
  intros [Ho He].
  pose proof (ordered_NoDup (timer_lt heap) (λ _, True) timers ltac:(auto) ltac:(auto) Ho) as Hnd.
  rewrite <-(take_drop n timers) in Ho, Hnd. apply ordered_app in Ho as (_ & Ho & _).
  apply NoDup_app in Hnd as (_ & Hd & _).
  split; [|done]. split; [done|]. intros x Hx. by apply He, (subseteq_drop n).
Qed.

(** ** Firing *)

Definition cb_of (heap : gmap positive Timer) (t : positive) : option callback :=
  heap !! t ≫= m_cb.

Definition recurs (heap : gmap positive Timer) (t : positive) : Prop :=
  m_recurrring <$> heap !! t = Some true.

Lemma skip_due_lower_bound heap now_ms l :
  Forall (λ t, (now_ms <= next_of heap t)%Z) l →
  skip_due heap now_ms l = lower_bound (λ t, bool_decide (due heap now_ms t)) l.
Proof.
  induction 1 as [|t l Ht _ IH]; simpl; [done|]. unfold due at 1. rewrite IH.
  repeat case_bool_decide; done || lia.
Qed.

(** The probe's address does not matter: the range ends after the last timer
    that is due. *)
Lemma expired_range heap now_ms now_addr l :
  ordered (timer_lt heap) l →
  let it := lower_bound (λ t, Comparator (key heap t) (Some (now_ms, now_addr))) l in
  it + skip_due heap now_ms (drop it l) = lower_bound (λ t, bool_decide (due heap now_ms t)) l.
Proof.
  cbv zeta. induction 1 as [|t l Ho IH Hf]; [done|]. cbn [lower_bound].
  destruct (Comparator _ _) eqn:E.
  - cbn [drop]. rewrite Nat.add_succ_l, IH. rewrite bool_decide_true; [done|].
    unfold due. simpl in E. repeat case_bool_decide; done || lia.
  - rewrite drop_0, skip_due_lower_bound; [done|].
    assert (now_ms <= next_of heap t)%Z by (simpl in E; repeat case_bool_decide; done || lia).
    constructor; [done|]. eapply Forall_impl; [done|]. intros x Hx. unfold timer_lt in Hx.
    simpl in Hx. repeat case_bool_decide; done || lia.
Qed.

Lemma expired_split tm now_ms now_addr :
  timers_ok (m_heap tm) (m_timers tm) →
  let '(rollover, _) := detectedClockRollover tm now_ms in
  let it := expired_end tm now_ms now_addr rollover in
  take it (m_timers tm) = fires tm now_ms ∧
  ∀ t, t ∈ drop it (m_timers tm) ↔ t ∈ m_timers tm ∧ t ∉ fires tm now_ms.
Proof.
  intros [Ho He]. destruct (detectedClockRollover tm now_ms) as [rollover tm'] eqn:Er.
  unfold fires, expired_end. rewrite Er. cbn [fst]. cbv zeta. destruct rollover; cbn iota.
  - rewrite take_ge, drop_ge by lia. split; [done|]. set_solver.
  - rewrite (expired_range (m_heap tm) now_ms now_addr (m_timers tm) Ho).
    destruct (lower_bound_filter (timer_lt (m_heap tm)) (λ _, True)
      (λ t, bool_decide (due (m_heap tm) now_ms t)) (m_timers tm)) as [-> ->]; auto.
    { intros x y _ _ Hxy Hy%bool_decide_eq_true. apply bool_decide_eq_true.
      unfold due, timer_lt in *. simpl in Hxy. repeat case_bool_decide; done || lia. }
    split; [by apply list_filter_iff; intros; rewrite bool_decide_eq_true|].
    intros t. rewrite !list_elem_of_filter, bool_decide_eq_false. tauto.
Qed.

(** The loop fires each timer of the range once. *)
Lemma expire_spec now_ms expired : ∀ heap timers,
  NoDup expired → (∀ t, t ∈ expired → is_Some (heap !! t)) →
  (∀ t, t ∈ expired → t ∉ timers) → timers_ok heap timers →
  ∃ heap' timers',
    expire now_ms expired heap timers = Ok (cb_of heap <$> expired, heap', timers') ∧
    timers_ok heap' timers' ∧
    (∀ t, heap' !! t = if decide (t ∈ expired) then after_fire now_ms <$> heap !! t else heap !! t) ∧
    (∀ t, t ∈ timers' ↔ t ∈ timers ∨ t ∈ expired ∧ recurs heap t).
Proof.
  induction expired as [|t expired IH]; intros heap timers Hnd Hex Hdis Hok.
  - exists heap, timers. split_and!; [done|done| |set_solver].
    intros t. by rewrite decide_False by apply not_elem_of_nil.
  - cbn [expire]. apply NoDup_cons in Hnd as [Hnt Hnd].
    destruct (Hex t) as [timer Ht]; [by left|]. rewrite Ht. osimpl.
    assert (t ∉ timers) as Htn by (apply Hdis; by left).
    set (heap1 := <[t := after_fire now_ms timer]> heap).
    set (timers1 := if m_recurrring timer then (set_insert (timer_lt heap1) timers t).2 else timers).
    assert (timers_ok heap1 timers) as Hok1 by by apply ok_insert.
    assert (timers_ok heap1 timers1 ∧
      ∀ x, x ∈ timers1 ↔ x ∈ timers ∨ x = t ∧ m_recurrring timer = true) as [Hok2 Hin1].
    { subst timers1. destruct (m_recurrring timer); [|split; [done|naive_solver]].
      destruct (ok_set_insert heap1 timers t) as (Hok2 & Hin & _); [done|done| |].
      - unfold heap1. rewrite lookup_insert_eq. by eexists.
      - split; [done|]. intros x. rewrite Hin. naive_solver. }
    destruct (IH heap1 timers1) as (heap' & timers' & Hrun & Hok' & Hheap' & Hin').
    + done.
    + intros x Hx. unfold heap1. rewrite lookup_insert_is_Some'. right. apply Hex. by right.
    + intros x Hx [Hx'|[-> _]]%Hin1; [|done]. apply (Hdis x); [by right|done].
    + done.
    + exists heap', timers'.
      assert (∀ x, x ≠ t → heap1 !! x = heap !! x) as Hne
        by (intros; unfold heap1; by rewrite lookup_insert_ne).
      split_and!; [|done| |].
      * assert (cb_of heap1 <$> expired = cb_of heap <$> expired) as Hcb.
        { apply list_fmap_ext. intros i x Hx. unfold cb_of. rewrite Hne; [done|].
          intros ->. by apply list_elem_of_lookup_2 in Hx. }
        assert (cb_of heap t = m_cb timer) as Hcbt by (unfold cb_of; by rewrite Ht).
        rewrite fmap_cons, <-Hcb, Hcbt.
        unfold timers1, heap1, after_fire in Hrun |- *. revert Hrun.
        destruct (m_recurrring timer); intros ->; done.
      * intros x. rewrite Hheap'. destruct (decide (x = t)) as [->|Hxt].
        -- rewrite (decide_False (P := t ∈ expired)) by done. rewrite decide_True by by left.
           unfold heap1. rewrite lookup_insert_eq, Ht. done.
        -- rewrite (Hne x Hxt). destruct (decide (x ∈ expired)).
           ++ by rewrite decide_True by by right.
           ++ by rewrite decide_False by set_solver.
      * intros x. rewrite Hin', Hin1, elem_of_cons. unfold recurs.
        destruct (decide (x = t)) as [->|Hxt]; [|rewrite (Hne x Hxt); tauto].
        rewrite Ht. simpl. assert (Some (m_recurrring timer) = Some true ↔ m_recurrring timer = true)
          by (split; congruence). tauto.
Qed.

(** The state after the timers [fired] went off at [now_ms]. *)
Record fired_state (tm : TimerManager) (fired : list positive) (now_ms : Z)
    (tm' : TimerManager) : Prop := {
  fired_heap t : m_heap tm' !! t = if decide (t ∈ fired)
                                   then after_fire now_ms <$> m_heap tm !! t
                                   else m_heap tm !! t;
  fired_set t : t ∈ m_timers tm' ↔ t ∈ m_timers tm ∧ (t ∈ fired → recurs (m_heap tm) t)
}.

Lemma fired_none tm now_ms tm' :
  m_heap tm' = m_heap tm → m_timers tm' = m_timers tm → fired_state tm [] now_ms tm'.
Proof.
  intros Hh Ht. split; intros t.
  - rewrite decide_False by apply not_elem_of_nil. by rewrite Hh.
  - rewrite Ht. set_solver.
Qed.

Lemma fires_subset tm now_ms t : t ∈ fires tm now_ms → t ∈ m_timers tm.
Proof. unfold fires. case_match; [done|]. by intros [_ ?]%list_elem_of_filter. Qed.

(** Nothing fires before the first deadline. *)
Lemma fires_early tm now_ms first rest :
  timers_ok (m_heap tm) (m_timers tm) → m_timers tm = first :: rest →
  (detectedClockRollover tm now_ms).1 = false → (now_ms < next_of (m_heap tm) first)%Z →
  fires tm now_ms = [].
Proof.
  intros [Ho _] Etm Hro Hlt. unfold fires. rewrite Hro. apply elem_of_nil_inv.
  intros t [Hdue Ht]%list_elem_of_filter. rewrite Etm in *.
  apply StronglySorted_inv in Ho as [_ Hf]. rewrite Forall_forall in Hf.
  unfold due in Hdue. apply elem_of_cons in Ht as [->|Ht]; [lia|]. specialize (Hf t Ht).
  unfold timer_lt in Hf. simpl in Hf. repeat case_bool_decide; done || lia.
Qed.

Lemma fired_inv tm now_ms tm' :
  tm_inv tm → timers_ok (m_heap tm') (m_timers tm') →
  fired_state tm (fires tm now_ms) now_ms tm' → tm_inv tm'.
Proof.
  intros [Hok Hpend] Hok' [Hheap Hset]. split; [done|]. intros t timer Ht Hcb.
  apply Hset. rewrite Hheap in Ht. case_decide as Hf; [|split; [by eapply Hpend|done]].
  apply fmap_Some in Ht as (timer0 & Ht0 & ->). unfold after_fire in Hcb.
  split; [by apply fires_subset in Hf|]. intros _. unfold recurs. rewrite Ht0. simpl.
  destruct (m_recurrring timer0); [done|]. by destruct Hcb.
Qed.

(** The part of [listExpiredCb] that erases the range and fires it. *)
Lemma expire_range tm now_ms now_addr :
  timers_ok (m_heap tm) (m_timers tm) →
  let it := expired_end tm now_ms now_addr (detectedClockRollover tm now_ms).1 in
  ∃ heap' timers', expire now_ms (take it (m_timers tm)) (m_heap tm) (drop it (m_timers tm)) =
      Ok (cb_of (m_heap tm) <$> fires tm now_ms, heap', timers') ∧
    timers_ok heap' timers' ∧
    ∀ tm', m_heap tm' = heap' → m_timers tm' = timers' →
           fired_state tm (fires tm now_ms) now_ms tm'.
Proof.
  intros Hok it. pose proof (expired_split tm now_ms now_addr Hok) as Hsplit.
  destruct (ok_take_drop (m_heap tm) (m_timers tm) it Hok) as [Hok1 Hdisj].
  destruct (detectedClockRollover tm now_ms) as [rollover tm1]. cbn [fst] in *.
  fold it in Hsplit. destruct Hsplit as [Htake Hdrop]. rewrite Htake in *.
  destruct (expire_spec now_ms (fires tm now_ms) (m_heap tm) (drop it (m_timers tm)))
    as (heap' & timers' & -> & Hok' & Hheap' & Hin').
  - rewrite <-Htake. eapply sublist_NoDup; [|apply sublist_take].
    eapply (ordered_NoDup (timer_lt (m_heap tm)) (λ _, True)); auto. by apply ok_ordered.
  - intros t Ht. by apply (ok_exist _ _ Hok), (fires_subset tm now_ms).
  - done.
  - done.
  - exists heap', timers'. split_and!; [done|done|]. intros tm' Hh Ht. split; intros t; [by rewrite Hh|].
    rewrite Ht, Hin', Hdrop. pose proof (fires_subset tm now_ms t).
    destruct (decide (t ∈ fires tm now_ms)); tauto.
Qed.

(** [listExpiredCb] hands out the callbacks of the timers that fire, in order,
    rearms the recurring ones and drops the others. *)
Lemma listExpiredCb_spec tm now_ms now_addr :
  tm_inv tm →
  ∃ tm', listExpiredCb tm now_ms now_addr = Ok (cb_of (m_heap tm) <$> fires tm now_ms, tm') ∧
    tm_inv tm' ∧ fired_state tm (fires tm now_ms) now_ms tm'.
Proof.
  intros Hinv. pose proof (inv_timers _ Hinv) as Hok. unfold listExpiredCb.
  destruct (m_timers tm) as [|first rest] eqn:Etm.
  { assert (fires tm now_ms = []) as -> by (unfold fires; rewrite Etm; by case_match).
    exists tm. split_and!; [done|done|by apply fired_none]. }
  pose proof (expire_range tm now_ms now_addr) as Hexp. rewrite Etm in Hexp.
  pose proof (fires_early tm now_ms first rest) as Hearly. rewrite Etm in Hearly.
  unfold detectedClockRollover in *. cbn [fst m_heap m_timers] in *.
  set (rollover := _ && _) in *. set (tm1 := mkManager _ _ _ now_ms) in *.
  destruct (negb rollover && _) eqn:E.
  - apply andb_true_iff in E as [Hro%negb_true_iff Hlt%bool_decide_eq_true].
    rewrite Hearly by done. exists tm1. split_and!; [done| |by apply fired_none].
    by destruct Hinv.
  - rewrite Etm. change (expired_end tm1) with (expired_end tm).
    destruct (Hexp Hok) as (heap' & timers' & -> & Hok' & Hst). osimpl.
    eexists. split; [done|]. split; [|by apply Hst].
    by apply (fired_inv tm now_ms); [..|apply Hst].
Qed.

(** ** The other operations *)

Lemma addTimer_spec tm now t ms cb recurring :
  tm_inv tm → m_heap tm !! t = None →
  let r := addTimer tm now t ms cb recurring in
  tm_inv r.1 ∧ m_heap r.1 = <[t := Timer_new now ms cb recurring]> (m_heap tm) ∧
  (∀ x, x ∈ m_timers r.1 ↔ x = t ∨ x ∈ m_timers tm).
Proof.
  intros [Hok Hpend] Hfresh r. subst r. unfold addTimer, addTimer_locked. simpl.
  set (heap := <[t := _]> (m_heap tm)).
  assert (t ∉ m_timers tm) as Hnt.
  { intros Hin. destruct (ok_exist _ _ Hok t Hin). congruence. }
  destruct (ok_set_insert heap (m_timers tm) t) as (Hok' & Hin & _); [by apply ok_insert|done| |].
  { unfold heap. rewrite lookup_insert_eq. by eexists. }
  destruct (set_insert _ _ _) as [it timers]. simpl in *. split_and!; [|done|done].
  split; [done|]. simpl. intros x timer Hx Hcb. apply Hin.
  destruct (decide (t = x)) as [->|Hne]; [by left|right].
  unfold heap in Hx. rewrite lookup_insert_ne in Hx by done. by eapply Hpend.
Qed.

Lemma cancel_spec tm t timer :
  tm_inv tm → m_heap tm !! t = Some timer →
  ∃ tm', cancel tm t = Ok (bool_decide (is_Some (m_cb timer)), tm') ∧ tm_inv tm' ∧
    (m_cb timer = None → tm' = tm) ∧
    (is_Some (m_cb timer) →
       m_heap tm' = <[t := mkTimer (m_recurrring timer) (m_ms timer) (m_next timer) None]>
                      (m_heap tm) ∧
       ∀ x, x ∈ m_timers tm' ↔ x ∈ m_timers tm ∧ x ≠ t).
Proof.
  intros [Hok Hpend] Ht. unfold cancel. rewrite Ht. osimpl.
  destruct (m_cb timer) as [cb|] eqn:Ecb.
  2: { exists tm. rewrite bool_decide_false by (by intros []). by split_and!. }
  set (heap := <[t := _]> (m_heap tm)).
  assert (timers_ok heap (m_timers tm)) as Hok1.
  { apply ok_same_next; [done|]. unfold next_of. by rewrite Ht. }
  destruct (ok_set_erase heap (m_timers tm) t Hok1) as (i & -> & Hok' & Hin).
  { eapply Hpend; [done|]. by rewrite Ecb. }
  osimpl. eexists. rewrite bool_decide_true by (by eexists). split; [done|]. simpl.
  split_and!; [|done|done]. split; [done|]. simpl. intros x timer' Hx Hcb. apply Hin.
  unfold heap in Hx. destruct (decide (t = x)) as [->|Hne].
  - rewrite lookup_insert_eq in Hx. injection Hx as <-. by destruct Hcb.
  - rewrite lookup_insert_ne in Hx by done. split; [by eapply Hpend|done].
Qed.

(** Moving a pending timer: erase, change the deadline, insert again. *)
Lemma move_spec tm t timer i ms next :
  tm_inv tm → m_heap tm !! t = Some timer →
  set_find (timer_lt (m_heap tm)) (m_timers tm) t = Some i →
  let heap := <[t := mkTimer (m_recurrring timer) ms next (m_cb timer)]> (m_heap tm) in
  let timers := (set_insert (timer_lt heap) (delete i (m_timers tm)) t).2 in
  t ∈ m_timers tm → timers_ok heap timers ∧ (∀ x, x ∈ timers ↔ x ∈ m_timers tm) ∧
  ∀ tm', m_heap tm' = heap → m_timers tm' = timers → tm_inv tm'.
Proof.
  intros [Hok Hpend] Ht Hfind heap timers Hin.
  destruct (ok_set_erase (m_heap tm) (m_timers tm) t Hok Hin) as (i' & Hf' & Hok1 & Hdel).
  rewrite Hf' in Hfind. injection Hfind as ->.
  destruct (ok_set_insert heap (delete i (m_timers tm)) t) as (Hok' & Hins & _).
  { apply ok_insert; [done|]. rewrite Hdel. tauto. }
  { rewrite Hdel. tauto. }
  { unfold heap. rewrite lookup_insert_eq. by eexists. }
  assert (∀ x, x ∈ timers ↔ x ∈ m_timers tm) as Hmem.
  { intros x. unfold timers. rewrite Hins, Hdel. destruct (decide (x = t)) as [->|]; tauto. }
  split_and!; [done|done|]. intros tm' Hh Hs. split; [by rewrite Hh, Hs|].
  intros x timer' Hx Hcb. rewrite Hs. apply Hmem. rewrite Hh in Hx. unfold heap in Hx.
  destruct (decide (t = x)) as [->|Hne]; [done|].
  rewrite lookup_insert_ne in Hx by done. by eapply Hpend.
Qed.

Lemma pending_find tm t timer :
  tm_inv tm → m_heap tm !! t = Some timer → is_Some (m_cb timer) →
  t ∈ m_timers tm ∧ ∃ i, set_find (timer_lt (m_heap tm)) (m_timers tm) t = Some i.
Proof.
  intros [Hok Hpend] Ht Hcb. assert (t ∈ m_timers tm) as Hin by by eapply Hpend.
  split; [done|]. destruct (ok_set_erase _ _ t Hok Hin) as (i & Hf & _). by exists i.
Qed.

Lemma refresh_spec tm now t timer :
  tm_inv tm → m_heap tm !! t = Some timer →
  ∃ tm', refresh tm now t = Ok (bool_decide (is_Some (m_cb timer)), tm') ∧ tm_inv tm' ∧
    (∀ x, x ∈ m_timers tm' ↔ x ∈ m_timers tm) ∧
    m_heap tm' = if bool_decide (is_Some (m_cb timer))
                 then <[t := mkTimer (m_recurrring timer) (m_ms timer) (u64 (now + m_ms timer))
                              (m_cb timer)]> (m_heap tm)
                 else m_heap tm.
Proof.
  intros Hinv Ht. unfold refresh. rewrite Ht. osimpl.
  destruct (m_cb timer) as [cb|] eqn:Ecb.
  2: { exists tm. by rewrite bool_decide_false by (by intros []). }
  destruct (pending_find tm t timer Hinv Ht) as [Hin [i Hi]]; [by rewrite Ecb|].
  rewrite Hi, bool_decide_true by (by eexists). osimpl. eexists. split; [done|].
  destruct (move_spec tm t timer i (m_ms timer) (u64 (now + m_ms timer)) Hinv Ht Hi Hin)
    as (_ & Hmem & Hinv'). rewrite Ecb in *. split_and!; [by apply Hinv'|done|done].
Qed.

Lemma reset_spec tm now t ms from_now timer :
  tm_inv tm → m_heap tm !! t = Some timer →
  ∃ b tm' front, reset tm now t ms from_now = Ok (b, tm', front) ∧ tm_inv tm' ∧
    (∀ x, x ∈ m_timers tm' ↔ x ∈ m_timers tm) ∧
    m_heap tm' =
      if (bool_decide (ms = m_ms timer) && negb from_now) || bool_decide (m_cb timer = None)
      then m_heap tm
      else <[t := mkTimer (m_recurrring timer) ms
                   (u64 ((if from_now then now else u64 (m_next timer - m_ms timer)) + ms))
                   (m_cb timer)]> (m_heap tm).
Proof.
  intros Hinv Ht. unfold reset. rewrite Ht. osimpl.
  destruct (bool_decide (ms = m_ms timer) && negb from_now); [by eexists _, tm, _|].
  destruct (m_cb timer) as [cb|] eqn:Ecb.
  2: { eexists _, tm, _. split; [done|]. by rewrite bool_decide_true. }
  destruct (pending_find tm t timer Hinv Ht) as [Hin [i Hi]]; [by rewrite Ecb|].
  rewrite Hi. osimpl. rewrite bool_decide_false by done. cbn [orb].
  destruct (move_spec tm t timer i ms
    (u64 ((if from_now then now else u64 (m_next timer - m_ms timer)) + ms)) Hinv Ht Hi Hin)
    as (_ & Hmem & Hinv'). rewrite Ecb in *. unfold addTimer_locked. simpl in *.
  destruct (set_insert _ _ _) as [it timers]. simpl in *. eexists _, _, _. split; [done|].
  split_and!; [by apply Hinv'|done|done].
Qed.

(** ** Runs *)

(** One call, by any thread, on a manager and the timers it has handed out;
    each of them holds the manager's write lock from its first access to the
    set to its last, so calls do not overlap. *)
Inductive tstep : TimerManager → TimerManager → Prop :=
| tstep_add tm now t ms cb recurring :
    m_heap tm !! t = None → tstep tm (addTimer tm now t ms cb recurring).1
| tstep_cancel tm t b tm' :
    is_Some (m_heap tm !! t) → cancel tm t = Ok (b, tm') → tstep tm tm'
| tstep_refresh tm now t b tm' :
    is_Some (m_heap tm !! t) → refresh tm now t = Ok (b, tm') → tstep tm tm'
| tstep_reset tm now t ms from_now b tm' front :
    is_Some (m_heap tm !! t) → reset tm now t ms from_now = Ok (b, tm', front) → tstep tm tm'
| tstep_next tm now : tstep tm (getNextTimer tm now).2
| tstep_expire tm now addr cbs tm' : listExpiredCb tm now addr = Ok (cbs, tm') → tstep tm tm'.

Definition reachable (tm : TimerManager) : Prop := ∃ now, rtc tstep (TimerManager_new now) tm.

Lemma getNextTimer_state tm now :
  m_heap (getNextTimer tm now).2 = m_heap tm ∧ m_timers (getNextTimer tm now).2 = m_timers tm.
Proof. unfold getNextTimer. simpl. by destruct (m_timers tm). Qed.

Lemma tstep_inv tm tm' : tm_inv tm → tstep tm tm' → tm_inv tm'.
Proof.
  intros Hinv Hstep. destruct Hstep as [tm1 now t ms cb rc Hf|tm1 t b tm2 [timer Ht] Hr|tm1 now t b tm2 [timer Ht] Hr
    |tm1 now t ms fn b tm2 fr [timer Ht] Hr|tm1 now|tm1 now addr cbs tm2 Hr].
  - by apply addTimer_spec.
  - destruct (cancel_spec tm1 t timer Hinv Ht) as (? & Hr' & ? & _). congruence.
  - destruct (refresh_spec tm1 now t timer Hinv Ht) as (? & Hr' & ? & _). congruence.
  - destruct (reset_spec tm1 now t ms fn timer Hinv Ht) as (? & ? & ? & Hr' & ? & _). congruence.
  - destruct (getNextTimer_state tm1 now) as [Hh Hs]. destruct Hinv. split; by rewrite Hh, Hs.
  - destruct (listExpiredCb_spec tm1 now addr Hinv) as (? & Hr' & ? & _). congruence.
Qed.

Lemma inv_new now : tm_inv (TimerManager_new now).
Proof. split; [split; [constructor|]|]; simpl; [set_solver|]. intros t timer. by rewrite lookup_empty. Qed.

Lemma rtc_inv tm tm' : tm_inv tm → rtc tstep tm tm' → tm_inv tm'.
Proof. intros Hinv. induction 1; [done|]. eauto using tstep_inv. Qed.

Lemma reachable_inv tm : reachable tm → tm_inv tm.
Proof. intros [now Hr]. eapply rtc_inv; [apply inv_new|done]. Qed.

(** A timer that is out of the set with no callback stays so. *)
Definition dead (tm : TimerManager) (t : positive) : Prop :=
  is_Some (m_heap tm !! t) ∧ cb_of (m_heap tm) t = None ∧ t ∉ m_timers tm.

Lemma dead_frame tm tm' t :
  dead tm t → m_heap tm' !! t = m_heap tm !! t → (t ∈ m_timers tm' → t ∈ m_timers tm) → dead tm' t.
Proof. intros (Hs & Hcb & Hn) Hh Hm. unfold dead, cb_of in *. rewrite Hh. naive_solver. Qed.

Lemma tstep_dead tm tm' x : tm_inv tm → dead tm x → tstep tm tm' → dead tm' x.
Proof.
  intros Hinv Hd Hstep. pose proof Hd as ([xt Hxt] & Hcb & Hn).
  assert (m_cb xt = None) as Hxcb by (unfold cb_of in Hcb; by rewrite Hxt in Hcb).
  destruct Hstep as [tm1 now t ms cb rc Hf|tm1 t b tm2 [timer Ht] Hr|tm1 now t b tm2 [timer Ht] Hr
    |tm1 now t ms fn b tm2 fr [timer Ht] Hr|tm1 now|tm1 now addr cbs tm2 Hr].
  - destruct (addTimer_spec tm1 now t ms cb rc Hinv Hf) as (_ & Hh & Hm).
    assert (x ≠ t) by congruence. apply (dead_frame tm1); [done| |rewrite Hm; tauto].
    by rewrite Hh, lookup_insert_ne.
  - destruct (cancel_spec tm1 t timer Hinv Ht) as (tm3 & Hr' & _ & Hno & Hyes).
    assert (tm3 = tm2) as -> by congruence.
    destruct (m_cb timer) eqn:Ecb; [|by rewrite Hno].
    destruct Hyes as [Hh Hm]; [by eexists|]. assert (x ≠ t) by congruence.
    apply (dead_frame tm1); [done| |rewrite Hm; tauto]. by rewrite Hh, lookup_insert_ne.
  - destruct (refresh_spec tm1 now t timer Hinv Ht) as (tm3 & Hr' & _ & Hm & Hh).
    assert (tm3 = tm2) as -> by congruence. apply (dead_frame tm1); [done| |by rewrite Hm].
    rewrite Hh. case_bool_decide as Hc; [|done]. apply lookup_insert_ne. intros ->.
    destruct Hc. congruence.
  - destruct (reset_spec tm1 now t ms fn timer Hinv Ht) as (b' & tm3 & fr' & Hr' & _ & Hm & Hh).
    assert (tm3 = tm2) as -> by congruence. apply (dead_frame tm1); [done| |by rewrite Hm].
    rewrite Hh. destruct (_ || _) eqn:E; [done|]. apply orb_false_iff in E as [_ E].
    apply bool_decide_eq_false in E. apply lookup_insert_ne. congruence.
  - destruct (getNextTimer_state tm1 now) as [Hh Hs].
    apply (dead_frame tm1); [done|by rewrite Hh|by rewrite Hs].
  - destruct (listExpiredCb_spec tm1 now addr Hinv) as (tm3 & Hr' & _ & [Hh Hm]).
    assert (tm3 = tm2) as -> by congruence. apply (dead_frame tm1); [done| |rewrite Hm; tauto].
    rewrite Hh, decide_False; [done|]. by intros ?%fires_subset.
Qed.

Lemma rtc_dead tm tm' x : tm_inv tm → dead tm x → rtc tstep tm tm' → dead tm' x.
Proof.
  intros Hinv Hd Hr. revert Hinv Hd. induction Hr; [done|].
  eauto using tstep_inv, tstep_dead.
Qed.

(** ** Theorems *)

(** C9. However threads interleave calls on a manager, its set stays ordered by
    the deadlines and holds every timer that has a callback, and [cancel],
    [refresh], [reset] and [listExpiredCb] return: none of them erases at the
    end of the set or follows a dangling pointer. *)
Theorem timer_manager_safe tm t timer now ms from_now addr :
  reachable tm → m_heap tm !! t = Some timer →
  tm_inv tm ∧ is_ok (cancel tm t) ∧ is_ok (refresh tm now t) ∧
  is_ok (reset tm now t ms from_now) ∧ is_ok (listExpiredCb tm now addr).
Proof.
  intros Hinv%reachable_inv Ht. split; [done|].
  destruct (cancel_spec tm t timer Hinv Ht) as (? & -> & _).
  destruct (refresh_spec tm now t timer Hinv Ht) as (? & -> & _).
  destruct (reset_spec tm now t ms from_now timer Hinv Ht) as (? & ? & ? & -> & _).
  by destruct (listExpiredCb_spec tm now addr Hinv) as (? & -> & _).
Qed.

(** C10. [listExpiredCb] hands out exactly the callbacks of the timers whose
    deadline has passed (all of them after the clock was set back), in the order
    of the deadlines and wherever its probe is allocated; recurring timers are
    rearmed at [now_ms + m_ms] and stay in the set, the others lose their
    callback and leave it, and no other timer changes. *)
Theorem listExpiredCb_exact tm now_ms now_addr :
  reachable tm →
  ∃ tm', listExpiredCb tm now_ms now_addr = Ok (cb_of (m_heap tm) <$> fires tm now_ms, tm') ∧
    ordered (timer_lt (m_heap tm)) (fires tm now_ms) ∧
    fired_state tm (fires tm now_ms) now_ms tm'.
Proof.
  intros Hinv%reachable_inv.
  destruct (listExpiredCb_spec tm now_ms now_addr Hinv) as (tm' & Hr & _ & Hst).
  exists tm'. split_and!; [done| |done].
  pose proof (inv_timers _ Hinv) as Hok.
  pose proof (expired_split tm now_ms now_addr Hok) as Hsplit.
  destruct (detectedClockRollover tm now_ms). destruct Hsplit as [<- _].
  pose proof (ok_ordered _ _ Hok) as Ho.
  rewrite <-(take_drop (expired_end tm now_ms now_addr b) (m_timers tm)) in Ho.
  by apply ordered_app in Ho as [? _].
Qed.

(** A timer whose [cancel] returned true, and a one-shot timer that fired,
    never fires again, whatever is called afterwards. *)
Theorem no_fire_after tm t tm1 tm2 now :
  reachable tm → is_Some (m_heap tm !! t) →
  (cancel tm t = Ok (true, tm1) ∨
   (∃ at_ms addr cbs, listExpiredCb tm at_ms addr = Ok (cbs, tm1) ∧
      t ∈ fires tm at_ms ∧ ¬ recurs (m_heap tm) t)) →
  rtc tstep tm1 tm2 → t ∉ fires tm2 now.
Proof.
  intros Hinv%reachable_inv [timer Ht] Hcase Hr.
  assert (tm_inv tm1 ∧ dead tm1 t) as [Hinv1 Hd].
  { destruct Hcase as [Hc|(at_ms & addr & cbs & Hl & Hf & Hrec)].
    - destruct (cancel_spec tm t timer Hinv Ht) as (tm3 & Hc' & Hinv3 & _ & Hyes).
      rewrite Hc in Hc'. injection Hc' as Hcb <-. split; [done|].
      symmetry in Hcb. apply bool_decide_eq_true in Hcb.
      destruct (Hyes Hcb) as [Hh Hm]. unfold dead, cb_of. rewrite Hh, lookup_insert_eq, Hm.
      split_and!; [by eexists|done|tauto].
    - destruct (listExpiredCb_spec tm at_ms addr Hinv) as (tm3 & Hl' & Hinv3 & [Hh Hm]).
      assert (tm3 = tm1) as -> by congruence. split; [done|].
      unfold dead, cb_of. rewrite Hh, Hm, decide_True, Ht by done. simpl. unfold after_fire.
      unfold recurs in Hrec. rewrite Ht in Hrec. simpl in Hrec.
      destruct (m_recurrring timer) eqn:Erec; [done|]. split_and!; [by eexists|done|].
      intros [_ Hx]. specialize (Hx Hf). unfold recurs in Hx. rewrite Ht in Hx. simpl in Hx.
      congruence. }
  intros Hf%fires_subset. by destruct (rtc_dead tm1 tm2 t Hinv1 Hd Hr) as (_ & _ & ?).
Qed.

(** [getNextTimer] is the time to wait: unless the clock jumps back, nothing
    fires before that many milliseconds have passed, something fires at that
    very moment, and it is the largest 64-bit number when no timer is set. *)
Theorem getNextTimer_exact tm now :
  reachable tm →
  let w := (getNextTimer tm now).1 in
  if hasTimer tm then
    (0 <= w)%Z ∧
    ∀ later, (now <= later)%Z → (detectedClockRollover tm later).1 = false →
      (fires tm later = [] ↔ (later < now + w)%Z)
  else w = (2 ^ 64 - 1)%Z.
Proof.
  intros Hinv%reachable_inv. unfold getNextTimer, hasTimer. cbn [m_timers m_heap].
  destruct (m_timers tm) as [|first rest] eqn:Etm; [done|]. cbn [fst].
  split; [case_bool_decide; lia|]. intros later Hle Hro. split.
  - intros Hnone. unfold fires in Hnone. rewrite Hro, Etm, filter_cons in Hnone.
    case_decide as Hd; [done|]. unfold due in Hd. case_bool_decide; lia.
  - intros Hlt. apply (fires_early tm later first rest); [apply Hinv|done|done|].
    case_bool_decide; lia.
Qed.

(** [refresh] and [reset] of a pending timer keep it pending and move its
    deadline: to [now + m_ms], to [now + ms], or to the old start plus [ms];
    no other timer changes. *)
Theorem refresh_reset_deadline tm now t timer ms :
  reachable tm → m_heap tm !! t = Some timer → is_Some (m_cb timer) →
  (∃ tm', refresh tm now t = Ok (true, tm') ∧ t ∈ m_timers tm' ∧
     m_heap tm' = <[t := mkTimer (m_recurrring timer) (m_ms timer) (u64 (now + m_ms timer))
                          (m_cb timer)]> (m_heap tm)) ∧
  (∃ b tm' front, reset tm now t ms true = Ok (b, tm', front) ∧ t ∈ m_timers tm' ∧
     m_heap tm' = <[t := mkTimer (m_recurrring timer) ms (u64 (now + ms)) (m_cb timer)]>
                    (m_heap tm)) ∧
  (ms ≠ m_ms timer →
   ∃ b tm' front, reset tm now t ms false = Ok (b, tm', front) ∧ t ∈ m_timers tm' ∧
     m_heap tm' = <[t := mkTimer (m_recurrring timer) ms
                          (u64 (u64 (m_next timer - m_ms timer) + ms)) (m_cb timer)]>
                    (m_heap tm)).
Proof.
  intros Hinv%reachable_inv Ht Hcb.
  destruct (pending_find tm t timer Hinv Ht Hcb) as [Hin _].
  assert (m_cb timer ≠ None) as Hne by (intros Hn; rewrite Hn in Hcb; by destruct Hcb).
  split; [|split].
  - destruct (refresh_spec tm now t timer Hinv Ht) as (tm' & -> & _ & Hm & Hh).
    rewrite bool_decide_true in Hh |- * by done. exists tm'. by rewrite Hm.
  - destruct (reset_spec tm now t ms true timer Hinv Ht) as (b & tm' & fr & -> & _ & Hm & Hh).
    rewrite andb_false_r, bool_decide_false in Hh by done. exists b, tm', fr. by rewrite Hm.
  - intros Hms.
    destruct (reset_spec tm now t ms false timer Hinv Ht) as (b & tm' & fr & -> & _ & Hm & Hh).
    rewrite !bool_decide_false in Hh by done. exists b, tm', fr. by rewrite Hm.
Qed.

(** A manager with a one-shot timer due at 5 and a recurring one due at 3. *)
Definition two_timers : TimerManager :=
  (addTimer (addTimer (TimerManager_new 0) 0 1 5 (Some (Plain 10)) false).1
     0 2 3 (Some (Plain 20)) true).1.

Lemma two_timers_reachable : reachable two_timers.
Proof. exists 0%Z. do 2 (eapply rtc_r; [|by apply tstep_add]). done. Qed.

Lemma timer_manager_safe_witness :
  is_ok (cancel two_timers 1) ∧ is_ok (listExpiredCb two_timers 4 7).
Proof.
  destruct (timer_manager_safe two_timers 1 (Timer_new 0 5 (Some (Plain 10)) false) 4 1 true 7)
    as (_ & Hc & _ & _ & Hl).
  - exact two_timers_reachable.
  - vm_compute. reflexivity.
  - split; [exact Hc|exact Hl].
Defined.

Lemma listExpiredCb_exact_witness :
  ∃ tm', listExpiredCb two_timers 4 7 = Ok ([Some (Plain 20)], tm') ∧
    fired_state two_timers [2%positive] 4 tm'.
Proof.
  destruct (listExpiredCb_exact two_timers 4 7 two_timers_reachable) as (tm' & Hr & _ & Hst).
  exists tm'. split; [exact Hr|exact Hst].
Defined.

Lemma no_fire_after_witness :
  ∃ tm1, cancel two_timers 1 = Ok (true, tm1) ∧ 1%positive ∉ fires tm1 100.
Proof.
  eexists. split; [vm_compute; reflexivity|].
  eapply (no_fire_after two_timers 1 _ _ 100).
  - exact two_timers_reachable.
  - vm_compute. eexists. reflexivity.
  - left. vm_compute. reflexivity.
  - apply rtc_refl.
Defined.

Lemma getNextTimer_exact_witness :
  (getNextTimer two_timers 1).1 = 2%Z ∧ (fires two_timers 2 = [] ↔ (2 < 1 + 2)%Z).
Proof.
  destruct (getNextTimer_exact two_timers 1 two_timers_reachable) as [_ Hw].
  split; [vm_compute; reflexivity|]. apply (Hw 2%Z); [lia|vm_compute; reflexivity].
Defined.

Lemma refresh_reset_deadline_witness :
  ∃ tm', refresh two_timers 4 1 = Ok (true, tm') ∧ next_of (m_heap tm') 1 = 9%Z.
Proof.
  destruct (refresh_reset_deadline two_timers 4 1 (Timer_new 0 5 (Some (Plain 10)) false) 8)
    as [(tm' & Hr & _ & Hh) _].
  - exact two_timers_reachable.
  - vm_compute. reflexivity.
  - eexists. reflexivity.
  - exists tm'. split; [exact Hr|]. rewrite Hh. vm_compute. reflexivity.
Defined.
