(* ===== verification/Fiber.v ===== *)
(** Coroutines (sylar/fiber.h, sylar/fiber.cc): the state a [Fiber] goes
    through when it is switched to, yields and ends. What the context switch
    itself does (swapcontext) is where control goes, which the scheduler's
    program counter models. *)

From stdpp Require Import base numbers list option strings tactics.
From S2P Require Import Prelude.

(** [Fiber::State]. *)
Inductive State : Type := INIT | HOLD | EXEC | TERM | READY | EXCEPT.

#[export] Instance State_eq_dec : EqDecision State.
Proof. solve_decision. Defined.

(** [class Fiber]; [m_stack] says whether it has a stack of its own, which the
    main fiber of a thread has not; [m_done] says whether control is past the
    callback, at the end of [MainFunc]. A callback is named by a number. *)
Record Fiber : Type := mkFiber {
  m_state : State;
  m_cb : option nat;
  m_stack : bool;
  m_done : bool
}.

#[export] Instance Fiber_eq_dec : EqDecision Fiber.
Proof. solve_decision. Defined.

Definition set_state (f : Fiber) (s : State) : Fiber := mkFiber s (m_cb f) (m_stack f) (m_done f).

(** [Fiber::Fiber()]: the main fiber of a thread. *)
Definition Fiber_main : Fiber := mkFiber EXEC None false false.

(** [Fiber::Fiber(cb, stack_size, use_caller)]. *)
Definition Fiber_new (cb : option nat) : Fiber := mkFiber INIT cb true false.

(** [m_state == TERM || m_state == EXCEPT]. *)
Definition ended (s : State) : bool :=
  match s with TERM | EXCEPT => true | _ => false end.

(** [Fiber::~Fiber]: what it asserts. *)
Definition Fiber_destroy (f : Fiber) : outcome unit :=
  if m_stack f then sylar_assert (ended (m_state f) || bool_decide (m_state f = INIT)) "~Fiber"
  else
    _ ← sylar_assert (bool_decide (m_cb f = None)) "~Fiber: cb";
    sylar_assert (bool_decide (m_state f = EXEC)) "~Fiber: state".

(** [Fiber::reset(cb)]. *)
Definition Fiber_reset (f : Fiber) (cb : option nat) : outcome Fiber :=
  _ ← sylar_assert (m_stack f) "reset: stack";
  _ ← sylar_assert (ended (m_state f) || bool_decide (m_state f = INIT)) "reset: state";
  mret (mkFiber INIT cb (m_stack f) false).

(** [Fiber::swapIn], up to the switch. *)
Definition swapIn (f : Fiber) : outcome Fiber :=
  _ ← sylar_assert (bool_decide (m_state f ≠ EXEC)) "swapIn";
  mret (set_state f EXEC).

(** [Fiber::call], up to the switch. *)
Definition Fiber_call (f : Fiber) : Fiber := set_state f EXEC.

(** [Fiber::YieldToReady] and [Fiber::YieldToHold], up to the switch. *)
Definition YieldToReady (f : Fiber) : outcome Fiber :=
  _ ← sylar_assert (bool_decide (m_state f = EXEC)) "YieldToReady";
  mret (set_state f READY).

Definition YieldToHold (f : Fiber) : outcome Fiber :=
  _ ← sylar_assert (bool_decide (m_state f = EXEC)) "YieldToHold";
  mret f.

(** How a callback ends: it returns, throws a [std::exception], or throws
    something else. *)
Inductive ending : Type := Returned | Threw_exception | Threw_other.

(** [Fiber::MainFunc] once the callback has ended ([CallerMainFunc] does the
    same); [catch (...)] does not touch the state. *)
Definition MainFunc_end (f : Fiber) (e : ending) : Fiber :=
  match e with
  | Returned => mkFiber TERM None (m_stack f) true
  | Threw_exception => mkFiber EXCEPT (m_cb f) (m_stack f) true
  | Threw_other => mkFiber (m_state f) (m_cb f) (m_stack f) true
  end.

Lemma swapIn_ok f : m_state f ≠ EXEC → swapIn f = Ok (set_state f EXEC).
Proof. intros. unfold swapIn. by rewrite bool_decide_true. Qed.

Lemma swapIn_throws f : m_state f = EXEC → swapIn f = Throw (assertion_failed "swapIn").
Proof. intros. unfold swapIn. by rewrite bool_decide_false by naive_solver. Qed.

Lemma Fiber_reset_ok f cb :
  m_stack f = true → ended (m_state f) || bool_decide (m_state f = INIT) = true →
  Fiber_reset f cb = Ok (mkFiber INIT cb true false).
Proof. intros Hs He. unfold Fiber_reset. by rewrite He, Hs. Qed.
