(* ===== verification/FiberContext.v ===== *)
(** The switches of fibers on one thread (sylar/fiber.cc and the thread's variables of
    sylar/scheduler.cc): which code runs, what [Fiber::GetThis] says, and what the
    saved contexts resume. *)

From Stdlib Require Import ZArith Lia.
From stdpp Require Import base numbers gmap fin_map_dom option strings tactics sets relations list.
From S2P Require Import Prelude Fiber.

(** What runs: the thread's own code, or the code on the stack of a fiber. *)
Abbreviation execution := (option nat).

(** A fiber object: its state, the execution that its [m_ctx] resumes, and [m_id]. *)
Record object : Type := mkObject { o_fiber : Fiber; o_ctx : execution; o_id : nat }.

(** A thread: what runs on it, its variables, the fibers and the two counters. *)
Record thread : Type := mkThread {
  exec : execution;
  t_fiber : option nat;
  t_threadFiber : option nat;
  t_scheduler_fiber : option nat;
  objs : gmap nat object;
  s_fiber_id : nat;
  s_fiber_count : Z
}.

Definition thread_new : thread := mkThread None None None None ∅ 0 0.

(** [SetThis(fiber)]. *)
Definition SetThis (th : thread) (f : option nat) : thread :=
  mkThread (exec th) f (t_threadFiber th) (t_scheduler_fiber th) (objs th) (s_fiber_id th) (s_fiber_count th).

Definition set_objs (th : thread) (m : gmap nat object) : thread :=
  mkThread (exec th) (t_fiber th) (t_threadFiber th) (t_scheduler_fiber th) m (s_fiber_id th) (s_fiber_count th).

Definition set_fiber (th : thread) (p : nat) (f : Fiber) : thread :=
  set_objs th (alter (λ o, mkObject f (o_ctx o) (o_id o)) p (objs th)).

(** [swapcontext(&save->m_ctx, &load->m_ctx)]. *)
Definition swapcontext (th : thread) (save load : nat) : outcome thread :=
  _ ← deref (objs th !! save);
  let m := alter (λ o, mkObject (o_fiber o) (exec th) (o_id o)) save (objs th) in
  l ← deref (m !! load);
  mret (mkThread (o_ctx l) (t_fiber th) (t_threadFiber th) (t_scheduler_fiber th) m (s_fiber_id th) (s_fiber_count th)).

(** [Fiber::Fiber()] at the address [p]. *)
Definition main_new (th : thread) (p : nat) : thread :=
  mkThread (exec th) (Some p) (t_threadFiber th) (t_scheduler_fiber th)
    (<[p := mkObject Fiber_main (exec th) 0]> (objs th)) (s_fiber_id th) (s_fiber_count th + 1).

(** [Fiber::Fiber(cb, stack_size, use_caller)] at the address [p]. *)
Definition object_new (th : thread) (p : nat) (cb : option nat) : thread :=
  mkThread (exec th) (t_fiber th) (t_threadFiber th) (t_scheduler_fiber th)
    (<[p := mkObject (Fiber_new cb) (Some p) (S (s_fiber_id th))]> (objs th)) (S (s_fiber_id th)) (s_fiber_count th + 1).

(** [Fiber::GetThis()]; [p] is where a main fiber is made if there is none. *)
Definition GetThis (th : thread) (p : nat) : outcome (nat * thread) :=
  match t_fiber th with
  | Some f => mret (f, th)
  | None =>
    let th := main_new th p in
    _ ← sylar_assert (bool_decide (t_fiber th = Some p)) "t_fiber == main_fiber";
    mret (p, mkThread (exec th) (t_fiber th) (Some p) (t_scheduler_fiber th) (objs th) (s_fiber_id th) (s_fiber_count th))
  end.

(** [Fiber::GetFiberId()] and [Fiber::TotalFibers()]. *)
Definition GetFiberId (th : thread) : outcome nat :=
  match t_fiber th with
  | Some f => o ← deref (objs th !! f); mret (o_id o)
  | None => mret 0
  end.

Definition TotalFibers (th : thread) : Z := s_fiber_count th.

(** [swapIn()] and [swapOut()], with the scheduler's fiber of the thread. *)
Definition swap_in (th : thread) (p : nat) : outcome thread :=
  let th := SetThis th (Some p) in
  o ← deref (objs th !! p);
  f ← swapIn (o_fiber o);
  m ← deref (t_scheduler_fiber th);
  swapcontext (set_fiber th p f) m p.

Definition swap_out (th : thread) (p : nat) : outcome thread :=
  let th := SetThis th (t_scheduler_fiber th) in
  m ← deref (t_scheduler_fiber th);
  swapcontext th p m.

(** [call()] and [back()], with the main fiber of the thread. *)
Definition call (th : thread) (p : nat) : outcome thread :=
  let th := SetThis th (Some p) in
  o ← deref (objs th !! p);
  m ← deref (t_threadFiber th);
  swapcontext (set_fiber th p (Fiber_call (o_fiber o))) m p.

Definition back (th : thread) (p : nat) : outcome thread :=
  let th := SetThis th (t_threadFiber th) in
  m ← deref (t_threadFiber th);
  swapcontext th p m.

(** [YieldToReady()] and [YieldToHold()] in a fiber. *)
Definition yield_to (state : Fiber → outcome Fiber) (th : thread) (p : nat) : outcome thread :=
  '(cur, th) ← GetThis th p;
  o ← deref (objs th !! cur);
  f ← state (o_fiber o);
  swap_out (set_fiber th cur f) cur.

(** The end of [MainFunc] and of [CallerMainFunc]; [cur] is the fiber that [GetThis]
    gave at its start. *)
Definition main_end (switch : thread → nat → outcome thread) (th : thread) (cur : nat) (e : ending) : outcome thread :=
  o ← deref (objs th !! cur);
  switch (set_fiber th cur (MainFunc_end (o_fiber o) e)) cur.

(** [reset(cb)]. *)
Definition object_reset (th : thread) (p : nat) (cb : option nat) : outcome thread :=
  o ← deref (objs th !! p);
  f ← Fiber_reset (o_fiber o) cb;
  mret (set_objs th (<[p := mkObject f (Some p) (o_id o)]> (objs th))).

(** [~Fiber()]. *)
Definition object_destroy (th : thread) (p : nat) : outcome thread :=
  o ← deref (objs th !! p);
  _ ← Fiber_destroy (o_fiber o);
  let this := if negb (m_stack (o_fiber o)) && bool_decide (t_fiber th = Some p) then None else t_fiber th in
  mret (mkThread (exec th) this (t_threadFiber th) (t_scheduler_fiber th) (delete p (objs th)) (s_fiber_id th)
          (s_fiber_count th - 1)).

Definition set_scheduler (th : thread) (p : nat) : thread :=
  mkThread (exec th) (t_fiber th) (t_threadFiber th) (Some p) (objs th) (s_fiber_id th) (s_fiber_count th).

(** The start of [Scheduler::run] on a thread of the pool. *)
Definition run_start (th : thread) (p : nat) : outcome thread :=
  '(m, th) ← GetThis th p;
  mret (set_scheduler th m).

(** The part of the constructor of [Scheduler] that uses the caller's thread. *)
Definition caller_start (th : thread) (p r : nat) : outcome thread :=
  '(_, th) ← GetThis th p;
  mret (set_scheduler (object_new th r (Some 0)) r).

(** The code of a fiber object: its own stack, or the thread's. *)
Definition home (p : nat) (stack : bool) : execution := if stack then Some p else None.

(** Who calls what: the scheduler's fiber runs the fibers that can run, a fiber that is
    not the scheduler's yields and ends, the thread's own code calls the root fiber. *)
Inductive switch_step (th : thread) : thread → Prop :=
| sw_this p q th' : objs th !! p = None → GetThis th p = Ok (q, th') → switch_step th th'
| sw_new p cb : objs th !! p = None → switch_step th (object_new th p cb)
| sw_run p th' : exec th = None → t_scheduler_fiber th = None → objs th !! p = None →
    run_start th p = Ok th' → switch_step th th'
| sw_caller p r th' : exec th = None → t_scheduler_fiber th = None → objs th !! p = None → objs th !! r = None → p ≠ r →
    caller_start th p r = Ok th' → switch_step th th'
| sw_in m om p op th' : t_scheduler_fiber th = Some m → objs th !! m = Some om → home m (m_stack (o_fiber om)) = exec th →
    p ≠ m → objs th !! p = Some op → m_stack (o_fiber op) = true → ended (m_state (o_fiber op)) = false →
    swap_in th p = Ok th' → switch_step th th'
| sw_yield state p th' : state = YieldToReady ∨ state = YieldToHold → exec th = Some p →
    t_scheduler_fiber th ≠ Some p → yield_to state th p = Ok th' → switch_step th th'
| sw_end p e th' : exec th = Some p → t_scheduler_fiber th ≠ Some p →
    main_end swap_out th p e = Ok th' → switch_step th th'
| sw_call r o th' : exec th = None → t_scheduler_fiber th = Some r → objs th !! r = Some o →
    m_stack (o_fiber o) = true → call th r = Ok th' → switch_step th th'
| sw_back r e th' : exec th = Some r → t_scheduler_fiber th = Some r →
    main_end back th r e = Ok th' → switch_step th th'
| sw_reset p cb th' : exec th ≠ Some p → object_reset th p cb = Ok th' → switch_step th th'
| sw_destroy p o th' : objs th !! p = Some o → m_stack (o_fiber o) = true → exec th ≠ Some p →
    t_scheduler_fiber th ≠ Some p → object_destroy th p = Ok th' → switch_step th th'.

(** ** What always holds *)

(** What the switches depend on in a fiber object. *)
Record slot : Type := mkSlot { k_ctx : execution; k_id : nat; k_stack : bool }.

Definition slot_of (o : object) : slot := mkSlot (o_ctx o) (o_id o) (m_stack (o_fiber o)).
Definition slots (m : gmap nat object) : gmap nat slot := slot_of <$> m.

Record switch_inv (th : thread) : Prop := {
  (* the fiber that GetThis gives is the one that runs *)
  sw_current f : t_fiber th = Some f → ∃ k, slots (objs th) !! f = Some k ∧ home f (k_stack k) = exec th;
  sw_none : t_fiber th = None → exec th = None ∧ t_threadFiber th = None ∧ t_scheduler_fiber th = None;
  sw_has_main : t_threadFiber th = None → t_fiber th = None;
  (* the others resume their own code *)
  sw_saved p k : slots (objs th) !! p = Some k → home p (k_stack k) ≠ exec th → k_ctx k = home p (k_stack k);
  (* the main fiber is the only one without a stack *)
  sw_main p k : slots (objs th) !! p = Some k → k_stack k = false → t_threadFiber th = Some p;
  sw_thread p : t_threadFiber th = Some p → ∃ k, slots (objs th) !! p = Some k ∧ k_stack k = false;
  sw_sched p : t_scheduler_fiber th = Some p → is_Some (slots (objs th) !! p);
  sw_ids p k : slots (objs th) !! p = Some k → if k_stack k then 0 < k_id k <= s_fiber_id th else k_id k = 0;
  sw_distinct p q k k' : slots (objs th) !! p = Some k → slots (objs th) !! q = Some k' → k_id k = k_id k' → p = q;
  sw_count : s_fiber_count th = Z.of_nat (size (slots (objs th)))
}.

Lemma thread_new_inv : switch_inv thread_new.
Proof. split; try done. Qed.

Lemma slots_lookup m p o : m !! p = Some o → slots m !! p = Some (slot_of o).
Proof. intros H. unfold slots. by rewrite lookup_fmap, H. Qed.

Lemma slots_insert m p o : slots (<[p := o]> m) = <[p := slot_of o]> (slots m).
Proof. apply fmap_insert. Qed.

Lemma slots_set_fiber th p o f :
  objs th !! p = Some o → m_stack f = m_stack (o_fiber o) → slots (objs (set_fiber th p f)) = slots (objs th).
Proof.
  intros Hp Hf. apply map_eq. intros q. unfold slots, set_fiber. simpl. rewrite !lookup_fmap.
  destruct (decide (q = p)) as [->|Hne]; [|by rewrite lookup_alter_ne].
  rewrite lookup_alter_eq, Hp. simpl. unfold slot_of. simpl. by rewrite Hf.
Qed.

(** The state of a fiber does not matter. *)
Lemma set_fiber_inv th p o f :
  switch_inv th → objs th !! p = Some o → m_stack f = m_stack (o_fiber o) → switch_inv (set_fiber th p f).
Proof.
  intros Hinv Hp Hst. pose proof (slots_set_fiber th p o f Hp Hst) as E.
  destruct Hinv. split; rewrite ?E; done.
Qed.

Lemma home_inj th p q k k' :
  switch_inv th → slots (objs th) !! p = Some k → slots (objs th) !! q = Some k' →
  home p (k_stack k) = home q (k_stack k') → p = q.
Proof.
  intros Hinv Hp Hq. unfold home. destruct (k_stack k) eqn:E, (k_stack k') eqn:E'; intros [=]; [done|].
  pose proof (sw_main _ Hinv _ _ Hp E). pose proof (sw_main _ Hinv _ _ Hq E'). congruence.
Qed.

(** Saving the context of the fiber that runs, and going to another one. *)
Lemma switched_inv th a b ka kb m :
  switch_inv th → slots (objs th) !! a = Some ka → home a (k_stack ka) = exec th →
  slots (objs th) !! b = Some kb → a ≠ b → slots m = <[a := mkSlot (exec th) (k_id ka) (k_stack ka)]> (slots (objs th)) →
  switch_inv (mkThread (home b (k_stack kb)) (Some b) (t_threadFiber th) (t_scheduler_fiber th) m (s_fiber_id th)
                (s_fiber_count th)).
Proof.
  intros Hinv Ha Hrun Hb Hne Em.
  assert (∀ q k, slots m !! q = Some k → ∃ k', slots (objs th) !! q = Some k' ∧ k_id k = k_id k' ∧ k_stack k = k_stack k' ∧
    if decide (q = a) then k_ctx k = exec th else k = k') as Hback.
  { intros q k. rewrite Em. destruct (decide (q = a)) as [->|Hq].
    - rewrite lookup_insert_eq. intros [= <-]. by exists ka.
    - rewrite lookup_insert_ne by done. by exists k. }
  assert (∀ q k, slots (objs th) !! q = Some k → ∃ k', slots m !! q = Some k' ∧ k_stack k' = k_stack k) as Hfwd.
  { intros q k Hq. rewrite Em. destruct (decide (q = a)) as [->|Hqa].
    - rewrite lookup_insert_eq. rewrite Ha in Hq. injection Hq as <-. by eexists.
    - rewrite lookup_insert_ne by done. by exists k. }
  split; simpl.
  - intros f [= <-]. exists kb. rewrite Em, lookup_insert_ne by done. done.
  - done.
  - intros Hno. destruct (sw_none _ Hinv (sw_has_main _ Hinv Hno)) as [E _]. rewrite E in Hrun. unfold home in Hrun.
    destruct (k_stack ka) eqn:Es; [done|]. rewrite (sw_main _ Hinv _ _ Ha Es) in Hno. done.
  - intros q k Hq Hh. destruct (Hback q k Hq) as (k' & Hk' & _ & Hs & Hc). case_decide as Hqa.
    + subst q. rewrite Hc, <-Hrun, Hs. congruence.
    + subst k'. apply (sw_saved _ Hinv _ _ Hk'). rewrite <-Hrun. intros E. by apply Hqa, (home_inj th _ _ _ _ Hinv Hk' Ha).
  - intros q k Hq. destruct (Hback q k Hq) as (k' & Hk' & _ & -> & _). by apply (sw_main _ Hinv).
  - intros q Hq. destruct (sw_thread _ Hinv q Hq) as (k & Hk & Hs). destruct (Hfwd q k Hk) as (k' & ? & E). exists k'. by rewrite E.
  - intros q Hq. destruct (sw_sched _ Hinv q Hq) as (k & Hk). destruct (Hfwd q k Hk) as (k' & ? & _). by exists k'.
  - intros q k Hq. destruct (Hback q k Hq) as (k' & Hk' & -> & -> & _). by apply (sw_ids _ Hinv _ _ Hk').
  - intros q q' k k' Hq Hq'. destruct (Hback q k Hq) as (x & Hx & -> & _). destruct (Hback q' k' Hq') as (y & Hy & -> & _).
    by apply (sw_distinct _ Hinv).
  - rewrite (sw_count _ Hinv), Em. by rewrite map_size_insert_Some by (by rewrite Ha).
Qed.

Lemma slots_object m p k : slots m !! p = Some k → ∃ o, m !! p = Some o ∧ k = slot_of o.
Proof. unfold slots. rewrite lookup_fmap. destruct (m !! p) as [o|]; [|done]. intros [= <-]. by exists o. Qed.

Lemma swapcontext_inv th a b ka kb :
  switch_inv th → slots (objs th) !! a = Some ka → home a (k_stack ka) = exec th →
  slots (objs th) !! b = Some kb → a ≠ b →
  ∃ th', swapcontext (SetThis th (Some b)) a b = Ok th' ∧ exec th' = home b (k_stack kb) ∧ t_fiber th' = Some b ∧
    t_scheduler_fiber th' = t_scheduler_fiber th ∧ switch_inv th'.
Proof.
  intros Hinv Ha Hrun Hb Hne. unfold swapcontext. simpl.
  destruct (slots_object _ _ _ Ha) as (oa & Hoa & ->). destruct (slots_object _ _ _ Hb) as (ob & Hob & ->).
  rewrite Hoa. osimpl. rewrite lookup_alter_ne by done. rewrite Hob. osimpl. eexists. split; [done|].
  assert (o_ctx ob = home b (m_stack (o_fiber ob))) as Hctx.
  { apply (sw_saved _ Hinv _ _ Hb). intros E. rewrite <-Hrun in E. by apply Hne, (home_inj th a b _ _ Hinv Ha Hb). }
  simpl. split_and!; [done..|]. rewrite Hctx. apply (switched_inv th a b (slot_of oa) (slot_of ob)); try done.
  rewrite (alter_alt_Some _ _ _ oa) by done. apply slots_insert.
Qed.

(** The four switches. *)
Lemma swap_in_inv th m km p op :
  switch_inv th → t_scheduler_fiber th = Some m → slots (objs th) !! m = Some km → home m (k_stack km) = exec th → p ≠ m →
  objs th !! p = Some op → m_stack (o_fiber op) = true → m_state (o_fiber op) ≠ EXEC →
  ∃ th', swap_in th p = Ok th' ∧ exec th' = Some p ∧ t_fiber th' = Some p ∧ switch_inv th'.
Proof.
  intros Hinv Hm Hkm Hrun Hne Hp Hst Hex. unfold swap_in. simpl. rewrite Hp. osimpl. rewrite swapIn_ok by done. osimpl.
  rewrite Hm. osimpl. set (th1 := set_fiber th p (set_state (o_fiber op) EXEC)).
  assert (slots (objs th1) = slots (objs th)) as E by (by apply (slots_set_fiber th p op)).
  destruct (swapcontext_inv th1 m p km (slot_of op)) as (th' & E' & Hex' & Ht & _ & Hinv'); rewrite ?E; try done.
  - by apply (set_fiber_inv th p op).
  - by apply slots_lookup.
  - change (set_fiber (SetThis th (Some p)) p (set_state (o_fiber op) EXEC)) with (SetThis th1 (Some p)). rewrite E'.
    exists th'. split_and!; try done. rewrite Hex'. unfold slot_of. simpl. by rewrite Hst.
Qed.

Lemma swap_out_inv th p kp :
  switch_inv th → slots (objs th) !! p = Some kp → home p (k_stack kp) = exec th → is_Some (t_scheduler_fiber th) →
  t_scheduler_fiber th ≠ Some p →
  ∃ th' m k, swap_out th p = Ok th' ∧ t_scheduler_fiber th = Some m ∧ slots (objs th) !! m = Some k ∧
    exec th' = home m (k_stack k) ∧ t_fiber th' = Some m ∧ switch_inv th'.
Proof.
  intros Hinv Hp Hrun [m Hm] Hne. destruct (sw_sched _ Hinv m Hm) as [k Hk]. unfold swap_out. simpl. rewrite Hm. osimpl.
  destruct (swapcontext_inv th p m kp k) as (th' & E & ? & ? & _ & ?); try done; [congruence|]. rewrite E. by exists th', m, k.
Qed.

Lemma context_back_inv th p kp :
  switch_inv th → slots (objs th) !! p = Some kp → home p (k_stack kp) = exec th → k_stack kp = true →
  is_Some (t_threadFiber th) →
  ∃ th' m, back th p = Ok th' ∧ t_threadFiber th = Some m ∧ exec th' = None ∧ t_fiber th' = Some m ∧ switch_inv th'.
Proof.
  intros Hinv Hp Hrun Hst [m Hm]. destruct (sw_thread _ Hinv m Hm) as (k & Hk & Hkst). unfold back. simpl. rewrite Hm. osimpl.
  assert (p ≠ m) as Hne by (intros ->; rewrite Hp in Hk; injection Hk as ->; congruence).
  destruct (swapcontext_inv th p m kp k) as (th' & E & Hex & ? & _ & ?); try done. rewrite E. exists th', m.
  split_and!; try done. by rewrite Hex, Hkst.
Qed.

Lemma context_call_inv th m p op :
  switch_inv th → t_threadFiber th = Some m → exec th = None → objs th !! p = Some op → m_stack (o_fiber op) = true →
  ∃ th', call th p = Ok th' ∧ exec th' = Some p ∧ t_fiber th' = Some p ∧ switch_inv th'.
Proof.
  intros Hinv Hm Hrun Hp Hst. destruct (sw_thread _ Hinv m Hm) as (k & Hk & Hkst). unfold call. simpl. rewrite Hp. osimpl.
  rewrite Hm. osimpl. set (th1 := set_fiber th p (Fiber_call (o_fiber op))).
  assert (slots (objs th1) = slots (objs th)) as E by (by apply (slots_set_fiber th p op)).
  destruct (swapcontext_inv th1 m p k (slot_of op)) as (th' & E' & Hex' & Ht & _ & Hinv'); rewrite ?E; try done.
  - by apply (set_fiber_inv th p op).
  - by rewrite Hkst.
  - by apply slots_lookup.
  - intros ->. rewrite (slots_lookup _ _ _ Hp) in Hk. injection Hk as <-. simpl in Hkst. congruence.
  - change (set_fiber (SetThis th (Some p)) p (Fiber_call (o_fiber op))) with (SetThis th1 (Some p)). rewrite E'.
    exists th'. split_and!; try done. rewrite Hex'. unfold slot_of. simpl. by rewrite Hst.
Qed.

(** Making and destroying fibers. *)
Lemma inv_slots th th' :
  switch_inv th → exec th' = exec th → t_fiber th' = t_fiber th → t_threadFiber th' = t_threadFiber th →
  t_scheduler_fiber th' = t_scheduler_fiber th → s_fiber_id th' = s_fiber_id th → s_fiber_count th' = s_fiber_count th →
  slots (objs th') = slots (objs th) → switch_inv th'.
Proof. intros [] E1 E2 E3 E4 E5 E6 E7. split; rewrite ?E1, ?E2, ?E3, ?E4, ?E5, ?E6, ?E7; done. Qed.

Lemma slots_fresh m p : m !! p = None → slots m !! p = None.
Proof. intros H. unfold slots. by rewrite lookup_fmap, H. Qed.

Lemma object_new_inv th p cb : switch_inv th → objs th !! p = None → switch_inv (object_new th p cb).
Proof.
  intros Hinv Hp%slots_fresh. split; cbn [object_new exec t_fiber t_threadFiber t_scheduler_fiber objs s_fiber_id s_fiber_count];
    rewrite ?slots_insert.
  - intros f Hf. destruct (sw_current _ Hinv f Hf) as (k & Hk & ?). exists k. rewrite lookup_insert_ne by congruence. done.
  - apply (sw_none _ Hinv).
  - apply (sw_has_main _ Hinv).
  - intros q k [[<- <-]|[_ Hk]]%lookup_insert_Some; [done|by apply (sw_saved _ Hinv)].
  - intros q k [[<- <-]|[_ Hk]]%lookup_insert_Some; [done|by apply (sw_main _ Hinv)].
  - intros q Hq. destruct (sw_thread _ Hinv q Hq) as (k & Hk & ?). exists k. rewrite lookup_insert_ne by congruence. done.
  - intros q Hq. destruct (sw_sched _ Hinv q Hq) as (k & Hk). exists k. rewrite lookup_insert_ne by congruence. done.
  - intros q k [[<- <-]|[_ Hk]]%lookup_insert_Some; [simpl; lia|]. pose proof (sw_ids _ Hinv _ _ Hk). case_match; lia.
  - intros q q' k k' Hq Hq'. apply lookup_insert_Some in Hq, Hq'.
    destruct Hq as [[<- <-]|[_ Hq]], Hq' as [[<- <-]|[_ Hq']]; [done| | |by apply (sw_distinct _ Hinv)].
    + pose proof (sw_ids _ Hinv _ _ Hq'). simpl. case_match; lia.
    + pose proof (sw_ids _ Hinv _ _ Hq). simpl. case_match; lia.
  - rewrite (sw_count _ Hinv), map_size_insert_None by done. lia.
Qed.

Lemma main_new_inv th p :
  switch_inv th → t_fiber th = None → objs th !! p = None →
  switch_inv (mkThread (exec th) (Some p) (Some p) (t_scheduler_fiber th) (objs (main_new th p)) (s_fiber_id th)
                (s_fiber_count (main_new th p))).
Proof.
  intros Hinv Hno Hp%slots_fresh. destruct (sw_none _ Hinv Hno) as (Hex & Htf & Hts).
  assert (∀ q k, slots (objs th) !! q = Some k → k_stack k = true) as Hall.
  { intros q k Hk. destruct (k_stack k) eqn:E; [done|]. pose proof (sw_main _ Hinv _ _ Hk E). congruence. }
  split; cbn [main_new exec t_fiber t_threadFiber t_scheduler_fiber objs s_fiber_id s_fiber_count]; rewrite ?slots_insert, ?Hts.
  - intros f [= <-]. rewrite lookup_insert_eq. by eexists.
  - done.
  - done.
  - intros q k [[<- <-]|[_ Hk]]%lookup_insert_Some; [done|by apply (sw_saved _ Hinv)].
  - intros q k [[<- <-]|[_ Hk]]%lookup_insert_Some; [done|]. by rewrite (Hall _ _ Hk).
  - intros q [= <-]. rewrite lookup_insert_eq. by eexists.
  - done.
  - intros q k [[<- <-]|[_ Hk]]%lookup_insert_Some; [done|]. exact (sw_ids _ Hinv _ _ Hk).
  - intros q q' k k' Hq Hq'. apply lookup_insert_Some in Hq, Hq'.
    destruct Hq as [[<- <-]|[_ Hq]], Hq' as [[<- <-]|[_ Hq']]; [done| | |by apply (sw_distinct _ Hinv)].
    + pose proof (sw_ids _ Hinv _ _ Hq') as Hid. rewrite (Hall _ _ Hq') in Hid. simpl. lia.
    + pose proof (sw_ids _ Hinv _ _ Hq) as Hid. rewrite (Hall _ _ Hq) in Hid. simpl. lia.
  - rewrite (sw_count _ Hinv), map_size_insert_None by done. lia.
Qed.

Lemma GetThis_inv th p :
  switch_inv th → objs th !! p = None →
  ∃ f th', GetThis th p = Ok (f, th') ∧ t_fiber th' = Some f ∧ exec th' = exec th ∧
    is_Some (t_threadFiber th') ∧ switch_inv th' ∧ ∀ q, q ≠ p → objs th' !! q = objs th !! q.
Proof.
  intros Hinv Hp. unfold GetThis. destruct (t_fiber th) as [f|] eqn:Ef.
  - exists f, th. split_and!; try done. destruct (t_threadFiber th) eqn:Et; [done|].
    pose proof (sw_has_main _ Hinv Et). congruence.
  - rewrite bool_decide_true by done. osimpl. eexists _, _. split; [done|]. split_and!; try done.
    + exact (main_new_inv th p Hinv Ef Hp).
    + intros q Hq. simpl. by rewrite lookup_insert_ne.
Qed.

Lemma set_scheduler_inv th p :
  switch_inv th → is_Some (slots (objs th) !! p) → is_Some (t_fiber th) → switch_inv (set_scheduler th p).
Proof.
  intros [] Hp Hf. split; try done; simpl; [|by intros q [= <-]]. intros E. rewrite E in Hf. by destruct Hf.
Qed.

Lemma object_reset_inv th p cb th' :
  switch_inv th → exec th ≠ Some p → object_reset th p cb = Ok th' → switch_inv th'.
Proof.
  intros Hinv Hex. unfold object_reset. intros (o & Ho & E)%outcome_bind_ok. destruct (objs th !! p) as [o'|] eqn:Hp; [|done].
  injection Ho as ->. apply outcome_bind_ok in E as (f & Hf & [= <-]).
  assert (m_stack (o_fiber o) = true ∧ m_stack f = true) as [Hst Hst'].
  { unfold Fiber_reset in Hf. destruct (m_stack (o_fiber o)); [|done]. destruct (_ || _); [|done]. by injection Hf as <-. }
  apply (inv_slots th); try done. simpl. rewrite slots_insert. apply insert_id. rewrite (slots_lookup _ _ _ Hp). f_equal.
  unfold slot_of. simpl. f_equal; [|congruence]. pose proof (sw_saved _ Hinv _ _ (slots_lookup _ _ _ Hp)) as Hs.
  simpl in Hs. rewrite Hst in Hs. apply Hs. simpl. congruence.
Qed.

Lemma object_destroy_inv th p o th' :
  switch_inv th → objs th !! p = Some o → m_stack (o_fiber o) = true → exec th ≠ Some p → t_scheduler_fiber th ≠ Some p →
  object_destroy th p = Ok th' → switch_inv th'.
Proof.
  intros Hinv Hp Hst Hex Hns. unfold object_destroy. rewrite Hp. osimpl. intros (_ & _ & E)%outcome_bind_ok.
  rewrite Hst in E. simpl in E. injection E as <-.
  assert (slots (delete p (objs th)) = delete p (slots (objs th))) as Ed by apply fmap_delete.
  pose proof (slots_lookup _ _ _ Hp) as Hk.
  split; simpl; rewrite ?Ed.
  - intros f Hf. destruct (sw_current _ Hinv f Hf) as (k & Hfk & Hh). exists k. rewrite lookup_delete_ne; [done|].
    intros ->. rewrite Hk in Hfk. injection Hfk as <-. simpl in Hh. rewrite Hst in Hh. by apply Hex.
  - apply (sw_none _ Hinv).
  - apply (sw_has_main _ Hinv).
  - intros q k [_ Hq]%lookup_delete_Some. by apply (sw_saved _ Hinv).
  - intros q k [_ Hq]%lookup_delete_Some. by apply (sw_main _ Hinv).
  - intros q Hq. destruct (sw_thread _ Hinv q Hq) as (k & Hqk & Hs). exists k. rewrite lookup_delete_ne; [done|].
    intros ->. rewrite Hk in Hqk. injection Hqk as <-. simpl in Hs. congruence.
  - intros q Hq. rewrite lookup_delete_ne by congruence. by apply (sw_sched _ Hinv).
  - intros q k [_ Hq]%lookup_delete_Some. by apply (sw_ids _ Hinv _ _ Hq).
  - intros q q' k k' [_ Hq]%lookup_delete_Some [_ Hq']%lookup_delete_Some. by apply (sw_distinct _ Hinv).
  - rewrite (sw_count _ Hinv), map_size_delete_Some by (by rewrite Hk). 
    assert (size (slots (objs th)) ≠ 0) by (rewrite map_size_ne_0_lookup; by exists p, (slot_of o)). lia.
Qed.

(** Ending a fiber keeps what the switch needs. *)
Lemma main_end_spec switch th p o e :
  switch_inv th → objs th !! p = Some o →
  ∃ th1, switch_inv th1 ∧ main_end switch th p e = switch th1 p ∧ slots (objs th1) = slots (objs th) ∧ exec th1 = exec th ∧
    t_scheduler_fiber th1 = t_scheduler_fiber th ∧ t_threadFiber th1 = t_threadFiber th.
Proof.
  intros Hinv Hp. exists (set_fiber th p (MainFunc_end (o_fiber o) e)).
  assert (m_stack (MainFunc_end (o_fiber o) e) = m_stack (o_fiber o)) as Hst by (by destruct e).
  split_and!; try done; [by apply (set_fiber_inv th p o)|by unfold main_end; rewrite Hp|by apply (slots_set_fiber th p o)].
Qed.

(** The fiber whose code runs. *)
Lemma running_object th p :
  switch_inv th → exec th = Some p → t_fiber th = Some p ∧ ∃ o, objs th !! p = Some o ∧ m_stack (o_fiber o) = true.
Proof.
  intros Hinv Hex. destruct (t_fiber th) as [f|] eqn:Ef; [|by destruct (sw_none _ Hinv Ef) as [? _]; congruence].
  destruct (sw_current _ Hinv f Ef) as (k & Hk & Hh). rewrite Hex in Hh. unfold home in Hh.
  destruct (k_stack k) eqn:Es; [|done]. injection Hh as ->. split; [done|].
  destruct (slots_object _ _ _ Hk) as (o & Ho & ->). by exists o.
Qed.

Lemma swap_out_step th p o th' :
  switch_inv th → slots (objs th) !! p = Some o → home p (k_stack o) = exec th → t_scheduler_fiber th ≠ Some p →
  swap_out th p = Ok th' → switch_inv th'.
Proof.
  intros Hinv Hp Hrun Hne E. destruct (t_scheduler_fiber th) as [m|] eqn:Em;
    [|unfold swap_out in E; simpl in E; by rewrite Em in E].
  destruct (swap_out_inv th p o) as (th1 & m1 & k & E1 & _ & _ & _ & _ & Hinv1); try done; [by rewrite Em|].
  rewrite E in E1. by injection E1 as ->.
Qed.

(** Every step keeps the invariant. *)
Lemma switch_step_inv th th' : switch_inv th → switch_step th th' → switch_inv th'.
Proof.
  intros Hinv Hstep. destruct Hstep as [p q th' Hp E|p cb Hp|p th' _ _ Hp E|p r th' _ _ Hp Hr Hpr E
    |m om p op th' Hm Hom Hrun Hne Hp Hst _ E|state p th' Hstate Hex Hns E|p e th' Hex Hns E|r o th' Hex _ Ho Hst E
    |r e th' Hex Hs E|p cb th' Hex E|p o th' Hp Hst Hex Hns E].
  - destruct (GetThis_inv th p Hinv Hp) as (f & th1 & E1 & _ & _ & _ & Hinv1 & _). rewrite E in E1. by injection E1 as _ ->.
  - by apply object_new_inv.
  - destruct (GetThis_inv th p Hinv Hp) as (f & th1 & E1 & Hf & _ & _ & Hinv1 & _). unfold run_start in E. rewrite E1 in E.
    injection E as <-. apply set_scheduler_inv; [done| |by rewrite Hf]. by destruct (sw_current _ Hinv1 f Hf) as (k & -> & _).
  - destruct (GetThis_inv th p Hinv Hp) as (f & th1 & E1 & Hf & _ & _ & Hinv1 & Hsame). unfold caller_start in E.
    rewrite E1 in E. injection E as <-. apply set_scheduler_inv; [|by simpl; rewrite slots_insert, lookup_insert_eq|by simpl; rewrite Hf].
    apply object_new_inv; [done|]. by rewrite Hsame.
  - destruct (decide (m_state (o_fiber op) = EXEC)) as [Hexec|Hexec].
    { unfold swap_in in E. simpl in E. rewrite Hp in E. unfold deref in E. osimpl in E. by rewrite swapIn_throws in E. }
    destruct (swap_in_inv th m (slot_of om) p op) as (th1 & E1 & _ & _ & Hinv1); try done; [by apply slots_lookup|].
    rewrite E in E1. by injection E1 as ->.
  - destruct (running_object th p Hinv Hex) as (Hf & o & Ho & Hst). unfold yield_to, GetThis in E. rewrite Hf in E.
    simpl in E. rewrite Ho in E. simpl in E. apply outcome_bind_ok in E as (f & Ef & E).
    assert (m_stack f = m_stack (o_fiber o)) as Hsame.
    { destruct Hstate as [-> | ->]; unfold YieldToReady, YieldToHold in Ef; apply outcome_bind_ok in Ef as (_ & _ & [= <-]); done. }
    apply (swap_out_step _ p (slot_of o)) in E; try done; [by apply (set_fiber_inv th p o)| |by simpl; rewrite Hst].
    rewrite (slots_set_fiber th p o) by done. by apply slots_lookup.
  - destruct (running_object th p Hinv Hex) as (_ & o & Ho & Hst).
    destruct (main_end_spec swap_out th p o e Hinv Ho) as (th1 & Hinv1 & E1 & Es & Ee & Esch & _). rewrite E1 in E.
    apply (swap_out_step th1 p (slot_of o)) in E; try done; [by rewrite Es; apply slots_lookup|by rewrite Ee; simpl; rewrite Hst|congruence].
  - destruct (t_threadFiber th) as [m|] eqn:Em; [|unfold call in E; simpl in E; rewrite Ho, Em in E; done].
    destruct (context_call_inv th m r o) as (th1 & E1 & _ & _ & Hinv1); try done. rewrite E in E1. by injection E1 as ->.
  - destruct (running_object th r Hinv Hex) as (_ & o & Ho & Hst).
    destruct (main_end_spec back th r o e Hinv Ho) as (th1 & Hinv1 & E1 & Es & Ee & _ & Et). rewrite E1 in E.
    destruct (t_threadFiber th1) as [m|] eqn:Em; [|unfold back in E; simpl in E; by rewrite Em in E].
    destruct (context_back_inv th1 r (slot_of o)) as (th2 & m2 & E2 & _ & _ & _ & Hinv2); try done;
      [by rewrite Es; apply slots_lookup|by rewrite Ee; simpl; rewrite Hst|]. rewrite E in E2. by injection E2 as ->.
  - by apply (object_reset_inv th p cb).
  - by apply (object_destroy_inv th p o).
Qed.

Lemma switch_reachable th : rtc switch_step thread_new th → switch_inv th.
Proof.
  apply (rtc_ind_r switch_inv); [apply thread_new_inv|]. intros x y _ Hs Hi. by apply (switch_step_inv x).
Qed.

(** C35. The fibers of a thread, after any steps of its scheduler, its fibers and its own
    code: [GetThis] gives the fiber whose code runs; the context of every other fiber
    resumes its own code; the id is zero exactly in the thread's own code, and the count
    is that of the fibers there are. The scheduler's fiber can enter every fiber that is
    not executing, whose code then runs, and a fiber that is switched out gives control
    to the scheduler's fiber. *)
Theorem current_fiber (th : thread) :
  rtc switch_step thread_new th →
  (∀ p f th', objs th !! p = None → GetThis th p = Ok (f, th') →
    ∃ o, objs th' !! f = Some o ∧ home f (m_stack (o_fiber o)) = exec th) ∧
  (∀ p o, objs th !! p = Some o → home p (m_stack (o_fiber o)) ≠ exec th → o_ctx o = home p (m_stack (o_fiber o))) ∧
  (∃ i, GetFiberId th = Ok i ∧ (i = 0 ↔ exec th = None)) ∧
  TotalFibers th = Z.of_nat (size (objs th)) ∧
  (∀ m om p op, t_scheduler_fiber th = Some m → objs th !! m = Some om → home m (m_stack (o_fiber om)) = exec th →
    p ≠ m → objs th !! p = Some op → m_stack (o_fiber op) = true → m_state (o_fiber op) ≠ EXEC →
    ∃ th', swap_in th p = Ok th' ∧ exec th' = Some p ∧ t_fiber th' = Some p) ∧
  (∀ p m, exec th = Some p → t_scheduler_fiber th = Some m → p ≠ m →
    ∃ th' o, swap_out th p = Ok th' ∧ objs th !! m = Some o ∧ exec th' = home m (m_stack (o_fiber o)) ∧ t_fiber th' = Some m).
Proof.
  intros Hinv%switch_reachable. split_and!.
  - intros p f th' Hp E. destruct (GetThis_inv th p Hinv Hp) as (f1 & th1 & E1 & Hf & Hex & _ & Hinv1 & _).
    rewrite E in E1. injection E1 as <- <-. destruct (sw_current _ Hinv1 f Hf) as (k & Hk & Hh).
    destruct (slots_object _ _ _ Hk) as (o & Ho & ->). exists o. split; [done|]. by rewrite <-Hex.
  - intros p o Ho. apply (sw_saved _ Hinv _ _ (slots_lookup _ _ _ Ho)).
  - unfold GetFiberId. destruct (t_fiber th) as [f|] eqn:Ef; [|exists 0; by destruct (sw_none _ Hinv Ef) as [-> _]].
    destruct (sw_current _ Hinv f Ef) as (k & Hk & Hh). destruct (slots_object _ _ _ Hk) as (o & -> & ->). osimpl.
    exists (o_id o). split; [done|]. pose proof (sw_ids _ Hinv _ _ Hk) as Hid. simpl in *. rewrite <-Hh. unfold home.
    destruct (m_stack (o_fiber o)); split; intros; try done; lia.
  - unfold TotalFibers. rewrite (sw_count _ Hinv). unfold slots. by rewrite map_size_fmap.
  - intros m om p op Hm Hom Hrun Hne Hp Hst Hexec.
    destruct (swap_in_inv th m (slot_of om) p op) as (th' & ? & ? & ? & _); try done; [by apply slots_lookup|]. by exists th'.
  - intros p m Hex Hm Hne. destruct (running_object th p Hinv Hex) as (_ & o & Ho & Hst).
    destruct (swap_out_inv th p (slot_of o)) as (th' & m' & k & E & Hm' & Hk & Hex' & Hf & _);
      [done|by apply slots_lookup|by simpl; rewrite Hst|by rewrite Hm|congruence|].
    rewrite Hm in Hm'. injection Hm' as <-. destruct (slots_object _ _ _ Hk) as (om & Hom & ->). by exists th', om.
Qed.

(** Only the scheduler's fiber may enter others: when another fiber does, the context of
    the scheduler's fiber is overwritten, and once the entered fiber is switched out the
    first one goes on while [GetThis] says that the scheduler's fiber runs. *)
Theorem nested_swapIn (th : thread) f m g og :
  rtc switch_step thread_new th → exec th = Some f → t_scheduler_fiber th = Some m → m ≠ f →
  g ≠ f → g ≠ m → objs th !! g = Some og → m_stack (o_fiber og) = true → m_state (o_fiber og) ≠ EXEC →
  ∃ th1 th2, swap_in th g = Ok th1 ∧ exec th1 = Some g ∧ swap_out th1 g = Ok th2 ∧ exec th2 = Some f ∧ t_fiber th2 = Some m.
Proof.
  intros Hinv%switch_reachable Hex Hm Hmf Hgf Hgm Hg Hst Hexec.
  destruct (sw_sched _ Hinv m Hm) as [k Hk]. destruct (slots_object _ _ _ Hk) as (om & Hom & _).
  assert (o_ctx og = Some g) as Hctx.
  { pose proof (sw_saved _ Hinv _ _ (slots_lookup _ _ _ Hg)) as Hs. simpl in Hs. rewrite Hst in Hs. apply Hs. simpl. congruence. }
  unfold swap_in. simpl. rewrite Hg. osimpl. rewrite swapIn_ok by done. osimpl. rewrite Hm. osimpl.
  unfold swapcontext. simpl. rewrite (lookup_alter_ne _ (objs th) g m), Hom by done. osimpl.
  rewrite (lookup_alter_ne _ _ m g), (lookup_alter_eq _ _ g), Hg by done. osimpl. eexists _, _. split; [done|]. split; [done|].
  unfold swap_out, swapcontext. simpl. rewrite Hm. osimpl.
  rewrite (lookup_alter_ne _ _ m g), (lookup_alter_eq _ _ g), Hg by done. osimpl.
  rewrite (lookup_alter_ne _ _ g m), (lookup_alter_eq _ _ m), (lookup_alter_ne _ _ g m), Hom by done. osimpl. by rewrite Hex.
Qed.

(** A thread of the pool on which the fiber 1 runs. *)
Definition sample_thread : thread :=
  match (th ← run_start thread_new 0; swap_in (object_new (object_new th 1 (Some 7)) 2 (Some 8)) 1) with
  | Ok th => th
  | _ => thread_new
  end.

Lemma sample_reachable : rtc switch_step thread_new sample_thread.
Proof.
  eapply rtc_l; [by eapply (sw_run _ 0)|]. eapply rtc_l; [by eapply (sw_new _ 1 (Some 7))|].
  eapply rtc_l; [by eapply (sw_new _ 2 (Some 8))|].
  eapply rtc_l; [by eapply (sw_in _ 0 _ 1)|]. by apply rtc_refl.
Qed.

Lemma current_fiber_witness :
  GetFiberId sample_thread = Ok 1 ∧ TotalFibers sample_thread = 3%Z ∧
  ∃ th' o, swap_out sample_thread 1 = Ok th' ∧ objs sample_thread !! 0 = Some o ∧ exec th' = None ∧ t_fiber th' = Some 0.
Proof.
  destruct (current_fiber sample_thread sample_reachable) as (_ & _ & _ & Hcount & _ & Hout).
  split; [reflexivity|]. split; [rewrite Hcount; reflexivity|].
  destruct (Hout 1 0) as (th' & o & E & Ho & Hex & Hf); [reflexivity|reflexivity|discriminate|].
  exists th', o. split_and!; [exact E|exact Ho| |exact Hf]. rewrite Hex. vm_compute in Ho. injection Ho as <-. reflexivity.
Defined.

Lemma nested_swapIn_witness :
  ∃ th1 th2, swap_in sample_thread 2 = Ok th1 ∧ swap_out th1 2 = Ok th2 ∧ exec th2 = Some 1 ∧ t_fiber th2 = Some 0.
Proof.
  destruct (nested_swapIn sample_thread 1 0 2 (mkObject (Fiber_new (Some 8)) (Some 2) 2) sample_reachable)
    as (th1 & th2 & E1 & _ & E2 & Hex & Hf); try reflexivity; try discriminate.
  exists th1, th2. split_and!; assumption.
Defined.
