(* ===== verification/Scheduler.v ===== *)
(** The scheduler (sylar/scheduler.h, sylar/scheduler.cc): a queue of fibers
    and callbacks served by a pool of threads that all execute [run]. Threads
    interleave at the granularity of the code's critical sections and atomic
    counters. *)

From stdpp Require Import base numbers list sets option strings tactics relations.
From Stdlib Require Import ZArith Lia.
From S2P Require Import Prelude Fiber.

(** ** Data *)

(** [Scheduler::FiberAndThread]; a fiber is named by its position in the
    table of fibers, a thread by its position in the table of threads, and
    [None] is the thread number -1. *)
Record FiberAndThread : Type := mkFT {
  ft_fiber : option nat;
  ft_cb : option nat;
  ft_thread : option nat
}.

Definition ft_empty : FiberAndThread := mkFT None None None.

#[export] Instance FiberAndThread_eq_dec : EqDecision FiberAndThread.
Proof. solve_decision. Defined.

(** What a thread in [run] has switched to. *)
Inductive role : Type := Task | Cb | Idle.

#[export] Instance role_eq_dec : EqDecision role.
Proof. solve_decision. Defined.

(** Where a thread is in [run]: at the top of the loop; after the critical
    section with the task it took; inside a fiber; back from it, before the
    counter is decremented; and after that. *)
Inductive pc : Type :=
| Top
| Fetched (ft : FiberAndThread) (is_active tickle_me : bool)
| Running (r : role) (f : nat)
| Back (r : role) (f : nat)
| Settle (r : role) (f : nat)
| Exited.

#[export] Instance pc_eq_dec : EqDecision pc.
Proof. solve_decision. Defined.

(** The locals of [run]: the idle fiber and the fiber kept for callbacks. *)
Record thread : Type := mkThread {
  t_pc : pc;
  idle_fiber : nat;
  cb_fiber : option nat
}.

(** [class Scheduler], with the fibers of the process and its pool threads. *)
Record Scheduler : Type := mkScheduler {
  m_fibers : list FiberAndThread;
  m_activeThreadCount : nat;
  m_idleThreadCount : nat;
  m_stopping : bool;
  m_autoStop : bool;
  fibers : list Fiber;
  threads : list thread
}.

(** ** The queue *)

Definition state_of (fs : list Fiber) (f : nat) : State :=
  match fs !! f with Some fb => m_state fb | None => TERM end.

(** The loop of [run] over [m_fibers]: the task taken, if any, the queue
    without it, and [tickle_me]. *)
Fixpoint fetch (tid : nat) (fs : list Fiber) (queue : list FiberAndThread) :
    outcome (option FiberAndThread * list FiberAndThread * bool) :=
  match queue with
  | [] => mret (None, [], false)
  | it :: queue =>
    if bool_decide (ft_thread it ≠ None ∧ ft_thread it ≠ Some tid) then
      '(taken, rest, _) ← fetch tid fs queue;
      mret (taken, it :: rest, true)
    else
      _ ← sylar_assert (bool_decide (ft_fiber it ≠ None ∨ ft_cb it ≠ None)) "it->fiber || it->cb";
      if bool_decide (state_of fs <$> ft_fiber it = Some EXEC) then
        '(taken, rest, tickle_me) ← fetch tid fs queue;
        mret (taken, it :: rest, tickle_me)
      else mret (Some it, queue, bool_decide (queue ≠ []))
  end.

(** [scheduleNoLock]: whether a tickle is needed, and the queue. *)
Definition scheduleNoLock (queue : list FiberAndThread) (ft : FiberAndThread) :
    bool * list FiberAndThread :=
  (bool_decide (queue = []),
   if bool_decide (ft_fiber ft ≠ None ∨ ft_cb ft ≠ None) then queue ++ [ft] else queue).

(** [schedule(begin, end)]: several tasks under one lock. *)
Fixpoint scheduleBatch (queue fts : list FiberAndThread) : bool * list FiberAndThread :=
  match fts with
  | [] => (false, queue)
  | ft :: fts =>
    let '(b, queue) := scheduleNoLock queue ft in
    let '(need_tickle, queue) := scheduleBatch queue fts in (b || need_tickle, queue)
  end.

(** [Scheduler::stopping]. *)
Definition stopping (st : Scheduler) : bool :=
  m_autoStop st && m_stopping st && bool_decide (m_fibers st = []) &&
  bool_decide (m_activeThreadCount st = 0).

(** ** One step of a thread *)

Definition set_queue (st : Scheduler) (q : list FiberAndThread) : Scheduler :=
  mkScheduler q (m_activeThreadCount st) (m_idleThreadCount st) (m_stopping st) (m_autoStop st)
    (fibers st) (threads st).

Definition set_fiber (st : Scheduler) (f : nat) (fb : Fiber) : Scheduler :=
  mkScheduler (m_fibers st) (m_activeThreadCount st) (m_idleThreadCount st) (m_stopping st)
    (m_autoStop st) (<[f := fb]> (fibers st)) (threads st).

Definition set_thread (st : Scheduler) (tid : nat) (t : thread) : Scheduler :=
  mkScheduler (m_fibers st) (m_activeThreadCount st) (m_idleThreadCount st) (m_stopping st)
    (m_autoStop st) (fibers st) (<[tid := t]> (threads st)).

(** [++m_activeThreadCount] and the like; the counters are unsigned. *)
Definition set_counts (st : Scheduler) (active idle : nat) : Scheduler :=
  mkScheduler (m_fibers st) active idle (m_stopping st) (m_autoStop st) (fibers st) (threads st).

Definition goto (st : Scheduler) (tid : nat) (t : thread) (p : pc) : Scheduler :=
  set_thread st tid (mkThread p (idle_fiber t) (cb_fiber t)).

Definition schedule (st : Scheduler) (ft : FiberAndThread) : Scheduler :=
  set_queue st (scheduleNoLock (m_fibers st) ft).2.

(** What the code inside a fiber does next. *)
Inductive action : Type :=
| DoSchedule (ft : FiberAndThread)
| DoYieldToReady
| DoYieldToHold
| DoEnd (e : ending).

(** The critical section: [m_fibers] is searched under the lock. *)
Definition step_top (st : Scheduler) (tid : nat) (t : thread) : outcome Scheduler :=
  '(taken, queue, tickle_me) ← fetch tid (fibers st) (m_fibers st);
  let st := set_queue st queue in
  mret match taken with
       | Some ft => goto (set_counts st (S (m_activeThreadCount st)) (m_idleThreadCount st)) tid t
                      (Fetched ft true tickle_me)
       | None => goto st tid t (Fetched ft_empty false tickle_me)
       end.

(** Switching to a fiber. *)
Definition enter (st : Scheduler) (tid : nat) (t : thread) (r : role) (f : nat) :
    outcome Scheduler :=
  fb ← deref (fibers st !! f);
  fb ← swapIn fb;
  mret (goto (set_fiber st f fb) tid t (Running r f)).

(** [new Fiber(cb)]: its name and the new state. *)
Definition new_fiber (st : Scheduler) (cb : option nat) : nat * Scheduler :=
  (length (fibers st),
   mkScheduler (m_fibers st) (m_activeThreadCount st) (m_idleThreadCount st) (m_stopping st)
     (m_autoStop st) (fibers st ++ [Fiber_new cb]) (threads st)).

(** [else if (ft.cb)]: the callback runs in the fiber kept for callbacks, or in
    a new one. *)
Definition step_cb (st : Scheduler) (tid : nat) (t : thread) (cb : nat) : outcome Scheduler :=
  match cb_fiber t with
  | Some g =>
    fb ← deref (fibers st !! g);
    fb ← Fiber_reset fb (Some cb);
    enter (set_fiber st g fb) tid t Cb g
  | None =>
    let '(g, st) := new_fiber st (Some cb) in
    enter st tid (mkThread (t_pc t) (idle_fiber t) (Some g)) Cb g
  end.

(** The last branch: no task to execute. *)
Definition step_no_task (st : Scheduler) (tid : nat) (t : thread) (is_active : bool) :
    outcome Scheduler :=
  if is_active
  then mret (goto (set_counts st (pred (m_activeThreadCount st)) (m_idleThreadCount st)) tid t Top)
  else if bool_decide (state_of (fibers st) (idle_fiber t) = TERM)
  then mret (goto st tid t Exited)
  else enter (set_counts st (m_activeThreadCount st) (S (m_idleThreadCount st)))
         tid t Idle (idle_fiber t).

(** The three-way branch of [run] on the task taken. *)
Definition step_fetched (st : Scheduler) (tid : nat) (t : thread) (ft : FiberAndThread)
    (is_active : bool) : outcome Scheduler :=
  match ft_fiber ft, ft_cb ft with
  | Some f, None =>
    if ended (state_of (fibers st) f) then step_no_task st tid t is_active
    else enter st tid t Task f
  | Some f, Some cb =>
    if ended (state_of (fibers st) f) then step_cb st tid t cb else enter st tid t Task f
  | None, Some cb => step_cb st tid t cb
  | None, None => step_no_task st tid t is_active
  end.

(** The code of the fiber [f]: [Scheduler::idle] in the idle fiber, the
    user's code, with its choice [a], in the others. A fiber whose callback is
    over has nothing left to run but the assertion that ends [MainFunc]. *)
Definition step_running (st : Scheduler) (tid : nat) (t : thread) (r : role) (f : nat)
    (a : action) : outcome Scheduler :=
  fb ← deref (fibers st !! f);
  _ ← sylar_assert (negb (m_done fb)) "never reach";
  let back fb := mret (goto (set_fiber st f fb) tid t (Back r f)) in
  match r with
  | Idle => if stopping st then back (MainFunc_end fb Returned)
            else fb ← YieldToHold fb; back fb
  | _ =>
    match a with
    | DoSchedule ft => mret (schedule st ft)
    | DoYieldToReady => fb ← YieldToReady fb; back fb
    | DoYieldToHold => fb ← YieldToHold fb; back fb
    | DoEnd e => back (MainFunc_end fb e)
    end
  end.

(** [--m_activeThreadCount] or [--m_idleThreadCount] after the switch back. *)
Definition step_back (st : Scheduler) (tid : nat) (t : thread) (r : role) (f : nat) : Scheduler :=
  goto match r with
       | Idle => set_counts st (m_activeThreadCount st) (pred (m_idleThreadCount st))
       | _ => set_counts st (pred (m_activeThreadCount st)) (m_idleThreadCount st)
       end tid t (Settle r f).

(** What [run] does with a fiber that came back. *)
Definition step_settle (st : Scheduler) (tid : nat) (t : thread) (r : role) (f : nat) :
    outcome Scheduler :=
  fb ← deref (fibers st !! f);
  let top st t := goto st tid t Top in
  let no_cb := mkThread (t_pc t) (idle_fiber t) None in
  let hold := set_fiber st f (set_state fb HOLD) in
  match r with
  | Task =>
    mret (if bool_decide (m_state fb = READY) then top (schedule st (mkFT (Some f) None None)) t
          else if ended (m_state fb) then top st t
          else top hold t)
  | Cb =>
    if bool_decide (m_state fb = READY)
    then mret (top (schedule st (mkFT (Some f) None None)) no_cb)
    else if ended (m_state fb) then fb ← Fiber_reset fb None; mret (top (set_fiber st f fb) t)
    else mret (top hold no_cb)
  | Idle => mret (if ended (m_state fb) then top st t else top hold t)
  end.

(** One step of thread [tid] in [run]. *)
Definition run_step (st : Scheduler) (tid : nat) (a : action) : outcome Scheduler :=
  t ← deref (threads st !! tid);
  match t_pc t with
  | Top => step_top st tid t
  | Fetched ft is_active _ => step_fetched st tid t ft is_active
  | Running r f => step_running st tid t r f a
  | Back r f => mret (step_back st tid t r f)
  | Settle r f => step_settle st tid t r f
  | Exited => Stuck
  end.

(** ** Starting and stopping *)

Definition Scheduler_new : Scheduler := mkScheduler [] 0 0 true false [] [].

(** The threads of the pool, each of which creates its idle fiber and enters the
    loop. *)
Definition start_threads (st : Scheduler) (n : nat) : Scheduler :=
  mkScheduler (m_fibers st) (m_activeThreadCount st) (m_idleThreadCount st) false
    (m_autoStop st) (fibers st ++ replicate n (Fiber_new (Some 0)))
    ((λ i, mkThread Top (length (fibers st) + i) None) <$> seq 0 n).

(** [Scheduler::start] with [n] pool threads; it does nothing when already
    started. *)
Definition start (st : Scheduler) (n : nat) : outcome Scheduler :=
  if m_stopping st then
    _ ← sylar_assert (bool_decide (threads st = [])) "m_threads.empty()";
    mret (start_threads st n)
  else mret st.

Definition set_stopping (st : Scheduler) : Scheduler :=
  mkScheduler (m_fibers st) (m_activeThreadCount st) (m_idleThreadCount st) true true
    (fibers st) (threads st).

(** [Scheduler::stop], up to the joins; [this] is whether the scheduler of the
    calling thread is this one, as it must be if the scheduler uses its caller's
    thread, and must not be otherwise. *)
Definition stop (use_caller this : bool) (st : Scheduler) : outcome Scheduler :=
  _ ← sylar_assert (bool_decide (use_caller = this)) "GetThis() == this";
  mret (set_stopping st).
