(* ===== verification/SchedulerSpec.v ===== *)
(** Invariants of the scheduler: its counters, the ownership of fibers, and
    what holds when the pool has stopped. *)

From stdpp Require Import base numbers list sets option strings tactics relations.
From Stdlib Require Import ZArith Lia.
From S2P Require Import Prelude Fiber Scheduler.

(** ** Counting threads *)

Section count.
Context {A : Type} (P : A → bool).

Definition count (l : list A) : nat := length (filter (λ x, P x = true) l).

Lemma count_app l1 l2 : count (l1 ++ l2) = count l1 + count l2.
Proof. unfold count. by rewrite filter_app, length_app. Qed.

Lemma count_cons x l : count (x :: l) = Nat.b2n (P x) + count l.
Proof. unfold count. rewrite filter_cons. by destruct (P x). Qed.

Lemma count_insert l i x y :
  l !! i = Some x → count (<[i := y]> l) + Nat.b2n (P x) = count l + Nat.b2n (P y).
Proof.
  intros Hi. pose proof (lookup_lt_Some _ _ _ Hi).
  rewrite insert_take_drop by done.
  rewrite <-(take_drop_middle l i x Hi) at 3. rewrite !count_app, !count_cons. lia.
Qed.

Lemma count_zero l x : count l = 0 → x ∈ l → P x = false.
Proof.
  unfold count. intros Hl Hx. destruct (P x) eqn:E; [|done].
  apply length_zero_iff_nil in Hl. exfalso.
  by apply (filter_nil_not_elem_of (λ x, P x = true) l x Hl).
Qed.

Lemma count_pos l i x : l !! i = Some x → P x = true → 0 < count l.
Proof.
  intros Hi Hp. destruct (count l) eqn:E; [|lia].
  apply list_elem_of_lookup_2 in Hi. by rewrite (count_zero l x E Hi) in Hp.
Qed.

End count.

(** A thread that has a task in hand, and one inside the idle fiber. *)
Definition active (t : thread) : bool :=
  match t_pc t with
  | Fetched _ b _ => b
  | Running r _ | Back r _ => bool_decide (r ≠ Idle)
  | _ => false
  end.

Definition idling (t : thread) : bool :=
  match t_pc t with
  | Running r _ | Back r _ => bool_decide (r = Idle)
  | _ => false
  end.

(** Fibers a thread is inside of or has just come back from. *)
Definition inside (p : pc) (f : nat) : Prop :=
  match p with
  | Running _ g | Back _ g | Settle _ g => g = f
  | _ => False
  end.

Record counts_ok (st : Scheduler) : Prop := {
  ok_active : m_activeThreadCount st = count active (threads st);
  ok_idle : m_idleThreadCount st = count idling (threads st);
  ok_empty i t ft k :
    threads st !! i = Some t → t_pc t = Fetched ft false k → ft = ft_empty;
  ok_exec f : state_of (fibers st) f = EXEC →
    ∃ i t, threads st !! i = Some t ∧ inside (t_pc t) f
}.

(** Every step of thread [tid] replaces that thread, and possibly one fiber
    that it is at. *)
Lemma counts_step st st' tid t t' :
  counts_ok st → threads st !! tid = Some t → threads st' = <[tid := t']> (threads st) →
  m_activeThreadCount st' + Nat.b2n (active t) = m_activeThreadCount st + Nat.b2n (active t') →
  m_idleThreadCount st' + Nat.b2n (idling t) = m_idleThreadCount st + Nat.b2n (idling t') →
  (∀ ft k, t_pc t' = Fetched ft false k → ft = ft_empty) →
  (∀ f, state_of (fibers st') f = EXEC → inside (t_pc t') f ∨
        state_of (fibers st) f = EXEC ∧ ¬ inside (t_pc t) f) →
  counts_ok st'.
Proof.
  intros [Ha Hi He Hx] Ht Hts Hca Hci Hemp Hex.
  pose proof (count_insert active _ _ _ t' Ht). pose proof (count_insert idling _ _ _ t' Ht).
  pose proof (lookup_lt_Some _ _ _ Ht). split; rewrite ?Hts; [lia|lia| |].
  - intros i u ft k Hu Hp. destruct (decide (i = tid)) as [->|].
    + rewrite list_lookup_insert_eq in Hu by done. injection Hu as <-. by eapply Hemp.
    + rewrite list_lookup_insert_ne in Hu by done. by eapply He.
  - intros f Hf. destruct (Hex f Hf) as [Hin|[Hold Hnin]].
    + exists tid, t'. by rewrite list_lookup_insert_eq.
    + destruct (Hx f Hold) as (i & u & Hu & Hin). exists i, u.
      rewrite list_lookup_insert_ne; [done|]. intros ->. congruence.
Qed.

Lemma state_of_insert fs f fb g :
  state_of (<[f := fb]> fs) g = EXEC →
  g = f ∧ m_state fb = EXEC ∨ g ≠ f ∧ state_of fs g = EXEC.
Proof.
  unfold state_of. destruct (decide (g = f)) as [->|Hne].
  - destruct (decide (f < length fs)).
    + rewrite list_lookup_insert_eq by done. auto.
    + rewrite list_insert_ge by lia. rewrite lookup_ge_None_2 by lia. done.
  - rewrite list_lookup_insert_ne by done. auto.
Qed.

Lemma state_of_app fs cb g :
  state_of (fs ++ [Fiber_new cb]) g = EXEC → state_of fs g = EXEC.
Proof.
  unfold state_of. destruct (decide (g < length fs)).
  - by rewrite lookup_app_l.
  - rewrite lookup_app_r by lia. destruct (g - length fs) as [|m]; simpl; [done|].
    by destruct m.
Qed.

Lemma swapIn_state fb fb' : swapIn fb = Ok fb' → fb' = set_state fb EXEC ∧ m_state fb ≠ EXEC.
Proof.
  unfold swapIn, sylar_assert. case_bool_decide; osimpl; intros Hs; [|done]. by injection Hs as <-.
Qed.

Lemma Fiber_reset_state fb cb fb' : Fiber_reset fb cb = Ok fb' → m_state fb' = INIT.
Proof.
  unfold Fiber_reset. intros (_ & _ & H)%outcome_bind_ok.
  apply outcome_bind_ok in H as (_ & _ & [= <-]). done.
Qed.

(** Entering a fiber: the whole of the thread's new state. *)
Lemma enter_inv st tid t r f st' :
  enter st tid t r f = Ok st' →
  ∃ fb, fibers st !! f = Some fb ∧ m_state fb ≠ EXEC ∧
    st' = goto (set_fiber st f (set_state fb EXEC)) tid t (Running r f).
Proof.
  unfold enter. intros (fb & Hfb%deref_ok & H)%outcome_bind_ok.
  apply outcome_bind_ok in H as (fb' & [-> Hne]%swapIn_state & [= <-]). by exists fb.
Qed.

(** ** The counters *)

Section counters.
Context (st : Scheduler) (tid : nat) (t : thread).
Hypothesis Hok : counts_ok st.
Hypothesis Ht : threads st !! tid = Some t.

Lemma active_pos : active t = true → 0 < m_activeThreadCount st.
Proof. intros. rewrite (ok_active _ Hok). by eapply count_pos. Qed.

Lemma idling_pos : idling t = true → 0 < m_idleThreadCount st.
Proof. intros. rewrite (ok_idle _ Hok). by eapply count_pos. Qed.

Lemma exec_other f :
  state_of (fibers st) f = EXEC → (∀ g, ¬ inside (t_pc t) g) →
  state_of (fibers st) f = EXEC ∧ ¬ inside (t_pc t) f.
Proof. auto. Qed.

Lemma step_top_counts st' : t_pc t = Top → step_top st tid t = Ok st' → counts_ok st'.
Proof.
  intros Hpc. unfold step_top. intros (((taken & queue) & tm) & _ & H)%outcome_bind_ok.
  injection H as <-. destruct taken as [ft|].
  - eapply (counts_step st _ tid t _ Hok Ht); [reflexivity|..]; unfold active, idling; rewrite ?Hpc; simpl;
      [lia|lia|done|]. intros f Hf. right. auto.
  - eapply (counts_step st _ tid t _ Hok Ht); [reflexivity|..]; unfold active, idling; rewrite ?Hpc; simpl;
      [lia|lia| |intros f Hf; right; auto]. by intros ? ? [= ->].
Qed.

(** Entering a fiber from outside. *)
Lemma enter_counts st0 t' r f st' :
  threads st0 = threads st → (∀ g, ¬ inside (t_pc t) g) →
  (∀ g, state_of (fibers st0) g = EXEC → state_of (fibers st) g = EXEC) →
  m_activeThreadCount st0 + Nat.b2n (active t) = m_activeThreadCount st + Nat.b2n (bool_decide (r ≠ Idle)) →
  m_idleThreadCount st0 + Nat.b2n (idling t) = m_idleThreadCount st + Nat.b2n (bool_decide (r = Idle)) →
  enter st0 tid t' r f = Ok st' → counts_ok st'.
Proof.
  intros Hts Hnin Hst Ha Hi (fb & Hfb & Hne & ->)%enter_inv.
  eapply (counts_step st _ tid t _ Hok Ht); simpl; [by rewrite Hts|done|done|done|].
  intros g [[-> _]|[Hgf Hg]]%state_of_insert; [by left|right]. auto.
Qed.

Lemma step_cb_counts st' ft k cb :
  t_pc t = Fetched ft true k → step_cb st tid t cb = Ok st' → counts_ok st'.
Proof.
  intros Hpc. unfold step_cb.
  assert (active t = true) as Hact by (unfold active; by rewrite Hpc).
  assert (idling t = false) as Hidl by (unfold idling; by rewrite Hpc).
  assert (∀ g, ¬ inside (t_pc t) g) as Hnin by (rewrite Hpc; auto).
  destruct (cb_fiber t) as [g|].
  - intros (fb & Hfb & H)%outcome_bind_ok.
    apply outcome_bind_ok in H as (fb' & Hst%Fiber_reset_state & H). revert H.
    apply enter_counts; rewrite ?Hact, ?Hidl; try done.
    intros h [[-> ?]|[_ ?]]%state_of_insert; [congruence|done].
  - simpl. apply enter_counts; rewrite ?Hact, ?Hidl; try done. simpl. apply state_of_app.
Qed.

Lemma step_no_task_counts st' ft is_active k :
  t_pc t = Fetched ft is_active k → step_no_task st tid t is_active = Ok st' → counts_ok st'.
Proof.
  intros Hpc. unfold step_no_task.
  assert (active t = is_active) as Hact by (unfold active; by rewrite Hpc).
  assert (idling t = false) as Hidl by (unfold idling; by rewrite Hpc).
  assert (∀ g, ¬ inside (t_pc t) g) as Hnin by (rewrite Hpc; auto).
  destruct is_active; [|case_bool_decide].
  - pose proof (active_pos Hact). intros [= <-].
    eapply (counts_step st _ tid t _ Hok Ht); [reflexivity|..]; rewrite ?Hact, ?Hidl; simpl; [lia|lia|done|].
    auto.
  - intros [= <-].
    eapply (counts_step st _ tid t _ Hok Ht); [reflexivity|..]; rewrite ?Hact, ?Hidl; simpl; [lia|lia|done|].
    auto.
  - apply enter_counts; rewrite ?Hact, ?Hidl; simpl; try done; lia.
Qed.

Lemma step_fetched_counts st' ft is_active k :
  t_pc t = Fetched ft is_active k → step_fetched st tid t ft is_active = Ok st' → counts_ok st'.
Proof.
  intros Hpc. unfold step_fetched.
  assert (is_active = false → ft = ft_empty) as Hemp.
  { intros ->. by eapply (ok_empty _ Hok). }
  assert (∀ f, ft_fiber ft = Some f → enter st tid t Task f = Ok st' → counts_ok st') as Henter.
  { intros f Hf. apply enter_counts; unfold active, idling; rewrite ?Hpc; simpl; try done; [tauto|].
    destruct is_active; [done|]. by rewrite Hemp in Hf. }
  destruct (ft_fiber ft) as [f|] eqn:Ef, (ft_cb ft) as [cb|] eqn:Ec; try case_match; eauto;
    try by eapply step_no_task_counts.
  all: destruct is_active; [by eapply step_cb_counts|by rewrite Hemp in Ec].
Qed.

Lemma step_running_counts st' r f a :
  t_pc t = Running r f → step_running st tid t r f a = Ok st' → counts_ok st'.
Proof.
  intros Hpc. unfold step_running. intros (fb & Hfb & H)%outcome_bind_ok.
  apply outcome_bind_ok in H as (_ & _ & H).
  assert (∀ fb', counts_ok (goto (set_fiber st f fb') tid t (Back r f))) as Hback.
  { intros fb'. eapply (counts_step st _ tid t _ Hok Ht); [reflexivity|..]; unfold active, idling;
      rewrite ?Hpc; simpl; [done|done|done|].
    intros g [[-> _]|[Hne Hg]]%state_of_insert; [by left|right]. split; [done|].
    congruence. }
  assert (∀ q, counts_ok (set_queue st q)) as Hq by by destruct Hok.
  destruct r; [destruct a..|destruct (stopping st)]; simpl in H;
    repeat match type of H with
    | (_ ≫= _) = Ok _ => apply outcome_bind_ok in H as (? & ? & H); simpl in H
    end; injection H as <-; first [apply Hback | apply Hq].
Qed.

Lemma step_back_counts r f : t_pc t = Back r f → counts_ok (step_back st tid t r f).
Proof.
  intros Hpc. pose proof active_pos as Ha. pose proof idling_pos as Hi.
  unfold active, idling in Ha, Hi. rewrite Hpc in Ha, Hi.
  unfold step_back. destruct r;
    (eapply (counts_step st _ tid t _ Hok Ht); [reflexivity|..]; unfold active, idling;
     rewrite ?Hpc; simpl in *; [lia|lia|done|]);
    intros g Hg; destruct (decide (f = g)); auto.
Qed.

Lemma settle_counts st' t' f :
  t_pc t = Settle Task f ∨ t_pc t = Settle Cb f ∨ t_pc t = Settle Idle f →
  threads st' = <[tid := t']> (threads st) → t_pc t' = Top →
  m_activeThreadCount st' = m_activeThreadCount st →
  m_idleThreadCount st' = m_idleThreadCount st →
  (∀ g, state_of (fibers st') g = EXEC → g ≠ f ∧ state_of (fibers st) g = EXEC) →
  counts_ok st'.
Proof.
  intros Hpc Hts Hp' Ha Hi Hst.
  eapply (counts_step st _ tid t _ Hok Ht Hts); unfold active, idling; rewrite Hp'.
  - destruct Hpc as [->|[->| ->]]; simpl; lia.
  - destruct Hpc as [->|[->| ->]]; simpl; lia.
  - done.
  - intros g [Hne Hg]%Hst. right. split; [done|]. by destruct Hpc as [->|[->| ->]]; simpl.
Qed.

Lemma step_settle_counts st' r f :
  t_pc t = Settle r f → step_settle st tid t r f = Ok st' → counts_ok st'.
Proof.
  intros Hpc. unfold step_settle. intros (fb & Hfb%deref_ok & H)%outcome_bind_ok.
  assert (state_of (fibers st) f = m_state fb) as Hsf by (unfold state_of; by rewrite Hfb).
  assert (t_pc t = Settle Task f ∨ t_pc t = Settle Cb f ∨ t_pc t = Settle Idle f) as Hr
    by (rewrite Hpc; destruct r; auto).
  assert (∀ fb' g, m_state fb' ≠ EXEC → state_of (<[f := fb']> (fibers st)) g = EXEC →
    g ≠ f ∧ state_of (fibers st) g = EXEC) as Hins.
  { intros fb' g Hne [[_ ?]|?]%state_of_insert; [congruence|done]. }
  assert (∀ g, m_state fb ≠ EXEC → state_of (fibers st) g = EXEC →
    g ≠ f ∧ state_of (fibers st) g = EXEC) as Hsame.
  { intros g Hne Hg. split; [congruence|done]. }
  assert (ended (m_state fb) = true → m_state fb ≠ EXEC) as Hend by by destruct (m_state fb).
  destruct r; repeat case_match; try (apply outcome_bind_ok in H as (fb' & ? & H));
    injection H as <-; eapply settle_counts; try done; simpl; intros g;
    repeat match goal with H : bool_decide _ = true |- _ => apply bool_decide_eq_true in H end;
    try (apply Hsame; (congruence || auto)); try by apply Hins.
  apply Hins. by erewrite Fiber_reset_state.
Qed.

End counters.

(** Steps of a thread keep the counters exact, whatever user code does. *)
Lemma run_step_counts st tid a st' : counts_ok st → run_step st tid a = Ok st' → counts_ok st'.
Proof.
  intros Hok. unfold run_step. intros (t & Ht%deref_ok & H)%outcome_bind_ok.
  destruct (t_pc t) as [|ft b k|r f|r f|r f|] eqn:Hpc; [| | | | |done].
  - by eapply step_top_counts.
  - by eapply step_fetched_counts.
  - by eapply step_running_counts.
  - injection H as <-. by apply step_back_counts.
  - by eapply step_settle_counts.
Qed.
