(* ===== verification/SchedulerOwn.v ===== *)
(** Ownership of fibers by the threads of a scheduler: as long as user code
    schedules a fiber only while it is running or nobody has it, no fiber is
    ever entered by two threads and no assertion of the scheduler fails. *)

From stdpp Require Import base numbers list sets option strings tactics relations.
From Stdlib Require Import ZArith Lia.
From S2P Require Import Prelude Fiber Scheduler SchedulerSpec.

(** ** The discipline of user code *)

Definition queued (q : list FiberAndThread) : list nat := omap ft_fiber q.

Definition held (p : pc) : option nat :=
  match p with
  | Fetched ft _ _ => ft_fiber ft
  | Running _ f | Back _ f | Settle _ f => Some f
  | Top | Exited => None
  end.

(** The fibers a thread has: its idle fiber, the one kept for callbacks and the
    one it is dealing with. *)
Definition owns (t : thread) (f : nat) : Prop :=
  f = idle_fiber t ∨ cb_fiber t = Some f ∨ held (t_pc t) = Some f.

Definition fib (fs : list Fiber) (f : nat) (P : Fiber → Prop) : Prop :=
  ∃ fb, fs !! f = Some fb ∧ P fb.

(** A fiber that can be switched to, and one that is being executed. *)
Definition runnable (fb : Fiber) : Prop :=
  m_state fb ≠ EXEC ∧ ended (m_state fb) = false ∧ m_done fb = false.

Definition executing (fb : Fiber) : Prop := m_state fb = EXEC ∧ m_done fb = false.

(** A task may be scheduled when its fiber is not queued yet and is either
    being executed by user code or in nobody's hands. *)
Definition may_schedule (st : Scheduler) (ft : FiberAndThread) : Prop :=
  ∀ f, ft_fiber ft = Some f → (f ∉ queued (m_fibers st)) ∧
    (∀ i t, threads st !! i = Some t → idle_fiber t ≠ f) ∧
    (fib (fibers st) f executing ∨
     fib (fibers st) f runnable ∧ ∀ i t, threads st !! i = Some t → ¬ owns t f).

(** User code that is itself queued may only suspend itself. *)
Definition may_do (st : Scheduler) (tid : nat) (a : action) : Prop :=
  ∀ t r f, threads st !! tid = Some t → t_pc t = Running r f → r ≠ Idle →
    match a with
    | DoSchedule ft => may_schedule st ft
    | DoYieldToHold => True
    | DoYieldToReady | DoEnd _ => f ∉ queued (m_fibers st)
    end.

(** ** The invariant *)

(** What a thread's position says about the fibers it has. *)
Definition pc_inv (fs : list Fiber) (q : list nat) (t : thread) : Prop :=
  match t_pc t with
  | Top | Exited => True
  | Fetched ft b _ =>
    (b = false → ft = ft_empty) ∧
    ∀ f, ft_fiber ft = Some f →
      f ≠ idle_fiber t ∧ cb_fiber t ≠ Some f ∧ (f ∉ q) ∧ fib fs f runnable
  | Running r f =>
    match r with
    | Task => f ≠ idle_fiber t ∧ cb_fiber t ≠ Some f
    | Cb => cb_fiber t = Some f
    | Idle => f = idle_fiber t
    end ∧ fib fs f executing
  | Back r f | Settle r f =>
    match r with
    | Task => f ≠ idle_fiber t ∧ cb_fiber t ≠ Some f
    | Cb => cb_fiber t = Some f
    | Idle => f = idle_fiber t
    end ∧
    (fib fs f executing ∨
     (f ∉ q) ∧ fib fs f (λ fb, m_state fb = READY ∧ m_done fb = false ∧ r ≠ Idle ∨
                             m_state fb = EXEC ∧ r ≠ Idle ∨ m_state fb = TERM ∨
                             m_state fb = EXCEPT ∧ r ≠ Idle))
  end.

Record thread_inv (fs : list Fiber) (q : list nat) (t : thread) : Prop := {
  ti_pc : pc_inv fs q t;
  ti_cb_idle : cb_fiber t ≠ Some (idle_fiber t);
  ti_idle_q : idle_fiber t ∉ q;
  ti_idle : held (t_pc t) ≠ Some (idle_fiber t) →
            fib fs (idle_fiber t) (λ fb, runnable fb ∨ m_state fb = TERM);
  ti_cb g : cb_fiber t = Some g → held (t_pc t) ≠ Some g →
            (g ∉ q) ∧ fib fs g (λ fb, m_state fb = INIT)
}.

Record own_inv (st : Scheduler) : Prop := {
  oi_threads i t : threads st !! i = Some t → thread_inv (fibers st) (queued (m_fibers st)) t;
  oi_disjoint i j t u f :
    threads st !! i = Some t → threads st !! j = Some u → i ≠ j → owns t f → owns u f → False;
  oi_tasks : Forall (λ ft, ft_fiber ft ≠ None ∨ ft_cb ft ≠ None) (m_fibers st);
  oi_NoDup : NoDup (queued (m_fibers st));
  oi_queued f : f ∈ queued (m_fibers st) →
    fib (fibers st) f executing ∨
    fib (fibers st) f runnable ∧ ∀ i t, threads st !! i = Some t → ¬ owns t f;
  oi_stack : Forall (λ fb, m_stack fb = true) (fibers st)
}.

Lemma fib_mono fs f (P Q : Fiber → Prop) : (∀ fb, P fb → Q fb) → fib fs f P → fib fs f Q.
Proof. intros HPQ (fb & ? & ?). exists fb. auto. Qed.

Lemma fib_frame fs fs' f P : fs' !! f = fs !! f → fib fs f P → fib fs' f P.
Proof. unfold fib. by intros ->. Qed.

Lemma fib_insert fs f fb (P : Fiber → Prop) : f < length fs → P fb → fib (<[f := fb]> fs) f P.
Proof. intros Hf HP. exists fb. by rewrite list_lookup_insert_eq. Qed.

Lemma fib_lt fs f P : fib fs f P → f < length fs.
Proof. intros (fb & Hf & _). by eapply lookup_lt_Some. Qed.

(** A thread's invariant depends on its own fibers only, and on the queue not
    getting one of them unless it is being executed. *)
Lemma thread_frame fs fs' q q' t :
  thread_inv fs q t →
  (∀ f, owns t f → fs' !! f = fs !! f) →
  (∀ f, owns t f → f ∈ q' → f ∈ q ∨ fib fs f executing ∧ f ≠ idle_fiber t) →
  thread_inv fs' q' t.
Proof.
  intros [Hpc Hci Hiq Hi Hc] Hfs Hq.
  assert (∀ f P, owns t f → fib fs f P → fib fs' f P) as Hfib.
  { intros f P Hf. apply fib_frame. auto. }
  assert (∀ f P, owns t f → f ∉ q → fib fs f P → (∀ fb, P fb → ¬ executing fb) → f ∉ q') as Hnq.
  { intros f P Hf Hfq (fb & Hfb & HP) Hex Hin.
    destruct (Hq f Hf Hin) as [|[(fb' & Hfb' & Hex') _]]; [done|]. simplify_eq. by eapply Hex. }
  assert (∀ f P, owns t f → fib fs f executing ∨ (f ∉ q) ∧ fib fs f P →
    fib fs' f executing ∨ (f ∉ q') ∧ fib fs' f P) as Hback.
  { intros f P Hf [Hex|[Hfq (fb & Hfb & HP)]]; [left; auto|].
    destruct (decide (m_state fb = EXEC ∧ m_done fb = false)) as [Hex|Hnex].
    - left. apply (Hfib f); [done|]. by exists fb.
    - right. split; [|apply (Hfib f); [done|by exists fb]].
      apply (Hnq f (λ fb', fb' = fb)); [done|done|by exists fb|]. by intros ? ->. }
  split; [|done| | |].
  - unfold pc_inv in *. destruct (t_pc t) as [|ft b k|r f|r f|r f|] eqn:Ep; try done.
    + destruct Hpc as [Hb Hf]. split; [done|]. intros f Hff.
      assert (owns t f) as Hown by (unfold owns; rewrite Ep; auto).
      destruct (Hf f Hff) as (? & ? & Hfq & Hr). split_and!; [done|done| |by apply Hfib].
      apply (Hnq f runnable); [done|done|done|]. by intros fb (? & _ & _) [? _].
    + destruct Hpc as [? Hr]. split; [done|]. apply Hfib; [|done]. unfold owns. rewrite Ep. auto.
    + destruct Hpc as [? Hr]. split; [done|]. apply Hback; [|done]. unfold owns. rewrite Ep. auto.
    + destruct Hpc as [? Hr]. split; [done|]. apply Hback; [|done]. unfold owns. rewrite Ep. auto.
  - intros Hin. destruct (Hq (idle_fiber t)) as [|[_ ?]]; [by left|done..].
  - intros Hh. apply Hfib; [by left|auto].
  - intros g Hg Hh. destruct (Hc g Hg Hh) as [Hgq Hgi].
    assert (owns t g) as Hown by (unfold owns; auto).
    split; [|by apply Hfib]. apply (Hnq g (λ fb, m_state fb = INIT)); [done|done|done|].
    intros fb Hin [? _]. congruence.
Qed.

(** A step of thread [tid]. *)
Lemma own_step st st' tid t t' :
  own_inv st → threads st !! tid = Some t → threads st' = <[tid := t']> (threads st) →
  (∀ j u f, j ≠ tid → threads st !! j = Some u → owns u f → fibers st' !! f = fibers st !! f) →
  (∀ j u f, j ≠ tid → threads st !! j = Some u → owns u f → f ∈ queued (m_fibers st') →
     f ∈ queued (m_fibers st) ∨ fib (fibers st) f executing ∧ f ≠ idle_fiber u) →
  (∀ f, owns t' f → owns t f ∨ ∀ j u, threads st !! j = Some u → ¬ owns u f) →
  thread_inv (fibers st') (queued (m_fibers st')) t' →
  Forall (λ ft, ft_fiber ft ≠ None ∨ ft_cb ft ≠ None) (m_fibers st') →
  NoDup (queued (m_fibers st')) →
  (∀ f, f ∈ queued (m_fibers st') → fib (fibers st') f executing ∨
     fib (fibers st') f runnable ∧ ¬ owns t' f ∧
     ∀ j u, j ≠ tid → threads st !! j = Some u → ¬ owns u f) →
  Forall (λ fb, m_stack fb = true) (fibers st') →
  own_inv st'.
Proof.
  intros [Hth Hdis _ _ _ _] Ht Hts Hfs Hq Hown Hinv Htasks Hnd Hqd Hstk.
  pose proof (lookup_lt_Some _ _ _ Ht) as Hlt.
  assert (∀ j u, threads st' !! j = Some u →
    j = tid ∧ u = t' ∨ j ≠ tid ∧ threads st !! j = Some u) as Hcase.
  { intros j u. rewrite Hts. destruct (decide (j = tid)) as [->|Hne].
    - rewrite list_lookup_insert_eq by done. intros [= ->]. auto.
    - rewrite list_lookup_insert_ne by done. auto. }
  assert (∀ j u f, j ≠ tid → threads st !! j = Some u → owns t' f → owns u f → False) as Hx.
  { intros j u f Hne Hu Ho Hou. destruct (Hown f Ho) as [Hot|Hno]; [|by eapply Hno].
    by eapply (Hdis j tid u t f). }
  split; [| |done|done| |done].
  - intros j u [[-> ->]|[Hne Hu]]%Hcase; [done|].
    eapply thread_frame; [by eapply Hth| |]; intros f Ho; [by eapply Hfs|].
    intros Hf. by eapply Hq.
  - intros i j v u f [[-> ->]|[Hi Hv]]%Hcase [[-> ->]|[Hj Hu]]%Hcase Hij Hov Hou;
      [done|by eapply Hx|by eapply Hx|by eapply (Hdis i j)].
  - intros f [Hex|(Hr & Hno & Hoth)]%Hqd; [by left|right]. split; [done|].
    intros j u [[-> ->]|[Hne Hu]]%Hcase; [done|by eapply Hoth].
Qed.

(** ** Taking a task *)

Lemma fetch_spec tid fs queue :
  Forall (λ ft, ft_fiber ft ≠ None ∨ ft_cb ft ≠ None) queue →
  ∃ taken rest k, fetch tid fs queue = Ok (taken, rest, k) ∧
    match taken with
    | None => rest = queue ∧ Forall (λ ft, ft_thread ft ≠ None ∧ ft_thread ft ≠ Some tid ∨
                                           state_of fs <$> ft_fiber ft = Some EXEC) queue
    | Some ft => ∃ q1 q2, queue = q1 ++ ft :: q2 ∧ rest = q1 ++ q2 ∧
        (ft_thread ft = None ∨ ft_thread ft = Some tid) ∧
        state_of fs <$> ft_fiber ft ≠ Some EXEC ∧
        Forall (λ ft, ft_thread ft ≠ None ∧ ft_thread ft ≠ Some tid ∨
                      state_of fs <$> ft_fiber ft = Some EXEC) q1
    end.
Proof.
  induction 1 as [|it queue Hit _ (taken & rest & k & IH & Hspec)]; simpl.
  { by eexists None, [], false. }
  case_bool_decide as Hthr;
    [|rewrite (bool_decide_true (ft_fiber it ≠ None ∨ ft_cb it ≠ None)) by done; osimpl;
      case_bool_decide as Hex].
  - rewrite IH. osimpl. eexists _, _, _. split; [done|]. destruct taken as [ft|].
    + destruct Hspec as (q1 & q2 & -> & -> & ? & ? & ?). exists (it :: q1), q2. split_and!; auto.
    + destruct Hspec as [-> ?]. auto.
  - rewrite IH. osimpl. eexists _, _, _. split; [done|]. destruct taken as [ft|].
    + destruct Hspec as (q1 & q2 & -> & -> & ? & ? & ?). exists (it :: q1), q2. split_and!; auto.
    + destruct Hspec as [-> ?]. auto.
  - eexists (Some it), queue, _. split; [done|]. exists [], queue. split_and!; [done|done| |done|done].
    destruct (ft_thread it) as [n|]; [|by left]. right. f_equal.
    destruct (decide (n = tid)); [done|]. exfalso. apply Hthr. split; congruence.
Qed.

Lemma queued_app q1 q2 : queued (q1 ++ q2) = queued q1 ++ queued q2.
Proof. unfold queued. apply omap_app. Qed.

Lemma queued_cons ft q : queued (ft :: q) = option_list (ft_fiber ft) ++ queued q.
Proof. unfold queued. simpl. by destruct (ft_fiber ft). Qed.

(** Scheduling a task, from any thread. *)
Lemma schedule_own st ft : own_inv st → may_schedule st ft → own_inv (schedule st ft).
Proof.
  intros Hown Hmay. unfold schedule, scheduleNoLock. cbn [snd]. case_bool_decide as Hne; [|by destruct Hown; split].
  destruct Hown as [Hth Hdis Htk Hnd Hqd Hstk].
  assert (queued (m_fibers st ++ [ft]) = queued (m_fibers st) ++ option_list (ft_fiber ft)) as Hq.
  { rewrite queued_app, queued_cons. unfold queued at 2. simpl. by rewrite app_nil_r. }
  split; simpl; rewrite ?Hq; try done.
  - intros i u Hu. eapply thread_frame; [by eapply Hth|done|]. intros f Ho.
    rewrite elem_of_app. intros [?|Hf]; [by left|right].
    destruct (ft_fiber ft) as [f'|] eqn:Eft; [|by apply not_elem_of_nil in Hf].
    apply list_elem_of_singleton in Hf as ->.
    destruct (Hmay f' Eft) as (_ & Hni & [Hex|[_ Hno]]).
    + split; [done|]. intros ->. by eapply Hni.
    + exfalso. by eapply Hno.
  - apply Forall_app. split; [done|]. by apply Forall_singleton.
  - apply NoDup_app. split_and!; [done| |by destruct (ft_fiber ft); simpl; repeat constructor; set_solver].
    intros f Hf Hin. destruct (ft_fiber ft) as [f'|] eqn:Eft; [|by apply not_elem_of_nil in Hin].
    apply list_elem_of_singleton in Hin as ->. by destruct (Hmay f' Eft).
  - intros f [?|Hf]%elem_of_app; [by apply Hqd|].
    destruct (ft_fiber ft) as [f'|] eqn:Eft; [|by apply not_elem_of_nil in Hf].
    apply list_elem_of_singleton in Hf as ->. by destruct (Hmay f' Eft) as (_ & _ & ?).
Qed.

(** ** Steps that keep the queue *)

Section steps.
Context (st : Scheduler) (tid : nat) (t : thread).
Hypothesis Hown : own_inv st.
Hypothesis Ht : threads st !! tid = Some t.

Let Hti : thread_inv (fibers st) (queued (m_fibers st)) t := oi_threads st Hown tid t Ht.

(** No fiber changes hands. *)
Lemma own_same st' t' :
  threads st' = <[tid := t']> (threads st) → fibers st' = fibers st →
  m_fibers st' = m_fibers st → (∀ f, owns t' f → owns t f) →
  thread_inv (fibers st) (queued (m_fibers st)) t' → own_inv st'.
Proof.
  intros Hts Hfs Hq Ho Hinv. destruct Hown as [Hth Hdis Htk Hnd Hqd Hstk].
  eapply (own_step st st' tid t t' Hown Ht Hts); rewrite ?Hfs, ?Hq; try done; auto.
  intros f [Hex|[Hr Hno]]%Hqd; [by left|right]. split_and!; [done| |].
  - intros ?%Ho. by eapply Hno.
  - intros j u _ Hu. by eapply Hno.
Qed.

Lemma other_fiber f fb j u g :
  owns t f → j ≠ tid → threads st !! j = Some u → owns u g →
  <[f := fb]> (fibers st) !! g = fibers st !! g.
Proof.
  intros Hf Hj Hu Hg. apply list_lookup_insert_ne. intros ->.
  by eapply (oi_disjoint st Hown j tid).
Qed.

(** A fiber of the thread changes its state. *)
Lemma own_local st' t' f fb :
  threads st' = <[tid := t']> (threads st) → fibers st' = <[f := fb]> (fibers st) →
  m_fibers st' = m_fibers st → f < length (fibers st) →
  owns t f → (∀ f, owns t' f → owns t f) →
  thread_inv (<[f := fb]> (fibers st)) (queued (m_fibers st)) t' →
  m_stack fb = true →
  (f ∈ queued (m_fibers st) → executing fb ∨ runnable fb ∧ ¬ owns t' f) →
  own_inv st'.
Proof.
  intros Hts Hfs Hq Hlt Hf Ho Hinv Hstk Hfq.
  eapply (own_step st st' tid t t' Hown Ht Hts); rewrite ?Hfs, ?Hq; try done; auto.
  - intros j u g Hj Hu Hg. by eapply other_fiber.
  - apply (oi_tasks st Hown).
  - apply (oi_NoDup st Hown).
  - intros g Hg. destruct (decide (g = f)) as [->|Hne].
    + destruct (Hfq Hg) as [Hex|[Hr Hno]]; [left; by apply fib_insert|right].
      split_and!; [by apply fib_insert|done|]. intros j u Hj Hu Hou.
      by eapply (oi_disjoint st Hown j tid).
    + assert (<[f := fb]> (fibers st) !! g = fibers st !! g) as Heq
        by (by apply list_lookup_insert_ne).
      destruct (oi_queued st Hown g Hg) as [Hex|[Hr Hno]]; [left; by eapply fib_frame|right].
      split_and!; [by eapply fib_frame| |].
      * intros ?%Ho. by eapply Hno.
      * intros j u _ Hu. by eapply Hno.
  - apply Forall_insert; [apply (oi_stack st Hown)|done].
Qed.

Lemma own_stack f fb : fibers st !! f = Some fb → m_stack fb = true.
Proof. intros Hf. apply (Forall_lookup_1 _ _ _ _ (oi_stack st Hown) Hf). Qed.

(** An owned fiber that is queued is being executed. *)
Lemma owned_queued f fb :
  owns t f → fibers st !! f = Some fb → f ∈ queued (m_fibers st) → executing fb.
Proof.
  intros Ho Hfb Hq. destruct (oi_queued st Hown f Hq) as [(fb' & ? & ?)|[_ Hno]].
  - by simplify_eq.
  - exfalso. by eapply Hno.
Qed.

Lemma step_top_own :
  t_pc t = Top → ∃ st', step_top st tid t = Ok st' ∧ own_inv st'.
Proof.
  intros Hpc. unfold step_top.
  destruct (fetch_spec tid (fibers st) (m_fibers st) (oi_tasks st Hown))
    as (taken & rest & k & -> & Hspec). osimpl. eexists. split; [done|].
  destruct Hti as [_ Hci Hiq Hi Hc]. rewrite Hpc in Hi, Hc. simpl in Hi, Hc.
  destruct taken as [ft|].
  - destruct Hspec as (q1 & q2 & Hq & -> & _ & Hst & _).
    pose proof (oi_NoDup st Hown) as Hnd. rewrite Hq, queued_app, queued_cons in Hnd.
    assert (∀ f, f ∈ queued (q1 ++ q2) → f ∈ queued (m_fibers st)) as Hsub.
    { intros f. rewrite Hq, !queued_app, queued_cons, !elem_of_app. tauto. }
    assert (∀ f, ft_fiber ft = Some f → (f ∉ queued (q1 ++ q2)) ∧
      fib (fibers st) f runnable ∧ ∀ j u, threads st !! j = Some u → ¬ owns u f) as Hft.
    { intros f Hf. rewrite Hf in Hnd, Hst. simpl in Hnd, Hst.
      assert (f ∈ queued (m_fibers st)) as Hin.
      { rewrite Hq, queued_app, queued_cons, Hf. set_solver. }
      split.
      - rewrite queued_app. apply NoDup_app in Hnd as (_ & Hd & [Hn _]%NoDup_cons). set_solver.
      - destruct (oi_queued st Hown f Hin) as [(fb & Hfb & Hex & _)|?]; [|done].
        exfalso. apply Hst. unfold state_of. by rewrite Hfb, Hex. }
    eapply (own_step st _ tid t _ Hown Ht); simpl; [reflexivity|..]; try done; auto.
    + unfold owns. simpl. intros f [?|[?|Hf]]; [by auto..|]. right. by apply Hft.
    + split; simpl; try done; auto.
      * split; [done|]. intros f Hf. destruct (Hft f Hf) as (? & ? & Hno).
        specialize (Hno tid t Ht). unfold owns in Hno. split_and!; [|naive_solver|done|done].
        intros ->. apply Hno. auto.
      * intros g Hg Hgh. destruct (Hc g Hg) as [? ?]; [done|]. auto.
    + pose proof (oi_tasks st Hown) as Htk. rewrite Hq in Htk.
      apply Forall_app in Htk as [? [_ ?]%Forall_cons]. by apply Forall_app.
    + rewrite queued_app. apply NoDup_app in Hnd as (? & Hd & Hnd2).
      apply NoDup_app in Hnd2 as (_ & Hd2 & ?). apply NoDup_app. split_and!; [done| |done].
      intros f Hf Hf2. apply (Hd f Hf), elem_of_app. by right.
    + intros f Hf. destruct (oi_queued st Hown f (Hsub f Hf)) as [?|[? Hno]]; [by left|right].
      split_and!; [done| |].
      * intros [?|[?|Hf']]; [..|by destruct (Hft f Hf')].
        all: apply (Hno tid t Ht); unfold owns; auto.
      * intros j u _ Hu. by eapply Hno.
    + apply (oi_stack st Hown).
  - destruct Hspec as [-> _].
    eapply own_same; try reflexivity; unfold owns; simpl; [naive_solver|].
    split; simpl; auto. split; [done|]. by intros f [=].
Qed.

(** The parts of a thread's invariant that a change of another fiber of the
    thread keeps. *)
Lemma rest_frame f fb t' :
  idle_fiber t' = idle_fiber t → cb_fiber t' = cb_fiber t →
  pc_inv (<[f := fb]> (fibers st)) (queued (m_fibers st)) t' →
  (held (t_pc t') ≠ Some (idle_fiber t) →
     if decide (f = idle_fiber t) then fib (<[f := fb]> (fibers st)) f (λ fb, runnable fb ∨ m_state fb = TERM)
     else held (t_pc t) ≠ Some (idle_fiber t)) →
  (∀ g, cb_fiber t = Some g → held (t_pc t') ≠ Some g →
     if decide (f = g) then
       (g ∉ queued (m_fibers st)) ∧ fib (<[f := fb]> (fibers st)) g (λ fb, m_state fb = INIT)
     else held (t_pc t) ≠ Some g) →
  thread_inv (<[f := fb]> (fibers st)) (queued (m_fibers st)) t'.
Proof.
  intros Hid Hcb Hpc Hidle Hcbs. destruct Hti as [_ Hci Hiq Hi Hc].
  split; rewrite ?Hid, ?Hcb; try done.
  - intros Hh. specialize (Hidle Hh). case_decide as Hf; [by rewrite <-Hf|].
    eapply fib_frame; [|by apply Hi]. by apply list_lookup_insert_ne.
  - intros g Hg Hh. specialize (Hcbs g Hg Hh). case_decide as Hf; [done|].
    destruct (Hc g Hg Hcbs). split; [done|]. eapply fib_frame; [|done].
    by apply list_lookup_insert_ne.
Qed.

Lemma enter_ok st0 t0 r f fb :
  fibers st0 !! f = Some fb → m_state fb ≠ EXEC →
  enter st0 tid t0 r f =
    Ok (goto (set_fiber st0 f (set_state fb EXEC)) tid t0 (Running r f)).
Proof. intros Hf Hne. unfold enter. rewrite Hf. osimpl. by rewrite swapIn_ok. Qed.

Lemma enter_task_own ft b k f :
  t_pc t = Fetched ft b k → ft_fiber ft = Some f →
  ended (state_of (fibers st) f) = false ∧
  ∃ st', enter st tid t Task f = Ok st' ∧ own_inv st'.
Proof.
  intros Hpc Hf. pose proof (ti_pc _ _ _ Hti) as Hp. unfold pc_inv in Hp. rewrite Hpc in Hp.
  destruct Hp as [_ Hp]. destruct (Hp f Hf) as (Hni & Hnc & Hnq & fb & Hfb & Hne & Hend & Hdone).
  split; [unfold state_of; by rewrite Hfb|]. rewrite (enter_ok _ _ _ _ fb) by done.
  eexists. split; [done|]. assert (f < length (fibers st)) by by eapply lookup_lt_Some.
  assert (owns t f) by (unfold owns; rewrite Hpc; auto).
  eapply own_local; try reflexivity; simpl; try done.
  - intros g. unfold owns. simpl. rewrite Hpc. simpl. naive_solver.
  - apply rest_frame; try done; rewrite ?Hpc; simpl.
    + split; [done|]. by apply fib_insert.
    + rewrite decide_False by done. congruence.
    + intros g Hg Hh. case_decide as Hfg; congruence.
  - by apply (own_stack f).
Qed.

(** A thread entering one of the fibers it keeps for itself. *)
Lemma enter_kept_own st0 r f fb fb0 :
  threads st0 = threads st → m_fibers st0 = m_fibers st →
  fibers st0 = <[f := fb0]> (fibers st) → held (t_pc t) = None →
  fibers st !! f = Some fb → m_state fb0 ≠ EXEC → m_done fb0 = false → m_stack fb0 = true →
  match r with Task => False | Cb => cb_fiber t = Some f | Idle => f = idle_fiber t end →
  f ∉ queued (m_fibers st) →
  ∃ st', enter st0 tid t r f = Ok st' ∧ own_inv st'.
Proof.
  intros Hts Hq Hfs Hh Hfb Hne Hdone Hstk Hr Hnq.
  assert (f < length (fibers st)) as Hlt by by eapply lookup_lt_Some.
  rewrite (enter_ok _ _ _ _ fb0); [|rewrite Hfs; by apply list_lookup_insert_eq|done].
  eexists. split; [done|]. assert (owns t f) by (unfold owns; destruct r; naive_solver).
  pose proof (ti_cb_idle _ _ _ Hti) as Hci.
  eapply (own_local _ _ f (set_state fb0 EXEC)); simpl; [rewrite Hts; reflexivity|..]; try done.
  - by rewrite Hfs, list_insert_insert_eq.
  - intros g. unfold owns. simpl. destruct r; naive_solver.
  - apply rest_frame; try done; simpl.
    + split; [by destruct r|]. by apply fib_insert.
    + rewrite Hh. intros. rewrite decide_False by congruence. done.
    + rewrite Hh. intros g Hg Hfg. rewrite decide_False by congruence. done.
Qed.

Lemma new_fiber_lookup cb f fb :
  fibers st !! f = Some fb → (fibers st ++ [Fiber_new cb]) !! f = Some fb.
Proof. intros Hf. rewrite lookup_app_l; [done|]. by eapply lookup_lt_Some. Qed.

Lemma owned_lt u j f : threads st !! j = Some u → owns u f → f < length (fibers st).
Proof.
  intros Hu Ho. pose proof (oi_threads st Hown j u Hu) as [Hpc _ _ Hi Hc].
  destruct (decide (held (t_pc u) = Some f)) as [Hh|Hh].
  - unfold pc_inv in Hpc. destruct (t_pc u) as [|ft b k|r g|r g|r g|]; simpl in Hh; try done.
    1: by destruct Hpc as [_ Hp]; destruct (Hp f Hh) as (_ & _ & _ & ?%fib_lt).
    all: injection Hh as ->; destruct Hpc as [_ Hf].
    1: by apply fib_lt in Hf.
    all: by destruct Hf as [?%fib_lt|[_ ?%fib_lt]].
  - destruct Ho as [->|[Hcb|Hh']]; [|by destruct (Hc f Hcb Hh) as [_ ?%fib_lt]|done].
    by apply Hi, fib_lt in Hh.
Qed.

Lemma step_cb_own ft b k cb :
  t_pc t = Fetched ft b k → ft_fiber ft = None →
  ∃ st', step_cb st tid t cb = Ok st' ∧ own_inv st'.
Proof.
  intros Hpc Hft. pose proof Hti as [_ Hci Hiq Hi Hc].
  assert (held (t_pc t) = None) as Hh by (by rewrite Hpc).
  unfold step_cb. destruct (cb_fiber t) as [g|] eqn:Hcb.
  - destruct (Hc g eq_refl) as [Hgq (fb & Hfb & Hst)]; [by rewrite Hh|].
    rewrite Hfb. osimpl. rewrite Fiber_reset_ok; [|by apply (own_stack g)|by rewrite Hst]. osimpl.
    by eapply enter_kept_own.
  - unfold new_fiber. set (g := length (fibers st)).
    assert (fibers st !! g = None) as Hg by (apply lookup_ge_None_2; lia).
    assert ((fibers st ++ [Fiber_new (Some cb)]) !! g = Some (Fiber_new (Some cb))) as Hnew
      by (unfold g; by rewrite lookup_app_r, Nat.sub_diag by lia).
    rewrite (enter_ok _ _ _ _ (Fiber_new (Some cb))) by done. eexists. split; [done|].
    assert (∀ fb f, f < length (fibers st) →
      <[g := fb]> (fibers st ++ [Fiber_new (Some cb)]) !! f = fibers st !! f) as Hold.
    { intros fb f Hf. rewrite list_lookup_insert_ne by (unfold g; lia). by apply lookup_app_l. }
    eapply (own_step st _ tid t _ Hown Ht); simpl; [reflexivity|..]; try done; auto.
    + intros j u f Hj Hu Ho. apply Hold. by eapply owned_lt.
    + unfold owns. simpl. intros f [?|[[= <-]|[= <-]]]; [by auto|right..].
      all: intros j u Hu Ho; by pose proof (owned_lt u j _ Hu Ho); unfold g in *; lia.
    + assert (idle_fiber t < length (fibers st)) by (eapply owned_lt; [done|by left]).
      split; simpl; try done.
      * split; [done|]. apply fib_insert; [|done]. rewrite length_app. simpl. unfold g. lia.
      * intros [=]. unfold g in *. lia.
      * intros _. eapply fib_frame; [by apply Hold|]. apply Hi. by rewrite Hh.
    + apply (oi_tasks st Hown).
    + apply (oi_NoDup st Hown).
    + intros f Hf. destruct (oi_queued st Hown f Hf) as [Hex|[Hr Hno]].
      * left. eapply fib_frame; [|done]. apply Hold. by eapply fib_lt.
      * right. split_and!.
        -- eapply fib_frame; [|done]. apply Hold. by eapply fib_lt.
        -- apply fib_lt in Hr. unfold owns. simpl. intros [->|[[= <-]|[= <-]]]; [|unfold g in *; lia..].
           apply (Hno tid t Ht). by left.
        -- intros j u _ Hu. by eapply Hno.
    + apply Forall_insert; [|done]. apply Forall_app. split; [apply (oi_stack st Hown)|].
      by repeat constructor.
Qed.

Lemma step_no_task_own ft b k is_active :
  t_pc t = Fetched ft b k → ft_fiber ft = None →
  ∃ st', step_no_task st tid t is_active = Ok st' ∧ own_inv st'.
Proof.
  intros Hpc Hft. pose proof Hti as [_ Hci Hiq Hi Hc].
  assert (held (t_pc t) = None) as Hh by (by rewrite Hpc).
  rewrite Hh in Hi, Hc.
  unfold step_no_task. destruct is_active; [|case_bool_decide as Hterm].
  - eexists. split; [done|]. eapply own_same; try reflexivity.
    + unfold owns. simpl. naive_solver.
    + split; simpl; auto. done.
  - eexists. split; [done|]. eapply own_same; try reflexivity.
    + unfold owns. simpl. naive_solver.
    + split; simpl; auto. done.
  - destruct Hi as (fb & Hfb & Hr); [done|]. unfold state_of in Hterm. rewrite Hfb in Hterm.
    destruct Hr as [(Hne & _ & Hd)|?]; [|done].
    eapply (enter_kept_own _ Idle (idle_fiber t) fb fb); try done.
    + simpl. by rewrite list_insert_id.
    + by apply (own_stack (idle_fiber t)).
Qed.

Lemma step_fetched_own ft b k :
  t_pc t = Fetched ft b k → ∃ st', step_fetched st tid t ft b = Ok st' ∧ own_inv st'.
Proof.
  intros Hpc. unfold step_fetched. destruct (ft_fiber ft) as [f|] eqn:Hf.
  - destruct (enter_task_own ft b k f Hpc Hf) as [-> Hr]. by destruct (ft_cb ft).
  - destruct (ft_cb ft); [by eapply step_cb_own|by eapply step_no_task_own].
Qed.

(** Coming back from a fiber. *)
Lemma back_own r f fb fb' :
  t_pc t = Running r f → fibers st !! f = Some fb → m_stack fb' = true →
  (executing fb' ∨ (f ∉ queued (m_fibers st)) ∧
     (m_state fb' = READY ∧ m_done fb' = false ∧ r ≠ Idle ∨ m_state fb' = EXEC ∧ r ≠ Idle ∨
      m_state fb' = TERM ∨ m_state fb' = EXCEPT ∧ r ≠ Idle)) →
  own_inv (goto (set_fiber st f fb') tid t (Back r f)).
Proof.
  intros Hpc Hfb Hstk Hcase. assert (f < length (fibers st)) by by eapply lookup_lt_Some.
  pose proof (ti_pc _ _ _ Hti) as Hp. unfold pc_inv in Hp. rewrite Hpc in Hp.
  destruct Hp as [Hrole Hex].
  eapply (own_local _ _ f fb'); try reflexivity; simpl; try done.
  - unfold owns. rewrite Hpc. auto.
  - intros g. unfold owns. rewrite Hpc. simpl. auto.
  - apply rest_frame; try done; rewrite ?Hpc; simpl.
    + split; [done|]. destruct Hcase as [?|[? ?]]; [left; by apply fib_insert|right].
      split; [done|]. by apply fib_insert.
    + intros Hne. rewrite decide_False by congruence. done.
    + intros g Hg Hne. rewrite decide_False by congruence. done.
  - intros Hq. destruct Hcase as [?|[? _]]; [by left|done].
Qed.

Lemma step_running_own r f a :
  t_pc t = Running r f → may_do st tid a →
  ∃ st', step_running st tid t r f a = Ok st' ∧ own_inv st'.
Proof.
  intros Hpc Hmay. pose proof (ti_pc _ _ _ Hti) as Hp. unfold pc_inv in Hp. rewrite Hpc in Hp.
  destruct Hp as [Hrole (fb & Hfb & Hst & Hdone)]. pose proof (own_stack f fb Hfb) as Hstk.
  unfold step_running. rewrite Hfb. osimpl. rewrite Hdone. osimpl.
  assert (YieldToHold fb = Ok fb) as Hyh by (unfold YieldToHold; by rewrite bool_decide_true).
  assert (YieldToReady fb = Ok (set_state fb READY)) as Hyr
    by (unfold YieldToReady; by rewrite bool_decide_true).
  assert (executing fb) as Hex by done.
  assert (∀ (Hr : r ≠ Idle), ∃ st',
    match a with
    | DoSchedule ft => mret (schedule st ft)
    | DoYieldToReady =>
        fb ← YieldToReady fb; mret (goto (set_fiber st f fb) tid t (Back r f))
    | DoYieldToHold => fb ← YieldToHold fb; mret (goto (set_fiber st f fb) tid t (Back r f))
    | DoEnd e => mret (goto (set_fiber st f (MainFunc_end fb e)) tid t (Back r f))
    end = Ok st' ∧ own_inv st') as Huser.
  { intros Hr. specialize (Hmay t r f Ht Hpc Hr).
    destruct a as [ft| | |e]; rewrite ?Hyh, ?Hyr; osimpl; eexists; (split; [done|]).
    - by apply schedule_own.
    - eapply back_own; try done. right. split; [done|]. left. done.
    - eapply back_own; try done. by left.
    - eapply back_own; try done; [by destruct e|]. right. split; [done|].
      destruct e; simpl; auto. }
  destruct r; [by apply Huser..|]. simpl in Hrole. subst f.
  destruct (stopping st).
  - eexists. split; [done|]. eapply back_own; try done. right. split; [|by auto].
    apply (ti_idle_q _ _ _ Hti).
  - rewrite Hyh. osimpl. eexists. split; [done|]. eapply back_own; try done. by left.
Qed.

Lemma step_back_own r f : t_pc t = Back r f → own_inv (step_back st tid t r f).
Proof.
  intros Hpc. pose proof Hti as [Hp Hci Hiq Hi Hc]. unfold pc_inv in Hp. rewrite Hpc in *.
  unfold step_back. eapply own_same.
  - destruct r; reflexivity.
  - by destruct r.
  - by destruct r.
  - intros g. unfold owns. rewrite Hpc. auto.
  - split; simpl; auto.
Qed.

(** A fiber that yielded goes back to the queue and leaves the thread. *)
Lemma settle_ready_own f fb t' :
  owns t f → fibers st !! f = Some fb → runnable fb → f ∉ queued (m_fibers st) →
  (∀ g, owns t' g → owns t g ∧ g ≠ f) →
  thread_inv (fibers st) (queued (m_fibers st)) t' →
  own_inv (set_thread (schedule st (mkFT (Some f) None None)) tid t').
Proof.
  intros Ho Hfb Hrun Hnq Hsub Hinv.
  assert (queued (m_fibers st ++ [mkFT (Some f) None None]) = queued (m_fibers st) ++ [f]) as Hq
    by by rewrite queued_app, queued_cons.
  assert (m_fibers (set_thread (schedule st (mkFT (Some f) None None)) tid t') =
    m_fibers st ++ [mkFT (Some f) None None]) as Hmf
    by reflexivity.
  assert (∀ j u, j ≠ tid → threads st !! j = Some u → ¬ owns u f) as Hoth.
  { intros j u Hj Hu Hou. by eapply (oi_disjoint st Hown j tid). }
  eapply (own_step st _ tid t t' Hown Ht); [reflexivity|..]; rewrite ?Hmf, ?Hq; try done.
  - intros j u g Hj Hu Hou [?|Hg]%elem_of_app; [by left|].
    apply list_elem_of_singleton in Hg as ->. exfalso. by eapply Hoth.
  - intros g [? _]%Hsub. by left.
  - eapply thread_frame; [done|done|]. intros g Hg [?|Hgf]%elem_of_app; [by left|].
    apply list_elem_of_singleton in Hgf as ->. by destruct (Hsub f Hg).
  - apply Forall_app. split; [apply (oi_tasks st Hown)|]. apply Forall_singleton. by left.
  - apply NoDup_app. split_and!; [apply (oi_NoDup st Hown)| |apply NoDup_singleton].
    intros g Hg ->%list_elem_of_singleton. done.
  - intros g [Hg|Hg]%elem_of_app.
    + destruct (oi_queued st Hown g Hg) as [?|[? Hno]]; [by left|right]. split_and!; [done| |].
      * intros [? _]%Hsub. by eapply Hno.
      * intros j u _ Hu. by eapply Hno.
    + apply list_elem_of_singleton in Hg as ->. right. split_and!; [by exists fb| |done].
      by intros [_ ?]%Hsub.
  - apply (oi_stack st Hown).
Qed.

(** Dropping the fiber that was held leaves an invariant thread. *)
Lemma top_inv f cb' :
  held (t_pc t) = Some f → f ≠ idle_fiber t →
  (cb' = cb_fiber t ∧ cb_fiber t ≠ Some f ∨ cb' = None) →
  thread_inv (fibers st) (queued (m_fibers st)) (mkThread Top (idle_fiber t) cb').
Proof.
  intros Hh Hne Hcb. destruct Hti as [_ Hci Hiq Hi Hc]. split; simpl; try done.
  - by destruct Hcb as [[-> _]| ->].
  - intros _. apply Hi. congruence.
  - intros g Hg _. destruct Hcb as [[-> Hn]| ->]; [|done]. apply Hc; [done|]. congruence.
Qed.

(** Putting a fiber on hold. *)
Lemma settle_hold_own f fb cb' :
  held (t_pc t) = Some f → fibers st !! f = Some fb → f ≠ idle_fiber t →
  (f ∈ queued (m_fibers st) → m_done fb = false) →
  (cb' = cb_fiber t ∧ cb_fiber t ≠ Some f ∨ cb' = None) →
  own_inv (set_thread (set_fiber st f (set_state fb HOLD)) tid (mkThread Top (idle_fiber t) cb')).
Proof.
  intros Hh Hfb Hne Hdone Hcb. assert (f < length (fibers st)) by by eapply lookup_lt_Some.
  eapply (own_local _ _ f (set_state fb HOLD)); try reflexivity; try done.
  - unfold owns. auto.
  - intros g. unfold owns. simpl. destruct Hcb as [[-> _]| ->]; naive_solver.
  - eapply thread_frame; [by apply (top_inv f)| |by auto].
    intros g Hg. apply list_lookup_insert_ne. intros ->. unfold owns in Hg. simpl in Hg.
    destruct Hcb as [[-> ?]| ->]; naive_solver.
  - simpl. by apply (own_stack f).
  - intros Hq. right. split; [by split_and!; [..|apply Hdone]|].
    unfold owns. simpl. destruct Hcb as [[-> ?]| ->]; naive_solver.
Qed.

Lemma ended_iff s : ended s = true ↔ s = TERM ∨ s = EXCEPT.
Proof. destruct s; simpl; naive_solver. Qed.

(** The state of a fiber that came back. *)
Lemma settle_state r f :
  t_pc t = Settle r f →
  ∃ fb, fibers st !! f = Some fb ∧
    (f ∈ queued (m_fibers st) → executing fb) ∧
    (m_state fb = READY → m_done fb = false ∧ r ≠ Idle) ∧
    (r = Idle → executing fb ∨ m_state fb = TERM).
Proof.
  intros Hpc. pose proof (ti_pc _ _ _ Hti) as Hp. unfold pc_inv in Hp. rewrite Hpc in Hp.
  destruct Hp as [_ [(fb & Hfb & Hex)|(Hnq & fb & Hfb & Hst)]]; exists fb.
  - split_and!; [done|done| |by left]. destruct Hex as [-> ?]. done.
  - split_and!; [done|done|intros Hrd|intros ->];
      destruct Hst as [(? & ? & ?)|[[? ?]|[?|[? ?]]]]; try congruence; auto.
Qed.

Lemma settle_user_own r f fb cb' :
  t_pc t = Settle r f → r ≠ Idle → f ≠ idle_fiber t → fibers st !! f = Some fb →
  (cb' = cb_fiber t ∧ cb_fiber t ≠ Some f ∨ cb' = None) →
  (m_state fb = READY →
     own_inv (set_thread (schedule st (mkFT (Some f) None None)) tid
                (mkThread Top (idle_fiber t) cb'))) ∧
  own_inv (set_thread (set_fiber st f (set_state fb HOLD)) tid (mkThread Top (idle_fiber t) cb')).
Proof.
  intros Hpc Hr Hne Hfb Hcb.
  destruct (settle_state r f Hpc) as (fb' & Hfb' & Hq & Hready & _). simplify_eq.
  assert (held (t_pc t) = Some f) as Hh by by rewrite Hpc.
  split.
  - intros Hrd. destruct (Hready Hrd) as [Hd _].
    eapply (settle_ready_own f fb); try done.
    + unfold owns. auto.
    + split_and!; [congruence|by rewrite Hrd|done].
    + intros [? _]%Hq. congruence.
    + intros g. unfold owns. simpl. destruct Hcb as [[-> ?]| ->]; naive_solver.
    + by apply (top_inv f).
  - eapply settle_hold_own; try done. by intros [_ ?]%Hq.
Qed.

Lemma step_settle_own r f :
  t_pc t = Settle r f → ∃ st', step_settle st tid t r f = Ok st' ∧ own_inv st'.
Proof.
  intros Hpc. pose proof Hti as [Hp Hci Hiq Hi Hc].
  unfold pc_inv in Hp. rewrite Hpc in Hp. destruct Hp as [Hrole _].
  destruct (settle_state r f Hpc) as (fb & Hfb & Hq & Hready & Hidle).
  assert (held (t_pc t) = Some f) as Hh by by rewrite Hpc.
  assert (f < length (fibers st)) by by eapply lookup_lt_Some.
  unfold step_settle. rewrite Hfb. osimpl. destruct r.
  - destruct Hrole as [Hni Hnc].
    destruct (settle_user_own Task f fb (cb_fiber t)) as [Hrd Hhold]; auto.
    eexists. split; [done|]. case_bool_decide; [by apply Hrd|]. case_match; [|done].
    eapply own_same; try reflexivity; [|by apply (top_inv f); auto].
    unfold owns. simpl. naive_solver.
  - assert (f ≠ idle_fiber t) as Hni by congruence.
    destruct (settle_user_own Cb f fb None) as [Hrd Hhold]; auto.
    case_bool_decide; [eexists; split; [done|by apply Hrd]|].
    destruct (ended (m_state fb)) eqn:Hend; [|by eexists].
    rewrite Fiber_reset_ok; [|by apply (own_stack f)|by rewrite Hend]. osimpl.
    eexists. split; [done|].
    assert (f ∉ queued (m_fibers st)) as Hnq.
    { intros [Hx _]%Hq. by rewrite Hx in Hend. }
    eapply (own_local _ _ f (mkFiber INIT None true false)); try reflexivity; try done.
    + unfold owns. auto.
    + intros g. unfold owns. simpl. naive_solver.
    + apply rest_frame; try done.
      * simpl. intros _. rewrite decide_False by done. congruence.
      * intros g Hg _. rewrite Hrole in Hg. injection Hg as <-. rewrite decide_True by done.
        split; [done|]. by apply fib_insert.
  - simpl in Hrole. subst f. eexists. split; [done|].
    assert (∀ g, cb_fiber t = Some g → held (t_pc t) ≠ Some g) as Hcbh by congruence.
    case_match eqn:Hend.
    + eapply own_same; try reflexivity; [unfold owns; simpl; naive_solver|].
      split; simpl; auto. { done. }
      intros _. exists fb. split; [done|]. right.
      destruct (Hidle eq_refl) as [[Hx _]|?]; [by rewrite Hx in Hend|done].
    + destruct (Hidle eq_refl) as [[Hx Hd]|Hx]; [|by rewrite Hx in Hend].
      eapply (own_local _ _ (idle_fiber t) (set_state fb HOLD)); try reflexivity; try done.
      * by left.
      * unfold owns. simpl. naive_solver.
      * apply rest_frame; try done; simpl.
        -- intros _. rewrite decide_True by done. apply fib_insert; [done|]. left. by split_and!.
        -- intros g Hg _. rewrite decide_False by congruence. auto.
      * simpl. by apply (own_stack (idle_fiber t)).
Qed.

End steps.

(** ** Whole steps *)

(** A step of a thread that has not exited succeeds and keeps the ownership
    discipline, as long as user code keeps to it. *)
Lemma run_step_own st tid t a :
  own_inv st → threads st !! tid = Some t → t_pc t ≠ Exited → may_do st tid a →
  ∃ st', run_step st tid a = Ok st' ∧ own_inv st'.
Proof.
  intros Hown Ht Hne Hmay. unfold run_step. rewrite Ht. osimpl.
  destruct (t_pc t) as [|ft b k|r f|r f|r f|] eqn:Hpc; [| | | | |done].
  - by apply step_top_own.
  - by eapply step_fetched_own.
  - by eapply step_running_own.
  - eexists. split; [done|]. by eapply step_back_own.
  - by eapply step_settle_own.
Qed.

Lemma start_own n : own_inv (start_threads Scheduler_new n).
Proof.
  split; simpl; try done.
  - intros i t Ht. apply list_lookup_fmap_Some in Ht as (k & -> & Hk).
    apply lookup_seq in Hk as [-> Hlt]. split; simpl; try done.
    + apply not_elem_of_nil.
    + intros _. exists (Fiber_new (Some 0)). rewrite lookup_replicate. split; [done|]. by left.
  - intros i j t u f Ht Hu Hij.
    apply list_lookup_fmap_Some in Ht as (k & -> & Hk), Hu as (l & -> & Hl).
    apply lookup_seq in Hk as [-> _], Hl as [-> _]. unfold owns. simpl. naive_solver lia.
  - by constructor.
  - intros f Hf. by apply not_elem_of_nil in Hf.
  - by apply Forall_replicate.
Qed.
