(* ===== verification/SchedulerTheorems.v ===== *)
(** What the scheduler guarantees over all interleavings of its threads. *)

From stdpp Require Import base numbers list sets option strings tactics relations.
From Stdlib Require Import ZArith Lia.
From S2P Require Import Prelude Fiber Scheduler SchedulerSpec SchedulerOwn.

(** ** Executions *)

(** Steps of the pool and of the application around it. [late] says whether the
    application may still schedule after it has called [stop]. *)
Inductive sched_step (late : bool) : Scheduler → Scheduler → Prop :=
| by_thread st tid a st' :
    may_do st tid a → run_step st tid a = Ok st' → sched_step late st st'
| by_schedule st ft :
    may_schedule st ft → late || negb (m_stopping st) = true → sched_step late st (schedule st ft)
| by_new st cb : sched_step late st (new_fiber st cb).2
| by_stop st this st' : stop false this st = Ok st' → sched_step late st st'.

Lemma start_new n : start Scheduler_new n = Ok (start_threads Scheduler_new n).
Proof. done. Qed.

Lemma stop_ok use_caller this st st' : stop use_caller this st = Ok st' → st' = set_stopping st.
Proof. unfold stop, sylar_assert. case_bool_decide; [|done]. by intros [= <-]. Qed.

(** The states that a started pool of [n] threads comes to. *)
Definition runs_from (late : bool) (n : nat) (st : Scheduler) : Prop :=
  ∃ st0, start Scheduler_new n = Ok st0 ∧ rtc (sched_step late) st0 st.

Lemma start_counts n : counts_ok (start_threads Scheduler_new n).
Proof.
  assert (∀ P m k, P Top = false → count (λ t, P (t_pc t))
    ((λ i, mkThread Top (0 + i) None) <$> seq m k) = 0) as Hc.
  { intros P m k HP. revert m. induction k as [|k IH]; intros m; [done|].
    simpl. rewrite count_cons. simpl. by rewrite HP, IH. }
  split; simpl.
  - symmetry. by apply (Hc (λ p, match p with Fetched _ b _ => b
      | Running r _ | Back r _ => bool_decide (r ≠ Idle) | _ => false end)).
  - symmetry. by apply (Hc (λ p, match p with
      | Running r _ | Back r _ => bool_decide (r = Idle) | _ => false end)).
  - intros i t ft k Ht. by apply list_lookup_fmap_Some in Ht as (? & -> & _).
  - intros f. unfold state_of. destruct (replicate n _ !! f) eqn:E; [|done].
    by apply lookup_replicate in E as [-> _].
Qed.

Lemma new_fiber_own st cb : own_inv st → own_inv (new_fiber st cb).2.
Proof.
  intros Hown. pose proof Hown as [Hth Hdis Htk Hnd Hqd Hstk].
  assert (∀ f P, fib (fibers st) f P → fib (fibers st ++ [Fiber_new cb]) f P) as Hfib.
  { intros f P (fb & Hf & HP). exists fb. split; [|done]. by apply new_fiber_lookup. }
  split; simpl; try done.
  - intros i t Ht. eapply thread_frame; [by eapply Hth| |by auto]. intros f Ho.
    apply lookup_app_l. by eapply owned_lt.
  - intros f [?|[? ?]]%Hqd; [by left; apply Hfib|right]. split; [by apply Hfib|done].
  - apply Forall_app. split; [done|]. by apply Forall_singleton.
Qed.

Lemma step_invs late st st' :
  counts_ok st ∧ own_inv st → sched_step late st st' → counts_ok st' ∧ own_inv st'.
Proof.
  intros [Hc Ho] Hs. destruct Hs as [st tid a st' Hmay Hrun|st ft Hmay _|st cb|st this st' ->%stop_ok].
  - split; [by eapply run_step_counts|].
    pose proof Hrun as Hr. unfold run_step in Hr.
    apply outcome_bind_ok in Hr as (t & Ht%deref_ok & Hr).
    destruct (run_step_own st tid t a) as (st2 & Hr2 & ?); [done|done| |done|congruence].
    intros Hx. by rewrite Hx in Hr.
  - split; [by destruct Hc|by eapply schedule_own].
  - split; [|by apply new_fiber_own]. destruct Hc as [? ? ? He]. split; simpl; try done.
    intros f Hf%state_of_app. auto.
  - split; [by destruct Hc|by destruct Ho].
Qed.

Lemma runs_invs late n st : runs_from late n st → counts_ok st ∧ own_inv st.
Proof.
  assert (counts_ok (start_threads Scheduler_new n) ∧ own_inv (start_threads Scheduler_new n)) as H0
    by (split; [apply start_counts|apply start_own]).
  intros (st0 & [= <-] & Hr). generalize dependent (start_threads Scheduler_new n). intros st0 H0 Hr.
  induction Hr; [done|]. eauto using step_invs.
Qed.

(** ** Theorems *)

(** C3. In every interleaving, with user code that follows the rules of
    [fiber_exclusive], [m_activeThreadCount] is the number of threads
    that have a task in hand and [m_idleThreadCount] the number inside their
    idle fiber, so when [stopping] answers true the queue is empty and no
    thread has a task in hand. *)
Theorem counters_exact late n st :
  runs_from late n st →
  m_activeThreadCount st = count active (threads st) ∧
  m_idleThreadCount st = count idling (threads st) ∧
  (stopping st = true → m_fibers st = [] ∧ ∀ t, t ∈ threads st → active t = false).
Proof.
  intros [[Ha Hi _ _] _]%runs_invs. split_and!; [done|done|]. unfold stopping.
  rewrite !andb_true_iff, !bool_decide_eq_true. intros [[_ ?] Hz]. split; [done|].
  intros t Ht. eapply count_zero; [|done]. by rewrite <-Ha.
Qed.


(** ** Draining the queue *)

(** What a step of a thread leaves alone, given that ownership is respected:
    other threads, the flags, and the state of fibers it does not own; its own
    idle fiber ends only when the scheduler is stopping. *)
Record step_frame (st : Scheduler) (tid : nat) (t t' : thread) (st' : Scheduler) : Prop := {
  sf_threads : threads st' = <[tid := t']> (threads st);
  sf_idle : idle_fiber t' = idle_fiber t;
  sf_stopping : m_stopping st' = m_stopping st;
  sf_state f : f < length (fibers st) → ¬ owns t f →
    state_of (fibers st') f = state_of (fibers st) f;
  sf_term : state_of (fibers st') (idle_fiber t) = TERM →
    state_of (fibers st) (idle_fiber t) = TERM ∨ stopping st = true;
  sf_exit : t_pc t' = Exited →
    (∃ ft k, t_pc t = Fetched ft false k) ∧ state_of (fibers st) (idle_fiber t) = TERM ∧
    st' = goto st tid t Exited;
  sf_fetched ft k : t_pc t' = Fetched ft false k →
    t_pc t = Top ∧ step_top st tid t = Ok st'
}.

Lemma state_of_ne fs f fb g : g ≠ f → state_of (<[f := fb]> fs) g = state_of fs g.
Proof. intros. unfold state_of. by rewrite list_lookup_insert_ne. Qed.

Lemma enter_frame st st0 tid t t0 r f st' :
  threads st0 = threads st → m_stopping st0 = m_stopping st →
  idle_fiber t0 = idle_fiber t → (owns t f ∨ length (fibers st) ≤ f) →
  idle_fiber t < length (fibers st) →
  (∀ g, g < length (fibers st) → g ≠ f → state_of (fibers st0) g = state_of (fibers st) g) →
  enter st0 tid t0 r f = Ok st' → ∃ t', step_frame st tid t t' st'.
Proof.
  intros Hts Hstop Hid Hf Hlt Hold (fb & Hfb & Hne & ->)%enter_inv.
  exists (mkThread (Running r f) (idle_fiber t0) (cb_fiber t0)).
  assert (∀ g, g < length (fibers st) → g ≠ f →
    state_of (<[f := set_state fb EXEC]> (fibers st0)) g = state_of (fibers st) g) as Hst.
  { intros g Hg Hgf. rewrite state_of_ne by done. auto. }
  split; simpl; try done.
  - by rewrite Hts.
  - intros g Hg Hno. apply Hst; [done|]. intros ->. destruct Hf; [done|lia].
  - destruct (decide (f = idle_fiber t)) as [->|Hfi].
    + unfold state_of at 1. rewrite list_lookup_insert_eq by (by eapply lookup_lt_Some). done.
    + intros Hx. rewrite Hst in Hx by done. auto.
Qed.

Lemma YieldToHold_state fb fb' : YieldToHold fb = Ok fb' → fb' = fb ∧ m_state fb = EXEC.
Proof.
  unfold YieldToHold, sylar_assert. case_bool_decide; osimpl; intros Hy; [|done].
  by injection Hy as <-.
Qed.

Lemma stopping_flag st : stopping st = true → m_stopping st = true.
Proof. unfold stopping. by destruct (m_autoStop st), (m_stopping st). Qed.

Section frames.
Context (st : Scheduler) (tid : nat) (t : thread).
Hypothesis Hown : own_inv st.
Hypothesis Ht : threads st !! tid = Some t.

Lemma idle_lt : idle_fiber t < length (fibers st).
Proof. eapply owned_lt; [done|done|by left]. Qed.

Lemma step_fetched_frame ft b k st' :
  t_pc t = Fetched ft b k → step_fetched st tid t ft b = Ok st' →
  ∃ t', step_frame st tid t t' st'.
Proof.
  intros Hpc. pose proof idle_lt as Hlt.
  assert (∀ f, ft_fiber ft = Some f → enter st tid t Task f = Ok st' →
    ∃ t', step_frame st tid t t' st') as Htask.
  { intros f Hf. eapply enter_frame; try done. left. unfold owns. rewrite Hpc. auto. }
  assert (∀ cb, step_cb st tid t cb = Ok st' → ∃ t', step_frame st tid t t' st') as Hcb.
  { intros cb. unfold step_cb. destruct (cb_fiber t) as [g|] eqn:Eg.
    - intros (fb & Hfb & H)%outcome_bind_ok. apply outcome_bind_ok in H as (fb' & _ & H).
      eapply enter_frame in H; try done; [unfold owns; auto|].
      intros h _ Hh. simpl. by apply state_of_ne.
    - simpl. intros H. eapply enter_frame in H; try done; [by right|].
      intros h Hh _. unfold state_of. simpl. by rewrite lookup_app_l. }
  assert (step_no_task st tid t b = Ok st' → ∃ t', step_frame st tid t t' st') as Hno.
  { unfold step_no_task. destruct b; [|case_bool_decide as Hterm].
    - intros [= <-]. eexists. split; try reflexivity; simpl; auto; done.
    - intros [= <-]. eexists. split; try reflexivity; simpl; auto; try done.
      intros _. split_and!; [by eauto|done|done].
    - intros H. eapply enter_frame in H; try done. left. by left. }
  unfold step_fetched. destruct (ft_fiber ft), (ft_cb ft); try case_match; eauto.
Qed.

(** A change of the fiber the thread is in. *)
Lemma held_frame f fb st' t' :
  held (t_pc t) = Some f → threads st' = <[tid := t']> (threads st) →
  idle_fiber t' = idle_fiber t → m_stopping st' = m_stopping st →
  fibers st' = <[f := fb]> (fibers st) →
  (f = idle_fiber t → m_state fb = TERM →
     state_of (fibers st) f = TERM ∨ stopping st = true) →
  t_pc t' ≠ Exited → (∀ ft k, t_pc t' ≠ Fetched ft false k) →
  step_frame st tid t t' st'.
Proof.
  intros Hh Hts Hid Hstop Hfs Hterm Hne Hnf. split; try done; rewrite ?Hfs.
  - intros g Hg Hno. apply state_of_ne. intros ->. apply Hno. unfold owns. auto.
  - destruct (decide (f = idle_fiber t)) as [->|Hfi].
    + unfold state_of at 1. rewrite list_lookup_insert_eq by apply idle_lt. auto.
    + rewrite state_of_ne by done. auto.
  - intros ft k Hx. by destruct (Hnf ft k).
Qed.

Lemma step_running_frame r f a st' :
  t_pc t = Running r f → step_running st tid t r f a = Ok st' →
  ∃ t', step_frame st tid t t' st'.
Proof.
  intros Hpc. pose proof (oi_threads st Hown tid t Ht) as Hti.
  pose proof (ti_pc _ _ _ Hti) as Hp. unfold pc_inv in Hp. rewrite Hpc in Hp.
  destruct Hp as [Hrole _]. pose proof (ti_cb_idle _ _ _ Hti) as Hci.
  assert (held (t_pc t) = Some f) as Hh by by rewrite Hpc.
  unfold step_running. intros (fb & Hfb & H)%outcome_bind_ok.
  apply outcome_bind_ok in H as (_ & _ & H).
  assert (∀ fb', (r = Idle → m_state fb' = TERM →
     state_of (fibers st) f = TERM ∨ stopping st = true) →
     ∃ t', step_frame st tid t t' (goto (set_fiber st f fb') tid t (Back r f))) as Hback.
  { intros fb' Hi. eexists. eapply (held_frame f fb'); try reflexivity; try done.
    intros Hf. apply Hi. destruct r; [naive_solver|congruence|done]. }
  assert (∀ q, ∃ t', step_frame st tid t t' (set_queue st q)) as Hq.
  { intros q. exists t. split; simpl; auto.
    - by rewrite list_insert_id.
    - by rewrite Hpc.
    - by rewrite Hpc. }
  destruct r; [destruct a..|destruct (stopping st) eqn:Es]; simpl in H;
    repeat match type of H with
    | (_ ≫= _) = Ok _ => apply outcome_bind_ok in H as (? & ? & H); simpl in H
    end; injection H as <-; first [by apply Hq | apply Hback; try done].
  - intros _ _. by right.
  - intros _ Hx. match goal with Hy : YieldToHold _ = Ok _ |- _ => apply YieldToHold_state in Hy end.
    naive_solver congruence.
Qed.

Lemma step_settle_frame r f st' :
  t_pc t = Settle r f → step_settle st tid t r f = Ok st' → ∃ t', step_frame st tid t t' st'.
Proof.
  intros Hpc. assert (held (t_pc t) = Some f) as Hh by by rewrite Hpc.
  unfold step_settle. intros (fb & Hfb%deref_ok & H)%outcome_bind_ok.
  assert (∀ cb' q, ∃ t', step_frame st tid t t'
    (set_thread (set_queue st q) tid (mkThread Top (idle_fiber t) cb'))) as Htop.
  { intros cb' q. eexists. split; try reflexivity; simpl; auto; done. }
  assert (∀ cb' fb', m_state fb' ≠ TERM → ∃ t', step_frame st tid t t'
    (set_thread (set_fiber st f fb') tid (mkThread Top (idle_fiber t) cb'))) as Hset.
  { intros cb' fb' Hne. eexists. by eapply (held_frame f fb'); try reflexivity. }
  pose proof (Htop (cb_fiber t) (m_fibers st)) as Hsame. destruct st. simpl in *.
  destruct r; repeat case_match; try (apply outcome_bind_ok in H as (fb' & Hr & H));
    injection H as <-; first [apply Hsame | apply Htop | apply Hset; try done].
  apply Fiber_reset_state in Hr. congruence.
Qed.

End frames.

Lemma run_step_frame st tid a st' :
  own_inv st → run_step st tid a = Ok st' →
  ∃ t t', threads st !! tid = Some t ∧ step_frame st tid t t' st'.
Proof.
  intros Hown. unfold run_step. intros (t & Ht%deref_ok & H)%outcome_bind_ok.
  exists t. cut (∃ t', step_frame st tid t t' st'); [by intros [t' ?]; exists t'|].
  destruct (t_pc t) as [|ft b k|r f|r f|r f|] eqn:Hpc; [| | | | |done].
  - pose proof H as H'. unfold step_top in H.
    apply outcome_bind_ok in H as (((taken & queue) & tm) & _ & [= <-]).
    destruct taken; eexists; split; try reflexivity; simpl; auto; try done.
  - by eapply step_fetched_frame.
  - by eapply step_running_frame.
  - injection H as <-. destruct r; eexists; split; try reflexivity; simpl; auto; done.
  - by eapply step_settle_frame.
Qed.

(** A thread that has looked at the queue for the last time. *)
Definition leaving (fs : list Fiber) (t : thread) : Prop :=
  (t_pc t = Exited ∨ ∃ k, t_pc t = Fetched ft_empty false k) ∧
  state_of fs (idle_fiber t) = TERM.

Record drain_inv (st : Scheduler) : Prop := {
  dr_term i t : threads st !! i = Some t → state_of (fibers st) (idle_fiber t) = TERM →
    m_stopping st = true;
  dr_exit i t : threads st !! i = Some t → t_pc t = Exited →
    state_of (fibers st) (idle_fiber t) = TERM;
  dr_queue : threads st ≠ [] → (∀ i t, threads st !! i = Some t → leaving (fibers st) t) →
    Forall (λ ft, ft_thread ft ≠ None) (m_fibers st)
}.

Section drain_step.
Context (st : Scheduler) (tid : nat) (a : action) (st' : Scheduler) (t t' : thread).
Hypothesis Hown : own_inv st.
Hypothesis Ht : threads st !! tid = Some t.
Hypothesis Hfr : step_frame st tid t t' st'.

Lemma frame_lookup j u :
  threads st' !! j = Some u → j = tid ∧ u = t' ∨ j ≠ tid ∧ threads st !! j = Some u.
Proof.
  pose proof (lookup_lt_Some _ _ _ Ht). rewrite (sf_threads _ _ _ _ _ Hfr).
  destruct (decide (j = tid)) as [->|Hne].
  - rewrite list_lookup_insert_eq by done. intros [= ->]. auto.
  - rewrite list_lookup_insert_ne by done. auto.
Qed.

Lemma frame_other j u :
  j ≠ tid → threads st !! j = Some u →
  state_of (fibers st') (idle_fiber u) = state_of (fibers st) (idle_fiber u).
Proof.
  intros Hne Hu. apply (sf_state _ _ _ _ _ Hfr).
  - by eapply idle_lt.
  - intros Ho. eapply (oi_disjoint st Hown j tid u t); try done. by left.
Qed.

(** When a step makes every thread leave, the tasks it leaves are pinned. *)
Lemma frame_queue :
  counts_ok st → drain_inv st →
  (∀ i u, threads st' !! i = Some u → leaving (fibers st') u) →
  Forall (λ ft, ft_thread ft ≠ None) (m_fibers st').
Proof.
  intros Hc [Hterm Hexit Hqueue] Hall. pose proof (lookup_lt_Some _ _ _ Ht) as Hlt.
  assert (leaving (fibers st') t') as [Hpc' Hidle'].
  { apply (Hall tid). rewrite (sf_threads _ _ _ _ _ Hfr). by apply list_lookup_insert_eq. }
  rewrite (sf_idle _ _ _ _ _ Hfr) in Hidle'.
  assert (threads st ≠ []) as Hne by (intros E; by rewrite E in Ht).
  assert (∀ j u, j ≠ tid → threads st !! j = Some u → leaving (fibers st) u) as Hothers.
  { intros j u Hj Hu. destruct (Hall j u) as [? Hi].
    - rewrite (sf_threads _ _ _ _ _ Hfr). by rewrite list_lookup_insert_ne.
    - split; [done|]. by rewrite <-(frame_other j u). }
  destruct Hpc' as [Hex|[k Hk]].
  - destruct (sf_exit _ _ _ _ _ Hfr Hex) as ((ft & k & Hpc) & Hi & ->). simpl in *.
    apply Hqueue; [done|]. intros j u Hu. destruct (decide (j = tid)) as [->|]; [|eauto].
    simplify_eq. split; [|done]. right. exists k. rewrite Hpc. f_equal. by eapply (ok_empty st Hc).
  - destruct (sf_fetched _ _ _ _ _ Hfr _ _ Hk) as [Hpc Htop].
    { unfold step_top in Htop.
      destruct (fetch_spec tid (fibers st) (m_fibers st) (oi_tasks st Hown))
        as (taken & rest & k' & Hf & Hspec). rewrite Hf in Htop. osimpl in Htop.
      destruct taken as [ft|].
      { injection Htop as <-. pose proof (sf_threads _ _ _ _ _ Hfr) as Hts. simpl in Hts.
        apply (f_equal (λ l, l !! tid)) in Hts. rewrite !list_lookup_insert_eq in Hts by done.
        injection Hts as <-. done. }
      destruct Hspec as [-> Hskip]. injection Htop as <-. simpl in *.
      eapply Forall_impl; [exact Hskip|]. intros ft [[? _]|Hx]; [done|]. exfalso.
      apply fmap_Some in Hx as (f & Hff & Hst).
      destruct (ok_exec st Hc f ltac:(done)) as (j & u & Hu & Hin).
      destruct (decide (j = tid)) as [->|Hj]; [simplify_eq; by rewrite Hpc in Hin|].
      destruct (Hothers j u Hj Hu) as [[Hx|[? Hx]] _]; by rewrite Hx in Hin. }
Qed.

Lemma frame_drain : counts_ok st → drain_inv st → drain_inv st'.
Proof.
  intros Hc Hd. pose proof Hd as [Hterm Hexit Hqueue]. split.
  - intros j u [[-> ->]|[Hj Hu]]%frame_lookup Hx; rewrite (sf_stopping _ _ _ _ _ Hfr).
    + rewrite (sf_idle _ _ _ _ _ Hfr) in Hx.
      destruct (sf_term _ _ _ _ _ Hfr Hx) as [Hx'|Hx']; [by eapply Hterm|by apply stopping_flag].
    + rewrite (frame_other j u) in Hx by done. by eapply Hterm.
  - intros j u [[-> ->]|[Hj Hu]]%frame_lookup Hx.
    + destruct (sf_exit _ _ _ _ _ Hfr Hx) as (_ & Hi & ->).
      by rewrite (sf_idle _ _ _ _ _ Hfr).
    + rewrite (frame_other j u) by done. by eapply Hexit.
  - intros _. by apply frame_queue.
Qed.

End drain_step.

Lemma start_drain n : drain_inv (start_threads Scheduler_new n).
Proof.
  assert (∀ i t, threads (start_threads Scheduler_new n) !! i = Some t →
    t_pc t = Top ∧ state_of (fibers (start_threads Scheduler_new n)) (idle_fiber t) = INIT) as Hst.
  { simpl. intros i t Ht. apply list_lookup_fmap_Some in Ht as (k & -> & Hk).
    apply lookup_seq in Hk as [-> Hlt]. split; [done|]. simpl. unfold state_of.
    by rewrite lookup_replicate_2. }
  split.
  - intros i t [_ ?]%Hst ?. congruence.
  - intros i t [? _]%Hst ?. congruence.
  - done.
Qed.

Lemma step_drain st st' :
  counts_ok st → own_inv st → drain_inv st → sched_step false st st' → drain_inv st'.
Proof.
  intros Hc Ho Hd Hs. destruct Hs as [st tid a st' _ Hrun|st ft _ Hns|st cb|st this st' ->%stop_ok].
  - destruct (run_step_frame st tid a st' Ho Hrun) as (t & t' & Ht & Hfr).
    by eapply (frame_drain st tid).
  - simpl in Hns. apply negb_true_iff in Hns. destruct Hd as [Hterm Hexit Hqueue].
    split; simpl; [done|done|]. intros Hne Hall. exfalso.
    destruct (threads st) as [|t ts] eqn:E; [done|].
    destruct (Hall 0 t eq_refl) as [_ Hx]. rewrite (Hterm 0 t) in Hns; [done|done|done].
  - destruct Hd as [Hterm Hexit Hqueue]. simpl.
    assert (∀ i t, threads st !! i = Some t →
      state_of (fibers st ++ [Fiber_new cb]) (idle_fiber t) = state_of (fibers st) (idle_fiber t)) as Hsame.
    { intros i t Ht. unfold state_of. rewrite lookup_app_l; [done|]. by eapply idle_lt. }
    split; simpl.
    + intros i t Ht. rewrite (Hsame i t Ht). by eapply Hterm.
    + intros i t Ht. rewrite (Hsame i t Ht). by eapply Hexit.
    + intros Hne Hall. apply Hqueue; [done|]. intros i t Ht.
      destruct (Hall i t Ht) as [? Hx]. split; [done|]. by rewrite <-(Hsame i t Ht).
  - destruct Hd as [Hterm Hexit Hqueue]. split; simpl; auto.
Qed.

Lemma runs_drain n st :
  runs_from false n st → drain_inv st ∧ length (threads st) = n.
Proof.
  intros (st0 & [= <-] & Hr).
  assert (length (threads (start_threads Scheduler_new n)) = n) as Hl
    by (simpl; by rewrite length_fmap, length_seq).
  pose proof (start_counts n) as H1. pose proof (start_own n) as H2. pose proof (start_drain n) as H3.
  generalize dependent (start_threads Scheduler_new n). intros st0 Hr Hl H1 H2 H3.
  induction Hr as [|st0 st1 st2 Hs _ IH]; [done|].
  destruct (step_invs false st0 st1 (conj H1 H2) Hs) as [H1' H2'].
  apply IH; [|done|done|by apply (step_drain st0)].
  rewrite <-Hl. destruct Hs as [st0 tid a st1 _ Hrun| | |st0 this st1 ->%stop_ok]; try done.
  destruct (run_step_frame st0 tid a st1 H2 Hrun) as (t & t' & _ & Hfr).
  by rewrite (sf_threads _ _ _ _ _ Hfr), length_insert.
Qed.

Lemma all_exited_drained n st :
  runs_from false n st → 0 < n →
  (∀ t, t ∈ threads st → t_pc t = Exited) →
  ∀ ft, ft ∈ m_fibers st → ft_thread ft ≠ None.
Proof.
  intros [[_ Hexit Hqueue] Hlen]%runs_drain Hn Hall. apply Forall_forall.
  apply Hqueue; [intros E; rewrite E in Hlen; simpl in Hlen; lia|].
  intros i t Ht. assert (t_pc t = Exited) by (apply Hall; by eapply list_elem_of_lookup_2).
  split; [by left|by eapply Hexit].
Qed.

(** C4. In a pool of at least one thread whose application follows the rules of
    [fiber_exclusive] and does not schedule after [stop], when every thread has left
    [run], no task that any thread may execute is left in the queue: all that is left is
    pinned to a thread. *)
Theorem pool_drains n st :
  runs_from false n st → 0 < n →
  (∀ t, t ∈ threads st → t_pc t = Exited) →
  ∀ ft, ft ∈ m_fibers st → ft_thread ft ≠ None.
Proof. apply all_exited_drained. Qed.

(** ** Tasks pinned to a thread that has left *)

Lemma fetch_keeps tid fs queue taken rest k ft :
  fetch tid fs queue = Ok (taken, rest, k) → ft ∈ queue →
  ft_thread ft ≠ None → ft_thread ft ≠ Some tid → ft ∈ rest.
Proof.
  revert taken rest k. induction queue as [|it queue IH]; intros taken rest k Hf Hin H1 H2.
  { by apply not_elem_of_nil in Hin. }
  cbn [fetch] in Hf. apply elem_of_cons in Hin.
  case_bool_decide as Hthr.
  - apply outcome_bind_ok in Hf as (((tk & rs) & k') & Hf & [= <- <- <-]).
    destruct Hin as [->|Hin]; [by left|right]. by eapply IH.
  - destruct Hin as [->|Hin]; [by destruct Hthr|].
    apply outcome_bind_ok in Hf as (_ & _ & Hf). case_bool_decide.
    + apply outcome_bind_ok in Hf as (((tk & rs) & k') & Hf & [= <- <- <-]).
      right. by eapply IH.
    + by injection Hf as <- <- <-.
Qed.

Lemma enter_queue st tid t r f st' : enter st tid t r f = Ok st' → m_fibers st' = m_fibers st.
Proof. by intros (fb & _ & _ & ->)%enter_inv. Qed.

Lemma step_cb_queue st tid t cb st' : step_cb st tid t cb = Ok st' → m_fibers st' = m_fibers st.
Proof.
  unfold step_cb. destruct (cb_fiber t); [|by intros ->%enter_queue].
  intros (fb & _ & H)%outcome_bind_ok. apply outcome_bind_ok in H as (fb' & _ & H).
  by rewrite (enter_queue _ _ _ _ _ _ H).
Qed.

Lemma step_no_task_queue st tid t b st' :
  step_no_task st tid t b = Ok st' → m_fibers st' = m_fibers st.
Proof.
  unfold step_no_task. destruct b; [by intros [= <-]|].
  case_bool_decide; [by intros [= <-]|]. by intros ->%enter_queue.
Qed.

Lemma schedule_keeps st ft ft' : ft ∈ m_fibers st → ft ∈ m_fibers (schedule st ft').
Proof.
  intros Hin. unfold schedule, scheduleNoLock. simpl. case_bool_decide; [|done].
  apply elem_of_app. by left.
Qed.

Lemma run_step_keeps st tid a st' ft :
  run_step st tid a = Ok st' → ft ∈ m_fibers st →
  ft_thread ft ≠ None → ft_thread ft ≠ Some tid → ft ∈ m_fibers st'.
Proof.
  unfold run_step. intros (t & _ & H)%outcome_bind_ok Hin H1 H2.
  destruct (t_pc t) as [|ft' b k|r f|r f|r f|]; [| | | | |done].
  - unfold step_top in H. apply outcome_bind_ok in H as (((tk & q) & k) & Hf & [= <-]).
    pose proof (fetch_keeps _ _ _ _ _ _ ft Hf Hin H1 H2). by destruct tk.
  - assert (m_fibers st' = m_fibers st) as ->; [|done].
    unfold step_fetched in H. destruct (ft_fiber ft'), (ft_cb ft'); try case_match;
      eauto using enter_queue, step_cb_queue, step_no_task_queue.
  - unfold step_running in H. apply outcome_bind_ok in H as (fb & _ & H).
    apply outcome_bind_ok in H as (_ & _ & H).
    destruct r; [destruct a..|destruct (stopping st)]; simpl in H;
      repeat match type of H with
      | (_ ≫= _) = Ok _ => apply outcome_bind_ok in H as (? & ? & H); simpl in H
      end; injection H as <-; first [by apply schedule_keeps | done].
  - injection H as <-. by destruct r.
  - unfold step_settle in H. apply outcome_bind_ok in H as (fb & _ & H).
    destruct r; repeat case_match; try (apply outcome_bind_ok in H as (? & ? & H));
      injection H as <-; first [by apply schedule_keeps | done].
Qed.

(** One step of the pool with a task pinned to a thread that has left: both stay, and a
    thread whose idle fiber has not ended stays in its loop. *)
Lemma stranded_step late st st1 tid t ft :
  counts_ok st ∧ own_inv st → threads st !! tid = Some t → t_pc t = Exited →
  ft ∈ m_fibers st → ft_thread ft = Some tid → sched_step late st st1 →
  threads st1 !! tid = Some t ∧ ft ∈ m_fibers st1 ∧
  ∀ j u, threads st !! j = Some u → t_pc u ≠ Exited → state_of (fibers st) (idle_fiber u) ≠ TERM →
    ∃ u', threads st1 !! j = Some u' ∧ t_pc u' ≠ Exited ∧ state_of (fibers st1) (idle_fiber u') ≠ TERM.
Proof.
  intros [Hc Hown] Ht Hpc Hin Hpin Hs.
  destruct Hs as [st tid' a st1 _ Hrun|st ft' _ _|st cb|st this st1 ->%stop_ok];
    [|split_and!; [done|by apply schedule_keeps|by eauto]| |split_and!; [done|done|by eauto]].
  - assert (tid ≠ tid') as Hne.
    { intros ->. unfold run_step in Hrun. rewrite Ht in Hrun. osimpl in Hrun. by rewrite Hpc in Hrun. }
    destruct (run_step_frame st tid' a st1) as (u & u' & Hu & Hfr); [done|done|]. split_and!.
    + by rewrite (sf_threads _ _ _ _ _ Hfr), list_lookup_insert_ne.
    + eapply run_step_keeps; [done|done|..]; congruence.
    + assert (stopping st = false) as Hst.
      { unfold stopping. rewrite (bool_decide_false (m_fibers st = [])); [by rewrite andb_false_r|].
        intros E. rewrite E in Hin. by apply not_elem_of_nil in Hin. }
      intros j v Hv Hvpc Hvi. destruct (decide (j = tid')) as [->|Hj].
      * simplify_eq. exists u'. rewrite (sf_threads _ _ _ _ _ Hfr), list_lookup_insert_eq by (by eapply lookup_lt_Some).
        split_and!; [done| |].
        -- intros Hx. by destruct (sf_exit _ _ _ _ _ Hfr Hx) as (_ & ? & _).
        -- rewrite (sf_idle _ _ _ _ _ Hfr). intros Hx. by destruct (sf_term _ _ _ _ _ Hfr Hx) as [?|?]; [|congruence].
      * exists v. rewrite (sf_threads _ _ _ _ _ Hfr), list_lookup_insert_ne by done.
        by rewrite (frame_other st tid' st1 u u' Hown Hu Hfr j v).
  - split_and!; [done|done|]. intros j u Hu Hup Hui. exists u. split_and!; [done|done|].
    simpl. unfold state_of. rewrite lookup_app_l; [done|]. by eapply idle_lt.
Qed.

(** C5. Once a task that is pinned to a thread is in the queue and that thread has left
    [run], the task stays in the queue for ever and [stopping] never answers true again;
    a thread that is still in its loop and whose idle fiber has not ended by then never
    leaves it, so that [stop], which joins it, does not return. (Such states are reached
    because the active counter is decremented before a fiber that yielded is queued
    again; see [stranded_runs].) *)
Theorem pinned_task_stranded late n st st' tid t ft :
  runs_from late n st → threads st !! tid = Some t → t_pc t = Exited →
  ft ∈ m_fibers st → ft_thread ft = Some tid → rtc (sched_step late) st st' →
  ft ∈ m_fibers st' ∧ stopping st' = false ∧
  ∀ j u, threads st !! j = Some u → t_pc u ≠ Exited → state_of (fibers st) (idle_fiber u) ≠ TERM →
    ∃ u', threads st' !! j = Some u' ∧ t_pc u' ≠ Exited.
Proof.
  intros Hr Ht Hpc Hin Hpin Hrtc.
  assert (counts_ok st ∧ own_inv st) as Hinv by by eapply runs_invs. clear Hr.
  induction Hrtc as [st|st st1 st2 Hs _ IH].
  - split_and!; [done| |by eauto]. unfold stopping. rewrite (bool_decide_false (m_fibers st = [])).
    + by rewrite andb_false_r.
    + intros E. rewrite E in Hin. by apply not_elem_of_nil in Hin.
  - destruct (stranded_step late st st1 tid t ft Hinv Ht Hpc Hin Hpin Hs) as (Ht1 & Hin1 & Hloop).
    destruct (IH Ht1 Hin1 (step_invs late st st1 Hinv Hs)) as (? & ? & Hloop2). split_and!; [done|done|].
    intros j u Hu Hup Hui. destruct (Hloop j u Hu Hup Hui) as (u' & ? & ? & ?). by eapply Hloop2.
Qed.

(** ** A run *)

(** Two threads; the second executes a fiber that yields after [stop]; the
    first sees nothing to do and leaves; then the fiber pins a callback to it. *)
Definition stranding : list (nat * action) :=
  let go := DoYieldToHold in
  [(1, go); (1, go); (1, DoYieldToReady); (1, go)] ++
  repeat (0, go) 7 ++ [(1, go); (1, go); (1, go); (1, DoSchedule (mkFT None (Some 7) (Some 0)))].

Fixpoint exec (st : Scheduler) (l : list (nat * action)) : outcome Scheduler :=
  match l with
  | [] => Ok st
  | (tid, a) :: l => st ← run_step st tid a; exec st l
  end.

(** The discipline of user code, as a check. *)
Definition may_dob (st : Scheduler) (tid : nat) (a : action) : bool :=
  match t_pc <$> threads st !! tid with
  | Some (Running Idle _) => true
  | Some (Running _ f) =>
    match a with
    | DoSchedule ft => bool_decide (ft_fiber ft = None)
    | DoYieldToHold => true
    | DoYieldToReady | DoEnd _ => bool_decide (f ∉ queued (m_fibers st))
    end
  | _ => true
  end.

Fixpoint exec_ok (st : Scheduler) (l : list (nat * action)) : bool :=
  match l with
  | [] => true
  | (tid, a) :: l =>
    may_dob st tid a && match run_step st tid a with Ok st => exec_ok st l | _ => false end
  end.

Lemma may_dob_sound st tid a : may_dob st tid a = true → may_do st tid a.
Proof.
  unfold may_dob. intros H t r f Ht Hpc Hr. rewrite Ht in H. simpl in H. rewrite Hpc in H.
  destruct r, a; try done; apply bool_decide_eq_true in H; try done; intros g; by rewrite H.
Qed.

Lemma exec_sound late st l st' :
  exec_ok st l = true → exec st l = Ok st' → rtc (sched_step late) st st'.
Proof.
  revert st. induction l as [|[tid a] l IH]; intros st Hok Hex; simpl in *.
  { injection Hex as ->. apply rtc_refl. }
  apply andb_true_iff in Hok as [Hmay Hok].
  destruct (run_step st tid a) as [st1| |] eqn:E; try done. osimpl in Hex.
  eapply rtc_l; [|by apply IH]. eapply by_thread; [by apply may_dob_sound|done].
Qed.

(** A started pool of two threads with one fiber queued and [stop] called. *)
Definition stopped_pool : Scheduler :=
  set_stopping (schedule (new_fiber (start_threads Scheduler_new 2) (Some 5)).2 (mkFT (Some 2) None None)).

Lemma stopped_pool_runs : runs_from false 2 stopped_pool.
Proof.
  eexists. split; [reflexivity|]. unfold stopped_pool. eapply rtc_l; [apply (by_new _ _ (Some 5))|].
  eapply rtc_l; [apply (by_schedule _ _ (mkFT (Some 2) None None))|].
  - intros f [= <-]. split_and!; [vm_compute; by intros ?%elem_of_nil| |right].
    + intros i t Ht. vm_compute in Ht. destruct i as [|[|i]]; simplify_eq; done.
    + split.
      * exists (Fiber_new (Some 5)). done.
      * intros i t Ht Ho. vm_compute in Ht.
        destruct i as [|[|i]]; simplify_eq; destruct Ho as [?|[?|?]]; done.
  - done.
  - eapply rtc_l; [by apply (by_stop _ _ false)|]. apply rtc_refl.
Qed.

Definition stranded : Scheduler :=
  match exec stopped_pool stranding with Ok st => st | _ => stopped_pool end.

Lemma stranded_runs : runs_from false 2 stranded.
Proof.
  destruct stopped_pool_runs as (st0 & E & Hr). exists st0. split; [exact E|]. etrans; [exact Hr|]. eapply (exec_sound false _ stranding).
  - vm_compute. reflexivity.
  - vm_compute. reflexivity.
Qed.

Lemma pinned_task_stranded_witness :
  mkFT None (Some 7) (Some 0) ∈ m_fibers stranded ∧ stopping stranded = false ∧
  ∃ u, threads stranded !! 1 = Some u ∧ t_pc u ≠ Exited.
Proof.
  enough (mkFT None (Some 7) (Some 0) ∈ m_fibers stranded ∧ stopping stranded = false ∧
    ∀ j u, threads stranded !! j = Some u → t_pc u ≠ Exited → state_of (fibers stranded) (idle_fiber u) ≠ TERM →
      ∃ u', threads stranded !! j = Some u' ∧ t_pc u' ≠ Exited) as (H1 & H2 & H3).
  { split; [exact H1|]. split; [exact H2|]. eapply (H3 1); [vm_compute; reflexivity|discriminate|vm_compute; discriminate]. }
  eapply (pinned_task_stranded false 2 stranded stranded 0).
  - exact stranded_runs.
  - vm_compute. reflexivity.
  - reflexivity.
  - vm_compute. left.
  - reflexivity.
  - apply rtc_refl.
Defined.

Lemma counters_exact_witness :
  m_activeThreadCount stranded = 1 ∧ count active (threads stranded) = 1.
Proof.
  destruct (counters_exact false 2 stranded stranded_runs) as (Ha & _ & _).
  split; [vm_compute; reflexivity|]. rewrite <-Ha. vm_compute. reflexivity.
Defined.


(** Both threads find the queue empty after [stop] and leave. *)
Definition empty_pool : Scheduler :=
  match exec (set_stopping (start_threads Scheduler_new 2)) (repeat (0, DoYieldToHold) 7 ++ repeat (1, DoYieldToHold) 7)
  with Ok st => st | _ => Scheduler_new end.

Lemma pool_drains_witness : threads empty_pool ≠ [] ∧ ∀ ft, ft ∈ m_fibers empty_pool → ft_thread ft ≠ None.
Proof.
  split; [vm_compute; discriminate|]. apply (pool_drains 2).
  - eexists. split; [reflexivity|]. eapply rtc_l; [by apply (by_stop _ _ false)|].
    eapply (exec_sound false _ (repeat (0, DoYieldToHold) 7 ++ repeat (1, DoYieldToHold) 7));
      vm_compute; reflexivity.
  - lia.
  - intros t Ht. vm_compute in Ht. apply elem_of_cons in Ht as [->|Ht]; [reflexivity|].
    apply elem_of_cons in Ht as [->|Ht]; [reflexivity|]. inversion Ht.
Defined.
