(* ===== verification/Caller.v ===== *)
(** The scheduler that uses its caller's thread (the [use_caller] branches of
    sylar/scheduler.cc and sylar/fiber.cc): the root fiber, which runs the loop of
    [run] on the caller's thread while the caller is in [stop], and moving a fiber
    to a thread with [switchTo]. *)

From stdpp Require Import base numbers list sets option strings tactics relations.
From Stdlib Require Import ZArith Lia.
From S2P Require Import Prelude Fiber Scheduler SchedulerSpec SchedulerOwn SchedulerTheorems.

(** Where the caller is: outside, in [stop] after the flags are set, in the root
    fiber, waiting for the thread [i] of the pool, and after [stop]. *)
Inductive caller_pc : Type :=
| Outside
| Flagged
| InRoot
| Joining (i : nat)
| Stopped.

#[export] Instance caller_pc_eq_dec : EqDecision caller_pc.
Proof. solve_decision. Defined.

(** The scheduler with the threads of the pool and, last, the caller's own;
    [m_threadCount] and [m_rootFiber]. *)
Record caller : Type := mkCaller {
  c_sched : Scheduler;
  m_threadCount : nat;
  m_rootFiber : Fiber;
  c_at : caller_pc
}.

(** [Scheduler(thread_size, true)] and [start]: one thread of [thread_size] is the
    caller's. *)
Definition caller_new (thread_size : nat) : outcome caller :=
  _ ← sylar_assert (bool_decide (0 < thread_size)) "thread_size > 0";
  st ← start Scheduler_new thread_size;
  mret (mkCaller st (pred thread_size) (Fiber_new (Some 0)) Outside).

Definition set_sched (c : caller) (st : Scheduler) : caller := mkCaller st (m_threadCount c) (m_rootFiber c) (c_at c).
Definition go (c : caller) (p : caller_pc) : caller := mkCaller (c_sched c) (m_threadCount c) (m_rootFiber c) p.

(** The caller's thread among the threads. *)
Definition root (c : caller) : nat := m_threadCount c.

(** [stop()] up to the wake-ups: with no other thread it returns when there is
    nothing to do; [this] is whether the scheduler of the calling thread is this one. *)
Definition stop_flags (this : bool) (c : caller) : outcome caller :=
  let st := set_stopping (c_sched c) in
  if bool_decide (m_threadCount c = 0) &&
     bool_decide (m_state (m_rootFiber c) = TERM ∨ m_state (m_rootFiber c) = INIT) && stopping st
  then mret (go (set_sched c st) Stopped)
  else st ← stop true this (c_sched c); mret (go (set_sched c st) Flagged).

(** [if (!stopping()) m_rootFiber->call()]: the root fiber that has ended goes on
    behind its last switch, at the assertion that it never gets there. *)
Definition call_root (c : caller) : outcome caller :=
  if stopping (c_sched c) then mret (go c (Joining 0))
  else if m_done (m_rootFiber c) then Throw (assertion_failed "never reach")
  else mret (mkCaller (c_sched c) (m_threadCount c) (Fiber_call (m_rootFiber c)) InRoot).

(** [CallerMainFunc] after [run] has returned, with [back()]. *)
Definition root_end (c : caller) : caller :=
  mkCaller (c_sched c) (m_threadCount c) (MainFunc_end (m_rootFiber c) Returned) (Joining 0).

Definition exited (st : Scheduler) (tid : nat) : Prop := t_pc <$> threads st !! tid = Some Exited.

(** The steps of the caller and of the pool; [late] says whether the caller may
    still schedule after [stop]. *)
Inductive cstep (late : bool) (c : caller) : caller → Prop :=
| c_pool i a st' :
    i < m_threadCount c → may_do (c_sched c) i a → run_step (c_sched c) i a = Ok st' → cstep late c (set_sched c st')
| c_schedule ft :
    c_at c = Outside ∨ c_at c = Stopped → may_schedule (c_sched c) ft →
    late || negb (m_stopping (c_sched c)) = true → cstep late c (set_sched c (schedule (c_sched c) ft))
| c_new cb :
    c_at c = Outside ∨ c_at c = Stopped → cstep late c (set_sched c (new_fiber (c_sched c) cb).2)
| c_stop this c' : c_at c = Outside ∨ c_at c = Stopped → stop_flags this c = Ok c' → cstep late c c'
| c_call c' : c_at c = Flagged → call_root c = Ok c' → cstep late c c'
| c_root a st' :
    c_at c = InRoot → may_do (c_sched c) (root c) a → run_step (c_sched c) (root c) a = Ok st' →
    cstep late c (set_sched c st')
| c_end : c_at c = InRoot → exited (c_sched c) (root c) → cstep late c (root_end c)
| c_join i : c_at c = Joining i → i < m_threadCount c → exited (c_sched c) i → cstep late c (go c (Joining (S i)))
| c_return : c_at c = Joining (m_threadCount c) → cstep late c (go c Stopped).

(** ** Moving a fiber *)

(** [switchTo(thread)] in the fiber [f] on the thread [tid]: what it does next;
    [same] is whether the scheduler is the thread's. *)
Definition switchTo (same : bool) (tid f : nat) (thread : option nat) : list action :=
  if same && bool_decide (thread = None ∨ thread = Some tid) then []
  else [DoSchedule (mkFT (Some f) None thread); DoYieldToHold].

(** [SchedulerSwitcher]: the constructor moves to the target, the destructor back
    to the scheduler the fiber came from. *)
Definition SchedulerSwitcher_new (target : option bool) (tid f : nat) : list action :=
  match target with Some same => switchTo same tid f None | None => [] end.
Definition SchedulerSwitcher_destroy (caller : option bool) (tid f : nat) : list action :=
  match caller with Some same => switchTo same tid f None | None => [] end.

(** A task goes only to the thread it is for. *)
Lemma fetch_pinned tid fs queue ft rest k :
  fetch tid fs queue = Ok (Some ft, rest, k) → ft_thread ft = None ∨ ft_thread ft = Some tid.
Proof.
  revert rest k. induction queue as [|it queue IH]; intros rest k; cbn [fetch]; [done|].
  case_bool_decide as Ht.
  - intros (((tk & rs) & k') & Hf & [= -> _ _])%outcome_bind_ok. by eapply IH.
  - intros ([] & _ & E)%outcome_bind_ok. case_bool_decide.
    + apply outcome_bind_ok in E as (((tk & rs) & k') & Hf & [= -> _ _]). by eapply IH.
    + injection E as <- _ _. destruct (ft_thread it) as [i|]; [|by left]. right.
      destruct (decide (i = tid)) as [->|]; [done|]. destruct Ht. naive_solver.
Qed.

(** ** Correctness *)

(** The root fiber outside of [stop]: it has not begun, or it has ended together
    with the loop of the caller's thread. *)
Definition not_begun (c : caller) : Prop :=
  m_done (m_rootFiber c) = false ∧ m_state (m_rootFiber c) = INIT ∧ t_pc <$> threads (c_sched c) !! root c = Some Top.
Definition root_rests (c : caller) : Prop :=
  not_begun c ∨
  (m_done (m_rootFiber c) = true ∧ m_state (m_rootFiber c) = TERM ∧ exited (c_sched c) (root c)).

(** The threads of the pool that [stop] has waited for. *)
Definition joined (c : caller) : nat :=
  match c_at c with Joining i => i | Stopped => m_threadCount c | _ => 0 end.

Record c_inv (late : bool) (n : nat) (c : caller) : Prop := {
  ci_runs : runs_from late n (c_sched c);
  ci_count : n = S (m_threadCount c);
  ci_root : match c_at c with InRoot => m_done (m_rootFiber c) = false | Outside => not_begun c | _ => root_rests c end;
  ci_joined i : i < joined c → exited (c_sched c) i;
  ci_one : late = false → n = 1 → m_done (m_rootFiber c) = false →
    (c_at c = Stopped ∨ ∃ i, c_at c = Joining i) → stopping (c_sched c) = true
}.

Lemma exited_step late n st i tid a st' :
  runs_from late n st → run_step st tid a = Ok st' → exited st i → exited st' i ∧ tid ≠ i.
Proof.
  intros [_ Hown]%runs_invs E Hx. destruct (run_step_frame st tid a st' Hown E) as (t & t' & Ht & Hfr).
  assert (tid ≠ i) as Hne.
  { intros ->. unfold exited in Hx. rewrite Ht in Hx. injection Hx as Hx. unfold run_step in E.
    rewrite Ht in E. osimpl in E. by rewrite Hx in E. }
  split; [|done]. unfold exited. rewrite (sf_threads _ _ _ _ _ Hfr). by rewrite list_lookup_insert_ne.
Qed.

Lemma other_step late n st i tid a st' :
  runs_from late n st → run_step st tid a = Ok st' → tid ≠ i → threads st' !! i = threads st !! i.
Proof.
  intros [_ Hown]%runs_invs E Hne. destruct (run_step_frame st tid a st' Hown E) as (t & t' & Ht & Hfr).
  rewrite (sf_threads _ _ _ _ _ Hfr). by rewrite list_lookup_insert_ne.
Qed.

Lemma runs_step late n st st' : runs_from late n st → sched_step late st st' → runs_from late n st'.
Proof. intros (st0 & E & Hr) Hs. exists st0. split; [done|]. by eapply rtc_r. Qed.

(** A step of the scheduler that leaves the threads and the caller alone. *)
Lemma quiet_inv late n c st' :
  c_inv late n c → runs_from late n st' → threads st' = threads (c_sched c) →
  (late = false → n = 1 → stopping (c_sched c) = true → stopping st' = true) →
  c_inv late n (set_sched c st').
Proof.
  intros [Hr Hn Hroot Hj Hone] Hr' Ht Hs. unfold root_rests, not_begun, exited in *. split; simpl; try done.
  - unfold root_rests, not_begun, exited. simpl. by rewrite Ht.
  - unfold exited. simpl. rewrite Ht. apply Hj.
  - intros Hl H1 Hd Hat. apply Hs; [done|done|]. by apply Hone.
Qed.

Lemma pool_inv late n c i a st' :
  c_inv late n c → i < m_threadCount c → may_do (c_sched c) i a → run_step (c_sched c) i a = Ok st' →
  c_inv late n (set_sched c st').
Proof.
  intros [Hr Hn Hroot Hj Hone] Hi Hmay E. unfold root_rests, not_begun, exited in *. split; simpl; try done.
  - eapply runs_step; [done|by eapply by_thread].
  - unfold root_rests, not_begun, exited. change (root (set_sched c st')) with (root c). simpl.
    rewrite (other_step late n (c_sched c) (root c) i a st' Hr E); [done|unfold root; lia].
  - intros k Hk%Hj. by destruct (exited_step late n _ k i a st' Hr E Hk).
  - intros _ ->. lia.
Qed.

Lemma root_inv late n c a st' :
  c_inv late n c → c_at c = InRoot → may_do (c_sched c) (root c) a → run_step (c_sched c) (root c) a = Ok st' →
  c_inv late n (set_sched c st').
Proof.
  intros [Hr Hn Hroot Hj Hone] Hat Hmay E. unfold joined in *. rewrite Hat in *. split; simpl; rewrite ?Hat; try done.
  - eapply runs_step; [done|by eapply by_thread].
  - unfold joined. simpl. rewrite Hat. lia.
  - by intros _ _ _ [?|[? ?]].
Qed.

Lemma rests_outside late n c : c_inv late n c → c_at c ≠ InRoot → root_rests c.
Proof. intros [_ _ Hroot _ _] Hat. destruct (c_at c); try done. by left. Qed.

Lemma stop_inv late n this c c' :
  c_inv late n c → c_at c = Outside ∨ c_at c = Stopped → stop_flags this c = Ok c' → c_inv late n c'.
Proof.
  intros Hi Hat. assert (root_rests c) as Hrest by (eapply rests_outside; [done|by destruct Hat as [-> | ->]]).
  destruct Hi as [Hr Hn Hroot Hj Hone].
  assert (runs_from late n (set_stopping (c_sched c))) as Hr' by (eapply runs_step; [done|by apply (by_stop _ _ false)]).
  unfold stop_flags. destruct (_ && stopping (set_stopping (c_sched c))) eqn:Es.
  - intros [= <-]. apply andb_true_iff in Es as [Es Hst]. apply andb_true_iff in Es as [E0%bool_decide_eq_true _].
    split; simpl; try done. unfold joined. simpl. lia.
  - intros (st & ->%stop_ok & [= <-])%outcome_bind_ok.
    split; simpl; try done; [unfold joined; simpl; lia|by intros _ _ _ [?|[? ?]]].
Qed.

Lemma caller_call_inv late n c c' :
  c_inv late n c → c_at c = Flagged → call_root c = Ok c' → c_inv late n c'.
Proof.
  intros [Hr Hn Hroot Hj Hone] Hat. rewrite Hat in Hroot. unfold call_root. destruct (stopping (c_sched c)) eqn:Es.
  - intros [= <-]. split; simpl; try done. unfold joined. simpl. lia.
  - destruct (m_done (m_rootFiber c)) eqn:Ed; [done|]. intros [= <-]. split; simpl; try done.
    + unfold joined. simpl. lia.
    + by intros _ _ _ [?|[? ?]].
Qed.

Lemma caller_cstep_inv late n c c' : c_inv late n c → cstep late c c' → c_inv late n c'.
Proof.
  intros Hi Hs. destruct Hs as [i a st' Hlt Hmay E|ft Hat Hmay Hlate|cb Hat|this c' Hat E|c' Hat E|a st' Hat Hmay E|Hat Hx|i Hat Hlt Hx|Hat].
  - by eapply pool_inv.
  - apply quiet_inv; [done|eapply runs_step; [apply Hi|by apply by_schedule]|done|].
    intros -> _ Hst. unfold stopping in Hst. rewrite !andb_true_iff in Hst. destruct Hst as [[[_ Hst] _] _].
    simpl in Hlate. by rewrite Hst in Hlate.
  - apply quiet_inv; [done|eapply runs_step; [apply Hi|by apply by_new]|done|done].
  - by eapply stop_inv.
  - by eapply caller_call_inv.
  - by eapply root_inv.
  - destruct Hi as [Hr Hn Hroot Hj Hone]. split; simpl; try done; [by right|unfold joined; simpl; lia].
  - destruct Hi as [Hr Hn Hroot Hj Hone]. unfold joined in Hj. rewrite Hat in *. split; simpl; try done.
    + unfold joined. simpl. intros k Hk. destruct (decide (k = i)) as [->|]; [done|]. apply Hj. lia.
    + intros Hl H1 Hd _. apply Hone; [done..|]. right. by exists i.
  - destruct Hi as [Hr Hn Hroot Hj Hone]. unfold joined in Hj. rewrite Hat in *. split; simpl; try done.
    intros Hl H1 Hd _. apply Hone; [done..|]. right. by eexists.
Qed.

Lemma caller_new_inv late n c : caller_new n = Ok c → c_inv late n c.
Proof.
  unfold caller_new, sylar_assert. case_bool_decide as Hn; osimpl; [|done]. intros [= <-].
  split; simpl; [eexists; split; [reflexivity|apply rtc_refl]|lia| |unfold joined; simpl; lia|by intros _ _ _ [?|[? ?]]].
  split_and!; [done|done|]. unfold root. simpl. rewrite list_lookup_fmap, lookup_seq_lt by lia. done.
Qed.

(** C36. A scheduler that uses its caller's thread behaves like one with that many
    threads of its own: every state is one the pool can reach. Until [stop] is called the
    loop of the caller's thread has not begun, and whenever the caller is not in the root
    fiber the loop has ended or has not begun (it never does when [stop] finds nothing
    left to do). When [stop] has returned, all threads of the pool have left; and if the
    caller does not schedule after [stop], and the loop ran on its thread or the scheduler
    has no other, all tasks that are left in the queue are pinned to a thread. *)
Theorem caller_refines_pool late n c0 c :
  caller_new n = Ok c0 → rtc (cstep late) c0 c →
  runs_from late n (c_sched c) ∧
  (c_at c = Outside → not_begun c) ∧
  (c_at c ≠ InRoot → root_rests c) ∧
  (c_at c = Stopped → ∀ i, i < m_threadCount c → exited (c_sched c) i) ∧
  (late = false → c_at c = Stopped → n = 1 ∨ m_done (m_rootFiber c) = true →
     ∀ ft, ft ∈ m_fibers (c_sched c) → ft_thread ft ≠ None).
Proof.
  intros Hnew Hsteps.
  assert (c_inv late n c) as Hi.
  { apply (caller_new_inv late) in Hnew. induction Hsteps as [|c1 c2 c3 Hs _ IH]; [done|].
    apply IH. by eapply caller_cstep_inv. }
  pose proof Hi as [Hr Hn Hroot Hj Hone]. split_and!; [done| | | |].
  - intros Hat. by rewrite Hat in Hroot.
  - by apply (rests_outside late n).
  - intros Hat i Hlt. apply Hj. unfold joined. by rewrite Hat.
  - intros -> Hat Hcase. unfold joined in Hj. rewrite Hat in Hroot, Hj.
    destruct (m_done (m_rootFiber c)) eqn:Ed.
    + eapply all_exited_drained; [exact Hr|lia|]. intros t Ht. apply list_elem_of_lookup in Ht as [i Ht].
      destruct Hroot as [[? _]|(_ & _ & Hx)]; [congruence|].
      assert (exited (c_sched c) i) as Hexi.
      { destruct (decide (i < m_threadCount c)) as [Hlt|Hge]; [by apply Hj|].
        assert (i = root c) as ->; [|done].
        pose proof (lookup_lt_Some _ _ _ Ht) as Hlen. destruct (runs_drain _ _ Hr) as [_ Hl]. unfold root. lia. }
      unfold exited in Hexi. rewrite Ht in Hexi. by injection Hexi.
    + destruct Hcase as [H1|?]; [|done]. assert (stopping (c_sched c) = true) as Hst by (apply Hone; auto).
      unfold stopping in Hst. rewrite !andb_true_iff, !bool_decide_eq_true in Hst. destruct Hst as [[_ Hq] _].
      rewrite Hq. by intros ft ?%not_elem_of_nil.
Qed.

(** A second [stop] with something left to do enters the root fiber, which has
    ended, and the program aborts. *)
Lemma second_stop_aborts c :
  m_done (m_rootFiber c) = true → m_fibers (c_sched c) ≠ [] →
  (c ← stop_flags true c; call_root c) = Throw (assertion_failed "never reach").
Proof.
  intros Hd Hq. assert (stopping (set_stopping (c_sched c)) = false) as Hs.
  { unfold stopping. simpl. by rewrite bool_decide_false. }
  unfold stop_flags. rewrite Hs, andb_false_r. simpl. unfold call_root. simpl. by rewrite Hs, Hd.
Qed.

(** ** One callback on the caller's thread *)

Module OneCaller.

(** Steps of the root fiber whose callbacks only end, when nothing is queued. *)
Fixpoint root_run (c : caller) (l : list action) : option caller :=
  match l with
  | [] => Some c
  | a :: l =>
    if bool_decide (c_at c = InRoot) &&
       match a with DoYieldToHold => true | DoEnd _ => bool_decide (m_fibers (c_sched c) = []) | _ => false end
    then match run_step (c_sched c) (root c) a with Ok st => root_run (set_sched c st) l | _ => None end
    else None
  end.

Lemma root_run_steps late l : ∀ c c', root_run c l = Some c' → rtc (cstep late) c c'.
Proof.
  induction l as [|a l IH]; intros c c'; simpl; [intros [= <-]; apply rtc_refl|].
  destruct (_ && _) eqn:E; [|done]. apply andb_true_iff in E as [Hat%bool_decide_eq_true Ha].
  destruct (run_step (c_sched c) (root c) a) as [st| |] eqn:Er; [|done..]. intros Hr.
  eapply rtc_l; [|by apply IH]. apply (c_root _ _ a st); [done| |done].
  intros t r f _ _ _. destruct a; try done. apply bool_decide_eq_true in Ha. rewrite Ha. apply not_elem_of_nil.
Qed.

Definition first : caller :=
  match caller_new 1 with Ok c => c | _ => mkCaller Scheduler_new 0 Fiber_main Outside end.
Definition with_task : caller := set_sched first (schedule (c_sched first) (mkFT None (Some 5) None)).
Definition flagged : caller := match stop_flags true with_task with Ok c => c | _ => with_task end.
Definition called : caller := match call_root flagged with Ok c => c | _ => with_task end.
Definition script : list action := replicate 2 DoYieldToHold ++ DoEnd Returned :: replicate 9 DoYieldToHold.
Definition over : caller := default called (root_run called script).

Lemma over_reachable : rtc (cstep false) first (go (root_end over) Stopped).
Proof.
  eapply rtc_l; [apply (c_schedule _ _ (mkFT None (Some 5) None)); [by left|by intros f ?|reflexivity]|].
  eapply rtc_l; [apply (c_stop _ _ true flagged); [by left|vm_compute; reflexivity]|].
  eapply rtc_l; [apply (c_call _ _ called); [reflexivity|vm_compute; reflexivity]|].
  etransitivity; [apply (root_run_steps false script called over); vm_compute; reflexivity|].
  eapply rtc_l; [apply c_end; [vm_compute; reflexivity|vm_compute; reflexivity]|].
  apply rtc_once. apply (c_return _ (root_end over)). vm_compute. reflexivity.
Qed.

End OneCaller.

Import OneCaller.

Lemma caller_refines_pool_witness :
  m_fibers (c_sched with_task) ≠ [] ∧ ∀ ft, ft ∈ m_fibers (c_sched (go (root_end over) Stopped)) → ft_thread ft ≠ None.
Proof.
  split; [discriminate|].
  destruct (caller_refines_pool false 1 first (go (root_end over) Stopped)) as (_ & _ & _ & _ & H).
  - reflexivity.
  - exact over_reachable.
  - apply H; [reflexivity|reflexivity|left; reflexivity].
Defined.
