(* ===== verification/Sync.v ===== *)
(** Locks and semaphores (sylar/mutex.h, sylar/mutex.cc): the scoped locks, the
    spinning [CASLock], and [FiberSemaphore], on which fibers wait without
    blocking their thread. The POSIX objects behind [Mutex], [RWMutex],
    [Spinlock] and [Semaphore] are the system's. *)

From Stdlib Require Import ZArith Lia.
From stdpp Require Import base numbers gmap option strings tactics sets relations list_numbers list.
From S2P Require Import Prelude.

Local Open Scope Z_scope.

(** ** Scoped locks *)

(** What a guard does to its mutex; a write guard's [Acquire] is [wrlock], a read
    guard's [rdlock], that of [ScopedLockImpl] is [lock]. *)
Inductive mutex_event : Type := Acquire | Release.

(** A guard: [m_locked], and what it did to the mutex so far. *)
Record guard : Type := mkGuard {
  m_locked : bool;
  g_trace : list mutex_event
}.

Definition guard_new : guard := mkGuard true [Acquire].

Definition guard_lock (g : guard) : guard :=
  if m_locked g then g else mkGuard true (g_trace g ++ [Acquire]).

Definition guard_unlock (g : guard) : guard :=
  if m_locked g then mkGuard false (g_trace g ++ [Release]) else g.

(** The destructor. *)
Definition guard_destroy (g : guard) : guard := guard_unlock g.

(** Calls of the owner: [true] for [lock], [false] for [unlock]. *)
Definition guard_calls (calls : list bool) : guard :=
  foldl (λ g (l : bool), if l then guard_lock g else guard_unlock g) guard_new calls.

(** [n] times in and out. *)
Fixpoint paired (n : nat) : list mutex_event :=
  match n with O => [] | S n => Acquire :: Release :: paired n end.

Lemma paired_snoc n : paired n ++ [Acquire; Release] = paired (S n).
Proof. induction n as [|n IH]; [done|]. simpl. by rewrite IH. Qed.

Lemma guard_trace calls :
  ∃ n, g_trace (guard_calls calls) = paired n ++ (if m_locked (guard_calls calls) then [Acquire] else []).
Proof.
  unfold guard_calls. assert (∃ n, g_trace guard_new = paired n ++ (if m_locked guard_new then [Acquire] else []))
    as Hg by by exists 0%nat.
  revert Hg. generalize guard_new. induction calls as [|c calls IH]; intros g [n Hn]; [by exists n|].
  simpl. apply IH. destruct c; unfold guard_lock, guard_unlock; destruct (m_locked g) eqn:El; simpl.
  - exists n. by rewrite El.
  - exists n. by rewrite Hn, app_nil_r.
  - exists (S n). by rewrite Hn, <-(assoc_L (++)), app_nil_r, <-paired_snoc.
  - exists n. by rewrite El, Hn.
Qed.

(** A scoped lock never locks a mutex it holds and never unlocks one it
    does not hold, whatever its owner calls and in whichever order; while it
    lives it holds the mutex exactly when [m_locked] says so, and its destructor
    leaves the mutex released. *)
Theorem scoped_lock_balanced calls :
  ∃ n, g_trace (guard_calls calls) = paired n ++ (if m_locked (guard_calls calls) then [Acquire] else []) ∧
    (0 < length (g_trace (guard_calls calls)))%nat ∧
    g_trace (guard_destroy (guard_calls calls)) =
      paired (if m_locked (guard_calls calls) then S n else n) ∧
    m_locked (guard_destroy (guard_calls calls)) = false.
Proof.
  destruct (guard_trace calls) as [n Hn]. exists n. split; [done|]. split.
  - assert (∀ g, (0 < length (g_trace g))%nat →
      (0 < length (g_trace (foldl (λ g (l : bool), if l then guard_lock g else guard_unlock g) g calls)))%nat)
      as Hpos; [|by apply Hpos; simpl; lia].
    clear n Hn. induction calls as [|c calls IH]; intros g Hg; [done|]. simpl. apply IH.
    destruct c; unfold guard_lock, guard_unlock; destruct (m_locked g); simpl; rewrite ?length_app; lia.
  - unfold guard_destroy, guard_unlock. destruct (m_locked (guard_calls calls)) eqn:El; cbn [g_trace m_locked].
    + by rewrite Hn, <-(assoc_L (++)), <-paired_snoc.
    + by rewrite El, Hn, app_nil_r.
Qed.

(** ** [CASLock] *)

(** Where a thread is: outside, in the loop of [lock], or past it. *)
Inductive cas_pc : Type := Outside | Spinning | Inside.

(** The flag, and the threads. *)
Record cas_state : Type := mkCas {
  cas_flag : bool;
  cas_pcs : gmap nat cas_pc
}.

(** [atomic_flag_test_and_set]: the old value and the new one. *)
Definition test_and_set (flag : bool) : bool * bool := (flag, true).

(** One turn of the loop in [lock]. *)
Definition cas_try (st : cas_state) (t : nat) : cas_state :=
  let '(old, flag) := test_and_set (cas_flag st) in
  mkCas flag (if old then cas_pcs st else <[t := Inside]> (cas_pcs st)).

Definition cas_unlock (st : cas_state) (t : nat) : cas_state :=
  mkCas false (<[t := Outside]> (cas_pcs st)).

Inductive cas_step (st : cas_state) : cas_state → Prop :=
| cas_enter t : cas_pcs st !! t = None ∨ cas_pcs st !! t = Some Outside →
    cas_step st (mkCas (cas_flag st) (<[t := Spinning]> (cas_pcs st)))
| cas_turn t : cas_pcs st !! t = Some Spinning → cas_step st (cas_try st t)
| cas_leave t : cas_pcs st !! t = Some Inside → cas_step st (cas_unlock st t).

Definition CASLock_new : cas_state := mkCas false ∅.

(** The flag is up exactly while one thread is inside. *)
Definition cas_inv (st : cas_state) : Prop :=
  (cas_flag st = true ↔ ∃ t, cas_pcs st !! t = Some Inside) ∧
  (∀ t u, cas_pcs st !! t = Some Inside → cas_pcs st !! u = Some Inside → t = u).

Lemma cas_step_inv st st' : cas_inv st → cas_step st st' → cas_inv st'.
Proof.
  intros [Hf Hu] [t Ht|t Ht|t Ht].
  - assert (∀ u, <[t:=Spinning]> (cas_pcs st) !! u = Some Inside ↔ cas_pcs st !! u = Some Inside) as Hsame.
    { intros u. rewrite lookup_insert_Some. naive_solver. }
    split; simpl; [|intros u v; rewrite !Hsame; apply Hu]. rewrite Hf. by setoid_rewrite Hsame.
  - unfold cas_try. simpl. destruct (cas_flag st) eqn:Ef.
    + split; simpl; [|done]. split; [by intros _; apply Hf|done].
    + assert (∀ u, cas_pcs st !! u ≠ Some Inside) as Hnone.
      { intros u Hin. assert (false = true); [|done]. apply Hf. by exists u. }
      split; simpl.
      * split; [|done]. intros _. exists t. apply lookup_insert_eq.
      * intros u v Hu' Hv. apply lookup_insert_Some in Hu' as [[<- _]|[_ ?]]; [|by edestruct Hnone].
        apply lookup_insert_Some in Hv as [[<- _]|[_ ?]]; [done|by edestruct Hnone].
  - assert (∀ u, <[t:=Outside]> (cas_pcs st) !! u ≠ Some Inside) as Hnone.
    { intros u Hin. apply lookup_insert_Some in Hin as [[_ ?]|[Hne Hin]]; [done|]. by apply Hne, Hu. }
    split; simpl; [|intros u v Hin; by destruct (Hnone u)].
    split; [done|]. intros [u Hin]. by destruct (Hnone u).
Qed.

(** [CASLock] excludes: whatever threads do, at most one of them is past
    [lock], and the flag is up exactly when one is; while none is, the next turn
    of a spinning thread lets it in, so the loop only spins while the lock is
    held. *)
Theorem CASLock_excludes st :
  rtc cas_step CASLock_new st →
  (∀ t u, cas_pcs st !! t = Some Inside → cas_pcs st !! u = Some Inside → t = u) ∧
  (∀ t, cas_pcs st !! t = Some Spinning →
     (∃ u, cas_pcs st !! u = Some Inside) ∧ cas_try st t = st ∨
     (∀ u, cas_pcs st !! u ≠ Some Inside) ∧ cas_pcs (cas_try st t) !! t = Some Inside).
Proof.
  intros Hr. assert (cas_inv st) as [Hf Hu].
  { assert (cas_inv CASLock_new) as Hi.
    { assert (∀ t, cas_pcs CASLock_new !! t = Some Inside → False) as Hno by (intros t; apply lookup_empty_Some).
      split; [split; [done|intros [t ?]; by destruct (Hno t)]|]. intros t u ?. by destruct (Hno t). }
    revert Hi. induction Hr as [|x y z Hs _ IH]; [done|]. intros Hi. apply IH. by eapply cas_step_inv. }
  split; [done|]. intros t Ht. unfold cas_try. simpl. destruct (cas_flag st) eqn:Ef.
  - left. split; [by apply Hf|]. destruct st. simpl in *. by rewrite Ef.
  - right. split; [|apply lookup_insert_eq]. intros u Hin. assert (false = true); [|done]. apply Hf. by exists u.
Qed.

(** ** [FiberSemaphore] *)

(** Schedulers and fibers have names. *)
Record FiberSemaphore : Type := mkSem {
  m_waiters : list (nat * nat);
  m_concurrency : Z
}.

Definition FiberSemaphore_new (initial_concurrency : Z) : FiberSemaphore := mkSem [] initial_concurrency.

(** [tryWait] of a thread whose scheduler is [sched]. *)
Definition tryWait (sem : FiberSemaphore) (sched : option nat) : outcome (bool * FiberSemaphore) :=
  _ ← sylar_assert (bool_decide (is_Some sched)) "Scheduler::GetThis()";
  if decide (0 < m_concurrency sem) then mret (true, mkSem (m_waiters sem) (m_concurrency sem - 1))
  else mret (false, sem).

(** [wait] of the fiber [f] up to the end of the locked part: [true] when it
    returns, [false] when [YieldToHold] is next. *)
Definition wait_locked (sem : FiberSemaphore) (sched : option nat) (f : nat) : outcome (bool * FiberSemaphore) :=
  _ ← sylar_assert (bool_decide (is_Some sched)) "Scheduler::GetThis()";
  s ← deref sched;
  if decide (0 < m_concurrency sem) then mret (true, mkSem (m_waiters sem) (m_concurrency sem - 1))
  else mret (false, mkSem (m_waiters sem ++ [(s, f)]) (m_concurrency sem)).

(** [notify]: the fiber that is handed to its scheduler, if any. *)
Definition notify (sem : FiberSemaphore) : option (nat * nat) * FiberSemaphore :=
  match m_waiters sem with
  | next :: rest => (Some next, mkSem rest (m_concurrency sem))
  | [] => (None, mkSem [] (u64 (m_concurrency sem + 1)))
  end.

(** [reset]: one store, which takes no lock. Below it is a step between the locked
    sections of the others; [reset_race] is one that falls inside a section. *)
Definition sem_reset (sem : FiberSemaphore) : FiberSemaphore := mkSem (m_waiters sem) 0.

(** [--m_concurrency] of [tryWait] and [wait], on an unsigned variable. *)
Definition take_permit (sem : FiberSemaphore) : FiberSemaphore :=
  mkSem (m_waiters sem) (u64 (m_concurrency sem - 1)).

(** The test of [tryWait] or [wait] succeeds, another thread resets the semaphore, and the
    decrement wraps around: the semaphore has 2^64 - 1 permits. *)
Lemma reset_race waiters n s f :
  0 < n < 2 ^ 64 →
  let sem := mkSem waiters n in
  tryWait sem (Some s) = Ok (true, take_permit sem) ∧ wait_locked sem (Some s) f = Ok (true, take_permit sem) ∧
  m_concurrency (take_permit (sem_reset sem)) = 2 ^ 64 - 1.
Proof.
  intros Hn sem. unfold tryWait, wait_locked, take_permit. osimpl. simpl. rewrite !decide_True by lia.
  rewrite uwrap_small by (unfold in_unsigned; lia). done.
Qed.

(** The destructor. *)
Definition sem_destroy (sem : FiberSemaphore) : outcome unit :=
  sylar_assert (bool_decide (m_waiters sem = [])) "m_waiters.empty()".

(** A fiber inside [wait]: between the unlock and [YieldToHold], or yielded. *)
Inductive wait_pc : Type := Parking | Held.

(** The semaphore in use: the fibers inside [wait], the fibers handed to their
    schedulers, and for the record the notifications, the permits handed out,
    those dropped by [reset], and the fibers in the order they began to wait and
    were handed over. *)
Record sem_sys : Type := mkSys {
  y_sem : FiberSemaphore;
  y_inside : gmap nat wait_pc;
  y_ready : list (nat * nat);
  y_notified : Z;
  y_acquired : Z;
  y_dropped : Z;
  y_arrived : list nat;
  y_handed : list nat
}.

Definition sys_new (initial : Z) : sem_sys := mkSys (FiberSemaphore_new initial) ∅ [] 0 0 0 [] [].

(** A step of a fiber. The scheduler resumes only fibers that have yielded, as
    [Scheduler::run] leaves those that are still executing in its queue. *)
Inductive sem_step (y : sem_sys) : sem_sys → Prop :=
| s_try s b sem :
    tryWait (y_sem y) (Some s) = Ok (b, sem) →
    sem_step y (mkSys sem (y_inside y) (y_ready y) (y_notified y)
                  (y_acquired y + (if b : bool then 1 else 0)) (y_dropped y) (y_arrived y) (y_handed y))
| s_wait s f sem :
    y_inside y !! f = None → wait_locked (y_sem y) (Some s) f = Ok (true, sem) →
    sem_step y (mkSys sem (y_inside y) (y_ready y) (y_notified y) (y_acquired y + 1) (y_dropped y)
                  (y_arrived y) (y_handed y))
| s_park s f sem :
    y_inside y !! f = None → wait_locked (y_sem y) (Some s) f = Ok (false, sem) →
    sem_step y (mkSys sem (<[f := Parking]> (y_inside y)) (y_ready y) (y_notified y) (y_acquired y)
                  (y_dropped y) (y_arrived y ++ [f]) (y_handed y))
| s_yield f :
    y_inside y !! f = Some Parking →
    sem_step y (mkSys (y_sem y) (<[f := Held]> (y_inside y)) (y_ready y) (y_notified y) (y_acquired y)
                  (y_dropped y) (y_arrived y) (y_handed y))
| s_notify next sem :
    m_concurrency (y_sem y) + 1 < 2 ^ 64 → notify (y_sem y) = (next, sem) →
    sem_step y (mkSys sem (y_inside y) (y_ready y ++ option_list next) (y_notified y + 1) (y_acquired y)
                  (y_dropped y) (y_arrived y) (y_handed y ++ (snd <$> option_list next)))
| s_resume s f l1 l2 :
    y_ready y = l1 ++ (s, f) :: l2 → y_inside y !! f = Some Held →
    sem_step y (mkSys (y_sem y) (delete f (y_inside y)) (l1 ++ l2) (y_notified y) (y_acquired y + 1)
                  (y_dropped y) (y_arrived y) (y_handed y))
| s_reset :
    sem_step y (mkSys (sem_reset (y_sem y)) (y_inside y) (y_ready y) (y_notified y) (y_acquired y)
                  (y_dropped y + m_concurrency (y_sem y)) (y_arrived y) (y_handed y)).

(** The fibers that wait in line or were handed over, each once. *)
Definition in_line (y : sem_sys) : list nat := snd <$> (m_waiters (y_sem y) ++ y_ready y).

Record sem_inv (initial : Z) (y : sem_sys) : Prop := {
  si_conc : 0 <= m_concurrency (y_sem y) < 2 ^ 64;
  si_empty : m_waiters (y_sem y) ≠ [] → m_concurrency (y_sem y) = 0;
  si_once : NoDup (in_line y);
  si_inside f : is_Some (y_inside y !! f) ↔ f ∈ in_line y;
  si_count : y_acquired y + Z.of_nat (length (y_ready y)) + m_concurrency (y_sem y) + y_dropped y =
             initial + y_notified y;
  si_order : y_arrived y = y_handed y ++ (snd <$> m_waiters (y_sem y));
  si_nonneg : 0 <= y_acquired y ∧ 0 <= y_dropped y
}.

Lemma sys_new_inv initial : 0 <= initial < 2 ^ 64 → sem_inv initial (sys_new initial).
Proof.
  intros Hi. split; simpl; [done|done|constructor| |lia|done|lia].
  intros f. unfold in_line. simpl. rewrite lookup_empty. split; [by intros [? ?]|by intros ?%elem_of_nil].
Qed.

(** The locked parts, inverted. *)
Lemma tryWait_inv sem s b sem' :
  tryWait sem (Some s) = Ok (b, sem') →
  if b then 0 < m_concurrency sem ∧ sem' = mkSem (m_waiters sem) (m_concurrency sem - 1)
  else m_concurrency sem <= 0 ∧ sem' = sem.
Proof. unfold tryWait. simpl. case_decide; osimpl; intros [= <- <-]; split; (done || lia). Qed.

Lemma wait_locked_inv sem s f b sem' :
  wait_locked sem (Some s) f = Ok (b, sem') →
  if b then 0 < m_concurrency sem ∧ sem' = mkSem (m_waiters sem) (m_concurrency sem - 1)
  else m_concurrency sem <= 0 ∧ sem' = mkSem (m_waiters sem ++ [(s, f)]) (m_concurrency sem).
Proof. unfold wait_locked. simpl. case_decide; osimpl; intros [= <- <-]; split; (done || lia). Qed.

Lemma notify_step sem next sem' :
  notify sem = (next, sem') → m_concurrency sem + 1 < 2 ^ 64 → 0 <= m_concurrency sem →
  m_waiters sem = option_list next ++ m_waiters sem' ∧
  m_concurrency sem' = m_concurrency sem + (match next with Some _ => 0 | None => 1 end) ∧ (next = None → m_waiters sem' = []).
Proof.
  unfold notify. destruct (m_waiters sem) as [|w ws]; intros [= <- <-] Hlt Hpos; simpl.
  - split_and!; [done| |done]. apply uwrap_small. unfold in_unsigned. lia.
  - split_and!; [done|lia|done].
Qed.

(** Taking a permit without waiting. *)
Lemma sem_take initial y sem :
  sem_inv initial y → 0 < m_concurrency (y_sem y) →
  sem = mkSem (m_waiters (y_sem y)) (m_concurrency (y_sem y) - 1) →
  sem_inv initial (mkSys sem (y_inside y) (y_ready y) (y_notified y) (y_acquired y + 1) (y_dropped y)
    (y_arrived y) (y_handed y)).
Proof.
  intros [Hc He Ho Hin Hn Hord Hpos] Hlt ->. split; simpl; try done; try lia. intros Hw.
  specialize (He Hw). lia.
Qed.

Lemma sem_step_inv initial y y' : sem_inv initial y → sem_step y y' → sem_inv initial y'.
Proof.
  intros Hy Hs. pose proof Hy as [Hc He Ho Hin Hn Hord Hpos].
  destruct Hs as [s b sem E|s f sem Hf E|s f sem Hf E|f Hf|next sem Hlt E|s f l1 l2 Hl Hf|].
  - apply tryWait_inv in E. destruct b; [destruct E; by apply sem_take|]. destruct E as [_ ->].
    rewrite Z.add_0_r. by destruct y.
  - apply wait_locked_inv in E as [? ?]. by apply sem_take.
  - apply wait_locked_inv in E as [Hle ->].
    assert (f ∉ in_line y) as Hnot by (rewrite <-Hin, Hf; by intros [? ?]).
    set (y' := mkSys _ _ _ _ _ _ _ _). assert (in_line y' ≡ₚ f :: in_line y) as Hperm.
    { unfold in_line, y'. simpl. rewrite !fmap_app. simpl. solve_Permutation. }
    split; simpl; try done; try lia.
    + rewrite Hperm. by constructor.
    + intros g. rewrite lookup_insert_is_Some', Hin, Hperm, elem_of_cons. naive_solver.
    + by rewrite fmap_app, Hord, (assoc_L (++)).
  - split; try done. intros g. simpl. rewrite lookup_insert_is_Some'.
    change (f = g ∨ is_Some (y_inside y !! g) ↔ g ∈ in_line y). rewrite <-Hin. split; [|by right].
    intros [<-|?]; [by eexists|done].
  - destruct (notify_step _ _ _ E Hlt) as (Hw & Hcc & Hnone); [lia|].
    assert (in_line (mkSys sem (y_inside y) (y_ready y ++ option_list next) (y_notified y + 1) (y_acquired y)
      (y_dropped y) (y_arrived y) (y_handed y ++ (snd <$> option_list next))) ≡ₚ in_line y) as Hperm.
    { unfold in_line. simpl. rewrite Hw. apply fmap_Permutation. by solve_Permutation. }
    split; simpl.
    + rewrite Hcc. destruct next; lia.
    + intros Hne. rewrite Hcc. destruct next; [|by rewrite Hnone in Hne].
      rewrite He; [lia|]. by rewrite Hw.
    + by rewrite Hperm.
    + intros g. by rewrite Hperm, Hin.
    + rewrite length_app. destruct next; simpl; lia.
    + by rewrite Hord, Hw, fmap_app, (assoc_L (++)).
    + lia.
  - assert (in_line y ≡ₚ f :: in_line (mkSys (y_sem y) (delete f (y_inside y)) (l1 ++ l2) (y_notified y)
      (y_acquired y + 1) (y_dropped y) (y_arrived y) (y_handed y))) as Hperm.
    { unfold in_line. simpl. rewrite Hl, !fmap_app. simpl. by solve_Permutation. }
    rewrite Hperm in Ho. apply NoDup_cons in Ho as [Hnf Hnd]. split; try done.
    + intros g. simpl. rewrite lookup_delete_is_Some, Hin, Hperm. set_solver.
    + simpl. rewrite Hl, length_app in Hn. rewrite length_app. simpl in Hn. lia.
    + simpl. lia.
  - split; try done; simpl; lia.
Qed.

Lemma sem_reachable_inv initial y :
  0 <= initial < 2 ^ 64 → rtc sem_step (sys_new initial) y → sem_inv initial y.
Proof.
  intros Hi Hr. pose proof (sys_new_inv initial Hi) as Hy. revert Hy.
  induction Hr as [|y1 y2 y3 Hs _ IH]; [done|]. intros Hy. apply IH. by eapply sem_step_inv.
Qed.

Lemma filter_absent (f : nat) l : f ∉ l → filter (λ x, x = f) l = [].
Proof.
  induction l as [|x l IH]; [done|]. intros [Hx Hl]%not_elem_of_cons.
  rewrite filter_cons_False by naive_solver. by apply IH.
Qed.

(** C16. A fiber semaphore counts exactly and loses no wake-up, however waits,
    notifications and yields interleave, also when a notification falls between
    a waiter's unlock and its yield, and however resets fall between the locked
    sections of the others: permits handed out, handed over and left are
    those it started with plus the notifications, less what [reset] drops;
    permits are left only while nobody waits; every fiber inside [wait] is
    either in line or handed to its scheduler, exactly once; fibers are handed
    over in the order they began to wait; and a fiber that was handed over can be
    resumed as soon as it has yielded. *)
Theorem fiber_semaphore_exact initial y :
  0 <= initial < 2 ^ 64 → rtc sem_step (sys_new initial) y →
  y_acquired y + Z.of_nat (length (y_ready y)) + m_concurrency (y_sem y) + y_dropped y =
    initial + y_notified y ∧
  y_acquired y <= initial + y_notified y ∧
  (0 < m_concurrency (y_sem y) → m_waiters (y_sem y) = []) ∧
  (∀ f, is_Some (y_inside y !! f) →
     length (filter (λ x, x = f) (snd <$> (m_waiters (y_sem y) ++ y_ready y))) = 1%nat) ∧
  y_handed y `prefix_of` y_arrived y ∧
  (∀ s f, (s, f) ∈ y_ready y →
     ∃ y', rtc sem_step y y' ∧ y_inside y' !! f = None ∧ y_acquired y' = y_acquired y + 1).
Proof.
  intros Hi Hr. pose proof (sem_reachable_inv initial y Hi Hr) as [Hc He Ho Hin Hn Hord Hpos].
  split_and!.
  - done.
  - pose proof (Zle_0_nat (length (y_ready y))). lia.
  - intros Hlt. destruct (m_waiters (y_sem y)) eqn:E; [done|]. rewrite He in Hlt; [lia|done].
  - intros f Hf%Hin. unfold in_line in *. revert Ho Hf. generalize (snd <$> (m_waiters (y_sem y) ++ y_ready y)).
    clear. intros l Hnd Hf. apply list_elem_of_split in Hf as (l1 & l2 & ->).
    apply NoDup_app in Hnd as (_ & Hd & [Hnf _]%NoDup_cons).
    rewrite filter_app, filter_cons_True by done.
    rewrite (filter_absent f l1), (filter_absent f l2); [done|done|]. set_solver.
  - rewrite Hord. by eexists.
  - intros s f Hsf. apply list_elem_of_split in Hsf as (l1 & l2 & Hl).
    assert (is_Some (y_inside y !! f)) as [pc Hpc].
    { apply Hin. unfold in_line. apply (list_elem_of_fmap_2 snd _ (s, f)). rewrite Hl, !elem_of_app, elem_of_cons. auto. }
    assert (∀ y1, y_inside y1 !! f = Some Held → y_ready y1 = y_ready y → y_acquired y1 = y_acquired y →
      ∃ y', sem_step y1 y' ∧ y_inside y' !! f = None ∧ y_acquired y' = y_acquired y + 1) as Hheld.
    { intros y1 Hf1 Hr1 Ha1. rewrite Hl in Hr1. eexists. split; [by apply (s_resume y1 s f l1 l2)|].
      simpl. rewrite lookup_delete_eq, Ha1. done. }
    destruct pc.
    + destruct (Hheld (mkSys (y_sem y) (<[f := Held]> (y_inside y)) (y_ready y) (y_notified y) (y_acquired y)
        (y_dropped y) (y_arrived y) (y_handed y))) as (y' & Hs & ?); [apply lookup_insert_eq|done..|].
      exists y'. split; [|done]. eapply rtc_l; [by apply (s_yield y f)|]. by apply rtc_once.
    + destruct (Hheld y Hpc eq_refl eq_refl) as (y' & Hs & ?). exists y'. split; [by apply rtc_once|done].
Qed.

(** One fiber parks and is notified before it has yielded. *)
Definition parked : sem_sys := mkSys (mkSem [(1, 4)%nat] 0) (<[4%nat := Parking]> ∅) [] 0 0 0 [4%nat] [].
Definition early : sem_sys := mkSys (mkSem [] 0) (<[4%nat := Parking]> ∅) [(1, 4)%nat] 1 0 0 [4%nat] [4%nat].

Lemma fiber_semaphore_exact_witness :
  ∃ y', rtc sem_step early y' ∧ y_inside y' !! 4%nat = None ∧ y_acquired y' = 1.
Proof.
  destruct (fiber_semaphore_exact 0 early) as (_ & _ & _ & _ & _ & H).
  - lia.
  - apply (rtc_l _ _ parked); [exact (s_park (sys_new 0) 1 4 (mkSem [(1, 4)%nat] 0) eq_refl eq_refl)|].
    apply rtc_once. exact (s_notify parked (Some (1, 4)%nat) (mkSem [] 0) eq_refl eq_refl).
  - apply (H 1%nat 4%nat). apply elem_of_cons. left. reflexivity.
Defined.

(** One thread inside, one spinning. *)
Lemma CASLock_excludes_witness :
  let st := mkCas true (<[2%nat := Spinning]> {[1%nat := Inside]}) in cas_try st 2 = st.
Proof.
  intros st. assert (rtc cas_step CASLock_new st) as Hr.
  { eapply rtc_l; [apply (cas_enter _ 1); by left|].
    eapply rtc_l; [apply (cas_turn _ 1); reflexivity|].
    eapply rtc_l; [apply (cas_enter _ 2); by left|]. apply rtc_refl. }
  destruct (proj2 (CASLock_excludes st Hr) 2%nat eq_refl) as [[_ H]|[H _]]; [exact H|].
  destruct (H 1%nat). reflexivity.
Defined.
