(* ===== verification/Locks.v ===== *)
(** The POSIX locks behind the guards (sylar/mutex.h, sylar/mutex.cc): [Mutex],
    [RWMutex] and [Spinlock] as an interface with the documented behaviour of
    pthreads, the scoped guards of all threads on one lock, and [Semaphore]. *)

From Stdlib Require Import ZArith Lia.
From stdpp Require Import base numbers gmap option strings tactics sets relations list_numbers list.
From S2P Require Import Prelude.

(** ** The interface *)

(** How a guard takes the lock: [ReadScopedLockImpl] calls [rdlock],
    [WriteScopedLockImpl] [wrlock] and [ScopedLockImpl] [lock]. *)
Inductive kind : Type := Shared | Exclusive.

(** A pthread lock: [acquire] is a call that returns, [None] while it blocks;
    [release] is [None] where the behaviour is undefined. [Mutex] and [Spinlock] are
    taken exclusively only. *)
Class Lock (L : Type) : Type := {
  lock_init : L;
  acquire : L → kind → nat → option L;
  release : L → nat → option L;
  writer : L → option nat;
  readers : L → list nat
}.

(** What pthread_rwlock_rdlock(3), _wrlock(3), _unlock(3) and pthread_mutex_lock(3)
    say: a writer is alone, and a thread that holds the lock can release it. *)
Class LockLaws (L : Type) `{Lock L} : Prop := {
  init_free : writer (lock_init (L := L)) = None ∧ readers (lock_init (L := L)) = [];
  acquire_shared (l l' : L) t : acquire l Shared t = Some l' →
    writer l = None ∧ writer l' = None ∧ readers l' ≡ₚ t :: readers l;
  acquire_exclusive (l l' : L) t : acquire l Exclusive t = Some l' →
    writer l = None ∧ readers l = [] ∧ writer l' = Some t ∧ readers l' = [];
  release_writer (l : L) t : writer l = Some t →
    ∃ l', release l t = Some l' ∧ writer l' = None ∧ readers l' ≡ₚ readers l;
  release_reader (l : L) t : writer l = None → t ∈ readers l →
    ∃ l', release l t = Some l' ∧ writer l' = None ∧ readers l ≡ₚ t :: readers l'
}.

(** ** Guards *)

(** A guard: the thread it lives in, its kind and [m_locked]. *)
Record Guard : Type := mkGuard { g_thread : nat; g_kind : kind; g_locked : bool }.

Section guards.
Context {L : Type} `{LockLaws L}.

(** A lock and the guards on it. *)
Record locked : Type := mkLocked { the_lock : L; guards : gmap nat Guard }.

Definition set_locked (g : Guard) (b : bool) : Guard := mkGuard (g_thread g) (g_kind g) b.

(** The constructor; [None] while it blocks. *)
Definition Guard_new (s : locked) (n t : nat) (k : kind) : option locked :=
  l ← acquire (the_lock s) k t;
  Some (mkLocked l (<[n := mkGuard t k true]> (guards s))).

Definition Guard_lock (s : locked) (n : nat) : option locked :=
  g ← guards s !! n;
  if g_locked g then Some s else
  l ← acquire (the_lock s) (g_kind g) (g_thread g);
  Some (mkLocked l (<[n := set_locked g true]> (guards s))).

Definition Guard_unlock (s : locked) (n : nat) : option locked :=
  g ← guards s !! n;
  if g_locked g then
    l ← release (the_lock s) (g_thread g);
    Some (mkLocked l (<[n := set_locked g false]> (guards s)))
  else Some s.

(** The destructor. *)
Definition Guard_destroy (s : locked) (n : nat) : option locked :=
  s ← Guard_unlock s n;
  Some (mkLocked (the_lock s) (delete n (guards s))).

Definition locked_new : locked := mkLocked lock_init ∅.

Inductive lock_step (s : locked) : locked → Prop :=
| ls_new n t k s' : guards s !! n = None → Guard_new s n t k = Some s' → lock_step s s'
| ls_lock n s' : Guard_lock s n = Some s' → lock_step s s'
| ls_unlock n s' : Guard_unlock s n = Some s' → lock_step s s'
| ls_destroy n s' : Guard_destroy s n = Some s' → lock_step s s'.

(** ** Who holds the lock *)

(** The threads of the guards of a kind that hold the lock. *)
Definition holder (k : kind) (g : Guard) : option nat :=
  match g_kind g, k with
  | Shared, Shared | Exclusive, Exclusive => if g_locked g then Some (g_thread g) else None
  | _, _ => None
  end.
Definition holders (k : kind) (gs : gmap nat Guard) : list nat := omap (λ p, holder k p.2) (map_to_list gs).

Lemma holders_insert k gs n g : gs !! n = None → holders k (<[n := g]> gs) ≡ₚ omap (λ g, holder k g) [g] ++ holders k gs.
Proof.
  intros Hn. unfold holders. rewrite map_to_list_insert by done. simpl. by destruct (holder k g).
Qed.

Lemma holders_delete k gs n g : gs !! n = Some g → holders k gs ≡ₚ omap (λ g, holder k g) [g] ++ holders k (delete n gs).
Proof. intros Hn. rewrite <-(insert_delete_id gs n g Hn) at 1. by rewrite holders_insert by apply lookup_delete_eq. Qed.

Lemma holders_update k gs n g g' :
  gs !! n = Some g → holders k (<[n := g']> gs) ≡ₚ omap (λ g, holder k g) [g'] ++ holders k (delete n gs).
Proof. intros Hn. rewrite <-insert_delete_eq. by rewrite holders_insert by apply lookup_delete_eq. Qed.

(** The lock is held by the guards that say so. *)
Definition lock_inv (s : locked) : Prop :=
  option_list (writer (the_lock s)) ≡ₚ holders Exclusive (guards s) ∧
  readers (the_lock s) ≡ₚ holders Shared (guards s) ∧
  (is_Some (writer (the_lock s)) → readers (the_lock s) = []).

(** The share of one guard. *)
Definition share (k : kind) (g : Guard) : list nat := omap (λ g, holder k g) [g].

Lemma acquired (l l' : L) k t :
  acquire l k t = Some l' →
  option_list (writer l') ≡ₚ share Exclusive (mkGuard t k true) ++ option_list (writer l) ∧
  readers l' ≡ₚ share Shared (mkGuard t k true) ++ readers l ∧ (is_Some (writer l') → readers l' = []).
Proof.
  destruct k; unfold share; simpl.
  - intros (-> & -> & Hr)%acquire_shared. split_and!; [done|done|]. by intros [? ?].
  - intros (-> & -> & -> & ->)%acquire_exclusive. by split_and!.
Qed.

(** A guard that holds the lock can release it. *)
Lemma released s n g :
  lock_inv s → guards s !! n = Some g → g_locked g = true →
  ∃ l', release (the_lock s) (g_thread g) = Some l' ∧
    option_list (writer (the_lock s)) ≡ₚ share Exclusive g ++ option_list (writer l') ∧
    readers (the_lock s) ≡ₚ share Shared g ++ readers l' ∧ (is_Some (writer l') → readers l' = []).
Proof.
  intros (Hw & Hr & Hx) Hn Hl. rewrite (holders_delete Exclusive _ _ _ Hn) in Hw. rewrite (holders_delete Shared _ _ _ Hn) in Hr.
  destruct g as [t k b]. simpl in Hl. subst b. unfold share. destruct k; simpl in *.
  - assert (t ∈ readers (the_lock s)) as Hin by (rewrite Hr; set_solver).
    destruct (writer (the_lock s)) as [w|] eqn:Ew; [rewrite Hx in Hin by done; set_solver|].
    destruct (release_reader (the_lock s) t Ew Hin) as (l' & E & Hw' & Hr'). exists l'.
    rewrite Hw'. split_and!; [done|done|done|]. by intros [? ?].
  - destruct (writer (the_lock s)) as [w|] eqn:Ew; simpl in Hw; [|by apply Permutation_nil_cons in Hw].
    apply Permutation_singleton_l in Hw. injection Hw as -> Hrest.
    destruct (release_writer (the_lock s) t Ew) as (l' & E & Hw' & Hr'). exists l'.
    rewrite Hw'. split_and!; [done|done|by rewrite Hr'|]. by intros [? ?].
Qed.

Lemma Guard_unlock_inv s n :
  lock_inv s → is_Some (guards s !! n) →
  ∃ s' g, Guard_unlock s n = Some s' ∧ lock_inv s' ∧ guards s' !! n = Some g ∧ g_locked g = false.
Proof.
  intros Hi [g Hn]. unfold Guard_unlock. rewrite Hn. simpl. destruct (g_locked g) eqn:Hl; [|exists s, g; by split_and!].
  destruct (released s n g Hi Hn Hl) as (l' & -> & Hw & Hr & Hx). simpl. eexists _, _. split; [done|]. simpl.
  rewrite lookup_insert_eq. split_and!; [|done|done].
  destruct Hi as (Hw0 & Hr0 & _). rewrite Hw0, (holders_delete _ _ _ _ Hn) in Hw. rewrite Hr0, (holders_delete _ _ _ _ Hn) in Hr.
  apply Permutation_app_inv_l in Hw, Hr.
  split_and!; simpl; [| |done]; rewrite (holders_update _ _ _ _ _ Hn); destruct g as [t [] b]; simpl in *; done.
Qed.

Lemma lock_step_inv s s' : lock_inv s → lock_step s s' → lock_inv s'.
Proof.
  intros Hi [n t k s1 Hn E|n s1 E|n s1 E|n s1 E].
  - unfold Guard_new in E. apply bind_Some in E as (l & (Hw & Hr & Hx)%acquired & [= <-]).
    destruct Hi as (Hw0 & Hr0 & _). split_and!; simpl; [| |done]; rewrite holders_insert by done; [by rewrite Hw, Hw0|by rewrite Hr, Hr0].
  - unfold Guard_lock in E. apply bind_Some in E as (g & Hn & E). destruct (g_locked g) eqn:Hl; [by injection E as <-|].
    apply bind_Some in E as (l & (Hw & Hr & Hx)%acquired & [= <-]). destruct Hi as (Hw0 & Hr0 & _).
    rewrite Hw0, (holders_delete _ _ _ _ Hn) in Hw. rewrite Hr0, (holders_delete _ _ _ _ Hn) in Hr.
    split_and!; simpl; [| |done]; rewrite (holders_update _ _ _ _ _ Hn); destruct g as [t [] b]; simpl in *; subst b; done.
  - destruct (guards s !! n) as [g|] eqn:Hn; [|unfold Guard_unlock in E; by rewrite Hn in E].
    destruct (Guard_unlock_inv s n Hi) as (s2 & g2 & E2 & Hi2 & _); [by rewrite Hn|]. by rewrite E in E2; injection E2 as ->.
  - unfold Guard_destroy in E. apply bind_Some in E as (s2 & E2 & [= <-]).
    destruct (guards s !! n) as [g|] eqn:Hn; [|unfold Guard_unlock in E2; by rewrite Hn in E2].
    destruct (Guard_unlock_inv s n Hi) as (s3 & g3 & E3 & (Hw & Hr & Hx) & Hn3 & Hl3); [by rewrite Hn|].
    rewrite E2 in E3. injection E3 as ->. rewrite (holders_delete Exclusive _ _ _ Hn3) in Hw. rewrite (holders_delete Shared _ _ _ Hn3) in Hr.
    split_and!; simpl; [| |done]; destruct g3 as [t [] b]; simpl in *; subst b; done.
Qed.

Lemma lock_reachable_inv s : rtc lock_step locked_new s → lock_inv s.
Proof.
  intros Hr. assert (lock_inv locked_new) as Hi.
  { destruct init_free as [Hw Hrd]. unfold lock_inv, locked_new, holders. simpl. rewrite Hw, Hrd, map_to_list_empty.
    split_and!; done. }
  revert Hi. induction Hr as [|x y z Hs _ IH]; [done|]. intros Hi. apply IH. by eapply lock_step_inv.
Qed.

Lemma in_holders k gs n g : gs !! n = Some g → g_locked g = true → g_kind g = k → g_thread g ∈ holders k gs.
Proof.
  intros Hn Hl <-. rewrite (holders_delete _ _ _ _ Hn). destruct g as [t [] b]; simpl in *; subst b; set_solver.
Qed.

End guards.

(** Whatever threads do with guards on one lock: a guard that says it holds the lock
    does; while a write guard, or the guard of a mutex, holds it, no other guard does;
    no guard releases a lock that is not held, and [unlock] and the destructor always
    return; once no guard holds it the lock is free. *)
Theorem guards_exclude {L : Type} `{LockLaws L} (s : locked (L := L)) :
  rtc lock_step locked_new s →
  (∀ n m g g', guards s !! n = Some g → guards s !! m = Some g' → g_locked g = true → g_locked g' = true →
     g_kind g = Exclusive → n = m) ∧
  (∀ n g, guards s !! n = Some g →
     is_Some (Guard_unlock s n) ∧ is_Some (Guard_destroy s n) ∧
     (g_locked g = true → is_Some (release (the_lock s) (g_thread g)))) ∧
  ((∀ n g, guards s !! n = Some g → g_locked g = false) → writer (the_lock s) = None ∧ readers (the_lock s) = []).
Proof.
  intros Hi%lock_reachable_inv. pose proof Hi as (Hw & Hr & Hx). split_and!.
  - intros n m g g' Hn Hm Hl Hl' Hk. destruct (decide (n = m)) as [|Hne]; [done|exfalso].
    pose proof (in_holders Exclusive (guards s) n g Hn Hl Hk) as Hin. rewrite <-Hw in Hin.
    destruct (writer (the_lock s)) as [w|] eqn:Ew; [|simpl in Hin; set_solver].
    destruct (g_kind g') eqn:Hk'.
    + pose proof (in_holders Shared (guards s) m g' Hm Hl' Hk') as Hin'. rewrite <-Hr, Hx in Hin' by done. set_solver.
    + rewrite (holders_delete _ _ _ _ Hn) in Hw.
      assert (g_thread g' ∈ holders Exclusive (delete n (guards s))) as Hin'.
      { apply (in_holders _ _ m); [by rewrite lookup_delete_ne|done|done]. }
      destruct g as [t k b]. simpl in *. subst k b. simpl in Hw. apply Permutation_length in Hw. simpl in Hw.
      destruct (holders Exclusive (delete n (guards s))); [set_solver|simpl in Hw; lia].
  - intros n g Hn. destruct (Guard_unlock_inv s n Hi) as (s' & g' & E & _); [by rewrite Hn|].
    unfold Guard_destroy. rewrite E. split_and!; [done|by eexists|]. intros Hl.
    destruct (released s n g Hi Hn Hl) as (l' & -> & _). done.
  - intros Hno. assert (∀ k, holders k (guards s) = []) as Hnil.
    { intros k. destruct (holders k (guards s)) as [|t l] eqn:E; [done|exfalso].
      assert (t ∈ holders k (guards s)) as Hin by (rewrite E; set_solver). unfold holders in Hin.
      apply list_elem_of_omap in Hin as ([n g] & Hel%elem_of_map_to_list & Hh). simpl in Hh.
      specialize (Hno n g Hel). unfold holder in Hh. rewrite Hno in Hh. by destruct (g_kind g), k. }
    rewrite (Hnil Exclusive) in Hw. rewrite (Hnil Shared) in Hr. apply Permutation_nil_r in Hw, Hr. by destruct (writer (the_lock s)).
Qed.

(** ** A lock *)

(** One occurrence of a thread is taken off the readers. *)
Fixpoint remove_one (t : nat) (l : list nat) : option (list nat) :=
  match l with
  | [] => None
  | r :: l => if decide (r = t) then Some l else l' ← remove_one t l; Some (r :: l')
  end.

Lemma remove_one_Some t l : t ∈ l → ∃ l', remove_one t l = Some l' ∧ l ≡ₚ t :: l'.
Proof.
  induction l as [|r l IH]; [set_solver|]. intros Hin. simpl. case_decide as Hd; [subst; by eexists|].
  destruct IH as (l' & -> & Hp); [set_solver|]. eexists. split; [done|]. rewrite Hp. constructor.
Qed.

(** The simplest lock with this behaviour: it lets in whoever it can. *)
#[local] Instance plain_lock : Lock (option nat * list nat) := {
  lock_init := (None, []);
  acquire l k t := match k, l with
                   | Shared, (None, rs) => Some (None, t :: rs)
                   | Exclusive, (None, []) => Some (Some t, [])
                   | _, _ => None
                   end;
  release l t := match l with
                 | (Some w, rs) => if decide (w = t) then Some (None, rs) else None
                 | (None, rs) => rs' ← remove_one t rs; Some (None, rs')
                 end;
  writer := fst;
  readers := snd
}.

#[local] Instance plain_laws : LockLaws (option nat * list nat).
Proof.
  split; simpl.
  - done.
  - intros [[w|] rs] l' t; [done|]. by intros [= <-].
  - intros [[w|] [|r rs]] l' t; try done. by intros [= <-].
  - intros [w rs] t. simpl. intros ->. rewrite decide_True by done. by eexists.
  - intros [w rs] t. simpl. intros -> Hin. destruct (remove_one_Some t rs Hin) as (rs' & -> & Hp). by eexists.
Qed.

Definition reading : locked (L := option nat * list nat) :=
  mkLocked (None, [1; 2]%nat) {[ 0 := mkGuard 1 Shared true; 1 := mkGuard 2 Shared true ]}.

Lemma guards_exclude_witness :
  rtc lock_step locked_new reading ∧ is_Some (Guard_destroy reading 0).
Proof.
  assert (rtc lock_step (locked_new (L := option nat * list nat)) reading) as Hr.
  { eapply rtc_l; [apply (ls_new _ 1 2 Shared (mkLocked (None, [2]%nat) {[ 1 := mkGuard 2 Shared true ]})); reflexivity|].
    apply rtc_once. apply (ls_new _ 0 1 Shared); reflexivity. }
  split; [exact Hr|].
  destruct (guards_exclude reading Hr) as (_ & H & _).
  apply (H 0%nat (mkGuard 1 Shared true)). reflexivity.
Defined.

(** ** [Semaphore] *)

Local Open Scope Z_scope.

(** [sem_t]: its value; [sem_wait] and [sem_post] return 0, or -1 without an
    effect, the first when a signal handler interrupts it. *)
Definition Semaphore_new (rt count : Z) : outcome Z :=
  if rt =? 0 then mret (u32 count) else Throw (logic_error "sem_init error").

(** [wait()]: [None] while it blocks. *)
Definition Semaphore_wait (sem : Z) (interrupted : bool) : option (outcome Z) :=
  if interrupted then Some (Throw (logic_error "sem_wait error"))
  else if 0 <? sem then Some (Ok (sem - 1)) else None.

(** [notify()]; a semaphore has a largest value. *)
Definition Semaphore_notify (sem sem_value_max : Z) : outcome Z :=
  if sem <? sem_value_max then mret (sem + 1) else Throw (logic_error "sem_post error").

(** A notification lets one waiting call return and leaves the value as it was; a
    wait returns without one only where a signal interrupts it, with an exception. *)
Lemma notify_wait sem sem_value_max :
  0 <= sem < sem_value_max →
  (∃ sem', Semaphore_notify sem sem_value_max = Ok sem' ∧ Semaphore_wait sem' false = Some (Ok sem)) ∧
  (Semaphore_wait sem false = None ↔ sem = 0) ∧
  (∀ r, Semaphore_wait 0 r = Some (Throw (logic_error "sem_wait error")) ∨ Semaphore_wait 0 r = None).
Proof.
  intros Hs. unfold Semaphore_notify, Semaphore_wait. destruct (Z.ltb_spec sem sem_value_max); [|lia]. split_and!.
  - eexists. split; [done|]. destruct (Z.ltb_spec 0 (sem + 1)); [do 2 f_equal; lia|lia].
  - destruct (Z.ltb_spec 0 sem); split; (done || lia).
  - intros []; auto.
Qed.
