(* ===== verification/Worker.v ===== *)
(** Workers (sylar/worker.h, sylar/worker.cc): [WorkerGroup], which is to run
    callbacks in batches with a [FiberSemaphore], and [WorkerManager], which
    keeps the schedulers the configuration asks for. *)

From Stdlib Require Import ZArith Lia.
From stdpp Require Import base numbers gmap option strings tactics sets relations list_numbers list.
From S2P Require Import Prelude StdSet StdMap Text Sync.

Local Open Scope Z_scope.

(** ** [WorkerGroup] *)

(** A fiber inside [m_fiberSem.wait()]: about to enter it, parked in it, or
    past it. *)
Inductive phase : Type := Asking | Parked | Granted.

(** A fiber inside [schedule(cb)], or inside [waitAll] with [i] waits to go. *)
Inductive group_call : Type :=
| InSchedule (cb : nat) (p : phase)
| InWaitAll (i : Z) (p : phase).

Definition call_phase (c : group_call) : phase :=
  match c with InSchedule _ p | InWaitAll _ p => p end.

Definition set_phase (c : group_call) (p : phase) : group_call :=
  match c with InSchedule cb _ => InSchedule cb p | InWaitAll i _ => InWaitAll i p end.

(** The group, the fibers inside its methods, the fibers its semaphore handed to
    their schedulers, the bound [doWork] calls in the queue of [m_scheduler], and
    the callbacks that have run. *)
Record WorkerGroup : Type := mkGroup {
  m_batchSize : Z;
  m_finish : bool;
  m_fiberSem : FiberSemaphore;
  g_calls : gmap nat group_call;
  g_woken : list (nat * nat);
  g_queue : list nat;
  g_ran : list nat
}.

(** The constructor: [m_fiberSem] is not in its initialiser list. *)
Definition WorkerGroup_new (batch_size : Z) : WorkerGroup :=
  mkGroup batch_size false (FiberSemaphore_new 0) ∅ [] [] [].

Definition set_call (g : WorkerGroup) (f : nat) (c : group_call) : WorkerGroup :=
  mkGroup (m_batchSize g) (m_finish g) (m_fiberSem g) (<[f := c]> (g_calls g)) (g_woken g) (g_queue g) (g_ran g).

Definition end_call (g : WorkerGroup) (f : nat) : WorkerGroup :=
  mkGroup (m_batchSize g) (m_finish g) (m_fiberSem g) (delete f (g_calls g)) (g_woken g) (g_queue g) (g_ran g).

(** [m_fiberSem.wait()] up to its yield. *)
Definition group_wait (g : WorkerGroup) (s f : nat) (c : group_call) : outcome WorkerGroup :=
  '(b, sem) ← wait_locked (m_fiberSem g) (Some s) f;
  mret (mkGroup (m_batchSize g) (m_finish g) sem
          (<[f := set_phase c (if b : bool then Granted else Parked)]> (g_calls g))
          (g_woken g) (g_queue g) (g_ran g)).

(** What a fiber does after its [wait] returned. *)
Definition group_granted (g : WorkerGroup) (f : nat) (c : group_call) : WorkerGroup :=
  match c with
  | InSchedule cb _ =>
    mkGroup (m_batchSize g) (m_finish g) (m_fiberSem g) (delete f (g_calls g)) (g_woken g)
      (g_queue g ++ [cb]) (g_ran g)
  | InWaitAll i _ => if decide (1 < i) then set_call g f (InWaitAll (i - 1) Asking) else end_call g f
  end.

(** [waitAll]. *)
Definition waitAll (g : WorkerGroup) (f : nat) : WorkerGroup :=
  if m_finish g then g else
  let g := mkGroup (m_batchSize g) true (m_fiberSem g) (g_calls g) (g_woken g) (g_queue g) (g_ran g) in
  if decide (0 < m_batchSize g) then set_call g f (InWaitAll (m_batchSize g) Asking) else g.

(** [doWork(cb)]. *)
Definition doWork (g : WorkerGroup) (cb : nat) (queue : list nat) : WorkerGroup :=
  let '(next, sem) := notify (m_fiberSem g) in
  mkGroup (m_batchSize g) (m_finish g) sem (g_calls g) (g_woken g ++ option_list next) queue (g_ran g ++ [cb]).

Inductive group_step (g : WorkerGroup) : WorkerGroup → Prop :=
| gs_schedule f cb : g_calls g !! f = None → group_step g (set_call g f (InSchedule cb Asking))
| gs_waitAll f : g_calls g !! f = None → group_step g (waitAll g f)
| gs_wait s f c g' :
    g_calls g !! f = Some c → call_phase c = Asking → group_wait g s f c = Ok g' → group_step g g'
| gs_resume s f c l1 l2 :
    g_calls g !! f = Some c → call_phase c = Parked → g_woken g = l1 ++ (s, f) :: l2 →
    group_step g (set_call (mkGroup (m_batchSize g) (m_finish g) (m_fiberSem g) (g_calls g) (l1 ++ l2)
                              (g_queue g) (g_ran g)) f (set_phase c Granted))
| gs_granted f c :
    g_calls g !! f = Some c → call_phase c = Granted → group_step g (group_granted g f c)
| gs_work cb l1 l2 : g_queue g = l1 ++ cb :: l2 → group_step g (doWork g cb (l1 ++ l2)).

(** Nothing is ever granted. *)
Record group_idle (g : WorkerGroup) : Prop := {
  gi_sem : m_concurrency (m_fiberSem g) = 0;
  gi_woken : g_woken g = [];
  gi_queue : g_queue g = [];
  gi_ran : g_ran g = [];
  gi_calls f c : g_calls g !! f = Some c → call_phase c ≠ Granted
}.

Lemma call_phase_set c p : call_phase (set_phase c p) = p.
Proof. by destruct c. Qed.

Lemma group_step_idle g g' : group_idle g → group_step g g' → group_idle g'.
Proof.
  intros [Hs Hw Hq Hr Hc] Hstep.
  destruct Hstep as [f cb Hf|f Hf|s f c g' Hf Hp E|s f c l1 l2 Hf Hp Hl|f c Hf Hp|cb l1 l2 Hl].
  - split; try done. simpl. intros f' c' [[_ <-]|[_ ?]]%lookup_insert_Some; [done|by eapply Hc].
  - unfold waitAll. destruct (m_finish g); [by split|]. simpl. case_decide; [|by split]. split; try done. simpl.
    intros f' c' [[_ <-]|[_ ?]]%lookup_insert_Some; [done|by eapply Hc].
  - unfold group_wait, wait_locked in E. simpl in E. rewrite decide_False in E by lia. osimpl in E.
    injection E as <-. split; try done. simpl. intros f' c' [[_ <-]|[_ ?]]%lookup_insert_Some; [|by eapply Hc].
    by rewrite call_phase_set.
  - rewrite Hw in Hl. by destruct l1.
  - by destruct (Hc f c Hf).
  - rewrite Hq in Hl. by destruct l1.
Qed.

(** A worker group never works: its semaphore starts at zero whatever the
    batch size, and only a callback that has run would notify it, so that every
    fiber that calls [schedule], and every one that waits for the group (the
    destructor does), parks and stays parked; no callback is ever handed to the
    scheduler. *)
Theorem worker_group_never_works batch_size g :
  rtc group_step (WorkerGroup_new batch_size) g →
  g_ran g = [] ∧ g_queue g = [] ∧
  (∀ f c, g_calls g !! f = Some c → call_phase c = Asking ∨ call_phase c = Parked) ∧
  (∀ s f c, g_calls g !! f = Some c → call_phase c = Asking →
     ∃ g', group_wait g s f c = Ok g' ∧ g_calls g' !! f = Some (set_phase c Parked)) ∧
  (∀ g' f c, g_calls g !! f = Some c → call_phase c = Parked → rtc group_step g g' →
     g_calls g' !! f = Some c).
Proof.
  intros Hr.
  assert (∀ a b, group_idle a → rtc group_step a b → group_idle b) as Hinv.
  { intros a b Ha Hab. induction Hab as [|x y z Hs _ IH]; [done|]. apply IH. by eapply group_step_idle. }
  assert (group_idle g) as Hg.
  { eapply Hinv; [|exact Hr]. by split. }
  split_and!; [apply Hg|apply Hg|..].
  - intros f c Hf. pose proof (gi_calls g Hg f c Hf). destruct (call_phase c); [by left|by right|done].
  - intros s f c Hf Hp. unfold group_wait, wait_locked. simpl. rewrite (gi_sem g Hg). osimpl.
    eexists. split; [done|]. apply lookup_insert_eq.
  - intros g' f c Hf Hp Hs. induction Hs as [|x y z Hs _ IH]; [done|].
    apply IH; [eapply rtc_r; [exact Hr|exact Hs]|by eapply group_step_idle|].
    clear IH Hr. destruct Hg as [Hs0 Hw Hq Hran Hcalls].
    destruct Hs as [f' cb Hf'|f' Hf'|s f' c' g' Hf' Hp' E|s f' c' l1 l2 Hf' Hp' Hl|f' c' Hf' Hp'|cb l1 l2 Hl].
    + simpl. rewrite lookup_insert_ne; [done|congruence].
    + unfold waitAll. destruct (m_finish x); [done|]. simpl. case_decide; [|done]. simpl.
      rewrite lookup_insert_ne; [done|congruence].
    + unfold group_wait in E. apply outcome_bind_ok in E as ([b sem] & _ & [= <-]). simpl.
      rewrite lookup_insert_ne; [done|congruence].
    + rewrite Hw in Hl. by destruct l1.
    + by destruct (Hcalls f' c' Hf').
    + rewrite Hq in Hl. by destruct l1.
Qed.

(** A fiber that tries. *)
Definition tried : WorkerGroup := set_call (WorkerGroup_new 10) 1 (InSchedule 7 Asking).

Lemma worker_group_never_works_witness :
  ∃ g', group_wait tried 0 1 (InSchedule 7 Asking) = Ok g' ∧
    g_calls g' !! 1%nat = Some (InSchedule 7 Parked).
Proof.
  destruct (worker_group_never_works 10 tried) as (_ & _ & _ & H & _).
  - apply rtc_once. apply (gs_schedule (WorkerGroup_new 10) 1 7). reflexivity.
  - exact (H 0%nat 1%nat (InSchedule 7 Asking) eq_refl eq_refl).
Defined.

(** ** [WorkerManager] *)

(** A scheduler as the manager sees it: its address, its name, its number of
    threads, and whether it is an [IOManager]. *)
Record worker : Type := mkWorker {
  wk_id : nat;
  wk_name : list Z;
  wk_threads : Z;
  wk_io : bool
}.

(** Calls the manager makes on a scheduler. *)
Inductive worker_event : Type :=
| EvSchedule (w : worker) (cb : option nat)
| EvStop (w : worker).

Abbreviation worker_map := (list (list Z * list worker)).

Record WorkerManager : Type := mkManager {
  m_data : worker_map;
  m_stop : bool
}.

Definition WorkerManager_new : WorkerManager := mkManager [] false.

(** [m_data[s->getName()].push_back(s)]. *)
Definition data_push (m : worker_map) (s : worker) : worker_map :=
  map_set id bytes_lt m (wk_name s) (default [] (map_find id bytes_lt m (wk_name s)) ++ [s]).

Definition manager_add (mgr : WorkerManager) (s : worker) : WorkerManager :=
  mkManager (data_push (m_data mgr) s) (m_stop mgr).

(** [get(name)]; [r] is what [rand()] returns. *)
Definition manager_get (mgr : WorkerManager) (name : list Z) (r : Z) : outcome (option worker) :=
  match map_find id bytes_lt (m_data mgr) name with
  | None => mret None
  | Some l =>
    if decide (length l = 1%nat) then w ← deref (l !! 0%nat); mret (Some w)
    else w ← deref (l !! Z.to_nat (r mod Z.of_nat (length l))); mret (Some w)
  end.

Definition getAsIOManager (mgr : WorkerManager) (name : list Z) (r : Z) : outcome (option worker) :=
  w ← manager_get mgr name r;
  mret (match w with Some w => if wk_io w then Some w else None | None => None end).

(** [schedule(name, cb)], and with a range. *)
Definition manager_schedule (mgr : WorkerManager) (name : list Z) (cbs : list nat) (r : Z) :
    outcome (list worker_event) :=
  w ← manager_get mgr name r;
  mret (match w with Some w => (λ cb, EvSchedule w (Some cb)) <$> cbs | None => [] end).

Section init.
(** [boost::lexical_cast<int>], none where it throws. *)
Context (lexical_cast : list Z → option Z).

(** [GetParamValue(m, k, def)]. *)
Definition GetParamValue (m : list (list Z * list Z)) (k : list Z) (def : Z) : Z :=
  match map_find id bytes_lt m k with
  | None => def
  | Some v => default def (lexical_cast v)
  end.

(** [CheckGetParamValue(m, k, v)]: the result and [v]. *)
Definition CheckGetParamValue (m : list (list Z * list Z)) (k : list Z) (v : Z) : bool * Z :=
  match map_find id bytes_lt m k with
  | None => (false, v)
  | Some s => match lexical_cast s with Some x => (true, x) | None => (false, v) end
  end.

(** The name of worker [i]. *)
Definition worker_name (name : list Z) (i : nat) : list Z :=
  match i with O => name | S _ => name ++ text "-" ++ dec (Z.of_nat i) end.

(** [make_shared<IOManager>(thread_num, false, name)]: the thread count is a
    [size_t], which must not be zero. *)
Definition make_worker (addr : nat) (thread_num : Z) (name : list Z) : outcome worker :=
  _ ← sylar_assert (bool_decide (0 < u64 thread_num)) "thread_size > 0";
  mret (mkWorker addr name (u64 thread_num) true).

(** The inner loop of [init], from [i] on with [n] workers to go; [addr] is the
    next object's address. *)
Fixpoint init_workers (n i : nat) (addr : nat) (thread_num : Z) (name : list Z) (mgr : WorkerManager) :
    outcome (nat * WorkerManager) :=
  match n with
  | O => mret (addr, mgr)
  | S n =>
    s ← make_worker addr thread_num (worker_name name i);
    init_workers n (S i) (S addr) thread_num name (manager_add mgr s)
  end.

Fixpoint init_loop (workers : list (list Z * list (list Z * list Z))) (addr : nat) (mgr : WorkerManager) :
    outcome WorkerManager :=
  match workers with
  | [] => mret mgr
  | (name, params) :: rest =>
    let thread_num := GetParamValue params (text "thread_num") 1 in
    let worker_num := GetParamValue params (text "worker_num") 1 in
    '(addr, mgr) ← init_workers (Z.to_nat worker_num) 0 addr thread_num name mgr;
    init_loop rest addr mgr
  end.

(** [init], with the value of [workers] in the configuration. *)
Definition manager_init (workers : list (list Z * list (list Z * list Z))) (addr : nat) (mgr : WorkerManager) :
    outcome WorkerManager :=
  mgr ← init_loop workers addr mgr;
  mret (mkManager (m_data mgr) (bool_decide (m_data mgr = []))).

End init.

(** [stop]: the calls it makes. *)
Definition manager_stop (mgr : WorkerManager) : list worker_event * WorkerManager :=
  if m_stop mgr then ([], mgr)
  else (mjoin ((λ w, [EvSchedule w None; EvStop w]) <$> mjoin (snd <$> m_data mgr)), mkManager [] true).

Definition getCount (mgr : WorkerManager) : Z := u32 (Z.of_nat (length (m_data mgr))).

(** ** Correctness *)

Record manager_ok (mgr : WorkerManager) : Prop := {
  mo_map : map_ok id bytes_lt (m_data mgr);
  mo_named k l w : (k, l) ∈ m_data mgr → w ∈ l → wk_name w = k;
  mo_some k l : (k, l) ∈ m_data mgr → l ≠ []
}.

(** All schedulers the manager keeps. *)
Definition members (mgr : WorkerManager) : list worker := mjoin (snd <$> m_data mgr).

Lemma members_elem mgr w : w ∈ members mgr ↔ ∃ k l, (k, l) ∈ m_data mgr ∧ w ∈ l.
Proof.
  unfold members. rewrite list_elem_of_join. setoid_rewrite list_elem_of_fmap. split.
  - intros (l & Hw & [k l'] & -> & Hin). by exists k, l'.
  - intros (k & l & Hin & Hw). exists l. split; [done|]. by exists (k, l).
Qed.

Lemma manager_add_ok mgr s :
  manager_ok mgr →
  manager_ok (manager_add mgr s) ∧ ∀ w, w ∈ members (manager_add mgr s) ↔ w ∈ members mgr ∨ w = s.
Proof.
  intros [Hm Hn Hs]. unfold manager_add, data_push.
  set (old := default [] (map_find id bytes_lt (m_data mgr) (wk_name s))).
  destruct (map_set_ok id bytes_lt bytes_lt_strict (m_data mgr) (wk_name s) (old ++ [s]) Hm) as [Hm' Hin].
  assert (default (wk_name s) (fst <$> map_lookup id bytes_lt (m_data mgr) (wk_name s)) = wk_name s) as Hkey.
  { destruct (map_lookup id bytes_lt (m_data mgr) (wk_name s)) as [kv|] eqn:E; [|done].
    apply (map_lookup_iff id bytes_lt bytes_lt_strict _ _ _ Hm) in E as [_ E]. done. }
  rewrite Hkey in Hin. unfold id in Hin.
  assert (∀ w, w ∈ old ↔ ∃ l, (wk_name s, l) ∈ m_data mgr ∧ w ∈ l) as Hold.
  { intros w. unfold old. destruct (map_find id bytes_lt (m_data mgr) (wk_name s)) as [l|] eqn:E; simpl.
    - pose proof E as E1. apply (map_find_iff id bytes_lt bytes_lt_strict _ _ _ Hm) in E1 as (k & Hk & Ek).
      unfold id in Ek. subst k. split; [intros; by exists l|]. intros (l' & Hl' & Hw).
      assert (map_find id bytes_lt (m_data mgr) (wk_name s) = Some l') as E2.
      { apply (map_find_iff id bytes_lt bytes_lt_strict _ _ _ Hm). by eexists. }
      rewrite E in E2. by simplify_eq.
    - split; [by intros ?%elem_of_nil|]. intros (l & Hl & _).
      assert (map_find id bytes_lt (m_data mgr) (wk_name s) = Some l) as E2; [|congruence].
      apply (map_find_iff id bytes_lt bytes_lt_strict _ _ _ Hm). by eexists. }
  split; [split; simpl; [done|..]|].
  - intros k l w [[Hkl _]|[= -> ->]]%Hin Hw; [by eapply Hn|].
    apply elem_of_app in Hw as [(l' & ? & ?)%Hold| ->%list_elem_of_singleton]; [by eapply Hn|done].
  - intros k l [[Hkl _]|[= -> ->]]%Hin; [by eapply Hs|]. by destruct old.
  - intros w. rewrite !members_elem. simpl. split.
    + intros (k & l & [[Hkl _]|[= -> ->]]%Hin & Hw); [left; by exists k, l|].
      apply elem_of_app in Hw as [(l' & ? & ?)%Hold| ->%list_elem_of_singleton]; [left; by eexists _, l'|by right].
    + intros [(k & l & Hkl & Hw)| ->].
      * destruct (decide (k = wk_name s)) as [->|Hne].
        -- exists (wk_name s), (old ++ [s]). split; [apply Hin; by right|]. apply elem_of_app. left. apply Hold. by eexists.
        -- exists k, l. split; [apply Hin; by left|done].
      * exists (wk_name s), (old ++ [s]). split; [apply Hin; by right|]. apply elem_of_app. right.
        by apply list_elem_of_singleton.
Qed.

Lemma manager_get_spec mgr name r :
  manager_ok mgr → 0 <= r →
  ∃ o, manager_get mgr name r = Ok o ∧
    (∀ w, o = Some w → w ∈ members mgr ∧ wk_name w = name) ∧
    (o = None → ∀ w, w ∈ members mgr → wk_name w ≠ name).
Proof.
  intros [Hm Hn Hs] Hr. unfold manager_get.
  destruct (map_find id bytes_lt (m_data mgr) name) as [l|] eqn:E.
  - apply (map_find_iff id bytes_lt bytes_lt_strict _ _ _ Hm) in E as (k & Hk & Ek). unfold id in Ek. subst k.
    pose proof (Hs _ _ Hk) as Hne.
    assert (∀ i, (i < length l)%nat → ∃ o, (w ← deref (l !! i); mret (Some w)) = Ok o ∧
      (∀ w, o = Some w → w ∈ members mgr ∧ wk_name w = name) ∧
      (o = None → ∀ w, w ∈ members mgr → wk_name w ≠ name)) as Hat.
    { intros i Hi. destruct (lookup_lt_is_Some_2 l i Hi) as [w Hw]. rewrite Hw. osimpl. exists (Some w).
      split; [done|]. split; [|done]. intros ? [= <-]. apply list_elem_of_lookup_2 in Hw.
      split; [apply members_elem; by exists name, l|by eapply Hn]. }
    destruct l as [|w l]; [done|]. case_decide; apply Hat; simpl in *; [lia|].
    pose proof (Z.mod_pos_bound r (Z.of_nat (S (length l))) ltac:(lia)). lia.
  - exists None. split; [done|]. split; [done|]. intros _ w (k & l & Hkl & Hw)%members_elem Heq.
    assert (map_find id bytes_lt (m_data mgr) name = Some l) as E2; [|congruence].
    apply (map_find_iff id bytes_lt bytes_lt_strict _ _ _ Hm). exists k. split; [done|].
    rewrite <-Heq. symmetry. by apply (Hn k l w).
Qed.

(** What [init] adds. *)
Definition made (cast : list Z → option Z) (workers : list (list Z * list (list Z * list Z))) (w : worker) : Prop :=
  ∃ name params i, (name, params) ∈ workers ∧
    Z.of_nat i < GetParamValue cast params (text "worker_num") 1 ∧
    wk_name w = worker_name name i ∧
    wk_threads w = u64 (GetParamValue cast params (text "thread_num") 1).

Lemma init_workers_spec threads name n : ∀ i addr mgr addr' mgr',
  manager_ok mgr → init_workers n i addr threads name mgr = Ok (addr', mgr') →
  manager_ok mgr' ∧
  (∀ w, w ∈ members mgr → w ∈ members mgr') ∧
  (∀ w, w ∈ members mgr' → w ∈ members mgr ∨
     ∃ j, (i <= j < i + n)%nat ∧ wk_name w = worker_name name j ∧ wk_threads w = u64 threads) ∧
  (∀ j, (i <= j < i + n)%nat →
     ∃ w, w ∈ members mgr' ∧ wk_name w = worker_name name j ∧ wk_threads w = u64 threads).
Proof.
  induction n as [|n IH]; intros i addr mgr addr' mgr' Hok E; simpl in E.
  { injection E as <- <-. split_and!; [done|done|by left|]. intros j Hj. lia. }
  apply outcome_bind_ok in E as (s & Es & E). unfold make_worker in Es.
  apply outcome_bind_ok in Es as ([] & _ & [= <-]).
  destruct (manager_add_ok mgr (mkWorker addr (worker_name name i) (u64 threads) true) Hok) as [Hok1 Hin].
  destruct (IH _ _ _ _ _ Hok1 E) as (Hok' & Hkeep & Honly & Hall). split_and!; [done| | |].
  - intros w Hw. apply Hkeep, Hin. by left.
  - intros w [[Hw| ->]%Hin|(j & Hj & Hw)]%Honly; [by left| |].
    + right. exists i. split; [lia|done].
    + right. exists j. split; [lia|done].
  - intros j Hj. destruct (decide (j = i)) as [->|Hne]; [|apply Hall; lia].
    eexists. split; [apply Hkeep, Hin; by right|done].
Qed.

Lemma init_loop_spec cast workers : ∀ addr mgr mgr',
  manager_ok mgr → init_loop cast workers addr mgr = Ok mgr' →
  manager_ok mgr' ∧
  (∀ w, w ∈ members mgr → w ∈ members mgr') ∧
  (∀ w, w ∈ members mgr' → w ∈ members mgr ∨ made cast workers w) ∧
  (∀ name params i, (name, params) ∈ workers →
     Z.of_nat i < GetParamValue cast params (text "worker_num") 1 →
     ∃ w, w ∈ members mgr' ∧ wk_name w = worker_name name i ∧
       wk_threads w = u64 (GetParamValue cast params (text "thread_num") 1)).
Proof.
  induction workers as [|[name params] rest IH]; intros addr mgr mgr' Hok E; cbn [init_loop] in E.
  { injection E as <-. split_and!; [done|done|by left|]. by intros ? ? ? ?%elem_of_nil. }
  apply outcome_bind_ok in E as ([addr1 mgr1] & E1 & E).
  destruct (init_workers_spec _ _ _ _ _ _ _ _ Hok E1) as (Hok1 & Hkeep1 & Honly1 & Hall1).
  destruct (IH _ _ _ Hok1 E) as (Hok' & Hkeep & Honly & Hall). split_and!; [done|by auto| |].
  - intros w [[?|(j & Hj & Hn & Ht)]%Honly1|(n & p & i & Hin & Hrest)]%Honly; [by left|right..].
    + exists name, params, j. split_and!; [apply elem_of_cons; by left|lia|done|done].
    + exists n, p, i. split; [apply elem_of_cons; by right|done].
  - intros n p i [[= -> ->]|Hin]%elem_of_cons Hi; [|by eapply Hall].
    destruct (Hall1 i ltac:(lia)) as (w & Hw & Hrest). exists w. split; [by apply Hkeep|done].
Qed.

Lemma worker_name_first name i : worker_name name (S i) ≠ name.
Proof.
  simpl. intros H%(f_equal length). rewrite !length_app in H. simpl in H. lia.
Qed.

Lemma empty_ok b : manager_ok (mkManager [] b).
Proof. split; [constructor|by intros ? ? ? ?%elem_of_nil|by intros ? ? ?%elem_of_nil]. Qed.

(** After [init], the manager holds exactly the workers the configuration
    asks for, [worker_num] for each name with [thread_num] threads, and [get]
    returns a worker exactly for the names that have one, of that name. But only
    the first worker of an entry has the entry's name: whatever [rand] returns,
    [get] never returns one of the others, so that [worker_num] does not spread
    any work. *)
Theorem workers_by_name cast workers addr mgr name params r :
  manager_init cast workers addr WorkerManager_new = Ok mgr → (name, params) ∈ workers → 0 <= r →
  (∀ w, w ∈ members mgr → made cast workers w) ∧
  (∀ i, Z.of_nat i < GetParamValue cast params (text "worker_num") 1 →
     ∃ w, w ∈ members mgr ∧ wk_name w = worker_name name i ∧
       wk_threads w = u64 (GetParamValue cast params (text "thread_num") 1)) ∧
  (0 < GetParamValue cast params (text "worker_num") 1 →
   ∃ w, manager_get mgr name r = Ok (Some w) ∧ wk_name w = name) ∧
  (∀ w i, wk_name w = worker_name name (S i) → manager_get mgr name r ≠ Ok (Some w)) ∧
  m_stop mgr = bool_decide (members mgr = []).
Proof.
  unfold manager_init. intros E Hin Hr. apply outcome_bind_ok in E as (mgr1 & E & [= <-]).
  destruct (init_loop_spec cast workers _ _ _ (empty_ok false) E) as (Hok & _ & Honly & Hall).
  set (mgr := mkManager (m_data mgr1) (bool_decide (m_data mgr1 = []))).
  assert (manager_ok mgr) as Hmgr by by destruct Hok. change (members mgr1) with (members mgr) in *.
  destruct (manager_get_spec mgr name r Hmgr Hr) as (o & Eo & Hsome & Hnone). split_and!.
  - intros w [[]%elem_of_nil|?]%Honly. done.
  - intros i. by apply Hall.
  - intros Hpos. destruct (Hall name params 0%nat Hin ltac:(lia)) as (w & Hw & Hn & _). destruct o as [w'|].
    + exists w'. split; [done|]. by apply Hsome.
    + by destruct (Hnone eq_refl w Hw).
  - intros w i Hw. rewrite Eo. intros [= ->]. destruct (Hsome w eq_refl) as [_ Hn]. rewrite Hw in Hn.
    by apply worker_name_first in Hn.
  - simpl. apply bool_decide_ext. unfold members. simpl. destruct (m_data mgr1) as [|[k l] rest] eqn:Ed; [done|].
    split; [done|]. intros Hnil. apply app_eq_nil in Hnil as [Hl _]. simpl in Hl. subst l.
    destruct (mo_some _ Hmgr k []); [|done]. simpl. apply elem_of_cons. by left.
Qed.

(** Stopping the manager gives every scheduler it holds an empty callback, to
    wake it, and then stops it, each once; a second stop does nothing. *)
Lemma manager_stop_all mgr :
  m_stop mgr = false →
  (manager_stop mgr).1 = mjoin ((λ w, [EvSchedule w None; EvStop w]) <$> members mgr) ∧
  m_data (manager_stop mgr).2 = [] ∧ m_stop (manager_stop mgr).2 = true ∧
  manager_stop (manager_stop mgr).2 = ([], (manager_stop mgr).2).
Proof. unfold manager_stop. by intros ->. Qed.

(** Two workers are asked for under one name. *)
Definition ascii_int (s : list Z) : option Z := match s with [c] => Some (c - 48) | _ => None end.

Definition two_io : list (list Z * list (list Z * list Z)) :=
  [(text "io", [(text "thread_num", text "4"); (text "worker_num", text "2")])].

Definition two_workers : WorkerManager :=
  match manager_init ascii_int two_io 0 WorkerManager_new with Ok mgr => mgr | _ => WorkerManager_new end.

Lemma workers_by_name_witness :
  length (members two_workers) = 2%nat ∧
  ∃ w, manager_get two_workers (text "io") 5 = Ok (Some w) ∧ wk_name w = text "io".
Proof.
  split; [vm_compute; reflexivity|].
  destruct (workers_by_name ascii_int two_io 0 two_workers (text "io")
    [(text "thread_num", text "4"); (text "worker_num", text "2")] 5) as (_ & _ & H & _).
  - vm_compute. reflexivity.
  - apply elem_of_cons. left. reflexivity.
  - lia.
  - apply H. vm_compute. reflexivity.
Defined.
