(* ===== verification/Module.v ===== *)
(** Modules (sylar/module.h, sylar/module.cc): the manager of the loaded
    modules, whose [add] and [del] take its lock twice, with the threads that
    call it, and the loading of modules from shared objects (sylar/library.cc). *)

From Stdlib Require Import ZArith Lia.
From stdpp Require Import base numbers gmap option strings tactics sets relations sorting list_numbers list.
From S2P Require Import Prelude StdSet StdMap Text.

Local Open Scope Z_scope.

(** [class Module]: the object's address, and its fields. *)
Record Module : Type := mkModule {
  mod_ptr : nat;
  m_name : list Z;
  m_version : list Z;
  m_filename : list Z
}.

#[export] Instance Module_eq_dec : EqDecision Module.
Proof. solve_decision. Defined.

(** [m_id]. *)
Definition getId (m : Module) : list Z := m_name m ++ text "/" ++ m_version m.

Abbreviation module_map := (list (list Z * Module)).

(** [get(name)]. *)
Definition module_get (m : module_map) (name : list Z) : option Module := map_find id bytes_lt m name.

(** [listAll]. *)
Definition listAll (m : module_map) : list Module := snd <$> m.

(** The part of [del] under the lock. *)
Definition del_locked (m : module_map) (name : list Z) : option Module * module_map :=
  match map_find id bytes_lt m name with
  | None => (None, m)
  | Some module => (Some module, map_erase id bytes_lt m name)
  end.

(** The part of [add] under the lock. *)
Definition add_locked (m : module_map) (module : Module) : module_map :=
  map_set id bytes_lt m (getId module) module.

(** ** One thread *)

(** The map and the modules whose [onUnload] was called. *)
Definition module_del (st : module_map * list Module) (name : list Z) : module_map * list Module :=
  let '(old, m) := del_locked st.1 name in (m, st.2 ++ option_list old).

Definition module_add (st : module_map * list Module) (module : Module) : module_map * list Module :=
  let '(m, unloaded) := module_del st (getId module) in (add_locked m module, unloaded).

Definition module_delAll (st : module_map * list Module) : module_map * list Module :=
  foldl module_del st (fst <$> st.1).

(** The order of [std::sort] on strings. *)
Definition name_le (a b : list Z) : Prop := bytes_lt b a = false.
#[export] Instance name_le_dec : RelDecision name_le.
Proof. intros a b. unfold name_le. apply _. Defined.

Section init.
(** [Library::GetModule(path)]: none when the library cannot be loaded. *)
Context (GetModule : list Z → option Module).

Definition initModule (st : module_map * list Module) (path : list Z) : module_map * list Module :=
  match GetModule path with
  | Some module => module_add st module
  | None => st
  end.

(** [init], with the files that [ListAllFile] found, which [std::sort] sorts. *)
Definition module_init (st : module_map * list Module) (files : list (list Z)) : module_map * list Module :=
  foldl initModule st (merge_sort name_le files).

End init.

(** [onConnect] and [onDisconnect]: the modules that are called, in order. *)
Definition onConnect (m : module_map) : list Module := listAll m.
Definition onDisconnect (m : module_map) : list Module := listAll m.

(** ** Many threads *)

(** What a thread does after a [del]: insert its module, or go on with the names
    that [delAll] copied. *)
Inductive after_del : Type :=
| ThenInsert (m : Module)
| ThenDelete (names : list (list Z)).

(** Where a thread is: before the lock of [del], between it and [onUnload],
    before the second lock of [add]. *)
Inductive module_pc : Type :=
| Deleting (name : list Z) (next : after_del)
| Unloading (old : Module) (next : after_del)
| Inserting (m : Module).

Definition go_on (next : after_del) : list module_pc :=
  match next with
  | ThenInsert m => [Inserting m]
  | ThenDelete [] => []
  | ThenDelete (name :: names) => [Deleting name (ThenDelete names)]
  end.

(** The map, the threads inside the manager, the modules that were added and those
    that were unloaded, each as often as it was. *)
Record manager : Type := mkMM {
  m_modules : module_map;
  mm_threads : list module_pc;
  mm_added : list Module;
  mm_unloaded : list Module
}.

Definition manager_new : manager := mkMM [] [] [] [].

Inductive mm_step (st : manager) : manager → Prop :=
| mm_add m :
    mm_step st (mkMM (m_modules st) (Deleting (getId m) (ThenInsert m) :: mm_threads st)
                  (m :: mm_added st) (mm_unloaded st))
| mm_del name :
    mm_step st (mkMM (m_modules st) (Deleting name (ThenDelete []) :: mm_threads st)
                  (mm_added st) (mm_unloaded st))
| mm_delAll :
    mm_step st (mkMM (m_modules st) (go_on (ThenDelete (fst <$> m_modules st)) ++ mm_threads st)
                  (mm_added st) (mm_unloaded st))
| mm_delete l1 l2 name next :
    mm_threads st = l1 ++ Deleting name next :: l2 →
    mm_step st (mkMM (del_locked (m_modules st) name).2
                  (l1 ++ match (del_locked (m_modules st) name).1 with
                         | Some old => [Unloading old next]
                         | None => go_on next
                         end ++ l2)
                  (mm_added st) (mm_unloaded st))
| mm_unload l1 l2 old next :
    mm_threads st = l1 ++ Unloading old next :: l2 →
    mm_step st (mkMM (m_modules st) (l1 ++ go_on next ++ l2) (mm_added st) (mm_unloaded st ++ [old]))
| mm_insert l1 l2 m :
    mm_threads st = l1 ++ Inserting m :: l2 →
    mm_step st (mkMM (add_locked (m_modules st) m) (l1 ++ l2) (mm_added st) (mm_unloaded st)).

(** The modules a thread has in hand. *)
Definition next_holds (next : after_del) : list Module :=
  match next with ThenInsert m => [m] | ThenDelete _ => [] end.

Definition in_hand (p : module_pc) : list Module :=
  match p with
  | Deleting _ next => next_holds next
  | Unloading old next => old :: next_holds next
  | Inserting m => [m]
  end.

Definition outside (st : manager) : list Module := mm_unloaded st ++ mjoin (in_hand <$> mm_threads st).

Record mm_inv (st : manager) : Prop := {
  mi_map : map_ok id bytes_lt (m_modules st);
  mi_key k m : (k, m) ∈ m_modules st → k = getId m;
  mi_sub : outside st ++ listAll (m_modules st) ⊆+ mm_added st
}.

Lemma go_on_holds next : mjoin (in_hand <$> go_on next) = next_holds next.
Proof. by destruct next as [m|[|name names]]. Qed.

Lemma hands_app (l1 l2 : list module_pc) :
  mjoin (in_hand <$> (l1 ++ l2)) = mjoin (in_hand <$> l1) ++ mjoin (in_hand <$> l2).
Proof. by rewrite fmap_app, join_app. Qed.

Lemma hands_cons (p : module_pc) l : mjoin (in_hand <$> p :: l) = in_hand p ++ mjoin (in_hand <$> l).
Proof. done. Qed.

(** What the locked parts do to the map. *)
Lemma del_locked_spec m name :
  map_ok id bytes_lt m →
  map_ok id bytes_lt (del_locked m name).2 ∧
  (∀ kv, kv ∈ (del_locked m name).2 ↔ kv ∈ m ∧ kv.1 ≠ name) ∧
  (∀ old, (del_locked m name).1 = Some old ↔ (name, old) ∈ m).
Proof.
  intros Hok. unfold del_locked. destruct (map_find id bytes_lt m name) as [old|] eqn:E; simpl.
  - destruct (map_erase_ok id bytes_lt bytes_lt_strict m name Hok) as [Hok' Hin].
    split_and!; [done|done|]. intros o. split.
    + intros [= <-]. apply (map_find_iff id bytes_lt bytes_lt_strict _ _ _ Hok) in E as (k & Hk & Ek).
      unfold id in Ek. by subst k.
    + intros Ho. f_equal. assert (map_find id bytes_lt m name = Some o) as E'; [|congruence].
      apply (map_find_iff id bytes_lt bytes_lt_strict _ _ _ Hok). by exists name.
  - assert (∀ kv, kv ∈ m → kv.1 ≠ name) as Hnone.
    { intros [k v] Hkv Hk. simpl in Hk. subst k.
      assert (map_find id bytes_lt m name = Some v) as E'; [|congruence].
      apply (map_find_iff id bytes_lt bytes_lt_strict _ _ _ Hok). by exists name. }
    split_and!; [done| |].
    + intros kv. split; [|by intros [? _]]. intros Hkv. split; [done|by apply Hnone].
    + intros o. split; [done|]. intros Ho. by destruct (Hnone (name, o) Ho).
Qed.

Lemma add_locked_spec m module :
  map_ok id bytes_lt m →
  map_ok id bytes_lt (add_locked m module) ∧
  ∀ kv, kv ∈ add_locked m module ↔ (kv ∈ m ∧ kv.1 ≠ getId module) ∨ kv = (getId module, module).
Proof.
  intros Hok. destruct (map_set_ok id bytes_lt bytes_lt_strict m (getId module) module Hok) as [Hok' Hin].
  split; [done|]. intros kv. unfold add_locked. rewrite Hin.
  assert (default (getId module) (fst <$> map_lookup id bytes_lt m (getId module)) = getId module) as ->; [|done].
  destruct (map_lookup id bytes_lt m (getId module)) as [kv'|] eqn:E; [|done].
  by apply (map_lookup_iff id bytes_lt bytes_lt_strict _ _ _ Hok) in E as [_ E].
Qed.

Lemma map_ok_NoDup {V : Type} (m : list (list Z * V)) : map_ok id bytes_lt m → NoDup m.
Proof.
  intros Hok. apply (NoDup_fmap_1 (λ kv, id kv.1)).
  by eapply (ordered_NoDup bytes_lt (λ _, True)); [apply bytes_lt_strict|apply Forall_true|exact Hok].
Qed.

(** A module that is taken out of the map. *)
Lemma del_locked_perm m name old :
  map_ok id bytes_lt m → (del_locked m name).1 = Some old → m ≡ₚ (name, old) :: (del_locked m name).2.
Proof.
  intros Hok Ho. destruct (del_locked_spec m name Hok) as (Hok' & Hin & Hold). pose proof (proj1 (Hold old) Ho) as Hm.
  apply NoDup_Permutation; [by apply map_ok_NoDup| |].
  - apply NoDup_cons. split; [|by apply map_ok_NoDup]. by intros [_ ?]%Hin.
  - intros [k v]. rewrite elem_of_cons, Hin. simpl. split.
    + intros Hkv. destruct (decide (k = name)) as [->|]; [|by right]. left. f_equal.
      assert (Some v = Some old) as [= ->]; [|done]. rewrite <-Ho. symmetry. by apply Hold.
    + by intros [[= -> ->]|[? _]].
Qed.

(** The invariant, with the modules in any order. *)
Lemma mm_inv_intro ms ts added unloaded all :
  map_ok id bytes_lt ms → (∀ k m, (k, m) ∈ ms → k = getId m) →
  (unloaded ++ mjoin (in_hand <$> ts)) ++ listAll ms ⊆+ all → all ⊆+ added → mm_inv (mkMM ms ts added unloaded).
Proof. intros Hmap Hkey Hp Hadd. split; [done|done|]. unfold outside. simpl. by rewrite Hp. Qed.

Lemma mm_step_inv st st' : mm_inv st → mm_step st st' → mm_inv st'.
Proof.
  intros Hst Hs. pose proof Hst as [Hmap Hkey Hsub]. unfold outside in Hsub.
  destruct Hs as [m|name| |l1 l2 name next Hl|l1 l2 old next Hl|l1 l2 m Hl];
    try (rewrite Hl, hands_app, hands_cons in Hsub; cbn [in_hand] in Hsub).
  - eapply mm_inv_intro; [done|done| |by apply submseteq_skip, Hsub]. rewrite hands_cons. simpl.
    apply Permutation_submseteq. solve_Permutation.
  - by eapply mm_inv_intro; [done|done| |exact Hsub].
  - eapply mm_inv_intro; [done|done| |exact Hsub]. by rewrite hands_app, go_on_holds.
  - destruct (del_locked_spec (m_modules st) name Hmap) as (Hmap' & Hin & Hold).
    pose proof (λ o, del_locked_perm (m_modules st) name o Hmap) as Hperm.
    eapply mm_inv_intro; [done|by intros k m [? _]%Hin; apply Hkey| |exact Hsub].
    assert (listAll (m_modules st) ≡ₚ option_list (del_locked (m_modules st) name).1 ++
      listAll (del_locked (m_modules st) name).2) as ->.
    { unfold listAll. destruct (del_locked (m_modules st) name) as [[old|] m'] eqn:E; cbn [fst snd] in *.
      - by rewrite (Hperm old eq_refl).
      - unfold del_locked in E. destruct (map_find id bytes_lt (m_modules st) name); [done|by injection E as <-]. }
    apply Permutation_submseteq. destruct (del_locked (m_modules st) name) as [[old|] m']; cbn [fst snd option_list] in *.
    + rewrite !hands_app, hands_cons. cbn [in_hand]. simpl. solve_Permutation.
    + rewrite !hands_app, go_on_holds. simpl. solve_Permutation.
  - eapply mm_inv_intro; [done|done| |exact Hsub]. apply Permutation_submseteq.
    rewrite !hands_app, go_on_holds. simpl. solve_Permutation.
  - destruct (add_locked_spec (m_modules st) m Hmap) as [Hmap' Hin].
    eapply mm_inv_intro; [done| | |exact Hsub].
    + intros k m' [[Hk _]|[= -> ->]]%Hin; [by apply Hkey|done].
    + assert (listAll (add_locked (m_modules st) m) ⊆+ m :: listAll (m_modules st)) as Hm.
      { change (m :: listAll (m_modules st)) with (snd <$> (getId m, m) :: m_modules st). apply fmap_submseteq.
        apply NoDup_submseteq; [by apply map_ok_NoDup|]. intros kv [[? _]| ->]%Hin; apply elem_of_cons; auto. }
      etrans; [by apply submseteq_skips_l, Hm|]. apply Permutation_submseteq. rewrite hands_app. simpl. solve_Permutation.
Qed.

Lemma mm_reachable st : rtc mm_step manager_new st → mm_inv st.
Proof.
  intros Hr. assert (mm_inv manager_new) as Hi.
  { by apply (mm_inv_intro _ _ _ _ []); [constructor|intros ? ? ?%elem_of_nil|..]. }
  revert Hi. induction Hr as [|x y z Hs _ IH]; [done|]. intros Hi. apply IH. by eapply mm_step_inv.
Qed.

(** C17. However threads add and delete modules, one by one or all of them, the
    unloadings and the registered modules together are no more than the additions:
    each addition of a module leads to at most one unloading, and none while the
    module is registered through it. So as long as every module is added at most once,
    no module is unloaded twice and a registered module has not been unloaded (one that
    is added again is unloaded by the second addition and then registered). A module
    is registered under its own id, and only modules that were added are ever
    registered or unloaded. *)
Theorem modules_unloaded_once st :
  rtc mm_step manager_new st →
  mm_unloaded st ++ listAll (m_modules st) ⊆+ mm_added st ∧
  (∀ name m, module_get (m_modules st) name = Some m → name = getId m ∧ m ∈ listAll (m_modules st)) ∧
  (NoDup (mm_added st) →
     NoDup (mm_unloaded st) ∧ ∀ name m, module_get (m_modules st) name = Some m → m ∉ mm_unloaded st).
Proof.
  intros Hr. pose proof (mm_reachable st Hr) as [Hmap Hkey Hsub]. unfold outside in Hsub.
  assert (mm_unloaded st ++ listAll (m_modules st) ⊆+ mm_added st) as Hall.
  { rewrite <-Hsub. apply submseteq_skips_r, submseteq_inserts_r. done. }
  assert (∀ name m, module_get (m_modules st) name = Some m → name = getId m ∧ m ∈ listAll (m_modules st)) as Hget.
  { intros name m E. apply (map_find_iff id bytes_lt bytes_lt_strict _ _ _ Hmap) in E as (k & Hk & Ek).
    unfold id in Ek. subst k. split; [by apply Hkey|]. by apply (list_elem_of_fmap_2 snd _ (name, m)). }
  split_and!; [done|done|]. intros Hnd. apply submseteq_Permutation in Hall as [rest Hall]. rewrite Hall in Hnd.
  apply NoDup_app in Hnd as ((Hu & Hd & _)%NoDup_app & _). split; [done|].
  intros name m [_ Hm]%Hget Hin. by apply (Hd m).
Qed.

(** ** A single thread *)

Lemma module_del_spec m unloaded name :
  map_ok id bytes_lt m →
  map_ok id bytes_lt (module_del (m, unloaded) name).1 ∧
  (∀ kv, kv ∈ (module_del (m, unloaded) name).1 ↔ kv ∈ m ∧ kv.1 ≠ name) ∧
  (∀ old, old ∈ (module_del (m, unloaded) name).2 ↔ old ∈ unloaded ∨ (name, old) ∈ m).
Proof.
  intros Hok. destruct (del_locked_spec m name Hok) as (Hok' & Hin & Hold). unfold module_del. simpl.
  destruct (del_locked m name) as [o m']. simpl in *. split_and!; [done|done|].
  intros old. rewrite elem_of_app, <-Hold. destruct o; simpl; set_solver.
Qed.

Lemma delAll_loop names : ∀ m unloaded,
  map_ok id bytes_lt m →
  (∀ kv, kv ∈ (foldl module_del (m, unloaded) names).1 ↔ kv ∈ m ∧ kv.1 ∉ names) ∧
  (∀ old, old ∈ (foldl module_del (m, unloaded) names).2 ↔ old ∈ unloaded ∨ ∃ k, k ∈ names ∧ (k, old) ∈ m).
Proof.
  induction names as [|name names IH]; intros m unloaded Hok; cbn [foldl].
  - split; [set_solver|]. intros old. split; [by left|]. intros [?|(k & ?%elem_of_nil & _)]; done.
  - destruct (module_del_spec m unloaded name Hok) as (Hok' & Hin & Hold).
    destruct (module_del (m, unloaded) name) as [m' u']. simpl in *.
    destruct (IH m' u' Hok') as [H1 H2]. split.
    + intros kv. rewrite H1, Hin, not_elem_of_cons. tauto.
    + intros old. rewrite H2, Hold. setoid_rewrite Hin. simpl. split.
      * intros [[?|?]|(k & ? & ? & ?)]; [by left|right; exists name; set_solver|right; exists k; set_solver].
      * intros [?|(k & [->|?]%elem_of_cons & ?)]; [by left; left|by left; right|].
        destruct (decide (k = name)) as [->|?]; [by left; right|]. right. by exists k.
Qed.

(** Alone, [add] makes its module the one registered under its id, unloads
    the one that was there and leaves all others; [delAll] unloads every
    registered module and leaves none. *)
Theorem module_add_delAll m unloaded module :
  map_ok id bytes_lt m →
  (module_get (module_add (m, unloaded) module).1 (getId module) = Some module ∧
   (∀ name, name ≠ getId module →
      module_get (module_add (m, unloaded) module).1 name = module_get m name) ∧
   (∀ old, old ∈ (module_add (m, unloaded) module).2 ↔
      old ∈ unloaded ∨ module_get m (getId module) = Some old)) ∧
  (module_delAll (m, unloaded)).1 = [] ∧
  (∀ old, old ∈ (module_delAll (m, unloaded)).2 ↔ old ∈ unloaded ∨ ∃ k, module_get m k = Some old).
Proof.
  intros Hok. unfold module_get.
  assert (∀ k v, map_find id bytes_lt m k = Some v ↔ (k, v) ∈ m) as Hfind.
  { intros k v. rewrite (map_find_iff id bytes_lt bytes_lt_strict _ _ _ Hok). unfold id.
    split; [by intros (? & ? & ->)|by exists k]. }
  split_and!; try setoid_rewrite Hfind.
  - unfold module_add. destruct (module_del_spec m unloaded (getId module) Hok) as (Hok' & _).
    destruct (module_del (m, unloaded) (getId module)) as [m' u]. simpl in *.
    by apply (map_find_set_eq id bytes_lt bytes_lt_strict).
  - intros name Hne. unfold module_add. destruct (module_del_spec m unloaded (getId module) Hok) as (Hok' & Hin & _).
    destruct (module_del (m, unloaded) (getId module)) as [m' u]. simpl in *. unfold add_locked.
    rewrite (map_find_set_ne id bytes_lt bytes_lt_strict) by done.
    apply (map_find_ext id bytes_lt bytes_lt_strict); [done|done|]. intros kv Hkv. unfold id in Hkv.
    rewrite Hin, Hkv. tauto.
  - intros old. unfold module_add. destruct (module_del_spec m unloaded (getId module) Hok) as (_ & _ & Hold).
    destruct (module_del (m, unloaded) (getId module)) as [m' u]. simpl in *. apply Hold.
  - destruct (delAll_loop (fst <$> m) m unloaded Hok) as [H1 _]. apply elem_of_nil_inv. intros kv.
    unfold module_delAll. cbn [fst]. rewrite H1. intros [Hin Hno]. apply Hno.
    by apply list_elem_of_fmap_2.
  - intros old. destruct (delAll_loop (fst <$> m) m unloaded Hok) as [_ H2].
    unfold module_delAll. cbn [fst]. rewrite H2. split; [|intros [?|[k Hk]]; [by left|right]].
    + intros [?|(k & _ & ?)]; [by left|right; by exists k].
    + exists k. split; [|done]. by apply (list_elem_of_fmap_2 fst _ (k, old)).
Qed.

(** ** Two threads *)

Definition echo_1 : Module := mkModule 1 (text "echo") (text "1.0") (text "a.so").
Definition echo_2 : Module := mkModule 2 (text "echo") (text "1.0") (text "b.so").

(** [add] is not atomic: two threads that add modules of the same id can
    both find nothing to delete, and the second insertion drops the first module,
    which is registered nowhere and was never unloaded. *)
Theorem module_add_race :
  ∃ st, rtc mm_step manager_new st ∧ mm_threads st = [] ∧ echo_1 ∈ mm_added st ∧
    module_get (m_modules st) (getId echo_1) = Some echo_2 ∧ mm_unloaded st = [].
Proof.
  exists (mkMM [(getId echo_1, echo_2)] [] [echo_2; echo_1] []). split_and!; [|done| |done|done].
  - eapply rtc_l; [apply (mm_add _ echo_1)|].
    eapply rtc_l; [apply (mm_add _ echo_2)|].
    eapply rtc_l; [apply (mm_delete _ [] [Deleting (getId echo_1) (ThenInsert echo_1)] (getId echo_2)
      (ThenInsert echo_2)); reflexivity|].
    eapply rtc_l; [apply (mm_delete _ [Inserting echo_2] [] (getId echo_1) (ThenInsert echo_1)); reflexivity|].
    eapply rtc_l; [apply (mm_insert _ [Inserting echo_2] [] echo_1); reflexivity|].
    eapply rtc_l; [apply (mm_insert _ [] [] echo_2); reflexivity|]. apply rtc_refl.
  - apply elem_of_cons. right. apply elem_of_cons. by left.
Qed.

(** The first module is added and registered, then the second replaces it. *)
Definition replaced : manager := mkMM [(getId echo_2, echo_2)] [] [echo_2; echo_1] [echo_1].

Lemma replaced_reachable : rtc mm_step manager_new replaced.
Proof.
  eapply rtc_l; [apply (mm_add _ echo_1)|].
  eapply rtc_l; [apply (mm_delete _ [] [] (getId echo_1) (ThenInsert echo_1)); reflexivity|].
  eapply rtc_l; [apply (mm_insert _ [] [] echo_1); reflexivity|].
  eapply rtc_l; [apply (mm_add _ echo_2)|].
  eapply rtc_l; [apply (mm_delete _ [] [] (getId echo_2) (ThenInsert echo_2)); reflexivity|].
  eapply rtc_l; [apply (mm_unload _ [] [] echo_1 (ThenInsert echo_2)); reflexivity|].
  eapply rtc_l; [apply (mm_insert _ [] [] echo_2); reflexivity|]. apply rtc_refl.
Qed.

Lemma modules_unloaded_once_witness :
  module_get (m_modules replaced) (getId echo_2) = Some echo_2 ∧ mm_unloaded replaced = [echo_1] ∧
  echo_2 ∉ mm_unloaded replaced.
Proof.
  destruct (modules_unloaded_once replaced replaced_reachable) as (_ & _ & H).
  assert (module_get (m_modules replaced) (getId echo_2) = Some echo_2) as E by (vm_compute; reflexivity).
  split; [exact E|]. split; [reflexivity|]. refine (proj2 (H _) (getId echo_2) echo_2 E).
  apply (bool_decide_unpack _). vm_compute. exact I.
Defined.

Lemma module_add_delAll_witness :
  module_get (module_add ([(getId echo_1, echo_1)], []) echo_2).1 (getId echo_2) = Some echo_2.
Proof.
  apply (module_add_delAll [(getId echo_1, echo_1)] [] echo_2). constructor; constructor.
Defined.

(** ** Shared objects *)

(** Shared objects (sylar/library.h, sylar/library.cc): loading a module from
    one, and the deleter of its pointer. The dynamic linker is an interface. *)

From Stdlib Require Import ZArith Lia.
From stdpp Require Import base numbers option strings tactics sets list_numbers list.
From S2P Require Import Prelude Text .

Local Open Scope Z_scope.

(** The linker, with the code of the objects it loaded: [dl_create] is a call of
    the object's CreateModule, which may return null, [dl_destroy] one of its
    DestroyModule. Handles are numbers. *)
Class Linker (L : Type) : Type := {
  dlopen : L → list Z → option nat * L;
  dlsym : L → nat → list Z → bool;
  dlclose : L → nat → bool * L;
  dl_create : L → nat → option Module * L;
  dl_destroy : L → nat → Module → L
}.

Section library.
Context {L : Type} `{Linker L}.

(** [setFilename(path)]. *)
Definition setFilename (m : Module) (path : list Z) : Module := mkModule (mod_ptr m) (m_name m) (m_version m) path.

(** [Library::GetModule(path)]: the module with the handle its deleter keeps. The
    configuration is read again by the caller's model. *)
Definition GetModule (l : L) (path : list Z) : outcome (option (Module * nat) * L) :=
  let '(handle, l) := dlopen l path in
  match handle with
  | None => mret (None, l)
  | Some handle =>
    if negb (dlsym l handle (text "CreateModule")) then mret (None, (dlclose l handle).2)
    else if negb (dlsym l handle (text "DestroyModule")) then mret (None, (dlclose l handle).2)
    else
      let '(module, l) := dl_create l handle in
      module ← deref module;
      mret (Some (setFilename module path, handle), l)
  end.

(** [ModuleCloser::operator()]: a failing [dlclose] is logged. *)
Definition ModuleCloser (l : L) (handle : nat) (module : Module) : L :=
  (dlclose (dl_destroy l handle module) handle).2.

(** What the linker counts: opening and closing a handle, and nothing else. *)
Class LinkerLaws (refs : L → nat → nat) : Prop := {
  dlopen_refs l path : match dlopen l path with
    | (Some h, l') => ∀ h', refs l' h' = (refs l h' + if decide (h' = h) then 1 else 0)%nat
    | (None, l') => ∀ h', refs l' h' = refs l h'
    end;
  dlclose_refs l h h' : (0 < refs l h)%nat →
    refs (dlclose l h).2 h' = (refs l h' - if decide (h' = h) then 1 else 0)%nat;
  dl_create_refs l h h' : refs (dl_create l h).2 h' = refs l h';
  dl_destroy_refs l h m h' : refs (dl_destroy l h m) h' = refs l h'
}.

(** A module keeps its shared object open exactly once, and no failure keeps one
    open; when the last pointer to the module goes, the object is closed. *)
Lemma GetModule_refs (refs : L → nat → nat) `{!LinkerLaws refs} l path o l' :
  GetModule l path = Ok (o, l') →
  match o with
  | None => ∀ h, refs l' h = refs l h
  | Some (m, handle) => m_filename m = path ∧
      (∀ h, refs l' h = (refs l h + if decide (h = handle) then 1 else 0)%nat) ∧
      ∀ l2, (∀ h, refs l2 h = refs l' h) → ∀ h, refs (ModuleCloser l2 handle m) h = refs l h
  end.
Proof.
  unfold GetModule. pose proof (dlopen_refs l path) as Ho. destruct (dlopen l path) as [[handle|] l1].
  - assert (∀ h, refs (dlclose l1 handle).2 h = refs l h) as Hclose.
    { intros h. rewrite dlclose_refs; rewrite Ho; [case_decide; lia|rewrite decide_True by done; lia]. }
    destruct (negb _); [by intros [= <- <-]|]. destruct (negb _); [by intros [= <- <-]|].
    pose proof (dl_create_refs l1 handle) as Hc. destruct (dl_create l1 handle) as [[m|] l2]; osimpl; [|done].
    cbn [snd] in Hc. intros [= <- <-]. split_and!; [done|intros h; by rewrite Hc|].
    intros l3 Hl3 h. unfold ModuleCloser. rewrite dlclose_refs; rewrite dl_destroy_refs, Hl3, Hc, Ho; [case_decide; lia|].
    rewrite decide_True by done. lia.
  - by intros [= <- <-].
Qed.

End library.
