(* ===== verification/IOManager.v ===== *)
(** The event loop (sylar/iomanager.h, sylar/iomanager.cc): the contexts of the
    file descriptors, registering, removing and triggering events, and what the
    idle fiber does with the events the kernel reports. The kernel's interest
    list is an interface; the tasks handed to the scheduler are a list. *)

From Stdlib Require Import ZArith Lia.
From stdpp Require Import base numbers gmap option strings tactics sets list list_numbers.
From S2P Require Import Prelude.

Local Open Scope Z_scope.

(** ** The kernel *)

Inductive ctl_op : Type := EPOLL_CTL_ADD | EPOLL_CTL_MOD | EPOLL_CTL_DEL.

Definition EPOLLIN : Z := 1.
Definition EPOLLOUT : Z := 4.
Definition EPOLLERR : Z := 8.
Definition EPOLLHUP : Z := 16.
Definition EPOLLET : Z := 2 ^ 31.

(** An epoll instance: [epoll_ctl] fails with [None]; [interest] is what a
    descriptor is watched for. *)
Class Epoll (K : Type) : Type := {
  epoll_ctl : K → ctl_op → nat → Z → option K;
  interest : K → nat → option Z
}.

(** What epoll_ctl(2) says: a descriptor is added once, and only one that was
    added is changed or deleted. Calls may fail for other reasons too. *)
Class EpollLaws (K : Type) `{Epoll K} : Prop := {
  ctl_add (k k' : K) fd ev : epoll_ctl k EPOLL_CTL_ADD fd ev = Some k' →
    interest k fd = None ∧ interest k' fd = Some ev;
  ctl_mod (k k' : K) fd ev : epoll_ctl k EPOLL_CTL_MOD fd ev = Some k' →
    is_Some (interest k fd) ∧ interest k' fd = Some ev;
  ctl_del (k k' : K) fd ev : epoll_ctl k EPOLL_CTL_DEL fd ev = Some k' →
    is_Some (interest k fd) ∧ interest k' fd = None;
  ctl_other (k k' : K) op fd ev fd' : epoll_ctl k op fd ev = Some k' → fd' ≠ fd →
    interest k' fd' = interest k fd'
}.

(** ** Contexts *)

(** The events that handlers can be registered for. *)
Inductive Event : Type := READ | WRITE.

#[export] Instance Event_eq_dec : EqDecision Event.
Proof. solve_decision. Defined.

Definition bit (event : Event) : Z := match event with READ => 1 | WRITE => 4 end.

(** [FdContext::EventContext]; [ec_scheduler] is whether the pointer to the
    scheduler is set. *)
Record EventContext : Type := mkEC {
  ec_scheduler : bool;
  ec_fiber : option nat;
  ec_cb : option nat
}.

Definition ec_empty : EventContext := mkEC false None None.

(** [FdContext]. *)
Record FdContext : Type := mkFd {
  read : EventContext;
  write : EventContext;
  fd_of : nat;
  events : Z
}.

Definition FdContext_new (fd : nat) : FdContext := mkFd ec_empty ec_empty fd 0.

(** The thread that calls [addEvent]: whether [Scheduler::GetThis()] is set, the
    fiber [Fiber::GetThis()], and whether that fiber is in the state EXEC. *)
Record CallerThread : Type := mkCallerThread { t_scheduler : bool; t_fiber : nat; t_exec : bool }.

(** A fiber that runs in a thread of the scheduler. *)
Definition running (f : nat) : CallerThread := mkCallerThread true f true.

(** What is handed to the scheduler. *)
Inductive task : Type :=
| TaskFiber (f : nat)
| TaskCb (cb : nat).

Definition getContext (c : FdContext) (event : Event) : EventContext :=
  match event with READ => read c | WRITE => write c end.

Definition setContext (c : FdContext) (event : Event) (ec : EventContext) : FdContext :=
  match event with
  | READ => mkFd ec (write c) (fd_of c) (events c)
  | WRITE => mkFd (read c) ec (fd_of c) (events c)
  end.

Definition set_events (c : FdContext) (ev : Z) : FdContext := mkFd (read c) (write c) (fd_of c) ev.

(** [FdContext::resetContext] on the context of an event. *)
Definition resetContext (c : FdContext) (event : Event) : FdContext := setContext c event ec_empty.

(** [x & event] as a condition. *)
Definition has (x : Z) (event : Event) : bool := negb (Z.land x (bit event) =? 0).

(** [FdContext::triggerEvent]: the handler is swapped out of the context. *)
Definition triggerEvent (c : FdContext) (event : Event) : outcome (list task * FdContext) :=
  _ ← sylar_assert (has (events c) event) "events & event";
  let c := set_events c (Z.land (events c) (Z.lnot (bit event))) in
  let ctx := getContext c event in
  if negb (ec_scheduler ctx) then Stuck else
  match ec_cb ctx with
  | Some cb => mret ([TaskCb cb], setContext c event (mkEC false (ec_fiber ctx) None))
  | None => mret (match ec_fiber ctx with Some f => [TaskFiber f] | None => [] end,
                  setContext c event (mkEC false None None))
  end.

(** ** The manager *)

Section manager.
Context {K : Type} `{Epoll K}.

(** The state of [IOManager] that events touch. *)
Record IOManager : Type := mkIO {
  m_pendingEventCount : Z;
  m_fdContexts : list FdContext;
  m_epoll : K;
  scheduled : list task
}.

(** [contextResize(size)]. *)
Definition contextResize (cs : list FdContext) (size : nat) : list FdContext :=
  take size cs ++ (FdContext_new <$> seq (length cs) (size - length cs)).

Definition IOManager_new (k : K) : IOManager := mkIO 0 (contextResize [] 32) k [].

(** Storing the context of a descriptor back, with the rest of the state. *)
Definition update (st : IOManager) (fd : nat) (c : FdContext) (pending : Z) (k : K)
    (tasks : list task) : IOManager :=
  mkIO (u64 pending) (<[fd := c]> (m_fdContexts st)) k (scheduled st ++ tasks).

(** [m_fdContexts[fd]]: a negative descriptor is an index far beyond the end. *)
Definition context_at (cs : list FdContext) (fd : Z) : outcome FdContext :=
  if fd <? 0 then Stuck else deref (cs !! Z.to_nat fd).

(** [addEvent(fd, event, cb)], called by [who]. *)
Definition addEvent (st : IOManager) (fd : Z) (event : Event) (cb : option nat) (who : CallerThread) :
    outcome (Z * IOManager) :=
  let cs := if decide (fd < Z.of_nat (length (m_fdContexts st))) then m_fdContexts st
            else contextResize (m_fdContexts st) (Z.to_nat fd * 3 / 2) in
  let st := mkIO (m_pendingEventCount st) cs (m_epoll st) (scheduled st) in
  c ← context_at cs fd;
  _ ← sylar_assert (negb (has (events c) event)) "!(fd_context->events & event)";
  let op := if events c =? 0 then EPOLL_CTL_ADD else EPOLL_CTL_MOD in
  match epoll_ctl (m_epoll st) op (Z.to_nat fd) (Z.lor (Z.lor EPOLLET (events c)) (bit event)) with
  | None => mret (-1, st)
  | Some k =>
    let c := set_events c (Z.lor (events c) (bit event)) in
    let ctx := getContext c event in
    _ ← sylar_assert (negb (ec_scheduler ctx) && bool_decide (ec_fiber ctx = None) &&
                      bool_decide (ec_cb ctx = None)) "!scheduler && !fiber && !cb";
    ctx ← match cb with
          | Some cb => mret (mkEC (t_scheduler who) None (Some cb))
          | None =>
            _ ← sylar_assert (t_exec who) "event_ctx.fiber->getState() == Fiber::EXEC";
            mret (mkEC (t_scheduler who) (Some (t_fiber who)) None)
          end;
    mret (0, update st (Z.to_nat fd) (setContext c event ctx) (m_pendingEventCount st + 1) k [])
  end.

(** The beginning of [delEvent] and [cancelEvent]: [None] where they return
    false, otherwise the context, the events that are left and the epoll set. *)
Definition remove_interest (st : IOManager) (fd : Z) (event : Event) :
    outcome (option (FdContext * Z * K)) :=
  if decide (Z.of_nat (length (m_fdContexts st)) <= fd) then mret None else
  c ← context_at (m_fdContexts st) fd;
  if negb (has (events c) event) then mret None else
  let new_events := Z.land (events c) (Z.lnot (bit event)) in
  let op := if new_events =? 0 then EPOLL_CTL_DEL else EPOLL_CTL_MOD in
  mret match epoll_ctl (m_epoll st) op (Z.to_nat fd) (Z.lor EPOLLET new_events) with
       | None => None
       | Some k => Some (c, new_events, k)
       end.

Definition delEvent (st : IOManager) (fd : Z) (event : Event) : outcome (bool * IOManager) :=
  r ← remove_interest st fd event;
  mret match r with
       | None => (false, st)
       | Some (c, new_events, k) =>
         (true, update st (Z.to_nat fd) (resetContext (set_events c new_events) event)
                  (m_pendingEventCount st - 1) k [])
       end.

Definition cancelEvent (st : IOManager) (fd : Z) (event : Event) : outcome (bool * IOManager) :=
  r ← remove_interest st fd event;
  match r with
  | None => mret (false, st)
  | Some (c, _, k) =>
    '(tasks, c) ← triggerEvent c event;
    mret (true, update st (Z.to_nat fd) c (m_pendingEventCount st - 1) k tasks)
  end.

(** [if (fd_ctx->events & event) { triggerEvent(event); --m_pendingEventCount; }] *)
Definition trigger_if (event : Event) (x : FdContext * Z * list task) :
    outcome (FdContext * Z * list task) :=
  let '(c, pending, tasks) := x in
  if has (events c) event then
    '(more, c) ← triggerEvent c event; mret (c, u64 (pending - 1), tasks ++ more)
  else mret x.

Definition cancelAll (st : IOManager) (fd : Z) : outcome (bool * IOManager) :=
  if decide (Z.of_nat (length (m_fdContexts st)) <= fd) then mret (false, st) else
  c ← context_at (m_fdContexts st) fd;
  if events c =? 0 then mret (false, st) else
  match epoll_ctl (m_epoll st) EPOLL_CTL_DEL (Z.to_nat fd) 0 with
  | None => mret (false, st)
  | Some k =>
    x ← trigger_if READ (c, m_pendingEventCount st, []);
    '(c, pending, tasks) ← trigger_if WRITE x;
    _ ← sylar_assert (events c =? 0) "fd_ctx->events == 0";
    mret (true, update st (Z.to_nat fd) c pending k tasks)
  end.

(** One turn of the loop of [idle] over the events that [epoll_wait] reported:
    [revents] for the context of [fd]. *)
Definition handle_event (st : IOManager) (fd : nat) (revents : Z) : outcome IOManager :=
  c ← deref (m_fdContexts st !! fd);
  let revents := if Z.land revents (Z.lor EPOLLERR EPOLLHUP) =? 0 then revents
                 else Z.lor revents (Z.land (Z.lor EPOLLIN EPOLLOUT) (events c)) in
  let real_events := Z.lor (if Z.land revents EPOLLIN =? 0 then 0 else bit READ)
                       (if Z.land revents EPOLLOUT =? 0 then 0 else bit WRITE) in
  if Z.land (events c) real_events =? 0 then mret st else
  let left_events := Z.land (events c) (Z.lnot real_events) in
  let op := if left_events =? 0 then EPOLL_CTL_DEL else EPOLL_CTL_MOD in
  match epoll_ctl (m_epoll st) op (fd_of c) (Z.lor EPOLLET left_events) with
  | None => mret st
  | Some k =>
    x ← trigger_if READ (c, m_pendingEventCount st, []);
    '(c, pending, tasks) ← trigger_if WRITE x;
    mret (update st fd c pending k tasks)
  end.

(** [stopping(timeout)]: [timeout] is [getNextTimer()], and the last argument
    what the scheduler answers. *)
Definition io_stopping (st : IOManager) (timeout : Z) (scheduler_stopping : bool) : bool :=
  (timeout =? 2 ^ 64 - 1) && (m_pendingEventCount st =? 0) && scheduler_stopping.

End manager.

(** The timeout of [epoll_wait]: the minimum is taken after the conversion to
    [int]. *)
Definition wait_timeout (next_timeout : Z) : Z :=
  if next_timeout =? 2 ^ 64 - 1 then 3000 else s32 (u64 (Z.min (s32 next_timeout) 3000)).

(** ** Well-formed contexts *)

(** A handler is in place exactly when the event is registered. *)
Definition ec_ok (registered : bool) (ec : EventContext) : Prop :=
  if registered then (∃ cb, ec = mkEC true None (Some cb)) ∨ (∃ f, ec = mkEC true (Some f) None)
  else ec = ec_empty.

Definition mask (r w : bool) : Z := Z.lor (if r then bit READ else 0) (if w then bit WRITE else 0).

Definition ctx_ok (fd : nat) (c : FdContext) : Prop :=
  ∃ r w, events c = mask r w ∧ ec_ok r (read c) ∧ ec_ok w (write c) ∧ fd_of c = fd.

(** The handler that is registered for an event. *)
Definition handler (c : FdContext) (event : Event) : list task :=
  let ec := getContext c event in
  if has (events c) event then
    match ec_cb ec, ec_fiber ec with
    | Some cb, _ => [TaskCb cb]
    | None, Some f => [TaskFiber f]
    | None, None => []
    end
  else [].

Definition handlers (c : FdContext) : list task := handler c READ ++ handler c WRITE.

(** How many handlers are registered. *)
Fixpoint count (cs : list FdContext) : nat :=
  match cs with
  | [] => 0
  | c :: cs => length (handlers c) + count cs
  end.

Lemma handlers_count_insert cs fd c c' :
  cs !! fd = Some c →
  (count (<[fd := c']> cs) + length (handlers c) = count cs + length (handlers c'))%nat.
Proof.
  revert fd. induction cs as [|d cs IH]; intros [|fd] Hc; simpl in *; try done.
  - injection Hc as ->. lia.
  - specialize (IH fd Hc). lia.
Qed.

Lemma handlers_count_app cs1 cs2 : count (cs1 ++ cs2) = (count cs1 + count cs2)%nat.
Proof. induction cs1 as [|c cs1 IH]; simpl; [done|]. rewrite IH. lia. Qed.

Lemma count_new l : count (FdContext_new <$> l) = 0%nat.
Proof. induction l as [|x l IH]; [done|]. simpl. apply IH. Qed.

Lemma ctx_new fd : ctx_ok fd (FdContext_new fd).
Proof. by exists false, false. Qed.

(** The registered events of a concrete context. *)
Ltac ctx r w := exists r, w; split_and!; [done|unfold ec_ok; eauto|unfold ec_ok; eauto|done].

(** What triggering does to a well-formed context. *)
Lemma trigger_ok fd c event :
  ctx_ok fd c → has (events c) event = true →
  ∃ c', triggerEvent c event = Ok (handler c event, c') ∧ ctx_ok fd c' ∧
    handler c event ≠ [] ∧ handler c' event = [] ∧ has (events c') event = false ∧
    (∀ e, e ≠ event → handler c' e = handler c e ∧ has (events c') e = has (events c) e) ∧
    events c' = Z.land (events c) (Z.lnot (bit event)).
Proof.
  intros (r & w & He & Hr & Hw & Hfd) Hhas. destruct c as [rd wr i ev]. simpl in *. subst ev i.
  destruct r, w, event; simpl in Hr, Hw; try discriminate Hhas;
    repeat match goal with
    | H : _ ∨ _ |- _ => destruct H as [[? ->]|[? ->]]
    | H : _ = ec_empty |- _ => subst
    end; eexists; (split; [reflexivity|]); cbn [events getContext setContext set_events read write];
    split_and!; try done; try (by intros []);
    first [by ctx false false|by ctx true false|by ctx false true].
Qed.

Lemma handler_empty fd c event : ctx_ok fd c → has (events c) event = false ↔ handler c event = [].
Proof.
  intros (r & w & He & Hr & Hw & _). unfold handler.
  destruct (has (events c) event) eqn:E; [|done]. split; [done|]. rewrite He in E.
  destruct event; [destruct r; [|by destruct w]|destruct w; [|by destruct r]]; simpl in *.
  - by destruct Hr as [[? ->]|[? ->]].
  - by destruct Hw as [[? ->]|[? ->]].
Qed.

Lemma handler_length fd c event : ctx_ok fd c → has (events c) event = true → length (handler c event) = 1%nat.
Proof.
  intros Hok Hhas. pose proof (proj2 (handler_empty fd c event Hok)) as Hne.
  unfold handler in *. rewrite Hhas in *. repeat case_match; try done. by specialize (Hne eq_refl).
Qed.

(** The conditional triggers of [cancelAll] and [idle], one event at a time. *)
Lemma trigger_if_ok fd c event pending tasks :
  ctx_ok fd c →
  ∃ c', trigger_if event (c, pending, tasks) =
      Ok (c', (if has (events c) event then u64 (pending - 1) else pending), tasks ++ handler c event) ∧
    ctx_ok fd c' ∧ handler c' event = [] ∧ has (events c') event = false ∧
    (∀ e, e ≠ event → handler c' e = handler c e ∧ has (events c') e = has (events c) e).
Proof.
  intros Hok. unfold trigger_if. destruct (has (events c) event) eqn:Hhas.
  - destruct (trigger_ok fd c event Hok Hhas) as (c' & -> & Hok' & _ & Hh & Hn & Ho & _). osimpl.
    by exists c'.
  - exists c. pose proof (proj1 (handler_empty fd c event Hok) Hhas) as Hh.
    rewrite Hh, app_nil_r. by split_and!.
Qed.

Lemma no_events fd c : ctx_ok fd c → has (events c) READ = false → has (events c) WRITE = false → events c = 0.
Proof. intros (r & w & He & _). rewrite He. by destruct r, w. Qed.

Lemma has_set x event : has (Z.lor x (bit event)) event = true.
Proof.
  assert (Z.land (Z.lor x (bit event)) (bit event) = bit event) as E.
  { apply Z.bits_inj'. intros n _. rewrite Z.land_spec, Z.lor_spec. by destruct (Z.testbit x n), (Z.testbit (bit event) n). }
  unfold has. rewrite E. by destruct event.
Qed.

Lemma any_events fd c :
  ctx_ok fd c → (events c =? 0) = negb (has (events c) READ || has (events c) WRITE).
Proof. intros (r & w & -> & _). by destruct r, w. Qed.

(** Both of them: every handler of the context is handed over. *)
Lemma trigger_all fd c pending :
  ctx_ok fd c →
  ∃ c', (x ← trigger_if READ (c, pending, []); trigger_if WRITE x) =
      Ok (c', (if has (events c) WRITE then u64 ((if has (events c) READ then u64 (pending - 1) else pending) - 1)
               else if has (events c) READ then u64 (pending - 1) else pending), handlers c) ∧
    ctx_ok fd c' ∧ handlers c' = [] ∧ events c' = 0.
Proof.
  intros Hok.
  destruct (trigger_if_ok fd c READ pending [] Hok) as (c1 & -> & Hok1 & Hh1 & Hn1 & Ho1). osimpl.
  destruct (Ho1 WRITE) as [Hw1 Hn1w]; [done|].
  destruct (trigger_if_ok fd c1 WRITE (if has (events c) READ then u64 (pending - 1) else pending)
    ([] ++ handler c READ) Hok1) as (c2 & -> & Hok2 & Hh2 & Hn2 & Ho2).
  destruct (Ho2 READ) as [Hr2 Hn2r]; [done|].
  exists c2. rewrite Hn1w, Hw1. split_and!; [done|done| |].
  - unfold handlers. rewrite Hr2, Hh2. by rewrite Hh1.
  - apply (no_events fd); [done|congruence|done].
Qed.

(** Registering a handler. *)
Lemma register_ok fd c event cb current :
  ctx_ok fd c → has (events c) event = false →
  let c1 := set_events c (Z.lor (events c) (bit event)) in
  let c' := setContext c1 event (match cb with Some cb => mkEC true None (Some cb)
                                 | None => mkEC true (Some current) None end) in
  has (events c') event = true ∧ getContext c1 event = ec_empty ∧ ctx_ok fd c' ∧
  handler c' event = [match cb with Some cb => TaskCb cb | None => TaskFiber current end] ∧
  (∀ e, e ≠ event → handler c' e = handler c e).
Proof.
  intros (r & w & He & Hr & Hw & Hfd) Hhas. destruct c as [rd wr i ev]. simpl in *. subst ev i.
  destruct r, w, event, cb; simpl in Hr, Hw; try discriminate Hhas;
    repeat match goal with
    | H : _ ∨ _ |- _ => destruct H as [[? ->]|[? ->]]
    | H : _ = ec_empty |- _ => subst
    end; split_and!; try done; try (by intros []);
    first [by ctx true true|by ctx true false|by ctx false true].
Qed.

(** Dropping a handler. *)
Lemma unregister_ok fd c event :
  ctx_ok fd c → has (events c) event = true →
  let c' := resetContext (set_events c (Z.land (events c) (Z.lnot (bit event)))) event in
  ctx_ok fd c' ∧ handler c' event = [] ∧ (∀ e, e ≠ event → handler c' e = handler c e).
Proof.
  intros (r & w & He & Hr & Hw & Hfd) Hhas. destruct c as [rd wr i ev]. simpl in *. subst ev i.
  destruct r, w, event; simpl in Hr, Hw; try discriminate Hhas;
    repeat match goal with
    | H : _ ∨ _ |- _ => destruct H as [[? ->]|[? ->]]
    | H : _ = ec_empty |- _ => subst
    end; split_and!; try done; try (by intros []);
    first [by ctx false false|by ctx true false|by ctx false true].
Qed.

(** Counting the handlers of a context in which one event has changed. *)
Lemma handlers_change c c' event :
  (∀ e, e ≠ event → handler c' e = handler c e) →
  (length (handlers c') + length (handler c event) =
   length (handlers c) + length (handler c' event))%nat.
Proof.
  intros Ho. unfold handlers. rewrite !length_app.
  destruct event; [rewrite (Ho WRITE) by done|rewrite (Ho READ) by done]; lia.
Qed.

(** ** Invariant of the manager *)

Section invariant.
Context {K : Type} `{Epoll K}.
Implicit Types st : IOManager (K := K).

Record io_inv st : Prop := {
  inv_ctx fd c : m_fdContexts st !! fd = Some c → ctx_ok fd c;
  inv_pending : m_pendingEventCount st = u64 (Z.of_nat (count (m_fdContexts st)))
}.

Lemma u64_pred a : u64 (u64 a - 1) = u64 (a - 1).
Proof. unfold uwrap. by rewrite Zminus_mod_idemp_l. Qed.

Lemma u64_idem a : u64 (u64 a) = u64 a.
Proof. unfold uwrap. by rewrite Zmod_mod. Qed.

(** Replacing a context and counting its handlers. *)
Lemma update_inv st fd c c' pending k tasks :
  io_inv st → m_fdContexts st !! fd = Some c → ctx_ok fd c' →
  u64 pending = u64 (Z.of_nat (count (m_fdContexts st)) + Z.of_nat (length (handlers c')) -
                     Z.of_nat (length (handlers c))) →
  io_inv (update st fd c' pending k tasks).
Proof.
  intros [Hctx Hp] Hc Hok Hpend. split; simpl.
  - intros i d. destruct (decide (i = fd)) as [->|Hne].
    + rewrite list_lookup_insert_eq by (by eapply lookup_lt_Some). by intros [= <-].
    + rewrite list_lookup_insert_ne by done. apply Hctx.
  - rewrite Hpend. f_equal. pose proof (handlers_count_insert _ _ _ c' Hc). lia.
Qed.

Lemma contextResize_lookup cs size i :
  (∀ fd c, cs !! fd = Some c → ctx_ok fd c) → (length cs ≤ size)%nat →
  ∀ c, contextResize cs size !! i = Some c → ctx_ok i c.
Proof.
  intros Hctx Hle c. unfold contextResize. rewrite take_ge by done.
  rewrite lookup_app_Some. intros [Hc|[Hge Hc]]; [by apply Hctx|].
  rewrite list_lookup_fmap in Hc. apply fmap_Some in Hc as (j & [Hj Hlt]%lookup_seq & ->).
  replace j with i by lia. apply ctx_new.
Qed.

(** Growing the table keeps the invariant. *)
Lemma resize_inv st size :
  io_inv st → (length (m_fdContexts st) ≤ size)%nat →
  io_inv (mkIO (m_pendingEventCount st) (contextResize (m_fdContexts st) size) (m_epoll st)
            (scheduled st)).
Proof.
  intros [Hctx Hp] Hle. split; simpl; [intros; by eapply contextResize_lookup|].
  unfold contextResize. rewrite take_ge by done. rewrite handlers_count_app, count_new, Hp. do 2 f_equal. lia.
Qed.

Definition registered st (fd : nat) (event : Event) : bool :=
  match m_fdContexts st !! fd with
  | Some c => has (events c) event
  | None => false
  end.

(** The handler of an event of a descriptor. *)
Definition handler_at st (fd : nat) (event : Event) : list task :=
  match m_fdContexts st !! fd with
  | Some c => handler c event
  | None => []
  end.

Lemma handler_at_empty st fd event :
  io_inv st → registered st fd event = false ↔ handler_at st fd event = [].
Proof.
  intros Hinv. unfold registered, handler_at. destruct (m_fdContexts st !! fd) as [c|] eqn:Hc; [|done].
  by apply (handler_empty fd), Hinv.
Qed.

(** Storing a context changes the handlers of its own descriptor. *)
Lemma handler_at_update st fd c c' pending k tasks fd' event :
  m_fdContexts st !! fd = Some c →
  handler_at (update st fd c' pending k tasks) fd' event =
  if decide (fd' = fd) then handler c' event else handler_at st fd' event.
Proof.
  intros Hc. unfold handler_at, update. cbn [m_fdContexts]. case_decide as E.
  - subst. by rewrite list_lookup_insert_eq by (by eapply lookup_lt_Some).
  - by rewrite list_lookup_insert_ne.
Qed.

(** Only the handler of one event of one descriptor differs. *)
Definition others_kept st st' (fd : nat) (event : Event) : Prop :=
  ∀ fd' e, fd' ≠ fd ∨ e ≠ event → handler_at st' fd' e = handler_at st fd' e.

Lemma update_others st fd c c' pending k tasks event :
  m_fdContexts st !! fd = Some c → (∀ e, e ≠ event → handler c' e = handler c e) →
  others_kept st (update st fd c' pending k tasks) fd event.
Proof.
  intros Hc Ho fd' e Hne. rewrite (handler_at_update st fd c) by done. case_decide as E; [|done].
  subst. unfold handler_at. rewrite Hc. apply Ho. naive_solver.
Qed.

Lemma context_at_nat cs fd : context_at cs (Z.of_nat fd) = deref (cs !! fd).
Proof. unfold context_at. rewrite Nat2Z.id. by destruct (Z.ltb_spec (Z.of_nat fd) 0); [lia|]. Qed.

(** The table [addEvent] works on. *)
Definition grown st (fd : nat) : IOManager :=
  mkIO (m_pendingEventCount st)
    (if decide (Z.of_nat fd < Z.of_nat (length (m_fdContexts st))) then m_fdContexts st
     else contextResize (m_fdContexts st) (Z.to_nat (Z.of_nat fd) * 3 / 2)) (m_epoll st) (scheduled st).

Lemma grown_spec st fd :
  io_inv st → (fd < length (m_fdContexts st) ∨ 2 ≤ fd)%nat →
  io_inv (grown st fd) ∧ (∃ c, m_fdContexts (grown st fd) !! fd = Some c) ∧
  (∀ fd' e, handler_at (grown st fd) fd' e = handler_at st fd' e) ∧
  (∀ fd' e, registered (grown st fd) fd' e = registered st fd' e).
Proof.
  intros Hinv Hfd. unfold grown. rewrite Nat2Z.id. case_decide as Hlt.
  { split; [by destruct Hinv|]. split; [apply lookup_lt_is_Some_2; cbn [m_fdContexts]; lia|done]. }
  assert (fd < fd * 3 / 2)%nat by (apply Nat.div_le_lower_bound; lia).
  assert (∀ i, contextResize (m_fdContexts st) (fd * 3 / 2) !! i =
    if decide (i < length (m_fdContexts st))%nat then m_fdContexts st !! i
    else if decide (i < fd * 3 / 2)%nat then Some (FdContext_new i) else None) as Hl.
  { intros i. unfold contextResize. rewrite take_ge by lia. case_decide; [by rewrite lookup_app_l|].
    rewrite lookup_app_r by lia. rewrite list_lookup_fmap. case_decide.
    - rewrite lookup_seq_lt by lia. simpl. do 2 f_equal. lia.
    - by rewrite lookup_seq_ge by lia. }
  split; [apply resize_inv; [done|lia]|]. unfold handler_at, registered. cbn [m_fdContexts].
  split; [exists (FdContext_new fd); rewrite Hl; repeat case_decide; [lia|done|lia]|].
  split; intros fd' e; rewrite Hl; case_decide; try done;
    rewrite (lookup_ge_None_2 (m_fdContexts st)) by lia; case_decide; [|done| |done]; by destruct e.
Qed.

(** The handler that [addEvent] registers. *)
Definition new_handler (cb : option nat) (who : CallerThread) : task :=
  match cb with Some cb => TaskCb cb | None => TaskFiber (t_fiber who) end.

Lemma addEvent_spec st fd event cb who :
  io_inv st → (fd < length (m_fdContexts st) ∨ 2 ≤ fd)%nat → registered st fd event = false →
  t_scheduler who = true → (cb = None → t_exec who = true) →
  ∃ r st', addEvent st (Z.of_nat fd) event cb who = Ok (r, st') ∧ io_inv st' ∧ scheduled st' = scheduled st ∧
    others_kept st st' fd event ∧
    ((r = 0 ∧ registered st' fd event = true ∧ handler_at st' fd event = [new_handler cb who]) ∨
     (r = -1 ∧ registered st' fd event = false)).
Proof.
  intros Hinv Hfd Hreg Hsch Hex. destruct (grown_spec st fd Hinv Hfd) as (Hinv1 & (c & Hc) & Hh1 & Hr1).
  assert (has (events c) event = false) as Hn.
  { rewrite <-(Hr1 fd event) in Hreg. unfold registered in Hreg. by rewrite Hc in Hreg. }
  unfold addEvent. fold (grown st fd). change (if decide _ then _ else _) with (m_fdContexts (grown st fd)).
  rewrite context_at_nat, Hc. osimpl. rewrite Hn, Nat2Z.id. osimpl.
  assert (others_kept st (grown st fd) fd event) as Hk by (intros ? ? _; apply Hh1).
  pose proof (inv_ctx _ Hinv1 fd c Hc) as Hok.
  destruct (epoll_ctl _ _ _ _) as [k|]; [|eexists (-1), _; split_and!; try done; right; by rewrite Hr1].
  destruct (register_ok fd c event cb (t_fiber who) Hok Hn) as (Hhas & -> & Hok' & Hh & Ho). osimpl.
  set (c' := setContext _ _ _) in *.
  assert (∀ p, ∃ r st', Ok (0, update (grown st fd) fd c' p k []) = Ok (r, st') ∧
    scheduled st' = scheduled st ∧ others_kept st st' fd event ∧
    ((r = 0 ∧ registered st' fd event = true ∧ handler_at st' fd event = [new_handler cb who]) ∨
     (r = -1 ∧ registered st' fd event = false)) ∧ st' = update (grown st fd) fd c' p k []) as Hgo.
  { intros p. eexists 0, _. split; [done|]. split; [simpl; by rewrite app_nil_r|]. split_and!; [|left|done].
    - intros fd' e Hne. rewrite <-Hh1. exact (update_others (grown st fd) fd c c' p k [] event Hc Ho fd' e Hne).
    - split; [done|]. rewrite (handler_at_update _ fd c), decide_True by done. split; [|by destruct cb].
      unfold registered, update. cbn [m_fdContexts]. by rewrite list_lookup_insert_eq by (by eapply lookup_lt_Some). }
  assert (io_inv (update (grown st fd) fd c' (m_pendingEventCount (grown st fd) + 1) k [])) as Hinv'.
  { apply (update_inv _ fd c); [done|done|done|]. pose proof (handlers_change _ _ event Ho) as Hch. rewrite Hh in Hch.
    rewrite (proj1 (handler_empty fd c event Hok) Hn) in Hch. simpl in Hch.
    rewrite (inv_pending _ Hinv1). unfold uwrap. rewrite Zplus_mod_idemp_l. f_equal. lia. }
  destruct (Hgo (m_pendingEventCount (grown st fd) + 1)) as (r & st' & E & Hs & Hk' & Hr & ->).
  exists r, (update (grown st fd) fd c' (m_pendingEventCount (grown st fd) + 1) k []). split_and!; try done.
  rewrite <-E. rewrite Hsch. unfold c'. destruct cb; [done|]. by rewrite Hex.
Qed.

(** The other event of a descriptor. *)
Definition other (event : Event) : Event := match event with READ => WRITE | WRITE => READ end.

(** Whether the kernel lets an event be removed. *)
Definition removable st (fd : nat) (event : Event) : bool :=
  bool_decide (is_Some (if registered st fd (other event)
                        then epoll_ctl (m_epoll st) EPOLL_CTL_MOD fd (Z.lor EPOLLET (bit (other event)))
                        else epoll_ctl (m_epoll st) EPOLL_CTL_DEL fd EPOLLET)).

Lemma left_events fd c event :
  ctx_ok fd c → Z.land (events c) (Z.lnot (bit event)) = if has (events c) (other event) then bit (other event) else 0.
Proof. intros (r & w & -> & _). by destruct r, w, event. Qed.

(** The common beginning of [delEvent] and [cancelEvent]. *)
Lemma remove_interest_spec st fd event :
  io_inv st →
  ∃ x, remove_interest st (Z.of_nat fd) event = Ok x ∧
    match x with
    | None => registered st fd event && removable st fd event = false
    | Some (c, ev, _) => m_fdContexts st !! fd = Some c ∧ has (events c) event = true ∧
                         ev = Z.land (events c) (Z.lnot (bit event)) ∧
                         registered st fd event && removable st fd event = true
    end.
Proof.
  intros Hinv. unfold remove_interest, removable, registered. case_decide as Hlt.
  { exists None. split; [done|]. by rewrite lookup_ge_None_2 by lia. }
  destruct (lookup_lt_is_Some_2 (m_fdContexts st) fd) as [c Hc]; [lia|]. rewrite context_at_nat, Hc, Nat2Z.id. osimpl.
  destruct (has (events c) event) eqn:Hhas; simpl; [|by exists None].
  eexists. split; [done|]. pose proof (left_events fd c event (inv_ctx _ Hinv _ _ Hc)) as Hleft.
  rewrite Hleft. destruct (has (events c) (other event)).
  - replace (bit (other event) =? 0) with false by (by destruct event).
    destruct (epoll_ctl _ _ _ _); [by rewrite Hleft|done].
  - change (Z.lor EPOLLET 0) with EPOLLET. cbn iota. change (0 =? 0) with true. cbn iota.
    destruct (epoll_ctl _ _ _ _); [by rewrite Hleft|done].
Qed.

(** One handler fewer. *)
Lemma remove_inv st fd c c' event k tasks :
  io_inv st → m_fdContexts st !! fd = Some c → has (events c) event = true → ctx_ok fd c' →
  handler c' event = [] → (∀ e, e ≠ event → handler c' e = handler c e) →
  io_inv (update st fd c' (m_pendingEventCount st - 1) k tasks).
Proof.
  intros Hinv Hc Hhas Hok' Hh Ho. apply (update_inv st fd c); [done|done|done|].
  pose proof (handlers_change _ _ event Ho) as Hch. rewrite Hh in Hch.
  rewrite (handler_length fd c event) in Hch by (done || by apply (inv_ctx _ Hinv)). simpl in Hch.
  rewrite (inv_pending _ Hinv), u64_pred. f_equal. lia.
Qed.

(** After one handler was taken out of a context. *)
Lemma removed_at st fd c c' pending k tasks event :
  m_fdContexts st !! fd = Some c → ctx_ok fd c' → handler c' event = [] →
  (∀ e, e ≠ event → handler c' e = handler c e) →
  let st' := update st fd c' pending k tasks in
  handler_at st' fd event = [] ∧ registered st' fd event = false ∧ others_kept st st' fd event.
Proof.
  intros Hc Hok' Hh Ho. split_and!.
  - by rewrite (handler_at_update st fd c), decide_True.
  - unfold registered, update. cbn [m_fdContexts]. rewrite list_lookup_insert_eq by (by eapply lookup_lt_Some).
    by apply (handler_empty fd).
  - by apply (update_others st fd c).
Qed.

Lemma delEvent_spec st fd event :
  io_inv st →
  ∃ r st', delEvent st (Z.of_nat fd) event = Ok (r, st') ∧ io_inv st' ∧
    r = registered st fd event && removable st fd event ∧ (r = false → st' = st) ∧
    scheduled st' = scheduled st ∧
    (r = true → handler_at st' fd event = [] ∧ registered st' fd event = false ∧ others_kept st st' fd event).
Proof.
  intros Hinv. unfold delEvent.
  destruct (remove_interest_spec st fd event Hinv) as (r & -> & Hr). osimpl.
  destruct r as [[[c ev] k]|]; [|by exists false, st]. destruct Hr as (Hc & Hhas & -> & ->).
  destruct (unregister_ok fd c event (inv_ctx _ Hinv _ _ Hc) Hhas) as (Hok' & Hh & Ho). rewrite Nat2Z.id.
  eexists true, _. split; [done|]. split; [by eapply remove_inv|]. split_and!; [done|done|simpl; by rewrite app_nil_r|].
  intros _. by apply (removed_at st fd c).
Qed.

Lemma cancelEvent_spec st fd event :
  io_inv st →
  ∃ r st', cancelEvent st (Z.of_nat fd) event = Ok (r, st') ∧ io_inv st' ∧
    r = registered st fd event && removable st fd event ∧ (r = false → st' = st) ∧
    (r = true → scheduled st' = scheduled st ++ handler_at st fd event ∧
       handler_at st' fd event = [] ∧ registered st' fd event = false ∧ others_kept st st' fd event).
Proof.
  intros Hinv. unfold cancelEvent.
  destruct (remove_interest_spec st fd event Hinv) as (r & -> & Hr). osimpl.
  destruct r as [[[c ev] k]|]; [|by exists false, st]. destruct Hr as (Hc & Hhas & -> & ->).
  destruct (trigger_ok fd c event (inv_ctx _ Hinv _ _ Hc) Hhas) as
    (c' & -> & Hok' & _ & Hh & Hn & Ho & _). osimpl. rewrite Nat2Z.id.
  assert (∀ e, e ≠ event → handler c' e = handler c e) as Ho' by (intros e He; apply (Ho e He)).
  eexists true, _. split; [done|]. split; [by apply (remove_inv st fd c c' event)|]. split_and!; [done|done|].
  intros _. split; [unfold handler_at; by rewrite Hc|]. by apply (removed_at st fd c).
Qed.

(** Every handler of a descriptor is handed over, and the count goes down by as
    many. *)
Lemma flush_inv st fd c c' k :
  io_inv st → m_fdContexts st !! fd = Some c → ctx_ok fd c' → handlers c' = [] →
  io_inv (update st fd c'
    (if has (events c) WRITE
     then u64 ((if has (events c) READ then u64 (m_pendingEventCount st - 1)
                else m_pendingEventCount st) - 1)
     else if has (events c) READ then u64 (m_pendingEventCount st - 1)
     else m_pendingEventCount st) k (handlers c)).
Proof.
  intros Hinv Hc Hok' Hh. apply (update_inv st fd c); [done|done|done|].
  pose proof (inv_ctx _ Hinv _ _ Hc) as Hok. rewrite Hh, (inv_pending _ Hinv).
  unfold handlers. rewrite length_app.
  destruct (has (events c) READ) eqn:Er, (has (events c) WRITE) eqn:Ew;
    rewrite ?(handler_length fd c READ), ?(handler_length fd c WRITE) by done;
    rewrite ?(proj1 (handler_empty fd c READ Hok)), ?(proj1 (handler_empty fd c WRITE Hok)) by done;
    simpl; rewrite ?(u64_pred (Z.of_nat _)), ?u64_idem, ?u64_pred; f_equal; lia.
Qed.

Lemma cancelAll_spec st fd :
  io_inv st →
  ∃ r st', cancelAll st (Z.of_nat fd) = Ok (r, st') ∧ io_inv st' ∧
    r = (registered st fd READ || registered st fd WRITE) &&
        bool_decide (is_Some (epoll_ctl (m_epoll st) EPOLL_CTL_DEL fd 0)) ∧
    (r = false → st' = st) ∧
    (r = true → (∃ c, m_fdContexts st !! fd = Some c ∧ scheduled st' = scheduled st ++ handlers c) ∧
       (∀ e, registered st' fd e = false) ∧
       (∀ fd' e, handler_at st' fd' e = if decide (fd' = fd) then [] else handler_at st fd' e)).
Proof.
  intros Hinv. unfold cancelAll, registered. case_decide as Hlt.
  { exists false, st. split_and!; try done. by rewrite lookup_ge_None_2 by lia. }
  destruct (lookup_lt_is_Some_2 (m_fdContexts st) fd) as [c Hc]; [lia|]. rewrite context_at_nat, Hc, Nat2Z.id. osimpl.
  rewrite (any_events fd c) by (by apply (inv_ctx _ Hinv)).
  destruct (has (events c) READ || has (events c) WRITE); [|by exists false, st]. cbn [negb andb].
  destruct (epoll_ctl _ _ _ _) as [k|]; [|by exists false, st].
  destruct (trigger_all fd c (m_pendingEventCount st) (inv_ctx _ Hinv _ _ Hc)) as
    (c' & E & Hok' & Hh & He).
  apply outcome_bind_ok in E as (x & -> & E). osimpl. rewrite E. osimpl. rewrite He. osimpl.
  eexists true, _. split; [done|]. split; [by apply flush_inv|]. split_and!; [done|done|].
  intros _. split_and!; [by exists c| |].
  - intros e. cbn [m_fdContexts update].
    rewrite list_lookup_insert_eq by (by eapply lookup_lt_Some). rewrite He. by destruct e.
  - intros fd' e. rewrite (handler_at_update st fd c) by done. case_decide; [|done].
    apply (handler_empty fd); [done|]. rewrite He. by destruct e.
Qed.

Lemma handle_event_spec st fd revents :
  io_inv st → (fd < length (m_fdContexts st))%nat →
  ∃ st', handle_event st fd revents = Ok st' ∧ io_inv st' ∧
    (st' = st ∨ ∃ c, m_fdContexts st !! fd = Some c ∧ scheduled st' = scheduled st ++ handlers c ∧
       ∀ e, registered st' fd e = false).
Proof.
  intros Hinv Hlt. unfold handle_event.
  destruct (lookup_lt_is_Some_2 (m_fdContexts st) fd Hlt) as [c Hc]. rewrite Hc. osimpl.
  case_match; [exists st; by auto|].
  destruct (epoll_ctl _ _ _ _) as [k|]; [|exists st; by auto].
  destruct (trigger_all fd c (m_pendingEventCount st) (inv_ctx _ Hinv _ _ Hc)) as
    (c' & E & Hok' & Hh & He).
  apply outcome_bind_ok in E as (x & -> & E). osimpl. rewrite E. osimpl.
  eexists. split; [done|]. split; [by apply flush_inv|]. right. exists c. split_and!; [done|done|].
  intros e. unfold registered. simpl.
  rewrite list_lookup_insert_eq by (by eapply lookup_lt_Some). rewrite He. by destruct e.
Qed.


(** ** Reachable states *)

(** One operation, with any behaviour of the kernel; a handler is registered by a
    thread that has a scheduler. *)
Inductive io_step st : IOManager (K := K) → Prop :=
| step_add fd event cb who r st' :
    (fd < length (m_fdContexts st) ∨ 2 ≤ fd)%nat → t_scheduler who = true →
    addEvent st (Z.of_nat fd) event cb who = Ok (r, st') → io_step st st'
| step_del fd event r st' : delEvent st (Z.of_nat fd) event = Ok (r, st') → io_step st st'
| step_cancel fd event r st' : cancelEvent st (Z.of_nat fd) event = Ok (r, st') → io_step st st'
| step_cancel_all fd r st' : cancelAll st (Z.of_nat fd) = Ok (r, st') → io_step st st'
| step_event fd revents st' :
    (fd < length (m_fdContexts st))%nat → handle_event st fd revents = Ok st' → io_step st st'.

Inductive io_reachable (k : K) : IOManager (K := K) → Prop :=
| io_start : io_reachable k (IOManager_new k)
| io_next st st' : io_reachable k st → io_step st st' → io_reachable k st'.

(** Registering twice is an assertion failure. *)
Lemma addEvent_twice st fd event cb who :
  registered st fd event = true → is_ok (addEvent st (Z.of_nat fd) event cb who) = false.
Proof.
  unfold registered. intros Hr. destruct (m_fdContexts st !! fd) as [c|] eqn:Hc; [|done].
  apply lookup_lt_Some in Hc as Hlt.
  unfold addEvent. rewrite decide_True, context_at_nat by lia. rewrite Hc. osimpl. by rewrite Hr.
Qed.

(** A call that fails has at most grown the table. *)
Lemma addEvent_failed st fd event cb who st' :
  addEvent st (Z.of_nat fd) event cb who = Ok (-1, st') → st' = grown st fd.
Proof.
  unfold addEvent. intros (c & _ & (u & _ & E)%outcome_bind_ok)%outcome_bind_ok.
  destruct (epoll_ctl _ _ _ _) as [k|]; [|by injection E as <-].
  by apply outcome_bind_ok in E as (v & _ & (ctx & _ & [=])%outcome_bind_ok).
Qed.

(** A fiber that is not in EXEC is never registered. *)
Lemma addEvent_exec st fd event who r st' :
  addEvent st fd event None who = Ok (r, st') → r = -1 ∨ t_exec who = true.
Proof.
  unfold addEvent. intros (c & _ & (u & _ & E)%outcome_bind_ok)%outcome_bind_ok.
  destruct (epoll_ctl _ _ _ _) as [k|]; [|left; by injection E].
  apply outcome_bind_ok in E as (v & _ & E). destruct (t_exec who); [by right|done].
Qed.

Lemma addEvent_inv st fd event cb who r st' :
  io_inv st → (fd < length (m_fdContexts st) ∨ 2 ≤ fd)%nat → t_scheduler who = true →
  addEvent st (Z.of_nat fd) event cb who = Ok (r, st') → io_inv st'.
Proof.
  intros Hinv Hfd Hsch E. destruct (registered st fd event) eqn:Hreg.
  { pose proof (addEvent_twice st fd event cb who Hreg) as Hno. by rewrite E in Hno. }
  destruct (decide (cb = None → t_exec who = true)) as [Hex|Hex].
  - destruct (addEvent_spec st fd event cb who Hinv Hfd Hreg Hsch Hex) as (? & ? & E' & Hi & _).
    rewrite E in E'. by injection E' as <- <-.
  - destruct cb as [cb|]; [by destruct Hex|]. destruct (t_exec who) eqn:Hx; [by destruct Hex|].
    destruct (addEvent_exec st _ event who r st' E) as [->|]; [|congruence].
    rewrite (addEvent_failed _ _ _ _ _ _ E). by apply grown_spec.
Qed.

Lemma io_step_inv st st' : io_inv st → io_step st st' → io_inv st'.
Proof.
  intros Hinv Hs. destruct Hs as [fd e cb who r st' Hfd Hsch E|fd e r st' E|fd e r st' E|fd r st' E|
    fd rev st' Hlt E].
  - by eapply addEvent_inv.
  - destruct (delEvent_spec st fd e Hinv) as (? & ? & E' & Hi & _).
    rewrite E in E'. by injection E' as <- <-.
  - destruct (cancelEvent_spec st fd e Hinv) as (? & ? & E' & Hi & _).
    rewrite E in E'. by injection E' as <- <-.
  - destruct (cancelAll_spec st fd Hinv) as (? & ? & E' & Hi & _).
    rewrite E in E'. by injection E' as <- <-.
  - destruct (handle_event_spec st fd rev Hinv Hlt) as (? & E' & Hi & _).
    rewrite E in E'. by injection E' as <-.
Qed.

Lemma io_reachable_inv k st : io_reachable k st → io_inv st.
Proof.
  induction 1 as [|st st' _ IH Hs]; [|by eapply io_step_inv].
  split; [|done]. intros fd c. by apply contextResize_lookup; [|simpl; lia].
Qed.

End invariant.

(** A handler that a thread without a scheduler registers is a null pointer followed
    as soon as its event is triggered. *)
Lemma no_scheduler_crashes {K : Type} `{Epoll K} (st st' : IOManager (K := K)) (fd : nat) (event : Event)
    (cb : option nat) (who : CallerThread) :
  io_inv st → (fd < length (m_fdContexts st) ∨ 2 ≤ fd)%nat → t_scheduler who = false →
  addEvent st (Z.of_nat fd) event cb who = Ok (0, st') →
  ∃ c, m_fdContexts st' !! fd = Some c ∧ triggerEvent c event = Stuck.
Proof.
  intros Hinv Hfd Hsch E. unfold addEvent in E. fold (grown st fd) in E.
  change (if decide _ then _ else _) with (m_fdContexts (grown st fd)) in E.
  destruct (grown_spec st fd Hinv Hfd) as (_ & (c & Hc) & _). rewrite context_at_nat, Hc, Nat2Z.id in E. osimpl in E.
  apply outcome_bind_ok in E as (u & _ & E). destruct (epoll_ctl _ _ _ _) as [k|]; [|done].
  apply outcome_bind_ok in E as (v & _ & (ctx & Hctx & [= <-])%outcome_bind_ok).
  eexists. split; [cbn [m_fdContexts update]; apply list_lookup_insert_eq; by eapply lookup_lt_Some|].
  assert (ec_scheduler ctx = false) as Hn.
  { destruct cb as [cb|]; [by injection Hctx as <-|].
    apply outcome_bind_ok in Hctx as (w & _ & [= <-]). done. }
  clear Hctx Hc. unfold triggerEvent. destruct c as [rd wr i ev], event; cbn [setContext set_events events].
  all: rewrite has_set; simpl; by rewrite Hn.
Qed.


(** C7. What becomes of the handlers: [delEvent] and [cancelEvent] return true exactly
    when their event has a handler and the kernel accepts the change, [cancelAll] when
    the descriptor has a handler and the kernel lets it be deleted; otherwise nothing at
    all is changed. [delEvent] drops the handler of its event without running it;
    [cancelEvent] hands the handler of its event to the scheduler and [cancelAll] all
    those of the descriptor, each once; they are no longer registered, while the
    handlers of all other events and descriptors stay. *)
Theorem io_handlers {K : Type} `{Epoll K} (k : K) (st : IOManager (K := K)) (fd : nat) (event : Event) :
  io_reachable k st →
  (∃ r st', delEvent st (Z.of_nat fd) event = Ok (r, st') ∧
     r = registered st fd event && removable st fd event ∧ (r = false → st' = st) ∧
     scheduled st' = scheduled st ∧
     (r = true → handler_at st' fd event = [] ∧ others_kept st st' fd event)) ∧
  (∃ r st', cancelEvent st (Z.of_nat fd) event = Ok (r, st') ∧
     r = registered st fd event && removable st fd event ∧ (r = false → st' = st) ∧
     (r = true → scheduled st' = scheduled st ++ handler_at st fd event ∧ handler_at st' fd event = [] ∧
        others_kept st st' fd event)) ∧
  (∃ r st', cancelAll st (Z.of_nat fd) = Ok (r, st') ∧
     r = (registered st fd READ || registered st fd WRITE) &&
         bool_decide (is_Some (epoll_ctl (m_epoll st) EPOLL_CTL_DEL fd 0)) ∧
     (r = false → st' = st) ∧
     (r = true → scheduled st' = scheduled st ++ handler_at st fd READ ++ handler_at st fd WRITE ∧
        (∀ fd' e, handler_at st' fd' e = if decide (fd' = fd) then [] else handler_at st fd' e))) ∧
  length (handler_at st fd event) = if registered st fd event then 1%nat else 0%nat.
Proof.
  intros Hinv%io_reachable_inv. split_and!.
  - destruct (delEvent_spec st fd event Hinv) as (r & st' & -> & _ & Hr & Hf & Hs & Ht).
    exists r, st'. split_and!; try done. intros E. by destruct (Ht E) as (? & _ & ?).
  - destruct (cancelEvent_spec st fd event Hinv) as (r & st' & -> & _ & Hr & Hf & Ht).
    exists r, st'. split_and!; try done. intros E. by destruct (Ht E) as (? & ? & _ & ?).
  - destruct (cancelAll_spec st fd Hinv) as (r & st' & -> & _ & Hr & Hf & Ht).
    exists r, st'. split_and!; try done. intros E. destruct (Ht E) as ((c & Hc & Hs) & _ & Hh).
    unfold handler_at at 1 2. by rewrite Hc.
  - unfold handler_at, registered. destruct (m_fdContexts st !! fd) as [c|] eqn:Hc; [|done].
    pose proof (inv_ctx _ Hinv _ _ Hc) as Hok. destruct (has (events c) event) eqn:Hh.
    + by apply (handler_length fd).
    + by rewrite (proj1 (handler_empty fd c event Hok) Hh).
Qed.

(** C8. The idle loop hands over more than the kernel reported: when both
    events of a descriptor are registered and only input is reported, both
    handlers are run, while the kernel goes on watching the descriptor for output.
    Nothing is registered for it any more, so that the next [addEvent] tries to add
    it again, which the kernel refuses: no handler can be registered for the
    descriptor. *)
Theorem idle_runs_unreported {K : Type} `{EpollLaws K} (k k' : K) (st : IOManager (K := K)) (fd : nat) :
  io_reachable k st → registered st fd READ = true → registered st fd WRITE = true →
  epoll_ctl (m_epoll st) EPOLL_CTL_MOD fd (Z.lor EPOLLET (bit WRITE)) = Some k' →
  ∃ c st', m_fdContexts st !! fd = Some c ∧ handle_event st fd EPOLLIN = Ok st' ∧
    scheduled st' = scheduled st ++ handler c READ ++ handler c WRITE ∧
    handler c WRITE ≠ [] ∧
    interest (m_epoll st') fd = Some (Z.lor EPOLLET (bit WRITE)) ∧
    (∀ event, registered st' fd event = false) ∧
    (∀ event cb who, ∃ st'', addEvent st' (Z.of_nat fd) event cb who = Ok (-1, st'') ∧
       registered st'' fd event = false).
Proof.
  intros Hreach Hr Hw Hk. pose proof (io_reachable_inv _ _ Hreach) as Hinv.
  unfold registered in Hr, Hw. destruct (m_fdContexts st !! fd) as [c|] eqn:Hc; [|done].
  pose proof (inv_ctx _ Hinv _ _ Hc) as Hok.
  assert (events c = 5 ∧ fd_of c = fd) as [He Hfd].
  { destruct Hok as (r & w & He & _ & _ & Hfd). split; [|done]. rewrite He in *.
    by destruct r, w. }
  destruct (trigger_all fd c (m_pendingEventCount st) Hok) as (c' & E & Hok' & Hh & He').
  apply outcome_bind_ok in E as (x & Ex & E).
  set (st' := update st fd c' (if has (events c) WRITE
    then u64 ((if has (events c) READ then u64 (m_pendingEventCount st - 1)
               else m_pendingEventCount st) - 1)
    else if has (events c) READ then u64 (m_pendingEventCount st - 1)
    else m_pendingEventCount st) k' (handlers c)).
  assert (m_fdContexts st' !! fd = Some c') as Hc'
    by (simpl; apply list_lookup_insert_eq; by eapply lookup_lt_Some).
  assert (∀ event, has (events c') event = false) as Hnone by (intros []; by rewrite He').
  exists c, st'. split_and!; try done.
  - unfold handle_event. rewrite Hc. osimpl. rewrite Hfd, He. simpl Z.eqb. cbn iota zeta.
    change (Z.lor EPOLLET _) with (Z.lor EPOLLET (bit WRITE)). rewrite Hk. rewrite Ex. osimpl.
    rewrite E. osimpl. unfold st'. by rewrite He.
  - rewrite <-(handler_empty fd c WRITE Hok). by rewrite Hw.
  - by apply (ctl_mod _ _ _ _ Hk).
  - intros event. unfold registered. rewrite Hc'. apply Hnone.
  - intros event cb who. apply lookup_lt_Some in Hc' as Hlt. unfold addEvent.
    rewrite decide_True, context_at_nat, Hc', Nat2Z.id by lia. osimpl. rewrite Hnone. osimpl.
    rewrite He'. change (0 =? 0) with true. cbn iota.
    change (m_epoll (mkIO _ _ (m_epoll st') _)) with k'.
    destruct (epoll_ctl k' EPOLL_CTL_ADD _ _) as [k2|] eqn:Ek.
    + apply ctl_add in Ek as [Hno _]. rewrite (proj2 (ctl_mod _ _ _ _ Hk)) in Hno. done.
    + eexists. split; [done|]. unfold registered. cbn [m_fdContexts]. rewrite Hc'. apply Hnone.
Qed.

(** ** An epoll instance *)

(** An interest list as a table, which fails only where it has to. *)
#[local] Instance table_epoll : Epoll (gmap nat Z) := {
  epoll_ctl k op fd ev :=
    match op, k !! fd with
    | EPOLL_CTL_ADD, None | EPOLL_CTL_MOD, Some _ => Some (<[fd := ev]> k)
    | EPOLL_CTL_DEL, Some _ => Some (delete fd k)
    | _, _ => None
    end;
  interest k fd := k !! fd
}.

#[local] Instance table_laws : EpollLaws (gmap nat Z).
Proof.
  split; simpl.
  - intros k k' fd ev. case_match; [done|]. intros [= <-]. by rewrite lookup_insert_eq.
  - intros k k' fd ev. case_match; [|done]. intros [= <-]. by rewrite lookup_insert_eq.
  - intros k k' fd ev. case_match; [|done]. intros [= <-]. by rewrite lookup_delete_eq.
  - intros k k' op fd ev fd' E Hne.
    destruct op, (k !! fd); try done; injection E as <-;
      [by rewrite lookup_insert_ne|by rewrite lookup_insert_ne|by rewrite lookup_delete_ne].
Qed.

(** Descriptor 5 with a handler for input, and with handlers for both. *)
Definition io_read : IOManager (K := gmap nat Z) :=
  match addEvent (IOManager_new ∅) 5 READ (Some 7%nat) (running 0) with Ok (_, st) => st | _ => IOManager_new ∅ end.

Definition io_both : IOManager (K := gmap nat Z) :=
  match addEvent io_read 5 WRITE None (running 3) with Ok (_, st) => st | _ => IOManager_new ∅ end.

Lemma io_read_reachable : io_reachable (∅ : gmap nat Z) io_read.
Proof.
  eapply io_next; [apply io_start|]. apply (step_add _ 5 READ (Some 7%nat) (running 0) 0).
  - left. vm_compute. lia.
  - reflexivity.
  - vm_compute. reflexivity.
Qed.

Lemma io_both_reachable : io_reachable (∅ : gmap nat Z) io_both.
Proof.
  eapply io_next; [apply io_read_reachable|]. apply (step_add _ 5 WRITE None (running 3) 0).
  - left. vm_compute. lia.
  - reflexivity.
  - vm_compute. reflexivity.
Qed.


Lemma io_handlers_witness :
  ∃ st', cancelAll io_both 5 = Ok (true, st') ∧ scheduled st' = [TaskCb 7; TaskFiber 3] ∧
    handler_at st' 5 READ = [].
Proof.
  destruct (io_handlers ∅ io_both 5 READ io_both_reachable) as (_ & _ & (r & st' & E & Hr & _ & Ht) & _).
  assert (r = true) as -> by (rewrite Hr; vm_compute; reflexivity).
  exists st'. split; [exact E|]. destruct (Ht eq_refl) as [Hs Hh]. split; [|apply Hh].
  rewrite Hs. vm_compute. reflexivity.
Defined.

Lemma idle_runs_unreported_witness :
  ∃ st', handle_event io_both 5 EPOLLIN = Ok st' ∧
    ∃ st'', addEvent st' 5 READ None (running 0) = Ok (-1, st'').
Proof.
  destruct (idle_runs_unreported ∅ (<[5%nat := Z.lor EPOLLET (bit WRITE)]> (m_epoll io_both)) io_both 5)
    as (c & st' & _ & E & _ & _ & _ & _ & Hadd).
  - apply io_both_reachable.
  - vm_compute. reflexivity.
  - vm_compute. reflexivity.
  - vm_compute. reflexivity.
  - exists st'. split; [exact E|]. destruct (Hadd READ None (running 0)) as (st'' & Ha & _). by exists st''.
Defined.
