(* ===== verification/EventLoop.v ===== *)
(** The idle loop of the event manager (sylar/iomanager.cc): waiting for events and
    timers, the pipe that wakes a waiting thread, and what one turn hands to the
    scheduler. *)

From Stdlib Require Import ZArith Lia.
From stdpp Require Import base numbers gmap option strings tactics sets relations list list_numbers.
From S2P Require Import Prelude Fiber Scheduler SchedulerTheorems StdSet Timer IOManager.

Local Open Scope Z_scope.

(** What [epoll_wait] reports: the pipe, or a context with its events. *)
Inductive report : Type :=
| Tickled
| Ready (fd : nat) (revents : Z).

(** The loop that is left behind an interrupted [epoll_wait] runs again with the
    variable it has converted; the timeouts of [retries] interrupted waits and of the
    last one. *)
Definition next_wait (next_timeout : Z) : Z :=
  if next_timeout =? 2 ^ 64 - 1 then 3000 else u64 (Z.min (s32 next_timeout) 3000).

Fixpoint wait_timeouts (next_timeout : Z) (retries : nat) : list Z :=
  let next_timeout := next_wait next_timeout in
  s32 next_timeout :: match retries with O => [] | S retries => wait_timeouts next_timeout retries end.

Section loop.
Context {K : Type} `{Epoll K}.
(** The scheduler's name for the callback of a timer. *)
Context (cb_name : callback → nat).

(** [IOManager] with its two base classes and the bytes in the pipe. *)
Record Loop : Type := mkLoop {
  l_sched : Scheduler;
  l_timers : TimerManager;
  l_io : IOManager (K := K);
  l_pipe : nat
}.

(** [IOManager(thread_size, false)]: what the system calls return is asserted. *)
Definition Loop_new (thread_size : nat) (now epollfd pipe_rt fcntl_rt ctl_rt : Z) (k : K) : outcome Loop :=
  _ ← sylar_assert (bool_decide (0 < thread_size)%nat) "thread_size > 0";
  _ ← sylar_assert (0 <? epollfd) "m_epollfd > 0";
  _ ← sylar_assert (pipe_rt =? 0) "!rt";
  _ ← sylar_assert (fcntl_rt =? 0) "!rt";
  _ ← sylar_assert (ctl_rt =? 0) "!rt";
  st ← start Scheduler_new thread_size;
  mret (mkLoop st (TimerManager_new now) (IOManager_new k) 0).

(** [~IOManager], up to the joins of [stop]: the pipe is closed and the contexts are
    deleted. [this] is whether the calling thread is one of the pool's. *)
Definition Loop_destroy (this : bool) (l : Loop) : outcome Loop :=
  st ← stop false this (l_sched l);
  mret (mkLoop st (l_timers l) (mkIO (m_pendingEventCount (l_io l)) [] (m_epoll (l_io l)) (scheduled (l_io l))) 0).

(** [tickle]: a byte for the thread that waits, if one does. *)
Definition tickle (l : Loop) : Loop :=
  if bool_decide (0 < m_idleThreadCount (l_sched l))%nat
  then mkLoop (l_sched l) (l_timers l) (l_io l) (S (l_pipe l)) else l.

Definition onTimerInsertedAtFront (l : Loop) : Loop := tickle l.

(** [schedule(begin, end)] and, with one task, [schedule(fc)]. *)
Definition push (l : Loop) (fts : list FiberAndThread) : Loop :=
  let '(need_tickle, queue) := scheduleBatch (m_fibers (l_sched l)) fts in
  let l := mkLoop (set_queue (l_sched l) queue) (l_timers l) (l_io l) (l_pipe l) in
  if need_tickle then tickle l else l.

Definition timer_ft (cb : option callback) : FiberAndThread := mkFT None (cb_name <$> cb) None.

Definition task_ft (t : task) : FiberAndThread :=
  match t with TaskFiber f => mkFT (Some f) None None | TaskCb cb => mkFT None (Some cb) None end.

(** One reported event: the pipe is emptied, a context handled, its handlers
    scheduled one by one. *)
Definition handle_report (l : Loop) (r : report) : outcome Loop :=
  match r with
  | Tickled => mret (mkLoop (l_sched l) (l_timers l) (l_io l) 0)
  | Ready fd revents =>
    io ← handle_event (l_io l) fd revents;
    let tasks := drop (length (scheduled (l_io l))) (scheduled io) in
    mret (foldl (λ l t, push l [task_ft t]) (mkLoop (l_sched l) (l_timers l) io (l_pipe l)) tasks)
  end.

Fixpoint handle_reports (l : Loop) (rs : list report) : outcome Loop :=
  match rs with
  | [] => mret l
  | r :: rs => l ← handle_report l r; handle_reports l rs
  end.

(** One turn of [idle]: [None] when the loop is left; the clock is read for the wait
    and after it. *)
Definition idle_turn (l : Loop) (now later : Z) (addr : positive) (rs : list report) : outcome (option Loop) :=
  let '(timeout, tm) := getNextTimer (l_timers l) now in
  if io_stopping (l_io l) timeout (stopping (l_sched l)) then mret None else
  '(cbs, tm) ← listExpiredCb tm later addr;
  let l := push (mkLoop (l_sched l) tm (l_io l) (l_pipe l)) (timer_ft <$> cbs) in
  l ← handle_reports l rs;
  mret (Some l).

(** ** What a turn does *)

Definition runnable (ft : FiberAndThread) : Prop := ft_fiber ft ≠ None ∨ ft_cb ft ≠ None.

Lemma scheduleBatch_queue fts : ∀ q, (scheduleBatch q fts).2 = q ++ filter runnable fts.
Proof.
  induction fts as [|ft fts IH]; intros q; [by rewrite app_nil_r|].
  cbn [scheduleBatch scheduleNoLock]. specialize (IH (if bool_decide (ft_fiber ft ≠ None ∨ ft_cb ft ≠ None) then q ++ [ft] else q)).
  destruct (scheduleBatch _ fts) as [need q']. cbn [snd] in *. rewrite IH, filter_cons.
  unfold runnable. case_bool_decide; case_decide; try done. by rewrite <-(assoc_L (++)).
Qed.

Lemma push_spec l fts :
  m_fibers (l_sched (push l fts)) = m_fibers (l_sched l) ++ filter runnable fts ∧
  l_timers (push l fts) = l_timers l ∧ l_io (push l fts) = l_io l ∧ (l_pipe l ≤ l_pipe (push l fts))%nat.
Proof.
  unfold push. pose proof (scheduleBatch_queue fts (m_fibers (l_sched l))) as Hq.
  destruct (scheduleBatch _ fts) as [need q]. simpl in Hq. subst q. unfold tickle.
  destruct need; [case_bool_decide|]; simpl; split_and!; (done || lia).
Qed.

Lemma pushes_spec tasks : ∀ l,
  let l' := foldl (λ l t, push l [task_ft t]) l tasks in
  m_fibers (l_sched l') = m_fibers (l_sched l) ++ (task_ft <$> tasks) ∧
  l_timers l' = l_timers l ∧ l_io l' = l_io l.
Proof.
  induction tasks as [|t tasks IH]; intros l; simpl; [by rewrite app_nil_r|].
  destruct (push_spec l [task_ft t]) as (Hq & Ht & Hi & _). destruct (IH (push l [task_ft t])) as (-> & -> & ->).
  rewrite Hq, Ht, Hi. split_and!; try done. rewrite <-(assoc_L (++)). f_equal.
  rewrite filter_cons, decide_True by (destruct t; unfold runnable; simpl; auto). done.
Qed.

(** The reports of contexts that exist. *)
Definition report_ok (l : Loop) (r : report) : Prop :=
  match r with Tickled => True | Ready fd _ => (fd < length (m_fdContexts (l_io l)))%nat end.

Lemma handle_event_size (io io' : IOManager (K := K)) fd revents :
  handle_event io fd revents = Ok io' → length (m_fdContexts io') = length (m_fdContexts io).
Proof.
  unfold handle_event. intros (c & _ & E)%outcome_bind_ok. case_match; [by injection E as <-|].
  destruct (epoll_ctl _ _ _ _); [|by injection E as <-]. apply outcome_bind_ok in E as (x & _ & E).
  apply outcome_bind_ok in E as ([[c' pd] ts] & _ & [= <-]). simpl. by rewrite length_insert.
Qed.

Lemma handle_reports_spec rs : ∀ l,
  io_inv (l_io l) → Forall (report_ok l) rs →
  ∃ l' tasks, handle_reports l rs = Ok l' ∧ io_inv (l_io l') ∧ l_timers l' = l_timers l ∧
    scheduled (l_io l') = scheduled (l_io l) ++ tasks ∧
    m_fibers (l_sched l') = m_fibers (l_sched l) ++ (task_ft <$> tasks) ∧
    (Forall (λ r, r = Tickled) rs → tasks = []).
Proof.
  induction rs as [|r rs IH]; intros l Hio Hok; [exists l, []; rewrite !app_nil_r; by split_and!|].
  inversion Hok as [|? ? Hr Hrs]; subst. cbn [handle_reports]. destruct r as [|fd revents]; simpl.
  - destruct (IH (mkLoop (l_sched l) (l_timers l) (l_io l) 0) Hio Hrs) as (l' & tasks & E & ? & ? & ? & ? & Hn).
    osimpl. exists l', tasks. split_and!; try done. intros Ht. apply Hn. by inversion Ht.
  - destruct (handle_event_spec (l_io l) fd revents Hio Hr) as (io & E & Hio' & Hcase). rewrite E. osimpl.
    assert (∃ ts, scheduled io = scheduled (l_io l) ++ ts) as [ts Hts].
    { destruct Hcase as [->|(c & _ & Hs & _)]; [exists []; by rewrite app_nil_r|eauto]. }
    rewrite Hts, drop_app_length.
    destruct (pushes_spec ts (mkLoop (l_sched l) (l_timers l) io (l_pipe l))) as (Hq & Htm & Hi).
    set (l1 := foldl _ _ ts) in *. simpl in Hq, Htm, Hi.
    destruct (IH l1) as (l' & tasks & E' & Hio2 & Htm2 & Hs2 & Hq2 & _).
    { by rewrite Hi. }
    { eapply Forall_impl; [exact Hrs|]. intros [|f rv]; [done|]. simpl. rewrite Hi. by rewrite (handle_event_size _ _ _ _ E). }
    exists l', (ts ++ tasks). rewrite E', Htm2, Htm, Hs2, Hi, Hts, Hq2, Hq, fmap_app, !(assoc_L (++)).
    split_and!; try done. intros Hall. by inversion Hall.
Qed.

End loop.

(** One turn of the idle loop, for any time and any reports of existing descriptors:
    it leaves the loop exactly when no timer is to be waited for, no event is pending
    and the scheduler is stopping. Otherwise it queues the callbacks of exactly the timers
    that have expired, in the order of their deadlines, and behind them, each once,
    the handlers it takes from the contexts; a turn in which only the pipe was
    reported queues nothing else. *)
Theorem idle_turn_exact {K : Type} `{Epoll K} (cb_name : callback → nat) (k : K) (l : Loop (K := K))
    (now later : Z) (addr : positive) (rs : list report) :
  reachable (l_timers l) → io_reachable k (l_io l) → Forall (report_ok l) rs →
  if ((getNextTimer (l_timers l) now).1 =? 2 ^ 64 - 1) && (m_pendingEventCount (l_io l) =? 0) && stopping (l_sched l)
  then idle_turn cb_name l now later addr rs = Ok None
  else ∃ l' tasks, idle_turn cb_name l now later addr rs = Ok (Some l') ∧
    m_fibers (l_sched l') = m_fibers (l_sched l) ++
      filter runnable (timer_ft cb_name ∘ cb_of (m_heap (l_timers l)) <$> fires (l_timers l) later) ++
      (task_ft <$> tasks) ∧
    fired_state (l_timers l) (fires (l_timers l) later) later (l_timers l') ∧
    scheduled (l_io l') = scheduled (l_io l) ++ tasks ∧
    m_pendingEventCount (l_io l') = u64 (Z.of_nat (count (m_fdContexts (l_io l')))) ∧
    (Forall (λ r, r = Tickled) rs → tasks = []).
Proof.
  intros Htm%reachable_inv Hio%io_reachable_inv Hrs. unfold idle_turn.
  set (tm1 := (getNextTimer (l_timers l) now).2). 
  assert (tm_inv tm1) as Htm1 by (eapply tstep_inv; [exact Htm|apply tstep_next]).
  destruct (getNextTimer_state (l_timers l) now) as [Hh Ht]. fold tm1 in Hh, Ht.
  assert (m_previousTime tm1 = m_previousTime (l_timers l)) as Hprev.
  { unfold tm1, getNextTimer. simpl. by destruct (m_timers (l_timers l)). }
  assert (fires tm1 later = fires (l_timers l) later) as Hfires.
  { unfold fires, detectedClockRollover. by rewrite Hh, Ht, Hprev. }
  rewrite (surjective_pairing (getNextTimer (l_timers l) now)). fold tm1. unfold io_stopping.
  destruct (_ && _ && stopping (l_sched l)); [done|].
  destruct (listExpiredCb_spec tm1 later addr Htm1) as (tm2 & E & _ & Hf). rewrite E. osimpl.
  rewrite Hfires in Hf |- *. rewrite Hh.
  set (l0 := mkLoop (l_sched l) tm2 (l_io l) (l_pipe l)).
  destruct (push_spec l0 (timer_ft cb_name <$> (cb_of (m_heap (l_timers l)) <$> fires (l_timers l) later))) as (Hq & Htm2 & Hi & _).
  set (l1 := push l0 _) in *.
  destruct (handle_reports_spec rs l1) as (l' & tasks & E' & Hio' & Htm' & Hs & Hq' & Hn).
  { by rewrite Hi. }
  { eapply Forall_impl; [exact Hrs|]. intros [|fd rv]; [done|]. simpl. by rewrite Hi. }
  rewrite E'. osimpl. exists l', tasks. rewrite Htm', Htm2, Hq', Hq, Hs, Hi, <-list_fmap_compose, <-(assoc_L (++)).
  split_and!; try done; [|by apply (inv_pending _ Hio')].
  destruct Hf as [Hf1 Hf2]. split; intros t; change (l_timers l0) with tm2.
  - rewrite (Hf1 t). by rewrite Hh.
  - rewrite (Hf2 t). by rewrite Ht, Hh.
Qed.

(** ** The wait *)

Lemma wait_timeouts_const w : next_wait w = w → ∀ retries, Forall (λ x, x = s32 w) (wait_timeouts w retries).
Proof.
  intros E retries. induction retries as [|n IH]; cbn [wait_timeouts]; rewrite E; constructor; done.
Qed.

Lemma wait_timeouts_next t w retries :
  next_wait t = w → next_wait w = w → Forall (λ x, x = s32 w) (wait_timeouts t retries).
Proof.
  intros Et Ew. destruct retries; cbn [wait_timeouts]; rewrite Et; constructor; try done.
  by apply wait_timeouts_const.
Qed.

Lemma s32_u64 z : s32 (u64 z) = s32 z.
Proof.
  rewrite <-(swrap_uwrap 32 (u64 z)), <-(swrap_uwrap 32 z). f_equal. unfold uwrap.
  apply Z.mod_mod_divide. by exists (2 ^ 32).
Qed.

(** How long the idle loop waits, also after interruptions: three seconds at most,
    and not longer than to the next timer, if that is less than 2^31 ms ahead; from
    there to 2^32 ms the conversion to [int] gives a negative number, which waits
    without limit. *)
Theorem wait_bounded (t : Z) (retries : nat) :
  0 <= t < 2 ^ 64 →
  (t = 2 ^ 64 - 1 → Forall (λ w, w = 3000) (wait_timeouts t retries)) ∧
  (t < 2 ^ 31 → Forall (λ w, w = Z.min t 3000) (wait_timeouts t retries)) ∧
  (2 ^ 31 <= t < 2 ^ 32 → ∃ w ws, wait_timeouts t retries = w :: ws ∧ w < 0).
Proof.
  intros Ht.
  assert (∀ w, 0 <= w <= 3000 → next_wait w = w ∧ s32 w = w) as Hsmall.
  { intros w Hw. unfold next_wait. rewrite (swrap_small 32) by (unfold in_signed; lia).
    destruct (Z.eqb_spec w (2 ^ 64 - 1)); [lia|]. rewrite Z.min_l by lia. rewrite uwrap_small by (unfold in_unsigned; lia). done. }
  split_and!.
  - intros ->. destruct (Hsmall 3000) as [H1 H2]; [lia|].
    eapply Forall_impl; [by apply (wait_timeouts_next _ 3000)|by intros x ->].
  - intros Hlt. destruct (Hsmall (Z.min t 3000)) as [H1 H2]; [lia|].
    eapply Forall_impl; [apply (wait_timeouts_next t (Z.min t 3000)); [|done]|by intros x ->].
    unfold next_wait. destruct (Z.eqb_spec t (2 ^ 64 - 1)); [lia|]. rewrite (swrap_small 32) by (unfold in_signed; lia).
    apply uwrap_small. unfold in_unsigned. lia.
  - intros Hlt. assert (s32 (next_wait t) = t - 2 ^ 32) as E.
    { assert (s32 t = t - 2 ^ 32) as Es.
      { unfold swrap. rewrite Z.mod_small by lia. destruct (Z.ltb_spec t (2 ^ (32 - 1))); [lia|done]. }
      unfold next_wait. destruct (Z.eqb_spec t (2 ^ 64 - 1)); [lia|]. rewrite Es, Z.min_l by lia.
      by rewrite s32_u64, swrap_small by (unfold in_signed; lia). }
    destruct retries; cbn [wait_timeouts]; rewrite E; eexists _, _; split; try reflexivity; lia.
Qed.

(** ** Wake-ups *)

(** [schedule] from another thread, with its wake-up. *)
Definition schedule_from {K : Type} (l : Loop (K := K)) (ft : FiberAndThread) : Loop := push l [ft].

(** A wake-up that is not sent: a thread that has found the queue empty is not yet
    counted as idle; a task that is queued then sends no byte through the pipe, if no
    other thread is idle, and the thread goes on to wait with the task in the queue. *)
Theorem wakeup_missed {K : Type} (tid : nat) (l : Loop (K := K)) (t : thread) (ft : FiberAndThread) :
  m_idleThreadCount (l_sched l) = 0%nat →
  threads (l_sched l) !! tid = Some t → t_pc t = Fetched ft_empty false false →
  state_of (fibers (l_sched l)) (idle_fiber t) = INIT ∨ state_of (fibers (l_sched l)) (idle_fiber t) = HOLD →
  runnable ft →
  let l' := schedule_from l ft in
  l_pipe l' = l_pipe l ∧ ft ∈ m_fibers (l_sched l') ∧
  ∃ st, run_step (l_sched l') tid DoYieldToHold = Ok st ∧ ft ∈ m_fibers st ∧
    t_pc <$> threads st !! tid = Some (Running Idle (idle_fiber t)).
Proof.
  intros Hidle Ht Hpc Hst Hrun l'.
  assert (m_fibers (l_sched l') = m_fibers (l_sched l) ++ [ft]) as Hq.
  { destruct (push_spec l [ft]) as [Hq _]. unfold l', schedule_from. rewrite Hq, filter_cons, decide_True by done. done. }
  assert (l_pipe l' = l_pipe l ∧ l_sched l' = set_queue (l_sched l) (m_fibers (l_sched l) ++ [ft])) as [Hp Hs].
  { unfold l', schedule_from, push in *. destruct (scheduleBatch _ _) as [need q]. unfold tickle in *. simpl in *.
    rewrite Hidle in *. destruct need; simpl in *; by rewrite <-Hq. }
  split_and!; [done|rewrite Hq; set_solver|]. rewrite Hs. unfold run_step. simpl. rewrite Ht. osimpl. rewrite Hpc.
  unfold step_fetched, step_no_task. simpl. rewrite bool_decide_false by (destruct Hst as [-> | ->]; done).
  unfold enter. simpl. unfold state_of in Hst. destruct (fibers (l_sched l) !! idle_fiber t) as [fb|] eqn:Hf; [|by destruct Hst].
  osimpl. unfold swapIn. destruct Hst as [Hst|Hst]; rewrite Hst; osimpl; eexists; (split; [reflexivity|]); simpl;
    (split; [set_solver|]); rewrite list_lookup_insert_eq by (by eapply lookup_lt_Some); done.
Qed.

(** ** A loop with two timers and a handler *)

Module OneLoop.

#[local] Existing Instance table_epoll.

Definition small : Loop (K := gmap nat Z) := mkLoop (start_threads Scheduler_new 1) two_timers io_read 0.

(** Its thread has just found the queue empty. *)
Definition found_none : Loop (K := gmap nat Z) :=
  match run_step (start_threads Scheduler_new 1) 0 DoYieldToHold with
  | Ok st => mkLoop st two_timers io_read 0
  | _ => small
  end.

Lemma found_none_reachable : runs_from false 1 (l_sched found_none).
Proof.
  eexists. split; [reflexivity|]. apply rtc_once. apply (by_thread _ _ 0 DoYieldToHold); [by intros ? ? ? _ _|vm_compute; reflexivity].
Qed.

End OneLoop.

Import OneLoop.
#[local] Existing Instance table_epoll.

Lemma idle_turn_exact_witness :
  ∃ l' tasks, idle_turn (λ c, match c with Plain n => n | onTimer_bound _ n => n end) small 0 4 7
      [Tickled; Ready 5 1] = Ok (Some l') ∧
    m_fibers (l_sched l') = [mkFT None (Some 20%nat) None] ++ (task_ft <$> tasks).
Proof.
  destruct (idle_turn_exact (λ c, match c with Plain n => n | onTimer_bound _ n => n end) ∅ small 0 4 7
    [Tickled; Ready 5 1]) as (l' & tasks & E & Hq & _).
  - exact two_timers_reachable.
  - exact io_read_reachable.
  - repeat constructor.
  - exists l', tasks. split; [exact E|exact Hq].
Defined.

Lemma wait_bounded_witness : Forall (λ w, w = 3000) (wait_timeouts 100000 2).
Proof. apply (wait_bounded 100000 2); lia. Defined.

Lemma wakeup_missed_witness :
  runs_from false 1 (l_sched found_none) ∧
  l_pipe (schedule_from found_none (mkFT None (Some 9%nat) None)) = 0%nat ∧
  mkFT None (Some 9%nat) None ∈ m_fibers (l_sched (schedule_from found_none (mkFT None (Some 9%nat) None))).
Proof.
  split; [exact found_none_reachable|].
  destruct (wakeup_missed 0 found_none (mkThread (Fetched ft_empty false false) 0 None) (mkFT None (Some 9%nat) None))
    as (Hp & Hq & _).
  - reflexivity.
  - reflexivity.
  - reflexivity.
  - left. reflexivity.
  - right. discriminate.
  - split; [exact Hp|exact Hq].
Defined.
