(* ===== verification/EventTable.v ===== *)
(** The table of contexts as threads see it (sylar/iomanager.cc): contexts are
    allocated objects, a call finds its context in one critical section, allocates
    it in a second one if need be, and works on it in a third. Descriptors are not
    negative here (see IOManager for those). *)

From Stdlib Require Import ZArith Lia.
From stdpp Require Import base numbers gmap option strings tactics sets relations list list_numbers.
From S2P Require Import Prelude IOManager.

Local Open Scope Z_scope.

(** A call of the manager. *)
Inductive call : Type :=
| AddCall (event : Event) (cb : option nat) (who : CallerThread)
| DelCall (event : Event)
| CancelCall (event : Event)
| CancelAllCall.

(** Before the section with the read lock, before the one with the write lock,
    before the one of the context, and returned. *)
Inductive stage : Type :=
| Looking
| Growing
| At (p : nat)
| Returned (r : Z).

Record pcall : Type := mkCall { pc_fd : nat; pc_call : call; pc_stage : stage }.

(** The outcome monad with its assertions. *)
Ltac asimpl := cbn [mbind mret outcome_bind outcome_ret deref sylar_assert negb].

Section table.
Context {K : Type} `{Epoll K}.

(** The manager with pointers: [p_slots] is [m_fdContexts], [p_heap] the objects. *)
Record pio : Type := mkPio {
  p_pending : Z;
  p_heap : list FdContext;
  p_slots : list nat;
  p_epoll : K;
  p_sched : list task
}.

(** [contextResize]: the vector is cut or filled with new objects. *)
Definition resize (st : pio) (size : nat) : pio :=
  let n := length (p_slots st) in
  mkPio (p_pending st) (p_heap st ++ (FdContext_new <$> seq n (size - n)))
    (take size (p_slots st) ++ seq (length (p_heap st)) (size - n)) (p_epoll st) (p_sched st).

Definition pio_new (k : K) : pio := resize (mkPio 0 [] [] k []) 32.

(** The section with the read lock. *)
Definition look (st : pio) (fd : nat) (c : call) : stage :=
  match p_slots st !! fd with
  | Some p => At p
  | None => match c with AddCall _ _ _ => Growing | _ => Returned 0 end
  end.

(** The section with the write lock of [addEvent]. *)
Definition grow (st : pio) (fd : nat) : outcome (stage * pio) :=
  let st := resize st (fd * 3 / 2) in
  p ← deref (p_slots st !! fd);
  mret (At p, st).

(** What a section of a context leaves: the context, the pending events, the
    interest list and the tasks; [None] when nothing was changed. *)
Definition section : Type := Z * option (FdContext * Z * K * list task).

Definition add_section (fd : nat) (event : Event) (cb : option nat) (who : CallerThread)
    (c : FdContext) (pending : Z) (k : K) : outcome section :=
  _ ← sylar_assert (negb (has (events c) event)) "!(fd_context->events & event)";
  let op := if events c =? 0 then EPOLL_CTL_ADD else EPOLL_CTL_MOD in
  match epoll_ctl k op fd (Z.lor (Z.lor EPOLLET (events c)) (bit event)) with
  | None => mret (-1, None)
  | Some k =>
    let c := set_events c (Z.lor (events c) (bit event)) in
    let ctx := getContext c event in
    _ ← sylar_assert (negb (ec_scheduler ctx) && bool_decide (ec_fiber ctx = None) &&
                      bool_decide (ec_cb ctx = None)) "!scheduler && !fiber && !cb";
    ctx ← match cb with
          | Some cb => mret (mkEC (t_scheduler who) None (Some cb))
          | None =>
            _ ← sylar_assert (t_exec who) "event_ctx.fiber->getState() == Fiber::EXEC";
            mret (mkEC (t_scheduler who) (Some (t_fiber who)) None)
          end;
    mret (0, Some (setContext c event ctx, pending + 1, k, []))
  end.

(** [delEvent] and [cancelEvent] up to the context. *)
Definition remove_section (fd : nat) (event : Event) (c : FdContext) (k : K)
    (done : Z → K → outcome section) : outcome section :=
  if negb (has (events c) event) then mret (0, None) else
  let new_events := Z.land (events c) (Z.lnot (bit event)) in
  let op := if new_events =? 0 then EPOLL_CTL_DEL else EPOLL_CTL_MOD in
  match epoll_ctl k op fd (Z.lor EPOLLET new_events) with
  | None => mret (0, None)
  | Some k => done new_events k
  end.

Definition del_section (fd : nat) (event : Event) (c : FdContext) (pending : Z) (k : K) : outcome section :=
  remove_section fd event c k (λ new_events k,
    mret (1, Some (resetContext (set_events c new_events) event, pending - 1, k, []))).

Definition cancel_section (fd : nat) (event : Event) (c : FdContext) (pending : Z) (k : K) : outcome section :=
  remove_section fd event c k (λ _ k,
    '(tasks, c) ← triggerEvent c event; mret (1, Some (c, pending - 1, k, tasks))).

Definition all_section (fd : nat) (c : FdContext) (pending : Z) (k : K) : outcome section :=
  if events c =? 0 then mret (0, None) else
  match epoll_ctl k EPOLL_CTL_DEL fd 0 with
  | None => mret (0, None)
  | Some k =>
    x ← trigger_if READ (c, pending, []);
    '(c, pending, tasks) ← trigger_if WRITE x;
    _ ← sylar_assert (events c =? 0) "fd_ctx->events == 0";
    mret (1, Some (c, pending, k, tasks))
  end.

Definition section_of (fd : nat) (c : call) : FdContext → Z → K → outcome section :=
  match c with
  | AddCall event cb who => add_section fd event cb who
  | DelCall event => del_section fd event
  | CancelCall event => cancel_section fd event
  | CancelAllCall => all_section fd
  end.

Definition store (st : pio) (p : nat) (s : section) : pio :=
  match s.2 with
  | None => st
  | Some (c, pending, k, tasks) =>
    mkPio (u64 pending) (<[p := c]> (p_heap st)) (p_slots st) k (p_sched st ++ tasks)
  end.

(** The section of the context [p]. *)
Definition act (st : pio) (fd : nat) (c : call) (p : nat) : outcome (Z * pio) :=
  ctx ← deref (p_heap st !! p);
  s ← section_of fd c ctx (p_pending st) (p_epoll st);
  mret (s.1, store st p s).

(** A reported event in [idle], with the pointer the kernel was given. *)
Definition event_section (revents : Z) (c : FdContext) (pending : Z) (k : K) : outcome section :=
  let revents := if Z.land revents (Z.lor EPOLLERR EPOLLHUP) =? 0 then revents
                 else Z.lor revents (Z.land (Z.lor EPOLLIN EPOLLOUT) (events c)) in
  let real_events := Z.lor (if Z.land revents EPOLLIN =? 0 then 0 else bit READ)
                       (if Z.land revents EPOLLOUT =? 0 then 0 else bit WRITE) in
  if Z.land (events c) real_events =? 0 then mret (0, None) else
  let left_events := Z.land (events c) (Z.lnot real_events) in
  let op := if left_events =? 0 then EPOLL_CTL_DEL else EPOLL_CTL_MOD in
  match epoll_ctl k op (fd_of c) (Z.lor EPOLLET left_events) with
  | None => mret (0, None)
  | Some k =>
    x ← trigger_if READ (c, pending, []);
    '(c, pending, tasks) ← trigger_if WRITE x;
    mret (0, Some (c, pending, k, tasks))
  end.

Definition act_event (st : pio) (p : nat) (revents : Z) : outcome pio :=
  ctx ← deref (p_heap st !! p);
  s ← event_section revents ctx (p_pending st) (p_epoll st);
  mret (store st p s).

(** ** Steps *)

Definition move (cs : list pcall) (i : nat) (s : stage) : list pcall :=
  alter (λ x, mkCall (pc_fd x) (pc_call x) s) i cs.

(** A handler is registered by a thread that has a scheduler. *)
Definition in_scheduler (c : call) : bool :=
  match c with AddCall _ _ who => t_scheduler who | _ => true end.

(** Any number of calls at once; with [careful], a section that allocates never
    cuts the table. *)
Inductive pstep (careful : bool) : pio * list pcall → pio * list pcall → Prop :=
| p_begin st cs fd c : in_scheduler c = true → pstep careful (st, cs) (st, cs ++ [mkCall fd c Looking])
| p_look st cs i fd c :
    cs !! i = Some (mkCall fd c Looking) → pstep careful (st, cs) (st, move cs i (look st fd c))
| p_grow st cs i fd c s st' :
    cs !! i = Some (mkCall fd c Growing) → grow st fd = Ok (s, st') →
    (careful = true → (length (p_slots st) ≤ fd * 3 / 2)%nat) → pstep careful (st, cs) (st', move cs i s)
| p_act st cs i fd c p r st' :
    cs !! i = Some (mkCall fd c (At p)) → act st fd c p = Ok (r, st') →
    pstep careful (st, cs) (st', move cs i (Returned r))
| p_event st cs p revents st' : act_event st p revents = Ok st' → pstep careful (st, cs) (st', cs).

(** ** The table as a value *)

Definition ctx_at (h : list FdContext) (p : nat) : FdContext := default (FdContext_new 0) (h !! p).

Definition abs (st : pio) : IOManager (K := K) :=
  mkIO (p_pending st) (ctx_at (p_heap st) <$> p_slots st) (p_epoll st) (p_sched st).

(** The same call as one step. *)
Definition whole_call (st : IOManager (K := K)) (fd : nat) (c : call) : outcome (Z * IOManager (K := K)) :=
  match c with
  | AddCall event cb who => addEvent st (Z.of_nat fd) event cb who
  | DelCall event => '(b, st) ← delEvent st (Z.of_nat fd) event; mret (Z.b2z b, st)
  | CancelCall event => '(b, st) ← cancelEvent st (Z.of_nat fd) event; mret (Z.b2z b, st)
  | CancelAllCall => '(b, st) ← cancelAll st (Z.of_nat fd); mret (Z.b2z b, st)
  end.

(** Each slot has an object of its own. *)
Definition slots_ok (st : pio) : Prop := NoDup (p_slots st) ∧ Forall (λ p, p < length (p_heap st))%nat (p_slots st).

Lemma abs_lookup st fd p :
  slots_ok st → p_slots st !! fd = Some p →
  ∃ c, p_heap st !! p = Some c ∧ m_fdContexts (abs st) !! fd = Some c ∧ (fd < length (p_slots st))%nat.
Proof.
  intros [_ Hf] Hp. destruct (lookup_lt_is_Some_2 (p_heap st) p) as [c Hc]; [by apply (Forall_lookup_1 _ _ _ _ Hf Hp)|].
  exists c. split_and!; [done| |by eapply lookup_lt_Some]. simpl. rewrite list_lookup_fmap, Hp. simpl. unfold ctx_at. by rewrite Hc.
Qed.

(** Storing an object is replacing the entry of its slot. *)
Lemma abs_store st fd p r c pending k tasks :
  slots_ok st → p_slots st !! fd = Some p →
  abs (store st p (r, Some (c, pending, k, tasks))) = update (abs st) fd c pending k tasks.
Proof.
  intros [Hnd Hf] Hp. unfold update, abs, store. simpl. f_equal. apply list_eq. intros i.
  rewrite list_lookup_fmap. destruct (decide (i = fd)) as [->|Hne].
  - rewrite list_lookup_insert_eq by (rewrite length_fmap; by eapply lookup_lt_Some). rewrite Hp. simpl. f_equal. unfold ctx_at.
    by rewrite list_lookup_insert_eq by apply (Forall_lookup_1 _ _ _ _ Hf Hp).
  - rewrite list_lookup_insert_ne by done. rewrite list_lookup_fmap.
    destruct (p_slots st !! i) as [q|] eqn:Hq; [|done]. simpl. f_equal. unfold ctx_at.
    rewrite list_lookup_insert_ne; [done|]. intros ->. apply Hne. by eapply NoDup_lookup.
Qed.

Lemma mkIO_eta (st : IOManager (K := K)) :
  mkIO (m_pendingEventCount st) (m_fdContexts st) (m_epoll st) (scheduled st) = st.
Proof. by destruct st. Qed.

(** The section of a call that holds the pointer of its slot is the whole call. *)
Lemma act_whole st fd c p :
  slots_ok st → p_slots st !! fd = Some p →
  ('(r, st') ← act st fd c p; mret (r, abs st')) = whole_call (abs st) fd c.
Proof.
  intros Hok Hp. destruct (abs_lookup st fd p Hok Hp) as (ctx & Hh & Hc & Hlt).
  assert (fd < length (m_fdContexts (abs st)))%nat as Hlt' by (simpl; by rewrite length_fmap).
  pose proof (abs_store st fd p) as Hst. unfold act. rewrite Hh. asimpl. destruct c as [event cb who|event|event|]; simpl.
  - unfold addEvent, add_section. rewrite decide_True by lia. rewrite mkIO_eta, context_at_nat, Nat2Z.id, Hc. asimpl.
    destruct (has (events ctx) event); asimpl; [done|].
    change (m_epoll (abs st)) with (p_epoll st). destruct (epoll_ctl _ _ _ _) as [k|]; asimpl; [|done].
    destruct (_ && _ && _); asimpl; [|done]. destruct cb; asimpl; [by rewrite Hst|].
    destruct (t_exec who); asimpl; [by rewrite Hst|done].
  - unfold delEvent, del_section, remove_interest, remove_section. rewrite decide_False by lia. rewrite context_at_nat, Nat2Z.id, Hc. asimpl.
    destruct (has (events ctx) event); asimpl; [|done].
    change (m_epoll (abs st)) with (p_epoll st). destruct (epoll_ctl _ _ _ _) as [k|]; asimpl; [|done]. by rewrite Hst.
  - unfold cancelEvent, cancel_section, remove_interest, remove_section. rewrite decide_False by lia. rewrite context_at_nat, Nat2Z.id, Hc. asimpl.
    destruct (has (events ctx) event); asimpl; [|done].
    change (m_epoll (abs st)) with (p_epoll st). destruct (epoll_ctl _ _ _ _) as [k|]; asimpl; [|done].
    destruct (triggerEvent ctx event) as [[tasks c']| |]; asimpl; [by rewrite Hst|done|done].
  - unfold cancelAll, all_section. rewrite decide_False by lia. rewrite context_at_nat, Nat2Z.id, Hc. asimpl.
    destruct (events ctx =? 0); asimpl; [done|].
    change (m_epoll (abs st)) with (p_epoll st). destruct (epoll_ctl _ _ _ _) as [k|]; asimpl; [|done].
    change (m_pendingEventCount (abs st)) with (p_pending st).
    destruct (trigger_if READ _) as [x| |]; asimpl; [|done..].
    destruct (trigger_if WRITE x) as [[[c' pd] tasks]| |]; asimpl; [|done..].
    destruct (events c' =? 0); asimpl; [by rewrite Hst|done].
Qed.

Lemma act_event_whole st fd p revents :
  slots_ok st → p_slots st !! fd = Some p →
  (st' ← act_event st p revents; mret (abs st')) = handle_event (abs st) fd revents.
Proof.
  intros Hok Hp. destruct (abs_lookup st fd p Hok Hp) as (ctx & Hh & Hc & _).
  unfold act_event, handle_event, event_section. rewrite Hh, Hc. asimpl.
  change (m_epoll (abs st)) with (p_epoll st). change (m_pendingEventCount (abs st)) with (p_pending st).
  destruct (Z.land (events ctx) _ =? 0); asimpl; [done|].
  destruct (epoll_ctl _ _ _ _) as [k|]; asimpl; [|done].
  destruct (trigger_if READ _) as [x| |]; asimpl; [|done..].
  destruct (trigger_if WRITE x) as [[[c' pd] tasks]| |]; asimpl; [|done..].
  by rewrite (abs_store st fd p).
Qed.

(** ** Careful growth *)

(** The objects fill the slots in order, and every call in flight holds the object
    of its descriptor. *)
Record p_inv (x : pio * list pcall) : Prop := {
  pi_slots : p_slots x.1 = seq 0 (length (p_heap x.1));
  pi_size : (32 ≤ length (p_slots x.1))%nat;
  pi_io : io_inv (abs x.1);
  pi_calls i fd c s : x.2 !! i = Some (mkCall fd c s) →
    match s with At p => p_slots x.1 !! fd = Some p | Growing => (32 ≤ fd)%nat | _ => True end;
  pi_threads i fd c s : x.2 !! i = Some (mkCall fd c s) → in_scheduler c = true
}.

Lemma slots_fine st : p_slots st = seq 0 (length (p_heap st)) → slots_ok st.
Proof.
  intros E. unfold slots_ok. rewrite E. split; [apply NoDup_ListNoDup, seq_NoDup|]. apply Forall_seq. lia.
Qed.

Lemma move_calls cs i s j fd c s' :
  move cs i s !! j = Some (mkCall fd c s') →
  (j ≠ i ∧ cs !! j = Some (mkCall fd c s')) ∨
  (j = i ∧ s' = s ∧ ∃ s0, cs !! i = Some (mkCall fd c s0)).
Proof.
  unfold move. destruct (decide (j = i)) as [->|Hne].
  - rewrite list_lookup_alter_eq. intros ([f0 c0 s0] & Hx & [= -> -> ->])%fmap_Some. right. eauto.
  - rewrite list_lookup_alter_ne by done. auto.
Qed.

Lemma move_threads cs i s :
  (∀ j fd c s', cs !! j = Some (mkCall fd c s') → in_scheduler c = true) →
  ∀ j fd c s', move cs i s !! j = Some (mkCall fd c s') → in_scheduler c = true.
Proof. intros Hth j fd c s' [[_ Hj]|(_ & _ & s0 & Hj)]%move_calls; eauto. Qed.

(** Growing without cutting. *)
Lemma resize_grows st size :
  p_slots st = seq 0 (length (p_heap st)) → (length (p_slots st) ≤ size)%nat →
  p_slots (resize st size) = seq 0 (length (p_heap (resize st size))) ∧
  length (p_slots (resize st size)) = size ∧
  (∀ fd p, p_slots st !! fd = Some p → p_slots (resize st size) !! fd = Some p) ∧
  abs (resize st size) =
    mkIO (p_pending st) (contextResize (m_fdContexts (abs st)) size) (p_epoll st) (p_sched st).
Proof.
  intros E Hle. unfold resize. simpl. rewrite E in *. rewrite length_seq in *. rewrite take_ge by (rewrite length_seq; lia).
  set (h := p_heap st) in *. rewrite length_app, length_fmap, !length_seq. split_and!.
  - by rewrite <-seq_app.
  - rewrite length_app, !length_seq. lia.
  - intros fd p Hp. by apply lookup_app_l_Some.
  - unfold abs. simpl. f_equal. unfold contextResize. fold h. rewrite length_fmap, length_seq, take_ge by (rewrite length_fmap, length_seq; lia).
    rewrite fmap_app. f_equal.
    + apply list_fmap_ext. intros i p [-> Hlt]%lookup_seq. unfold ctx_at. by rewrite lookup_app_l.
    + apply list_eq. intros i. rewrite !list_lookup_fmap. destruct (decide (i < size - length h)%nat) as [Hi|Hi].
      * rewrite !lookup_seq_lt by done. simpl. f_equal. unfold ctx_at. rewrite lookup_app_r by lia.
        rewrite list_lookup_fmap, lookup_seq_lt by lia. simpl. do 2 f_equal. lia.
      * rewrite !lookup_seq_ge by lia. done.
Qed.

Lemma store_slots st p s : p_slots (store st p s) = p_slots st ∧ length (p_heap (store st p s)) = length (p_heap st).
Proof. unfold store. destruct (s.2) as [[[[c pd] k] ts]|]; simpl; [|done]. by rewrite length_insert. Qed.

Lemma act_slots st fd c p r st' :
  act st fd c p = Ok (r, st') → p_slots st' = p_slots st ∧ length (p_heap st') = length (p_heap st).
Proof. unfold act. intros (ctx & _ & (s & _ & [= _ <-])%outcome_bind_ok)%outcome_bind_ok. apply store_slots. Qed.

Lemma whole_step st fd c r st' :
  (fd < length (m_fdContexts st))%nat → in_scheduler c = true → whole_call st fd c = Ok (r, st') → io_step st st'.
Proof.
  intros Hlt Hsch. destruct c as [event cb who|event|event|]; simpl.
  - intros E. eapply step_add; [by left|done|exact E].
  - intros ([b st1] & E & [= _ <-])%outcome_bind_ok. by eapply step_del.
  - intros ([b st1] & E & [= _ <-])%outcome_bind_ok. by eapply step_cancel.
  - intros ([b st1] & E & [= _ <-])%outcome_bind_ok. by eapply step_cancel_all.
Qed.

Lemma grow_inv st cs i fd c s st' :
  p_inv (st, cs) → cs !! i = Some (mkCall fd c Growing) → grow st fd = Ok (s, st') →
  (length (p_slots st) ≤ fd * 3 / 2)%nat → p_inv (st', move cs i s).
Proof.
  intros [Hs Hsz Hio Hcs Hth] Hi E Hle. simpl in *. unfold grow in E. apply outcome_bind_ok in E as (p & Hp & [= <- <-]).
  destruct (resize_grows st _ Hs Hle) as (Hs' & Hl' & Hkeep & Habs).
  assert (p_slots (resize st (fd * 3 / 2)) !! fd = Some p) as Hp'.
  { unfold deref in Hp. destruct (p_slots (resize st (fd * 3 / 2)) !! fd); congruence. }
  split; cbn [fst snd]; [done|lia| | |by eapply move_threads].
  - rewrite Habs. apply (resize_inv (abs st)); [done|]. simpl. by rewrite length_fmap.
  - intros j f c' s' [[_ Hj]|(-> & -> & s0 & Hj)]%move_calls.
    + specialize (Hcs j f c' s' Hj). destruct s'; auto.
    + rewrite Hi in Hj. by injection Hj as <- <- _.
Qed.

Lemma act_inv st cs i fd c p r st' :
  p_inv (st, cs) → cs !! i = Some (mkCall fd c (At p)) → act st fd c p = Ok (r, st') →
  p_inv (st', move cs i (Returned r)).
Proof.
  intros [Hs Hsz Hio Hcs Hth] Hi E. simpl in *. pose proof (Hcs i fd c (At p) Hi) as Hp. simpl in Hp.
  pose proof (act_whole st fd c p (slots_fine st Hs) Hp) as Hw. rewrite E in Hw. symmetry in Hw. osimpl in Hw.
  destruct (act_slots _ _ _ _ _ _ E) as [Es El]. split; simpl; [congruence|congruence| | |by eapply move_threads].
  - eapply io_step_inv; [exact Hio|]. eapply whole_step; [|by eauto|exact Hw]. simpl. rewrite length_fmap. by eapply lookup_lt_Some.
  - rewrite Es. intros j f c' s' [[_ Hj]|(-> & -> & _)]%move_calls; [|done]. by specialize (Hcs j f c' s' Hj).
Qed.

Lemma pstep_inv x y : p_inv x → pstep true x y → p_inv y.
Proof.
  intros Hi Hs. destruct Hs as [st cs fd c Hsch|st cs i fd c Hc|st cs i fd c s st' Hc E Hcare|st cs i fd c p r st' Hc E|st cs p rev st' E].
  - destruct Hi as [Hsl Hsz Hio Hcs Hth]. split; simpl in *; try done.
    + intros i f c' s [Hx|[_ [Hj Hx]%list_lookup_singleton_Some]]%lookup_app_Some; [by apply (Hcs i f c' s)|by injection Hx as _ _ <-].
    + intros i f c' s [Hx|[_ [Hj Hx]%list_lookup_singleton_Some]]%lookup_app_Some; [by eauto|by injection Hx as _ <- _].
  - destruct Hi as [Hsl Hsz Hio Hcs Hth]. split; simpl in *; try done; [|by eapply move_threads].
    intros j f c' s' [[_ Hj]|(-> & -> & s0 & Hj)]%move_calls; [by apply (Hcs j f c' s')|].
    rewrite Hc in Hj. injection Hj as <- <- _. unfold look. destruct (p_slots st !! fd) as [p|] eqn:Hp; [done|].
    apply lookup_ge_None in Hp. destruct c; (done || lia).
  - eapply grow_inv; eauto.
  - by eapply act_inv.
  - destruct Hi as [Hsl Hsz Hio Hcs Hth]. simpl in *. pose proof E as E0. unfold act_event in E.
    apply outcome_bind_ok in E as (ctx & Hctx & (sec & _ & [= <-])%outcome_bind_ok).
    assert (p < length (p_heap st))%nat as Hp.
    { unfold deref in Hctx. destruct (p_heap st !! p) eqn:Hh; [by eapply lookup_lt_Some|done]. }
    assert (p_slots st !! p = Some p) as Hsp by (by rewrite Hsl, lookup_seq_lt).
    pose proof (act_event_whole st p p rev (slots_fine st Hsl) Hsp) as Hw. rewrite E0 in Hw. symmetry in Hw. osimpl in Hw.
    destruct (store_slots st p sec) as [Es El]. split; simpl; [congruence|congruence| |by rewrite Es|done].
    eapply io_step_inv; [exact Hio|]. eapply step_event; [|exact Hw]. simpl. rewrite length_fmap. by eapply lookup_lt_Some.
Qed.

Lemma pio_new_inv k : p_inv (pio_new k, []).
Proof. split; simpl; [done|lia| |done|done]. apply (io_reachable_inv k). apply io_start. Qed.

Lemma p_reachable_inv k x : rtc (pstep true) (pio_new k, []) x → p_inv x.
Proof.
  intros Hr. assert (p_inv (pio_new k, [])) as Hi by apply pio_new_inv. revert Hi.
  induction Hr as [|x y z Hs _ IH]; [done|]. intros Hi. apply IH. by eapply pstep_inv.
Qed.

End table.

(** C38. As long as no allocation cuts the table, the calls of any number of threads,
    those that register a handler having a scheduler, section by section, behave like calls that happen at once: the pending events
    count the registered handlers; the last section of a call, and a reported event,
    do what the whole operation does to the table; and growing it always gives the
    call its context and keeps all others. *)
Theorem calls_linearize {K : Type} `{Epoll K} (k : K) (st : pio (K := K)) (cs : list pcall) :
  rtc (pstep true) (pio_new k, []) (st, cs) →
  p_pending st = u64 (Z.of_nat (count (m_fdContexts (abs st)))) ∧
  (∀ i fd c p, cs !! i = Some (mkCall fd c (At p)) →
     ('(r, st') ← act st fd c p; mret (r, abs st')) = whole_call (abs st) fd c) ∧
  (∀ p revents, (p < length (p_heap st))%nat →
     (st' ← act_event st p revents; mret (abs st')) = handle_event (abs st) p revents) ∧
  (∀ i fd c, cs !! i = Some (mkCall fd c Growing) → (length (p_slots st) ≤ fd * 3 / 2)%nat →
     ∃ p st', grow st fd = Ok (At p, st') ∧
       m_fdContexts (abs st') = contextResize (m_fdContexts (abs st)) (fd * 3 / 2)).
Proof.
  intros [Hs Hsz Hio Hcs _]%p_reachable_inv. cbn [fst snd] in *. pose proof (slots_fine st Hs) as Hok.
  split_and!; [apply (inv_pending _ Hio)| | |].
  - intros i fd c p Hi. apply act_whole; [done|]. apply (Hcs i fd c (At p) Hi).
  - intros p revents Hp. apply act_event_whole; [done|]. by rewrite Hs, lookup_seq_lt.
  - intros i fd c Hi Hle. pose proof (Hcs i fd c Growing Hi) as Hfd. cbn iota in Hfd.
    destruct (resize_grows st _ Hs Hle) as (_ & Hl & _ & Habs).
    destruct (lookup_lt_is_Some_2 (p_slots (resize st (fd * 3 / 2))) fd) as [p Hp].
    { rewrite Hl. apply Nat.div_le_lower_bound; lia. }
    exists p, (resize st (fd * 3 / 2)). unfold grow. rewrite Hp. osimpl. by rewrite Habs.
Qed.

(** A call that decided to allocate, while another one has made the table larger than
    it needs, cuts the table: a descriptor beyond the cut can no longer be removed or
    cancelled, while its handler still counts as pending, and if the kernel watches it,
    no handler can be registered for it again. *)
Theorem growth_race {K : Type} `{EpollLaws K} (st st' : pio (K := K)) fd s fd' p ctx :
  grow st fd = Ok (s, st') → (fd * 3 / 2 ≤ fd' < length (p_slots st))%nat →
  p_slots st !! fd' = Some p → p_heap st !! p = Some ctx → is_Some (interest (p_epoll st) fd') →
  (∀ event, look st' fd' (DelCall event) = Returned 0 ∧ look st' fd' (CancelCall event) = Returned 0) ∧
  look st' fd' CancelAllCall = Returned 0 ∧
  p_pending st' = p_pending st ∧ p_heap st' !! p = Some ctx ∧
  (∀ event cb who, add_section fd' event cb who (FdContext_new fd') (p_pending st') (p_epoll st') =
     Ok (-1, None)).
Proof.
  unfold grow. intros (q & _ & Eq)%outcome_bind_ok Hfd Hp Hctx [ev Hev].
  assert (st' = resize st (fd * 3 / 2)) as -> by (unfold mret, outcome_ret in Eq; congruence).
  assert (p_slots (resize st (fd * 3 / 2)) !! fd' = None) as Hnone.
  { apply lookup_ge_None. unfold resize. cbn [p_slots]. rewrite length_app, length_take, length_seq. lia. }
  unfold look. rewrite Hnone. split_and!; [done|done|done| |].
  - unfold resize. cbn [p_heap]. by apply lookup_app_l_Some.
  - intros event cb who. unfold add_section.
    assert (has (events (FdContext_new fd')) event = false) as -> by (by destruct event). asimpl.
    change (events (FdContext_new fd') =? 0) with true. cbn iota. change (p_epoll (resize st _)) with (p_epoll st).
    destruct (epoll_ctl _ _ _ _) as [k'|] eqn:E; [|done]. apply ctl_add in E as [E _]. congruence.
Qed.

(** ** Two descriptors at once *)

Module TwoCalls.

#[local] Existing Instance table_epoll.
#[local] Existing Instance table_laws.

Definition both : list pcall :=
  [mkCall 40 (AddCall READ (Some 1%nat) (running 0)) Growing; mkCall 100 (AddCall READ (Some 2%nat) (running 0)) (Returned 0)].

Definition located : list pcall :=
  [mkCall 40 (AddCall READ (Some 1%nat) (running 0)) Growing; mkCall 100 (AddCall READ (Some 2%nat) (running 0)) (At 100)].

Definition first : pio (K := gmap nat Z) := pio_new ∅.
Definition grown : pio (K := gmap nat Z) := match grow first 100 with Ok (_, st) => st | _ => first end.
Definition added : pio (K := gmap nat Z) :=
  match act grown 100 (AddCall READ (Some 2%nat) (running 0)) 100 with Ok (_, st) => st | _ => first end.
Definition cut : pio (K := gmap nat Z) := match grow added 40 with Ok (_, st) => st | _ => first end.

Lemma added_reachable careful : rtc (pstep careful) (first, []) (added, both).
Proof.
  eapply rtc_l; [by apply (p_begin _ _ _ 40 (AddCall READ (Some 1%nat) (running 0)))|].
  eapply rtc_l; [by apply (p_begin _ _ _ 100 (AddCall READ (Some 2%nat) (running 0)))|].
  eapply rtc_l; [eapply (p_look _ _ _ 0); reflexivity|].
  eapply rtc_l; [eapply (p_look _ _ _ 1); reflexivity|].
  eapply rtc_l; [eapply (p_grow _ _ _ 1 100 _ (At 100) grown); [reflexivity|vm_compute; reflexivity|intros _; vm_compute; lia]|].
  apply rtc_once. change both with (move located 1 (Returned 0)).
  apply (p_act careful grown located 1 100 (AddCall READ (Some 2%nat) (running 0)) 100 0 added); [reflexivity|vm_compute; reflexivity].
Qed.

End TwoCalls.

Import TwoCalls.
#[local] Existing Instance table_epoll.
#[local] Existing Instance table_laws.

Lemma calls_linearize_witness :
  rtc (pstep true) (first, []) (added, both) ∧ p_pending added = 1.
Proof.
  split; [apply added_reachable|].
  rewrite (proj1 (calls_linearize ∅ added both (added_reachable true))). vm_compute. reflexivity.
Defined.

Lemma growth_race_witness :
  rtc (pstep false) (first, []) (added, both) ∧ look added 100 (CancelCall READ) = At 100 ∧
  look cut 100 (CancelCall READ) = Returned 0 ∧ p_pending cut = 1.
Proof.
  split; [apply added_reachable|]. split; [reflexivity|].
  destruct (growth_race added cut 40 (At 40) 100 100 (mkFd (mkEC true None (Some 2%nat)) ec_empty 100 1))
    as (Hl & _ & Hp & _).
  - vm_compute. reflexivity.
  - vm_compute. lia.
  - reflexivity.
  - reflexivity.
  - vm_compute. eexists. reflexivity.
  - split; [apply (Hl READ)|]. rewrite Hp. reflexivity.
Defined.
