(* ===== verification/FdManager.v ===== *)
(** The table of file descriptors (sylar/fd_manager.h, sylar/fd_manager.cc) and
    the hooked calls that only consult it (the second half of sylar/hook.cc):
    which descriptors are sockets, whether their user asked for non-blocking
    calls, and their timeouts. The system calls are an interface. *)

From Stdlib Require Import ZArith Lia.
From stdpp Require Import base numbers option strings tactics sets list list_numbers relations.
From S2P Require Import Prelude.

Local Open Scope Z_scope.

(** ** The system *)

Definition O_NONBLOCK : Z := 2048.
Definition F_GETFL : Z := 3.
Definition F_SETFL : Z := 4.
Definition SOL_SOCKET : Z := 1.
Definition SO_RCVTIMEO : Z := 20.
Definition SO_SNDTIMEO : Z := 21.
Definition FIONBIO : Z := 21537.

(** The commands of [fcntl] that take an [int], a pointer, or nothing; every
    other number is [default]. *)
Definition with_int_arg (cmd : Z) : bool :=
  bool_decide (cmd ∈ [0; 1030; 2; 8; 10; 1024; 1026; 1031]).
Definition with_pointer_arg (cmd : Z) : bool := bool_decide (cmd ∈ [6; 7; 5; 16; 15]).
Definition without_arg (cmd : Z) : bool := bool_decide (cmd ∈ [1; 9; 11; 1025; 1032]).

(** What an option of a socket points to. *)
Inductive optval : Type :=
| OptTimeval (tv_sec tv_usec : Z)
| OptOther (n : nat).

(** The original system calls on the state of the kernel; results are those of
    the calls, -1 for an error. *)
Class Kernel (K : Type) : Type := {
  fstat_sock : K → Z → option bool;
  fcntl_f : K → Z → Z → Z → Z * K;
  ioctl_f : K → Z → Z → Z → Z * K;
  setsockopt_f : K → Z → Z → Z → optval → Z * K;
  socket_f : K → Z → Z → Z → Z * K;
  close_f : K → Z → Z * K
}.

(** What fcntl(2) says of the file status flags. *)
Class KernelLaws (K : Type) `{Kernel K} : Prop := {
  fl_get_pure (k : K) fd : (fcntl_f k fd F_GETFL 0).2 = k;
  fl_set_get (k k' : K) fd arg : fcntl_f k fd F_SETFL arg = (0, k') → fcntl_f k' fd F_GETFL 0 = (arg, k')
}.

(** ** Contexts *)

(** [class FdCtx]. *)
Record FdCtx : Type := mkCtx {
  m_isInit : bool;
  m_isSocket : bool;
  m_sysNonblock : bool;
  m_userNonblock : bool;
  m_isClosed : bool;
  m_fd : Z;
  m_recvTimeout : Z;
  m_sendTimeout : Z
}.

Definition nonblocking (flags : Z) : bool := negb (Z.land flags O_NONBLOCK =? 0).

Definition setUserNonblock (c : FdCtx) (v : bool) : FdCtx :=
  mkCtx (m_isInit c) (m_isSocket c) (m_sysNonblock c) v (m_isClosed c) (m_fd c)
    (m_recvTimeout c) (m_sendTimeout c).

Definition setTimeout (c : FdCtx) (type v : Z) : FdCtx :=
  if decide (type = SO_RCVTIMEO) then
    mkCtx (m_isInit c) (m_isSocket c) (m_sysNonblock c) (m_userNonblock c) (m_isClosed c) (m_fd c)
      v (m_sendTimeout c)
  else
    mkCtx (m_isInit c) (m_isSocket c) (m_sysNonblock c) (m_userNonblock c) (m_isClosed c) (m_fd c)
      (m_recvTimeout c) v.

Definition getTimeout (c : FdCtx) (type : Z) : Z :=
  if decide (type = SO_RCVTIMEO) then m_recvTimeout c else m_sendTimeout c.

Section fd_manager.
Context {K : Type} `{Kernel K}.

(** [FdCtx::init]. *)
Definition FdCtx_init (c : FdCtx) (k : K) : bool * FdCtx * K :=
  if m_isInit c then (true, c, k) else
  let '(isInit, isSocket) := match fstat_sock k (m_fd c) with
                             | None => (false, false)
                             | Some sock => (true, sock)
                             end in
  let '(sysNonblock, k) :=
    if (isSocket : bool) then
      let '(flags, k) := fcntl_f k (m_fd c) F_GETFL 0 in
      let k := if nonblocking flags then k
               else (fcntl_f k (m_fd c) F_SETFL (Z.lor flags O_NONBLOCK)).2 in
      (true, k)
    else (false, k) in
  (isInit, mkCtx isInit isSocket sysNonblock false false (m_fd c) (2 ^ 64 - 1) (2 ^ 64 - 1), k).

(** The constructor. *)
Definition FdCtx_new (fd : Z) (k : K) : FdCtx * K :=
  let '(_, c, k) := FdCtx_init (mkCtx false false false false false fd (2 ^ 64 - 1) (2 ^ 64 - 1)) k in
  (c, k).

(** ** The table *)

(** [m_data] of [FdManager]: a null pointer is [None]. *)
Abbreviation FdTable := (list (option FdCtx)).

Definition FdManager_new : FdTable := replicate 64 None.

(** [m_data[fd]], undefined out of range. *)
Definition entry (m : FdTable) (fd : Z) : outcome (option FdCtx) :=
  if decide (0 <= fd) then deref (m !! Z.to_nat fd) else Stuck.

(** The part of [get] under the read lock: [None] where it goes on to the write
    lock. *)
Definition get_check (m : FdTable) (fd : Z) (auto_create : bool) : outcome (option (option FdCtx)) :=
  if decide (fd = -1) then mret (Some None) else
  if decide (Z.of_nat (length m) <= fd) then
    mret (if auto_create then None else Some None)
  else
    c ← entry m fd;
    mret (if bool_decide (is_Some c) || negb auto_create then Some c else None).

(** The part under the write lock. *)
Definition get_create (m : FdTable) (fd : Z) (k : K) : outcome (FdCtx * FdTable * K) :=
  let '(ctx, k) := FdCtx_new fd k in
  let m := if decide (Z.of_nat (length m) <= fd)
           then m ++ replicate (Z.to_nat (fd * 3 / 2) - length m) None else m in
  _ ← entry m fd;
  mret (ctx, <[Z.to_nat fd := Some ctx]> m, k).

(** [FdManager::get(fd, auto_create)]. *)
Definition fd_get (m : FdTable) (fd : Z) (auto_create : bool) (k : K) :
    outcome (option FdCtx * FdTable * K) :=
  r ← get_check m fd auto_create;
  match r with
  | Some c => mret (c, m, k)
  | None => '(c, m, k) ← get_create m fd k; mret (Some c, m, k)
  end.

(** [FdManager::del(fd)]. *)
Definition fd_del (m : FdTable) (fd : Z) : outcome FdTable :=
  if decide (Z.of_nat (length m) <= fd) then mret m else
  _ ← entry m fd;
  mret (<[Z.to_nat fd := None]> m).

(** ** Hooked calls *)

(** The descriptor's context when the hooks act on it as a socket. *)
Definition hooked_socket (c : option FdCtx) : option FdCtx :=
  match c with
  | Some ctx => if m_isClosed ctx || negb (m_isSocket ctx) then None else Some ctx
  | None => None
  end.

Definition socket (enable : bool) (m : FdTable) (k : K) (domain type protocol : Z) :
    outcome (Z * FdTable * K) :=
  let '(fd, k) := socket_f k domain type protocol in
  if negb enable then mret (fd, m, k) else
  if decide (fd = -1) then mret (fd, m, k) else
  '(_, m, k) ← fd_get m fd true k;
  mret (fd, m, k).

(** What [accept] does with the descriptor that [do_io] returned. *)
Definition accept_result (m : FdTable) (k : K) (fd : Z) : outcome (Z * FdTable * K) :=
  if decide (0 <= fd) then '(_, m, k) ← fd_get m fd true k; mret (fd, m, k)
  else mret (fd, m, k).

(** [fcntl(fd, cmd, arg)]; commands without an argument call it again. *)
Fixpoint fcntl (fuel : nat) (m : FdTable) (k : K) (fd cmd arg : Z) : outcome (Z * FdTable * K) :=
  match fuel with
  | O => Stuck
  | S fuel =>
    if decide (cmd = F_SETFL) then
      '(c, m, k) ← fd_get m fd false k;
      match hooked_socket c with
      | None => let '(r, k) := fcntl_f k fd cmd arg in mret (r, m, k)
      | Some ctx =>
        let m := <[Z.to_nat fd := Some (setUserNonblock ctx (nonblocking arg))]> m in
        let arg := if m_sysNonblock ctx then Z.lor arg O_NONBLOCK
                   else Z.land arg (Z.lnot O_NONBLOCK) in
        let '(r, k) := fcntl_f k fd cmd arg in
        mret (r, m, k)
      end
    else if with_int_arg cmd then let '(r, k) := fcntl_f k fd cmd arg in mret (r, m, k)
    else if decide (cmd = F_GETFL) then
      let '(arg, k) := fcntl_f k fd cmd 0 in
      '(c, m, k) ← fd_get m fd false k;
      match hooked_socket c with
      | None => mret (arg, m, k)
      | Some ctx =>
        mret (if m_userNonblock ctx then Z.lor arg O_NONBLOCK
              else Z.land arg (Z.lnot O_NONBLOCK), m, k)
      end
    else if without_arg cmd then fcntl fuel m k fd cmd arg
    else if with_pointer_arg cmd then let '(r, k) := fcntl_f k fd cmd arg in mret (r, m, k)
    else let '(r, k) := fcntl_f k fd cmd 0 in mret (r, m, k)
  end.

(** [ioctl(d, request, arg)]; [arg] is the [int] the pointer points to. *)
Definition ioctl (m : FdTable) (k : K) (d request arg : Z) : outcome (Z * FdTable * K) :=
  if decide (request = FIONBIO) then
    let user_nonblock := negb (arg =? 0) in
    '(c, m, k) ← fd_get m d false k;
    match hooked_socket c with
    | None => let '(r, k) := ioctl_f k d request arg in mret (r, m, k)
    | Some ctx =>
      let m := <[Z.to_nat d := Some (setUserNonblock ctx user_nonblock)]> m in
      let '(r, k) := ioctl_f k d request arg in
      mret (r, m, k)
    end
  else let '(r, k) := ioctl_f k d request arg in mret (r, m, k).

(** [setsockopt]: the timeouts are kept in milliseconds. *)
Definition setsockopt (enable : bool) (m : FdTable) (k : K) (sockfd level optname : Z) (v : optval) :
    outcome (Z * FdTable * K) :=
  '(m, k) ←
    (if enable && bool_decide (level = SOL_SOCKET) &&
        bool_decide (optname = SO_RCVTIMEO ∨ optname = SO_SNDTIMEO) then
       '(c, m, k) ← fd_get m sockfd false k;
       match c with
       | None => mret (m, k)
       | Some ctx =>
         match v with
         | OptTimeval tv_sec tv_usec =>
           mret (<[Z.to_nat sockfd :=
                     Some (setTimeout ctx optname (u64 (tv_sec * 1000 + Z.quot tv_usec 1000)))]> m, k)
         | OptOther _ => Stuck
         end
       end
     else mret (m, k));
  let '(r, k) := setsockopt_f k sockfd level optname v in
  mret (r, m, k).

(** ** Correctness of the table *)

(** The table never shrinks below its first size, and an entry knows its
    descriptor. *)
Record fd_inv (m : FdTable) : Prop := {
  inv_size : (64 <= length m)%nat;
  inv_entry i c : m !! i = Some (Some c) → m_fd c = Z.of_nat i
}.

Lemma FdCtx_new_fd fd k c k' : FdCtx_new fd k = (c, k') → m_fd c = fd.
Proof.
  unfold FdCtx_new, FdCtx_init. simpl. destruct (fstat_sock k fd) as [[]|]; simpl;
    repeat case_match; intros; simplify_eq/=; done.
Qed.

(** The steps in which threads run [get] and [del] of a descriptor: what [get] does
    under the write lock, whatever it found before, and [del]. *)
Inductive fd_step_at (fd : Z) (m : FdTable) : FdTable → Prop :=
| step_create k c m' k' : 0 <= fd → get_create m fd k = Ok (c, m', k') → fd_step_at fd m m'
| step_delete m' : 0 <= fd → fd_del m fd = Ok m' → fd_step_at fd m m'.

Definition fd_step (m m' : FdTable) : Prop := ∃ fd, fd_step_at fd m m'.

(** Steps for other descriptors. *)
Definition elsewhere (fd : Z) (m m' : FdTable) : Prop := ∃ fd', fd' ≠ fd ∧ fd_step_at fd' m m'.

Lemma entry_ok (m : FdTable) fd : 0 <= fd < Z.of_nat (length m) → is_Some (m !! Z.to_nat fd) ∧
  entry m fd = deref (m !! Z.to_nat fd).
Proof.
  intros Hfd. split; [apply lookup_lt_is_Some; lia|]. unfold entry. by rewrite decide_True by lia.
Qed.

Lemma get_create_ok m fd k :
  fd_inv m → 0 <= fd → ∃ c k' m', get_create m fd k = Ok (c, m', k') ∧ FdCtx_new fd k = (c, k') ∧
    fd_inv m' ∧ m' !! Z.to_nat fd = Some (Some c) ∧
    ∀ i, i ≠ Z.to_nat fd → mjoin (m' !! i) = mjoin (m !! i).
Proof.
  intros [Hs He] Hfd. unfold get_create. destruct (FdCtx_new fd k) as [c k'] eqn:Ec.
  set (m1 := if decide (Z.of_nat (length m) <= fd)
             then m ++ replicate (Z.to_nat (fd * 3 / 2) - length m) None else m).
  assert (fd < Z.of_nat (length m1)) as Hlt.
  { unfold m1. case_decide; [|lia]. rewrite length_app, length_replicate.
    assert (fd + 1 <= fd * 3 / 2) by (apply Z.div_le_lower_bound; lia). lia. }
  assert (∀ i, (i < length m)%nat → m1 !! i = m !! i) as Hold.
  { intros i Hi. unfold m1. case_decide; [by rewrite lookup_app_l|done]. }
  assert (length m <= length m1)%nat as Hle.
  { unfold m1. case_decide; [rewrite length_app; lia|lia]. }
  destruct (entry_ok m1 fd) as [[x Hx] ->]; [lia|]. rewrite Hx. osimpl.
  exists c, k', (<[Z.to_nat fd := Some c]> m1). split_and!; [done|done| | |].
  - split; [rewrite length_insert; lia|]. intros i c'.
    destruct (decide (i = Z.to_nat fd)) as [->|Hne].
    + rewrite list_lookup_insert_eq by lia. intros [= <-]. rewrite (FdCtx_new_fd _ _ _ _ Ec). lia.
    + rewrite list_lookup_insert_ne by done. intros Hi. destruct (decide (i < length m)%nat).
      * rewrite Hold in Hi by done. by apply He.
      * unfold m1 in Hi. case_decide; [|apply lookup_lt_Some in Hi; lia].
        rewrite lookup_app_r in Hi by lia. by apply lookup_replicate in Hi as [? _].
  - apply list_lookup_insert_eq. lia.
  - intros i Hne. rewrite list_lookup_insert_ne by done.
    destruct (decide (i < length m)%nat); [by rewrite Hold|]. rewrite (lookup_ge_None_2 m) by lia.
    destruct (m1 !! i) as [[c'|]|] eqn:Ei; [|done..].
    unfold m1 in Ei. case_decide; [|apply lookup_lt_Some in Ei; lia].
    rewrite lookup_app_r in Ei by lia. by apply lookup_replicate in Ei as [? _].
Qed.

Lemma fd_del_ok m fd :
  fd_inv m → 0 <= fd → ∃ m', fd_del m fd = Ok m' ∧ fd_inv m' ∧ (length m' = length m) ∧
    ∀ i, m' !! i = if decide (i = Z.to_nat fd ∧ i < length m)%nat then Some None else m !! i.
Proof.
  intros [Hs He] Hfd. unfold fd_del. case_decide as Hl.
  - exists m. split_and!; [done|done|done|]. intros i. rewrite decide_False; [done|lia].
  - destruct (entry_ok m fd) as [[x Hx] ->]; [lia|]. rewrite Hx. osimpl. eexists. split; [done|].
    assert (∀ i, <[Z.to_nat fd := None]> m !! i =
      if decide (i = Z.to_nat fd ∧ i < length m)%nat then Some None else m !! i) as Hlook.
    { intros i. case_decide as Hi; [destruct Hi as [-> ?]; by apply list_lookup_insert_eq|].
      destruct (decide (i = Z.to_nat fd)) as [->|]; [|by rewrite list_lookup_insert_ne].
      rewrite !lookup_ge_None_2; [done|lia|rewrite length_insert; lia]. }
    split_and!; [|by rewrite length_insert|done]. split; [by rewrite length_insert|].
    intros i c. rewrite Hlook. case_decide; [done|apply He].
Qed.

Lemma fd_step_inv m m' : fd_inv m → fd_step m m' → fd_inv m'.
Proof.
  intros Hinv [fd [k c m1 k' Hfd E|m1 Hfd E]].
  - destruct (get_create_ok m fd k Hinv Hfd) as (? & ? & ? & E' & _ & Hi & _).
    rewrite E in E'. by simplify_eq.
  - destruct (fd_del_ok m fd Hinv Hfd) as (? & E' & Hi & _). rewrite E in E'. by simplify_eq.
Qed.

Lemma FdManager_new_inv : fd_inv FdManager_new.
Proof. split; [done|]. intros i c [? _]%lookup_replicate. done. Qed.

Lemma fd_reachable_inv m : rtc fd_step FdManager_new m → fd_inv m.
Proof.
  intros Hr. pose proof FdManager_new_inv as Hi. revert Hi.
  induction Hr as [|m1 m2 m3 Hs _ IH]; [done|]. intros Hi. apply IH. by eapply fd_step_inv.
Qed.

(** Reading the table: what [get(fd)] returns. *)
Lemma fd_get_read m fd k :
  fd_inv m → 0 <= fd → fd_get m fd false k = Ok (mjoin (m !! Z.to_nat fd), m, k).
Proof.
  intros Hinv Hfd. unfold fd_get, get_check. rewrite decide_False by lia. case_decide as Hl.
  - osimpl. by rewrite lookup_ge_None_2 by lia.
  - destruct (entry_ok m fd) as [[x Hx] ->]; [lia|]. rewrite Hx. osimpl. by rewrite orb_true_r.
Qed.

Lemma fd_get_present m fd c b k :
  m !! Z.to_nat fd = Some (Some c) → 0 <= fd → fd_get m fd b k = Ok (Some c, m, k).
Proof.
  intros Hc Hfd. unfold fd_get, get_check. rewrite decide_False by lia.
  pose proof (lookup_lt_Some _ _ _ Hc). rewrite decide_False by lia.
  destruct (entry_ok m fd) as [_ ->]; [lia|]. rewrite Hc. osimpl.
  by rewrite bool_decide_eq_true_2.
Qed.

Lemma fd_get_absent m fd k :
  fd_inv m → 0 <= fd → mjoin (m !! Z.to_nat fd) = None →
  fd_get m fd true k = '(c, m, k) ← get_create m fd k; mret (Some c, m, k).
Proof.
  intros Hinv Hfd Hn. unfold fd_get, get_check. rewrite decide_False by lia. case_decide as Hl; [done|].
  destruct (entry_ok m fd) as [[x Hx] ->]; [lia|]. rewrite Hx in Hn |- *. osimpl.
  destruct x; [done|]. by rewrite bool_decide_eq_false_2.
Qed.

Lemma elsewhere_keeps fd m m' c :
  fd_inv m → 0 <= fd → m !! Z.to_nat fd = Some (Some c) → elsewhere fd m m' →
  fd_inv m' ∧ m' !! Z.to_nat fd = Some (Some c).
Proof.
  intros Hinv Hfd Hc (fd' & Hne & Hs). split; [by eapply fd_step_inv; [|exists fd']|].
  destruct Hs as [k c' m1 k' Hfd' E|m1 Hfd' E].
  - destruct (get_create_ok m fd' k Hinv Hfd') as (? & ? & ? & E' & _ & _ & _ & Ho). rewrite E in E'. simplify_eq.
    specialize (Ho (Z.to_nat fd) ltac:(lia)). rewrite Hc in Ho.
    simpl in Ho. match type of Ho with mjoin ?x = _ => destruct x as [[c1|]|]; simpl in Ho; congruence end.
  - destruct (fd_del_ok m fd' Hinv Hfd') as (? & E' & _ & _ & Hl). rewrite E in E'. simplify_eq.
    by rewrite Hl, decide_False by lia.
Qed.

Lemma elsewhere_kept fd m m' c :
  rtc (elsewhere fd) m m' → fd_inv m → 0 <= fd → m !! Z.to_nat fd = Some (Some c) →
  m' !! Z.to_nat fd = Some (Some c).
Proof.
  induction 1 as [|m1 m2 m3 Hs _ IH]; [done|]. intros Hi Hfd Hc.
  destruct (elsewhere_keeps fd m1 m2 c Hi Hfd Hc Hs) as [Hi2 Hc2]. by apply IH.
Qed.


(** ** Non-blocking mode as the user sees it *)

Lemma testbit_nonblock k : Z.testbit O_NONBLOCK k = bool_decide (k = 11).
Proof.
  change O_NONBLOCK with (2 ^ 11). case_bool_decide as E; [subst; done|].
  destruct (Z.neg_nonneg_cases k); [by rewrite Z.testbit_neg_r|]. apply Z.pow2_bits_false. lia.
Qed.

Lemma nonblocking_bit flags : nonblocking flags = Z.testbit flags 11.
Proof.
  unfold nonblocking. destruct (Z.testbit flags 11) eqn:E.
  - apply negb_true_iff, Z.eqb_neq. intros H0. assert (Z.testbit (Z.land flags O_NONBLOCK) 11 = false) as Hb
      by by rewrite H0, Z.bits_0.
    rewrite Z.land_spec, E in Hb. done.
  - apply negb_false_iff, Z.eqb_eq. apply Z.bits_inj'. intros k Hk. rewrite Z.land_spec, Z.bits_0.
    rewrite testbit_nonblock. case_bool_decide; [subst; by rewrite E|apply andb_false_r].
Qed.

(** Forcing the bit on and showing the user's choice gives the user's flags. *)
Lemma show_user_flags arg :
  (if nonblocking arg then Z.lor (Z.lor arg O_NONBLOCK) O_NONBLOCK
   else Z.land (Z.lor arg O_NONBLOCK) (Z.lnot O_NONBLOCK)) = arg.
Proof.
  rewrite nonblocking_bit. destruct (Z.testbit arg 11) eqn:E; apply Z.bits_inj'; intros k Hk;
    rewrite ?Z.land_spec, ?Z.lnot_spec, !Z.lor_spec, !testbit_nonblock by done;
    (case_bool_decide; [subst; rewrite E; done|]); rewrite ?orb_false_r, ?andb_true_r; done.
Qed.

(** For a socket the library made non-blocking, [fcntl] keeps up the
    appearance the user expects: after a successful [F_SETFL] with any flags the
    kernel's flags have [O_NONBLOCK] set all the same, [F_GETFL] returns exactly
    the flags the user set, and the user's choice is what the context records.
    The commands without an argument (F_GETFD and the like) never return. *)
Theorem fcntl_user_view `{!KernelLaws K} (m m' : FdTable) fd ctx arg (k k' : K) n fuel cmd :
  fd_inv m → 0 <= fd → m !! Z.to_nat fd = Some (Some ctx) →
  m_isSocket ctx = true → m_isClosed ctx = false → m_sysNonblock ctx = true →
  fcntl (S n) m k fd F_SETFL arg = Ok (0, m', k') → without_arg cmd = true →
  fcntl_f k' fd F_GETFL 0 = (Z.lor arg O_NONBLOCK, k') ∧
  m' !! Z.to_nat fd = Some (Some (setUserNonblock ctx (nonblocking arg))) ∧
  fcntl (S n) m' k' fd F_GETFL 0 = Ok (arg, m', k') ∧
  fcntl fuel m k fd cmd arg = Stuck.
Proof.
  intros Hinv Hfd Hc Hsock Hcl Hsys E Hcmd.
  assert (Z.to_nat fd < length m)%nat as Hlt by by eapply lookup_lt_Some.
  cbn [fcntl] in E. rewrite decide_True in E by done. rewrite (fd_get_present m fd ctx) in E by done.
  osimpl in E. unfold hooked_socket in E. rewrite Hsock, Hcl in E. simpl in E.
  rewrite Hsys in E.
  destruct (fcntl_f k fd F_SETFL (Z.lor arg O_NONBLOCK)) as [r k1] eqn:Ek. injection E as -> <- <-.
  pose proof (fl_set_get _ _ _ _ Ek) as Hget.
  assert (<[Z.to_nat fd:=Some (setUserNonblock ctx (nonblocking arg))]> m !! Z.to_nat fd =
    Some (Some (setUserNonblock ctx (nonblocking arg)))) as Hl by by apply list_lookup_insert_eq.
  split_and!; [done|done| |].
  - cbn [fcntl]. rewrite decide_False by done. change (with_int_arg F_GETFL) with false.
    rewrite decide_True by done. rewrite Hget.
    rewrite (fd_get_present _ fd (setUserNonblock ctx (nonblocking arg))) by done. osimpl.
    unfold hooked_socket. simpl. rewrite Hsock, Hcl. simpl. do 3 f_equal. apply show_user_flags.
  - assert (fcntl fuel m k fd cmd arg = Stuck); [|done]. apply bool_decide_eq_true in Hcmd.
    clear -Hcmd. induction fuel as [|fuel IH]; [done|]. cbn [fcntl].
    assert (cmd = 1 ∨ cmd = 9 ∨ cmd = 11 ∨ cmd = 1025 ∨ cmd = 1032) as Hc by set_solver.
    destruct Hc as [->|[->|[->|[->| ->]]]]; exact IH.
Qed.

End fd_manager.

(** A kernel in which every descriptor is a socket, with its flags. *)
Module TableKernel.
#[export] Instance flags_kernel : Kernel (Z → Z) := {
  fstat_sock _ fd := if decide (0 <= fd) then Some true else None;
  fcntl_f k fd cmd arg :=
    if decide (cmd = F_GETFL) then (k fd, k)
    else if decide (cmd = F_SETFL) then (0, λ fd', if decide (fd' = fd) then arg else k fd')
    else (0, k);
  ioctl_f k _ _ _ := (0, k);
  setsockopt_f k _ _ _ _ := (0, k);
  socket_f k _ _ _ := (70, k);
  close_f k _ := (0, k)
}.

#[export] Instance flags_laws : KernelLaws (Z → Z).
Proof.
  split; [done|]. intros k k' fd arg [= <-].
  change ((if decide (fd = fd) then arg else k fd, λ fd', if decide (fd' = fd) then arg else k fd') =
    (arg, λ fd', if decide (fd' = fd) then arg else k fd')).
  f_equal. by rewrite decide_True.
Qed.
End TableKernel.

Import TableKernel.


(** The table after a socket with descriptor 5 was made. *)
Definition one_socket : list (option FdCtx) :=
  <[5%nat := Some (mkCtx true true true false false 5 (2 ^ 64 - 1) (2 ^ 64 - 1))]> FdManager_new.

Lemma fcntl_user_view_witness :
  ∃ m' k', fcntl 1 one_socket (λ _, 2050) 5 F_SETFL 2 = Ok (0, m', k') ∧
    fcntl 1 m' k' 5 F_GETFL 0 = Ok (2, m', k') ∧ k' 5 = 2050.
Proof.
  destruct (fcntl_user_view one_socket
    (<[5%nat := Some (setUserNonblock (mkCtx true true true false false 5 (2 ^ 64 - 1) (2 ^ 64 - 1)) false)]>
       one_socket) 5 (mkCtx true true true false false 5 (2 ^ 64 - 1) (2 ^ 64 - 1)) 2
    (λ _, 2050) (λ fd', if decide (fd' = 5) then 2050 else 2050) 0 7 1) as (H1 & _ & H3 & _).
  - split; [done|]. intros i c Hi. unfold one_socket in Hi.
    apply list_lookup_insert_Some in Hi as [(<- & [= <-] & _)|(_ & [? _]%lookup_replicate)]; done.
  - lia.
  - reflexivity.
  - reflexivity.
  - reflexivity.
  - reflexivity.
  - reflexivity.
  - reflexivity.
  - do 2 eexists. split; [reflexivity|]. split; [exact H3|reflexivity].
Defined.
