(* ===== verification/Hook.v ===== *)
(** The hooked blocking calls (the first half of sylar/hook.cc): [do_io] with its
    retries, event registration and timeout, [connect_with_timeout], the sleeps
    and [close], on top of the event loop, the timers and the descriptor table.
    Each fiber inside such a call has a frame with a program counter; a step is
    what a fiber does between two places where others can get in, or something
    the kernel, the clock or another fiber does. *)

From Stdlib Require Import ZArith Lia.
From stdpp Require Import base numbers gmap option strings tactics sets list list_numbers relations.
From S2P Require Import Prelude StdSet Timer IOManager FdManager.

Local Open Scope Z_scope.

Definition EINTR : Z := 4.
Definition EBADF : Z := 9.
Definition EAGAIN : Z := 11.
Definition ETIMEDOUT : Z := 110.
Definition EINPROGRESS : Z := 115.

(** [(uint64_t)-1]. *)
Definition NO_TIMEOUT : Z := 2 ^ 64 - 1.

(** ** Entering a call *)

(** What a hooked call does before it may wait: call the original function and
    return, fail, or go on with a timeout. *)
Inductive decision : Type :=
| Direct
| Refuse (errno : Z)
| MayWait (timeout : Z).

Section enter.
Context {K : Type} `{Kernel K}.

(** [do_io] up to [retry:]. *)
Definition do_io_enter (enable : bool) (m : list (option FdCtx)) (k : K) (fd timeout_so : Z) :
    outcome decision :=
  if negb enable then mret Direct else
  '(c, _, _) ← fd_get m fd false k;
  match c with
  | None => mret Direct
  | Some ctx =>
    if m_isClosed ctx then mret (Refuse EBADF)
    else if negb (m_isSocket ctx) || m_userNonblock ctx then mret Direct
    else mret (MayWait (getTimeout ctx timeout_so))
  end.

(** [connect_with_timeout] up to the first [connect_f]. *)
Definition connect_enter (enable : bool) (m : list (option FdCtx)) (k : K) (fd timeout_ms : Z) :
    outcome decision :=
  if negb enable then mret Direct else
  '(c, _, _) ← fd_get m fd false k;
  match c with
  | None => mret (Refuse EBADF)
  | Some ctx =>
    if m_isClosed ctx then mret (Refuse EBADF)
    else if negb (m_isSocket ctx) then mret Direct
    else if m_userNonblock ctx then mret Direct
    else mret (MayWait timeout_ms)
  end.

End enter.

(** The calls that go through [do_io], with the event each waits for and the
    socket option that holds its timeout. *)
Inductive io_fun : Type :=
| accept | read | readv | recv | recvfrom | recvmsg
| write | writev | send | sendto | sendmsg.

Definition fun_event (f : io_fun) : Event * Z :=
  match f with
  | accept | read | readv | recv | recvfrom | recvmsg => (READ, SO_RCVTIMEO)
  | write | writev | send | sendto | sendmsg => (WRITE, SO_SNDTIMEO)
  end.

(** [s_connect_timeout] after [tcp.connect.timeout] was set to the [int] [v]. *)
Definition s_connect_timeout (v : Z) : Z := u64 v.

(** The milliseconds of the three sleeps: [seconds * 1000] is an [unsigned int],
    the sum of [nanosleep] an [int]. *)
Definition sleep_ms (seconds : Z) : Z := u32 (seconds * 1000).
Definition usleep_ms (usec : Z) : Z := usec / 1000.
Definition nanosleep_ms (tv_sec tv_nsec : Z) : Z :=
  u64 (s32 (tv_sec * 1000 + Z.quot (Z.quot tv_nsec 1000) 1000)).

(** ** Frames *)

(** The call a fiber is in: reading or writing with [do_io], connecting, or
    sleeping for so many milliseconds. *)
Inductive kind : Type :=
| Io
| Connect
| Sleep (ms : Z).

(** Where it is: about to call the original function, to set the timer, to
    register the event with the timer set; yielded; resumed; about to ask for
    SO_ERROR; returned; returned because of the timeout. *)
Inductive pc : Type :=
| Calling
| Arming
| Registering (timer : option positive)
| Holding (timer : option positive)
| Resumed (timer : option positive)
| Checking
| Returned (n errno : Z)
| TimedOut (errno : Z).

(** A call of a fiber. [fr_info] names its [timer_info], whose callbacks have
    the same name. *)
Record frame : Type := mkFrame {
  fr_kind : kind;
  fr_fd : nat;
  fr_event : Event;
  fr_to : Z;
  fr_info : nat;
  fr_start : Z;
  fr_pc : pc
}.

Definition set_pc (fr : frame) (p : pc) : frame :=
  mkFrame (fr_kind fr) (fr_fd fr) (fr_event fr) (fr_to fr) (fr_info fr) (fr_start fr) p.

Section hooks.
Context {K : Type} `{Epoll K}.

(** The event loop, the timers, the expired callbacks that are queued, the time,
    the live [timer_info] objects with their [cancelled], what each callback has
    captured, and the frames by fiber. *)
Record hooks : Type := mkHooks {
  h_io : IOManager (K := K);
  h_tm : TimerManager;
  h_tasks : list callback;
  h_now : Z;
  h_infos : gmap nat Z;
  h_closures : gmap nat frame;
  h_frames : gmap nat frame
}.

Definition set_frame (st : hooks) (f : nat) (fr : frame) : hooks :=
  mkHooks (h_io st) (h_tm st) (h_tasks st) (h_now st) (h_infos st) (h_closures st)
    (<[f := fr]> (h_frames st)).

Definition set_io (st : hooks) (io : IOManager (K := K)) : hooks :=
  mkHooks io (h_tm st) (h_tasks st) (h_now st) (h_infos st) (h_closures st) (h_frames st).

Definition set_tm (st : hooks) (tm : TimerManager) (tasks : list callback) : hooks :=
  mkHooks (h_io st) tm tasks (h_now st) (h_infos st) (h_closures st) (h_frames st).

Definition set_infos (st : hooks) (infos : gmap nat Z) : hooks :=
  mkHooks (h_io st) (h_tm st) (h_tasks st) (h_now st) infos (h_closures st) (h_frames st).

(** Returning destroys the [timer_info]. *)
Definition finish (st : hooks) (f : nat) (fr : frame) (p : pc) : hooks :=
  set_infos (set_frame st f (set_pc fr p)) (delete (fr_info fr) (h_infos st)).

(** A fiber enters a call: [tinfo] is allocated. *)
Definition enter (st : hooks) (f : nat) (k : kind) (fd : nat) (event : Event) (to : Z) (info : nat) :
    hooks :=
  let p := match k with Sleep _ => Arming | _ => Calling end in
  let fr := mkFrame k fd event to info (h_now st) p in
  mkHooks (h_io st) (h_tm st) (h_tasks st) (h_now st) (<[info := 0]> (h_infos st))
    (<[info := fr]> (h_closures st)) (<[f := fr]> (h_frames st)).

(** The result [n] and [errno] of the original function. *)
Definition called (st : hooks) (f : nat) (fr : frame) (n errno : Z) : hooks :=
  match fr_kind fr with
  | Io =>
    if decide (n = -1 ∧ errno = EINTR) then set_frame st f (set_pc fr Calling)
    else if decide (n = -1 ∧ errno = EAGAIN) then set_frame st f (set_pc fr Arming)
    else finish st f fr (Returned n errno)
  | _ =>
    if decide (n = 0) then finish st f fr (Returned 0 errno)
    else if decide (n ≠ -1 ∨ errno ≠ EINPROGRESS) then finish st f fr (Returned n errno)
    else set_frame st f (set_pc fr Arming)
  end.

(** Setting the timer, whose object is [t]. *)
Definition arm (st : hooks) (f : nat) (fr : frame) (t : positive) : hooks :=
  match fr_kind fr with
  | Sleep ms =>
    set_frame (set_tm st (addTimer (h_tm st) (h_now st) t ms (Some (Plain f)) false).1 (h_tasks st))
      f (set_pc fr (Holding None))
  | _ =>
    if decide (fr_to fr ≠ NO_TIMEOUT) then
      set_frame (set_tm st (addConditionTimer (h_tm st) (h_now st) t (fr_to fr) (fr_info fr)
                              (fr_info fr) false).1 (h_tasks st))
        f (set_pc fr (Registering (Some t)))
    else set_frame st f (set_pc fr (Registering None))
  end.

(** [if (timer) timer->cancel();] *)
Definition drop_timer (st : hooks) (timer : option positive) : outcome hooks :=
  match timer with
  | None => mret st
  | Some t => '(_, tm) ← cancel (h_tm st) t; mret (set_tm st tm (h_tasks st))
  end.

(** [addEvent] and what follows up to [YieldToHold]; [errno] is that of a failed
    [epoll_ctl]. *)
Definition register (st : hooks) (f : nat) (fr : frame) (timer : option positive) (errno : Z) :
    outcome hooks :=
  '(rt, io) ← addEvent (h_io st) (Z.of_nat (fr_fd fr)) (fr_event fr) None (running f);
  let st := set_io st io in
  if decide (rt = 0) then mret (set_frame st f (set_pc fr (Holding timer)))
  else
    st ← drop_timer st timer;
    mret match fr_kind fr with
         | Connect => set_frame st f (set_pc fr Checking)
         | _ => finish st f fr (Returned (-1) errno)
         end.

(** After [YieldToHold]. *)
Definition back (st : hooks) (f : nat) (fr : frame) (timer : option positive) : outcome hooks :=
  st ← drop_timer st timer;
  match fr_kind fr with
  | Sleep _ => mret (finish st f fr (Returned 0 0))
  | _ =>
    cancelled ← deref (h_infos st !! fr_info fr);
    if decide (cancelled ≠ 0) then mret (finish st f fr (TimedOut cancelled))
    else mret (set_frame st f (set_pc fr match fr_kind fr with Connect => Checking | _ => Calling end))
  end.

(** [getsockopt(SO_ERROR)]: [None] when it fails. *)
Definition checked (st : hooks) (f : nat) (fr : frame) (error : option Z) (errno : Z) : hooks :=
  match error with
  | None => finish st f fr (Returned (-1) errno)
  | Some e => if decide (e = 0) then finish st f fr (Returned 0 errno)
              else finish st f fr (Returned (-1) e)
  end.

(** ** The others *)

Definition alive (st : hooks) (i : nat) : bool := bool_decide (is_Some (h_infos st !! i)).

(** The callback of a condition timer: [winfo.lock()], then [cancelEvent]. *)
Definition timeout_cb (st : hooks) (i : nat) : outcome hooks :=
  match h_infos st !! i with
  | None => mret st
  | Some cancelled =>
    if decide (cancelled ≠ 0) then mret st else
    fr ← deref (h_closures st !! i);
    let st := set_infos st (<[i := ETIMEDOUT]> (h_infos st)) in
    '(_, io) ← cancelEvent (h_io st) (Z.of_nat (fr_fd fr)) (fr_event fr);
    mret (set_io st io)
  end.

(** Scheduling a fiber. *)
Definition schedule_fiber (st : hooks) (f : nat) : hooks :=
  let io := h_io st in
  set_io st (mkIO (m_pendingEventCount io) (m_fdContexts io) (m_epoll io)
               (scheduled io ++ [TaskFiber f])).

(** Running a queued callback. *)
Definition run_callback (st : hooks) (c : callback) : outcome hooks :=
  match call (alive st) c with
  | None => mret st
  | Some i => match c with
              | Plain f => mret (schedule_fiber st f)
              | onTimer_bound _ _ => timeout_cb st i
              end
  end.

(** The thread that finds expired timers queues their callbacks. *)
Definition expire_timers (st : hooks) (now_addr : positive) : outcome hooks :=
  '(cbs, tm) ← listExpiredCb (h_tm st) (h_now st) now_addr;
  mret (set_tm st tm (h_tasks st ++ omap id cbs)).

(** The scheduler takes a task from its queue. *)
Definition unschedule (st : hooks) (l1 l2 : list task) : hooks :=
  let io := h_io st in
  set_io st (mkIO (m_pendingEventCount io) (m_fdContexts io) (m_epoll io) (l1 ++ l2)).

(** One step of a fiber in a call, or of the others: the clock is set (forward, if it
    is [steady]), timers expire, callbacks run, the kernel reports events, descriptors
    are closed, events cancelled, other code registers callbacks and removes events
    that no fiber waits for. Nobody else removes the event a call waits for, or
    schedules the fiber of a call. *)
Inductive hstep (steady : bool) (st : hooks) : hooks → Prop :=
| h_enter f k fd event to info :
    (h_frames st !! f = None ∨
     ∃ fr n e, h_frames st !! f = Some fr ∧ (fr_pc fr = Returned n e ∨ fr_pc fr = TimedOut e)) →
    (2 ≤ fd)%nat → 0 <= to < 2 ^ 64 → h_closures st !! info = None →
    hstep steady st (enter st f k fd event to info)
| h_called f fr n errno :
    h_frames st !! f = Some fr → fr_pc fr = Calling → hstep steady st (called st f fr n errno)
| h_arm f fr t :
    h_frames st !! f = Some fr → fr_pc fr = Arming → m_heap (h_tm st) !! t = None →
    (fr_to fr ≠ NO_TIMEOUT → 0 <= h_now st + fr_to fr < 2 ^ 64) → hstep steady st (arm st f fr t)
| h_register f fr timer errno st' :
    h_frames st !! f = Some fr → fr_pc fr = Registering timer →
    register st f fr timer errno = Ok st' → hstep steady st st'
| h_resume f fr timer l1 l2 :
    h_frames st !! f = Some fr → fr_pc fr = Holding timer →
    scheduled (h_io st) = l1 ++ TaskFiber f :: l2 →
    hstep steady st (set_frame (unschedule st l1 l2) f (set_pc fr (Resumed timer)))
| h_back f fr timer st' :
    h_frames st !! f = Some fr → fr_pc fr = Resumed timer → back st f fr timer = Ok st' → hstep steady st st'
| h_checked f fr error errno :
    h_frames st !! f = Some fr → fr_pc fr = Checking → hstep steady st (checked st f fr error errno)
| h_time now :
    0 <= now < 2 ^ 64 → (steady = true → h_now st <= now) →
    hstep steady st (mkHooks (h_io st) (h_tm st) (h_tasks st) now (h_infos st) (h_closures st) (h_frames st))
| h_expire now_addr st' : expire_timers st now_addr = Ok st' → hstep steady st st'
| h_run l1 c l2 st' :
    h_tasks st = l1 ++ c :: l2 → run_callback (set_tm st (h_tm st) (l1 ++ l2)) c = Ok st' → hstep steady st st'
| h_event fd revents io :
    (fd < length (m_fdContexts (h_io st)))%nat → handle_event (h_io st) fd revents = Ok io →
    hstep steady st (set_io st io)
| h_close fd r io : cancelAll (h_io st) (Z.of_nat fd) = Ok (r, io) → hstep steady st (set_io st io)
| h_cancel fd event r io :
    cancelEvent (h_io st) (Z.of_nat fd) event = Ok (r, io) → hstep steady st (set_io st io)
| h_watch fd event cb who r io :
    (2 ≤ fd)%nat → t_scheduler who = true →
    addEvent (h_io st) (Z.of_nat fd) event (Some cb) who = Ok (r, io) → hstep steady st (set_io st io)
| h_delete fd event r io :
    (∀ f, TaskFiber f ∉ handler_at (h_io st) fd event) →
    delEvent (h_io st) (Z.of_nat fd) event = Ok (r, io) → hstep steady st (set_io st io)
| h_other l1 cb l2 :
    scheduled (h_io st) = l1 ++ TaskCb cb :: l2 → hstep steady st (unschedule st l1 l2).

Definition hooks_new (k : K) (now : Z) : hooks :=
  mkHooks (IOManager_new k) (TimerManager_new now) [] now ∅ ∅ ∅.

End hooks.

(** [close(fd)]: [iom] is the thread's [IOManager]. *)
Section close.
Context {K E : Type} `{Kernel K} `{Epoll E}.

Definition close (enable : bool) (iom : option (IOManager (K := E))) (m : list (option FdCtx)) (k : K)
    (fd : Z) : outcome (Z * option (IOManager (K := E)) * list (option FdCtx) * K) :=
  '(iom, m) ←
    (if negb enable then mret (iom, m) else
     '(c, _, _) ← fd_get m fd false k;
     match c with
     | None => mret (iom, m)
     | Some _ =>
       iom ← match iom with
             | None => mret None
             | Some io => '(_, io) ← cancelAll io fd; mret (Some io)
             end;
       m ← fd_del m fd;
       mret (iom, m)
     end);
  let '(r, k) := close_f k fd in
  mret (r, iom, m, k).

End close.
