(* ===== verification/HookSpec.v ===== *)
(** The invariants of the hooked calls (see Hook): who can wake a fiber, which
    timers belong to which call, and what a timeout says about the clock. *)

From Stdlib Require Import ZArith Lia.
From stdpp Require Import base numbers gmap option strings tactics sets list list_numbers relations sorting.
From S2P Require Import Prelude StdSet Timer IOManager FdManager Hook.

Local Open Scope Z_scope.

#[export] Instance task_eq_dec : EqDecision task.
Proof. solve_decision. Defined.

#[export] Instance callback_eq_dec : EqDecision callback.
Proof. solve_decision. Defined.

(** ** Work in the event loop *)

(** How often [x] is in [l]. *)
Definition occ {A} `{EqDecision A} (x : A) (l : list A) : nat := length (filter (x =.) l).

Section occ.
Context {A : Type} `{EqDecision A}.
Implicit Types (x y : A) (l : list A).

Lemma occ_app x l1 l2 : occ x (l1 ++ l2) = (occ x l1 + occ x l2)%nat.
Proof. unfold occ. by rewrite filter_app, length_app. Qed.

Lemma occ_cons x y l : occ x (y :: l) = ((if decide (x = y) then 1 else 0) + occ x l)%nat.
Proof. unfold occ. rewrite filter_cons. by case_decide. Qed.

Lemma occ_nil (x : A) : occ x [] = 0%nat.
Proof. done. Qed.

Lemma occ_pos x l : (0 < occ x l)%nat ↔ x ∈ l.
Proof.
  induction l as [|y l IH]; [rewrite occ_nil; split; [lia|by intros ?%elem_of_nil]|].
  rewrite occ_cons, elem_of_cons, <-IH. case_decide; naive_solver lia.
Qed.

#[export] Instance occ_proper x : Proper ((≡ₚ) ==> (=)) (occ x).
Proof. intros l1 l2 Hl. unfold occ. by rewrite Hl. Qed.
End occ.

Section work.
Context {K : Type} `{Epoll K}.
Implicit Types st : IOManager (K := K).

(** The handlers that are registered and the tasks that are queued. *)
Definition work st : list task := concat (handlers <$> m_fdContexts st) ++ scheduled st.

Lemma concat_insert cs fd c c' :
  cs !! fd = Some c →
  concat (handlers <$> <[fd := c']> cs) ++ handlers c ≡ₚ concat (handlers <$> cs) ++ handlers c'.
Proof.
  intros Hc. rewrite (insert_take_drop cs fd c') by by eapply lookup_lt_Some.
  rewrite <-(take_drop_middle cs fd c Hc) at 3. rewrite !fmap_app, !fmap_cons, !concat_app. simpl.
  solve_Permutation.
Qed.

(** Storing a context back moves its handlers. *)
Lemma work_update st fd c c' pending k tasks :
  m_fdContexts st !! fd = Some c →
  work (update st fd c' pending k tasks) ++ handlers c ≡ₚ work st ++ handlers c' ++ tasks.
Proof.
  intros Hc. unfold work. simpl. pose proof (concat_insert _ _ _ c' Hc) as Hp.
  transitivity ((concat (handlers <$> <[fd:=c']> (m_fdContexts st)) ++ handlers c) ++
    scheduled st ++ tasks); [solve_Permutation|]. rewrite Hp. solve_Permutation.
Qed.

(** An operation that moves fibers at most from handlers to the queue. *)
Definition quiet st st' : Prop :=
  (∀ f, occ (TaskFiber f) (work st') = occ (TaskFiber f) (work st)) ∧
  ∀ fd e f, TaskFiber f ∈ handler_at st' fd e → TaskFiber f ∈ handler_at st fd e.

Lemma quiet_refl st : quiet st st.
Proof. split; [done|]. eauto. Qed.

Lemma quiet_update st fd c c' pending k tasks :
  m_fdContexts st !! fd = Some c → handlers c ≡ₚ handlers c' ++ tasks →
  (∀ e x, x ∈ handler c' e → x ∈ handler c e) → quiet st (update st fd c' pending k tasks).
Proof.
  intros Hc Hh Hsub. split.
  - pose proof (work_update st fd c c' pending k tasks Hc) as Hw. rewrite Hh in Hw.
    eapply Permutation_app_inv_r in Hw. intros f. by rewrite Hw.
  - intros fd' e f. rewrite (handler_at_update st fd c) by done. case_decide as E; [|done]. subst.
    intros Hx. unfold handler_at. rewrite Hc. eauto.
Qed.

Lemma handlers_split c event :
  ∃ e', e' ≠ event ∧ handlers c ≡ₚ handler c event ++ handler c e'.
Proof.
  destruct event; [exists WRITE|exists READ]; (split; [done|]); unfold handlers; [done|].
  apply Permutation_app_comm.
Qed.

Lemma cancelEvent_quiet st fd event r st' :
  io_inv st → cancelEvent st (Z.of_nat fd) event = Ok (r, st') → quiet st st'.
Proof.
  intros Hinv. unfold cancelEvent.
  destruct (remove_interest_spec st fd event Hinv) as (x & -> & Hx). osimpl.
  destruct x as [[[c ev] k]|]; [|intros [= _ <-]; apply quiet_refl]. destruct Hx as (Hc & Hhas & _).
  destruct (trigger_ok fd c event (inv_ctx _ Hinv _ _ Hc) Hhas) as (c' & -> & _ & _ & Hh & _ & Ho & _).
  osimpl. rewrite Nat2Z.id. intros [= _ <-]. apply (quiet_update st fd c); [done| |].
  - destruct (handlers_split c event) as (e' & He' & ->).
    destruct (handlers_split c' event) as (e'' & He'' & ->).
    assert (e'' = e') as -> by (destruct event, e', e''; done).
    rewrite Hh, (proj1 (Ho e' He')). simpl. apply Permutation_app_comm.
  - intros e y Hy. destruct (decide (e = event)) as [->|Hne]; [by rewrite Hh in Hy; apply elem_of_nil in Hy|].
    by rewrite (proj1 (Ho e Hne)) in Hy.
Qed.

Lemma handlers_nil c : handlers c = [] → ∀ e, handler c e = [].
Proof. intros [Hr Hw]%app_eq_nil []; done. Qed.

Lemma flush_quiet st fd c c' pending k :
  m_fdContexts st !! fd = Some c → handlers c' = [] →
  quiet st (update st fd c' pending k (handlers c)).
Proof.
  intros Hc Hh. apply (quiet_update st fd c); [done|by rewrite Hh|].
  intros e x Hx. rewrite (handlers_nil c' Hh e) in Hx. by apply elem_of_nil in Hx.
Qed.

Lemma cancelAll_quiet st fd r st' : io_inv st → cancelAll st (Z.of_nat fd) = Ok (r, st') → quiet st st'.
Proof.
  intros Hinv. unfold cancelAll. case_decide as Hlt; [intros [= _ <-]; apply quiet_refl|].
  destruct (lookup_lt_is_Some_2 (m_fdContexts st) fd) as [c Hc]; [lia|]. rewrite context_at_nat, Hc, Nat2Z.id. osimpl.
  destruct (events c =? 0); [intros [= _ <-]; apply quiet_refl|].
  destruct (epoll_ctl _ _ _ _) as [k|]; [|intros [= _ <-]; apply quiet_refl].
  destruct (trigger_all fd c (m_pendingEventCount st) (inv_ctx _ Hinv _ _ Hc)) as (c' & E & _ & Hh & He).
  apply outcome_bind_ok in E as (x & -> & E). osimpl. rewrite E. osimpl. rewrite He. osimpl.
  intros [= _ <-]. by apply flush_quiet.
Qed.

Lemma handle_event_quiet st fd revents st' : io_inv st → handle_event st fd revents = Ok st' → quiet st st'.
Proof.
  intros Hinv. unfold handle_event. destruct (m_fdContexts st !! fd) as [c|] eqn:Hc; [|done]. osimpl.
  case_match; [intros [= <-]; apply quiet_refl|].
  destruct (epoll_ctl _ _ _ _) as [k|]; [|intros [= <-]; apply quiet_refl].
  destruct (trigger_all fd c (m_pendingEventCount st) (inv_ctx _ Hinv _ _ Hc)) as (c' & E & _ & Hh & He).
  apply outcome_bind_ok in E as (x & -> & E). osimpl. rewrite E. osimpl.
  intros [= <-]. by apply flush_quiet.
Qed.

(** Removing an event that no fiber waits for. *)
Lemma delEvent_quiet st fd event r st' :
  io_inv st → (∀ f, TaskFiber f ∉ handler_at st fd event) →
  delEvent st (Z.of_nat fd) event = Ok (r, st') → quiet st st'.
Proof.
  intros Hinv Hno. unfold delEvent.
  destruct (remove_interest_spec st fd event Hinv) as (x & -> & Hx). osimpl.
  destruct x as [[[c ev] k]|]; [|intros [= _ <-]; apply quiet_refl]. destruct Hx as (Hc & Hhas & -> & _).
  destruct (unregister_ok fd c event (inv_ctx _ Hinv _ _ Hc) Hhas) as (Hok' & Hh & Ho). rewrite Nat2Z.id.
  intros [= _ <-]. unfold handler_at in Hno. rewrite Hc in Hno. set (c' := resetContext _ _) in *.
  pose proof (work_update st fd c c' (m_pendingEventCount st - 1) k [] Hc) as Hw.
  destruct (handlers_split c event) as (e' & He' & Hs). destruct (handlers_split c' event) as (e'' & He'' & Hs').
  assert (e'' = e') as -> by (destruct event, e', e''; done).
  rewrite Hs, Hs', Hh, (Ho e' He') in Hw. split.
  - intros f. assert (occ (TaskFiber f) (handler c event) = 0%nat) as Hz.
    { destruct (decide (0 < occ (TaskFiber f) (handler c event))%nat) as [Hp|]; [|lia]. apply occ_pos in Hp. by apply Hno in Hp. }
    apply (occ_proper (TaskFiber f)) in Hw. rewrite !occ_app, Hz in Hw. simpl in Hw. rewrite occ_nil in Hw. lia.
  - intros fd' e f. rewrite (handler_at_update st fd c) by done. case_decide as E; [|done]. subst.
    unfold handler_at. rewrite Hc. destruct (decide (e = event)) as [->|Hne]; [rewrite Hh; by intros ?%elem_of_nil|].
    by rewrite (Ho e Hne).
Qed.

(** Growing the table adds no handlers. *)
Lemma grown_work st fd : (fd < length (m_fdContexts st) ∨ 2 ≤ fd)%nat → work (grown st fd) = work st.
Proof.
  intros Hfd. unfold work, grown. cbn [m_fdContexts scheduled]. f_equal. rewrite Nat2Z.id. case_decide; [done|].
  assert (fd < fd * 3 / 2)%nat by (apply Nat.div_le_lower_bound; lia).
  unfold contextResize. rewrite take_ge by lia. rewrite fmap_app, concat_app. rewrite <-list_fmap_compose.
  replace (concat (_ <$> seq _ _)) with (@nil task); [by rewrite app_nil_r|]. symmetry.
  generalize (seq (length (m_fdContexts st)) (fd * 3 / 2 - length (m_fdContexts st))). intros l. by induction l.
Qed.

(** Registering adds one handler, at its place. *)
Lemma addEvent_work st fd event cb who r st' :
  io_inv st → (fd < length (m_fdContexts st) ∨ 2 ≤ fd)%nat → t_scheduler who = true →
  addEvent st (Z.of_nat fd) event cb who = Ok (r, st') →
  io_inv st' ∧
  (r = 0 → work st' ≡ₚ new_handler cb who :: work st) ∧ (r ≠ 0 → work st' ≡ₚ work st) ∧
  ∀ fd' e x, x ∈ handler_at st' fd' e →
    x ∈ handler_at st fd' e ∨ (r = 0 ∧ fd' = fd ∧ e = event ∧ x = new_handler cb who).
Proof.
  intros Hinv Hfd Hsch E. split; [by eapply addEvent_inv|].
  destruct (grown_spec st fd Hinv Hfd) as (Hinv1 & (c & Hc) & Hh1 & _). pose proof (grown_work st fd Hfd) as Hw1.
  revert E. unfold addEvent. fold (grown st fd). change (if decide _ then _ else _) with (m_fdContexts (grown st fd)).
  rewrite context_at_nat, Hc, Nat2Z.id. osimpl. destruct (has (events c) event) eqn:Hn; [done|]. osimpl.
  destruct (epoll_ctl _ _ _ _) as [k|].
  2: { intros [= <- <-]. rewrite Hw1. split_and!; [done|done|]. intros fd' e x. rewrite Hh1. auto. }
  pose proof (inv_ctx _ Hinv1 fd c Hc) as Hok.
  destruct (register_ok fd c event cb (t_fiber who) Hok Hn) as (_ & -> & _ & Hh & Ho).
  set (c' := setContext _ _ _) in *.
  intros (u0 & _ & (u1 & _ & (ctx & Hctx & E)%outcome_bind_ok)%outcome_bind_ok)%outcome_bind_ok.
  assert (setContext (set_events c (Z.lor (events c) (bit event))) event ctx = c') as Hc'.
  { unfold c'. destruct cb; [injection Hctx as <-; by rewrite Hsch|].
    apply outcome_bind_ok in Hctx as (u & _ & [= <-]). by rewrite Hsch. }
  rewrite Hc' in E. injection E as <- <-. clear Hctx Hc'. clearbody c'. split_and!; [|done|].
  - intros _. pose proof (work_update (grown st fd) fd c c' (m_pendingEventCount (grown st fd) + 1) k [] Hc) as Hw.
    destruct (handlers_split c event) as (e' & He' & Hhc). destruct (handlers_split c' event) as (e'' & He'' & Hhc').
    assert (e'' = e') as -> by (destruct event, e', e''; done).
    rewrite Hhc, Hhc', Hh, (Ho e' He'), (proj1 (handler_empty fd c event Hok) Hn), app_nil_r, Hw1 in Hw.
    simpl in Hw. rewrite (Permutation_app_comm (work st)) in Hw. simpl in Hw.
    rewrite (Permutation_app_comm (handler c e')) in Hw. fold (new_handler cb who) in Hw.
    change (new_handler cb who :: work st ++ handler c e')
      with ((new_handler cb who :: work st) ++ handler c e') in Hw.
    by eapply Permutation_app_inv_r in Hw.
  - intros fd' e x. rewrite (handler_at_update (grown st fd) fd c) by done. rewrite Hh1. case_decide as Ef; [|auto].
    subst. destruct (decide (e = event)) as [->|Hne].
    + rewrite Hh. intros ->%list_elem_of_singleton. by right.
    + rewrite (Ho e Hne). left. rewrite <-Hh1. unfold handler_at. by rewrite Hc.
Qed.

(** Registering a callback leaves the fibers alone. *)
Lemma watch_quiet st fd event cb who r st' :
  io_inv st → (2 ≤ fd)%nat → t_scheduler who = true →
  addEvent st (Z.of_nat fd) event (Some cb) who = Ok (r, st') → quiet st st'.
Proof.
  intros Hinv Hfd Hsch E.
  destruct (addEvent_work st fd event (Some cb) who r st' Hinv (or_intror Hfd) Hsch E) as (_ & H0 & H1 & Hh). split.
  - intros f. destruct (decide (r = 0)) as [Hr|Hr]; [|by rewrite H1].
    by rewrite H0, occ_cons, decide_False by done.
  - intros fd' e f [Hx|(_ & _ & _ & [=])]%Hh; done.
Qed.

End work.

(** ** Pending timers *)

(** The callbacks of the timers that have one. *)
Definition pend (heap : gmap positive Timer) : list callback :=
  omap (λ kv, m_cb kv.2) (map_to_list heap).

Lemma omap_perm {A B} (f : A → option B) l1 l2 : l1 ≡ₚ l2 → omap f l1 ≡ₚ omap f l2.
Proof. by intros ->. Qed.

Lemma pend_insert heap t timer :
  heap !! t = None → pend (<[t := timer]> heap) ≡ₚ option_list (m_cb timer) ++ pend heap.
Proof.
  intros Ht. unfold pend. rewrite (omap_perm _ _ _ (map_to_list_insert heap t timer Ht)). simpl.
  by destruct (m_cb timer).
Qed.

Lemma pend_update heap t y timer :
  heap !! t = Some y →
  pend (<[t := timer]> heap) ++ option_list (m_cb y) ≡ₚ pend heap ++ option_list (m_cb timer).
Proof.
  intros Ht. rewrite <-(insert_delete_id heap t y Ht) at 2. rewrite <-(insert_delete_eq heap t).
  rewrite !pend_insert by apply lookup_delete_eq. solve_Permutation.
Qed.

Lemma elem_of_pend heap c :
  c ∈ pend heap ↔ ∃ t timer, heap !! t = Some timer ∧ m_cb timer = Some c.
Proof.
  unfold pend. rewrite list_elem_of_omap. split.
  - intros ([t timer] & Hin%elem_of_map_to_list & Hc). eauto.
  - intros (t & timer & Ht & Hc). exists (t, timer). split; [|done]. by apply elem_of_map_to_list.
Qed.

(** Firing timers that do not recur moves their callbacks out. *)
Lemma pend_fired now_ms l : ∀ heap heap',
  NoDup l → (∀ t, t ∈ l → ∃ y, heap !! t = Some y ∧ m_recurrring y = false) →
  (∀ t, heap' !! t = if decide (t ∈ l) then after_fire now_ms <$> heap !! t else heap !! t) →
  pend heap ≡ₚ omap id (cb_of heap <$> l) ++ pend heap'.
Proof.
  induction l as [|t l IH]; intros heap heap' Hnd Hl Hh.
  { replace heap' with heap; [done|]. apply map_eq. intros t. rewrite Hh.
    by rewrite decide_False by apply not_elem_of_nil. }
  apply NoDup_cons in Hnd as [Htl Hnd]. destruct (Hl t ltac:(by left)) as (y & Hy & Hr).
  pose (heap1 := <[t := after_fire now_ms y]> heap).
  assert (pend heap1 ≡ₚ omap id (cb_of heap1 <$> l) ++ pend heap') as H1.
  { apply IH; [done| |].
    - intros t' Ht'. unfold heap1. rewrite lookup_insert_ne by (intros ->; done). apply Hl. by right.
    - intros t'. rewrite Hh. unfold heap1. destruct (decide (t' = t)) as [->|Hne].
      + rewrite (decide_True (P := t ∈ t :: l)) by (by left). rewrite decide_False by done.
        by rewrite lookup_insert_eq, Hy.
      + rewrite lookup_insert_ne by done. apply decide_ext. set_solver. }
  assert (cb_of heap1 <$> l = cb_of heap <$> l) as E.
  { apply list_fmap_ext. intros i t' Ht'%list_elem_of_lookup_2. unfold cb_of, heap1.
    by rewrite lookup_insert_ne by (intros ->; done). }
  pose proof (pend_update heap t y (after_fire now_ms y) Hy) as Hp. fold heap1 in Hp.
  unfold after_fire in Hp. rewrite Hr in Hp. simpl in Hp. rewrite app_nil_r in Hp.
  rewrite <-Hp, H1, E. simpl. unfold cb_of at 2. rewrite Hy. simpl.
  destruct (m_cb y); simpl; solve_Permutation.
Qed.

Lemma listExpiredCb_previous tm now_ms now_addr cbs tm' :
  listExpiredCb tm now_ms now_addr = Ok (cbs, tm') →
  m_previousTime tm' = now_ms ∨ m_previousTime tm' = m_previousTime tm.
Proof.
  unfold listExpiredCb. destruct (m_timers tm); [intros [= _ <-]; auto|]. simpl.
  case_match; [intros [= _ <-]; auto|]. destruct (expire _ _ _ _) as [[[c h] t]| |]; [|done..]. osimpl.
  intros [= _ <-]. auto.
Qed.

Lemma cancel_previous tm t r tm' : cancel tm t = Ok (r, tm') → m_previousTime tm' = m_previousTime tm.
Proof.
  unfold cancel. destruct (m_heap tm !! t); [|done]. osimpl. case_match; [|by intros [= _ <-]].
  destruct (set_erase _ _); [|done..]. osimpl. by intros [= _ <-].
Qed.

Lemma addTimer_previous tm now t ms cb b :
  m_previousTime (addTimer tm now t ms cb b).1 = m_previousTime tm.
Proof. unfold addTimer, addTimer_locked. by destruct (set_insert _ _ _). Qed.

(** ** The invariant *)

Definition holding (p : pc) : bool := match p with Holding _ => true | _ => false end.

Definition active (p : pc) : bool := match p with Returned _ _ | TimedOut _ => false | _ => true end.

Definition timer_of (p : pc) : option positive :=
  match p with Registering t | Holding t | Resumed t => t | _ => None end.

(** A timer of a call: its callback is the timeout of a call, or gone. *)
Definition call_timer (timer : Timer) : Prop := ∀ f, m_cb timer ≠ Some (Plain f).

Section hooks.
Context {K : Type} `{Epoll K} (steady : bool).
Implicit Types st : hooks (K := K).

(** Not later, as far as the clock is steady. *)
Definition by_then (t now : Z) : Prop := steady = true → t <= now.

Lemma by_then_trans a b c : by_then a b → by_then b c → by_then a c.
Proof. intros Hab Hbc Hs. specialize (Hab Hs). specialize (Hbc Hs). lia. Qed.

Definition holds st (f : nat) : bool :=
  match h_frames st !! f with Some fr => holding (fr_pc fr) | None => false end.

(** In how many places the fiber [f] is waiting to be woken: handlers, queued
    tasks, sleep timers and queued callbacks of sleep timers. *)
Definition wakers st (f : nat) : nat :=
  (occ (TaskFiber f) (work (h_io st)) +
   occ (Plain f) (pend (m_heap (h_tm st)) ++ h_tasks st))%nat.

(** The timeout of the call [i] has passed. *)
Definition overdue st (i : nat) : Prop :=
  ∃ fr, h_closures st !! i = Some fr ∧ by_then (fr_start fr + fr_to fr) (h_now st).

(** What holds of the timers, the calls and the clock. *)
Record h_core st : Prop := {
  hi_io : io_inv (h_io st);
  hi_tm : tm_inv (h_tm st);
  hi_once t timer : m_heap (h_tm st) !! t = Some timer → m_recurrring timer = false;
  hi_prev : by_then (m_previousTime (h_tm st)) (h_now st);
  hi_timer f fr t : h_frames st !! f = Some fr → timer_of (fr_pc fr) = Some t →
    ∃ timer, m_heap (h_tm st) !! t = Some timer ∧ call_timer timer;
  hi_info f fr : h_frames st !! f = Some fr →
    is_Some (h_infos st !! fr_info fr) ↔ active (fr_pc fr) = true;
  hi_closure f fr : h_frames st !! f = Some fr → (2 ≤ fr_fd fr)%nat ∧
    ∃ p, h_closures st !! fr_info fr = Some (set_pc fr p);
  hi_distinct f g a b : h_frames st !! f = Some a → h_frames st !! g = Some b →
    fr_info a = fr_info b → f = g;
  hi_start i fr : h_closures st !! i = Some fr → by_then (fr_start fr) (h_now st);
  hi_known i : is_Some (h_infos st !! i) → is_Some (h_closures st !! i);
  hi_heap t timer i j : m_heap (h_tm st) !! t = Some timer → m_cb timer = Some (onTimer_bound i j) →
    j = i ∧ ∃ fr, h_closures st !! i = Some fr ∧ by_then (fr_start fr + fr_to fr) (m_next timer);
  hi_tasks i j : onTimer_bound i j ∈ h_tasks st → j = i ∧ overdue st i;
  hi_cancelled i c : h_infos st !! i = Some c → c ≠ 0 → c = ETIMEDOUT ∧ overdue st i;
  hi_timed f fr e : h_frames st !! f = Some fr → fr_pc fr = TimedOut e →
    e = ETIMEDOUT ∧ by_then (fr_start fr + fr_to fr) (h_now st)
}.

(** A handler belongs to a fiber that is held at its place. *)
Definition placed st : Prop := ∀ fd e g, TaskFiber g ∈ handler_at (h_io st) fd e →
  ∃ fr, h_frames st !! g = Some fr ∧ holding (fr_pc fr) = true ∧ fr_fd fr = fd ∧ fr_event fr = e.

Record h_inv st : Prop := {
  hi_core : h_core st;
  hi_wake f : wakers st f = if holds st f then 1%nat else 0%nat;
  hi_place : placed st
}.

Lemma holds_set_frame st f fr g :
  holds (set_frame st f fr) g = if decide (g = f) then holding (fr_pc fr) else holds st g.
Proof.
  unfold holds. simpl. case_decide as E; [subst; by rewrite lookup_insert_eq|].
  by rewrite lookup_insert_ne.
Qed.

(** Moving the program counter of a fiber. *)
Lemma set_pc_core st f fr p :
  h_core st → h_frames st !! f = Some fr →
  (∀ t, timer_of p = Some t → ∃ timer, m_heap (h_tm st) !! t = Some timer ∧ call_timer timer) →
  active p = true → active (fr_pc fr) = true → h_core (set_frame st f (set_pc fr p)).
Proof.
  intros Hi Hf Ht Hp Ha. destruct Hi. split; simpl; try done.
  - intros g fr0 t. rewrite lookup_insert_Some. intros [[<- <-]|[_ Hg]]; [by apply Ht|by eauto].
  - intros g fr0. rewrite lookup_insert_Some. intros [[<- <-]|[_ Hg]]; [|by eauto]. simpl.
    rewrite (hi_info0 f fr Hf). by rewrite Hp, Ha.
  - intros g fr0. rewrite lookup_insert_Some. intros [[<- <-]|[_ Hg]]; [|by eauto].
    destruct (hi_closure0 f fr Hf) as [? [q Hq]]. split; [done|]. exists q. simpl. by rewrite Hq.
  - intros g1 g2 a b. rewrite !lookup_insert_Some.
    intros [[<- <-]|[_ H1]] [[<- <-]|[_ H2]]; simpl; try done; intros E; eauto.
  - intros g fr0 e. rewrite lookup_insert_Some. intros [[<- <-]|[_ Hg]]; [|by eauto]. simpl.
    intros ->. done.
Qed.

(** A fiber that is held in neither state keeps its place. *)
Lemma placed_frame st st' f fr p :
  placed st → h_io st' = h_io st → h_frames st' = <[f := set_pc fr p]> (h_frames st) →
  h_frames st !! f = Some fr → holding p = holding (fr_pc fr) → placed st'.
Proof.
  intros Hpl Hio Hfr Hf Hh fd e g. rewrite Hio, Hfr. intros Hg.
  destruct (Hpl fd e g Hg) as (fr0 & H1 & H2 & H3 & H4).
  destruct (decide (g = f)) as [->|Hne]; [|rewrite lookup_insert_ne by done; by exists fr0].
  rewrite lookup_insert_eq. rewrite Hf in H1. injection H1 as ->. exists (set_pc fr0 p). simpl.
  by rewrite Hh.
Qed.

Lemma set_pc_inv st f fr p :
  h_inv st → h_frames st !! f = Some fr → holding p = holding (fr_pc fr) →
  (∀ t, timer_of p = Some t → ∃ timer, m_heap (h_tm st) !! t = Some timer ∧ call_timer timer) →
  active p = true → active (fr_pc fr) = true → h_inv (set_frame st f (set_pc fr p)).
Proof.
  intros Hi Hf Hh Ht Hp Ha. split; [by apply set_pc_core; [apply Hi|..]| |].
  - intros g. rewrite holds_set_frame. change (wakers (set_frame st f (set_pc fr p)) g) with (wakers st g).
    rewrite (hi_wake st Hi). case_decide as E; [subst|done]. simpl. unfold holds. by rewrite Hf, Hh.
  - by eapply placed_frame; [apply Hi|..].
Qed.

(** Returning. *)
Lemma finish_core st f fr p :
  h_core st → h_frames st !! f = Some fr → active p = false →
  (∀ e, p = TimedOut e → e = ETIMEDOUT ∧ by_then (fr_start fr + fr_to fr) (h_now st)) →
  h_core (finish st f fr p).
Proof.
  intros Hi Hf Hp Ht. destruct Hi. split; simpl; try done.
  - intros g fr0 t. rewrite lookup_insert_Some. intros [[<- <-]|[_ Hg]]; [|by eauto]. by destruct p.
  - intros g fr0. rewrite lookup_insert_Some. intros [[<- <-]|[Hne Hg]]; simpl.
    + rewrite lookup_delete_eq, Hp. split; [by intros []|done].
    + rewrite lookup_delete_ne by (intros E; by destruct Hne; eapply hi_distinct0). by eauto.
  - intros g fr0. rewrite lookup_insert_Some. intros [[<- <-]|[_ Hg]]; [|by eauto].
    destruct (hi_closure0 f fr Hf) as [? [q Hq]]. split; [done|]. exists q. simpl. by rewrite Hq.
  - intros g1 g2 a b. rewrite !lookup_insert_Some.
    intros [[<- <-]|[_ H1]] [[<- <-]|[_ H2]]; simpl; try done; intros E; eauto.
  - intros i [c Hc]. apply lookup_delete_Some in Hc as [_ Hc]. by eauto.
  - intros i c Hc. apply lookup_delete_Some in Hc as [_ Hc]. by eauto.
  - intros g fr0 e. rewrite lookup_insert_Some. intros [[<- <-]|[_ Hg]]; [|by eauto]. simpl. apply Ht.
Qed.

Lemma finish_inv st f fr p :
  h_inv st → h_frames st !! f = Some fr → holding (fr_pc fr) = false → active p = false →
  (∀ e, p = TimedOut e → e = ETIMEDOUT ∧ by_then (fr_start fr + fr_to fr) (h_now st)) →
  h_inv (finish st f fr p).
Proof.
  intros Hi Hf Hh Hp Ht. assert (holding p = false) as Hhp by by destruct p.
  split; [by apply finish_core; [apply Hi|..]| |].
  - intros g. change (wakers (finish st f fr p) g) with (wakers st g).
    rewrite (hi_wake st Hi). unfold holds. simpl. destruct (decide (g = f)) as [->|Hne].
    + rewrite lookup_insert_eq, Hf, Hh. simpl. by rewrite Hhp.
    + by rewrite lookup_insert_ne.
  - eapply (placed_frame st _ f fr p); [apply Hi|done|done|done|congruence].
Qed.

Lemma set_io_core st io : h_core st → io_inv io → h_core (set_io st io).
Proof. intros [] Hio. by split. Qed.

(** Changing the event loop without changing the work in it. *)
Lemma set_io_inv st io :
  h_inv st → io_inv io → quiet (h_io st) io → h_inv (set_io st io).
Proof.
  intros Hi Hio [Hw Hq]. split; [by apply set_io_core; [apply Hi|]| |].
  - intros f. change (holds (set_io st io) f) with (holds st f). rewrite <-(hi_wake st Hi).
    unfold wakers. simpl. by rewrite Hw.
  - intros fd e g Hg. by apply (hi_place st Hi fd e), Hq.
Qed.

(** Changing the timers and the queued callbacks. *)
Lemma set_tm_core st tm tasks :
  h_core st → tm_inv tm → by_then (m_previousTime tm) (h_now st) →
  (∀ t timer, m_heap tm !! t = Some timer → ∃ timer0, m_heap (h_tm st) !! t = Some timer0 ∧
     m_recurrring timer = m_recurrring timer0 ∧ m_next timer = m_next timer0 ∧
     (m_cb timer = None ∨ m_cb timer = m_cb timer0)) →
  (∀ t, is_Some (m_heap (h_tm st) !! t) → is_Some (m_heap tm !! t)) →
  (∀ i j, onTimer_bound i j ∈ tasks → j = i ∧ overdue st i) →
  h_core (set_tm st tm tasks).
Proof.
  intros Hi Htm Hprev Hheap Hdom Htasks. destruct Hi. split; simpl; try done.
  - intros t timer Ht. destruct (Hheap t timer Ht) as (timer0 & Ht0 & -> & _). by eauto.
  - intros f fr t Hf Ht. destruct (hi_timer0 f fr t Hf Ht) as (timer0 & Ht0 & Hc).
    destruct (Hdom t) as [timer Ht']; [by eexists|]. exists timer. split; [done|].
    destruct (Hheap t timer Ht') as (timer1 & Ht1 & _ & _ & Hcb). rewrite Ht0 in Ht1.
    injection Ht1 as <-. intros g Hg. destruct Hcb as [Hcb|Hcb]; [congruence|]. apply (Hc g). congruence.
  - intros t timer i j Ht Hcb. destruct (Hheap t timer Ht) as (timer0 & Ht0 & _ & -> & Hcb0).
    destruct Hcb0 as [Hcb0|Hcb0]; [congruence|]. apply (hi_heap0 t timer0 i j); congruence.
Qed.

Lemma set_tm_inv st tm tasks :
  h_inv st → h_core (set_tm st tm tasks) →
  (∀ f, occ (Plain f) (pend (m_heap tm) ++ tasks) =
        occ (Plain f) (pend (m_heap (h_tm st)) ++ h_tasks st)) →
  h_inv (set_tm st tm tasks).
Proof.
  intros Hi Hc Hocc. split; [done| |apply Hi].
  intros f. change (holds (set_tm st tm tasks) f) with (holds st f). rewrite <-(hi_wake st Hi).
  unfold wakers. simpl. by rewrite Hocc.
Qed.

(** A new timer: of a call whose deadline is not later, or of a sleep. *)
Lemma add_timer_core st t ms cb :
  h_core st → m_heap (h_tm st) !! t = None →
  (∀ i j, cb = onTimer_bound i j → j = i ∧ ∃ fr, h_closures st !! i = Some fr ∧
     by_then (fr_start fr + fr_to fr) (u64 (h_now st + ms))) →
  let tm := (addTimer (h_tm st) (h_now st) t ms (Some cb) false).1 in
  h_core (set_tm st tm (h_tasks st)) ∧
  m_heap tm !! t = Some (Timer_new (h_now st) ms (Some cb) false) ∧
  pend (m_heap tm) ≡ₚ cb :: pend (m_heap (h_tm st)).
Proof.
  intros Hi Ht Hcb tm.
  destruct (addTimer_spec (h_tm st) (h_now st) t ms (Some cb) false (hi_tm st Hi) Ht) as (Htm & Hheap & _).
  fold tm in Htm, Hheap. split_and!.
  - destruct Hi. split; simpl; try done.
    + intros t' timer. rewrite Hheap, lookup_insert_Some. intros [[<- <-]|[_ Ht']]; [done|by eauto].
    + unfold tm. by rewrite addTimer_previous.
    + intros f fr t' Hf Ht'. destruct (hi_timer0 f fr t' Hf Ht') as (timer & Htt & Hc).
      exists timer. split; [|done]. rewrite Hheap. by rewrite lookup_insert_ne by (intros ->; congruence).
    + intros t' timer i j. rewrite Hheap, lookup_insert_Some. intros [[<- <-]|[_ Ht']]; [|by eauto].
      simpl. intros [= ->]. by apply Hcb.
  - by rewrite Hheap, lookup_insert_eq.
  - rewrite Hheap. by rewrite pend_insert.
Qed.

Lemma occ_call_timer timer f : call_timer timer → occ (Plain f) (option_list (m_cb timer)) = 0%nat.
Proof.
  intros Hc. specialize (Hc f). destruct (m_cb timer) as [c|]; [|done]. simpl.
  rewrite occ_cons, decide_False by congruence. done.
Qed.

(** Dropping the timer of a call. *)
Lemma drop_timer_inv st f fr :
  h_inv st → h_frames st !! f = Some fr →
  ∃ st', drop_timer st (timer_of (fr_pc fr)) = Ok st' ∧ h_inv st' ∧
    h_frames st' = h_frames st ∧ h_infos st' = h_infos st ∧ h_now st' = h_now st ∧
    h_closures st' = h_closures st ∧ h_io st' = h_io st.
Proof.
  intros Hi Hf. unfold drop_timer. destruct (timer_of (fr_pc fr)) as [t|] eqn:Et.
  2: { exists st. by split_and!. }
  pose proof (hi_core st Hi) as Hcore. destruct (hi_timer st Hcore f fr t Hf Et) as (timer & Ht & Hc).
  destruct (cancel_spec (h_tm st) t timer (hi_tm st Hcore) Ht) as (tm' & E & Htm & Hnone & Hsome).
  pose proof (cancel_previous _ _ _ _ E) as Hprev. rewrite E. osimpl. eexists. split; [done|].
  split; [|by split_and!]. destruct (m_cb timer) as [cb|] eqn:Ecb.
  2: { rewrite Hnone by done. by destruct st. }
  destruct Hsome as [Hheap _]; [by eexists|].
  apply set_tm_inv; [done|apply set_tm_core; [done|done|rewrite Hprev; by apply hi_prev| | |by apply hi_tasks]|].
  - intros t' timer'. rewrite Hheap, lookup_insert_Some.
    intros [[<- <-]|[_ Ht']]; [exists timer; by auto|exists timer'; by auto].
  - intros t' Ht'. rewrite Hheap. destruct (decide (t' = t)) as [->|]; [by rewrite lookup_insert_eq|].
    by rewrite lookup_insert_ne.
  - intros g. pose proof (pend_update (m_heap (h_tm st)) t timer
      (mkTimer (m_recurrring timer) (m_ms timer) (m_next timer) None) Ht) as Hp.
    rewrite <-Hheap in Hp. simpl in Hp. rewrite app_nil_r in Hp. rewrite !occ_app, <-Hp, occ_app.
    rewrite occ_call_timer by done. lia.
Qed.

(** ** The steps *)

Lemma enter_core st f k fd event to info :
  h_core st → (2 ≤ fd)%nat → h_closures st !! info = None → h_core (enter st f k fd event to info).
Proof.
  intros Hi Hfd Hfresh.
  assert (∀ g fr, h_frames st !! g = Some fr → fr_info fr ≠ info) as Hne.
  { intros g fr Hg E. destruct (hi_closure st Hi g fr Hg) as [_ [p Hp]]. congruence. }
  assert (∀ i, overdue st i → overdue (enter st f k fd event to info) i) as Hover.
  { intros i (fr & Hfr & Hd). exists fr. split; [|done]. simpl.
    by rewrite lookup_insert_ne by (intros ->; congruence). }
  destruct Hi. split; simpl; try done.
  - intros g fr t. rewrite lookup_insert_Some. intros [[<- <-]|[_ Hg]]; [by destruct k|by eauto].
  - intros g fr. rewrite lookup_insert_Some. intros [[<- <-]|[_ Hg]]; simpl.
    + rewrite lookup_insert_eq. by destruct k.
    + rewrite lookup_insert_ne by (intros E; by eapply Hne). by eauto.
  - intros g fr. rewrite lookup_insert_Some. intros [[<- <-]|[_ Hg]].
    + split; [done|]. eexists. simpl. by rewrite lookup_insert_eq.
    + rewrite lookup_insert_ne by (intros E; by eapply Hne). by eauto.
  - intros g1 g2 a b. rewrite !lookup_insert_Some.
    intros [[<- <-]|[_ H1]] [[<- <-]|[_ H2]]; simpl; try done; intros E; [|by exfalso; eapply Hne|by eauto].
    exfalso. by eapply Hne.
  - intros i fr. rewrite lookup_insert_Some. intros [[<- <-]|[_ Hg]]; [by intros _|by eauto].
  - intros i. destruct (decide (i = info)) as [->|]; [by rewrite !lookup_insert_eq|].
    rewrite !lookup_insert_ne by done. by eauto.
  - intros t timer i j Ht Hcb. destruct (hi_heap0 t timer i j Ht Hcb) as [-> (fr & Hfr & Hd)].
    split; [done|]. exists fr. split; [|done]. by rewrite lookup_insert_ne by (intros ->; congruence).
  - intros i j Hij. destruct (hi_tasks0 i j Hij) as [-> Ho]. split; [done|]. by apply Hover.
  - intros i c. rewrite lookup_insert_Some. intros [[<- <-]|[_ Hg]] Hc; [done|].
    destruct (hi_cancelled0 i c Hg Hc) as [-> Ho]. split; [done|]. by apply Hover.
  - intros g fr e. rewrite lookup_insert_Some. intros [[<- <-]|[_ Hg]]; [by destruct k|by eauto].
Qed.

Lemma hook_enter_inv st f k fd event to info :
  h_inv st → holds st f = false → (2 ≤ fd)%nat → h_closures st !! info = None →
  h_inv (enter st f k fd event to info).
Proof.
  intros Hi Hh Hfd Hfresh. split; [by apply enter_core; [apply Hi|..]| |].
  - intros g. change (wakers (enter st f k fd event to info) g) with (wakers st g).
    rewrite (hi_wake st Hi). unfold holds in *. simpl. destruct (decide (g = f)) as [->|Hg].
    + rewrite lookup_insert_eq, Hh. by destruct k.
    + by rewrite lookup_insert_ne.
  - intros fd' e g Hg. destruct (hi_place st Hi fd' e g Hg) as (fr0 & H1 & H2 & H3 & H4).
    destruct (decide (g = f)) as [->|]; [unfold holds in Hh; rewrite H1 in Hh; congruence|].
    simpl. rewrite lookup_insert_ne by done. by exists fr0.
Qed.

Lemma called_inv st f fr n errno :
  h_inv st → h_frames st !! f = Some fr → fr_pc fr = Calling → h_inv (called st f fr n errno).
Proof.
  intros Hi Hf Hp. unfold called.
  destruct (fr_kind fr); repeat case_decide;
    first [apply set_pc_inv|apply finish_inv]; try done; rewrite ?Hp; auto.
Qed.

Lemma checked_inv st f fr error errno :
  h_inv st → h_frames st !! f = Some fr → fr_pc fr = Checking → h_inv (checked st f fr error errno).
Proof.
  intros Hi Hf Hp. unfold checked. destruct error; [case_decide|];
    apply finish_inv; try done; by rewrite Hp.
Qed.

(** A fiber that becomes held, with one more waker. *)
Lemma hold_inv st st' f fr p :
  h_inv st → h_frames st !! f = Some fr → holding (fr_pc fr) = false → holding p = true →
  h_core st' → h_frames st' = <[f := set_pc fr p]> (h_frames st) →
  (∀ g, wakers st' g = wakers st g + if decide (g = f) then 1 else 0)%nat → placed st' → h_inv st'.
Proof.
  intros Hi Hf Hh Hp Hc Hfr Hw Hpl. split; [done| |done].
  intros g. rewrite Hw, (hi_wake st Hi). unfold holds. rewrite Hfr. case_decide as E.
  - subst g. rewrite lookup_insert_eq, Hf, Hh. simpl. by rewrite Hp.
  - rewrite lookup_insert_ne by done. lia.
Qed.

Lemma arm_inv st f fr t :
  h_inv st → h_frames st !! f = Some fr → fr_pc fr = Arming → m_heap (h_tm st) !! t = None →
  (fr_to fr ≠ NO_TIMEOUT → 0 <= h_now st + fr_to fr < 2 ^ 64) → h_inv (arm st f fr t).
Proof.
  intros Hi Hf Hp Ht Hto. pose proof (hi_core st Hi) as Hc.
  destruct (hi_closure st Hc f fr Hf) as [_ [q Hq]].
  assert (h_inv (set_frame st f (set_pc fr (Registering None)))) as Hnone.
  { apply set_pc_inv; try done; by rewrite Hp. }
  assert (fr_to fr ≠ NO_TIMEOUT → h_inv (set_frame (set_tm st (addConditionTimer (h_tm st) (h_now st) t
    (fr_to fr) (fr_info fr) (fr_info fr) false).1 (h_tasks st)) f (set_pc fr (Registering (Some t))))) as Hsome.
  { intros Hne. unfold addConditionTimer.
    destruct (add_timer_core st t (fr_to fr) (onTimer_bound (fr_info fr) (fr_info fr)) Hc Ht)
      as (Hcore & Hlook & Hpend).
    { intros i j [= <- <-]. split; [done|]. exists (set_pc fr q). split; [done|]. simpl.
      rewrite uwrap_small by by apply Hto. pose proof (hi_start st Hc _ _ Hq) as Hs. intros Hst. specialize (Hs Hst). simpl in *. lia. }
    apply set_pc_inv; try (by rewrite ?Hp); try done.
    - apply set_tm_inv; [done|done|]. intros g. rewrite !occ_app, Hpend, occ_cons.
      rewrite decide_False by done. done.
    - intros t' [= <-]. eexists. split; [exact Hlook|]. intros g. done. }
  unfold arm. destruct (fr_kind fr) as [| |ms]; [case_decide; auto..|].
  destruct (add_timer_core st t ms (Plain f) Hc Ht) as (Hcore & Hlook & Hpend); [done|].
  eapply (hold_inv st _ f fr (Holding None)); try done.
  - by rewrite Hp.
  - apply set_pc_core; try done. by rewrite Hp.
  - intros g. unfold wakers. simpl. rewrite !occ_app, Hpend, occ_cons. repeat case_decide; simplify_eq; lia.
  - intros fd e g Hg. simpl in *. destruct (hi_place st Hi fd e g Hg) as (fr0 & H1 & H2 & H3 & H4).
    rewrite lookup_insert_ne by (intros ->; rewrite Hf in H1; simplify_eq; by rewrite Hp in H2). by exists fr0.
Qed.

Lemma register_inv st f fr timer errno st' :
  h_inv st → h_frames st !! f = Some fr → fr_pc fr = Registering timer →
  register st f fr timer errno = Ok st' → h_inv st'.
Proof.
  intros Hi Hf Hp E. pose proof (hi_core st Hi) as Hc. unfold register in E.
  destruct (hi_closure st Hc f fr Hf) as [Hfd _].
  destruct (addEvent _ _ _ _ _) as [[rt io]| |] eqn:Ea; [|done..]. osimpl in E.
  destruct (addEvent_work _ _ _ None (running f) _ _ (hi_io st Hc) (or_intror Hfd) eq_refl Ea) as (Hio & Hw0 & Hwn & Hsub).
  change (new_handler None (running f)) with (TaskFiber f) in *.
  case_decide as Hrt.
  - injection E as <-. eapply (hold_inv st _ f fr (Holding timer)); try done.
    + by rewrite Hp.
    + apply set_pc_core; [by apply set_io_core|done| |done|by rewrite Hp].
      intros t Ht. apply (hi_timer st Hc f fr); [done|]. by rewrite Hp.
    + intros g. unfold wakers. simpl. rewrite Hw0, occ_cons by done.
      repeat case_decide; simplify_eq; lia.
    + intros fd e g Hg. simpl in *. destruct (Hsub fd e _ Hg) as [H1|(_ & -> & -> & [= ->])].
      * destruct (hi_place st Hi fd e g H1) as (fr0 & ? & H3 & ?).
        rewrite lookup_insert_ne by (intros ->; simplify_eq; by rewrite Hp in H3). by exists fr0.
      * rewrite lookup_insert_eq. eexists. by split_and!.
  - assert (h_inv (set_io st io)) as Hi1.
    { apply set_io_inv; [done|done|]. split; [intros g; by rewrite Hwn|]. intros fd e g Hx.
      destruct (Hsub fd e _ Hx) as [?|[? _]]; [done|done]. }
    destruct (drop_timer_inv (set_io st io) f fr Hi1 Hf) as (st1 & E1 & Hi2 & Hfr & _).
    rewrite Hp in E1. simpl in E1. rewrite E1 in E. osimpl in E. injection E as <-.
    assert (h_frames st1 !! f = Some fr) as Hf1 by by rewrite Hfr.
    destruct (fr_kind fr); first [apply set_pc_inv|apply finish_inv]; try done; rewrite ?Hp; done.
Qed.

Lemma resume_inv st f fr timer l1 l2 :
  h_inv st → h_frames st !! f = Some fr → fr_pc fr = Holding timer →
  scheduled (h_io st) = l1 ++ TaskFiber f :: l2 →
  h_inv (set_frame (unschedule st l1 l2) f (set_pc fr (Resumed timer))).
Proof.
  intros Hi Hf Hp Hs. pose proof (hi_core st Hi) as Hc.
  assert (∀ g, wakers (unschedule st l1 l2) g + (if decide (g = f) then 1 else 0) = wakers st g)%nat as Hw.
  { intros g. unfold wakers, work. simpl. rewrite !occ_app, Hs, occ_app, occ_cons.
    repeat case_decide; simplify_eq; lia. }
  split.
  - apply set_pc_core; [|done| |done|by rewrite Hp].
    + apply set_io_core; [done|]. destruct (hi_io st Hc). by split.
    + intros t Ht. apply (hi_timer st Hc f fr); [done|]. by rewrite Hp.
  - intros g. change (wakers (set_frame (unschedule st l1 l2) f (set_pc fr (Resumed timer))) g)
      with (wakers (unschedule st l1 l2) g). specialize (Hw g). rewrite (hi_wake st Hi) in Hw.
    rewrite holds_set_frame. case_decide as E.
    + subst g. simpl. unfold holds in Hw. rewrite Hf, Hp in Hw. simpl in Hw. lia.
    + change (holds (unschedule st l1 l2) g) with (holds st g). lia.
  - intros fd e g Hg. simpl in *.
    destruct (hi_place st Hi fd e g Hg) as (fr0 & H1 & H2 & H3 & H4).
    destruct (decide (g = f)) as [->|]; [|rewrite lookup_insert_ne by done; by exists fr0]. exfalso.
    specialize (Hw f). rewrite (hi_wake st Hi) in Hw. unfold holds in Hw. rewrite Hf, Hp in Hw.
    rewrite decide_True in Hw by done. simpl in Hw.
    assert (0 < occ (TaskFiber f) (concat (handlers <$> m_fdContexts (h_io st))))%nat as Hpos.
    { change (handler_at _ fd e) with (handler_at (h_io st) fd e) in Hg. unfold handler_at in Hg.
      destruct (m_fdContexts (h_io st) !! fd) as [c|] eqn:Hcx; [|by apply elem_of_nil in Hg].
      apply occ_pos, list_elem_of_In, in_concat. exists (handlers c).
      split; apply list_elem_of_In; [apply list_elem_of_fmap; eauto using list_elem_of_lookup_2|].
      unfold handlers. destruct e; set_solver. }
    unfold wakers, work in Hw. simpl in Hw. rewrite !occ_app in Hw. lia.
Qed.

Lemma back_inv st f fr timer st' :
  h_inv st → h_frames st !! f = Some fr → fr_pc fr = Resumed timer →
  back st f fr timer = Ok st' → h_inv st'.
Proof.
  intros Hi Hf Hp E. unfold back in E.
  destruct (drop_timer_inv st f fr Hi Hf) as (st1 & E1 & Hi1 & Hfr & Hinf & Hnow & Hcl & _).
  rewrite Hp in E1. simpl in E1. rewrite E1 in E. osimpl in E.
  assert (h_frames st1 !! f = Some fr) as Hf1 by by rewrite Hfr.
  assert (∀ c, h_infos st1 !! fr_info fr = Some c → c ≠ 0 → h_inv (finish st1 f fr (TimedOut c))) as Hto.
  { intros c Hcc Hc0. apply finish_inv; try done; [by rewrite Hp|]. intros e [= <-].
    destruct (hi_cancelled st1 (hi_core _ Hi1) _ _ Hcc Hc0) as [-> (fr0 & Hfr0 & Hd)].
    split; [done|]. destruct (hi_closure st1 (hi_core _ Hi1) f fr Hf1) as [_ [q Hq]].
    rewrite Hq in Hfr0. by injection Hfr0 as <-. }
  assert (∀ p, timer_of p = None → holding p = false → active p = true →
    h_inv (set_frame st1 f (set_pc fr p))) as Hset.
  { intros p Hpt Hph Hpa. apply set_pc_inv; try done; rewrite ?Hp; try done. by rewrite Hpt. }
  destruct (fr_kind fr).
  1-2: destruct (h_infos st1 !! fr_info fr) as [c|] eqn:Ec; [|done]; osimpl in E;
    case_decide; injection E as <-; by auto.
  injection E as <-. apply finish_inv; try done; by rewrite Hp.
Qed.

Lemma time_inv st now :
  h_inv st → by_then (h_now st) now →
  h_inv (mkHooks (h_io st) (h_tm st) (h_tasks st) now (h_infos st) (h_closures st) (h_frames st)).
Proof.
  intros Hi Hn. split; [|apply Hi|apply Hi]. pose proof (hi_core st Hi) as [].
  assert (∀ i, overdue st i → ∃ fr, h_closures st !! i = Some fr ∧ by_then (fr_start fr + fr_to fr) now) as Hover.
  { intros i (fr & ? & ?). exists fr. split; [done|by eapply by_then_trans]. }
  split; simpl; try done.
  - by eapply by_then_trans.
  - intros i fr Hfr. by eapply by_then_trans, Hn; eauto.
  - intros i j Hij. destruct (hi_tasks0 i j Hij) as [-> Ho]. split; [done|]. by apply Hover.
  - intros i c Hc Hc0. destruct (hi_cancelled0 i c Hc Hc0) as [-> Ho]. split; [done|]. by apply Hover.
  - intros f fr e Hf He. destruct (hi_timed0 f fr e Hf He) as [-> ?]. split; [done|by eapply by_then_trans].
Qed.

Lemma expire_inv st now_addr st' :
  h_inv st → expire_timers st now_addr = Ok st' → h_inv st'.
Proof.
  intros Hi E. pose proof (hi_core st Hi) as Hc. unfold expire_timers in E.
  destruct (listExpiredCb_spec (h_tm st) (h_now st) now_addr (hi_tm st Hc)) as (tm' & El & Htm & Hfired).
  pose proof (listExpiredCb_previous _ _ _ _ _ El) as Hprev. rewrite El in E. osimpl in E. injection E as <-.
  set (l := fires (h_tm st) (h_now st)) in *.
  assert (NoDup l ∧ ∀ t, t ∈ l → t ∈ m_timers (h_tm st) ∧ by_then (next_of (m_heap (h_tm st)) t) (h_now st)) as [Hnd Hl].
  { pose proof (ok_ordered _ _ (inv_timers _ (hi_tm st Hc))) as Ho.
    assert (NoDup (m_timers (h_tm st))) as Hn by (eapply ordered_NoDup; [apply timer_lt_strict|apply all_true|exact Ho]).
    unfold l, fires, detectedClockRollover. simpl.
    destruct (bool_decide (h_now st < _)) eqn:Hb; simpl.
    - apply bool_decide_eq_true in Hb. assert (∀ x, by_then x (h_now st)) as Hany.
      { intros x Hs. pose proof (hi_prev st Hc Hs). lia. }
      case_match; [by split|]. split; [by apply NoDup_filter|]. by intros t [_ Ht]%list_elem_of_filter.
    - split; [by apply NoDup_filter|]. intros t [Hd Ht]%list_elem_of_filter. split; [done|]. intros _. exact Hd. }
  assert (∀ t, t ∈ l → ∃ y, m_heap (h_tm st) !! t = Some y ∧ m_recurrring y = false) as Hex.
  { intros t Ht. destruct (ok_exist _ _ (inv_timers _ (hi_tm st Hc)) t) as [y Hy]; [by apply Hl|].
    exists y. split; [done|]. by eapply (hi_once st Hc). }
  pose proof (pend_fired (h_now st) l _ _ Hnd Hex (fired_heap _ _ _ _ Hfired)) as Hpend.
  apply set_tm_inv; [done| |].
  - apply set_tm_core; [done|done|destruct Hprev as [-> | ->]; [by intros _|by apply (hi_prev st Hc)]| | |].
    + intros t timer Ht. rewrite (fired_heap _ _ _ _ Hfired) in Ht.
      case_decide as Hin; [|exists timer; by auto]. destruct (Hex t Hin) as (y & Hy & Hr).
      rewrite Hy in Ht. simpl in Ht. injection Ht as <-. exists y. unfold after_fire. rewrite Hr. simpl. by auto.
    + intros t [y Hy]. rewrite (fired_heap _ _ _ _ Hfired), Hy. by case_decide.
    + intros i j [Hij|Hij]%elem_of_app; [by apply (hi_tasks st Hc)|].
      apply list_elem_of_omap in Hij as (cb & Hcb & Hid). apply list_elem_of_fmap in Hcb as (t & -> & Ht).
      destruct (Hex t Ht) as (y & Hy & _). unfold cb_of in Hid. rewrite Hy in Hid. simpl in Hid.
      destruct (hi_heap st Hc t y i j Hy Hid) as [-> (fr & Hfr & Hd)]. split; [done|]. exists fr.
      split; [done|]. destruct (Hl t Ht) as [_ Hn]. unfold next_of in Hn. rewrite Hy in Hn. by eapply by_then_trans.
  - intros f. rewrite !occ_app, Hpend, occ_app. lia.
Qed.

Lemma run_inv st l1 c l2 st' :
  h_inv st → h_tasks st = l1 ++ c :: l2 →
  run_callback (set_tm st (h_tm st) (l1 ++ l2)) c = Ok st' → h_inv st'.
Proof.
  intros Hi Ht E. pose proof (hi_core st Hi) as Hc. set (st1 := set_tm st (h_tm st) (l1 ++ l2)) in *.
  assert (h_core st1) as Hc1.
  { apply set_tm_core; [done|apply (hi_tm st Hc)|apply (hi_prev st Hc)|by eauto 10|done|].
    intros i j Hij. apply (hi_tasks st Hc). rewrite Ht. set_solver. }
  destruct c as [f|i j].
  - injection E as <-. split.
    + apply set_io_core; [done|]. destruct (hi_io st Hc). by split.
    + intros g. change (holds (schedule_fiber st1 f) g) with (holds st g). rewrite <-(hi_wake st Hi).
      unfold wakers, work. simpl. rewrite Ht, !occ_app, !occ_cons, occ_nil.
      repeat case_decide; simplify_eq; lia.
    + apply (hi_place st Hi).
  - assert (h_inv st1) as Hi1.
    { apply set_tm_inv; [done|done|]. intros f. rewrite Ht, !occ_app, occ_cons, decide_False by done. lia. }
    destruct (hi_tasks st Hc i j) as [-> Hover]; [rewrite Ht; set_solver|].
    unfold run_callback in E. simpl in E. unfold onTimer in E.
    destruct (alive st1 i); [|by injection E as <-]. unfold timeout_cb in E.
    destruct (h_infos st1 !! i) as [cancelled|] eqn:Ei; [|by injection E as <-].
    case_decide as Hcan; [by injection E as <-|].
    destruct (h_closures st1 !! i) as [fr|] eqn:Efr; [|done]. osimpl in E. simpl in E.
    destruct (cancelEvent _ _ _) as [[r io]| |] eqn:Ece; [|done..]. osimpl in E. injection E as <-.
    assert (h_inv (set_infos st1 (<[i := ETIMEDOUT]> (h_infos st1)))) as Hi2.
    { split; [|apply Hi1|apply Hi1]. destruct Hc1. split; simpl; try done.
      - intros f fr0 Hf. rewrite <-(hi_info0 f fr0 Hf).
        destruct (decide (fr_info fr0 = i)) as [->|]; [|by rewrite lookup_insert_ne].
        change (h_infos st) with (h_infos st1). by rewrite lookup_insert_eq, Ei.
      - intros i'. destruct (decide (i' = i)) as [->|]; [by eauto|]. rewrite lookup_insert_ne by done. by eauto.
      - intros i' c'. rewrite lookup_insert_Some. intros [[<- <-]|[_ Hc']] Hne; [|by eauto].
        split; [done|]. done. }
    apply set_io_inv; [done| |].
    + destruct (cancelEvent_spec _ (fr_fd fr) (fr_event fr) (hi_io _ (hi_core _ Hi2))) as (? & ? & E' & Hio & _).
      simpl in E'. rewrite Ece in E'. by simplify_eq.
    + eapply cancelEvent_quiet; [apply (hi_core _ Hi2)|]. exact Ece.
Qed.

Lemma hstep_inv st st' : h_inv st → hstep steady st st' → h_inv st'.
Proof.
  intros Hi Hs. pose proof (hi_core st Hi) as Hc. destruct Hs.
  - apply hook_enter_inv; [done| |done|done]. unfold holds.
    destruct H0 as [->|(fr & n & e & -> & [-> | ->])]; done.
  - by apply called_inv.
  - by apply arm_inv.
  - by eapply register_inv.
  - by apply resume_inv.
  - by eapply back_inv.
  - by apply checked_inv.
  - by apply time_inv.
  - by eapply expire_inv.
  - by eapply run_inv.
  - destruct (handle_event_spec _ fd revents (hi_io st Hc) H0) as (io' & E & Hio & _).
    rewrite H1 in E. injection E as <-. apply set_io_inv; [done|done|]. by eapply handle_event_quiet, H1; apply Hc.
  - destruct (cancelAll_spec _ fd (hi_io st Hc)) as (r' & io' & E & Hio & _).
    rewrite H0 in E. injection E as <- <-. apply set_io_inv; [done|done|]. by eapply cancelAll_quiet, H0; apply Hc.
  - destruct (cancelEvent_spec _ fd event (hi_io st Hc)) as (r' & io' & E & Hio & _).
    rewrite H0 in E. injection E as <- <-. apply set_io_inv; [done|done|]. by eapply cancelEvent_quiet, H0; apply Hc.
  - destruct (addEvent_work _ fd event (Some cb) who r io (hi_io st Hc) (or_intror H0) H1 H2) as [Hio _].
    apply set_io_inv; [done|done|]. by eapply watch_quiet; [apply Hc|..].
  - destruct (delEvent_spec _ fd event (hi_io st Hc)) as (r' & io' & E & Hio & _).
    rewrite H1 in E. injection E as <- <-. apply set_io_inv; [done|done|]. by eapply delEvent_quiet, H1; [apply Hc|].
  - split.
    + apply set_io_core; [done|]. destruct (hi_io st Hc). by split.
    + intros g. change (holds (unschedule st l1 l2) g) with (holds st g). rewrite <-(hi_wake st Hi).
      unfold wakers, work. simpl. rewrite H0, !occ_app, occ_cons, decide_False by done. lia.
    + apply (hi_place st Hi).
Qed.

Lemma hooks_new_inv k now : h_inv (hooks_new k now).
Proof.
  split; [split| |]; simpl; try done; try (by intros; rewrite lookup_empty in *); try lia.
  - apply (io_reachable_inv k), io_start.
  - apply inv_new.
  - by intros _.
  - intros i. rewrite !lookup_empty. by intros [].
  - by intros i j ?%elem_of_nil.
  - intros fd e g Hg. unfold handler_at in Hg.
    destruct (m_fdContexts _ !! fd) as [c|] eqn:Hc; [|by apply elem_of_nil in Hg]. apply list_elem_of_lookup_2 in Hc.
    change (c ∈ FdContext_new <$> seq 0 32) in Hc.
    apply list_elem_of_fmap in Hc as (j & -> & _). by destruct e; apply elem_of_nil in Hg.
Qed.

(** The states that hooked calls can lead to. *)
Definition h_reachable (k : K) (now : Z) st : Prop := rtc (hstep steady) (hooks_new k now) st.

Lemma h_reachable_inv k now st : h_reachable k now st → h_inv st.
Proof.
  unfold h_reachable. intros Hr. apply rtc_ind_r with (z := st) (P := h_inv) in Hr; [done|apply hooks_new_inv|].
  intros y z _ Hs Hi. by eapply hstep_inv.
Qed.

End hooks.
