(* ===== verification/HookTheorems.v ===== *)
(** What the hooked calls promise (see Hook and HookSpec): a fiber that waits has
    exactly one thing that wakes it, no step of a call fails, a timeout is
    reported when its time has passed and never after the call returned; and
    the interleaving in which a timeout is lost. *)

From Stdlib Require Import ZArith Lia.
From stdpp Require Import base numbers gmap option strings tactics sets list list_numbers relations.
From S2P Require Import Prelude StdSet Timer IOManager FdManager Hook HookSpec.

Local Open Scope Z_scope.

Section theorems.
Context {K : Type} `{Epoll K}.
Implicit Types st : hooks (K := K).

Lemma elem_of_concat {A} (x : A) ls : x ∈ concat ls ↔ ∃ l, x ∈ l ∧ l ∈ ls.
Proof.
  rewrite list_elem_of_In, in_concat. setoid_rewrite list_elem_of_In. naive_solver.
Qed.

Lemma elem_of_work io x :
  x ∈ work (K := K) io ↔
  (∃ fd c e, m_fdContexts io !! fd = Some c ∧ x ∈ handler c e) ∨ x ∈ scheduled io.
Proof.
  unfold work. rewrite elem_of_app, elem_of_concat. apply or_iff_compat_r. split.
  - intros (l & Hx & Hl). apply list_elem_of_fmap in Hl as (c & -> & Hc).
    apply list_elem_of_lookup_1 in Hc as [fd Hc]. unfold handlers in Hx.
    apply elem_of_app in Hx as [Hx|Hx]; [exists fd, c, READ|exists fd, c, WRITE]; done.
  - intros (fd & c & e & Hc & Hx). exists (handlers c). split.
    + unfold handlers. apply elem_of_app. destruct e; auto.
    + apply list_elem_of_fmap_2. by eapply list_elem_of_lookup_2.
Qed.

(** C11. In any order of the steps of the calls with those of their surroundings - the
    kernel reports events and refuses changes, the clock is set forward or back, timers
    expire, [close] and [cancelEvent] wake waiters, other code registers callbacks and
    removes events that no fiber waits for - a fiber that has yielded inside a hooked
    call has exactly one waker, which is either the handler of the event it asked for,
    a queued task, or the callback of its sleep timer; a fiber that runs or has
    returned has none, so it is never resumed twice and never resumed after its call
    ended. Calls on the descriptors 0 and 1, [delEvent] on an event a fiber waits for
    and [schedule] of a fiber in a call by other code are excluded. *)
Theorem hook_wakeup steady k now st f fr :
  h_reachable steady k now st → h_frames st !! f = Some fr →
  wakers st f = (if holding (fr_pc fr) then 1%nat else 0%nat) ∧
  (holding (fr_pc fr) = true →
     (∃ c, m_fdContexts (h_io st) !! fr_fd fr = Some c ∧ TaskFiber f ∈ handler c (fr_event fr)) ∨
     TaskFiber f ∈ scheduled (h_io st) ∨
     (∃ t timer, m_heap (h_tm st) !! t = Some timer ∧ m_cb timer = Some (Plain f)) ∨
     Plain f ∈ h_tasks st).
Proof.
  intros Hi%h_reachable_inv Hf.
  pose proof (hi_wake steady st Hi f) as Hw. unfold holds in Hw. rewrite Hf in Hw. split; [done|].
  intros Hh. rewrite Hh in Hw. unfold wakers in Hw. rewrite occ_app in Hw.
  assert (TaskFiber f ∈ work (h_io st) ∨ Plain f ∈ pend (m_heap (h_tm st)) ∨ Plain f ∈ h_tasks st)
    as [Hx|[Hx|Hx]] by (rewrite <-!occ_pos; lia).
  - apply elem_of_work in Hx as [(fd & c & e & Hc & Hx)|Hx]; [left|by auto].
    assert (TaskFiber f ∈ handler_at (h_io st) fd e) as Hx' by (unfold handler_at; by rewrite Hc).
    destruct (hi_place steady st Hi fd e f Hx') as (fr0 & Hf0 & _ & <- & <-).
    rewrite Hf in Hf0. injection Hf0 as <-. eauto.
  - apply elem_of_pend in Hx. auto.
  - auto.
Qed.

(** C12. In every reachable state the steps of the hooked calls succeed: coming back
    from the yield finds the call's timer and [timer_info], expired timers and
    their callbacks never touch a missing object, and registering only fails
    its assertion when the event already has a handler. *)
Theorem hook_calls_safe steady k now st :
  h_reachable steady k now st →
  (∀ f fr timer, h_frames st !! f = Some fr → fr_pc fr = Resumed timer → is_ok (back st f fr timer) = true) ∧
  (∀ f fr timer errno, h_frames st !! f = Some fr → fr_pc fr = Registering timer →
     is_ok (register st f fr timer errno) = negb (registered (h_io st) (fr_fd fr) (fr_event fr))) ∧
  (∀ addr, is_ok (expire_timers st addr) = true) ∧
  (∀ l1 c l2, h_tasks st = l1 ++ c :: l2 → is_ok (run_callback (set_tm st (h_tm st) (l1 ++ l2)) c) = true).
Proof.
  intros Hi%h_reachable_inv. pose proof (hi_core steady st Hi) as Hc. split_and!.
  - intros f fr timer Hf Hp. unfold back.
    destruct (drop_timer_inv steady st f fr Hi Hf) as (st1 & E1 & _ & _ & Hinf & _).
    rewrite Hp in E1. simpl in E1. rewrite E1. osimpl.
    destruct (proj2 (hi_info steady st Hc f fr Hf)) as [c Hcc]; [by rewrite Hp|]. rewrite Hinf, Hcc. osimpl.
    destruct (fr_kind fr); [| |done]; by case_decide.
  - intros f fr timer errno Hf Hp. unfold register.
    destruct (hi_closure steady st Hc f fr Hf) as [Hfd _].
    destruct (registered (h_io st) (fr_fd fr) (fr_event fr)) eqn:Hreg.
    { pose proof (addEvent_twice (h_io st) (fr_fd fr) (fr_event fr) None (running f) Hreg) as Hno.
      by destruct (addEvent _ _ _ _ _). }
    destruct (addEvent_spec (h_io st) (fr_fd fr) (fr_event fr) None (running f) (hi_io steady st Hc) (or_intror Hfd) Hreg)
      as (r & io & -> & _); [done|done|]. osimpl. case_decide; [done|].
    destruct (drop_timer_inv steady st f fr Hi Hf) as (st1 & E1 & _).
    rewrite Hp in E1. destruct timer as [t|]; [|done]. simpl in *.
    by destruct (cancel (h_tm st) t) as [[? ?]| |].
  - intros addr. unfold expire_timers.
    by destruct (listExpiredCb_spec (h_tm st) (h_now st) addr (hi_tm steady st Hc)) as (? & -> & _).
  - intros l1 c l2 Ht. unfold run_callback. destruct (call _ c); [|done]. destruct c as [g|i j]; [done|].
    unfold timeout_cb. destruct (h_infos _ !! n) as [cancelled|] eqn:Ei; [|done]. case_decide; [done|].
    destruct (hi_known steady st Hc n) as [fr Hfr]; [by eauto|]. simpl. rewrite Hfr. osimpl.
    by destruct (cancelEvent_spec (h_io st) (fr_fd fr) (fr_event fr) (hi_io steady st Hc)) as (? & ? & -> & _).
Qed.

(** A call that ends with a timeout ends with ETIMEDOUT and, if the clock is never set
    back, no earlier than its timeout after it began; once a call has returned, the callback of its timer,
    wherever it still is, does nothing at all. *)
Theorem hook_timeout steady k now st f fr :
  h_reachable steady k now st → h_frames st !! f = Some fr →
  (∀ e, fr_pc fr = TimedOut e → e = ETIMEDOUT ∧ (steady = true → fr_start fr + fr_to fr <= h_now st)) ∧
  (active (fr_pc fr) = false → run_callback st (onTimer_bound (fr_info fr) (fr_info fr)) = Ok st).
Proof.
  intros Hi%h_reachable_inv Hf. pose proof (hi_core steady st Hi) as Hc. split; [by eauto using hi_timed|].
  intros Ha. assert (h_infos st !! fr_info fr = None) as Hn.
  { apply eq_None_not_Some. rewrite (hi_info steady st Hc f fr Hf). by rewrite Ha. }
  unfold run_callback, call, onTimer, alive. rewrite Hn. by rewrite bool_decide_eq_false_2 by apply is_Some_None.
Qed.

End theorems.

Section close.
Context {K E : Type} `{Kernel K} `{Epoll E}.

(** Closing a descriptor that has a context removes the context, so that a
    new descriptor of the same number starts afresh, leaves the other
    descriptors alone, and queues whoever waits on it, unless [epoll_ctl]
    refuses, when the waiters stay registered. Without hooks, or for a
    descriptor without a context, only the original [close] is called. *)
Theorem close_cleans (enable : bool) (io : IOManager (K := E)) (m : list (option FdCtx)) (k : K) (fd : Z) :
  io_inv io → fd_inv m → 0 <= fd →
  ∃ io' m', close enable (Some io) m k fd = Ok ((close_f k fd).1, Some io', m', (close_f k fd).2) ∧
    io_inv io' ∧ fd_inv m' ∧
    (∀ fd', 0 <= fd' → fd' ≠ fd → mjoin (m' !! Z.to_nat fd') = mjoin (m !! Z.to_nat fd')) ∧
    (if enable && bool_decide (is_Some (mjoin (m !! Z.to_nat fd))) then
       mjoin (m' !! Z.to_nat fd) = None ∧
       (io' = io ∨
        ∃ c, m_fdContexts io !! Z.to_nat fd = Some c ∧ scheduled io' = scheduled io ++ handlers c ∧
          ∀ e, registered io' (Z.to_nat fd) e = false)
     else m' = m ∧ io' = io).
Proof.
  intros Hio Hm Hfd. unfold close. destruct (close_f k fd) as [r k']. simpl.
  destruct enable; [|exists io, m; by split_and!]. simpl. rewrite fd_get_read by done. osimpl.
  destruct (mjoin (m !! Z.to_nat fd)) as [ctx|] eqn:Ej; [|exists io, m; by split_and!].
  destruct (cancelAll_spec io (Z.to_nat fd) Hio) as (b & io' & Eb & Hio' & _ & Hno & Hyes).
  rewrite Z2Nat.id in Eb by done. rewrite Eb. osimpl.
  destruct (fd_del_ok m fd Hm Hfd) as (m' & -> & Hm' & _ & Hl). osimpl.
  exists io', m'. rewrite (bool_decide_eq_true_2 (is_Some (Some ctx))) by done. split_and!; [done..| | |].
  - intros fd' Hfd' Hne. by rewrite Hl, decide_False by lia.
  - rewrite Hl. case_decide as Hd; [done|]. rewrite lookup_ge_None_2; [done|lia].
  - destruct b; [right|left; by apply Hno]. destruct (Hyes eq_refl) as ((c & Hc & Hs) & Hr & _). by exists c.
Qed.

End close.

(** ** A read with a timeout of 10 ms *)

Module Example10.
#[local] Existing Instance table_epoll.
Import TableKernel.

Definition state : Type := hooks (K := gmap nat Z).

Definition get (m : outcome state) : state :=
  match m with Ok st => st | _ => hooks_new ∅ 1000 end.

(** The frame of the fiber 1, reading from the descriptor 5. *)
Definition read_at (p : pc) : frame := mkFrame Io 5 READ 10 0 1000 p.

Definition later (st : state) (now : Z) : state :=
  mkHooks (h_io st) (h_tm st) (h_tasks st) now (h_infos st) (h_closures st) (h_frames st).

Definition entered : state := enter (hooks_new ∅ 1000) 1 Io 5 READ 10 0.
Definition again : state := called entered 1 (read_at Calling) (-1) EAGAIN.
Definition armed : state := arm again 1 (read_at Arming) 1.

Lemma armed_reachable : h_reachable true ∅ 1000 armed.
Proof.
  eapply rtc_l; [apply (h_enter _ _ 1 Io 5 READ 10 0); [by left|lia|lia|done]|].
  eapply rtc_l; [apply (h_called _ _ 1 (read_at Calling) (-1) EAGAIN); reflexivity|].
  eapply rtc_l; [|apply rtc_refl]. apply (h_arm _ _ 1 (read_at Arming) 1); [reflexivity..|].
  intros _. change (0 <= 1000 + 10 < 2 ^ 64). lia.
Qed.

(** The event is registered, then the time passes. *)
Definition waiting : state := get (register armed 1 (read_at (Registering (Some 1%positive))) (Some 1%positive) 0).
Definition expired : state := get (expire_timers (later waiting 1011) 2).
Definition fired : state := get (run_callback (set_tm expired (h_tm expired) []) (onTimer_bound 0 0)).
Definition resumed : state :=
  set_frame (unschedule fired [] []) 1 (read_at (Resumed (Some 1%positive))).
Definition ended : state := get (back resumed 1 (read_at (Resumed (Some 1%positive))) (Some 1%positive)).

Lemma waiting_reachable : h_reachable true ∅ 1000 waiting.
Proof.
  eapply rtc_r; [apply armed_reachable|].
  by apply (h_register _ _ 1 (read_at (Registering (Some 1%positive))) (Some 1%positive) 0).
Qed.

Lemma resumed_reachable : h_reachable true ∅ 1000 resumed.
Proof.
  unfold h_reachable. etrans; [apply waiting_reachable|].
  eapply rtc_l; [apply (h_time _ _ 1011); [lia|by intros _; vm_compute]|].
  eapply rtc_l; [apply (h_expire _ _ 2 expired); by vm_compute|].
  eapply rtc_l; [apply (h_run _ _ [] (onTimer_bound 0 0) [] fired); by vm_compute|].
  eapply rtc_l; [|apply rtc_refl].
  apply (h_resume _ _ 1 (read_at (Holding (Some 1%positive))) (Some 1%positive) [] []); by vm_compute.
Qed.

Lemma ended_reachable : h_reachable true ∅ 1000 ended.
Proof.
  eapply rtc_r; [apply resumed_reachable|].
  apply (h_back _ _ 1 (read_at (Resumed (Some 1%positive))) (Some 1%positive)); by vm_compute.
Qed.

(** The timer fires before the event is registered. *)
Definition early : state := get (expire_timers (later armed 1011) 2).
Definition cancelled : state := get (run_callback (set_tm early (h_tm early) []) (onTimer_bound 0 0)).
Definition stuck : state :=
  get (register cancelled 1 (read_at (Registering (Some 1%positive))) (Some 1%positive) 0).

Lemma stuck_reachable : h_reachable true ∅ 1000 stuck.
Proof.
  unfold h_reachable. etrans; [apply armed_reachable|].
  eapply rtc_l; [apply (h_time _ _ 1011); [lia|by intros _; vm_compute]|].
  eapply rtc_l; [apply (h_expire _ _ 2 early); by vm_compute|].
  eapply rtc_l; [apply (h_run _ _ [] (onTimer_bound 0 0) [] cancelled); by vm_compute|].
  eapply rtc_l; [|apply rtc_refl].
  apply (h_register _ _ 1 (read_at (Registering (Some 1%positive))) (Some 1%positive) 0); by vm_compute.
Qed.

(** A timeout can be lost: a call with a timeout of 10 ms, whose timer fires
    after it was set and before the event is registered, yields with its
    [timer_info] already marked ETIMEDOUT and no timer left. Nothing but the
    event itself can wake it: at any later time no callback is due. *)
Theorem hook_timeout_lost :
  h_reachable true ∅ 1000 stuck ∧
  h_frames stuck !! 1%nat = Some (read_at (Holding (Some 1%positive))) ∧
  fr_start (read_at Calling) + fr_to (read_at Calling) < h_now stuck ∧
  h_infos stuck !! 0%nat = Some ETIMEDOUT ∧ h_tasks stuck = [] ∧ scheduled (h_io stuck) = [] ∧
  registered (h_io stuck) 5 READ = true ∧
  (∀ now addr, ∃ st, expire_timers (later stuck now) addr = Ok st ∧ h_tasks st = []).
Proof.
  split; [apply stuck_reachable|]. split_and!; try (by vm_compute).
  intros now addr. eexists. split; [reflexivity|reflexivity].
Qed.

Lemma hook_wakeup_witness : wakers waiting 1 = 1%nat.
Proof.
  refine (proj1 (hook_wakeup true ∅ 1000 waiting 1 (read_at (Holding (Some 1%positive))) waiting_reachable _)).
  vm_compute. reflexivity.
Defined.

Lemma hook_calls_safe_witness :
  is_ok (back resumed 1 (read_at (Resumed (Some 1%positive))) (Some 1%positive)) = true.
Proof.
  apply (proj1 (hook_calls_safe true ∅ 1000 resumed resumed_reachable)); vm_compute; reflexivity.
Defined.

Lemma hook_timeout_witness :
  h_frames ended !! 1%nat = Some (read_at (TimedOut ETIMEDOUT)) ∧
  run_callback ended (onTimer_bound 0 0) = Ok ended.
Proof.
  assert (h_frames ended !! 1%nat = Some (read_at (TimedOut ETIMEDOUT))) as Hf by (vm_compute; reflexivity).
  split; [exact Hf|]. exact (proj2 (hook_timeout true ∅ 1000 ended 1 _ ended_reachable Hf) eq_refl).
Defined.
Lemma close_cleans_witness :
  ∃ io' m', close (K := Z → Z) true (Some io_read) one_socket (λ _, 0) 5 = Ok (0, Some io', m', λ _, 0) ∧
    m' !! 5%nat = Some None.
Proof.
  destruct (close_cleans (K := Z → Z) true io_read one_socket (λ _, 0) 5) as (io' & m' & H1 & _ & _ & _ & H2 & _).
  - exact (io_reachable_inv ∅ io_read io_read_reachable).
  - split; [done|]. intros i c Hi. unfold one_socket in Hi.
    apply list_lookup_insert_Some in Hi as [(<- & [= <-] & _)|(_ & [? _]%lookup_replicate)]; done.
  - lia.
  - exists io', m'. split; [exact H1|]. vm_compute in H1. injection H1 as <- <-. reflexivity.
Defined.
End Example10.
