(* ===== verification/Socket.v ===== *)
(** Sockets (sylar/socket.h, sylar/socket.cc): the object [Socket] around a
    descriptor, its operations over the hooked system calls, the descriptor table
    and the thread's event loop, and [SSLSocket] on top of it. The network side of
    the kernel and OpenSSL are interfaces. An operation is taken as one step of
    the fiber that runs it; what happens inside a hooked call that has to wait is
    the subject of [Hook]. *)

From Stdlib Require Import ZArith Lia.
From stdpp Require Import base numbers gmap option strings tactics sets list_numbers list.
From S2P Require Import Prelude Text Endian Address IOManager FdManager Hook.

Local Open Scope Z_scope.

Definition SOCK_STREAM : Z := 1.
Definition SOCK_DGRAM : Z := 2.
Definition SO_REUSEADDR : Z := 2.
Definition SO_ERROR : Z := 4.
Definition IPPROTO_TCP : Z := 6.
Definition TCP_NODELAY : Z := 1.
Definition SHUT_RD : Z := 0.
Definition SHUT_WR : Z := 1.

(** ** The system *)

(** The arguments of a transfer: the other side's address with its length, and
    the buffers, which a receiving call overwrites. *)
Record msghdr : Type := mkMsg {
  msg_name : option (list Z * Z);
  msg_iov : list (list Z)
}.

(** The calls of the kernel on sockets. Results are those of the calls, -1 for
    an error. [io_wait] and [connect_wait] are what a hooked call that may wait
    for so many milliseconds ends with. *)
Class Net (K : Type) : Type := {
  bind_f : K → Z → list Z → Z → Z * K;
  listen_f : K → Z → Z → Z * K;
  connect_f : K → Z → list Z → Z → Z * K;
  connect_wait : K → Z → list Z → Z → Z → Z * K;
  io_f : K → io_fun → Z → msghdr → Z → Z * msghdr * K;
  io_wait : K → io_fun → Z → msghdr → Z → Z → Z * msghdr * K;
  getsockname_f : K → Z → option (list Z);
  getpeername_f : K → Z → option (list Z);
  getsockopt_f : K → Z → Z → Z → option Z * K;
  shutdown_f : K → Z → Z → Z * K;
  unlink_f : K → list Z → Z * K
}.

(** [class Socket]. *)
Record Socket : Type := mkSocket {
  m_sock : Z;
  m_family : Z;
  m_type : Z;
  m_protocol : Z;
  m_connected : bool;
  m_localAddress : option Address;
  m_remoteAddress : option Address
}.

Definition Socket_new (family type protocol : Z) : Socket :=
  mkSocket (-1) family type protocol false None None.

Definition set_sock (s : Socket) (fd : Z) (connected : bool) : Socket :=
  mkSocket fd (m_family s) (m_type s) (m_protocol s) connected (m_localAddress s) (m_remoteAddress s).

Definition isValid (s : Socket) : bool := bool_decide (m_sock s ≠ -1).

Definition CreateTCPSocket : Socket := Socket_new AF_INET SOCK_STREAM 0.
Definition CreateUDPSocket : Socket := Socket_new AF_INET SOCK_DGRAM 0.
Definition CreateTCPSocket6 : Socket := Socket_new AF_INET6 SOCK_STREAM 0.
Definition CreateUDPSocket6 : Socket := Socket_new AF_INET6 SOCK_DGRAM 0.
Definition CreateUnixTCPSocket : Socket := Socket_new AF_UNIX SOCK_STREAM 0.
Definition CreateUNixUDPSocket : Socket := Socket_new AF_UNIX SOCK_DGRAM 0.

Section socket.
(** The byte order, and whether the hooks are enabled on the thread. *)
Context (order : endian) (enable : bool).
Context {K E : Type} `{Kernel K} `{Net K} `{Epoll E}.

Definition CreateTCP (address : Address) : Socket := Socket_new (getFamily order address) SOCK_STREAM 0.
Definition CreateUDP (address : Address) : Socket := Socket_new (getFamily order address) SOCK_DGRAM 0.

(** What a socket's operations reach: the descriptor table, the thread's event
    loop if it has one, and the kernel. *)
Record world : Type := mkWorld {
  w_fds : list (option FdCtx);
  w_iom : option (IOManager (K := E));
  w_kernel : K
}.

Definition set_kernel (w : world) (k : K) : world := mkWorld (w_fds w) (w_iom w) k.

(** ** Hooked calls *)

(** [do_io] for the function [f]. *)
Definition do_io (w : world) (f : io_fun) (fd : Z) (msg : msghdr) (flags : Z) :
    outcome (Z * msghdr * world) :=
  d ← do_io_enter enable (w_fds w) (w_kernel w) fd (fun_event f).2;
  match d with
  | Direct => let '(n, msg, k) := io_f (w_kernel w) f fd msg flags in mret (n, msg, set_kernel w k)
  | Refuse _ => mret (-1, msg, w)
  | MayWait to => let '(n, msg, k) := io_wait (w_kernel w) f fd msg flags to in mret (n, msg, set_kernel w k)
  end.

(** [accept(sockfd, nullptr, nullptr)]. *)
Definition hook_accept (w : world) (fd : Z) : outcome (Z * world) :=
  '(connfd, _, w) ← do_io w accept fd (mkMsg None []) 0;
  '(connfd, fds, k) ← accept_result (w_fds w) (w_kernel w) connfd;
  mret (connfd, mkWorld fds (w_iom w) k).

(** [connect_with_timeout]; [connect] passes [s_connect_timeout]. *)
Definition connect_with_timeout (w : world) (fd : Z) (addr : list Z) (addrlen timeout_ms : Z) :
    outcome (Z * world) :=
  d ← connect_enter enable (w_fds w) (w_kernel w) fd timeout_ms;
  match d with
  | Direct => let '(n, k) := connect_f (w_kernel w) fd addr addrlen in mret (n, set_kernel w k)
  | Refuse _ => mret (-1, w)
  | MayWait to => let '(n, k) := connect_wait (w_kernel w) fd addr addrlen to in mret (n, set_kernel w k)
  end.

Definition hook_close (w : world) (fd : Z) : outcome world :=
  '(_, iom, fds, k) ← close enable (w_iom w) (w_fds w) (w_kernel w) fd;
  mret (mkWorld fds iom k).

(** ** Options *)

Definition setOption (s : Socket) (w : world) (level optname : Z) (v : optval) : outcome (bool * world) :=
  '(rt, fds, k) ← setsockopt enable (w_fds w) (w_kernel w) (m_sock s) level optname v;
  mret (bool_decide (rt = 0), mkWorld fds (w_iom w) k).

Definition getOption (s : Socket) (w : world) (level optname : Z) : option Z * world :=
  let '(r, k) := getsockopt_f (w_kernel w) (m_sock s) level optname in (r, set_kernel w k).

Definition getError (s : Socket) (w : world) : Z * world :=
  let '(r, w) := getOption s w SOL_SOCKET SO_ERROR in
  (match r with Some error => error | None => -1 end, w).

(** [timeval{int(v / 1000), int(v % 1000 * 1000)}]. *)
Definition timeval_of (v : Z) : optval :=
  OptTimeval (s32 (Z.quot v 1000)) (s32 (Z.rem v 1000 * 1000)).

Definition setSendTimeout (s : Socket) (w : world) (v : Z) : outcome world :=
  '(_, w) ← setOption s w SOL_SOCKET SO_SNDTIMEO (timeval_of v); mret w.

Definition setRecvTimeout (s : Socket) (w : world) (v : Z) : outcome world :=
  '(_, w) ← setOption s w SOL_SOCKET SO_RCVTIMEO (timeval_of v); mret w.

(** [FdMgr::GetInstance()->get(fd)]. *)
Definition FdMgr_get (w : world) (fd : Z) : outcome (option FdCtx) :=
  '(c, _, _) ← fd_get (w_fds w) fd false (w_kernel w); mret c.

Definition getSendTimeout (s : Socket) (w : world) : outcome Z :=
  c ← FdMgr_get w (m_sock s);
  mret (match c with Some ctx => s64 (getTimeout ctx SO_SNDTIMEO) | None => -1 end).

Definition getRecvTimeout (s : Socket) (w : world) : outcome Z :=
  c ← FdMgr_get w (m_sock s);
  mret (match c with Some ctx => s64 (getTimeout ctx SO_RCVTIMEO) | None => -1 end).

Definition shutdown (s : Socket) (w : world) (how : Z) : world :=
  if negb (m_connected s) || negb (isValid s) then w
  else set_kernel w (shutdown_f (w_kernel w) (m_sock s) how).2.

Definition shutdownWrite (s : Socket) (w : world) : world := shutdown s w SHUT_WR.
Definition shutdownRead (s : Socket) (w : world) : world := shutdown s w SHUT_RD.

(** ** The addresses of the two ends *)

(** The empty address of a family. *)
Definition new_address (family : Z) : Address :=
  if decide (family = AF_INET) then IPv4Address (IPv4Address_new order 0 0)
  else if decide (family = AF_INET6) then IPv6Address IPv6Address_new
  else if decide (family = AF_UNIX) then UnixAddress_default
  else UnknownAddress_new family.

(** The object after the system wrote the bytes to what [getAddr] points to. *)
Definition write_addr (a : Address) (bytes : list Z) : outcome Address :=
  let mem := overwrite 0 bytes (getAddr order a) in
  match a with
  | IPv4Address _ => m ← read_in order mem; mret (IPv4Address m)
  | IPv6Address _ => m ← read_in6 order mem; mret (IPv6Address m)
  | UnixAddress _ len => mret (UnixAddress (mkUn (u16_at order mem 0) (drop 2 mem)) len)
  | UnknownAddress _ => m ← read_sa order mem; mret (UnknownAddress m)
  end.

(** What [getsockname] and [getpeername] leave in a new address: the name is cut
    to the length given, its own length is returned. *)
Definition name_of (family : Z) (name : option (list Z)) : outcome (Address * bool) :=
  let result := new_address family in
  match name with
  | None => mret (UnknownAddress_new family, false)
  | Some name =>
    a ← write_addr result (take (Z.to_nat (getAddrLen result)) name);
    mret (if decide (family = AF_UNIX) then setAddrLen a (Z.of_nat (length name)) else a, true)
  end.

Definition getRemoteAddress (s : Socket) (w : world) : outcome (Address * Socket) :=
  match m_remoteAddress s with
  | Some a => mret (a, s)
  | None =>
    '(a, ok) ← name_of (m_family s) (getpeername_f (w_kernel w) (m_sock s));
    mret (a, if ok : bool then
               mkSocket (m_sock s) (m_family s) (m_type s) (m_protocol s) (m_connected s)
                 (m_localAddress s) (Some a)
             else s)
  end.

Definition getLocalAddress (s : Socket) (w : world) : outcome (Address * Socket) :=
  match m_localAddress s with
  | Some a => mret (a, s)
  | None =>
    '(a, ok) ← name_of (m_family s) (getsockname_f (w_kernel w) (m_sock s));
    mret (a, if ok : bool then
               mkSocket (m_sock s) (m_family s) (m_type s) (m_protocol s) (m_connected s)
                 (Some a) (m_remoteAddress s)
             else s)
  end.

(** ** Life cycle *)

Definition initSock (s : Socket) (w : world) : outcome world :=
  '(_, w) ← setOption s w SOL_SOCKET SO_REUSEADDR (OptOther 4);
  if decide (m_type s = SOCK_STREAM) then
    '(_, w) ← setOption s w IPPROTO_TCP TCP_NODELAY (OptOther 4); mret w
  else mret w.

Definition newSock (s : Socket) (w : world) : outcome (Socket * world) :=
  '(fd, fds, k) ← socket enable (w_fds w) (w_kernel w) (m_family s) (m_type s) (m_protocol s);
  let s := set_sock s fd (m_connected s) in
  let w := mkWorld fds (w_iom w) k in
  if decide (fd ≠ -1) then w ← initSock s w; mret (s, w) else mret (s, w).

(** The beginning of [bind] and [connect]. *)
Definition ensure_sock (s : Socket) (w : world) : outcome (Socket * world) :=
  if isValid s then mret (s, w) else newSock s w.

Definition Socket_close (s : Socket) (w : world) : outcome (bool * Socket * world) :=
  if negb (m_connected s) && negb (isValid s) then mret (true, s, w) else
  let s := set_sock s (m_sock s) false in
  if isValid s then
    w ← hook_close w (m_sock s);
    mret (false, set_sock s (-1) false, w)
  else mret (false, s, w).

(** The destructor. *)
Definition Socket_destroy (s : Socket) (w : world) : outcome world :=
  '(_, _, w) ← Socket_close s w; mret w.

(** [connect_timeout] is [s_connect_timeout]. *)
Definition Socket_connect (s : Socket) (w : world) (addr : Address) (timeout_ms connect_timeout : Z) :
    outcome (bool * Socket * world) :=
  '(s, w) ← ensure_sock s w;
  if negb (isValid s) then mret (false, s, w) else
  if decide (getFamily order addr ≠ m_family s) then mret (false, s, w) else
  '(rt, w) ← connect_with_timeout w (m_sock s) (getAddr order addr) (getAddrLen addr)
               (if decide (timeout_ms = NO_TIMEOUT) then connect_timeout else timeout_ms);
  if decide (rt ≠ 0) then
    '(_, s, w) ← Socket_close s w; mret (false, s, w)
  else
    let s := set_sock s (m_sock s) true in
    '(_, s) ← getRemoteAddress s w;
    '(_, s) ← getLocalAddress s w;
    mret (true, s, w).

(** [bind] tries to connect to a Unix address first, and unlinks its path when
    nobody answers: [true] to go on. *)
Definition free_path (w : world) (addr : Address) (connect_timeout : Z) : outcome (bool * world) :=
  match addr with
  | UnixAddress m m_length =>
    '(connected, sock, w) ← Socket_connect CreateUnixTCPSocket w addr NO_TIMEOUT connect_timeout;
    if connected : bool then w ← Socket_destroy sock w; mret (false, w)
    else
      path ← getPath m m_length;
      let w := set_kernel w (unlink_f (w_kernel w) path).2 in
      w ← Socket_destroy sock w;
      mret (true, w)
  | _ => mret (true, w)
  end.

Definition Socket_bind (s : Socket) (w : world) (addr : Address) (connect_timeout : Z) :
    outcome (bool * Socket * world) :=
  '(s, w) ← ensure_sock s w;
  if negb (isValid s) then mret (false, s, w) else
  if decide (getFamily order addr ≠ m_family s) then mret (false, s, w) else
  '(go_on, w) ← free_path w addr connect_timeout;
  if negb go_on then mret (false, s, w) else
  let '(rt, k) := bind_f (w_kernel w) (m_sock s) (getAddr order addr) (getAddrLen addr) in
  let w := set_kernel w k in
  if decide (rt ≠ 0) then mret (false, s, w) else
  '(_, s) ← getLocalAddress s w;
  mret (true, s, w).

Definition Socket_listen (s : Socket) (w : world) (backlog : Z) : bool * world :=
  if negb (isValid s) then (false, w) else
  let '(rt, k) := listen_f (w_kernel w) (m_sock s) backlog in
  (bool_decide (rt = 0), set_kernel w k).

Definition Socket_init (s : Socket) (w : world) (connfd : Z) : outcome (bool * Socket * world) :=
  c ← FdMgr_get w connfd;
  match hooked_socket c with
  | None => mret (false, s, w)
  | Some _ =>
    let s := set_sock s connfd true in
    w ← initSock s w;
    '(_, s) ← getLocalAddress s w;
    '(_, s) ← getRemoteAddress s w;
    mret (true, s, w)
  end.

(** [accept]; a socket that is not returned is destroyed. *)
Definition Socket_accept (s : Socket) (w : world) : outcome (option Socket * world) :=
  let sock := Socket_new (m_family s) (m_type s) (m_protocol s) in
  '(connfd, w) ← hook_accept w (m_sock s);
  if decide (connfd = -1) then w ← Socket_destroy sock w; mret (None, w) else
  '(ok, sock, w) ← Socket_init sock w connfd;
  if ok : bool then mret (Some sock, w) else w ← Socket_destroy sock w; mret (None, w).

(** ** Transfers *)

(** The sending and receiving operations differ in the function they call and
    in what they put into the message. *)
Definition transfer (s : Socket) (w : world) (f : io_fun) (msg : msghdr) (flags : Z) :
    outcome (Z * msghdr * world) :=
  if m_connected s then do_io w f (m_sock s) msg flags else mret (-1, msg, w).

Definition Socket_send (s : Socket) (w : world) (buffer : list Z) (flags : Z) : outcome (Z * world) :=
  '(n, _, w) ← transfer s w send (mkMsg None [buffer]) flags; mret (s32 n, w).

Definition Socket_sendv (s : Socket) (w : world) (buffers : list (list Z)) (flags : Z) : outcome (Z * world) :=
  '(n, _, w) ← transfer s w sendmsg (mkMsg None buffers) flags; mret (s32 n, w).

Definition to_name (a : Address) : option (list Z * Z) := Some (getAddr order a, getAddrLen a).

Definition Socket_sendTo (s : Socket) (w : world) (buffer : list Z) (to : Address) (flags : Z) :
    outcome (Z * world) :=
  '(n, _, w) ← transfer s w sendto (mkMsg (to_name to) [buffer]) flags; mret (s32 n, w).

Definition Socket_sendvTo (s : Socket) (w : world) (buffers : list (list Z)) (to : Address) (flags : Z) :
    outcome (Z * world) :=
  '(n, _, w) ← transfer s w sendmsg (mkMsg (to_name to) buffers) flags; mret (s32 n, w).

Definition Socket_recv (s : Socket) (w : world) (buffer : list Z) (flags : Z) :
    outcome (Z * list (list Z) * world) :=
  '(n, msg, w) ← transfer s w recv (mkMsg None [buffer]) flags; mret (s32 n, msg_iov msg, w).

Definition Socket_recvv (s : Socket) (w : world) (buffers : list (list Z)) (flags : Z) :
    outcome (Z * list (list Z) * world) :=
  '(n, msg, w) ← transfer s w recvmsg (mkMsg None buffers) flags; mret (s32 n, msg_iov msg, w).

(** [from] after the call: the kernel wrote the sender's address into it. *)
Definition sender (from : Address) (msg : msghdr) : outcome Address :=
  match msg_name msg with
  | Some (bytes, _) => write_addr from (take (Z.to_nat (getAddrLen from)) bytes)
  | None => mret from
  end.

Definition receive_from (f : io_fun) (s : Socket) (w : world) (buffers : list (list Z)) (from : Address)
    (flags : Z) : outcome (Z * list (list Z) * Address * world) :=
  '(n, msg, w) ← transfer s w f (mkMsg (to_name from) buffers) flags;
  from ← sender from msg;
  mret (s32 n, msg_iov msg, from, w).

Definition Socket_recvFrom (s : Socket) (w : world) (buffer : list Z) (from : Address) (flags : Z) :
    outcome (Z * list (list Z) * Address * world) :=
  receive_from recvfrom s w [buffer] from flags.

Definition Socket_recvvFrom (s : Socket) (w : world) (buffers : list (list Z)) (from : Address) (flags : Z) :
    outcome (Z * list (list Z) * Address * world) :=
  receive_from recvmsg s w buffers from flags.

(** ** Cancelling *)

(** [IOManager::GetThis()->...]: the thread needs an event loop, and its contexts
    are indexed by the descriptor, which must not be -1. *)
Definition with_iom {R} (s : Socket) (w : world)
    (op : IOManager (K := E) → Z → outcome (R * IOManager (K := E))) : outcome (R * world) :=
  io ← deref (w_iom w);
  '(r, io) ← op io (m_sock s);
  mret (r, mkWorld (w_fds w) (Some io) (w_kernel w)).

Definition cancelRead (s : Socket) (w : world) : outcome (bool * world) :=
  with_iom s w (λ io fd, cancelEvent io fd READ).

Definition cancelWrite (s : Socket) (w : world) : outcome (bool * world) :=
  with_iom s w (λ io fd, cancelEvent io fd WRITE).

Definition cancelAcccept (s : Socket) (w : world) : outcome (bool * world) :=
  with_iom s w (λ io fd, cancelEvent io fd READ).

Definition Socket_cancelAll (s : Socket) (w : world) : outcome (bool * world) :=
  with_iom s w cancelAll.

(** [dump]. *)
Definition dump_end (label : list Z) (a : option Address) : outcome (list Z) :=
  match a with
  | None => mret []
  | Some a => t ← toString order a; mret (label ++ t)
  end.

Definition dump_as (head : list Z) (s : Socket) : outcome (list Z) :=
  l ← dump_end (text " local_address=") (m_localAddress s);
  r ← dump_end (text " remote_address=") (m_remoteAddress s);
  mret (head ++ dec (m_sock s) ++ text " is_connected=" ++
        dec (if m_connected s then 1 else 0) ++ text " family=" ++ dec (m_family s) ++
        text " type=" ++ dec (m_type s) ++ text " protocol=" ++ dec (m_protocol s) ++
        l ++ r ++ text "]").

Definition Socket_dump (s : Socket) : outcome (list Z) := dump_as (text "[Socket sock=") s.

End socket.

Arguments world : clear implicits.

(** ** [SSLSocket] *)

(** OpenSSL: contexts [C] and sessions [X]. A new session is null when there is
    no context. [SSL_write] and [SSL_read] return the bytes transferred, or 0 or
    less; a read leaves the buffer as it returns it. *)
Class OpenSSL (C X K : Type) : Type := {
  SSL_CTX_new : bool → C;
  SSL_CTX_use_certificate_chain_file : C → list Z → Z * C;
  SSL_CTX_use_PrivateKey_file : C → list Z → Z * C;
  SSL_CTX_check_private_key : C → Z;
  SSL_new : option C → option X;
  SSL_set_fd : X → Z → X;
  SSL_connect : X → K → Z * X * K;
  SSL_accept : X → K → Z * X * K;
  SSL_write : X → K → list Z → Z * X * K;
  SSL_read : X → K → list Z → Z * list Z * X * K
}.

Record SSLSocket (C X : Type) : Type := mkSSLSocket {
  ssl_socket : Socket;
  m_ctx : option C;
  m_ssl : option X
}.
Arguments mkSSLSocket {C X}.
Arguments ssl_socket {C X}.
Arguments m_ctx {C X}.
Arguments m_ssl {C X}.

Section ssl.
Context (order : endian) (enable : bool).
Context {K E C X : Type} `{Kernel K} `{Net K} `{Epoll E} `{OpenSSL C X K}.

Definition SSLSocket_new (family type protocol : Z) : SSLSocket C X :=
  mkSSLSocket (Socket_new family type protocol) None None.

Definition SSLSocket_CreateTCP (address : Address) : SSLSocket C X :=
  SSLSocket_new (getFamily order address) SOCK_STREAM 0.
Definition SSLSocket_CreateTCPSocket : SSLSocket C X := SSLSocket_new AF_INET SOCK_STREAM 0.
Definition SSLSocket_CreateTCPSocket6 : SSLSocket C X := SSLSocket_new AF_INET6 SOCK_STREAM 0.

(** A session on the socket's descriptor, shaken hands with: the end of
    [connect] and [init]. *)
Definition handshake (ctx : option C) (s : Socket) (w : world K E) (shake : X → K → Z * X * K) :
    outcome (bool * SSLSocket C X * world K E) :=
  ssl ← deref (SSL_new ctx);
  let '(r, ssl, k) := shake (SSL_set_fd ssl (m_sock s)) (w_kernel w) in
  mret (bool_decide (r = 1), mkSSLSocket s ctx (Some ssl), set_kernel w k).

Definition SSLSocket_connect (s : SSLSocket C X) (w : world K E) (addr : Address) (timeout_ms ct : Z) :
    outcome (bool * SSLSocket C X * world K E) :=
  '(v, sock, w) ← Socket_connect order enable (ssl_socket s) w addr timeout_ms ct;
  if v : bool then handshake (Some (SSL_CTX_new false)) sock w SSL_connect
  else mret (false, mkSSLSocket sock (m_ctx s) (m_ssl s), w).

Definition SSLSocket_init (s : SSLSocket C X) (w : world K E) (connfd : Z) :
    outcome (bool * SSLSocket C X * world K E) :=
  '(v, sock, w) ← Socket_init order enable (ssl_socket s) w connfd;
  if v : bool then handshake (m_ctx s) sock w SSL_accept
  else mret (false, mkSSLSocket sock (m_ctx s) (m_ssl s), w).

Definition SSLSocket_accept (s : SSLSocket C X) (w : world K E) :
    outcome (option (SSLSocket C X) * world K E) :=
  let base := ssl_socket s in
  let sock := Socket_new (m_family base) (m_type base) (m_protocol base) in
  '(newsock, w) ← hook_accept enable w (m_sock base);
  if decide (newsock = -1) then w ← Socket_destroy enable sock w; mret (None, w) else
  '(ok, sock, w) ← SSLSocket_init (mkSSLSocket sock (m_ctx s) None) w newsock;
  if ok : bool then mret (Some sock, w)
  else w ← Socket_destroy enable (ssl_socket sock) w; mret (None, w).

Definition SSLSocket_bind (s : SSLSocket C X) (w : world K E) (addr : Address) (ct : Z) :
    outcome (bool * SSLSocket C X * world K E) :=
  '(b, sock, w) ← Socket_bind order enable (ssl_socket s) w addr ct;
  mret (b, mkSSLSocket sock (m_ctx s) (m_ssl s), w).

Definition SSLSocket_listen (s : SSLSocket C X) (w : world K E) (backlog : Z) : bool * world K E :=
  Socket_listen (ssl_socket s) w backlog.

Definition SSLSocket_close (s : SSLSocket C X) (w : world K E) :
    outcome (bool * SSLSocket C X * world K E) :=
  '(b, sock, w) ← Socket_close enable (ssl_socket s) w;
  mret (b, mkSSLSocket sock (m_ctx s) (m_ssl s), w).

Definition SSLSocket_send (s : SSLSocket C X) (k : K) (buffer : list Z) : Z * SSLSocket C X * K :=
  match m_ssl s with
  | None => (-1, s, k)
  | Some ssl => let '(n, ssl, k) := SSL_write ssl k buffer in
                (n, mkSSLSocket (ssl_socket s) (m_ctx s) (Some ssl), k)
  end.

(** The loop of [send] over the buffers. *)
Fixpoint ssl_send_loop (ssl : X) (k : K) (buffers : list (list Z)) (total : Z) : Z * X * K :=
  match buffers with
  | [] => (total, ssl, k)
  | b :: buffers =>
    let '(tmp, ssl, k) := SSL_write ssl k b in
    if decide (tmp <= 0) then (tmp, ssl, k) else
    let total := s32 (total + tmp) in
    if decide (tmp ≠ s32 (Z.of_nat (length b))) then (total, ssl, k)
    else ssl_send_loop ssl k buffers total
  end.

Definition SSLSocket_sendv (s : SSLSocket C X) (k : K) (buffers : list (list Z)) : Z * SSLSocket C X * K :=
  match m_ssl s with
  | None => (-1, s, k)
  | Some ssl => let '(n, ssl, k) := ssl_send_loop ssl k buffers 0 in
                (n, mkSSLSocket (ssl_socket s) (m_ctx s) (Some ssl), k)
  end.

Definition SSLSocket_recv (s : SSLSocket C X) (k : K) (buffer : list Z) : Z * list Z * SSLSocket C X * K :=
  match m_ssl s with
  | None => (-1, buffer, s, k)
  | Some ssl => let '(n, buffer, ssl, k) := SSL_read ssl k buffer in
                (n, buffer, mkSSLSocket (ssl_socket s) (m_ctx s) (Some ssl), k)
  end.

(** The loop of [recv]; the buffers already filled stay filled. *)
Fixpoint ssl_recv_loop (ssl : X) (k : K) (buffers : list (list Z)) (total : Z) :
    Z * list (list Z) * X * K :=
  match buffers with
  | [] => (total, [], ssl, k)
  | b :: buffers =>
    let '(tmp, b', ssl, k) := SSL_read ssl k b in
    if decide (tmp <= 0) then (tmp, b' :: buffers, ssl, k) else
    let total := s32 (total + tmp) in
    if decide (tmp ≠ s32 (Z.of_nat (length b))) then (total, b' :: buffers, ssl, k)
    else let '(n, rest, ssl, k) := ssl_recv_loop ssl k buffers total in (n, b' :: rest, ssl, k)
  end.

Definition SSLSocket_recvv (s : SSLSocket C X) (k : K) (buffers : list (list Z)) :
    Z * list (list Z) * SSLSocket C X * K :=
  match m_ssl s with
  | None => (-1, buffers, s, k)
  | Some ssl => let '(n, buffers, ssl, k) := ssl_recv_loop ssl k buffers 0 in
                (n, buffers, mkSSLSocket (ssl_socket s) (m_ctx s) (Some ssl), k)
  end.

Definition SSLSocket_dump (s : SSLSocket C X) : outcome (list Z) :=
  dump_as order (text "[SSLSocket sock=") (ssl_socket s).

(** [sendTo] and [recvFrom] of an [SSLSocket] abort. *)
Definition SSLSocket_sendTo : outcome Z := _ ← sylar_assert false "false"; mret (-1).
Definition SSLSocket_recvFrom : outcome Z := _ ← sylar_assert false "false"; mret (-1).

Definition SSLSocket_loadCertificates (s : SSLSocket C X) (cert_file key_file : list Z) :
    bool * SSLSocket C X :=
  let with_ctx ctx := mkSSLSocket (ssl_socket s) (Some ctx) (m_ssl s) in
  let '(r1, ctx) := SSL_CTX_use_certificate_chain_file (SSL_CTX_new true) cert_file in
  if decide (r1 ≠ 1) then (false, with_ctx ctx) else
  let '(r2, ctx) := SSL_CTX_use_PrivateKey_file ctx key_file in
  if decide (r2 ≠ 1) then (false, with_ctx ctx) else
  if decide (SSL_CTX_check_private_key ctx ≠ 1) then (false, with_ctx ctx) else
  (true, with_ctx ctx).

End ssl.
