(* ===== verification/SocketSpec.v ===== *)
(** Who owns which descriptor: every operation on a socket, run with the hooks,
    keeps the world and the socket in order, and what it opens or closes is its
    own descriptor. *)

From Stdlib Require Import ZArith Lia.
From stdpp Require Import base numbers gmap option strings tactics sets relations list_numbers list.
From S2P Require Import Prelude Text Endian Address AddressSpec IOManager FdManager Hook HookTheorems Socket.

Local Open Scope Z_scope.

(** What the manual pages say of descriptors: [socket] and [accept] return -1
    or the number of a descriptor that was not open, which is one of a socket;
    [close] closes its descriptor in every case; the others open and close none.
    An [fcntl] with [F_SETFL] does not change what a descriptor is. *)
Class NetLaws (K : Type) `{Kernel K} `{Net K} (opened : K → gset Z) : Prop := {
  socket_opens (k k' : K) a b c fd : (socket_f k a b c = (fd, k')) →
    (fd = -1 ∧ opened k' = opened k) ∨
    ((0 <= fd) ∧ (fd ∉ opened k) ∧ opened k' = {[fd]} ∪ opened k ∧ fstat_sock k' fd = Some true);
  accept_opens (k k' : K) fd0 msg msg' flags fd : (io_f k accept fd0 msg flags = (fd, msg', k')) →
    (fd = -1 ∧ opened k' = opened k) ∨
    ((0 <= fd) ∧ (fd ∉ opened k) ∧ opened k' = {[fd]} ∪ opened k ∧ fstat_sock k' fd = Some true);
  accept_wait_opens (k k' : K) fd0 msg msg' flags to fd : (io_wait k accept fd0 msg flags to = (fd, msg', k')) →
    (fd = -1 ∧ opened k' = opened k) ∨
    ((0 <= fd) ∧ (fd ∉ opened k) ∧ opened k' = {[fd]} ∪ opened k ∧ fstat_sock k' fd = Some true);
  io_keeps (k : K) f fd msg flags : f ≠ accept → opened (io_f k f fd msg flags).2 = opened k;
  io_wait_keeps (k : K) f fd msg flags to : f ≠ accept → opened (io_wait k f fd msg flags to).2 = opened k;
  close_closes (k : K) fd : opened (close_f k fd).2 = opened k ∖ {[fd]};
  fcntl_keeps (k : K) fd cmd arg : cmd = F_GETFL ∨ cmd = F_SETFL → opened (fcntl_f k fd cmd arg).2 = opened k;
  setsockopt_keeps (k : K) fd l o v : opened (setsockopt_f k fd l o v).2 = opened k;
  getsockopt_keeps (k : K) fd l o : opened (getsockopt_f k fd l o).2 = opened k;
  bind_keeps (k : K) fd a n : opened (bind_f k fd a n).2 = opened k;
  listen_keeps (k : K) fd n : opened (listen_f k fd n).2 = opened k;
  connect_keeps (k : K) fd a n : opened (connect_f k fd a n).2 = opened k;
  connect_wait_keeps (k : K) fd a n to : opened (connect_wait k fd a n to).2 = opened k;
  shutdown_keeps (k : K) fd n : opened (shutdown_f k fd n).2 = opened k;
  unlink_keeps (k : K) p : opened (unlink_f k p).2 = opened k
}.

(** The descriptor of a socket, if it has one. *)
Definition own (s : Socket) : gset Z := if isValid s then {[m_sock s]} else ∅.

Lemma own_valid s : m_sock s ≠ -1 → own s = {[m_sock s]}.
Proof. intros Hs. unfold own, isValid. by rewrite bool_decide_eq_true_2. Qed.

Lemma own_invalid s : m_sock s = -1 → own s = ∅.
Proof. intros Hs. unfold own, isValid. by rewrite bool_decide_eq_false_2 by naive_solver. Qed.

Lemma isValid_true s : isValid s = true ↔ m_sock s ≠ -1.
Proof. apply bool_decide_eq_true. Qed.

Lemma isValid_false s : isValid s = false ↔ m_sock s = -1.
Proof. unfold isValid. rewrite bool_decide_eq_false. split; [apply dec_stable|auto]. Qed.

(** A socket by itself: connected sockets have a descriptor. *)
Record sane (s : Socket) : Prop := {
  sane_connected : m_connected s = true → m_sock s ≠ -1;
  sane_range : m_sock s = -1 ∨ 0 <= m_sock s
}.

(** Addresses as the user passes them; a path has to be terminated. *)
Definition usable (a : Address) : Prop :=
  match a with UnixAddress m n => is_Some (match getPath m n with Ok p => Some p | _ => None end) | _ => True end.

Section spec.
Context {K EP : Type} `{Kernel K} `{Net K} `{Epoll EP} (opened : K → gset Z) `{!NetLaws K opened}.
Context (order : endian).

Abbreviation open w := (opened (w_kernel w)).

(** The table and the event loop are in order, and a context belongs to an open
    socket. *)
Record world_ok (w : world K EP) : Prop := {
  ok_fds : fd_inv (w_fds w);
  ok_iom io : w_iom w = Some io → io_inv io;
  ok_ctx i c : w_fds w !! i = Some (Some c) →
    Z.of_nat i ∈ open w ∧ m_isSocket c = true ∧ m_isClosed c = false
}.

Lemma world_ok_kernel (w : world K EP) k : world_ok w → opened k = open w → world_ok (set_kernel w k).
Proof. intros [Hf Hi Hc] E. split; [done..|]. intros i c Hl. simpl. rewrite E. by apply Hc. Qed.

Lemma world_ok_iom (w : world K EP) io : world_ok w → io_inv io → world_ok (mkWorld (w_fds w) (Some io) (w_kernel w)).
Proof. intros [Hf Hi Hc] Hio. split; [done| |done]. by intros ? [= <-]. Qed.

(** Reading the table for a socket. *)
Lemma fd_read (w : world K EP) fd :
  world_ok w → fd = -1 ∨ 0 <= fd →
  ∃ c, fd_get (w_fds w) fd false (w_kernel w) = Ok (c, w_fds w, w_kernel w) ∧
    (∀ ctx, c = Some ctx → 0 <= fd ∧ w_fds w !! Z.to_nat fd = Some (Some ctx) ∧ m_isSocket ctx = true ∧
       m_isClosed ctx = false).
Proof.
  intros Hw [->|Hfd]; [by exists None|]. exists (mjoin (w_fds w !! Z.to_nat fd)).
  split; [by apply fd_get_read; [apply Hw|]|]. intros ctx Hctx.
  assert (w_fds w !! Z.to_nat fd = Some (Some ctx)) as Hl by (destruct (_ !! _); naive_solver).
  destruct (ok_ctx w Hw _ _ Hl) as (_ & ? & ?). done.
Qed.

Lemma FdCtx_new_socket fd k :
  fstat_sock k fd = Some true →
  ∃ c k', FdCtx_new fd k = (c, k') ∧ m_isSocket c = true ∧ m_isClosed c = false ∧ opened k' = opened k.
Proof.
  intros Hf. unfold FdCtx_new, FdCtx_init. simpl. rewrite Hf.
  pose proof (fcntl_keeps k fd F_GETFL 0 (or_introl eq_refl)) as E1.
  destruct (fcntl_f k fd F_GETFL 0) as [flags k1]. simpl in E1. do 2 eexists. split; [done|].
  split_and!; [done..|]. destruct (nonblocking flags); [done|].
  by rewrite fcntl_keeps by (by right).
Qed.

(** The context of a descriptor that was just opened. *)
Lemma fd_created (w : world K EP) fd k :
  world_ok w → 0 <= fd → fd ∉ open w → opened k = {[fd]} ∪ open w → fstat_sock k fd = Some true →
  ∃ c fds k', fd_get (w_fds w) fd true k = Ok (Some c, fds, k') ∧
    world_ok (mkWorld fds (w_iom w) k') ∧ opened k' = opened k ∧
    fds !! Z.to_nat fd = Some (Some c).
Proof.
  intros Hw Hfd Hn Hk Hf.
  assert (mjoin (w_fds w !! Z.to_nat fd) = None) as Habs.
  { destruct (w_fds w !! Z.to_nat fd) as [[c|]|] eqn:E; [|done..].
    apply (ok_ctx w Hw) in E as [E _]. rewrite Z2Nat.id in E by done. done. }
  rewrite fd_get_absent by (done || apply Hw).
  destruct (FdCtx_new_socket fd k Hf) as (c & k1 & Ec & Hs & Hc & Ho).
  destruct (get_create_ok (w_fds w) fd k (ok_fds w Hw) Hfd) as (c' & k' & fds & -> & Ec' & Hi & Hl & Hoth).
  rewrite Ec in Ec'. simplify_eq. osimpl. exists c', fds, k'. split_and!; [done| |done|done].
  split; [done|apply Hw|]. intros i ctx Hctx. simpl in *. rewrite Ho, Hk.
  destruct (decide (i = Z.to_nat fd)) as [->|Hne].
  - rewrite Hl in Hctx. simplify_eq. rewrite Z2Nat.id by done. split; [set_solver|done].
  - specialize (Hoth i Hne). rewrite Hctx in Hoth. simpl in Hoth.
    assert (w_fds w !! i = Some (Some ctx)) as Hl' by (destruct (w_fds w !! i); naive_solver).
    destruct (ok_ctx w Hw _ _ Hl') as (? & ? & ?). split; [set_solver|done].
Qed.

(** Changing a context in place. *)
Lemma world_ok_ctx (w : world K EP) i c c' :
  world_ok w → w_fds w !! i = Some (Some c) → m_isSocket c' = m_isSocket c → m_isClosed c' = m_isClosed c →
  m_fd c' = m_fd c → world_ok (mkWorld (<[i := Some c']> (w_fds w)) (w_iom w) (w_kernel w)).
Proof.
  intros [[Hs He] Hi Hc] Hl Hsk Hcl Hfd. split; [split|done|]; simpl.
  - by rewrite length_insert.
  - intros j d [(<- & [= ->] & _)|(_ & Hj)]%list_lookup_insert_Some; [|by apply He].
    rewrite Hfd. by apply He.
  - intros j d [(<- & [= ->] & _)|(_ & Hj)]%list_lookup_insert_Some; [|by apply Hc].
    rewrite Hsk, Hcl. by apply Hc.
Qed.

(** An option of the right kind. *)
Definition opt_ok (level optname : Z) (v : optval) : Prop :=
  match v with
  | OptTimeval _ _ => True
  | OptOther _ => level ≠ SOL_SOCKET ∨ (optname ≠ SO_RCVTIMEO ∧ optname ≠ SO_SNDTIMEO)
  end.

Lemma setOption_ok s (w : world K EP) level optname v :
  world_ok w → sane s → opt_ok level optname v →
  ∃ b w', setOption true s w level optname v = Ok (b, w') ∧ world_ok w' ∧ open w' = open w.
Proof.
  intros Hw Hs Hv. unfold setOption, setsockopt. simpl.
  destruct (bool_decide (level = SOL_SOCKET) && _) eqn:Ecase.
  - destruct (fd_read w (m_sock s) Hw (sane_range s Hs)) as (c & -> & Hc). osimpl.
    destruct c as [ctx|].
    + destruct (Hc ctx eq_refl) as (Hfd & Hl & _). destruct v as [sec usec|n]; osimpl.
      * destruct (setsockopt_f _ _ _ _ _) as [r k] eqn:Ek. osimpl. do 2 eexists. split; [done|].
        pose proof (setsockopt_keeps (w_kernel w) (m_sock s) level optname (OptTimeval sec usec)) as Ho.
        rewrite Ek in Ho. simpl in Ho. split; [|done].
        eapply (world_ok_kernel (mkWorld _ (w_iom w) (w_kernel w))); [|done].
        apply (world_ok_ctx w _ ctx); [done|done|unfold setTimeout; destruct (decide _); done..].
      * apply andb_true_iff in Ecase as [E1%bool_decide_eq_true E2%bool_decide_eq_true].
        simpl in Hv. naive_solver.
    + osimpl. destruct (setsockopt_f _ _ _ _ _) as [r k] eqn:Ek. osimpl. do 2 eexists. split; [done|].
      pose proof (setsockopt_keeps (w_kernel w) (m_sock s) level optname v) as Ho. rewrite Ek in Ho.
      simpl in *. split; [by apply world_ok_kernel|done].
  - osimpl. destruct (setsockopt_f _ _ _ _ _) as [r k] eqn:Ek. osimpl. do 2 eexists. split; [done|].
    pose proof (setsockopt_keeps (w_kernel w) (m_sock s) level optname v) as Ho. rewrite Ek in Ho.
    simpl in *. split; [by apply world_ok_kernel|done].
Qed.

(** ** Hooked calls *)

Lemma do_io_ok (w : world K EP) f fd msg flags :
  world_ok w → fd = -1 ∨ 0 <= fd → f ≠ accept →
  ∃ n msg' w', do_io true w f fd msg flags = Ok (n, msg', w') ∧ world_ok w' ∧ open w' = open w.
Proof.
  intros Hw Hfd Hf. unfold do_io, do_io_enter. simpl.
  destruct (fd_read w fd Hw Hfd) as (c & -> & Hc). osimpl.
  pose proof (io_keeps (w_kernel w) f fd msg flags Hf) as Hio.
  assert (∃ n msg' w', (let '(n, msg, k) := io_f (w_kernel w) f fd msg flags in
      mret (n, msg, set_kernel w k)) = Ok (n, msg', w') ∧ world_ok w' ∧ open w' = open w) as Hdirect.
  { destruct (io_f _ _ _ _ _) as [[n msg'] k]. simpl in Hio. do 3 eexists. split; [done|].
    split; [by apply world_ok_kernel|done]. }
  destruct c as [ctx|]; [|exact Hdirect]. destruct (Hc ctx eq_refl) as (_ & _ & Hs & Hcl). rewrite Hcl, Hs.
  destruct (m_userNonblock ctx); [exact Hdirect|]. cbn [negb orb]. osimpl.
  pose proof (io_wait_keeps (w_kernel w) f fd msg flags (getTimeout ctx (fun_event f).2) Hf) as Hwait.
  destruct (io_wait _ _ _ _ _ _) as [[n msg'] k]. simpl in Hwait. do 3 eexists. split; [done|].
  split; [by apply world_ok_kernel|done].
Qed.

Lemma connect_with_timeout_ok (w : world K EP) fd addr len to :
  world_ok w → fd = -1 ∨ 0 <= fd →
  ∃ n w', connect_with_timeout true w fd addr len to = Ok (n, w') ∧ world_ok w' ∧ open w' = open w.
Proof.
  intros Hw Hfd. unfold connect_with_timeout, connect_enter. simpl.
  destruct (fd_read w fd Hw Hfd) as (c & -> & Hc). osimpl.
  destruct c as [ctx|]; [|by eexists _, w]. destruct (Hc ctx eq_refl) as (_ & _ & Hs & Hcl).
  rewrite Hcl, Hs. simpl. destruct (m_userNonblock ctx); osimpl.
  - pose proof (connect_keeps (w_kernel w) fd addr len) as Ho.
    destruct (connect_f _ _ _ _) as [n k]. simpl in Ho. do 2 eexists. split; [done|].
    split; [by apply world_ok_kernel|done].
  - pose proof (connect_wait_keeps (w_kernel w) fd addr len to) as Ho.
    destruct (connect_wait _ _ _ _ _) as [n k]. simpl in Ho. do 2 eexists. split; [done|].
    split; [by apply world_ok_kernel|done].
Qed.

Lemma hook_close_ok (w : world K EP) fd :
  world_ok w → 0 <= fd →
  ∃ w', hook_close true w fd = Ok w' ∧ world_ok w' ∧ open w' = open w ∖ {[fd]}.
Proof.
  intros Hw Hfd. unfold hook_close, close. simpl.
  destruct (fd_read w fd Hw (or_intror Hfd)) as (c & E & Hc). rewrite E. osimpl.
  pose proof (close_closes (w_kernel w) fd) as Ho. destruct (close_f (w_kernel w) fd) as [r k]. simpl in Ho.
  destruct c as [ctx|].
  - assert (∃ iom, match w_iom w with
                   | None => mret None
                   | Some io => '(_, io) ← cancelAll io fd; mret (Some io)
                   end = Ok iom ∧ ∀ io, iom = Some io → io_inv io) as (iom & -> & Hiom).
    { destruct (w_iom w) as [io|] eqn:Eio; [|by exists None].
      destruct (cancelAll_spec io (Z.to_nat fd) (ok_iom w Hw io Eio)) as (b & io' & Eb & Hio & _).
      rewrite Z2Nat.id in Eb by done. rewrite Eb. osimpl. exists (Some io'). split; [done|]. by intros ? [= <-]. }
    osimpl. destruct (fd_del_ok (w_fds w) fd (ok_fds w Hw) Hfd) as (fds & -> & Hi & _ & Hl). osimpl.
    eexists. split; [done|]. split; [|done]. split; [done|done|]. simpl. intros i d.
    rewrite Hl. case_decide as Hd; [done|]. intros Hi'. destruct (ok_ctx w Hw _ _ Hi') as (Hin & ? & ?).
    split_and!; [|done..]. rewrite Ho. apply elem_of_difference. split; [done|].
    intros Heq%elem_of_singleton. apply Hd. apply lookup_lt_Some in Hi'. lia.
  - osimpl. eexists. split; [done|]. split; [|done]. split; [apply Hw|apply Hw|]. simpl. intros i d Hi.
    destruct (ok_ctx w Hw _ _ Hi) as (Hin & ? & ?). split_and!; [|done..]. rewrite Ho.
    apply elem_of_difference. split; [done|]. intros Heq%elem_of_singleton.
    rewrite fd_get_read in E by (done || apply Hw). rewrite <-Heq, Nat2Z.id, Hi in E. done.
Qed.

Lemma hook_accept_ok (w : world K EP) fd :
  world_ok w → fd = -1 ∨ 0 <= fd →
  ∃ connfd w', hook_accept true w fd = Ok (connfd, w') ∧ world_ok w' ∧
    ((connfd = -1 ∧ open w' = open w) ∨
     (0 <= connfd ∧ (connfd ∉ open w) ∧ open w' = {[connfd]} ∪ open w ∧
      ∃ c, w_fds w' !! Z.to_nat connfd = Some (Some c))).
Proof.
  intros Hw Hfd. unfold hook_accept.
  assert (∃ n msg k, do_io true w accept fd (mkMsg None []) 0 = Ok (n, msg, set_kernel w k) ∧
    ((n = -1 ∧ opened k = open w) ∨
     (0 <= n ∧ (n ∉ open w) ∧ opened k = {[n]} ∪ open w ∧ fstat_sock k n = Some true)))
    as (n & msg & k & -> & Hcase).
  { unfold do_io, do_io_enter. simpl. destruct (fd_read w fd Hw Hfd) as (c & -> & Hc). osimpl.
    assert (∃ n msg' k', (let '(n, msg, k) := io_f (w_kernel w) accept fd (mkMsg None []) 0 in
        mret (n, msg, set_kernel w k)) = Ok (n, msg', set_kernel w k') ∧
      ((n = -1 ∧ opened k' = open w) ∨ (0 <= n ∧ (n ∉ open w) ∧ opened k' = {[n]} ∪ open w ∧
        fstat_sock k' n = Some true))) as Hdirect.
    { destruct (io_f _ _ _ _ _) as [[n msg'] k] eqn:Ek. do 3 eexists. split; [done|].
      by eapply accept_opens. }
    destruct c as [ctx|]; [|exact Hdirect]. destruct (Hc ctx eq_refl) as (_ & _ & Hs & Hcl). rewrite Hcl, Hs.
    destruct (m_userNonblock ctx); [exact Hdirect|]. cbn [negb orb]. osimpl.
    destruct (io_wait _ _ _ _ _ _) as [[n msg'] k] eqn:Ek. do 3 eexists. split; [done|].
    by eapply accept_wait_opens. }
  osimpl. unfold accept_result. simpl. destruct Hcase as [[-> Ho]|(Hn & Hfresh & Ho & Hst)].
  - rewrite decide_False by lia. osimpl. do 2 eexists. split; [done|].
    split; [by apply world_ok_kernel|]. left. done.
  - rewrite decide_True by done.
    destruct (fd_created w n k Hw Hn Hfresh Ho Hst) as (c & fds & k' & -> & Hw' & Ho' & Hl). osimpl.
    do 2 eexists. split; [done|]. split; [done|]. right. simpl. rewrite Ho', Ho. split_and!; [done..|by eexists].
Qed.

(** ** Addresses *)

(** The sizes of the structures. *)
Definition addr_sized (a : Address) : Prop :=
  match a with
  | IPv4Address m => length (sin_zero m) = 8%nat
  | IPv6Address m => length (s6_addr m) = 16%nat
  | UnixAddress m n => length (sun_path m) = 108%nat ∧ 0 <= n <= 110
  | UnknownAddress m => length (sa_data m) = 14%nat
  end.

Lemma write_addr_ok a bytes :
  addr_sized a → (length bytes <= Z.to_nat (getAddrLen a))%nat → ∃ a', write_addr order a bytes = Ok a'.
Proof.
  intros Ha Hb. unfold write_addr.
  assert (length bytes <= length (getAddr order a))%nat as Hle.
  { destruct a as [m|m|m n|m]; simpl in *; unfold in_bytes, in6_bytes, un_bytes, sa_bytes;
      rewrite !length_app, !length_to_memory; simpl; lia. }
  pose proof (length_overwrite 0 bytes (getAddr order a) Hle) as Hlen.
  destruct a as [m|m|m n|m]; simpl in *; unfold in_bytes, in6_bytes, un_bytes, sa_bytes in *;
    rewrite !length_app, !length_to_memory in Hlen; simpl in Hlen; [| |by eexists|].
  - unfold read_in. rewrite decide_True by lia. by eexists.
  - unfold read_in6. rewrite decide_True by lia. by eexists.
  - unfold read_sa. rewrite decide_True by lia. by eexists.
Qed.

Lemma new_address_sized family : addr_sized (new_address order family).
Proof. unfold new_address. repeat case_decide; simpl; (done || (split; [done|lia])). Qed.

Lemma name_of_ok family name : ∃ r, name_of order family name = Ok r.
Proof.
  unfold name_of. destruct name as [name|]; [|by eexists].
  destruct (write_addr_ok (new_address order family)
    (take (Z.to_nat (getAddrLen (new_address order family))) name)) as [a ->];
    [apply new_address_sized|rewrite length_take; lia|]. osimpl. by eexists.
Qed.

(** Looking up an address changes nothing but the cache. *)
Definition same_sock (s s' : Socket) : Prop :=
  m_sock s' = m_sock s ∧ m_connected s' = m_connected s ∧ m_family s' = m_family s ∧
  (∀ a, m_localAddress s = Some a → m_localAddress s' = Some a) ∧
  (∀ a, m_remoteAddress s = Some a → m_remoteAddress s' = Some a).

Lemma getRemoteAddress_ok s (w : world K EP) :
  ∃ a s', getRemoteAddress order s w = Ok (a, s') ∧ same_sock s s'.
Proof.
  unfold getRemoteAddress. destruct (m_remoteAddress s) as [a|] eqn:Ea; [by exists a, s|].
  destruct (name_of_ok (m_family s) (getpeername_f (w_kernel w) (m_sock s))) as [[a ok] ->]. osimpl.
  do 2 eexists. split; [done|]. destruct ok; [|done]. split_and!; [done..|]. simpl. congruence.
Qed.

Lemma getLocalAddress_ok s (w : world K EP) :
  ∃ a s', getLocalAddress order s w = Ok (a, s') ∧ same_sock s s'.
Proof.
  unfold getLocalAddress. destruct (m_localAddress s) as [a|] eqn:Ea; [by exists a, s|].
  destruct (name_of_ok (m_family s) (getsockname_f (w_kernel w) (m_sock s))) as [[a ok] ->]. osimpl.
  do 2 eexists. split; [done|]. destruct ok; [|done]. split_and!; [done..| |done]. simpl. congruence.
Qed.

Lemma same_own s s' : same_sock s s' → own s' = own s ∧ (sane s → sane s').
Proof.
  intros (E1 & E2 & _). unfold own, isValid. rewrite E1. split; [done|].
  intros [Hc Hr]. split; [rewrite E1, E2; done|by rewrite E1].
Qed.

(** ** Operations *)

(** The socket is in order, and the descriptors open besides its own are
    [others]. *)
Record holds (others : gset Z) (s : Socket) (w : world K EP) : Prop := {
  holds_world : world_ok w;
  holds_sane : sane s;
  holds_open : open w = own s ∪ others;
  holds_disj : own s ## others
}.

Lemma holds_same others s s' w : holds others s w → same_sock s s' → holds others s' w.
Proof.
  intros [Hw Hs Ho Hd] Hsame. destruct (same_own s s' Hsame) as [E Hs']. split; [done|auto|by rewrite E..].
Qed.

Lemma holds_world_change others s w w' : holds others s w → world_ok w' → open w' = open w → holds others s w'.
Proof. intros [Hw Hs Ho Hd] Hw' E. split; [done..|by rewrite E|done]. Qed.

Lemma initSock_ok s (w : world K EP) :
  world_ok w → sane s → ∃ w', initSock true s w = Ok w' ∧ world_ok w' ∧ open w' = open w.
Proof.
  intros Hw Hs. unfold initSock.
  destruct (setOption_ok s w SOL_SOCKET SO_REUSEADDR (OptOther 4) Hw Hs) as (b & w1 & -> & Hw1 & Ho1);
    [by right|]. osimpl. case_decide; [|by exists w1].
  destruct (setOption_ok s w1 IPPROTO_TCP TCP_NODELAY (OptOther 4) Hw1 Hs) as (b2 & w2 & -> & Hw2 & Ho2);
    [by left|]. osimpl. exists w2. by rewrite Ho2.
Qed.

(** The options that [initSock] sets are not kept in the table. *)
Lemma initSock_fds s (w w' : world K EP) : initSock true s w = Ok w' → w_fds w' = w_fds w.
Proof.
  assert (∀ (w w' : world K EP) level optname b, level ≠ SOL_SOCKET ∨ optname = SO_REUSEADDR →
    setOption true s w level optname (OptOther 4) = Ok (b, w') → w_fds w' = w_fds w) as Hset.
  { intros w1 w2 level optname b Hopt. unfold setOption, setsockopt.
    replace (true && bool_decide (level = SOL_SOCKET) &&
      bool_decide (optname = SO_RCVTIMEO ∨ optname = SO_SNDTIMEO)) with false.
    - osimpl. destruct (setsockopt_f _ _ _ _ _) as [r k]. osimpl. by intros [= _ <-].
    - symmetry. destruct Hopt as [?| ->].
      + by rewrite (bool_decide_eq_false_2 (level = _)).
      + rewrite (bool_decide_eq_false_2 (SO_REUSEADDR = _ ∨ _)) by (by intros [?|?]). apply andb_false_r. }
  unfold initSock. intros ([b w1] & E1 & E)%outcome_bind_ok. apply Hset in E1; [|by right].
  case_decide; [|injection E as <-; done]. apply outcome_bind_ok in E as ([b2 w2] & E2 & [= <-]).
  apply Hset in E2; [congruence|by left].
Qed.

Lemma sane_new fam ty pr : sane (Socket_new fam ty pr).
Proof. split; [done|by left]. Qed.

Lemma newSock_holds others s (w : world K EP) :
  holds others s w → m_sock s = -1 →
  ∃ s' w', newSock true s w = Ok (s', w') ∧ holds others s' w' ∧ m_family s' = m_family s ∧
    m_localAddress s' = m_localAddress s ∧ m_remoteAddress s' = m_remoteAddress s.
Proof.
  intros [Hw [Hc Hr] Ho Hd] Hinv. rewrite own_invalid, union_empty_l_L in Ho by done.
  assert (m_connected s = false) as Hcf by (destruct (m_connected s); naive_solver).
  unfold newSock, socket. simpl. destruct (socket_f _ _ _ _) as [fd k] eqn:Ek.
  pose proof (socket_opens _ _ _ _ _ _ Ek) as Hopen. destruct (decide (fd = -1)) as [->|Hne].
  - destruct Hopen as [[_ Hk]|[? _]]; [|lia]. osimpl. rewrite decide_False by naive_solver.
    do 2 eexists. split; [done|]. split; [|done]. split.
    + by apply (world_ok_kernel w k Hw).
    + split; simpl; [by rewrite Hcf|by left].
    + simpl. by rewrite own_invalid, union_empty_l_L, Hk, Ho.
    + by rewrite own_invalid.
  - destruct Hopen as [[? _]|(Hfd & Hn & Hk & Hst)]; [done|].
    destruct (fd_created w fd k Hw Hfd Hn Hk Hst) as (c & fds & k' & -> & Hw' & Hk' & _). osimpl.
    rewrite decide_True by done.
    destruct (initSock_ok (set_sock s fd (m_connected s)) _ Hw') as (w1 & -> & Hw1 & Ho1).
    { split; simpl; [done|by right]. }
    osimpl. do 2 eexists. split; [done|]. split; [|done]. split.
    + done.
    + split; simpl; [done|by right].
    + rewrite Ho1. simpl. by rewrite Hk', Hk, Ho, own_valid.
    + rewrite own_valid by done. simpl. rewrite <-Ho. set_solver.
Qed.

Lemma ensure_sock_holds others s (w : world K EP) :
  holds others s w →
  ∃ s' w', ensure_sock true s w = Ok (s', w') ∧ holds others s' w' ∧ m_family s' = m_family s ∧
    m_localAddress s' = m_localAddress s ∧ m_remoteAddress s' = m_remoteAddress s.
Proof.
  intros Hh. unfold ensure_sock. destruct (isValid s) eqn:Ev; [by exists s, w|].
  apply newSock_holds; [done|]. by apply isValid_false.
Qed.

Lemma close_holds others s (w : world K EP) :
  holds others s w →
  ∃ b s' w', Socket_close true s w = Ok (b, s', w') ∧ holds others s' w' ∧ m_sock s' = -1 ∧
    b = bool_decide (m_sock s = -1) ∧ m_localAddress s' = m_localAddress s ∧
    m_remoteAddress s' = m_remoteAddress s.
Proof.
  intros Hh. pose proof Hh as [Hw [Hc Hr] Ho Hd]. unfold Socket_close.
  destruct (isValid s) eqn:Ev.
  - rewrite andb_false_r. apply isValid_true in Ev.
    rewrite (proj2 (isValid_true (set_sock s (m_sock s) false)) Ev).
    destruct (hook_close_ok w (m_sock s) Hw) as (w' & E & Hw' & Ho'); [destruct Hr; [done|lia]|].
    simpl in *. rewrite E. osimpl. do 3 eexists. split; [done|]. rewrite bool_decide_eq_false_2 by done.
    rewrite (own_valid s Ev) in Ho, Hd. split; [|done]. split.
    + done.
    + split; simpl; [done|by left].
    + rewrite (own_invalid (set_sock _ _ _)) by done. rewrite Ho', Ho. set_solver.
    + by rewrite own_invalid.
  - apply isValid_false in Ev. assert (m_connected s = false) as -> by (destruct (m_connected s); naive_solver).
    simpl. do 3 eexists. split; [done|]. by rewrite bool_decide_eq_true_2.
Qed.

Lemma destroy_ok others s (w : world K EP) :
  holds others s w → ∃ w', Socket_destroy true s w = Ok w' ∧ world_ok w' ∧ open w' = others.
Proof.
  intros Hh. unfold Socket_destroy. destruct (close_holds others s w Hh) as (b & s' & w' & -> & [Hw Hs Ho Hd] & Hm & _).
  osimpl. exists w'. split; [done|]. split; [done|]. by rewrite Ho, own_invalid, union_empty_l_L.
Qed.

(** A cached address is never replaced. *)
Definition kept (s s' : Socket) : Prop :=
  (∀ a, m_localAddress s = Some a → m_localAddress s' = Some a) ∧
  (∀ a, m_remoteAddress s = Some a → m_remoteAddress s' = Some a).

Lemma kept_trans s1 s2 s3 : kept s1 s2 → kept s2 s3 → kept s1 s3.
Proof. unfold kept. naive_solver. Qed.

Lemma kept_eq s s' :
  m_localAddress s' = m_localAddress s → m_remoteAddress s' = m_remoteAddress s → kept s s'.
Proof. unfold kept. intros -> ->. done. Qed.

Lemma same_kept s s' : same_sock s s' → kept s s'.
Proof. by intros (_ & _ & _ & ? & ?). Qed.

Lemma connect_holds others s (w : world K EP) addr to ct :
  holds others s w →
  ∃ b s' w', Socket_connect order true s w addr to ct = Ok (b, s', w') ∧ holds others s' w' ∧ kept s s' ∧
    (b = true → m_connected s' = true ∧ getFamily order addr = m_family s).
Proof.
  intros Hh. unfold Socket_connect.
  destruct (ensure_sock_holds others s w Hh) as (s1 & w1 & -> & H1' & Hfam & Hl & Hr). osimpl.
  assert (kept s s1) as Hk by by apply kept_eq.
  destruct (isValid s1) eqn:Ev; cbn [negb]; [|by exists false, s1, w1].
  case_decide as Hf; [by exists false, s1, w1|].
  destruct (connect_with_timeout_ok w1 (m_sock s1) (getAddr order addr) (getAddrLen addr)
    (if decide (to = NO_TIMEOUT) then ct else to)) as (n & w2 & -> & Hw2 & Ho2);
    [apply H1'|apply (holds_sane _ _ _ H1')|]. osimpl.
  pose proof (holds_world_change _ _ _ _ H1' Hw2 Ho2) as H2'. case_decide.
  - destruct (close_holds others s1 w2 H2') as (b & s3 & w3 & -> & H3' & _ & _ & El & Er). osimpl.
    exists false, s3, w3. split_and!; [done|done| |done]. eapply kept_trans; [done|by apply kept_eq].
  - apply isValid_true in Ev.
    assert (holds others (set_sock s1 (m_sock s1) true) w2) as H3'.
    { destruct H2' as [Hw [Hc Hrange] Ho Hd]. split; [done| |done|done]. by split. }
    destruct (getRemoteAddress_ok (set_sock s1 (m_sock s1) true) w2) as (a & s4 & -> & Hs4). osimpl.
    destruct (getLocalAddress_ok s4 w2) as (a' & s5 & -> & Hs5). osimpl.
    exists true, s5, w2. split; [done|]. split; [eauto using holds_same|]. split.
    + eapply kept_trans; [done|]. eapply kept_trans; [|by apply same_kept].
      eapply kept_trans; [|by apply same_kept]. by apply kept_eq.
    + intros _. destruct Hs4 as (_ & Hc4 & _), Hs5 as (_ & Hc5 & _). rewrite Hc5, Hc4.
      split; [done|]. by rewrite <-Hfam.
Qed.

Lemma holds_new others (w : world K EP) fam ty pr :
  world_ok w → open w = others → holds others (Socket_new fam ty pr) w.
Proof.
  intros Hw Ho. split; [done|apply sane_new|..]; rewrite own_invalid by done; [by rewrite union_empty_l_L|].
  set_solver.
Qed.

Lemma free_path_ok (w : world K EP) addr ct :
  world_ok w → usable addr →
  ∃ b w', free_path order true w addr ct = Ok (b, w') ∧ world_ok w' ∧ open w' = open w.
Proof.
  intros Hw Hu. destruct addr as [m|m|m n|m]; [by exists true, w|by exists true, w| |by exists true, w].
  cbn [free_path].
  destruct (connect_holds (open w) CreateUnixTCPSocket w (UnixAddress m n) NO_TIMEOUT ct)
    as (b & s1 & w1 & -> & H1' & _); [by apply holds_new|]. osimpl. destruct b.
  - destruct (destroy_ok _ _ _ H1') as (w2 & -> & Hw2 & Ho2). osimpl. by exists false, w2.
  - simpl in Hu. destruct (getPath m n) as [path| |]; [|by destruct Hu..]. osimpl.
    pose proof (unlink_keeps (w_kernel w1) path) as Ho. destruct (unlink_f (w_kernel w1) path) as [r k].
    simpl in Ho. destruct (destroy_ok (open w) s1 (set_kernel w1 k)) as (w2 & E & Hw2 & Ho2).
    { eapply holds_world_change; [done| |done]. by apply world_ok_kernel; [apply H1'|]. }
    cbn [snd]. rewrite E. osimpl. by exists true, w2.
Qed.

Lemma bind_holds others s (w : world K EP) addr ct :
  holds others s w → usable addr →
  ∃ b s' w', Socket_bind order true s w addr ct = Ok (b, s', w') ∧ holds others s' w' ∧ kept s s' ∧
    (b = true → m_sock s' ≠ -1 ∧ getFamily order addr = m_family s).
Proof.
  intros Hh Hu. unfold Socket_bind.
  destruct (ensure_sock_holds others s w Hh) as (s1 & w1 & -> & H1' & Hfam & Hl & Hr). osimpl.
  assert (kept s s1) as Hk by by apply kept_eq.
  destruct (isValid s1) eqn:Ev; cbn [negb]; [|by exists false, s1, w1].
  case_decide as Hf; [by exists false, s1, w1|].
  destruct (free_path_ok w1 addr ct (holds_world _ _ _ H1') Hu) as (b & w2 & -> & Hw2 & Ho2). osimpl.
  pose proof (holds_world_change _ _ _ _ H1' Hw2 Ho2) as H2'.
  destruct b; cbn [negb]; [|by exists false, s1, w2].
  pose proof (bind_keeps (w_kernel w2) (m_sock s1) (getAddr order addr) (getAddrLen addr)) as Hb.
  destruct (bind_f _ _ _ _) as [rt k]. simpl in Hb.
  assert (holds others s1 (set_kernel w2 k)) as H3'.
  { eapply holds_world_change; [exact H2'|by apply world_ok_kernel|done]. }
  case_decide; [by exists false, s1, (set_kernel w2 k)|].
  destruct (getLocalAddress_ok s1 (set_kernel w2 k)) as (a & s4 & -> & Hs4). osimpl.
  exists true, s4, (set_kernel w2 k). split; [done|]. split; [by eapply holds_same|].
  split; [eapply kept_trans; [done|by apply same_kept]|].
  intros _. destruct Hs4 as (Hs4 & _). rewrite Hs4. split; [by apply isValid_true|].
  by rewrite <-Hfam.
Qed.

(** An accepted socket is connected, holds the new descriptor and has a context. *)
Lemma accept_ok s (w : world K EP) :
  world_ok w → sane s →
  ∃ r w', Socket_accept order true s w = Ok (r, w') ∧ world_ok w' ∧
    match r with
    | None => open w' = open w
    | Some s' => holds (open w) s' w' ∧ m_connected s' = true ∧ m_family s' = m_family s ∧
        ∃ c, w_fds w' !! Z.to_nat (m_sock s') = Some (Some c)
    end.
Proof.
  intros Hw Hs. unfold Socket_accept. set (s0 := Socket_new _ _ _).
  destruct (hook_accept_ok w (m_sock s) Hw (sane_range s Hs)) as (connfd & w1 & -> & Hw1 & Hcase). osimpl.
  destruct Hcase as [[-> Ho]|(Hfd & Hn & Ho & c & Hc)].
  - rewrite decide_True by done.
    destruct (destroy_ok (open w1) s0 w1) as (w2 & -> & Hw2 & Ho2); [by apply holds_new|]. osimpl.
    exists None, w2. split_and!; [done|done|]. by rewrite Ho2.
  - rewrite decide_False by lia. unfold Socket_init, FdMgr_get.
    rewrite (fd_get_present _ connfd c) by done. osimpl.
    destruct (ok_ctx w1 Hw1 _ _ Hc) as (_ & Hsk & Hcl). unfold hooked_socket. rewrite Hsk, Hcl. simpl orb.
    cbv iota. set (s1 := set_sock s0 connfd true). assert (connfd ≠ -1) as Hne by lia.
    assert (sane s1) as Hs1 by (split; simpl; [done|by right]).
    destruct (initSock_ok s1 w1 Hw1 Hs1) as (w2 & Ei & Hw2 & Ho2). rewrite Ei. osimpl.
    apply initSock_fds in Ei. destruct (getLocalAddress_ok s1 w2) as (a & s4 & -> & Hs4). osimpl.
    destruct (getRemoteAddress_ok s4 w2) as (a' & s5 & -> & Hs5). osimpl.
    exists (Some s5), w2. split; [done|]. split; [done|]. split.
    + eapply holds_same; [eapply holds_same; [|exact Hs4]|exact Hs5]. split; [done|done|..];
        rewrite own_valid by done; simpl; [by rewrite Ho2, Ho|set_solver].
    + destruct Hs4 as (Hm4 & Hc4 & Hf4 & _), Hs5 as (Hm5 & Hc5 & Hf5 & _). rewrite Hc5, Hc4, Hf5, Hf4, Hm5, Hm4.
      split_and!; [done..|]. exists c. by rewrite Ei.
Qed.

End spec.
