(* ===== verification/SocketTheorems.v ===== *)
(** What sockets promise: descriptors have one owner and are not lost, timeouts
    are what was set; and where they do not keep up: stale addresses, IPv6, and
    contexts left behind by threads without hooks. *)

From Stdlib Require Import ZArith Lia.
From stdpp Require Import base numbers gmap option strings tactics sets relations list_numbers list.
From S2P Require Import Prelude Text Endian Address AddressSpec IOManager FdManager Hook HookTheorems Socket.
From S2P Require Import SocketSpec.

Local Open Scope Z_scope.

(** The operations of a socket on itself; the numbers of [OpConnect] and
    [OpBind] are the timeout and [s_connect_timeout]. *)
Inductive op : Type :=
| OpBind (addr : Address) (ct : Z)
| OpConnect (addr : Address) (to ct : Z)
| OpListen (backlog : Z)
| OpClose
| OpShutdownWrite
| OpShutdownRead
| OpSetSendTimeout (v : Z)
| OpSetRecvTimeout (v : Z)
| OpGetSendTimeout
| OpGetRecvTimeout
| OpGetError
| OpRemoteAddress
| OpLocalAddress
| OpSend (buffer : list Z) (flags : Z)
| OpSendv (buffers : list (list Z)) (flags : Z)
| OpSendTo (buffer : list Z) (to : Address) (flags : Z)
| OpSendvTo (buffers : list (list Z)) (to : Address) (flags : Z)
| OpRecv (buffer : list Z) (flags : Z)
| OpRecvv (buffers : list (list Z)) (flags : Z)
| OpRecvFrom (buffer : list Z) (from : Address) (flags : Z)
| OpRecvvFrom (buffers : list (list Z)) (from : Address) (flags : Z)
| OpCancelRead
| OpCancelWrite
| OpCancelAccept
| OpCancelAll.

Section theorems.
Context {K EP : Type} `{Kernel K} `{Net K} `{Epoll EP} (opened : K → gset Z) `{!NetLaws K opened}.
Context (order : endian).

Abbreviation open w := (opened (w_kernel w)).
Abbreviation world := (world K EP).

(** One operation on a thread with hooks; its result is dropped. *)
Definition run_op (s : Socket) (w : world) (o : op) : outcome (Socket * world) :=
  match o with
  | OpBind addr ct => '(_, s, w) ← Socket_bind order true s w addr ct; mret (s, w)
  | OpConnect addr to ct => '(_, s, w) ← Socket_connect order true s w addr to ct; mret (s, w)
  | OpListen backlog => mret (s, (Socket_listen s w backlog).2)
  | OpClose => '(_, s, w) ← Socket_close true s w; mret (s, w)
  | OpShutdownWrite => mret (s, shutdownWrite s w)
  | OpShutdownRead => mret (s, shutdownRead s w)
  | OpSetSendTimeout v => w ← setSendTimeout true s w v; mret (s, w)
  | OpSetRecvTimeout v => w ← setRecvTimeout true s w v; mret (s, w)
  | OpGetSendTimeout => _ ← getSendTimeout s w; mret (s, w)
  | OpGetRecvTimeout => _ ← getRecvTimeout s w; mret (s, w)
  | OpGetError => mret (s, (getError s w).2)
  | OpRemoteAddress => '(_, s) ← getRemoteAddress order s w; mret (s, w)
  | OpLocalAddress => '(_, s) ← getLocalAddress order s w; mret (s, w)
  | OpSend b flags => '(_, w) ← Socket_send true s w b flags; mret (s, w)
  | OpSendv bs flags => '(_, w) ← Socket_sendv true s w bs flags; mret (s, w)
  | OpSendTo b to flags => '(_, w) ← Socket_sendTo order true s w b to flags; mret (s, w)
  | OpSendvTo bs to flags => '(_, w) ← Socket_sendvTo order true s w bs to flags; mret (s, w)
  | OpRecv b flags => '(_, _, w) ← Socket_recv true s w b flags; mret (s, w)
  | OpRecvv bs flags => '(_, _, w) ← Socket_recvv true s w bs flags; mret (s, w)
  | OpRecvFrom b from flags => '(_, _, _, w) ← Socket_recvFrom order true s w b from flags; mret (s, w)
  | OpRecvvFrom bs from flags => '(_, _, _, w) ← Socket_recvvFrom order true s w bs from flags; mret (s, w)
  | OpCancelRead => '(_, w) ← cancelRead s w; mret (s, w)
  | OpCancelWrite => '(_, w) ← cancelWrite s w; mret (s, w)
  | OpCancelAccept => '(_, w) ← cancelAcccept s w; mret (s, w)
  | OpCancelAll => '(_, w) ← Socket_cancelAll s w; mret (s, w)
  end.

(** What the caller of an operation has to see to. *)
Definition op_ready (s : Socket) (w : world) (o : op) : Prop :=
  match o with
  | OpBind addr _ => usable addr
  | OpRecvFrom _ from _ | OpRecvvFrom _ from _ => addr_sized from
  | OpCancelRead | OpCancelWrite | OpCancelAccept | OpCancelAll => is_Some (w_iom w) ∧ m_sock s ≠ -1
  | _ => True
  end.

Lemma transfer_ok s (w : world) f msg flags :
  world_ok opened w → sane s → f ≠ accept →
  ∃ n msg' w', transfer true s w f msg flags = Ok (n, msg', w') ∧ world_ok opened w' ∧ open w' = open w.
Proof.
  intros Hw Hs Hf. unfold transfer. destruct (m_connected s); [|by exists (-1), msg, w].
  apply do_io_ok; [done..|apply Hs|done].
Qed.

Lemma receive_from_ok f s (w : world) bs from flags :
  world_ok opened w → sane s → f ≠ accept → addr_sized from →
  ∃ r w', receive_from order true f s w bs from flags = Ok (r, w') ∧ world_ok opened w' ∧ open w' = open w.
Proof.
  intros Hw Hs Hf Ha. unfold receive_from.
  destruct (transfer_ok s w f (mkMsg (to_name order from) bs) flags Hw Hs Hf) as (n & msg & w' & -> & Hw' & Ho).
  osimpl. unfold sender. destruct (msg_name msg) as [[bytes len]|]; [|osimpl; by eexists _, w'].
  destruct (write_addr_ok order from (take (Z.to_nat (getAddrLen from)) bytes) Ha) as [a ->];
    [rewrite length_take; lia|]. osimpl. by eexists _, w'.
Qed.

Lemma cancelled_ok {R} s (w : world) (f : IOManager (K := EP) → Z → outcome (R * IOManager (K := EP))) :
  world_ok opened w → sane s → is_Some (w_iom w) ∧ m_sock s ≠ -1 →
  (∀ io fd, io_inv io → ∃ r io', f io (Z.of_nat fd) = Ok (r, io') ∧ io_inv io') →
  ∃ r w', with_iom s w f = Ok (r, w') ∧ world_ok opened w' ∧ open w' = open w.
Proof.
  intros Hw Hs [[io Hio] Hv] Hf. unfold with_iom. rewrite Hio. osimpl.
  destruct (sane_range s Hs) as [|Hr]; [done|].
  destruct (Hf io (Z.to_nat (m_sock s)) (ok_iom _ w Hw io Hio)) as (r & io' & E & Hio').
  rewrite Z2Nat.id in E by done. rewrite E. osimpl.
  do 2 eexists. split; [done|]. split; [by apply world_ok_iom|done].
Qed.

Lemma cancelEvent_safe event (io : IOManager (K := EP)) fd :
  io_inv io → ∃ r io', cancelEvent io (Z.of_nat fd) event = Ok (r, io') ∧ io_inv io'.
Proof. intros Hio. destruct (cancelEvent_spec io fd event Hio) as (? & ? & ? & ? & _). eauto. Qed.

Lemma timeout_ok s (w : world) : world_ok opened w → sane s → ∃ c, FdMgr_get w (m_sock s) = Ok c.
Proof.
  intros Hw Hs. unfold FdMgr_get.
  destruct (fd_read opened w (m_sock s) Hw (sane_range s Hs)) as (c & -> & _). osimpl. by exists c.
Qed.

Lemma shutdown_ok s (w : world) how :
  world_ok opened w → world_ok opened (shutdown s w how) ∧ open (shutdown s w how) = open w.
Proof.
  intros Hw. unfold shutdown. destruct (_ || _); [done|].
  pose proof (shutdown_keeps (w_kernel w) (m_sock s) how). by split; [apply world_ok_kernel|].
Qed.

(** The operations that leave the socket itself alone. *)
Lemma quiet_ok {R} others s (w : world) (m : outcome (R * world)) :
  holds opened others s w →
  (∃ r w', m = Ok (r, w') ∧ world_ok opened w' ∧ open w' = open w) →
  ∃ s' w', ('(_, w) ← m; mret (s, w)) = Ok (s', w') ∧ holds opened others s' w' ∧ kept s s'.
Proof.
  intros Hh (r & w' & -> & Hw' & Ho). osimpl. exists s, w'. split; [done|].
  split; [by eapply holds_world_change|by apply kept_eq].
Qed.

Lemma sent_ok {R} others s (w : world) f msg flags (g : Z → msghdr → R) :
  holds opened others s w → f ≠ accept →
  ∃ r w', ('(n, msg, w) ← transfer true s w f msg flags; mret (g n msg, w)) = Ok (r, w') ∧
    world_ok opened w' ∧ open w' = open w.
Proof.
  intros Hh Hf. destruct (transfer_ok s w f msg flags (holds_world _ _ _ _ Hh) (holds_sane _ _ _ _ Hh) Hf)
    as (n & msg' & w' & -> & Hw & Ho). osimpl. by eexists _, w'.
Qed.

(** The end of an operation that changed only the world. *)
Ltac only_world :=
  osimpl; eexists _, _; split; [done|]; split; [by eapply holds_world_change|done].

Lemma run_op_ok others s (w : world) o :
  holds opened others s w → op_ready s w o →
  ∃ s' w', run_op s w o = Ok (s', w') ∧ holds opened others s' w' ∧ kept s s'.
Proof.
  intros Hh Hr. pose proof Hh as [Hw Hs _ _]. destruct o; cbn [run_op op_ready] in *.
  - destruct (bind_holds opened order others s w addr ct Hh Hr) as (b & s' & w' & -> & ? & ? & _). osimpl. by eexists _, _.
  - destruct (connect_holds opened order others s w addr to ct Hh) as (b & s' & w' & -> & ? & ? & _). osimpl.
    by eexists _, _.
  - exists s. unfold Socket_listen. destruct (isValid s); cbn [negb]; [|by exists w].
    pose proof (listen_keeps (w_kernel w) (m_sock s) backlog) as Ho.
    destruct (listen_f _ _ _) as [rt k]. simpl in *. eexists. split; [done|]. split; [|done].
    eapply holds_world_change; [done|by apply world_ok_kernel|done].
  - destruct (close_holds opened others s w Hh) as (b & s' & w' & -> & ? & _ & _ & ? & ?). osimpl.
    eexists _, _. split; [done|]. split; [done|by apply kept_eq].
  - destruct (shutdown_ok s w SHUT_WR Hw) as [? ?]. only_world.
  - destruct (shutdown_ok s w SHUT_RD Hw) as [? ?]. only_world.
  - destruct (setOption_ok opened s w SOL_SOCKET SO_SNDTIMEO (timeval_of v) Hw Hs I) as (b & w' & E & ? & ?).
    unfold setSendTimeout. rewrite E. only_world.
  - destruct (setOption_ok opened s w SOL_SOCKET SO_RCVTIMEO (timeval_of v) Hw Hs I) as (b & w' & E & ? & ?).
    unfold setRecvTimeout. rewrite E. only_world.
  - destruct (timeout_ok s w Hw Hs) as [c E]. unfold getSendTimeout. rewrite E. osimpl. by exists s, w.
  - destruct (timeout_ok s w Hw Hs) as [c E]. unfold getRecvTimeout. rewrite E. osimpl. by exists s, w.
  - unfold getError, getOption. pose proof (getsockopt_keeps (w_kernel w) (m_sock s) SOL_SOCKET SO_ERROR) as Ho.
    destruct (getsockopt_f _ _ _ _) as [r k]. simpl in *. eexists _, _. split; [done|]. split; [|done].
    eapply holds_world_change; [done|by apply world_ok_kernel|done].
  - destruct (getRemoteAddress_ok order s w) as (a & s' & -> & Hsame). osimpl. eexists _, _. split; [done|].
    split; [by eapply holds_same|by apply same_kept].
  - destruct (getLocalAddress_ok order s w) as (a & s' & -> & Hsame). osimpl. eexists _, _. split; [done|].
    split; [by eapply holds_same|by apply same_kept].
  - apply (quiet_ok others s w); [done|]. by eapply (sent_ok others s w _ _ _ (λ n _, s32 n)).
  - apply (quiet_ok others s w); [done|]. by eapply (sent_ok others s w _ _ _ (λ n _, s32 n)).
  - apply (quiet_ok others s w); [done|]. by eapply (sent_ok others s w _ _ _ (λ n _, s32 n)).
  - apply (quiet_ok others s w); [done|]. by eapply (sent_ok others s w _ _ _ (λ n _, s32 n)).
  - destruct (sent_ok others s w recv (mkMsg None [buffer]) flags (λ n msg, (s32 n, msg_iov msg)) Hh)
      as ([] & w' & E & ? & ?); [done|]. unfold Socket_recv. rewrite E. only_world.
  - destruct (sent_ok others s w recvmsg (mkMsg None buffers) flags (λ n msg, (s32 n, msg_iov msg)) Hh)
      as ([] & w' & E & ? & ?); [done|]. unfold Socket_recvv. rewrite E. only_world.
  - destruct (receive_from_ok recvfrom s w [buffer] from flags Hw Hs) as ([[]] & w' & E & ? & ?); [done..|].
    unfold Socket_recvFrom. rewrite E. only_world.
  - destruct (receive_from_ok recvmsg s w buffers from flags Hw Hs) as ([[]] & w' & E & ? & ?); [done..|].
    unfold Socket_recvvFrom. rewrite E. only_world.
  - apply (quiet_ok others s w), cancelled_ok; [done..|]. apply cancelEvent_safe.
  - apply (quiet_ok others s w), cancelled_ok; [done..|]. apply cancelEvent_safe.
  - apply (quiet_ok others s w), cancelled_ok; [done..|]. apply cancelEvent_safe.
  - apply (quiet_ok others s w), cancelled_ok; [done..|]. intros io fd Hio.
    destruct (cancelAll_spec io fd Hio) as (? & ? & ? & ? & _). eauto.
Qed.

(** ** Many sockets *)

(** The live sockets by name, and what they share. *)
Definition net : Type := gmap nat Socket * world.

(** A thread with hooks creates a socket, uses, accepts on or destroys one. *)
Inductive nstep : net → net → Prop :=
| n_create socks w i family type protocol :
    socks !! i = None → nstep (socks, w) (<[i := Socket_new family type protocol]> socks, w)
| n_op socks w i s o s' w' :
    socks !! i = Some s → op_ready s w o → run_op s w o = Ok (s', w') →
    nstep (socks, w) (<[i := s']> socks, w')
| n_accept socks w i s j s' w' :
    socks !! i = Some s → socks !! j = None → Socket_accept order true s w = Ok (Some s', w') →
    nstep (socks, w) (<[j := s']> socks, w')
| n_accept_fails socks w i s w' :
    socks !! i = Some s → Socket_accept order true s w = Ok (None, w') → nstep (socks, w) (socks, w')
| n_destroy socks w i s w' :
    socks !! i = Some s → Socket_destroy true s w = Ok w' → nstep (socks, w) (delete i socks, w').

(** [base] are the descriptors that were open before. *)
Record net_inv (base : gset Z) (n : net) : Prop := {
  n_world : world_ok opened n.2;
  n_sane i s : n.1 !! i = Some s → sane s;
  n_own i s : n.1 !! i = Some s → own s ⊆ open n.2 ∖ base;
  n_distinct i j s t : n.1 !! i = Some s → n.1 !! j = Some t → i ≠ j → own s ## own t;
  n_base : base ⊆ open n.2;
  n_cover fd : fd ∈ open n.2 → fd ∈ base ∨ ∃ i s, n.1 !! i = Some s ∧ fd ∈ own s
}.

(** The view of one socket, and back. *)
Lemma net_holds base socks (w : world) i s :
  net_inv base (socks, w) → socks !! i = Some s → holds opened (open w ∖ own s) s w.
Proof.
  intros Hn Hi. pose proof (n_own _ _ Hn i s Hi) as Ho. simpl in Ho. split; [apply Hn|by eapply Hn| |set_solver].
  apply set_eq. intros x. destruct (decide (x ∈ own s)); set_solver.
Qed.

Lemma net_update base socks (w w' : world) i s s' :
  net_inv base (socks, w) → socks !! i = Some s → holds opened (open w ∖ own s) s' w' →
  net_inv base (<[i := s']> socks, w').
Proof.
  intros Hn Hi [Hw' Hs' Ho' Hd']. pose proof (n_own _ _ Hn) as Hown. pose proof (n_base _ _ Hn) as Hb.
  pose proof (n_distinct _ _ Hn) as Hdist. simpl in *.
  assert (∀ j t, j ≠ i → socks !! j = Some t → own t ⊆ open w ∖ own s) as Hother.
  { intros j t Hne Hj. pose proof (Hown j t Hj). pose proof (Hdist i j s t Hi Hj). set_solver. }
  pose proof (Hown i s Hi) as Hsi. split; simpl.
  - done.
  - intros j t [[<- <-]|[? Hj]]%lookup_insert_Some; [done|by eapply (n_sane _ _ Hn)].
  - intros j t [[<- <-]|[? Hj]]%lookup_insert_Some; [set_solver|].
    pose proof (Hown j t Hj). pose proof (Hother j t). set_solver.
  - intros j l t u Hj Hl Hne. apply lookup_insert_Some in Hj as [[<- <-]|[? Hj]];
      apply lookup_insert_Some in Hl as [[<- <-]|[? Hl]]; [done|..|by eapply Hdist].
    + pose proof (Hother l u). set_solver.
    + pose proof (Hother j t). set_solver.
  - set_solver.
  - intros fd. rewrite Ho'. intros [Hfd|Hfd]%elem_of_union.
    + right. exists i, s'. by rewrite lookup_insert_eq.
    + destruct (n_cover _ _ Hn fd) as [?|(j & t & Hj & Ht)]; [set_solver|by left|].
      right. exists j, t. simpl in Hj. rewrite lookup_insert_ne; [done|]. intros ->. simplify_eq. set_solver.
Qed.

Lemma net_add base socks (w w' : world) i s' :
  net_inv base (socks, w) → socks !! i = None → holds opened (open w) s' w' →
  net_inv base (<[i := s']> socks, w').
Proof.
  intros Hn Hi [Hw' Hs' Ho' Hd']. pose proof (n_own _ _ Hn) as Hown. pose proof (n_base _ _ Hn) as Hb.
  pose proof (n_distinct _ _ Hn) as Hdist. simpl in *. split; simpl.
  - done.
  - intros j t [[<- <-]|[? Hj]]%lookup_insert_Some; [done|by eapply (n_sane _ _ Hn)].
  - intros j t [[<- <-]|[? Hj]]%lookup_insert_Some; [set_solver|]. pose proof (Hown j t Hj). set_solver.
  - intros j l t u Hj Hl Hne. apply lookup_insert_Some in Hj as [[<- <-]|[? Hj]];
      apply lookup_insert_Some in Hl as [[<- <-]|[? Hl]]; [done|..|by eapply Hdist].
    + pose proof (Hown l u Hl). set_solver.
    + pose proof (Hown j t Hj). set_solver.
  - set_solver.
  - intros fd. rewrite Ho'. intros [Hfd|Hfd]%elem_of_union.
    + right. exists i, s'. by rewrite lookup_insert_eq.
    + destruct (n_cover _ _ Hn fd Hfd) as [?|(j & t & Hj & Ht)]; [by left|].
      right. exists j, t. simpl in Hj. rewrite lookup_insert_ne; [done|]. intros ->. simplify_eq.
Qed.

Lemma net_remove base socks (w w' : world) i s :
  net_inv base (socks, w) → socks !! i = Some s → world_ok opened w' → open w' = open w ∖ own s →
  net_inv base (delete i socks, w').
Proof.
  intros Hn Hi Hw' Ho'. pose proof (n_own _ _ Hn) as Hown. pose proof (n_base _ _ Hn) as Hb.
  pose proof (n_distinct _ _ Hn) as Hdist. simpl in *. pose proof (Hown i s Hi) as Hsi. split; simpl.
  - done.
  - intros j t [? Hj]%lookup_delete_Some. by eapply (n_sane _ _ Hn).
  - intros j t [? Hj]%lookup_delete_Some. pose proof (Hown j t Hj). pose proof (Hdist i j s t Hi Hj). set_solver.
  - intros j l t u [? Hj]%lookup_delete_Some [? Hl]%lookup_delete_Some. by apply Hdist.
  - set_solver.
  - intros fd. rewrite Ho'. intros [Hfd Hno]%elem_of_difference.
    destruct (n_cover _ _ Hn fd Hfd) as [?|(j & t & Hj & Ht)]; [by left|]. right. exists j, t.
    simpl in Hj. rewrite lookup_delete_ne; [done|]. intros ->. by simplify_eq.
Qed.

Lemma net_world base socks (w w' : world) :
  net_inv base (socks, w) → world_ok opened w' → open w' = open w → net_inv base (socks, w').
Proof. intros [Hw Hs Ho Hd Hb Hc] Hw' E. simpl in *. split; simpl; rewrite ?E; done. Qed.

Lemma nstep_inv base n n' : net_inv base n → nstep n n' → net_inv base n'.
Proof.
  intros Hn Hstep. inversion Hstep; subst.
  - apply (net_add base socks w w); [done|done|]. apply (holds_new opened); [apply (n_world _ _ Hn)|done].
  - pose proof (net_holds _ _ _ _ _ Hn H2) as Hh.
    destruct (run_op_ok _ _ _ o Hh) as (s1 & w1 & E & Hh' & _); [done|].
    rewrite H4 in E. simplify_eq. by eapply net_update.
  - destruct (accept_ok opened order s w (n_world _ _ Hn) (n_sane _ _ Hn _ _ H2)) as (r & w1 & E & _ & Hr).
    rewrite H4 in E. simplify_eq. destruct Hr as [Hh _]. by eapply net_add.
  - destruct (accept_ok opened order s w (n_world _ _ Hn) (n_sane _ _ Hn _ _ H2)) as (r & w1 & E & Hw & Hr).
    rewrite H3 in E. simplify_eq. by eapply net_world.
  - destruct (destroy_ok opened _ s w (net_holds _ _ _ _ _ Hn H2)) as (w1 & E & Hw & Ho).
    rewrite H3 in E. simplify_eq. by eapply net_remove.
Qed.

Lemma net_reachable (w0 : world) n :
  world_ok opened w0 → rtc nstep (∅, w0) n → net_inv (open w0) n.
Proof.
  intros Hw Hr. assert (net_inv (open w0) (∅, w0)) as Hn.
  { split; simpl; [done|by intros ? ?; rewrite lookup_empty..|done|by left]. }
  revert Hn. induction Hr as [|n1 n2 n3 Hstep _ IH]; [done|]. intros Hn. apply IH. by eapply nstep_inv.
Qed.

(** C14. Descriptors have exactly one owner. However any number of sockets is
    created, bound, connected, accepted, used, closed and destroyed by threads
    with hooks: a connected socket has a descriptor, a socket's descriptor is
    open and no other socket's, descriptors of others are never closed, and every
    descriptor that was opened and is still open belongs to a live socket. Every
    operation whose caller passes usable arguments returns. *)
Theorem sockets_own_descriptors (w0 : world) socks w :
  world_ok opened w0 → rtc nstep (∅, w0) (socks, w) →
  (∀ i s, socks !! i = Some s →
     (m_connected s = true → m_sock s ≠ -1) ∧
     (m_sock s ≠ -1 → m_sock s ∈ open w ∧ (m_sock s ∉ open w0)) ∧
     (∀ j t, socks !! j = Some t → j ≠ i → m_sock s ≠ -1 → m_sock t ≠ m_sock s) ∧
     (∀ o, op_ready s w o → is_ok (run_op s w o) = true) ∧
     is_ok (Socket_accept order true s w) = true ∧ is_ok (Socket_destroy true s w) = true) ∧
  open w0 ⊆ open w ∧
  (∀ fd, fd ∈ open w → fd ∈ open w0 ∨ ∃ i s, socks !! i = Some s ∧ m_sock s = fd).
Proof.
  intros Hw0 Hr. pose proof (net_reachable w0 _ Hw0 Hr) as Hn. split_and!.
  - intros i s Hi. pose proof (n_sane _ _ Hn i s Hi) as Hs. pose proof (n_own _ _ Hn i s Hi) as Ho.
    pose proof (net_holds _ _ _ _ _ Hn Hi) as Hh. simpl in *. split_and!.
    + apply Hs.
    + intros Hv. rewrite own_valid in Ho by done. set_solver.
    + intros j t Hj Hne Hv Heq. pose proof (n_distinct _ _ Hn j i t s Hj Hi Hne) as Hd.
      rewrite !own_valid in Hd by congruence. set_solver.
    + intros o Hready. destruct (run_op_ok _ s w o Hh Hready) as (? & ? & -> & _). done.
    + destruct (accept_ok opened order s w (n_world _ _ Hn) Hs) as (? & ? & -> & _). done.
    + destruct (destroy_ok opened _ s w Hh) as (? & -> & _). done.
  - apply Hn.
  - intros fd Hfd. destruct (n_cover _ _ Hn fd Hfd) as [?|(i & s & Hi & Hin)]; [by left|].
    right. exists i, s. split; [done|]. unfold own in Hin. destruct (isValid s); set_solver.
Qed.

(** ** Addresses of the ends *)

(** A socket on its own goes through any operations. *)
Definition uses : relation (Socket * world) := λ '(s, w) '(s', w'),
  ∃ o, op_ready s w o ∧ run_op s w o = Ok (s', w').

Lemma uses_kept others s w s' w' :
  holds opened others s w → rtc uses (s, w) (s', w') → holds opened others s' w' ∧ kept s s'.
Proof.
  intros Hh Hr. remember (s, w) as x eqn:Ex. remember (s', w') as y eqn:Ey. revert s w Hh Ex.
  induction Hr as [x|x [s1 w1] z Huse _ IH]; intros s w Hh ->; [by simplify_eq|].
  destruct Huse as (o & Hready & E).
  destruct (run_op_ok others s w o Hh Hready) as (s2 & w2 & E' & Hh' & Hk). rewrite E in E'. simplify_eq.
  destruct (IH eq_refl s2 w2 Hh' eq_refl) as [? ?]. split; [done|]. by eapply kept_trans.
Qed.

(** The addresses of a socket are looked up once and never again: whatever
    operations follow, closing and connecting to somebody else included,
    [getRemoteAddress] and [getLocalAddress] return the first answer. *)
Theorem addresses_never_refreshed others s w s' w' a :
  holds opened others s w → rtc uses (s, w) (s', w') →
  (m_remoteAddress s = Some a → getRemoteAddress order s' w' = Ok (a, s')) ∧
  (m_localAddress s = Some a → getLocalAddress order s' w' = Ok (a, s')).
Proof.
  intros Hh Hr. destruct (uses_kept others s w s' w' Hh Hr) as [_ [Hl Hrem]].
  unfold getRemoteAddress, getLocalAddress. split; intros Ha; [by rewrite (Hrem a Ha)|by rewrite (Hl a Ha)].
Qed.

(** ** IPv6 *)

Lemma ipv6_family m :
  length (s6_addr m) = 16%nat → getFamily order (IPv6Address m) = u16_at order (s6_addr m) 0.
Proof.
  intros Hl. unfold getFamily, u16_at, getAddr_const, in6_bytes. f_equal.
  rewrite !drop_app_ge, !length_to_memory by (rewrite !length_to_memory; simpl; lia). simpl.
  rewrite drop_0. apply slice_app_l. lia.
Qed.

(** IPv6 sockets do not work: [getFamily] of an IPv6 address is made of the
    address's first two bytes, so that a socket of [AF_INET6] refuses to bind or
    connect to every address that does not happen to start with the bytes of
    [AF_INET6], and [CreateTCP] makes a socket of that made-up family. *)
Theorem ipv6_sockets_refuse others s w m to ct :
  holds opened others s w → m_family s = AF_INET6 → length (s6_addr m) = 16%nat →
  u16_at order (s6_addr m) 0 ≠ AF_INET6 →
  (∃ s' w', Socket_connect order true s w (IPv6Address m) to ct = Ok (false, s', w')) ∧
  (∃ s' w', Socket_bind order true s w (IPv6Address m) ct = Ok (false, s', w')) ∧
  m_family (CreateTCP order (IPv6Address m)) = u16_at order (s6_addr m) 0 ∧
  m_family (CreateUDP order (IPv6Address m)) = u16_at order (s6_addr m) 0.
Proof.
  intros Hh Hf Hl Hne. pose proof (ipv6_family m Hl) as Hfam. split_and!.
  - destruct (connect_holds opened order others s w (IPv6Address m) to ct Hh) as ([] & s' & w' & E & _ & _ & Hb).
    + destruct (Hb eq_refl). congruence.
    + by exists s', w'.
  - destruct (bind_holds opened order others s w (IPv6Address m) ct Hh) as ([] & s' & w' & E & _ & _ & Hb); [done|..].
    + destruct (Hb eq_refl). congruence.
    + by exists s', w'.
  - done.
  - done.
Qed.

(** ** Timeouts *)

Lemma timeval_ms v :
  - 2 ^ 31 * 1000 <= v < 2 ^ 31 * 1000 →
  s32 (Z.quot v 1000) * 1000 + Z.quot (s32 (Z.rem v 1000 * 1000)) 1000 = v.
Proof.
  intros Hv. assert (v = 1000 * Z.quot v 1000 + Z.rem v 1000 ∧ -1000 < Z.rem v 1000 < 1000 ∧
    - 2 ^ 31 <= Z.quot v 1000 < 2 ^ 31) as (E & Hr & Hq) by (Z.to_euclidean_division_equations; lia).
  rewrite !swrap_small by (done || (unfold in_signed; lia)). rewrite Z.quot_mul by lia. lia.
Qed.

(** Setting the timeout [so] of a socket that has a context. *)
Lemma timeout_set s (w : world) c so v :
  world_ok opened w → sane s → m_sock s ≠ -1 → w_fds w !! Z.to_nat (m_sock s) = Some (Some c) →
  - 2 ^ 31 * 1000 <= v < 2 ^ 31 * 1000 → so = SO_RCVTIMEO ∨ so = SO_SNDTIMEO →
  ∃ b w', setOption true s w SOL_SOCKET so (timeval_of v) = Ok (b, w') ∧
    FdMgr_get w (m_sock s) = Ok (Some c) ∧
    FdMgr_get w' (m_sock s) = Ok (Some (setTimeout c so (u64 v))) ∧
    do_io_enter true (w_fds w') (w_kernel w') (m_sock s) so =
      Ok (if m_userNonblock c then Direct else MayWait (u64 v)) ∧
    (∀ i, i ≠ Z.to_nat (m_sock s) → w_fds w' !! i = w_fds w !! i).
Proof.
  intros Hw Hs Hv Hc Hrange Hso. destruct (sane_range s Hs) as [|Hfd]; [done|].
  destruct (ok_ctx _ w Hw _ _ Hc) as (_ & Hsk & Hcl). pose proof (lookup_lt_Some _ _ _ Hc) as Hlt.
  assert (<[Z.to_nat (m_sock s) := Some (setTimeout c so (u64 v))]> (w_fds w) !! Z.to_nat (m_sock s) =
    Some (Some (setTimeout c so (u64 v)))) as Hnew by by apply list_lookup_insert_eq.
  unfold setOption, setsockopt. rewrite bool_decide_eq_true_2 by done.
  rewrite (bool_decide_eq_true_2 (so = _ ∨ _)) by done. simpl andb. cbv iota.
  rewrite (fd_get_present _ _ c) by done. unfold timeval_of. osimpl. rewrite timeval_ms by done.
  destruct (setsockopt_f _ _ _ _ _) as [r k]. osimpl. do 2 eexists. split; [done|]. unfold FdMgr_get.
  rewrite (fd_get_present _ _ c) by done. cbn [w_fds w_kernel].
  rewrite (fd_get_present _ _ (setTimeout c so (u64 v))) by done. split_and!; [done..| |].
  - unfold do_io_enter. rewrite (fd_get_present _ _ (setTimeout c so (u64 v))) by done. cbn [negb]. osimpl.
    destruct Hso as [-> | ->]; unfold setTimeout, getTimeout; cbn; rewrite Hcl, Hsk;
      by destruct (m_userNonblock c).
  - intros i Hne. by apply list_lookup_insert_ne.
Qed.

(** A receive timeout of [v] milliseconds, set on a socket that has a
    context, is what [getRecvTimeout] returns and what a receiving call that has
    to wait waits for; the send timeout and the other descriptors' are left
    alone. A timeout of -1 means none. The same holds the other way round for
    the send timeout. Seconds beyond the range of [int] are excluded. *)
Theorem timeouts_kept s (w : world) c v :
  world_ok opened w → sane s → m_sock s ≠ -1 → w_fds w !! Z.to_nat (m_sock s) = Some (Some c) →
  - 2 ^ 31 * 1000 <= v < 2 ^ 31 * 1000 →
  (∃ w', setRecvTimeout true s w v = Ok w' ∧ getRecvTimeout s w' = Ok v ∧
     getSendTimeout s w' = getSendTimeout s w ∧
     do_io_enter true (w_fds w') (w_kernel w') (m_sock s) SO_RCVTIMEO =
       Ok (if m_userNonblock c then Direct else MayWait (u64 v)) ∧
     (∀ i, i ≠ Z.to_nat (m_sock s) → w_fds w' !! i = w_fds w !! i)) ∧
  (∃ w', setSendTimeout true s w v = Ok w' ∧ getSendTimeout s w' = Ok v ∧
     getRecvTimeout s w' = getRecvTimeout s w ∧
     do_io_enter true (w_fds w') (w_kernel w') (m_sock s) SO_SNDTIMEO =
       Ok (if m_userNonblock c then Direct else MayWait (u64 v)) ∧
     (∀ i, i ≠ Z.to_nat (m_sock s) → w_fds w' !! i = w_fds w !! i)) ∧
  (v = -1 → u64 v = NO_TIMEOUT).
Proof.
  intros Hw Hs Hv Hc Hrange.
  assert (s64 (u64 v) = v) as Hback by (rewrite swrap_uwrap; apply swrap_small; [done|unfold in_signed; lia]).
  unfold setRecvTimeout, setSendTimeout, getRecvTimeout, getSendTimeout. split_and!; [| |by intros ->].
  - destruct (timeout_set s w c SO_RCVTIMEO v Hw Hs Hv Hc Hrange) as (b & w' & E & Eo & En & Hio & Hoth);
      [by left|]. rewrite E. osimpl. exists w'. rewrite En, Eo. osimpl.
    split_and!; [done|by rewrite <-Hback at 2|done..].
  - destruct (timeout_set s w c SO_SNDTIMEO v Hw Hs Hv Hc Hrange) as (b & w' & E & Eo & En & Hio & Hoth);
      [by right|]. rewrite E. osimpl. exists w'. rewrite En, Eo. osimpl.
    split_and!; [done|by rewrite <-Hback at 2|done..].
Qed.

(** ** Threads without hooks *)

Lemma unhooked_option s (w : world) level optname v :
  ∃ b k, setOption false s w level optname v = Ok (b, set_kernel w k).
Proof.
  unfold setOption, setsockopt. simpl. destruct (setsockopt_f _ _ _ _ _) as [r k]. osimpl. by eexists _, k.
Qed.

Lemma unhooked_initSock s (w : world) : ∃ k, initSock false s w = Ok (set_kernel w k).
Proof.
  unfold initSock. destruct (unhooked_option s w SOL_SOCKET SO_REUSEADDR (OptOther 4)) as (b & k & ->). osimpl.
  case_decide; [|by exists k].
  destruct (unhooked_option s (set_kernel w k) IPPROTO_TCP TCP_NODELAY (OptOther 4)) as (b2 & k2 & ->). osimpl.
  by exists k2.
Qed.

(** A thread without hooks that closes a socket leaves its context behind;
    when the kernel hands the number out again, the accepted socket takes over
    that context: it has the timeouts of the closed one, and the new descriptor
    is not made non-blocking, since a context that exists is not initialised. *)
Theorem stale_context s l (w : world) c msg k :
  fd_inv (w_fds w) → 0 <= m_sock s → w_fds w !! Z.to_nat (m_sock s) = Some (Some c) →
  m_isSocket c = true → m_isClosed c = false →
  let w1 := set_kernel w (close_f (w_kernel w) (m_sock s)).2 in
  io_f (w_kernel w1) accept (m_sock l) (mkMsg None []) 0 = (m_sock s, msg, k) →
  Socket_close false s w = Ok (false, set_sock s (-1) false, w1) ∧
  hook_accept false w1 (m_sock l) = Ok (m_sock s, set_kernel w1 k) ∧
  ∃ client w2, Socket_accept order false l w1 = Ok (Some client, w2) ∧ m_sock client = m_sock s ∧
    getRecvTimeout client w2 = getRecvTimeout s w ∧ getSendTimeout client w2 = getSendTimeout s w.
Proof.
  intros Hi Hfd Hc Hsk Hcl w1 E. assert (m_sock s ≠ -1) as Hne by lia. split_and!.
  - unfold Socket_close, hook_close, close, isValid. rewrite (bool_decide_eq_true_2 _ Hne). simpl.
    rewrite andb_false_r. rewrite (bool_decide_eq_true_2 _ Hne). osimpl.
    unfold w1. destruct (close_f _ _) as [r k']. osimpl. done.
  - unfold hook_accept, do_io, do_io_enter. cbn [negb]. osimpl. rewrite E. osimpl. unfold accept_result.
    rewrite decide_True by done. rewrite (fd_get_present _ _ c) by done. osimpl. done.
  - unfold Socket_accept, hook_accept, do_io, do_io_enter. cbn [negb]. osimpl. rewrite E. osimpl.
    unfold accept_result. rewrite decide_True by done. rewrite (fd_get_present _ _ c) by done. osimpl.
    rewrite decide_False by done. unfold Socket_init, FdMgr_get. rewrite (fd_get_present _ _ c) by done. osimpl.
    unfold hooked_socket. rewrite Hsk, Hcl. cbn [negb orb]. cbv zeta.
    match goal with |- context [initSock false ?s' ?w'] => destruct (unhooked_initSock s' w') as [k2 ->] end. osimpl.
    match goal with |- context [getLocalAddress order ?s' ?w'] =>
      destruct (getLocalAddress_ok order s' w') as (a & s4 & -> & Hs4) end. osimpl.
    match goal with |- context [getRemoteAddress order s4 ?w'] =>
      destruct (getRemoteAddress_ok order s4 w') as (a' & s5 & -> & Hs5) end. osimpl.
    eexists _, _. split; [done|]. destruct Hs4 as (Hm4 & _), Hs5 as (Hm5 & _).
    unfold getRecvTimeout, getSendTimeout, FdMgr_get. rewrite Hm5, Hm4. cbn [m_sock set_sock w_fds set_kernel w_kernel].
    rewrite !(fd_get_present _ _ c) by done. osimpl. done.
Qed.

End theorems.

(** ** Encrypted transfers *)

(** What SSL_write(3) says: it accepts a beginning of the buffer and returns its
    length, or accepts nothing. [written] is the plain text accepted so far. *)
Class SslLaws (C X K : Type) `{OpenSSL C X K} (written : X → list Z) : Prop := {
  ssl_write_ok (x x' : X) (k k' : K) b n : SSL_write x k b = (n, x', k') → 0 < n →
    n <= Z.of_nat (length b) ∧ written x' = written x ++ take (Z.to_nat n) b;
  ssl_write_fails (x x' : X) (k k' : K) b n : SSL_write x k b = (n, x', k') → n <= 0 → written x' = written x
}.

Section ssl.
Context {C X K : Type} `{OpenSSL C X K} (written : X → list Z) `{!SslLaws C X K written}.

Lemma ssl_send_loop_spec buffers : ∀ (ssl : X) (k : K) total r ssl' k',
  0 <= total → total + Z.of_nat (length (concat buffers)) < 2 ^ 31 →
  ssl_send_loop ssl k buffers total = (r, ssl', k') →
  ∃ m, (m <= length (concat buffers))%nat ∧ written ssl' = written ssl ++ take m (concat buffers) ∧
    (r = total + Z.of_nat m ∨
     r <= 0 ∧ ∃ sent b rest, buffers = sent ++ b :: rest ∧ m = length (concat sent)).
Proof.
  induction buffers as [|b bs IH]; intros ssl k total r ssl' k' Ht Hlen; simpl.
  { intros [= <- <- <-]. exists 0%nat. rewrite take_0, app_nil_r. split_and!; [done|done|left; lia]. }
  simpl in Hlen. rewrite length_app in Hlen.
  destruct (SSL_write ssl k b) as [[tmp ssl1] k1] eqn:Ew. case_decide as Htmp.
  { intros [= <- <- <-]. exists 0%nat. rewrite take_0, app_nil_r. split_and!; [lia|by eapply ssl_write_fails|].
    right. split; [done|]. by exists [], b, bs. }
  destruct (ssl_write_ok _ _ _ _ _ _ Ew) as [Hn Hw]; [lia|].
  rewrite (swrap_small 32 (Z.of_nat (length b))) by (done || (unfold in_signed; lia)).
  rewrite (swrap_small 32 (total + tmp)) by (done || (unfold in_signed; lia)). case_decide as Hpart.
  - intros [= <- <- <-]. exists (Z.to_nat tmp). rewrite length_app, take_app_le by lia.
    split_and!; [lia|done|left; lia].
  - assert (tmp = Z.of_nat (length b)) as -> by lia. rewrite Nat2Z.id, take_ge in Hw by lia.
    intros Hrun. apply IH in Hrun as (m & Hm & Hw' & Hr); [|lia..].
    exists (length b + m)%nat. rewrite length_app. split; [lia|]. split.
    { by rewrite Hw', Hw, <-(assoc_L (++)), take_app_add. }
    destruct Hr as [->|(Hr0 & sent & b' & rest & -> & ->)]; [left; lia|]. right. split; [done|].
    exists (b :: sent), b', rest. split; [done|]. simpl. by rewrite length_app.
Qed.

(** Sending several buffers over an encrypted socket sends a beginning of
    their concatenation, in order and without gaps. The result is its length,
    unless a buffer after the first fails: then the result is that of the failed
    call, and the buffers before it have been sent without being reported. *)
Theorem ssl_sendv_in_order (s s' : SSLSocket C X) (ssl : X) (k k' : K) buffers r :
  m_ssl s = Some ssl → Z.of_nat (length (concat buffers)) < 2 ^ 31 →
  SSLSocket_sendv s k buffers = (r, s', k') →
  ∃ ssl' m, m_ssl s' = Some ssl' ∧ ssl_socket s' = ssl_socket s ∧
    written ssl' = written ssl ++ take m (concat buffers) ∧
    (r = Z.of_nat m ∧ (m <= length (concat buffers))%nat ∨
     r <= 0 ∧ ∃ sent b rest, buffers = sent ++ b :: rest ∧ m = length (concat sent)).
Proof.
  intros Hs Hlen. unfold SSLSocket_sendv. rewrite Hs.
  destruct (ssl_send_loop ssl k buffers 0) as [[n ssl1] k1] eqn:E. intros [= <- <- <-].
  destruct (ssl_send_loop_spec _ _ _ _ _ _ _ ltac:(done) Hlen E) as (m & Hm & Hw & Hr).
  exists ssl1, m. split_and!; [done..|]. destruct Hr as [->|Hr]; [left; split; [lia|done]|by right].
Qed.

End ssl.

(** ** A small kernel *)

(** Descriptors are handed out in order; the other end of descriptor [n] is
    127.0.0.n, port 80. *)
Module TinyNet.
(** The next number, the names and the listening sockets, and what is open. *)
Definition kernel : Type := nat * gmap Z (list Z * bool) * gset Z.

Definition open_next (k : kernel) : Z * kernel :=
  if decide (Z.of_nat k.1.1 ∈ k.2) then (-1, k)
  else (Z.of_nat k.1.1, (S k.1.1, delete (Z.of_nat k.1.1) k.1.2, {[Z.of_nat k.1.1]} ∪ k.2)).

#[export] Instance tiny_kernel : Kernel kernel := {
  fstat_sock k fd := if decide (fd ∈ k.2) then Some true else None;
  fcntl_f k _ _ _ := (0, k);
  ioctl_f k _ _ _ := (0, k);
  setsockopt_f k _ _ _ _ := (0, k);
  socket_f k _ _ _ := open_next k;
  close_f k fd := (0, (k.1.1, delete fd k.1.2, k.2 ∖ {[fd]}))
}.

Definition peer (fd : Z) : list Z := [2; 0; 0; 80; 127; 0; 0; u8 fd; 0; 0; 0; 0; 0; 0; 0; 0].

Definition tiny_io (k : kernel) (f : io_fun) (fd0 : Z) (msg : msghdr) : Z * msghdr * kernel :=
  match f with
  | accept => if decide (fd0 = -1) then (-1, msg, k) else let '(fd, k) := open_next k in (fd, msg, k)
  | _ => (Z.of_nat (length (concat (msg_iov msg))), msg, k)
  end.

#[export] Instance tiny_net : Net kernel := {
  bind_f k fd a n := (0, (k.1.1, <[fd := (take (Z.to_nat n) a, default false (snd <$> k.1.2 !! fd))]> k.1.2, k.2));
  listen_f k fd _ :=
    match k.1.2 !! fd with
    | Some (a, _) => (0, (k.1.1, <[fd := (a, true)]> k.1.2, k.2))
    | None => (-1, k)
    end;
  connect_f k _ _ _ := (0, k);
  connect_wait k _ _ _ _ := (0, k);
  io_f k f fd msg _ := tiny_io k f fd msg;
  io_wait k f fd msg _ _ := tiny_io k f fd msg;
  getsockname_f _ fd := Some (peer 1);
  getpeername_f _ fd := Some (peer fd);
  getsockopt_f k _ _ _ := (Some 0, k);
  shutdown_f k _ _ := (0, k);
  unlink_f k _ := (-1, k)
}.

Lemma open_next_opens (k k' : kernel) fd :
  open_next k = (fd, k') →
  (fd = -1 ∧ k'.2 = k.2) ∨ (0 <= fd ∧ (fd ∉ k.2) ∧ k'.2 = {[fd]} ∪ k.2 ∧ fstat_sock k' fd = Some true).
Proof.
  unfold open_next. case_decide; intros [= <- <-]; [by left|]. right. split_and!; [lia|done|done|].
  simpl. rewrite decide_True; [done|set_solver].
Qed.

#[export] Instance tiny_laws : NetLaws kernel snd.
Proof.
  split; try done; try (intros k fd n; simpl; by repeat case_match).
  - intros k k' a b c fd. apply open_next_opens.
  - intros k k' fd0 msg msg' flags fd. simpl. unfold tiny_io. case_decide; [intros [= <- <- <-]; by left|].
    destruct (open_next k) as [fd' k1] eqn:E. intros [= <- <- <-]. by apply open_next_opens.
  - intros k k' fd0 msg msg' flags to fd. simpl. unfold tiny_io. case_decide; [intros [= <- <- <-]; by left|].
    destruct (open_next k) as [fd' k1] eqn:E. intros [= <- <- <-]. by apply open_next_opens.
  - intros k f fd msg flags Hf. by destruct f.
  - intros k f fd msg flags to Hf. by destruct f.
Qed.

#[local] Existing Instance table_epoll.

Abbreviation tiny := (world kernel (gmap nat Z)).

(** Three descriptors are open at the beginning. *)
Definition start : tiny := mkWorld FdManager_new None (3%nat, ∅, {[0; 1; 2]}).

Lemma start_ok : world_ok snd start.
Proof. split; [apply FdManager_new_inv|done|]. intros i c [? _]%lookup_replicate. done. Qed.

Definition le : endian := SYLAR_LITTLE_ENDIAN.
Definition server : Address := IPv4Address (IPv4Address_new le 2130706433 80).

Definition get_ok {A} (d : A) (m : outcome A) : A := match m with Ok a => a | _ => d end.

(** A socket that connects, closes and connects again. *)
Definition fresh : Socket := CreateTCPSocket.
Definition after (x : Socket * tiny) (o : op) : Socket * tiny := get_ok x (run_op le x.1 x.2 o).
Definition once : Socket * tiny := after (fresh, start) (OpConnect server NO_TIMEOUT 5000).
Definition again : Socket * tiny := after (after once OpClose) (OpConnect server NO_TIMEOUT 5000).

Lemma fresh_holds : holds snd {[0; 1; 2]} fresh start.
Proof. apply (holds_new (K := kernel) snd); [apply start_ok|done]. Qed.

Lemma once_holds : holds snd {[0; 1; 2]} once.1 once.2.
Proof.
  destruct (run_op_ok snd le {[0; 1; 2]} fresh start (OpConnect server NO_TIMEOUT 5000) fresh_holds I)
    as (s & w & E & Hh & _).
  assert (run_op le fresh start (OpConnect server NO_TIMEOUT 5000) = Ok once) as E' by (vm_compute; reflexivity).
  pose proof (eq_trans (eq_sym E') E) as Eo.
  apply (f_equal (get_ok (fresh, start))) in Eo. cbn [get_ok] in Eo. rewrite Eo. exact Hh.
Qed.

Lemma once_steps : rtc (nstep (K := kernel) (EP := gmap nat Z) le) (∅, start) ({[7%nat := once.1]}, once.2).
Proof.
  eapply rtc_l; [apply (n_create le ∅ start 7 AF_INET SOCK_STREAM 0); reflexivity|].
  eapply rtc_l; [apply (n_op le _ start 7 fresh (OpConnect server NO_TIMEOUT 5000) once.1 once.2)|].
  - reflexivity.
  - done.
  - vm_compute. reflexivity.
  - rewrite insert_insert_eq. apply rtc_refl.
Qed.

Lemma sockets_own_descriptors_witness :
  m_connected once.1 = true ∧ m_sock once.1 ∈ (w_kernel once.2).2.
Proof.
  destruct (sockets_own_descriptors snd le start {[7%nat := once.1]} once.2 start_ok once_steps) as [H _].
  destruct (H 7%nat once.1 (lookup_singleton_eq _ _)) as (_ & H2 & _).
  split; [vm_compute; reflexivity|]. apply H2. vm_compute. discriminate.
Defined.

(** The second peer is 127.0.0.4; the socket still says 127.0.0.3. *)
Lemma addresses_never_refreshed_witness :
  getpeername_f (w_kernel again.2) (m_sock again.1) = Some (peer 4) ∧
  ∃ m, getRemoteAddress le again.1 again.2 = Ok (IPv4Address m, again.1) ∧
    in_bytes le m = peer 3.
Proof.
  pose proof once_holds as Hh.
  assert (rtc (uses (K := kernel) (EP := gmap nat Z) le) once again) as Hr.
  { apply (rtc_l _ _ (after once OpClose)); [exists OpClose; split; [done|vm_compute; reflexivity]|].
    apply (rtc_l _ _ again); [|apply rtc_refl].
    exists (OpConnect server NO_TIMEOUT 5000). split; [done|vm_compute; reflexivity]. }
  split; [vm_compute; reflexivity|]. eexists. split.
  - apply (addresses_never_refreshed snd le {[0; 1; 2]} once.1 once.2 again.1 again.2); [exact Hh| |].
    + rewrite <-!surjective_pairing. exact Hr.
    + vm_compute. reflexivity.
  - vm_compute. reflexivity.
Defined.

(** ::1, which starts with zeros. *)
Definition localhost6 : sockaddr_in6 := IPv6Address_of le (replicate 15 0 ++ [1]) 80.

Lemma ipv6_sockets_refuse_witness :
  (∃ s' w', Socket_connect le true CreateTCPSocket6 start (IPv6Address localhost6) NO_TIMEOUT 5000 =
     Ok (false, s', w')) ∧ m_family (CreateTCP le (IPv6Address localhost6)) = 0.
Proof.
  destruct (ipv6_sockets_refuse snd le {[0; 1; 2]} CreateTCPSocket6 start localhost6 NO_TIMEOUT 5000)
    as (H1 & _ & H3 & _).
  - apply (holds_new (K := kernel) snd); [apply start_ok|done].
  - reflexivity.
  - reflexivity.
  - vm_compute. discriminate.
  - split; [exact H1|]. rewrite H3. vm_compute. reflexivity.
Defined.

Lemma timeouts_kept_witness :
  ∃ w', setRecvTimeout true once.1 once.2 120000 = Ok w' ∧ getRecvTimeout once.1 w' = Ok 120000.
Proof.
  destruct (timeouts_kept snd once.1 once.2
    (mkCtx true true true false false 3 (2 ^ 64 - 1) (2 ^ 64 - 1)) 120000) as ((w' & H1 & H2 & _) & _).
  - exact (holds_world _ _ _ _ once_holds).
  - exact (holds_sane _ _ _ _ once_holds).
  - vm_compute. discriminate.
  - vm_compute. reflexivity.
  - lia.
  - exists w'. split; [exact H1|exact H2].
Defined.

(** Descriptor 5 is closed with its context in place, and handed out again. *)
Definition old_five : Socket := set_sock fresh 5 true.
Definition with_five : tiny := mkWorld one_socket None (5%nat, ∅, {[0; 1; 2; 5]}).

Lemma stale_context_witness :
  ∃ client w2, Socket_accept le false (set_sock fresh 9 false)
      (set_kernel with_five (close_f (w_kernel with_five) 5).2) = Ok (Some client, w2) ∧
    m_sock client = 5 ∧ getRecvTimeout client w2 = getRecvTimeout old_five with_five.
Proof.
  destruct (stale_context le old_five (set_sock fresh 9 false) with_five
    (mkCtx true true true false false 5 (2 ^ 64 - 1) (2 ^ 64 - 1)) (mkMsg None [])
    (open_next (close_f (w_kernel with_five) 5).2).2) as (_ & _ & client & w2 & H1 & H2 & H3 & _).
  - split; [done|]. intros i c Hi. change (one_socket !! i = Some (Some c)) in Hi. unfold one_socket in Hi.
    apply list_lookup_insert_Some in Hi as [(<- & [= <-] & _)|(_ & [? _]%lookup_replicate)]; done.
  - simpl. lia.
  - reflexivity.
  - reflexivity.
  - reflexivity.
  - vm_compute. reflexivity.
  - exists client, w2. split; [exact H1|]. split; [exact H2|exact H3].
Defined.

(** A session that accepts three bytes and then fails. *)
Definition session : Type := list Z.

#[export] Instance brief_ssl : OpenSSL unit session unit := {
  SSL_CTX_new _ := tt;
  SSL_CTX_use_certificate_chain_file c _ := (1, c);
  SSL_CTX_use_PrivateKey_file c _ := (1, c);
  SSL_CTX_check_private_key _ := 1;
  SSL_new c := (λ _, []) <$> c;
  SSL_set_fd x _ := x;
  SSL_connect x k := (1, x, k);
  SSL_accept x k := (1, x, k);
  SSL_write x k b :=
    if decide (3 <= length x)%nat then (-1, x, k)
    else let n := Nat.min (3 - length x) (length b) in (Z.of_nat n, x ++ take n b, k);
  SSL_read x k b := (-1, b, x, k)
}.

#[export] Instance brief_laws : SslLaws unit session unit id.
Proof.
  split; intros x x' k k' b n E Hn; simpl in E; case_decide; simplify_eq; [lia| |done|].
  - rewrite Nat2Z.id. split; [lia|done].
  - assert (Nat.min (3 - length x) (length b) = 0)%nat as -> by lia. unfold id. by rewrite take_0, app_nil_r.
Qed.

Definition encrypted (x : session) : SSLSocket unit session := mkSSLSocket fresh (Some tt) (Some x).

Lemma ssl_sendv_in_order_witness :
  SSLSocket_sendv (encrypted []) tt [[1; 2; 3]; [4; 5]] = (-1, encrypted [1; 2; 3], tt) ∧
  ∃ m, [1; 2; 3] = take m [1; 2; 3; 4; 5].
Proof.
  assert (SSLSocket_sendv (encrypted []) tt [[1; 2; 3]; [4; 5]] = (-1, encrypted [1; 2; 3], tt)) as E
    by (vm_compute; reflexivity).
  split; [exact E|].
  destruct (ssl_sendv_in_order (C := unit) (X := session) (K := unit) id (encrypted []) (encrypted [1; 2; 3])
    [] tt tt [[1; 2; 3]; [4; 5]] (-1)) as (ssl' & m & Hs & _ & Hw & _).
  - reflexivity.
  - simpl. lia.
  - exact E.
  - injection Hs as <-. exists m. exact Hw.
Defined.

End TinyNet.
