(* ===== verification/TcpServer.v ===== *)
(** The TCP server (sylar/tcp_server.h, sylar/tcp_server.cc): binding its
    listening sockets, the accepting fibers, starting and stopping, over the
    sockets of [Socket]. Its configuration is in [ServerConf]. *)

From Stdlib Require Import ZArith Lia.
From stdpp Require Import base numbers gmap option strings tactics sets relations list_numbers list.
From S2P Require Import Prelude Text Endian Address AddressSpec IOManager FdManager Hook HookTheorems Socket.
From S2P Require Import SocketSpec SocketTheorems.

Local Open Scope Z_scope.

(** The default backlog of [listen], of the system's headers. *)
Definition SOMAXCONN : Z := 4096.

Section server.
Context {K EP : Type} `{Kernel K} `{Net K} `{Epoll EP}.
Context (order : endian).

Abbreviation world := (world K EP).

(** ** Binding *)

(** One turn of the loop of [bind]: a listening socket, or none; a socket that is
    not kept is destroyed. [ct] is [s_connect_timeout]. The socket of an encrypted
    server is the [Socket] inside its [SSLSocket]. *)
Definition make_listener (w : world) (addr : Address) (ct : Z) : outcome (option Socket * world) :=
  let sock := CreateTCP order addr in
  '(bound, sock, w) ← Socket_bind order true sock w addr ct;
  if negb bound then w ← Socket_destroy true sock w; mret (None, w) else
  let '(listening, w) := Socket_listen sock w SOMAXCONN in
  if negb listening then w ← Socket_destroy true sock w; mret (None, w) else
  mret (Some sock, w).

Fixpoint bind_loop (addrs : list Address) (socks : list Socket) (failed : list Address) (w : world) (ct : Z) :
    outcome (list Socket * list Address * world) :=
  match addrs with
  | [] => mret (socks, failed, w)
  | addr :: addrs =>
    '(r, w) ← make_listener w addr ct;
    match r with
    | None => bind_loop addrs socks (failed ++ [addr]) w ct
    | Some sock => bind_loop addrs (socks ++ [sock]) failed w ct
    end
  end.

(** [m_socks.clear()]: nobody else holds the sockets before [start]. *)
Fixpoint clear_socks (socks : list Socket) (w : world) : outcome world :=
  match socks with
  | [] => mret w
  | s :: socks => w ← Socket_destroy true s w; clear_socks socks w
  end.

(** [bind(addrs, failed_addrs, ssl)]: the result, [m_socks] and [failed_addrs]. *)
Definition TcpServer_bind (socks : list Socket) (failed : list Address) (addrs : list Address) (w : world) (ct : Z) :
    outcome (bool * list Socket * list Address * world) :=
  '(socks, failed, w) ← bind_loop addrs socks failed w ct;
  if decide (failed ≠ []) then w ← clear_socks socks w; mret (false, [], failed, w)
  else mret (true, socks, failed, w).

(** [bind(addr, ssl)]. *)
Definition TcpServer_bind1 (socks : list Socket) (addr : Address) (w : world) (ct : Z) :
    outcome (bool * list Socket * world) :=
  '(b, socks, _, w) ← TcpServer_bind socks [] [addr] w ct;
  mret (b, socks, w).

(** ** Accepting, starting and stopping *)

(** The sockets by address, [m_socks], [m_recvTimeout], [m_isStop], the fibers in
    [startAccept] with their socket, the callbacks of [stop] that are queued, the
    clients handed to [handleClient], and the world. *)
Record TcpServer : Type := mkServer {
  t_heap : gmap nat Socket;
  t_socks : list nat;
  t_recvTimeout : Z;
  t_isStop : bool;
  t_accepting : list nat;
  t_stops : nat;
  t_clients : list Socket;
  t_world : world
}.

(** The constructor; [timeout] is [tcp_server.read_timeout]. *)
Definition TcpServer_new (timeout : Z) (w : world) : TcpServer :=
  mkServer ∅ [] timeout true [] 0 [] w.

(** [start]. *)
Definition TcpServer_start (t : TcpServer) : TcpServer :=
  if negb (t_isStop t) then t else
  mkServer (t_heap t) (t_socks t) (t_recvTimeout t) false (t_accepting t ++ t_socks t) (t_stops t)
    (t_clients t) (t_world t).

(** [stop], and the callback it schedules. *)
Definition TcpServer_stop (t : TcpServer) : TcpServer :=
  mkServer (t_heap t) (t_socks t) (t_recvTimeout t) true (t_accepting t) (S (t_stops t)) (t_clients t) (t_world t).

Fixpoint close_all (ids : list nat) (heap : gmap nat Socket) (w : world) : outcome (gmap nat Socket * world) :=
  match ids with
  | [] => mret (heap, w)
  | i :: ids =>
    s ← deref (heap !! i);
    '(_, w) ← Socket_cancelAll s w;
    '(_, s, w) ← Socket_close true s w;
    close_all ids (<[i := s]> heap) w
  end.

Definition stop_callback (t : TcpServer) : outcome TcpServer :=
  '(heap, w) ← close_all (t_socks t) (t_heap t) (t_world t);
  mret (mkServer heap [] (t_recvTimeout t) (t_isStop t) (t_accepting t) (pred (t_stops t)) (t_clients t) w).

(** The destructor closes the sockets. *)
Fixpoint TcpServer_destroy (socks : list Socket) (w : world) : outcome world :=
  match socks with
  | [] => mret w
  | s :: socks => '(_, _, w) ← Socket_close true s w; TcpServer_destroy socks w
  end.

(** One turn of [startAccept] on the socket [i]; [l] are the other accepting
    fibers. *)
Definition accept_turn (t : TcpServer) (i : nat) (l1 l2 : list nat) : outcome TcpServer :=
  if t_isStop t then
    mret (mkServer (t_heap t) (t_socks t) (t_recvTimeout t) (t_isStop t) (l1 ++ l2) (t_stops t)
            (t_clients t) (t_world t))
  else
    s ← deref (t_heap t !! i);
    '(client, w) ← Socket_accept order true s (t_world t);
    match client with
    | None => mret (mkServer (t_heap t) (t_socks t) (t_recvTimeout t) (t_isStop t) (t_accepting t)
                      (t_stops t) (t_clients t) w)
    | Some client =>
      w ← setRecvTimeout true client w (s64 (t_recvTimeout t));
      mret (mkServer (t_heap t) (t_socks t) (t_recvTimeout t) (t_isStop t) (t_accepting t)
              (t_stops t) (t_clients t ++ [client]) w)
    end.

End server.

(** [loadCertificates] of the server: it stops at the first socket that fails;
    sockets that are not encrypted are passed over. *)
Section certificates.
Context {C X K : Type} `{OpenSSL C X K}.

Fixpoint TcpServer_loadCertificates (socks : list (Socket + SSLSocket C X)) (cert_file key_file : list Z) :
    bool * list (Socket + SSLSocket C X) :=
  match socks with
  | [] => (true, [])
  | inl s :: socks =>
    let '(ok, socks) := TcpServer_loadCertificates socks cert_file key_file in (ok, inl s :: socks)
  | inr s :: socks =>
    let '(ok, s) := SSLSocket_loadCertificates s cert_file key_file in
    if negb ok then (false, inr s :: socks) else
    let '(ok, socks) := TcpServer_loadCertificates socks cert_file key_file in (ok, inr s :: socks)
  end.

End certificates.

(** ** Correctness of [bind] *)

(** What bind(2), listen(2) and the others say of the name of a socket and of its
    being a listening one: [bind] gives a name, [listen] makes it listen, and no call
    changes that of another descriptor. *)
Class BindLaws (K : Type) `{Kernel K} `{Net K} (name : K → Z → option (list Z) * bool) : Prop := {
  bind_names (k k' : K) fd a n : bind_f k fd a n = (0, k') →
    name k' fd = (Some (take (Z.to_nat n) a), (name k fd).2);
  listen_listens (k k' : K) fd n : listen_f k fd n = (0, k') → name k' fd = ((name k fd).1, true);
  bind_other (k : K) fd a n fd' : fd' ≠ fd → name (bind_f k fd a n).2 fd' = name k fd';
  listen_other (k : K) fd n fd' : fd' ≠ fd → name (listen_f k fd n).2 fd' = name k fd';
  socket_other (k : K) a b c fd' : fd' ≠ (socket_f k a b c).1 → name (socket_f k a b c).2 fd' = name k fd';
  close_other (k : K) fd fd' : fd' ≠ fd → name (close_f k fd).2 fd' = name k fd';
  connect_other (k : K) fd a n fd' : fd' ≠ fd → name (connect_f k fd a n).2 fd' = name k fd';
  connect_wait_other (k : K) fd a n to fd' : fd' ≠ fd → name (connect_wait k fd a n to).2 fd' = name k fd';
  fcntl_names (k : K) fd cmd arg fd' : name (fcntl_f k fd cmd arg).2 fd' = name k fd';
  setsockopt_names (k : K) fd l o v fd' : name (setsockopt_f k fd l o v).2 fd' = name k fd';
  unlink_names (k : K) p fd' : name (unlink_f k p).2 fd' = name k fd'
}.

Section bind.
Context {K EP : Type} `{Kernel K} `{Net K} `{Epoll EP} (opened : K → gset Z) `{!NetLaws K opened}.
Context (name : K → Z → option (list Z) * bool) `{!BindLaws K name}.
Context (order : endian).

Abbreviation open w := (opened (w_kernel w)).
Abbreviation world := (world K EP).

Implicit Types w : world.

(** The socket's descriptor is bound to the address and listening. *)
Definition listens_on (w : world) (s : Socket) (addr : Address) : Prop :=
  name (w_kernel w) (m_sock s) = (Some (take (Z.to_nat (getAddrLen addr)) (getAddr order addr)), true).

(** The names of the descriptors in [fds] are the same. *)
Definition same_names (fds : gset Z) (w w' : world) : Prop :=
  ∀ fd, fd ∈ fds → 0 <= fd → name (w_kernel w') fd = name (w_kernel w) fd.

Lemma same_names_trans fds w1 w2 w3 : same_names fds w1 w2 → same_names fds w2 w3 → same_names fds w1 w3.
Proof. intros H12 H23 fd Hfd Hp. rewrite (H23 fd Hfd Hp). by apply H12. Qed.

Lemma setOption_names s w level optname v b w' fd :
  setOption true s w level optname v = Ok (b, w') → name (w_kernel w') fd = name (w_kernel w) fd.
Proof.
  unfold setOption, setsockopt. intros ([[rt fds] k] & E & [= _ <-])%outcome_bind_ok.
  apply outcome_bind_ok in E as ([m k1] & E1 & E). assert (k1 = w_kernel w) as ->.
  { destruct (_ && _); [|by injection E1]. apply outcome_bind_ok in E1 as ([[c m1] k2] & E1 & E2).
    assert (k2 = w_kernel w) as ->.
    { unfold fd_get in E1. apply outcome_bind_ok in E1 as (r & Hr & E1). destruct r as [c'|]; [by injection E1|].
      exfalso. unfold get_check in Hr. repeat case_decide; try done. apply outcome_bind_ok in Hr as (x & _ & Hr).
      by rewrite orb_true_r in Hr. }
    destruct c as [ctx|]; [|by injection E2]. destruct v; [by injection E2|done]. }
  pose proof (setsockopt_names (w_kernel w) (m_sock s) level optname v fd) as Hn.
  destruct (setsockopt_f _ _ _ _ _) as [r k2]. by injection E as <- <- <-.
Qed.

Lemma initSock_names s w w' fd : initSock true s w = Ok w' → name (w_kernel w') fd = name (w_kernel w) fd.
Proof.
  unfold initSock. intros ([b w1] & E1%(setOption_names _ _ _ _ _ _ _ fd) & E)%outcome_bind_ok.
  case_decide; [|by injection E as <-]. apply outcome_bind_ok in E as ([b2 w2] & E2 & [= <-]).
  rewrite <-E1. by eapply setOption_names.
Qed.

Lemma FdCtx_new_names fd k c k' fd' : FdCtx_new fd k = (c, k') → name k' fd' = name k fd'.
Proof.
  unfold FdCtx_new, FdCtx_init. simpl. destruct (fstat_sock k fd) as [[]|]; simpl; try (by intros [= _ <-]).
  pose proof (fcntl_names k fd F_GETFL 0 fd') as Hg. destruct (fcntl_f k fd F_GETFL 0) as [flags k1]. simpl in Hg.
  intros [= _ <-]. destruct (nonblocking flags); [done|]. by rewrite fcntl_names.
Qed.

Lemma fd_get_names m fd b k c m' k' fd' : fd_get m fd b k = Ok (c, m', k') → name k' fd' = name k fd'.
Proof.
  unfold fd_get. intros (r & _ & E)%outcome_bind_ok. destruct r as [c'|]; [by injection E as _ _ <-|].
  apply outcome_bind_ok in E as ([[c1 m1] k1] & E & [= _ _ <-]). unfold get_create in E.
  destruct (FdCtx_new fd k) as [c2 k2] eqn:Ec. apply outcome_bind_ok in E as (x & _ & [= _ _ <-]).
  by eapply FdCtx_new_names.
Qed.

Lemma newSock_names s w s' w' fd :
  newSock true s w = Ok (s', w') → fd ≠ m_sock s' → name (w_kernel w') fd = name (w_kernel w) fd.
Proof.
  unfold newSock, socket. intros ([[fd0 fds] k] & E & E2)%outcome_bind_ok Hne.
  pose proof (socket_other (w_kernel w) (m_family s) (m_type s) (m_protocol s) fd) as Hs.
  destruct (socket_f _ _ _ _) as [fd1 k1]. simpl in *.
  assert (fd0 = fd1 ∧ name k fd = name k1 fd) as [-> Hk].
  { destruct (decide (fd1 = -1)); [by injection E as <- _ <-|].
    apply outcome_bind_ok in E as ([[c m] k2] & E & [= <- _ <-]). split; [done|]. by eapply fd_get_names. }
  assert (m_sock s' = fd1 ∧ name (w_kernel w') fd = name k fd) as [Hm Hw].
  { destruct (decide (fd1 ≠ -1)); [|by injection E2 as <- <-]. apply outcome_bind_ok in E2 as (w1 & E2 & [= <- <-]). split; [done|].
    by apply (initSock_names _ _ _ fd) in E2. }
  rewrite Hw, Hk. apply Hs. congruence.
Qed.

Lemma ensure_names s w s' w' fd :
  ensure_sock true s w = Ok (s', w') → fd ≠ m_sock s' → name (w_kernel w') fd = name (w_kernel w) fd.
Proof. unfold ensure_sock. destruct (isValid s); [by intros [= <- <-]|apply newSock_names]. Qed.

Lemma close_names s w b s' w' fd :
  Socket_close true s w = Ok (b, s', w') → fd ≠ m_sock s → name (w_kernel w') fd = name (w_kernel w) fd.
Proof.
  unfold Socket_close. intros E Hne. destruct (_ && _); [by injection E as _ _ <-|].
  destruct (isValid _); [|by injection E as _ _ <-]. apply outcome_bind_ok in E as (w1 & E & [= _ _ <-]).
  unfold hook_close, close in E. simpl in E. apply outcome_bind_ok in E as ([[[r iom] fds] k] & E & [= <-]).
  apply outcome_bind_ok in E as ([iom1 m1] & _ & E).
  pose proof (close_other (w_kernel w) (m_sock s) fd Hne) as Hc. destruct (close_f _ _) as [r1 k1].
  by injection E as _ _ _ <-.
Qed.

Lemma destroy_names s w w' fd :
  Socket_destroy true s w = Ok w' → fd ≠ m_sock s → name (w_kernel w') fd = name (w_kernel w) fd.
Proof.
  unfold Socket_destroy. intros ([[b s'] w1] & E & [= <-])%outcome_bind_ok. by eapply close_names.
Qed.

Lemma not_own others s w fd : holds opened others s w → fd ∈ others → 0 <= fd → fd ≠ m_sock s.
Proof.
  intros [_ Hs _ Hd] Hfd Hp ->. destruct (sane_range s Hs); [lia|].
  rewrite own_valid in Hd by lia. set_solver.
Qed.

Lemma connect_names others s w addr to ct b s' w' :
  holds opened others s w → Socket_connect order true s w addr to ct = Ok (b, s', w') → same_names others w w'.
Proof.
  intros Hh E fd Hfd H0'. unfold Socket_connect in E.
  destruct (ensure_sock_holds opened others s w Hh) as (s1 & w1 & E1 & Hh1 & _). rewrite E1 in E. osimpl in E.
  pose proof (not_own _ _ _ _ Hh1 Hfd H0') as Hne. rewrite <-(ensure_names _ _ _ _ fd E1 Hne).
  destruct (isValid s1); cbn [negb] in E; [|by injection E as _ _ <-]. case_decide; [by injection E as _ _ <-|].
  apply outcome_bind_ok in E as ([rt w2] & E2 & E).
  assert (name (w_kernel w2) fd = name (w_kernel w1) fd) as Hw2.
  { unfold connect_with_timeout in E2. apply outcome_bind_ok in E2 as (d & _ & E2). destruct d as [|e|t].
    - pose proof (connect_other (w_kernel w1) (m_sock s1) (getAddr order addr) (getAddrLen addr) fd Hne) as Hc.
      destruct (connect_f _ _ _ _) as [n k]. by injection E2 as _ <-.
    - by injection E2 as _ <-.
    - pose proof (connect_wait_other (w_kernel w1) (m_sock s1) (getAddr order addr) (getAddrLen addr) t fd Hne) as Hc.
      destruct (connect_wait _ _ _ _ _) as [n k]. by injection E2 as _ <-. }
  rewrite <-Hw2. case_decide.
  - apply outcome_bind_ok in E as ([[b1 s2] w3] & E & [= _ _ <-]). by eapply close_names.
  - apply outcome_bind_ok in E as ([a s2] & _ & E). by apply outcome_bind_ok in E as ([a' s3] & _ & [= _ _ <-]).
Qed.

Lemma free_path_names w addr ct b w' :
  world_ok opened w → free_path order true w addr ct = Ok (b, w') → same_names (open w) w w'.
Proof.
  intros Hw E. destruct addr as [m|m|m n|m]; cbn [free_path] in E; try (by injection E as _ <-).
  assert (holds opened (open w) CreateUnixTCPSocket w) as Hh by (by apply (holds_new opened)).
  destruct (connect_holds opened order (open w) CreateUnixTCPSocket w (UnixAddress m n) NO_TIMEOUT ct Hh)
    as (c & s1 & w1 & E1 & Hh1 & _).
  pose proof (connect_names _ _ _ _ _ _ _ _ _ Hh E1) as Hn. rewrite E1 in E. osimpl in E.
  intros fd Hfd H0'. rewrite <-(Hn fd Hfd H0'). pose proof (not_own _ _ _ _ Hh1 Hfd H0') as Hne. destruct c.
  - apply outcome_bind_ok in E as (w2 & E & [= _ <-]). by eapply destroy_names.
  - apply outcome_bind_ok in E as (path & _ & E). apply outcome_bind_ok in E as (w2 & E & [= _ <-]).
    rewrite (destroy_names _ _ _ fd E Hne). apply (unlink_names (w_kernel w1)).
Qed.

(** Why no listening socket can be had for an address: the system refuses a socket,
    the name or to listen, or somebody answers at the path. *)
Definition unavailable (ct : Z) (addr : Address) : Prop :=
  (∃ k, (socket_f k (getFamily order addr) SOCK_STREAM 0).1 = -1) ∨
  (∃ m n w s w', addr = UnixAddress m n ∧
     Socket_connect order true CreateUnixTCPSocket w addr NO_TIMEOUT ct = Ok (true, s, w')) ∨
  (∃ k fd, (bind_f k fd (getAddr order addr) (getAddrLen addr)).1 ≠ 0) ∨
  (∃ k fd, (listen_f k fd SOMAXCONN).1 ≠ 0).

(** Binding a new socket names its descriptor, and no other. *)
Lemma bind_names_it w addr ct b s' w' :
  world_ok opened w → usable addr → Socket_bind order true (CreateTCP order addr) w addr ct = Ok (b, s', w') →
  same_names (open w) w w' ∧
  if b then (name (w_kernel w') (m_sock s')).1 = Some (take (Z.to_nat (getAddrLen addr)) (getAddr order addr))
  else unavailable ct addr.
Proof.
  intros Hw Hu E. assert (holds opened (open w) (CreateTCP order addr) w) as Hh by (by apply (holds_new opened)).
  unfold Socket_bind in E.
  destruct (ensure_sock_holds opened (open w) _ w Hh) as (s1 & w1 & E1 & Hh1 & Hfam & _). rewrite E1 in E. osimpl in E.
  assert (same_names (open w) w w1) as Hn1.
  { intros fd Hfd H0'. apply (ensure_names _ _ _ _ fd E1). by eapply not_own. }
  destruct (isValid s1) eqn:Ev; cbn [negb] in E.
  2: { injection E as <- <- <-. split; [done|]. left. apply isValid_false in Ev.
       unfold ensure_sock in E1. simpl in E1. unfold newSock, socket in E1. exists (w_kernel w).
       apply outcome_bind_ok in E1 as ([[fd fds] k] & E1 & E2). simpl in *.
       destruct (socket_f _ _ _ _) as [fd1 k1]. simpl in *. destruct (decide (fd1 = -1)) as [|Hfd]; [done|].
       apply outcome_bind_ok in E1 as ([[c m] k2] & _ & [= <- _ _]).
       destruct (decide (fd1 ≠ -1)); [|injection E2 as <- _; done]. apply outcome_bind_ok in E2 as (w2 & _ & [= <- _]). done. }
  rewrite decide_False in E by (rewrite Hfam; by intros Hx; apply Hx).
  destruct (free_path_ok opened order w1 addr ct (holds_world _ _ _ _ Hh1) Hu) as (go & w2 & E2 & Hw2 & Ho2).
  pose proof (free_path_names _ _ _ _ _ (holds_world _ _ _ _ Hh1) E2) as Hn2. pose proof E2 as E2'. rewrite E2 in E. osimpl in E.
  assert (open w ⊆ open w1) as Hsub by (rewrite (holds_open _ _ _ _ Hh1); set_solver).
  assert (same_names (open w) w w2) as Hn.
  { eapply same_names_trans; [exact Hn1|]. intros fd Hfd. apply Hn2. by apply Hsub. }
  destruct go; cbn [negb] in E.
  2: { injection E as <- <- <-. split; [done|]. right. left. destruct addr as [m|m|m n|m]; cbn [free_path] in E2'; try done.
       apply outcome_bind_ok in E2' as ([[c s2] w3] & Ec & E2'). destruct c; [by eexists m, n, _, _, _|].
       apply outcome_bind_ok in E2' as (path & _ & E2'). by apply outcome_bind_ok in E2' as (w4 & _ & [=]). }
  pose proof (bind_names (w_kernel w2) (bind_f (w_kernel w2) (m_sock s1) (getAddr order addr) (getAddrLen addr)).2
    (m_sock s1) (getAddr order addr) (getAddrLen addr)) as Hb.
  assert (∀ fd, fd ∈ open w → 0 <= fd → name (bind_f (w_kernel w2) (m_sock s1) (getAddr order addr) (getAddrLen addr)).2 fd =
    name (w_kernel w2) fd) as Ho by (intros fd Hfd H0'; apply bind_other; by eapply not_own).
  destruct (bind_f (w_kernel w2) _ _ _) as [rt k] eqn:Eb. simpl in Hb, Ho.
  assert (same_names (open w) w (set_kernel w2 k)) as Hn3.
  { eapply same_names_trans; [exact Hn|]. exact Ho. }
  case_decide as Hrt.
  - injection E as <- <- <-. split; [done|]. right. right. left. exists (w_kernel w2), (m_sock s1). by rewrite Eb.
  - subst rt. destruct (getLocalAddress_ok order s1 (set_kernel w2 k)) as (a & s4 & Ea & Hs4 & _).
    rewrite Ea in E. osimpl in E. injection E as <- <- <-. split; [done|]. rewrite Hs4. cbn [set_kernel w_kernel].
    by rewrite Hb.
Qed.

(** The listening sockets have a descriptor each, besides [base]. *)
Record listeners (base : gset Z) (socks : list Socket) (w : world) : Prop := {
  l_world : world_ok opened w;
  l_sane s : s ∈ socks → sane s ∧ m_sock s ≠ -1;
  l_once : NoDup (m_sock <$> socks);
  l_open : open w = list_to_set (m_sock <$> socks) ∪ base;
  l_base s : s ∈ socks → m_sock s ∉ base
}.

Lemma make_listener_ok (w : world) addr ct :
  world_ok opened w → usable addr →
  ∃ r w', make_listener order w addr ct = Ok (r, w') ∧ world_ok opened w' ∧
    same_names (open w) w w' ∧
    match r with
    | None => open w' = open w ∧ unavailable ct addr
    | Some s => holds opened (open w) s w' ∧ m_sock s ≠ -1 ∧ listens_on w' s addr
    end.
Proof.
  intros Hw Hu. unfold make_listener.
  destruct (bind_holds opened order (open w) (CreateTCP order addr) w addr ct) as (b & s & w1 & E & Hh & _ & Hb);
    [by apply (holds_new opened)|done|].
  destruct (bind_names_it w addr ct b s w1 Hw Hu E) as [Hn Hname].
  assert (∀ fd, fd ∈ open w → 0 <= fd → fd ≠ m_sock s) as Hne by (intros fd Hfd H0'; by eapply not_own).
  rewrite E. osimpl. destruct b; cbn [negb].
  - destruct (Hb eq_refl) as [Hv _]. unfold Socket_listen. rewrite (proj2 (isValid_true s) Hv). cbn [negb].
    pose proof (listen_keeps (w_kernel w1) (m_sock s) SOMAXCONN) as Ho.
    pose proof (listen_listens (w_kernel w1) (listen_f (w_kernel w1) (m_sock s) SOMAXCONN).2 (m_sock s) SOMAXCONN) as Hll.
    assert (same_names (open w) w (set_kernel w1 (listen_f (w_kernel w1) (m_sock s) SOMAXCONN).2)) as Hn2.
    { eapply same_names_trans; [exact Hn|]. intros fd Hfd H0'. apply listen_other. by apply Hne. }
    destruct (listen_f _ _ _) as [rt k] eqn:El. cbn [fst snd] in *.
    assert (holds opened (open w) s (set_kernel w1 k)) as Hh'.
    { eapply holds_world_change; [exact Hh|apply world_ok_kernel; [apply Hh|done]|done]. }
    case_bool_decide as Hrt; cbn [negb].
    + exists (Some s), (set_kernel w1 k). split; [done|]. split; [apply Hh'|]. split_and!; [done|done|done|].
      unfold listens_on. cbn [set_kernel w_kernel]. rewrite Hll by (by rewrite Hrt). by rewrite Hname.
    + destruct (destroy_ok opened (open w) s _ Hh') as (w2 & E2 & Hw2 & Ho2). rewrite E2. osimpl. exists None, w2.
      split_and!; [done|done| |done|].
      * eapply same_names_trans; [exact Hn2|]. intros fd Hfd H0'. by apply (destroy_names _ _ _ fd E2), Hne.
      * right. right. right. exists (w_kernel w1), (m_sock s). by rewrite El.
  - destruct (destroy_ok opened (open w) s w1 Hh) as (w2 & E2 & Hw2 & Ho2). rewrite E2. osimpl. exists None, w2.
    split_and!; [done|done| |done|done].
    eapply same_names_trans; [exact Hn|]. intros fd Hfd H0'. by apply (destroy_names _ _ _ fd E2), Hne.
Qed.

Lemma bind_loop_ok base addrs ct : ∀ socks failed w,
  listeners base socks w → Forall usable addrs →
  ∃ new bad good w', bind_loop order addrs socks failed w ct = Ok (socks ++ new, failed ++ bad, w') ∧
    listeners base (socks ++ new) w' ∧ same_names (open w) w w' ∧ (bad = [] → good = addrs) ∧
    sublist bad addrs ∧ Forall (unavailable ct) bad ∧ Forall2 (listens_on w') new good.
Proof.
  induction addrs as [|addr addrs IH]; intros socks failed w Hl Hu; cbn [bind_loop].
  { exists [], [], [], w. rewrite !app_nil_r. split_and!; done. }
  apply Forall_cons in Hu as [Hu Hus]. pose proof Hl as [Hw Hs Hnd Ho Hb].
  destruct (make_listener_ok w addr ct Hw Hu) as (r & w1 & -> & Hw1 & Hn1 & Hr). osimpl. destruct r as [s|].
  - destruct Hr as ([_ Hsane Hopen Hdisj] & Hv & Hon). rewrite own_valid in Hopen, Hdisj by done.
    destruct (IH (socks ++ [s]) failed w1) as (new & bad & good & w' & E & Hl' & Hn2 & Hall & Hsb & Hbad & Hgood); [|done|].
    { split; [done|..].
      - intros s' [?| ->%list_elem_of_singleton]%elem_of_app; [by apply Hs|done].
      - rewrite fmap_app. simpl. apply NoDup_app. split_and!; [done| |apply NoDup_singleton].
        intros x Hx ->%list_elem_of_singleton. apply Hdisj with (m_sock s); [set_solver|].
        rewrite Ho. apply elem_of_union_l, elem_of_list_to_set. done.
      - rewrite Hopen, Ho, fmap_app, list_to_set_app_L. simpl. set_solver.
      - intros s' [?| ->%list_elem_of_singleton]%elem_of_app; [by apply Hb|]. rewrite Ho in Hdisj. set_solver. }
    exists (s :: new), bad, (addr :: good), w'. rewrite <-(assoc_L (++)) in E, Hl'.
    split_and!; [done|done| |by intros ->; rewrite Hall|by constructor|done|].
    + eapply same_names_trans; [exact Hn1|]. intros fd Hfd. apply Hn2. rewrite Hopen. set_solver.
    + constructor; [|done]. unfold listens_on. rewrite Hn2; [done|rewrite Hopen; set_solver|].
      by destruct (sane_range s Hsane).
  - destruct Hr as [Hr Hun].
    destruct (IH socks (failed ++ [addr]) w1) as (new & bad & good & w' & E & Hl' & Hn2 & Hall & Hsb & Hbad & Hgood); [|done|].
    { split; [done..|by rewrite Hr|done]. }
    exists new, (addr :: bad), good, w'. rewrite <-(assoc_L (++)) in E.
    split_and!; [done|done| |done|by constructor|by constructor|done].
    eapply same_names_trans; [exact Hn1|]. by rewrite <-Hr.
Qed.

Lemma clear_socks_ok base socks : ∀ w,
  listeners base socks w → ∃ w', clear_socks socks w = Ok w' ∧ world_ok opened w' ∧ open w' = base.
Proof.
  induction socks as [|s socks IH]; intros w Hl; cbn [clear_socks].
  { destruct Hl as [Hw _ _ Ho _]. simpl in Ho. rewrite union_empty_l_L in Ho. by exists w. }
  pose proof Hl as [Hw Hs Hnd Ho Hb]. destruct (Hs s) as [Hsane Hv]; [apply elem_of_cons; by left|].
  simpl in Hnd. apply NoDup_cons in Hnd as [Hnot Hnd].
  destruct (destroy_ok opened (list_to_set (m_sock <$> socks) ∪ base) s w) as (w1 & -> & Hw1 & Ho1).
  { split; [done|done|..]; rewrite own_valid by done; [rewrite Ho; simpl; set_solver|].
    pose proof (Hb s ltac:(apply elem_of_cons; by left)). set_solver. }
  osimpl. apply IH. split; [done| |done|done|].
  - intros s' Hs'. apply Hs, elem_of_cons. by right.
  - intros s' Hs'. apply Hb, elem_of_cons. by right.
Qed.


End bind.

(** ** Accepting *)

Section serving.
Context {K EP : Type} `{Kernel K} `{Net K} `{Epoll EP} (opened : K → gset Z) `{!NetLaws K opened}.
Context (order : endian).

Abbreviation open w := (opened (w_kernel w)).
Abbreviation world := (world K EP).

(** A turn of the accepting loop that gets a connection hands over one
    connected client, on a descriptor that was not open, whose receive timeout is
    the server's; a turn that gets none changes no descriptor; a stopped server's
    fiber ends at its next turn. *)
Theorem accepted_clients t i s l1 l2 :
  world_ok opened (t_world t) → t_heap t !! i = Some s → sane s →
  0 <= t_recvTimeout t < 2 ^ 31 * 1000 →
  ∃ t', accept_turn order t i l1 l2 = Ok t' ∧ world_ok opened (t_world t') ∧
    (t_isStop t = true → t_accepting t' = l1 ++ l2 ∧ t_clients t' = t_clients t ∧ t_world t' = t_world t) ∧
    (t_isStop t = false → t_accepting t' = t_accepting t ∧
       ((t_clients t' = t_clients t ∧ open (t_world t') = open (t_world t)) ∨
        ∃ client, t_clients t' = t_clients t ++ [client] ∧ m_connected client = true ∧
          holds opened (open (t_world t)) client (t_world t') ∧
          getRecvTimeout client (t_world t') = Ok (t_recvTimeout t))).
Proof.
  intros Hw Hi Hs Hto. unfold accept_turn. destruct (t_isStop t) eqn:Est.
  { eexists. split; [done|]. simpl. split_and!; [done..|]. done. }
  rewrite Hi. osimpl. destruct (accept_ok opened order s (t_world t) Hw Hs) as (r & w1 & -> & Hw1 & Hr). osimpl.
  destruct r as [client|].
  - destruct Hr as (Hh & Hc & _ & c & Hctx).
    assert (s64 (t_recvTimeout t) = t_recvTimeout t) as -> by (apply swrap_small; [done|unfold in_signed; lia]).
    pose proof (holds_sane _ _ _ _ Hh) as Hsc. pose proof (sane_connected _ Hsc Hc) as Hv.
    destruct (timeout_set opened client w1 c SO_RCVTIMEO (t_recvTimeout t) Hw1 Hsc Hv Hctx)
      as (b & w2 & E & _ & En & _); [lia|by left|].
    destruct (setOption_ok opened client w1 SOL_SOCKET SO_RCVTIMEO (timeval_of (t_recvTimeout t)) Hw1 Hsc I)
      as (b' & w2' & E' & Hw2 & Ho2). rewrite E in E'. simplify_eq.
    unfold setRecvTimeout. rewrite E. osimpl. eexists. split; [done|]. simpl. split; [done|]. split; [done|].
    intros _. split; [done|]. right. exists client. split_and!; [done|done|by eapply holds_world_change|].
    unfold getRecvTimeout. rewrite En. osimpl. unfold getTimeout, setTimeout. simpl.
    rewrite swrap_uwrap, swrap_small; [done|done|unfold in_signed; lia].
  - eexists. split; [done|]. simpl. split; [done|]. split; [done|]. intros _. split; [done|]. by left.
Qed.

(** ** Stopping *)

Lemma hook_close_iom (w w' : world) fd :
  hook_close true w fd = Ok w' → is_Some (w_iom w) → is_Some (w_iom w').
Proof.
  unfold hook_close, close. intros ([[[r iom] fds] k] & E & [= <-])%outcome_bind_ok [io Hio]. simpl.
  rewrite Hio in E. simpl in E. apply outcome_bind_ok in E as ([iom1 m1] & E1 & E).
  destruct (close_f _ _) as [r1 k1]. injection E as <- <- <- <-.
  apply outcome_bind_ok in E1 as ([[c m] k] & _ & E1). destruct c as [ctx|]; [|injection E1 as <- <-; by eexists].
  apply outcome_bind_ok in E1 as (iom2 & E2 & E1). apply outcome_bind_ok in E1 as (m2 & _ & [= <- <-]).
  apply outcome_bind_ok in E2 as ([b io'] & _ & [= <-]). by eexists.
Qed.

Lemma close_iom s s' (w w' : world) b :
  Socket_close true s w = Ok (b, s', w') → is_Some (w_iom w) → is_Some (w_iom w').
Proof.
  unfold Socket_close. destruct (_ && _); [by intros [= _ _ <-]|]. destruct (isValid _); [|by intros [= _ _ <-]].
  intros (w1 & E & [= _ _ <-])%outcome_bind_ok. by eapply hook_close_iom.
Qed.

Lemma close_all_ok base ids : ∀ socks heap w,
  Forall2 (λ i s, heap !! i = Some s) ids socks → NoDup ids → listeners opened base socks w → is_Some (w_iom w) →
  ∃ heap' w', close_all ids heap w = Ok (heap', w') ∧ world_ok opened w' ∧ open w' = base ∧
    (∀ i, i ∈ ids → ∃ s, heap' !! i = Some s ∧ m_sock s = -1 ∧ m_connected s = false) ∧
    (∀ i, i ∉ ids → heap' !! i = heap !! i).
Proof.
  induction ids as [|i ids IH]; intros socks heap w Hf Hnd Hl Hio; cbn [close_all].
  { apply Forall2_nil_inv_l in Hf as ->. destruct Hl as [Hw _ _ Ho _]. simpl in Ho. rewrite union_empty_l_L in Ho.
    exists heap, w. split_and!; [done..|by intros ? ?%elem_of_nil|done]. }
  apply Forall2_cons_inv_l in Hf as (s & socks' & Hi & Hf & ->). apply NoDup_cons in Hnd as [Hnot Hnd].
  rewrite Hi. osimpl. pose proof Hl as [Hw Hs Hnds Ho Hb].
  destruct (Hs s) as [Hsane Hv]; [apply elem_of_cons; by left|].
  unfold Socket_cancelAll. destruct (cancelled_ok opened s w cancelAll Hw Hsane (conj Hio Hv)) as (r & w1 & E1 & Hw1 & Ho1).
  { intros io fd Hinv. destruct (cancelAll_spec io fd Hinv) as (? & ? & ? & ? & _). eauto. }
  assert (is_Some (w_iom w1)) as Hio1.
  { unfold with_iom in E1. apply outcome_bind_ok in E1 as (io & _ & E1).
    apply outcome_bind_ok in E1 as ([r' io'] & _ & [= _ <-]). by eexists. }
  rewrite E1. osimpl. simpl in Hnds. apply NoDup_cons in Hnds as [Hfd Hnds].
  destruct (close_holds opened (list_to_set (m_sock <$> socks') ∪ base) s w1) as (b & s' & w2 & E2 & Hh2 & Hm & _).
  { pose proof (Hb s ltac:(apply elem_of_cons; by left)).
    split; [done|done|..]; rewrite own_valid by done; [rewrite Ho1, Ho; simpl; set_solver|set_solver]. }
  rewrite E2. osimpl. destruct Hh2 as [Hw2 Hs2 Ho2 _]. rewrite own_invalid, union_empty_l_L in Ho2 by done.
  destruct (IH socks' (<[i := s']> heap) w2) as (heap' & w' & E & Hw' & Ho' & Hin & Hout); [|done| |by eapply close_iom|].
  - apply Forall2_same_length_lookup. apply Forall2_same_length_lookup in Hf as [Hlen Hf]. split; [done|].
    intros n j x Hj Hx. rewrite lookup_insert_ne; [by eapply Hf|]. intros ->. apply Hnot. by eapply list_elem_of_lookup_2.
  - split; [done| |done|done|]; intros x Hx; [apply Hs|apply Hb]; apply elem_of_cons; by right.
  - exists heap', w'. split_and!; [done..| |].
    + intros j [->|Hj]%elem_of_cons; [|by apply Hin]. exists s'. rewrite Hout, lookup_insert_eq by done.
      split_and!; [done|done|]. destruct (m_connected s') eqn:Ec; [|done]. by apply (sane_connected s' Hs2) in Ec.
    + intros j [Hne Hj]%not_elem_of_cons. rewrite Hout, lookup_insert_ne by done. done.
Qed.

(** Stopping closes everything: the callback that [stop] schedules closes
    every listening socket and forgets it, and no descriptor of the server is
    left open. But when [start] comes between [stop] and its callback, the server
    counts as running with all its sockets closed, a further [start] does
    nothing, and each of its accepting fibers goes round [accept] on -1 for ever
    without waiting. *)
Theorem tcp_stop_start base socks t :
  Forall2 (λ i s, t_heap t !! i = Some s) (t_socks t) socks → NoDup (t_socks t) →
  listeners opened base socks (t_world t) → is_Some (w_iom (t_world t)) →
  (∀ k msg, io_f k accept (-1) msg 0 = (-1, msg, k)) →
  (∃ t', stop_callback (TcpServer_stop t) = Ok t' ∧ t_isStop t' = true ∧ t_socks t' = [] ∧
     open (t_world t') = base) ∧
  (∃ t', stop_callback (TcpServer_start (TcpServer_stop t)) = Ok t' ∧ t_isStop t' = false ∧
     t_socks t' = [] ∧ open (t_world t') = base ∧ TcpServer_start t' = t' ∧
     ∀ i, i ∈ t_socks t → i ∈ t_accepting t' ∧ ∀ l1 l2, accept_turn order t' i l1 l2 = Ok t').
Proof.
  intros Hf Hnd Hl Hio Hbad.
  destruct (close_all_ok base (t_socks t) socks (t_heap t) (t_world t) Hf Hnd Hl Hio)
    as (heap & w & E & Hw & Ho & Hin & _).
  split; unfold stop_callback; cbn [t_socks t_heap t_world TcpServer_stop TcpServer_start t_isStop negb];
    rewrite E; osimpl; eexists; (split; [done|]); simpl; [done|].
  split_and!; [done..|]. intros i Hi. split; [apply elem_of_app; by right|]. intros l1 l2.
  destruct (Hin i Hi) as (s & Hs & Hm & _). unfold accept_turn. cbn [t_isStop t_heap t_world]. rewrite Hs. osimpl.
  unfold Socket_accept, hook_accept, do_io, do_io_enter. rewrite Hm. cbn [negb].
  change (fd_get (w_fds w) (-1) false (w_kernel w)) with (Ok (None (A := FdCtx), w_fds w, w_kernel w)).
  osimpl. rewrite Hbad. osimpl. unfold accept_result. simpl. by destruct w.
Qed.

End serving.

(** ** A server on the small kernel *)

Module TinyServer.
Import TinyNet.
#[local] Existing Instance table_epoll.

(** On a thread with an event loop. *)
Definition start_io : tiny := mkWorld FdManager_new (Some (IOManager_new ∅)) (3%nat, ∅, {[0; 1; 2]}).

Lemma start_io_ok : world_ok snd start_io.
Proof.
  split; [apply FdManager_new_inv| |].
  - intros io [= <-]. apply (io_reachable_inv ∅). constructor.
  - intros i c [? _]%lookup_replicate. done.
Qed.

Lemma no_listeners : listeners snd {[0; 1; 2]} [] start_io.
Proof.
  split; [apply start_io_ok|by intros ? ?%elem_of_nil|apply NoDup_nil_2| |by intros ? ?%elem_of_nil].
  simpl. by rewrite union_empty_l_L.
Qed.

Definition bound : bool * list Socket * list Address * tiny :=
  match TcpServer_bind le [] [] [server] start_io 5000 with Ok r => r | _ => (false, [], [], start_io) end.

Lemma bound_ok : TcpServer_bind le [] [] [server] start_io 5000 = Ok bound.
Proof. vm_compute. reflexivity. Qed.

(** Names in the small kernel. *)
Definition tiny_name (k : kernel) (fd : Z) : option (list Z) * bool :=
  match k.1.2 !! fd with Some (a, l) => (Some a, l) | None => (None, false) end.

#[export] Instance tiny_names : BindLaws kernel tiny_name.
Proof.
  split; unfold tiny_name; simpl; try done.
  - intros k k' fd a n [= <-]. simpl. rewrite lookup_insert_eq. by destruct (k.1.2 !! fd) as [[]|].
  - intros k k' fd n. destruct (k.1.2 !! fd) as [[a l]|] eqn:E; [|done]. intros [= <-]. simpl. by rewrite lookup_insert_eq.
  - intros k fd a n fd' Hne. by rewrite lookup_insert_ne.
  - intros k fd n fd' Hne. destruct (k.1.2 !! fd) as [[a l]|]; simpl; [by rewrite lookup_insert_ne|done].
  - intros k a b c fd'. unfold open_next. case_decide; simpl; [done|]. intros Hne. by rewrite lookup_delete_ne.
  - intros k fd fd' Hne. by rewrite lookup_delete_ne.
Qed.



(** One listening socket, running. *)
Definition listener : Socket :=
  match bound.1.1.2 with s :: _ => s | [] => fresh end.
Definition running : TcpServer (K := kernel) (EP := gmap nat Z) :=
  mkServer {[0%nat := listener]} [0%nat] 120000 false [0%nat] 0 [] bound.2.

Lemma running_listeners : listeners snd {[0; 1; 2]} [listener] bound.2.
Proof.
  destruct (bind_loop_ok snd tiny_name le {[0; 1; 2]} [server] 5000 [] [] start_io no_listeners)
    as (new & bad & good & w & E & Hl & _); [constructor; [exact I|constructor]|].
  assert (bind_loop le [server] [] [] start_io 5000 = Ok (bound.1.1.2, bound.1.2, bound.2)) as E2
    by (vm_compute; reflexivity).
  pose proof (eq_trans (eq_sym E) E2) as E3. clear E E2.
  assert (new = [listener] ∧ w = bound.2) as [-> ->]; [|exact Hl].
  split.
  - apply (f_equal (λ m, match m with Ok (s, _, _) => s | _ => [] end)) in E3. simpl in E3. rewrite E3.
    vm_compute. reflexivity.
  - apply (f_equal (λ m, match m with Ok (_, _, w) => w | _ => bound.2 end)) in E3. simpl in E3. exact E3.
Qed.

Lemma accepted_clients_witness :
  ∃ t', accept_turn le running 0 [] [] = Ok t' ∧ length (t_clients t') = 1%nat ∧ t_accepting t' = [0%nat].
Proof.
  destruct (accepted_clients snd le running 0 listener [] []) as (t' & E & _ & _ & Hrun).
  - exact (l_world _ _ _ _ running_listeners).
  - reflexivity.
  - apply (l_sane _ _ _ _ running_listeners). apply elem_of_cons. left. reflexivity.
  - simpl. lia.
  - exists t'. split; [exact E|]. destruct (Hrun eq_refl) as [Ha _]. split; [|exact Ha].
    vm_compute in E. injection E as <-. vm_compute. reflexivity.
Defined.

Lemma tcp_stop_start_witness :
  ∃ t', stop_callback (TcpServer_start (TcpServer_stop running)) = Ok t' ∧ t_isStop t' = false ∧
    accept_turn le t' 0 [] [] = Ok t'.
Proof.
  destruct (tcp_stop_start snd le {[0; 1; 2]} [listener] running) as (_ & t' & E & Hs & _ & _ & _ & Hspin).
  - constructor; [reflexivity|constructor].
  - apply NoDup_singleton.
  - exact running_listeners.
  - vm_compute. eexists. reflexivity.
  - reflexivity.
  - exists t'. split; [exact E|]. split; [exact Hs|]. apply Hspin. apply elem_of_cons. left. reflexivity.
Defined.
End TinyServer.
