(* ===== verification/ConfigCast.v ===== *)
(** The conversions of configuration values (the [LexicalCast]s of
    sylar/config.h): between a text and a value of a basic type or of a
    container, through a YAML document. The YAML library and the conversions of
    the basic types are interfaces. *)

From Stdlib Require Import ZArith Lia.
From stdpp Require Import base numbers gmap option strings tactics sorting countable sets list.
From S2P Require Import Prelude StdSet StdMap Text.

Local Open Scope Z_scope.

(** ** Interfaces *)

(** A YAML document: [YAML::Load], which throws on [None]; printing; the tests
    and accessors of a node; [node.size()] and [node[i]]; iterating over a map;
    [node[key]], when it is defined; [as<std::string>()], which throws on [None];
    and building a sequence with [push_back], a map with [node[k] = v] or a node
    of a string. *)
Class Yaml (Y : Type) : Type := {
  yaml_load : list Z → option Y;
  yaml_dump : Y → list Z;
  IsMap : Y → bool;
  IsScalar : Y → bool;
  Scalar : Y → list Z;
  yaml_size : Y → nat;
  yaml_at : Y → nat → Y;
  yaml_entries : Y → list (Y * Y);
  yaml_get : Y → list Z → option Y;
  as_string : Y → option (list Z);
  yaml_seq : list Y → Y;
  yaml_map : list (list Z * Y) → Y;
  yaml_string : list Z → Y
}.

(** [LexicalCast<std::string, T>] and [LexicalCast<T, std::string>]; [None] when
    they throw. *)
Record Cast (T : Type) : Type := mkCast {
  from_str : list Z → option T;
  to_str : T → option (list Z)
}.
Arguments from_str {T} _ _.
Arguments to_str {T} _ _.

(** ** Containers *)

Section casts.
Context {Y : Type} `{Yaml Y} {T : Type} (c : Cast T).

Definition yaml_items (node : Y) : list Y := yaml_at node <$> seq 0 (yaml_size node).

(** The loops over a sequence and over a map, with the element's conversion. *)
Definition cast_items (node : Y) : option (list T) :=
  mapM (λ n, from_str c (yaml_dump n)) (yaml_items node).

Definition cast_entries (node : Y) : option (list (list Z * T)) :=
  mapM (λ kv, x ← from_str c (yaml_dump kv.2); Some (Scalar kv.1, x)) (yaml_entries node).

(** [YAML::Load] of an element's text. *)
Definition element_node (x : T) : option Y := s ← to_str c x; yaml_load s.

Definition seq_to (l : list T) : option (list Z) :=
  ys ← mapM element_node l; Some (yaml_dump (yaml_seq ys)).

Definition map_to (m : list (list Z * T)) : option (list Z) :=
  ys ← mapM (λ kv, y ← element_node kv.2; Some (kv.1, y)) m; Some (yaml_dump (yaml_map ys)).

(** [std::vector] and [std::list]. *)
Definition vector_cast : Cast (list T) :=
  mkCast _ (λ v, node ← yaml_load v; cast_items node) seq_to.

Definition list_cast : Cast (list T) :=
  mkCast _ (λ v, node ← yaml_load v; cast_items node) seq_to.

(** [std::set] with its order. *)
Definition insert_all (lt : T → T → bool) (l : list T) : list T :=
  foldl (λ s x, (set_insert lt s x).2) [] l.

Definition set_cast (lt : T → T → bool) : Cast (list T) :=
  mkCast _ (λ v, node ← yaml_load v; insert_all lt <$> cast_items node) seq_to.

(** [std::unordered_set]; [order] is the order it is iterated in. *)
Definition unordered_set_cast `{Countable T} (order : gset T → list T) : Cast (gset T) :=
  mkCast (gset T) (λ v, node ← yaml_load v; list_to_set <$> cast_items node) (λ s, seq_to (order s)).

(** [std::map<std::string, T>]: [insert] keeps a key that is already there. *)
Definition map_insert (m : list (list Z * T)) (kv : list Z * T) : list (list Z * T) :=
  match map_find id bytes_lt m kv.1 with
  | Some _ => m
  | None => map_set id bytes_lt m kv.1 kv.2
  end.

Definition map_cast : Cast (list (list Z * T)) :=
  mkCast _ (λ v, node ← yaml_load v; foldl map_insert [] <$> cast_entries node) map_to.

(** [std::unordered_map<std::string, T>]. *)
Definition unordered_map_cast (order : gmap (list Z) T → list (list Z * T)) : Cast (gmap (list Z) T) :=
  mkCast (gmap (list Z) T)
    (λ v, node ← yaml_load v;
       foldl (λ m kv, if decide (is_Some (m !! kv.1)) then m else <[kv.1 := kv.2]> m) ∅
         <$> cast_entries node)
    (λ m, map_to (order m)).

End casts.

(** ** Laws of the interfaces *)

Section laws.
Context {Y : Type} `{Yaml Y}.

(** The nodes that were read, or built from such nodes and strings. *)
Inductive built : Y → Prop :=
| built_load s y : yaml_load s = Some y → built y
| built_seq ys : (∀ y, y ∈ ys → built y) → built (yaml_seq ys)
| built_map kvs : (∀ kv, kv ∈ kvs → built kv.2) → built (yaml_map kvs)
| built_string s : built (yaml_string s).

(** A printed document reads back; a sequence has its elements, a map its
    entries, and a string node its string. *)
Class YamlLaws : Prop := {
  load_dump y : built y → yaml_load (yaml_dump y) = Some y;
  seq_items ys : yaml_items (yaml_seq ys) = ys;
  map_entries kvs : NoDup kvs.*1 →
    prod_map Scalar id <$> yaml_entries (yaml_map kvs) ≡ₚ kvs;
  map_get kvs k : NoDup kvs.*1 → yaml_get (yaml_map kvs) k = (list_to_map kvs : gmap (list Z) Y) !! k;
  string_as s : as_string (yaml_string s) = Some s
}.

(** The text of [x] reads back, alone and as an element of a document. *)
Definition cast_ok {T} (c : Cast T) (x : T) : Prop :=
  ∃ s y, to_str c x = Some s ∧ from_str c s = Some x ∧
    yaml_load s = Some y ∧ from_str c (yaml_dump y) = Some x.

End laws.
Arguments YamlLaws Y {_}.

(** ** Round trips *)

Section roundtrip.
Context {Y : Type} `{!Yaml Y} `{!YamlLaws Y} {T : Type} (c : Cast T).

Lemma element_nodes l :
  Forall (cast_ok c) l →
  ∃ ys, mapM (element_node c) l = Some ys ∧ Forall built ys ∧
    mapM (λ n, from_str c (yaml_dump n)) ys = Some l.
Proof.
  induction 1 as [|x l (s & y & Hto & _ & Hy & Hd) _ (ys & IH1 & IH2 & IH3)]; [by exists []|].
  assert (element_node c x = Some y) as E by (unfold element_node; by rewrite Hto).
  exists (y :: ys). simpl. rewrite E. simpl. rewrite IH1. simpl. rewrite Hd. simpl. rewrite IH3.
  split_and!; [done| |done].
  constructor; [by econstructor|done].
Qed.

(** The text of a sequence, and the elements read from it. *)
Lemma seq_text l :
  Forall (cast_ok c) l →
  ∃ s y, seq_to c l = Some s ∧ yaml_load s = Some y ∧ s = yaml_dump y ∧ cast_items c y = Some l.
Proof.
  intros (ys & H1 & H2 & H3)%element_nodes. exists (yaml_dump (yaml_seq ys)), (yaml_seq ys).
  unfold seq_to, cast_items. rewrite H1, seq_items, H3. split_and!; try done.
  apply load_dump, built_seq. rewrite Forall_forall in H2. exact H2.
Qed.

(** A container that prints as a sequence. *)
Lemma seq_cast_ok {C} (conv : list T → C) (order : C → list T) x :
  Forall (cast_ok c) (order x) → conv (order x) = x →
  cast_ok (mkCast C (λ v, node ← yaml_load v; conv <$> cast_items c node) (λ s, seq_to c (order s))) x.
Proof.
  intros (s & y & H1 & H2 & -> & H4)%seq_text Hx. exists (yaml_dump y), y. simpl.
  rewrite H2. simpl. rewrite H4. simpl. by rewrite Hx.
Qed.

Lemma entry_nodes (m : list (list Z * T)) :
  Forall (λ kv, cast_ok c kv.2) m →
  ∃ ys : list (list Z * Y), mapM (λ kv, y ← element_node c kv.2; Some (kv.1, y)) m = Some ys ∧ Forall (λ kv, built kv.2) ys ∧
    ys.*1 = m.*1 ∧
    mapM (λ kv, x ← from_str c (yaml_dump kv.2); Some (kv.1, x)) ys = Some m.
Proof.
  induction 1 as [|[k x] m (s & y & Hto & _ & Hy & Hd) _ (ys & IH1 & IH2 & IH3 & IH4)]; [by exists []|].
  simpl in *. assert (element_node c x = Some y) as E by (unfold element_node; by rewrite Hto).
  exists ((k, y) :: ys). simpl. rewrite E. simpl. rewrite IH1. simpl. rewrite Hd. simpl. rewrite IH4.
  split_and!; [done| | |done].
  - constructor; [by econstructor|done].
  - by f_equal.
Qed.

Lemma mapM_perm {A B} (f : A → option B) l1 l2 r1 :
  l1 ≡ₚ l2 → mapM f l1 = Some r1 → ∃ r2, mapM f l2 = Some r2 ∧ r1 ≡ₚ r2.
Proof.
  intros Hp. revert r1. induction Hp as [|x l1 l2 _ IH|x y l|l1 l2 l3 _ IH1 _ IH2]; intros r1; simpl.
  - intros [= <-]. by exists [].
  - destruct (f x) as [b|]; [|done]. simpl. destruct (mapM f l1) as [r|]; [|done]. intros [= <-].
    destruct (IH r eq_refl) as (r2 & -> & Hr). exists (b :: r2). simpl. split; [done|]. by constructor.
  - destruct (f x), (f y); simpl; try done. destruct (mapM f l) as [r|]; [|done].
    intros [= <-]. eexists. split; [done|]. constructor.
  - intros Hr. destruct (IH1 _ Hr) as (r2 & H2 & Hp2). destruct (IH2 _ H2) as (r3 & H3 & Hp3).
    exists r3. split; [done|]. by rewrite Hp2.
Qed.

Lemma map_text (m : list (list Z * T)) :
  NoDup m.*1 → Forall (λ kv, cast_ok c kv.2) m →
  ∃ s y m', map_to c m = Some s ∧ yaml_load s = Some y ∧ s = yaml_dump y ∧
    cast_entries c y = Some m' ∧ m ≡ₚ m'.
Proof.
  intros Hnd (ys & H1 & H2 & H3 & H4)%entry_nodes.
  assert (NoDup ys.*1) as Hnd' by by rewrite H3.
  destruct (mapM_perm _ _ (prod_map Scalar id <$> yaml_entries (yaml_map ys)) _
    ltac:(symmetry; by apply map_entries) H4) as (m' & Hm' & Hp).
  exists (yaml_dump (yaml_map ys)), (yaml_map ys), m'. unfold map_to, cast_entries. rewrite H1.
  split_and!; try done; [apply load_dump, built_map; rewrite Forall_forall in H2; exact H2|].
  rewrite <-Hm'. generalize (yaml_entries (yaml_map ys)). intros l. induction l as [|[k v] l IH]; [done|].
  simpl. destruct (from_str c (yaml_dump v)); simpl; [|done]. by rewrite IH.
Qed.

Lemma map_cast_text {C} (conv : list (list Z * T) → C) (order : C → list (list Z * T)) x :
  NoDup (order x).*1 → Forall (λ kv, cast_ok c kv.2) (order x) →
  (∀ m', order x ≡ₚ m' → conv m' = x) →
  cast_ok (mkCast C (λ v, node ← yaml_load v; conv <$> cast_entries c node) (λ s, map_to c (order s))) x.
Proof.
  intros Hnd Hok Hx. destruct (map_text _ Hnd Hok) as (s & y & m' & H1 & H2 & -> & H4 & H5).
  exists (yaml_dump y), y. simpl. rewrite H2. simpl. rewrite H4. simpl. by rewrite Hx.
Qed.

(** Inserting the elements of an ordered set, and the entries of a map in any
    order, gives them back. *)
Lemma ordered_same {A} (R : A → A → Prop) l1 l2 :
  (∀ x, ¬ R x x) → (∀ x y z, R x y → R y z → R x z) → StronglySorted R l1 → StronglySorted R l2 →
  (∀ x, x ∈ l1 ↔ x ∈ l2) → l1 = l2.
Proof.
  intros Hirr Htr H1 H2 Hin.
  assert (∀ l, StronglySorted R l → NoDup l) as Hnd.
  { induction 1 as [|x l _ IH Hf]; constructor; [|done]. intros Hx. rewrite Forall_forall in Hf.
    by apply (Hirr x), Hf. }
  eapply StronglySorted_unique_strong; [|exact H1|exact H2|apply NoDup_Permutation; auto].
  intros x1 x2 _ _ H12 H21. by destruct (Hirr x1 (Htr _ _ _ H12 H21)).
Qed.

Lemma insert_all_spec (lt : T → T → bool) l : ∀ s,
  strict_on lt (λ _, True) → ordered lt s → NoDup l → (∀ x, x ∈ l → x ∉ s) →
  ordered lt (foldl (λ s x, (set_insert lt s x).2) s l) ∧
  ∀ x, x ∈ foldl (λ s x, (set_insert lt s x).2) s l ↔ x ∈ s ∨ x ∈ l.
Proof.
  induction l as [|y l IH]; intros s Hlt Hs Hnd Hout; simpl; [set_solver|].
  apply NoDup_cons in Hnd as [Hy Hnd].
  destruct (set_insert_new lt (λ _, True) s y Hlt I (Forall_true _ _ (λ _, I)) Hs) as (Ho & Hin & _);
    [by apply Hout; left|].
  destruct (IH (set_insert lt s y).2) as [H1 H2]; try done.
  { intros x Hx. rewrite Hin. intros [->|?]; [done|]. apply (Hout x); [by right|done]. }
  split; [done|]. intros x. rewrite H2, Hin. set_solver.
Qed.

Lemma insert_all_ordered (lt : T → T → bool) l :
  strict_on lt (λ _, True) → ordered lt l → insert_all lt l = l.
Proof.
  intros Hlt Hl. destruct (insert_all_spec lt l [] Hlt) as [H1 H2].
  - constructor.
  - by eapply ordered_NoDup; [|apply Forall_true|].
  - by intros x _ ?%elem_of_nil.
  - apply (ordered_same (λ x y, lt x y = true)); [| |exact H1|exact Hl|].
    + intros x. by rewrite (lt_irrefl Hlt).
    + intros x y z. by apply (lt_trans Hlt).
    + intros x. rewrite H2. set_solver.
Qed.

Lemma map_insert_spec l : ∀ m : list (list Z * T),
  map_ok id bytes_lt m → NoDup l.*1 → (∀ k, k ∈ l.*1 → k ∉ m.*1) →
  map_ok id bytes_lt (foldl map_insert m l) ∧ ∀ kv, kv ∈ foldl map_insert m l ↔ kv ∈ m ∨ kv ∈ l.
Proof.
  induction l as [|[k v] l IH]; intros m Hm Hnd Hout; simpl; [set_solver|].
  apply NoDup_cons in Hnd as [Hk Hnd].
  assert (map_lookup id bytes_lt m k = None) as E0.
  { destruct (map_lookup id bytes_lt m k) as [[k' v']|] eqn:E; [|done].
    apply (map_lookup_iff id bytes_lt bytes_lt_strict) in E as [Hin Hk']; [|done]. simpl in Hk'. unfold id in Hk'. subst k'.
    destruct (Hout k); [by left|]. apply list_elem_of_fmap. by exists (k, v'). }
  assert (map_insert m (k, v) = map_set id bytes_lt m k v) as E.
  { unfold map_insert, map_find. simpl. by rewrite E0. }
  destruct (map_set_ok id bytes_lt bytes_lt_strict m k v Hm) as [Ho Hin].
  rewrite E0 in Hin. simpl in Hin. rewrite E.
  assert (∀ k', k' ∈ (map_set id bytes_lt m k v).*1 → k' = k ∨ k' ∈ m.*1) as Hkeys.
  { intros k' (kv & -> & [[Hkv _]| ->]%Hin)%list_elem_of_fmap; [right|by left].
    apply list_elem_of_fmap. by exists kv. }
  destruct (IH (map_set id bytes_lt m k v)) as [H1 H2]; try done.
  { intros k' Hk' [->|Hkm]%Hkeys; [done|]. apply (Hout k'); [by right|done]. }
  split; [done|]. intros kv. rewrite H2, Hin, elem_of_cons. split; [naive_solver|].
  intros [Hkv|[->|?]]; [|auto..]. left. left. split; [done|]. unfold id. intros <-.
  destruct (Hout kv.1); [by left|]. apply list_elem_of_fmap. by exists kv.
Qed.

Lemma map_ok_pairs (m : list (list Z * T)) :
  map_ok id bytes_lt m → StronglySorted (λ a b, bytes_lt a.1 b.1 = true) m.
Proof.
  unfold map_ok, ordered. induction m as [|kv m IH]; simpl; [constructor|].
  intros [Hs Hf]%StronglySorted_inv. constructor; [by apply IH|]. by rewrite Forall_fmap in Hf.
Qed.

Lemma map_insert_ordered (m m' : list (list Z * T)) :
  map_ok id bytes_lt m → m ≡ₚ m' → foldl map_insert [] m' = m.
Proof.
  intros Hm Hp.
  assert (NoDup m.*1) as Hnd.
  { unfold map_ok in Hm. eapply (ordered_NoDup bytes_lt (λ _, True)); [apply bytes_lt_strict|by apply Forall_true|done]. }
  destruct (map_insert_spec m' []) as [H1 H2].
  - constructor.
  - by rewrite <-Hp.
  - by intros k _ ?%elem_of_nil.
  - apply (ordered_same (λ a b, bytes_lt a.1 b.1 = true)).
    + intros x. by rewrite bytes_lt_irrefl.
    + intros x y z. by apply bytes_lt_trans.
    + by apply map_ok_pairs.
    + by apply map_ok_pairs.
    + intros kv. rewrite H2, Hp. set_solver.
Qed.

Lemma unordered_insert (l : list (list Z * T)) : ∀ m : gmap (list Z) T,
  NoDup l.*1 → (∀ k, k ∈ l.*1 → m !! k = None) →
  foldl (λ m kv, if decide (is_Some (m !! kv.1)) then m else <[kv.1 := kv.2]> m) m l =
  list_to_map l ∪ m.
Proof.
  induction l as [|[k v] l IH]; intros m Hnd Hout; simpl; [by rewrite (left_id_L ∅ (∪))|].
  apply NoDup_cons in Hnd as [Hk Hnd]. rewrite decide_False.
  2: { rewrite Hout by by left. apply is_Some_None. }
  rewrite IH; [|done|].
  - rewrite <-insert_union_l, insert_union_r; [done|]. by apply not_elem_of_list_to_map_1.
  - intros k' Hk'. rewrite lookup_insert_ne by (intros ->; done). apply Hout. by right.
Qed.

(** The text of a container of configuration values reads back as the same
    container: for vectors, lists, sets, unordered sets, maps and unordered maps,
    whatever order the unordered ones are printed in, when the text of their
    elements does; and then the container can itself be an element. *)
Theorem container_casts_roundtrip `{Countable T} (lt : T → T → bool)
    (set_order : gset T → list T) (map_order : gmap (list Z) T → list (list Z * T)) :
  strict_on lt (λ _, True) → (∀ s, set_order s ≡ₚ elements s) → (∀ m, map_order m ≡ₚ map_to_list m) →
  (∀ l, Forall (cast_ok c) l → cast_ok (vector_cast c) l ∧ cast_ok (list_cast c) l) ∧
  (∀ l, ordered lt l → Forall (cast_ok c) l → cast_ok (set_cast c lt) l) ∧
  (∀ s, set_Forall (cast_ok c) s → cast_ok (unordered_set_cast c set_order) s) ∧
  (∀ m, map_ok id bytes_lt m → Forall (λ kv, cast_ok c kv.2) m → cast_ok (map_cast c) m) ∧
  (∀ m, map_Forall (λ _, cast_ok c) m → cast_ok (unordered_map_cast c map_order) m).
Proof.
  intros Hlt Hso Hmo. split_and!.
  - intros l Hl. destruct (seq_text l Hl) as (s & y & H1 & H2 & -> & H4).
    split; exists (yaml_dump y), y; simpl; rewrite H2; simpl; by rewrite H4.
  - intros l Ho Hl. apply (seq_cast_ok (insert_all lt) id l Hl). by apply insert_all_ordered.
  - intros s Hs. apply (seq_cast_ok list_to_set set_order s).
    + rewrite Hso. apply Forall_forall. intros x Hx%elem_of_elements. by apply Hs.
    + rewrite Hso. apply list_to_set_elements_L.
  - intros m Ho Hm. apply (map_cast_text (foldl map_insert []) id m).
    + eapply (ordered_NoDup bytes_lt (λ _, True)); [apply bytes_lt_strict|by apply Forall_true|done].
    + done.
    + intros m' Hp. by apply map_insert_ordered.
  - intros m Hm. apply (map_cast_text _ map_order m).
    + rewrite Hmo. apply NoDup_fst_map_to_list.
    + rewrite Hmo. apply Forall_forall. intros [k v] Hkv%elem_of_map_to_list. by apply (Hm k v).
    + intros m' Hp. rewrite unordered_insert.
      * rewrite (right_id_L ∅ (∪)). rewrite <-(list_to_map_to_list m). rewrite Hmo in Hp.
        symmetry. apply list_to_map_proper; [apply NoDup_fst_map_to_list|done].
      * rewrite <-Hp, Hmo. apply NoDup_fst_map_to_list.
      * intros k _. apply lookup_empty.
Qed.

End roundtrip.

(** ** A YAML for trees *)

(** Documents as trees, written with an injective encoding: a leaf is a scalar,
    a node with tag 0 a sequence, and one with tag 1 a map, its keys and values
    in turn. *)
Module TreeYaml.
Definition tree : Type := gen_tree (list Z).

Fixpoint bits (p : positive) : list Z :=
  match p with
  | xH => []
  | xO p => 48 :: bits p
  | xI p => 49 :: bits p
  end.

Fixpoint of_bits (s : list Z) : positive :=
  match s with
  | [] => xH
  | b :: s => if decide (b = 49) then xI (of_bits s) else xO (of_bits s)
  end.

Lemma of_bits_bits p : of_bits (bits p) = p.
Proof. induction p as [p IH|p IH|]; simpl; [by rewrite IH..|done]. Qed.

Fixpoint pairs (l : list tree) : list (tree * tree) :=
  match l with
  | k :: v :: l => (k, v) :: pairs l
  | _ => []
  end.

Fixpoint lookup_key (k : list Z) (l : list (tree * tree)) : option tree :=
  match l with
  | [] => None
  | (GenLeaf k', v) :: l => if decide (k' = k) then Some v else lookup_key k l
  | _ :: l => lookup_key k l
  end.

Fixpoint flat (l : list (list Z * tree)) : list tree :=
  match l with
  | (k, v) :: l => GenLeaf k :: v :: flat l
  | [] => []
  end.

Definition children (t : tree) : list tree := match t with GenNode _ l => l | GenLeaf _ => [] end.

#[export] Instance tree_yaml : Yaml tree := {
  yaml_load s := decode (of_bits s);
  yaml_dump t := bits (encode t);
  IsMap t := match t with GenNode 1 _ => true | _ => false end;
  IsScalar t := match t with GenLeaf _ => true | _ => false end;
  Scalar t := match t with GenLeaf s => s | _ => [] end;
  yaml_size t := length (children t);
  yaml_at t i := default (GenLeaf []) (children t !! i);
  yaml_entries t := match t with GenNode 1 l => pairs l | _ => [] end;
  yaml_get t k := match t with GenNode 1 l => lookup_key k (pairs l) | _ => None end;
  as_string t := match t with GenLeaf s => Some s | _ => None end;
  yaml_seq l := GenNode 0 l;
  yaml_map l := GenNode 1 (flat l);
  yaml_string s := GenLeaf s
}.

#[export] Instance tree_laws : YamlLaws tree.
Proof.
  split.
  - intros y _. simpl. rewrite of_bits_bits. apply decode_encode.
  - intros ys. unfold yaml_items. simpl. apply list_eq. intros i. rewrite list_lookup_fmap.
    destruct (decide (i < length ys)%nat).
    + rewrite lookup_seq_lt by done. simpl. destruct (lookup_lt_is_Some_2 ys i) as [y Hy]; [done|].
      unfold tree in *. by rewrite Hy.
    + rewrite lookup_seq_ge by lia. by rewrite lookup_ge_None_2 by lia.
  - intros kvs _. simpl. induction kvs as [|[k v] kvs IH]; simpl; [done|]. by rewrite IH.
  - intros kvs k _. simpl. induction kvs as [|[k' v] kvs IH]; simpl; [done|]. case_decide as E.
    + subst k'. by rewrite lookup_insert_eq.
    + by rewrite lookup_insert_ne.
  - done.
Qed.

(** Strings, written as scalars. *)
Definition scalar_cast : Cast (list Z) :=
  mkCast _ (λ s, match yaml_load (Y := tree) s with Some (GenLeaf x) => Some x | _ => None end)
    (λ x, Some (yaml_dump (Y := tree) (GenLeaf x))).

Lemma scalar_cast_ok x : cast_ok (Y := tree) scalar_cast x.
Proof.
  exists (bits (encode (GenLeaf x : tree))), (GenLeaf x). simpl.
  by rewrite of_bits_bits, decode_encode.
Qed.
End TreeYaml.

Import TreeYaml.

Lemma container_casts_roundtrip_witness :
  ∃ s, to_str (map_cast (Y := tree) scalar_cast) [([97], [1]); ([98], [2])] = Some s ∧
    from_str (map_cast (Y := tree) scalar_cast) s = Some [([97], [1]); ([98], [2])].
Proof.
  destruct (container_casts_roundtrip (Y := tree) scalar_cast bytes_lt elements map_to_list bytes_lt_strict
    (λ s, reflexivity _) (λ m, reflexivity _)) as (_ & _ & _ & Hm & _).
  destruct (Hm [([97], [1]); ([98], [2])]) as (s & y & H1 & H2 & _).
  - repeat constructor.
  - repeat constructor; apply scalar_cast_ok.
  - exists s. split; [exact H1|exact H2].
Defined.
