(* ===== verification/Config.v ===== *)
(** Configuration variables (sylar/config.h, sylar/config.cc): a variable with
    its listeners, the registry of variables by name, and loading documents and
    directories. *)

From Stdlib Require Import ZArith Lia.
From stdpp Require Import base numbers gmap option strings tactics relations sets list.
From S2P Require Import Prelude StdSet StdMap Text ConfigCast.

Local Open Scope Z_scope.

(** ** Names *)

Definition CONFIG_CHARS : list Z := text "abcdefghigklmnopqrstuvwxyz.012345678_".

(** [name.find_first_not_of(...) == npos]. *)
Definition valid_name (name : list Z) : bool :=
  match find_first (λ c, negb (bool_decide (c ∈ CONFIG_CHARS))) name with
  | Some _ => false
  | None => true
  end.

Section config.
(** [ty] stands for the types [T] of the variables, [value] for their values,
    [W] for what the listeners act on, [Y] for the YAML nodes. *)
Context {ty value W Y : Type} `{!EqDecision ty} `{!EqDecision value} `{!Yaml Y}.
Context (cast : ty → Cast value).

(** ** Variables *)

(** [on_change_cb]: the listener of an old and a new value; [false] when it
    throws. *)
Definition listener : Type := value → value → W → W * bool.

(** [ConfigVar<T>]; [m_cbs] is a [std::map]. *)
Record ConfigVar : Type := mkVar {
  m_name : list Z;
  m_description : list Z;
  m_type : ty;
  m_val : value;
  m_cbs : list (Z * listener)
}.

Definition ConfigVar_new (t : ty) (name : list Z) (default_value : value) (description : list Z) :
    ConfigVar :=
  mkVar (tolower <$> name) description t default_value [].

Definition set_val (v : ConfigVar) (x : value) : ConfigVar :=
  mkVar (m_name v) (m_description v) (m_type v) x (m_cbs v).

Definition set_cbs (v : ConfigVar) (cbs : list (Z * listener)) : ConfigVar :=
  mkVar (m_name v) (m_description v) (m_type v) (m_val v) cbs.

(** [toString()]. *)
Definition var_toString (v : ConfigVar) : list Z := default [] (to_str (cast (m_type v)) (m_val v)).

(** The loop over the listeners. *)
Fixpoint notify (cbs : list (Z * listener)) (old new : value) (w : W) : W * bool :=
  match cbs with
  | [] => (w, true)
  | (_, cb) :: cbs =>
    let '(w, ok) := cb old new w in
    if ok then notify cbs old new w else (w, false)
  end.

(** [setValue(x)]: the part under the read lock, [None] when there is nothing to
    store, then the part under the write lock. [false] when a listener throws. *)
Definition setValue_check (v : ConfigVar) (x : value) (w : W) : option value * W * bool :=
  if decide (x = m_val v) then (None, w, true)
  else let '(w, ok) := notify (m_cbs v) (m_val v) x w in
       if ok then (Some x, w, true) else (None, w, false).

Definition setValue_store (v : ConfigVar) (x : option value) : ConfigVar :=
  match x with Some x => set_val v x | None => v end.

Definition setValue (v : ConfigVar) (x : value) (w : W) : ConfigVar * W * bool :=
  let '(x, w, ok) := setValue_check v x w in
  (setValue_store v x, w, ok).

(** [fromString(val)]. *)
Definition fromString (v : ConfigVar) (val : list Z) (w : W) : bool * ConfigVar * W :=
  match from_str (cast (m_type v)) val with
  | None => (false, v, w)
  | Some x => let '(v, w, ok) := setValue v x w in (ok, v, w)
  end.

Definition delListener (v : ConfigVar) (key : Z) : ConfigVar :=
  set_cbs v (map_erase id Z.ltb (m_cbs v) key).

Definition getListener (v : ConfigVar) (key : Z) : option listener := map_find id Z.ltb (m_cbs v) key.

Definition clearListener (v : ConfigVar) : ConfigVar := set_cbs v [].

(** ** The registry *)

(** [GetData()], in which a shared pointer to a variable is its key, and the
    counter [s_fun_id] that each instance of [addListener] has. *)
Record Config : Type := mkConfig {
  s_data : gmap (list Z) ConfigVar;
  s_fun_id : ty → Z
}.

Definition Config_new : Config := mkConfig ∅ (λ _, 0).

Definition set_var (cfg : Config) (name : list Z) (v : ConfigVar) : Config :=
  mkConfig (<[name := v]> (s_data cfg)) (s_fun_id cfg).

(** [addListener(cb)] of a variable. *)
Definition addListener (cfg : Config) (name : list Z) (cb : listener) : outcome (Z * Config) :=
  v ← deref (s_data cfg !! name);
  let key := u64 (s_fun_id cfg (m_type v) + 1) in
  let v' := set_cbs v (map_set id Z.ltb (m_cbs v) key cb) in
  mret (key, mkConfig (<[name := v']> (s_data cfg))
               (λ t, if decide (t = m_type v) then key else s_fun_id cfg t)).

(** [Lookup<T>(name, default_value, description)]. *)
Definition Lookup_create (cfg : Config) (t : ty) (name : list Z) (default_value : value)
    (description : list Z) : outcome (option (list Z) * Config) :=
  match s_data cfg !! name with
  | Some v => if decide (m_type v = t) then mret (Some name, cfg) else mret (None, cfg)
  | None =>
    if valid_name name
    then mret (Some name, set_var cfg name (ConfigVar_new t name default_value description))
    else Throw (invalid_argument "name")
  end.

(** [Lookup<T>(name)]. *)
Definition Lookup (cfg : Config) (t : ty) (name : list Z) : option ConfigVar :=
  match s_data cfg !! name with
  | None => None
  | Some v => if decide (m_type v = t) then Some v else None
  end.

Definition LookupBase (cfg : Config) (name : list Z) : option ConfigVar := s_data cfg !! name.

(** ** Documents *)

(** [prefix.empty() ? key : prefix + "." + key]. *)
Definition child_name (prefix key : list Z) : list Z :=
  if decide (prefix = []) then key else prefix ++ [46] ++ key.

(** [ListAllMember(prefix, node, output)]. *)
Fixpoint ListAllMember (fuel : nat) (prefix : list Z) (node : Y) (output : list (list Z * Y)) :
    outcome (list (list Z * Y)) :=
  match fuel with
  | O => Stuck
  | S fuel =>
    if negb (valid_name prefix) then mret output else
    let output := output ++ [(prefix, node)] in
    if IsMap node then
      (fix loop (es : list (Y * Y)) (output : list (list Z * Y)) :=
         match es with
         | [] => mret output
         | (k, m) :: es =>
           output ← ListAllMember fuel (child_name prefix (Scalar k)) m output;
           loop es output
         end) (yaml_entries node) output
    else mret output
  end.

(** The text a variable is set from. *)
Definition node_text (node : Y) : list Z := if IsScalar node then Scalar node else yaml_dump node.

(** One turn of the loop of [loadFromYaml]. *)
Definition load_member (s : Config * W) (p_node : list Z * Y) : Config * W :=
  let '(cfg, w) := s in
  if decide (p_node.1 = []) then s else
  let key := tolower <$> p_node.1 in
  match LookupBase cfg key with
  | None => s
  | Some v => let '(_, v, w) := fromString v (node_text p_node.2) w in (set_var cfg key v, w)
  end.

(** [loadFromYaml(root)]. *)
Definition loadFromYaml (fuel : nat) (root : Y) (s : Config * W) : outcome (Config * W) :=
  all_nodes ← ListAllMember fuel [] root [];
  mret (foldl load_member s all_nodes).

(** ** Directories *)

(** What the file system says: the modification time of a file when [lstat]
    succeeds, and its document when it can be read. *)
Context (lstat : list Z → option Z) (LoadFile : list Z → option Y).

(** The [try] block. *)
Definition load_file (fuel : nat) (file : list Z) (s : Config * W) : outcome (Config * W) :=
  match LoadFile file with
  | None => mret s
  | Some root => loadFromYaml fuel root s
  end.

(** The loop of [loadFromConfDir]; [mt] is [s_file2modifytime]. *)
Fixpoint load_files (fuel : nat) (files : list (list Z)) (force : bool) (mt : gmap (list Z) Z)
    (s : Config * W) : outcome (gmap (list Z) Z * (Config * W)) :=
  match files with
  | [] => mret (mt, s)
  | file :: files =>
    match lstat file with
    | Some st_mtime =>
      let known := default 0 (mt !! file) in
      if negb force && bool_decide (known = u64 st_mtime)
      then load_files fuel files force (<[file := known]> mt) s
      else s ← load_file fuel file s;
           load_files fuel files force (<[file := u64 st_mtime]> mt) s
    | None =>
      s ← load_file fuel file s;
      load_files fuel files force mt s
    end
  end.

End config.

Arguments ConfigVar : clear implicits.
Arguments Config : clear implicits.
