(* ===== verification/ConfigSpec.v ===== *)
(** What the configuration promises (see Config): the types and names of the
    variables, what listeners see, which value a document gives to a variable,
    and when a directory is read again. *)

From Stdlib Require Import ZArith Lia.
From stdpp Require Import base numbers gmap option strings tactics relations sorting sets list.
From S2P Require Import Prelude StdSet StdMap Text ConfigCast Config.

Local Open Scope Z_scope.

(** ** Names *)

Lemma valid_name_Forall name : valid_name name = true ↔ Forall (λ c, c ∈ CONFIG_CHARS) name.
Proof.
  unfold valid_name. destruct (find_first _ name) as [i|] eqn:E.
  - split; [done|]. intros Hf. apply find_first_Some in E as (c & Hc & Hb & _).
    apply negb_true_iff, bool_decide_eq_false in Hb. rewrite Forall_forall in Hf.
    destruct Hb. apply Hf. by eapply list_elem_of_lookup_2.
  - apply find_first_None in E. split; [|done]. intros _. eapply Forall_impl; [exact E|].
    intros c Hc%negb_false_iff. by apply bool_decide_eq_true in Hc.
Qed.

(** The characters of a name: a dot, an underscore, a digit but 9, or a lower
    case letter but j. *)
Lemma config_chars c :
  c ∈ CONFIG_CHARS ↔ c = 46 ∨ c = 95 ∨ 48 <= c <= 56 ∨ (97 <= c <= 122 ∧ c ≠ 106).
Proof.
  split.
  - intros Hc. unfold CONFIG_CHARS in Hc.
    assert (Forall (λ c, bool_decide (c = 46 ∨ c = 95 ∨ 48 <= c <= 56 ∨ (97 <= c <= 122 ∧ c ≠ 106)) = true)
      CONFIG_CHARS) as Hall by (apply (bool_decide_unpack _); vm_compute; exact I).
    rewrite Forall_forall in Hall. by apply Hall, bool_decide_eq_true in Hc.
  - intros Hc.
    assert (∀ n, (n < 128)%nat → bool_decide (Z.of_nat n = 46 ∨ Z.of_nat n = 95 ∨ 48 <= Z.of_nat n <= 56 ∨
      (97 <= Z.of_nat n <= 122 ∧ Z.of_nat n ≠ 106)) = true → Z.of_nat n ∈ CONFIG_CHARS) as Hall.
    { intros n Hn. assert (n ∈ seq 0 128) as Hin by (apply elem_of_seq; lia).
      assert (Forall (λ n, implb (bool_decide (Z.of_nat n = 46 ∨ Z.of_nat n = 95 ∨ 48 <= Z.of_nat n <= 56 ∨
        (97 <= Z.of_nat n <= 122 ∧ Z.of_nat n ≠ 106))) (bool_decide (Z.of_nat n ∈ CONFIG_CHARS)) = true)
        (seq 0 128)) as Hf by (apply (bool_decide_unpack _); vm_compute; exact I).
      rewrite Forall_forall in Hf. specialize (Hf n Hin). simpl in Hf. intros Hb. rewrite Hb in Hf. simpl in Hf.
      by apply bool_decide_eq_true in Hf. }
    rewrite <-(Z2Nat.id c) by lia. apply Hall; [lia|]. apply bool_decide_eq_true. rewrite Z2Nat.id by lia. done.
Qed.

Lemma valid_name_lower name : valid_name name = true → tolower <$> name = name.
Proof.
  intros Hf%valid_name_Forall. induction Hf as [|c name Hc _ IH]; [done|]. rewrite fmap_cons, IH. f_equal.
  apply config_chars in Hc. unfold tolower. rewrite decide_False; [done|lia].
Qed.

(** ** Listeners *)

Section listeners.
Context {ty value : Type} `{!EqDecision ty} `{!EqDecision value}.

(** Listeners that write down what they are told. *)
Abbreviation log := (list (Z * value * value)).

Definition recorder (key : Z) : listener (value := value) (W := log) :=
  λ old new w, (w ++ [(key, old, new)], true).

Definition recorded (v : ConfigVar ty value log) : Prop := ∀ key cb, (key, cb) ∈ m_cbs v → cb = recorder key.

(** The entries of one listener. *)
Definition heard (key : Z) (w : log) : log := filter (λ e, e.1.1 = key) w.

(** The changes of a listener follow each other from [x] to [y]. *)
Fixpoint chain (x : value) (l : log) (y : value) : Prop :=
  match l with
  | [] => x = y
  | (_, old, new) :: l => old = x ∧ new ≠ old ∧ chain new l y
  end.

Lemma chain_app l1 l2 x y : chain x (l1 ++ l2) y ↔ ∃ z, chain x l1 z ∧ chain z l2 y.
Proof.
  revert x. induction l1 as [|[[k o] n] l1 IH]; intros x; simpl; [naive_solver|]. rewrite IH. naive_solver.
Qed.

Lemma notify_recorded (cbs : list (Z * listener)) old new w :
  (∀ key cb, (key, cb) ∈ cbs → cb = recorder key) →
  notify cbs old new w = (w ++ ((λ c : Z * listener, (c.1, old, new)) <$> cbs), true).
Proof.
  revert w. induction cbs as [|[key cb] cbs IH]; intros w Hr; simpl; [by rewrite app_nil_r|].
  rewrite (Hr key cb) by by left. simpl. rewrite IH by (intros; apply Hr; by right).
  by rewrite <-app_assoc.
Qed.

Lemma heard_round key (cbs : list (Z * listener (value := value) (W := log))) old new :
  NoDup cbs.*1 → key ∈ cbs.*1 →
  heard key ((λ c : Z * listener, (c.1, old, new)) <$> cbs) = [(key, old, new)].
Proof.
  unfold heard. induction cbs as [|[k cb] cbs IH]; [by intros _ ?%elem_of_nil|].
  rewrite !fmap_cons. intros [Hk Hnd]%NoDup_cons Hin. rewrite filter_cons. simpl in *. case_decide as E.
  - subst k. f_equal. apply elem_of_nil_inv. intros [[k' ?] ?] [E Hin']%list_elem_of_filter. simpl in E. subst k'.
    apply list_elem_of_fmap in Hin' as ([k2 cb2] & [= <- _ _] & Hin'). destruct Hk.
    apply list_elem_of_fmap. by exists (key, cb2).
  - apply elem_of_cons in Hin as [->|Hin]; [done|]. by apply IH.
Qed.

Definition set_all (v : ConfigVar ty value log) (w : log) (xs : list value) : ConfigVar ty value log * log :=
  foldl (λ s x, let '(v, w, _) := setValue s.1 x s.2 in (v, w)) (v, w) xs.

(** However often a variable is set, each of its listeners hears every change
    once and in order: what it hears is a chain of different values that begins
    with the value the variable had and ends with the value it has. Setting the
    value it already has tells nobody. *)
Theorem listeners_hear_changes (v : ConfigVar ty value log) (xs : list value) key :
  recorded v → map_ok id Z.ltb (m_cbs v) → key ∈ (m_cbs v).*1 →
  let '(v', w) := set_all v [] xs in
  chain (m_val v) (heard key w) (m_val v') ∧ m_val v' = default (m_val v) (last xs) ∧ m_cbs v' = m_cbs v.
Proof.
  intros Hr Hok Hin.
  assert (NoDup (m_cbs v).*1) as Hnd.
  { assert (strict_on Z.ltb (λ _, True)) as Hs.
    { split; intros; rewrite ?Z.ltb_lt, ?Z.ltb_ge in *; lia. }
    eapply (ordered_NoDup Z.ltb (λ _, True)); [done|by apply Forall_true|exact Hok]. }
  clear Hok. induction xs as [|x xs IH] using rev_ind; [done|]. unfold set_all in *.
  rewrite foldl_app. simpl. destruct (foldl _ (v, []) xs) as [v1 w1]. destruct IH as (Hc & Hv & Hcbs).
  rewrite last_snoc. simpl. unfold setValue, setValue_check. case_decide as E; [by subst x|].
  rewrite Hcbs, notify_recorded by done. simpl. split_and!; [|done|done].
  unfold heard. rewrite filter_app. fold (heard key w1). apply chain_app. exists (m_val v1). split; [done|].
  pose proof (heard_round key (m_cbs v) (m_val v1) x Hnd Hin) as Hh. unfold heard in Hh. rewrite Hh.
  simpl. by split_and!.
Qed.

(** The two parts of [setValue] of two threads, interleaved. *)
Definition set_race (v : ConfigVar ty value log) (w : log) (a b : value) : ConfigVar ty value log * log :=
  let '(sa, w, _) := setValue_check v a w in
  let '(sb, w, _) := setValue_check v b w in
  (setValue_store (setValue_store v sb) sa, w).

(** Setting a variable is not atomic: of two threads that set it to different
    new values, the one whose listeners run first may store last; then the
    variable keeps one value while its listeners were last told the other, and
    both were told the same old value. *)
Theorem setValue_race (v : ConfigVar ty value log) (a b : value) key cb :
  m_cbs v = [(key, cb)] → recorded v → a ≠ m_val v → b ≠ m_val v → a ≠ b →
  let '(v', w) := set_race v [] a b in
  m_val v' = a ∧ w = [(key, m_val v, a); (key, m_val v, b)] ∧ ¬ chain (m_val v) (heard key w) (m_val v').
Proof.
  intros Hcbs Hr Ha Hb Hab. unfold set_race, setValue_check.
  assert (cb = recorder key) as -> by (apply Hr; rewrite Hcbs; by left).
  rewrite Hcbs, decide_False by done. simpl. rewrite decide_False by done. simpl.
  split_and!; [done|done|].
  unfold heard. rewrite !filter_cons, !decide_True by done. simpl. naive_solver.
Qed.

End listeners.

(** ** Documents *)

Section documents.
Context {Y : Type} `{!Yaml Y}.

(** The members of a document: the root, and the entries of a member that is a
    map, under their dotted names, as long as the names are valid. *)
Inductive member (root : Y) : list Z → Y → Prop :=
| member_root : member root [] root
| member_entry p n k m :
    member root p n → IsMap n = true → (k, m) ∈ yaml_entries n →
    valid_name (child_name p (Scalar k)) = true → member root (child_name p (Scalar k)) m.

(** The same below a node with a prefix. *)
Inductive below : list Z → Y → list Z → Y → Prop :=
| below_here p n : valid_name p = true → below p n p n
| below_entry p n k m q r :
    valid_name p = true → IsMap n = true → (k, m) ∈ yaml_entries n →
    below (child_name p (Scalar k)) m q r → below p n q r.

Lemma member_below root p n : below [] root p n ↔ member root p n.
Proof.
  split.
  - assert (∀ q r, below q r p n → member root q r → member root p n) as H.
    { induction 1 as [|q r k m q' r' Hq Hm Hin Hb IH]; [done|]. intros Hr. apply IH.
      eapply member_entry; eauto. by inversion Hb. }
    intros Hb. apply (H _ _ Hb). constructor.
  - induction 1 as [|p n k m Hm IH Hmap Hin Hv]; [by constructor|]. clear Hm.
    induction IH as [q r Hq|q r k' m' q' r' Hq Hm' Hin' _ IH]; [|by eapply below_entry; eauto].
    eapply below_entry; eauto. by constructor.
Qed.

Context (depth : Y → nat).
Hypothesis Hdepth : ∀ n k m, IsMap n = true → (k, m) ∈ yaml_entries n → (depth m < depth n)%nat.

Lemma ListAllMember_below fuel : ∀ p n out,
  (depth n < fuel)%nat →
  ∃ l, ListAllMember fuel p n out = Ok (out ++ l) ∧ ∀ q r, (q, r) ∈ l ↔ below p n q r.
Proof.
  induction fuel as [|fuel IH]; intros p n out Hd; [lia|]. simpl.
  destruct (valid_name p) eqn:Ep; simpl.
  2: { exists []. rewrite app_nil_r. split; [done|]. intros q r. split; [by intros ?%elem_of_nil|].
       inversion 1; congruence. }
  destruct (IsMap n) eqn:Em.
  2: { exists [(p, n)]. split; [done|]. intros q r. rewrite list_elem_of_singleton. split.
       - intros [= -> ->]. by constructor.
       - inversion 1; subst; [done|congruence]. }
  assert (∀ es, (∀ e, e ∈ es → e ∈ yaml_entries n) → ∀ out,
    ∃ l, (fix loop (es : list (Y * Y)) (output : list (list Z * Y)) :=
         match es with
         | [] => mret output
         | (k, m) :: es =>
           output ← ListAllMember fuel (child_name p (Scalar k)) m output;
           loop es output
         end) es out = Ok (out ++ l) ∧
      ∀ q r, (q, r) ∈ l ↔ ∃ k m, (k, m) ∈ es ∧ below (child_name p (Scalar k)) m q r) as Hloop.
  { induction es as [|[k m] es IHes]; intros Hes out0.
    { exists []. rewrite app_nil_r. split; [done|]. intros q r.
      split; [by intros ?%elem_of_nil|by intros (? & ? & ?%elem_of_nil & _)]. }
    destruct (IH (child_name p (Scalar k)) m out0) as (l1 & -> & H1).
    { assert (depth m < depth n)%nat; [|lia]. eapply (Hdepth n k m); [done|]. apply Hes. by left. }
    osimpl. destruct (IHes (λ e He, Hes e (list_elem_of_further _ _ _ He)) (out0 ++ l1)) as (l2 & -> & H2).
    exists (l1 ++ l2). rewrite <-app_assoc. split; [done|]. intros q r.
    rewrite elem_of_app, H1, H2. setoid_rewrite elem_of_cons. naive_solver. }
  destruct (Hloop (yaml_entries n) (λ _ H, H) (out ++ [(p, n)])) as (l & -> & Hl).
  exists ((p, n) :: l). rewrite <-app_assoc. split; [done|]. intros q r. rewrite elem_of_cons, Hl. split.
  - intros [[= -> ->]|(k & m & Hin & Hb)]; [by constructor|by eapply below_entry].
  - inversion 1; subst; eauto 6.
Qed.

(** Flattening a document ends, when its nodes are nested to a finite depth,
    and gives exactly its members: nothing under an invalid name is listed, and
    everything else is, under its dotted name. Every listed name is lower case,
    so the conversion to lower case that follows changes nothing. *)
Theorem ListAllMember_members root fuel :
  (depth root < fuel)%nat →
  ∃ l, ListAllMember fuel [] root [] = Ok l ∧
    (∀ p n, (p, n) ∈ l ↔ member root p n) ∧
    (∀ p n, (p, n) ∈ l → valid_name p = true ∧ tolower <$> p = p).
Proof.
  intros Hd. destruct (ListAllMember_below fuel [] root [] Hd) as (l & Hl & Hm). simpl in Hl.
  exists l. assert (∀ p n, (p, n) ∈ l ↔ member root p n) as H.
  { intros p n. by rewrite Hm, member_below. }
  split_and!; [done|done|]. intros p n [|]%H; [done|]. split; [done|by apply valid_name_lower].
Qed.

End documents.

(** ** The registry *)

Lemma ltb_strict : strict_on Z.ltb (λ _, True).
Proof. split; intros; rewrite ?Z.ltb_lt, ?Z.ltb_ge in *; lia. Qed.

Section registry.
Context {ty value W Y : Type} `{!EqDecision ty} `{!EqDecision value} `{!Yaml Y}.
Context (cast : ty → Cast value).
Implicit Types (v : ConfigVar ty value W) (cfg : Config ty value W) (w : W).

(** *** Values from documents *)

(** The values a flattened document has for the variable [k] of type [t], in
    the order of the document. *)
Definition settings (l : list (list Z * Y)) (t : ty) (k : list Z) : list value :=
  omap (λ pn : list Z * Y, if decide (pn.1 = k) then from_str (cast t) (node_text pn.2) else None) l.

Definition never_throws v : Prop :=
  ∀ key cb old new w, (key, cb) ∈ m_cbs v → (cb old new w).2 = true.

Lemma notify_quiet (cbs : list (Z * listener (value := value) (W := W))) old new w :
  (∀ key cb w, (key, cb) ∈ cbs → (cb old new w).2 = true) → (notify cbs old new w).2 = true.
Proof.
  revert w. induction cbs as [|[key cb] cbs IH]; intros w Hq; simpl; [done|].
  pose proof (Hq key cb w ltac:(by left)) as E. destruct (cb old new w) as [w' ok]. simpl in E. subst ok.
  apply IH. intros key' cb' w2 Hin. apply (Hq key'). by right.
Qed.

Lemma set_val_id v : set_val v (m_val v) = v.
Proof. by destruct v. Qed.

Lemma fromString_quiet v s w :
  never_throws v → ∃ b w', fromString cast v s w =
    (b, set_val v (default (m_val v) (from_str (cast (m_type v)) s)), w').
Proof.
  intros Hq. unfold fromString, setValue, setValue_check.
  destruct (from_str (cast (m_type v)) s) as [x|]; simpl; [|rewrite set_val_id; eauto].
  case_decide as E; [subst x; rewrite set_val_id; simpl; eauto|].
  pose proof (notify_quiet (m_cbs v) (m_val v) x w) as Hn.
  destruct (notify (m_cbs v) (m_val v) x w) as [w' ok]. simpl in Hn. rewrite Hn; [simpl; eauto|].
  intros key cb w2. apply Hq.
Qed.

Lemma default_last_cons {A} (d x : A) l : default d (last (x :: l)) = default x (last l).
Proof. rewrite last_cons. by destruct (last l). Qed.

Lemma load_members l : ∀ cfg w,
  (∀ k v, s_data cfg !! k = Some v → never_throws v) → (∀ p n, (p, n) ∈ l → tolower <$> p = p) →
  ∃ cfg' w', foldl (load_member cast) (cfg, w) l = (cfg', w') ∧ s_fun_id cfg' = s_fun_id cfg ∧
    ∀ k, s_data cfg' !! k =
      (λ v, set_val v (if decide (k = []) then m_val v
                       else default (m_val v) (last (settings l (m_type v) k)))) <$> s_data cfg !! k.
Proof.
  induction l as [|[p n] l IH]; intros cfg w Hq Hlow.
  { exists cfg, w. split_and!; [done|done|]. intros k. simpl. destruct (s_data cfg !! k) as [v|]; [|done].
    simpl. case_decide; by rewrite set_val_id. }
  assert (∀ p n, (p, n) ∈ l → tolower <$> p = p) as Hlow' by (intros; eapply Hlow; by right).
  change (foldl (load_member cast) (cfg, w) ((p, n) :: l))
    with (foldl (load_member cast) (load_member cast (cfg, w) (p, n)) l).
  unfold load_member at 2. cbn [fst snd].
  assert (∀ k (v : ConfigVar ty value W), k ≠ p ∨ k = [] →
    (if decide (k = []) then m_val v else default (m_val v) (last (settings ((p, n) :: l) (m_type v) k))) =
    (if decide (k = []) then m_val v else default (m_val v) (last (settings l (m_type v) k)))) as Hskip.
  { intros k v Hk. case_decide; [done|]. unfold settings. simpl. rewrite decide_False; [done|]. naive_solver. }
  case_decide as Ep.
  { destruct (IH cfg w Hq Hlow') as (cfg' & w' & -> & Hf & Hd). exists cfg', w'. split_and!; [done|done|].
    intros k. rewrite Hd. destruct (s_data cfg !! k); [|done]. simpl. f_equal. rewrite Hskip; [done|].
    destruct (decide (k = [])); [by right|left; congruence]. }
  rewrite (Hlow p n) by by left. unfold LookupBase. destruct (s_data cfg !! p) as [v|] eqn:Ev.
  2: { destruct (IH cfg w Hq Hlow') as (cfg' & w' & -> & Hf & Hd). exists cfg', w'. split_and!; [done|done|].
       intros k. rewrite Hd. destruct (s_data cfg !! k) eqn:Ek; [|done]. simpl. f_equal. rewrite Hskip; [done|].
       left. congruence. }
  destruct (fromString_quiet v (node_text n) w (Hq p v Ev)) as (b & w1 & ->). simpl.
  destruct (IH (set_var cfg p (set_val v (default (m_val v) (from_str (cast (m_type v)) (node_text n))))) w1)
    as (cfg' & w' & -> & Hf & Hd); [|done|].
  { intros k v'. simpl. rewrite lookup_insert_Some. intros [[<- <-]|[_ Hk]]; [exact (Hq _ _ Ev)|by eauto]. }
  exists cfg', w'. split_and!; [done|done|]. intros k. rewrite Hd. simpl.
  destruct (decide (k = p)) as [->|Hne].
  - rewrite lookup_insert_eq, Ev. simpl. rewrite !decide_False by done. f_equal. unfold set_val. simpl. f_equal.
    unfold settings. simpl. rewrite decide_True by done.
    destruct (from_str (cast (m_type v)) (node_text n)) as [x|]; simpl; [|done].
    by rewrite default_last_cons.
  - rewrite lookup_insert_ne by done. destruct (s_data cfg !! k); [|done]. simpl. f_equal.
    rewrite Hskip by auto. done.
Qed.

Section values.
Context (depth : Y → nat).
Hypothesis Hdepth : ∀ n k m, IsMap n = true → (k, m) ∈ yaml_entries n → (depth m < depth n)%nat.

Lemma below_valid (p : list Z) (n : Y) q r : below p n q r → valid_name q = true.
Proof. by induction 1. Qed.

(** C19. Loading a document, when no listener throws, gives each variable the last
    of the values the document has under its name that can be converted to its
    type, and leaves it alone when there is none. It creates no variable, and a
    variable with the empty name is never set. *)
Theorem loadFromYaml_values cfg w root fuel :
  (depth root < fuel)%nat → (∀ k v, s_data cfg !! k = Some v → never_throws v) →
  ∃ l cfg' w', ListAllMember fuel [] root [] = Ok l ∧
    loadFromYaml cast fuel root (cfg, w) = Ok (cfg', w') ∧ s_fun_id cfg' = s_fun_id cfg ∧
    ∀ k, s_data cfg' !! k =
      (λ v, set_val v (if decide (k = []) then m_val v
                       else default (m_val v) (last (settings l (m_type v) k)))) <$> s_data cfg !! k.
Proof.
  intros Hd Hq. destruct (ListAllMember_below depth Hdepth fuel [] root [] Hd) as (l & Hl & Hm). simpl in Hl.
  destruct (load_members l cfg w Hq) as (cfg' & w' & Hf & H1 & H2).
  { intros p n Hin%Hm. by eapply valid_name_lower, below_valid. }
  exists l, cfg', w'. split_and!; [done| |done|done]. unfold loadFromYaml. rewrite Hl. osimpl. by rewrite Hf.
Qed.

End values.

(** *** Directories *)

Section directories.
Context (lstat : list Z → option Z) (LoadFile : list Z → option Y).

(** Whether a file is to be read. *)
Definition stale (force : bool) (mt : gmap (list Z) Z) (file : list Z) : bool :=
  match lstat file with
  | Some t => force || negb (bool_decide (default 0 (mt !! file) = u64 t))
  | None => true
  end.

(** Reading some files one after the other. *)
Fixpoint load_each (fuel : nat) (files : list (list Z)) (s : Config ty value W * W) :
    outcome (Config ty value W * W) :=
  match files with
  | [] => mret s
  | file :: files => s ← load_file cast LoadFile fuel file s; load_each fuel files s
  end.

(** The times that are known afterwards. *)
Definition stamp (mt : gmap (list Z) Z) (file : list Z) : gmap (list Z) Z :=
  match lstat file with Some t => <[file := u64 t]> mt | None => mt end.

Lemma stamp_ne mt f file : file ≠ f → stamp mt f !! file = mt !! file.
Proof. intros Hne. unfold stamp. case_match; [by rewrite lookup_insert_ne|done]. Qed.

Lemma filter_stamp force mt f (files : list (list Z)) :
  f ∉ files →
  filter (λ file, stale force (stamp mt f) file = true) files = filter (λ file, stale force mt file = true) files.
Proof.
  induction files as [|g files IH]; [done|]. intros [Hg Hf]%not_elem_of_cons.
  rewrite !filter_cons, IH by done. unfold stale. rewrite stamp_ne by done. done.
Qed.

Lemma load_files_stale fuel force files : ∀ mt s,
  NoDup files →
  load_files cast lstat LoadFile fuel files force mt s =
  (s' ← load_each fuel (filter (λ file, stale force mt file = true) files) s; mret (foldl stamp mt files, s')).
Proof.
  induction files as [|f files IH]; intros mt s Hnd; [done|].
  apply NoDup_cons in Hnd as [Hf Hnd]. rewrite filter_cons. simpl.
  rewrite <-(filter_stamp force mt f files Hf).
  assert (∀ mt1, stamp mt f = mt1 →
    (s0 ← load_file cast LoadFile fuel f s; load_files cast lstat LoadFile fuel files force mt1 s0) =
    (s' ← load_each fuel (f :: filter (λ file, stale force (stamp mt f) file = true) files) s;
     mret (foldl stamp (stamp mt f) files, s'))) as Hload.
  { intros mt1 ->. simpl. destruct (load_file _ _ _ f s); [|done..]. osimpl. by rewrite IH by done. }
  destruct (lstat f) as [t|] eqn:El.
  - assert (stamp mt f = <[f := u64 t]> mt) as Es by (unfold stamp; by rewrite El).
    assert (stale force mt f = negb (negb force && bool_decide (default 0 (mt !! f) = u64 t))) as ->.
    { unfold stale. rewrite El. by destruct force. }
    destruct (negb force && bool_decide _) eqn:Ek; simpl.
    + apply andb_true_iff in Ek as [_ E%bool_decide_eq_true]. rewrite IH by done. by rewrite E, Es.
    + by apply Hload.
  - rewrite decide_True by (unfold stale; by rewrite El). apply Hload. unfold stamp. by rewrite El.
Qed.

Lemma stamps_lookup files file : ∀ mt,
  foldl stamp mt files !! file =
  if decide (file ∈ files) then match lstat file with Some t => Some (u64 t) | None => mt !! file end
  else mt !! file.
Proof.
  induction files as [|f files IH]; intros mt.
  { by rewrite decide_False by apply not_elem_of_nil. }
  cbn [foldl]. rewrite IH. destruct (decide (file = f)) as [->|Hne].
  - rewrite (decide_True (P := f ∈ f :: files)) by by left. unfold stamp. destruct (lstat f); case_decide; try done.
    by rewrite lookup_insert_eq.
  - rewrite stamp_ne by done. apply decide_ext. set_solver.
Qed.

(** Reading a directory reads just the files whose modification time differs
    from the one that was seen last (0 for a new file), or all of them when it
    is forced; and reading it again, with nothing changed on disk, reads no file
    and changes nothing, whatever became of the first reading. *)
Theorem confdir_incremental fuel force files mt s :
  NoDup files → (∀ file, file ∈ files → is_Some (lstat file)) →
  load_files cast lstat LoadFile fuel files force mt s =
    (s' ← load_each fuel (filter (λ file, stale force mt file = true) files) s; mret (foldl stamp mt files, s')) ∧
  (∀ s' : Config ty value W * W,
     load_files cast lstat LoadFile fuel files false (foldl stamp mt files) s' =
     Ok (foldl stamp mt files, s')).
Proof.
  intros Hnd Hall. split; [by apply load_files_stale|]. intros s'. rewrite load_files_stale by done.
  replace (filter _ files) with (@nil (list Z)).
  - simpl. do 2 f_equal. apply map_eq. intros file. rewrite !stamps_lookup. case_decide; [|done].
    by destruct (Hall file) as [t ->].
  - symmetry. apply elem_of_nil_inv. intros file [Hs Hin]%list_elem_of_filter. unfold stale in Hs.
    destruct (Hall file Hin) as [t Et]. rewrite Et in Hs. simpl in Hs.
    rewrite stamps_lookup, decide_True, Et in Hs by done. simpl in Hs. by rewrite bool_decide_eq_true_2 in Hs.
Qed.

End directories.

(** *** Types and names *)

Context (has_type : ty → value → Prop).
Hypothesis Hcast : ∀ t s x, from_str (cast t) s = Some x → has_type t x.

(** One operation, with any listeners. *)
Inductive cstep cfg : Config ty value W → Prop :=
| c_lookup t name d desc r cfg' :
    has_type t d → Lookup_create cfg t name d desc = Ok (r, cfg') → cstep cfg cfg'
| c_set name v x w :
    s_data cfg !! name = Some v → has_type (m_type v) x → cstep cfg (set_var cfg name (setValue v x w).1.1)
| c_from name v s w :
    s_data cfg !! name = Some v → cstep cfg (set_var cfg name (fromString cast v s w).1.2)
| c_add name v cb key cfg' :
    s_data cfg !! name = Some v → s_fun_id cfg (m_type v) + 1 < 2 ^ 64 →
    addListener cfg name cb = Ok (key, cfg') → cstep cfg cfg'
| c_del name v key :
    s_data cfg !! name = Some v → cstep cfg (set_var cfg name (delListener v key))
| c_clear name v : s_data cfg !! name = Some v → cstep cfg (set_var cfg name (clearListener v))
| c_load fuel root w cfg' w' : loadFromYaml cast fuel root (cfg, w) = Ok (cfg', w') → cstep cfg cfg'.

Record var_ok (ids : ty → Z) (k : list Z) v : Prop := {
  vo_type : has_type (m_type v) (m_val v);
  vo_name : m_name v = k ∧ valid_name k = true;
  vo_cbs : map_ok id Z.ltb (m_cbs v);
  vo_ids key : key ∈ (m_cbs v).*1 → key <= ids (m_type v)
}.

Definition cfg_inv cfg : Prop :=
  (∀ t, 0 <= s_fun_id cfg t) ∧ map_Forall (var_ok (s_fun_id cfg)) (s_data cfg).

Lemma set_var_inv cfg k v : cfg_inv cfg → var_ok (s_fun_id cfg) k v → cfg_inv (set_var cfg k v).
Proof. intros [Hi Hv] Hk. split; [done|]. simpl. by apply map_Forall_insert_2. Qed.

Lemma set_val_ok ids k v x : var_ok ids k v → has_type (m_type v) x → var_ok ids k (set_val v x).
Proof. intros [] Hx. by split. Qed.

Lemma setValue_ok ids k v x w :
  var_ok ids k v → has_type (m_type v) x → var_ok ids k (setValue v x w).1.1.
Proof.
  intros Hv Hx. unfold setValue, setValue_check. case_decide; [done|].
  destruct (notify _ _ _ _) as [w' []]; simpl; [by apply set_val_ok|done].
Qed.

Lemma fromString_ok ids k v s w : var_ok ids k v → var_ok ids k (fromString cast v s w).1.2.
Proof.
  intros Hv. unfold fromString. destruct (from_str _ s) as [x|] eqn:E; [|done].
  pose proof (setValue_ok ids k v x w Hv (Hcast _ _ _ E)) as H.
  by destruct (setValue v x w) as [[v' w'] ok].
Qed.

Lemma load_members_inv (l : list (list Z * Y)) : ∀ cfg w,
  cfg_inv cfg → cfg_inv (foldl (load_member cast) (cfg, w) l).1.
Proof.
  induction l as [|[p n] l IH]; intros cfg w Hi; [done|]. simpl. case_decide; [by apply IH|].
  unfold LookupBase. destruct (s_data cfg !! (tolower <$> p)) as [v|] eqn:E; [|by apply IH].
  pose proof (fromString_ok _ _ v (node_text n) w (proj2 Hi _ _ E)) as Hv.
  destruct (fromString cast v (node_text n) w) as [[b v'] w']. by apply IH, set_var_inv.
Qed.

Lemma addListener_ok cfg name v cb :
  cfg_inv cfg → s_data cfg !! name = Some v → s_fun_id cfg (m_type v) + 1 < 2 ^ 64 →
  let key := s_fun_id cfg (m_type v) + 1 in
  let v' := set_cbs v (map_set id Z.ltb (m_cbs v) key cb) in
  ∃ cfg', addListener cfg name cb = Ok (key, cfg') ∧ s_data cfg' = <[name := v']> (s_data cfg) ∧
    cfg_inv cfg' ∧ getListener v key = None.
Proof.
  intros [Hi Hv] Ev Hid key v'. pose proof (Hi (m_type v)) as Hpos. destruct (Hv _ _ Ev) as [Ht Hn Hc Hids].
  unfold addListener. rewrite Ev. osimpl.
  rewrite (uwrap_small 64) by (unfold in_unsigned; lia). fold key. eexists. split; [done|]. simpl.
  destruct (map_set_ok id Z.ltb ltb_strict (m_cbs v) key cb Hc) as [Hc' Hin].
  split; [done|]. split; [split|].
  - intros t. simpl. case_decide; [|done]. lia.
  - simpl. apply map_Forall_insert_2.
    + split; [done|done|done|]. intros key' (kv & -> & Hkv)%list_elem_of_fmap. simpl.
      rewrite decide_True by done. apply Hin in Hkv as [[Hkv _]| ->].
      * transitivity (s_fun_id cfg (m_type v)); [|lia]. apply Hids. by apply list_elem_of_fmap_2.
      * destruct (map_lookup id Z.ltb (m_cbs v) key) as [kv|] eqn:E; simpl; [|lia].
        apply (map_lookup_iff id Z.ltb ltb_strict) in E as [_ E]; [|done]. unfold id in E. lia.
    + intros k2 v2 Hk2. destruct (Hv k2 v2 Hk2) as [? ? ? Hids2]. split; [done|done|done|].
      intros key' Hk'. specialize (Hids2 key' Hk'). case_decide as E; [rewrite E in Hids2; lia|done].
  - unfold getListener. destruct (map_find id Z.ltb (m_cbs v) key) as [cb'|] eqn:E; [|done].
    apply (map_find_iff id Z.ltb ltb_strict) in E as (k' & Hk' & E); [|done]. unfold id in E. subst k'.
    assert (key <= s_fun_id cfg (m_type v)); [|lia]. apply Hids.
    apply list_elem_of_fmap. by exists (key, cb').
Qed.

Lemma cstep_inv cfg cfg' : cfg_inv cfg → cstep cfg cfg' → cfg_inv cfg'.
Proof.
  intros Hi Hs. pose proof Hi as [Hpos Hv]. destruct Hs as [t name d desc r cfg' Hd E|name v x w Ev Hx|
    name v s w Ev|name v cb key cfg' Ev Hid E|name v key Ev|name v Ev|fuel root w cfg' w' E].
  - unfold Lookup_create in E. destruct (s_data cfg !! name); [case_decide; injection E as <- <-; done|].
    destruct (valid_name name) eqn:En; [|done]. injection E as _ <-. apply set_var_inv; [done|].
    split; [done| |apply map_ok_nil|by intros key ?%elem_of_nil]. split; [by apply valid_name_lower|done].
  - apply set_var_inv; [done|]. apply setValue_ok; [by apply Hv|done].
  - apply set_var_inv; [done|]. by apply fromString_ok, Hv.
  - destruct (addListener_ok cfg name v cb Hi Ev Hid) as (cfg2 & E' & _ & H & _).
    rewrite E in E'. by injection E' as _ <-.
  - apply set_var_inv; [done|]. destruct (Hv _ _ Ev) as [Ht Hn Hc Hids].
    destruct (map_erase_ok id Z.ltb ltb_strict (m_cbs v) key Hc) as [Hc' Hin].
    split; [done|done|done|]. intros key' (kv & -> & Hkv)%list_elem_of_fmap. apply Hids.
    apply list_elem_of_fmap_2. by apply Hin.
  - apply set_var_inv; [done|]. destruct (Hv _ _ Ev) as [Ht Hn Hc Hids].
    split; [done|done|apply map_ok_nil|by intros key ?%elem_of_nil].
  - unfold loadFromYaml in E. destruct (ListAllMember _ _ _ _) as [l| |]; [|done..]. osimpl in E.
    injection E as E. pose proof (load_members_inv l cfg w Hi) as H. by rewrite E in H.
Qed.

Lemma cfg_reachable_inv cfg : rtc cstep Config_new cfg → cfg_inv cfg.
Proof.
  intros Hr. apply (rtc_ind_r cfg_inv (R := cstep) Config_new) in Hr; [done| |].
  - split; [done|apply map_Forall_empty].
  - intros y z _ Hs Hi. by eapply cstep_inv.
Qed.

(** C18. Whatever is looked up, set, parsed, loaded and listened to: a variable
    found as one of type [T] holds a value of type [T], is stored under its own
    name, and that name is valid; and adding a listener takes a key no other
    listener of the variable has, so it replaces none and can be found, until
    the 64-bit counter is exhausted. *)
Theorem config_typed cfg t k v :
  rtc cstep Config_new cfg → Lookup cfg t k = Some v →
  m_type v = t ∧ has_type t (m_val v) ∧ m_name v = k ∧ valid_name k = true ∧
  ∀ cb, s_fun_id cfg t + 1 < 2 ^ 64 →
    ∃ key cfg' v', addListener cfg k cb = Ok (key, cfg') ∧ Lookup cfg' t k = Some v' ∧
      getListener v key = None ∧ getListener v' key = Some cb ∧
      ∀ key', key' ≠ key → getListener v' key' = getListener v key'.
Proof.
  intros Hi%cfg_reachable_inv Hl. unfold Lookup in *. destruct (s_data cfg !! k) as [v0|] eqn:Ev; [|done].
  case_decide as Ht; [|done]. injection Hl as ->. destruct (proj2 Hi _ _ Ev) as [Hty [Hn Hk] Hc _].
  subst t. split_and!; try done. intros cb Hid.
  destruct (addListener_ok cfg k v cb Hi Ev Hid) as (cfg' & Ha & Hd & _ & Hno).
  eexists _, cfg', _. split; [exact Ha|]. rewrite Hd, lookup_insert_eq. simpl. rewrite decide_True by done.
  split_and!; [done|done| |].
  - by apply map_find_set_eq; [apply ltb_strict|..].
  - intros key' Hne. by apply map_find_set_ne; [apply ltb_strict|..].
Qed.

End registry.

(** ** A registry with two kinds of variables *)

Module TwoTypes.
Import TreeYaml.

(** Strings, and strings of digits. *)
Definition digits_only (x : list Z) : bool := bool_decide (Forall (λ c, is_digit c = true) x).

Definition cast2 (number : bool) : Cast (list Z) :=
  mkCast _ (λ s, if number && negb (digits_only s) then None else Some s) Some.

Definition typed2 (number : bool) (x : list Z) : Prop := number = true → digits_only x = true.

Lemma cast2_typed t s x : from_str (cast2 t) s = Some x → typed2 t x.
Proof. destruct t; simpl; [|done]. destruct (digits_only s) eqn:E; [|done]. by intros [= <-] _. Qed.

Fixpoint depth (t : tree) : nat :=
  match t with
  | GenLeaf _ => 0%nat
  | GenNode _ l => S (foldr (λ t n, Nat.max (depth t) n) 0%nat l)
  end.

Lemma depth_child l m : m ∈ l → (depth m ≤ foldr (λ t n, Nat.max (depth t) n) 0%nat l)%nat.
Proof. induction 1 as [|? ? ? _ IH]; simpl; lia. Qed.

Lemma pairs_snd (l : list tree) : ∀ k m, (k, m) ∈ pairs l → m ∈ l.
Proof.
  remember (length l) as n eqn:Hn. assert (length l ≤ n)%nat as Hle by lia. clear Hn. revert l Hle.
  induction n as [|n IH]; intros [|a [|b l]] Hle k m; simpl in *; try (by intros ?%elem_of_nil); try lia.
  intros [[= -> ->]|Hin]%elem_of_cons; [right; left|]. right. right. apply (IH l) with k; [lia|done].
Qed.

Lemma depth_entry (n k m : tree) : IsMap n = true → (k, m) ∈ yaml_entries n → (depth m < depth n)%nat.
Proof.
  destruct n as [|[|[|]] l]; simpl; try done. intros _ Hin%pairs_snd%depth_child. simpl. lia.
Qed.

(** The document a: { b: 5 } and a registry with the variable a.b. *)
Definition doc : tree := GenNode 1 [GenLeaf (text "a"); GenNode 1 [GenLeaf (text "b"); GenLeaf (text "5")]].

Definition registry : Config bool (list Z) (list (Z * list Z * list Z)) :=
  match Lookup_create Config_new true (text "a.b") (text "1") [] with
  | Ok (_, cfg) => cfg
  | _ => Config_new
  end.

Lemma registry_reachable : rtc (cstep (Y := tree) cast2 typed2) Config_new registry.
Proof.
  eapply rtc_l; [|apply rtc_refl].
  apply (c_lookup _ _ _ true (text "a.b") (text "1") [] (Some (text "a.b"))); [by vm_compute|done].
Qed.

Lemma ListAllMember_members_witness :
  ∃ l, ListAllMember 3 [] doc [] = Ok l ∧ ((text "a.b", GenLeaf (text "5")) ∈ l).
Proof.
  destruct (ListAllMember_members depth depth_entry doc 3) as (l & Hl & Hm & _); [vm_compute; lia|].
  exists l. split; [exact Hl|]. apply Hm.
  change (text "a.b") with (child_name (text "a") (Scalar (GenLeaf (text "b") : tree))).
  apply (member_entry doc (text "a") (GenNode 1 [GenLeaf (text "b"); GenLeaf (text "5")]) (GenLeaf (text "b")));
    [|done|left|done].
  change (text "a") with (child_name [] (Scalar (GenLeaf (text "a") : tree))).
  apply (member_entry doc [] doc (GenLeaf (text "a"))); [constructor|done|left|done].
Defined.

Lemma loadFromYaml_values_witness :
  ∃ cfg' w', loadFromYaml cast2 3 doc (registry, []) = Ok (cfg', w') ∧
    m_val <$> s_data cfg' !! text "a.b" = Some (text "5").
Proof.
  destruct (loadFromYaml_values cast2 depth depth_entry registry [] doc 3) as (l & cfg' & w' & Hl & H1 & _ & H2).
  - vm_compute. lia.
  - intros k v Hk.
    change (<[text "a.b" := ConfigVar_new true (text "a.b") (text "1") []]> (s_data Config_new) !! k = Some v) in Hk.
    apply lookup_insert_Some in Hk as [[_ <-]|[_ Hk]]; [|by destruct (lookup_empty_Some k v Hk)]. intros key cb old new w Hin. by apply elem_of_nil in Hin.
  - exists cfg', w'. split; [exact H1|]. rewrite H2. vm_compute in Hl. injection Hl as <-.
    vm_compute. reflexivity.
Defined.

Lemma config_typed_witness : m_name <$> Lookup registry true (text "a.b") = Some (text "a.b").
Proof.
  destruct (Lookup registry true (text "a.b")) as [v|] eqn:E; [|by vm_compute in E].
  destruct (config_typed (Y := tree) cast2 typed2 cast2_typed registry true (text "a.b") v registry_reachable E)
    as (_ & _ & H & _).
  simpl. f_equal. exact H.
Defined.

Lemma confdir_incremental_witness :
  load_files (Y := tree) cast2 (λ _, Some 7) (λ _, Some doc) 3 [text "x.yml"] false ∅ (registry, []) =
  (s' ← load_each cast2 (λ _, Some doc) 3 [text "x.yml"] (registry, []);
   mret (<[text "x.yml" := 7]> ∅, s')).
Proof.
  refine (proj1 (confdir_incremental (Y := tree) cast2 (λ _, Some 7) (λ _, Some doc) 3 false [text "x.yml"] ∅
    (registry, []) _ _)).
  - apply NoDup_singleton.
  - intros file _. by exists 7.
Defined.

(** A variable with one listener, and its settings. *)
Definition heard_var : ConfigVar bool (list Z) (list (Z * list Z * list Z)) :=
  mkVar (text "a") [] false [1] [(4, recorder 4)].

Lemma heard_var_recorded : recorded heard_var.
Proof. by intros key cb [= -> ->]%list_elem_of_singleton. Qed.

Lemma listeners_hear_changes_witness :
  set_all heard_var [] [[2]; [2]; [3]] =
    (set_val heard_var [3], [(4, [1], [2]); (4, [2], [3])]) ∧
  chain [1] [(4, [1], [2]); (4, [2], [3])] [3].
Proof.
  split; [reflexivity|].
  refine (proj1 (listeners_hear_changes heard_var [[2]; [2]; [3]] 4 heard_var_recorded _ _)).
  - repeat constructor.
  - left.
Defined.

Lemma setValue_race_witness :
  m_val (set_race heard_var [] [2] [3]).1 = [2] ∧
  (set_race heard_var [] [2] [3]).2 = [(4, [1], [2]); (4, [1], [3])].
Proof.
  pose proof (setValue_race heard_var [2] [3] 4 (recorder 4) eq_refl heard_var_recorded) as H.
  destruct H as (H1 & H2 & _); [discriminate|discriminate|discriminate|]. split; [exact H1|exact H2].
Defined.
End TwoTypes.
