(* ===== verification/Settings.v ===== *)
(** The settings that the program copies into static variables: the sizes of
    sylar/http/http_parser.cc and the connect timeout of sylar/hook.cc, over the
    variables of [Config]. *)

From Stdlib Require Import ZArith Lia.
From stdpp Require Import base numbers gmap option strings tactics sets list.
From S2P Require Import Prelude Text StdMap ConfigCast Config ConfigSpec.

Local Open Scope Z_scope.

(** [ConfigVar<uint64_t>] and [ConfigVar<int>]. *)
Inductive number : Type := Uint64 | Int.
#[export] Instance number_eq_dec : EqDecision number.
Proof. solve_decision. Defined.

(** The static variables. *)
Record Statics : Type := mkStatics {
  s_http_request_buffer_size : Z;
  s_http_request_max_body_size : Z;
  s_http_response_buffer_size : Z;
  s_http_response_max_body_size : Z;
  s_connect_timeout : Z
}.

(** Before the initialisers run. *)
Definition statics_zero : Statics := mkStatics 0 0 0 0 (u64 (-1)).

Inductive setting : Type := RequestBuffer | RequestMaxBody | ResponseBuffer | ResponseMaxBody | ConnectTimeout.
#[export] Instance setting_eq_dec : EqDecision setting.
Proof. solve_decision. Defined.

Definition setting_name (s : setting) : list Z :=
  match s with
  | RequestBuffer => text "http.request.buffer.size"
  | RequestMaxBody => text "http.request.max_body_size"
  | ResponseBuffer => text "http.response.buffer.size"
  | ResponseMaxBody => text "http.response.max_body_size"
  | ConnectTimeout => text "tcp.connect.timeout"
  end.

Definition setting_type (s : setting) : number := match s with ConnectTimeout => Int | _ => Uint64 end.

Definition setting_default (s : setting) : Z :=
  match s with
  | RequestBuffer | ResponseBuffer => 4 * 1024
  | RequestMaxBody | ResponseMaxBody => 64 * 1024 * 1024
  | ConnectTimeout => 5000
  end.

(** The copy of a setting; the timeout is an [int] kept as a [uint64_t]. *)
Definition get_static (s : setting) (w : Statics) : Z :=
  match s with
  | RequestBuffer => s_http_request_buffer_size w
  | RequestMaxBody => s_http_request_max_body_size w
  | ResponseBuffer => s_http_response_buffer_size w
  | ResponseMaxBody => s_http_response_max_body_size w
  | ConnectTimeout => s_connect_timeout w
  end.

Definition put_static (s : setting) (x : Z) (w : Statics) : Statics :=
  let '(mkStatics a b c d e) := w in
  match s with
  | RequestBuffer => mkStatics (u64 x) b c d e
  | RequestMaxBody => mkStatics a (u64 x) c d e
  | ResponseBuffer => mkStatics a b (u64 x) d e
  | ResponseMaxBody => mkStatics a b c (u64 x) e
  | ConnectTimeout => mkStatics a b c d (u64 x)
  end.

(** The listener of a setting. *)
Definition mirror (s : setting) : listener (value := Z) (W := Statics) := λ _ x w, (put_static s x w, true).

Section settings.
Context {Y : Type} `{!Yaml Y} (cast : number → Cast Z).

(** Looking one up, where it is declared. *)
Definition declare (cfg : Config number Z Statics) (s : setting) : outcome (Config number Z Statics) :=
  '(_, cfg) ← Lookup_create cfg (setting_type s) (setting_name s) (setting_default s) [];
  mret cfg.

(** Copying the value, and listening. *)
Definition copy_static (cfg : Config number Z Statics) (w : Statics) (s : setting) : outcome Statics :=
  v ← deref (s_data cfg !! setting_name s);
  mret (put_static s (m_val v) w).

Definition listen (cfg : Config number Z Statics) (s : setting) : outcome (Config number Z Statics) :=
  '(_, cfg) ← addListener cfg (setting_name s) (mirror s);
  mret cfg.

Fixpoint each {S : Type} (f : S → setting → outcome S) (x : S) (l : list setting) : outcome S :=
  match l with
  | [] => mret x
  | s :: l => x ← f x s; each f x l
  end.

Definition HTTP_SETTINGS : list setting := [RequestBuffer; RequestMaxBody; ResponseBuffer; ResponseMaxBody].

(** [_RequestSizeIniter] and [_HookIniter]: first the copies, then the listeners. *)
Definition initer (settings : list setting) (cfg : Config number Z Statics) (w : Statics) :
    outcome (Config number Z Statics * Statics) :=
  w ← each (copy_static cfg) w settings;
  cfg ← each listen cfg settings;
  mret (cfg, w).

(** The initialisation of the two files: their variables, then their initialiser. *)
Definition file_init (settings : list setting) (cfg : Config number Z Statics) (w : Statics) :
    outcome (Config number Z Statics * Statics) :=
  cfg ← each declare cfg settings;
  initer settings cfg w.

Definition static_init : outcome (Config number Z Statics * Statics) :=
  '(cfg, w) ← file_init HTTP_SETTINGS (Config_new (ty := number)) statics_zero;
  file_init [ConnectTimeout] cfg w.

(** ** The copies follow the variables *)

Record mirrored (cfg : Config number Z Statics) (w : Statics) : Prop := {
  mir_var s : ∃ v key, s_data cfg !! setting_name s = Some v ∧ m_type v = setting_type s ∧
    m_cbs v = [(key, mirror s)] ∧ get_static s w = u64 (m_val v);
  mir_only k v : s_data cfg !! k = Some v → ∃ s, k = setting_name s
}.

Lemma setting_name_inj s s' : setting_name s = setting_name s' → s = s'.
Proof. by destruct s, s'. Qed.

Lemma get_put_eq s x w : get_static s (put_static s x w) = u64 x.
Proof. by destruct s, w. Qed.

Lemma get_put_ne s s' x w : s ≠ s' → get_static s (put_static s' x w) = get_static s w.
Proof. by destruct s, s', w. Qed.

Lemma set_var_same (cfg : Config number Z Statics) k v : s_data cfg !! k = Some v → set_var cfg k v = cfg.
Proof. intros Hv. unfold set_var. rewrite insert_id by done. by destruct cfg. Qed.

(** Setting a variable keeps its copy right. *)
Lemma setValue_mirrored cfg w s v x :
  mirrored cfg w → s_data cfg !! setting_name s = Some v →
  let '(v', w', ok) := setValue v x w in ok = true ∧ m_val v' = x ∧ mirrored (set_var cfg (setting_name s) v') w'.
Proof.
  intros [Hvar Honly] Hv. destruct (Hvar s) as (v0 & key & Hv0 & Ht & Hcbs & Hget). rewrite Hv in Hv0. injection Hv0 as <-.
  unfold setValue, setValue_check. case_decide as Hx; simpl.
  { subst x. rewrite set_var_same by done. by split_and!. }
  rewrite Hcbs. simpl. split_and!; [done..|]. split; simpl.
  - intros s'. destruct (decide (s' = s)) as [->|Hne].
    + exists (set_val v x), key. rewrite lookup_insert_eq, get_put_eq. done.
    + destruct (Hvar s') as (v' & key' & ? & ? & ? & ?). exists v', key'.
      rewrite lookup_insert_ne by (by intros ?%setting_name_inj). by rewrite get_put_ne.
  - intros k v' Hk. destruct (decide (k = setting_name s)) as [->|]; [by exists s|].
    rewrite lookup_insert_ne in Hk by done. by apply Honly in Hk.
Qed.

Lemma load_member_mirrored s p_node : mirrored s.1 s.2 → mirrored (load_member cast s p_node).1 (load_member cast s p_node).2.
Proof.
  destruct s as [cfg w]. simpl. intros Hm. unfold load_member. case_decide; [done|]. unfold LookupBase.
  destruct (s_data cfg !! (tolower <$> p_node.1)) as [v|] eqn:Hv; [|done].
  destruct (mir_only _ _ Hm _ _ Hv) as [s Hs]. rewrite Hs in *. unfold fromString.
  destruct (from_str _ _) as [x|]; [|simpl; by rewrite set_var_same].
  pose proof (setValue_mirrored cfg w s v x Hm Hv) as Hset. destruct (setValue v x w) as [[v' w'] ok]. by destruct Hset as (_ & _ & ?).
Qed.

(** What the program does with its settings afterwards. *)
Inductive settings_step (cfg : Config number Z Statics) (w : Statics) : Config number Z Statics → Statics → Prop :=
| Loaded fuel root cfg' w' : loadFromYaml cast fuel root (cfg, w) = Ok (cfg', w') → settings_step cfg w cfg' w'
| Assigned s v x :
    s_data cfg !! setting_name s = Some v →
    settings_step cfg w (set_var cfg (setting_name s) (setValue v x w).1.1) (setValue v x w).1.2.

Inductive settings_run : Config number Z Statics → Statics → Prop :=
| Initialised cfg w : static_init = Ok (cfg, w) → settings_run cfg w
| Stepped cfg w cfg' w' : settings_run cfg w → settings_step cfg w cfg' w' → settings_run cfg' w'.

(** ** The initialisers *)

#[local] Abbreviation others l k := (∀ s, s ∈ l → k ≠ setting_name s) (only parsing).

(** How far the initialisers of a list of settings have come. *)
Definition declared (cfg : Config number Z Statics) (l : list setting) : Prop :=
  ∀ s, s ∈ l → ∃ v, s_data cfg !! setting_name s = Some v ∧ m_type v = setting_type s ∧ m_val v = setting_default s ∧ m_cbs v = [].

Definition listening (cfg : Config number Z Statics) (l : list setting) : Prop :=
  ∀ s, s ∈ l → ∃ v key, s_data cfg !! setting_name s = Some v ∧ m_type v = setting_type s ∧
    m_val v = setting_default s ∧ m_cbs v = [(key, mirror s)].

Lemma each_declare l : ∀ cfg, NoDup l → (∀ s, s ∈ l → s_data cfg !! setting_name s = None) →
  ∃ cfg', each declare cfg l = Ok cfg' ∧ declared cfg' l ∧ ∀ k, others l k → s_data cfg' !! k = s_data cfg !! k.
Proof.
  induction l as [|s l IH]; intros cfg Hnd Hnone; simpl.
  { exists cfg. split_and!; [done| |done]. by intros s ?%elem_of_nil. }
  apply NoDup_cons in Hnd as [Hs Hnd]. unfold declare at 2, Lookup_create. rewrite (Hnone s) by set_solver.
  replace (valid_name (setting_name s)) with true by (by destruct s). osimpl.
  set (cfg1 := set_var cfg _ _).
  assert (∀ k, k ≠ setting_name s → s_data cfg1 !! k = s_data cfg !! k) as Hne by (intros k Hk; by apply lookup_insert_ne).
  destruct (IH cfg1 Hnd) as (cfg' & -> & Hdecl & Hrest).
  { intros s' Hs'. rewrite Hne by (intros ->%setting_name_inj; done). apply Hnone. set_solver. }
  exists cfg'. split_and!; [done| |].
  - intros s' [->|Hs']%elem_of_cons; [|by apply Hdecl]. eexists. rewrite Hrest by (intros s' Hs' ->%setting_name_inj; done).
    split; [apply lookup_insert_eq|done].
  - intros k Hk. rewrite Hrest by set_solver. apply Hne. set_solver.
Qed.

Lemma each_copy cfg l : ∀ w, NoDup l → declared cfg l →
  ∃ w', each (copy_static cfg) w l = Ok w' ∧ (∀ s, s ∈ l → get_static s w' = u64 (setting_default s)) ∧
    ∀ s, s ∉ l → get_static s w' = get_static s w.
Proof.
  induction l as [|s l IH]; intros w Hnd Hdecl; simpl.
  { exists w. split_and!; [done| |done]. by intros s ?%elem_of_nil. }
  apply NoDup_cons in Hnd as [Hs Hnd]. destruct (Hdecl s) as (v & Hv & _ & Hval & _); [set_solver|].
  unfold copy_static at 2. rewrite Hv. osimpl. rewrite Hval.
  destruct (IH (put_static s (setting_default s) w) Hnd) as (w' & -> & Hin & Hout); [intros s' ?; apply Hdecl; set_solver|].
  exists w'. split_and!; [done| |].
  - intros s' [->|Hs']%elem_of_cons; [|by apply Hin]. rewrite Hout by done. apply get_put_eq.
  - intros s' [Hne Hs']%not_elem_of_cons. rewrite Hout by done. by apply get_put_ne.
Qed.

Lemma each_listen l : ∀ cfg, NoDup l → declared cfg l →
  ∃ cfg', each listen cfg l = Ok cfg' ∧ listening cfg' l ∧ ∀ k, others l k → s_data cfg' !! k = s_data cfg !! k.
Proof.
  induction l as [|s l IH]; intros cfg Hnd Hdecl; simpl.
  { exists cfg. split_and!; [done| |done]. by intros s ?%elem_of_nil. }
  apply NoDup_cons in Hnd as [Hs Hnd]. destruct (Hdecl s) as (v & Hv & Ht & Hval & Hcbs); [set_solver|].
  unfold listen at 2, addListener. rewrite Hv. osimpl. rewrite Hcbs. set (cfg1 := mkConfig _ _).
  assert (∀ k, k ≠ setting_name s → s_data cfg1 !! k = s_data cfg !! k) as Hne by (intros k Hk; by apply lookup_insert_ne).
  destruct (IH cfg1 Hnd) as (cfg' & -> & Hlis & Hrest).
  { intros s' Hs'. rewrite Hne by (intros ->%setting_name_inj; done). apply Hdecl. set_solver. }
  exists cfg'. split_and!; [done| |].
  - intros s' [->|Hs']%elem_of_cons; [|by apply Hlis]. eexists _, _. rewrite Hrest by (intros s' Hs' ->%setting_name_inj; done).
    split; [apply lookup_insert_eq|done].
  - intros k Hk. rewrite Hrest by set_solver. apply Hne. set_solver.
Qed.

Lemma file_init_spec l cfg w : NoDup l → (∀ s, s ∈ l → s_data cfg !! setting_name s = None) →
  ∃ cfg' w', file_init l cfg w = Ok (cfg', w') ∧ listening cfg' l ∧
    (∀ k, others l k → s_data cfg' !! k = s_data cfg !! k) ∧
    (∀ s, s ∈ l → get_static s w' = u64 (setting_default s)) ∧ ∀ s, s ∉ l → get_static s w' = get_static s w.
Proof.
  intros Hnd Hnone. destruct (each_declare l cfg Hnd Hnone) as (cfg1 & E1 & Hdecl & Hrest1).
  destruct (each_copy cfg1 l w Hnd Hdecl) as (w' & E2 & Hin & Hout).
  destruct (each_listen l cfg1 Hnd Hdecl) as (cfg' & E3 & Hlis & Hrest). exists cfg', w'.
  unfold file_init, initer. rewrite E1. osimpl. rewrite E2. osimpl. rewrite E3. split_and!; try done.
  intros k Hk. by rewrite Hrest, Hrest1.
Qed.

Lemma http_settings s : s ∈ HTTP_SETTINGS ↔ s ≠ ConnectTimeout.
Proof.
  split; [by intros Hs ->; repeat (apply elem_of_cons in Hs as [?|Hs]; [done|]); apply elem_of_nil in Hs|].
  intros Hs. apply (bool_decide_unpack _). by destruct s.
Qed.

Lemma static_init_mirrored : ∃ cfg w, static_init = Ok (cfg, w) ∧ mirrored cfg w ∧
  ∀ s, get_static s w = setting_default s.
Proof.
  destruct (file_init_spec HTTP_SETTINGS Config_new statics_zero) as (cfg1 & w1 & E1 & Hl1 & Hr1 & Hi1 & Ho1).
  { apply (bool_decide_unpack _). by vm_compute. }
  { done. }
  destruct (file_init_spec [ConnectTimeout] cfg1 w1) as (cfg & w & E & Hl & Hr & Hi & Ho).
  { apply NoDup_singleton. }
  { intros s ->%list_elem_of_singleton. rewrite Hr1; [done|]. clear E1. by intros s Hs%http_settings <-%setting_name_inj. }
  exists cfg, w. unfold static_init. rewrite E1. osimpl. rewrite E. split; [done|]. clear E E1.
  assert (∀ s, get_static s w = u64 (setting_default s)) as Hget.
  { intros s. destruct (decide (s = ConnectTimeout)) as [->|]; [by apply Hi, list_elem_of_singleton|].
    rewrite Ho by (by rewrite list_elem_of_singleton). by apply Hi1, http_settings. }
  split; [split|].
  - intros s. assert (∃ v key, s_data cfg !! setting_name s = Some v ∧ m_type v = setting_type s ∧
      m_val v = setting_default s ∧ m_cbs v = [(key, mirror s)]) as (v & key & ? & ? & Hv & ?).
    { destruct (decide (s = ConnectTimeout)) as [->|]; [by apply Hl, list_elem_of_singleton|].
      rewrite Hr by (intros ? ->%list_elem_of_singleton ?%setting_name_inj; done). by apply Hl1, http_settings. }
    exists v, key. split_and!; try done. by rewrite Hv.
  - intros k v Hk. destruct (decide (Exists (λ s, k = setting_name s) (ConnectTimeout :: HTTP_SETTINGS))) as [Hex|Hno].
    + apply Exists_exists in Hex as (s & _ & ->). by exists s.
    + apply not_Exists_Forall in Hno; [|apply _]. rewrite Forall_forall in Hno.
      rewrite Hr, Hr1 in Hk; [done|intros s Hs; apply Hno; by right|].
      intros s ->%list_elem_of_singleton. apply Hno. by left.
  - intros s. rewrite Hget. by destruct s.
Qed.

Lemma settings_run_mirrored cfg w : settings_run cfg w → mirrored cfg w.
Proof.
  induction 1 as [cfg w E|cfg w cfg' w' _ Hm Hstep].
  - destruct static_init_mirrored as (cfg' & w' & E' & Hm & _). rewrite E in E'. by injection E' as <- <-.
  - destruct Hstep as [fuel root cfg' w' (nodes & _ & E)%outcome_bind_ok|s v x Hv].
    + clear -Hm E. injection E as E. change cfg' with (cfg', w').1. change w' with (cfg', w').2 at 2. rewrite <-E. clear E.
      change cfg with (cfg, w).1 in Hm. change w with (cfg, w).2 in Hm at 2. revert Hm. generalize (cfg, w). clear cfg w.
      induction nodes as [|n nodes IH]; intros s Hm; [done|]. simpl. by apply IH, load_member_mirrored.
    + pose proof (setValue_mirrored cfg w s v x Hm Hv) as Hset. destruct (setValue v x w) as [[v' w'] ok].
      by destruct Hset as (_ & _ & ?).
Qed.

(** The static variables are the settings: whatever documents are loaded and whatever
    values are assigned after the initialisers of the two files, each of the four
    sizes and the connect timeout has the value of its variable, as an unsigned number;
    the initialisers give them the defaults, and an assignment changes only the static
    variable of its setting. *)
Theorem statics_follow_settings :
  (∃ cfg w, static_init = Ok (cfg, w) ∧ ∀ s, get_static s w = setting_default s) ∧
  ∀ cfg w, settings_run cfg w →
    (∀ s, ∃ v, Lookup cfg (setting_type s) (setting_name s) = Some v ∧ get_static s w = u64 (m_val v)) ∧
    ∀ s v x v' w', s_data cfg !! setting_name s = Some v → setValue v x w = (v', w', true) →
      get_static s w' = u64 x ∧ ∀ s', s' ≠ s → get_static s' w' = get_static s' w.
Proof.
  split; [destruct static_init_mirrored as (cfg & w & E & _ & Hd); exists cfg, w; exact (conj E Hd)|].
  intros cfg w Hm%settings_run_mirrored. split.
  - intros s. destruct (mir_var _ _ Hm s) as (v & key & Hv & Ht & _ & Hget). exists v. unfold Lookup. rewrite Hv.
    by rewrite decide_True.
  - intros s v x v' w' Hv E. destruct (mir_var _ _ Hm s) as (v0 & key & Hv0 & _ & Hcbs & Hget).
    rewrite Hv in Hv0. injection Hv0 as <-. unfold setValue, setValue_check in E. rewrite Hcbs in E. case_decide as Hx; simpl in E.
    + injection E as <- <-. by subst x.
    + injection E as <- <-. split; [apply get_put_eq|intros s' Hne; by apply get_put_ne].
Qed.

End settings.
