(* ===== verification/ServerConf.v ===== *)
(** The configuration of a server ([TcpServerConf] and its [LexicalCast]s in
    sylar/tcp_server.h): reading it from a YAML text and writing it back. *)

From Stdlib Require Import ZArith Lia.
From stdpp Require Import base numbers gmap option strings tactics sorting countable sets list.
From S2P Require Import Prelude StdSet StdMap Text ConfigCast.

Local Open Scope Z_scope.

Record TcpServerConf : Type := mkConf {
  address : list (list Z);
  keepalive : Z;
  timeout : Z;
  ssl : Z;
  conf_id : list Z;
  conf_type : list Z;
  conf_name : list Z;
  cert_file : list Z;
  key_file : list Z;
  accept_worker : list Z;
  process_worker : list Z;
  args : list (list Z * list Z)
}.

#[export] Instance TcpServerConf_eq_dec : EqDecision TcpServerConf.
Proof. solve_decision. Defined.

(** The values of a new object. *)
Definition TcpServerConf_new : TcpServerConf :=
  mkConf [] 0 (1000 * 2 * 60) 0 [] (text "http") [] [] [] [] [] [].

Definition conf_isValid (c : TcpServerConf) : bool := negb (bool_decide (address c = [])).

(** [operator==] looks at all members. *)
Definition conf_eq (a b : TcpServerConf) : bool :=
  bool_decide (address a = address b) && bool_decide (keepalive a = keepalive b) &&
  bool_decide (timeout a = timeout b) && bool_decide (conf_name a = conf_name b) &&
  bool_decide (ssl a = ssl b) && bool_decide (cert_file a = cert_file b) &&
  bool_decide (key_file a = key_file b) && bool_decide (accept_worker a = accept_worker b) &&
  bool_decide (process_worker a = process_worker b) && bool_decide (args a = args b) &&
  bool_decide (conf_id a = conf_id b) && bool_decide (conf_type a = conf_type b).

(** [LexicalCast<std::string, std::string>]. *)
Definition string_cast : Cast (list Z) := mkCast (list Z) Some Some.

Section casts.
Context {Y : Type} `{!Yaml Y}.
(** How YAML reads the text of a number as an [int]. *)
Context (to_int : list Z → option Z).

(** [node[key].as<std::string>(def)] and [node[key].as<int>(def)]. *)
Definition string_or (node : Y) (key def : list Z) : list Z :=
  default def (n ← yaml_get node key; as_string n).

Definition int_or (node : Y) (key : list Z) (def : Z) : Z :=
  default def (n ← yaml_get node key; s ← as_string n; to_int s).

(** [node[key].as<std::string>()], which throws. *)
Definition string_at (node : Y) (key : list Z) : option (list Z) := n ← yaml_get node key; as_string n.

(** [LexicalCast<std::string, TcpServerConf>]. *)
Definition conf_from (v : list Z) : option TcpServerConf :=
  node ← yaml_load v;
  let c := TcpServerConf_new in
  accept ← string_at node (text "accept_worker");
  process ← string_at node (text "process_worker");
  args ← from_str (map_cast string_cast) (string_or node (text "args") []);
  addresses ← match yaml_get node (text "address") with
              | None => Some []
              | Some l => mapM as_string (yaml_items l)
              end;
  Some (mkConf addresses
          (int_or node (text "keepalive") (keepalive c))
          (int_or node (text "timeout") (timeout c))
          (int_or node (text "ssl") (ssl c))
          (string_or node (text "id") (conf_id c))
          (string_or node (text "type") (conf_type c))
          (string_or node (text "name") (conf_name c))
          (string_or node (text "cert_file") (cert_file c))
          (string_or node (text "key_file") (key_file c))
          accept process args).

(** [LexicalCast<TcpServerConf, std::string>]. *)
Definition conf_to (c : TcpServerConf) : option (list Z) :=
  s ← to_str (map_cast string_cast) (args c);
  arg_node ← yaml_load s;
  Some (yaml_dump (yaml_map (
    [(text "id", yaml_string (conf_id c)); (text "type", yaml_string (conf_type c));
     (text "name", yaml_string (conf_name c)); (text "keepalive", yaml_string (dec (keepalive c)));
     (text "timeout", yaml_string (dec (timeout c))); (text "ssl", yaml_string (dec (ssl c)));
     (text "cert_file", yaml_string (cert_file c)); (text "key_file", yaml_string (key_file c));
     (text "accept_worker", yaml_string (accept_worker c));
     (text "process_worker", yaml_string (process_worker c)); (text "args", arg_node)] ++
    (if decide (address c = []) then []
     else [(text "address", yaml_seq (yaml_string <$> address c))])))).

Context `{!YamlLaws Y}.

(** Further laws of YAML: a map is not a string, the empty text has no entries,
    and a printed [int] reads back. *)
Class ConfLaws : Prop := {
  map_no_string kvs : as_string (yaml_map kvs) = None;
  load_empty : ∃ y, yaml_load [] = Some y ∧ yaml_entries y = [];
  int_reads i : in_signed 32 i → to_int (dec i) = Some i
}.

End casts.

Lemma conf_eq_iff a b : conf_eq a b = true ↔ a = b.
Proof.
  unfold conf_eq. rewrite !andb_true_iff, !bool_decide_eq_true. split; [|by intros ->].
  intros Heq. destruct a, b. simpl in Heq. destruct_and!. by subst.
Qed.

Section roundtrip.
Context {Y : Type} `{!Yaml Y} `{!YamlLaws Y} (to_int : list Z → option Z) `{!ConfLaws (Y := Y) to_int}.

Ltac conf_fields :=
  rewrite map_get by (apply (bool_decide_unpack _); vm_compute; exact I);
  simpl list_to_map; repeat first [rewrite lookup_insert_eq | rewrite lookup_insert_ne by done]; rewrite ?lookup_empty.

Lemma strings_items (l : list (list Z)) : mapM as_string (yaml_string <$> l) = Some l.
Proof. induction l as [|s l IH]; [done|]. rewrite fmap_cons. simpl. rewrite string_as. simpl. by rewrite IH. Qed.

(** Writing the configuration of a server and reading it back keeps
    everything but its [args], which are written as a map but read as a string
    and are always lost. *)
Theorem server_conf_loses_args (c : TcpServerConf) :
  in_signed 32 (keepalive c) → in_signed 32 (timeout c) → in_signed 32 (ssl c) →
  Forall (λ kv, cast_ok string_cast kv.2) (args c) →
  ∃ s, conf_to c = Some s ∧
    conf_from to_int s =
      Some (mkConf (address c) (keepalive c) (timeout c) (ssl c) (conf_id c) (conf_type c) (conf_name c)
              (cert_file c) (key_file c) (accept_worker c) (process_worker c) []).
Proof.
  intros Hk Ht Hs Hargs. unfold conf_to. cbn [to_str map_cast]. unfold map_to.
  destruct (entry_nodes string_cast (args c) Hargs) as (ys & -> & Hbuilt & _). simpl.
  rewrite load_dump by (apply built_map; rewrite Forall_forall in Hbuilt; exact Hbuilt). simpl.
  eexists. split; [done|]. unfold conf_from. rewrite load_dump.
  2: { apply built_map. intros [k v] Hin. case_decide;
         rewrite ?elem_of_app, ?elem_of_cons, ?elem_of_nil in Hin; destruct_or?; simplify_eq; simpl;
         try apply built_string; try done.
       - apply built_map. rewrite Forall_forall in Hbuilt. exact Hbuilt.
       - apply built_map. rewrite Forall_forall in Hbuilt. exact Hbuilt.
       - apply built_seq. intros y (s & -> & _)%list_elem_of_fmap. apply built_string. }
  destruct (load_empty (Y := Y) to_int) as (e & Hload & He).
  simpl. unfold string_at, string_or, int_or. destruct (decide (address c = [])) as [Ea|Ea].
  - repeat (conf_fields; simpl; rewrite ?string_as, ?(map_no_string (Y := Y) to_int); simpl).
    rewrite Hload. simpl. unfold cast_entries. rewrite He. simpl. rewrite !(int_reads (Y := Y) to_int) by done. by rewrite Ea.
  - repeat (conf_fields; simpl; rewrite ?string_as, ?(map_no_string (Y := Y) to_int); simpl).
    rewrite Hload. simpl. unfold cast_entries. rewrite He. simpl.
    rewrite seq_items, strings_items. simpl. by rewrite !(int_reads (Y := Y) to_int) by done.
Qed.

End roundtrip.

(** ** A configuration with an argument *)

Module SampleConf.
Import TreeYaml.

(** The trees, as texts that begin with a dot, and the empty document. *)
Definition read_tree (s : list Z) : option tree :=
  match s with
  | [] => Some (GenNode 2 [])
  | c :: s => if decide (c = 46) then decode (of_bits s) else None
  end.

#[local] Instance doc_yaml : Yaml tree := {
  yaml_load := read_tree;
  yaml_dump t := 46 :: bits (encode t);
  IsMap := IsMap (Yaml := tree_yaml);
  IsScalar := IsScalar (Yaml := tree_yaml);
  Scalar := Scalar (Yaml := tree_yaml);
  yaml_size := yaml_size (Yaml := tree_yaml);
  yaml_at := yaml_at (Yaml := tree_yaml);
  yaml_entries := yaml_entries (Yaml := tree_yaml);
  yaml_get := yaml_get (Yaml := tree_yaml);
  as_string := as_string (Yaml := tree_yaml);
  yaml_seq := yaml_seq (Yaml := tree_yaml);
  yaml_map := yaml_map (Yaml := tree_yaml);
  yaml_string := yaml_string (Yaml := tree_yaml)
}.

Lemma doc_load_dump (t : tree) : read_tree (46 :: bits (encode t)) = Some t.
Proof. unfold read_tree. rewrite decide_True by done. rewrite of_bits_bits. apply decode_encode. Qed.

#[local] Instance doc_laws : YamlLaws tree (H := doc_yaml).
Proof.
  split.
  - intros y _. apply doc_load_dump.
  - apply (seq_items (Y := tree) (YamlLaws := tree_laws)).
  - apply (map_entries (Y := tree) (YamlLaws := tree_laws)).
  - apply (map_get (Y := tree) (YamlLaws := tree_laws)).
  - apply (string_as (Y := tree) (YamlLaws := tree_laws)).
Qed.

Definition read_int (s : list Z) : option Z := Some (atoi s).

#[local] Instance doc_conf_laws : ConfLaws (Y := tree) (Yaml0 := doc_yaml) read_int.
Proof.
  split; [done| |].
  - by exists (GenNode 2 []).
  - intros i _. unfold read_int. by rewrite atoi_dec.
Qed.

Definition sample : TcpServerConf :=
  mkConf [text "0.0.0.0:80"] 1 5000 0 (text "7") (text "ws") (text "chat") [] [] (text "accept") (text "io")
    [(text "limit", yaml_dump (Y := tree) (yaml_string (text "3")))].

Lemma server_conf_loses_args_witness :
  ∃ s, conf_to (Y := tree) sample = Some s ∧ option_map args (conf_from (Y := tree) read_int s) = Some [].
Proof.
  destruct (server_conf_loses_args (Y := tree) read_int sample) as (s & H1 & H2).
  - split; vm_compute; congruence.
  - split; vm_compute; congruence.
  - split; vm_compute; congruence.
  - constructor; [|constructor]. exists (yaml_dump (Y := tree) (yaml_string (text "3"))), (yaml_string (text "3")).
    split; [reflexivity|]. split; [reflexivity|]. split; [apply doc_load_dump|reflexivity].
  - exists s. split; [exact H1|]. rewrite H2. reflexivity.
Defined.
End SampleConf.
