(* ===== verification/LogFormat.v ===== *)
(** Log patterns (sylar/log.h, sylar/log.cc): levels, events, the items of a
    formatter and the parser of patterns. *)

From Stdlib Require Import ZArith Lia.
From stdpp Require Import base numbers option strings tactics sets list.
From S2P Require Import Prelude Text.

Local Open Scope Z_scope.

(** ** Levels *)

(** [LogLevel::Level]. *)
Definition UNKNOWN : Z := 0.
Definition DEBUG : Z := 1.
Definition INFO : Z := 2.
Definition WARN : Z := 3.
Definition ERROR : Z := 4.
Definition FATAL : Z := 5.

Definition level_ToString (level : Z) : list Z :=
  if decide (level = DEBUG) then text "DEBUG"
  else if decide (level = INFO) then text "INFO"
  else if decide (level = WARN) then text "WARN"
  else if decide (level = ERROR) then text "ERROR"
  else if decide (level = FATAL) then text "FATAL"
  else text "UNKNOWN".

Definition level_FromString (str : list Z) : Z :=
  if decide (str = text "debug") then DEBUG
  else if decide (str = text "info") then INFO
  else if decide (str = text "warn") then WARN
  else if decide (str = text "error") then ERROR
  else if decide (str = text "fatal") then FATAL
  else if decide (str = text "DEBUG") then DEBUG
  else if decide (str = text "INFO") then INFO
  else if decide (str = text "WARN") then WARN
  else if decide (str = text "ERROR") then ERROR
  else if decide (str = text "FATAL") then FATAL
  else UNKNOWN.

(** ** Events *)

(** [LogEvent]; [m_logger] is the name of the logger it was made for. *)
Record LogEvent : Type := mkEvent {
  m_file : list Z;
  m_line : Z;
  m_elapse : Z;
  m_threadId : Z;
  m_threadName : list Z;
  m_fiberId : Z;
  m_time : Z;
  m_content : list Z;
  m_logger : list Z;
  m_elevel : Z
}.

(** ** Items *)

(** The subclasses of [FormatterItem]. *)
Inductive FormatterItem : Type :=
| MessageItem
| LevelItem
| ElapseItem
| NameItem
| ThreadIdItem
| ThreadNameItem
| FiberIdItem
| DateTimeItem (m_formatter : list Z)
| FilenameItem
| LineItem
| NewLineItem
| TabItem
| StringItem (m_string : list Z).

#[export] Instance FormatterItem_eq_dec : EqDecision FormatterItem.
Proof. solve_decision. Defined.

Definition DATE_FORMAT : list Z := text "%Y-%m-%d %H:%M:%S".

(** The constructor of [DateTimeFormatterItem]. *)
Definition DateTimeItem_new (format : list Z) : FormatterItem :=
  DateTimeItem (if decide (format = []) then DATE_FORMAT else format).

(** An [int32_t] in decimal. *)
Definition dec_int (n : Z) : list Z := if decide (n < 0) then 45 :: dec (- n) else dec n.

(** [format] of each item; [strftime] prints a time with a format. *)
Definition item_format (strftime : list Z → Z → list Z) (item : FormatterItem) (level : Z)
    (event : LogEvent) : list Z :=
  match item with
  | MessageItem => m_content event
  | LevelItem => level_ToString level
  | ElapseItem => dec (m_elapse event)
  | NameItem => m_logger event
  | ThreadIdItem => dec (m_threadId event)
  | ThreadNameItem => m_threadName event
  | FiberIdItem => dec (m_fiberId event)
  | DateTimeItem m_formatter => strftime (c_str m_formatter) (m_time event)
  | FilenameItem => m_file event
  | LineItem => dec_int (m_line event)
  | NewLineItem => [10]
  | TabItem => [9]
  | StringItem m_string => m_string
  end.

(** ** Formatters *)

Record LogFormatter : Type := mkFormatter {
  m_pattern : list Z;
  m_items : list FormatterItem;
  m_error : bool
}.

Definition formatter_format (strftime : list Z → Z → list Z) (f : LogFormatter) (level : Z)
    (event : LogEvent) : list Z :=
  concat ((λ item, item_format strftime item level event) <$> m_items f).

(** *** The parser *)

Definition PERCENT : Z := 37.
Definition OPEN : Z := 123.
Definition CLOSE : Z := 125.

Definition isalpha (c : Z) : bool := bool_decide (65 <= c <= 90 ∨ 97 <= c <= 122).

(** [m_pattern.substr(from, n)]. *)
Definition substr (p : list Z) (from n : nat) : list Z := slice from n p.

(** The variables of the inner loop: [n], [fmt_status], [fmt_begin], [str] and
    [fmt]. *)
Record scan : Type := mkScan {
  sc_n : nat;
  sc_status : bool;
  sc_begin : nat;
  sc_str : list Z;
  sc_fmt : list Z
}.

(** [while (n < m_pattern.size())] from the percent sign at [i]; [todo] is
    [m_pattern.size() - n]. *)
Fixpoint scan_loop (p : list Z) (i todo : nat) (s : scan) : scan :=
  match todo with
  | O => s
  | S todo =>
    let n := sc_n s in
    let c := nth n p 0 in
    if negb (sc_status s) && (negb (isalpha c) && negb (c =? OPEN) && negb (c =? CLOSE)) then
      mkScan n (sc_status s) (sc_begin s) (substr p (i + 1) (n - i - 1)) (sc_fmt s)
    else if negb (sc_status s) && (c =? OPEN) then
      scan_loop p i todo (mkScan (n + 1) true n (substr p (i + 1) (n - i - 1)) (sc_fmt s))
    else if sc_status s && (c =? CLOSE) then
      mkScan (n + 1) false (sc_begin s) (sc_str s) (substr p (sc_begin s + 1) (n - sc_begin s - 1))
    else
      let n := (n + 1)%nat in
      let str := if bool_decide (n = length p) && bool_decide (sc_str s = [])
                 then drop (i + 1) p else sc_str s in
      scan_loop p i todo (mkScan n (sc_status s) (sc_begin s) str (sc_fmt s))
  end.

Definition scan_from (p : list Z) (i : nat) : scan :=
  scan_loop p i (length p - (i + 1)) (mkScan (i + 1) false 0 [] []).

(** A tuple of [vec]: text, or a directive with its format. *)
Inductive piece : Type :=
| PText (str : list Z)
| PDirective (str fmt : list Z).

(** [if (!nstr.empty()) vec.push_back(...)]. *)
Definition flush (vec : list piece) (nstr : list Z) : list piece :=
  if decide (nstr = []) then vec else vec ++ [PText nstr].

(** The outer loop of [init]. *)
Fixpoint init_loop (fuel : nat) (p : list Z) (i : nat) (vec : list piece) (nstr : list Z) (error : bool) :
    outcome (list piece * list Z * bool) :=
  match fuel with
  | O => Stuck
  | S fuel =>
    if decide (i < length p)%nat then
      let c := nth i p 0 in
      if negb (c =? PERCENT) then init_loop fuel p (i + 1) vec (nstr ++ [c]) error
      else if bool_decide (i + 1 < length p)%nat && (nth (i + 1) p 0 =? PERCENT) then
        init_loop fuel p (i + 1) vec (nstr ++ [PERCENT]) error
      else
        let s := scan_from p i in
        if negb (sc_status s) then
          init_loop fuel p (sc_n s - 1 + 1) (flush vec nstr ++ [PDirective (sc_str s) (sc_fmt s)]) [] error
        else init_loop fuel p (i + 1) (vec ++ [PText (text "<<pattern_error>>")]) nstr true
    else mret (vec, nstr, error)
  end.

(** [s_format_items.find(str)]. *)
Definition directive_item (str fmt : list Z) : option FormatterItem :=
  if decide (str = text "m") then Some MessageItem
  else if decide (str = text "p") then Some LevelItem
  else if decide (str = text "r") then Some ElapseItem
  else if decide (str = text "c") then Some NameItem
  else if decide (str = text "t") then Some ThreadIdItem
  else if decide (str = text "N") then Some ThreadNameItem
  else if decide (str = text "n") then Some NewLineItem
  else if decide (str = text "d") then Some (DateTimeItem_new fmt)
  else if decide (str = text "f") then Some FilenameItem
  else if decide (str = text "l") then Some LineItem
  else if decide (str = text "T") then Some TabItem
  else if decide (str = text "F") then Some FiberIdItem
  else None.

(** The item of a tuple, and whether it is an error. *)
Definition piece_item (t : piece) : FormatterItem * bool :=
  match t with
  | PText str => (StringItem str, false)
  | PDirective str fmt =>
    match directive_item str fmt with
    | None => (StringItem (text "<<error_format %" ++ str ++ text ">>"), true)
    | Some item => (item, false)
    end
  end.

(** [LogFormatter(pattern)]. *)
Definition LogFormatter_new (pattern : list Z) : outcome LogFormatter :=
  '(vec, nstr, error) ← init_loop (S (length pattern)) pattern 0 [] [] false;
  let items := piece_item <$> flush vec nstr in
  mret (mkFormatter pattern items.*1 (error || existsb snd items)).

(** ** The parser ends *)

Lemma scan_loop_n p i todo : ∀ s, (sc_n s ≤ sc_n (scan_loop p i todo s))%nat.
Proof.
  induction todo as [|todo IH]; intros s; simpl; [done|].
  repeat case_match; simpl; try lia; (etrans; [|apply IH]); simpl; lia.
Qed.

Lemma init_loop_total fuel p : ∀ i vec nstr error,
  (length p - i < fuel)%nat → is_ok (init_loop fuel p i vec nstr error) = true.
Proof.
  induction fuel as [|fuel IH]; intros i vec nstr error Hf; [lia|]. simpl.
  case_decide; [|done]. pose proof (scan_loop_n p i (length p - (i + 1)) (mkScan (i + 1) false 0 [] [])) as Hn.
  fold (scan_from p i) in Hn. simpl in Hn. repeat case_match; apply IH; lia.
Qed.

Lemma LogFormatter_total p : ∃ f, LogFormatter_new p = Ok f.
Proof.
  unfold LogFormatter_new. pose proof (init_loop_total (S (length p)) p 0 [] [] false ltac:(lia)) as H.
  destruct (init_loop _ _ _ _ _ _) as [[[vec nstr] e]| |]; [|done..]. osimpl. eauto.
Qed.

(** ** Patterns that are meant *)

(** A piece of a pattern: text, or a directive with an optional format. *)
Inductive segment : Type :=
| SText (s : list Z)
| SDirective (name : list Z) (fmt : option (list Z)).

Definition print_segment (g : segment) : list Z :=
  match g with
  | SText s => s
  | SDirective name None => PERCENT :: name
  | SDirective name (Some fmt) => PERCENT :: name ++ OPEN :: fmt ++ [CLOSE]
  end.

Definition print_pattern (gs : list segment) : list Z := concat (print_segment <$> gs).

Definition segment_piece (g : segment) : piece :=
  match g with
  | SText s => PText s
  | SDirective name fmt => PDirective name (default [] fmt)
  end.

(** A character that ends the name of a directive. *)
Definition ends_name (c : Z) : bool := negb (isalpha c) && negb (c =? OPEN) && negb (c =? CLOSE).

Definition is_text (g : segment) : bool := match g with SText _ => true | _ => false end.

(** Whether [g] can come before [rest]: two texts are one, and text after a
    directive without a format must end its name. *)
Definition follows (g : segment) (rest : list segment) : Prop :=
  match g, rest with
  | SText _, SText _ :: _ => False
  | SDirective _ None, SText (c :: _) :: _ => ends_name c = true
  | _, _ => True
  end.

Definition segment_ok (g : segment) : Prop :=
  match g with
  | SText s => s ≠ [] ∧ Forall (λ c, c ≠ PERCENT) s
  | SDirective name fmt =>
    name ≠ [] ∧ Forall (λ c, isalpha c = true) name ∧ Forall (λ c, c ≠ CLOSE) (default [] fmt)
  end.

Fixpoint pattern_ok (gs : list segment) : Prop :=
  match gs with
  | [] => True
  | g :: gs => segment_ok g ∧ follows g gs ∧ pattern_ok gs
  end.

Lemma nth_middle_at (pre rest : list Z) c i : i = length pre → nth i (pre ++ c :: rest) 0 = c.
Proof. intros ->. apply nth_middle. Qed.

Lemma alpha_not c : isalpha c = true → c ≠ OPEN ∧ c ≠ CLOSE ∧ c ≠ PERCENT.
Proof. unfold isalpha, OPEN, CLOSE, PERCENT. rewrite bool_decide_eq_true. lia. Qed.

(** Scanning a name. *)
Lemma scan_name p i b rest : ∀ a,
  p = take (i + 1) p ++ a ++ b ++ rest → (i < length p)%nat →
  Forall (λ c, isalpha c = true) b →
  scan_loop p i (length (b ++ rest)) (mkScan (i + 1 + length a) false 0 [] []) =
  scan_loop p i (length rest) (mkScan (i + 1 + length (a ++ b)) false 0
    (if bool_decide (b ≠ [] ∧ rest = []) then a ++ b else []) []).
Proof.
  induction b as [|c b IH]; intros a Hp Hi Hb.
  { rewrite bool_decide_eq_false_2 by naive_solver. by rewrite app_nil_r. }
  apply Forall_cons in Hb as [Hc Hb]. simpl.
  assert (nth (i + 1 + length a) p 0 = c) as Hn.
  { rewrite Hp, app_assoc. apply nth_middle_at. rewrite length_app, length_take. lia. }
  rewrite Hn, Hc. destruct (alpha_not c Hc) as (H1%Z.eqb_neq & _ & _). rewrite H1. simpl.
  assert (length p = i + 1 + length a + S (length (b ++ rest)))%nat as Hlen.
  { rewrite Hp at 1. rewrite !length_app, length_take, Hp. simpl. rewrite !length_app, length_take. simpl.
    rewrite !length_app. lia. }
  assert (bool_decide (i + 1 + length a + 1 = length p)%nat = bool_decide (b ++ rest = [])) as ->.
  { apply bool_decide_ext. rewrite Hlen, <-length_zero_iff_nil. lia. }
  rewrite andb_true_r.
  replace (a ++ c :: b) with ((a ++ [c]) ++ b) by by rewrite <-app_assoc.
  replace (i + 1 + length a + 1)%nat with (i + 1 + length (a ++ [c]))%nat by (rewrite length_app; simpl; lia).
  destruct (decide (b ++ rest = [])) as [E|E].
  - apply app_eq_nil in E as [-> ->]. rewrite !bool_decide_eq_true_2 by done. simpl. rewrite !app_nil_r.
    f_equal. rewrite Hp. rewrite app_nil_r. apply drop_app_length'. rewrite length_take. lia.
  - rewrite bool_decide_eq_false_2 by done. rewrite IH; [|by rewrite <-app_assoc|done|done].
    do 2 f_equal. destruct (decide (rest = [])) as [->|Hr].
    + rewrite !bool_decide_eq_true_2; [done|done|]. split; [|done]. by rewrite app_nil_r in E.
    + rewrite !bool_decide_eq_false_2; [done|naive_solver..].
Qed.

(** Scanning a format up to its brace. *)
Lemma scan_format p i begin str rest f : ∀ n,
  p = take n p ++ f ++ CLOSE :: rest → (n ≤ length p)%nat → str ≠ [] → Forall (λ c, c ≠ CLOSE) f →
  scan_loop p i (length (f ++ CLOSE :: rest)) (mkScan n true begin str []) =
  mkScan (n + length f + 1) false begin str (substr p (begin + 1) (n + length f - begin - 1)).
Proof.
  induction f as [|c f IH]; intros n Hp Hn Hstr Hf; simpl.
  - assert (nth n p 0 = CLOSE) as -> by (rewrite Hp; apply nth_middle_at; rewrite length_take; lia).
    rewrite Z.eqb_refl. simpl. by rewrite Nat.add_0_r.
  - apply Forall_cons in Hf as [Hc Hf].
    assert (nth n p 0 = c) as Hnth.
    { rewrite Hp. change ((c :: f) ++ CLOSE :: rest) with (c :: f ++ CLOSE :: rest).
      apply nth_middle_at. rewrite length_take. lia. }
    rewrite Hnth. apply Z.eqb_neq in Hc. rewrite Hc. simpl.
    rewrite (bool_decide_eq_false_2 (str = [])) by done. rewrite andb_false_r.
    assert (take (n + 1) p = take n p ++ [c]) as Htake.
    { rewrite Hp at 1. rewrite take_app_ge by (rewrite length_take; lia). rewrite length_take.
      f_equal. replace (n + 1 - Nat.min n (length p))%nat with 1%nat by lia. done. }
    assert (n < length p)%nat.
    { rewrite Hp, length_app, length_take. simpl. lia. }
    rewrite IH; [|by rewrite Htake, <-app_assoc|lia|done|done].
    f_equal; [lia|]. unfold substr. f_equal. lia.
Qed.

Lemma nth_lookup_middle (p pre rest : list Z) c : p = pre ++ c :: rest → nth (length pre) p 0 = c.
Proof. intros ->. by apply nth_middle_at. Qed.

(** A directive without a format. *)
Lemma scan_bare pre name rest :
  name ≠ [] → Forall (λ c, isalpha c = true) name →
  match rest with [] => True | c :: _ => ends_name c = true end →
  ∃ b, scan_from (pre ++ PERCENT :: name ++ rest) (length pre) =
    mkScan (length pre + 1 + length name) false b name [].
Proof.
  intros Hne Hname Hrest. set (p := pre ++ PERCENT :: name ++ rest).
  assert (length p = length pre + 1 + length (name ++ rest))%nat as Hlen.
  { unfold p. rewrite length_app. simpl. lia. }
  assert (take (length pre + 1) p = pre ++ [PERCENT]) as Ht.
  { unfold p. replace (pre ++ PERCENT :: name ++ rest) with ((pre ++ [PERCENT]) ++ name ++ rest)
      by by rewrite <-app_assoc. apply take_app_length'. rewrite length_app. simpl. lia. }
  unfold scan_from. rewrite Hlen.
  replace (length pre + 1 + length (name ++ rest) - (length pre + 1))%nat with (length (name ++ rest)) by lia.
  pose proof (scan_name p (length pre) name rest []) as Hs. simpl in Hs. rewrite Nat.add_0_r in Hs.
  exists 0%nat. rewrite Hs; [|rewrite Ht; unfold p; by rewrite <-app_assoc|rewrite Hlen; lia|done]. clear Hs.
  destruct rest as [|c rest]; simpl.
  - rewrite bool_decide_eq_true_2 by done. done.
  - rewrite (bool_decide_eq_false_2 (name ≠ [] ∧ c :: rest = [])) by (by intros [_ ?]).
    assert (nth (length pre + 1 + length name) p 0 = c) as Hn.
    { replace (length pre + 1 + length name)%nat with (length (pre ++ PERCENT :: name))
        by (rewrite length_app; simpl; lia).
      apply (nth_lookup_middle p (pre ++ PERCENT :: name) rest). unfold p. by rewrite <-app_assoc. }
    rewrite Hn. unfold ends_name in Hrest. rewrite Hrest. simpl. f_equal.
    unfold substr, slice. replace (length pre + 1 + length name - length pre - 1)%nat with (length name) by lia.
    unfold p. replace (pre ++ PERCENT :: name ++ c :: rest) with ((pre ++ [PERCENT]) ++ name ++ c :: rest)
      by by rewrite <-app_assoc.
    rewrite drop_app_length' by (rewrite length_app; simpl; lia). apply take_app_length.
Qed.

(** A directive with a format. *)
Lemma scan_formatted pre name fmt rest :
  name ≠ [] → Forall (λ c, isalpha c = true) name → Forall (λ c, c ≠ CLOSE) fmt →
  ∃ b, scan_from (pre ++ PERCENT :: name ++ OPEN :: fmt ++ CLOSE :: rest) (length pre) =
    mkScan (length pre + 1 + length name + 1 + length fmt + 1) false b name fmt.
Proof.
  intros Hne Hname Hfmt. set (tail := OPEN :: fmt ++ CLOSE :: rest). set (p := pre ++ PERCENT :: name ++ tail).
  assert (length p = length pre + 1 + length (name ++ tail))%nat as Hlen.
  { unfold p. rewrite length_app. simpl. lia. }
  assert (p = (pre ++ PERCENT :: name) ++ tail) as Hp1 by (unfold p; by rewrite <-app_assoc).
  assert (p = (pre ++ PERCENT :: name ++ [OPEN]) ++ fmt ++ CLOSE :: rest) as Hp2.
  { unfold p, tail. rewrite <-app_assoc. simpl. by rewrite <-app_assoc. }
  assert (p = (pre ++ [PERCENT]) ++ name ++ tail) as Hp3 by (unfold p; by rewrite <-app_assoc).
  set (n := (length pre + 1 + length name)%nat). exists n.
  unfold scan_from. rewrite Hlen.
  replace (length pre + 1 + length (name ++ tail) - (length pre + 1))%nat with (length (name ++ tail)) by lia.
  pose proof (scan_name p (length pre) name tail []) as Hs. simpl in Hs. rewrite Nat.add_0_r in Hs.
  rewrite Hs; [| |rewrite Hlen; lia|done]; clear Hs.
  2: { rewrite Hp3 at 2. rewrite take_app_length'; [done|]. rewrite length_app. simpl. lia. }
  rewrite (bool_decide_eq_false_2 (name ≠ [] ∧ tail = [])) by (by intros [_ ?]). fold n. change (length tail) with (S (length (fmt ++ CLOSE :: rest))).
  cbn [scan_loop sc_n sc_status sc_begin sc_fmt].
  assert (nth n p 0 = OPEN) as Hn.
  { rewrite Hp1. unfold tail. apply nth_middle_at. unfold n. rewrite length_app. simpl. lia. }
  rewrite Hn. cbn [negb andb]. rewrite Z.eqb_refl. simpl.
  assert (substr p (length pre + 1) (n - length pre - 1) = name) as ->.
  { unfold substr, slice, n. rewrite Hp3, drop_app_length' by (rewrite length_app; simpl; lia).
    replace (length pre + 1 + length name - length pre - 1)%nat with (length name) by lia.
    apply take_app_length. }
  rewrite (scan_format p (length pre) n name rest fmt (n + 1)); [|rewrite Hp2 at 2| |done|done].
  - f_equal. unfold substr, slice. replace (n + 1 + length fmt - n - 1)%nat with (length fmt) by lia.
    rewrite Hp2, drop_app_length'; [apply take_app_length|]. unfold n. rewrite length_app. simpl.
    rewrite length_app. simpl. lia.
  - rewrite take_app_length'; [done|]. unfold n. rewrite length_app. simpl. rewrite length_app. simpl. lia.
  - unfold n. rewrite Hlen, length_app. unfold tail. simpl. lia.
Qed.

Lemma flush_snoc vec s c : flush vec (s ++ [c]) = vec ++ [PText (s ++ [c])].
Proof. unfold flush. rewrite decide_False; [done|]. by destruct s. Qed.

(** Text is copied. *)
Lemma init_text s : ∀ fuel pre rest vec nstr error,
  Forall (λ c, c ≠ PERCENT) s →
  init_loop (length s + fuel) (pre ++ s ++ rest) (length pre) vec nstr error =
  init_loop fuel (pre ++ s ++ rest) (length (pre ++ s)) vec (nstr ++ s) error.
Proof.
  induction s as [|c s IH]; intros fuel pre rest vec nstr error Hs; simpl; [by rewrite !app_nil_r|].
  apply Forall_cons in Hs as [Hc Hs]. rewrite decide_True by (rewrite length_app; simpl; lia).
  rewrite nth_middle. apply Z.eqb_neq in Hc. rewrite Hc. simpl.
  replace (length pre + 1)%nat with (length (pre ++ [c])) by (rewrite length_app; simpl; lia).
  replace (pre ++ c :: s ++ rest) with ((pre ++ [c]) ++ s ++ rest) by by rewrite <-app_assoc.
  rewrite IH by done. rewrite <-!app_assoc. done.
Qed.

(** A directive is one turn. *)
Lemma init_directive fuel pre name rest vec nstr error n b fmt :
  name ≠ [] → Forall (λ c, isalpha c = true) name →
  scan_from (pre ++ PERCENT :: name ++ rest) (length pre) = mkScan (n + 1) false b name fmt →
  init_loop (S fuel) (pre ++ PERCENT :: name ++ rest) (length pre) vec nstr error =
  init_loop fuel (pre ++ PERCENT :: name ++ rest) (n + 1) (flush vec nstr ++ [PDirective name fmt]) [] error.
Proof.
  intros Hne Hname Hs. cbn [init_loop]. rewrite decide_True by (rewrite length_app; simpl; lia).
  rewrite nth_middle, Z.eqb_refl. cbn [negb].
  assert ((nth (length pre + 1) (pre ++ PERCENT :: name ++ rest) 0 =? PERCENT) = false) as ->.
  { destruct name as [|c name]; [done|]. apply Forall_cons in Hname as [Hc _]. apply Z.eqb_neq.
    replace (pre ++ PERCENT :: (c :: name) ++ rest) with ((pre ++ [PERCENT]) ++ c :: name ++ rest)
      by by rewrite <-app_assoc.
    rewrite nth_middle_at by (rewrite length_app; simpl; lia). by apply alpha_not. }
  rewrite andb_false_r, Hs. cbn [negb sc_status sc_n sc_str sc_fmt].
  by replace (n + 1 - 1 + 1)%nat with (n + 1)%nat by lia.
Qed.

(** Two percent signs, and one at the end. *)
Lemma init_double fuel pre rest vec nstr error :
  init_loop (S fuel) (pre ++ PERCENT :: PERCENT :: rest) (length pre) vec nstr error =
  init_loop fuel ((pre ++ [PERCENT]) ++ PERCENT :: rest) (length (pre ++ [PERCENT])) vec (nstr ++ [PERCENT]) error.
Proof.
  cbn [init_loop]. rewrite decide_True by (rewrite length_app; simpl; lia).
  rewrite nth_middle, Z.eqb_refl. cbn [negb].
  rewrite bool_decide_eq_true_2 by (rewrite length_app; simpl; lia).
  replace (pre ++ PERCENT :: PERCENT :: rest) with ((pre ++ [PERCENT]) ++ PERCENT :: rest) by by rewrite <-app_assoc.
  replace (length pre + 1)%nat with (length (pre ++ [PERCENT])) by (by rewrite length_app).
  rewrite nth_middle, Z.eqb_refl. done.
Qed.

Lemma init_last fuel pre vec nstr error :
  init_loop (S (S fuel)) (pre ++ [PERCENT]) (length pre) vec nstr error =
  Ok (flush vec nstr ++ [PDirective [] []], [], error).
Proof.
  remember (S fuel) as fuel1 eqn:Hf. cbn [init_loop].
  rewrite decide_True by (rewrite length_app; simpl; lia). rewrite nth_middle, Z.eqb_refl. cbn [negb].
  rewrite bool_decide_eq_false_2 by (rewrite length_app; simpl; lia). cbn [andb].
  unfold scan_from. rewrite length_app. cbn [length].
  replace (length pre + 1 - (length pre + 1))%nat with 0%nat by lia.
  cbn [scan_loop sc_status negb sc_n sc_str sc_fmt]. subst fuel1. cbn [init_loop].
  rewrite decide_False by (rewrite length_app; simpl; lia). done.
Qed.

Lemma rest_ends g gs :
  follows (SDirective g None) gs → pattern_ok gs →
  match print_pattern gs with [] => True | c :: _ => ends_name c = true end.
Proof.
  destruct gs as [|[[|c s]|name fmt] gs]; simpl; [done|by intros _ [[? _] _]|done|].
  intros _ _. unfold print_pattern. simpl. by destruct fmt.
Qed.

Lemma init_pattern gs : ∀ fuel pre vec nstr error,
  pattern_ok gs → (nstr = [] ∨ match gs with SText _ :: _ => False | _ => True end) →
  (length (print_pattern gs) < fuel)%nat →
  ∃ vec' nstr', init_loop fuel (pre ++ print_pattern gs) (length pre) vec nstr error = Ok (vec', nstr', error) ∧
    flush vec' nstr' = flush vec nstr ++ (segment_piece <$> gs).
Proof.
  induction gs as [|g gs IH]; intros fuel pre vec nstr error Hok Hn Hf.
  { destruct fuel as [|fuel]; [simpl in Hf; lia|]. exists vec, nstr. simpl.
    rewrite decide_False by (rewrite length_app; simpl; lia). by rewrite app_nil_r. }
  destruct Hok as (Hg & Hfo & Hok). unfold print_pattern in *. rewrite fmap_cons in *. simpl concat in *.
  fold (print_pattern gs) in *. rewrite length_app in Hf. destruct g as [s|name fmt].
  - destruct Hg as [Hs Hp]. destruct Hn as [->|[]]. simpl print_segment in *.
    replace fuel with (length s + (fuel - length s))%nat by lia. rewrite init_text by done. rewrite app_nil_l.
    rewrite app_assoc. destruct (IH (fuel - length s)%nat (pre ++ s) vec s error) as (vec' & nstr' & -> & E).
    + done.
    + right. by destruct gs as [|[]].
    + lia.
    + exists vec', nstr'. split; [done|]. rewrite E. unfold flush. rewrite (decide_True (P := [] = [])) by done.
      rewrite decide_False by done. rewrite fmap_cons. by rewrite <-app_assoc.
  - destruct Hg as (Hne & Hname & Hfmt).
    assert (∀ tail n b, print_segment (SDirective name fmt) ++ print_pattern gs = PERCENT :: name ++ tail →
      length pre + length (print_segment (SDirective name fmt)) = n + 1 →
      scan_from (pre ++ PERCENT :: name ++ tail) (length pre) = mkScan (n + 1) false b name (default [] fmt) →
      ∃ vec' nstr', init_loop fuel (pre ++ print_segment (SDirective name fmt) ++ print_pattern gs) (length pre) vec nstr error =
        Ok (vec', nstr', error) ∧ flush vec' nstr' = flush vec nstr ++ segment_piece (SDirective name fmt) :: (segment_piece <$> gs))%nat as H.
    { intros tail n b E Hlen Hs. destruct fuel as [|fuel]; [lia|]. rewrite E.
      rewrite (init_directive fuel pre name tail vec nstr error n b (default [] fmt)) by done. rewrite <-E, app_assoc, <-Hlen, <-length_app.
      destruct (IH fuel (pre ++ print_segment (SDirective name fmt)) (flush vec nstr ++ [PDirective name (default [] fmt)]) [] error)
        as (vec' & nstr' & -> & E'); [done|by left|destruct fmt; simpl in *; lia|].
      exists vec', nstr'. split; [done|]. rewrite E'. unfold flush at 1. rewrite decide_True by done. by rewrite <-app_assoc. }
    destruct fmt as [fmt|].
    + destruct (scan_formatted pre name fmt (print_pattern gs) Hne Hname Hfmt) as [b Hs].
      eapply (H (OPEN :: fmt ++ CLOSE :: print_pattern gs)
        (length pre + 1 + length name + 1 + length fmt)%nat b); [|simpl; rewrite !length_app; simpl; rewrite length_app; simpl; lia|exact Hs].
      simpl. rewrite <-app_assoc. simpl. by rewrite <-app_assoc.
    + destruct (scan_bare pre name (print_pattern gs) Hne Hname (rest_ends name gs Hfo Hok)) as [b Hs].
      eapply (H (print_pattern gs) (length pre + length name)%nat b); [done|simpl; lia|].
      rewrite Hs. f_equal. lia.
Qed.

(** C21. Every pattern is parsed to the end. A pattern written as texts and
    directives, where a text has no percent sign and does not run on from the name
    of a directive without a format, gives exactly the items of these texts and
    directives, in order, and is in error just when one of the directives is
    unknown. *)
Theorem pattern_roundtrip (p : list Z) (gs : list segment) :
  is_ok (LogFormatter_new p) = true ∧
  (pattern_ok gs →
   let items := piece_item <$> (segment_piece <$> gs) in
   LogFormatter_new (print_pattern gs) = Ok (mkFormatter (print_pattern gs) items.*1 (existsb snd items))).
Proof.
  split.
  - by destruct (LogFormatter_total p) as [f ->].
  - intros Hok items. unfold LogFormatter_new.
    destruct (init_pattern gs (S (length (print_pattern gs))) [] [] [] false Hok) as (vec & nstr & E & Hfl);
      [by left|lia|]. rewrite app_nil_l in E. change (length []) with 0%nat in E. rewrite E. osimpl. rewrite Hfl. done.
Qed.

(** The default pattern of a logger. *)
Definition DEFAULT_PATTERN : list Z :=
  text "%d{%Y-%m-%d %H:%M:%S}%T%t%T%N%T%F%T[%p]%T[%c]%T%f:%l%T%m%n".

Definition default_segments : list segment :=
  let D n := SDirective (text n) None in
  [SDirective (text "d") (Some DATE_FORMAT); D "T"; D "t"; D "T"; D "N"; D "T"; D "F"; D "T";
   SText (text "["); D "p"; SText (text "]"); D "T"; SText (text "["); D "c"; SText (text "]"); D "T"; D "f";
   SText (text ":"); D "l"; D "T"; D "m"; D "n"].

Lemma pattern_roundtrip_witness :
  LogFormatter_new DEFAULT_PATTERN =
  Ok (mkFormatter DEFAULT_PATTERN
        [DateTimeItem DATE_FORMAT; TabItem; ThreadIdItem; TabItem; ThreadNameItem; TabItem; FiberIdItem; TabItem;
         StringItem (text "["); LevelItem; StringItem (text "]"); TabItem; StringItem (text "["); NameItem;
         StringItem (text "]"); TabItem; FilenameItem; StringItem (text ":"); LineItem; TabItem; MessageItem;
         NewLineItem] false).
Proof.
  refine (proj2 (pattern_roundtrip [] default_segments) _).
  vm_compute. repeat split; try done; repeat constructor; done.
Defined.

(** The escape of a percent sign does not work: after text without one, two
    percent signs at the end of a pattern are an error, and two percent signs
    before a directive print a percent sign and then the directive itself. *)
Theorem percent_escape_broken (s : list Z) :
  Forall (λ c, c ≠ PERCENT) s →
  LogFormatter_new (s ++ [PERCENT; PERCENT]) =
    Ok (mkFormatter (s ++ [PERCENT; PERCENT])
          [StringItem (s ++ [PERCENT]); StringItem (text "<<error_format %>>")] true) ∧
  LogFormatter_new (s ++ [PERCENT; PERCENT; 109]) =
    Ok (mkFormatter (s ++ [PERCENT; PERCENT; 109]) [StringItem (s ++ [PERCENT]); MessageItem] false).
Proof.
  intros Hs. unfold LogFormatter_new. rewrite !length_app. split.
  - replace (S (length s + length [PERCENT; PERCENT])) with (length s + 3)%nat by (simpl; lia).
    pose proof (init_text s 3 [] [PERCENT; PERCENT] [] [] false Hs) as E. rewrite !app_nil_l in E.
    change (length []) with 0%nat in E. rewrite E. clear E.
    rewrite init_double, init_last. osimpl.
    by rewrite flush_snoc.
  - replace (S (length s + length [PERCENT; PERCENT; 109])) with (length s + 4)%nat by (simpl; lia).
    pose proof (init_text s 4 [] [PERCENT; PERCENT; 109] [] [] false Hs) as E. rewrite !app_nil_l in E.
    change (length []) with 0%nat in E. rewrite E. clear E.
    rewrite init_double.
    destruct (init_pattern [SDirective [109] None] 3 (s ++ [PERCENT]) [] (s ++ [PERCENT]) false)
      as (vec & nstr & E & Hfl); [by repeat split; try done; repeat constructor|by right|simpl; lia|].
    unfold print_pattern in E. simpl concat in E. rewrite E. osimpl. by rewrite Hfl, flush_snoc.
Qed.

Lemma percent_escape_broken_witness :
  LogFormatter_new (text "100%%") =
    Ok (mkFormatter (text "100%%") [StringItem (text "100%"); StringItem (text "<<error_format %>>")] true).
Proof. refine (proj1 (percent_escape_broken (text "100") _)). by repeat constructor. Defined.
