(* ===== verification/Log.v ===== *)
(** Loggers (sylar/log.h, sylar/log.cc): appenders, loggers, the manager, and
    how a change of the configuration is applied to them. *)

From Stdlib Require Import ZArith Lia.
From stdpp Require Import base numbers gmap option strings tactics relations sets list.
From S2P Require Import Prelude StdSet StdMap Text ConfigCast LogFormat.

Local Open Scope Z_scope.

(** ** Appenders *)

(** Where text goes. *)
Inductive sink : Type :=
| Stdout
| File (m_filename : list Z).

#[export] Instance sink_eq_dec : EqDecision sink.
Proof. solve_decision. Defined.

(** [StdoutLogAppender] and [FileLogAppender]; [a_lastTime] and [a_open] are the
    [m_lastTime] and the state of [m_filestream] of the latter. *)
Record LogAppender : Type := mkAppender {
  a_sink : sink;
  a_level : Z;
  a_formatter : option LogFormatter;
  a_hasFormatter : bool;
  a_lastTime : Z;
  a_open : bool
}.

Definition set_formatter (a : LogAppender) (f : option LogFormatter) (has : bool) : LogAppender :=
  mkAppender (a_sink a) (a_level a) f has (a_lastTime a) (a_open a).

Definition set_file (a : LogAppender) (lastTime : Z) (opened : bool) : LogAppender :=
  mkAppender (a_sink a) (a_level a) (a_formatter a) (a_hasFormatter a) lastTime opened.

(** [LogAppender::setFormatter]. *)
Definition appender_setFormatter (a : LogAppender) (f : option LogFormatter) : LogAppender :=
  set_formatter a f (bool_decide (is_Some f)).

Definition appender_setLevel (a : LogAppender) (level : Z) : LogAppender :=
  mkAppender (a_sink a) level (a_formatter a) (a_hasFormatter a) (a_lastTime a) (a_open a).

Section log.
(** Printing a time, and whether a file can be opened for appending. *)
Context (strftime : list Z → Z → list Z) (opens : list Z → bool).

Definition StdoutLogAppender_new : LogAppender := mkAppender Stdout DEBUG None false 0 false.

(** The constructor opens the file; [m_lastTime] has no initial value. *)
Definition FileLogAppender_new (filename : list Z) (lastTime : Z) : LogAppender :=
  mkAppender (File filename) DEBUG None false lastTime (opens filename).

(** [log] of the two appenders: the appender afterwards, and what was written. *)
Definition appender_log (a : LogAppender) (level : Z) (event : LogEvent) :
    outcome (LogAppender * list (sink * list Z)) :=
  if decide (a_level a <= level) then
    match a_sink a with
    | Stdout =>
      f ← deref (a_formatter a);
      mret (a, [(Stdout, formatter_format strftime f level event)])
    | File filename =>
      let now := m_time event in
      let a := if decide (u64 (a_lastTime a + 3) <= now) then set_file a now (opens filename) else a in
      f ← deref (a_formatter a);
      mret (a, if a_open a then [(File filename, formatter_format strftime f level event)]
               else [(Stdout, text "FileLogAppender::log error" ++ [10])])
    end
  else mret (a, []).

(** ** Loggers *)

(** [Logger]: its appenders by address, and whether [m_root] is set. *)
Record Logger : Type := mkLogger {
  l_name : list Z;
  l_level : Z;
  l_appenders : list nat;
  l_formatter : LogFormatter;
  l_root : bool
}.

Definition Logger_new (name : list Z) (has_root : bool) : outcome Logger :=
  f ← LogFormatter_new DEFAULT_PATTERN;
  mret (mkLogger name DEBUG [] f has_root).

Definition logger_setLevel (l : Logger) (level : Z) : Logger :=
  mkLogger (l_name l) level (l_appenders l) (l_formatter l) (l_root l).

Definition set_appenders (l : Logger) (appenders : list nat) : Logger :=
  mkLogger (l_name l) (l_level l) appenders (l_formatter l) (l_root l).

Definition set_logger_formatter (l : Logger) (f : LogFormatter) : Logger :=
  mkLogger (l_name l) (l_level l) (l_appenders l) f (l_root l).

Definition ROOT : list Z := text "root".

(** [LoggerManager] with the appenders that exist, the next free address and
    what has been written. *)
Record LogSystem : Type := mkSystem {
  s_apps : gmap nat LogAppender;
  s_next : nat;
  s_loggers : gmap (list Z) Logger;
  s_out : list (sink * list Z)
}.

Definition set_apps (s : LogSystem) (apps : gmap nat LogAppender) : LogSystem :=
  mkSystem apps (s_next s) (s_loggers s) (s_out s).

Definition set_logger (s : LogSystem) (name : list Z) (l : Logger) : LogSystem :=
  mkSystem (s_apps s) (s_next s) (<[name := l]> (s_loggers s)) (s_out s).

(** [new] of an appender. *)
Definition alloc (s : LogSystem) (a : LogAppender) : nat * LogSystem :=
  (s_next s, mkSystem (<[s_next s := a]> (s_apps s)) (S (s_next s)) (s_loggers s) (s_out s)).

(** [addAppender(appender)]. *)
Definition addAppender (s : LogSystem) (name : list Z) (appender : nat) : outcome LogSystem :=
  l ← deref (s_loggers s !! name);
  a ← deref (s_apps s !! appender);
  let a := match a_formatter a with
           | Some _ => a
           | None => set_formatter a (Some (l_formatter l)) (a_hasFormatter a)
           end in
  mret (set_logger (set_apps s (<[appender := a]> (s_apps s))) name
          (set_appenders l (l_appenders l ++ [appender]))).

(** [delAppender(appender)]: the first occurrence. *)
Fixpoint erase_first (x : nat) (l : list nat) : list nat :=
  match l with
  | [] => []
  | y :: l => if decide (y = x) then l else y :: erase_first x l
  end.

Definition delAppender (s : LogSystem) (name : list Z) (appender : nat) : outcome LogSystem :=
  l ← deref (s_loggers s !! name);
  mret (set_logger s name (set_appenders l (erase_first appender (l_appenders l)))).

Definition clearAppenders (s : LogSystem) (name : list Z) : outcome LogSystem :=
  l ← deref (s_loggers s !! name);
  mret (set_logger s name (set_appenders l [])).

Definition setLevel (s : LogSystem) (name : list Z) (level : Z) : outcome LogSystem :=
  l ← deref (s_loggers s !! name);
  mret (set_logger s name (logger_setLevel l level)).

(** The loop of [setFormatter] over the appenders. *)
Fixpoint inherit (apps : gmap nat LogAppender) (l : list nat) (f : LogFormatter) :
    outcome (gmap nat LogAppender) :=
  match l with
  | [] => mret apps
  | x :: l =>
    a ← deref (apps !! x);
    inherit (if a_hasFormatter a then apps else <[x := set_formatter a (Some f) false]> apps) l f
  end.

(** [setFormatter(formatter)] and [setFormatter(pattern)], which looks for an
    error in the formatter the logger already has. *)
Definition setFormatter (s : LogSystem) (name : list Z) (f : LogFormatter) : outcome LogSystem :=
  l ← deref (s_loggers s !! name);
  apps ← inherit (s_apps s) (l_appenders l) f;
  mret (set_logger (set_apps s apps) name (set_logger_formatter l f)).

Definition setFormatter_pattern (s : LogSystem) (name pattern : list Z) : outcome LogSystem :=
  f ← LogFormatter_new pattern;
  l ← deref (s_loggers s !! name);
  if m_error (l_formatter l) then mret s else setFormatter s name f.

(** The appenders of a logger, one after the other. *)
Fixpoint log_appenders (s : LogSystem) (l : list nat) (level : Z) (event : LogEvent) : outcome LogSystem :=
  match l with
  | [] => mret s
  | x :: l =>
    a ← deref (s_apps s !! x);
    '(a, out) ← appender_log a level event;
    log_appenders (mkSystem (<[x := a]> (s_apps s)) (s_next s) (s_loggers s) (s_out s ++ out)) l level event
  end.

(** [log(level, event)], which the root logger takes over for a logger without
    appenders. *)
Fixpoint log (fuel : nat) (s : LogSystem) (name : list Z) (level : Z) (event : LogEvent) : outcome LogSystem :=
  match fuel with
  | O => Stuck
  | S fuel =>
    l ← deref (s_loggers s !! name);
    if decide (l_level l <= level) then
      if decide (l_appenders l = []) then
        if l_root l then log fuel s ROOT level event else mret s
      else log_appenders s (l_appenders l) level event
    else mret s
  end.

(** [SYLAR_LOG_LEVEL(logger, level)]: the event is logged when the temporary is
    destroyed. *)
Definition log_level (s : LogSystem) (name : list Z) (level : Z) (event : LogEvent) : outcome LogSystem :=
  l ← deref (s_loggers s !! name);
  if decide (l_level l <= level) then log 2 s name level event else mret s.

(** ** The manager *)

Definition LoggerManager_new : outcome LogSystem :=
  l ← Logger_new ROOT false;
  let '(x, s) := alloc (mkSystem ∅ 0 {[ROOT := l]} []) StdoutLogAppender_new in
  addAppender s ROOT x.

(** [getLogger(name)]; a pointer to a logger is its name. *)
Definition getLogger (s : LogSystem) (name : list Z) : outcome LogSystem :=
  match s_loggers s !! name with
  | Some _ => mret s
  | None => l ← Logger_new name true; mret (set_logger s name l)
  end.

(** ** Configuration *)

Record LogAppenderDefine : Type := mkAppenderDefine {
  ad_type : Z;
  ad_level : Z;
  ad_formatter : list Z;
  ad_file : list Z
}.

Record LogDefine : Type := mkDefine {
  d_name : list Z;
  d_level : Z;
  d_formatter : list Z;
  d_appenders : list LogAppenderDefine
}.

#[export] Instance LogAppenderDefine_eq_dec : EqDecision LogAppenderDefine.
Proof. solve_decision. Defined.

(** [operator==]. *)
#[export] Instance LogDefine_eq_dec : EqDecision LogDefine.
Proof. solve_decision. Defined.

(** [find] in a [std::set<LogDefine>], which is ordered by name. *)
Definition find_define (ds : list LogDefine) (d : LogDefine) : option LogDefine :=
  fst <$> map_lookup d_name bytes_lt ((λ d, (d, tt)) <$> ds) d.

(** One appender of a definition; [lastTime] is what the memory of an appender
    held. A daemon has no standard output; any other type leaves a null
    pointer. *)
Definition add_defined (daemon : bool) (lastTime : nat → Z) (s : LogSystem) (name : list Z)
    (ad : LogAppenderDefine) : outcome LogSystem :=
  ap ← (if decide (ad_type ad = 1) then mret (Some (FileLogAppender_new (ad_file ad) (lastTime (s_next s))))
        else if decide (ad_type ad = 2) then
          mret (if daemon then None else Some StdoutLogAppender_new)
        else Stuck);
  match ap with
  | None => mret s
  | Some a =>
    let a := appender_setLevel a (ad_level ad) in
    a ← (if decide (ad_formatter ad = []) then mret a else
         f ← LogFormatter_new (ad_formatter ad);
         mret (if m_error f then a else appender_setFormatter a (Some f)));
    let '(x, s) := alloc s a in
    addAppender s name x
  end.

Fixpoint add_all_defined (daemon : bool) (lastTime : nat → Z) (s : LogSystem) (name : list Z)
    (ads : list LogAppenderDefine) : outcome LogSystem :=
  match ads with
  | [] => mret s
  | ad :: ads => s ← add_defined daemon lastTime s name ad; add_all_defined daemon lastTime s name ads
  end.

(** A new or changed definition. *)
Definition apply_define (daemon : bool) (lastTime : nat → Z) (s : LogSystem) (d : LogDefine) : outcome LogSystem :=
  s ← getLogger s (d_name d);
  s ← setLevel s (d_name d) (d_level d);
  s ← (if decide (d_formatter d = []) then mret s else setFormatter_pattern s (d_name d) (d_formatter d));
  s ← clearAppenders s (d_name d);
  add_all_defined daemon lastTime s (d_name d) (d_appenders d).

Fixpoint apply_new (daemon : bool) (lastTime : nat → Z) (s : LogSystem) (old_values new_values : list LogDefine) :
    outcome LogSystem :=
  match new_values with
  | [] => mret s
  | d :: ds =>
    s ← (if decide (find_define old_values d = Some d) then mret s else apply_define daemon lastTime s d);
    apply_new daemon lastTime s old_values ds
  end.

(** The level of a logger that is taken out of the configuration. *)
Definition DELETED : Z := 100.

Definition remove_define (s : LogSystem) (d : LogDefine) : outcome LogSystem :=
  s ← getLogger s (d_name d);
  s ← setLevel s (d_name d) DELETED;
  clearAppenders s (d_name d).

Fixpoint remove_old (s : LogSystem) (old_values new_values : list LogDefine) : outcome LogSystem :=
  match old_values with
  | [] => mret s
  | d :: ds =>
    s ← match find_define new_values d with Some _ => mret s | None => remove_define s d end;
    remove_old s ds new_values
  end.

(** The listener of the variable "logs"; [event] is the message it logs first. *)
Definition on_logs_changed (daemon : bool) (lastTime : nat → Z) (event : LogEvent)
    (old_values new_values : list LogDefine) (s : LogSystem) : outcome LogSystem :=
  s ← log_level s ROOT INFO event;
  s ← apply_new daemon lastTime s old_values new_values;
  remove_old s old_values new_values.

End log.
