(* ===== verification/LogSpec.v ===== *)
(** What logging promises (see Log): it never touches a missing appender or
    formatter, an event reaches just the appenders it should, and a change of
    the configuration is applied to the loggers it names. *)

From Stdlib Require Import ZArith Lia.
From stdpp Require Import base numbers gmap option strings tactics relations sorting sets list.
From S2P Require Import Prelude StdSet StdMap Text ConfigCast LogFormat Log.

Local Open Scope Z_scope.

Lemma level_names level : UNKNOWN <= level <= FATAL → level_FromString (level_ToString level) = level.
Proof.
  unfold UNKNOWN, FATAL. intros Hl.
  assert (level = 0 ∨ level = 1 ∨ level = 2 ∨ level = 3 ∨ level = 4 ∨ level = 5) as H by lia.
  naive_solver.
Qed.

(** ** The invariant *)

(** An appender that exists and has a formatter. *)
Definition attached (apps : gmap nat LogAppender) (x : nat) : Prop :=
  ∃ a, apps !! x = Some a ∧ is_Some (a_formatter a).

Record log_inv (s : LogSystem) : Prop := {
  li_root : ∃ r, s_loggers s !! ROOT = Some r ∧ l_root r = false;
  li_apps name l x : s_loggers s !! name = Some l → x ∈ l_appenders l → attached (s_apps s) x;
  li_next x a : s_apps s !! x = Some a → (x < s_next s)%nat
}.

(** Appenders are kept, with what [P] says of them. *)
Definition apps_keep (P : LogAppender → LogAppender → Prop) (apps apps' : gmap nat LogAppender) : Prop :=
  ∀ x a, apps !! x = Some a → ∃ a', apps' !! x = Some a' ∧ P a a'.

Definition still_formats (a a' : LogAppender) : Prop := is_Some (a_formatter a) → is_Some (a_formatter a').

Lemma attached_keep apps apps' x : apps_keep still_formats apps apps' → attached apps x → attached apps' x.
Proof. intros Hk (a & Ha & Hf). destruct (Hk x a Ha) as (a' & ? & ?). exists a'. auto. Qed.

(** Changing a logger so that its appenders are attached. *)
Lemma set_logger_inv s apps next out name l l0 :
  log_inv s → s_loggers s !! name = Some l0 ∨ s_loggers s !! name = None →
  (s_loggers s !! name = Some l0 → l_root l = l_root l0) →
  (∀ x, x ∈ l_appenders l → attached apps x) →
  apps_keep still_formats (s_apps s) apps → (∀ x a, apps !! x = Some a → (x < next)%nat) →
  log_inv (mkSystem apps next (<[name := l]> (s_loggers s)) out).
Proof.
  intros Hi H0 Hroot Hl Hk Hn. split; simpl.
  - destruct (li_root s Hi) as (r & Hr & Hr'). destruct (decide (name = ROOT)) as [->|Hne].
    + rewrite lookup_insert_eq. exists l. split; [done|]. destruct H0 as [H0|H0]; [|congruence].
      rewrite (Hroot H0). congruence.
    + rewrite lookup_insert_ne by done. eauto.
  - intros name' l' x. rewrite lookup_insert_Some. intros [[<- <-]|[_ Hl']] Hx; [by apply Hl|].
    eapply attached_keep; [done|]. by eapply li_apps.
  - done.
Qed.

Lemma keep_refl (P : LogAppender → LogAppender → Prop) apps : (∀ a, P a a) → apps_keep P apps apps.
Proof. intros HP x a Ha. eauto. Qed.

Section spec.
Context (strftime : list Z → Z → list Z) (opens : list Z → bool).

(** ** Logging *)

(** Only the file of an appender changes. *)
Definition same_but_file (a a' : LogAppender) : Prop := ∃ t o, a' = set_file a t o.

(** What an appender writes for an event. *)
Definition delivered (a : LogAppender) (level : Z) (event : LogEvent) : list (sink * list Z) :=
  if decide (a_level a <= level) then
    match a_formatter a with
    | None => []
    | Some f =>
      let line := formatter_format strftime f level event in
      match a_sink a with
      | Stdout => [(Stdout, line)]
      | File file =>
        if (if decide (u64 (a_lastTime a + 3) <= m_time event) then opens file else a_open a)
        then [(File file, line)] else [(Stdout, text "FileLogAppender::log error" ++ [10])]
      end
    end
  else [].

Lemma set_file_id a : set_file a (a_lastTime a) (a_open a) = a.
Proof. by destruct a. Qed.

Lemma appender_log_ok a level event :
  is_Some (a_formatter a) →
  ∃ t o, appender_log strftime opens a level event = Ok (set_file a t o, delivered a level event).
Proof.
  intros [f Hf]. unfold appender_log, delivered. rewrite Hf.
  case_decide; [|exists (a_lastTime a), (a_open a); by rewrite set_file_id].
  destruct (a_sink a) as [|file] eqn:Es; [exists (a_lastTime a), (a_open a); by rewrite set_file_id|].
  case_decide.
  - exists (m_time event), (opens file). simpl. rewrite Hf. osimpl. by destruct (opens file).
  - exists (a_lastTime a), (a_open a). rewrite Hf, set_file_id. osimpl. by destruct (a_open a).
Qed.

Lemma log_appenders_ok l level event : ∀ s,
  (∀ x, x ∈ l → attached (s_apps s) x) →
  ∃ apps out, log_appenders strftime opens s l level event =
      Ok (mkSystem apps (s_next s) (s_loggers s) (s_out s ++ out)) ∧
    apps_keep same_but_file (s_apps s) apps ∧ dom apps = dom (s_apps s) ∧
    (NoDup l → out = concat ((λ x, match s_apps s !! x with Some a => delivered a level event | None => [] end) <$> l)).
Proof.
  induction l as [|x l IH]; intros s Hall.
  { exists (s_apps s), []. simpl. rewrite app_nil_r. split_and!; [by destruct s| |done|done].
    apply keep_refl. intros a. exists (a_lastTime a), (a_open a). by rewrite set_file_id. }
  destruct (Hall x ltac:(by left)) as (a & Ha & Hf). simpl. rewrite Ha. osimpl.
  destruct (appender_log_ok a level event Hf) as (t & o & ->). osimpl.
  destruct (IH (mkSystem (<[x := set_file a t o]> (s_apps s)) (s_next s) (s_loggers s)
    (s_out s ++ delivered a level event))) as (apps & out & E & Hk & Hd & Hout).
  { intros y Hy. simpl. destruct (Hall y ltac:(by right)) as (b & Hb & Hfb).
    unfold attached. destruct (decide (y = x)) as [->|]; [|rewrite lookup_insert_ne by done; eauto].
    rewrite lookup_insert_eq. eexists. split; [done|]. done. }
  exists apps, (delivered a level event ++ out). rewrite E. simpl in *. split_and!.
  - by rewrite <-app_assoc.
  - intros y b Hb. destruct (decide (y = x)) as [->|Hne].
    + destruct (Hk x (set_file a t o)) as (a' & Ha' & t' & o' & ->); [by rewrite lookup_insert_eq|].
      rewrite Ha in Hb. injection Hb as <-. eexists. split; [done|]. by exists t', o'.
    + destruct (Hk y b) as (b' & Hb' & ?); [by rewrite lookup_insert_ne|]. eauto.
  - rewrite Hd, dom_insert_L. apply subseteq_union_1_L. rewrite singleton_subseteq_l.
    by apply elem_of_dom_2 in Ha.
  - intros [Hx Hnd]%NoDup_cons. rewrite (Hout Hnd). f_equal. f_equal. apply list_fmap_ext.
    intros i y Hy%list_elem_of_lookup_2. rewrite lookup_insert_ne; [done|]. intros ->. done.
Qed.

(** What a logger writes for an event. *)
Definition written (s : LogSystem) (l : Logger) (level : Z) (event : LogEvent) : list (sink * list Z) :=
  if decide (l_level l <= level) then
    concat ((λ x, match s_apps s !! x with Some a => delivered a level event | None => [] end) <$> l_appenders l)
  else [].

Lemma log_ok s name l level event :
  log_inv s → s_loggers s !! name = Some l →
  ∃ apps out, log strftime opens 2 s name level event =
      Ok (mkSystem apps (s_next s) (s_loggers s) (s_out s ++ out)) ∧
    apps_keep same_but_file (s_apps s) apps ∧ dom apps = dom (s_apps s) ∧
    ∀ r, s_loggers s !! ROOT = Some r → NoDup (l_appenders l) → NoDup (l_appenders r) →
      out = if decide (l_level l <= level ∧ l_appenders l = [] ∧ l_root l = true) then written s r level event
            else written s l level event.
Proof.
  intros Hi Hl.
  assert (∃ apps out, Ok s = Ok (mkSystem apps (s_next s) (s_loggers s) (s_out s ++ out)) ∧
    apps_keep same_but_file (s_apps s) apps ∧ dom apps = dom (s_apps s) ∧ out = []) as Hno.
  { exists (s_apps s), []. rewrite app_nil_r. split_and!; [by destruct s| |done|done].
    apply keep_refl. intros a. exists (a_lastTime a), (a_open a). by rewrite set_file_id. }
  destruct Hno as (apps0 & out0 & E0 & Hk0 & Hd0 & ->).
  cbn [log]. rewrite Hl. osimpl. unfold written. case_decide as Hlev.
  2: { exists apps0, []. split_and!; [done..|]. intros r Hr _ _. rewrite decide_False by naive_solver. done. }
  case_decide as Hnil.
  - destruct (l_root l) eqn:Hroot.
    + destruct (li_root s Hi) as (r & Hr & Hrr). rewrite Hr. osimpl.
      case_decide as Hlev'.
      2: { exists apps0, []. split_and!; [done..|]. intros r' [= <-] _ _.
           rewrite decide_True by done. by rewrite decide_False. }
      case_decide as Hnil'.
      { rewrite Hrr. exists apps0, []. split_and!; [done..|]. intros r' [= <-] _ _.
        rewrite decide_True by done. rewrite decide_True by done. by rewrite Hnil'. }
      destruct (log_appenders_ok (l_appenders r) level event s) as (apps & out & E & Hk & Hd & Ho).
      { intros x. by apply (li_apps s Hi ROOT). }
      exists apps, out. split_and!; [done..|]. intros r' [= <-] _ Hnd. rewrite decide_True by done. rewrite decide_True by done. by apply Ho.
    + exists apps0, []. split_and!; [done..|]. intros r Hr _ _.
      rewrite decide_False by naive_solver. by rewrite Hnil.
  - destruct (log_appenders_ok (l_appenders l) level event s) as (apps & out & E & Hk & Hd & Ho).
    { intros x. by apply (li_apps s Hi name). }
    exists apps, out. split_and!; [done..|]. intros r Hr Hnd _. rewrite decide_False by naive_solver. by apply Ho.
Qed.

Lemma same_keep apps apps' : apps_keep same_but_file apps apps' → apps_keep still_formats apps apps'.
Proof.
  intros Hk x a Ha. destruct (Hk x a Ha) as (a' & Ha' & t & o & ->). eexists. split; [done|]. by intros ?.
Qed.

Lemma log_inv_after s apps out :
  log_inv s → apps_keep same_but_file (s_apps s) apps → dom apps = dom (s_apps s) →
  log_inv (mkSystem apps (s_next s) (s_loggers s) out).
Proof.
  intros Hi Hk Hd. split; simpl; [apply Hi| |].
  - intros name l x Hl Hx. eapply attached_keep; [by apply same_keep|]. by eapply li_apps.
  - intros x a Ha%elem_of_dom_2. rewrite Hd in Ha. apply elem_of_dom in Ha as [a' Ha]. by eapply li_next.
Qed.

(** ** The other operations *)

Lemma default_formatter : ∃ f, LogFormatter_new DEFAULT_PATTERN = Ok f ∧ m_error f = false.
Proof.
  exists (match LogFormatter_new DEFAULT_PATTERN with Ok f => f | _ => mkFormatter [] [] true end).
  split; vm_compute; reflexivity.
Qed.

Lemma getLogger_ok s name :
  log_inv s → ∃ l s', getLogger s name = Ok s' ∧ log_inv s' ∧ s_loggers s' = <[name := l]> (s_loggers s) ∧
    s_apps s' = s_apps s ∧ s_next s' = s_next s ∧ s_out s' = s_out s ∧
    (∀ l0, s_loggers s !! name = Some l0 → l = l0) ∧ (s_loggers s !! name = None → l_appenders l = []).
Proof.
  intros Hi. unfold getLogger. destruct (s_loggers s !! name) as [l|] eqn:El.
  - exists l, s. split_and!; try done; [|by intros l0 [=]]. symmetry. by apply insert_id.
  - destruct default_formatter as (f & Hf & _). unfold Logger_new. rewrite Hf. clear Hf. osimpl.
    exists (mkLogger name DEBUG [] f true), (set_logger s name (mkLogger name DEBUG [] f true)).
    split; [reflexivity|]. split; [|split_and!; [reflexivity..|by intros l0 [=]|done]].
    apply (set_logger_inv s (s_apps s) (s_next s) (s_out s) name _ (mkLogger [] 0 [] f true)); auto.
    + by intros x ?%elem_of_nil.
    + apply keep_refl. by intros ? ?.
    + by apply li_next.
Qed.

(** Changing a logger only. *)
Lemma update_logger_inv s name l l' :
  log_inv s → s_loggers s !! name = Some l → l_root l' = l_root l →
  (∀ x, x ∈ l_appenders l' → x ∈ l_appenders l) → log_inv (set_logger s name l').
Proof.
  intros Hi Hl Hr Hx. apply (set_logger_inv s (s_apps s) (s_next s) (s_out s) name l' l); auto.
  - intros x ?%Hx. by eapply li_apps.
  - apply keep_refl. by intros ? ?.
  - by apply li_next.
Qed.

Lemma inherit_ok f l : ∀ apps,
  (∀ x, x ∈ l → is_Some (apps !! x)) →
  ∃ apps', inherit apps l f = Ok apps' ∧ dom apps' = dom apps ∧
    (∀ x, x ∉ l → apps' !! x = apps !! x) ∧
    (∀ x a, apps !! x = Some a → apps' !! x = Some a ∨
       (x ∈ l ∧ a_hasFormatter a = false ∧ apps' !! x = Some (set_formatter a (Some f) false))) ∧
    (∀ x a, x ∈ l → apps !! x = Some a → a_hasFormatter a = false →
       apps' !! x = Some (set_formatter a (Some f) false)).
Proof.
  induction l as [|y l IH]; intros apps Hall.
  { exists apps. split_and!; try done; [by auto|by intros x a ?%elem_of_nil]. }
  destruct (Hall y ltac:(by left)) as [a Ha]. simpl. rewrite Ha. osimpl.
  set (apps1 := if a_hasFormatter a then apps else <[y := set_formatter a (Some f) false]> apps).
  assert (dom apps1 = dom apps) as Hd1.
  { unfold apps1. case_match; [done|]. rewrite dom_insert_L. apply subseteq_union_1_L, singleton_subseteq_l.
    by apply elem_of_dom_2 in Ha. }
  destruct (IH apps1) as (apps' & -> & Hd & H1 & H2 & H3).
  { intros x Hx. apply elem_of_dom. rewrite Hd1. apply elem_of_dom, Hall. by right. }
  assert (∀ x, x ≠ y → apps1 !! x = apps !! x) as Hne.
  { intros x Hx. unfold apps1. case_match; [done|]. by rewrite lookup_insert_ne. }
  assert (apps1 !! y = Some a ∧ a_hasFormatter a = true ∨
    apps1 !! y = Some (set_formatter a (Some f) false) ∧ a_hasFormatter a = false) as Hy.
  { unfold apps1. destruct (a_hasFormatter a); [auto|]. rewrite lookup_insert_eq. auto. }
  exists apps'. split_and!; [done|by rewrite Hd| | |].
  - intros x [Hx Hxl]%not_elem_of_cons. by rewrite H1, Hne.
  - intros x b Hb. destruct (decide (x = y)) as [->|Hxy].
    + rewrite Ha in Hb. injection Hb as <-. destruct Hy as [[Hy Hh]|[Hy Hh]].
      * destruct (H2 y a Hy) as [?|(_ & ? & _)]; [by left|congruence].
      * right. split_and!; [by left|done|]. destruct (H2 y _ Hy) as [?|(_ & _ & ?)]; done.
    + rewrite <-Hne in Hb by done. destruct (H2 x b Hb) as [?|(? & ? & ?)]; [by left|].
      right. split_and!; [by right|done|done].
  - intros x b Hx Hb Hh. destruct (decide (x = y)) as [->|Hxy].
    + rewrite Ha in Hb. injection Hb as <-. destruct Hy as [[_ ?]|[Hy _]]; [congruence|].
      destruct (H2 y _ Hy) as [?|(_ & _ & ?)]; done.
    + apply elem_of_cons in Hx as [?|Hx]; [done|]. apply H3; [done|by rewrite Hne|done].
Qed.

Lemma setFormatter_ok s name l f :
  log_inv s → s_loggers s !! name = Some l →
  ∃ apps, setFormatter s name f = Ok (mkSystem apps (s_next s) (<[name := set_logger_formatter l f]> (s_loggers s)) (s_out s)) ∧
    log_inv (mkSystem apps (s_next s) (<[name := set_logger_formatter l f]> (s_loggers s)) (s_out s)) ∧
    (∀ x, x ∉ l_appenders l → apps !! x = s_apps s !! x) ∧
    (∀ x a, x ∈ l_appenders l → s_apps s !! x = Some a →
       apps !! x = Some (if a_hasFormatter a then a else set_formatter a (Some f) false)).
Proof.
  intros Hi Hl. unfold setFormatter. rewrite Hl. osimpl.
  destruct (inherit_ok f (l_appenders l) (s_apps s)) as (apps & -> & Hd & H1 & H2 & H3).
  { intros x Hx. destruct (li_apps s Hi name l x Hl Hx) as (a & -> & _). eauto. }
  osimpl. exists apps. split_and!; [done| |done|].
  - assert (apps_keep still_formats (s_apps s) apps) as Hk.
    { intros x a Ha. destruct (H2 x a Ha) as [?|(_ & _ & ?)]; eexists; (split; [done|]); by intros ?. }
    apply (set_logger_inv s apps (s_next s) (s_out s) name _ l); auto.
    + intros x Hx. eapply attached_keep; [done|]. by eapply (li_apps s Hi name l).
    + intros x a Ha%elem_of_dom_2. rewrite Hd in Ha. apply elem_of_dom in Ha as [a' Ha]. by eapply li_next.
  - intros x a Hx Ha. destruct (a_hasFormatter a) eqn:Eh; [|by apply H3].
    destruct (H2 x a Ha) as [?|(_ & ? & _)]; [done|congruence].
Qed.

Lemma addAppender_ok s name l x a :
  log_inv s → s_loggers s !! name = Some l → s_apps s !! x = Some a →
  let a' := match a_formatter a with Some _ => a
            | None => set_formatter a (Some (l_formatter l)) (a_hasFormatter a) end in
  let s' := mkSystem (<[x := a']> (s_apps s)) (s_next s)
    (<[name := set_appenders l (l_appenders l ++ [x])]> (s_loggers s)) (s_out s) in
  addAppender s name x = Ok s' ∧ log_inv s'.
Proof.
  intros Hi Hl Ha a' s'. split; [unfold addAppender; rewrite Hl; osimpl; by rewrite Ha|].
  assert (is_Some (a_formatter a')) as Hf by (unfold a'; destruct (a_formatter a) eqn:E; simpl; rewrite ?E; eauto).
  assert (apps_keep still_formats (s_apps s) (<[x := a']> (s_apps s))) as Hk.
  { intros y b Hb. destruct (decide (y = x)) as [->|]; [|rewrite lookup_insert_ne by done; eexists; (split; [done|]); by intros ?].
    rewrite lookup_insert_eq. exists a'. split; [done|]. by intros ?. }
  apply (set_logger_inv s _ (s_next s) (s_out s) name _ l); auto.
  - intros y [Hy|Hy%list_elem_of_singleton]%elem_of_app.
    + eapply attached_keep; [done|]. by eapply (li_apps s Hi name l).
    + subst y. exists a'. by rewrite lookup_insert_eq.
  - intros y b. rewrite lookup_insert_Some. intros [[<- _]|[_ Hb]]; by eapply li_next.
Qed.

Lemma alloc_inv s a : log_inv s → log_inv (alloc s a).2.
Proof.
  intros Hi. split; simpl; [apply Hi| |].
  - intros name l y Hl Hy. destruct (li_apps s Hi name l y Hl Hy) as (b & Hb & Hf). exists b. split; [|done].
    rewrite lookup_insert_ne; [done|]. intros <-. apply (li_next s Hi) in Hb. lia.
  - intros y b. rewrite lookup_insert_Some. intros [[<- _]|[_ Hb]]; [lia|]. apply (li_next s Hi) in Hb. lia.
Qed.

Lemma erase_first_sub x l y : y ∈ erase_first x l → y ∈ l.
Proof.
  induction l as [|z l IH]; simpl; [done|]. case_decide; [by right|]. rewrite !elem_of_cons. naive_solver.
Qed.

(** ** Applying a configuration *)

(** The appenders that a definition makes, for a daemon or not. *)
Definition effective (daemon : bool) (ads : list LogAppenderDefine) : list LogAppenderDefine :=
  filter (λ ad, ad_type ad = 1 ∨ daemon = false) ads.

Definition types_ok (ads : list LogAppenderDefine) : Prop :=
  Forall (λ ad, ad_type ad = 1 ∨ ad_type ad = 2) ads.

(** The formatter of a pattern that can be parsed. *)
Definition good_pattern (p : list Z) : option LogFormatter :=
  if decide (p = []) then None else
  match LogFormatter_new p with
  | Ok f => if m_error f then None else Some f
  | _ => None
  end.

(** The appender [a] of a logger with the formatter [f] is as [ad] says. *)
Definition as_defined (f : LogFormatter) (a : LogAppender) (ad : LogAppenderDefine) : Prop :=
  a_level a = ad_level ad ∧ a_sink a = (if decide (ad_type ad = 1) then File (ad_file ad) else Stdout) ∧
  a_formatter a = Some (default f (good_pattern (ad_formatter ad))) ∧
  a_hasFormatter a = bool_decide (is_Some (good_pattern (ad_formatter ad))).

Lemma add_defined_ok daemon lastTime s name l ad :
  log_inv s → s_loggers s !! name = Some l → ad_type ad = 1 ∨ ad_type ad = 2 →
  if decide (ad_type ad = 1 ∨ daemon = false) then
    ∃ a, as_defined (l_formatter l) a ad ∧
      let s' := mkSystem (<[s_next s := a]> (s_apps s)) (S (s_next s))
        (<[name := set_appenders l (l_appenders l ++ [s_next s])]> (s_loggers s)) (s_out s) in
      add_defined opens daemon lastTime s name ad = Ok s' ∧ log_inv s'
  else add_defined opens daemon lastTime s name ad = Ok s.
Proof.
  intros Hi Hl Hty. unfold add_defined.
  assert (∀ b, a_formatter b = None → a_hasFormatter b = false →
    a_sink b = (if decide (ad_type ad = 1) then File (ad_file ad) else Stdout) →
    ∃ a, as_defined (l_formatter l) a ad ∧
      let s' := mkSystem (<[s_next s := a]> (s_apps s)) (S (s_next s))
        (<[name := set_appenders l (l_appenders l ++ [s_next s])]> (s_loggers s)) (s_out s) in
      (a ← (if decide (ad_formatter ad = []) then mret (appender_setLevel b (ad_level ad)) else
         f ← LogFormatter_new (ad_formatter ad);
         mret (if m_error f then appender_setLevel b (ad_level ad)
               else appender_setFormatter (appender_setLevel b (ad_level ad)) (Some f)));
       let '(x, s) := alloc s a in addAppender s name x) = Ok s' ∧ log_inv s') as Hadd.
  { intros b Hb1 Hb2 Hb3.
    assert (∃ c, (if decide (ad_formatter ad = []) then mret (appender_setLevel b (ad_level ad)) else
         f ← LogFormatter_new (ad_formatter ad);
         mret (if m_error f then appender_setLevel b (ad_level ad)
               else appender_setFormatter (appender_setLevel b (ad_level ad)) (Some f))) = Ok c ∧
       a_level c = ad_level ad ∧ a_sink c = a_sink b ∧ a_formatter c = good_pattern (ad_formatter ad) ∧
       a_hasFormatter c = bool_decide (is_Some (good_pattern (ad_formatter ad)))) as (c & -> & Hc1 & Hc2 & Hc3 & Hc4).
    { unfold good_pattern.
      destruct (decide (ad_formatter ad = [])); [eexists; split_and!; [reflexivity|by simpl..]|].
      destruct (LogFormatter_total (ad_formatter ad)) as [f ->]. osimpl.
      destruct (m_error f); eexists; (split_and!; [reflexivity|by simpl..]). }
    osimpl.
    destruct (addAppender_ok (alloc s c).2 name l (s_next s) c (alloc_inv s c Hi) Hl) as [E Hi'].
    { simpl. by rewrite lookup_insert_eq. }
    unfold alloc in E |- *. cbn [snd] in E. rewrite E. simpl in Hi' |- *. rewrite insert_insert_eq in Hi' |- *.
    eexists. split; [|split; [reflexivity|exact Hi']]. unfold as_defined. rewrite <-Hc3, <-Hb3, <-Hc2.
    destruct (a_formatter c) eqn:Ec; simpl; by rewrite ?Ec, ?Hc4, <-?Hc3. }
  destruct Hty as [E|E].
  - rewrite (decide_True (P := ad_type ad = 1 ∨ _)) by auto. rewrite (decide_True (P := ad_type ad = 1)) by done. osimpl.
    apply Hadd; try done. simpl. by rewrite decide_True.
  - rewrite (decide_False (P := ad_type ad = 1)) by lia. rewrite (decide_True (P := ad_type ad = 2)) by done.
    destruct daemon; osimpl.
    + rewrite decide_False; [done|]. intros [?|?]; [lia|done].
    + rewrite decide_True by auto. apply Hadd; try done. simpl. rewrite decide_False; [done|lia].
Qed.

Lemma add_all_ok daemon lastTime name ads : ∀ s l,
  log_inv s → s_loggers s !! name = Some l → types_ok ads →
  ∃ k apps, let s' := mkSystem apps (s_next s + k)
      (<[name := set_appenders l (l_appenders l ++ seq (s_next s) k)]> (s_loggers s)) (s_out s) in
    add_all_defined opens daemon lastTime s name ads = Ok s' ∧ log_inv s' ∧
    (∀ x, (x < s_next s)%nat → apps !! x = s_apps s !! x) ∧
    Forall2 (λ x ad, ∃ a, apps !! x = Some a ∧ as_defined (l_formatter l) a ad) (seq (s_next s) k)
      (effective daemon ads).
Proof.
  induction ads as [|ad ads IH]; intros s l Hi Hl Hty.
  { exists 0%nat, (s_apps s). simpl. rewrite app_nil_r, Nat.add_0_r.
    assert (<[name:=set_appenders l (l_appenders l)]> (s_loggers s) = s_loggers s) as ->.
    { apply insert_id. rewrite Hl. by destruct l. }
    destruct s. split_and!; done. }
  apply Forall_cons in Hty as [Ht Hty]. pose proof (add_defined_ok daemon lastTime s name l ad Hi Hl Ht) as Hadd.
  unfold effective. rewrite filter_cons. simpl. case_decide as Hd.
  - destruct Hadd as (a & Ha & -> & Hi'). osimpl. simpl in Hi'.
    destruct (IH _ (set_appenders l (l_appenders l ++ [s_next s])) Hi') as (k & apps & E & Hi2 & Hold & Hf);
      [simpl; by rewrite lookup_insert_eq|done|]. simpl in *.
    exists (S k), apps. rewrite E. rewrite insert_insert_eq in Hi2 |- *. rewrite <-app_assoc in Hi2 |- *. simpl in *.
    rewrite Nat.add_succ_r. split_and!; [done|done| |].
    + intros x Hx. rewrite Hold by lia. rewrite lookup_insert_ne by lia. done.
    + constructor; [|done]. exists a. split; [|done]. rewrite Hold by lia. apply lookup_insert_eq.
  - rewrite Hadd. osimpl. by apply IH.
Qed.

Lemma setFormatter_pattern_ok s name l p :
  log_inv s → s_loggers s !! name = Some l →
  ∃ apps l2, let s' := mkSystem apps (s_next s) (<[name := l2]> (s_loggers s)) (s_out s) in
    setFormatter_pattern s name p = Ok s' ∧ log_inv s' ∧
    l_level l2 = l_level l ∧ l_appenders l2 = l_appenders l ∧
    (∀ x, x ∉ l_appenders l → apps !! x = s_apps s !! x).
Proof.
  intros Hi Hl. unfold setFormatter_pattern. destruct (LogFormatter_total p) as [f ->]. osimpl. rewrite Hl. osimpl.
  destruct (m_error (l_formatter l)).
  - exists (s_apps s), l. rewrite insert_id by done. by destruct s.
  - destruct (setFormatter_ok s name l f Hi Hl) as (apps & -> & Hi' & Hx & _).
    exists apps, (set_logger_formatter l f). by split_and!.
Qed.

(** What a definition makes of its logger, with new appenders only. *)
Definition applied (daemon : bool) (first : nat) (s : LogSystem) (d : LogDefine) : Prop :=
  ∃ l, s_loggers s !! d_name d = Some l ∧ l_level l = d_level d ∧
    Forall (λ x, first ≤ x)%nat (l_appenders l) ∧
    Forall2 (λ x ad, ∃ a, s_apps s !! x = Some a ∧ as_defined (l_formatter l) a ad) (l_appenders l)
      (effective daemon (d_appenders d)).

Lemma apply_define_ok daemon lastTime s d :
  log_inv s → types_ok (d_appenders d) →
  ∃ s' l', apply_define opens daemon lastTime s d = Ok s' ∧ log_inv s' ∧ (s_next s ≤ s_next s')%nat ∧
    s_loggers s' = <[d_name d := l']> (s_loggers s) ∧ applied daemon (s_next s) s' d ∧
    (∀ x, (x < s_next s)%nat → (∀ l, s_loggers s !! d_name d = Some l → x ∉ l_appenders l) →
       s_apps s' !! x = s_apps s !! x).
Proof.
  intros Hi Hty. unfold apply_define. set (n := d_name d).
  destruct (getLogger_ok s n Hi) as (l & s1 & -> & Hi1 & Hl1 & Ha1 & Hn1 & Ho1 & Hsame & Hnone). osimpl.
  assert (s_loggers s1 !! n = Some l) as El by by rewrite Hl1, lookup_insert_eq.
  unfold setLevel. rewrite El. osimpl. set (l2 := logger_setLevel l (d_level d)). set (s2 := set_logger s1 n l2).
  assert (log_inv s2) as Hi2 by (by apply (update_logger_inv s1 n l)).
  assert (s_loggers s2 !! n = Some l2) as El2 by (simpl; by rewrite lookup_insert_eq).
  assert (∃ apps l3, let s3 := mkSystem apps (s_next s2) (<[n := l3]> (s_loggers s2)) (s_out s2) in
    (if decide (d_formatter d = []) then mret s2 else setFormatter_pattern s2 n (d_formatter d)) = Ok s3 ∧
    log_inv s3 ∧ l_level l3 = d_level d ∧ (∀ x, x ∉ l_appenders l → apps !! x = s_apps s2 !! x))
    as (apps & l3 & -> & Hi3 & Hlev & Hx).
  { case_decide.
    - exists (s_apps s2), l2. rewrite insert_id by done. by split_and!.
    - destruct (setFormatter_pattern_ok s2 n l2 (d_formatter d) Hi2 El2) as (apps & l3 & -> & Hi3 & H1 & _ & H3).
      exists apps, l3. by split_and!. }
  osimpl. unfold clearAppenders. cbn [s_loggers]. rewrite lookup_insert_eq. osimpl.
  set (l4 := set_appenders l3 []).
  match goal with |- context [add_all_defined _ _ _ ?s4 _ _] => set (s4' := s4) end.
  assert (log_inv s4') as Hi4.
  { eapply (update_logger_inv _ n l3); [exact Hi3|simpl; by rewrite lookup_insert_eq|done|]. by intros x ?%elem_of_nil. }
  destruct (add_all_ok daemon lastTime n (d_appenders d) s4' l4 Hi4) as (k & apps' & -> & Hi5 & Hold & Hf);
    [simpl; by rewrite lookup_insert_eq|done|]. simpl in *.
  eexists _, _. split; [reflexivity|]. split; [exact Hi5|]. simpl. rewrite <-Hn1. split_and!.
  - lia.
  - rewrite Hl1, !insert_insert_eq. reflexivity.
  - eexists. simpl. split; [by rewrite lookup_insert_eq|]. simpl. split_and!; [done| |done].
    apply Forall_forall. intros x Hx'%elem_of_seq. lia.
  - intros x Hlt Hnot. rewrite Hold by done. rewrite Hx, Ha1; [done|]. intros Hin.
    destruct (s_loggers s !! n) as [l0|] eqn:E0.
    + rewrite (Hsame l0 eq_refl) in Hin. by apply (Hnot l0).
    + rewrite (Hnone eq_refl) in Hin. by apply elem_of_nil in Hin.
Qed.

Lemma Forall2_in_impl {A B} (P Q : A → B → Prop) l k :
  Forall2 P l k → (∀ x y, x ∈ l → P x y → Q x y) → Forall2 Q l k.
Proof.
  induction 1 as [|x y l k Hp _ IH]; intros HQ; constructor; [by apply HQ; [left|]|].
  apply IH. intros ? ? ?. apply HQ. by right.
Qed.

(** A [std::set<LogDefine>]. *)
Definition define_set (ds : list LogDefine) : Prop := ordered bytes_lt (d_name <$> ds).

Lemma define_names ds : define_set ds → NoDup (d_name <$> ds).
Proof.
  intros Ho. eapply (ordered_NoDup bytes_lt (λ _, True)); [apply bytes_lt_strict|by apply Forall_true|done].
Qed.

Lemma define_eq ds d e : define_set ds → d ∈ ds → e ∈ ds → d_name d = d_name e → d = e.
Proof.
  intros Hnd%define_names Hd He E. apply list_elem_of_lookup_1 in Hd as [i Hi], He as [j Hj].
  assert (i = j) as <-; [|congruence]. apply (NoDup_lookup _ i j (d_name d) Hnd); rewrite list_lookup_fmap.
  - by rewrite Hi.
  - by rewrite Hj, E.
Qed.

Lemma find_define_Some ds d e :
  define_set ds → find_define ds d = Some e ↔ e ∈ ds ∧ d_name e = d_name d.
Proof.
  intros Hs. assert (map_ok d_name bytes_lt ((λ d, (d, tt)) <$> ds)) as Hok.
  { unfold map_ok. rewrite <-list_fmap_compose. exact Hs. }
  unfold find_define. rewrite fmap_Some. split.
  - intros ([e' []] & H & ->). apply (map_lookup_iff d_name bytes_lt bytes_lt_strict) in H as [Hin E]; [|done].
    apply list_elem_of_fmap in Hin as (e & [= ->] & Hin). done.
  - intros [Hin E]. exists (e, tt). split; [|done].
    apply (map_lookup_iff d_name bytes_lt bytes_lt_strict); [done|]. split; [|done].
    apply list_elem_of_fmap. by exists e.
Qed.

Lemma apply_new_ok daemon lastTime old first ds : ∀ s,
  define_set old → NoDup (d_name <$> ds) → Forall (λ d, types_ok (d_appenders d)) ds →
  log_inv s → (first ≤ s_next s)%nat →
  (∀ d l x, d ∈ ds → s_loggers s !! d_name d = Some l → x ∈ l_appenders l → (x < first)%nat) →
  ∃ s', apply_new opens daemon lastTime s old ds = Ok s' ∧ log_inv s' ∧
    (∀ d, d ∈ ds → d ∉ old → applied daemon first s' d) ∧
    (∀ name, (∀ d, d ∈ ds → d_name d = name → d ∈ old) → s_loggers s' !! name = s_loggers s !! name) ∧
    (∀ x, (first ≤ x < s_next s)%nat → s_apps s' !! x = s_apps s !! x).
Proof.
  induction ds as [|d ds IH]; intros s Hold Hnd Hty Hi Hfirst Hsep.
  { exists s. split_and!; try done. by intros d ?%elem_of_nil. }
  rewrite fmap_cons in Hnd. apply NoDup_cons in Hnd as [Hd Hnd]. apply Forall_cons in Hty as [Ht Hty]. simpl.
  assert (∀ e, e ∈ ds → d_name e ≠ d_name d) as Hne.
  { intros e He E. apply Hd. rewrite <-E. by apply list_elem_of_fmap_2. }
  case_decide as Hf; osimpl.
  - apply find_define_Some in Hf as [Hin _]; [|done].
    destruct (IH s Hold Hnd Hty Hi Hfirst) as (s' & E & Hi' & H1 & H2 & H3).
    { intros e l x He. apply Hsep. by right. }
    exists s'. split_and!; [done|done| | |done].
    + intros e [->|He]%elem_of_cons Hno; [done|by apply H1].
    + intros name Hall. apply H2. intros e He. apply Hall. by right.
  - destruct (apply_define_ok daemon lastTime s d Hi Ht) as (s1 & l1 & -> & Hi1 & Hn1 & Hl1 & Happ & Happs). osimpl.
    destruct (IH s1 Hold Hnd Hty Hi1 ltac:(lia)) as (s' & E & Hi' & H1 & H2 & H3).
    { intros e l x He. rewrite Hl1, lookup_insert_ne by (intros E; by destruct (Hne e He)). apply Hsep. by right. }
    assert (s_loggers s' !! d_name d = s_loggers s1 !! d_name d) as Hsame.
    { apply H2. intros e He E'. by destruct (Hne e He). }
    exists s'. split_and!; [done|done| | |].
    + intros e [->|He]%elem_of_cons Hno; [|by apply H1].
      destruct Happ as (l & Hl & Hlev & Hge & Hf2). exists l. rewrite Hsame. split_and!; [done|done| |].
      * eapply Forall_impl; [exact Hge|]. simpl. lia.
      * eapply Forall2_in_impl; [exact Hf2|]. intros x ad Hx (a & Ha & Had). exists a. split; [|done].
        rewrite H3; [done|]. rewrite Forall_forall in Hge. specialize (Hge x Hx). simpl in Hge.
        apply (li_next s1 Hi1) in Ha. lia.
    + intros name Hall. rewrite H2 by (intros e He; apply Hall; by right). rewrite Hl1, lookup_insert_ne; [done|].
      intros <-. apply Hf, find_define_Some; [done|]. split; [|done]. apply Hall; [by left|done].
    + intros x Hx. rewrite H3 by lia. apply Happs; [lia|]. intros l Hl Hin.
      assert (x < first)%nat; [|lia]. apply (Hsep d l x); [by left|done|done].
Qed.

Lemma remove_define_ok s d :
  log_inv s → ∃ s' l, remove_define s d = Ok s' ∧ log_inv s' ∧ s_apps s' = s_apps s ∧
    s_loggers s' = <[d_name d := l]> (s_loggers s) ∧ l_level l = DELETED ∧ l_appenders l = [].
Proof.
  intros Hi. unfold remove_define.
  destruct (getLogger_ok s (d_name d) Hi) as (l & s1 & -> & Hi1 & Hl1 & Ha1 & _). osimpl.
  assert (s_loggers s1 !! d_name d = Some l) as El by by rewrite Hl1, lookup_insert_eq.
  unfold setLevel. rewrite El. osimpl. unfold clearAppenders. cbn [s_loggers set_logger]. rewrite lookup_insert_eq. osimpl.
  eexists _, _. split; [reflexivity|]. split_and!.
  - eapply update_logger_inv; [by apply (update_logger_inv s1 (d_name d) l)|simpl; by rewrite lookup_insert_eq|done|].
    by intros x ?%elem_of_nil.
  - done.
  - simpl. rewrite Hl1, !insert_insert_eq. reflexivity.
  - done.
  - done.
Qed.

Lemma remove_old_ok new ds : ∀ s,
  define_set new → log_inv s →
  ∃ s', remove_old s ds new = Ok s' ∧ log_inv s' ∧ s_apps s' = s_apps s ∧
    (∀ d, d ∈ ds → (∀ e, e ∈ new → d_name e ≠ d_name d) →
       ∃ l, s_loggers s' !! d_name d = Some l ∧ l_level l = DELETED ∧ l_appenders l = []) ∧
    (∀ name, (∀ d, d ∈ ds → d_name d = name → ∃ e, e ∈ new ∧ d_name e = name) →
       s_loggers s' !! name = s_loggers s !! name).
Proof.
  induction ds as [|d ds IH]; intros s Hnew Hi.
  { exists s. split_and!; try done. by intros d ?%elem_of_nil. }
  simpl. destruct (find_define new d) as [e|] eqn:Ef; osimpl.
  - apply find_define_Some in Ef as [He Hn]; [|done].
    destruct (IH s Hnew Hi) as (s' & E & Hi' & Ha & H1 & H2). exists s'. split_and!; [done|done|done| |].
    + intros d' [->|Hd']%elem_of_cons Hall; [by destruct (Hall e He)|by apply H1].
    + intros name Hall. apply H2. intros d' Hd'. apply Hall. by right.
  - destruct (remove_define_ok s d Hi) as (s1 & l & -> & Hi1 & Ha1 & Hl1 & Hlev & Happ). osimpl.
    destruct (IH s1 Hnew Hi1) as (s' & E & Hi' & Ha & H1 & H2). exists s'. split_and!; [done|done|by rewrite Ha| |].
    + intros d' Hd' Hall. destruct (decide (d_name d' ∈ (d_name <$> ds))) as [Hin|Hout].
      * apply list_elem_of_fmap in Hin as (d2 & En & Hd2). rewrite En. apply H1; [done|]. by rewrite <-En.
      * apply elem_of_cons in Hd' as [->|Hd']; [|by destruct Hout; apply list_elem_of_fmap_2].
        exists l. rewrite H2; [by rewrite Hl1, lookup_insert_eq|].
        intros d2 Hd2 En. destruct Hout. rewrite <-En. by apply list_elem_of_fmap_2.
    + intros name Hall. rewrite H2 by (intros d' Hd'; apply Hall; by right). rewrite Hl1, lookup_insert_ne; [done|].
      intros <-. destruct (Hall d ltac:(by left) eq_refl) as (e & He & En).
      assert (find_define new d = Some e) by by apply find_define_Some. congruence.
Qed.

Lemma on_logs_changed_ok daemon lastTime event old new s :
  log_inv s → define_set old → define_set new → Forall (λ d, types_ok (d_appenders d)) new →
  ∃ s', on_logs_changed strftime opens daemon lastTime event old new s = Ok s' ∧ log_inv s' ∧
    (∀ d, d ∈ new → d ∉ old → applied daemon (s_next s) s' d) ∧
    (∀ d, d ∈ old → (∀ e, e ∈ new → d_name e ≠ d_name d) →
       ∃ l, s_loggers s' !! d_name d = Some l ∧ l_level l = DELETED ∧ l_appenders l = []) ∧
    (∀ name, (∀ d, d ∈ new → d_name d = name → d ∈ old) →
       (∀ d, d ∈ old → d_name d = name → ∃ e, e ∈ new ∧ d_name e = name) →
       s_loggers s' !! name = s_loggers s !! name).
Proof.
  intros Hi Hold Hnew Hty. unfold on_logs_changed, log_level.
  destruct (li_root s Hi) as (r & Hr & Hrr). rewrite Hr. osimpl.
  assert (∃ apps out, (if decide (l_level r <= INFO) then log strftime opens 2 s ROOT INFO event else mret s) =
    Ok (mkSystem apps (s_next s) (s_loggers s) out) ∧
    log_inv (mkSystem apps (s_next s) (s_loggers s) out)) as (apps & out & -> & Hi1).
  { case_decide; [|exists (s_apps s), (s_out s); by destruct s].
    destruct (log_ok s ROOT r INFO event Hi Hr) as (apps & out & -> & Hk & Hd & _).
    eexists _, _. split; [done|]. by apply log_inv_after. }
  osimpl. set (s1 := mkSystem apps (s_next s) (s_loggers s) out) in *.
  destruct (apply_new_ok daemon lastTime old (s_next s) new s1 Hold (define_names new Hnew) Hty Hi1 (le_n _))
    as (s2 & -> & Hi2 & H1 & H2 & _).
  { intros d l x _ Hl Hx. destruct (li_apps s1 Hi1 _ l x Hl Hx) as (a & Ha & _). by apply (li_next s1 Hi1) in Ha. }
  osimpl. destruct (remove_old_ok new old s2 Hnew Hi2) as (s3 & -> & Hi3 & Ha3 & H4 & H5).
  exists s3. split_and!; [done|done| |done|].
  - intros d Hd Hno. destruct (H1 d Hd Hno) as (l & Hl & Hrest). exists l. rewrite Ha3, H5; [done|].
    intros d' _ En. eauto.
  - intros name Ha Hb. by rewrite H5, H2.
Qed.

End spec.
