(* ===== verification/LogCast.v ===== *)
(** The conversions between a logger's definition and its text (the
    [LexicalCast]s of [LogDefine] in sylar/log.cc), and the text of loggers. *)

From Stdlib Require Import ZArith Lia.
From stdpp Require Import base numbers gmap option strings tactics sorting countable sets list.
From S2P Require Import Prelude Text ConfigCast LogFormat Log LogSpec.

Local Open Scope Z_scope.

Section casts.
Context {Y : Type} `{!Yaml Y}.

(** The string of an optional entry. *)
Definition optional_string (node : Y) (key : list Z) : option (list Z) :=
  match yaml_get node key with
  | None => Some []
  | Some n => as_string n
  end.

(** One element of the appenders. *)
Definition appender_from (a : Y) : option LogAppenderDefine :=
  t ← yaml_get a (text "type");
  type ← as_string t;
  if decide (type = text "FileLogAppender") then
    n ← yaml_get a (text "file");
    file ← as_string n;
    formatter ← optional_string a (text "formatter");
    Some (mkAppenderDefine 1 UNKNOWN formatter file)
  else if decide (type = text "StdoutLogAppender") then
    formatter ← optional_string a (text "formatter");
    Some (mkAppenderDefine 2 UNKNOWN formatter [])
  else None.

(** [LexicalCast<std::string, LogDefine>]. *)
Definition define_from (v : list Z) : option LogDefine :=
  node ← yaml_load v;
  n ← yaml_get node (text "name");
  name ← as_string n;
  level ← optional_string node (text "level");
  formatter ← optional_string node (text "formatter");
  appenders ← match yaml_get node (text "appenders") with
              | None => Some []
              | Some l => mapM appender_from (yaml_items l)
              end;
  Some (mkDefine name (level_FromString level) formatter appenders).

(** The node of an appender, where [formatter] is the logger's. *)
Definition appender_to (formatter : list Z) (ad : LogAppenderDefine) : Y :=
  yaml_map (
    (if decide (ad_type ad = 1)
     then [(text "type", yaml_string (text "FileLogAppender")); (text "file", yaml_string (ad_file ad))]
     else if decide (ad_type ad = 2) then [(text "type", yaml_string (text "StdoutLogAppender"))] else []) ++
    (if decide (ad_level ad = UNKNOWN) then [] else [(text "level", yaml_string (level_ToString (ad_level ad)))]) ++
    (if decide (formatter = []) then [] else [(text "formatter", yaml_string formatter)])).

(** [LexicalCast<LogDefine, std::string>]. *)
Definition define_to (ld : LogDefine) : list Z :=
  yaml_dump (yaml_map (
    [(text "name", yaml_string (d_name ld))] ++
    (if decide (d_level ld = UNKNOWN) then [] else [(text "level", yaml_string (level_ToString (d_level ld)))]) ++
    (if decide (d_formatter ld = []) then [(text "formatter", yaml_string (d_formatter ld))] else []) ++
    (if decide (d_appenders ld = []) then []
     else [(text "appenders", yaml_seq (appender_to (d_formatter ld) <$> d_appenders ld))]))).

Context `{!YamlLaws Y}.

(** What is left of an appender. *)
Definition kept (formatter : list Z) (ad : LogAppenderDefine) : LogAppenderDefine :=
  mkAppenderDefine (ad_type ad) UNKNOWN formatter (if decide (ad_type ad = 1) then ad_file ad else []).

Ltac map_fields :=
  rewrite map_get by (apply (bool_decide_unpack _); vm_compute; exact I);
  simpl list_to_map; repeat first [rewrite lookup_insert_eq | rewrite lookup_insert_ne by done]; rewrite ?lookup_empty.

Lemma appender_from_to formatter ad :
  ad_type ad = 1 ∨ ad_type ad = 2 → appender_from (appender_to formatter ad) = Some (kept formatter ad).
Proof.
  intros Ht. unfold appender_from, appender_to, kept, optional_string.
  destruct Ht as [E|E]; rewrite E; simpl; destruct (decide (ad_level ad = UNKNOWN)), (decide (formatter = [])) as [->|];
    repeat (map_fields; simpl; rewrite ?string_as; simpl); done.
Qed.

(** The node of a definition, and that it reads back. *)
Lemma appender_built formatter ad : built (appender_to formatter ad).
Proof.
  apply built_map. intros [k v] Hin. unfold appender_to in *.
  repeat case_decide; rewrite ?elem_of_app, ?elem_of_cons, ?elem_of_nil in Hin;
    naive_solver eauto using built_string.
Qed.

Lemma appenders_from_to formatter ads :
  types_ok ads → mapM appender_from (appender_to formatter <$> ads) = Some (kept formatter <$> ads).
Proof.
  induction 1 as [|ad ads Ht _ IH]; [done|]. rewrite !fmap_cons. simpl.
  rewrite appender_from_to by done. simpl. by rewrite IH.
Qed.

Lemma known_level level :
  level_FromString (level_ToString level) = if decide (DEBUG <= level <= FATAL) then level else UNKNOWN.
Proof.
  case_decide as H; [apply level_names; unfold DEBUG, UNKNOWN in *; lia|].
  unfold level_ToString, DEBUG, INFO, WARN, ERROR, FATAL in *. repeat case_decide; try lia. done.
Qed.

(** Writing the definition of a logger and reading it back keeps its name, its
    level if it is one of the five, and the kinds and files of its appenders; it
    loses the logger's formatter, the levels of the appenders, and their own
    formatters, instead of which each appender gets the logger's. *)
Theorem logdefine_roundtrip_loses (ld : LogDefine) :
  types_ok (d_appenders ld) →
  define_from (define_to ld) =
    Some (mkDefine (d_name ld) (if decide (DEBUG <= d_level ld <= FATAL) then d_level ld else UNKNOWN) []
            (kept (d_formatter ld) <$> d_appenders ld)).
Proof.
  intros Hty. unfold define_from, define_to. rewrite load_dump.
  2: { apply built_map. intros [k v] Hin.
       repeat case_decide; rewrite ?elem_of_app, ?elem_of_cons, ?elem_of_nil in Hin;
         destruct_or?; simplify_eq; simpl; try apply built_string; try done;
         apply built_seq; intros y (ad & -> & _)%list_elem_of_fmap; apply appender_built. }
  simpl. rewrite <-known_level. unfold optional_string.
  destruct (decide (d_level ld = UNKNOWN)) as [->|], (decide (d_formatter ld = [])) as [Ef|],
    (decide (d_appenders ld = [])) as [Ea|];
    repeat (map_fields; simpl; rewrite ?string_as; simpl); rewrite ?seq_items, ?appenders_from_to by done;
    rewrite ?Ef, ?Ea; simpl; rewrite ?Ef; done.
Qed.

End casts.

Import TreeYaml.

Lemma logdefine_roundtrip_loses_witness :
  define_from (Y := TreeYaml.tree) (define_to (Y := TreeYaml.tree)
    (mkDefine (text "system") ERROR (text "%m%n") [mkAppenderDefine 2 WARN (text "%d%n") []])) =
  Some (mkDefine (text "system") ERROR [] [mkAppenderDefine 2 UNKNOWN (text "%m%n") []]).
Proof.
  refine (logdefine_roundtrip_loses (Y := TreeYaml.tree)
    (mkDefine (text "system") ERROR (text "%m%n") [mkAppenderDefine 2 WARN (text "%d%n") []]) _).
  constructor; [right; reflexivity|constructor].
Defined.

(** ** The text of loggers *)

(** The text of loggers and appenders (the [toYamlString]s of sylar/log.cc), and what
    the configuration makes of it. *)

From Stdlib Require Import ZArith Lia.
From stdpp Require Import base numbers gmap option strings tactics sorting countable sets list.
From S2P Require Import Prelude Text ConfigCast LogFormat Log LogSpec .

Local Open Scope Z_scope.

Section yaml.
Context {Y : Type} `{!Yaml Y}.

Definition level_entry (level : Z) : list (list Z * Y) :=
  if decide (level = UNKNOWN) then [] else [(text "level", yaml_string (level_ToString level))].

(** The pattern of an appender with a formatter of its own. *)
Definition own_pattern (a : LogAppender) : option (list Z) :=
  if a_hasFormatter a then m_pattern <$> a_formatter a else None.

(** [StdoutLogAppender::toYamlString] and [FileLogAppender::toYamlString]. *)
Definition appender_toYamlString (a : LogAppender) : list Z :=
  yaml_dump (yaml_map (
    match a_sink a with
    | Stdout => [(text "type", yaml_string (text "StdoutLogAppender"))]
    | File filename => [(text "type", yaml_string (text "FileLogAppender")); (text "file", yaml_string filename)]
    end ++ level_entry (a_level a) ++
    match own_pattern a with Some p => [(text "formatter", yaml_string p)] | None => [] end)).

(** The appenders of a logger, each printed and read again. *)
Definition appender_nodes (s : LogSystem) (l : Logger) : outcome (list Y) :=
  foldr (λ x rest,
    a ← deref (s_apps s !! x);
    y ← deref (yaml_load (appender_toYamlString a));
    ys ← rest; mret (y :: ys)) (mret []) (l_appenders l).

(** [Logger::toYamlString]. *)
Definition logger_toYamlString (s : LogSystem) (l : Logger) : outcome (list Z) :=
  ys ← appender_nodes s l;
  mret (yaml_dump (yaml_map (
    [(text "name", yaml_string (l_name l))] ++ level_entry (l_level l) ++
    [(text "formatter", yaml_string (m_pattern (l_formatter l)))] ++
    (if decide (ys = []) then [] else [(text "appenders", yaml_seq ys)])))).

(** [LoggerManager::toYamlString]; the names are the keys in the order of the map. *)
Definition manager_toYamlString (s : LogSystem) (names : list (list Z)) : outcome (list Z) :=
  ys ← foldr (λ name rest,
    l ← deref (s_loggers s !! name);
    t ← logger_toYamlString s l;
    y ← deref (yaml_load t);
    ys ← rest; mret (y :: ys)) (mret []) names;
  mret (yaml_dump (yaml_seq ys)).

Context `{!YamlLaws Y}.

(** The definition that an appender, and a logger, amounts to. *)
Definition appender_define (a : LogAppender) : LogAppenderDefine :=
  mkAppenderDefine (match a_sink a with File _ => 1 | Stdout => 2 end) UNKNOWN (default [] (own_pattern a))
    (match a_sink a with File f => f | Stdout => [] end).

Definition logger_define (s : LogSystem) (l : Logger) : LogDefine :=
  mkDefine (l_name l) (if decide (DEBUG <= l_level l <= FATAL) then l_level l else UNKNOWN) (m_pattern (l_formatter l))
    (appender_define <$> omap (λ x, s_apps s !! x) (l_appenders l)).

Ltac entries := rewrite map_get by (apply (bool_decide_unpack _); vm_compute; exact I);
  simpl list_to_map; repeat first [rewrite lookup_insert_eq | rewrite lookup_insert_ne by done]; rewrite ?lookup_empty.

Ltac entries_built := apply built_map; intros [k v] Hin;
  rewrite ?elem_of_app, ?elem_of_cons, ?elem_of_nil in Hin; destruct_or?; simplify_eq; simpl; try apply built_string; try done.

Lemma appender_text a :
  ∃ y, yaml_load (appender_toYamlString a) = Some y ∧ built y ∧ appender_from y = Some (appender_define a).
Proof.
  unfold appender_toYamlString, level_entry, appender_define, appender_from, optional_string.
  destruct (a_sink a) as [|f], (decide (a_level a = UNKNOWN)), (own_pattern a) as [p|]; cbn [app];
    (eexists; split; [apply load_dump; entries_built|]; split; [entries_built|]);
    repeat (entries; simpl; rewrite ?string_as; simpl); done.
Qed.

Lemma appender_nodes_read s l :
  Forall (λ x, is_Some (s_apps s !! x)) (l_appenders l) →
  ∃ ys, appender_nodes s l = Ok ys ∧ Forall built ys ∧
    mapM appender_from ys = Some (appender_define <$> omap (λ x, s_apps s !! x) (l_appenders l)).
Proof.
  unfold appender_nodes. induction 1 as [|x xs [a Ha] _ (ys & IH & Hb & Hm)]; [by exists []|].
  destruct (appender_text a) as (y & Hy & Hby & Hfy). exists (y :: ys). simpl. rewrite Ha. osimpl. rewrite Hy. osimpl.
  rewrite IH. osimpl. split_and!; [done|by constructor|]. rewrite Hfy. simpl. by rewrite Hm.
Qed.

Lemma logger_text s l :
  Forall (λ x, is_Some (s_apps s !! x)) (l_appenders l) →
  ∃ t y, logger_toYamlString s l = Ok t ∧ yaml_load t = Some y ∧ built y ∧ t = yaml_dump y ∧
    define_from t = Some (logger_define s l).
Proof.
  intros (ys & E & Hb & Hm)%appender_nodes_read. unfold logger_toYamlString. rewrite E. osimpl.
  set (entries := _ ++ _). assert (built (yaml_map entries)) as Hbuilt.
  { subst entries. unfold level_entry. destruct (decide (l_level l = UNKNOWN)), (decide (ys = [])); cbn [app]; entries_built;
      apply built_seq; by rewrite Forall_forall in Hb. }
  eexists _, _. split; [done|]. split; [by apply load_dump|]. split; [done|]. split; [done|].
  unfold define_from. rewrite load_dump by done. simpl. unfold logger_define. rewrite <-known_level, <-?Hm.
  subst entries. unfold level_entry, optional_string.
  destruct (decide (l_level l = UNKNOWN)) as [El|], (decide (ys = [])) as [Ey|]; cbn [app];
    repeat (entries; simpl; rewrite ?string_as; simpl); rewrite ?seq_items;
    rewrite ?Ey in Hm; simpl in Hm; rewrite ?Hm; try injection Hm as <-; rewrite ?El; done.
Qed.

(** The text of the running loggers is a configuration of them: read as the variable
    "logs" is read, it gives one definition for each logger, with its name, its level,
    its pattern and its appenders with their files and the patterns of those that have
    a formatter of their own; only the levels of the appenders are not read. *)
Theorem loggers_text_reads_back (s : LogSystem) (names : list (list Z)) :
  Forall (λ name, ∃ l, s_loggers s !! name = Some l ∧ Forall (λ x, is_Some (s_apps s !! x)) (l_appenders l)) names →
  ∃ t y, manager_toYamlString s names = Ok t ∧ yaml_load t = Some y ∧
    mapM (λ n, define_from (yaml_dump n)) (yaml_items y) =
      Some (logger_define s <$> omap (λ name, s_loggers s !! name) names).
Proof.
  intros Hall. unfold manager_toYamlString.
  assert (∃ ys, foldr (λ name rest, l ← deref (s_loggers s !! name); t ← logger_toYamlString s l;
      y ← deref (yaml_load t); ys ← rest; mret (y :: ys)) (mret []) names = Ok ys ∧ Forall built ys ∧
    mapM (λ n, define_from (yaml_dump n)) ys = Some (logger_define s <$> omap (λ name, s_loggers s !! name) names))
    as (ys & -> & Hb & Hm).
  { induction Hall as [|name names (l & Hl & Ha) _ (ys & IH & Hb & Hm)]; [by exists []|].
    destruct (logger_text s l Ha) as (t & y & Ht & Hy & Hby & -> & Hd). exists (y :: ys). simpl. rewrite Hl. osimpl.
    rewrite Ht. osimpl. rewrite Hy. osimpl. rewrite IH. osimpl. split_and!; [done|by constructor|].
    rewrite Hd. simpl. by rewrite Hm. }
  osimpl. eexists _, (yaml_seq ys). split; [done|]. split; [|by rewrite seq_items].
  apply load_dump, built_seq. by rewrite Forall_forall in Hb.
Qed.

End yaml.

Import TreeYaml.

(** A root logger that writes to a file and to the standard output. *)
Definition two_appenders : LogSystem :=
  mkSystem {[ 0%nat := mkAppender Stdout WARN None false 0 false;
              1%nat := mkAppender (File (text "a.txt")) DEBUG (Some (mkFormatter (text "%m") [] false)) true 0 true ]} 2
    {[ ROOT := mkLogger ROOT INFO [0; 1]%nat (mkFormatter (text "%d%n") [] false) false ]} [].

Lemma loggers_text_reads_back_witness :
  ∃ t y, manager_toYamlString (Y := tree) two_appenders [ROOT] = Ok t ∧ yaml_load t = Some y ∧
    mapM (λ n, define_from (yaml_dump n)) (yaml_items y) =
      Some [mkDefine ROOT INFO (text "%d%n")
              [mkAppenderDefine 2 UNKNOWN [] []; mkAppenderDefine 1 UNKNOWN (text "%m") (text "a.txt")]].
Proof.
  destruct (loggers_text_reads_back (Y := tree) two_appenders [ROOT]) as (t & y & E & Hy & Hm).
  - constructor; [|constructor]. eexists. split; [reflexivity|]. repeat constructor; eexists; reflexivity.
  - exists t, y. split; [exact E|]. split; [exact Hy|exact Hm].
Defined.
