(* ===== verification/LogTheorems.v ===== *)
(** The theorems on logging (see Log and LogSpec), and log statements. *)

From Stdlib Require Import ZArith Lia.
From stdpp Require Import base numbers gmap option strings tactics relations sorting countable sets list.
From S2P Require Import Prelude StdSet StdMap Text ConfigCast LogFormat Log LogSpec.

Local Open Scope Z_scope.

Section theorems.
Context (strftime : list Z → Z → list Z) (opens : list Z → bool).

(** One operation on the loggers; an appender is not given a null formatter
    after it was made. *)
Inductive lstep (s : LogSystem) : LogSystem → Prop :=
| l_get name s' : getLogger s name = Ok s' → lstep s s'
| l_alloc a : lstep s (alloc s a).2
| l_add name l x a s' :
    s_loggers s !! name = Some l → s_apps s !! x = Some a → addAppender s name x = Ok s' → lstep s s'
| l_del name l x s' : s_loggers s !! name = Some l → delAppender s name x = Ok s' → lstep s s'
| l_clear name l s' : s_loggers s !! name = Some l → clearAppenders s name = Ok s' → lstep s s'
| l_setLevel name l level s' : s_loggers s !! name = Some l → setLevel s name level = Ok s' → lstep s s'
| l_setFormatter name l f s' : s_loggers s !! name = Some l → setFormatter s name f = Ok s' → lstep s s'
| l_setPattern name l p s' : s_loggers s !! name = Some l → setFormatter_pattern s name p = Ok s' → lstep s s'
| l_appender x a f :
    s_apps s !! x = Some a → lstep s (set_apps s (<[x := appender_setFormatter a (Some f)]> (s_apps s)))
| l_appenderLevel x a level :
    s_apps s !! x = Some a → lstep s (set_apps s (<[x := appender_setLevel a level]> (s_apps s)))
| l_log name l level event s' :
    s_loggers s !! name = Some l → log strftime opens 2 s name level event = Ok s' → lstep s s'
| l_config daemon lastTime event old new s' :
    define_set old → define_set new → Forall (λ d, types_ok (d_appenders d)) new →
    on_logs_changed strftime opens daemon lastTime event old new s = Ok s' → lstep s s'.

Lemma update_app_inv s x a a' :
  log_inv s → s_apps s !! x = Some a → still_formats a a' → log_inv (set_apps s (<[x := a']> (s_apps s))).
Proof.
  intros Hi Ha Hf.
  assert (apps_keep still_formats (s_apps s) (<[x := a']> (s_apps s))) as Hk.
  { intros y b Hb. destruct (decide (y = x)) as [->|].
    - rewrite lookup_insert_eq. exists a'. split; [done|]. rewrite Ha in Hb. by injection Hb as <-.
    - rewrite lookup_insert_ne by done. exists b. split; [done|]. by intros ?. }
  split; simpl; [apply Hi| |].
  - intros name l y Hl Hy. eapply attached_keep; [done|]. by eapply li_apps.
  - intros y b. rewrite lookup_insert_Some. intros [[<- _]|[_ Hb]]; by eapply li_next.
Qed.

Lemma lstep_inv s s' : log_inv s → lstep s s' → log_inv s'.
Proof.
  intros Hi Hs. destruct Hs as [name s' E|a|name l x a s' Hl Ha E|name l x s' Hl E|name l s' Hl E|
    name l level s' Hl E|name l f s' Hl E|name l p s' Hl E|x a f Ha|x a level Ha|name l level event s' Hl E|
    daemon lastTime event old new s' Hold Hnew Hty E].
  - destruct (getLogger_ok s name Hi) as (l & s1 & E1 & H & _). congruence.
  - by apply alloc_inv.
  - destruct (addAppender_ok s name l x a Hi Hl Ha) as [E1 H]. congruence.
  - unfold delAppender in E. rewrite Hl in E. osimpl in E. injection E as <-.
    apply (update_logger_inv s name l); [done..|]. apply erase_first_sub.
  - unfold clearAppenders in E. rewrite Hl in E. osimpl in E. injection E as <-.
    apply (update_logger_inv s name l); [done..|]. by intros x ?%elem_of_nil.
  - unfold setLevel in E. rewrite Hl in E. osimpl in E. injection E as <-.
    by apply (update_logger_inv s name l).
  - destruct (setFormatter_ok s name l f Hi Hl) as (apps & E1 & H & _). congruence.
  - destruct (setFormatter_pattern_ok s name l p Hi Hl) as (apps & l2 & E1 & H & _). congruence.
  - apply (update_app_inv s x a); [done|done|]. intros _. by exists f.
  - apply (update_app_inv s x a); [done|done|]. by intros ?.
  - destruct (log_ok strftime opens s name l level event Hi Hl) as (apps & out & E1 & Hk & Hd & _).
    rewrite E in E1. injection E1 as ->. by apply log_inv_after.
  - destruct (on_logs_changed_ok strftime opens daemon lastTime event old new s Hi Hold Hnew Hty) as (s1 & E1 & H & _).
    congruence.
Qed.

(** The states of the program's logging. *)
Definition log_reachable (s : LogSystem) : Prop := ∃ s0, LoggerManager_new = Ok s0 ∧ rtc lstep s0 s.

Lemma LoggerManager_inv s0 : LoggerManager_new = Ok s0 → log_inv s0.
Proof.
  unfold LoggerManager_new, Logger_new. destruct default_formatter as (f & Hf & _). rewrite Hf. clear Hf. osimpl.
  set (l := mkLogger ROOT DEBUG [] f false).
  assert (log_inv (mkSystem ∅ 0 {[ROOT := l]} [])) as Hi.
  { split; simpl.
    - exists l. by rewrite lookup_singleton_eq.
    - intros name l' x [_ <-]%lookup_singleton_Some ?%elem_of_nil. done.
    - intros x a. by rewrite lookup_empty. }
  destruct (addAppender_ok _ ROOT l 0 StdoutLogAppender_new (alloc_inv _ StdoutLogAppender_new Hi)) as [E Hi'].
  - simpl. by rewrite lookup_singleton_eq.
  - simpl. by rewrite lookup_insert_eq.
  - unfold alloc in E |- *. cbn [snd s_next] in E |- *. rewrite E. intros [= <-]. exact Hi'.
Qed.

Lemma log_reachable_inv s : log_reachable s → log_inv s.
Proof.
  intros (s0 & H0 & Hr). apply LoggerManager_inv in H0.
  induction Hr as [|s1 s2 s3 Hs _ IH]; [done|]. apply IH. by eapply lstep_inv.
Qed.

(** However loggers and appenders are made, changed, shared and configured,
    logging an event, setting a formatter, adding an appender that exists and
    applying a configuration never meet a missing logger, appender or
    formatter, as long as no appender is given a null formatter by hand. *)
Theorem log_safe s name :
  log_reachable s →
  is_ok (getLogger s name) = true ∧
  (∀ l, s_loggers s !! name = Some l →
     (∀ level event, is_ok (log strftime opens 2 s name level event) = true) ∧
     (∀ f, is_ok (setFormatter s name f) = true) ∧ (∀ p, is_ok (setFormatter_pattern s name p) = true) ∧
     (∀ x a, s_apps s !! x = Some a → is_ok (addAppender s name x) = true)) ∧
  (∀ daemon lastTime event old new,
     define_set old → define_set new → Forall (λ d, types_ok (d_appenders d)) new →
     is_ok (on_logs_changed strftime opens daemon lastTime event old new s) = true).
Proof.
  intros Hi%log_reachable_inv. split_and!.
  - by destruct (getLogger_ok s name Hi) as (? & ? & -> & _).
  - intros l Hl. split_and!.
    + intros level event. by destruct (log_ok strftime opens s name l level event Hi Hl) as (? & ? & -> & _).
    + intros f. by destruct (setFormatter_ok s name l f Hi Hl) as (? & -> & _).
    + intros p. by destruct (setFormatter_pattern_ok s name l p Hi Hl) as (? & ? & -> & _).
    + intros x a Ha. by destruct (addAppender_ok s name l x a Hi Hl Ha) as [-> _].
  - intros daemon lastTime event old new Hold Hnew Hty.
    by destruct (on_logs_changed_ok strftime opens daemon lastTime event old new s Hi Hold Hnew Hty) as (? & -> & _).
Qed.

(** Logging an event at a level writes, for a logger whose level allows it,
    one line for each of its appenders whose level allows it, in their order
    and formatted by each; a logger without appenders hands the event to the
    root logger, which filters by its own level; nothing else is written, and no
    logger changes. *)
Theorem log_delivery s name l r level event :
  log_reachable s → s_loggers s !! name = Some l → s_loggers s !! ROOT = Some r →
  NoDup (l_appenders l) → NoDup (l_appenders r) →
  ∃ s', log strftime opens 2 s name level event = Ok s' ∧ s_loggers s' = s_loggers s ∧
    s_out s' = s_out s ++
      if decide (l_level l <= level ∧ l_appenders l = [] ∧ l_root l = true) then written strftime opens s r level event
      else written strftime opens s l level event.
Proof.
  intros Hi%log_reachable_inv Hl Hr Hnl Hnr.
  destruct (log_ok strftime opens s name l level event Hi Hl) as (apps & out & E & _ & _ & Ho).
  eexists. split; [exact E|]. split; [done|]. simpl. by rewrite (Ho r Hr Hnl Hnr).
Qed.

(** C20. When the variable "logs" changes, each definition that is new or changed
    gives its logger the level and exactly the appenders it lists (no standard
    output for a daemon), newly made, with the formatter of the definition where
    that parses and the logger's otherwise; a logger whose definition is gone
    loses its appenders and is silenced by a level above all others; every other
    logger stays as it was. *)
Theorem log_config_applied s daemon lastTime event old new :
  log_reachable s → define_set old → define_set new → Forall (λ d, types_ok (d_appenders d)) new →
  ∃ s', on_logs_changed strftime opens daemon lastTime event old new s = Ok s' ∧
    (∀ d, d ∈ new → d ∉ old → applied daemon (s_next s) s' d) ∧
    (∀ d, d ∈ old → (∀ e, e ∈ new → d_name e ≠ d_name d) →
       ∃ l, s_loggers s' !! d_name d = Some l ∧ l_level l = DELETED ∧ l_appenders l = []) ∧
    (∀ name, (∀ d, d ∈ new → d_name d = name → d ∈ old) →
       (∀ d, d ∈ old → d_name d = name → ∃ e, e ∈ new ∧ d_name e = name) →
       s_loggers s' !! name = s_loggers s !! name).
Proof.
  intros Hi%log_reachable_inv Hold Hnew Hty.
  destruct (on_logs_changed_ok strftime opens daemon lastTime event old new s Hi Hold Hnew Hty)
    as (s' & E & _ & H1 & H2 & H3).
  by exists s'.
Qed.

(** Setting a pattern looks for an error in the formatter the logger already
    has: a pattern in error is accepted, and from then on every further pattern
    is refused, correct ones too. *)
Theorem erroneous_pattern_accepted s name l p f :
  log_reachable s → s_loggers s !! name = Some l → m_error (l_formatter l) = false →
  LogFormatter_new p = Ok f → m_error f = true →
  ∃ s' l', setFormatter_pattern s name p = Ok s' ∧ s_loggers s' !! name = Some l' ∧ l_formatter l' = f ∧
    ∀ p', setFormatter_pattern s' name p' = Ok s'.
Proof.
  intros Hi%log_reachable_inv Hl Hgood Hp Hbad. unfold setFormatter_pattern at 1. rewrite Hp. osimpl.
  rewrite Hl. osimpl. rewrite Hgood. destruct (setFormatter_ok s name l f Hi Hl) as (apps & -> & _ & _).
  eexists _, _. split; [done|]. simpl. rewrite lookup_insert_eq. split; [done|]. split; [done|].
  intros p'. unfold setFormatter_pattern. destruct (LogFormatter_total p') as [f' ->]. osimpl. simpl.
  rewrite lookup_insert_eq. osimpl. simpl. by rewrite Hbad.
Qed.

End theorems.

(** ** A program that has just started *)

Module Started.
Definition sys : LogSystem :=
  match LoggerManager_new with Ok s => s | _ => mkSystem ∅ 0 ∅ [] end.

Definition print_time (fmt : list Z) (t : Z) : list Z := dec t.
Definition no_files (file : list Z) : bool := false.

Lemma sys_new : LoggerManager_new = Ok sys.
Proof. vm_compute. reflexivity. Qed.

Lemma sys_reachable : log_reachable print_time no_files sys.
Proof. exists sys. split; [exact sys_new|apply rtc_refl]. Qed.

Definition with_system : LogSystem :=
  match getLogger sys (text "system") with Ok s => s | _ => sys end.

Lemma with_system_reachable : log_reachable print_time no_files with_system.
Proof.
  exists sys. split; [exact sys_new|]. eapply rtc_l; [|apply rtc_refl]. apply (l_get _ _ _ (text "system")).
  vm_compute. reflexivity.
Qed.

Definition hello : LogEvent := mkEvent (text "a.cc") 7 0 1 (text "main") 2 1000 (text "hello") (text "system") INFO.

Definition root_logger : Logger :=
  match s_loggers with_system !! ROOT with Some l => l | None => mkLogger [] 0 [] (mkFormatter [] [] true) false end.
Definition system_logger : Logger :=
  match s_loggers with_system !! text "system" with Some l => l | None => mkLogger [] 0 [] (mkFormatter [] [] true) false end.

Lemma log_safe_witness : is_ok (log print_time no_files 2 with_system ROOT ERROR hello) = true.
Proof.
  refine (proj1 (proj1 (proj2 (log_safe print_time no_files with_system ROOT with_system_reachable)) root_logger _) ERROR hello).
  vm_compute. reflexivity.
Defined.

(** The logger has no appenders, so that the root logger writes the line. *)
Lemma log_delivery_witness :
  ∃ s', log print_time no_files 2 with_system (text "system") INFO hello = Ok s' ∧
    s_out s' = [(Stdout, text "1000" ++ [9] ++ text "1" ++ [9] ++ text "main" ++ [9] ++ text "2" ++ [9] ++
      text "[INFO]" ++ [9] ++ text "[system]" ++ [9] ++ text "a.cc:7" ++ [9] ++ text "hello" ++ [10])].
Proof.
  destruct (log_delivery print_time no_files with_system (text "system") system_logger root_logger INFO hello)
    as (s' & H1 & _ & H2).
  - exact with_system_reachable.
  - vm_compute. reflexivity.
  - vm_compute. reflexivity.
  - vm_compute. constructor.
  - vm_compute. repeat constructor. by intros ?%elem_of_nil.
  - exists s'. split; [exact H1|]. rewrite H2. vm_compute. reflexivity.
Defined.

(** One definition, for a logger that writes to the standard output. *)
Definition one_define : LogDefine :=
  mkDefine (text "system") ERROR [] [mkAppenderDefine 2 WARN (text "%m%n") []].

Lemma log_config_applied_witness :
  ∃ s', on_logs_changed print_time no_files false (λ _, 0) hello [] [one_define] with_system = Ok s' ∧
    applied false 1 s' one_define.
Proof.
  destruct (log_config_applied print_time no_files with_system false (λ _, 0) hello [] [one_define])
    as (s' & H1 & H2 & _).
  - exact with_system_reachable.
  - constructor.
  - repeat constructor.
  - constructor; [|constructor]. constructor; [by right|constructor].
  - exists s'. split; [exact H1|]. apply (H2 one_define); [by left|by intros ?%elem_of_nil].
Defined.

Lemma erroneous_pattern_accepted_witness :
  ∃ s', setFormatter_pattern with_system ROOT (text "%x") = Ok s' ∧
    setFormatter_pattern s' ROOT (text "%m") = Ok s'.
Proof.
  destruct (erroneous_pattern_accepted print_time no_files with_system ROOT root_logger (text "%x")
    (mkFormatter (text "%x") [StringItem (text "<<error_format %x>>")] true)) as (s' & l' & H1 & _ & _ & H4).
  - exact with_system_reachable.
  - vm_compute. reflexivity.
  - vm_compute. reflexivity.
  - vm_compute. reflexivity.
  - reflexivity.
  - exists s'. split; [exact H1|exact (H4 (text "%m"))].
Defined.
End Started.

(** ** Log statements *)

(** Log statements (the macros of sylar/log.h, with LogEventWrap and LogEvent::format of
    sylar/log.cc): an event is made when a statement starts, gets the texts of its
    arguments, which may contain statements of their own, and is logged at its end. *)

From Stdlib Require Import ZArith Lia.
From stdpp Require Import base numbers gmap option strings tactics sets list.
From S2P Require Import Prelude Text LogFormat Log LogSpec .

Local Open Scope Z_scope.

(** The event that the constructor makes, and streaming into it. *)
Definition LogEvent_new (file : list Z) (line elapse threadId : Z) (threadName : list Z) (fiberId time : Z) (logger : list Z)
    (level : Z) : LogEvent := mkEvent file line elapse threadId threadName fiberId time [] logger level.

Definition stream_text (e : LogEvent) (t : list Z) : LogEvent :=
  mkEvent (m_file e) (m_line e) (m_elapse e) (m_threadId e) (m_threadName e) (m_fiberId e) (m_time e) (m_content e ++ t)
    (m_logger e) (m_elevel e).

(** [format(fmt, ...)]: [vasprintf] gives a text or fails. *)
Definition event_format (e : LogEvent) (printed : option (list Z)) : LogEvent :=
  match printed with Some t => stream_text e t | None => e end.

(** A statement on a logger at a level, with the event it makes, and its arguments: texts
    and formatted texts from left to right, and between them, in the order in which they
    are evaluated, expressions that run a statement. *)
Inductive stmt : Type :=
| LogStmt (logger : list Z) (level : Z) (event : LogEvent) (a : args)
with args : Type :=
| NoMore
| Put (t : list Z) (a : args)
| Format (printed : option (list Z)) (a : args)
| Evaluate (s : stmt) (a : args).

Scheme stmt_mut := Induction for stmt Sort Prop with args_mut := Induction for args Sort Prop.
Combined Scheme stmt_args_ind from stmt_mut, args_mut.

Section statements.
Context (strftime : list Z → Z → list Z) (opens : list Z → bool).

(** [SYLAR_LOG_LEVEL(logger, level) << ...]: the temporary [LogEventWrap] logs the event
    when it is destroyed, at the end of the statement. *)
Fixpoint exec (st : stmt) (s : LogSystem) : outcome LogSystem :=
  match st with
  | LogStmt name level event a =>
    l ← deref (s_loggers s !! name);
    if decide (l_level l <= level) then
      '(event, s) ← run_args a event s;
      log strftime opens 2 s name level event
    else mret s
  end
with run_args (a : args) (event : LogEvent) (s : LogSystem) : outcome (LogEvent * LogSystem) :=
  match a with
  | NoMore => mret (event, s)
  | Put t a => run_args a (stream_text event t) s
  | Format printed a => run_args a (event_format event printed) s
  | Evaluate st a => s ← exec st s; run_args a event s
  end.

(** [Logger::debug] and the others. *)
Definition log_debug (s : LogSystem) (name : list Z) := log strftime opens 2 s name DEBUG.
Definition log_infor (s : LogSystem) (name : list Z) := log strftime opens 2 s name INFO.
Definition log_warn (s : LogSystem) (name : list Z) := log strftime opens 2 s name WARN.
Definition log_error (s : LogSystem) (name : list Z) := log strftime opens 2 s name ERROR.
Definition log_fatal (s : LogSystem) (name : list Z) := log strftime opens 2 s name FATAL.

(** ** The order of the events *)

(** Whether a statement is enabled. *)
Definition enabled (loggers : gmap (list Z) Logger) (name : list Z) (level : Z) : bool :=
  match loggers !! name with Some l => bool_decide (l_level l <= level) | None => false end.

(** The text of a statement. *)
Fixpoint args_text (a : args) : list Z :=
  match a with
  | NoMore => []
  | Put t a => t ++ args_text a
  | Format printed a => default [] printed ++ args_text a
  | Evaluate _ a => args_text a
  end.

(** The events of a statement in the order in which they are logged: those of its
    arguments before its own, and none at all if it is not enabled. *)
Fixpoint events (loggers : gmap (list Z) Logger) (st : stmt) : list (list Z * Z * LogEvent) :=
  match st with
  | LogStmt name level event a =>
    if enabled loggers name level
    then args_events loggers a ++ [(name, level, stream_text event (args_text a))] else []
  end
with args_events (loggers : gmap (list Z) Logger) (a : args) : list (list Z * Z * LogEvent) :=
  match a with
  | NoMore => []
  | Put _ a | Format _ a => args_events loggers a
  | Evaluate st a => events loggers st ++ args_events loggers a
  end.

#[local] Arguments log : simpl never.

(** Logging events one after the other. *)
Fixpoint log_all (s : LogSystem) (l : list (list Z * Z * LogEvent)) : outcome LogSystem :=
  match l with
  | [] => mret s
  | (name, level, event) :: l => s ← log strftime opens 2 s name level event; log_all s l
  end.

(** The loggers that statements name. *)
Fixpoint named (st : stmt) : list (list Z) :=
  match st with LogStmt name _ _ a => name :: args_named a end
with args_named (a : args) : list (list Z) :=
  match a with
  | NoMore => []
  | Put _ a | Format _ a => args_named a
  | Evaluate st a => named st ++ args_named a
  end.

Lemma log_all_app l : ∀ s l', log_all s (l ++ l') = s ← log_all s l; log_all s l'.
Proof.
  induction l as [|[[name level] event] l IH]; intros s l'; [done|]. simpl.
  destruct (log strftime opens 2 s name level event) as [s1| |]; [apply IH|reflexivity|reflexivity].
Qed.

Lemma stream_nil e : stream_text e [] = e.
Proof. destruct e. unfold stream_text. simpl. by rewrite app_nil_r. Qed.

Lemma stream_app e t u : stream_text (stream_text e t) u = stream_text e (t ++ u).
Proof. unfold stream_text. simpl. by rewrite (assoc_L (++)). Qed.

(** The events, and that nothing fails. *)
Lemma exec_events :
  (∀ st s, log_inv s → (∀ n, n ∈ named st → is_Some (s_loggers s !! n)) →
    ∃ s', exec st s = Ok s' ∧ log_all s (events (s_loggers s) st) = Ok s' ∧ log_inv s' ∧ s_loggers s' = s_loggers s) ∧
  (∀ a event s, log_inv s → (∀ n, n ∈ args_named a → is_Some (s_loggers s !! n)) →
    ∃ s', run_args a event s = Ok (stream_text event (args_text a), s') ∧
      log_all s (args_events (s_loggers s) a) = Ok s' ∧ log_inv s' ∧ s_loggers s' = s_loggers s).
Proof.
  apply stmt_args_ind.
  - intros name level event a IH s Hi Hn. destruct (Hn name ltac:(by left)) as [l Hl]. simpl. rewrite Hl. osimpl.
    unfold enabled. rewrite Hl. case_decide as Hlev; [|rewrite bool_decide_false by done; by exists s].
    rewrite bool_decide_true by done. destruct (IH event s Hi) as (s1 & -> & E & Hi1 & Hs1); [intros n ?; apply Hn; by right|].
    osimpl. rewrite log_all_app, E. osimpl. cbn [log_all].
    destruct (log_ok strftime opens s1 name l level (stream_text event (args_text a)) Hi1) as (apps & out & -> & Hk & Hd & _);
      [by rewrite Hs1|]. osimpl. eexists. split_and!; [done|done| |done]. by apply log_inv_after.
  - intros event s Hi _. exists s. simpl. by rewrite stream_nil.
  - intros t a IH event s Hi Hn. destruct (IH (stream_text event t) s Hi Hn) as (s1 & E & ?). exists s1.
    simpl. by rewrite E, stream_app.
  - intros [t|] a IH event s Hi Hn; simpl.
    + destruct (IH (stream_text event t) s Hi Hn) as (s1 & E & ?). exists s1. by rewrite E, stream_app.
    + by apply IH.
  - intros st IHst a IHa event s Hi Hn. simpl in *. destruct (IHst s Hi) as (s1 & -> & E1 & Hi1 & Hs1); [set_solver|]. osimpl.
    destruct (IHa event s1 Hi1) as (s2 & -> & E2 & Hi2 & Hs2); [rewrite Hs1; set_solver|]. exists s2.
    rewrite log_all_app, E1. osimpl. rewrite <-Hs1. split_and!; [done|done|done|]. by rewrite Hs2.
Qed.

End statements.

(** A log statement in any state of the loggers: it logs exactly the events of its
    statements, each once, with the whole text of its arguments, in the order in which
    they end; a statement that its logger's level excludes logs nothing, and neither do
    the statements in its arguments, which are not evaluated. *)
Theorem statement_events strftime opens s st :
  log_reachable strftime opens s → (∀ n, n ∈ named st → is_Some (s_loggers s !! n)) →
  ∃ s', exec strftime opens st s = Ok s' ∧ log_all strftime opens s (events (s_loggers s) st) = Ok s' ∧
    s_loggers s' = s_loggers s.
Proof.
  intros Hi%log_reachable_inv Hn. destruct (proj1 (exec_events strftime opens) st s Hi Hn) as (s' & ? & ? & _ & ?). by exists s'.
Qed.
