(* ===== verification/HashUtil.v ===== *)
(** Hashes, text encodings and string helpers (sylar/util/hash_util.cc).
    Strings are the lists of their bytes. *)

From Stdlib Require Import ZArith Lia.
From stdpp Require Import base numbers option strings tactics list list_numbers.
From S2P Require Import Prelude Text Endian.

Local Open Scope Z_scope.

(** ** Hashes *)

(** [ROTL(x, r)] on 32 bits. *)
Definition ROTL (x r : Z) : Z := Z.lor (u32 (Z.shiftl x r)) (Z.shiftr x (32 - r)).

Definition fmix32 (h : Z) : Z :=
  let h := Z.lxor h (Z.shiftr h 16) in
  let h := u32 (h * 0x85ebca6b) in
  let h := Z.lxor h (Z.shiftr h 13) in
  let h := u32 (h * 0xc2b2ae35) in
  Z.lxor h (Z.shiftr h 16).

(** The scrambling of one block, and its mixing into [h]. *)
Definition murmur_scramble (s : Z) : Z :=
  u32 (ROTL (u32 (s * 0xcc9e2d51)) 15 * 0x1b873593).

Definition murmur_mix (h s : Z) : Z :=
  u32 (u32 (ROTL (Z.lxor h (murmur_scramble s)) 13 * 5) + 0xe6546b64).

(** The block loop; blocks are loaded in the byte order of the machine. *)
Fixpoint murmur_blocks (native : endian) (blk : nat) (data : list Z) (h : Z) : Z :=
  match blk with
  | O => h
  | S blk =>
    murmur_blocks native blk (drop 4 data) (murmur_mix h (of_memory native uint32_t (take 4 data)))
  end.

(** The [switch (len & 3)] on the bytes after the last block. *)
Definition murmur_tail (tail : list Z) (h : Z) : Z :=
  match tail with
  | [] => h
  | [t0] => Z.lxor h (murmur_scramble t0)
  | [t0; t1] => Z.lxor h (murmur_scramble (Z.lor (Z.shiftl t1 8) t0))
  | t0 :: t1 :: t2 :: _ =>
    Z.lxor h (murmur_scramble (Z.lor (Z.lor (Z.shiftl t2 16) (Z.shiftl t1 8)) t0))
  end.

(** [murmur3_hash(data, size, seed)]; a null pointer is [None]. *)
Definition murmur3_hash (native : endian) (data : option (list Z)) (seed : Z) : Z :=
  match data with
  | None => 0
  | Some str =>
    let len := length str in
    let blk := (len / 4)%nat in
    let h := murmur_blocks native blk str seed in
    fmix32 (Z.lxor (murmur_tail (drop (blk * 4) str) h) (u32 (s32 (Z.of_nat len))))
  end.

(** [murmur3_hash(str, seed)]. *)
Definition murmur3_hash_str (native : endian) (str : option (list Z)) (seed : Z) : Z :=
  murmur3_hash native (c_str <$> str) seed.

Definition murmur3_hash64 (native : endian) (str : option (list Z)) (seed seed2 : Z) : Z :=
  Z.lor (u64 (Z.shiftl (murmur3_hash native str seed) 32)) (murmur3_hash native str seed2).

Definition murmur3_hash64_str (native : endian) (str : option (list Z)) (seed seed2 : Z) : Z :=
  Z.lor (u64 (Z.shiftl (murmur3_hash_str native str seed) 32)) (murmur3_hash_str native str seed2).

(** [quick_hash(str)]: [char] is signed. *)
Definition quick_step (h c : Z) : Z := u32 (31 * h + swrap 8 c).

Definition quick_hash (str : list Z) : Z := foldl quick_step 0 (c_str str).

(** [quick_hash(tmp, size)]: the pointer is not advanced. *)
Definition quick_hash_mem (tmp : list Z) : Z :=
  foldl (λ h _, quick_step h (default 0 (tmp !! 0%nat))) 0 tmp.

(** ** Base64 *)

Definition base64 : list Z :=
  bytes_of_string "ABCDEFGHIJKLMNOPQRSTUVWXYZabcdefghijklmnopqrstuvwxyz0123456789+/".

(** The index of a character, [None] where the decoder gives up. *)
Definition base64_index (c : Z) : option Z :=
  if decide (65 <= c <= 90) then Some (c - 65)
  else if decide (97 <= c <= 122) then Some (c - 97 + 26)
  else if decide (48 <= c <= 57) then Some (c - 48 + 52)
  else if decide (c = 43) then Some 62
  else if decide (c = 47) then Some 63
  else None.

(** The inner loop of [base64decode]: [n] characters are still to come. [None]
    is the early return of an empty string. *)
Fixpoint decode_quad (n : nat) (ptr : list Z) (padding packed : Z) :
    option (nat * list Z * Z * Z) :=
  match n, ptr with
  | S n, c :: ptr =>
    if decide (c = 61) then decode_quad n ptr (padding + 1) (s32 (Z.shiftl packed 6))
    else if decide (0 < padding) then None
    else match base64_index c with
         | Some val => decode_quad n ptr padding (Z.lor (s32 (Z.shiftl packed 6)) val)
         | None => None
         end
  | _, _ => Some (n, ptr, padding, packed)
  end.

(** The bytes one quad writes. *)
Definition quad_bytes (padding packed : Z) : list Z :=
  [Z.land (Z.shiftr packed 16) 255] ++
  (if decide (padding ≠ 2) then [Z.land (Z.shiftr packed 8) 255] else []) ++
  (if decide (padding = 0) then [Z.land packed 255] else []).

(** The outer loop; [room] is what is left of the result's buffer, and writing
    beyond it is undefined. *)
Fixpoint decode_loop (fuel : nat) (ptr : list Z) (room : nat) (written : list Z) :
    outcome (list Z) :=
  match fuel with
  | O => Stuck
  | S fuel =>
    match ptr with
    | [] => Ok written
    | _ =>
      match decode_quad 4 ptr 0 0 with
      | None => Ok []
      | Some (n, ptr, padding, packed) =>
        if decide (n ≠ 0%nat) then Ok [] else
        if decide (0 < padding ∧ ptr ≠ []) then Ok [] else
        if decide (2 < padding) then Ok [] else
        let bytes := quad_bytes padding packed in
        if decide (room < length bytes)%nat then Stuck
        else decode_loop fuel ptr (room - length bytes) (written ++ bytes)
      end
    end
  end.

Definition base64decode (src : list Z) : outcome (list Z) :=
  decode_loop (S (length src)) src (length src * 3 / 4) [].

(** [for (; i < 3; ++i) packed <<= 8]. *)
Fixpoint shift_bytes (n : nat) (packed : Z) : Z :=
  match n with
  | O => packed
  | S n => shift_bytes n (u32 (Z.shiftl packed 8))
  end.

(** The characters [base64encode] appends for up to three bytes. *)
Definition encode_triple (chunk : list Z) : list Z :=
  let packed := foldl (λ p b, Z.lor (u32 (Z.shiftl p 8)) b) 0 chunk in
  let packed := shift_bytes (3 - length chunk) packed in
  let padding := match length chunk with 1%nat => 2%nat | 2%nat => 1%nat | _ => 0%nat end in
  let char i := default 0 (base64 !! Z.to_nat i) in
  [char (Z.shiftr packed 18); char (Z.land (Z.shiftr packed 12) 63)] ++
  (if decide (padding ≠ 2%nat) then [char (Z.land (Z.shiftr packed 6) 63)] else []) ++
  (if decide (padding = 0%nat) then [char (Z.land packed 63)] else []) ++
  replicate padding 61.

Fixpoint encode_loop (fuel : nat) (ptr : list Z) : list Z :=
  match fuel, ptr with
  | S fuel, _ :: _ => encode_triple (take 3 ptr) ++ encode_loop fuel (drop 3 ptr)
  | _, _ => []
  end.

Definition base64encode (data : list Z) : list Z := encode_loop (length data) data.

(** ** Keyed hashes *)

Section digests.
(** The digest of OpenSSL over the concatenation of what is fed to it. *)
Context (digest : list Z → list Z).

(** [hmac<...>(text, key)] for block size [B]. *)
Definition hmac (B : nat) (text key : list Z) : list Z :=
  let keyLocal := if decide (B < length key)%nat then digest key else key in
  let keyLocal := keyLocal ++ replicate (B - length keyLocal) 0 in
  let ipad := (λ c, Z.lxor c 0x36) <$> keyLocal in
  let opad := (λ c, Z.lxor c 0x5c) <$> keyLocal in
  digest (take B opad ++ digest (take B ipad ++ text)).

End digests.

(** ** Hexadecimal *)

Definition hex_char (c : Z) : Z := if decide (9 < c) then c + 97 - 10 else c + 48.

(** [hexstring_from_data]. *)
Definition hexstring_from_data (data : list Z) : list Z :=
  mjoin ((λ b, [hex_char (Z.land (Z.shiftr b 4) 15); hex_char (Z.land b 15)]) <$> data).

(** [md5] and [sha1]: the digest in hexadecimal. *)
Definition hex_digest (digest : list Z → list Z) (data : list Z) : list Z :=
  hexstring_from_data (digest data).

(** The [switch] on a hexadecimal character. *)
Definition hex_value (c : Z) : option Z :=
  if decide (97 <= c <= 102) then Some (c - 97 + 10)
  else if decide (65 <= c <= 70) then Some (c - 65 + 10)
  else if decide (48 <= c <= 57) then Some (c - 48)
  else None.

Fixpoint unhex_loop (s : list Z) : outcome (list Z) :=
  match s with
  | hi :: lo :: s =>
    match hex_value hi, hex_value lo with
    | Some h, Some l => rest ← unhex_loop s; mret (Z.lor (u8 (Z.shiftl h 4)) l :: rest)
    | _, _ => Throw (invalid_argument "data_from_hexstring invalid hexstring")
    end
  | _ => mret []
  end.

(** [data_from_hexstring]. *)
Definition data_from_hexstring (hexstring : list Z) : outcome (list Z) :=
  if decide (length hexstring mod 2 ≠ 0)%nat
  then Throw (invalid_argument "data_from_hexstring length % 2 != 0")
  else unhex_loop hexstring.

(** ** Strings *)

(** [replace(str, char, char)]. *)
Fixpoint replace_char_loop (fuel : nat) (str : list Z) (find replaceWith : Z)
    (index : option nat) : outcome (list Z) :=
  match fuel, index with
  | _, None => Ok str
  | O, _ => Stuck
  | S fuel, Some index =>
    let str := <[index := replaceWith]> str in
    replace_char_loop fuel str find replaceWith
      (find_from (λ c, bool_decide (c = find)) str (index + 1))
  end.

Definition replace_char (str : list Z) (find replaceWith : Z) : outcome (list Z) :=
  replace_char_loop (length str) str find replaceWith
    (find_from (λ c, bool_decide (c = find)) str 0).

(** The loop of the other two [replace]: [skip] characters are replaced at each
    match and the search goes on behind the replacement. *)
Fixpoint replace_loop (fuel : nat) (search : list Z → nat → option nat) (skip : nat)
    (str replaceWith : list Z) (index : option nat) : outcome (list Z) :=
  match fuel, index with
  | _, None => Ok str
  | O, _ => Stuck
  | S fuel, Some index =>
    let str := take index str ++ replaceWith ++ drop (index + skip) str in
    replace_loop fuel search skip str replaceWith (search str (index + length replaceWith)%nat)
  end.

(** [replace(str, char, string)]. *)
Definition replace_char_string (str : list Z) (find : Z) (replaceWith : list Z) :
    outcome (list Z) :=
  let search s from := find_from (λ c, bool_decide (c = find)) s from in
  replace_loop (length str) search 1 str replaceWith (search str 0%nat).

(** [replace(str, string, string)]. *)
Definition replace_string (str find replaceWith : list Z) : outcome (list Z) :=
  replace_loop (S (length str)) (find_sub_from find) (length find) str replaceWith
    (find_sub_from find str 0%nat).

(** The loop of [split]: [max] is unsigned, and [~0] means no limit. *)
Fixpoint split_loop (fuel : nat) (P : Z → bool) (str : list Z) (last : nat) (max : Z)
    (pos : option nat) : outcome (list (list Z)) :=
  match fuel, pos with
  | _, None => Ok [drop last str]
  | O, _ => Stuck
  | S fuel, Some pos =>
    let piece := slice last (pos - last) str in
    let last := (pos + 1)%nat in
    let max := u64 (max - 1) in
    rest ← (if decide (max = 1) then Ok [drop last str]
            else split_loop fuel P str last max (find_from P str last));
    mret (piece :: rest)
  end.

Definition split_by (P : Z → bool) (str : list Z) (max : Z) : outcome (list (list Z)) :=
  match str with
  | [] => Ok []
  | _ => split_loop (length str) P str 0 max (find_from P str 0)
  end.

(** [split(str, delim, max)] and [split(str, delims, max)]. *)
Definition split (str : list Z) (delim max : Z) : outcome (list (list Z)) :=
  split_by (λ c, bool_decide (c = delim)) str max.

Definition split_any (str delims : list Z) (max : Z) : outcome (list (list Z)) :=
  split_by (λ c, bool_decide (c ∈ delims)) str max.

(** [random_string(len)]; [CHARS] counts its terminating zero. *)
Definition CHARS : list Z :=
  bytes_of_string "0123456789abcdefghijklmnopqrstuvwxyzABCDEFGHIJKLMNOPQRSTUVWXYZ" ++ [0].

Definition random_string (rand : list Z) : list Z :=
  (λ r, default 0 (CHARS !! Z.to_nat (r mod Z.of_nat (length CHARS)))) <$> rand.

(** ** Base64 round trip *)

Section base64_proofs.

Definition b64char (i : Z) : Z := default 0 (base64 !! Z.to_nat i).

(** The decoder's ranges invert the encoder's table. *)
Lemma base64_index_char i :
  0 <= i < 64 → base64_index (b64char i) = Some i ∧ b64char i ≠ 61.
Proof.
  intros Hi.
  assert (Forall (λ i, base64_index (b64char i) = Some i ∧ b64char i ≠ 61) (seqZ 0 64)) as Hall.
  { vm_compute. repeat (constructor; [split; [reflexivity|discriminate]|]). constructor. }
  rewrite Forall_forall in Hall. apply Hall, elem_of_seqZ. lia.
Qed.

Lemma pack_step p v n :
  0 <= p → p * 2 ^ n + v < 2 ^ 31 → 0 <= n → 0 <= v < 2 ^ n →
  Z.lor (s32 (Z.shiftl p n)) v = p * 2 ^ n + v ∧ Z.lor (u32 (Z.shiftl p n)) v = p * 2 ^ n + v.
Proof.
  intros Hp Hlt Hn Hv.
  assert (0 <= Z.shiftl p n < 2 ^ 31) by (rewrite Z.shiftl_mul_pow2 by done; lia).
  rewrite swrap_small, uwrap_small by (unfold in_signed, in_unsigned; lia).
  by rewrite lor_shiftl_add.
Qed.

Lemma decode_quad_char n ptr packed i :
  0 <= i < 64 → 0 <= packed < 2 ^ 18 →
  decode_quad (S n) (b64char i :: ptr) 0 packed = decode_quad n ptr 0 (packed * 64 + i).
Proof.
  intros Hi Hp. destruct (base64_index_char i Hi) as [Hidx Hne]. cbn [decode_quad].
  rewrite decide_False, decide_False, Hidx by (done || lia).
  destruct (pack_step packed i 6) as [-> _]; [lia..|]. done.
Qed.

Lemma decode_quad_pad n ptr padding packed :
  0 <= packed < 2 ^ 18 →
  decode_quad (S n) (61 :: ptr) padding packed = decode_quad n ptr (padding + 1) (packed * 64).
Proof.
  intros Hp. cbn [decode_quad]. rewrite decide_True by done.
  rewrite swrap_small by (unfold in_signed; rewrite ?Z.shiftl_mul_pow2 by lia; lia).
  by rewrite Z.shiftl_mul_pow2.
Qed.

(** The four sextets of a packed word. *)
Lemma sextets p :
  0 <= p < 2 ^ 24 →
  Z.shiftr p 18 = p / 2 ^ 18 ∧ Z.land (Z.shiftr p 12) 63 = p / 2 ^ 12 mod 64 ∧
  Z.land (Z.shiftr p 6) 63 = p / 2 ^ 6 mod 64 ∧ Z.land p 63 = p mod 64.
Proof.
  intros Hp. change 63 with (2 ^ 6 - 1). rewrite !land_low, !Z.shiftr_div_pow2 by lia. done.
Qed.

Lemma octets p :
  Z.land (Z.shiftr p 16) 255 = p / 2 ^ 16 mod 256 ∧
  Z.land (Z.shiftr p 8) 255 = p / 2 ^ 8 mod 256 ∧ Z.land p 255 = p mod 256.
Proof. change 255 with (2 ^ 8 - 1). rewrite !land_low, !Z.shiftr_div_pow2 by lia. done. Qed.

Lemma pack3 a b c :
  is_byte a → is_byte b → is_byte c →
  Z.lor (u32 (Z.shiftl (Z.lor (u32 (Z.shiftl (Z.lor (u32 (Z.shiftl 0 8)) a) 8)) b) 8)) c =
  (a * 256 + b) * 256 + c.
Proof.
  unfold is_byte. intros Ha Hb Hc.
  destruct (pack_step 0 a 8) as [_ ->]; [lia..|].
  destruct (pack_step (0 * 2 ^ 8 + a) b 8) as [_ ->]; [lia..|].
  destruct (pack_step ((0 * 2 ^ 8 + a) * 2 ^ 8 + b) c 8) as [_ ->]; lia.
Qed.

Lemma encode_triple_eq chunk :
  Forall is_byte chunk → (0 < length chunk ≤ 3)%nat →
  ∃ p, 0 <= p < 2 ^ 24 ∧
    let i k := p / 2 ^ k mod 64 in
    encode_triple chunk =
      match length chunk with
      | 1%nat => [b64char (i 18); b64char (i 12); 61; 61]
      | 2%nat => [b64char (i 18); b64char (i 12); b64char (i 6); 61]
      | _ => [b64char (i 18); b64char (i 12); b64char (i 6); b64char (i 0)]
      end ∧
    match length chunk with
    | 1%nat => p mod 2 ^ 16 = 0 ∧ chunk = [p / 2 ^ 16 mod 256]
    | 2%nat => p mod 2 ^ 8 = 0 ∧ chunk = [p / 2 ^ 16 mod 256; p / 2 ^ 8 mod 256]
    | _ => chunk = [p / 2 ^ 16 mod 256; p / 2 ^ 8 mod 256; p mod 256]
    end.
Proof.
  intros Hb Hl. destruct chunk as [|a [|b [|c [|]]]]; simpl in Hl; [lia| | | |lia];
    repeat (apply Forall_cons in Hb as [? Hb]).
  - exists (a * 65536). unfold is_byte in *.
    assert (0 <= a * 65536 < 2 ^ 24) as Hp by lia. split; [done|].
    destruct (sextets _ Hp) as (E1 & E2 & E3 & E4). cbn [length].
    assert (Z.lor (u32 (Z.shiftl 0 8)) a = a) as E by (destruct (pack_step 0 a 8) as [_ ->]; lia).
    unfold encode_triple. cbn [length foldl Nat.sub shift_bytes]. rewrite E.
    assert (u32 (Z.shiftl (u32 (Z.shiftl a 8)) 8) = a * 65536) as ->.
    { rewrite !Z.shiftl_mul_pow2, (uwrap_small 32 (a * 2 ^ 8)), uwrap_small
        by (unfold in_unsigned; lia). lia. }
    rewrite E1, E2, decide_False, decide_False by lia. simpl replicate. cbn [app].
    split; [|split; [dlia|f_equal; dlia]].
    unfold b64char. do 3 f_equal. rewrite Z.mod_small; [done|]. dlia.
  - exists ((a * 256 + b) * 256). unfold is_byte in *.
    assert (0 <= (a * 256 + b) * 256 < 2 ^ 24) as Hp by lia. split; [done|].
    destruct (sextets _ Hp) as (E1 & E2 & E3 & E4). cbn [length].
    assert (Z.lor (u32 (Z.shiftl (Z.lor (u32 (Z.shiftl 0 8)) a) 8)) b = a * 256 + b) as E.
    { destruct (pack_step 0 a 8) as [_ ->]; [lia..|].
      destruct (pack_step (0 * 2 ^ 8 + a) b 8) as [_ ->]; lia. }
    unfold encode_triple. cbn [length foldl Nat.sub shift_bytes]. rewrite E.
    assert (u32 (Z.shiftl (a * 256 + b) 8) = (a * 256 + b) * 256) as ->.
    { rewrite Z.shiftl_mul_pow2, uwrap_small by (unfold in_unsigned; lia). lia. }
    rewrite E1, E2, E3, decide_True, decide_False by lia. simpl replicate. cbn [app].
    split; [|split; [dlia|repeat f_equal; dlia]].
    unfold b64char. do 3 f_equal. rewrite Z.mod_small; [done|]. dlia.
  - exists ((a * 256 + b) * 256 + c). pose proof (pack3 a b c) as E. unfold is_byte in *.
    assert (0 <= (a * 256 + b) * 256 + c < 2 ^ 24) as Hp by lia. split; [done|].
    destruct (sextets _ Hp) as (E1 & E2 & E3 & E4). cbn [length].
    unfold encode_triple. cbn [length foldl Nat.sub shift_bytes]. rewrite E by done.
    rewrite E1, E2, E3, E4, decide_True, decide_True by lia. simpl replicate. cbn [app].
    split; [|repeat f_equal; dlia].
    unfold b64char. rewrite Z.pow_0_r, Z.div_1_r. do 3 f_equal. rewrite Z.mod_small; [done|]. dlia.
Qed.


(** One turn of the decoder's outer loop. *)
Lemma decode_step fuel ptr rest padding packed room written :
  decode_quad 4 ptr 0 0 = Some (0%nat, rest, padding, packed) → ptr ≠ [] →
  (padding = 0 ∨ 0 < padding <= 2 ∧ rest = []) →
  (length (quad_bytes padding packed) ≤ room)%nat →
  decode_loop (S fuel) ptr room written =
  decode_loop fuel rest (room - length (quad_bytes padding packed))
    (written ++ quad_bytes padding packed).
Proof.
  intros Hq Hne Hpad Hroom. destruct ptr as [|c ptr]; [done|]. cbn [decode_loop]. rewrite Hq.
  rewrite decide_False by (by intros []). rewrite decide_False by (destruct Hpad as [|[? ->]]; [lia|]; by intros []).
  rewrite decide_False by lia. by rewrite decide_False by lia.
Qed.

(** The three shapes of a quad. *)
Lemma decode_quad_shapes i j k l rest :
  0 <= i < 64 → 0 <= j < 64 → 0 <= k < 64 → 0 <= l < 64 →
  decode_quad 4 (b64char i :: b64char j :: 61 :: 61 :: rest) 0 0 =
    Some (0%nat, rest, 2, ((i * 64 + j) * 64) * 64) ∧
  decode_quad 4 (b64char i :: b64char j :: b64char k :: 61 :: rest) 0 0 =
    Some (0%nat, rest, 1, ((i * 64 + j) * 64 + k) * 64) ∧
  decode_quad 4 (b64char i :: b64char j :: b64char k :: b64char l :: rest) 0 0 =
    Some (0%nat, rest, 0, ((i * 64 + j) * 64 + k) * 64 + l).
Proof.
  intros Hi Hj Hk Hl. rewrite !(decode_quad_char 3), !(decode_quad_char 2) by lia.
  rewrite !(decode_quad_char 1), !(decode_quad_char 0), !(decode_quad_pad 1), !(decode_quad_pad 0) by lia.
  done.
Qed.

(** Decoding the characters of one chunk gives the chunk back. *)
Lemma decode_chunk fuel chunk rest room written :
  Forall is_byte chunk → (0 < length chunk ≤ 3)%nat → (length chunk ≤ room)%nat →
  (rest = [] ∨ length chunk = 3%nat) →
  decode_loop (S fuel) (encode_triple chunk ++ rest) room written =
  decode_loop fuel rest (room - length chunk) (written ++ chunk).
Proof.
  intros Hb Hl Hroom Hrest.
  destruct (encode_triple_eq chunk Hb Hl) as (p & Hp & -> & Hchunk).
  destruct (octets p) as (O1 & O2 & O3).
  assert (∀ k, 0 <= p / 2 ^ k mod 64 < 64) as Hi by (intros; apply Z.mod_pos_bound; lia).
  destruct (decode_quad_shapes (p / 2 ^ 18 mod 64) (p / 2 ^ 12 mod 64) (p / 2 ^ 6 mod 64)
    (p / 2 ^ 0 mod 64) rest (Hi _) (Hi _) (Hi _) (Hi _)) as (D1 & D2 & D3).
  destruct (length chunk) as [|[|[|[|n]]]] eqn:El; [lia| | | |lia]; cbn [app].
  - destruct Hrest as [->|?]; [|done]. destruct Hchunk as [Hz Hc].
    replace (((_ * 64 + _) * 64) * 64) with p in D1 by (revert Hz Hp; dlia).
    rewrite (decode_step fuel _ _ _ _ room written D1) by (done || (unfold quad_bytes; simpl; lia) || (right; done)).
    unfold quad_bytes. rewrite O1. simpl. by rewrite Hc.
  - destruct Hrest as [->|?]; [|done]. destruct Hchunk as [Hz Hc].
    replace (((_ * 64 + _) * 64 + _) * 64) with p in D2 by (revert Hz Hp; dlia).
    rewrite (decode_step fuel _ _ _ _ room written D2) by (done || (unfold quad_bytes; simpl; lia) || (right; done)).
    unfold quad_bytes. rewrite O1, O2. simpl. by rewrite Hc.
  - replace (((_ * 64 + _) * 64 + _) * 64 + _) with p in D3 by (revert Hp; dlia).
    rewrite (decode_step fuel _ _ _ _ room written D3) by (done || (unfold quad_bytes; simpl; lia) || (left; done)).
    unfold quad_bytes. rewrite O1, O2, O3. simpl. by rewrite Hchunk.
Qed.

Lemma length_encode_triple chunk :
  (0 < length chunk ≤ 3)%nat → length (encode_triple chunk) = 4%nat.
Proof. destruct chunk as [|a [|b [|c [|]]]]; simpl; intros; try lia; done. Qed.

Lemma decode_encode_loop m : ∀ data fuel room written,
  Forall is_byte data → (length data ≤ m)%nat → (length data < fuel)%nat →
  (length data ≤ room)%nat →
  decode_loop fuel (encode_loop m data) room written = Ok (written ++ data).
Proof.
  induction m as [|m IH]; intros data fuel room written Hb Hm Hf Hr.
  - destruct data; [|simpl in Hm; lia]. destruct fuel; [simpl in Hf; lia|].
    simpl. by rewrite app_nil_r.
  - destruct data as [|a data]; [destruct fuel; [simpl in Hf; lia|]; simpl; by rewrite app_nil_r|].
    set (d := a :: data) in *. assert (encode_loop (S m) d = encode_triple (take 3 d) ++ encode_loop m (drop 3 d)) as -> by done.
    assert (0 < length d)%nat by (simpl; lia).
    destruct fuel as [|fuel]; [lia|]. rewrite decode_chunk.
    + rewrite IH; [by rewrite <-(assoc_L (++)), take_drop|..].
      * by apply Forall_drop.
      * rewrite length_drop. lia.
      * rewrite length_drop. lia.
      * rewrite length_drop, length_take. lia.
    + by apply Forall_take.
    + rewrite length_take. lia.
    + rewrite length_take. lia.
    + rewrite length_take. destruct (decide (3 ≤ length d)%nat); [right; lia|left].
      rewrite drop_ge by lia. by destruct m.
Qed.

Lemma length_encode_loop m : ∀ data,
  (length data ≤ m)%nat → (length data ≤ length (encode_loop m data) * 3 / 4)%nat.
Proof.
  induction m as [|m IH]; intros data Hm; [simpl; lia|].
  destruct data as [|a data]; [simpl; lia|]. set (d := a :: data) in *.
  assert (encode_loop (S m) d = encode_triple (take 3 d) ++ encode_loop m (drop 3 d)) as -> by done.
  assert (0 < length d)%nat by (simpl; lia).
  rewrite length_app, length_encode_triple by (rewrite length_take; lia).
  pose proof (IH (drop 3 d)) as Hd. rewrite length_drop in Hd.
  replace ((4 + length (encode_loop m (drop 3 d))) * 3)%nat
    with (length (encode_loop m (drop 3 d)) * 3 + 3 * 4)%nat by lia.
  rewrite Nat.div_add by lia. lia.
Qed.

(** The decoder never writes beyond its buffer. *)
Lemma decode_quad_consumes n : ∀ ptr padding packed n' rest pd pk,
  decode_quad n ptr padding packed = Some (n', rest, pd, pk) →
  (length ptr = n - n' + length rest)%nat ∧ (n' ≤ n)%nat.
Proof.
  induction n as [|n IH]; intros ptr padding packed n' rest pd pk; cbn [decode_quad].
  - intros [= <- <- _ _]. lia.
  - destruct ptr as [|c ptr]; [intros [= <- <- _ _]; simpl; lia|].
    intros H. assert (∃ pd' pk', decode_quad n ptr pd' pk' = Some (n', rest, pd, pk)) as (? & ? & H').
    { repeat case_match; simplify_eq; eauto. }
    apply IH in H' as [? ?]. simpl. lia.
Qed.

Lemma decode_loop_ok fuel : ∀ ptr room written,
  (length ptr < fuel)%nat → (length ptr * 3 / 4 ≤ room)%nat →
  is_ok (decode_loop fuel ptr room written) = true.
Proof.
  induction fuel as [|fuel IH]; intros ptr room written Hf Hr; [lia|]. cbn [decode_loop].
  destruct ptr as [|c ptr]; [done|]. set (p := c :: ptr) in *.
  destruct (decode_quad 4 p 0 0) as [[[[n rest] pd] pk]|] eqn:E; [|done].
  apply decode_quad_consumes in E as [Hc Hn].
  case_decide as H0; [done|]. assert (n = 0%nat) as -> by (destruct n; [done|by destruct H0]).
  case_decide; [done|]. case_decide; [done|].
  assert (length (quad_bytes pd pk) ≤ 3)%nat.
  { unfold quad_bytes. rewrite !length_app. repeat case_decide; simpl; lia. }
  rewrite Hc in Hr.
  replace ((4 - 0 + length rest) * 3)%nat with (length rest * 3 + 3 * 4)%nat in Hr by lia.
  rewrite Nat.div_add in Hr by lia.
  rewrite decide_False by lia. apply IH; lia.
Qed.

End base64_proofs.

(** Base64 decoding inverts encoding on every byte string; and on any input
    whatsoever the decoder returns, without writing beyond the buffer of
    [size * 3 / 4] bytes it allocated. *)
Theorem base64_roundtrip :
  (∀ data, Forall is_byte data → base64decode (base64encode data) = Ok data) ∧
  (∀ src, is_ok (base64decode src) = true).
Proof.
  split.
  - intros data Hb. unfold base64decode, base64encode. apply decode_encode_loop; [done|lia| |].
    + pose proof (length_encode_loop (length data) data). 
      pose proof (Nat.Div0.div_le_upper_bound (length (encode_loop (length data) data) * 3) 4
        (length (encode_loop (length data) data))). lia.
    + by apply length_encode_loop.
  - intros src. apply decode_loop_ok; lia.
Qed.

(** ** Hexadecimal round trip *)

Lemma hex_value_char v : 0 <= v < 16 → hex_value (hex_char v) = Some v.
Proof.
  intros Hv. unfold hex_char, hex_value. repeat case_decide; lia || (f_equal; lia).
Qed.

Lemma unhex_loop_spec s :
  Nat.Even (length s) →
  (unhex_loop s = Throw (invalid_argument "data_from_hexstring invalid hexstring") ∧
     ∃ c, c ∈ s ∧ hex_value c = None) ∨
  ∃ data, unhex_loop s = Ok data ∧ (length s = 2 * length data)%nat ∧
    Forall (λ c, is_Some (hex_value c)) s.
Proof.
  intros He. remember (length s / 2)%nat as n eqn:En.
  assert (length s = 2 * n)%nat as Hn.
  { destruct He as [m Hm]. rewrite Hm, Nat.mul_comm, Nat.div_mul in En by lia. lia. }
  clear He En. revert s Hn. induction n as [|n IH]; intros s Hn.
  - destruct s; [|simpl in Hn; lia]. right. exists []. by split_and!.
  - destruct s as [|hi [|lo s]]; [simpl in Hn; lia..|]. simpl in Hn. cbn [unhex_loop].
    destruct (hex_value hi) as [h|] eqn:Eh; [|left; split; [done|]; exists hi; split; [by left|done]].
    destruct (hex_value lo) as [l|] eqn:El;
      [|left; split; [done|]; exists lo; split; [by right; left|done]].
    destruct (IH s) as [[-> (c & Hc & Hv)]|(data & -> & Hl & Hall)]; [lia| |].
    + left. split; [done|]. exists c. split; [|done]. by do 2 right.
    + right. eexists. split; [done|]. split; [simpl; lia|]. by repeat constructor.
Qed.

Lemma land_15 x : Z.land x 15 = x mod 16.
Proof. by apply (land_low x 4). Qed.

Lemma hexstring_cons b data :
  hexstring_from_data (b :: data) =
  hex_char (Z.land (Z.shiftr b 4) 15) :: hex_char (Z.land b 15) :: hexstring_from_data data.
Proof. done. Qed.

Lemma length_hexstring data : length (hexstring_from_data data) = (length data * 2)%nat.
Proof. induction data as [|b data IH]; [done|]. rewrite hexstring_cons. simpl. lia. Qed.

Lemma unhex_hex data : Forall is_byte data → unhex_loop (hexstring_from_data data) = Ok data.
Proof.
  induction 1 as [|b data Hb _ IH]; [done|].
  rewrite hexstring_cons. cbn [unhex_loop]. unfold is_byte in Hb. rewrite !land_15, Z.shiftr_div_pow2 by lia.
  rewrite !hex_value_char by (apply Z.mod_pos_bound; lia). rewrite IH. osimpl. do 2 f_equal.
  rewrite uwrap_small by (unfold in_unsigned; rewrite Z.shiftl_mul_pow2 by lia; dlia).
  rewrite lor_shiftl_add by (try apply Z.mod_pos_bound; lia). dlia.
Qed.

(** Hexadecimal text: decoding inverts encoding on every byte string; a text
    is rejected with [std::invalid_argument] exactly when its length is odd or
    it has a character that is not a hexadecimal digit, and otherwise decodes
    to half as many bytes. *)
Theorem hex_roundtrip :
  (∀ data, Forall is_byte data → data_from_hexstring (hexstring_from_data data) = Ok data) ∧
  (∀ s, if Nat.even (length s) && bool_decide (Forall (λ c, is_Some (hex_value c)) s)
        then ∃ data, data_from_hexstring s = Ok data ∧ (length s = 2 * length data)%nat
        else ∃ what, data_from_hexstring s = Throw (invalid_argument what)).
Proof.
  split.
  - intros data Hb. unfold data_from_hexstring. rewrite unhex_hex by done.
    rewrite decide_False; [done|]. intros Hx. apply Hx.
    by rewrite length_hexstring, Nat.Div0.mod_mul.
  - intros s. unfold data_from_hexstring. destruct (Nat.even (length s)) eqn:E.
    + apply Nat.even_spec in E. rewrite decide_False by (destruct E as [m ->]; rewrite Nat.mul_comm, Nat.Div0.mod_mul; tauto).
      cbn [andb]. case_bool_decide as Hall.
      * destruct (unhex_loop_spec s E) as [[_ (c & Hc & Hv)]|(data & ? & ? & _)]; [|by exists data].
        rewrite Forall_forall in Hall. destruct (Hall c Hc). congruence.
      * destruct (unhex_loop_spec s E) as [[-> _]|(_ & _ & _ & ?)]; [by eexists|done].
    + cbn [andb]. rewrite decide_True; [by eexists|]. intros Hx.
      apply Nat.Div0.mod_divides in Hx as [m Hm]. rewrite Hm, Nat.even_mul in E. done.
Qed.

(** ** Splitting *)

(** The pieces with the delimiters that stood between them. *)
Fixpoint join (delim : Z) (pieces : list (list Z)) : list Z :=
  match pieces with
  | [] => []
  | [p] => p
  | p :: pieces => p ++ delim :: join delim pieces
  end.

Lemma find_first_spec P s :
  match find_first P s with
  | Some i => ∃ c, s !! i = Some c ∧ P c = true ∧ Forall (λ c, P c = false) (take i s)
  | None => Forall (λ c, P c = false) s
  end.
Proof.
  induction s as [|c s IH]; simpl; [done|]. destruct (P c) eqn:E; [by exists c|].
  destruct (find_first P s) as [i|]; simpl; [|by constructor].
  destruct IH as (d & ? & ? & ?). exists d. split_and!; [done|done|by constructor].
Qed.

Lemma find_from_spec P s from :
  match find_from P s from with
  | Some i => (from ≤ i < length s)%nat ∧ (∃ c, s !! i = Some c ∧ P c = true) ∧
              Forall (λ c, P c = false) (slice from (i - from) s)
  | None => Forall (λ c, P c = false) (drop from s)
  end.
Proof.
  unfold find_from. pose proof (find_first_spec P (drop from s)) as H.
  destruct (find_first P (drop from s)) as [i|]; simpl; [|done].
  destruct H as (c & Hc & HP & Hf). rewrite lookup_drop in Hc.
  pose proof (lookup_lt_Some _ _ _ Hc). split_and!; [lia|lia|by exists c|].
  unfold slice. by replace (from + i - from)%nat with i by lia.
Qed.

Lemma split_loop_spec fuel P str delim : ∀ last max,
  (∀ c, P c = true → c = delim) → (last ≤ length str)%nat →
  (length str - last ≤ fuel)%nat → 2 <= max < 2 ^ 64 →
  ∃ p ps, split_loop fuel P str last max (find_from P str last) = Ok (p :: ps) ∧
    join delim (p :: ps) = drop last str ∧ Z.of_nat (length ps) < max ∧
    (Forall (λ c, P c = false) p) ∧
    (Z.of_nat (length ps) < max - 1 → Forall (Forall (λ c, P c = false)) ps).
Proof.
  induction fuel as [|fuel IH]; intros last max HP Hl Hf Hmax;
    pose proof (find_from_spec P str last) as Hfind;
    destruct (find_from P str last) as [pos|]; cbn [split_loop].
  - destruct Hfind as [? _]. lia.
  - exists (drop last str), []. split_and!; [done|done|simpl; lia|done|done].
  - destruct Hfind as (Hpos & (c & Hc & HPc) & Hpiece).
    assert (u64 (max - 1) = max - 1) as -> by (apply uwrap_small; unfold in_unsigned; lia).
    assert (drop last str = slice last (pos - last) str ++ delim :: drop (pos + 1) str) as Hcut.
    { unfold slice. rewrite <-(take_drop (pos - last) (drop last str)) at 1. f_equal.
      rewrite drop_drop. replace (last + (pos - last))%nat with pos by lia.
      rewrite (drop_S _ _ _ Hc). f_equal; [by apply HP|]. f_equal. lia. }
    case_decide as Hm.
    + osimpl. eexists _, _. split; [done|]. split_and!; [done|simpl; lia|done|].
      simpl. intros. lia.
    + destruct (IH (pos + 1)%nat (max - 1)) as (p & ps & -> & Hj & Hlen & Hp & Hps); [done|lia|lia|lia|].
      osimpl. eexists _, _. split; [done|]. split_and!.
      * rewrite Hcut, <-Hj. done.
      * simpl. lia.
      * done.
      * simpl. intros Hlt. constructor; [done|]. apply Hps. lia.
  - exists (drop last str), []. split_and!; [done|done|simpl; lia|done|done].
Qed.

(** [split] with a limit of at least two always returns, at most [max]
    pieces come out, the pieces with the delimiter between them are the input
    again, and no piece contains the delimiter unless the limit was reached,
    when only the last one may. *)
Theorem split_join str delim max :
  str ≠ [] → 2 <= max < 2 ^ 64 →
  ∃ p ps, split str delim max = Ok (p :: ps) ∧ join delim (p :: ps) = str ∧
    Z.of_nat (length (p :: ps)) <= max ∧ (delim ∉ p) ∧
    (Z.of_nat (length (p :: ps)) < max → Forall (λ q, delim ∉ q) ps).
Proof.
  intros Hne Hmax. unfold split, split_by.
  destruct (split_loop_spec (length str) (λ c, bool_decide (c = delim)) str delim 0 max)
    as (p & ps & Hs & Hj & Hlen & Hp & Hps); [|lia|lia|done|].
  { intros c. apply bool_decide_eq_true. }
  assert (∀ q, Forall (λ c, bool_decide (c = delim) = false) q → delim ∉ q) as Hno.
  { intros q Hq Hin. rewrite Forall_forall in Hq. specialize (Hq delim Hin).
    by rewrite bool_decide_true in Hq. }
  exists p, ps. rewrite drop_0 in Hj. split_and!; [by destruct str|done|simpl; lia|by apply Hno|].
  intros Hlt. eapply Forall_impl; [apply Hps; simpl in Hlt; lia|]. auto.
Qed.

Lemma split_join_witness :
  ∃ p ps, split [97; 44; 98; 44; 99] 44 2 = Ok (p :: ps) ∧ join 44 (p :: ps) = [97; 44; 98; 44; 99].
Proof.
  destruct (split_join [97; 44; 98; 44; 99] 44 2) as (p & ps & Hs & Hj & _).
  - discriminate.
  - lia.
  - exists p, ps. split; [exact Hs|exact Hj].
Defined.

(** The hash of a memory range looks at its first byte and its length only. *)
Lemma quick_hash_mem_first a l l' :
  length l = length l' → quick_hash_mem (a :: l) = quick_hash_mem (a :: l').
Proof.
  intros Hl. unfold quick_hash_mem. simpl. generalize (quick_step 0 a) as h.
  revert l' Hl. induction l as [|x l IH]; intros [|y l'] Hl h; simplify_eq/=; [done|]. auto.
Qed.
