(* ===== verification/Digest.v ===== *)
(** Digests and keyed hashes (md5sum, sha1sum, hmac and its instances in
    sylar/util/hash_util.cc) over the functions of OpenSSL that take a text piece by
    piece. *)

From Stdlib Require Import ZArith Lia.
From stdpp Require Import base numbers option strings tactics list list_numbers.
From S2P Require Import Prelude HashUtil.

Local Open Scope Z_scope.

(** [X_Init], [X_Update] and [X_Final] of a digest, its block and its length. *)
Class Digest : Type := {
  CTX : Type;
  Init : CTX;
  Update : CTX → list Z → CTX;
  Final : CTX → list Z;
  CBLOCK : nat;
  DIGEST_LENGTH : nat
}.

(** How a text is cut up does not matter, and a digest is not longer than a block. *)
Class DigestLaws (D : Digest) : Prop := {
  Update_app c a b : Update c (a ++ b) = Update (Update c a) b;
  Final_length c : length (Final c) = DIGEST_LENGTH;
  digest_fits : (DIGEST_LENGTH <= CBLOCK)%nat
}.

(** [md5sum(data)] and [sha1sum(data)]. *)
Definition sum `{Digest} (data : list Z) : list Z :=
  let ctx := Init in
  let ctx := Update ctx data in
  let result := replicate DIGEST_LENGTH 0 in
  overwrite 0 (Final ctx) result.

(** [hmac<CTX, Init, Update, Final, B, L>(text, key)]. *)
Definition hmac_ctx `{Digest} (text key : list Z) : list Z :=
  let keyLocal := key in
  let keyLocal :=
    if decide (CBLOCK < length keyLocal)%nat then
      let ctx := Update Init keyLocal in
      overwrite 0 (Final ctx) (resize DIGEST_LENGTH 0 keyLocal)
    else keyLocal in
  let keyLocal := keyLocal ++ replicate (CBLOCK - length keyLocal) 0 in
  let ipad := (λ c, Z.lxor c 0x36) <$> keyLocal in
  let opad := (λ c, Z.lxor c 0x5c) <$> keyLocal in
  let ctx := Update Init (take CBLOCK ipad) in
  let ctx := Update ctx text in
  let result := replicate DIGEST_LENGTH 0 in
  let result := overwrite 0 (Final ctx) result in
  let ctx := Update Init (take CBLOCK opad) in
  let ctx := Update ctx (take DIGEST_LENGTH result) in
  overwrite 0 (Final ctx) result.

(** The three instances: MD5, SHA-1 and SHA-256 are digests of OpenSSL. *)
Section instances.
Context (MD5 SHA1 SHA256 : Digest).
Definition hmac_md5 : list Z → list Z → list Z := hmac_ctx (H := MD5).
Definition hmac_sha1 : list Z → list Z → list Z := hmac_ctx (H := SHA1).
Definition hmac_sha256 : list Z → list Z → list Z := hmac_ctx (H := SHA256).
End instances.

(** ** The keyed hash of RFC 2104 *)

(** The key as a block: a long one is hashed first, a short one filled up with zeros. *)
Definition rfc_key `{Digest} (key : list Z) : list Z :=
  let k := if decide (CBLOCK < length key)%nat then Final (Update Init key) else key in
  k ++ replicate (CBLOCK - length k) 0.

Definition rfc2104 `{Digest} (text key : list Z) : list Z :=
  let h data := Final (Update Init data) in
  h (((λ c, Z.lxor c 0x5c) <$> rfc_key key) ++ h (((λ c, Z.lxor c 0x36) <$> rfc_key key) ++ text)).

Section laws.
Context {D : Digest} `{!DigestLaws D}.

(** The keyed hashes of the library are those of RFC 2104, for keys of every length, and
    [md5sum] and [sha1sum] are the digests of the whole text. *)
Theorem hmac_is_rfc2104 (text key : list Z) :
  hmac_ctx text key = rfc2104 text key ∧ sum text = Final (Update Init text) ∧ length (hmac_ctx text key) = DIGEST_LENGTH.
Proof.
  assert (hmac_ctx text key = rfc2104 text key) as E.
  { unfold hmac_ctx, rfc2104, rfc_key.
    assert (overwrite 0 (Final (Update Init key)) (resize DIGEST_LENGTH 0 key) = Final (Update Init key)) as ->
      by (apply overwrite_all; by rewrite Final_length, length_resize).
    set (k := if decide _ then _ else key). assert (length k <= CBLOCK)%nat as Hk.
    { unfold k. case_decide; [rewrite Final_length; apply digest_fits|lia]. }
    assert (length (k ++ replicate (CBLOCK - length k) 0) = CBLOCK) as Hl by (rewrite length_app, length_replicate; lia).
    rewrite !(take_ge (_ <$> _)) by (rewrite length_fmap; lia).
    rewrite !overwrite_all by (by rewrite ?overwrite_all, ?Final_length, ?length_replicate; rewrite ?Final_length, ?length_replicate).
    rewrite take_ge by (by rewrite Final_length). by rewrite !Update_app. }
  split_and!; [done| |by rewrite E; unfold rfc2104; rewrite Final_length].
  unfold sum. apply overwrite_all. by rewrite Final_length, length_replicate.
Qed.

(** The model of [HashUtil], which takes the digest as one function, is the same. *)
Lemma hmac_one_function (text key : list Z) :
  hmac (λ data, Final (Update Init data)) CBLOCK text key = rfc2104 text key.
Proof.
  unfold hmac, rfc2104, rfc_key. set (k := if decide _ then _ else key). assert (length k <= CBLOCK)%nat as Hk.
  { unfold k. case_decide; [rewrite Final_length; apply digest_fits|lia]. }
  by rewrite !(take_ge (_ <$> _)) by (rewrite length_fmap, length_app, length_replicate; lia).
Qed.

End laws.

(** A digest of four bytes: the last ones of the text. *)
Definition last_bytes : Digest :=
  {| CTX := list Z; Init := []; Update := app; Final := λ c, resize 4 0 (reverse c); CBLOCK := 8; DIGEST_LENGTH := 4 |}.

Lemma last_bytes_laws : DigestLaws last_bytes.
Proof. split; simpl; [intros; apply app_assoc|intros; apply length_resize|lia]. Qed.

Lemma hmac_is_rfc2104_witness :
  hmac_ctx (H := last_bytes) [1; 2; 3] [7] = rfc2104 (H := last_bytes) [1; 2; 3] [7] ∧
  hmac_ctx (H := last_bytes) [1; 2; 3] [7] = [0x36; 1; 2; 3].
Proof.
  destruct (hmac_is_rfc2104 (D := last_bytes) (DigestLaws0 := last_bytes_laws) [1; 2; 3] [7]) as (E & _ & _).
  split; [exact E|]. vm_compute. reflexivity.
Defined.
