(* ===== verification/Stream.v ===== *)
(** Byte streams (sylar/stream.h, sylar/stream.cc, sylar/socket_stream.cc): the
    loops that read and write a fixed size over a socket that transfers as
    many bytes as it likes. *)

From Stdlib Require Import ZArith Lia.
From stdpp Require Import base numbers option strings tactics list list_numbers.
From S2P Require Import Prelude.

Local Open Scope Z_scope.

(** What the kernel does at the next call: transfer at most [n] bytes (at least
    one if it can), report the end of the stream, or fail. *)
Inductive io : Type :=
| IoUpTo (n : nat)
| IoClosed
| IoError.

(** A connected stream: the bytes the peer has sent, those sent to it, and the
    kernel's behaviour at the coming calls, unlimited transfers after that. *)
Record Stream : Type := mkStream {
  s_in : list Z;
  s_out : list Z;
  s_io : list io;
  s_open : bool
}.

(** How many of [avail] bytes the kernel transfers. *)
Definition transfer (st : Stream) (avail : nat) : Z :=
  match s_io st with
  | [] => Z.of_nat avail
  | IoUpTo n :: _ => Z.of_nat (avail `min` (n `max` 1))
  | IoClosed :: _ => 0
  | IoError :: _ => -1
  end.

(** [SocketStream::read(buffer, length)]: the result and the bytes stored. *)
Definition stream_read (st : Stream) (length : nat) : Z * list Z * Stream :=
  if s_open st then
    let n := transfer st (length `min` List.length (s_in st)) in
    (n, take (Z.to_nat n) (s_in st),
     mkStream (drop (Z.to_nat n) (s_in st)) (s_out st) (tail (s_io st)) (s_open st))
  else (-1, [], st).

(** [SocketStream::write(buffer, length)]. *)
Definition stream_write (st : Stream) (buffer : list Z) : Z * Stream :=
  if s_open st then
    let n := transfer st (List.length buffer) in
    (n, mkStream (s_in st) (s_out st ++ take (Z.to_nat n) buffer) (tail (s_io st)) (s_open st))
  else (-1, st).

Definition stream_close (st : Stream) : Stream :=
  mkStream (s_in st) (s_out st) (s_io st) false.

(** The [while (left > 0)] loop of [readFixSize]; [None] when it is left
    because nothing is left. *)
Fixpoint readFixSize_loop (fuel : nat) (st : Stream) (left : Z) (buffer : list Z) :
    outcome (option Z * list Z * Stream) :=
  match fuel with
  | O => Stuck
  | S fuel =>
    if decide (0 < left) then
      let '(len, bytes, st) := stream_read st (Z.to_nat left) in
      if decide (len <= 0) then Ok (Some len, buffer, st)
      else readFixSize_loop fuel st (left - len) (buffer ++ bytes)
    else Ok (None, buffer, st)
  end.

(** [Stream::readFixSize(buffer, length)]: [length] is unsigned and becomes an
    [int64_t] in the loop and an [int] in the result. *)
Definition readFixSize (st : Stream) (length : Z) : outcome (Z * list Z * Stream) :=
  let left := s64 length in
  '(r, bytes, st) ← readFixSize_loop (S (Z.to_nat left)) st left [];
  mret (match r with Some len => s32 len | None => s32 length end, bytes, st).

(** [Stream::writeFixSize(buffer, length)]. *)
Fixpoint writeFixSize_loop (fuel : nat) (st : Stream) (buffer : list Z) :
    outcome (option Z * Stream) :=
  match fuel with
  | O => Stuck
  | S fuel =>
    match buffer with
    | [] => Ok (None, st)
    | _ =>
      let '(len, st) := stream_write st buffer in
      if decide (len <= 0) then Ok (Some len, st)
      else writeFixSize_loop fuel st (drop (Z.to_nat len) buffer)
    end
  end.

Definition writeFixSize (st : Stream) (buffer : list Z) : outcome (Z * Stream) :=
  '(r, st) ← writeFixSize_loop (S (length buffer)) st buffer;
  mret (match r with Some len => s32 len | None => s32 (Z.of_nat (length buffer)) end, st).

(** ** Exactness *)

(** A stream on which no call fails. *)
Definition healthy (st : Stream) : Prop :=
  s_open st = true ∧ Forall (λ i, match i with IoUpTo _ => True | _ => False end) (s_io st).

Lemma healthy_tail st l l' :
  healthy st → healthy (mkStream l l' (tail (s_io st)) (s_open st)).
Proof. intros [Ho Hf]. split; [done|]. simpl. destruct Hf; simpl; done. Qed.

Lemma transfer_pos st avail :
  healthy st → (0 < avail)%nat → 0 < transfer st avail <= Z.of_nat avail.
Proof.
  intros [_ Hf] Hp. unfold transfer. destruct Hf as [|[n| |] l Hi _]; [lia|lia|done|done].
Qed.

Lemma transfer_le st avail : -1 <= transfer st avail <= Z.of_nat avail.
Proof. unfold transfer. destruct (s_io st) as [|[n| |] l]; lia. Qed.

Lemma readFixSize_loop_healthy fuel : ∀ st left buffer data rest,
  healthy st → s_in st = data ++ rest → Z.of_nat (length data) = left → (length data < fuel)%nat →
  ∃ st', readFixSize_loop fuel st left buffer = Ok (None, buffer ++ data, st') ∧
    s_in st' = rest ∧ s_out st' = s_out st ∧ healthy st'.
Proof.
  induction fuel as [|fuel IH]; intros st left buffer data rest Hh Hin Hl Hf; [lia|].
  cbn [readFixSize_loop]. case_decide as Hpos.
  - unfold stream_read. rewrite (proj1 Hh). rewrite Hin, length_app.
    replace (Z.to_nat left `min` (length data + length rest))%nat with (length data) by lia.
    pose proof (transfer_pos st (length data) Hh) as Ht.
    set (n := transfer st (length data)) in *. rewrite decide_False by lia.
    destruct (IH (mkStream (drop (Z.to_nat n) (data ++ rest)) (s_out st) (tail (s_io st)) true)
      (left - n) (buffer ++ take (Z.to_nat n) (data ++ rest)) (drop (Z.to_nat n) data) rest)
      as (st' & Hr & Hin' & Hout & Hh').
    + pose proof (healthy_tail st (drop (Z.to_nat n) (data ++ rest)) (s_out st) Hh) as Hht.
      by rewrite (proj1 Hh) in Hht.
    + simpl. apply drop_app_le. lia.
    + rewrite length_drop. lia.
    + rewrite length_drop. lia.
    + exists st'. rewrite Hr. split_and!; try done. do 3 f_equal.
      rewrite <-(assoc_L (++)). f_equal. rewrite take_app_le by lia. apply take_drop.
  - destruct data; [|simpl in Hl; lia]. exists st. rewrite app_nil_r. by split_and!.
Qed.

Lemma s64_nat n : (Z.of_nat n < 2 ^ 31) → s64 (Z.of_nat n) = Z.of_nat n ∧ s32 (Z.of_nat n) = Z.of_nat n.
Proof. intros. rewrite !swrap_small; unfold in_signed; lia. Qed.

Lemma readFixSize_healthy st data rest :
  healthy st → s_in st = data ++ rest → Z.of_nat (length data) < 2 ^ 31 →
  ∃ st', readFixSize st (Z.of_nat (length data)) = Ok (Z.of_nat (length data), data, st') ∧
    s_in st' = rest ∧ s_out st' = s_out st ∧ healthy st'.
Proof.
  intros Hh Hin Hl. unfold readFixSize. destruct (s64_nat (length data) Hl) as [-> E].
  destruct (readFixSize_loop_healthy (S (Z.to_nat (Z.of_nat (length data)))) st
    (Z.of_nat (length data)) [] data rest) as (st' & -> & ?); [done|done|done|lia|].
  osimpl. rewrite E. by exists st'.
Qed.

Lemma writeFixSize_loop_healthy fuel : ∀ st buffer,
  healthy st → (length buffer < fuel)%nat →
  ∃ st', writeFixSize_loop fuel st buffer = Ok (None, st') ∧
    s_in st' = s_in st ∧ s_out st' = s_out st ++ buffer ∧ healthy st'.
Proof.
  induction fuel as [|fuel IH]; intros st buffer Hh Hf; [lia|]. cbn [writeFixSize_loop].
  destruct buffer as [|b buffer]; [exists st; by rewrite app_nil_r|].
  set (buf := b :: buffer) in *. unfold stream_write. rewrite (proj1 Hh).
  pose proof (transfer_pos st (length buf) Hh) as Ht. simpl length in Ht at 1.
  set (n := transfer st (length buf)) in *. rewrite decide_False by lia.
  destruct (IH (mkStream (s_in st) (s_out st ++ take (Z.to_nat n) buf) (tail (s_io st)) true)
    (drop (Z.to_nat n) buf)) as (st' & -> & Hin & Hout & Hh').
  - pose proof (healthy_tail st (s_in st) (s_out st ++ take (Z.to_nat n) buf) Hh) as Hht.
    by rewrite (proj1 Hh) in Hht.
  - rewrite length_drop. simpl in *. lia.
  - exists st'. split_and!; [done|done| |done]. rewrite Hout. simpl.
    by rewrite <-(assoc_L (++)), take_drop.
Qed.

Lemma writeFixSize_healthy st buffer :
  healthy st → Z.of_nat (length buffer) < 2 ^ 31 →
  ∃ st', writeFixSize st buffer = Ok (Z.of_nat (length buffer), st') ∧
    s_in st' = s_in st ∧ s_out st' = s_out st ++ buffer ∧ healthy st'.
Proof.
  intros Hh Hl. unfold writeFixSize.
  destruct (writeFixSize_loop_healthy (S (length buffer)) st buffer) as (st' & -> & ?); [done|lia|].
  osimpl. destruct (s64_nat (length buffer) Hl) as [_ ->]. by exists st'.
Qed.

(** One call of [read] takes a prefix of what the peer sent. *)
Lemma stream_read_spec st n len bytes st' :
  stream_read st n = (len, bytes, st') →
  s_in st = bytes ++ s_in st' ∧ s_out st' = s_out st ∧ s_open st' = s_open st ∧
  (-1 <= len <= 0 ∧ bytes = [] ∨ 0 < len <= Z.of_nat n ∧ Z.of_nat (length bytes) = len).
Proof.
  unfold stream_read. intros E. destruct (s_open st) eqn:Ho; injection E as <- <- <-; simpl;
    [|split_and!; try done; left; split; [lia|done]].
  pose proof (transfer_le st (n `min` length (s_in st))) as Ht. rewrite take_drop.
  split_and!; try done. destruct (decide (transfer st (n `min` length (s_in st)) <= 0)).
  - left. split; [lia|]. replace (Z.to_nat _) with 0%nat by lia. done.
  - right. rewrite length_take. lia.
Qed.

Lemma readFixSize_loop_prefix fuel : ∀ st left buffer r bytes st',
  readFixSize_loop fuel st left buffer = Ok (r, bytes, st') →
  ∃ bs, bytes = buffer ++ bs ∧ s_in st = bs ++ s_in st' ∧ s_out st' = s_out st ∧
    s_open st' = s_open st.
Proof.
  induction fuel as [|fuel IH]; intros st left buffer r bytes st'; [done|].
  cbn [readFixSize_loop]. case_decide; [|intros [= <- <- <-]; exists []; by rewrite app_nil_r].
  destruct (stream_read st (Z.to_nat left)) as [[len bs] st1] eqn:E.
  apply stream_read_spec in E as (Hin & Hout & Hop & Hlen). case_decide.
  - intros [= <- <- <-]. exists []. rewrite app_nil_r. destruct Hlen as [[_ ->]|?]; [done|lia].
  - intros (bs' & -> & Hin' & Hout' & Hop')%IH. exists (bs ++ bs').
    rewrite !(assoc_L (++)) in *. rewrite Hin, Hin'. split_and!; try congruence. by rewrite (assoc_L (++)).
Qed.

(** A stream on which no call fails stays one. *)
Lemma stream_read_healthy st n len bytes st' :
  healthy st → stream_read st n = (len, bytes, st') → healthy st'.
Proof.
  intros Hh. unfold stream_read. pose proof (healthy_tail st) as Ht. rewrite (proj1 Hh) in *.
  intros [= _ _ <-]. by apply Ht.
Qed.

Lemma readFixSize_stays_healthy st length v bytes st' :
  healthy st → readFixSize st length = Ok (v, bytes, st') → healthy st'.
Proof.
  unfold readFixSize. intros Hh ([[r bs] st1] & E & [= _ _ <-])%outcome_bind_ok. revert E.
  generalize (@nil Z), (s64 length) at 2. revert st Hh. generalize (S (Z.to_nat (s64 length))).
  induction n as [|fuel IH]; intros st Hh buffer left; [done|]. cbn [readFixSize_loop].
  case_decide; [|by intros [= _ _ <-]]. destruct (stream_read st _) as [[len bs1] st2] eqn:E.
  apply stream_read_healthy in E; [|done]. case_decide; [by intros [= _ _ <-]|by apply IH].
Qed.

(** [data] is written to a stream: from its beginning, to the end if no call fails. *)
Definition written (st : Stream) (data : list Z) (st' : Stream) : Prop :=
  s_in st' = s_in st ∧ ∃ sent, s_out st' = s_out st ++ sent ∧ sent `prefix_of` data ∧
    (healthy st → sent = data ∧ healthy st').

Lemma writeFixSize_written st buffer : ∃ v st', writeFixSize st buffer = Ok (v, st') ∧ written st buffer st'.
Proof.
  unfold writeFixSize.
  assert (∀ fuel st buffer, (length buffer < fuel)%nat →
    ∃ r st', writeFixSize_loop fuel st buffer = Ok (r, st') ∧ written st buffer st') as Hw.
  2: { destruct (Hw (S (length buffer)) st buffer) as (r & st' & -> & ?); [lia|]. osimpl. eauto. }
  clear. induction fuel as [|fuel IH]; intros st buffer Hf; [lia|]. cbn [writeFixSize_loop].
  destruct buffer as [|b buffer].
  { exists None, st. split; [done|]. split; [done|]. exists []. by rewrite app_nil_r. }
  set (buf := b :: buffer) in *. unfold stream_write. destruct (s_open st) eqn:Ho.
  2: { rewrite decide_True by lia. exists (Some (-1)), st. split; [done|]. split; [done|]. exists [].
       rewrite app_nil_r. split_and!; [done|apply prefix_nil|]. intros [? _]. congruence. }
  pose proof (transfer_le st (length buf)) as Hle. set (n := transfer st (length buf)) in *.
  set (st1 := mkStream _ _ _ _). assert (healthy st → 0 < n ∧ healthy st1) as Hh.
  { intros Hh. split; [apply transfer_pos; [done|simpl; lia]|]. unfold st1. rewrite <-Ho. by apply healthy_tail. }
  case_decide as Hn.
  - exists (Some n), st1. split; [done|]. split; [done|]. exists (take (Z.to_nat n) buf).
    split_and!; [done|apply prefix_take|]. intros [? _]%Hh. lia.
  - destruct (IH st1 (drop (Z.to_nat n) buf)) as (r & st' & -> & Hin & sent & Hout & Hp & Hs);
      [rewrite length_drop; lia|].
    exists r, st'. split; [done|]. split; [done|]. exists (take (Z.to_nat n) buf ++ sent). split_and!.
    + rewrite Hout. unfold st1. simpl. by rewrite (assoc_L (++)).
    + rewrite <-(take_drop (Z.to_nat n) buf) at 2. by apply prefix_app.
    + intros [_ Hh1]%Hh. destruct (Hs Hh1) as [-> ?]. by rewrite take_drop.
Qed.

(** On any stream the loops end, and never store more than was asked for. *)
Lemma readFixSize_loop_total fuel : ∀ st left buffer,
  (Z.to_nat left < fuel)%nat →
  ∃ r bytes st', readFixSize_loop fuel st left buffer = Ok (r, buffer ++ bytes, st') ∧
    Z.of_nat (length bytes) <= Z.max 0 left ∧ (length (s_in st') ≤ length (s_in st))%nat ∧
    match r with
    | None => Z.of_nat (length bytes) = Z.max 0 left ∧
              (length (s_in st) = length bytes + length (s_in st'))%nat
    | Some e => -1 <= e <= 0
    end.
Proof.
  induction fuel as [|fuel IH]; intros st left buffer Hf; [lia|]. cbn [readFixSize_loop].
  case_decide as Hpos; [|exists None, [], st; rewrite app_nil_r; simpl; split_and!; (done || lia)].
  destruct (stream_read st (Z.to_nat left)) as [[len bytes] st1] eqn:E.
  assert (-1 <= len <= 0 ∨ Z.of_nat (length bytes) = len ∧ len <= left ∧
    (length (s_in st) = length bytes + length (s_in st1))%nat) as Hlen.
  { unfold stream_read in E. destruct (s_open st); [|injection E as <- <- <-; lia].
    injection E as <- <- <-. simpl.
    pose proof (transfer_le st (Z.to_nat left `min` length (s_in st))).
    rewrite length_take, length_drop. lia. }
  assert (length (s_in st1) ≤ length (s_in st))%nat as Hle.
  { unfold stream_read in E. destruct (s_open st); injection E as <- <- <-; simpl; [|lia].
    rewrite length_drop. lia. }
  case_decide as Hl0.
  { exists (Some len), [], st1. rewrite app_nil_r. simpl. split_and!; (done || lia). }
  destruct (IH st1 (left - len) (buffer ++ bytes)) as (r & bs & st' & -> & H1 & H2 & H3); [lia|].
  exists r, (bytes ++ bs), st'. rewrite <-(assoc_L (++)), length_app.
  split_and!; [done|lia|lia|]. destruct r; [done|lia].
Qed.

(** [readFixSize] on any stream: it returns, what it stored is a prefix of what
    the peer sent, and a positive result means all of it. *)
Lemma readFixSize_prefix st length :
  0 <= length < 2 ^ 63 →
  ∃ v bs st', readFixSize st length = Ok (v, bs, st') ∧ s_in st = bs ++ s_in st' ∧
    s_out st' = s_out st ∧ s_open st' = s_open st ∧
    Z.of_nat (List.length bs) <= length ∧ (0 < v → Z.of_nat (List.length bs) = length).
Proof.
  intros Hl. unfold readFixSize. rewrite (swrap_small 64) by (unfold in_signed; lia).
  destruct (readFixSize_loop_total (S (Z.to_nat length)) st length []) as
    (r & bs & st' & E & H1 & _ & Hr); [lia|]. rewrite (app_nil_l bs) in E. rewrite E. osimpl.
  apply readFixSize_loop_prefix in E as (bs' & E & Hin & Hout & Hop). simpl in E. subst bs'.
  exists (match r with Some len => s32 len | None => s32 length end), bs, st'.
  split_and!; [done|done|done|done|lia|]. destruct r as [e|]; [|lia].
  rewrite swrap_small by (unfold in_signed; lia). lia.
Qed.

(** [readFixSize] and [writeFixSize] transfer exactly the bytes asked for,
    in order, however the kernel cuts the transfer up, as long as no call fails
    and the peer has sent enough. *)
Theorem fix_size_exact st data rest buffer :
  healthy st → s_in st = data ++ rest →
  Z.of_nat (length data) < 2 ^ 31 → Z.of_nat (length buffer) < 2 ^ 31 →
  (∃ st', readFixSize st (Z.of_nat (length data)) = Ok (Z.of_nat (length data), data, st') ∧
     s_in st' = rest ∧ s_out st' = s_out st) ∧
  (∃ st', writeFixSize st buffer = Ok (Z.of_nat (length buffer), st') ∧
     s_in st' = s_in st ∧ s_out st' = s_out st ++ buffer).
Proof.
  intros Hh Hin Hl Hb. split.
  - destruct (readFixSize_healthy st data rest Hh Hin Hl) as (st' & ? & ? & ? & _). by exists st'.
  - destruct (writeFixSize_healthy st buffer Hh Hb) as (st' & ? & ? & ? & _). by exists st'.
Qed.

Lemma fix_size_exact_witness :
  ∃ st', readFixSize (mkStream [1; 2; 3; 4; 5] [] [IoUpTo 2; IoUpTo 1] true) 4 =
         Ok (4, [1; 2; 3; 4], st') ∧ s_in st' = [5].
Proof.
  destruct (fix_size_exact (mkStream [1; 2; 3; 4; 5] [] [IoUpTo 2; IoUpTo 1] true)
    [1; 2; 3; 4] [5] []) as [(st' & Hr & Hin & _) _].
  - split; [reflexivity|repeat constructor].
  - reflexivity.
  - simpl. lia.
  - simpl. lia.
  - exists st'. split; [exact Hr|exact Hin].
Defined.
