(* ===== verification/StreamBuffer.v ===== *)
(** The stream operations on a [ByteArray] (sylar/stream.cc, sylar/socket_stream.cc):
    the vectors of the buffer are handed to the kernel, which stores into its blocks
    and takes from them directly. *)

From Stdlib Require Import ZArith Lia.
From stdpp Require Import base numbers option strings tactics list list_numbers.
From S2P Require Import Prelude Endian Buffer ByteArray ByteArraySpec Stream.

Local Open Scope Z_scope.

(** [SocketStream]: the socket, and whether it is closed with the stream. *)
Record SocketStream : Type := mkSocketStream { m_socket : option Stream; m_owner : bool }.

Definition isConnected (s : SocketStream) : bool :=
  match m_socket s with Some st => s_open st | None => false end.

Definition SocketStream_close (s : SocketStream) : SocketStream :=
  mkSocketStream (stream_close <$> m_socket s) (m_owner s).

(** [~SocketStream]: what becomes of the socket. *)
Definition SocketStream_destroy (s : SocketStream) : option Stream :=
  if m_owner s then m_socket (SocketStream_close s) else m_socket s.

(** The kernel stores bytes through vectors, one after the other; a vector that
    reaches beyond its block lets it store there. *)
Fixpoint scatter (nodes : list Node) (vs : list iovec) (bs : list Z) : outcome (list Node) :=
  match bs, vs with
  | [], _ => Ok nodes
  | _, [] => Stuck
  | _, v :: vs =>
    '(i, nd) ← node_deref nodes (Some (iov_node v));
    nd ← node_store nd (iov_off v) (take (iov_len v) bs);
    scatter (<[i := nd]> nodes) vs (drop (iov_len v) bs)
  end.

Lemma scatter_nil nodes vs : scatter nodes vs [] = Ok nodes.
Proof. by destruct vs. Qed.

Lemma scatter_cons nodes v vs bs nd :
  bs ≠ [] → nodes !! iov_node v = Some nd →
  scatter nodes (v :: vs) bs =
    (nd' ← node_store nd (iov_off v) (take (iov_len v) bs);
     scatter (<[iov_node v := nd']> nodes) vs (drop (iov_len v) bs)).
Proof. intros Hb Hn. destruct bs; [done|]. cbn [scatter]. by rewrite (node_deref_ok _ _ _ Hn). Qed.

Definition set_nodes (ba : ByteArray) (nodes : list Node) : ByteArray :=
  mkByteArray (m_baseSize ba) (m_position ba) (m_capacity ba) (m_size ba) (m_endian ba) nodes (m_cur ba).

Definition iov_total (vs : list iovec) : nat := sum_list (iov_len <$> vs).

(** [if (rt > 0) ba->setPosition(ba->getPosition() + rt)]. *)
Definition advance (ba : ByteArray) (rt : Z) : outcome ByteArray :=
  if decide (0 < rt) then setPosition ba (m_position ba + Z.to_nat rt) else Ok ba.

Section operations.
Context (garbage : nat → Z).

(** [SocketStream::read(ba, length)]. *)
Definition read_ba (st : Stream) (ba : ByteArray) (length : nat) : outcome (Z * ByteArray * Stream) :=
  if s_open st then
    '(vs, _, ba) ← getWriteBuffers garbage ba length;
    let '(rt, bytes, st) := stream_read st (iov_total vs) in
    nodes ← scatter (m_nodes ba) vs bytes;
    ba ← advance (set_nodes ba nodes) rt;
    mret (rt, ba, st)
  else mret (-1, ba, st).

(** [SocketStream::write(ba, length)]. *)
Definition write_ba (st : Stream) (ba : ByteArray) (length : nat) : outcome (Z * ByteArray * Stream) :=
  if s_open st then
    '(vs, _) ← getReadBuffers ba length;
    let '(rt, st) := stream_write st (gather (m_nodes ba) vs) in
    ba ← advance ba rt;
    mret (rt, ba, st)
  else mret (-1, ba, st).

(** The loop [while (left > 0)] of both operations: [None] when nothing is left. *)
Fixpoint fix_loop (io : Stream → ByteArray → nat → outcome (Z * ByteArray * Stream))
    (fuel : nat) (st : Stream) (ba : ByteArray) (left : Z) : outcome (option Z * ByteArray * Stream) :=
  match fuel with
  | O => Stuck
  | S fuel =>
    if decide (0 < left) then
      '(len, ba, st) ← io st ba (Z.to_nat left);
      if decide (len <= 0) then mret (Some len, ba, st) else fix_loop io fuel st ba (left - len)
    else mret (None, ba, st)
  end.

Definition fix_size (io : Stream → ByteArray → nat → outcome (Z * ByteArray * Stream))
    (st : Stream) (ba : ByteArray) (length : Z) : outcome (Z * ByteArray * Stream) :=
  let left := s64 length in
  '(r, ba, st) ← fix_loop io (S (Z.to_nat left)) st ba left;
  mret (match r with Some len => s32 len | None => s32 length end, ba, st).

(** [Stream::readFixSize(ba, length)] and [Stream::writeFixSize(ba, length)]. *)
Definition readFixSize_ba : Stream → ByteArray → Z → outcome (Z * ByteArray * Stream) := fix_size read_ba.
Definition writeFixSize_ba : Stream → ByteArray → Z → outcome (Z * ByteArray * Stream) := fix_size write_ba.

(** ** One call *)

(** The bytes left in the block of the cursor. *)
Definition block_left (ba : ByteArray) : nat := m_baseSize ba - m_position ba mod m_baseSize ba.

(** Storing in the block of the cursor and moving on is a write to the buffer. *)
Lemma store_advance ba i npos nd bs :
  wf ba → m_nodes ba !! i = Some nd → m_position ba = (i * m_baseSize ba + npos)%nat →
  (0 < length bs)%nat → (npos + length bs ≤ m_baseSize ba)%nat →
  ∃ nd' ba', node_store nd npos bs = Ok nd' ∧
    advance (set_nodes ba (<[i := nd']> (m_nodes ba))) (Z.of_nat (length bs)) = Ok ba' ∧ wf ba' ∧
    contents ba' = overwrite (m_position ba) bs (contents ba) ∧
    m_position ba' = (m_position ba + length bs)%nat ∧ m_baseSize ba' = m_baseSize ba.
Proof.
  intros Hwf Hnd Hp Hpos Hfit. pose proof Hwf as [Hb Hn Hc Hps Hs Hne Hcur].
  destruct (store_ok (m_baseSize ba) Hb (m_nodes ba) i nd npos bs Hn Hnd Hfit) as [Est Hok].
  pose proof (flat_store (m_baseSize ba) Hb (m_nodes ba) i nd npos bs Hn Hnd Hfit) as Hfl.
  set (nd' := mkNode _ _) in *. set (ba1 := set_nodes ba (<[i := nd']> (m_nodes ba))).
  pose proof (lookup_lt_Some _ _ _ Hnd) as Hi.
  assert (wf ba1) as Hwf1 by (split; simpl; rewrite ?length_insert; done).
  destruct (setPosition_spec ba1 (m_position ba + length bs) Hwf1)
    as (ba' & E & Hwf' & Hp' & Hsz & _ & _ & Hnodes & Hbs' & _); [simpl; nia|].
  exists nd', ba'. split_and!; [done| |done| |done|done].
  - unfold advance. rewrite decide_True by lia. by rewrite Nat2Z.id.
  - unfold contents. rewrite Hsz, Hnodes. simpl. rewrite Hfl, <-Hp.
    pose proof (length_flat (m_baseSize ba) Hb (m_nodes ba) Hn). apply take_overwrite_max; nia.
Qed.

(** What a [read] does with the bytes it got, as many as the kernel likes. *)
Lemma read_ba_spec st ba len :
  wf ba → (0 < len)%nat → s_open st = true →
  ∃ total rt bytes st', stream_read st total = (rt, bytes, st') ∧ (len ≤ total)%nat ∧
    ((len ≤ block_left ba)%nat → total = len) ∧
    if decide (length bytes ≤ block_left ba)%nat
    then ∃ ba', read_ba st ba len = Ok (rt, ba', st') ∧ wf ba' ∧
           contents ba' = overwrite (m_position ba) bytes (contents ba) ∧
           m_position ba' = (m_position ba + length bytes)%nat ∧ m_baseSize ba' = m_baseSize ba
    else read_ba st ba len = Stuck.
Proof.
  intros Hwf Hlen Ho. unfold block_left.
  destruct (getWriteBuffers_spec garbage ba len Hwf Hlen) as (vs & nd & E & Hvs & Hnd & Hnp & Hp).
  destruct (addCapaticy_spec garbage ba len Hwf) as (Hwf1 & _ & Hc1 & Hp1 & _ & Hb1 & _).
  set (ba1 := addCapaticy garbage ba len) in *.
  set (v := mkIovec _ _ _) in E. set (total := iov_total (v :: vs)).
  destruct (stream_read st total) as [[rt bytes] st'] eqn:Er. exists total, rt, bytes, st'.
  pose proof (stream_read_spec _ _ _ _ _ Er) as (_ & _ & _ & Hrt).
  assert (total = len + iov_total vs)%nat as Htot by done.
  split_and!; [done|lia|intros H; rewrite Htot; by rewrite (Hvs H)|].
  unfold read_ba. rewrite Ho, E. osimpl. fold total. rewrite Er.
  destruct bytes as [|b bytes]; [|set (bs := b :: bytes) in *].
  { case_decide as Hd; [|simpl in Hd; lia]. destruct Hrt as [[Hrt _]|Hrt]; [|simpl in Hrt; lia].
    rewrite scatter_nil. osimpl. unfold advance. rewrite decide_False by lia. exists ba1. rewrite Hc1, overwrite_nil.
    split_and!; [by destruct ba1|done|done|simpl; lia|done]. }
  assert (rt = Z.of_nat (length bs)) as -> by (destruct Hrt as [[_ ?]|[_ <-]]; done).
  pose proof (Forall_lookup_1 _ _ _ _ (wf_nodes _ Hwf1) Hnd) as [_ Hnl].
  rewrite (scatter_cons _ v vs bs nd) by done. subst v. cbn [iov_node iov_off iov_len]. case_decide as Hfit.
  - assert (length bs ≤ len)%nat as Hle.
    { destruct (decide (len ≤ m_baseSize ba - m_position ba mod m_baseSize ba)%nat) as [H|]; [|lia].
      rewrite (Hvs H) in Htot. unfold iov_total in Htot. simpl in Htot. destruct Hrt as [[_ ?]|[? _]]; [done|lia]. }
    rewrite take_ge by done. rewrite drop_ge by done.
    destruct (store_advance ba1 (m_position ba / m_baseSize ba) (m_position ba mod m_baseSize ba) nd bs)
      as (nd' & ba' & Es & Ea & Hwf' & Hc & Hp' & Hb'); [done|done|congruence|subst bs; simpl; lia|lia|].
    rewrite Es. osimpl. rewrite scatter_nil. osimpl. rewrite Ea. osimpl.
    exists ba'. rewrite Hc, Hc1, Hp1, Hp', Hb', Hb1, Hp1. by split_and!.
  - assert (m_baseSize ba - m_position ba mod m_baseSize ba < len)%nat as Hbig.
    { apply not_le. intros H. rewrite (Hvs H) in Htot. unfold iov_total in Htot. simpl in Htot.
      destruct Hrt as [[_ ?]|[? _]]; [done|lia]. }
    unfold node_store. rewrite length_take, decide_False; [done|]. rewrite Hb1 in Hnl. lia.
Qed.
(** What a [write] sends and where it leaves the buffer. *)
Lemma write_ba_spec st ba len :
  wf ba → s_open st = true →
  ∃ rt st' ba', write_ba st ba len = Ok (rt, ba', st') ∧
    stream_write st (slice (m_position ba) (len `min` getReadSize ba) (contents ba)) = (rt, st') ∧
    wf ba' ∧ contents ba' = contents ba ∧ m_position ba' = (m_position ba + Z.to_nat rt)%nat ∧
    rt <= Z.of_nat (len `min` getReadSize ba).
Proof.
  intros Hwf Ho. unfold write_ba. rewrite Ho.
  destruct (getReadBuffers_spec ba len Hwf) as (vs & -> & _ & Hg). osimpl. rewrite Hg.
  set (k := (len `min` getReadSize ba)%nat). set (sl := slice _ k _).
  assert (length sl = k) as Hk.
  { subst sl k. unfold slice, getReadSize. rewrite length_take, length_drop, length_contents by done. lia. }
  destruct (stream_write st sl) as [rt st'] eqn:Ew. exists rt, st'.
  assert (rt <= Z.of_nat k) as Hle.
  { unfold stream_write in Ew. rewrite Ho, Hk in Ew. injection Ew as <- _. apply transfer_le. }
  osimpl. unfold advance. case_decide as Hp; osimpl.
  - pose proof (wf_size _ Hwf). pose proof (wf_position _ Hwf).
    destruct (setPosition_spec ba (m_position ba + Z.to_nat rt) Hwf)
      as (ba' & -> & Hwf' & Hp' & Hsz & Hc & _ & Hnodes & _); [subst k; unfold getReadSize in *; lia|].
    osimpl. exists ba'. split_and!; try done. unfold contents. rewrite Hnodes, Hsz. f_equal.
    subst k. unfold getReadSize in *. lia.
  - exists ba. split_and!; try done. lia.
Qed.

(** ** The loops *)

Lemma transfer_zero st : healthy st → transfer st 0 = 0.
Proof. intros [_ Hf]. unfold transfer. by destruct Hf as [|[n| |] l Hi _]. Qed.

Lemma write_loop_ba fuel : ∀ st ba left,
  wf ba → healthy st → (left < fuel)%nat →
  let k := (left `min` getReadSize ba)%nat in
  ∃ ba' st', fix_loop write_ba fuel st ba (Z.of_nat left) =
      Ok (if decide (left ≤ getReadSize ba)%nat then None else Some 0, ba', st') ∧
    wf ba' ∧ contents ba' = contents ba ∧ m_position ba' = (m_position ba + k)%nat ∧
    s_out st' = s_out st ++ slice (m_position ba) k (contents ba) ∧ s_in st' = s_in st ∧ healthy st'.
Proof.
  induction fuel as [|fuel IH]; intros st ba left Hwf Hh Hf k; [lia|]. cbn [fix_loop].
  case_decide as Hl; osimpl.
  2:{ exists ba, st. rewrite decide_True by lia. subst k. replace left with 0%nat by lia. simpl.
      rewrite slice_0, app_nil_r, Nat.add_0_r. by split_and!. }
  rewrite Nat2Z.id. destruct (write_ba_spec st ba left Hwf (proj1 Hh)) as (rt & st1 & ba1 & -> & Ew & Hwf1 & Hc1 & Hp1 & Hrt).
  osimpl. fold k in Ew, Hrt. unfold stream_write in Ew. rewrite (proj1 Hh) in Ew.
  assert (length (slice (m_position ba) k (contents ba)) = k) as Hk.
  { unfold slice, k, getReadSize. rewrite length_take, length_drop, length_contents by done. lia. }
  rewrite Hk in Ew. injection Ew as Ert <-.
  assert (healthy (mkStream (s_in st) (s_out st ++ take (Z.to_nat (transfer st k)) (slice (m_position ba) k (contents ba)))
            (tail (s_io st)) true)) as Hh1.
  { pose proof (healthy_tail st (s_in st) (s_out st ++ take (Z.to_nat (transfer st k)) (slice (m_position ba) k (contents ba))) Hh) as H.
    by rewrite (proj1 Hh) in H. }
  assert (length (contents ba1) = m_size ba1) as Hl1 by (by apply length_contents).
  rewrite Hc1, length_contents in Hl1 by done.
  destruct (decide (k = 0)%nat) as [Hk0|Hk0].
  - pose proof (transfer_le st k) as Ht0. rewrite decide_True by lia. osimpl. exists ba1. eexists.
    rewrite decide_False by (subst k; unfold getReadSize in *; lia).
    rewrite Hk0, (transfer_zero st Hh) in *. subst rt. rewrite slice_0, take_nil, app_nil_r in *. split_and!; [done|done|done|lia|done|done|done].
  - pose proof (transfer_pos st k Hh) as Ht. rewrite decide_False by lia.
    destruct (IH (mkStream (s_in st) (s_out st ++ take (Z.to_nat rt) (slice (m_position ba) k (contents ba))) (tail (s_io st)) true)
      ba1 (left - Z.to_nat rt)%nat) as (ba' & st' & E & Hwf' & Hc' & Hp' & Hout & Hin & Hh'); [done|by rewrite <-Ert|lia|].
    rewrite <-Ert in *. replace (Z.of_nat left - transfer st k) with (Z.of_nat (left - Z.to_nat (transfer st k))) by lia.
    rewrite E. exists ba', st'. split_and!; [|done|congruence| | |done|done].
    + do 3 f_equal. unfold getReadSize in *. repeat case_decide; (done || lia).
    + subst k. unfold getReadSize in *. lia.
    + rewrite Hout, Hc1, Hp1. simpl. rewrite <-(assoc_L (++)). f_equal. unfold slice.
      rewrite take_take, Nat.min_l by lia. rewrite <-drop_drop, take_take_drop. f_equal.
      subst k. unfold getReadSize in *. lia.
Qed.

Lemma read_loop_ba fuel : ∀ st ba data rest,
  wf ba → healthy st → s_in st = data ++ rest → (length data < fuel)%nat → (length data ≤ block_left ba)%nat →
  ∃ ba' st', fix_loop read_ba fuel st ba (Z.of_nat (length data)) = Ok (None, ba', st') ∧
    wf ba' ∧ contents ba' = overwrite (m_position ba) data (contents ba) ∧
    m_position ba' = (m_position ba + length data)%nat ∧ s_in st' = rest ∧ s_out st' = s_out st ∧ healthy st'.
Proof.
  induction fuel as [|fuel IH]; intros st ba data rest Hwf Hh Hin Hf Hbl; [lia|]. cbn [fix_loop].
  case_decide as Hl; osimpl.
  2:{ destruct data; [|simpl in Hl; lia]. exists ba, st. rewrite overwrite_nil. simpl. rewrite Nat.add_0_r. by split_and!. }
  rewrite Nat2Z.id. destruct (read_ba_spec st ba (length data) Hwf) as (total & rt & bytes & st1 & Er & _ & Htot & Hcase);
    [lia|apply Hh|]. rewrite (Htot Hbl) in Er. clear Htot.
  unfold stream_read in Er. rewrite (proj1 Hh), Hin, length_app in Er.
  replace (length data `min` (length data + length rest))%nat with (length data) in Er by lia.
  pose proof (transfer_pos st (length data) Hh ltac:(lia)) as Ht.
  set (n := transfer st (length data)) in *. injection Er as <- <- <-.
  rewrite take_app_le in Hcase by lia. rewrite length_take, Nat.min_l in Hcase by lia.
  rewrite drop_app_le in * by lia. case_decide; [|lia].
  destruct Hcase as (ba1 & -> & Hwf1 & Hc1 & Hp1 & Hb1). osimpl. rewrite decide_False by lia.
  destruct (IH (mkStream (drop (Z.to_nat n) data ++ rest) (s_out st) (tail (s_io st)) true) ba1 (drop (Z.to_nat n) data) rest)
    as (ba' & st' & E & Hwf' & Hc' & Hp' & Hin' & Hout & Hh'); [done| |done|rewrite length_drop; lia| |].
  - pose proof (healthy_tail st (drop (Z.to_nat n) data ++ rest) (s_out st) Hh) as H1. by rewrite (proj1 Hh) in H1.
  - rewrite length_drop. unfold block_left in *. rewrite Hp1, Hb1. pose proof (wf_base _ Hwf).
    destruct (decide (length data = Z.to_nat n)) as [->|]; [lia|].
    rewrite <-Nat.Div0.add_mod_idemp_l, (Nat.mod_small (_ + _)) by lia. lia.
  - rewrite length_drop in *. replace (Z.of_nat (length data) - n) with (Z.of_nat (length data - Z.to_nat n)) by lia.
    rewrite E. exists ba', st'. split_and!; [done|done| |lia|done|done|done].
    rewrite Hc', Hc1, Hp1. pose proof (length_contents _ Hwf). pose proof (wf_position _ Hwf).
    replace (Z.to_nat n) with (length (take (Z.to_nat n) data)) at 1 by (rewrite length_take; lia).
    rewrite overwrite_overwrite by lia. by rewrite take_drop.
Qed.

(** C39. On a stream that does not fail, however the kernel cuts the transfer up,
    [writeFixSize] from a buffer sends the next bytes of the buffer, moves the cursor
    behind them and returns their number; asked for more than can be read, it sends
    all and returns 0. [readFixSize] into a buffer stores exactly the bytes asked for
    at the cursor, as long as they fit in the block of the cursor. *)
Theorem buffer_streams_exact st ba n :
  wf ba → healthy st → (Z.of_nat n < 2 ^ 31) →
  (∃ ba' st', writeFixSize_ba st ba (Z.of_nat n) =
       Ok (if decide (n ≤ getReadSize ba)%nat then Z.of_nat n else 0, ba', st') ∧
     wf ba' ∧ contents ba' = contents ba ∧ m_position ba' = (m_position ba + n `min` getReadSize ba)%nat ∧
     s_out st' = s_out st ++ slice (m_position ba) (n `min` getReadSize ba) (contents ba) ∧ s_in st' = s_in st) ∧
  (∀ data rest, s_in st = data ++ rest → length data = n → (n ≤ block_left ba)%nat →
     ∃ ba' st', readFixSize_ba st ba (Z.of_nat n) = Ok (Z.of_nat n, ba', st') ∧
       wf ba' ∧ contents ba' = overwrite (m_position ba) data (contents ba) ∧
       m_position ba' = (m_position ba + n)%nat ∧ s_in st' = rest ∧ s_out st' = s_out st).
Proof.
  intros Hwf Hh Hn. unfold writeFixSize_ba, readFixSize_ba, fix_size. destruct (s64_nat n Hn) as [-> Hs].
  rewrite Nat2Z.id. split.
  - destruct (write_loop_ba (S n) st ba n Hwf Hh) as (ba' & st' & -> & ? & ? & ? & ? & ? & _); [lia|].
    osimpl. exists ba', st'. split_and!; try done. case_decide; [by rewrite Hs|done].
  - intros data rest Hin <- Hb. destruct (read_loop_ba (S (length data)) st ba data rest Hwf Hh Hin)
      as (ba' & st' & -> & ? & ? & ? & ? & ? & _); [lia|done|]. osimpl. exists ba', st'. by rewrite Hs.
Qed.

(** When more bytes arrive at once than fit in the block of the cursor, reading into
    the buffer writes beyond the memory of the block. *)
Theorem buffer_read_overflows st ba n :
  wf ba → s_open st = true → s_io st = [] → Z.of_nat n < 2 ^ 31 →
  (block_left ba < n)%nat → (block_left ba < length (s_in st))%nat →
  readFixSize_ba st ba (Z.of_nat n) = Stuck.
Proof.
  intros Hwf Ho Hio Hn Hlt Hin. unfold readFixSize_ba, fix_size. destruct (s64_nat n Hn) as [-> _].
  rewrite Nat2Z.id. cbn [fix_loop]. rewrite decide_True by lia. rewrite Nat2Z.id.
  destruct (read_ba_spec st ba n Hwf) as (total & rt & bytes & st' & Er & Htot & _ & Hcase); [lia|done|].
  unfold stream_read, transfer in Er. rewrite Ho, Hio in Er. injection Er as <- <- <-.
  case_decide as Hd; [|by rewrite Hcase]. rewrite length_take in Hd. lia.
Qed.

End operations.

(** ** A buffer of two blocks *)

Module TwoBlocks.

Definition sent : list Z := [10; 20; 30; 40; 50; 60].
Definition start : ByteArray := ByteArray_new (λ _, 0) 4.
Definition peer : Stream := mkStream sent [7] [IoUpTo 1; IoUpTo 2] true.

Lemma wf_start : wf start.
Proof. apply wf_new. lia. Qed.

Lemma peer_healthy : healthy peer.
Proof. split; [reflexivity|]. repeat constructor. Qed.

End TwoBlocks.

Import TwoBlocks.

Lemma buffer_streams_exact_witness :
  ∃ ba' st', readFixSize_ba (λ _, 0) peer start 4 = Ok (4, ba', st') ∧
    contents ba' = [10; 20; 30; 40] ∧ s_in st' = [50; 60].
Proof.
  destruct (buffer_streams_exact (λ _, 0) peer start 4 wf_start peer_healthy) as [_ H]; [simpl; lia|].
  destruct (H [10; 20; 30; 40] [50; 60]) as (ba' & st' & E & _ & Hc & _ & Hin & _);
    [reflexivity|reflexivity|vm_compute; lia|].
  exists ba', st'. split; [exact E|]. split; [exact Hc|exact Hin].
Defined.

Lemma buffer_read_overflows_witness :
  readFixSize_ba (λ _, 0) (mkStream sent [] [] true) start 6 = Stuck.
Proof.
  apply (buffer_read_overflows (λ _, 0) (mkStream sent [] [] true) start 6);
    [exact wf_start|reflexivity|reflexivity|simpl; lia|vm_compute; lia|vm_compute; lia].
Defined.
