(* ===== verification/WebSocket.v ===== *)
(** WebSocket messages over a stream (sylar/http/ws_session.h,
    sylar/http/ws_session.cc, sylar/http/ws_connection.cc): frame headers,
    masking, fragments and control frames. *)

From Stdlib Require Import ZArith Lia.
From stdpp Require Import base numbers option strings tactics list list_numbers.
From S2P Require Import Prelude Text Endian Stream.

Local Open Scope Z_scope.

(** ** Frame headers *)

(** [struct WSFrameHead]. *)
Record WSFrameHead : Type := mkHead {
  opcode : Z;
  rsv3 : bool;
  rsv2 : bool;
  rsv1 : bool;
  fin : bool;
  payload : Z;
  mask : bool
}.

Definition CONTINUE : Z := 0.
Definition TEXT_FRAME : Z := 1.
Definition BIN_FRAME : Z := 2.
Definition CLOSE : Z := 8.
Definition PING : Z := 9.
Definition PONG : Z := 10.

(** The two bytes of the packed bit-field structure: fields from the low bit
    up, as the x86-64 ABI lays them out. *)
Definition head_bytes (h : WSFrameHead) : list Z :=
  [Z.land (opcode h) 15 + 16 * Z.b2z (rsv3 h) + 32 * Z.b2z (rsv2 h) + 64 * Z.b2z (rsv1 h) +
     128 * Z.b2z (fin h);
   Z.land (payload h) 127 + 128 * Z.b2z (mask h)].

Definition head_of_bytes (bs : list Z) : WSFrameHead :=
  let b0 := default 0 (bs !! 0%nat) in
  let b1 := default 0 (bs !! 1%nat) in
  mkHead (Z.land b0 15) (Z.testbit b0 4) (Z.testbit b0 5) (Z.testbit b0 6) (Z.testbit b0 7)
    (Z.land b1 127) (Z.testbit b1 7).

(** [class WSFrameMessage]. *)
Record WSFrameMessage : Type := mkMsg { m_opcode : Z; m_data : list Z }.

(** [data[i] ^= mask[i % 4]] from index 0 on. *)
Definition apply_mask (key data : list Z) : list Z :=
  imap (λ i b, Z.lxor b (default 0 (key !! (i mod 4)%nat))) data.

(** ** Sending *)

Section websocket.
(** The byte order of the machine and [websocket.message.max_size]. *)
Context (native : endian) (max_size : Z).

(** Writing something on the way: [None] where the code breaks out. *)
Definition try_write (st : Stream) (buffer : list Z) : outcome (bool * Stream) :=
  '(v, st) ← writeFixSize st buffer; mret (bool_decide (0 < v), st).

(** The extended length. *)
Definition length_bytes (size : Z) : list Z :=
  if decide (size < 126) then []
  else if decide (size < 65536)
  then to_memory native uint16_t (byteswapOnLittleEndian native uint16_t (u16 size))
  else to_memory native uint64_t (byteswapOnLittleEndian native uint64_t size).

Definition send_head (msg : WSFrameMessage) (client fin : bool) : WSFrameHead :=
  let size := Z.of_nat (length (m_data msg)) in
  mkHead (Z.land (m_opcode msg) 15) false false false fin
    (if decide (size < 126) then size else if decide (size < 65536) then 126 else 127) client.

(** [WSSendMessage]; [rand_value] is what [rand()] returned. The message is
    masked in place, so the caller's object changes. *)
Definition WSSendMessage (st : Stream) (msg : WSFrameMessage) (client fin : bool)
    (rand_value : Z) : outcome (Z * WSFrameMessage * Stream) :=
  let ws_head := send_head msg client fin in
  let size := Z.of_nat (length (m_data msg)) in
  let fail msg st := mret (-1, msg, stream_close st) in
  '(ok, st) ← try_write st (head_bytes ws_head);
  if negb ok then fail msg st else
  '(ok, st) ← (if decide (payload ws_head = 126 ∨ payload ws_head = 127)
               then try_write st (length_bytes size) else mret (true, st));
  if negb ok then fail msg st else
  let key := to_memory native uint32_t rand_value in
  let msg := if client then mkMsg (m_opcode msg) (apply_mask key (m_data msg)) else msg in
  '(ok, st) ← (if client then try_write st key else mret (true, st));
  if negb ok then fail msg st else
  '(ok, st) ← try_write st (m_data msg);
  if negb ok then fail msg st else mret (s32 (size + 2), msg, st).

(** [WSPing] and [WSPong]. *)
Definition control_head (op : Z) : WSFrameHead := mkHead op false false false true 0 false.

Definition WSControl (st : Stream) (op : Z) : outcome (Z * Stream) :=
  '(v, st) ← writeFixSize st (head_bytes (control_head op));
  mret (v, if decide (v <= 0) then stream_close st else st).

Definition WSPing (st : Stream) : outcome (Z * Stream) := WSControl st PING.

Definition WSPong (st : Stream) : outcome (Z * Stream) := WSControl st PONG.

(** ** Receiving *)

(** The payload length of a data frame; [None] where the code breaks out. *)
Definition recv_length (st : Stream) (h : WSFrameHead) : outcome (option Z * Stream) :=
  if decide (payload h = 126) then
    '(v, bs, st) ← readFixSize st 2;
    mret (if decide (v <= 0) then None
          else Some (byteswapOnLittleEndian native uint16_t (of_memory native uint16_t bs)), st)
  else if decide (payload h = 127) then
    '(v, bs, st) ← readFixSize st 8;
    mret (if decide (v <= 0) then None
          else Some (byteswapOnLittleEndian native uint64_t (of_memory native uint64_t bs)), st)
  else mret (Some (payload h), st).

Definition recv_key (st : Stream) (h : WSFrameHead) : outcome (option (list Z) * Stream) :=
  if mask h then
    '(v, bs, st) ← readFixSize st 4;
    mret (if decide (v <= 0) then None else Some bs, st)
  else mret (Some [0; 0; 0; 0], st).

(** [data.resize(n)]. *)
Definition resize (n : nat) (data : list Z) : list Z := take n (data ++ replicate n 0).

(** [readFixSize(&data[cur_len], length)]: storing outside [data] is undefined. *)
Definition recv_payload (st : Stream) (data : list Z) (cur_len length : Z) :
    outcome (bool * list Z * Stream) :=
  '(v, bs, st) ← readFixSize st length;
  if decide (bs ≠ [] ∧ Z.of_nat (List.length data) < cur_len + Z.of_nat (List.length bs))
  then Stuck
  else mret (bool_decide (0 < v), overwrite (Z.to_nat cur_len) bs data, st).

(** What one frame does to the message being received. *)
Inductive recv_step : Type :=
| Failed
| Again (opcode : Z) (data : list Z) (cur_len : Z)
| Message (msg : WSFrameMessage).

(** The data frame branch of [WSRecvMessage]. *)
Definition recv_data (st : Stream) (client : bool) (h : WSFrameHead) (op : Z) (data : list Z)
    (cur_len : Z) : outcome (recv_step * Stream) :=
  if negb client && negb (mask h) then mret (Failed, st) else
  '(len, st) ← recv_length st h;
  match len with
  | None => mret (Failed, st)
  | Some length =>
    let total := u64 (cur_len + length) in
    if decide (max_size <= total) then mret (Failed, st) else
    '(key, st) ← recv_key st h;
    match key with
    | None => mret (Failed, st)
    | Some key =>
      let data := resize (Z.to_nat total) data in
      '(ok, data, st) ← recv_payload st data cur_len length;
      if negb ok then mret (Failed, st) else
      let n := Z.to_nat cur_len in
      let data := if mask h then take n data ++ apply_mask key (drop n data) else data in
      let cur_len := s32 (cur_len + length) in
      let op := if decide (op = 0 ∧ opcode h ≠ CONTINUE) then opcode h else op in
      mret (if fin h then Message (mkMsg op data) else Again op data cur_len, st)
    end
  end.

(** One turn of the loop of [WSRecvMessage]. *)
Definition recv_frame (st : Stream) (client : bool) (op : Z) (data : list Z) (cur_len : Z) :
    outcome (recv_step * Stream) :=
  '(v, bs, st) ← readFixSize st 2;
  if decide (v <= 0) then mret (Failed, st) else
  let h := head_of_bytes bs in
  if decide (opcode h = PING) then
    '(v, st) ← WSPong st;
    mret (if decide (v <= 0) then Failed else Again op data cur_len, st)
  else if decide (opcode h = PONG) then mret (Again op data cur_len, st)
  else if decide (opcode h = CONTINUE ∨ opcode h = TEXT_FRAME ∨ opcode h = BIN_FRAME)
  then recv_data st client h op data cur_len
  else mret (Again op data cur_len, st).

Fixpoint recv_loop (fuel : nat) (st : Stream) (client : bool) (op : Z) (data : list Z)
    (cur_len : Z) : outcome (option WSFrameMessage * Stream) :=
  match fuel with
  | O => Stuck
  | S fuel =>
    '(r, st) ← recv_frame st client op data cur_len;
    match r with
    | Failed => mret (None, stream_close st)
    | Message msg => mret (Some msg, st)
    | Again op data cur_len => recv_loop fuel st client op data cur_len
    end
  end.

(** [WSRecvMessage]: every turn consumes a header. *)
Definition WSRecvMessage (st : Stream) (client : bool) :
    outcome (option WSFrameMessage * Stream) :=
  recv_loop (S (length (s_in st))) st client 0 [] 0.

End websocket.
