(* ===== verification/WebSocketSpec.v ===== *)
(** What the WebSocket layer guarantees: messages arrive as they were sent,
    fragmented or not and in both directions, and receiving is safe and
    terminates on any input. *)

From Stdlib Require Import ZArith Lia.
From stdpp Require Import base numbers option strings tactics list list_numbers.
From S2P Require Import Prelude Text Endian Stream WebSocket.

Local Open Scope Z_scope.

(** ** Headers and masks *)

Definition head_ok (h : WSFrameHead) : Prop := 0 <= opcode h < 16 ∧ 0 <= payload h < 128.

Lemma head_roundtrip h : head_ok h → head_of_bytes (head_bytes h) = h.
Proof.
  destruct h as [op r3 r2 r1 f p m]. intros [Hop Hp]. simpl in *.
  assert (Forall (λ op, ∀ r3 r2 r1 f,
    let b := Z.land op 15 + 16 * Z.b2z r3 + 32 * Z.b2z r2 + 64 * Z.b2z r1 + 128 * Z.b2z f in
    (Z.land b 15, Z.testbit b 4, Z.testbit b 5, Z.testbit b 6, Z.testbit b 7) =
    (op, r3, r2, r1, f)) (seqZ 0 16)) as H0.
  { vm_compute. repeat (constructor; [intros [] [] [] []; reflexivity|]). constructor. }
  assert (Forall (λ p, ∀ m,
    let b := Z.land p 127 + 128 * Z.b2z m in (Z.land b 127, Z.testbit b 7) = (p, m)) (seqZ 0 128)) as H1.
  { vm_compute. repeat (constructor; [intros []; reflexivity|]). constructor. }
  rewrite Forall_forall in H0, H1. specialize (H0 op ltac:(apply elem_of_seqZ; lia) r3 r2 r1 f).
  specialize (H1 p ltac:(apply elem_of_seqZ; lia) m). simpl in H0, H1.
  injection H0 as E1 E2 E3 E4 E5. injection H1 as E6 E7. unfold head_of_bytes, head_bytes. simpl.
  by rewrite E1, E2, E3, E4, E5, E6, E7.
Qed.

Lemma length_apply_mask key data : length (apply_mask key data) = length data.
Proof. apply length_imap. Qed.

Lemma apply_mask_twice key data : apply_mask key (apply_mask key data) = data.
Proof.
  apply list_eq. intros i. unfold apply_mask. rewrite !list_lookup_imap.
  destruct (data !! i); simpl; [|done]. f_equal.
  by rewrite Z.lxor_assoc, Z.lxor_nilpotent, Z.lxor_0_r.
Qed.

Section proofs.
Context (native : endian) (max_size : Z).

(** The bytes of a frame on the wire. *)
Definition frame (msg : WSFrameMessage) (client fin : bool) (rand_value : Z) : list Z :=
  let key := to_memory native uint32_t rand_value in
  head_bytes (send_head msg client fin) ++ length_bytes native (Z.of_nat (length (m_data msg))) ++
  (if client then key ++ apply_mask key (m_data msg) else m_data msg).

Lemma send_head_ok msg client fin : head_ok (send_head msg client fin).
Proof.
  split; simpl.
  - change 15 with (2 ^ 4 - 1). rewrite land_low by lia. by apply Z.mod_pos_bound.
  - repeat case_decide; lia.
Qed.

Lemma length_length_bytes size : length (length_bytes native size) =
  if decide (size < 126) then 0%nat else if decide (size < 65536) then 2%nat else 8%nat.
Proof. unfold length_bytes. repeat case_decide; [done|by rewrite length_to_memory..]. Qed.

Lemma try_write_ok st buffer :
  healthy st → (0 < length buffer)%nat → Z.of_nat (length buffer) < 2 ^ 31 →
  ∃ st', try_write st buffer = Ok (true, st') ∧
    s_in st' = s_in st ∧ s_out st' = s_out st ++ buffer ∧ healthy st'.
Proof.
  intros Hh Hp Hl. unfold try_write.
  destruct (writeFixSize_healthy st buffer Hh Hl) as (st' & -> & ?). osimpl.
  exists st'. by rewrite bool_decide_true by lia.
Qed.

(** Sending a non-empty message writes its frame. *)
Lemma send_spec st msg client fin rand_value :
  healthy st → (0 < length (m_data msg))%nat → Z.of_nat (length (m_data msg)) < 2 ^ 31 - 2 →
  ∃ st' msg', WSSendMessage native st msg client fin rand_value =
      Ok (Z.of_nat (length (m_data msg)) + 2, msg', st') ∧
    s_in st' = s_in st ∧ s_out st' = s_out st ++ frame msg client fin rand_value ∧ healthy st'.
Proof.
  intros Hh Hpos Hlen. unfold WSSendMessage.
  set (size := Z.of_nat (length (m_data msg))) in *.
  destruct (try_write_ok st (head_bytes (send_head msg client fin)) Hh)
    as (st1 & -> & I1 & O1 & H1); [simpl; lia|simpl; lia|]. osimpl. cbn [negb].
  assert (∃ st2, (if decide (payload (send_head msg client fin) = 126 ∨ payload (send_head msg client fin) = 127)
      then try_write st1 (length_bytes native size) else mret (true, st1)) = Ok (true, st2) ∧
    s_in st2 = s_in st ∧ s_out st2 = s_out st1 ++ length_bytes native size ∧ healthy st2)
    as (st2 & -> & I2 & O2 & H2).
  { simpl. fold size. pose proof (length_length_bytes size) as Hll. destruct (decide (size < 126)) as [Hs|Hs].
    - rewrite decide_False by lia. exists st1. apply nil_length_inv in Hll. rewrite Hll, app_nil_r.
      by split_and!.
    - rewrite decide_True by (case_decide; lia).
      destruct (try_write_ok st1 (length_bytes native size) H1) as (st2 & -> & I2 & O2 & H2).
      + rewrite Hll. case_decide; lia.
      + rewrite Hll. case_decide; lia.
      + exists st2. split_and!; [done|congruence|done|done]. }
  osimpl. cbn [negb]. set (key := to_memory native uint32_t rand_value).
  assert (length key = 4%nat) as Hkey by apply length_to_memory.
  destruct client.
  - destruct (try_write_ok st2 key H2) as (st3 & -> & I3 & O3 & H3); [lia|lia|].
    osimpl. cbn [negb m_data].
    destruct (try_write_ok st3 (apply_mask key (m_data msg)) H3) as (st4 & -> & I4 & O4 & H4);
      [rewrite length_apply_mask; lia..|].
    osimpl. cbn [negb]. eexists st4, _. rewrite swrap_small by (unfold in_signed; lia).
    split_and!; [done|congruence| |done].
    unfold frame. fold key size. rewrite O4, O3, O2, O1. by rewrite <-!(assoc_L (++)).
  - osimpl. cbn [negb].
    destruct (try_write_ok st2 (m_data msg) H2) as (st4 & -> & I4 & O4 & H4); [lia..|].
    osimpl. cbn [negb]. eexists st4, _. rewrite swrap_small by (unfold in_signed; lia).
    split_and!; [done|congruence| |done].
    unfold frame. fold size. rewrite O4, O2, O1. by rewrite <-!(assoc_L (++)).
Qed.

(** ** Receiving a frame *)

(** Reading a known prefix. *)
Lemma read_prefix st (n : Z) data rest :
  healthy st → s_in st = data ++ rest → n = Z.of_nat (length data) → n < 2 ^ 31 →
  ∃ st', readFixSize st n = Ok (n, data, st') ∧ s_in st' = rest ∧ s_out st' = s_out st ∧ healthy st'.
Proof. intros Hh Hin -> Hl. by apply readFixSize_healthy. Qed.

Lemma network_roundtrip t v :
  (0 < sizeof t)%nat → in_type t v →
  byteswapOnLittleEndian native t (of_memory native t
    (to_memory native t (byteswapOnLittleEndian native t v))) = v.
Proof.
  intros Ht Hv. rewrite of_to_memory_id; [by apply byteswapOnLittleEndian_twice|done|].
  destruct native; simpl; [by apply byteswap_in_type|done].
Qed.

Lemma recv_length_spec st msg client fin rest :
  let size := Z.of_nat (length (m_data msg)) in
  healthy st → s_in st = length_bytes native size ++ rest → size < 2 ^ 31 →
  ∃ st', recv_length native st (send_head msg client fin) = Ok (Some size, st') ∧
    s_in st' = rest ∧ s_out st' = s_out st ∧ healthy st'.
Proof.
  intros size Hh Hin Hl. unfold recv_length. simpl. fold size.
  pose proof (length_length_bytes size) as Hlen. unfold length_bytes in *.
  destruct (decide (size < 126)) as [H1|H1]; [|destruct (decide (size < 65536)) as [H2|H2]].
  - rewrite !decide_False by lia. by exists st.
  - rewrite decide_True by done. destruct (read_prefix st 2 _ rest Hh Hin) as (st' & -> & ?); [lia|lia|].
    osimpl. rewrite decide_False by lia. exists st'. split; [|done]. do 3 f_equal.
    rewrite network_roundtrip; [apply uwrap_small; unfold in_unsigned; lia|simpl; lia|].
    apply uwrap_range. lia.
  - rewrite decide_False, decide_True by done.
    destruct (read_prefix st 8 _ rest Hh Hin) as (st' & -> & ?); [lia|lia|].
    osimpl. rewrite decide_False by lia. exists st'. split; [|done]. do 3 f_equal.
    apply network_roundtrip; [simpl; lia|]. change (in_unsigned 64 size). unfold in_unsigned. lia.
Qed.

(** The key a receiver uses, and the payload after it. *)
Lemma recv_key_spec st msg (client fin : bool) rand_value rest :
  let key := to_memory native uint32_t rand_value in
  healthy st → s_in st = (if client then key else []) ++ rest →
  ∃ k st', recv_key st (send_head msg client fin) = Ok (Some k, st') ∧ (client = true → k = key) ∧
    s_in st' = rest ∧ s_out st' = s_out st ∧ healthy st'.
Proof.
  intros key Hh Hin. unfold recv_key. simpl. destruct client; [|by exists [0; 0; 0; 0], st].
  destruct (read_prefix st 4 key rest Hh Hin) as (st' & -> & ?); [|lia|].
  - unfold key. by rewrite length_to_memory.
  - osimpl. rewrite decide_False by lia. by exists key, st'.
Qed.

Lemma length_resize n data : length (resize n data) = n.
Proof. unfold resize. rewrite length_take, length_app, length_replicate. lia. Qed.

(** A data frame from the other side extends the message. *)
Lemma recv_data_spec st msg (client fin : bool) rand_value rest op data :
  let size := Z.of_nat (length (m_data msg)) in
  let cur_len := Z.of_nat (length data) in
  healthy st → (0 < length (m_data msg))%nat → cur_len + size < max_size → max_size <= 2 ^ 31 →
  s_in st = length_bytes native size ++
    (if client then to_memory native uint32_t rand_value ++
                    apply_mask (to_memory native uint32_t rand_value) (m_data msg)
     else m_data msg) ++ rest →
  let op' := if decide (op = 0 ∧ opcode (send_head msg client fin) ≠ CONTINUE)
             then opcode (send_head msg client fin) else op in
  ∃ st', recv_data native max_size st (negb client) (send_head msg client fin) op data cur_len =
      Ok (if fin then Message (mkMsg op' (data ++ m_data msg))
          else Again op' (data ++ m_data msg) (cur_len + size), st') ∧
    s_in st' = rest ∧ s_out st' = s_out st ∧ healthy st'.
Proof.
  intros size cur_len Hh Hpos Hsz Hmax Hin op'. unfold recv_data.
  replace (negb (negb client) && negb (mask (send_head msg client fin))) with false
    by (simpl; by destruct client).
  destruct (recv_length_spec st msg client fin _ Hh Hin) as (st1 & -> & I1 & O1 & H1); [lia|].
  osimpl. rewrite uwrap_small by (unfold in_unsigned; lia). rewrite decide_False by lia.
  set (body := if client then apply_mask (to_memory native uint32_t rand_value) (m_data msg)
               else m_data msg).
  destruct (recv_key_spec st1 msg client fin rand_value (body ++ rest) H1) as (k & st2 & -> & Hk & I2 & O2 & H2).
  { rewrite I1. subst body. by destruct client; rewrite <-?(assoc_L (++)). }
  osimpl. unfold recv_payload. fold size cur_len.
  assert (length body = length (m_data msg)) as Hlb
    by (subst body; destruct client; by rewrite ?length_apply_mask).
  destruct (read_prefix st2 size body rest H2 I2) as (st3 & -> & I3 & O3 & H3); [lia|lia|]. osimpl.
  rewrite length_resize, (decide_False (P := body ≠ [] ∧ _))
    by (intros [_ Hx]; unfold size, cur_len in *; lia). osimpl.
  rewrite bool_decide_true by lia. cbn [negb].
  assert (overwrite (Z.to_nat cur_len) body (resize (Z.to_nat (cur_len + size)) data) = data ++ body) as ->.
  { unfold overwrite, resize. rewrite take_take, drop_ge, app_nil_r.
    - f_equal. rewrite take_app_le by lia. apply take_ge. lia.
    - rewrite length_take, length_app, length_replicate. lia. }
  rewrite take_app_length', drop_app_length' by lia.
  rewrite swrap_small by (unfold in_signed; lia).
  assert ((if mask (send_head msg client fin) then data ++ apply_mask k body else data ++ body) =
    data ++ m_data msg) as ->.
  { subst body. simpl. destruct client; [|done]. by rewrite Hk, apply_mask_twice. }
  exists st3. split; [by destruct fin|]. split_and!; [done|congruence|done].
Qed.

Lemma recv_frame_spec st msg (client fin : bool) rand_value rest op data :
  let size := Z.of_nat (length (m_data msg)) in
  let cur_len := Z.of_nat (length data) in
  healthy st → (0 < length (m_data msg))%nat → cur_len + size < max_size → max_size <= 2 ^ 31 →
  0 <= m_opcode msg <= 2 → s_in st = frame msg client fin rand_value ++ rest →
  let op' := if decide (op = 0 ∧ m_opcode msg ≠ CONTINUE) then m_opcode msg else op in
  ∃ st', recv_frame native max_size st (negb client) op data cur_len =
      Ok (if fin then Message (mkMsg op' (data ++ m_data msg))
          else Again op' (data ++ m_data msg) (cur_len + size), st') ∧
    s_in st' = rest ∧ s_out st' = s_out st ∧ healthy st'.
Proof.
  intros size cur_len Hh Hpos Hsz Hmax Hop Hin op'. unfold recv_frame.
  unfold frame in Hin. rewrite <-!(assoc_L (++)) in Hin.
  destruct (read_prefix st 2 _ _ Hh Hin) as (st1 & -> & I1 & O1 & H1); [done|lia|]. osimpl.
  rewrite decide_False by lia. rewrite head_roundtrip by apply send_head_ok.
  assert (opcode (send_head msg client fin) = m_opcode msg) as Hopc.
  { simpl. change 15 with (2 ^ 4 - 1). rewrite land_low by lia. apply Z.mod_small. lia. }
  rewrite !Hopc. unfold PING, PONG, CONTINUE, TEXT_FRAME, BIN_FRAME in *.
  rewrite !decide_False, decide_True by lia.
  destruct (recv_data_spec st1 msg client fin rand_value rest op data) as (st2 & Hr & I2 & O2 & H2);
    try done.
  exists st2. rewrite Hopc in Hr. unfold cur_len. rewrite Hr. split_and!; [done|done|congruence|done].
Qed.

(** ** Whole messages *)

(** A message cut into fragments: the first frame has the opcode, the others
    are continuations, the last one is final. *)
Fixpoint fragments (op : Z) (frags : list (list Z)) : list (WSFrameMessage * bool) :=
  match frags with
  | [] => []
  | [d] => [(mkMsg op d, true)]
  | d :: frags => (mkMsg op d, false) :: fragments CONTINUE frags
  end.

Fixpoint send_all (st : Stream) (client : bool) (frames : list (WSFrameMessage * bool))
    (rand_values : list Z) : outcome Stream :=
  match frames with
  | [] => mret st
  | (msg, fin) :: frames =>
    '(_, _, st) ← WSSendMessage native st msg client fin (hd 0 rand_values);
    send_all st client frames (tail rand_values)
  end.

Fixpoint wire (client : bool) (frames : list (WSFrameMessage * bool)) (rand_values : list Z) :
    list Z :=
  match frames with
  | [] => []
  | (msg, fin) :: frames =>
    frame msg client fin (hd 0 rand_values) ++ wire client frames (tail rand_values)
  end.

Lemma send_all_spec frames : ∀ st client rand_values,
  healthy st →
  Forall (λ mf, (0 < length (m_data mf.1))%nat ∧ Z.of_nat (length (m_data mf.1)) < 2 ^ 31 - 2) frames →
  ∃ st', send_all st client frames rand_values = Ok st' ∧
    s_out st' = s_out st ++ wire client frames rand_values ∧ healthy st'.
Proof.
  induction frames as [|[msg fin] frames IH]; intros st client rv Hh Hall; simpl.
  - exists st. by rewrite app_nil_r.
  - apply Forall_cons in Hall as [[Hp Hl] Hall].
    destruct (send_spec st msg client fin (hd 0 rv) Hh Hp Hl) as (st1 & msg' & -> & _ & O1 & H1).
    osimpl. destruct (IH st1 client (tail rv) H1 Hall) as (st' & -> & O' & H').
    exists st'. rewrite O', O1, <-(assoc_L (++)). done.
Qed.

Lemma recv_loop_fragments frags : ∀ fuel st client op0 op data rv rest,
  healthy st → frags ≠ [] → Forall (λ d, (0 < length d)%nat) frags →
  Z.of_nat (length data + length (mjoin frags)) < max_size → max_size <= 2 ^ 31 →
  (op0 = 0 ∧ 1 <= op <= 2 ∨ 1 <= op0 <= 2 ∧ op = CONTINUE) →
  s_in st = wire client (fragments op frags) rv ++ rest → (length frags ≤ fuel)%nat →
  ∃ st', recv_loop native max_size fuel st (negb client) op0 data (Z.of_nat (length data)) =
      Ok (Some (mkMsg (Z.max op0 op) (data ++ mjoin frags)), st') ∧
    s_in st' = rest ∧ healthy st'.
Proof.
  induction frags as [|d frags IH]; intros fuel st client op0 op data rv rest Hh Hne Hall Hmax Hm31 Hop Hin Hf;
    [done|].
  apply Forall_cons in Hall as [Hd Hall]. destruct fuel as [|fuel]; [simpl in Hf; lia|].
  cbn [mjoin list_join] in Hmax. rewrite length_app in Hmax. unfold CONTINUE in *.
  assert ((if decide (op0 = 0 ∧ op ≠ 0) then op else op0) = Z.max op0 op) as Hop'
    by (case_decide; lia).
  cbn [recv_loop]. destruct frags as [|d2 frags].
  - cbn [fragments wire] in Hin. rewrite app_nil_r in Hin.
    destruct (recv_frame_spec st (mkMsg op d) client true (hd 0 rv) rest op0 data)
      as (st' & -> & I' & _ & H'); try done; simpl in *; [lia|lia|].
    osimpl. unfold CONTINUE. rewrite Hop'. exists st'. by rewrite app_nil_r.
  - assert (wire client (fragments op (d :: d2 :: frags)) rv =
      frame (mkMsg op d) client false (hd 0 rv) ++ wire client (fragments 0 (d2 :: frags)) (tail rv)) as Hw by done.
    rewrite Hw, <-(assoc_L (++)) in Hin.
    destruct (recv_frame_spec st (mkMsg op d) client false (hd 0 rv)
      (wire client (fragments 0 (d2 :: frags)) (tail rv) ++ rest) op0 data)
      as (st1 & -> & I1 & _ & H1); try done; simpl in *; [lia|lia|].
    osimpl. unfold CONTINUE. rewrite Hop'.
    destruct (IH fuel st1 client (Z.max op0 op) 0 (data ++ d) (tail rv) rest)
      as (st' & Hr & I' & H'); try done; [|right; lia|simpl in Hf; lia|].
    { rewrite length_app. simpl. lia. }
    exists st'. rewrite length_app, Nat2Z.inj_add in Hr. rewrite Hr. split_and!; [|done|done].
    do 4 f_equal; [lia|]. simpl. by rewrite <-!(assoc_L (++)).
Qed.

Lemma fragments_nonempty frags op :
  Forall (λ d, (0 < length d)%nat) frags → Z.of_nat (length (mjoin frags)) < 2 ^ 31 - 2 →
  Forall (λ mf, (0 < length (m_data mf.1))%nat ∧ Z.of_nat (length (m_data mf.1)) < 2 ^ 31 - 2)
    (fragments op frags).
Proof.
  intros Hall. revert op. induction Hall as [|d frags Hd Hall IH]; intros op Hl; [constructor|].
  change (mjoin (d :: frags)) with (d ++ mjoin frags) in Hl. rewrite length_app in Hl.
  destruct frags as [|d2 frags]; [repeat constructor; simpl; lia|].
  change (fragments op (d :: d2 :: frags)) with ((mkMsg op d, false) :: fragments CONTINUE (d2 :: frags)).
  constructor; [simpl; lia|]. apply IH. lia.
Qed.

Lemma length_wire client frames : ∀ rv, (length frames ≤ length (wire client frames rv))%nat.
Proof.
  induction frames as [|[msg f] frames IH]; intros rv; [done|]. cbn [wire]. rewrite length_app.
  specialize (IH (tail rv)). unfold frame. rewrite length_app. simpl. lia.
Qed.

Lemma length_fragments frags : ∀ op, length (fragments op frags) = length frags.
Proof.
  induction frags as [|d frags IH]; intros op; [done|]. destruct frags as [|d2 frags]; [done|].
  change (fragments op (d :: d2 :: frags)) with ((mkMsg op d, false) :: fragments CONTINUE (d2 :: frags)).
  cbn [length]. by rewrite IH.
Qed.

End proofs.

(** C31. A text or binary message that is shorter than the receiver's
    websocket.message.max_size, itself below 2^31 - 2, sent in any number of non-empty
    fragments, by a client (which masks them) or a server, over connections on which no
    call fails, however the network cuts the bytes up, arrives at the other side as one message
    with the same opcode and content, and nothing of what follows is consumed. *)
Theorem websocket_roundtrip native max_size sender receiver client op frags rand_values sent :
  healthy sender → s_out sender = [] → healthy receiver →
  frags ≠ [] → Forall (λ d, (0 < length d)%nat) frags → 1 <= op <= 2 →
  Z.of_nat (length (mjoin frags)) < max_size → max_size < 2 ^ 31 - 2 →
  send_all native sender client (fragments op frags) rand_values = Ok sent →
  (∃ rest, s_in receiver = s_out sent ++ rest) →
  ∃ receiver', WSRecvMessage native max_size receiver (negb client) =
      Ok (Some (mkMsg op (mjoin frags)), receiver') ∧
    s_in receiver = s_out sent ++ s_in receiver'.
Proof.
  intros Hs Hout Hr Hne Hall Hop Hmax Hm31 Hsend [rest Hin].
  destruct (send_all_spec native (fragments op frags) sender client rand_values Hs)
    as (sent' & Hsend' & Ho & _); [by apply fragments_nonempty; [|lia]|].
  assert (sent' = sent) as -> by congruence. rewrite Hout in Ho. simpl in Ho.
  unfold WSRecvMessage. rewrite Hin, Ho in *.
  destruct (recv_loop_fragments native max_size frags
    (S (length (wire native client (fragments op frags) rand_values ++ rest)))
    receiver client 0 op [] rand_values rest) as (st' & Hrun & Hrest & _); try done.
  - lia.
  - by left.
  - pose proof (length_wire native client (fragments op frags) rand_values).
    rewrite length_fragments in H. rewrite length_app. lia.
  - exists st'. rewrite Z.max_r in Hrun by lia. split; [exact Hrun|by rewrite Hrest].
Qed.

(** A masked message in two fragments, written a byte at a time at first. *)
Definition hi_sent : outcome Stream :=
  send_all SYLAR_LITTLE_ENDIAN (mkStream [] [] [IoUpTo 1] true) true
    (fragments TEXT_FRAME [[104; 105]; [33]]) [305419896; 7].

Definition hi_wire : list Z := match hi_sent with Ok st => s_out st | _ => [] end.

Lemma websocket_roundtrip_witness :
  ∃ receiver', WSRecvMessage SYLAR_LITTLE_ENDIAN 1024
      (mkStream hi_wire [] [IoUpTo 3; IoUpTo 1] true) false =
    Ok (Some (mkMsg TEXT_FRAME [104; 105; 33]), receiver').
Proof.
  edestruct (websocket_roundtrip SYLAR_LITTLE_ENDIAN 1024 (mkStream [] [] [IoUpTo 1] true)
    (mkStream hi_wire [] [IoUpTo 3; IoUpTo 1] true) true TEXT_FRAME [[104; 105]; [33]] [305419896; 7])
    as (receiver' & Hr & _).
  - split; [reflexivity|repeat constructor].
  - reflexivity.
  - split; [reflexivity|repeat constructor].
  - discriminate.
  - repeat constructor.
  - unfold TEXT_FRAME. lia.
  - simpl. lia.
  - lia.
  - vm_compute. reflexivity.
  - exists []. vm_compute. reflexivity.
  - exists receiver'. exact Hr.
Defined.

(** ** Safety on any input *)

Lemma writeFixSize_total st buffer : is_ok (writeFixSize st buffer) = true.
Proof.
  unfold writeFixSize.
  assert (∀ fuel st buffer, (length buffer < fuel)%nat →
    is_ok (writeFixSize_loop fuel st buffer) = true) as H.
  { clear. induction fuel as [|fuel IH]; intros st buffer Hf; [lia|]. cbn [writeFixSize_loop].
    destruct buffer as [|b buffer]; [done|]. destruct (stream_write st (b :: buffer)) as [len st'].
    case_decide; [done|]. apply IH. rewrite length_drop. simpl in *. lia. }
  specialize (H (S (length buffer)) st buffer ltac:(lia)).
  by destruct (writeFixSize_loop _ _ _) as [[? ?]| |].
Qed.

Lemma writeFixSize_loop_in fuel : ∀ st buffer r st',
  writeFixSize_loop fuel st buffer = Ok (r, st') → s_in st' = s_in st.
Proof.
  induction fuel as [|fuel IH]; intros st buffer r st'; [done|]. cbn [writeFixSize_loop].
  destruct buffer as [|b buffer]; [by intros [= _ <-]|].
  destruct (stream_write st (b :: buffer)) as [len st1] eqn:E.
  assert (s_in st1 = s_in st) as Hin
    by (unfold stream_write in E; destruct (s_open st); by injection E as <- <-).
  case_decide; [by intros [= _ <-]|]. intros Hr. rewrite <-Hin. by eapply IH.
Qed.

(** Writing returns on any stream and leaves its input alone. *)
Lemma writeFixSize_in st buffer :
  ∃ v st', writeFixSize st buffer = Ok (v, st') ∧ s_in st' = s_in st.
Proof.
  pose proof (writeFixSize_total st buffer) as Hok.
  destruct (writeFixSize st buffer) as [[v st1]| |] eqn:E; try done. exists v, st1. split; [done|].
  unfold writeFixSize in E. apply outcome_bind_ok in E as ([r st2] & Hl & [= _ <-]).
  by eapply writeFixSize_loop_in.
Qed.

Lemma WSPong_total st : ∃ v st', WSPong st = Ok (v, st') ∧ s_in st' = s_in st.
Proof.
  unfold WSPong, WSControl.
  destruct (writeFixSize_in st (head_bytes (control_head PONG))) as (v & st1 & -> & Hin).
  osimpl. eexists _, _. split; [done|]. by case_decide.
Qed.

Lemma readFixSize_total st len :
  0 <= len < 2 ^ 64 →
  ∃ v bytes st', readFixSize st len = Ok (v, bytes, st') ∧
    Z.of_nat (length bytes) <= Z.max 0 (s64 len) ∧ (length (s_in st') ≤ length (s_in st))%nat ∧
    (0 < v → Z.of_nat (length bytes) = Z.max 0 (s64 len) ∧ v = s32 len ∧
             (length (s_in st) = length bytes + length (s_in st'))%nat).
Proof.
  intros Hlen. unfold readFixSize.
  destruct (readFixSize_loop_total (S (Z.to_nat (s64 len))) st (s64 len) [])
    as (r & bytes & st' & -> & H1 & H2 & H3); [lia|]. osimpl.
  eexists _, bytes, st'. split; [done|]. split_and!; [done|done|].
  destruct r as [e|]; [|intros; split_and!; [apply H3|done|apply H3]].
  intros Hv. exfalso. rewrite swrap_small in Hv by (unfold in_signed; lia). lia.
Qed.

Section safety.
Context (native : endian) (max_size : Z).
Hypothesis Hmax : max_size <= 2 ^ 31.

Lemma recv_length_total st h :
  0 <= payload h < 128 →
  ∃ r st', recv_length native st h = Ok (r, st') ∧ (length (s_in st') ≤ length (s_in st))%nat ∧
    ∀ n, r = Some n → 0 <= n < 2 ^ 64.
Proof.
  intros Hp. unfold recv_length. repeat case_decide.
  - destruct (readFixSize_total st 2) as (v & bs & st' & -> & _ & Hle & _); [lia|]. osimpl.
    eexists _, st'. split_and!; [done|done|]. case_decide; [done|]. intros n [= <-].
    assert (in_type uint16_t (byteswapOnLittleEndian native uint16_t (of_memory native uint16_t bs))) as Ht.
    { destruct native; simpl; [by apply byteswap_in_type; simpl; lia|by apply cast_in_type; simpl; lia]. }
    set (x := byteswapOnLittleEndian _ _ _) in *. change (in_unsigned 16 x) in Ht.
    unfold in_unsigned in Ht. lia.
  - destruct (readFixSize_total st 8) as (v & bs & st' & -> & _ & Hle & _); [lia|]. osimpl.
    eexists _, st'. split_and!; [done|done|]. case_decide; [done|]. intros n [= <-].
    assert (in_type uint64_t (byteswapOnLittleEndian native uint64_t (of_memory native uint64_t bs))) as Ht.
    { destruct native; simpl; [by apply byteswap_in_type; simpl; lia|by apply cast_in_type; simpl; lia]. }
    exact Ht.
  - eexists _, st. split_and!; [done|done|]. intros n [= <-]. lia.
Qed.

Lemma recv_key_total st h :
  ∃ r st', recv_key st h = Ok (r, st') ∧ (length (s_in st') ≤ length (s_in st))%nat.
Proof.
  unfold recv_key. destruct (mask h); [|by eexists _, st].
  destruct (readFixSize_total st 4) as (v & bs & st' & -> & _ & Hle & _); [lia|]. osimpl.
  by eexists _, st'.
Qed.

(** What a turn of the loop may leave behind. *)
Definition step_ok (r : recv_step) : Prop :=
  match r with
  | Again _ data cur_len => cur_len = Z.of_nat (length data) ∧ 0 <= cur_len < 2 ^ 31
  | _ => True
  end.

(** Where the sum of the lengths wraps around, the read fails before it stores
    anything. *)
Lemma length_arith cur_len len total :
  0 <= cur_len < 2 ^ 31 → 0 <= len < 2 ^ 64 → total = u64 (cur_len + len) → total < 2 ^ 31 →
  (0 < s64 len ∨ 0 < s32 len) → total = cur_len + len ∧ s64 len = len.
Proof.
  intros Hc Hl -> Ht Hs. unfold uwrap, swrap in *.
  assert (len mod 2 ^ 64 = len) as E by (apply Z.mod_small; lia). rewrite E in *.
  destruct (Z.lt_ge_cases (cur_len + len) (2 ^ 64)).
  - rewrite Z.mod_small in Ht |- * by lia. split; [done|].
    destruct (Z.ltb_spec len (2 ^ (64 - 1))); lia.
  - exfalso. destruct Hs as [Hs|Hs].
    + destruct (Z.ltb_spec len (2 ^ (64 - 1))); lia.
    + assert (len mod 2 ^ 32 = len - 2 ^ 64 + 2 ^ 32) as E2.
      { symmetry. apply (Z.mod_unique_pos _ _ (2 ^ 32 - 1)); lia. }
      rewrite E2 in Hs. destruct (Z.ltb_spec (len - 2 ^ 64 + 2 ^ 32) (2 ^ (32 - 1))); lia.
Qed.

Lemma recv_data_total st client h op data cur_len :
  0 <= payload h < 128 → cur_len = Z.of_nat (length data) → 0 <= cur_len < 2 ^ 31 →
  ∃ r st', recv_data native max_size st client h op data cur_len = Ok (r, st') ∧
    (length (s_in st') ≤ length (s_in st))%nat ∧ step_ok r.
Proof.
  intros Hp Hcl Hc. unfold recv_data. case_match; [by eexists _, st|].
  destruct (recv_length_total st h Hp) as (len & st1 & -> & Hle1 & Hlen). osimpl.
  destruct len as [len|]; [|by eexists _, st1]. specialize (Hlen len eq_refl).
  case_decide as Htot; [by eexists _, st1|].
  destruct (recv_key_total st1 h) as (key & st2 & -> & Hle2). osimpl.
  destruct key as [key|]; [|by eexists _, st2; split_and!; [done|lia|]].
  unfold recv_payload.
  destruct (readFixSize_total st2 len Hlen) as (v & bs & st3 & -> & Hb & Hle3 & Hv). osimpl.
  set (total := u64 (cur_len + len)) in *.
  pose proof (length_arith cur_len len total Hc Hlen eq_refl) as Har.
  rewrite length_resize, (decide_False (P := bs ≠ [] ∧ _)).
  2: { intros [Hne Hlt]. assert (0 < Z.of_nat (length bs)) by (destruct bs; [congruence|simpl; lia]).
       destruct Har as [? ?]; [lia|left; lia|]. lia. }
  osimpl. case_bool_decide as Hpos; cbn [negb]; [|by eexists _, st3; split_and!; [done|lia|]].
  destruct (Hv Hpos) as (Hbs & Hvl & _). destruct Har as [Ht1 Ht2]; [lia|right; lia|].
  eexists _, st3. split; [done|]. split; [lia|]. destruct (fin h); [done|]. simpl.
  rewrite swrap_small by (unfold in_signed; lia). split; [|lia].
  assert (length (overwrite (Z.to_nat cur_len) bs (resize (Z.to_nat total) data)) = Z.to_nat total) as Hlo.
  { rewrite length_overwrite; rewrite length_resize; lia. }
  destruct (mask h); [|lia]. rewrite length_app, length_take, length_apply_mask, length_drop. lia.
Qed.

Lemma head_of_bytes_payload bs : 0 <= payload (head_of_bytes bs) < 128.
Proof.
  simpl. change 127 with (2 ^ 7 - 1). rewrite land_low by lia. by apply Z.mod_pos_bound.
Qed.

Lemma recv_frame_total st client op data cur_len :
  cur_len = Z.of_nat (length data) → 0 <= cur_len < 2 ^ 31 →
  ∃ r st', recv_frame native max_size st client op data cur_len = Ok (r, st') ∧ step_ok r ∧
    (r = Failed ∨ (length (s_in st') < length (s_in st))%nat).
Proof.
  intros Hcl Hc. unfold recv_frame.
  destruct (readFixSize_total st 2) as (v & bs & st1 & -> & _ & _ & Hv); [lia|]. osimpl.
  case_decide as Hv0; [by eexists _, st1; split_and!; [done|done|left]|].
  assert (length (s_in st1) < length (s_in st))%nat as Hlt.
  { destruct Hv as (Hb & _ & Hl); [lia|]. assert (s64 2 = 2) as E by done. rewrite E in Hb. lia. }
  pose proof (head_of_bytes_payload bs). set (h := head_of_bytes bs) in *.
  repeat case_decide.
  - destruct (WSPong_total st1) as (v2 & st2 & -> & Hin). osimpl. eexists _, st2. split; [done|].
    case_decide; split_and!; (done || (right; by rewrite Hin) || by left).
  - eexists _, st1. split_and!; [done|done|by right].
  - destruct (recv_data_total st1 client h op data cur_len) as (r & st2 & -> & Hle & Hok); [done..|].
    exists r, st2. split_and!; [done|done|right; lia].
  - eexists _, st1. split_and!; [done|done|by right].
Qed.

Lemma recv_loop_total fuel : ∀ st client op data cur_len,
  cur_len = Z.of_nat (length data) → 0 <= cur_len < 2 ^ 31 → (length (s_in st) < fuel)%nat →
  ∃ r st', recv_loop native max_size fuel st client op data cur_len = Ok (r, st') ∧
    (r = None ∨ (length (s_in st') < length (s_in st))%nat).
Proof.
  induction fuel as [|fuel IH]; intros st client op data cur_len Hcl Hc Hf; [lia|].
  cbn [recv_loop].
  destruct (recv_frame_total st client op data cur_len Hcl Hc) as (r & st' & -> & Hok & Hlt). osimpl.
  destruct r as [|op' data' cur'|msg]; [by eexists None, _; auto| |].
  - destruct Hok. destruct Hlt as [?|Hlt]; [done|].
    destruct (IH st' client op' data' cur') as (r & st2 & -> & Hr); [done|done|lia|].
    exists r, st2. split; [done|]. destruct Hr; [by left|right; lia].
  - destruct Hlt as [?|Hlt]; [done|]. by eexists (Some msg), st'; auto.
Qed.

(** Receiving a message returns, and a message takes bytes off the stream. *)
Lemma WSRecvMessage_total st client :
  ∃ r st', WSRecvMessage native max_size st client = Ok (r, st') ∧
    (r = None ∨ (length (s_in st') < length (s_in st))%nat).
Proof. apply recv_loop_total; simpl; lia || done. Qed.

End safety.

(** Whatever bytes the peer sends and however the network behaves, receiving
    a message ends, and the payload is never stored outside the message buffer,
    even when the announced length makes the sum of the lengths wrap around. *)
Theorem websocket_recv_safe native max_size st client :
  max_size <= 2 ^ 31 → is_ok (WSRecvMessage native max_size st client) = true.
Proof. intros Hmax. by destruct (WSRecvMessage_total native max_size Hmax st client) as (? & ? & -> & _). Qed.

Lemma websocket_recv_safe_witness :
  is_ok (WSRecvMessage SYLAR_LITTLE_ENDIAN 1024
    (mkStream [0; 129; 0; 0; 0; 0; 65; 0; 255; 255; 255; 255; 255; 255; 255; 255; 255] [] [] true)
    false) = true.
Proof. apply (websocket_recv_safe SYLAR_LITTLE_ENDIAN 1024). lia. Defined.

Lemma recv_payload_empty st data cur_len :
  recv_payload st data cur_len 0 = Ok (false, overwrite (Z.to_nat cur_len) [] data, st).
Proof.
  unfold recv_payload. change (readFixSize st 0) with (Ok (0, @nil Z, st)). osimpl.
  by rewrite decide_False by (by intros []).
Qed.

(** An empty data frame is not received as an empty message: reading zero
    bytes counts as a failure, so the receiver closes the connection; and
    sending an empty message closes it too, after the header went out. *)
Theorem websocket_empty_closes native max_size st rest rand_value client :
  healthy st → 0 < max_size <= 2 ^ 31 →
  s_in st = frame native (mkMsg TEXT_FRAME []) client true rand_value ++ rest →
  (∃ st', WSRecvMessage native max_size st (negb client) = Ok (None, st') ∧ s_open st' = false) ∧
  (∃ msg' st', WSSendMessage native st (mkMsg TEXT_FRAME []) client true rand_value =
     Ok (-1, msg', st') ∧ s_open st' = false).
Proof.
  intros Hh Hmax Hin. split.
  - unfold WSRecvMessage. cbn [recv_loop]. unfold recv_frame.
    unfold frame in Hin. rewrite <-!(assoc_L (++)) in Hin.
    destruct (read_prefix st 2 _ _ Hh Hin) as (st1 & -> & I1 & O1 & H1); [done|lia|]. osimpl.
    rewrite decide_False by lia. rewrite head_roundtrip by apply send_head_ok.
    change (opcode (send_head (mkMsg TEXT_FRAME []) client true)) with TEXT_FRAME.
    rewrite !decide_False, decide_True by (unfold TEXT_FRAME, PING, PONG; lia).
    unfold recv_data.
    replace (negb (negb client) && negb (mask (send_head (mkMsg TEXT_FRAME []) client true)))
      with false by (simpl; by destruct client).
    destruct (recv_length_spec native st1 (mkMsg TEXT_FRAME []) client true _ H1 I1)
      as (st2 & -> & I2 & O2 & H2); [simpl; lia|]. osimpl. simpl Z.of_nat.
    rewrite decide_False by (rewrite uwrap_small; unfold in_unsigned; lia).
    destruct (recv_key_spec native st2 (mkMsg TEXT_FRAME []) client true rand_value rest H2)
      as (k & st3 & -> & _ & I3 & O3 & H3).
    { rewrite I2. destruct client; simpl; [|done]. by rewrite <-!(assoc_L (++)). }
    osimpl. rewrite recv_payload_empty. osimpl. cbn [negb]. by eexists.
  - unfold WSSendMessage.
    destruct (try_write_ok st (head_bytes (send_head (mkMsg TEXT_FRAME []) client true)) Hh)
      as (st1 & -> & I1 & O1 & H1); [simpl; lia|simpl; lia|]. osimpl. cbn [negb].
    rewrite decide_False by (simpl; lia). osimpl. cbn [negb].
    destruct client.
    + destruct (try_write_ok st1 (to_memory native uint32_t rand_value) H1)
        as (st2 & -> & I2 & O2 & H2); [rewrite length_to_memory; simpl; lia..|].
      osimpl. cbn [negb m_data m_opcode apply_mask imap].
      change (try_write st2 []) with (Ok (false, st2)). osimpl. by eexists _, _.
    + osimpl. cbn [negb m_data]. change (try_write st1 []) with (Ok (false, st1)). osimpl.
      by eexists _, _.
Qed.

Lemma websocket_empty_closes_witness :
  ∃ st', WSRecvMessage SYLAR_LITTLE_ENDIAN 1024
      (mkStream [129; 128; 0; 0; 0; 0] [] [] true) false = Ok (None, st') ∧ s_open st' = false.
Proof.
  destruct (websocket_empty_closes SYLAR_LITTLE_ENDIAN 1024
    (mkStream [129; 128; 0; 0; 0; 0] [] [] true) [] 0 true) as [H _].
  - split; [reflexivity|constructor].
  - lia.
  - vm_compute. reflexivity.
  - exact H.
Defined.
