(* ===== verification/Http.v ===== *)
(** HTTP messages (sylar/http/http.h, sylar/http/http.cc): methods and status
    codes, the case-insensitive header maps, requests and responses and what
    they look like on the wire. Strings are the lists of their bytes. *)

From Stdlib Require Import ZArith Lia.
From stdpp Require Import base numbers gmap option strings pretty tactics sets list list_numbers.
From S2P Require Import Prelude StdSet Text StdMap HashUtil.

Local Open Scope Z_scope.

(** ** Methods and status codes *)

(** [enum class HttpMethod]. *)
Inductive HttpMethod : Type :=
| DELETE | GET | HEAD | POST | PUT | CONNECT | OPTIONS | TRACE | COPY | LOCK | MKCOL | MOVE
| PROPFIND | PROPPATCH | SEARCH | UNLOCK | BIND | REBIND | UNBIND | ACL | REPORT | MKACTIVITY
| CHECKOUT | MERGE | MSEARCH | NOTIFY | SUBSCRIBE | UNSUBSCRIBE | PATCH | PURGE | MKCALENDAR
| LINK | UNLINK | SOURCE | INVAILD_METHOD.

#[export] Instance HttpMethod_eq_dec : EqDecision HttpMethod.
Proof. solve_decision. Defined.

(** The table that [HTTP_METHOD_MAP] expands to, in its order. *)
Definition HTTP_METHOD_MAP : list (HttpMethod * string) :=
  [(DELETE, "DELETE"); (GET, "GET"); (HEAD, "HEAD"); (POST, "POST"); (PUT, "PUT");
   (CONNECT, "CONNECT"); (OPTIONS, "OPTIONS"); (TRACE, "TRACE"); (COPY, "COPY");
   (LOCK, "LOCK"); (MKCOL, "MKCOL"); (MOVE, "MOVE"); (PROPFIND, "PROPFIND");
   (PROPPATCH, "PROPPATCH"); (SEARCH, "SEARCH"); (UNLOCK, "UNLOCK"); (BIND, "BIND");
   (REBIND, "REBIND"); (UNBIND, "UNBIND"); (ACL, "ACL"); (REPORT, "REPORT");
   (MKACTIVITY, "MKACTIVITY"); (CHECKOUT, "CHECKOUT"); (MERGE, "MERGE"); (MSEARCH, "M-SEARCH");
   (NOTIFY, "NOTIFY"); (SUBSCRIBE, "SUBSCRIBE"); (UNSUBSCRIBE, "UNSUBSCRIBE");
   (PATCH, "PATCH"); (PURGE, "PURGE"); (MKCALENDAR, "MKCALENDAR"); (LINK, "LINK");
   (UNLINK, "UNLINK"); (SOURCE, "SOURCE")].

(** [HTTP_STATUS_MAP]; a status is its number. *)
Definition HTTP_STATUS_MAP : list (Z * string) :=
  [(100, "Continue"); (101, "Switching Protocols"); (102, "Processing"); (200, "OK");
   (201, "Created"); (202, "Accepted"); (203, "Non-Authoritative Information");
   (204, "No Content"); (205, "Reset Content"); (206, "Partial Content");
   (207, "Multi-Status"); (208, "Already Reported"); (226, "IM Used");
   (300, "Multiple Choices"); (301, "Moved Permanently"); (302, "Found"); (303, "See Other");
   (304, "Not Modified"); (305, "Use Proxy"); (307, "Temporary Redirect");
   (308, "Permanent Redirect"); (400, "Bad Request"); (401, "Unauthorized");
   (402, "Payment Required"); (403, "Forbidden"); (404, "Not Found");
   (405, "Method Not Allowed"); (406, "Not Acceptable");
   (407, "Proxy Authentication Required"); (408, "Request Timeout"); (409, "Conflict");
   (410, "Gone"); (411, "Length Required"); (412, "Precondition Failed");
   (413, "Payload Too Large"); (414, "URI Too Long"); (415, "Unsupported Media Type");
   (416, "Range Not Satisfiable"); (417, "Expectation Failed"); (421, "Misdirected Request");
   (422, "Unprocessable Entity"); (423, "Locked"); (424, "Failed Dependency");
   (426, "Upgrade Required"); (428, "Precondition Required"); (429, "Too Many Requests");
   (431, "Request Header Fields Too Large"); (451, "Unavailable For Legal Reasons");
   (500, "Internal Server Error"); (501, "Not Implemented"); (502, "Bad Gateway");
   (503, "Service Unavailable"); (504, "Gateway Timeout"); (505, "HTTP Version Not Supported");
   (506, "Variant Also Negotiates"); (507, "Insufficient Storage"); (508, "Loop Detected");
   (510, "Not Extended"); (511, "Network Authentication Required")].

Definition method_bytes : list (HttpMethod * list Z) :=
  (λ '(m, s), (m, bytes_of_string s)) <$> HTTP_METHOD_MAP.

(** The chain of [if]s of [StringToHttpMethod] and [CharsToHttpMethod]. *)
Fixpoint first_method (matches : list Z → bool) (l : list (HttpMethod * list Z)) : HttpMethod :=
  match l with
  | [] => INVAILD_METHOD
  | (m, s) :: l => if matches s then m else first_method matches l
  end.

(** [strcmp(string, m.c_str()) == 0]. *)
Definition StringToHttpMethod (m : list Z) : HttpMethod :=
  first_method (λ s, bool_decide (s = c_str m)) method_bytes.

(** [strncmp(string, m, strlen(string)) == 0]: only a prefix is compared. *)
Definition CharsToHttpMethod (m : list Z) : HttpMethod :=
  first_method (λ s, bool_decide (take (length s) m = s)) method_bytes.

(** [(int)m] and [HttpMethodToString]. *)
Definition method_num (m : HttpMethod) : nat :=
  match list_find (λ ms, ms.1 = m) HTTP_METHOD_MAP with
  | Some (i, _) => i
  | None => length HTTP_METHOD_MAP
  end.

Definition HttpMethodToString (m : HttpMethod) : list Z :=
  match method_bytes !! method_num m with
  | Some (_, s) => s
  | None => bytes_of_string "<Unknown>"
  end.

Fixpoint status_text (s : Z) (l : list (Z * string)) : list Z :=
  match l with
  | [] => bytes_of_string "<Unknown>"
  | (code, msg) :: l => if decide (code = s) then bytes_of_string msg else status_text s l
  end.

Definition HttpStatusToString (s : Z) : list Z := status_text s HTTP_STATUS_MAP.

(** ** Header maps *)

(** What [strcasecmp] compares: the lower-cased bytes before the first zero. *)
Definition fold_case (s : list Z) : list Z := tolower <$> c_str s.

(** [strcasecmp(a, b) == 0], and [CaseInsensitiveLess]. *)
Definition strcasecmp_eq (a b : list Z) : bool := bool_decide (fold_case a = fold_case b).

Definition CaseInsensitiveLess (lhs rhs : list Z) : bool := bytes_lt (fold_case lhs) (fold_case rhs).

(** [HttpRequest::MapType]. *)
Abbreviation MapType := (list (list Z * list Z)) (only parsing).

Definition h_find (m : MapType) (key : list Z) : option (list Z) := map_find fold_case bytes_lt m key.
Definition h_set (m : MapType) (key val : list Z) : MapType := map_set fold_case bytes_lt m key val.
Definition h_erase (m : MapType) (key : list Z) : MapType := map_erase fold_case bytes_lt m key.

Section get_as.
(** [boost::lexical_cast<T>], [None] where it throws. *)
Context {T : Type} (lexical_cast : list Z → option T).

(** [checkGetAs(m, key, val, def)]: the result and the value stored. *)
Definition checkGetAs (m : MapType) (key : list Z) (def : T) : bool * T :=
  match h_find m key with
  | None => (false, def)
  | Some str =>
    match lexical_cast str with
    | Some val => (true, val)
    | None => (false, def)
    end
  end.

(** [getAs(m, key, def)]. *)
Definition getAs (m : MapType) (key : list Z) (def : T) : T :=
  match h_find m key with
  | None => def
  | Some str => default def (lexical_cast str)
  end.

End get_as.

(** ** Requests and responses *)

(** [class HttpRequest]. *)
Record HttpRequest : Type := mkRequest {
  m_method : HttpMethod;
  m_version : Z;
  m_close : bool;
  m_websocket : bool;
  m_path : list Z;
  m_query : list Z;
  m_fragment : list Z;
  m_body : list Z;
  m_headers : MapType;
  m_params : MapType;
  m_cookies : MapType
}.

(** [class HttpResponse]. *)
Record HttpResponse : Type := mkResponse {
  r_status : Z;
  r_version : Z;
  r_close : bool;
  r_websocket : bool;
  r_body : list Z;
  r_reason : list Z;
  r_headers : MapType
}.

Definition HttpRequest_new (version : Z) (close : bool) : HttpRequest :=
  mkRequest GET version close false (text "/") [] [] [] [] [] [].

Definition HttpResponse_new (version : Z) (close : bool) : HttpResponse :=
  mkResponse 200 version close false [] [] [].

Definition createResponse (req : HttpRequest) : HttpResponse :=
  HttpResponse_new (m_version req) (m_close req).

Definition getHeader (req : HttpRequest) (key def : list Z) : list Z :=
  default def (h_find (m_headers req) key).

(** [getParam] and [getCookie] compare with [m_headers.end()]: the iterators
    belong to different maps, and the comparison fails, so that a missing key
    is dereferenced. *)
Definition getParam (req : HttpRequest) (key : list Z) : outcome (list Z) :=
  deref (h_find (m_params req) key).

Definition getCookie (req : HttpRequest) (key : list Z) : outcome (list Z) :=
  deref (h_find (m_cookies req) key).

Definition set_maps (req : HttpRequest) (headers params cookies : MapType) : HttpRequest :=
  mkRequest (m_method req) (m_version req) (m_close req) (m_websocket req) (m_path req)
    (m_query req) (m_fragment req) (m_body req) headers params cookies.

Definition setHeader (req : HttpRequest) (key val : list Z) : HttpRequest :=
  set_maps req (h_set (m_headers req) key val) (m_params req) (m_cookies req).
Definition setParam (req : HttpRequest) (key val : list Z) : HttpRequest :=
  set_maps req (m_headers req) (h_set (m_params req) key val) (m_cookies req).
Definition setCookie (req : HttpRequest) (key val : list Z) : HttpRequest :=
  set_maps req (m_headers req) (m_params req) (h_set (m_cookies req) key val).
Definition delHeader (req : HttpRequest) (key : list Z) : HttpRequest :=
  set_maps req (h_erase (m_headers req) key) (m_params req) (m_cookies req).
Definition delParam (req : HttpRequest) (key : list Z) : HttpRequest :=
  set_maps req (m_headers req) (h_erase (m_params req) key) (m_cookies req).
Definition delCookie (req : HttpRequest) (key : list Z) : HttpRequest :=
  set_maps req (m_headers req) (m_params req) (h_erase (m_cookies req) key).

(** [hasHeader(key, val)] and its siblings: whether, and what is stored. *)
Definition hasHeader (req : HttpRequest) (key : list Z) : option (list Z) := h_find (m_headers req) key.
Definition hasParam (req : HttpRequest) (key : list Z) : option (list Z) := h_find (m_params req) key.
Definition hasCookie (req : HttpRequest) (key : list Z) : option (list Z) := h_find (m_cookies req) key.

Definition setClose (req : HttpRequest) (v : bool) : HttpRequest :=
  mkRequest (m_method req) (m_version req) v (m_websocket req) (m_path req)
    (m_query req) (m_fragment req) (m_body req) (m_headers req) (m_params req) (m_cookies req).

Definition setBody (req : HttpRequest) (v : list Z) : HttpRequest :=
  mkRequest (m_method req) (m_version req) (m_close req) (m_websocket req) (m_path req)
    (m_query req) (m_fragment req) v (m_headers req) (m_params req) (m_cookies req).

(** [HttpRequest::init]. *)
Definition init (req : HttpRequest) : HttpRequest :=
  let conn := getHeader req (text "connection") [] in
  if decide (conn = []) then req
  else setClose req (negb (strcasecmp_eq conn (text "keep-alive"))).

(** [HttpResponse::getHeader], [setHeader] and [delHeader]. *)
Definition r_getHeader (rsp : HttpResponse) (key def : list Z) : list Z :=
  default def (h_find (r_headers rsp) key).

Definition r_setHeaders (rsp : HttpResponse) (headers : MapType) : HttpResponse :=
  mkResponse (r_status rsp) (r_version rsp) (r_close rsp) (r_websocket rsp) (r_body rsp)
    (r_reason rsp) headers.
Definition r_setHeader (rsp : HttpResponse) (key v : list Z) : HttpResponse :=
  r_setHeaders rsp (h_set (r_headers rsp) key v).
Definition r_delHeader (rsp : HttpResponse) (key : list Z) : HttpResponse :=
  r_setHeaders rsp (h_erase (r_headers rsp) key).

(** ** The wire *)

Definition crlf : list Z := [13; 10].

(** The header lines of a message, as name and value, in order. *)
Definition map_lines (websocket : bool) (m : MapType) : list (list Z * list Z) :=
  filter (λ kv, (negb websocket && strcasecmp_eq kv.1 (text "connection")) = false) m.

Definition length_line (body : list Z) : list (list Z * list Z) :=
  if decide (body = []) then [] else [(text "content-length", dec (Z.of_nat (length body)))].

Definition close_line (name : string) (websocket close : bool) : list (list Z * list Z) :=
  if websocket then [] else [(text name, text (if close then "close" else "keep-alive"))].

(** [HttpRequest::dump] writes a line "connect". *)
Definition request_lines (req : HttpRequest) : list (list Z * list Z) :=
  close_line "connect" (m_websocket req) (m_close req) ++
  map_lines (m_websocket req) (m_headers req) ++ length_line (m_body req).

Definition response_lines (rsp : HttpResponse) : list (list Z * list Z) :=
  map_lines (r_websocket rsp) (r_headers rsp) ++
  close_line "connection" (r_websocket rsp) (r_close rsp) ++ length_line (r_body rsp).

Definition print_lines (lines : list (list Z * list Z)) : list Z :=
  mjoin ((λ kv, kv.1 ++ text ": " ++ kv.2 ++ crlf) <$> lines).

Definition optional (mark : string) (s : list Z) : list Z :=
  if decide (s = []) then [] else text mark ++ s.

Definition print_version (v : Z) : list Z :=
  text "HTTP/" ++ dec (Z.shiftr v 4) ++ text "." ++ dec (Z.land v 15).

(** [HttpRequest::dump]. *)
Definition dump (req : HttpRequest) : list Z :=
  HttpMethodToString (m_method req) ++ text " " ++ m_path req ++ optional "?" (m_query req) ++
  optional "#" (m_fragment req) ++ text " " ++ print_version (m_version req) ++ crlf ++
  print_lines (request_lines req) ++ crlf ++ m_body req.

(** [HttpResponse::dump]. *)
Definition r_dump (rsp : HttpResponse) : list Z :=
  print_version (r_version rsp) ++ text " " ++ dec (r_status rsp) ++ text " " ++
  (if decide (r_reason rsp = []) then HttpStatusToString (r_status rsp) else r_reason rsp) ++ crlf ++
  print_lines (response_lines rsp) ++ crlf ++ r_body rsp.

(** ** Orders and maps *)

(** Setters and deletions of headers, in any order. *)
Definition header_step (req : HttpRequest) (o : map_op (K := list Z) (V := list Z)) : HttpRequest :=
  match o with
  | MSet key val => setHeader req key val
  | MErase key => delHeader req key
  end.

Lemma header_steps req ops :
  m_headers (foldl header_step req ops) =
  foldl (map_step fold_case bytes_lt) (m_headers req) ops.
Proof.
  revert req. induction ops as [|o ops IH]; intros req; simpl; [done|].
  rewrite IH. by destruct o.
Qed.

(** The headers of a request behave as a finite map whose keys are the
    names up to case: whatever headers were set and deleted, in any order and
    any spelling, [getHeader] finds the value last set under an equal name and
    the default otherwise. *)
Theorem headers_refine_map (version : Z) (close : bool)
    (ops : list (map_op (K := list Z) (V := list Z))) (key def : list Z) :
  getHeader (foldl header_step (HttpRequest_new version close) ops) key def =
  default def (foldl (canon_step fold_case) (∅ : gmap (list Z) (list Z)) ops !! fold_case key).
Proof.
  unfold getHeader, h_find. f_equal. rewrite header_steps.
  apply (map_steps_refine _ _ bytes_lt_strict); [constructor|done].
Qed.

(** Every method is recognised from its name, as a whole string and as the
    start of a longer text such as a request line, so that no method's name hides
    another's; the number printed back is the same method. *)
Theorem method_names (m : HttpMethod) (rest : list Z) :
  m = INVAILD_METHOD ∨
  StringToHttpMethod (HttpMethodToString m) = m ∧
  CharsToHttpMethod (HttpMethodToString m ++ rest) = m.
Proof. destruct m; [right..|by left]; by vm_compute. Qed.

Lemma map_lines_upgrade (m : MapType) : map_lines true m = m.
Proof.
  unfold map_lines. induction m as [|kv m IH]; [done|].
  rewrite filter_cons_True by done. by rewrite IH.
Qed.

(** The filter of the header loop leaves no "connection" line behind, unless
    the message is an upgrade. *)
Lemma map_lines_connection websocket (m : MapType) :
  filter (λ kv, strcasecmp_eq kv.1 (text "connection") = true) (map_lines websocket m) =
  if websocket then filter (λ kv, strcasecmp_eq kv.1 (text "connection") = true) m else [].
Proof.
  destruct websocket; [by rewrite map_lines_upgrade|].
  unfold map_lines. induction m as [|kv m IH]; [done|].
  destruct (strcasecmp_eq kv.1 (text "connection")) eqn:E.
  - rewrite (filter_cons_False _ _ m); [done|]. by rewrite E.
  - rewrite (filter_cons_True _ _ m) by (by rewrite E).
    rewrite filter_cons_False; [done|]. by rewrite E.
Qed.

Lemma length_line_connection body :
  filter (λ kv, strcasecmp_eq kv.1 (text "connection") = true) (length_line body) = [].
Proof.
  unfold length_line. case_decide; [done|]. rewrite filter_cons_False; [done|]. by vm_compute.
Qed.

(** Which "connection" lines are sent, for any header map and any spelling
    of the name: a response that is no websocket upgrade has exactly one, written
    from its close flag; a request that is none has no such line at all, because
    the flag is written under the name "connect"; an upgrade sends those of
    its map. *)
Theorem connection_lines (req : HttpRequest) (rsp : HttpResponse) :
  let is_connection (kv : list Z * list Z) := strcasecmp_eq kv.1 (text "connection") = true in
  filter is_connection (request_lines req) =
    (if m_websocket req then filter is_connection (m_headers req) else []) ∧
  filter is_connection (response_lines rsp) =
    (if r_websocket rsp then filter is_connection (r_headers rsp)
     else [(text "connection", text (if r_close rsp then "close" else "keep-alive"))]).
Proof.
  intros is_connection. unfold request_lines, response_lines, close_line.
  rewrite !filter_app, !map_lines_connection, !length_line_connection, !app_nil_r.
  split.
  - by destruct (m_websocket req).
  - destruct (r_websocket rsp); simpl; [by rewrite app_nil_r|]. by destruct (r_close rsp).
Qed.
