(* ===== verification/HttpParser.v ===== *)
(** Receiving requests (sylar/http/http_parser.cc, sylar/http/http_session.cc and
    the handshake of sylar/http/ws_session.cc). The state machine of the parser is a
    parameter here, which reports the elements it meets to the callbacks below and says
    how many bytes it used, or throws or aborts; those that are generated from the
    grammars are in [Http11] and [ClientMachine]. *)

From Stdlib Require Import ZArith Lia.
From stdpp Require Import base numbers option strings tactics list list_numbers.
From S2P Require Import Prelude StdSet Text StdMap HashUtil Stream WebSocket Http.

Local Open Scope Z_scope.

(** ** The generated machine *)

(** What the machine reports. A [const char*] argument is the list of the
    bytes from there to the end of the buffer. *)
Inductive event : Type :=
| EvMethod (at_ : list Z) (length : nat)
| EvUri (at_ : list Z) (length : nat)
| EvFragment (at_ : list Z) (length : nat)
| EvPath (at_ : list Z) (length : nat)
| EvQuery (at_ : list Z) (length : nat)
| EvVersion (at_ : list Z) (length : nat)
| EvHeaderDone
| EvField (field : list Z) (flen : nat) (value : list Z) (vlen : nat)
| EvReason (at_ : list Z) (length : nat)
| EvStatus (at_ : list Z) (length : nat)
| EvChunk
| EvLastChunk.

(** [http_parser] and [httpclient_parser] with their functions; the last three
    are the fields [chunked], [content_len] and [chunks_done] that the client
    code looks at. *)
Record Engine : Type := mkEngine {
  machine : Type;
  e_init : machine;
  e_execute : machine → list Z → outcome (machine * list event * nat);
  e_has_error : machine → bool;
  e_is_finished : machine → bool;
  e_chunked : machine → bool;
  e_content_len : machine → Z;
  e_chunks_done : machine → bool
}.

(** When it returns, the machine has not run past the buffer, which is never empty. *)
Definition within_buffer (eng : Engine) : Prop :=
  ∀ m data m' events n, data ≠ [] → e_execute eng m data = Ok (m', events, n) → (n ≤ length data)%nat.

(** The largest text that can be allocated. *)
Class Memory : Type := memory : Z.

(** [strncmp(a, b, n) == 0]. *)
Definition strncmp_eq (a b : list Z) (n : nat) : bool :=
  bool_decide (take n (c_str a ++ [0]) = take n (c_str b ++ [0])).

(** [std::string(at, length)]: no more bytes are there than were received. *)
Definition std_string (at_ : list Z) (length : nat) : outcome (list Z) :=
  if decide (length <= List.length at_)%nat then mret (take length at_) else Stuck.

(** ** Reading a header *)

Section head_loop.
(** The parser with its [execute], [hasError] and [isFinished], and the size of
    the buffer. *)
Context {P : Type} (execute : P → list Z → outcome (P * nat * list Z)) (hasError isFinished : P → bool).
Context (buff_size : nat).

(** The loop that reads until the header is over; [data] is what the buffer
    still holds. *)
Fixpoint recv_header (fuel : nat) (st : Stream) (p : P) (data : list Z) :
    outcome (option (P * list Z) * Stream) :=
  match fuel with
  | O => Stuck
  | S fuel =>
    let '(len, bytes, st) := stream_read st (buff_size - length data) in
    if decide (len <= 0) then mret (None, stream_close st) else
    '(p, nparse, rest) ← execute p (data ++ bytes);
    if decide (length (data ++ bytes) < nparse)%nat then Stuck else
    if hasError p then mret (None, stream_close st) else
    if decide (length rest = buff_size) then mret (None, stream_close st) else
    if isFinished p then mret (Some (p, rest), st)
    else recv_header fuel st p rest
  end.

(** How a parser comes about: from [p0] it has been fed buffers of which it
    used [used], and the bytes [pending] are still in the buffer. *)
Inductive parsed (p0 : P) : P → list Z → list Z → Prop :=
| parsed_new : parsed p0 p0 [] []
| parsed_more p used pending bytes p' n rest :
    parsed p0 p used pending →
    execute p (pending ++ bytes) = Ok (p', n, rest) →
    parsed p0 p' (used ++ take n (pending ++ bytes)) rest.

(** [execute] stays within the buffer and moves the rest to the front. *)
Definition moves_rest : Prop :=
  ∀ p data p' n rest, data ≠ [] → execute p data = Ok (p', n, rest) →
    (n ≤ length data)%nat ∧ rest = drop n data.

(** The stream [input] makes [execute] fail, on a buffer after it has used [used], and
    [result] is that failure. *)
Definition parser_fails (p0 : P) {A} (input : list Z) (result : outcome A) : Prop :=
  ∃ p used pending bytes rest, parsed p0 p used pending ∧ input = used ++ pending ++ bytes ++ rest ∧
    is_ok (execute p (pending ++ bytes)) = false ∧ result = failed (execute p (pending ++ bytes)).

Lemma recv_header_spec (Hbuf : moves_rest) p0 fuel : ∀ st p used pending,
  parsed p0 p used pending → (length (s_in st) < fuel)%nat →
  (∃ r st', recv_header fuel st p pending = Ok (r, st') ∧ s_out st' = s_out st ∧
    match r with
    | None => s_open st' = false
    | Some (p', data) =>
      ∃ more, parsed p0 p' (used ++ more) data ∧ pending ++ s_in st = more ++ data ++ s_in st' ∧
        hasError p' = false ∧ isFinished p' = true ∧ s_open st' = s_open st ∧
        (length pending ≤ buff_size → length data < buff_size)%nat ∧
        (length (s_in st') < length (s_in st))%nat
    end) ∨
  parser_fails p0 (used ++ pending ++ s_in st) (recv_header fuel st p pending).
Proof.
  induction fuel as [|fuel IH]; intros st p used pending Hp Hf; [lia|]. cbn [recv_header].
  destruct (stream_read st _) as [[len bytes] st1] eqn:E.
  apply stream_read_spec in E as (Hin & Hout & Hop & Hlen).
  case_decide; [left; exists None, (stream_close st1); by split_and!|].
  destruct Hlen as [?|[Hle Hlen]]; [lia|].
  destruct (outcome_cases (execute p (pending ++ bytes)) (λ '(p, nparse, rest),
    if decide (length (pending ++ bytes) < nparse)%nat then Stuck else
    if hasError p then mret (None, stream_close st1) else
    if decide (length rest = buff_size) then mret (None, stream_close st1) else
    if isFinished p then mret (Some (p, rest), st1) else recv_header fuel st1 p rest)) as [([[p1 n] rest] & Ex & ->)|[Hno ->]].
  2: { right. exists p, used, pending, bytes, (s_in st1). by rewrite Hin. }
  assert (pending ++ bytes ≠ []) as Hne by (intros [_ ->]%app_eq_nil; simpl in Hlen; lia).
  destruct (Hbuf _ _ _ _ _ Hne Ex) as [Hn Hrest]. rewrite decide_False by lia.
  destruct (hasError p1) eqn:He; [left; exists None, (stream_close st1); by split_and!|].
  case_decide as Hfull; [left; exists None, (stream_close st1); by split_and!|].
  pose proof (parsed_more _ _ _ _ _ _ _ _ Hp Ex) as Hp1.
  assert (pending ++ s_in st = take n (pending ++ bytes) ++ rest ++ s_in st1) as Hsplit.
  { rewrite Hin, Hrest, !(assoc_L (++)), take_drop. done. }
  assert (length pending ≤ buff_size → length rest < buff_size)%nat as Hsize.
  { intros. rewrite Hrest, length_drop, length_app in *. lia. }
  assert (length (s_in st1) < length (s_in st))%nat as Hlt.
  { apply (f_equal length) in Hin. rewrite length_app in Hin. lia. }
  destruct (isFinished p1) eqn:Hfin.
  - left. exists (Some (p1, rest)), st1. split_and!; [done|done|].
    exists (take n (pending ++ bytes)). by split_and!.
  - destruct (IH st1 p1 _ rest Hp1) as [(r & st' & -> & Hout' & Hr)|Hfail]; [lia| |].
    2: { right. destruct Hfail as (p2 & used2 & pend2 & bytes2 & rest2 & H1 & H2 & H3 & H4).
         exists p2, used2, pend2, bytes2, rest2. split_and!; [done| |done|done].
         rewrite <-H2, Hsplit. by rewrite !(assoc_L (++)). }
    left. exists r, st'. split_and!; [done|congruence|]. destruct r as [[p' data]|]; [|done].
    destruct Hr as (more & Hp' & Hsp & He' & Hf' & Hop' & Hs' & Hlt').
    exists (take n (pending ++ bytes) ++ more).
    rewrite <-!(assoc_L (++)) in *. split_and!; try done; [|congruence| |lia].
    + rewrite Hsplit, Hsp. by rewrite !(assoc_L (++)).
    + intros. apply Hs'. pose proof (Hsize ltac:(done)). lia.
Qed.

End head_loop.

(** ** Callbacks of the request parser *)

Section request_parser.
Context (eng : Engine).

(** [class HttpRequestParser]. *)
Record HttpRequestParser : Type := mkRequestParser {
  rp_parser : machine eng;
  rp_data : HttpRequest;
  rp_error : Z
}.

Definition rp_setData (p : HttpRequestParser) (d : HttpRequest) : HttpRequestParser :=
  mkRequestParser (rp_parser p) d (rp_error p).
Definition rp_setError (p : HttpRequestParser) (v : Z) : HttpRequestParser :=
  mkRequestParser (rp_parser p) (rp_data p) v.

(** [HttpRequest::setMethod] and the other plain setters. *)
Definition set_line (d : HttpRequest) (method : HttpMethod) (version : Z)
    (path query fragment : list Z) : HttpRequest :=
  mkRequest method version (m_close d) (m_websocket d) path query fragment (m_body d)
    (m_headers d) (m_params d) (m_cookies d).
Definition setMethod (d : HttpRequest) (v : HttpMethod) : HttpRequest :=
  set_line d v (m_version d) (m_path d) (m_query d) (m_fragment d).
Definition setVersion (d : HttpRequest) (v : Z) : HttpRequest :=
  set_line d (m_method d) v (m_path d) (m_query d) (m_fragment d).
Definition setPath (d : HttpRequest) (v : list Z) : HttpRequest :=
  set_line d (m_method d) (m_version d) v (m_query d) (m_fragment d).
Definition setQuery (d : HttpRequest) (v : list Z) : HttpRequest :=
  set_line d (m_method d) (m_version d) (m_path d) v (m_fragment d).
Definition setFragment (d : HttpRequest) (v : list Z) : HttpRequest :=
  set_line d (m_method d) (m_version d) (m_path d) (m_query d) v.

(** The warnings of this and of [on_request_version] print the text. *)
Definition on_request_method (p : HttpRequestParser) (at_ : list Z) (length : nat) : outcome HttpRequestParser :=
  let m := CharsToHttpMethod at_ in
  if decide (m = INVAILD_METHOD) then _ ← std_string at_ length; mret (rp_setError p 1000)
  else mret (rp_setData p (setMethod (rp_data p) m)).

Definition on_request_fragment (p : HttpRequestParser) (at_ : list Z) (length : nat) : outcome HttpRequestParser :=
  s ← std_string at_ length; mret (rp_setData p (setFragment (rp_data p) s)).
Definition on_request_path (p : HttpRequestParser) (at_ : list Z) (length : nat) : outcome HttpRequestParser :=
  s ← std_string at_ length; mret (rp_setData p (setPath (rp_data p) s)).
Definition on_request_query (p : HttpRequestParser) (at_ : list Z) (length : nat) : outcome HttpRequestParser :=
  s ← std_string at_ length; mret (rp_setData p (setQuery (rp_data p) s)).

(** The version both parsers accept. *)
Definition parse_version (at_ : list Z) (length : nat) : option Z :=
  if strncmp_eq at_ (text "HTTP/1.1") length then Some 17
  else if strncmp_eq at_ (text "HTTP/1.0") length then Some 16
  else None.

Definition on_request_version (p : HttpRequestParser) (at_ : list Z) (length : nat) : outcome HttpRequestParser :=
  match parse_version at_ length with
  | Some v => mret (rp_setData p (setVersion (rp_data p) v))
  | None => _ ← std_string at_ length; mret (rp_setError p 1001)
  end.

Definition on_request_http_field (p : HttpRequestParser) (field : list Z) (flen : nat)
    (value : list Z) (vlen : nat) : outcome HttpRequestParser :=
  if decide (flen = 0%nat) then mret p
  else
    k ← std_string field flen;
    v ← std_string value vlen;
    mret (rp_setData p (setHeader (rp_data p) k v)).

(** The callbacks [HttpRequestParser::HttpRequestParser] installs. *)
Definition on_request (p : HttpRequestParser) (e : event) : outcome HttpRequestParser :=
  match e with
  | EvMethod at_ length => on_request_method p at_ length
  | EvFragment at_ length => on_request_fragment p at_ length
  | EvPath at_ length => on_request_path p at_ length
  | EvQuery at_ length => on_request_query p at_ length
  | EvVersion at_ length => on_request_version p at_ length
  | EvField field flen value vlen => on_request_http_field p field flen value vlen
  | _ => mret p
  end.

Definition HttpRequestParser_new : HttpRequestParser :=
  mkRequestParser (e_init eng) (HttpRequest_new 17 true) 0.

(** [HttpRequestParser::execute]: the parser, the bytes used and the rest,
    moved to the front. What the machine or a callback throws goes on to the caller. *)
Definition rp_execute (p : HttpRequestParser) (data : list Z) :
    outcome (HttpRequestParser * nat * list Z) :=
  '(m, events, offset) ← e_execute eng (rp_parser p) data;
  p ← ofoldl on_request p events;
  mret (mkRequestParser m (rp_data p) (rp_error p), offset, drop offset data).

Definition rp_isFinished (p : HttpRequestParser) : bool :=
  e_has_error eng (rp_parser p) || e_is_finished eng (rp_parser p).

Definition rp_hasError (p : HttpRequestParser) : bool :=
  bool_decide (rp_error p ≠ 0) || e_has_error eng (rp_parser p).

Section session.
(** The memory, [boost::lexical_cast<uint64_t>] and [http.request.buffer.size]. *)
Context {mem : Memory} (cast_u64 : list Z → option Z) (buff_size : nat).

Definition rp_getContentLength (p : HttpRequestParser) : Z :=
  getAs cast_u64 (m_headers (rp_data p)) (text "content-length") 0.

(** ** [HttpSession::recvRequest] *)

(** The body of [body_length] bytes, of which [data] holds the first ones; [resize]
    throws when there is not enough memory. *)
Definition recv_body (st : Stream) (data : list Z) (body_length : Z) :
    outcome (option (list Z) * Stream) :=
  if decide (memory < body_length) then Throw bad_alloc else
  let body := replicate (Z.to_nat body_length) 0 in
  let offset := Z.of_nat (length data) in
  let len := if decide (offset <= body_length) then offset else body_length in
  let body := overwrite 0 (take (Z.to_nat len) data) body in
  let body_length := body_length - offset in
  if decide (0 < body_length) then
    '(v, bs, st) ← readFixSize st body_length;
    if decide (v <= 0) then mret (None, stream_close st)
    else mret (Some (overwrite (Z.to_nat len) bs body), st)
  else mret (Some body, st).

Definition recvRequest (st : Stream) : outcome (option HttpRequest * Stream) :=
  '(r, st) ← recv_header rp_execute rp_hasError rp_isFinished buff_size
               (S (length (s_in st))) st HttpRequestParser_new [];
  match r with
  | None => mret (None, st)
  | Some (p, data) =>
    let body_length := s64 (rp_getContentLength p) in
    if decide (0 < body_length) then
      '(body, st) ← recv_body st data body_length;
      mret (match body with
            | None => None
            | Some body => Some (init (setBody (rp_data p) body))
            end, st)
    else mret (Some (init (rp_data p)), st)
  end.

(** [HttpSession::sendResponse]. *)
Definition sendResponse (st : Stream) (rsp : HttpResponse) : outcome (Z * Stream) :=
  writeFixSize st (r_dump rsp).

(** ** [WSSession::handleShake] *)

Section handshake.
(** [sha1sum] and [boost::lexical_cast<int>]. *)
Context (sha1sum : list Z → list Z) (cast_int : list Z → option Z).

Definition setWebsocket (d : HttpRequest) (v : bool) : HttpRequest :=
  mkRequest (m_method d) (m_version d) (m_close d) v (m_path d) (m_query d) (m_fragment d)
    (m_body d) (m_headers d) (m_params d) (m_cookies d).

(** [Sec-WebSocket-Accept] for a key. *)
Definition accept_value (key : list Z) : list Z :=
  base64encode (sha1sum (key ++ text "258EAFA5-E914-47DA-95CA-C5AB0DC85B11")).

(** The response of the handshake. *)
Definition shake_response (req : HttpRequest) (key : list Z) : HttpResponse :=
  let rsp := createResponse req in
  let rsp := mkResponse 101 (r_version rsp) (r_close rsp) true (r_body rsp)
               (text "WebSocket Protocol Handshake") (r_headers rsp) in
  let rsp := r_setHeader rsp (text "Upgrade") (text "websocket") in
  let rsp := r_setHeader rsp (text "Connection") (text "Upgrade") in
  r_setHeader rsp (text "Sec-WebSocket-Accept") (accept_value key).

(** The conditions on the request, in the order in which they are tested. *)
Definition shake_key (req : HttpRequest) : option (list Z) :=
  if negb (strcasecmp_eq (getHeader req (text "Upgrade") []) (text "websocket")) then None
  else if negb (strcasecmp_eq (getHeader req (text "Connection") []) (text "Upgrade")) then None
  else if decide (getAs cast_int (m_headers req) (text "Sec-WebSocket-Version") 0 ≠ 13) then None
  else let key := getHeader req (text "Sec-WebSocket-Key") [] in
       if decide (key = []) then None else Some key.

Definition handleShake (st : Stream) : outcome (option HttpRequest * Stream) :=
  '(req, st) ← recvRequest st;
  match req with
  | None => mret (None, st)
  | Some req =>
    match shake_key req with
    | None => mret (None, st)
    | Some key =>
      let req := setWebsocket req true in
      '(_, st) ← sendResponse st (shake_response req key);
      mret (Some req, st)
    end
  end.

End handshake.
End session.
End request_parser.

(** ** Framing *)

Section framing.
Context (eng : Engine) (Hbuf : within_buffer eng).

Lemma rp_execute_ok p data p' n rest :
  rp_execute eng p data = Ok (p', n, rest) ↔
  ∃ m events q, e_execute eng (rp_parser eng p) data = Ok (m, events, n) ∧
    ofoldl (on_request eng) p events = Ok q ∧
    p' = mkRequestParser eng m (rp_data eng q) (rp_error eng q) ∧ rest = drop n data.
Proof.
  unfold rp_execute. rewrite outcome_bind_ok. split.
  - intros ([[m events] off] & Hm & (q & Hq & [= <- <- <-])%outcome_bind_ok). by eexists m, events, q.
  - intros (m & events & q & Hm & Hq & -> & ->). exists (m, events, n). split; [done|].
    apply outcome_bind_ok. by exists q.
Qed.

Lemma rp_moves_rest : moves_rest (rp_execute eng).
Proof.
  intros p data p' n rest Hne (m & events & q & Hm & _ & _ & ->)%rp_execute_ok.
  split; [|done]. exact (Hbuf _ _ _ _ _ Hne Hm).
Qed.

Lemma on_request_body p e p' :
  on_request eng p e = Ok p' → m_body (rp_data eng p') = m_body (rp_data eng p).
Proof.
  destruct e; simpl; try (by intros [= <-]);
    try (by intros (? & _ & [= <-])%outcome_bind_ok).
  - unfold on_request_method. case_decide; [by intros (? & _ & [= <-])%outcome_bind_ok|by intros [= <-]].
  - unfold on_request_version. case_match; [by intros [= <-]|by intros (? & _ & [= <-])%outcome_bind_ok].
  - unfold on_request_http_field. case_decide; [by intros [= <-]|].
    by intros (? & _ & (? & _ & [= <-])%outcome_bind_ok)%outcome_bind_ok.
Qed.

Lemma parsed_body p used pending :
  parsed (rp_execute eng) (HttpRequestParser_new eng) p used pending → m_body (rp_data eng p) = [].
Proof.
  induction 1 as [|p used pending bytes p' n rest _ IH E]; [done|].
  apply rp_execute_ok in E as (m & events & q & _ & Hq & -> & _). simpl. rewrite <-IH. clear IH.
  revert p Hq. induction events as [|e events IH]; intros p; simpl; [by intros [= <-]|].
  destruct (on_request eng p e) as [p1| |] eqn:E1; try done. intros Hq.
  rewrite (IH _ Hq). exact (on_request_body _ _ _ E1).
Qed.

End framing.

(** The body is the bytes that follow the header. *)
Lemma recv_body_spec {mem : Memory} st data n :
  0 < n < 2 ^ 63 → n <= memory →
  ∃ r st', recv_body st data n = Ok (r, st') ∧ s_out st' = s_out st ∧
    match r with
    | None => s_open st' = false
    | Some body =>
      data ++ s_in st = body ++ drop (length body) data ++ s_in st' ∧
      Z.of_nat (length body) = n ∧ s_open st' = s_open st
    end.
Proof.
  intros Hn Hmem. unfold recv_body. rewrite (decide_False (P := memory < n)) by lia.
  destruct (decide (Z.of_nat (length data) <= n)) as [Hle|Hle]; [|rewrite decide_False by lia].
  - rewrite take_ge by lia. case_decide as Hmore.
    + destruct (readFixSize_prefix st (n - Z.of_nat (length data))) as
        (v & bs & st' & -> & Hin & Hout & Hop & _ & Hv); [lia|]. osimpl.
      case_decide; [exists None, (stream_close st'); by split_and!|].
      exists (Some (data ++ bs)), st'. specialize (Hv ltac:(lia)). split_and!.
      * do 3 f_equal. rewrite Nat2Z.id. rewrite (overwrite_overwrite 0 data) by lia.
        apply overwrite_all. rewrite length_app, length_replicate. lia.
      * done.
      * rewrite drop_ge by (rewrite length_app; lia). rewrite Hin. by rewrite !(assoc_L (++)), app_nil_r.
      * rewrite length_app. lia.
      * done.
    + exists (Some data), st. rewrite overwrite_all by (rewrite length_replicate; lia).
      rewrite drop_ge by lia. split_and!; (done || lia).
  - exists (Some (take (Z.to_nat n) data)), st.
    assert (length (take (Z.to_nat n) data) = Z.to_nat n) as Hlen by (rewrite length_take; lia).
    rewrite overwrite_all by (rewrite length_replicate; lia). rewrite Hlen.
    split_and!; try done; [|lia]. by rewrite (assoc_L (++)), take_drop.
Qed.

Lemma init_body d : m_body (init d) = m_body d.
Proof. unfold init. by case_decide. Qed.

(** What [recvRequest] may do with a stream. *)
Section received.
Context {mem : Memory} (eng : Engine) (cast_u64 : list Z → option Z) (buff_size : nat).

(** The header is over: the parser used [head], and [pending] is left in the buffer. *)
Definition header_over (p : HttpRequestParser eng) (head pending : list Z) : Prop :=
  parsed (rp_execute eng) (HttpRequestParser_new eng) p head pending ∧
  rp_hasError eng p = false ∧ rp_isFinished eng p = true.

(** It returns: without a request the connection is closed, and a request is the
    header and as many bytes after it as the header says. *)
Definition framed (st : Stream) (r : option HttpRequest) (st' : Stream) : Prop :=
  s_out st' = s_out st ∧
  match r with
  | None => s_open st' = false
  | Some req =>
    ∃ p head pending dropped, header_over p head pending ∧ s_open st' = s_open st ∧
      req = init (setBody (rp_data eng p) (m_body req)) ∧
      Z.of_nat (length (m_body req)) = Z.max 0 (s64 (rp_getContentLength eng cast_u64 p)) ∧
      s_in st = head ++ m_body req ++ dropped ++ s_in st' ∧
      dropped = drop (length (m_body req)) pending ∧ (length pending < buff_size)%nat
  end.

(** The body the header announces cannot be allocated. *)
Definition too_large (st : Stream) : Prop :=
  ∃ p head pending rest, header_over p head pending ∧ s_in st = head ++ pending ++ rest ∧
    Z.max 0 memory < s64 (rp_getContentLength eng cast_u64 p).

Lemma recvRequest_spec st : within_buffer eng →
  (∃ r st', recvRequest eng cast_u64 buff_size st = Ok (r, st') ∧ framed st r st' ∧
     (r = None ∨ (length (s_in st') < length (s_in st))%nat)) ∨
  parser_fails (rp_execute eng) (HttpRequestParser_new eng) (s_in st)
    (recvRequest eng cast_u64 buff_size st) ∨
  (recvRequest eng cast_u64 buff_size st = Throw bad_alloc ∧ too_large st).
Proof.
  intros Hbuf. unfold recvRequest.
  destruct (recv_header_spec _ (rp_hasError eng) (rp_isFinished eng) buff_size
    (rp_moves_rest eng Hbuf) (HttpRequestParser_new eng) (S (length (s_in st))) st _ [] []
    (parsed_new _ _)) as [(r & st1 & -> & Hout & Hr)|(p & used & pend & bytes & rest & H1 & H2 & H3 & ->)];
    [lia| |].
  2: { right. left. exists p, used, pend, bytes, rest. split_and!; [done..|].
       by destruct (rp_execute eng p _). }
  osimpl. destruct r as [[p data]|]; [|left; exists None, st1; by split_and!; auto].
  destruct Hr as (head & Hp & Hin & He & Hf & Hop & Hsize & Hlt). simpl in Hp, Hin, Hsize.
  assert (∀ body, m_body (init (setBody (rp_data eng p) body)) = body) as Hbody
    by (intros; by rewrite init_body).
  assert (setBody (rp_data eng p) [] = rp_data eng p) as Hnil.
  { pose proof (parsed_body _ _ _ _ Hp) as Hb. destruct (rp_data eng p). simpl in *. by subst. }
  pose proof (swrap_range 64 (rp_getContentLength eng cast_u64 p) ltac:(lia)) as Hr64.
  unfold in_signed in Hr64. case_decide as Hpos.
  2: { left. exists (Some (init (rp_data eng p))), st1. split_and!; [done|split; [done|]|by right].
       exists p, head, data, data. rewrite <-Hnil, Hbody, Hnil. simpl. rewrite Hnil.
       split_and!; try (done || lia). }
  destruct (decide (memory < s64 (rp_getContentLength eng cast_u64 p))) as [Hmem|Hmem].
  { right. right. unfold recv_body. rewrite decide_True by done. split; [done|].
    exists p, head, data, (s_in st1). split_and!; [by split_and!|done|lia]. }
  left. destruct (recv_body_spec st1 data (s64 (rp_getContentLength eng cast_u64 p))) as
    (b & st2 & -> & Hout2 & Hb); [lia..|]. osimpl.
  destruct b as [body|]; [|exists None, st2; split_and!; [done|split; [congruence|done]|by left]].
  destruct Hb as (Hin2 & Hlen & Hop2).
  exists (Some (init (setBody (rp_data eng p) body))), st2. split_and!; [done|split; [congruence|]|right].
  - exists p, head, data, (drop (length body) data). rewrite Hbody.
    split_and!; try (done || lia || congruence).
  - apply (f_equal length) in Hin2. rewrite !length_app, length_drop in Hin2. lia.
Qed.

End received.

(** A request that is received leaves a stream on which no call fails as one. *)
Lemma recvRequest_stays_healthy {mem : Memory} (eng : Engine) cast_u64 buff_size st req st' :
  healthy st → recvRequest eng cast_u64 buff_size st = Ok (Some req, st') → healthy st'.
Proof.
  intros Hh. unfold recvRequest. intros ([r st1] & Eh & E)%outcome_bind_ok.
  assert (∀ fuel st p data p' rest st1, healthy st → recv_header (rp_execute eng) (rp_hasError eng)
    (rp_isFinished eng) buff_size fuel st p data = Ok (Some (p', rest), st1) → healthy st1) as Hhead.
  { clear. induction fuel as [|fuel IH]; intros st p data p' rest st1 Hh; [done|]. cbn [recv_header].
    destruct (stream_read st _) as [[len bytes] st2] eqn:E. apply stream_read_healthy in E; [|done].
    case_decide; [done|]. intros ([[p1 n] rest1] & _ & Hr)%outcome_bind_ok. revert Hr.
    case_decide; [done|]. destruct (rp_hasError eng p1); [done|]. case_decide; [done|].
    destruct (rp_isFinished eng p1); [by intros [= _ _ <-]|by apply IH]. }
  destruct r as [[p data]|]; [|done]. apply Hhead in Eh; [|done]. revert E. case_decide; [|by intros [= _ <-]].
  intros ([body st2] & Eb & E)%outcome_bind_ok. destruct body as [body|]; [|done]. injection E as _ <-.
  revert Eb. unfold recv_body. case_decide; [done|]. case_decide; case_decide; try (by intros [= _ <-]);
    intros ([[v bs] st3] & Er & E)%outcome_bind_ok; revert E; (case_decide; [done|]); intros [= _ <-];
    by apply readFixSize_stays_healthy in Er.
Qed.

(** A request takes bytes off the stream. *)
Lemma recvRequest_total {mem : Memory} (eng : Engine) cast_u64 buff_size st :
  within_buffer eng →
  (∃ r st', recvRequest eng cast_u64 buff_size st = Ok (r, st') ∧
    (r = None ∨ (length (s_in st') < length (s_in st))%nat)) ∨
  is_ok (recvRequest eng cast_u64 buff_size st) = false.
Proof.
  intros Hbuf. destruct (recvRequest_spec eng cast_u64 buff_size st Hbuf) as
    [(r & st' & E & _ & H)|[(p & used & pend & bytes & rest & _ & _ & H & ->)|[-> _]]].
  - left. by exists r, st'.
  - right. by destruct (rp_execute eng p _).
  - by right.
Qed.

(** C25. What [HttpSession::recvRequest] does with any stream, however the kernel
    cuts it up and whatever the machine does within its buffer. It returns, or it
    fails for one of two reasons: the machine or a callback threw or crashed on a
    buffer of the stream, which leaves [recvRequest] as it is; or the header was
    read and the body it announces is larger than the memory, so that
    [std::bad_alloc] is thrown. If it returns no request, the connection is closed.
    If it returns one, the connection is as it was, nothing was written, and the
    bytes taken from the stream are the header the parser used, then exactly as many
    body bytes as the content length says, then [dropped]: what the buffer held
    beyond the body, the beginning of a pipelined request for instance, is lost. *)
Theorem recvRequest_frames (mem : Memory) (eng : Engine) (cast_u64 : list Z → option Z)
    (buff_size : nat) (st : Stream) :
  within_buffer eng →
  (∃ r st', recvRequest eng cast_u64 buff_size st = Ok (r, st') ∧ framed eng cast_u64 buff_size st r st') ∨
  parser_fails (rp_execute eng) (HttpRequestParser_new eng) (s_in st)
    (recvRequest eng cast_u64 buff_size st) ∨
  (recvRequest eng cast_u64 buff_size st = Throw bad_alloc ∧ too_large eng cast_u64 st).
Proof.
  intros Hbuf. destruct (recvRequest_spec eng cast_u64 buff_size st Hbuf) as
    [(r & st' & E & H & _)|H]; [left; by exists r, st'|by right].
Qed.

(** A gigabyte can be allocated. *)
Definition gigabyte : Memory := 2 ^ 30.

(** A machine whose header is four bytes, a GET with a content length. *)
Definition four_byte_header : Engine :=
  mkEngine bool false
    (λ _ data, Ok (true, [EvMethod data 3; EvField (text "Content-Length") 14 (text "2") 1],
                   4 `min` length data)%nat)
    (λ _, false) id (λ _, false) (λ _, 0) (λ _, false).

Lemma four_byte_within : within_buffer four_byte_header.
Proof. intros m data m' events n _ E. injection E as _ _ <-. exact (Nat.le_min_r 4 (length data)). Qed.

Lemma recvRequest_frames_witness :
  ∃ st', recvRequest (mem := gigabyte) four_byte_header (λ _, Some 2) 16
           (mkStream (text "GET hiXYZ") [] [IoUpTo 8] true) =
         Ok (Some (init (setBody (setHeader (HttpRequest_new 17 true) (text "Content-Length")
                                    (text "2")) (text "hi"))), st') ∧
         s_out st' = [].
Proof.
  destruct (recvRequest_frames gigabyte four_byte_header (λ _, Some 2) 16
    (mkStream (text "GET hiXYZ") [] [IoUpTo 8] true) four_byte_within) as
    [(r & st' & E & Hout & _)|[(p & used & pend & bytes & rest & _ & _ & Hno & E)|[E _]]].
  - exists st'. split; [|exact Hout]. rewrite E. revert E. vm_compute. intros [= <- <-]. reflexivity.
  - exfalso. revert E. destruct (rp_execute _ p _); vm_compute; discriminate.
  - exfalso. revert E. vm_compute. discriminate.
Defined.

(** The request passes the tests of [handleShake]. *)
Lemma shake_key_some cast_int req key :
  shake_key cast_int req = Some key →
  strcasecmp_eq (getHeader req (text "Upgrade") []) (text "websocket") = true ∧
  strcasecmp_eq (getHeader req (text "Connection") []) (text "Upgrade") = true ∧
  getAs cast_int (m_headers req) (text "Sec-WebSocket-Version") 0 = 13 ∧
  key ≠ [] ∧ key = getHeader req (text "Sec-WebSocket-Key") [].
Proof.
  unfold shake_key.
  destruct (strcasecmp_eq _ (text "websocket")); [|done].
  destruct (strcasecmp_eq _ (text "Upgrade")); [|done]. simpl.
  case_decide as H3; [done|]. case_decide; [done|]. intros [= <-].
  done.
Qed.

(** The response of the handshake on the wire: the map orders the headers. *)
Lemma shake_dump sha1sum req key :
  r_dump (shake_response sha1sum req key) =
  print_version (m_version req) ++ text " 101 WebSocket Protocol Handshake" ++ crlf ++
  text "Connection: Upgrade" ++ crlf ++
  text "Sec-WebSocket-Accept: " ++ accept_value sha1sum key ++ crlf ++
  text "Upgrade: websocket" ++ crlf ++ crlf.
Proof.
  assert (response_lines (shake_response sha1sum req key) =
    [(text "Connection", text "Upgrade"); (text "Sec-WebSocket-Accept", accept_value sha1sum key);
     (text "Upgrade", text "websocket")]) as Hlines.
  { unfold shake_response. generalize (accept_value sha1sum key). by vm_compute. }
  unfold r_dump. rewrite Hlines.
  change (r_version (shake_response sha1sum req key)) with (m_version req).
  generalize (print_version (m_version req)), (accept_value sha1sum key). intros v a.
  unfold print_lines. cbn [fmap list_fmap mjoin list_join fst snd app].
  rewrite <-!(assoc_L (++)). by vm_compute.
Qed.

(** The websocket handshake: a request is accepted exactly when its
    [Upgrade], [Connection] and [Sec-WebSocket-Version] headers ask for it and
    its key is not empty. The reply to an accepted one is the 101 response with
    the accept value of that key, and nothing is written to the others. *)
Theorem handleShake_reply (mem : Memory) (eng : Engine) (cast_u64 cast_int : list Z → option Z)
    (buff_size : nat) (sha1sum : list Z → list Z) (st st1 : Stream) (req : HttpRequest) :
  let key := getHeader req (text "Sec-WebSocket-Key") [] in
  recvRequest eng cast_u64 buff_size st = Ok (Some req, st1) → healthy st1 →
  Z.of_nat (length (r_dump (shake_response sha1sum req key))) < 2 ^ 31 →
  let ok := strcasecmp_eq (getHeader req (text "Upgrade") []) (text "websocket") = true ∧
    strcasecmp_eq (getHeader req (text "Connection") []) (text "Upgrade") = true ∧
    getAs cast_int (m_headers req) (text "Sec-WebSocket-Version") 0 = 13 ∧ key ≠ [] in
  ∃ r st', handleShake eng cast_u64 buff_size sha1sum cast_int st = Ok (r, st') ∧
    ((ok ∧ r = Some (setWebsocket req true) ∧
      s_out st' = s_out st1 ++ print_version (m_version req) ++
        text " 101 WebSocket Protocol Handshake" ++ crlf ++
        text "Connection: Upgrade" ++ crlf ++
        text "Sec-WebSocket-Accept: " ++ accept_value sha1sum key ++ crlf ++
        text "Upgrade: websocket" ++ crlf ++ crlf) ∨
     (~ ok ∧ r = None ∧ s_out st' = s_out st1)).
Proof.
  intros key Hreq Hh Hlen ok. unfold handleShake. rewrite Hreq. osimpl.
  destruct (shake_key cast_int req) as [key'|] eqn:Hk.
  - apply shake_key_some in Hk as (H1 & H2 & H3 & Hk & ->). unfold sendResponse.
    destruct (writeFixSize_healthy st1 _ Hh Hlen) as (st' & E & _ & Hout & _).
    change (shake_response sha1sum (setWebsocket req true)
      (getHeader req (text "Sec-WebSocket-Key") [])) with (shake_response sha1sum req key).
    rewrite E. osimpl. eexists _, st'. split; [done|]. left. split_and!; try done.
    rewrite Hout. f_equal. apply shake_dump.
  - exists None, st1. split; [done|]. right. split_and!; try done.
    intros (H1 & H2 & H3 & Hk'). revert Hk. unfold shake_key. fold key. rewrite H1, H2. simpl.
    by rewrite !decide_False by (by rewrite ?H3; auto).
Qed.

(** A machine that reports the headers of an upgrade. *)
Definition upgrade_header : Engine :=
  let field k v := EvField (text k) (length (text k)) (text v) (length (text v)) in
  mkEngine bool false
    (λ _ data, Ok (true, [field "upgrade"%string "WebSocket"%string;
                       field "connection"%string "upgrade"%string;
                       field "sec-websocket-version"%string "13"%string;
                       field "sec-websocket-key"%string "dGhlIHNhbXBsZSBub25jZQ=="%string],
                   4 `min` length data)%nat)
    (λ _, false) id (λ _, false) (λ _, 0) (λ _, false).

Lemma upgrade_within : within_buffer upgrade_header.
Proof. intros m data m' events n _ E. injection E as _ _ <-. exact (Nat.le_min_r 4 (length data)). Qed.

(** The request that machine makes of four bytes. *)
Definition upgrade_request : HttpRequest :=
  default (HttpRequest_new 17 true)
    match recvRequest (mem := gigabyte) upgrade_header (λ _, None) 16 (mkStream (text "GET ") [] [] true) with
    | Ok (r, _) => r
    | _ => None
    end.

Lemma handleShake_reply_witness :
  ∃ r st', handleShake (mem := gigabyte) upgrade_header (λ _, None) 16 (take 20) (λ _, Some 13)
             (mkStream (text "GET ") [] [] true) = Ok (r, st') ∧
           r = Some (setWebsocket upgrade_request true).
Proof.
  destruct (handleShake_reply gigabyte upgrade_header (λ _, None) (λ _, Some 13) 16 (take 20)
    (mkStream (text "GET ") [] [] true) (mkStream [] [] [] true) upgrade_request)
    as (r & st' & E & [(_ & Hr & _)|(Hn & _)]).
  - vm_compute. reflexivity.
  - split; [reflexivity|constructor].
  - vm_compute. reflexivity.
  - exists r, st'. split; [exact E|exact Hr].
  - exfalso. apply Hn. vm_compute. repeat split; discriminate.
Defined.
