(* ===== verification/Ragel.v ===== *)
(** The language of the .rl files (Ragel): regular expressions with actions embedded in
    their transitions, and the machine that is generated from an expression. The machine
    is the position automaton of the expression, run on sets of positions; a transition
    has the actions of all the moves that it stands for, in the order of their embedding
    and each action once, and a move gives way to one of higher priority. *)

From Stdlib Require Import ZArith Lia.
From stdpp Require Import base numbers pmap option strings tactics list list_numbers.
From S2P Require Import Prelude Text.

Local Open Scope Z_scope.

(** ** Characters *)

(** A set of characters as a list of ranges of bytes. A char is signed, so that the bytes
    from 128 on are the negative characters. *)
Definition cls : Type := list (Z * Z).

Fixpoint in_cls (k : cls) (c : Z) : bool :=
  match k with
  | [] => false
  | (a, b) :: k => if a <=? c then if c <=? b then true else in_cls k c else in_cls k c
  end.

(** Whether all or some elements of a list satisfy a test. *)
Fixpoint every {B} (f : B → bool) (l : list B) : bool :=
  match l with [] => true | x :: l => if f x then every f l else false end.
Fixpoint some {B} (f : B → bool) (l : list B) : bool :=
  match l with [] => false | x :: l => if f x then true else some f l end.

Lemma every_forall {B} (f : B → bool) l : every f l = true ↔ ∀ x, x ∈ l → f x = true.
Proof.
  induction l as [|y l IH]; simpl; [split; [by intros _ x ?%elem_of_nil|done]|].
  destruct (f y) eqn:Hy; rewrite ?IH; split.
  - intros H x [->|Hx]%elem_of_cons; [done|by apply H].
  - intros H x Hx. apply H. by right.
  - done.
  - intros H. rewrite <-Hy. apply H. by left.
Qed.

Lemma some_exists {B} (f : B → bool) l : some f l = true → ∃ x, x ∈ l ∧ f x = true.
Proof.
  induction l as [|y l IH]; intros Hl; [done|]. simpl in Hl. destruct (f y) eqn:Hy; [exists y; by split; [left|]|].
  destruct (IH Hl) as (x & ? & ?). exists x. by split; [right|].
Qed.

Lemma in_cls_spec k c : in_cls k c = true ↔ ∃ ab, ab ∈ k ∧ ab.1 <= c <= ab.2.
Proof.
  induction k as [|[a b] k IH]; simpl.
  - split; [done|]. by intros (? & ?%elem_of_nil & _).
  - setoid_rewrite elem_of_cons. destruct (Z.leb_spec a c), (Z.leb_spec c b); rewrite ?IH; split; try done;
      try (intros (ab & ? & ?); exists ab; by auto); try (intros (ab & [->|?] & ?); [simpl in *; lia|by exists ab]).
    intros _. exists (a, b). simpl. by split; [left|].
Qed.

Lemma in_cls_app k l c : in_cls (k ++ l) c = in_cls k c || in_cls l c.
Proof. induction k as [|[a b] k IH]; simpl; [done|]. by destruct (a <=? c), (c <=? b). Qed.

(** The difference of ranges, and of sets. *)
Definition cut (k : cls) (cd : Z * Z) : cls :=
  k ≫= λ ab, filter (λ r, r.1 <= r.2) [(ab.1, Z.min ab.2 (cd.1 - 1)); (Z.max ab.1 (cd.2 + 1), ab.2)].
Definition cls_diff (k l : cls) : cls := foldl cut k l.

Lemma in_cut k cd c : in_cls (cut k cd) c = in_cls k c && negb ((cd.1 <=? c) && (c <=? cd.2)).
Proof.
  induction k as [|[a b] k IH]; [done|]. unfold cut in *. cbn [mbind list_bind]. rewrite in_cls_app, IH. simpl in_cls at 3.
  cbn [filter list_filter]. repeat case_decide; simpl in *;
    destruct (Z.leb_spec a c), (Z.leb_spec c b), (Z.leb_spec cd.1 c), (Z.leb_spec c cd.2); simpl;
    repeat match goal with |- context [?x <=? ?y] => destruct (Z.leb_spec x y); simpl end; try done; try lia;
    by destruct (in_cls k c).
Qed.

Lemma in_cls_diff k l c : in_cls (cls_diff k l) c = in_cls k c && negb (in_cls l c).
Proof.
  unfold cls_diff. revert k. induction l as [|[a b] l IH]; intros k; simpl; [by rewrite andb_true_r|]. rewrite IH, in_cut. simpl.
  by destruct (in_cls k c), (a <=? c), (c <=? b), (in_cls l c).
Qed.

Definition chars (s : string) : cls := (λ c, (c, c)) <$> text s.

(** The classes of Ragel. *)
Definition any : cls := [(0, 255)].
Definition ascii : cls := [(0, 127)].
Definition alpha : cls := [(65, 90); (97, 122)].
Definition upper : cls := [(65, 90)].
Definition digit : cls := [(48, 57)].
Definition xdigit : cls := [(48, 57); (65, 70); (97, 102)].
Definition space : cls := [(9, 13); (32, 32)].
Definition cntrl : cls := [(0, 31)].

(** ** Expressions *)

Inductive rx (A : Type) : Type :=
| Eps                                  (** the empty string *)
| Chr (k : cls)                        (** one character *)
| Cat (r s : rx A)                     (** [r . s] *)
| Alt (r s : rx A)                     (** [r | s] *)
| Star (r : rx A)                      (** [r*] *)
| Enter (r : rx A) (a : A)             (** [r > a]: the first character *)
| Leave (r : rx A) (a : A)             (** [r % a]: what follows *)
| Finish (r : rx A) (a : A)            (** [r @ a]: into a final state *)
| EntryGuard (r s : rx A)              (** [r :> s]: [r] ends where [s] can begin *)
| FinishGuard (r s : rx A).            (** [r :>> s]: [r] ends where [s] can end *)
Arguments Eps {A}.
Arguments Chr {A} k.
Arguments Cat {A} r s.
Arguments Alt {A} r s.
Arguments Star {A} r.
Arguments Enter {A} r a.
Arguments Leave {A} r a.
Arguments Finish {A} r a.
Arguments EntryGuard {A} r s.
Arguments FinishGuard {A} r s.

Section derived.
Context {A : Type}.

Definition Plus (r : rx A) : rx A := Cat r (Star r).
Definition Opt (r : rx A) : rx A := Alt r Eps.

(** A literal string, and one whose letters match in both cases. *)
Fixpoint lit_bytes (s : list Z) : rx A :=
  match s with
  | [] => Eps
  | [c] => Chr [(c, c)]
  | c :: s => Cat (Chr [(c, c)]) (lit_bytes s)
  end.
Definition lit (s : string) : rx A := lit_bytes (text s).

Definition both_cases (c : Z) : cls :=
  if (97 <=? c) && (c <=? 122) then [(c, c); (c - 32, c - 32)]
  else if (65 <=? c) && (c <=? 90) then [(c, c); (c + 32, c + 32)] else [(c, c)].
Fixpoint nocase_bytes (s : list Z) : rx A :=
  match s with
  | [] => Eps
  | [c] => Chr (both_cases c)
  | c :: s => Cat (Chr (both_cases c)) (nocase_bytes s)
  end.
Definition nocase (s : string) : rx A := nocase_bytes (text s).

(** [r{n}], [r{m,n}] and [r{n,}]. *)
Fixpoint Rep (n : nat) (r : rx A) : rx A :=
  match n with
  | O => Eps
  | 1%nat => r
  | S n => Cat r (Rep n r)
  end.
Fixpoint UpTo (n : nat) (r : rx A) : rx A :=
  match n with
  | O => Eps
  | S n => Opt (Cat r (UpTo n r))
  end.
Definition RepRange (m n : nat) (r : rx A) : rx A := Cat (Rep m r) (UpTo (n - m) r).
Definition AtLeast (n : nat) (r : rx A) : rx A := Cat (Rep n r) (Star r).
End derived.

Declare Scope ragel_scope.
Delimit Scope ragel_scope with ragel.
Notation "r ⋅ s" := (Cat r s) (at level 40, left associativity) : ragel_scope.
Notation "r ∥ s" := (Alt r s) (at level 50, left associativity) : ragel_scope.

(** ** Positions *)

Section machine.
Context {A : Type} `{EqDecision A}.

(** Embedded actions with the order of their embedding, and priorities with their names. *)
Definition marks : Type := list (nat * A) * list (nat * nat).
Definition add (m m' : marks) : marks := (m.1 ++ m'.1, m.2 ++ m'.2).

(** A move to a position, and the exits from a position. *)
Definition move : Type := positive * marks.
Definition with_marks (m : marks) (t : move) : move := (t.1, add m t.2).

(** What a machine is built from: the moves that enter it, its final positions and what
    leaving them does, what leaving it at once does, its moves, and the positions. *)
Record frag : Type := mkFrag {
  f_first : list move;
  f_last : list move;
  f_null : option marks;
  f_moves : list (positive * move);
  f_class : list (positive * cls)
}.

Definition prio (n p : nat) : marks := ([], [(n, p)]).
Definition act (n : nat) (a : A) : marks := ([(n, a)], []).

Definition cat (f g : frag) : frag :=
  mkFrag
    (f_first f ++ match f_null f with Some o => with_marks o <$> f_first g | None => [] end)
    (f_last g ++ match f_null g with Some o => with_marks o <$> f_last f | None => [] end)
    (match f_null f, f_null g with Some o, Some o' => Some (add o o') | _, _ => None end)
    (f_moves f ++ f_moves g ++ (f_last f ≫= λ l, (λ t, (l.1, with_marks l.2 t)) <$> f_first g))
    (f_class f ++ f_class g).

(** Marks on the moves of a machine: all of them, or those into a final position. *)
Definition mark_if (P : positive → bool) (m : marks) (f : frag) : frag :=
  let on (t : move) := if P t.1 then with_marks m t else t in
  mkFrag (on <$> f_first f) (f_last f) (f_null f) ((λ pt, (pt.1, on pt.2)) <$> f_moves f) (f_class f).
Definition is_last (f : frag) (p : positive) : bool := bool_decide (p ∈ (f_last f).*1).

Definition mark_first (m : marks) (f : frag) : frag :=
  mkFrag (with_marks m <$> f_first f) (f_last f) (add m <$> f_null f) (f_moves f) (f_class f).
Definition mark_last (m : marks) (f : frag) : frag :=
  mkFrag (f_first f) (with_marks m <$> f_last f) (add m <$> f_null f) (f_moves f) (f_class f).

(** The construction; [pos] is the next position and [ord] the next number, for actions
    and for the names of priorities. *)
Fixpoint build (r : rx A) (pos : positive) (ord : nat) : frag * positive * nat :=
  match r with
  | Eps => (mkFrag [] [] (Some ([], [])) [] [], pos, ord)
  | Chr k => (mkFrag [(pos, ([], []))] [(pos, ([], []))] None [] [(pos, k)], Pos.succ pos, ord)
  | Cat r s =>
    let '(f, pos, ord) := build r pos ord in
    let '(g, pos, ord) := build s pos ord in
    (cat f g, pos, ord)
  | Alt r s =>
    let '(f, pos, ord) := build r pos ord in
    let '(g, pos, ord) := build s pos ord in
    (mkFrag (f_first f ++ f_first g) (f_last f ++ f_last g)
       (match f_null f, f_null g with
        | Some o, Some o' => Some (add o o')
        | Some o, None | None, Some o => Some o
        | None, None => None
        end) (f_moves f ++ f_moves g) (f_class f ++ f_class g), pos, ord)
  | Star r =>
    let '(f, pos, ord) := build r pos ord in
    (mkFrag (f_first f) (f_last f) (Some (default ([], []) (f_null f)))
       (f_moves f ++ (f_last f ≫= λ l, (λ t, (l.1, with_marks l.2 t)) <$> f_first f)) (f_class f), pos, ord)
  | Enter r a =>
    let '(f, pos, ord') := build r pos (S ord) in (mark_first (act ord a) f, pos, ord')
  | Leave r a =>
    let '(f, pos, ord) := build r pos ord in (mark_last (act ord a) f, pos, S ord)
  | Finish r a =>
    let '(f, pos, ord) := build r pos ord in (mark_if (is_last f) (act ord a) f, pos, S ord)
  | EntryGuard r s =>
    let '(f, pos, ord) := build r pos ord in
    let '(g, pos, ord) := build s pos ord in
    (cat (mark_if (λ _, true) (prio ord 0) f) (mark_first (prio ord 1) g), pos, S ord)
  | FinishGuard r s =>
    let '(f, pos, ord) := build r pos ord in
    let '(g, pos, ord) := build s pos ord in
    (cat (mark_if (λ _, true) (prio ord 0) f) (mark_if (is_last g) (prio ord 1) g), pos, S ord)
  end.

(** ** The machine *)

(** The moves from each position, the characters and the exits; a state is a set of
    positions, in order, of which [1] is the start. *)
Record table : Type := mkTable {
  tb_moves : Pmap (list move);
  tb_class : Pmap cls;
  tb_final : Pmap marks
}.

Definition start : list positive := [1%positive].

Definition gather {B} (l : list (positive * B)) : Pmap (list B) :=
  foldr (λ pb m, <[pb.1 := pb.2 :: default [] (m !! pb.1)]> m) ∅ l.

Definition compile (r : rx A) : table :=
  let '(f, _, _) := build r 2 0 in
  mkTable (gather (((λ t, (1%positive, t)) <$> f_first f) ++ f_moves f))
    (list_to_map (f_class f))
    (foldr add ([], []) <$> gather (match f_null f with Some o => [(1%positive, o)] | None => [] end ++ f_last f)).

(** Lists in order and without repetition. *)
Fixpoint insert_by {B} (key : B → nat) (x : B) (l : list B) : list B :=
  match l with
  | [] => [x]
  | y :: l => if (key x <? key y)%nat then x :: y :: l else y :: insert_by key x l
  end.
Definition sort_by {B} (key : B → nat) (l : list B) : list B := foldl (λ l x, insert_by key x l) [] l.

Fixpoint insert_pos (p : positive) (s : list positive) : list positive :=
  match s with
  | [] => [p]
  | q :: s => match Pos.compare p q with Lt => p :: q :: s | Eq => q :: s | Gt => q :: insert_pos p s end
  end.

Fixpoint first_of (seen l : list A) : list A :=
  match l with
  | [] => []
  | a :: l => if decide (a ∈ seen) then first_of seen l else a :: first_of (a :: seen) l
  end.
Definition in_order (l : list (nat * A)) : list A := first_of [] (sort_by fst l).*2.

(** A move gives way to one with a higher priority of the same name. *)
Definition yields (t u : move) : bool :=
  some (λ np, some (λ nq, (np.1 =? nq.1)%nat && (np.2 <? nq.2)%nat) u.2.2) t.2.2.

Definition moves (tb : table) (s : list positive) (c : Z) : list move :=
  s ≫= λ p, filter (λ t, in_cls (default [] (tb_class tb !! t.1)) c = true) (default [] (tb_moves tb !! p)).

(** The transition of a state on a character: the actions and the next state; without
    one the machine is in error. *)
Definition trans (tb : table) (s : list positive) (c : Z) : option (list A * list positive) :=
  let ms := moves tb s c in
  match filter (λ t, some (yields t) ms = false) ms with
  | [] => None
  | ms => Some (in_order (ms ≫= λ t, t.2.1), foldr insert_pos [] ms.*1)
  end.

(** Whether a state is final, and the actions at the end of the input. *)
Definition is_final (tb : table) (s : list positive) : bool :=
  some (λ p, bool_decide (is_Some (tb_final tb !! p))) s.
Definition eof_actions (tb : table) (s : list positive) : list A :=
  in_order (s ≫= λ p, match tb_final tb !! p with Some m => m.1 | None => [] end).

End machine.
Arguments table A : clear implicits.

(** ** Runs *)

(** A run without actions. *)
Section runs.
Context {A : Type} `{EqDecision A} (tb : table A).

Fixpoint quiet (s : list positive) (w : list Z) : option (list positive) :=
  match w with
  | [] => Some s
  | c :: w =>
    match trans tb s c with
    | Some ([], s') => quiet s' w
    | _ => None
    end
  end.

Lemma quiet_app s u v s1 s2 : quiet s u = Some s1 → quiet s1 v = Some s2 → quiet s (u ++ v) = Some s2.
Proof.
  revert s. induction u as [|c u IH]; intros s; simpl; [congruence|].
  destruct (trans tb s c) as [[[|] s']|]; try done. apply IH.
Qed.

(** The characters of a class. *)
Definition members (k : cls) : list Z := k ≫= λ ab, seqZ ab.1 (ab.2 - ab.1 + 1).

Lemma elem_of_members k c : in_cls k c = true ↔ c ∈ members k.
Proof.
  rewrite in_cls_spec. unfold members. rewrite list_elem_of_bind.
  split; intros (ab & H1 & H2); exists ab; rewrite ?elem_of_seqZ in *; split; (done || lia).
Qed.

(** Where the states [F] get to on the characters of a class, and of classes one after
    the other, if they do so without actions. *)
Definition image (F : list (list positive)) (k : cls) : option (list (list positive)) :=
  foldr (λ sc acc, G ← acc; match trans tb sc.1 sc.2 with Some ([], s') => Some (if decide (s' ∈ G) then G else s' :: G) | _ => None end)
    (Some []) (F ≫= λ s, pair s <$> members k).

Fixpoint images (F : list (list positive)) (sh : list cls) : option (list (list positive)) :=
  match sh with
  | [] => Some F
  | k :: sh => G ← image F k; images G sh
  end.

(** The texts of a list of shapes: each part has the classes of one of them. *)
Inductive text_of (shapes : list (list cls)) : list Z → Prop :=
| text_nil : text_of shapes []
| text_app sh u w :
    sh ∈ shapes → Forall2 (λ k c, in_cls k c = true) sh u → text_of shapes w → text_of shapes (u ++ w).

(** The states [F] are closed under the texts of the shapes. *)
Definition closed (shapes : list (list cls)) (F : list (list positive)) : bool :=
  every (λ sh, match images F sh with Some G => every (λ s, bool_decide (s ∈ F)) G | None => false end) shapes.

Lemma image_spec F k G s c :
  image F k = Some G → s ∈ F → in_cls k c = true → ∃ s', trans tb s c = Some ([], s') ∧ s' ∈ G.
Proof.
  intros HG Hs Hc%elem_of_members.
  assert ((s, c) ∈ (F ≫= λ s, pair s <$> members k)) as Hin
    by (apply list_elem_of_bind; exists s; split; [by apply list_elem_of_fmap_2|done]).
  revert G HG Hin. unfold image. generalize (F ≫= λ s, pair s <$> members k). clear.
  intros l. induction l as [|[s1 c1] l IH]; intros G HG Hin; [by apply elem_of_nil in Hin|]. simpl in HG.
  destruct (foldr _ (Some []) l) as [G1|] eqn:E; [|done]. simpl in HG.
  destruct (trans tb s1 c1) as [[[|] s']|] eqn:Et; try done. injection HG as <-.
  apply elem_of_cons in Hin as [[= -> ->]|Hin].
  - exists s'. split; [done|]. case_decide; [done|by left].
  - destruct (IH G1 eq_refl Hin) as (s2 & ? & ?). exists s2. split; [done|]. case_decide; [done|by right].
Qed.

Lemma images_spec sh : ∀ F G s u,
  images F sh = Some G → s ∈ F → Forall2 (λ k c, in_cls k c = true) sh u → ∃ s', quiet s u = Some s' ∧ s' ∈ G.
Proof.
  induction sh as [|k sh IH]; intros F G s u HG Hs Hu; simpl in HG.
  - apply Forall2_nil_inv_l in Hu as ->. injection HG as <-. by exists s.
  - apply Forall2_cons_inv_l in Hu as (c & u' & Hc & Hu & ->). destruct (image F k) as [G1|] eqn:E; [|done].
    destruct (image_spec F k G1 s c E Hs Hc) as (s1 & Ht & Hs1). simpl. rewrite Ht. by apply (IH G1 G).
Qed.

Lemma closed_run shapes F s w :
  closed shapes F = true → s ∈ F → text_of shapes w → ∃ s', quiet s w = Some s' ∧ s' ∈ F.
Proof.
  intros HF Hs Hw. revert s Hs. induction Hw as [|sh u w Hsh Hu _ IH]; intros s Hs; [by exists s|].
  unfold closed in HF. rewrite every_forall in HF. specialize (HF sh Hsh).
  destruct (images F sh) as [G|] eqn:EG; [|done]. rewrite every_forall in HF.
  destruct (images_spec sh F G s u EG Hs Hu) as (s1 & H1 & HG). apply HF, bool_decide_eq_true in HG.
  destruct (IH s1 HG) as (s2 & H2 & HF2). exists s2. split; [by apply (quiet_app s u w s1)|done].
Qed.

(** The character [c] leads from all states [F] to [s'] with the actions [acts]. *)
Definition exit_on (F : list (list positive)) (c : Z) (acts : list A) (s' : list positive) : bool :=
  every (λ s, bool_decide (trans tb s c = Some (acts, s'))) F.

Lemma exit_spec F c acts s' s : exit_on F c acts s' = true → s ∈ F → trans tb s c = Some (acts, s').
Proof. unfold exit_on. rewrite every_forall. intros H Hs. by apply H, bool_decide_eq_true in Hs. Qed.

(** What holds of the transitions of all states [F] on the characters of [k]. *)
Definition leads (F : list (list positive)) (k : cls) (Q : list positive → Z → list A → list positive → bool) : bool :=
  every (λ s, every (λ c, match trans tb s c with Some (acts, s') => Q s c acts s' | None => false end) (members k)) F.

Lemma leads_spec F k Q s c :
  leads F k Q = true → s ∈ F → in_cls k c = true → ∃ acts s', trans tb s c = Some (acts, s') ∧ Q s c acts s' = true.
Proof.
  unfold leads. rewrite every_forall. intros H Hs Hc%elem_of_members. specialize (H s Hs). rewrite every_forall in H.
  specialize (H c Hc). destruct (trans tb s c) as [[acts s']|]; [|done]. by exists acts, s'.
Qed.

(** The states after one character. *)
Definition next_states (F : list (list positive)) (k : cls) : list (list positive) :=
  foldr (λ sc G, match trans tb sc.1 sc.2 with Some (_, s') => if decide (s' ∈ G) then G else s' :: G | None => G end)
    [] (F ≫= λ s, pair s <$> members k).

(** A first part with one of the shapes [shapes0], whose first character has the actions
    [acts], leads from [s0] into [F]. *)
Definition enters (shapes0 : list (list cls)) (s0 : list positive) (acts : list A) (F : list (list positive)) : bool :=
  every (λ sh, match sh with
    | [] => false
    | k :: sh => every (λ c, match trans tb s0 c with
        | Some (acts', s1) => bool_decide (acts' = acts) &&
          match images [s1] sh with Some G => every (λ s, bool_decide (s ∈ F)) G | None => false end
        | None => false
        end) (members k)
    end) shapes0.

(** A text that begins with a part of [shapes0] and goes on with those of [shapes]. *)
Inductive text_from (shapes0 shapes : list (list cls)) : list Z → Prop :=
| text_from_intro sh u w :
    sh ∈ shapes0 → Forall2 (λ k c, in_cls k c = true) sh u → text_of shapes w → text_from shapes0 shapes (u ++ w).

Lemma text_of_from shapes w : text_of shapes w → w = [] ∨ text_from (filter (λ sh, sh ≠ []) shapes) shapes w.
Proof.
  induction 1 as [|sh u w Hsh Hu Hw IH]; [by left|]. destruct u as [|c u]; [done|].
  right. apply (text_from_intro _ _ sh); [|done|done]. apply list_elem_of_filter. split; [by intros ->; inversion Hu|done].
Qed.

Lemma enters_run shapes0 shapes s0 acts F w :
  enters shapes0 s0 acts F = true → closed shapes F = true → text_from shapes0 shapes w →
  ∃ c w' s1 s2, w = c :: w' ∧ trans tb s0 c = Some (acts, s1) ∧ quiet s1 w' = Some s2 ∧ s2 ∈ F.
Proof.
  intros He Hcl [sh u v Hsh Hu Hv]. unfold enters in He. rewrite every_forall in He.
  specialize (He sh Hsh). destruct sh as [|k sh]; [done|].
  apply Forall2_cons_inv_l in Hu as (c & u' & Hc & Hu & ->). apply elem_of_members in Hc.
  rewrite every_forall in He. specialize (He c Hc). destruct (trans tb s0 c) as [[acts' s1]|] eqn:Et; [|done].
  apply andb_true_iff in He as [->%bool_decide_eq_true He]. destruct (images [s1] sh) as [G|] eqn:EG; [|done].
  destruct (images_spec sh [s1] G s1 u' EG ltac:(by left) Hu) as (s2 & H2 & HG). rewrite every_forall in He.
  apply He, bool_decide_eq_true in HG. destruct (closed_run shapes F s2 v Hcl HG Hv) as (s3 & H3 & HF).
  exists c, (u' ++ v), s1, s3. split_and!; [done|done| |done]. by apply (quiet_app s1 u' v s2).
Qed.

(** The state after a word, and the states that texts lead to. *)
Fixpoint after (s : list positive) (w : list Z) : list positive :=
  match w with
  | [] => s
  | c :: w => match trans tb s c with Some (_, s') => after s' w | None => [] end
  end.

Fixpoint spread (fuel : nat) (shapes : list (list cls)) (F : list (list positive)) : list (list positive) :=
  match fuel with
  | O => F
  | S fuel =>
    spread fuel shapes (foldl (λ F sh, foldl (λ F s, if decide (s ∈ F) then F else F ++ [s]) F (default [] (images F sh))) F shapes)
  end.
End runs.

(** Following a word: how far a text has matched it. *)
Section follow.
Context {A : Type} `{EqDecision A} (tb : table A) (word : list cls).

Definition follow (o : option nat) (c : Z) : option nat :=
  j ← o; k ← word !! j; if in_cls k c then Some (S j) else None.

Lemma follow_none w : foldl follow None w = None.
Proof. by induction w. Qed.

Lemma follow_spec w : ∀ j, (j <= length word)%nat →
  foldl follow (Some j) w = Some (length word) ↔ Forall2 (λ k c, in_cls k c = true) (drop j word) w.
Proof.
  induction w as [|c w IH]; intros j Hj; simpl.
  - split; [intros [= ->]; by rewrite drop_all|]. intros H%Forall2_nil_inv_r. apply (f_equal length) in H.
    rewrite length_drop in H. simpl in H. f_equal. lia.
  - destruct (word !! j) as [k|] eqn:Ek; simpl.
    + rewrite (drop_S _ _ _ Ek). apply lookup_lt_Some in Ek. rewrite Forall2_cons. destruct (in_cls k c); simpl.
      * rewrite IH by lia. naive_solver.
      * rewrite follow_none. naive_solver.
    + apply lookup_ge_None in Ek. rewrite drop_ge, follow_none by lia. split; [done|by intros ?%Forall2_nil_inv_l].
Qed.

(** The positions [base], [base + 1], ... are those of the word. *)
Definition level (base : positive) (s : list positive) : option nat :=
  S <$> (fst <$> list_find (λ j, (base + Pos.of_succ_nat j - 1)%positive ∈ s) (seq 0 (length word))).

(** A run without actions among the states [F] that follows the word. *)
Definition follows (base : positive) (F : list (list positive)) (k : cls) : bool :=
  leads tb F k (λ s c acts s', bool_decide (acts = []) && bool_decide (s' ∈ F) && bool_decide (level base s' = follow (level base s) c)).

Lemma follows_run base F k s w :
  follows base F k = true → s ∈ F → every (in_cls k) w = true →
  ∃ s', quiet tb s w = Some s' ∧ s' ∈ F ∧ level base s' = foldl follow (level base s) w.
Proof.
  intros HF. revert s. induction w as [|c w IH]; intros s Hs Hw; [by exists s|]. simpl in Hw.
  destruct (in_cls k c) eqn:Hc; [|done]. destruct (leads_spec _ _ _ _ s c HF Hs Hc) as (acts & s1 & Ht & HQ).
  rewrite !andb_true_iff, !bool_decide_eq_true in HQ. destruct HQ as [[-> Hs1] Hl].
  destruct (IH s1 Hs1 Hw) as (s2 & Hq & Hs2 & Hl2). exists s2. simpl. rewrite Ht, Hl2, Hl. by split_and!.
Qed.
End follow.

(** ** Texts with percent encoding *)

(** The parts of a text match their shape. *)
Ltac shape_match := repeat (constructor; [first [assumption | vm_compute; reflexivity]|]); constructor.

(** Characters of a class and percent-encoded ones. *)
Definition pct_shapes (k : cls) : list (list cls) := [[k]; [chars "%"; xdigit; xdigit]].

Fixpoint pct_text (k : cls) (w : list Z) : bool :=
  match w with
  | [] => true
  | c :: w' =>
    if in_cls k c then pct_text k w'
    else match w' with
         | x :: y :: w'' => (c =? 37) && in_cls xdigit x && in_cls xdigit y && pct_text k w''
         | _ => false
         end
  end.

Lemma pct_text_of k w : pct_text k w = true → text_of (pct_shapes k) w.
Proof.
  remember (length w) as n eqn:Hn. assert (length w <= n)%nat as Hle by lia. clear Hn. revert w Hle.
  induction n as [|n IH]; intros [|c w] Hle Hw; simpl in Hle; try (by constructor); try lia. cbn [pct_text] in Hw.
  destruct (in_cls k c) eqn:Hc.
  - apply (text_app _ [k] [c]); [by left|shape_match|]. apply IH; [lia|done].
  - destruct w as [|x [|y w]]; try done. rewrite !andb_true_iff in Hw. destruct Hw as (((->%Z.eqb_eq & Hx) & Hy) & Hw).
    apply (text_app _ [chars "%"; xdigit; xdigit] [37; x; y]); [right; by left|shape_match|].
    apply IH; [simpl in Hle; lia|done].
Qed.

(** A text that is not empty, from its first part on. *)
Lemma pct_text_from k w : pct_text k w = true → w ≠ [] → text_from (pct_shapes k) (pct_shapes k) w.
Proof. by intros [?|H]%pct_text_of%text_of_from Hne. Qed.

Lemma class_text_of k w : every (in_cls k) w = true → text_of [[k]] w.
Proof.
  induction w as [|c w IH]; simpl; [constructor|]. destruct (in_cls k c) eqn:Hc; [|done]. intros Hw.
  apply (text_app _ [k] [c]); [by left|shape_match|by apply IH].
Qed.

(** The digits of a number. *)
Lemma dec_from n : 0 <= n → text_from [[digit]] [[digit]] (dec n).
Proof.
  intros Hn. pose proof (dec_nonempty n Hn) as Hne. pose proof (dec_digits n Hn) as Hd. destruct (dec n) as [|c w]; [done|].
  assert (∀ c, is_digit c = true → in_cls digit c = true) as Hx.
  { intros d Hd'. unfold is_digit in Hd'. apply bool_decide_eq_true in Hd'. apply in_cls_spec. exists (48, 57). by split; [left|]. }
  apply Forall_cons in Hd as [Hc%Hx Hw]. apply (text_from_intro _ _ [digit] [c]); [by left|shape_match|].
  apply class_text_of, every_forall. rewrite Forall_forall in Hw. auto.
Qed.

Lemma atoi_dec_app n c t : 0 <= n → is_digit c = false → atoi (dec n ++ c :: t) = n.
Proof.
  intros Hn Hc. pose proof (dec_digits n Hn) as Hd. pose proof (dec_nonempty n Hn) as Hne. pose proof (digits_dec n (c :: t) Hn Hc) as Hv.
  destruct (dec n) as [|d w]; [done|]. apply Forall_cons in Hd as [Hd0 _].
  transitivity (digits 0 ((d :: w) ++ c :: t)); [|done]. apply bool_decide_eq_true in Hd0. unfold atoi. simpl skip_space.
  replace (is_space d) with false by (symmetry; apply bool_decide_eq_false; lia).
  assert (d = 48 ∨ d = 49 ∨ d = 50 ∨ d = 51 ∨ d = 52 ∨ d = 53 ∨ d = 54 ∨ d = 55 ∨ d = 56 ∨ d = 57) as Hcase by lia.
  by destruct_or!; subst d.
Qed.

(** ** Execution *)

(** [write exec]: the code between [p] and [pe]. An action changes the variables [M] of
    the program, may call back, which gives events, and may leave the loop ([fbreak]). *)
Section exec.
Context {A M E : Type} `{EqDecision A} (tb : table A).
Context (perform : A → nat → M → outcome (M * list E * bool)).

Fixpoint run_actions (acts : list A) (p : nat) (m : M) : outcome (M * list E * bool) :=
  match acts with
  | [] => mret (m, [], false)
  | a :: acts =>
    '(m, ev, brk) ← perform a p m;
    if brk : bool then mret (m, ev, true)
    else '(m, ev', brk) ← run_actions acts p m; mret (m, ev ++ ev', brk)
  end.

(** The state [cs] ([] is the error state), the variables, the events and [p]. *)
Fixpoint exec_loop (cs : list positive) (p : nat) (rest : list Z) (m : M) (evs : list E) :
    outcome (list positive * M * list E * nat) :=
  match rest with
  | [] => mret (cs, m, evs, p)
  | c :: rest =>
    match trans tb cs c with
    | None => mret ([], m, evs, p)
    | Some (acts, s) =>
      '(m, ev, brk) ← run_actions acts p m;
      if brk : bool then mret (s, m, evs ++ ev, S p) else exec_loop s (S p) rest m (evs ++ ev)
    end
  end.

Lemma exec_quiet s u s1 : quiet tb s u = Some s1 → ∀ p v m evs,
  exec_loop s p (u ++ v) m evs = exec_loop s1 (p + length u) v m evs.
Proof.
  revert s. induction u as [|c u IH]; intros s Hq p v m evs; simpl in *.
  - injection Hq as <-. by rewrite Nat.add_0_r.
  - destruct (trans tb s c) as [[[|] s']|] eqn:Et; try done. simpl. rewrite app_nil_r, (IH s' Hq). f_equal. lia.
Qed.

Lemma exec_step s c acts s1 : trans tb s c = Some (acts, s1) → ∀ p v m evs m1 ev,
  run_actions acts p m = Ok (m1, ev, false) → exec_loop s p (c :: v) m evs = exec_loop s1 (S p) v m1 (evs ++ ev).
Proof. intros Ht p v m evs m1 ev Hr. cbn [exec_loop]. by rewrite Ht, Hr. Qed.

Lemma exec_break s c acts s1 : trans tb s c = Some (acts, s1) → ∀ p v m evs m1 ev,
  run_actions acts p m = Ok (m1, ev, true) → exec_loop s p (c :: v) m evs = Ok (s1, m1, evs ++ ev, S p).
Proof. intros Ht p v m evs m1 ev Hr. cbn [exec_loop]. by rewrite Ht, Hr. Qed.

Lemma exec_eq s p p' v m evs evs' : p = p' → evs = evs' → exec_loop s p v m evs = exec_loop s p' v m evs'.
Proof. by intros -> ->. Qed.

(** The loop stays between [p] and [pe]. *)
Lemma exec_range rest : ∀ cs p m evs cs' m' evs' p',
  exec_loop cs p rest m evs = Ok (cs', m', evs', p') → (p <= p' <= p + length rest)%nat.
Proof.
  induction rest as [|c rest IH]; intros cs p m evs cs' m' evs' p'; simpl.
  - intros [= <- <- <- <-]. lia.
  - destruct (trans tb cs c) as [[acts s]|]; [|intros [= <- <- <- <-]; lia].
    destruct (run_actions acts p m) as [[[m1 ev] [|]]| |]; osimpl; try done.
    + intros [= <- <- <- <-]. lia.
    + intros H%IH. lia.
Qed.
End exec.

(** An invariant of the variables at each character carries over to the loop. *)
Section exec_inv.
Context {A M E : Type} `{EqDecision A} (tb : table A).
Context (perform : A → nat → M → outcome (M * list E * bool)) (I : nat → M → Prop) (J : E → Prop).
Hypothesis I_next : ∀ p m, I p m → I (S p) m.
Hypothesis I_perform : ∀ a p m m' ev b, I (S p) m → perform a p m = Ok (m', ev, b) → I (S p) m' ∧ Forall J ev.

Lemma run_actions_inv acts p : ∀ m m' ev b, I (S p) m → run_actions perform acts p m = Ok (m', ev, b) → I (S p) m' ∧ Forall J ev.
Proof.
  induction acts as [|a acts IH]; intros m m' ev b HI; simpl; [by intros [= <- <- <-]|].
  destruct (perform a p m) as [[[m1 ev1] b1]| |] eqn:Ep; osimpl; try done.
  destruct (I_perform _ _ _ _ _ _ HI Ep) as [H1 J1]. destruct b1; [by intros [= <- <- <-]|].
  destruct (run_actions perform acts p m1) as [[[m2 ev2] b2]| |] eqn:Er; osimpl; try done. intros [= <- <- <-].
  destruct (IH _ _ _ _ H1 Er) as [H2 J2]. split; [done|]. by apply Forall_app.
Qed.

Lemma exec_inv rest : ∀ s p m evs s' m' evs' p',
  I p m → Forall J evs → exec_loop tb perform s p rest m evs = Ok (s', m', evs', p') → I p' m' ∧ Forall J evs'.
Proof.
  induction rest as [|c rest IH]; intros s p m evs s' m' evs' p' HI HJ; simpl; [by intros [= <- <- <- <-]|].
  destruct (trans tb s c) as [[acts s1]|]; [|by intros [= <- <- <- <-]].
  destruct (run_actions perform acts p m) as [[[m1 ev] b]| |] eqn:Er; osimpl; try done.
  destruct (run_actions_inv _ _ _ _ _ _ (I_next _ _ HI) Er) as [H1 J1].
  destruct b; [intros [= <- <- <- <-]; split; [done|by apply Forall_app]|]. by apply IH; [|apply Forall_app].
Qed.
End exec_inv.

(** ** All the states *)

(** A set of states that no character leaves. Characters that are in the same classes have
    the same transitions, so that one of each kind is enough. *)
Section reachable.
Context {A : Type} `{EqDecision A} (tb : table A).

Definition distinct (l : list (positive * cls)) : list cls := foldr (λ pk l, if decide (pk.2 ∈ l) then l else pk.2 :: l) [] l.
Definition classes : list cls := distinct (map_to_list (tb_class tb)).
Definition alike (ks : list cls) (c d : Z) : bool := every (λ k, bool_decide (in_cls k c = in_cls k d)) ks.
Definition kinds (ks : list cls) : list Z :=
  foldl (λ l c, if some (alike ks c) l then l else l ++ [c]) [] (seqZ 0 256).

Definition states : Type := Pmap (list (list positive)).
Definition head_of (s : list positive) : positive := default 1%positive (head s).
Definition known (R : states) (s : list positive) : bool := bool_decide (s ∈ default [] (R !! head_of s)).
Definition all_states (R : states) : list (list positive) := map_to_list R ≫= snd.

(** The states that are found from [todo]. *)
Fixpoint explore (fuel : nat) (cs : list Z) (R : states) (todo : list (list positive)) : states :=
  match fuel, todo with
  | S fuel, s :: todo =>
    let '(R, todo) := foldl (λ acc c,
      match trans tb s c with
      | Some (_, s') => if known acc.1 s' then acc else (<[head_of s' := s' :: default [] (acc.1 !! head_of s')]> acc.1, s' :: acc.2)
      | None => acc
      end) (R, todo) cs in
    explore fuel cs R todo
  | _, _ => R
  end.

(** Every transition stays among the states and satisfies [ok]. *)
Definition all_ok (cs : list Z) (R : states) (ok : list positive → list A → list positive → bool) : bool :=
  every (λ s, every (λ c, match trans tb s c with Some (acts, s') => if known R s' then ok s acts s' else false | None => true end) cs) (all_states R).

Lemma distinct_elem (l : list (positive * cls)) q k : (q, k) ∈ l → k ∈ distinct l.
Proof.
  induction l as [|[q' k'] l IH]; intros Hin; [by apply elem_of_nil in Hin|]. simpl. apply elem_of_cons in Hin as [[= -> ->]|Hin].
  - case_decide; [done|by left].
  - case_decide; [|right]; by apply IH.
Qed.

Lemma alike_trans c d s : alike classes c d = true → trans tb s c = trans tb s d.
Proof.
  intros Ha. assert (moves tb s c = moves tb s d) as E; [|unfold trans; by rewrite E].
  unfold moves. induction s as [|p s IH]; [done|]. cbn [mbind list_bind]. rewrite IH. f_equal.
  apply list_filter_iff. intros t. assert (in_cls (default [] (tb_class tb !! t.1)) c = in_cls (default [] (tb_class tb !! t.1)) d) as ->; [|done].
  destruct (tb_class tb !! t.1) as [k|] eqn:Ek; [|done]. simpl. unfold alike in Ha. rewrite every_forall in Ha.
  assert (k ∈ classes) as Hk; [|by apply Ha, bool_decide_eq_true in Hk].
  apply elem_of_map_to_list in Ek. by apply (distinct_elem _ t.1).
Qed.

Lemma all_ok_spec cs R ok s c acts s' :
  (let ks := classes in every (λ c, some (alike ks c) cs) (seqZ 0 256)) = true → all_ok cs R ok = true →
  0 <= c < 256 → known R s = true → trans tb s c = Some (acts, s') → known R s' = true ∧ ok s acts s' = true.
Proof.
  intros Hcs Hall Hc Hs Ht. rewrite every_forall in Hcs.
  assert (c ∈ seqZ 0 256) as Hin by (apply elem_of_seqZ; lia).
  specialize (Hcs c Hin). apply some_exists in Hcs as (d & Hd & Ha). rewrite (alike_trans c d s Ha) in Ht.
  unfold all_ok in Hall. rewrite every_forall in Hall. assert (s ∈ all_states R) as Hsin.
  { unfold known in Hs. apply bool_decide_eq_true in Hs. destruct (R !! head_of s) as [l|] eqn:El; [|by apply elem_of_nil in Hs].
    apply list_elem_of_bind. exists (head_of s, l). split; [done|by apply elem_of_map_to_list]. }
  specialize (Hall s Hsin). rewrite every_forall in Hall. specialize (Hall d Hd). rewrite Ht in Hall. by destruct (known R s').
Qed.

(** The positions from which [use] may come before [set], found in [n] rounds. *)
Definition has_act (a : A) (t : move (A := A)) : bool := some (λ na, bool_decide (na.2 = a)) t.2.1.
Definition needing (n : nat) (use set : A) : list positive :=
  let from (P : move → bool) := fst <$> filter (λ pl, some (λ t, if P t then negb (has_act set t) else false) pl.2 = true) (map_to_list (tb_moves tb)) in
  Nat.iter n (λ l, from (λ t, if has_act use t then true else bool_decide (t.1 ∈ l))) (from (has_act use)).
End reachable.
