(* ===== verification/Http11.v ===== *)
(** The machine of the request parser (sylar/http/http11_parser.rl): its grammar, its
    actions and [http_parser_execute], and what it makes of the text of a request. *)

From Stdlib Require Import ZArith Lia.
From stdpp Require Import base numbers pmap option strings tactics list list_numbers.
From S2P Require Import Prelude StdSet Text StdMap HashUtil Stream WebSocket Http HttpParser Ragel.

Local Open Scope Z_scope.

(** ** The grammar *)

(** The actions of the machine. *)
Inductive action : Type :=
| a_mark | a_start_field | a_write_field | a_start_value | a_write_value | a_request_method | a_request_uri
| a_fragment | a_start_query | a_query_string | a_http_version | a_request_path | a_done | a_xml | a_json.

#[export] Instance action_eq_dec : EqDecision action.
Proof. solve_decision. Defined.

Section grammar.
Local Open Scope ragel_scope.
(** [parser->uri_relaxed]. *)
Context (uri_relaxed : bool).

Definition chr (s : string) : rx action := Chr (chars s).
(** A number is the character with this code. *)
Definition code (n : Z) : rx action := Chr [(n, n)].

Definition CRLF : rx action := lit_bytes [13; 10] ∥ code 10.

Definition more_delims : cls := if uri_relaxed then chars "{}^" else [].
Definition sub_delims : cls := chars "!$&'()*+,;=" ++ more_delims.
Definition unreserved : cls := alpha ++ digit ++ chars "-._~".
Definition pct_encoded : rx action := chr "%" ⋅ Chr xdigit ⋅ Chr xdigit.
Definition pchar : rx action := Chr (cls_diff any ascii ++ unreserved ++ sub_delims ++ chars ":@") ∥ pct_encoded.
Definition pchar_or (s : string) : rx action :=
  Chr (cls_diff any ascii ++ unreserved ++ sub_delims ++ chars ":@" ++ chars s) ∥ pct_encoded.

Definition fragment : rx action := Leave (Enter (Star (pchar_or "/?")) a_mark) a_fragment.
Definition query : rx action := Leave (Star (pchar_or "/?")) a_query_string.

Definition segment_nz_nc : rx action := Plus (Chr (unreserved ++ sub_delims ++ chars "@") ∥ pct_encoded).
Definition segment_nz : rx action := Plus pchar.
Definition segment : rx action := Star pchar.
Definition path_empty : rx action := Rep 0 pchar.
Definition path_rootless : rx action := segment_nz ⋅ Star (chr "/" ⋅ segment).
Definition path_noscheme : rx action := segment_nz_nc ⋅ Star (chr "/" ⋅ segment).
Definition path_absolute : rx action := chr "/" ⋅ Opt (segment_nz ⋅ Star (chr "/" ⋅ segment)).
Definition path_abempty : rx action := Star (chr "/" ⋅ segment).

Definition reg_name : rx action := Star (Chr (unreserved ++ sub_delims) ∥ pct_encoded).

(** The differences ["1" - "9"], ["0" - "4"] and ["0" - "5"] leave the first character. *)
Definition dec_octet : rx action :=
  Chr digit ∥ Chr (cls_diff (chars "1") (chars "9")) ⋅ Chr digit ∥ chr "1" ⋅ Rep 2 (Chr digit)
  ∥ chr "2" ⋅ Chr (cls_diff (chars "0") (chars "4")) ⋅ Chr digit
  ∥ lit "25" ⋅ Chr (cls_diff (chars "0") (chars "5")).
Definition IPv4address : rx action :=
  dec_octet ⋅ chr "." ⋅ dec_octet ⋅ chr "." ⋅ dec_octet ⋅ chr "." ⋅ dec_octet.
Definition h16 : rx action := RepRange 1 4 (Chr xdigit).
Definition ls32 : rx action := h16 ⋅ chr ":" ⋅ h16 ∥ IPv4address.
Definition h16s (n : nat) : rx action := Opt (AtLeast n (h16 ⋅ chr ":") ⋅ h16).

(** [6( h16 ":" )] is the character with code 6 and one group. *)
Definition IPv6address : rx action :=
  code 6 ⋅ (h16 ⋅ chr ":") ⋅ ls32
  ∥ lit "::" ⋅ code 5 ⋅ (h16 ⋅ chr ":") ⋅ ls32
  ∥ Opt h16 ⋅ lit "::" ⋅ code 4 ⋅ (h16 ⋅ chr ":") ⋅ ls32
  ∥ h16s 1 ⋅ lit "::" ⋅ code 3 ⋅ (h16 ⋅ chr ":") ⋅ ls32
  ∥ h16s 2 ⋅ lit "::" ⋅ code 2 ⋅ (h16 ⋅ chr ":") ⋅ ls32
  ∥ h16s 3 ⋅ lit "::" ⋅ h16 ⋅ chr ":" ⋅ ls32
  ∥ h16s 4 ⋅ lit "::" ⋅ ls32
  ∥ h16s 5 ⋅ lit "::" ⋅ h16
  ∥ h16s 6 ⋅ lit "::".
Definition IPvFuture : rx action :=
  chr "v" ⋅ Plus (Chr xdigit) ⋅ chr "." ⋅ Plus (Chr (unreserved ++ sub_delims ++ chars ":")).
Definition IP_literal : rx action := chr "[" ⋅ (IPv6address ∥ IPvFuture) ⋅ chr "]".

Definition port : rx action := Star (Chr digit).
Definition host : rx action := IP_literal ∥ IPv4address ∥ reg_name.
Definition userinfo : rx action := Star (Chr (unreserved ++ sub_delims ++ chars ":") ∥ pct_encoded).
Definition authority : rx action := Opt (userinfo ⋅ chr "@") ⋅ host ⋅ Opt (chr ":" ⋅ port).
Definition scheme : rx action := Chr alpha ⋅ Star (Chr (alpha ++ digit ++ chars "+-.")).
Definition relative_part : rx action :=
  lit "//" ⋅ authority ⋅ path_abempty ∥ path_absolute ∥ path_noscheme ∥ path_empty.
Definition hier_part : rx action :=
  lit "//" ⋅ authority ⋅ path_abempty ∥ path_absolute ∥ path_rootless ∥ path_empty.

Definition with_query (r : rx action) : rx action :=
  Leave (Enter (Leave r a_request_path ⋅ Opt (Leave (chr "?") a_start_query ⋅ query)) a_mark) a_request_uri.
Definition relative_ref : rx action := with_query relative_part ⋅ Opt (chr "#" ⋅ fragment).
Definition URI : rx action := scheme ⋅ chr ":" ⋅ with_query hier_part ⋅ Opt (chr "#" ⋅ fragment).
Definition URI_reference : rx action := URI ∥ relative_ref.

Definition Method : rx action := Leave (Enter (RepRange 1 20 (Chr (upper ++ digit))) a_mark) a_request_method.
Definition http_number : rx action := lit "1." ⋅ (chr "0" ∥ chr "1").
Definition HTTP_Version : rx action := Leave (Enter (lit "HTTP/" ⋅ http_number) a_mark) a_http_version.
Definition Request_Line : rx action := Method ⋅ chr " " ⋅ URI_reference ⋅ chr " " ⋅ HTTP_Version ⋅ CRLF.

(** The difference [0 - 31] is the character 0. *)
Definition HTTP_CTL : cls := cls_diff [(0, 0)] [(31, 31)] ++ [(127, 127)].
Definition HTTP_separator : cls := chars "()<>@,;:\/[]?={} " ++ [(34, 34); (9, 9)].
Definition lws : rx action := Opt CRLF ⋅ Plus (Chr [(32, 32); (9, 9)]).
Definition token : cls := cls_diff ascii (HTTP_CTL ++ HTTP_separator).
Definition content : rx action := Chr (cls_diff any HTTP_CTL) ∥ lws.
Definition field_name : rx action := Leave (Enter (Plus (Chr token)) a_start_field) a_write_field.
Definition field_value : rx action := Leave (Enter (Star content) a_start_value) a_write_value.
Definition message_header : rx action := EntryGuard (field_name ⋅ chr ":" ⋅ Star lws ⋅ field_value) CRLF.
Definition Request : rx action := Request_Line ⋅ Star message_header ⋅ CRLF.

Definition SocketJSONStart : rx action := chr "@" ⋅ relative_part.
Definition SocketJSONData : rx action := FinishGuard (chr "{" ⋅ Star (Chr any) ⋅ chr "}") (code 0).
Definition SocketXMLData : rx action :=
  FinishGuard
    (Leave (Enter (chr "<" ⋅ Plus (Chr ([(97, 122); (48, 57); (65, 90)] ++ chars "-."))) a_mark) a_request_path
     ⋅ Chr (chars "/" ++ space ++ chars ">") ⋅ Star (Chr any) ⋅ chr ">") (code 0).
Definition SocketJSON : rx action :=
  Leave (Enter SocketJSONStart a_mark) a_request_path ⋅ chr " " ⋅ Finish (Enter SocketJSONData a_mark) a_json.
Definition SocketXML : rx action := Finish SocketXMLData a_xml.
Definition SocketRequest : rx action := SocketXML ∥ SocketJSON.

Definition main : rx action := Finish (Request ∥ SocketRequest) a_done.
End grammar.

(** The tables that are generated. *)
Definition http_table : table action := Eval vm_compute in compile (main false).
Definition relaxed_table : table action := Eval vm_compute in compile (main true).

(** ** The parser *)

(** [struct http_parser]; the state is a set of positions, empty for the error state. *)
Record http_parser : Type := mkParser {
  cs : list positive;
  body_start : nat;
  content_len : Z;
  nread : nat;
  mark : nat;
  field_start : nat;
  field_len : nat;
  query_start : nat;
  xml_sent : bool;
  json_sent : bool;
  uri_relaxed : bool
}.

Definition set_mark (p : http_parser) (v : nat) : http_parser :=
  mkParser (cs p) (body_start p) (content_len p) (nread p) v (field_start p) (field_len p) (query_start p)
    (xml_sent p) (json_sent p) (uri_relaxed p).
Definition set_field (p : http_parser) (start len : nat) : http_parser :=
  mkParser (cs p) (body_start p) (content_len p) (nread p) (mark p) start len (query_start p)
    (xml_sent p) (json_sent p) (uri_relaxed p).
Definition set_query_start (p : http_parser) (v : nat) : http_parser :=
  mkParser (cs p) (body_start p) (content_len p) (nread p) (mark p) (field_start p) (field_len p) v
    (xml_sent p) (json_sent p) (uri_relaxed p).
Definition set_sent (p : http_parser) (xml json : bool) : http_parser :=
  mkParser (cs p) (body_start p) (content_len p) (nread p) (mark p) (field_start p) (field_len p) (query_start p)
    xml json (uri_relaxed p).
Definition set_body (p : http_parser) (start : nat) (len : Z) : http_parser :=
  mkParser (cs p) start len (nread p) (mark p) (field_start p) (field_len p) (query_start p)
    (xml_sent p) (json_sent p) (uri_relaxed p).
Definition set_state (p : http_parser) (s : list positive) (n : nat) : http_parser :=
  mkParser s (body_start p) (content_len p) n (mark p) (field_start p) (field_len p) (query_start p)
    (xml_sent p) (json_sent p) (uri_relaxed p).

Definition table_of (p : http_parser) : table action := if uri_relaxed p then relaxed_table else http_table.

(** [http_parser_init]: [query_start] and [uri_relaxed] keep what they had. *)
Definition http_parser_init (p : http_parser) : http_parser :=
  mkParser start 0 0 0 0 0 0 (query_start p) false false (uri_relaxed p).

Section execute.
Context (buffer : list Z).

(** [PTR_TO(at)], and [LEN(at, fpc)]: the difference is unsigned, and a text of a length
    that has wrapped around cannot be made. *)
Definition PTR_TO (at_ : nat) : list Z := drop at_ buffer.
Definition LEN (at_ fpc : nat) : outcome nat :=
  if decide (fpc < at_)%nat then Throw (logic_error "length_error") else mret (fpc - at_)%nat.

(** The actions; all callbacks are set. *)
Definition perform (a : action) (fpc : nat) (p : http_parser) : outcome (http_parser * list event * bool) :=
  match a with
  | a_mark | a_start_value => mret (set_mark p fpc, [], false)
  | a_start_field => mret (set_field p fpc (field_len p), [], false)
  | a_write_field => n ← LEN (field_start p) fpc; mret (set_field p (field_start p) n, [], false)
  | a_write_value =>
    n ← LEN (mark p) fpc; mret (p, [EvField (PTR_TO (field_start p)) (field_len p) (PTR_TO (mark p)) n], false)
  | a_request_method => n ← LEN (mark p) fpc; mret (p, [EvMethod (PTR_TO (mark p)) n], false)
  | a_request_uri => n ← LEN (mark p) fpc; mret (p, [EvUri (PTR_TO (mark p)) n], false)
  | a_fragment => n ← LEN (mark p) fpc; mret (p, [EvFragment (PTR_TO (mark p)) n], false)
  | a_start_query => mret (set_query_start p fpc, [], false)
  | a_query_string => n ← LEN (query_start p) fpc; mret (p, [EvQuery (PTR_TO (query_start p)) n], false)
  | a_http_version => n ← LEN (mark p) fpc; mret (p, [EvVersion (PTR_TO (mark p)) n], false)
  | a_request_path => n ← LEN (mark p) fpc; mret (p, [EvPath (PTR_TO (mark p)) n], false)
  | a_done =>
    if xml_sent p || json_sent p
    then mret (set_body p (mark p) (s32 (Z.of_nat fpc - Z.of_nat (mark p) + 1)), [], true)
    else mret (set_body p (S fpc) (content_len p), [EvHeaderDone], true)
  | a_xml => mret (set_sent p true (json_sent p), [], false)
  | a_json => mret (set_sent p (xml_sent p) true, [], false)
  end.

(** [http_parser_execute(parser, buffer, len, off)]: the bytes used. *)
Definition http_parser_execute (p : http_parser) (off : nat) : outcome (http_parser * list event * nat) :=
  let len := length buffer in
  if decide (len = 0)%nat then mret (p, [], 0%nat)
  else
    let p := mkParser (cs p) (body_start p) (content_len p) 0 0 0 0 (query_start p) (xml_sent p) (json_sent p) (uri_relaxed p) in
    _ ← sylar_assert (bool_decide (off <= len)%nat) "offset past end of buffer";
    '(s, p, evs, q) ← exec_loop (table_of p) perform (cs p) off (drop off buffer) p [];
    _ ← sylar_assert (bool_decide (q <= len)%nat) "Buffer overflow after parsing.";
    let p := set_state p s (nread p + (q - off)) in
    _ ← sylar_assert (bool_decide (nread p <= len)%nat) "nread longer than length";
    _ ← sylar_assert (bool_decide (body_start p <= len)%nat) "body starts after buffer end";
    _ ← sylar_assert (bool_decide (mark p < len)%nat) "mark is after buffer end";
    _ ← sylar_assert (bool_decide (field_len p <= len)%nat) "field has length longer than whole buffer";
    _ ← sylar_assert (bool_decide (field_start p < len)%nat) "field starts after buffer end";
    mret (p, evs, nread p).
End execute.

Definition http_parser_has_error (p : http_parser) : bool := bool_decide (cs p = []).
Definition http_parser_is_finished (p : http_parser) : bool := is_final (table_of p) (cs p).
Definition http_parser_finish (p : http_parser) : Z :=
  if http_parser_has_error p then -1 else if http_parser_is_finished p then 1 else 0.

(** ** The text of a request *)

(** The characters of a path, with percent encoding. *)
Definition pchar_cls (extra : string) : cls :=
  cls_diff any ascii ++ unreserved ++ sub_delims false ++ chars ":@" ++ chars extra.
Definition uri_shapes (extra : string) : list (list cls) := pct_shapes (pchar_cls extra).
Definition uri_text (extra : string) (w : list Z) : bool := pct_text (pchar_cls extra) w.

(** A path that is absolute and does not begin with two slashes. *)
Definition path_text (w : list Z) : bool :=
  match w with
  | 47 :: w' => match w' with 47 :: _ => false | _ => uri_text "/" w' end
  | _ => false
  end.

(** The characters of a name, and of a value, which does not begin with a blank. *)
Definition name_cls : cls := cls_diff token [(0, 31)].
Definition value_cls : cls := cls_diff any [(0, 0); (127, 127); (10, 10); (13, 13)].
Definition value_first : cls := cls_diff value_cls [(32, 32); (9, 9)].

Definition name_text (w : list Z) : bool := negb (bool_decide (w = [])) && every (in_cls name_cls) w.
Definition value_text (w : list Z) : bool :=
  match w with [] => true | c :: w => in_cls value_first c && every (in_cls value_cls) w end.

(** A text that is not empty, from its first part on. *)
Lemma uri_text_from extra w : uri_text extra w = true → w ≠ [] → text_from (uri_shapes extra) (uri_shapes extra) w.
Proof. apply pct_text_from. Qed.

Lemma path_first w : (match w with 47 :: _ => false | _ => uri_text "/" w end) = true → w ≠ [] →
  text_from (uri_shapes "") (uri_shapes "/") w.
Proof.
  intros Hw Hne. destruct w as [|c w]; [done|]. assert (c ≠ 47 ∧ uri_text "/" (c :: w) = true) as [Hc Hu].
  { destruct (decide (c = 47)) as [->|]; [done|]. split; [done|]. destruct c as [|p|p]; try done. repeat (destruct p; try done). }
  unfold uri_text in Hu. cbn [pct_text] in Hu. destruct (in_cls (pchar_cls "/") c) eqn:Hk.
  - apply (text_from_intro _ _ [pchar_cls ""] [c]); [by left| |by apply pct_text_of]. constructor; [|constructor].
    unfold pchar_cls in *. rewrite !(assoc_L (++)), in_cls_app in *. apply orb_true_iff in Hk as [Hk|Hk]; [by rewrite Hk|].
    exfalso. apply in_cls_spec in Hk as (ab & [->|?%elem_of_nil]%elem_of_cons & Hk); [simpl in Hk; lia|done].
  - destruct w as [|x [|y w]]; try done. rewrite !andb_true_iff in Hu. destruct Hu as (((->%Z.eqb_eq & Hx) & Hy) & Hu).
    apply (text_from_intro _ _ [chars "%"; xdigit; xdigit] [37; x; y]); [right; by left|shape_match|by apply pct_text_of].
Qed.

Lemma name_from w : name_text w = true → text_from [[name_cls]] [[name_cls]] w.
Proof.
  unfold name_text. intros [Hne Hw]%andb_true_iff. destruct w as [|c w]; [done|]. cbn [every] in Hw.
  destruct (in_cls name_cls c) eqn:Hc; [|done].
  apply (text_from_intro _ _ [name_cls] [c]); [by left|shape_match|by apply class_text_of].
Qed.

Lemma value_from c w : value_text (c :: w) = true → text_from [[value_first]] [[value_cls]] (c :: w).
Proof.
  cbn [value_text]. intros [Hc Hw]%andb_true_iff.
  apply (text_from_intro _ _ [value_first] [c]); [by left|shape_match|by apply class_text_of].
Qed.

(** ** The states a request goes through *)

Definition reach (s : string) : list positive := after http_table start (text s).
Definition s_uri : list positive := Eval vm_compute in reach "GET ".
Definition s_slash : list positive := Eval vm_compute in reach "GET /".
Definition s_query : list positive := Eval vm_compute in reach "GET /?".
Definition s_fragment : list positive := Eval vm_compute in reach "GET /#".
Definition s_version : list positive := Eval vm_compute in reach "GET / ".
Definition s_http : list positive := Eval vm_compute in reach "GET / HTTP/1.1".
Definition s_lines : list positive := Eval vm_compute in after http_table s_http [13; 10].
Definition s_name : list positive := Eval vm_compute in after http_table s_lines (text "a").
Definition s_colon : list positive := Eval vm_compute in after http_table s_lines (text "a:").
Definition s_blank : list positive := Eval vm_compute in after http_table s_lines (text "a: ").
Definition s_cr : list positive := Eval vm_compute in after http_table s_blank (text "b" ++ [13]).
Definition s_line : list positive := Eval vm_compute in after http_table s_cr [10].
Definition s_last : list positive := Eval vm_compute in after http_table s_lines [13].
Definition s_done : list positive := Eval vm_compute in after http_table s_last [10].

Definition f_path : list (list positive) := Eval vm_compute in
  spread http_table 8 (uri_shapes "/") [after http_table s_slash (text "a"); after http_table s_slash (text "%00")].
Definition f_query : list (list positive) := Eval vm_compute in
  spread http_table 8 (uri_shapes "/?") [after http_table s_query (text "a")].
Definition f_fragment : list (list positive) := Eval vm_compute in
  spread http_table 8 (uri_shapes "/?") [after http_table s_fragment (text "a")].
Definition f_name : list (list positive) := Eval vm_compute in spread http_table 8 [[name_cls]] [s_name].
Definition f_value : list (list positive) := Eval vm_compute in
  spread http_table 8 [[value_cls]] [after http_table s_blank (text "a")].

#[local] Arguments trans : simpl never.
#[local] Arguments in_cls : simpl never.
#[local] Arguments PTR_TO : simpl never.
#[local] Arguments LEN : simpl never.

Definition the_table (relaxed : bool) : table action := if relaxed then relaxed_table else http_table.

(** The transitions on a path, a query, a fragment and a version. *)
Lemma uri_checks relaxed :
  let tb := the_table relaxed in
  trans tb s_uri 47 = Some ([a_mark], s_slash) ∧
  enters tb (uri_shapes "") s_slash [] f_path = true ∧ closed tb (uri_shapes "/") f_path = true ∧
  exit_on tb (s_slash :: f_path) 32 [a_request_path; a_request_uri] s_version = true ∧
  exit_on tb (s_slash :: f_path) 35 [a_request_path; a_request_uri] s_fragment = true ∧
  exit_on tb (s_slash :: f_path) 63 [a_request_path] s_query = true ∧
  enters tb (uri_shapes "/?") s_query [a_start_query] f_query = true ∧ closed tb (uri_shapes "/?") f_query = true ∧
  exit_on tb f_query 32 [a_query_string; a_request_uri] s_version = true ∧
  exit_on tb f_query 35 [a_query_string; a_request_uri] s_fragment = true ∧
  enters tb (uri_shapes "/?") s_fragment [a_mark] f_fragment = true ∧ closed tb (uri_shapes "/?") f_fragment = true ∧
  exit_on tb f_fragment 32 [a_fragment] s_version = true.
Proof. destruct relaxed; vm_compute; repeat split. Qed.

(** The transitions on the lines of the header. *)
Lemma line_checks relaxed :
  let tb := the_table relaxed in
  enters tb [[name_cls]] s_lines [a_start_field] f_name = true ∧ enters tb [[name_cls]] s_line [a_start_field] f_name = true ∧
  closed tb [[name_cls]] f_name = true ∧ exit_on tb f_name 58 [a_write_field] s_colon = true ∧
  trans tb s_colon 32 = Some ([a_start_value], s_blank) ∧
  enters tb [[value_first]] s_blank [a_start_value] f_value = true ∧ closed tb [[value_cls]] f_value = true ∧
  exit_on tb f_value 13 [a_write_value] s_cr = true ∧ trans tb s_blank 13 = Some ([a_start_value; a_write_value], s_cr) ∧
  trans tb s_cr 10 = Some ([], s_line) ∧ trans tb s_lines 13 = Some ([a_start_field], s_last) ∧
  trans tb s_line 13 = Some ([a_start_field], s_last) ∧ trans tb s_last 10 = Some ([a_done], s_done).
Proof. destruct relaxed; vm_compute; repeat split. Qed.

(** ** The events of a request *)

Lemma print_lines_cons name value lines :
  print_lines ((name, value) :: lines) = name ++ text ": " ++ value ++ crlf ++ print_lines lines.
Proof. unfold print_lines. rewrite fmap_cons. cbn [mjoin list_join fst snd]. by rewrite <-!(assoc_L (++)). Qed.

Lemma LEN_ok a b : (a <= b)%nat → LEN a b = Ok (b - a)%nat.
Proof. intros. unfold LEN. by rewrite decide_False by lia. Qed.

(** The actions of a transition, whose marks are behind it. *)
Ltac perform_all := simpl; repeat (rewrite LEN_ok by (simpl; lia); simpl); reflexivity.

(** Equal up to the arithmetic of positions. *)
Ltac ev_eq := repeat match goal with |- ?x = ?x => reflexivity | |- @eq nat _ _ => repeat (progress (rewrite ?length_app; simpl)); lia | |- _ => progress f_equal end.

Ltac pos_eq := split; [apply exec_eq; simpl; rewrite ?app_nil_r, ?length_app; simpl; unfold PTR_TO; simpl; ev_eq|split_and!; reflexivity].

(** What the lines and the actions before them leave alone. *)
Definition keeps (m m' : http_parser) : Prop :=
  uri_relaxed m' = uri_relaxed m ∧ xml_sent m' = xml_sent m ∧ json_sent m' = json_sent m.

Lemma keeps_trans m1 m2 m3 : keeps m1 m2 → keeps m2 m3 → keeps m1 m3.
Proof. intros (?&?&?) (?&?&?). split_and!; congruence. Qed.

Section request.
Context (B : list Z) (relaxed : bool).
#[local] Abbreviation tb := (the_table relaxed).
#[local] Abbreviation exec := (exec_loop tb (perform B)).

(** The events of a URI that begins at [p]. *)
Definition uri_events (p : nat) (path query fragment : list Z) : list event :=
  let q := (p + length path)%nat in
  let r := (q + length (optional "?" query))%nat in
  [EvPath (drop p B) (length path)] ++
  (if decide (query = []) then [] else [EvQuery (drop (S q) B) (length query)]) ++
  [EvUri (drop p B) (r - p)] ++
  (if decide (fragment = []) then [] else [EvFragment (drop (S r) B) (length fragment)]).

Lemma path_quiet w : (match w with 47 :: _ => false | _ => uri_text "/" w end) = true →
  ∃ s, quiet tb s_slash w = Some s ∧ s ∈ s_slash :: f_path.
Proof.
  intros Hw. destruct (decide (w = [])) as [->|Hne]; [exists s_slash; by split; [|left]|].
  destruct (uri_checks relaxed) as (_ & He & Hc & _).
  destruct (enters_run _ _ _ _ _ _ w He Hc (path_first w Hw Hne)) as (c & w' & s1 & s2 & -> & Ht & Hq & Hs).
  exists s2. split; [|by right]. simpl. by rewrite Ht.
Qed.

(** From the end of the path on: a query. *)
Lemma query_run s p query v m evs c s' : s ∈ s_slash :: f_path → query ≠ [] → uri_text "/?" query = true →
  (c = 32 ∧ s' = s_version ∨ c = 35 ∧ s' = s_fragment) → (mark m <= p)%nat →
  ∃ m', exec s p (63 :: query ++ c :: v) m evs =
    exec s' (p + length query + 2) v m'
      (evs ++ [EvPath (drop (mark m) B) (p - mark m); EvQuery (drop (S p) B) (length query);
               EvUri (drop (mark m) B) (p + length query + 1 - mark m)]) ∧
    keeps m m'.
Proof.
  intros Hs Hne Hq Hc Hm. destruct (uri_checks relaxed) as (_ & _ & _ & _ & _ & H63 & He & Hcl & H32 & H35 & _).
  destruct (enters_run _ _ _ _ _ _ query He Hcl (uri_text_from _ _ Hq Hne)) as (d & w & s1 & s2 & -> & Ht & Hw & Hs2).
  assert (trans tb s2 c = Some ([a_query_string; a_request_uri], s')) as Hx
    by (destruct Hc as [[-> ->]|[-> ->]]; [by apply (exit_spec _ _ _ _ _ _ H32)|by apply (exit_spec _ _ _ _ _ _ H35)]).
  eexists. erewrite (exec_step _ _ _ _ _ _ (exit_spec _ _ _ _ _ _ H63 Hs)); [|perform_all].
  rewrite <-app_comm_cons. erewrite (exec_step _ _ _ _ _ _ Ht); [|perform_all].
  rewrite (exec_quiet _ _ _ _ _ Hw). erewrite (exec_step _ _ _ _ _ _ Hx); [|perform_all].
  rewrite <-!(assoc_L (++)). pos_eq.
Qed.

(** A fragment. *)
Lemma fragment_run p fragment v m evs : fragment ≠ [] → uri_text "/?" fragment = true →
  ∃ m', exec s_fragment p (fragment ++ 32 :: v) m evs =
    exec s_version (p + length fragment + 1) v m' (evs ++ [EvFragment (drop p B) (length fragment)]) ∧ keeps m m'.
Proof.
  intros Hne Hf. destruct (uri_checks relaxed) as (_ & _ & _ & _ & _ & _ & _ & _ & _ & _ & He & Hcl & H32).
  destruct (enters_run _ _ _ _ _ _ fragment He Hcl (uri_text_from _ _ Hf Hne)) as (d & w & s1 & s2 & -> & Ht & Hw & Hs2).
  eexists. rewrite <-app_comm_cons. erewrite (exec_step _ _ _ _ _ _ Ht); [|perform_all].
  rewrite (exec_quiet _ _ _ _ _ Hw). erewrite (exec_step _ _ _ _ _ _ (exit_spec _ _ _ _ _ _ H32 Hs2)); [|perform_all].
  rewrite <-?(assoc_L (++)). pos_eq.
Qed.

(** The URI of the request line. *)
Lemma uri_run p path query fragment v m evs :
  path_text path = true → uri_text "/?" query = true → uri_text "/?" fragment = true →
  ∃ m', exec s_uri p (path ++ optional "?" query ++ optional "#" fragment ++ 32 :: v) m evs =
    exec s_version (p + length (path ++ optional "?" query ++ optional "#" fragment) + 1) v m' (evs ++ uri_events p path query fragment) ∧
    keeps m m'.
Proof.
  intros Hp Hq Hf. destruct path as [|c path]; [done|]. assert (c = 47 ∧ (match path with 47 :: _ => false | _ => uri_text "/" path end) = true)
    as [-> Hpath] by (destruct c as [|c|c]; try done; repeat (destruct c; try done)).
  destruct (path_quiet path Hpath) as (s & Hw & Hs). destruct (uri_checks relaxed) as (H47 & _ & _ & H32 & H35 & _).
  rewrite <-app_comm_cons. assert (∀ v, exec s_uri p (47 :: v) m evs = exec s_slash (S p) v (set_mark m p) evs) as ->
    by (intros; erewrite (exec_step _ _ _ _ _ _ H47); [|perform_all]; by rewrite app_nil_r).
  rewrite (exec_quiet _ _ _ _ _ Hw).
  set (m1 := set_mark m p). assert (mark m1 = p) as Hm1 by done. unfold uri_events, optional.
  change (text "?") with [63]. change (text "#") with [35].
  destruct (decide (query = [])) as [->|Hqne], (decide (fragment = [])) as [->|Hfne]; simpl app.
  - eexists. erewrite (exec_step _ _ _ _ _ _ (exit_spec _ _ _ _ _ _ H32 Hs)); [|perform_all].
    rewrite <-?(assoc_L (++)). pos_eq.
  - erewrite (exec_step _ _ _ _ _ _ (exit_spec _ _ _ _ _ _ H35 Hs)); [|perform_all].
    edestruct fragment_run as (m' & -> & ?); [done|done|]. exists m'. split; [|done]. unfold PTR_TO. rewrite <-(assoc_L (++)).
    simpl. rewrite !length_app. simpl. ev_eq.
  - destruct (query_run s (S p + length path) query v m1 evs 32 s_version Hs Hqne Hq (or_introl (conj eq_refl eq_refl)) ltac:(lia))
      as (m' & E & ?). exists m'. rewrite E. split; [|done]. simpl. rewrite !app_nil_r, !length_app. simpl. ev_eq.
  - destruct (query_run s (S p + length path) query (fragment ++ 32 :: v) m1 evs 35 s_fragment Hs Hqne Hq (or_intror (conj eq_refl eq_refl)) ltac:(lia))
      as (m' & E & Hk). rewrite E. edestruct fragment_run as (m2 & -> & Hk2); [done|done|].
    exists m2. split; [|exact (keeps_trans m1 m' m2 Hk Hk2)]. rewrite <-(assoc_L (++)). simpl.
    rewrite !length_app. simpl. ev_eq.
Qed.

(** The version, to the end of the request line. *)
Lemma version_run v p rest m evs : v = 17 ∨ v = 16 →
  ∃ m', exec s_version p (print_version v ++ crlf ++ rest) m evs =
    exec s_lines (p + 10) rest m' (evs ++ [EvVersion (drop p B) 8]) ∧ keeps m m'.
Proof.
  intros Hv. assert (∃ s1 s2 s3, trans tb s_version 72 = Some ([a_mark], s1) ∧ quiet tb s1 (drop 1 (print_version v)) = Some s2 ∧
    trans tb s2 13 = Some ([a_http_version], s3) ∧ trans tb s3 10 = Some ([], s_lines)) as (s1 & s2 & s3 & H1 & H2 & H3 & H4).
  { exists (after tb s_version [72]), (after tb s_version (print_version v)), (after tb s_version (print_version v ++ [13])).
    destruct Hv as [-> | ->], relaxed; vm_compute; by repeat split. }
  assert (print_version v = 72 :: drop 1 (print_version v) ∧ length (drop 1 (print_version v)) = 7%nat) as [-> Hl]
    by (by destruct Hv as [-> | ->]; vm_compute).
  set (w := drop 1 (print_version v)) in *. clearbody w. simpl in Hl. rewrite ?drop_0 in Hl.
  eexists. rewrite <-app_comm_cons. erewrite (exec_step _ _ _ _ _ _ H1); [|perform_all]. rewrite (exec_quiet _ _ _ _ _ H2).
  unfold crlf. simpl app. erewrite (exec_step _ _ _ _ _ _ H3); [|perform_all]. erewrite (exec_step _ _ _ _ _ _ H4); [|perform_all].
  rewrite <-?(assoc_L (++)). pos_eq.
Qed.

(** A line of the header. *)
Lemma line_run s name value p rest m evs : s = s_lines ∨ s = s_line → name_text name = true → value_text value = true →
  ∃ m', exec s p (name ++ text ": " ++ value ++ crlf ++ rest) m evs =
    exec s_line (p + length name + length value + 4) rest m'
      (evs ++ [EvField (drop p B) (length name) (drop (p + length name + 2) B) (length value)]) ∧ keeps m m'.
Proof.
  intros Hs Hn Hv. destruct (line_checks relaxed) as (He1 & He2 & Hcl & H58 & H32 & Hev & Hclv & H13 & H13' & H10 & _).
  assert (enters tb [[name_cls]] s [a_start_field] f_name = true) as He by (destruct Hs as [-> | ->]; assumption).
  destruct (enters_run _ _ _ _ _ _ name He Hcl (name_from _ Hn)) as (c & w & s1 & s2 & -> & Ht & Hw & Hs2).
  change (text ": ") with [58; 32]. eexists. rewrite <-app_comm_cons. erewrite (exec_step _ _ _ _ _ _ Ht); [|perform_all].
  rewrite (exec_quiet _ _ _ _ _ Hw). simpl app. erewrite (exec_step _ _ _ _ _ _ (exit_spec _ _ _ _ _ _ H58 Hs2)); [|perform_all].
  erewrite (exec_step _ _ _ _ _ _ H32); [|perform_all]. destruct value as [|d value].
  - simpl app. erewrite (exec_step _ _ _ _ _ _ H13'); [|perform_all]. erewrite (exec_step _ _ _ _ _ _ H10); [|perform_all].
    rewrite <-?(assoc_L (++)). pos_eq.
  - destruct (enters_run _ _ _ _ _ _ (d :: value) Hev Hclv (value_from _ _ Hv)) as (? & ? & s3 & s4 & [= <- <-] & Ht2 & Hw2 & Hs4).
    rewrite <-app_comm_cons. erewrite (exec_step _ _ _ _ _ _ Ht2); [|perform_all]. rewrite (exec_quiet _ _ _ _ _ Hw2). unfold crlf. simpl app.
    erewrite (exec_step _ _ _ _ _ _ (exit_spec _ _ _ _ _ _ H13 Hs4)); [|perform_all]. erewrite (exec_step _ _ _ _ _ _ H10); [|perform_all].
    rewrite <-?(assoc_L (++)). pos_eq.
Qed.

(** The method. *)
Lemma method_run meth rest m : meth ≠ INVAILD_METHOD → meth ≠ MSEARCH →
  ∃ m', exec start 0 (HttpMethodToString meth ++ 32 :: rest) m [] =
    exec s_uri (length (HttpMethodToString meth) + 1) rest m' [EvMethod B (length (HttpMethodToString meth))] ∧ keeps m m'.
Proof.
  intros H1 H2. set (name := HttpMethodToString meth).
  assert (trans tb start (hd 0 name) = Some ([a_mark], after tb start (take 1 name)) ∧
    quiet tb (after tb start (take 1 name)) (drop 1 name) = Some (after tb start name) ∧
    trans tb (after tb start name) 32 = Some ([a_request_method], s_uri) ∧ name = hd 0 name :: drop 1 name) as (T1 & Q & T2 & Hn).
  { unfold name. clear name. destruct meth; try done; destruct relaxed; vm_compute; by repeat split. }
  revert T1 Q T2 Hn. generalize (after tb start (take 1 name)), (after tb start name), (hd 0 name), (drop 1 name).
  intros s1 s2 c w T1 Q T2 ->. eexists. rewrite <-app_comm_cons. erewrite (exec_step _ _ _ _ _ _ T1); [|perform_all].
  rewrite (exec_quiet _ _ _ _ _ Q). erewrite (exec_step _ _ _ _ _ _ T2); [|perform_all]. pos_eq.
Qed.

(** The lines, and the empty line after them. *)
Fixpoint line_events (p : nat) (lines : list (list Z * list Z)) : list event :=
  match lines with
  | [] => []
  | (name, value) :: lines =>
    EvField (drop p B) (length name) (drop (p + length name + 2) B) (length value)
      :: line_events (p + length name + length value + 4) lines
  end.

Definition line_ok (kv : list Z * list Z) : Prop := name_text kv.1 = true ∧ value_text kv.2 = true.

Lemma lines_run lines rest : ∀ s p m evs, s = s_lines ∨ s = s_line → Forall line_ok lines →
  ∃ s' m', exec s p (print_lines lines ++ rest) m evs =
    exec s' (p + length (print_lines lines)) rest m' (evs ++ line_events p lines) ∧ keeps m m' ∧ (s' = s_lines ∨ s' = s_line).
Proof.
  induction lines as [|[name value] lines IH]; intros s p m evs Hs Hl.
  - exists s, m. simpl. rewrite Nat.add_0_r, app_nil_r. split_and!; by try done.
  - apply Forall_cons in Hl as [[Hn Hv] Hl]. simpl in Hn, Hv.
    rewrite print_lines_cons, <-!(assoc_L (++)). destruct (line_run s name value p (print_lines lines ++ rest) m evs Hs Hn Hv) as (m1 & -> & Hk1).
    destruct (IH s_line (p + length name + length value + 4)%nat m1
      (evs ++ [EvField (drop p B) (length name) (drop (p + length name + 2) B) (length value)]) ltac:(by right) Hl) as (s' & m2 & -> & Hk2 & Hs').
    exists s', m2. split_and!; [|by apply (keeps_trans m m1 m2)|done]. apply exec_eq; [|by rewrite <-(assoc_L (++))].
    rewrite !length_app. change (length (text ": ")) with 2%nat. change (length crlf) with 2%nat. lia.
Qed.

Lemma end_run s rest p m evs : s = s_lines ∨ s = s_line → xml_sent m = false → json_sent m = false →
  ∃ m', exec s p (crlf ++ rest) m evs = Ok (s_done, m', evs ++ [EvHeaderDone], (p + 2)%nat) ∧ uri_relaxed m' = uri_relaxed m.
Proof.
  intros Hs Hx Hj. destruct (line_checks relaxed) as (_ & _ & _ & _ & _ & _ & _ & _ & _ & _ & H1 & H2 & H10).
  assert (trans tb s 13 = Some ([a_start_field], s_last)) as H13 by (destruct Hs as [-> | ->]; assumption).
  eexists. unfold crlf. simpl app. erewrite (exec_step _ _ _ _ _ _ H13); [|perform_all].
  erewrite (exec_break _ _ _ _ _ _ H10); [|simpl; rewrite Hx, Hj; reflexivity]. split; [by rewrite app_nil_r, (Nat.add_comm p 2)|reflexivity].
Qed.
End request.

(** ** The whole header *)

(** The marks stay behind [p]: what the assertions at the end of the code say. *)
Definition marks_ok (p : nat) (m : http_parser) : Prop :=
  (mark m <= pred p ∧ field_start m <= pred p ∧ field_len m <= pred p ∧ body_start m <= p)%nat.

Lemma perform_marks B a p m m' ev b :
  marks_ok (S p) m → perform B a p m = Ok (m', ev, b) → marks_ok (S p) m'.
Proof.
  unfold marks_ok. destruct m as [cs0 bs cl nr mk fs fl qs xs js ur]. simpl. intros (? & ? & ? & ?).
  destruct a; simpl; unfold LEN; repeat case_decide; simpl; try done; try (intros [= <- <- <-]; simpl; lia).
  destruct (xs || js); intros [= <- <- <-]; simpl; lia.
Qed.

Lemma execute_marks B p0 s m evs q off :
  (off <= length B)%nat → marks_ok off p0 → exec_loop (table_of p0) (perform B) (cs p0) off (drop off B) p0 [] = Ok (s, m, evs, q) →
  marks_ok q m ∧ (off <= q <= length B)%nat.
Proof.
  intros Hoff H0 E. split.
  - apply (exec_inv _ _ marks_ok (λ _, True)) in E as [? _]; [done| | |done|done].
    + intros ? ? (? & ? & ? & ?). unfold marks_ok. lia.
    + intros. split; [by eapply perform_marks|]. by apply Forall_true.
  - apply exec_range in E. rewrite length_drop in E. lia.
Qed.

(** A run of the loop from the beginning of a buffer gives the result. *)
Lemma execute_from_loop B p s m evs q :
  B ≠ [] → (body_start p <= length B)%nat →
  let p1 := mkParser (cs p) (body_start p) (content_len p) 0 0 0 0 (query_start p) (xml_sent p) (json_sent p) (uri_relaxed p) in
  exec_loop (table_of p1) (perform B) (cs p1) 0 B p1 [] = Ok (s, m, evs, q) → (body_start p = 0)%nat →
  http_parser_execute B p 0 = Ok (set_state m s (nread m + q), evs, (nread m + q)%nat) ∧ (nread m + q = q)%nat.
Proof.
  intros HB Hb p1 E Hb0. assert (0 < length B)%nat as Hlen by (destruct B; [done|simpl; lia]).
  destruct (execute_marks B p1 s m evs q 0 ltac:(lia)) as [(H1 & H2 & H3 & H4) Hq]; [unfold marks_ok; simpl; lia|done|].
  assert (nread m = 0%nat) as Hn.
  { apply (exec_inv _ _ (λ _ m, nread m = 0%nat) (λ _, True)) in E as [? _]; [done|done| |done|done].
    intros a ? m1 m2 ? ? Hm Ep. split; [|by apply Forall_true]. revert Ep. destruct a; simpl; unfold LEN; repeat case_decide; simpl; try done;
      try (by intros [= <- <- <-]). by destruct (xml_sent m1 || json_sent m1); intros [= <- <- <-]. }
  unfold http_parser_execute. rewrite decide_False by lia. rewrite bool_decide_true by lia. osimpl. fold p1. rewrite drop_0, E. osimpl.
  rewrite Nat.sub_0_r. unfold sylar_assert. simpl. rewrite !bool_decide_true by lia. simpl. split; [done|lia].
Qed.

(** A request that the grammar can carry. *)
Record request_ok (req : HttpRequest) : Prop := {
  ok_method : m_method req ≠ INVAILD_METHOD ∧ m_method req ≠ MSEARCH;
  ok_version : m_version req = 17 ∨ m_version req = 16;
  ok_path : path_text (m_path req) = true;
  ok_query : uri_text "/?" (m_query req) = true;
  ok_fragment : uri_text "/?" (m_fragment req) = true;
  ok_lines : Forall line_ok (request_lines req)
}.

(** The text of a request up to its body. *)
Definition head_text (req : HttpRequest) : list Z :=
  HttpMethodToString (m_method req) ++ text " " ++ m_path req ++ optional "?" (m_query req) ++
  optional "#" (m_fragment req) ++ text " " ++ print_version (m_version req) ++ crlf ++
  print_lines (request_lines req) ++ crlf.

Lemma dump_head req : dump req = head_text req ++ m_body req.
Proof. unfold dump, head_text. by rewrite <-!(assoc_L (++)). Qed.

(** Where the parts of the header begin. *)
Definition uri_at (req : HttpRequest) : nat := (length (HttpMethodToString (m_method req)) + 1)%nat.
Definition uri_len (req : HttpRequest) : nat := length (m_path req ++ optional "?" (m_query req) ++ optional "#" (m_fragment req)).
Definition version_at (req : HttpRequest) : nat := (uri_at req + uri_len req + 1)%nat.

Definition request_events (B : list Z) (req : HttpRequest) : list event :=
  [EvMethod B (length (HttpMethodToString (m_method req)))] ++
  uri_events B (uri_at req) (m_path req) (m_query req) (m_fragment req) ++
  [EvVersion (drop (version_at req) B) 8] ++
  line_events B (version_at req + 10) (request_lines req) ++ [EvHeaderDone].

Lemma head_run req B tail m :
  request_ok req → xml_sent m = false → json_sent m = false → B = head_text req ++ tail →
  ∃ m', exec_loop (the_table (uri_relaxed m)) (perform B) start 0 B m [] = Ok (s_done, m', request_events B req, length (head_text req)) ∧
    uri_relaxed m' = uri_relaxed m.
Proof.
  intros [[Hm1 Hm2] Hv Hp Hq Hf Hl] Hx Hj HB.
  assert (exec_loop (the_table (uri_relaxed m)) (perform B) start 0 B m [] =
    exec_loop (the_table (uri_relaxed m)) (perform B) start 0 (head_text req ++ tail) m []) as -> by (by rewrite <-HB).
  clear HB. unfold head_text. rewrite <-!(assoc_L (++)). change (text " ") with [32]. cbn [app].
  destruct (method_run B (uri_relaxed m) (m_method req)
    (m_path req ++ optional "?" (m_query req) ++ optional "#" (m_fragment req) ++ 32 :: print_version (m_version req) ++ crlf ++
     print_lines (request_lines req) ++ crlf ++ tail) m Hm1 Hm2) as (m1 & -> & K1).
  edestruct uri_run as (m2 & -> & K2); [done|done|done|]. edestruct version_run as (m3 & -> & K3); [done|].
  edestruct lines_run as (s & m4 & -> & K4 & Hs); [by left|done|].
  destruct (keeps_trans _ _ _ (keeps_trans _ _ _ (keeps_trans _ _ _ K1 K2) K3) K4) as (Kr & Kx & Kj).
  edestruct end_run as (m5 & -> & Hr); [done|by rewrite Kx|by rewrite Kj|]. exists m5. split; [|by rewrite Hr].
  f_equal. unfold request_events. f_equal; [f_equal|].
  - rewrite <-!(assoc_L (++)). done.
  - assert (length (print_version (m_version req)) = 8%nat) as Hv8 by (by destruct Hv as [-> | ->]; vm_compute).
    repeat (rewrite length_app; cbn [length]). change (length crlf) with 2%nat. lia.
Qed.

(** What the callbacks make of the events. *)
Section effect.
Context (eng : Engine).

Lemma string_at (pre w post B : list Z) n : B = pre ++ w ++ post → n = length pre → std_string (drop n B) (length w) = Ok w.
Proof.
  intros -> ->. unfold std_string. rewrite drop_app_length, decide_True by (rewrite length_app; lia). by rewrite take_app_length.
Qed.

Definition set_headers (d : HttpRequest) (h : list (list Z * list Z)) : HttpRequest := set_maps d h (m_params d) (m_cookies d).

Lemma lines_effect lines : ∀ pre post B (rp : HttpRequestParser eng), B = pre ++ print_lines lines ++ post → Forall line_ok lines →
  ofoldl (on_request eng) rp (line_events B (length pre) lines) =
  Ok (rp_setData eng rp (set_headers (rp_data eng rp) (foldl (λ h kv, h_set h kv.1 kv.2) (m_headers (rp_data eng rp)) lines))).
Proof.
  induction lines as [|[name value] lines IH]; intros pre post B rp HB Hl; [by destruct rp as [? [] ?]|].
  apply Forall_cons in Hl as [[Hn Hv] Hl]. simpl in Hn, Hv.
  rewrite print_lines_cons, <-!(assoc_L (++)) in HB. cbn [line_events ofoldl on_request]. unfold on_request_http_field.
  rewrite decide_False by (destruct name; simpl in *; [done|lia]).
  rewrite (string_at pre name _ B _ HB eq_refl).
  rewrite (string_at (pre ++ name ++ text ": ") value (crlf ++ print_lines lines ++ post) B)
    by (rewrite ?HB, <-?(assoc_L (++)), ?length_app; change (length (text ": ")) with 2%nat; done || lia).
  osimpl. replace (length pre + length name + length value + 4)%nat with (length (pre ++ name ++ text ": " ++ value ++ crlf))
    by (rewrite !length_app; change (length (text ": ")) with 2%nat; change (length crlf) with 2%nat; lia).
  rewrite (IH _ post B); [done| |done]. by rewrite HB, <-!(assoc_L (++)).
Qed.

Lemma uri_effect pre path query fragment post B (rp : HttpRequestParser eng) :
  B = pre ++ path ++ optional "?" query ++ optional "#" fragment ++ post →
  m_query (rp_data eng rp) = [] → m_fragment (rp_data eng rp) = [] →
  ofoldl (on_request eng) rp (uri_events B (length pre) path query fragment) =
  Ok (rp_setData eng rp (set_line (rp_data eng rp) (m_method (rp_data eng rp)) (m_version (rp_data eng rp)) path query fragment)).
Proof.
  intros HB Hq0 Hf0. unfold uri_events. rewrite !ofoldl_app. cbn [ofoldl on_request]. unfold on_request_path at 1.
  rewrite (string_at pre path _ B _ HB eq_refl). osimpl. revert HB. unfold optional.
  change (text "?") with [63]. change (text "#") with [35]. intros HB.
  destruct (decide (query = [])) as [->|_], (decide (fragment = [])) as [->|_]; cbn [ofoldl on_request app] in *;
    unfold on_request_query, on_request_fragment.
  - destruct rp as [m [] e]. simpl in *. by subst.
  - rewrite (string_at (pre ++ path ++ [35]) fragment post B) by (rewrite ?HB, <-?(assoc_L (++)), ?length_app; simpl; done || lia).
    destruct rp as [m [] e]. simpl in *. by subst.
  - rewrite (string_at (pre ++ path ++ [63]) query post B) by (rewrite ?HB, <-?(assoc_L (++)), ?length_app; simpl; done || lia).
    destruct rp as [m [] e]. simpl in *. by subst.
  - rewrite (string_at (pre ++ path ++ [63]) query (35 :: fragment ++ post) B) by (rewrite ?HB, <-?(assoc_L (++)), ?length_app; simpl; done || lia).
    rewrite (string_at (pre ++ path ++ 63 :: query ++ [35]) fragment post B)
      by (rewrite ?HB, <-?(assoc_L (++)), ?length_app; simpl; rewrite <-?(assoc_L (++)), ?length_app; simpl; rewrite ?length_app; simpl; done || lia).
    by destruct rp as [m d e].
Qed.

Lemma version_effect (v : Z) (post : list Z) : v = 17 ∨ v = 16 → parse_version (print_version v ++ post) 8 = Some v.
Proof.
  intros Hv. unfold parse_version, strncmp_eq. assert (c_str (print_version v ++ post) = print_version v ++ c_str post) as ->
    by (by destruct Hv as [-> | ->]). assert (length (print_version v) = 8%nat) as Hl by (by destruct Hv as [-> | ->]; vm_compute).
  rewrite <-(assoc_L (++)), <-Hl, take_app_length. by destruct Hv as [-> | ->]; vm_compute.
Qed.
End effect.

(** The request that the server makes of a header. *)
Definition received (req : HttpRequest) : HttpRequest :=
  mkRequest (m_method req) (m_version req) true false (m_path req) (m_query req) (m_fragment req) []
    (foldl (λ h kv, h_set h kv.1 kv.2) [] (request_lines req)) [] [].

Lemma request_effect (eng : Engine) req tail B (m : machine eng) :
  request_ok req → B = head_text req ++ tail →
  ofoldl (on_request eng) (mkRequestParser eng m (HttpRequest_new 17 true) 0) (request_events B req) =
  Ok (mkRequestParser eng m (received req) 0).
Proof.
  intros [[Hm1 Hm2] Hv Hp Hq Hf Hl] HB. unfold head_text in HB. rewrite <-!(assoc_L (++)) in HB.
  unfold request_events. rewrite !ofoldl_app.
  assert (CharsToHttpMethod B = m_method req) as HM.
  { rewrite HB. destruct (method_names (m_method req) (text " " ++ m_path req ++ optional "?" (m_query req) ++ optional "#" (m_fragment req) ++
      text " " ++ print_version (m_version req) ++ crlf ++ print_lines (request_lines req) ++ crlf ++ tail)) as [?|[_ E]]; [done|exact E]. }
  cbn [ofoldl on_request]. unfold on_request_method at 1. rewrite HM, decide_False by done. osimpl. unfold rp_setData at 1. cbn [rp_parser rp_data rp_error].
  replace (uri_at req) with (length (HttpMethodToString (m_method req) ++ text " ")) by (by rewrite length_app).
  rewrite ofoldl_app, (uri_effect eng _ _ _ _ (text " " ++ print_version (m_version req) ++ crlf ++ print_lines (request_lines req) ++ crlf ++ tail) B)
    by (try done; by rewrite HB, <-!(assoc_L (++))).
  unfold rp_setData at 1. cbn [rp_parser rp_data rp_error]. set (pre := HttpMethodToString (m_method req) ++ text " " ++ m_path req ++
    optional "?" (m_query req) ++ optional "#" (m_fragment req) ++ text " ").
  assert (version_at req = length pre) as ->
    by (unfold version_at, uri_at, uri_len, pre; rewrite !length_app; change (length (text " ")) with 1%nat; lia).
  assert (B = pre ++ print_version (m_version req) ++ crlf ++ print_lines (request_lines req) ++ crlf ++ tail) as HB2
    by (unfold pre; by rewrite HB, <-!(assoc_L (++))).
  rewrite ofoldl_app. cbn [ofoldl on_request]. unfold on_request_version at 1.
  assert (drop (length pre) B = print_version (m_version req) ++ crlf ++ print_lines (request_lines req) ++ crlf ++ tail) as ->
    by (by rewrite HB2, drop_app_length). rewrite version_effect by done. osimpl.
  unfold rp_setData at 1. cbn [rp_parser rp_data rp_error].
  replace (length pre + 10)%nat with (length (pre ++ print_version (m_version req) ++ crlf))
    by (rewrite !length_app; change (length crlf) with 2%nat; assert (length (print_version (m_version req)) = 8%nat) as ->
      by (by destruct Hv as [-> | ->]; vm_compute); lia).
  rewrite ofoldl_app, (lines_effect eng _ _ (crlf ++ tail) B) by (try done; by rewrite HB2, <-!(assoc_L (++))). done.
Qed.

(** ** From the client to the server *)

(** The machine as the parser of [HttpParser]. *)
Definition http11_engine (p0 : http_parser) : Engine :=
  mkEngine http_parser (http_parser_init p0)
    (λ p data, http_parser_execute data p 0)
    http_parser_has_error http_parser_is_finished (λ _, false) (λ _, 0) (λ _, false).

Lemma head_nonempty req tail : head_text req ++ tail ≠ [].
Proof. unfold head_text. intros H%(f_equal length). rewrite !length_app in H. change (length crlf) with 2%nat in H. simpl in H. lia. Qed.

(** The parser of a connection on a buffer that begins with a whole header. *)
Lemma rp_execute_request p0 req tail :
  request_ok req →
  ∃ m, rp_execute (http11_engine p0) (HttpRequestParser_new (http11_engine p0)) (head_text req ++ tail) =
    Ok (mkRequestParser (http11_engine p0) m (received req) 0, length (head_text req), tail) ∧
    http_parser_has_error m = false ∧ http_parser_is_finished m = true.
Proof.
  intros Hok. set (B := head_text req ++ tail). unfold rp_execute. cbn [e_execute http11_engine rp_parser HttpRequestParser_new e_init].
  destruct (head_run req B tail (http_parser_init p0) Hok eq_refl eq_refl eq_refl) as (m & E & Hr).
  destruct (execute_from_loop B (http_parser_init p0) s_done m (request_events B req) (length (head_text req))) as [-> ->];
    [apply head_nonempty|simpl; lia|exact E|done|]. osimpl.
  assert (drop (length (head_text req)) B = tail) as -> by apply drop_app_length. eexists. split; [|split].
  - unfold HttpRequestParser_new. rewrite (request_effect (http11_engine p0) req tail B _ Hok eq_refl). osimpl. done.
  - done.
  - unfold http_parser_is_finished, table_of. simpl. rewrite Hr. simpl. by destruct (uri_relaxed p0).
Qed.

Lemma recv_body_healthy {mem : Memory} st data body rest :
  healthy st → data ++ s_in st = body ++ rest → 0 < Z.of_nat (length body) < 2 ^ 31 → Z.of_nat (length body) <= memory →
  ∃ st', recv_body st data (Z.of_nat (length body)) = Ok (Some body, st') ∧ s_out st' = s_out st ∧ healthy st'.
Proof.
  intros Hh Hin Hn Hmem. unfold recv_body. rewrite (decide_False (P := memory < _)) by lia. destruct (decide (Z.of_nat (length data) <= Z.of_nat (length body))) as [Hle|Hle].
  - rewrite take_ge by lia. assert (body = data ++ drop (length data) body ∧ s_in st = drop (length data) body ++ rest) as [Hb Hr].
    { assert (take (length data) (body ++ rest) = data) as Ht by (by rewrite <-Hin, take_app_length).
      rewrite take_app_le in Ht by lia. split; [by rewrite <-Ht at 1; rewrite take_drop|].
      assert (drop (length data) (body ++ rest) = s_in st) as Hd by (by rewrite <-Hin, drop_app_length). by rewrite <-Hd, drop_app_le by lia. }
    set (more := drop (length data) body) in *. case_decide as Hmore.
    + replace (Z.of_nat (length body) - Z.of_nat (length data)) with (Z.of_nat (length more)) in * by (unfold more; rewrite length_drop; lia).
      destruct (readFixSize_healthy st more rest Hh Hr) as (st' & -> & _ & Ho & Hh'); [unfold more; rewrite length_drop; lia|]. osimpl.
      rewrite decide_False by lia. exists st'. split_and!; [|done|done]. do 3 f_equal. rewrite !Nat2Z.id.
      rewrite (overwrite_overwrite 0 data) by lia. rewrite <-Hb. apply overwrite_all. by rewrite length_replicate.
    + exists st. split_and!; [|done|done]. do 3 f_equal. assert (more = []) as Hm by (apply nil_length_inv; unfold more; rewrite length_drop; lia).
      rewrite Hm, app_nil_r in Hb. rewrite Hb. apply overwrite_all. rewrite length_replicate. lia.
  - rewrite decide_False by lia. exists st. split_and!; [|done|done]. do 3 f_equal. rewrite !Nat2Z.id.
    assert (take (length body) data = body) as ->.
    { assert (take (length body) (data ++ s_in st) = body) as Ht by (by rewrite Hin, take_app_length). by rewrite take_app_le in Ht by lia. }
    apply overwrite_all. by rewrite length_replicate.
Qed.

(** The content length that the server finds. *)
Lemma lines_find (lines : list (list Z * list Z)) (key : list Z) : ∀ h,
  map_ok fold_case bytes_lt h → Forall (λ kv, fold_case key ≠ fold_case kv.1) lines →
  map_ok fold_case bytes_lt (foldl (λ h kv, h_set h kv.1 kv.2) h lines) ∧
  h_find (foldl (λ h kv, h_set h kv.1 kv.2) h lines) key = h_find h key.
Proof.
  induction lines as [|[name value] lines IH]; intros h Hh Hl; [done|]. apply Forall_cons in Hl as [Hne Hl]. simpl in *.
  destruct (IH (h_set h name value)) as [H1 H2]; [by apply map_set_ok; [apply bytes_lt_strict|]|done|].
  split; [done|]. rewrite H2. by apply map_find_set_ne; [apply bytes_lt_strict| |].
Qed.

Definition no_length (req : HttpRequest) : Prop :=
  Forall (λ kv, fold_case (text "content-length") ≠ fold_case kv.1) (m_headers req).

Lemma received_length cast_u64 eng (m : machine eng) req :
  no_length req → (∀ n, 0 <= n < 2 ^ 64 → cast_u64 (dec n) = Some n) → Z.of_nat (length (m_body req)) < 2 ^ 64 →
  rp_getContentLength eng cast_u64 (mkRequestParser eng m (received req) 0) = Z.of_nat (length (m_body req)).
Proof.
  intros Hno Hcast Hlen. unfold rp_getContentLength, getAs, received, request_lines. simpl. rewrite (assoc_L (++)), foldl_app.
  set (lines := _ ++ map_lines _ _). assert (Forall (λ kv, fold_case (text "content-length") ≠ fold_case kv.1) lines) as Hl.
  { apply Forall_app. split; [unfold close_line; destruct (m_websocket req); repeat constructor; by vm_compute|].
    unfold map_lines. apply Forall_forall. intros kv [_ Hin]%list_elem_of_filter. unfold no_length in Hno. rewrite Forall_forall in Hno. by apply Hno. }
  destruct (lines_find lines (text "content-length") [] (map_ok_nil _ _) Hl) as [Hok Hf].
  unfold length_line. case_decide as Hb; simpl.
  - rewrite Hf, Hb. done.
  - unfold h_find at 1. unfold h_set at 1. rewrite (map_find_set_eq _ _ bytes_lt_strict) by done. simpl. rewrite Hcast; [done|lia].
Qed.

(** C22. A request that [HttpRequest::dump] has written is received by [recvRequest] as it was
    sent, with any method but M-SEARCH, version 1.0 or 1.1, an absolute path that does not
    begin with two slashes, a query and a fragment, all with the characters of a URI, and
    any body. The lines that are written have token names without control characters, and
    values without NUL, DEL or line ends and without a blank in front; there is no
    Content-Length among the request's own headers, since dump adds one. No
    call fails on the connection, its first read gets the whole header, the body is
    shorter than 2^31 bytes and fits into the memory, and lexical_cast reads a decimal
    number as what it is. The header map has every line that was written, so that the flag
    [m_close], which is written as a line "connect", is not restored. *)
Theorem request_roundtrip (mem : Memory) (p0 : http_parser) (cast_u64 : list Z → option Z) (buff_size : nat) (st : Stream)
    (req : HttpRequest) (more : list Z) :
  request_ok req → no_length req → (∀ n, 0 <= n < 2 ^ 64 → cast_u64 (dec n) = Some n) →
  Z.of_nat (length (m_body req)) < 2 ^ 31 → Z.of_nat (length (m_body req)) <= memory → healthy st → s_in st = dump req ++ more →
  Z.of_nat (length (head_text req)) <= transfer st (buff_size `min` length (s_in st)) →
  ∃ st', recvRequest (http11_engine p0) cast_u64 buff_size st = Ok (Some (init (setBody (received req) (m_body req))), st') ∧
    s_out st' = s_out st ∧ healthy st'.
Proof.
  intros Hok Hno Hcast Hlen Hmem Hh Hin Hread. rewrite dump_head, <-(assoc_L (++)) in Hin. unfold recvRequest. cbn [recv_header length].
  rewrite Nat.sub_0_r. unfold stream_read. rewrite (proj1 Hh).
  pose proof (transfer_le st (buff_size `min` length (s_in st))) as Ht. set (n := transfer st _) in *.
  assert (0 < length (head_text req))%nat as Hpos.
  { pose proof (head_nonempty req []) as Hne. rewrite app_nil_r in Hne. destruct (head_text req); [done|simpl; lia]. }
  rewrite decide_False by lia. set (got := take (Z.to_nat n - length (head_text req)) (m_body req ++ more)).
  assert ([] ++ take (Z.to_nat n) (s_in st) = head_text req ++ got) as -> by (rewrite Hin; simpl; by rewrite take_app_ge by lia).
  destruct (rp_execute_request p0 req got Hok) as (m & -> & He & Hf). osimpl. rewrite decide_False by (rewrite length_app; lia).
  unfold rp_hasError, rp_isFinished. cbn [rp_error rp_parser e_has_error e_is_finished http11_engine]. rewrite He, Hf, bool_decide_false by (by intros []).
  cbn [orb]. assert (length got < buff_size)%nat as Hgot.
  { unfold got. rewrite length_take. apply (f_equal length) in Hin. rewrite !length_app in Hin. lia. }
  rewrite decide_False by lia. osimpl.
  rewrite (received_length cast_u64 (http11_engine p0) m req Hno Hcast) by lia. rewrite swrap_small by (unfold in_signed; lia).
  set (st1 := mkStream _ _ _ _). assert (healthy st1) as Hh1 by (pose proof (healthy_tail st (s_in st1) (s_out st) Hh) as Hx; by rewrite (proj1 Hh) in Hx).
  case_decide as Hb.
  - destruct (recv_body_healthy st1 got (m_body req) more Hh1) as (st' & -> & Ho & Hh'); [|lia|done|].
    + unfold st1, got. simpl. rewrite Hin, drop_app_ge by lia. by rewrite take_drop.
    + osimpl. exists st'. by split_and!.
  - assert (m_body req = []) as -> by (apply nil_length_inv; lia). exists st1. by split_and!.
Qed.

(** A parser as it comes out of memory. *)
Definition some_parser : http_parser := mkParser [] 0 0 0 0 0 0 77 false false false.

Definition sample_request : HttpRequest :=
  mkRequest POST 17 false false (text "/a%20b/c") (text "x=1") (text "top") (text "hello") [(text "Host", text "a.org: 80")] [] [].

Lemma sample_ok : request_ok sample_request ∧ no_length sample_request.
Proof.
  split; [split|]; [split; by intros [=]|by left|by vm_compute|by vm_compute|by vm_compute| |].
  - repeat (constructor; [split; vm_compute; reflexivity|]). constructor.
  - repeat constructor. by vm_compute.
Qed.

Definition sample_stream : Stream := mkStream (dump sample_request ++ text "GET") [] [IoUpTo 100; IoUpTo 1] true.

Lemma request_roundtrip_witness :
  ∃ st', recvRequest (mem := gigabyte) (http11_engine some_parser) (λ s, Some (atoi s)) 200 sample_stream =
    Ok (Some (init (setBody (received sample_request) (text "hello"))), st') ∧ s_out st' = [].
Proof.
  destruct (request_roundtrip gigabyte some_parser (λ s, Some (atoi s)) 200 sample_stream sample_request (text "GET")) as (st' & E & Ho & _).
  - exact (proj1 sample_ok).
  - exact (proj2 sample_ok).
  - intros n _. by rewrite atoi_dec.
  - vm_compute. reflexivity.
  - vm_compute. discriminate.
  - split; [reflexivity|]. repeat constructor.
  - reflexivity.
  - vm_compute. discriminate.
  - exists st'. split; [exact E|exact Ho].
Defined.

(** When the header comes in two reads, the marks of the first are lost: a path that is cut
    loses its beginning, a line that is cut in its value is dropped, and a query that is
    cut has a negative length, so that making its text throws out of [recvRequest]. *)
Lemma split_header :
  let receive text_ cut : outcome (option (list Z * list Z)) :=
    '(r, _) ← recvRequest (mem := gigabyte) (http11_engine some_parser) (λ s, Some (atoi s)) 200
      (mkStream text_ [] [IoUpTo cut] true);
    mret ((λ req, (m_path req, getHeader req (text "Host") (text "-"))) <$> (r : option HttpRequest)) in
  let get := text "GET /index HTTP/1.1" ++ crlf ++ text "Host: a.org" ++ crlf ++ crlf in
  receive get 50%nat = Ok (Some (text "/index", text "a.org")) ∧
  receive get 8%nat = Ok (Some (text "ex", text "a.org")) ∧
  receive get 30%nat = Ok (Some (text "/index", text "-")) ∧
  receive (text "GET /?abc HTTP/1.1" ++ crlf ++ crlf) 8%nat = Throw (logic_error "length_error").
Proof. split_and!; vm_compute; reflexivity. Qed.

(** ** Any bytes *)

(** What the code relies on in a state: that [query_start] has been set, and that
    [field_start] and [field_len] belong together. *)
Definition query_set : list positive := Eval vm_compute in needing http_table 2 a_query_string a_start_query.
Definition field_set : list positive := Eval vm_compute in needing http_table 2 a_write_value a_write_field.
Definition needs_query (s : list positive) : bool := some (λ p, bool_decide (p ∈ query_set)) s.
Definition needs_field (s : list positive) : bool := some (λ p, bool_decide (p ∈ field_set)) s.

(** What the actions of a transition leave of the two, if they may run at all. *)
Fixpoint facts (q f : bool) (acts : list action) : option (bool * bool) :=
  match acts with
  | [] => Some (q, f)
  | a_start_query :: acts => facts true f acts
  | a_query_string :: acts => if q then facts q f acts else None
  | a_start_field :: acts => facts q false acts
  | a_write_field :: acts => facts q true acts
  | a_write_value :: acts => if f then facts q f acts else None
  | a_done :: _ => Some (q, f)
  | _ :: acts => facts q f acts
  end.

Definition step_ok (s : list positive) (acts : list action) (s' : list positive) : bool :=
  match facts (needs_query s) (needs_field s) acts with
  | Some (q, f) => implb (needs_query s') q && implb (needs_field s') f
  | None => false
  end.

(** All states that any input leads to, and a character of each kind. *)
Definition http_kinds : list Z := Eval vm_compute in kinds (classes http_table).
Definition http_states : states := Eval vm_compute in explore http_table (Z.to_nat 10000) http_kinds {[1%positive := [start]]} [start].
Definition relaxed_kinds : list Z := Eval vm_compute in kinds (classes relaxed_table).
Definition relaxed_states : states := Eval vm_compute in explore relaxed_table (Z.to_nat 10000) relaxed_kinds {[1%positive := [start]]} [start].
Definition states_of (relaxed : bool) : states := if relaxed then relaxed_states else http_states.

Lemma states_ok relaxed s c acts s' :
  0 <= c < 256 → known (states_of relaxed) s = true → trans (the_table relaxed) s c = Some (acts, s') →
  known (states_of relaxed) s' = true ∧ step_ok s acts s' = true.
Proof.
  destruct relaxed.
  - apply (all_ok_spec _ relaxed_kinds); vm_compute; reflexivity.
  - apply (all_ok_spec _ http_kinds); vm_compute; reflexivity.
Qed.

(** What a callback is given lies within the buffer. *)
Definition event_within (B : list Z) (e : event) : Prop :=
  let within at_ n := ∃ i, at_ = drop i B ∧ (i + n <= length B)%nat in
  match e with
  | EvMethod at_ n | EvUri at_ n | EvFragment at_ n | EvPath at_ n | EvVersion at_ n | EvQuery at_ n | EvReason at_ n | EvStatus at_ n => within at_ n
  | EvField field n value k => within field n ∧ within value k
  | _ => True
  end.

Definition facts_hold (q f : bool) (p : nat) (m : http_parser) : Prop :=
  (q = true → query_start m <= p)%nat ∧ (f = true → field_start m + field_len m <= p)%nat.

Lemma actions_safe B acts p : (p < length B)%nat → ∀ q f q' f' m,
  facts q f acts = Some (q', f') → marks_ok (S p) m → facts_hold q f p m →
  ∃ m' ev b, run_actions (perform B) acts p m = Ok (m', ev, b) ∧ marks_ok (S p) m' ∧ facts_hold q' f' p m' ∧ Forall (event_within B) ev.
Proof.
  intros Hp. assert (∀ i, (i <= p)%nat → ∃ j, PTR_TO B i = drop j B ∧ (j + (p - i) <= length B)%nat) as Hw
    by (intros i Hi; exists i; split; [done|lia]).
  induction acts as [|a acts IH]; intros q f q' f' m Hf Hm [HQ HF].
  - simpl in Hf. injection Hf as <- <-. exists m, [], false. by split_and!.
  - pose proof Hm as Hm'. unfold marks_ok in Hm'. simpl in Hm'. destruct Hm' as (H1 & H2 & H3 & H4).
    assert (∀ m1 ev q1 f1, perform B a p m = Ok (m1, ev, false) → facts q1 f1 acts = Some (q', f') → marks_ok (S p) m1 →
      facts_hold q1 f1 p m1 → Forall (event_within B) ev →
      ∃ m' ev b, run_actions (perform B) (a :: acts) p m = Ok (m', ev, b) ∧ marks_ok (S p) m' ∧ facts_hold q' f' p m' ∧ Forall (event_within B) ev) as Hgo.
    { intros m1 ev q1 f1 E Hf1 Hm1 Hh He. destruct (IH q1 f1 q' f' m1 Hf1 Hm1 Hh) as (m2 & ev2 & b & E2 & ? & ? & ?).
      exists m2, (ev ++ ev2), b. simpl. rewrite E. osimpl. rewrite E2. osimpl. split_and!; [done..|by apply Forall_app]. }
    clear IH. destruct a; simpl in Hf;
      try (eapply Hgo; [simpl; rewrite ?LEN_ok by (lia || auto); reflexivity|exact Hf|unfold marks_ok in *; simpl in *; lia
        |split; simpl; try done; intros; lia|try (by repeat constructor); repeat constructor; simpl; by apply Hw]).
    + destruct f; [|done]. specialize (HF eq_refl). eapply Hgo; [simpl; rewrite LEN_ok by lia; reflexivity|exact Hf|done|split; [done|by intros _]|].
      repeat constructor; [|by apply Hw]. exists (field_start m). split; [done|lia].
    + destruct q; [|done]. specialize (HQ eq_refl). eapply Hgo; [simpl; rewrite LEN_ok by lia; reflexivity|exact Hf|done|split; [by intros _|done]|].
      repeat constructor. by apply Hw.
    + injection Hf as <- <-. simpl. destruct (xml_sent m || json_sent m); osimpl; do 3 eexists; (split; [reflexivity|]); split_and!;
        try (unfold marks_ok; simpl; lia); try (by split); by repeat constructor.
Qed.

Lemma exec_safe B relaxed rest : ∀ s p m evs,
  drop p B = rest → (p <= length B)%nat → Forall (λ c, 0 <= c < 256) rest → known (states_of relaxed) s = true →
  marks_ok p m → facts_hold (needs_query s) (needs_field s) p m → Forall (event_within B) evs →
  ∃ s' m' evs' p', exec_loop (the_table relaxed) (perform B) s p rest m evs = Ok (s', m', evs', p') ∧ Forall (event_within B) evs'.
Proof.
  induction rest as [|c rest IH]; intros s p m evs Hd Hp Hb Hs Hm Hf He; [simpl; by do 4 eexists|].
  apply Forall_cons in Hb as [Hc Hb]. cbn [exec_loop]. destruct (trans (the_table relaxed) s c) as [[acts s1]|] eqn:Et; [|by do 4 eexists].
  destruct (states_ok relaxed s c acts s1 Hc Hs Et) as [Hs1 Hok]. unfold step_ok in Hok.
  destruct (facts (needs_query s) (needs_field s) acts) as [[q f]|] eqn:Ef; [|done].
  apply andb_true_iff in Hok as [Hq Hfl]. assert (p < length B)%nat as Hlt by (apply (f_equal length) in Hd; rewrite length_drop in Hd; simpl in Hd; lia).
  destruct (actions_safe B acts p Hlt _ _ _ _ m Ef) as (m1 & ev & b & -> & Hm1 & [HQ HF] & Hev);
    [unfold marks_ok in *; lia|done|]. osimpl. destruct b; [do 4 eexists; split; [done|by apply Forall_app]|].
  apply IH; [|lia|done|done|done| |by apply Forall_app].
  - by rewrite <-Nat.add_1_r, <-drop_drop, Hd.
  - split; intros Hn; rewrite Hn in *; simpl in *; [specialize (HQ Hq)|specialize (HF Hfl)]; lia.
Qed.

(** C23. The machine on any bytes, whatever memory its parser was made in: on the first buffer
    of a request, [http_parser_execute] returns; no assertion of its own fails, no length
    is negative, it uses at most the whole buffer, and the texts given to the callbacks
    lie within it. *)
Theorem http_parser_safe (p0 : http_parser) (B : list Z) :
  Forall (λ c, 0 <= c < 256) B →
  ∃ p evs n, http_parser_execute B (http_parser_init p0) 0 = Ok (p, evs, n) ∧ (n <= length B)%nat ∧ Forall (event_within B) evs ∧
    n = if decide (B = []) then 0%nat else nread p.
Proof.
  intros HB. destruct (decide (B = [])) as [->|Hne]; [exists (http_parser_init p0), [], 0%nat; by split_and!|].
  destruct (exec_safe B (uri_relaxed p0) B start 0 (http_parser_init p0) []) as (s & m & evs & q & E & Hev);
    [done|lia|done|by destruct (uri_relaxed p0)|unfold marks_ok; simpl; lia|by split|done|].
  destruct (execute_from_loop B (http_parser_init p0) s m evs q) as [E2 Hq]; [done|simpl; lia|exact E|done|].
  do 3 eexists. split; [exact E2|]. apply exec_range in E. split_and!; [lia|done|done].
Qed.

Lemma http_parser_safe_witness :
  Forall (λ c, 0 <= c < 256) (text "GET /?a") ∧
  ∃ p evs n, http_parser_execute (text "GET /?a") (http_parser_init some_parser) 0 = Ok (p, evs, n) ∧ (n <= 7)%nat.
Proof.
  assert (Forall (λ c, 0 <= c < 256) (text "GET /?a")) as H by (apply (bool_decide_unpack _); vm_compute; exact I).
  split; [exact H|]. destruct (http_parser_safe some_parser (text "GET /?a") H) as (p & evs & n & E & Hn & _).
  exists p, evs, n. split; [exact E|exact Hn].
Defined.

(** The machine is one of those that the theorems on [HttpParser] and [Servlet] are about. *)
Lemma http11_within_buffer p0 : within_buffer (http11_engine p0).
Proof.
  intros p B p1 evs n HB. cbn [e_execute http11_engine]. unfold http_parser_execute. rewrite decide_False by (by intros ?%nil_length_inv). rewrite bool_decide_true by lia. osimpl.
  destruct (exec_loop _ _ _ _ _ _ _) as [[[[s m] ev] q]| |]; osimpl; try done. unfold sylar_assert.
  repeat case_bool_decide; simpl; try done. by intros [= <- <- <-].
Qed.

(** What the grammar leaves out: header lines cannot be continued, a method with a hyphen
    is refused, and so is an IPv6 address in full, while a name may contain control
    characters; a path of an absolute URI begins with its authority. *)
Lemma grammar_gaps :
  let run s := match http_parser_execute s (http_parser_init some_parser) 0 with
               | Ok (p, evs, n) => Some (http_parser_finish p, match ofoldl (on_request (http11_engine some_parser))
                   (HttpRequestParser_new (http11_engine some_parser)) evs with Ok q => m_path (rp_data _ q) | _ => [] end)
               | _ => None
               end in
  let line := text "GET / HTTP/1.1" ++ crlf in
  fst <$> run (line ++ text "a: b" ++ crlf ++ text " c" ++ crlf ++ crlf) = Some (-1) ∧
  fst <$> run (text "M-SEARCH / HTTP/1.1" ++ crlf ++ crlf) = Some (-1) ∧
  fst <$> run (text "GET //[1:2:3:4:5:6:7:8]/ HTTP/1.1" ++ crlf ++ crlf) = Some (-1) ∧
  fst <$> run (line ++ [1; 13] ++ text "a: b" ++ crlf ++ crlf) = Some 1 ∧
  snd <$> run (text "GET http://a.org/b HTTP/1.1" ++ crlf ++ crlf) = Some (text "//a.org/b").
Proof. vm_compute. by repeat split. Qed.
