(* ===== verification/HttpClient.v ===== *)
(** Receiving responses (HttpConnection::recvResponse of
    sylar/http/http_connection.cc and the response half of
    sylar/http/http_parser.cc), plain and chunked. *)

From Stdlib Require Import ZArith Lia.
From stdpp Require Import base numbers option strings tactics list list_numbers.
From S2P Require Import Prelude StdSet Text StdMap HashUtil Stream WebSocket Http HttpParser.

Local Open Scope Z_scope.

(** ** The response parser *)

Section response_parser.
Context (eng : Engine).

(** [class HttpResponseParser]. *)
Record HttpResponseParser : Type := mkResponseParser {
  cp_parser : machine eng;
  cp_data : HttpResponse;
  cp_error : Z
}.

Definition cp_setData (p : HttpResponseParser) (d : HttpResponse) : HttpResponseParser :=
  mkResponseParser (cp_parser p) d (cp_error p).

(** The setters of [HttpResponse]. *)
Definition set_status_line (d : HttpResponse) (status version : Z) (reason : list Z) :
    HttpResponse :=
  mkResponse status version (r_close d) (r_websocket d) (r_body d) reason (r_headers d).
Definition r_setBody (d : HttpResponse) (body : list Z) : HttpResponse :=
  mkResponse (r_status d) (r_version d) (r_close d) (r_websocket d) body (r_reason d) (r_headers d).

Definition on_response_reason (p : HttpResponseParser) (at_ : list Z) (length : nat) : outcome HttpResponseParser :=
  let d := cp_data p in
  s ← std_string at_ length; mret (cp_setData p (set_status_line d (r_status d) (r_version d) s)).

Definition on_response_status (p : HttpResponseParser) (at_ : list Z) :=
  let d := cp_data p in
  cp_setData p (set_status_line d (s32 (atoi at_)) (r_version d) (r_reason d)).

Definition on_response_version (p : HttpResponseParser) (at_ : list Z) (length : nat) : outcome HttpResponseParser :=
  let d := cp_data p in
  match parse_version at_ length with
  | Some v => mret (cp_setData p (set_status_line d (r_status d) v (r_reason d)))
  | None => _ ← std_string at_ length; mret (mkResponseParser (cp_parser p) d 1001)
  end.

Definition on_response_http_field (p : HttpResponseParser) (field : list Z) (flen : nat)
    (value : list Z) (vlen : nat) : outcome HttpResponseParser :=
  if decide (flen = 0%nat) then mret p
  else
    k ← std_string field flen;
    v ← std_string value vlen;
    mret (cp_setData p (r_setHeader (cp_data p) k v)).

(** The callbacks [HttpResponseParser::HttpResponseParser] installs; those for
    chunks and the end of the header do nothing. *)
Definition on_response (p : HttpResponseParser) (e : event) : outcome HttpResponseParser :=
  match e with
  | EvReason at_ length => on_response_reason p at_ length
  | EvStatus at_ _ => mret (on_response_status p at_)
  | EvVersion at_ length => on_response_version p at_ length
  | EvField field flen value vlen => on_response_http_field p field flen value vlen
  | _ => mret p
  end.

Definition HttpResponseParser_new : HttpResponseParser :=
  mkResponseParser (e_init eng) (HttpResponse_new 17 true) 0.

(** [HttpResponseParser::execute]: the machine starts over for every chunk
    header. *)
Definition cp_execute (chunck : bool) (p : HttpResponseParser) (data : list Z) :
    outcome (HttpResponseParser * nat * list Z) :=
  let m := if chunck then e_init eng else cp_parser p in
  '(m, events, offset) ← e_execute eng m data;
  p ← ofoldl on_response p events;
  mret (mkResponseParser m (cp_data p) (cp_error p), offset, drop offset data).

Definition cp_isFinished (p : HttpResponseParser) : bool :=
  e_has_error eng (cp_parser p) || e_is_finished eng (cp_parser p).

Definition cp_hasError (p : HttpResponseParser) : bool :=
  bool_decide (cp_error p ≠ 0) || e_has_error eng (cp_parser p).

Section connection.
(** The memory, [boost::lexical_cast<uint64_t>] and [http.response.buffer.size]. *)
Context {mem : Memory} (cast_u64 : list Z → option Z) (buff_size : nat).

Definition cp_getContentLength (p : HttpResponseParser) : Z :=
  getAs cast_u64 (r_headers (cp_data p)) (text "content-length") 0.

(** ** Chunks *)

(** The inner [do] loop of [recvResponse]: up to the end of a chunk header.
    [begin] is set in its first turn. *)
Fixpoint chunk_header (fuel : nat) (st : Stream) (p : HttpResponseParser) (data : list Z)
    (begin : bool) : outcome (option (HttpResponseParser * list Z) * Stream) :=
  match fuel with
  | O => Stuck
  | S fuel =>
    let '(rt, bytes, st) :=
      if negb begin || bool_decide (data = []) then stream_read st (buff_size - length data)
      else (1, [], st) in
    if decide (rt <= 0) then mret (None, stream_close st) else
    let data := data ++ bytes in
    '(p, nparse, rest) ← cp_execute true p data;
    if decide (length data < nparse)%nat then Stuck else
    if cp_hasError p then mret (None, stream_close st) else
    if decide (length rest = buff_size) then mret (None, stream_close st) else
    if cp_isFinished p then mret (Some (p, rest), st)
    else chunk_header fuel st p rest false
  end.

(** The loop [while (left > 0)] that reads the rest of a chunk. *)
Fixpoint chunk_rest (fuel : nat) (st : Stream) (left : Z) (body : list Z) :
    outcome (option (list Z) * Stream) :=
  match fuel with
  | O => Stuck
  | S fuel =>
    if decide (0 < left) then
      let '(rt, bytes, st) := stream_read st (Z.to_nat left `min` buff_size) in
      if decide (rt <= 0) then mret (None, stream_close st)
      else chunk_rest fuel st (left - rt) (body ++ bytes)
    else mret (Some body, st)
  end.

(** The data of one chunk of [content_len] bytes and the line end behind it.
    A negative or overflowing length is undefined. *)
Definition chunk_data (st : Stream) (content_len : Z) (data body : list Z) :
    outcome (option (list Z * list Z) * Stream) :=
  let len := Z.of_nat (length data) in
  if decide (content_len < 0 ∨ 2 ^ 31 <= content_len + 2) then Stuck else
  if decide (content_len + 2 <= len) then
    mret (Some (drop (Z.to_nat (content_len + 2)) data, body ++ take (Z.to_nat content_len) data), st)
  else
    let left := content_len - len + 2 in
    '(r, st) ← chunk_rest (S (Z.to_nat left)) st left (body ++ data);
    mret (match r with
          | Some body => Some ([], take (length body - 2) body)
          | None => None
          end, st).

(** The outer [do] loop: chunk after chunk until the last one. *)
Fixpoint recv_chunks (fuel : nat) (st : Stream) (p : HttpResponseParser) (data body : list Z) :
    outcome (option (HttpResponseParser * list Z) * Stream) :=
  match fuel with
  | O => Stuck
  | S fuel =>
    '(r, st) ← chunk_header (S (S (length (s_in st)))) st p data true;
    match r with
    | None => mret (None, st)
    | Some (p, data) =>
      '(r, st) ← chunk_data st (e_content_len eng (cp_parser p)) data body;
      match r with
      | None => mret (None, st)
      | Some (data, body) =>
        if e_chunks_done eng (cp_parser p) then mret (Some (p, body), st)
        else recv_chunks fuel st p data body
      end
    end
  end.

(** [HttpConnection::recvResponse]. *)
Definition recvResponse (st : Stream) : outcome (option HttpResponse * Stream) :=
  '(r, st) ← recv_header (cp_execute false) cp_hasError cp_isFinished buff_size
               (S (length (s_in st))) st HttpResponseParser_new [];
  match r with
  | None => mret (None, st)
  | Some (p, data) =>
    '(r, st) ←
      if e_chunked eng (cp_parser p) then
        recv_chunks (S (length data + length (s_in st))) st p data []
      else
        let body_length := s64 (cp_getContentLength p) in
        if decide (0 < body_length) then
          '(body, st) ← recv_body st data body_length;
          mret ((λ body, (p, body)) <$> body, st)
        else mret (Some (p, []), st);
    mret (match r with
          | None => None
          | Some (p, body) =>
            Some (if decide (body = []) then cp_data p else r_setBody (cp_data p) body)
          end, st)
  end.

(** [HttpConnection::sendRequest]. *)
Definition sendRequest (st : Stream) (req : HttpRequest) : outcome (Z * Stream) :=
  writeFixSize st (dump req).
End connection.
End response_parser.

(** ** Framing *)

Section framing.
Context (eng : Engine) (buff_size : nat).

(** A chunk on the wire: its header, its data and the line end, with the
    machine that read the header. *)
Record chunk : Type := mkChunk {
  c_header : list Z;
  c_data : list Z;
  c_end : list Z;
  c_machine : machine eng
}.

Definition wire (c : chunk) : list Z := c_header c ++ c_data c ++ c_end c.

(** The machine has read the header, its last part at once. *)
Definition read_by (header : list Z) (m : machine eng) : Prop :=
  ∃ data events n, e_execute eng (e_init eng) data = Ok (m, events, n) ∧ take n data `suffix_of` header ∧ e_is_finished eng m = true.

(** The chunk is as long as its header says. *)
Definition chunk_ok (c : chunk) : Prop :=
  read_by (c_header c) (c_machine c) ∧ e_is_finished eng (c_machine c) = true ∧
  Z.of_nat (length (c_data c)) = e_content_len eng (c_machine c) ∧ length (c_end c) = 2%nat.

(** The chunks of a message: only the last one ends it. *)
Definition chunks_ok (cs : list chunk) : Prop :=
  Forall chunk_ok cs ∧
  ∃ cs' c, cs = cs' ++ [c] ∧ e_chunks_done eng (c_machine c) = true ∧
    Forall (λ c, e_chunks_done eng (c_machine c) = false) cs'.

(** Chunks, of which none is the last, and a header whose length does not fit an [int]. *)
Definition bad_length (wire_ : list Z) : Prop :=
  ∃ cs header m rest, Forall chunk_ok cs ∧ Forall (λ c, e_chunks_done eng (c_machine c) = false) cs ∧
    wire_ = mjoin (wire <$> cs) ++ header ++ rest ∧ read_by header m ∧ ¬ (0 <= e_content_len eng m < 2 ^ 31 - 2).

(** Chunks, of which none is the last, and a buffer on which the machine fails. *)
Definition chunk_fails {A} (wire_ : list Z) (result : outcome A) : Prop :=
  ∃ cs used data rest p, Forall chunk_ok cs ∧ Forall (λ c, e_chunks_done eng (c_machine c) = false) cs ∧
    wire_ = mjoin (wire <$> cs) ++ used ++ data ++ rest ∧
    is_ok (cp_execute eng true p data) = false ∧ result = failed (cp_execute eng true p data).

Lemma chunk_fails_after {A} c wire_ (result : outcome A) :
  chunk_ok c → e_chunks_done eng (c_machine c) = false → chunk_fails wire_ result →
  chunk_fails (wire c ++ wire_) result.
Proof.
  intros Hc Hd (cs & used & data & rest & p & H1 & H2 & -> & H4 & H5).
  exists (c :: cs), used, data, rest, p. split_and!; [by constructor..| |done|done].
  simpl. by rewrite <-!(assoc_L (++)).
Qed.

Lemma cp_execute_ok chunck p data p' n rest :
  cp_execute eng chunck p data = Ok (p', n, rest) ↔
  ∃ m events q, e_execute eng (if chunck then e_init eng else cp_parser eng p) data = Ok (m, events, n) ∧
    ofoldl (on_response eng) p events = Ok q ∧
    p' = mkResponseParser eng m (cp_data eng q) (cp_error eng q) ∧ rest = drop n data.
Proof.
  unfold cp_execute. rewrite outcome_bind_ok. split.
  - intros ([[m events] off] & Hm & (q & Hq & [= <- <- <-])%outcome_bind_ok). by eexists m, events, q.
  - intros (m & events & q & Hm & Hq & -> & ->). exists (m, events, n). split; [done|].
    apply outcome_bind_ok. by exists q.
Qed.

Hypothesis Hbuf : within_buffer eng.

Lemma cp_moves_rest chunck : moves_rest (cp_execute eng chunck).
Proof.
  intros p data p' n rest Hne (m & events & q & Hm & _ & _ & ->)%cp_execute_ok.
  split; [|done]. exact (Hbuf _ _ _ _ _ Hne Hm).
Qed.

Lemma on_response_body p e p' :
  on_response eng p e = Ok p' → r_body (cp_data eng p') = r_body (cp_data eng p).
Proof.
  destruct e; simpl; try (by intros [= <-]); try (by intros (? & _ & [= <-])%outcome_bind_ok).
  - unfold on_response_version. case_match; [by intros [= <-]|by intros (? & _ & [= <-])%outcome_bind_ok].
  - unfold on_response_http_field. case_decide; [by intros [= <-]|].
    by intros (? & _ & (? & _ & [= <-])%outcome_bind_ok)%outcome_bind_ok.
Qed.

Lemma cp_execute_body chunck p data p' n rest :
  cp_execute eng chunck p data = Ok (p', n, rest) → r_body (cp_data eng p') = r_body (cp_data eng p).
Proof.
  intros (m & events & q & _ & Hq & -> & _)%cp_execute_ok. simpl. revert p Hq.
  induction events as [|e events IH]; intros p; simpl; [by intros [= <-]|].
  destruct (on_response eng p e) as [p1| |] eqn:E1; try done. intros Hq.
  rewrite (IH _ Hq). exact (on_response_body _ _ _ E1).
Qed.

Lemma finished p :
  cp_hasError eng p = false → cp_isFinished eng p = true → e_is_finished eng (cp_parser eng p) = true.
Proof.
  unfold cp_hasError, cp_isFinished. destruct (e_has_error eng (cp_parser eng p)); [|done].
  by rewrite orb_true_r.
Qed.

Lemma cp_execute_machine p data p' n rest :
  cp_execute eng true p data = Ok (p', n, rest) → ∃ events, e_execute eng (e_init eng) data = Ok (cp_parser eng p', events, n).
Proof. intros (m & events & q & Hm & _ & -> & _)%cp_execute_ok. by exists events. Qed.

(** Reading a chunk header uses bytes of the buffer, then of the stream. *)
Lemma chunk_header_spec fuel : ∀ st p data begin,
  (length (s_in st) + Nat.b2n begin < fuel)%nat →
  (∃ r st', chunk_header eng buff_size fuel st p data begin = Ok (r, st') ∧ s_out st' = s_out st ∧
    match r with
    | None => s_open st' = false
    | Some (p', rest) =>
      ∃ header, data ++ s_in st = header ++ rest ++ s_in st' ∧
        read_by header (cp_parser eng p') ∧ s_open st' = s_open st ∧
        r_body (cp_data eng p') = r_body (cp_data eng p)
    end) ∨
  ∃ used buf rest q, data ++ s_in st = used ++ buf ++ rest ∧ is_ok (cp_execute eng true q buf) = false ∧
    chunk_header eng buff_size fuel st p data begin = failed (cp_execute eng true q buf).
Proof.
  induction fuel as [|fuel IH]; intros st p data begin Hf; [lia|]. cbn [chunk_header].
  destruct (if negb begin || bool_decide (data = []) then _ else _) as [[rt bytes] st1] eqn:E.
  assert (s_in st = bytes ++ s_in st1 ∧ s_out st1 = s_out st ∧ s_open st1 = s_open st ∧
    (0 < rt → data ++ bytes ≠ [] ∧ (begin = false → (0 < length bytes)%nat))) as (Hin & Hout & Hop & Hpos).
  { destruct (negb begin || _) eqn:Hb.
    - apply stream_read_spec in E as (? & ? & ? & ?). split_and!; try done. intros. split; [|lia]. intros [_ ->]%app_eq_nil. simpl in *. lia.
    - injection E as <- <- <-. apply orb_false_iff in Hb as [Hb Hd%bool_decide_eq_false]. split_and!; try done.
      intros _. rewrite app_nil_r. split; [done|]. intros ->. done. }
  case_decide; [left; exists None, (stream_close st1); by split_and!|].
  destruct (cp_execute eng true p (data ++ bytes)) as [[[p1 n] rest]|e|] eqn:Ex; osimpl.
  2, 3: right; exists [], (data ++ bytes), (s_in st1), p; rewrite Ex; split_and!; [by rewrite Hin, (assoc_L (++))|done|done].
  destruct (Hpos ltac:(lia)) as [Hne Hpos'].
  destruct (cp_moves_rest _ _ _ _ _ _ Hne Ex) as [Hn Hrest]. pose proof (cp_execute_machine _ _ _ _ _ Ex) as [events Em].
  apply cp_execute_body in Ex.
  rewrite decide_False by lia.
  destruct (cp_hasError eng p1) eqn:He; [left; exists None, (stream_close st1); by split_and!|].
  case_decide; [left; exists None, (stream_close st1); by split_and!|].
  assert (data ++ s_in st = take n (data ++ bytes) ++ rest ++ s_in st1) as Hsplit.
  { rewrite Hin, Hrest, !(assoc_L (++)), take_drop. done. }
  destruct (cp_isFinished eng p1) eqn:Hfin.
  - left. exists (Some (p1, rest)), st1. split_and!; [done|done|].
    exists (take n (data ++ bytes)). split_and!; try done. exists (data ++ bytes), events, n. split_and!; [done|done|by apply finished].
  - destruct (IH st1 p1 rest false) as [(r & st' & -> & Hout' & Hr)|(used & buf & rest' & q & Hsp & Hno & ->)].
    { apply (f_equal length) in Hin. rewrite length_app in Hin. destruct begin; simpl in *; lia. }
    2: { right. exists (take n (data ++ bytes) ++ used), buf, rest', q. rewrite Hsplit, Hsp, <-(assoc_L (++)). done. }
    left. exists r, st'. split_and!; [done|congruence|]. destruct r as [[p' rest']|]; [|done].
    destruct Hr as (header & Hsp & (d1 & ev1 & n1 & E1 & Hs1 & Hf1) & Hop' & Hb').
    exists (take n (data ++ bytes) ++ header). rewrite Hsplit, Hsp.
    rewrite <-!(assoc_L (++)). split_and!; try (done || congruence). exists d1, ev1, n1. split_and!; [done|by apply suffix_app_r|done].
Qed.

Lemma chunk_rest_spec fuel : ∀ st left body,
  (Z.to_nat left < fuel)%nat → 0 <= left →
  ∃ r st', chunk_rest buff_size fuel st left body = Ok (r, st') ∧ s_out st' = s_out st ∧
    match r with
    | None => s_open st' = false
    | Some body' =>
      ∃ bytes, body' = body ++ bytes ∧ s_in st = bytes ++ s_in st' ∧
        Z.of_nat (length bytes) = left ∧ s_open st' = s_open st
    end.
Proof.
  induction fuel as [|fuel IH]; intros st left body Hf Hl; [lia|]. cbn [chunk_rest].
  case_decide; [|exists (Some body), st; split_and!; try done; exists []; rewrite app_nil_r;
    simpl; split_and!; (done || lia)].
  destruct (stream_read st _) as [[rt bytes] st1] eqn:E.
  apply stream_read_spec in E as (Hin & Hout & Hop & Hlen).
  case_decide; [exists None, (stream_close st1); by split_and!|].
  destruct (IH st1 (left - rt) (body ++ bytes)) as (r & st' & -> & Hout' & Hr); [lia|lia|].
  exists r, st'. split_and!; [done|congruence|]. destruct r as [body'|]; [|done].
  destruct Hr as (bs & -> & Hin' & Hlen' & Hop'). exists (bytes ++ bs).
  rewrite Hin, Hin', length_app, <-!(assoc_L (++)). split_and!; (done || congruence || lia).
Qed.

Lemma chunk_data_spec st content_len data body :
  0 <= content_len < 2 ^ 31 - 2 →
  ∃ r st', chunk_data buff_size st content_len data body = Ok (r, st') ∧ s_out st' = s_out st ∧
    match r with
    | None => s_open st' = false
    | Some (rest, body') =>
      ∃ bytes line_end, data ++ s_in st = bytes ++ line_end ++ rest ++ s_in st' ∧
        body' = body ++ bytes ∧ Z.of_nat (length bytes) = content_len ∧
        length line_end = 2%nat ∧ s_open st' = s_open st
    end.
Proof.
  intros Hn. unfold chunk_data. rewrite decide_False by lia. case_decide as Hle.
  - eexists (Some _), st. split_and!; [done|done|].
    set (n := Z.to_nat content_len). replace (Z.to_nat (content_len + 2)) with (n + 2)%nat by lia.
    exists (take n data), (take 2 (drop n data)). rewrite length_take, length_take, length_drop.
    split_and!; try (done || lia).
    by rewrite <-drop_drop, !(assoc_L (++)), <-(assoc_L (++) (take n data)), !take_drop.
  - destruct (chunk_rest_spec (S (Z.to_nat (content_len - Z.of_nat (length data) + 2))) st
      (content_len - Z.of_nat (length data) + 2) (body ++ data)) as (r & st' & -> & Hout & Hr);
      [lia|lia|]. osimpl.
    destruct r as [body'|]; [|by exists None, st'].
    destruct Hr as (bs & -> & Hin & Hlen & Hop). eexists (Some _), st'. split_and!; [done|done|].
    set (n := Z.to_nat content_len).
    exists (take n (data ++ bs)), (drop n (data ++ bs)).
    rewrite length_take, length_drop, !length_app. split_and!; try (done || lia).
    + by rewrite Hin, !(assoc_L (++)), take_drop, app_nil_r.
    + rewrite <-(assoc_L (++)). rewrite take_app_ge by lia. do 2 f_equal. lia.
Qed.

(** The chunk loop takes whole chunks off the wire, up to a header on which the machine
    fails or whose length does not fit. *)
Lemma recv_chunks_spec fuel : ∀ st p data body,
  (length data + length (s_in st) < fuel)%nat →
  (∃ r st', recv_chunks eng buff_size fuel st p data body = Ok (r, st') ∧ s_out st' = s_out st ∧
    match r with
    | None => s_open st' = false
    | Some (p', body') =>
      ∃ cs dropped, chunks_ok cs ∧ body' = body ++ mjoin (c_data <$> cs) ∧
        data ++ s_in st = mjoin (wire <$> cs) ++ dropped ++ s_in st' ∧
        s_open st' = s_open st ∧ r_body (cp_data eng p') = r_body (cp_data eng p)
    end) ∨
  chunk_fails (data ++ s_in st) (recv_chunks eng buff_size fuel st p data body) ∨
  recv_chunks eng buff_size fuel st p data body = Stuck ∧ bad_length (data ++ s_in st).
Proof.
  induction fuel as [|fuel IH]; intros st p data body Hf; [lia|]. cbn [recv_chunks].
  destruct (chunk_header_spec (S (S (length (s_in st)))) st p data true) as
    [(r & st1 & -> & Hout & Hr)|(used & buf & rest & q & Hin & Hno & ->)]; [simpl; lia| |].
  2: { right. left. exists [], used, buf, rest, q. split_and!; [done..|]. by destruct (cp_execute eng true q buf). }
  osimpl. destruct r as [[p1 rest]|]; [|left; by exists None, st1].
  destruct Hr as (header & Hin & Hread & Hop & Hb).
  destruct (decide (0 <= e_content_len eng (cp_parser eng p1) < 2 ^ 31 - 2)) as [Hsane|Hbad].
  2:{ right. right. split; [unfold chunk_data; by rewrite decide_True by lia|].
      exists [], header, (cp_parser eng p1), (rest ++ s_in st1). by split_and!. }
  destruct (chunk_data_spec st1 (e_content_len eng (cp_parser eng p1)) rest body Hsane) as
    (r & st2 & -> & Hout2 & Hr). osimpl.
  destruct r as [[rest2 body2]|]; [|left; exists None, st2; split_and!; [done|congruence|done]].
  destruct Hr as (bytes & line_end & Hin2 & -> & Hlen & Hend & Hop2).
  set (c := mkChunk header bytes line_end (cp_parser eng p1)).
  assert (data ++ s_in st = wire c ++ rest2 ++ s_in st2) as Hwire.
  { rewrite Hin, Hin2. unfold wire. simpl. by rewrite !(assoc_L (++)). }
  assert (chunk_ok c) as Hc by (split_and!; try done; by destruct Hread as (? & ? & ? & _ & _ & ?)).
  destruct (e_chunks_done eng (cp_parser eng p1)) eqn:Hdone.
  - left. eexists (Some _), st2. split_and!; [done|congruence|]. exists [c], rest2.
    simpl. rewrite !app_nil_r. split_and!; try done; [|congruence].
    split; [by constructor|]. by exists [], c.
  - destruct (IH st2 p1 rest2 (body ++ bytes)) as [(r & st' & -> & Hout' & Hr)|[Hfail|[-> Hbad]]].
    { apply (f_equal length) in Hwire. unfold wire in Hwire. simpl in Hwire.
      rewrite !length_app in Hwire. lia. }
    + left. exists r, st'. split_and!; [done|congruence|]. destruct r as [[p' body']|]; [|done].
      destruct Hr as (cs & dropped & [Hcs (cs' & cl & -> & Hl & Hn)] & -> & Hin' & Hop' & Hb').
      exists (c :: cs' ++ [cl]), dropped. simpl. rewrite <-!(assoc_L (++)). split_and!.
      * split; [by constructor|]. exists (c :: cs'), cl. split_and!; [done|done|by constructor].
      * done.
      * rewrite Hwire, Hin'. by rewrite !(assoc_L (++)).
      * congruence.
      * congruence.
    + right. left. rewrite Hwire. by apply chunk_fails_after.
    + right. right. split; [done|]. destruct Hbad as (cs & header2 & m & rest3 & Hcs & Hnd & Hin3 & Hr3 & Hl3).
      exists (c :: cs), header2, m, rest3. split_and!; [by constructor|by constructor| |done|done].
      rewrite Hwire, Hin3. simpl. by rewrite <-!(assoc_L (++)).
Qed.

Lemma parsed_response_body p used pending :
  parsed (cp_execute eng false) (HttpResponseParser_new eng) p used pending →
  r_body (cp_data eng p) = [].
Proof.
  induction 1 as [|p used pending bytes p' n rest _ IH E]; [done|].
  by rewrite (cp_execute_body _ _ _ _ _ _ E).
Qed.

End framing.

(** ** What [recvResponse] may do with a stream *)

Section received.
Context {mem : Memory} (eng : Engine) (cast_u64 : list Z → option Z) (buff_size : nat).

(** The header is over: the parser used [head], and [pending] is left in the buffer. *)
Definition response_over (p : HttpResponseParser eng) (head pending : list Z) : Prop :=
  parsed (cp_execute eng false) (HttpResponseParser_new eng) p head pending ∧
  cp_hasError eng p = false ∧ cp_isFinished eng p = true.

(** It returns: without a response the connection is closed, and a response is the header
    and the payload it announces. *)
Definition framed_response (st : Stream) (r : option HttpResponse) (st' : Stream) : Prop :=
  s_out st' = s_out st ∧
  match r with
  | None => s_open st' = false
  | Some rsp =>
    ∃ p head pending payload dropped, response_over p head pending ∧ s_open st' = s_open st ∧
      s_in st = head ++ payload ++ dropped ++ s_in st' ∧
      if e_chunked eng (cp_parser eng p) then
        ∃ cs, chunks_ok eng cs ∧ payload = mjoin (wire eng <$> cs) ∧
              r_body rsp = mjoin (c_data eng <$> cs)
      else
        rsp = r_setBody (cp_data eng p) (r_body rsp) ∧ payload = r_body rsp ∧
        Z.of_nat (length payload) = Z.max 0 (s64 (cp_getContentLength eng cast_u64 p))
  end.

(** It fails after the header: in a chunk header, or for want of memory. *)
Definition payload_fails {A} (st : Stream) (result : outcome A) : Prop :=
  ∃ p head pending rest, response_over p head pending ∧ s_in st = head ++ pending ++ rest ∧
    if e_chunked eng (cp_parser eng p) then
      chunk_fails eng (pending ++ rest) result ∨ (result = Stuck ∧ bad_length eng (pending ++ rest))
    else result = Throw bad_alloc ∧ Z.max 0 memory < s64 (cp_getContentLength eng cast_u64 p).

End received.


(** A machine for a one-byte status line and chunk headers of one digit and a
    line end. *)
Definition digit_chunks : Engine :=
  mkEngine (option Z) None
    (λ m data, match m, data with
               | None, 72 :: _ => Ok (Some (-1), [], 1%nat)
               | _, d :: _ :: _ :: _ => Ok (Some (d - 48), [], 3%nat)
               | m, _ => Ok (m, [], 0%nat)
               end)
    (λ _, false) (λ m, match m with Some d => bool_decide (0 <= d + 1 < 11) | None => false end)
    (λ m, bool_decide (m = Some (-1))) (λ m, Z.max 0 (Z.min 9 (default 0 m)))
    (λ m, bool_decide (default 0 m <= 0)).

