(* ===== verification/ClientRequests.v ===== *)
(** What the client sends (sylar/http/http_connection.cc, sylar/http/ws_connection.cc
    and the accessors of sylar/uri.rl): building a request from a URI and the
    caller's headers, one exchange over a connection, and the websocket client. *)

From Stdlib Require Import ZArith Lia.
From stdpp Require Import base numbers option strings tactics sets list list_numbers.
From S2P Require Import Prelude StdSet Text StdMap HashUtil Stream WebSocket Http HttpParser HttpClient.

Local Open Scope Z_scope.

(** ** Uniform resource identifiers *)

(** [class Uri]; the parser that fills it is generated. *)
Record Uri : Type := mkUri {
  u_scheme : list Z;
  u_userinfo : list Z;
  u_host : list Z;
  u_path : list Z;
  u_query : list Z;
  u_fragment : list Z;
  u_port : Z
}.

Definition is_http (u : Uri) : bool :=
  bool_decide (u_scheme u = text "http" ∨ u_scheme u = text "ws").
Definition is_https (u : Uri) : bool :=
  bool_decide (u_scheme u = text "https" ∨ u_scheme u = text "wss").

Definition getPort (u : Uri) : Z :=
  if decide (u_port u ≠ 0) then u_port u
  else if is_http u then 80
  else if is_https u then 443
  else u_port u.

Definition getPath (u : Uri) : list Z :=
  if decide (u_path u = []) then text "/" else u_path u.

(** [isDefaultPort] answers yes for every port of a secure scheme. *)
Definition isDefaultPort (u : Uri) : bool :=
  if decide (u_port u = 0) then true
  else if is_http u then bool_decide (u_port u = 80)
  else if is_https u then true
  else false.

Definition Uri_dump (u : Uri) : list Z :=
  u_scheme u ++ text "://" ++ u_userinfo u ++ (if decide (u_userinfo u = []) then [] else text "@") ++
  u_host u ++ (if isDefaultPort u then [] else text ":" ++ dec (u_port u)) ++
  getPath u ++ optional "?" (u_query u) ++ optional "#" (u_fragment u).

(** ** Headers given by the caller *)

(** The loop over the caller's headers in both [DoRequest] and [doRequest]; it
    gives the request and [has_host]. *)
Fixpoint add_headers (req : HttpRequest) (has_host : bool) (headers : list (list Z * list Z)) :
    HttpRequest * bool :=
  match headers with
  | [] => (req, has_host)
  | (name, value) :: headers =>
    if strcasecmp_eq name (text "connection") then
      let req := if strcasecmp_eq value (text "keep-alive") then setClose req false else req in
      add_headers req has_host headers
    else
      let has_host := if negb has_host && strcasecmp_eq name (text "host")
                      then bool_decide (value ≠ []) else has_host in
      add_headers (setHeader req name value) has_host headers
  end.

(** [HttpConnection::DoRequest(method, uri, timeout_ms, headers, body)], up to
    the exchange. *)
Definition DoRequest_build (method : HttpMethod) (uri : Uri)
    (headers : list (list Z * list Z)) (body : list Z) : HttpRequest :=
  let req := HttpRequest_new 17 true in
  let req := setPath req (getPath uri) in
  let req := setQuery req (u_query uri) in
  let req := setFragment req (u_fragment uri) in
  let req := setMethod req method in
  let '(req, has_host) := add_headers req false headers in
  let req := if has_host then req else setHeader req (text "host") (u_host uri) in
  setBody req body.

(** [HttpConnectionPool::doRequest(method, url, timeout_ms, headers, body)], up
    to the exchange. *)
Definition pool_request (m_host m_vhost : list Z) (method : HttpMethod) (url : list Z)
    (headers : list (list Z * list Z)) (body : list Z) : HttpRequest :=
  let req := HttpRequest_new 17 true in
  let req := setPath req url in
  let req := setMethod req method in
  let req := setClose req false in
  let '(req, has_host) := add_headers req false headers in
  let req := if has_host then req
             else setHeader req (text "Host") (if decide (m_vhost = []) then m_host else m_vhost) in
  setBody req body.

(** The url that [doRequest(method, uri, ...)] passes on. *)
Definition uri_url (uri : Uri) : list Z :=
  getPath uri ++ optional "?" (u_query uri) ++ optional "#" (u_fragment uri).

(** The header loop of [WSConnection::Create]: a host is looked at only as long
    as no connection header has been seen. *)
Fixpoint ws_headers (req : HttpRequest) (has_host has_conn : bool)
    (headers : list (list Z * list Z)) : HttpRequest * bool * bool :=
  match headers with
  | [] => (req, has_host, has_conn)
  | (name, value) :: headers =>
    let '(has_host, has_conn) :=
      if strcasecmp_eq name (text "connection") then (has_host, true)
      else if negb has_conn && strcasecmp_eq name (text "host")
      then (bool_decide (value ≠ []), has_conn) else (has_host, has_conn) in
    ws_headers (setHeader req name value) has_host has_conn headers
  end.

(** The request of [WSConnection::Create]; [rand] are the values of the
    random key. *)
Definition ws_request (uri : Uri) (headers : list (list Z * list Z)) (rand : list Z) : HttpRequest :=
  let req := HttpRequest_new 17 true in
  let req := setPath req (getPath uri) in
  let req := setQuery req (u_query uri) in
  let req := setFragment req (u_fragment uri) in
  let req := setMethod req GET in
  let '(req, has_host, has_conn) := ws_headers req false false headers in
  let req := setWebsocket req true in
  let req := if has_conn then req else setHeader req (text "connection") (text "Upgrade") in
  let req := setHeader req (text "Upgrade") (text "websocket") in
  let req := setHeader req (text "Sec-websocket-Version") (text "13") in
  let req := setHeader req (text "Sec-websocket-Key") (base64encode (random_string rand)) in
  if has_host then req else setHeader req (text "Host") (u_host uri).

(** ** One exchange *)

(** [HttpResult::Status]. *)
Inductive Status : Type :=
| OK | INVALID_URL | INVALID_HOST | CONNECT_FAILURE | SEND_CLOSE_BY_PEER | SEND_SOCKET_ERROR
| TIMEOUT | CREATE_SOCKET_ERROR | POOL_GET_CONNECTION | POOL_INVALID_CONNECTION.

(** [HttpResult], without its message. *)
Record HttpResult : Type := mkResult {
  result : Status;
  response : option HttpResponse
}.

Section exchange.
Context {mem : Memory} (eng : Engine) (cast_u64 : list Z → option Z) (buff_size : nat).

(** The end of both [DoRequest] and [doRequest]. *)
Definition exchange (st : Stream) (req : HttpRequest) : outcome (HttpResult * Stream) :=
  '(rt, st) ← sendRequest st req;
  if decide (rt = 0) then mret (mkResult SEND_CLOSE_BY_PEER None, st)
  else if decide (rt < 0) then mret (mkResult SEND_SOCKET_ERROR None, st)
  else
    '(rsp, st) ← recvResponse eng cast_u64 buff_size st;
    mret (match rsp with
          | None => mkResult TIMEOUT None
          | Some rsp => mkResult OK (Some rsp)
          end, st).

(** [HttpConnection::DoRequest(req, uri, timeout_ms)]: whether an address and a
    socket could be had, and the connection if it was made. *)
Definition DoRequest (req : HttpRequest) (addr sock : bool) (conn : option Stream) :
    outcome HttpResult :=
  if negb addr then mret (mkResult INVALID_HOST None)
  else if negb sock then mret (mkResult CREATE_SOCKET_ERROR None)
  else match conn with
       | None => mret (mkResult CONNECT_FAILURE None)
       | Some st => '(r, _) ← exchange st req; mret r
       end.

(** [HttpConnection::DoRequest(method, url, ...)], and [DoGet] and [DoPost] on a
    url: [uri] is what [Uri::Create] made of it. *)
Definition DoRequest_url (method : HttpMethod) (uri : option Uri) (headers : list (list Z * list Z))
    (body : list Z) (addr sock : bool) (conn : option Stream) : outcome HttpResult :=
  match uri with
  | None => mret (mkResult INVALID_URL None)
  | Some uri => DoRequest (DoRequest_build method uri headers body) addr sock conn
  end.

Definition DoGet := DoRequest_url GET.
Definition DoPost := DoRequest_url POST.

End exchange.

(** ** The headers that are sent *)

#[local] Abbreviation names headers := (fold_case <$> headers.*1) (only parsing).
#[local] Abbreviation conn_name := (fold_case (text "connection")) (only parsing).
#[local] Abbreviation host_name := (fold_case (text "host")) (only parsing).

Definition headers_ok (req : HttpRequest) : Prop := map_ok fold_case bytes_lt (m_headers req).

Lemma setHeader_ok req name value : headers_ok req → headers_ok (setHeader req name value).
Proof. intros. by apply (map_set_ok _ _ bytes_lt_strict). Qed.

Lemma hasHeader_set_eq req name name' value :
  headers_ok req → fold_case name' = fold_case name →
  hasHeader (setHeader req name value) name' = Some value.
Proof. apply (map_find_set_eq _ _ bytes_lt_strict). Qed.

Lemma hasHeader_set_ne req name name' value :
  headers_ok req → fold_case name' ≠ fold_case name →
  hasHeader (setHeader req name value) name' = hasHeader req name'.
Proof. apply (map_find_set_ne _ _ bytes_lt_strict). Qed.

Lemma setClose_ok req v : headers_ok req → headers_ok (setClose req v).
Proof. done. Qed.

#[local] Hint Resolve setHeader_ok setClose_ok : core.

(** Whether the caller asks for a persistent connection. *)
Definition asks_keep_alive (headers : list (list Z * list Z)) : bool :=
  existsb (λ kv, strcasecmp_eq kv.1 (text "connection") && strcasecmp_eq kv.2 (text "keep-alive"))
    headers.

(** What the loop over the caller's headers does. *)
Record added (req : HttpRequest) (headers : list (list Z * list Z)) (req' : HttpRequest) : Prop := {
  added_ok : headers_ok req';
  added_in name value :
    (name, value) ∈ headers → fold_case name ≠ conn_name → hasHeader req' name = Some value;
  added_out key : fold_case key ∉ names headers → hasHeader req' key = hasHeader req key;
  added_conn : hasHeader req' (text "connection") = hasHeader req (text "connection");
  added_method : m_method req' = m_method req;
  added_close : m_close req' = m_close req && negb (asks_keep_alive headers)
}.

Lemma add_headers_added headers : ∀ req has_host,
  headers_ok req → NoDup (names headers) → added req headers (add_headers req has_host headers).1.
Proof.
  induction headers as [|[name value] headers IH]; intros req has_host Hok Hnd; simpl.
  { split; try done; [by intros ?? ?%elem_of_nil|]. by rewrite andb_true_r. }
  apply NoDup_cons in Hnd as [Hni Hnd]. simpl in Hni.
  unfold strcasecmp_eq at 1. case_bool_decide as Hc.
  - destruct (IH (if strcasecmp_eq value (text "keep-alive") then setClose req false else req)
      has_host) as [Hok' Hin Hout Hcn Hme Hcl]; [by case_match; auto|done|]. split; try done.
    + intros n v [[= -> ->]|Hel]%elem_of_cons Hne; [by rewrite Hc in Hne|by apply Hin].
    + intros key [_ Hk]%not_elem_of_cons. rewrite Hout by done. by case_match.
    + rewrite Hcn. by case_match.
    + rewrite Hme. by case_match.
    + rewrite Hcl. unfold asks_keep_alive. simpl.
      replace (strcasecmp_eq name (text "connection")) with true
        by (symmetry; by apply bool_decide_eq_true).
      destruct (strcasecmp_eq value (text "keep-alive")); simpl; [by rewrite andb_false_r|done].
  - destruct (IH (setHeader req name value)
      (if negb has_host && strcasecmp_eq name (text "host") then bool_decide (value ≠ [])
       else has_host)) as [Hok' Hin Hout Hcn Hme Hcl]; [auto|done|]. split; try done.
    + intros n v [[= -> ->]|Hel]%elem_of_cons Hne; [|by apply Hin].
      rewrite Hout by done. by apply hasHeader_set_eq.
    + intros key [Hk1 Hk]%not_elem_of_cons. rewrite Hout by done. by apply hasHeader_set_ne.
    + rewrite Hcn. apply hasHeader_set_ne; [done|congruence].
    + rewrite Hcl. unfold asks_keep_alive. simpl.
      by replace (strcasecmp_eq name (text "connection")) with false
        by (symmetry; by apply bool_decide_eq_false).
Qed.

(** The loop ends with [has_host] set if the caller gave a host. *)
Lemma add_headers_host headers : ∀ req has_host,
  NoDup (names headers) →
  (has_host = true → host_name ∉ names headers) →
  (add_headers req has_host headers).2 = true ↔
    has_host = true ∨ ∃ name value, (name, value) ∈ headers ∧ fold_case name = host_name ∧ value ≠ [].
Proof.
  induction headers as [|[name value] headers IH]; intros req has_host Hnd Hh; simpl.
  { split; [by left|]. intros [?|(? & ? & ?%elem_of_nil & _)]; done. }
  apply NoDup_cons in Hnd as [Hni Hnd]. simpl in Hni, Hh.
  assert ((∃ n v, (n, v) ∈ (name, value) :: headers ∧ fold_case n = host_name ∧ v ≠ []) ↔
    (fold_case name = host_name ∧ value ≠ []) ∨
    ∃ n v, (n, v) ∈ headers ∧ fold_case n = host_name ∧ v ≠ []) as Hex.
  { set_solver. }
  rewrite Hex. unfold strcasecmp_eq at 1. case_bool_decide as Hc.
  - rewrite IH; [|done|]. 2: { intros E. specialize (Hh E). set_solver. }
    split; [tauto|]. intros [?|[[E _]|?]]; [tauto| |tauto]. by rewrite Hc in E.
  - unfold strcasecmp_eq. destruct has_host; simpl.
    + rewrite IH; [tauto|done|]. intros E. specialize (Hh E). set_solver.
    + case_bool_decide as Hho; rewrite IH; try done.
      * rewrite bool_decide_eq_true. split; [intros [?|?]; auto|intros [?|[[? ?]|?]]; auto; done].
      * intros _. by rewrite <-Hho.
      * split; [intros [?|?]; auto|intros [?|[[? ?]|?]]; auto; done].
Qed.

(** The last steps of both builders: the host of the server if the caller gave
    none, and the body. *)
Definition finish_request (built : HttpRequest * bool) (name server body : list Z) : HttpRequest :=
  setBody (if built.2 then built.1 else setHeader built.1 name server) body.

Lemma finish_request_spec req headers name server body :
  headers_ok req → (∀ key, hasHeader req key = None) → NoDup (names headers) →
  fold_case name = host_name →
  let req' := finish_request (add_headers req false headers) name server body in
  m_body req' = body ∧ m_method req' = m_method req ∧
  m_close req' = m_close req && negb (asks_keep_alive headers) ∧
  hasHeader req' (text "connection") = None ∧
  (∀ n v, (n, v) ∈ headers → fold_case n ≠ conn_name → fold_case n ≠ host_name ∨ v ≠ [] →
     hasHeader req' n = Some v) ∧
  ((∀ n v, (n, v) ∈ headers → fold_case n = host_name → v = []) →
     hasHeader req' (text "host") = Some server) ∧
  (∀ key, fold_case key ∉ names headers → fold_case key ≠ host_name → hasHeader req' key = None).
Proof.
  intros Hok Hnone Hnd Hname req'.
  destruct (add_headers_added headers req false Hok Hnd) as [Hok' Hin Hout Hcn Hme Hcl].
  pose proof (add_headers_host headers req false Hnd ltac:(done)) as Hhost.
  assert (conn_name ≠ host_name) as Hch by (by vm_compute).
  unfold req', finish_request. clear req'. split; [done|].
  split; [by destruct (add_headers _ _ _).2|]. split; [by destruct (add_headers _ _ _).2|].
  change (hasHeader (setBody ?r body)) with (hasHeader r).
  destruct (add_headers req false headers) as [r has_host]; simpl in *. destruct has_host; simpl.
  - split; [by rewrite Hcn|]. split; [auto|]. split; [|intros; by rewrite Hout].
    intros Hall. destruct Hhost as [Hhost _].
    destruct (Hhost eq_refl) as [?|(n & v & Hel & Hn & Hv)]; [done|]. by destruct Hv; eapply Hall.
  - split; [rewrite hasHeader_set_ne by (done || congruence); by rewrite Hcn|].
    split; [|split].
    + intros n v Hel Hnc Hor. destruct (decide (fold_case n = host_name)) as [Hnh|Hnh].
      * destruct Hor as [?|Hv]; [done|]. destruct Hhost as [_ Hhost]. discriminate Hhost; eauto 10.
      * rewrite hasHeader_set_ne by (done || congruence). auto.
    + intros _. by apply hasHeader_set_eq.
    + intros key Hk1 Hk2. rewrite hasHeader_set_ne by (done || congruence). by rewrite Hout.
Qed.

(** The requests of the client. For headers whose names differ up to case,
    both builders send every header the caller gave except the connection header,
    which becomes the close flag, and a host that is empty; the request always has
    a host, the caller's or else the server's; and no other header is sent. *)
Theorem client_headers (method : HttpMethod) (uri : Uri) (m_host m_vhost url : list Z)
    (headers : list (list Z * list Z)) (body : list Z) :
  NoDup (fold_case <$> headers.*1) →
  let ok server close req :=
    m_body req = body ∧ m_method req = method ∧ m_close req = close ∧
    hasHeader req (text "connection") = None ∧
    (∀ n v, (n, v) ∈ headers → fold_case n ≠ fold_case (text "connection") →
       fold_case n ≠ fold_case (text "host") ∨ v ≠ [] → hasHeader req n = Some v) ∧
    ((∀ n v, (n, v) ∈ headers → fold_case n = fold_case (text "host") → v = []) →
       hasHeader req (text "host") = Some server) ∧
    (∀ key, fold_case key ∉ fold_case <$> headers.*1 → fold_case key ≠ fold_case (text "host") →
       hasHeader req key = None) in
  ok (u_host uri) (negb (asks_keep_alive headers)) (DoRequest_build method uri headers body) ∧
  ok (if decide (m_vhost = []) then m_host else m_vhost) false
     (pool_request m_host m_vhost method url headers body).
Proof.
  intros Hnd ok. split.
  - unfold DoRequest_build. rewrite (surjective_pairing (add_headers _ _ _)).
    by apply (finish_request_spec (setMethod (setFragment (setQuery (setPath (HttpRequest_new 17 true)
      (getPath uri)) (u_query uri)) (u_fragment uri)) method) headers (text "host")); [constructor|..].
  - unfold pool_request. rewrite (surjective_pairing (add_headers _ _ _)).
    by apply (finish_request_spec (setClose (setMethod (setPath (HttpRequest_new 17 true) url) method)
      false) headers (text "Host")); [constructor|..].
Qed.

Lemma client_headers_witness :
  hasHeader (DoRequest_build GET (mkUri (text "http") [] (text "a.org") [] [] [] 0)
    [(text "Accept", text "*/*"); (text "CONNECTION", text "Keep-Alive"); (text "HOST", [])] [])
    (text "Host") = Some (text "a.org").
Proof.
  destruct (client_headers GET (mkUri (text "http") [] (text "a.org") [] [] [] 0) [] [] []
    [(text "Accept", text "*/*"); (text "CONNECTION", text "Keep-Alive"); (text "HOST", [])] [])
    as [(_ & _ & _ & _ & _ & Hhost & _) _].
  - apply (bool_decide_unpack _). vm_compute. exact I.
  - apply Hhost. intros n v Hel Hn.
    repeat (apply elem_of_cons in Hel as [[= -> ->]|Hel]; [try reflexivity; discriminate Hn|]).
    by apply elem_of_nil in Hel.
Defined.

(** ** The websocket client *)

(** The websocket client (WSConnection::Create and the wrappers of the two sides in
    sylar/http/ws_connection.cc and ws_session.cc): the request of [ClientRequests],
    the server's test of [HttpParser] and the frames of [WebSocket]. *)

From Stdlib Require Import ZArith Lia.
From stdpp Require Import base numbers gmap option strings tactics sets list list_numbers.
From S2P Require Import Prelude StdSet Text StdMap Endian HashUtil Stream WebSocket Http HttpParser HttpClient .

Local Open Scope Z_scope.

(** The codes of [WSConnection::Create]: those of [HttpResult], and 50. *)
Inductive ws_code : Type := WsStatus (s : Status) | NotWebsocketServer.

(** [std::pair<HttpResult::ptr, WSConnection::ptr>]. *)
Record ws_created : Type := mkCreated {
  w_code : ws_code;
  w_response : option HttpResponse;
  w_conn : option Stream
}.

Definition create_failed (s : Status) : ws_created := mkCreated (WsStatus s) None None.

Section create.
Context {mem : Memory} (eng : Engine) (cast_u64 : list Z → option Z) (buff_size : nat).

(** The end of [Create], on a connection. *)
Definition ws_shake (st : Stream) (req : HttpRequest) : outcome ws_created :=
  '(rt, st) ← sendRequest st req;
  if decide (rt = 0) then mret (create_failed SEND_CLOSE_BY_PEER)
  else if decide (rt < 0) then mret (create_failed SEND_SOCKET_ERROR)
  else
    '(rsp, st) ← recvResponse eng cast_u64 buff_size st;
    match rsp with
    | None => mret (create_failed TIMEOUT)
    | Some rsp =>
      if decide (r_status rsp ≠ 101) then mret (mkCreated NotWebsocketServer (Some rsp) None)
      else mret (mkCreated (WsStatus OK) (Some rsp) (Some st))
    end.

(** [WSConnection::Create(uri, timeout_ms, headers)]: whether an address and a socket
    could be had, and the connection if it was made. *)
Definition ws_Create (uri : Uri) (headers : list (list Z * list Z)) (rand : list Z)
    (addr sock : bool) (conn : option Stream) : outcome ws_created :=
  if negb addr then mret (create_failed INVALID_HOST)
  else if negb sock then mret (create_failed CREATE_SOCKET_ERROR)
  else match conn with
       | None => mret (create_failed CONNECT_FAILURE)
       | Some st => ws_shake st (ws_request uri headers rand)
       end.

(** [WSConnection::Create(url, ...)]: [uri] is what [Uri::Create] made of it. *)
Definition ws_Create_url (uri : option Uri) (headers : list (list Z * list Z)) (rand : list Z)
    (addr sock : bool) (conn : option Stream) : outcome ws_created :=
  match uri with
  | None => mret (create_failed INVALID_URL)
  | Some uri => ws_Create uri headers rand addr sock conn
  end.

End create.

(** The wrappers of [WSConnection] and [WSSession]. *)
Section messages.
Context (native : endian) (max_size : Z).

Definition conn_recvMessage (st : Stream) := WSRecvMessage native max_size st true.
Definition conn_sendMessage (st : Stream) (msg : WSFrameMessage) (fin : bool) (rand_value : Z) :=
  WSSendMessage native st msg true fin rand_value.
Definition conn_sendText (st : Stream) (msg : list Z) (opcode : Z) (fin : bool) (rand_value : Z) :=
  conn_sendMessage st (mkMsg opcode msg) fin rand_value.
Definition session_recvMessage (st : Stream) := WSRecvMessage native max_size st false.
Definition session_sendMessage (st : Stream) (msg : WSFrameMessage) (fin : bool) (rand_value : Z) :=
  WSSendMessage native st msg false fin rand_value.
Definition session_sendText (st : Stream) (msg : list Z) (opcode : Z) (fin : bool) (rand_value : Z) :=
  session_sendMessage st (mkMsg opcode msg) fin rand_value.

End messages.

(** ** The handshake *)

Lemma ws_headers_ok headers : ∀ req hh hc, headers_ok req → headers_ok (ws_headers req hh hc headers).1.1.
Proof.
  induction headers as [|[name value] headers IH]; intros req hh hc Hok; simpl; [done|].
  destruct (if _ : bool then _ else _) as [hh' hc']. by apply IH, setHeader_ok.
Qed.

Lemma ws_headers_no_conn headers : ∀ req hh,
  Forall (λ h, strcasecmp_eq h.1 (text "connection") = false) headers → (ws_headers req hh false headers).2 = false.
Proof.
  induction headers as [|[name value] headers IH]; intros req hh; simpl; [done|].
  intros [Hn Hall]%Forall_cons. simpl in Hn. rewrite Hn. simpl. destruct (strcasecmp_eq name (text "host")); by apply IH.
Qed.

Lemma base64encode_nonempty data : data ≠ [] → base64encode data ≠ [].
Proof. by destruct data. Qed.

(** What the client asks for is what the server tests. *)
Lemma ws_request_passes cast_int uri headers rand :
  Forall (λ h, strcasecmp_eq h.1 (text "connection") = false) headers → rand ≠ [] →
  cast_int (text "13") = Some 13 →
  shake_key cast_int (ws_request uri headers rand) = Some (base64encode (random_string rand)).
Proof.
  intros Hno Hrand Hcast. unfold ws_request. set (req0 := setMethod _ _).
  pose proof (ws_headers_ok headers req0 false false ltac:(constructor)) as Hok.
  pose proof (ws_headers_no_conn headers req0 false Hno) as Hconn.
  destruct (ws_headers req0 false false headers) as [[req1 hh] hc]. simpl in *. subst hc.
  set (key := base64encode _). assert (key ≠ []) as Hkey.
  { apply base64encode_nonempty. unfold random_string. by destruct rand. }
  clearbody key. set (req2 := setWebsocket req1 true). assert (headers_ok req2) as Hok2 by done. clearbody req2.
  set (req3 := setHeader _ (text "Sec-websocket-Key") key).
  assert (headers_ok req3) as Hok3 by (by repeat apply setHeader_ok).
  assert (hasHeader req3 (text "Upgrade") = Some (text "websocket") ∧
    hasHeader req3 (text "Connection") = Some (text "Upgrade") ∧
    hasHeader req3 (text "Sec-WebSocket-Version") = Some (text "13") ∧
    hasHeader req3 (text "Sec-WebSocket-Key") = Some key) as (H1 & H2 & H3 & H4).
  { subst req3. split_and!;
      repeat (rewrite hasHeader_set_ne; [|by repeat apply setHeader_ok|by vm_compute]);
      (apply hasHeader_set_eq; [by repeat apply setHeader_ok|by vm_compute]). }
  clearbody req3. set (req4 := if hh then req3 else _).
  assert (∀ k v, fold_case k ≠ fold_case (text "Host") → hasHeader req3 k = Some v → h_find (m_headers req4) k = Some v) as Hkeep.
  { intros k v Hk Hv. subst req4. destruct hh; [done|]. change (hasHeader (setHeader req3 (text "Host") (u_host uri)) k = Some v).
    by rewrite hasHeader_set_ne. }
  clearbody req4. apply Hkeep in H1, H2, H3, H4; [|by vm_compute..]. unfold shake_key, getHeader, getAs.
  rewrite H1, H2, H3, H4. simpl default. rewrite Hcast. simpl. by rewrite decide_False.
Qed.

(** The handshake of the two sides. A client without a connection header of its own
    sends one request, which a server that reads its headers off the wire accepts,
    whatever else the caller's headers say; the answer of the server is all it
    writes, and carries the accept value of the client's random key. The client has a
    connection, behind that answer, exactly when it reads an answer with status 101;
    otherwise it has the reason. *)
Theorem ws_handshake_agrees (mem : Memory) (eng_c eng_s : Engine) (cast_u64 cast_int : list Z → option Z) (buff_size : nat)
    (sha1sum : list Z → list Z) (uri : Uri) (headers : list (list Z * list Z)) (rand : list Z)
    (client server server1 : Stream) (req' : HttpRequest) :
  let req := ws_request uri headers rand in
  let key := base64encode (random_string rand) in
  Forall (λ h, strcasecmp_eq h.1 (text "connection") = false) headers → rand ≠ [] → cast_int (text "13") = Some 13 →
  healthy client → Z.of_nat (length (dump req)) < 2 ^ 31 →
  recvRequest eng_s cast_u64 buff_size server = Ok (Some req', server1) → m_headers req' = m_headers req →
  healthy server1 → Z.of_nat (length (r_dump (shake_response sha1sum req' key))) < 2 ^ 31 →
  (∃ server', handleShake eng_s cast_u64 buff_size sha1sum cast_int server = Ok (Some (setWebsocket req' true), server') ∧
    s_in server' = s_in server1 ∧ s_out server' = s_out server1 ++ r_dump (shake_response sha1sum req' key)) ∧
  ∃ client1, sendRequest client req = Ok (Z.of_nat (length (dump req)), client1) ∧ s_in client1 = s_in client ∧ s_out client1 = s_out client ++ dump req ∧
    ∀ rsp client2, recvResponse eng_c cast_u64 buff_size client1 = Ok (rsp, client2) →
      ws_Create eng_c cast_u64 buff_size uri headers rand true true (Some client) =
        Ok match rsp with
           | None => create_failed TIMEOUT
           | Some r => if decide (r_status r = 101) then mkCreated (WsStatus OK) rsp (Some client2)
                       else mkCreated NotWebsocketServer rsp None
           end.
Proof.
  intros req key Hno Hrand Hcast Hc Hlen Hreq Hheaders Hs Hlen'.
  assert (shake_key cast_int req' = Some key) as Hkey.
  { transitivity (shake_key cast_int req); [|by apply ws_request_passes]. unfold shake_key, getHeader. by rewrite Hheaders. }
  split.
  - unfold handleShake. rewrite Hreq. osimpl. rewrite Hkey. unfold sendResponse.
    change (shake_response sha1sum (setWebsocket req' true) key) with (shake_response sha1sum req' key).
    destruct (writeFixSize_healthy server1 _ Hs Hlen') as (server' & -> & ? & ? & _). osimpl. eauto.
  - destruct (writeFixSize_healthy client _ Hc Hlen) as (client1 & E & Hin & Hout & _). exists client1.
    split_and!; [done..|]. intros rsp client2 Hrsp. unfold ws_Create, ws_shake, sendRequest. simpl. fold req.
    rewrite E. osimpl. assert (0 < length (dump req))%nat by (unfold dump; rewrite !length_app; simpl; lia).
    rewrite !decide_False by lia. rewrite Hrsp. osimpl. destruct rsp as [r|]; [|done].
    destruct (decide (r_status r = 101)) as [->|]; [by rewrite decide_False by tauto|by rewrite decide_True].
Qed.

(** A server's machine that reports the headers of the client's request, and a
    client's that reports status 101. *)
Definition chat_uri : Uri := mkUri (text "ws") [] (text "a.org") (text "/chat") [] [] 0.
Definition chat_request : HttpRequest := ws_request chat_uri [(text "Origin", text "b.org")] [7; 8; 9].

Definition reads_chat : Engine :=
  mkEngine bool false
    (λ _ data, Ok (true, (λ kv, EvField kv.1 (length kv.1) kv.2 (length kv.2)) <$> m_headers chat_request, length data))
    (λ _, false) id (λ _, false) (λ _, 0) (λ _, false).

Definition reads_101 : Engine :=
  mkEngine bool false (λ _ data, Ok (true, [EvStatus (text "101") 3], length data))
    (λ _, false) id (λ _, false) (λ _, 0) (λ _, false).

Definition server_stream : Stream := mkStream (text "GET /chat") [] [] true.

Definition chat_received : HttpRequest :=
  default (HttpRequest_new 17 true)
    match recvRequest (mem := gigabyte) reads_chat (λ _, None) 64 server_stream with Ok (r, _) => r | _ => None end.

Lemma ws_handshake_agrees_witness :
  ∃ server' created,
    handleShake (mem := gigabyte) reads_chat (λ _, None) 64 (take 20) (λ _, Some 13) server_stream =
      Ok (Some (setWebsocket chat_received true), server') ∧
    ws_Create (mem := gigabyte) reads_101 (λ _, None) 64 chat_uri [(text "Origin", text "b.org")] [7; 8; 9] true true
      (Some (mkStream (text "HTTP/1.1 101") [] [IoUpTo 30] true)) = Ok created ∧
    w_code created = WsStatus OK.
Proof.
  destruct (ws_handshake_agrees gigabyte reads_101 reads_chat (λ _, None) (λ _, Some 13) 64 (take 20) chat_uri
    [(text "Origin", text "b.org")] [7; 8; 9] (mkStream (text "HTTP/1.1 101") [] [IoUpTo 30] true)
    server_stream (mkStream [] [] [] true) chat_received) as [(server' & Hs & _) (client1 & Hsend & _ & _ & Hc)].
  - repeat constructor.
  - discriminate.
  - reflexivity.
  - split; [reflexivity|repeat constructor].
  - vm_compute. reflexivity.
  - vm_compute. reflexivity.
  - vm_compute. reflexivity.
  - split; [reflexivity|constructor].
  - vm_compute. reflexivity.
  - vm_compute in Hsend. injection Hsend as <-. eexists server', _. split; [exact Hs|]. split; [|].
    + apply Hc. vm_compute. reflexivity.
    + reflexivity.
Defined.
