(* ===== verification/ConnPool.v ===== *)
(** The pool of client connections ([HttpConnectionPool] of
    sylar/http/http_connection.cc): connections are objects of a heap, the pool
    lists the idle ones and counts them all; and the requests over the pool. *)

From Stdlib Require Import ZArith Lia.
From stdpp Require Import base numbers gmap fin_map_dom option strings tactics sets list list_numbers.
From S2P Require Import Prelude Text.

Local Open Scope Z_scope.

(** ** The state *)

(** The parts of [HttpConnection] the pool looks at; [conn_up] is what
    [isConnected] answers. *)
Record HttpConnection : Type := mkConn {
  m_createdTime : Z;
  m_request : Z;
  conn_up : bool
}.

(** [class HttpConnectionPool], with the heap its connections live in. *)
Record HttpConnectionPool : Type := mkPool {
  m_maxAliveTime : Z;
  m_maxRequest : Z;
  m_conns : list positive;
  m_total : Z;
  heap : gmap positive HttpConnection
}.

(** [new HttpConnection(sock)]: nobody sets the creation time. *)
Definition HttpConnection_new : HttpConnection := mkConn 0 0 true.

Definition HttpConnectionPool_new (max_alive_time max_request : Z) : HttpConnectionPool :=
  mkPool max_alive_time max_request [] 0 ∅.

Definition set_pool (p : HttpConnectionPool) (conns : list positive) (total : Z)
    (h : gmap positive HttpConnection) : HttpConnectionPool :=
  mkPool (m_maxAliveTime p) (m_maxRequest p) conns total h.

(** ** Operations *)

(** The loop of [getConnection] over the idle connections: what is left of the
    list, the invalid ones and the one to use. [pop_front] on an empty list is
    undefined. *)
Fixpoint pick (p : HttpConnectionPool) (now_ms : Z) (conns invalid : list positive) :
    outcome (list positive * list positive * option positive) :=
  match conns with
  | [] => mret ([], invalid, None)
  | conn :: conns =>
    c ← deref (heap p !! conn);
    if negb (conn_up c) then pick p now_ms conns (invalid ++ [conn])
    else if decide (now_ms < u64 (m_createdTime c + m_maxAliveTime p)) then
      match conns with
      | [] => Stuck
      | _ :: conns => mret (conns, invalid ++ [conn], Some conn)
      end
    else mret (conns, invalid, Some conn)
  end.

(** [HttpConnectionPool::getConnection]: [fresh] is the object made by [new] if
    a new connection is needed and could be opened. *)
Definition getConnection (p : HttpConnectionPool) (now_ms : Z) (fresh : option positive) :
    outcome (option positive * HttpConnectionPool) :=
  '(conns, invalid, ptr) ← pick p now_ms (m_conns p) [];
  let h := foldr delete (heap p) invalid in
  let total := s32 (m_total p - Z.of_nat (length invalid)) in
  mret match ptr, fresh with
       | Some conn, _ => (Some conn, set_pool p conns total h)
       | None, None => (None, set_pool p conns total h)
       | None, Some conn =>
         (Some conn, set_pool p conns (s32 (total + 1)) (<[conn := HttpConnection_new]> h))
       end.

(** [HttpConnectionPool::ReleasePtr]. *)
Definition ReleasePtr (p : HttpConnectionPool) (now_ms : Z) (ptr : positive) :
    outcome HttpConnectionPool :=
  c ← deref (heap p !! ptr);
  let c := mkConn (m_createdTime c) (u64 (m_request c + 1)) (conn_up c) in
  mret (if negb (conn_up c) || bool_decide (now_ms <= u64 (m_createdTime c + m_maxAliveTime p)) ||
           bool_decide (m_maxRequest p <= m_request c)
        then set_pool p (m_conns p) (s32 (m_total p - 1)) (delete ptr (heap p))
        else set_pool p (m_conns p ++ [ptr]) (m_total p) (<[ptr := c]> (heap p))).

(** The connection breaks down. *)
Definition disconnect (p : HttpConnectionPool) (ptr : positive) : HttpConnectionPool :=
  set_pool p (m_conns p) (m_total p)
    (alter (λ c, mkConn (m_createdTime c) (m_request c) false) ptr (heap p)).

(** ** Reachable pools *)

(** A pool together with the connections that are in use. The clock counts
    milliseconds since 1970 and is past 2^32, and the maximum age is 32 bits
    wide. *)
Inductive pool_step (out : list positive) (p : HttpConnectionPool) :
    list positive → HttpConnectionPool → Prop :=
| step_get now_ms fresh conn p' :
    2 ^ 32 <= now_ms → (∀ f, fresh = Some f → heap p !! f = None) →
    getConnection p now_ms fresh = Ok (Some conn, p') → pool_step out p (conn :: out) p'
| step_get_failed now_ms p' :
    2 ^ 32 <= now_ms → getConnection p now_ms None = Ok (None, p') → pool_step out p out p'
| step_release now_ms ptr l1 l2 p' :
    2 ^ 32 <= now_ms → out = l1 ++ ptr :: l2 → ReleasePtr p now_ms ptr = Ok p' →
    pool_step out p (l1 ++ l2) p'
| step_disconnect ptr : pool_step out p out (disconnect p ptr).

Inductive pool_reachable (max_alive_time max_request : Z) : list positive → HttpConnectionPool → Prop :=
| pool_start : pool_reachable max_alive_time max_request [] (HttpConnectionPool_new max_alive_time max_request)
| pool_next out p out' p' :
    pool_reachable max_alive_time max_request out p → pool_step out p out' p' →
    pool_reachable max_alive_time max_request out' p'.

(** Every connection is either idle or in use, once, and counted. *)
Record pool_inv (out : list positive) (p : HttpConnectionPool) : Prop := {
  inv_nodup : NoDup (m_conns p ++ out);
  inv_heap c : is_Some (heap p !! c) ↔ c ∈ m_conns p ++ out;
  inv_total : m_total p = s32 (Z.of_nat (size (heap p)));
  inv_created c conn : heap p !! c = Some conn → m_createdTime conn = 0;
  inv_age : 0 <= m_maxAliveTime p < 2 ^ 32
}.

(** ** Safety *)

Section safety.
Context (p : HttpConnectionPool) (out : list positive) (now_ms : Z).
Context (Hinv : pool_inv out p) (Hnow : 2 ^ 32 <= now_ms).

Lemma not_expired c conn :
  heap p !! c = Some conn → u64 (m_createdTime conn + m_maxAliveTime p) < now_ms.
Proof.
  intros Hc. rewrite (inv_created _ _ Hinv _ _ Hc). pose proof (inv_age _ _ Hinv).
  rewrite uwrap_small by (unfold in_unsigned; lia). lia.
Qed.

Definition up (c : positive) : Prop := conn_up <$> heap p !! c = Some true.
Definition down (c : positive) : Prop := conn_up <$> heap p !! c = Some false.

(** The loop discards the broken connections up to the first one that is up. *)
Lemma pick_spec conns : ∀ invalid,
  Forall (λ c, is_Some (heap p !! c)) conns →
  ∃ bad rest ptr, pick p now_ms conns invalid = Ok (rest, invalid ++ bad, ptr) ∧
    Forall down bad ∧
    match ptr with
    | Some c => conns = bad ++ c :: rest ∧ up c
    | None => conns = bad ∧ rest = []
    end.
Proof.
  induction conns as [|c conns IH]; intros invalid Hall; simpl.
  { exists [], [], None. by rewrite app_nil_r. }
  apply Forall_cons in Hall as [[conn Hc] Hall]. rewrite Hc. osimpl.
  destruct (conn_up conn) eqn:Hup; simpl.
  - rewrite decide_False by (pose proof (not_expired _ _ Hc); lia).
    exists [], conns, (Some c). rewrite app_nil_r. split_and!; try done. unfold up.
    by rewrite Hc; simpl; rewrite Hup.
  - destruct (IH (invalid ++ [c]) Hall) as (bad & rest & ptr & -> & Hbad & Hptr).
    exists (c :: bad), rest, ptr. rewrite <-(assoc_L (++)). split_and!; [done| |].
    + constructor; [|done]. unfold down. rewrite Hc. simpl. by rewrite Hup.
    + destruct ptr; simpl; naive_solver.
Qed.

Lemma idle_allocated : Forall (λ c, is_Some (heap p !! c)) (m_conns p).
Proof. apply Forall_forall. intros c Hc. apply (inv_heap _ _ Hinv). set_solver. Qed.

(** [pick] from the pool's own list. *)
Lemma pick_idle :
  ∃ bad rest ptr, pick p now_ms (m_conns p) [] = Ok (rest, bad, ptr) ∧ Forall down bad ∧
    m_conns p = bad ++ option_list ptr ++ rest ∧
    match ptr with Some c => up c | None => rest = [] end.
Proof.
  destruct (pick_spec (m_conns p) [] idle_allocated) as (bad & rest & ptr & E & Hbad & Hptr).
  exists bad, rest, ptr. split_and!; [done|done|..].
  - destruct ptr as [c|]; [by destruct Hptr|]. destruct Hptr as [-> ->]. by rewrite app_nil_r.
  - destruct ptr; naive_solver.
Qed.

Lemma size_delete_all (l : list positive) (h : gmap positive HttpConnection) :
  NoDup l → (∀ c, c ∈ l → is_Some (h !! c)) →
  Z.of_nat (size (foldr delete h l)) = Z.of_nat (size h) - Z.of_nat (length l).
Proof.
  induction l as [|c l IH]; intros Hnd Hall; simpl; [lia|].
  apply NoDup_cons in Hnd as [Hc Hnd].
  rewrite map_size_delete_Some.
  - specialize (IH Hnd ltac:(set_solver)).
    assert (size (foldr delete h l) ≠ 0%nat) as Hne.
    { intros E%map_size_empty_inv. destruct (Hall c) as [x Hx]; [set_solver|].
      rewrite <-(lookup_foldr_delete_not_elem_of h l c) in Hx by done. by rewrite E, lookup_empty in Hx. }
    lia.
  - rewrite lookup_foldr_delete_not_elem_of by done. apply Hall. set_solver.
Qed.

(** What is left after the broken connections have been deleted. *)
Lemma discard_inv bad kept :
  m_conns p = bad ++ kept →
  pool_inv out (set_pool p kept (s32 (m_total p - Z.of_nat (length bad)))
                  (foldr delete (heap p) bad)).
Proof.
  intros Hsplit. destruct Hinv as [Hnd Hheap Htot Hcr Hage].
  rewrite Hsplit, <-(assoc_L (++)) in Hnd, Hheap. apply NoDup_app in Hnd as (Hndb & Hdis & Hnd).
  split; simpl; [done| | | |done].
  - intros c. destruct (decide (c ∈ bad)) as [Hb|Hb].
    + rewrite lookup_foldr_delete by done. split; [by intros []|]. intros Hk. by destruct (Hdis c).
    + rewrite lookup_foldr_delete_not_elem_of by done. rewrite Hheap. set_solver.
  - rewrite size_delete_all; [|done|intros c Hc; apply Hheap; set_solver].
    rewrite Htot. unfold Z.sub. by rewrite swrap_add by lia.
  - intros c conn Hc. apply (Hcr c). destruct (decide (c ∈ bad)) as [Hb|Hb].
    + by rewrite lookup_foldr_delete in Hc.
    + by rewrite lookup_foldr_delete_not_elem_of in Hc.
Qed.

End safety.

(** Moving an idle connection to the ones in use. *)
Lemma hand_out_inv out p conn rest :
  pool_inv out p → m_conns p = conn :: rest →
  pool_inv (conn :: out) (set_pool p rest (m_total p) (heap p)).
Proof.
  intros [Hnd Hheap Htot Hcr Hage] E. rewrite E in Hnd, Hheap. split; simpl; try done.
  - by rewrite <-Permutation_middle.
  - intros c. rewrite Hheap. set_solver.
Qed.

(** A new connection. *)
Lemma fresh_inv out p conn :
  pool_inv out p → heap p !! conn = None →
  pool_inv (conn :: out) (set_pool p (m_conns p) (s32 (m_total p + 1))
                            (<[conn := HttpConnection_new]> (heap p))).
Proof.
  intros [Hnd Hheap Htot Hcr Hage] Hnone.
  assert (conn ∉ m_conns p ++ out) as Hni.
  { rewrite <-Hheap, Hnone. by intros []. }
  split; simpl; try done.
  - rewrite <-Permutation_middle. by constructor.
  - intros c. rewrite lookup_insert_is_Some, Hheap.
    destruct (decide (conn = c)) as [->|]; set_solver.
  - rewrite map_size_insert_None by done. rewrite Htot, swrap_add by lia. f_equal. lia.
  - intros c x. destruct (decide (c = conn)) as [->|Hne].
    + rewrite lookup_insert_eq. by intros [= <-].
    + rewrite lookup_insert_ne by done. apply Hcr.
Qed.

Lemma getConnection_inv out p now_ms fresh :
  pool_inv out p → 2 ^ 32 <= now_ms → (∀ f, fresh = Some f → heap p !! f = None) →
  ∃ ptr p', getConnection p now_ms fresh = Ok (ptr, p') ∧ pool_inv (option_list ptr ++ out) p' ∧
    ∃ bad rest, Forall (down p) bad ∧
      match ptr with
      | Some c => m_conns p = bad ++ c :: rest ∧ m_conns p' = rest ∧ up p c ∨
                  m_conns p = bad ∧ m_conns p' = [] ∧ fresh = Some c
      | None => m_conns p = bad ∧ m_conns p' = [] ∧ fresh = None
      end.
Proof.
  intros Hinv Hnow Hfresh. unfold getConnection.
  destruct (pick_idle p out now_ms Hinv Hnow) as (bad & rest & ptr & -> & Hbad & Hsplit & Hptr).
  osimpl. pose proof (discard_inv p out now_ms Hinv Hnow bad _ Hsplit) as Hd.
  destruct ptr as [c|]; simpl in *; [|subst rest; destruct fresh as [f|]].
  - eexists (Some c), _. split; [done|]. split; [|exists bad, rest; by auto].
    by apply (hand_out_inv _ _ _ _ Hd).
  - eexists (Some f), _. split; [done|]. rewrite app_nil_r in Hsplit.
    split; [|exists bad, []; by auto].
    apply (fresh_inv _ _ f Hd). simpl.
    destruct (decide (f ∈ bad)); [by apply lookup_foldr_delete|].
    rewrite lookup_foldr_delete_not_elem_of by done. by apply Hfresh.
  - eexists None, _. split; [done|]. rewrite app_nil_r in Hsplit.
    split; [done|]. by exists bad, [].
Qed.

(** A connection in use that is deleted. *)
Lemma release_drop out p ptr :
  ptr ∉ m_conns p ++ out → NoDup (m_conns p ++ out) →
  (∀ c, is_Some (heap p !! c) ↔ c = ptr ∨ c ∈ m_conns p ++ out) →
  m_total p = s32 (Z.of_nat (size (heap p))) →
  (∀ c conn, heap p !! c = Some conn → m_createdTime conn = 0) → 0 <= m_maxAliveTime p < 2 ^ 32 →
  pool_inv out (set_pool p (m_conns p) (s32 (m_total p - 1)) (delete ptr (heap p))).
Proof.
  intros Hni Hnd Hheap Htot Hcr Hage. split; simpl; try done.
  - intros c. rewrite lookup_delete_is_Some, Hheap. set_solver.
  - rewrite Htot. unfold Z.sub. rewrite swrap_add by lia. f_equal.
    rewrite map_size_delete_Some by (apply Hheap; by left).
    assert (size (heap p) ≠ 0%nat) as Hne; [|lia].
    intros E%map_size_empty_inv. destruct (proj2 (Hheap ptr)) as [x Hx]; [by left|].
    by rewrite E, lookup_empty in Hx.
  - intros c conn [_ Hc]%lookup_delete_Some. by apply (Hcr c).
Qed.

Lemma ReleasePtr_inv l1 ptr l2 p now_ms :
  pool_inv (l1 ++ ptr :: l2) p → 2 ^ 32 <= now_ms →
  ∃ conn, heap p !! ptr = Some conn ∧
  ∃ p', ReleasePtr p now_ms ptr = Ok p' ∧ pool_inv (l1 ++ l2) p' ∧
    m_conns p' = (if conn_up conn && bool_decide (u64 (m_request conn + 1) < m_maxRequest p)
                  then m_conns p ++ [ptr] else m_conns p).
Proof.
  intros Hinv Hnow.
  destruct (proj2 (inv_heap _ _ Hinv ptr)) as [conn Hc]; [set_solver|].
  exists conn. split; [done|]. unfold ReleasePtr. rewrite Hc. osimpl.
  pose proof (not_expired p _ now_ms Hinv Hnow ptr conn Hc) as Hexp.
  cbn [conn_up m_createdTime m_request].
  rewrite (bool_decide_false (now_ms <= _)), orb_false_r by lia.
  destruct Hinv as [Hnd Hheap Htot Hcr Hage].
  assert (Permutation (m_conns p ++ l1 ++ ptr :: l2) (ptr :: m_conns p ++ l1 ++ l2)) as Hperm
    by (by rewrite !Permutation_middle).
  rewrite Hperm in Hnd. apply NoDup_cons in Hnd as [Hni Hnd].
  assert (∀ c, is_Some (heap p !! c) ↔ c = ptr ∨ c ∈ m_conns p ++ l1 ++ l2) as Hheap'.
  { intros c. rewrite Hheap, Hperm. apply elem_of_cons. }
  eexists. split; [done|].
  destruct (conn_up conn); simpl; [case_bool_decide as Hm; [rewrite bool_decide_false by lia|
    rewrite bool_decide_true by lia]|]; (split; [|done]).
  - apply release_drop; done.
  - split; simpl; try done.
    + rewrite <-(assoc_L (++)). simpl. by rewrite <-Permutation_middle; constructor.
    + intros c. rewrite lookup_insert_is_Some, Hheap'. set_solver.
    + rewrite map_size_insert_Some by done. done.
    + intros c x. destruct (decide (c = ptr)) as [->|Hne].
      * rewrite lookup_insert_eq. intros [= <-]. simpl. by apply (Hcr ptr conn).
      * rewrite lookup_insert_ne by done. apply Hcr.
  - apply release_drop; done.
Qed.

Lemma disconnect_inv out p ptr : pool_inv out p → pool_inv out (disconnect p ptr).
Proof.
  intros [Hnd Hheap Htot Hcr Hage]. split; simpl; try done.
  - intros c. by rewrite lookup_alter_is_Some.
  - rewrite Htot. do 2 f_equal. by rewrite <-!(size_dom (D := gset positive)), dom_alter_L.
  - intros c conn. rewrite lookup_alter_Some.
    intros [(_ & x & Hx & ->)|[_ Hx]]; [simpl; by apply (Hcr c x)|by apply (Hcr c)].
Qed.

Lemma pool_step_inv out p out' p' : pool_inv out p → pool_step out p out' p' → pool_inv out' p'.
Proof.
  intros Hinv Hstep. destruct Hstep as [now fresh conn p' Hnow Hf E|now p' Hnow E|
    now ptr l1 l2 p' Hnow -> E|ptr]; [..|by apply disconnect_inv].
  - destruct (getConnection_inv out p now fresh Hinv Hnow Hf) as (ptr & p1 & E1 & Hi & _).
    rewrite E in E1. by injection E1 as <- <-.
  - destruct (getConnection_inv out p now None Hinv Hnow ltac:(done)) as (ptr & p1 & E1 & Hi & _).
    rewrite E in E1. by injection E1 as <- <-.
  - destruct (ReleasePtr_inv l1 ptr l2 p now Hinv Hnow) as (conn & _ & p1 & E1 & Hi & _).
    rewrite E in E1. by injection E1 as <-.
Qed.

Lemma pool_reachable_inv ma mr out p :
  0 <= ma < 2 ^ 32 → pool_reachable ma mr out p → pool_inv out p.
Proof.
  intros Hma. induction 1 as [|out p out' p' _ IH Hs]; [|by eapply pool_step_inv].
  split; simpl; try done. constructor. intros c. rewrite lookup_empty. split; [by intros []|set_solver].
Qed.

(** Whatever connections were taken, released and broken, in any order, the
    pool is consistent: every connection that exists is idle or in use, exactly
    once; [m_total] counts them; and no operation touches a deleted connection or
    pops an empty list, so that [getConnection] and the release of a connection in
    use always succeed. *)
Theorem pool_accounting (max_alive_time max_request : Z) (out : list positive)
    (p : HttpConnectionPool) (now_ms : Z) :
  0 <= max_alive_time < 2 ^ 32 → pool_reachable max_alive_time max_request out p →
  2 ^ 32 <= now_ms →
  NoDup (m_conns p ++ out) ∧ (∀ c, is_Some (heap p !! c) ↔ c ∈ m_conns p ++ out) ∧
  m_total p = s32 (Z.of_nat (length (m_conns p) + length out)) ∧
  is_ok (getConnection p now_ms None) = true ∧
  (∀ f, heap p !! f = None → is_ok (getConnection p now_ms (Some f)) = true) ∧
  (∀ c, c ∈ out → is_ok (ReleasePtr p now_ms c) = true).
Proof.
  intros Hma Hr Hnow. pose proof (pool_reachable_inv _ _ _ _ Hma Hr) as Hinv.
  split_and!; try apply Hinv.
  - rewrite (inv_total _ _ Hinv). do 2 f_equal. rewrite <-length_app.
    rewrite <-(size_list_to_set (C := gset positive)) by apply Hinv.
    rewrite <-(size_dom (D := gset positive)). f_equal. apply set_eq. intros c.
    rewrite elem_of_dom, elem_of_list_to_set. apply Hinv.
  - by destruct (getConnection_inv out p now_ms None Hinv Hnow) as (? & ? & -> & _).
  - intros f Hf. destruct (getConnection_inv out p now_ms (Some f) Hinv Hnow) as (? & ? & -> & _);
      [|done]. by intros ? [= <-].
  - intros c (l1 & l2 & ->)%list_elem_of_split.
    by destruct (ReleasePtr_inv l1 c l2 p now_ms Hinv Hnow) as (? & _ & ? & -> & _).
Qed.

Lemma pool_accounting_witness :
  m_total (set_pool (HttpConnectionPool_new 1000 10) [] 1 {[1%positive := HttpConnection_new]}) = 1.
Proof.
  destruct (pool_accounting 1000 10 [1%positive]
    (set_pool (HttpConnectionPool_new 1000 10) [] 1 {[1%positive := HttpConnection_new]})
    (2 ^ 33)) as (_ & _ & Htot & _).
  - lia.
  - eapply pool_next; [apply pool_start|].
    apply (step_get _ _ (2 ^ 33) (Some 1%positive)); [lia|intros f [= <-]; reflexivity|].
    vm_compute. reflexivity.
  - lia.
  - exact Htot.
Defined.

(** The first connection of a list that is up is unique. *)
Lemma first_up p bad c rest : ∀ bad' c' rest',
  bad ++ c :: rest = bad' ++ c' :: rest' → Forall (down p) bad → Forall (down p) bad' →
  up p c → up p c' → c = c' ∧ rest = rest'.
Proof.
  unfold up, down. induction bad as [|b bad IH]; intros [|b' bad'] c' rest'; simpl;
    intros [= -> E] Hb Hb' Hc Hc'.
  - done.
  - apply Forall_cons in Hb' as [? _]. congruence.
  - apply Forall_cons in Hb as [? _]. congruence.
  - apply Forall_cons in Hb as [_ ?], Hb' as [_ ?]. by eapply IH.
Qed.

(** The maximum age has no effect, because the creation time of a
    connection is never set: however old the connections are, [getConnection]
    gives the first idle one that is still connected and keeps those behind it,
    and [ReleasePtr] keeps every connected one with fewer than the maximum number
    of requests. *)
Theorem pool_never_expires (max_alive_time max_request : Z) (out : list positive)
    (p : HttpConnectionPool) (now_ms : Z) :
  0 <= max_alive_time < 2 ^ 32 → pool_reachable max_alive_time max_request out p →
  2 ^ 32 <= now_ms →
  (∀ bad c rest, m_conns p = bad ++ c :: rest → Forall (down p) bad → up p c →
     ∃ p', getConnection p now_ms None = Ok (Some c, p') ∧ m_conns p' = rest) ∧
  (∀ c conn, c ∈ out → heap p !! c = Some conn → conn_up conn = true →
     u64 (m_request conn + 1) < m_maxRequest p →
     ∃ p', ReleasePtr p now_ms c = Ok p' ∧ m_conns p' = m_conns p ++ [c]).
Proof.
  intros Hma Hr Hnow. pose proof (pool_reachable_inv _ _ _ _ Hma Hr) as Hinv. split.
  - intros bad c rest Hsplit Hbad Hup.
    destruct (getConnection_inv out p now_ms None Hinv Hnow ltac:(done)) as
      (ptr & p' & -> & _ & bad' & rest' & Hbad' & Hptr).
    assert (∀ b, m_conns p = b → ¬ Forall (down p) b) as Hno.
    { intros b Hb Hall. rewrite <-Hb, Hsplit in Hall.
      apply Forall_app in Hall as [_ [Hc _]%Forall_cons]. unfold up, down in *. congruence. }
    destruct ptr as [c'|]; [|by destruct Hptr as (Hb & _); destruct (Hno _ Hb)].
    destruct Hptr as [(Hs' & Hr' & Hup')|(Hb & _)]; [|by destruct (Hno _ Hb)].
    rewrite Hsplit in Hs'. destruct (first_up p bad c rest bad' c' rest') as [-> ->]; try done.
    by exists p'.
  - intros c conn (l1 & l2 & ->)%list_elem_of_split Hc Hup Hlt.
    destruct (ReleasePtr_inv l1 c l2 p now_ms Hinv Hnow) as (conn' & Hc' & p' & -> & _ & Hcs).
    rewrite Hc in Hc'. injection Hc' as <-. exists p'. split; [done|].
    by rewrite Hcs, Hup, bool_decide_true by done.
Qed.

Lemma pool_never_expires_witness :
  ∃ p', ReleasePtr (set_pool (HttpConnectionPool_new 1000 10) [] 1
                      {[1%positive := HttpConnection_new]}) (2 ^ 60) 1 = Ok p' ∧
        m_conns p' = [1%positive].
Proof.
  destruct (pool_never_expires 1000 10 [1%positive]
    (set_pool (HttpConnectionPool_new 1000 10) [] 1 {[1%positive := HttpConnection_new]})
    (2 ^ 60)) as [_ Hrel].
  - lia.
  - eapply pool_next; [apply pool_start|].
    apply (step_get _ _ (2 ^ 33) (Some 1%positive)); [lia|intros f [= <-]; reflexivity|].
    vm_compute. reflexivity.
  - lia.
  - apply (Hrel 1%positive HttpConnection_new);
      [apply list_elem_of_singleton; reflexivity|reflexivity|reflexivity|vm_compute; reflexivity].
Defined.

(** ** Requests over the pool *)

(** Requests over the connection pool (HttpConnectionPool::doRequest and its variants
    in sylar/http/http_connection.cc): the pool of [ConnPool] with the streams of its
    connections, and the exchange of [ClientRequests]. *)

From Stdlib Require Import ZArith Lia.
From stdpp Require Import base numbers gmap fin_map_dom option strings tactics sets list list_numbers.
From S2P Require Import Prelude StdSet Text StdMap Stream Http HttpParser HttpClient ClientRequests .

Local Open Scope Z_scope.

(** Where a pool connects to. *)
Record target : Type := mkTarget { t_host : list Z; t_vhost : list Z; t_port : Z; t_https : bool }.

(** The constructor's port. *)
Definition pool_port (port : Z) (https : bool) : Z := if decide (port ≠ 0) then port else if https then 443 else 80.

(** [HttpConnectionPool::Create]: [uri] is what [Uri::Create] made of the text. *)
Definition pool_create (uri : option Uri) (vhost : list Z) (max_alive_time max_request : Z) :
    outcome (target * HttpConnectionPool) :=
  uri ← deref uri;
  let https := bool_decide (u_scheme uri = text "https") in
  mret (mkTarget (u_host uri) vhost (pool_port (getPort uri) https) https,
        HttpConnectionPool_new max_alive_time max_request).

(** The pool with the streams of its connections. *)
Record client : Type := mkClient { c_pool : HttpConnectionPool; c_streams : gmap positive Stream }.

(** The streams once the connection [c] was given out. *)
Definition add_stream (fresh : option (positive * Stream)) (c : positive) (streams : gmap positive Stream) :
    gmap positive Stream :=
  match fresh with
  | Some (f, st) => if decide (f = c) then <[f := st]> streams else streams
  | None => streams
  end.

Section requests.
Context {mem : Memory} (eng : Engine) (cast_u64 : list Z → option Z) (buff_size : nat).

(** [doRequest(req, timeout_ms)]: [fresh] is the connection that is made if one is
    needed and can be opened; the shared pointer gives the connection back at the
    end, [later]. *)
Definition pool_doRequest (cl : client) (now later : Z) (fresh : option (positive * Stream)) (req : HttpRequest) :
    outcome (HttpResult * client) :=
  '(ptr, p) ← getConnection (c_pool cl) now (fst <$> fresh);
  match ptr with
  | None => mret (mkResult POOL_GET_CONNECTION None, mkClient p (c_streams cl))
  | Some c =>
    let streams := add_stream fresh c (c_streams cl) in
    st ← deref (streams !! c);
    '(r, st) ← exchange eng cast_u64 buff_size st req;
    let p := if s_open st then p else disconnect p c in
    p ← ReleasePtr p later c;
    mret (r, mkClient p (<[c := st]> streams))
  end.

(** [doRequest(method, url, ...)], [doGet] and [doPost] on a url. *)
Definition pool_doRequest_url (t : target) (cl : client) (now later : Z) (fresh : option (positive * Stream))
    (method : HttpMethod) (url : list Z) (headers : list (list Z * list Z)) (body : list Z) :
    outcome (HttpResult * client) :=
  pool_doRequest cl now later fresh (pool_request (t_host t) (t_vhost t) method url headers body).

(** [doRequest(method, uri, ...)], and [doGet] and [doPost] on a [Uri]. *)
Definition pool_doRequest_uri (t : target) (cl : client) (now later : Z) (fresh : option (positive * Stream))
    (method : HttpMethod) (uri : Uri) (headers : list (list Z * list Z)) (body : list Z) :
    outcome (HttpResult * client) :=
  pool_doRequest_url t cl now later fresh method (uri_url uri) headers body.

Definition pool_doGet (t : target) (cl : client) (now later : Z) (fresh : option (positive * Stream)) (url : list Z) :=
  pool_doRequest_url t cl now later fresh GET url.
Definition pool_doPost (t : target) (cl : client) (now later : Z) (fresh : option (positive * Stream)) (url : list Z) :=
  pool_doRequest_url t cl now later fresh POST url.

(** The pool knows which of its connections are up. *)
Definition linked (cl : client) : Prop :=
  ∀ c conn, heap (c_pool cl) !! c = Some conn → ∃ st, c_streams cl !! c = Some st ∧ conn_up conn = s_open st.

Lemma getConnection_heap p now fresh ptr p' c conn :
  getConnection p now fresh = Ok (ptr, p') → heap p' !! c = Some conn →
  heap p !! c = Some conn ∨ (fresh = Some c ∧ ptr = Some c ∧ conn = HttpConnection_new).
Proof.
  unfold getConnection. intros ([[conns invalid] q] & _ & E)%outcome_bind_ok Hc.
  assert (∀ h : gmap positive HttpConnection, foldr delete h invalid !! c = Some conn → h !! c = Some conn) as Hdel.
  { intros h Hx. destruct (decide (c ∈ invalid)) as [Hin|Hin]; [by rewrite lookup_foldr_delete in Hx|].
    by rewrite lookup_foldr_delete_not_elem_of in Hx. }
  destruct q as [d|], fresh as [f|]; injection E as <- <-; simpl in Hc; try (left; by apply Hdel).
  apply lookup_insert_Some in Hc as [[-> <-]|[_ Hc]]; [by right|left; by apply Hdel].
Qed.

Lemma ReleasePtr_heap p later c p' d conn :
  ReleasePtr p later c = Ok p' → heap p' !! d = Some conn → ∃ conn0, heap p !! d = Some conn0 ∧ conn_up conn = conn_up conn0.
Proof.
  unfold ReleasePtr. intros (conn0 & Hc & E)%outcome_bind_ok Hd. unfold deref in Hc.
  destruct (heap p !! c) as [cc|] eqn:Hcc; [|done]. injection Hc as ->.
  destruct (negb _ || _ || _); injection E as <-; simpl in Hd.
  - apply lookup_delete_Some in Hd as [_ Hd]. eauto.
  - apply lookup_insert_Some in Hd as [[-> <-]|[_ Hd]]; eauto.
Qed.

(** A new connection comes with a stream that is open. *)
Definition fresh_ok (p : HttpConnectionPool) (fresh : option (positive * Stream)) : Prop :=
  ∀ f st, fresh = Some (f, st) → heap p !! f = None ∧ s_open st = true.

Lemma get_linked cl now fresh c p1 :
  linked cl → fresh_ok (c_pool cl) fresh → getConnection (c_pool cl) now (fst <$> fresh) = Ok (Some c, p1) →
  linked (mkClient p1 (add_stream fresh c (c_streams cl))).
Proof.
  intros Hlink Hfresh E d conn Hd. simpl in *. unfold add_stream.
  destruct (getConnection_heap _ _ _ _ _ _ _ E Hd) as [Hd0|(Hf & [= ->] & ->)].
  - destruct (Hlink d conn Hd0) as (st & Hst & Hup). exists st. split; [|done].
    destruct fresh as [[f stf]|]; [|done]. case_decide as Hfc; [|done]. rewrite lookup_insert_ne; [done|].
    intros ->. destruct (Hfresh d stf eq_refl) as [Hnone _]. congruence.
  - destruct fresh as [[f stf]|]; [|done]. injection Hf as ->. exists stf. rewrite decide_True by done.
    rewrite lookup_insert_eq. split; [done|]. by destruct (Hfresh d stf eq_refl) as [_ ->].
Qed.

(** The connection that is given out is up. *)
Lemma get_up out cl now fresh c p1 conn :
  pool_inv out (c_pool cl) → fresh_ok (c_pool cl) fresh → 2 ^ 32 <= now →
  getConnection (c_pool cl) now (fst <$> fresh) = Ok (Some c, p1) → heap p1 !! c = Some conn → conn_up conn = true.
Proof.
  intros Hinv Hfresh Hnow E Hconn.
  destruct (getConnection_heap _ _ _ _ _ _ _ E Hconn) as [Hd0|(_ & _ & ->)]; [|done].
  destruct (getConnection_inv out (c_pool cl) now (fst <$> fresh) Hinv Hnow) as (ptr & p2 & E2 & _ & bad & rest & _ & Hptr).
  { intros f Hf. destruct fresh as [[g st]|]; [|done]. injection Hf as <-. by destruct (Hfresh g st eq_refl). }
  rewrite E in E2. injection E2 as <- <-. destruct Hptr as [(_ & _ & Hu)|(_ & _ & Hf)].
  - unfold up in Hu. rewrite Hd0 in Hu. by injection Hu.
  - destruct fresh as [[f stf]|]; [|done]. injection Hf as ->. destruct (Hfresh c stf eq_refl) as [Hnone _]. congruence.
Qed.

(** What the pool knows of a connection after the exchange. *)
Lemma after_exchange out p c conn st' :
  pool_inv (c :: out) p → heap p !! c = Some conn → conn_up conn = true →
  let p2 := if s_open st' then p else disconnect p c in
  pool_inv (c :: out) p2 ∧ heap p2 !! c = Some (mkConn (m_createdTime conn) (m_request conn) (s_open st')) ∧
  m_conns p2 = m_conns p ∧ m_maxRequest p2 = m_maxRequest p ∧ (∀ d, d ≠ c → heap p2 !! d = heap p !! d).
Proof.
  intros Hinv Hconn Hup. destruct (s_open st'); simpl.
  - split_and!; try done. rewrite Hconn. destruct conn as [ct mr up]. simpl in *. by rewrite Hup.
  - split_and!; try done; [by apply disconnect_inv| |].
    + by rewrite lookup_alter_eq, Hconn.
    + intros d Hd. by rewrite lookup_alter_ne.
Qed.

End requests.

(** A request over the pool. Without a connection to be had it fails with its own
    code; otherwise it is one exchange over the connection the pool gives, with the
    result of the exchange, if it does not throw, and the connection goes back: afterwards exactly the same
    connections are in use as before, the pool is consistent, and the connection is
    idle again, behind the others, if it is still up and has not served its maximum
    of requests. *)
Theorem pool_request_cycle (mem : Memory) (eng : Engine) (cast_u64 : list Z → option Z) (buff_size : nat)
    (cl : client) (out : list positive) (now later : Z) (fresh : option (positive * Stream)) (req : HttpRequest) :
  pool_inv out (c_pool cl) → linked cl → 2 ^ 32 <= now → 2 ^ 32 <= later →
  fresh_ok (c_pool cl) fresh →
  ∃ ptr p1, getConnection (c_pool cl) now (fst <$> fresh) = Ok (ptr, p1) ∧
  match ptr with
  | None => pool_doRequest eng cast_u64 buff_size cl now later fresh req =
              Ok (mkResult POOL_GET_CONNECTION None, mkClient p1 (c_streams cl)) ∧ pool_inv out p1
  | Some c =>
    ∃ st conn, add_stream fresh c (c_streams cl) !! c = Some st ∧ heap p1 !! c = Some conn ∧ s_open st = true ∧
    ∀ r st', exchange eng cast_u64 buff_size st req = Ok (r, st') →
      ∃ cl', pool_doRequest eng cast_u64 buff_size cl now later fresh req = Ok (r, cl') ∧
        pool_inv out (c_pool cl') ∧ linked cl' ∧
        m_conns (c_pool cl') =
          m_conns p1 ++ (if s_open st' && bool_decide (u64 (m_request conn + 1) < m_maxRequest p1) then [c] else [])
  end.
Proof.
  intros Hinv Hlink Hnow Hlater Hfresh.
  destruct (getConnection_inv out (c_pool cl) now (fst <$> fresh) Hinv Hnow) as (ptr & p1 & E & Hinv1 & _).
  { intros f Hf. destruct fresh as [[g st]|]; [|done]. injection Hf as <-. by destruct (Hfresh g st eq_refl). }
  exists ptr, p1. split; [done|]. unfold pool_doRequest. rewrite E. osimpl. destruct ptr as [c|]; [|by split].
  pose proof (get_linked cl now fresh c p1 Hlink Hfresh E) as Hlink1. set (streams := add_stream fresh c (c_streams cl)) in *.
  destruct (proj2 (inv_heap _ _ Hinv1 c)) as [conn Hconn]; [set_solver|].
  pose proof (get_up out cl now fresh c p1 conn Hinv Hfresh Hnow E Hconn) as Hup.
  destruct (Hlink1 c conn Hconn) as (st & Hst & Hopen). simpl in Hst. rewrite Hup in Hopen.
  exists st, conn. split_and!; [done|done|done|]. intros r st' Hex. rewrite Hst. osimpl. rewrite Hex. osimpl.
  destruct (after_exchange out p1 c conn st' Hinv1 Hconn Hup) as (Hinv2 & Hc2 & Hcs2 & Hm2 & Hother).
  set (p2 := if s_open st' then p1 else disconnect p1 c) in *.
  destruct (ReleasePtr_inv [] c out p2 later Hinv2 Hlater) as (conn2 & Hconn2 & p3 & E3 & Hinv3 & Hcs3).
  rewrite Hc2 in Hconn2. injection Hconn2 as <-. rewrite E3. osimpl. eexists. split; [done|]. split_and!; simpl.
  - done.
  - intros d conn' Hd. simpl in *. destruct (ReleasePtr_heap _ _ _ _ _ _ E3 Hd) as (conn0 & Hd0 & Hup0).
    destruct (decide (d = c)) as [->|Hne].
    + rewrite Hc2 in Hd0. injection Hd0 as <-. exists st'. rewrite lookup_insert_eq. by split.
    + rewrite lookup_insert_ne by done. rewrite Hother in Hd0 by done. destruct (Hlink1 d conn0 Hd0) as (sd & ? & ?).
      exists sd. split; [done|congruence].
  - rewrite Hcs3, Hcs2, Hm2. simpl. destruct (s_open st' && _); [done|by rewrite app_nil_r].
Qed.

(** An empty pool, and a new connection whose peer is gone when the request is sent. *)
Definition empty_client : client := mkClient (HttpConnectionPool_new 1000 10) ∅.
Definition gone : Stream := mkStream [] [] [IoError] true.

Lemma pool_request_cycle_witness :
  ∃ cl', pool_doRequest (mem := gigabyte) digit_chunks (λ _, None) 100 empty_client (2 ^ 33) (2 ^ 34) (Some (1%positive, gone))
      (HttpRequest_new 17 true) = Ok (mkResult SEND_SOCKET_ERROR None, cl') ∧
    m_conns (c_pool cl') = [1%positive].
Proof.
  destruct (pool_request_cycle gigabyte digit_chunks (λ _, None) 100 empty_client [] (2 ^ 33) (2 ^ 34) (Some (1%positive, gone))
    (HttpRequest_new 17 true)) as (ptr & p1 & E & H).
  - apply (pool_reachable_inv 1000 10); [lia|constructor].
  - intros c conn Hc. discriminate Hc.
  - lia.
  - lia.
  - intros f st [= <- <-]. split; reflexivity.
  - vm_compute in E. injection E as <- <-. destruct H as (st & conn & Hst & Hc & _ & Hex).
    vm_compute in Hst, Hc. injection Hst as <-. injection Hc as <-.
    destruct (Hex (mkResult SEND_SOCKET_ERROR None) (mkStream [] [] [] true)) as (cl' & Hdo & _ & _ & Hidle);
      [vm_compute; reflexivity|].
    exists cl'. split; [exact Hdo|]. rewrite Hidle. vm_compute. reflexivity.
Defined.
