(* ===== verification/Servlet.v ===== *)
(** Servlets and the servers that run them (sylar/http/servlet.cc,
    sylar/http/ws_servlet.cc, sylar/http/http_server.cc, sylar/http/ws_server.cc). *)

From Stdlib Require Import ZArith Lia.
From stdpp Require Import base numbers gmap option strings tactics sets list list_numbers.
From S2P Require Import Prelude StdSet Text StdMap HashUtil Endian Stream WebSocket WebSocketSpec Http.
From S2P Require Import HttpParser.

Local Open Scope Z_scope.

(** ** Servlets *)

(** The servlets of the library; a user's function is known by its number, and
    those of a websocket servlet may be missing. *)
Inductive Servlet : Type :=
| NotFoundServlet (name : list Z)
| FunctionServlet (cb : nat)
| FunctionWSServlet (cb connect_cb close_cb : option nat).

#[export] Instance Servlet_eq_dec : EqDecision Servlet.
Proof. solve_decision. Defined.

(** [class ServletDispatch]; [m_default] may be null. *)
Record ServletDispatch : Type := mkDispatch {
  m_data : gmap (list Z) Servlet;
  m_globs : list (list Z * Servlet);
  m_default : option Servlet
}.

Definition ServletDispatch_new : ServletDispatch :=
  mkDispatch ∅ [] (Some (NotFoundServlet (text "sylar/1.0"))).

Definition addServlet (d : ServletDispatch) (uri : list Z) (slt : Servlet) : ServletDispatch :=
  mkDispatch (<[uri := slt]> (m_data d)) (m_globs d) (m_default d).

(** The loop that erases the first pair with that pattern. *)
Fixpoint erase_glob (uri : list Z) (globs : list (list Z * Servlet)) : list (list Z * Servlet) :=
  match globs with
  | [] => []
  | (u, slt) :: globs => if decide (u = uri) then globs else (u, slt) :: erase_glob uri globs
  end.

Definition addGlobServlet (d : ServletDispatch) (uri : list Z) (slt : Servlet) : ServletDispatch :=
  mkDispatch (m_data d) (erase_glob uri (m_globs d) ++ [(uri, slt)]) (m_default d).

Definition delServlet (d : ServletDispatch) (uri : list Z) : ServletDispatch :=
  mkDispatch (delete uri (m_data d)) (m_globs d) (m_default d).

Definition delGlobServlet (d : ServletDispatch) (uri : list Z) : ServletDispatch :=
  mkDispatch (m_data d) (erase_glob uri (m_globs d)) (m_default d).

Definition setDefault (d : ServletDispatch) (v : option Servlet) : ServletDispatch :=
  mkDispatch (m_data d) (m_globs d) v.

Definition getServlet (d : ServletDispatch) (uri : list Z) : option Servlet := m_data d !! uri.

(** The first pair of the list that passes a test. *)
Fixpoint first_glob (P : list Z → bool) (globs : list (list Z * Servlet)) : option Servlet :=
  match globs with
  | [] => None
  | (u, slt) :: globs => if P u then Some slt else first_glob P globs
  end.

Definition getGlobServlet (d : ServletDispatch) (uri : list Z) : option Servlet :=
  first_glob (λ u, bool_decide (u = uri)) (m_globs d).

Section dispatch.
(** [fnmatch(pattern, string, 0) == 0]. *)
Context (fnmatch : list Z → list Z → bool).

Definition getMatchedServlet (d : ServletDispatch) (uri : list Z) : option Servlet :=
  match m_data d !! uri with
  | Some slt => Some slt
  | None =>
    match first_glob (λ u, fnmatch (c_str u) (c_str uri)) (m_globs d) with
    | Some slt => Some slt
    | None => m_default d
    end
  end.

(** [WSServletDispatch::getWSServlet]: the cast fails for other servlets. *)
Definition getWSServlet (d : ServletDispatch) (uri : list Z) : option Servlet :=
  match getMatchedServlet d uri with
  | Some (FunctionWSServlet cb connect_cb close_cb) => Some (FunctionWSServlet cb connect_cb close_cb)
  | _ => None
  end.

(** ** Handling a request *)

Section handle.
(** The user's functions: what they do to the response and the session. *)
Context (callback : nat → HttpRequest → HttpResponse → Stream → HttpResponse * Stream).

(** [NotFoundServlet::NotFoundServlet] and its [handle]; the header's name has
    a colon of its own. *)
Definition not_found_content (name : list Z) : list Z :=
  text "<html><head><title>404 Not Found</title></head><body><center><h1>404 Not Found</h1></center><hr><center>"
  ++ name ++ text "</center></body></html>".

Definition not_found (name : list Z) (rsp : HttpResponse) : HttpResponse :=
  let rsp := mkResponse 404 (r_version rsp) (r_close rsp) (r_websocket rsp) (r_body rsp)
               (r_reason rsp) (r_headers rsp) in
  let rsp := r_setHeader rsp (text "Content-Type:") (text "text/html") in
  mkResponse (r_status rsp) (r_version rsp) (r_close rsp) (r_websocket rsp)
    (not_found_content name) (r_reason rsp) (r_headers rsp).

(** The [handle] of each servlet; that of a websocket servlet for plain
    requests does nothing. *)
Definition servlet_handle (slt : Servlet) (req : HttpRequest) (rsp : HttpResponse) (st : Stream) :
    HttpResponse * Stream :=
  match slt with
  | NotFoundServlet name => (not_found name rsp, st)
  | FunctionServlet cb => callback cb req rsp st
  | FunctionWSServlet _ _ _ => (rsp, st)
  end.

(** [ServletDispatch::handle]. *)
Definition dispatch_handle (d : ServletDispatch) (req : HttpRequest) (rsp : HttpResponse)
    (st : Stream) : HttpResponse * Stream :=
  match getMatchedServlet d (m_path req) with
  | Some slt => servlet_handle slt req rsp st
  | None => (rsp, st)
  end.

(** ** [HttpServer] *)

(** [class HttpServer]. *)
Record HttpServer : Type := mkHttpServer {
  m_isKeepalive : bool;
  m_name : list Z;
  m_dispatch : ServletDispatch
}.

(** [HttpServer::setName]. *)
Definition setName (s : HttpServer) (v : list Z) : HttpServer :=
  mkHttpServer (m_isKeepalive s) v (setDefault (m_dispatch s) (Some (NotFoundServlet v))).

Context {mem : Memory} (eng : Engine) (cast_u64 : list Z → option Z) (buff_size : nat).

(** The loop of [HttpServer::handleClient], with the requests and responses it has had.
    What [recvRequest] throws leaves it. *)
Fixpoint handleClient_loop (fuel : nat) (s : HttpServer) (st : Stream)
    (log : list (HttpRequest * HttpResponse)) :
    outcome (list (HttpRequest * HttpResponse) * Stream) :=
  match fuel with
  | O => Stuck
  | S fuel =>
    '(req, st) ← recvRequest eng cast_u64 buff_size st;
    match req with
    | None => mret (log, st)
    | Some req =>
      let rsp := HttpResponse_new (m_version req) (m_close req || negb (m_isKeepalive s)) in
      let rsp := r_setHeader rsp (text "Server") (m_name s) in
      let '(rsp, st) := dispatch_handle (m_dispatch s) req rsp st in
      '(_, st) ← sendResponse st rsp;
      let log := log ++ [(req, rsp)] in
      if negb (m_isKeepalive s) || m_close req then mret (log, st)
      else handleClient_loop fuel s st log
    end
  end.

(** [HttpServer::handleClient]. *)
Definition handleClient (s : HttpServer) (st : Stream) :
    outcome (list (HttpRequest * HttpResponse) * Stream) :=
  '(log, st) ← handleClient_loop (S (length (s_in st))) s st [];
  mret (log, stream_close st).

(** ** [WSServer] *)

Section websocket.
Context (native : endian) (max_size : Z) (sha1sum : list Z → list Z) (cast_int : list Z → option Z).
(** The user's functions of a websocket servlet: their result and the session. *)
Context (on_connect on_close : nat → HttpRequest → Stream → Z * Stream).
Context (on_message : nat → HttpRequest → WSFrameMessage → Stream → Z * Stream).

(** What the server calls. *)
Inductive call : Type :=
| OnConnect
| OnMessage (msg : WSFrameMessage)
| OnClose.

(** [FunctionWSServlet::onConnect], [onClose] and [handle]: a function that is
    missing counts as success. *)
Definition ws_onConnect (connect_cb : option nat) (req : HttpRequest) (st : Stream) : Z * Stream :=
  match connect_cb with Some f => on_connect f req st | None => (0, st) end.
Definition ws_onClose (close_cb : option nat) (req : HttpRequest) (st : Stream) : Z * Stream :=
  match close_cb with Some f => on_close f req st | None => (0, st) end.
Definition ws_handle (cb : option nat) (req : HttpRequest) (msg : WSFrameMessage) (st : Stream) :
    Z * Stream :=
  match cb with Some f => on_message f req msg st | None => (0, st) end.

(** The message loop of [WSServer::handleClient]. *)
Fixpoint ws_loop (fuel : nat) (cb : option nat) (req : HttpRequest) (st : Stream) (log : list call) :
    outcome (list call * Stream) :=
  match fuel with
  | O => Stuck
  | S fuel =>
    '(msg, st) ← WSRecvMessage native max_size st false;
    match msg with
    | None => mret (log, st)
    | Some msg =>
      let '(rt, st) := ws_handle cb req msg st in
      let log := log ++ [OnMessage msg] in
      if decide (rt ≠ 0) then mret (log, st) else ws_loop fuel cb req st log
    end
  end.

(** [WSServer::handleClient], with the calls it makes. *)
Definition ws_handleClient (d : ServletDispatch) (st : Stream) : outcome (list call * Stream) :=
  '(header, st) ← handleShake eng cast_u64 buff_size sha1sum cast_int st;
  match header with
  | None => mret ([], stream_close st)
  | Some header =>
    match getWSServlet d (m_path header) with
    | Some (FunctionWSServlet cb connect_cb close_cb) =>
      let '(rt, st) := ws_onConnect connect_cb header st in
      if decide (rt ≠ 0) then mret ([OnConnect], stream_close st) else
      '(log, st) ← ws_loop (S (length (s_in st))) cb header st [OnConnect];
      let '(_, st) := ws_onClose close_cb header st in
      mret (log ++ [OnClose], stream_close st)
    | _ => mret ([], stream_close st)
    end
  end.

End websocket.
End handle.
End dispatch.

(** ** Which servlet answers *)

(** The operations on a dispatcher. *)
Inductive dispatch_op : Type :=
| Add (uri : list Z) (slt : Servlet)
| AddGlob (uri : list Z) (slt : Servlet)
| Del (uri : list Z)
| DelGlob (uri : list Z).

Definition dispatch_step (d : ServletDispatch) (o : dispatch_op) : ServletDispatch :=
  match o with
  | Add uri slt => addServlet d uri slt
  | AddGlob uri slt => addGlobServlet d uri slt
  | Del uri => delServlet d uri
  | DelGlob uri => delGlobServlet d uri
  end.

(** The servlet last added under exactly [uri] and not deleted since, searched
    from the latest operation on. *)
Fixpoint exact_of (latest_first : list dispatch_op) (uri : list Z) : option Servlet :=
  match latest_first with
  | [] => None
  | Add u slt :: ops => if decide (u = uri) then Some slt else exact_of ops uri
  | Del u :: ops => if decide (u = uri) then None else exact_of ops uri
  | _ :: ops => exact_of ops uri
  end.

(** Whether a later operation replaces or deletes the pattern [u]. *)
Definition touches (u : list Z) (o : dispatch_op) : bool :=
  match o with
  | AddGlob u' _ | DelGlob u' => bool_decide (u' = u)
  | _ => false
  end.

(** The patterns that are registered, in the order of their last registration. *)
Fixpoint globs_of (ops : list dispatch_op) : list (list Z * Servlet) :=
  match ops with
  | [] => []
  | AddGlob u slt :: ops => if existsb (touches u) ops then globs_of ops else (u, slt) :: globs_of ops
  | _ :: ops => globs_of ops
  end.

Lemma globs_of_keys ops u : u ∈ (globs_of ops).*1 → existsb (touches u) ops = true.
Proof.
  induction ops as [|o ops IH]; simpl; [by intros ?%elem_of_nil|].
  assert (u ∈ (globs_of ops).*1 → touches u o || existsb (touches u) ops = true) as Hlater
    by (intros H; by rewrite IH, orb_true_r).
  destruct o as [v s|v s|v|v]; try done.
  destruct (existsb (touches v) ops) eqn:E; [done|]. simpl.
  intros [->|H]%elem_of_cons; [|by apply Hlater]. by rewrite bool_decide_true.
Qed.

Lemma erase_glob_notin u l : u ∉ l.*1 → erase_glob u l = l.
Proof.
  induction l as [|[v s] l IH]; simpl; [done|]. intros [Hne Hni]%not_elem_of_cons.
  rewrite decide_False by done. by rewrite IH.
Qed.

(** One more operation, at the end. *)
Lemma globs_of_snoc ops o :
  globs_of (ops ++ [o]) =
  match o with
  | AddGlob u slt => erase_glob u (globs_of ops) ++ [(u, slt)]
  | DelGlob u => erase_glob u (globs_of ops)
  | _ => globs_of ops
  end.
Proof.
  induction ops as [|o' ops IH]; simpl; [by destruct o|].
  destruct o' as [v s|v s|v|v]; simpl; try done.
  rewrite existsb_app. simpl. rewrite orb_false_r.
  destruct (existsb (touches v) ops) eqn:E; simpl; [done|].
  assert (v ∉ (globs_of ops).*1) as Hni by (intros H%globs_of_keys; congruence).
  destruct o as [w r|w r|w|w]; simpl; rewrite ?IH; try done;
    case_bool_decide as Hw; subst; rewrite ?decide_True, ?decide_False by done;
    rewrite ?erase_glob_notin by done; done.
Qed.

Lemma dispatch_globs ops : m_globs (foldl dispatch_step ServletDispatch_new ops) = globs_of ops.
Proof.
  induction ops as [|o ops IH] using rev_ind; [done|].
  rewrite foldl_app, globs_of_snoc, <-IH. by destruct o.
Qed.

Lemma dispatch_data ops uri :
  m_data (foldl dispatch_step ServletDispatch_new ops) !! uri = exact_of (reverse ops) uri.
Proof.
  induction ops as [|o ops IH] using rev_ind; [done|].
  rewrite foldl_app, reverse_snoc. simpl. destruct o as [v s|v s|v|v]; simpl; try done.
  - case_decide as E; [subst; by rewrite lookup_insert_eq|by rewrite lookup_insert_ne].
  - case_decide as E; [subst; by rewrite lookup_delete_eq|by rewrite lookup_delete_ne].
Qed.

Lemma dispatch_default ops :
  m_default (foldl dispatch_step ServletDispatch_new ops) = m_default ServletDispatch_new.
Proof. induction ops as [|o ops IH] using rev_ind; [done|]. rewrite foldl_app. by destruct o. Qed.

(** C30. Which servlet answers a path, after any sequence of registrations and
    deletions: the one last registered for exactly that path if it has not been
    deleted; otherwise the first of the registered patterns that matches, in the
    order in which they were last registered; otherwise the default one. *)
Theorem dispatch_precedence (fnmatch : list Z → list Z → bool) (ops : list dispatch_op)
    (uri : list Z) :
  getMatchedServlet fnmatch (foldl dispatch_step ServletDispatch_new ops) uri =
  match exact_of (reverse ops) uri with
  | Some slt => Some slt
  | None =>
    match first_glob (λ u, fnmatch (c_str u) (c_str uri)) (globs_of ops) with
    | Some slt => Some slt
    | None => Some (NotFoundServlet (text "sylar/1.0"))
    end
  end.
Proof.
  unfold getMatchedServlet. by rewrite dispatch_data, dispatch_globs, dispatch_default.
Qed.

(** ** The servers *)

Section servers.
Context {mem : Memory} (fnmatch : list Z → list Z → bool).
Context (callback : nat → HttpRequest → HttpResponse → Stream → HttpResponse * Stream).
Context (eng : Engine) (cast_u64 : list Z → option Z) (buff_size : nat) (s : HttpServer).

(** The user's functions take bytes from the session at most. *)
Definition callback_reads : Prop :=
  ∀ cb req rsp st, (length (s_in (callback cb req rsp st).2) ≤ length (s_in st))%nat.

(** They leave the session alone. *)
Definition callback_silent : Prop := ∀ cb req rsp st, (callback cb req rsp st).2 = st.

(** The connection stays open after a request. *)
Definition keeps (req : HttpRequest) : Prop := m_isKeepalive s = true ∧ m_close req = false.

(** The response a servlet starts with names the server and says whether the connection
    stays open. *)
Definition fresh_response (req : HttpRequest) : HttpResponse :=
  r_setHeader (HttpResponse_new (m_version req) (m_close req || negb (m_isKeepalive s)))
    (text "Server") (m_name s).

(** A session up to a stream: each request was received behind what the one before had
    left, its servlet has made the response, and the text of the response was written. *)
Inductive session (st : Stream) : list (HttpRequest * HttpResponse) → Stream → Prop :=
| session_start : session st [] st
| session_turn log st1 req st2 rsp st3 st4 :
    session st log st1 → Forall (λ x, keeps x.1) log →
    recvRequest eng cast_u64 buff_size st1 = Ok (Some req, st2) →
    dispatch_handle fnmatch callback (m_dispatch s) req (fresh_response req) st2 = (rsp, st3) →
    written st3 (r_dump rsp) st4 →
    session st (log ++ [(req, rsp)]) st4.

(** How a session ends that has come to [now]: the last request does not keep the connection,
    no request is received, or receiving one throws. *)
Definition ends (log : list (HttpRequest * HttpResponse)) (now : Stream)
    (result : outcome (list (HttpRequest * HttpResponse) * Stream)) : Prop :=
  (∃ x, last log = Some x ∧ ¬ keeps x.1 ∧ result = Ok (log, stream_close now)) ∨
  (Forall (λ x, keeps x.1) log ∧
   ((∃ st', recvRequest eng cast_u64 buff_size now = Ok (None, st') ∧ s_out st' = s_out now ∧
       result = Ok (log, stream_close st')) ∨
    is_ok (recvRequest eng cast_u64 buff_size now) = false ∧
      result = failed (recvRequest eng cast_u64 buff_size now))).

Lemma handleClient_loop_spec (Hbuf : within_buffer eng) (Hcb : callback_reads) st fuel : ∀ st1 log,
  (length (s_in st1) < fuel)%nat → session st log st1 → Forall (λ x, keeps x.1) log →
  ∃ log' now, session st log' now ∧
    ends log' now ('(log, st) ← handleClient_loop fnmatch callback eng cast_u64 buff_size fuel s st1 log;
                   mret (log, stream_close st)).
Proof.
  induction fuel as [|fuel IH]; intros st1 log Hf Hs Hk; [lia|]. cbn [handleClient_loop].
  destruct (recvRequest_spec eng cast_u64 buff_size st1 Hbuf) as [(req & st2 & E & [Hout _] & Hlt)|Hfail].
  2: { exists log, st1. split; [done|]. right. split; [done|]. right.
       assert (is_ok (recvRequest eng cast_u64 buff_size st1) = false) as Hno.
       { destruct (recvRequest_total eng cast_u64 buff_size st1 Hbuf) as [(r & st2 & E & _)|?]; [|done].
         destruct Hfail as [(p & ? & ? & ? & ? & _ & _ & _ & E2)|[E2 _]]; rewrite E in E2; [|done].
         by destruct (rp_execute eng p _). }
       split; [done|]. by destruct (recvRequest eng cast_u64 buff_size st1). }
  rewrite E. osimpl. destruct req as [req|].
  2: { exists log, st1. split; [done|]. right. split; [done|]. left. by exists st2. }
  destruct Hlt as [?|Hlt]; [done|]. fold (fresh_response req).
  destruct (dispatch_handle _ _ _ req (fresh_response req) st2) as [rsp st3] eqn:Ed.
  assert (length (s_in st3) ≤ length (s_in st2))%nat as Hle.
  { assert (st3 = (dispatch_handle fnmatch callback (m_dispatch s) req (fresh_response req) st2).2) as ->
      by (by rewrite Ed).
    unfold dispatch_handle, servlet_handle. case_match; [|done]. by case_match; simpl. }
  unfold sendResponse. destruct (writeFixSize_written st3 (r_dump rsp)) as (v & st4 & -> & Hw). osimpl.
  pose proof (session_turn st _ _ _ _ _ _ _ Hs Hk E Ed Hw) as Hs'.
  destruct (m_isKeepalive s) eqn:Hka, (m_close req) eqn:Hcl; simpl.
  2: { apply IH; [rewrite (proj1 Hw); lia|done|]. apply Forall_app. split; [done|]. by repeat constructor. }
  all: exists (log ++ [(req, rsp)]), st4; (split; [done|]); left; exists (req, rsp); rewrite last_snoc;
    (split; [done|]); (split; [unfold keeps; simpl; intros [? ?]; congruence|done]).
Qed.

(** What a session has written. *)
Lemma session_out (Hbuf : within_buffer eng) (Hcb : callback_silent) st log now :
  healthy st → session st log now → healthy now ∧ s_out now = s_out st ++ mjoin (r_dump <$> log.*2).
Proof.
  intros Hh. induction 1 as [|log st1 req st2 rsp st3 st4 _ [Hh1 Hout1] _ Er Ed Hw]; [by rewrite app_nil_r|].
  pose proof (recvRequest_stays_healthy _ _ _ _ _ _ Hh1 Er) as Hh2.
  assert (st3 = st2) as ->.
  { transitivity ((dispatch_handle fnmatch callback (m_dispatch s) req (fresh_response req) st2).2); [by rewrite Ed|].
    unfold dispatch_handle, servlet_handle. case_match; [|done]. by case_match; simpl. }
  assert (s_out st2 = s_out st1) as Hout2.
  { destruct (recvRequest_spec eng cast_u64 buff_size st1 Hbuf) as
      [(r & st' & E & [Hout _] & _)|[(p & ? & ? & ? & ? & _ & _ & _ & E)|[E _]]]; rewrite E in Er.
    - by injection Er as _ <-.
    - by destruct (rp_execute eng p _).
    - done. }
  destruct Hw as (_ & sent & Hout & _ & Hs). destruct (Hs Hh2) as [-> Hh4]. split; [done|].
  rewrite Hout, Hout2, Hout1, !fmap_app, join_app. simpl. by rewrite app_nil_r, (assoc_L (++)).
Qed.

End servers.



Section ws_server.
Context (native : endian) (max_size : Z) (Hmax : max_size <= 2 ^ 31).
Context (on_message : nat → HttpRequest → WSFrameMessage → Stream → Z * Stream).

(** The message handler takes bytes from the session at most. *)
Definition message_reads : Prop :=
  ∀ cb req msg st, (length (s_in (on_message cb req msg st).2) ≤ length (s_in st))%nat.

Lemma ws_loop_spec (Hcb : message_reads) cb req fuel : ∀ st log,
  (length (s_in st) < fuel)%nat →
  ∃ msgs st', ws_loop native max_size on_message fuel cb req st log =
    Ok (log ++ (OnMessage <$> msgs), st').
Proof.
  induction fuel as [|fuel IH]; intros st log Hf; [lia|]. cbn [ws_loop].
  destruct (WSRecvMessage_total native max_size Hmax st false) as (msg & st1 & -> & Hlt). osimpl.
  destruct msg as [msg|]; [|exists [], st1; by rewrite app_nil_r].
  destruct Hlt as [?|Hlt]; [done|].
  destruct (ws_handle on_message cb req msg st1) as [rt st2] eqn:Eh.
  assert (length (s_in st2) ≤ length (s_in st1))%nat as Hle.
  { unfold ws_handle in Eh. destruct cb as [f|]; [|by injection Eh as _ <-].
    pose proof (Hcb f req msg st1) as H. by rewrite Eh in H. }
  case_decide; [by exists [msg], st2|].
  destruct (IH st2 (log ++ [OnMessage msg])) as (msgs & st' & ->); [lia|].
  exists (msg :: msgs), st'. by rewrite <-(assoc_L (++)).
Qed.

End ws_server.

(** [WSServer::handleClient] on any stream returns with the session closed,
    and calls the servlet in the right order: nothing if the handshake fails or no
    websocket servlet is registered for the path; [onConnect] alone if that
    refuses; otherwise [onConnect], then [handle] for some messages, then
    [onClose], once. What is thrown while the request is received leaves it. *)
Theorem ws_server_calls (mem : Memory) (fnmatch : list Z → list Z → bool) (eng : Engine)
    (cast_u64 cast_int : list Z → option Z) (buff_size : nat) (native : endian) (max_size : Z)
    (sha1sum : list Z → list Z) (on_connect on_close : nat → HttpRequest → Stream → Z * Stream)
    (on_message : nat → HttpRequest → WSFrameMessage → Stream → Z * Stream)
    (d : ServletDispatch) (st : Stream) :
  within_buffer eng → max_size <= 2 ^ 31 → message_reads on_message →
  is_ok (recvRequest eng cast_u64 buff_size st) = true →
  ∃ log st', ws_handleClient fnmatch eng cast_u64 buff_size native max_size sha1sum cast_int
      on_connect on_close on_message d st = Ok (log, st') ∧ s_open st' = false ∧
    (log = [] ∨
     (∃ f req st1, log = [OnConnect] ∧ (on_connect f req st1).1 ≠ 0) ∨
     (∃ msgs, log = OnConnect :: (OnMessage <$> msgs) ++ [OnClose])).
Proof.
  intros Hbuf Hmax Hcb Hok. unfold ws_handleClient, handleShake.
  destruct (recvRequest eng cast_u64 buff_size st) as [[req st1]| |]; [|done..]. osimpl.
  destruct req as [req|]; [|by eexists [], _; osimpl; auto].
  destruct (shake_key cast_int req) as [key|]; [|by eexists [], _; osimpl; auto].
  unfold sendResponse.
  destruct (writeFixSize_in st1 (r_dump (shake_response sha1sum (setWebsocket req true) key))) as
    (v & st2 & -> & _). osimpl.
  destruct (getWSServlet fnmatch d _) as [[| |cb connect_cb close_cb]|]; try by eexists [], _; auto.
  destruct (ws_onConnect on_connect connect_cb _ st2) as [rt st3] eqn:Ec.
  case_decide as Hrt.
  - eexists [OnConnect], _. split_and!; [done|done|]. right. left. unfold ws_onConnect in Ec.
    destruct connect_cb as [f|]; [|by injection Ec as <- _; destruct Hrt].
    eexists f, _, _. split; [done|]. by rewrite Ec.
  - destruct (ws_loop_spec native max_size Hmax on_message Hcb cb (setWebsocket req true)
      (S (length (s_in st3))) st3 [OnConnect]) as (msgs & st4 & ->); [lia|]. osimpl.
    destruct (ws_onClose on_close close_cb _ st4) as [x st5].
    eexists _, _. split_and!; [done|done|]. right. right. by exists msgs.
Qed.

Lemma ws_server_calls_witness :
  ∃ log st', ws_handleClient (mem := gigabyte) (λ _ _, false) upgrade_header (λ _, None) 16 SYLAR_LITTLE_ENDIAN 1024
      (take 20) (λ _, Some 13) (λ _ _ st, (0, st)) (λ _ _ st, (0, st)) (λ _ _ _ st, (0, st))
      (addServlet ServletDispatch_new (text "/") (FunctionWSServlet None None (Some 0%nat)))
      (mkStream (text "GET " ++ [129; 129; 0; 0; 0; 0; 65]) [] [IoUpTo 4] true) = Ok (log, st') ∧
    s_open st' = false ∧ log = [OnConnect; OnMessage (mkMsg 1 [65]); OnClose].
Proof.
  destruct (ws_server_calls gigabyte (λ _ _, false) upgrade_header (λ _, None) (λ _, Some 13) 16
    SYLAR_LITTLE_ENDIAN 1024 (take 20) (λ _ _ st, (0, st)) (λ _ _ st, (0, st)) (λ _ _ _ st, (0, st))
    (addServlet ServletDispatch_new (text "/") (FunctionWSServlet None None (Some 0%nat)))
    (mkStream (text "GET " ++ [129; 129; 0; 0; 0; 0; 65]) [] [IoUpTo 4] true))
    as (log & st' & E & Ho & _).
  - exact upgrade_within.
  - lia.
  - intros cb req msg st. apply Nat.le_refl.
  - vm_compute. reflexivity.
  - exists log, st'. split; [exact E|]. split; [exact Ho|].
    revert E. vm_compute. intros [= <- _]. reflexivity.
Defined.
