(* ===== verification/Thread.v ===== *)
(** Threads (sylar/thread.h, sylar/thread.cc): the constructor, which waits until
    the new thread has set its fields, the thread's own function, joining and
    naming, with all threads running side by side. *)

From Stdlib Require Import ZArith Lia.
From stdpp Require Import base numbers gmap option strings tactics sets relations list_numbers list.
From S2P Require Import Prelude Text.

Local Open Scope Z_scope.

(** [class Thread]: [m_thread] is 0 or the id of the thread, [m_cb] the callback,
    [m_semaphore] the count of the semaphore. *)
Record Thread : Type := mkThread {
  m_id : Z;
  m_thread : Z;
  m_cb : option nat;
  m_name : list Z;
  m_semaphore : nat
}.

Definition UNKNOW : list Z := text "UNKNOW".

(** The constructor up to [pthread_create]. *)
Definition Thread_new (tid : Z) (cb : nat) (name : list Z) : Thread :=
  mkThread (-1) tid (Some cb) (if decide (name = []) then UNKNOW else name) 0.

(** Where a thread is in [run]: with the object at [a] up to [notify], then in
    its callback, and at its end. *)
Inductive run_pc : Type :=
| AtEntry (a : nat)
| AtId (a : nat)
| AtSwap (a : nat)
| AtNotify (a : nat) (cb : option nat)
| InCb (cb : option nat)
| Finished.

(** A thread: its thread-local variables and the name the system has for it. *)
Record running : Type := mkRun {
  t_thread : option nat;
  t_thread_name : list Z;
  r_name : list Z;
  r_pc : run_pc
}.

Definition running_new (a : nat) : running := mkRun None UNKNOW [] (AtEntry a).

(** The objects by address, the threads by id, the objects whose constructor
    waits, and the callbacks that were called. *)
Record threads : Type := mkThreads {
  objects : gmap nat Thread;
  procs : gmap Z running;
  building : list nat;
  called : list nat
}.

Definition threads_new : threads := mkThreads ∅ ∅ [] [].

Definition set_object (st : threads) (a : nat) (th : Thread) : threads :=
  mkThreads (<[a := th]> (objects st)) (procs st) (building st) (called st).
Definition set_proc (st : threads) (tid : Z) (r : running) : threads :=
  mkThreads (objects st) (<[tid := r]> (procs st)) (building st) (called st).

Definition set_id (th : Thread) (id : Z) : Thread := mkThread id (m_thread th) (m_cb th) (m_name th) (m_semaphore th).
Definition swap_cb (th : Thread) : Thread := mkThread (m_id th) (m_thread th) None (m_name th) (m_semaphore th).
Definition post (th : Thread) : Thread := mkThread (m_id th) (m_thread th) (m_cb th) (m_name th) (S (m_semaphore th)).
Definition take_sem (th : Thread) : Thread :=
  mkThread (m_id th) (m_thread th) (m_cb th) (m_name th) (pred (m_semaphore th)).
Definition set_name (th : Thread) (name : list Z) : Thread :=
  mkThread (m_id th) (m_thread th) (m_cb th) name (m_semaphore th).
Definition no_thread (th : Thread) : Thread := mkThread (m_id th) 0 (m_cb th) (m_name th) (m_semaphore th).

(** One step of [run]. *)
Definition run_step (st : threads) (tid : Z) : outcome threads :=
  r ← deref (procs st !! tid);
  match r_pc r with
  | AtEntry a =>
    th ← deref (objects st !! a);
    mret (set_proc st tid (mkRun (Some a) (m_name th) (r_name r) (AtId a)))
  | AtId a =>
    th ← deref (objects st !! a);
    mret (set_proc (set_object st a (set_id th tid)) tid
            (mkRun (t_thread r) (t_thread_name r) (take 15 (m_name th)) (AtSwap a)))
  | AtSwap a =>
    th ← deref (objects st !! a);
    mret (set_proc (set_object st a (swap_cb th)) tid
            (mkRun (t_thread r) (t_thread_name r) (r_name r) (AtNotify a (m_cb th))))
  | AtNotify a cb =>
    th ← deref (objects st !! a);
    mret (set_proc (set_object st a (post th)) tid (mkRun (t_thread r) (t_thread_name r) (r_name r) (InCb cb)))
  | InCb cb =>
    f ← deref cb;
    mret (mkThreads (objects st) (<[tid := mkRun (t_thread r) (t_thread_name r) (r_name r) Finished]> (procs st))
            (building st) (called st ++ [f]))
  | Finished => mret st
  end.

(** [SetName(name)] in the thread [tid]. *)
Definition SetName (st : threads) (tid : Z) (name : list Z) : outcome threads :=
  if decide (name = []) then mret st else
  r ← deref (procs st !! tid);
  st ← match t_thread r with
       | Some a => th ← deref (objects st !! a); mret (set_object st a (set_name th name))
       | None => mret st
       end;
  mret (set_proc st tid (mkRun (t_thread r) name (r_name r) (r_pc r))).

(** [join]: none while it has to wait. *)
Definition join (st : threads) (a : nat) : outcome (option threads) :=
  th ← deref (objects st !! a);
  if decide (m_thread th = 0) then mret (Some st) else
  match r_pc <$> procs st !! m_thread th with
  | None => Throw (logic_error "pthread_join error")
  | Some Finished => mret (Some (set_object st a (no_thread th)))
  | Some _ => mret None
  end.

(** A step of the program: a constructor creates a thread, or fails to and
    changes nothing; a thread goes on; a constructor returns; and what the owner of
    an object does once it has it. *)
Inductive tstep (st : threads) : threads → Prop :=
| ts_create a tid cb name :
    objects st !! a = None → procs st !! tid = None → 0 < tid →
    tstep st (mkThreads (<[a := Thread_new tid cb name]> (objects st)) (<[tid := running_new a]> (procs st))
                (a :: building st) (called st))
| ts_run tid st' : is_Some (procs st !! tid) → run_step st tid = Ok st' → tstep st st'
| ts_built a th :
    a ∈ building st → objects st !! a = Some th → (0 < m_semaphore th)%nat →
    tstep st (mkThreads (<[a := take_sem th]> (objects st)) (procs st)
                (filter (λ b, b ≠ a) (building st)) (called st))
| ts_join a st' : a ∉ building st → join st a = Ok (Some st') → tstep st st'
| ts_destroy a :
    a ∉ building st → is_Some (objects st !! a) →
    tstep st (mkThreads (delete a (objects st)) (procs st) (building st) (called st))
| ts_name tid name st' :
    SetName st tid name = Ok st' → tstep st st'.

(** ** Correctness *)

(** The object a thread works on before it has notified its constructor. *)
Definition early (pc : run_pc) : option nat :=
  match pc with
  | AtEntry a | AtId a | AtSwap a | AtNotify a _ => Some a
  | InCb _ | Finished => None
  end.

(** What the thread [tid] has set by then. *)
Definition filled (tid : Z) (r : running) (th : Thread) : Prop :=
  match r_pc r with
  | AtEntry a => is_Some (m_cb th)
  | AtId a => t_thread r = Some a ∧ is_Some (m_cb th)
  | AtSwap a => t_thread r = Some a ∧ is_Some (m_cb th) ∧ m_id th = tid
  | AtNotify a cb => t_thread r = Some a ∧ is_Some cb ∧ m_cb th = None ∧ m_id th = tid
  | InCb _ | Finished => True
  end.

(** An object whose thread has notified. *)
Record ready (st : threads) (a : nat) (th : Thread) : Prop := {
  rd_cb : m_cb th = None;
  rd_id : 0 < m_id th;
  rd_thread : m_thread th = m_id th ∨ m_thread th = 0;
  rd_sem : m_semaphore th = if decide (a ∈ building st) then 1%nat else 0%nat;
  rd_proc : ∃ r, procs st !! m_id th = Some r ∧ early (r_pc r) = None ∧ t_thread r = Some a
}.

Record t_inv (st : threads) : Prop := {
  ti_early tid r a : procs st !! tid = Some r → early (r_pc r) = Some a →
    a ∈ building st ∧ ∃ th, objects st !! a = Some th ∧ m_thread th = tid ∧ m_semaphore th = 0%nat ∧ filled tid r th;
  ti_cb tid r cb : procs st !! tid = Some r → r_pc r = InCb cb → is_Some cb;
  ti_obj a th : objects st !! a = Some th →
    (∃ tid r, procs st !! tid = Some r ∧ early (r_pc r) = Some a) ∨ ready st a th;
  ti_build a : a ∈ building st → is_Some (objects st !! a);
  ti_pos tid : is_Some (procs st !! tid) → 0 < tid
}.

(** One object has one early thread. *)
Lemma early_owner st tid tid' r r' a :
  t_inv st → procs st !! tid = Some r → early (r_pc r) = Some a →
  procs st !! tid' = Some r' → early (r_pc r') = Some a → tid' = tid.
Proof.
  intros Hi E1 E2 E3 E4. destruct (ti_early _ Hi _ _ _ E1 E2) as (_ & th & Eo & Ht & _).
  destruct (ti_early _ Hi _ _ _ E3 E4) as (_ & th' & Eo' & Ht' & _). congruence.
Qed.

(** A step of [run] before its end changes the thread and its object. *)
Lemma run_update st tid r r' a th th' :
  t_inv st → procs st !! tid = Some r → early (r_pc r) = Some a → objects st !! a = Some th →
  m_thread th' = m_thread th →
  (early (r_pc r') = Some a ∧ m_semaphore th' = 0%nat ∧ filled tid r' th') ∨
  (early (r_pc r') = None ∧ m_cb th' = None ∧ m_id th' = tid ∧ m_semaphore th' = 1%nat ∧ t_thread r' = Some a ∧
     ∀ cb, r_pc r' = InCb cb → is_Some cb) →
  t_inv (set_proc (set_object st a th') tid r').
Proof.
  intros Hi Er Ea Eo Ht Hnew. destruct (ti_early _ Hi _ _ _ Er Ea) as (Hb & th0 & Eo0 & Htid & _).
  rewrite Eo in Eo0. injection Eo0 as <-. split; simpl.
  - intros t r1 a1 [[<- <-]|[Hne Hl]]%lookup_insert_Some.
    + intros Ea1. destruct Hnew as [(Hn1 & Hn2 & Hn3)|(Hn1 & _)]; [|congruence].
      rewrite Hn1 in Ea1. injection Ea1 as <-. split; [done|]. exists th'. rewrite lookup_insert_eq. split_and!; congruence || done.
    + intros Ea1. destruct (ti_early _ Hi _ _ _ Hl Ea1) as (Hb1 & th1 & Eo1 & Hrest). split; [done|].
      exists th1. split; [|done]. rewrite lookup_insert_ne; [done|]. intros ->.
      destruct Hne. symmetry. by eapply early_owner.
  - intros t r1 cb [[<- <-]|[Hne Hl]]%lookup_insert_Some; [|by eapply ti_cb].
    intros Ec. destruct Hnew as [(Hn1 & _)|(_ & _ & _ & _ & _ & Hn)]; [by rewrite Ec in Hn1|by apply Hn].
  - intros a1 th1 [[<- <-]|[Hne Hl]]%lookup_insert_Some.
    + destruct Hnew as [(Hn1 & _)|(Hn1 & Hn2 & Hn3 & Hn4 & Hn5 & _)].
      * left. exists tid, r'. by rewrite lookup_insert_eq.
      * right. assert (0 < tid) by (apply (ti_pos _ Hi); by eexists).
        split; simpl; [done|lia|left; congruence|by rewrite decide_True|].
        exists r'. rewrite Hn3, lookup_insert_eq. done.
    + destruct (ti_obj _ Hi _ _ Hl) as [(t & r1 & Hl1 & Ea1)|[H1 H2 H3 H4 (r1 & Hl1 & Ea1 & Et1)]].
      * left. exists t, r1. split; [|done]. rewrite lookup_insert_ne; [done|]. intros E. rewrite <-E in Hl1. congruence.
      * right. split; simpl; [done..|]. exists r1. split; [|done]. rewrite lookup_insert_ne; [done|]. intros E. rewrite <-E in Hl1. congruence.
  - intros a1 Hb1. destruct (ti_build _ Hi _ Hb1) as [th1 Hth1].
    destruct (decide (a1 = a)) as [->|]; [rewrite lookup_insert_eq; by eexists|]. rewrite lookup_insert_ne; [by eexists|done].
  - intros t [r1 [[<- <-]|[_ Hl]]%lookup_insert_Some]; apply (ti_pos _ Hi); by eexists.
Qed.

(** A change of a thread that neither is early nor was. *)
Lemma proc_update st tid r r' c :
  t_inv st → procs st !! tid = Some r → t_thread r' = t_thread r → early (r_pc r') = early (r_pc r) →
  (∀ th, filled tid r th → filled tid r' th) → (∀ cb, r_pc r' = InCb cb → r_pc r = InCb cb) →
  t_inv (mkThreads (objects st) (<[tid := r']> (procs st)) (building st) c).
Proof.
  intros Hi Er Ht Ee Hf Hc. split; simpl.
  - intros t r1 a1 [[<- <-]|[Hne Hl]]%lookup_insert_Some; [|by eapply ti_early].
    rewrite Ee. intros Ea. destruct (ti_early _ Hi _ _ _ Er Ea) as (Hb & th & H1 & H2 & H3 & H4).
    split; [done|]. exists th. split_and!; auto.
  - intros t r1 cb [[<- <-]|[Hne Hl]]%lookup_insert_Some; [|by eapply ti_cb]. intros E%Hc. by eapply ti_cb.
  - intros a th Hl. destruct (ti_obj _ Hi _ _ Hl) as [(t & r1 & Hl1 & Ea1)|[H1 H2 H3 H4 (r1 & Hl1 & Ea1 & Et1)]].
    + left. destruct (decide (t = tid)) as [->|Hne].
      * exists tid, r'. rewrite lookup_insert_eq. split; [done|]. congruence.
      * exists t, r1. by rewrite lookup_insert_ne.
    + right. split; simpl; [done..|]. destruct (decide (m_id th = tid)) as [<-|Hne].
      * exists r'. rewrite lookup_insert_eq. split_and!; congruence.
      * exists r1. by rewrite lookup_insert_ne.
  - apply (ti_build _ Hi).
  - intros t [r1 [[<- <-]|[_ Hl]]%lookup_insert_Some]; apply (ti_pos _ Hi); by eexists.
Qed.

(** A change of an object that leaves what the thread has set. *)
Lemma object_update st a th th' :
  t_inv st → objects st !! a = Some th → m_id th' = m_id th → m_cb th' = m_cb th → m_semaphore th' = m_semaphore th →
  m_thread th' = m_thread th ∨ (m_thread th' = 0 ∧ a ∉ building st) →
  t_inv (set_object st a th').
Proof.
  intros Hi Eo Hid Hcb Hsem Ht. split; simpl.
  - intros tid r a1 Hr Ea. destruct (ti_early _ Hi _ _ _ Hr Ea) as (Hb & th1 & Eo1 & H1 & H2 & H3). split; [done|].
    destruct (decide (a1 = a)) as [->|Hne]; [|exists th1; by rewrite lookup_insert_ne].
    exists th'. rewrite lookup_insert_eq. rewrite Eo in Eo1. injection Eo1 as <-.
    destruct Ht as [Ht|[_ ?]]; [|done]. split_and!; [done|congruence|congruence|].
    unfold filled in *. by destruct (r_pc r); rewrite ?Hcb, ?Hid.
  - apply (ti_cb _ Hi).
  - intros a1 th1 [[<- <-]|[Hne Hl]]%lookup_insert_Some.
    + destruct (ti_obj _ Hi _ _ Eo) as [?|[H1 H2 H3 H4 H5]]; [by left|right].
      split; simpl; rewrite ?Hcb, ?Hid, ?Hsem; try done. destruct Ht as [->|[-> _]]; [done|by right].
    + destruct (ti_obj _ Hi _ _ Hl) as [?|[H1 H2 H3 H4 H5]]; [by left|by right].
  - intros a1 Hb. destruct (ti_build _ Hi _ Hb) as [th1 ?].
    destruct (decide (a1 = a)) as [->|]; [rewrite lookup_insert_eq; by eexists|]. rewrite lookup_insert_ne; [by eexists|done].
  - apply (ti_pos _ Hi).
Qed.

Lemma set_object_id st a th : objects st !! a = Some th → set_object st a th = st.
Proof. intros E. destruct st. unfold set_object. simpl in *. by rewrite insert_id. Qed.

Lemma run_step_inv st tid st' : t_inv st → run_step st tid = Ok st' → t_inv st'.
Proof.
  intros Hi. unfold run_step. destruct (procs st !! tid) as [r|] eqn:Er; osimpl; [|done].
  destruct (early (r_pc r)) as [a|] eqn:Ea.
  - destruct (ti_early _ Hi _ _ _ Er Ea) as (Hb & th & Eo & Ht & Hs & Hf). unfold filled in Hf.
    destruct (r_pc r) as [a1|a1|a1|a1 cb|cb|] eqn:Epc; simpl in Ea; try done; injection Ea as ->;
      rewrite Eo; osimpl; intros [= <-].
    + rewrite <-(set_object_id st a th Eo) at 1. apply (run_update st tid r _ a th th Hi Er);
        [by rewrite Epc|done..|left; by split_and!].
    + apply (run_update st tid r _ a th (set_id th tid) Hi Er); [by rewrite Epc|done..|left]. split_and!; [done..|].
      destruct Hf. by split_and!.
    + apply (run_update st tid r _ a th (swap_cb th) Hi Er); [by rewrite Epc|done..|left]. split_and!; [done..|].
      destruct Hf as (H1 & H2 & H3). by split_and!.
    + apply (run_update st tid r _ a th (post th) Hi Er); [by rewrite Epc|done..|right].
      destruct Hf as (H1 & H2 & H3 & H4). simpl. rewrite Hs. split_and!; [done..|]. by intros ? [= <-].
  - destruct (r_pc r) as [a1|a1|a1|a1 cb|cb|] eqn:Epc; try done; [|by intros [= <-]].
    destruct cb as [f|]; osimpl; [|done]. intros [= <-].
    apply (proc_update st tid r); [done|done|done|by rewrite Epc|done|done].
Qed.

Lemma SetName_inv st tid name st' : t_inv st → SetName st tid name = Ok st' → t_inv st'.
Proof.
  intros Hi. unfold SetName. case_decide; [by intros [= <-]|].
  destruct (procs st !! tid) as [r|] eqn:Er; osimpl; [|done].
  assert (∀ st1, t_inv st1 → procs st1 !! tid = Some r →
    t_inv (set_proc st1 tid (mkRun (t_thread r) name (r_name r) (r_pc r)))) as Hp.
  { intros st1 Hi1 Er1. by apply (proc_update st1 tid r). }
  destruct (t_thread r) as [a|]; [|intros [= <-]; by apply Hp].
  destruct (objects st !! a) as [th|] eqn:Eo; osimpl; [|done]. intros [= <-]. apply Hp; [|done].
  apply (object_update st a th); [done..|by left].
Qed.

Lemma create_inv st a tid cb name :
  t_inv st → objects st !! a = None → procs st !! tid = None → 0 < tid →
  t_inv (mkThreads (<[a := Thread_new tid cb name]> (objects st)) (<[tid := running_new a]> (procs st))
           (a :: building st) (called st)).
Proof.
  intros Hi Ho Hp Hpos.
  split; simpl.
  - intros t r a1 [[<- <-]|[Hne Hl]]%lookup_insert_Some.
    + intros [= <-]. split; [apply elem_of_cons; by left|]. exists (Thread_new tid cb name). rewrite lookup_insert_eq.
      split_and!; [done..|]. by eexists.
    + intros Ea. destruct (ti_early _ Hi _ _ _ Hl Ea) as (Hb & th & Eo & Hrest). split; [apply elem_of_cons; by right|].
      exists th. rewrite lookup_insert_ne; [done|]. intros ->. congruence.
  - intros t r1 c [[<- <-]|[Hne Hl]]%lookup_insert_Some; [done|by eapply ti_cb].
  - intros a1 th [[<- <-]|[Hne Hl]]%lookup_insert_Some.
    + left. exists tid, (running_new a). by rewrite lookup_insert_eq.
    + destruct (ti_obj _ Hi _ _ Hl) as [(t & r1 & Hl1 & Ea1)|[H1 H2 H3 H4 (r1 & Hl1 & Ea1 & Et1)]].
      * left. exists t, r1. split; [|done]. rewrite lookup_insert_ne; [done|]. intros ->. congruence.
      * right. split; simpl; [done..| |].
        -- rewrite H4. by apply decide_ext; rewrite elem_of_cons; naive_solver.
        -- exists r1. split; [|done]. rewrite lookup_insert_ne; [done|]. intros E. rewrite <-E in Hl1. congruence.
  - intros a1 [-> |Hb]%elem_of_cons; [rewrite lookup_insert_eq; by eexists|].
    destruct (ti_build _ Hi _ Hb) as [th1 E1]. rewrite lookup_insert_ne; [by eexists|]. intros ->. congruence.
  - intros t [r1 [[<- <-]|[_ Hl]]%lookup_insert_Some]; [done|]. apply (ti_pos _ Hi). by eexists.
Qed.

Lemma built_inv st a th :
  t_inv st → a ∈ building st → objects st !! a = Some th → (0 < m_semaphore th)%nat →
  t_inv (mkThreads (<[a := take_sem th]> (objects st)) (procs st) (filter (λ b, b ≠ a) (building st)) (called st)).
Proof.
  intros Hi Hb Eo Hs.
  assert (∀ tid r a1, procs st !! tid = Some r → early (r_pc r) = Some a1 → a1 ≠ a) as Hnot.
  { intros tid r a1 Hr Ea ->. destruct (ti_early _ Hi _ _ _ Hr Ea) as (_ & th1 & E1 & _ & Hs1 & _).
    rewrite Eo in E1. injection E1 as <-. lia. }
  split; simpl.
  - intros tid r a1 Hr Ea. pose proof (Hnot _ _ _ Hr Ea). destruct (ti_early _ Hi _ _ _ Hr Ea) as (Hb1 & Hrest).
    split; [by apply list_elem_of_filter|]. by rewrite lookup_insert_ne.
  - apply (ti_cb _ Hi).
  - intros a1 th1 [[<- <-]|[Hne Hl]]%lookup_insert_Some.
    + destruct (ti_obj _ Hi _ _ Eo) as [(t & r & Hr & Ea)|[H1 H2 H3 H4 H5]]; [by destruct (Hnot _ _ _ Hr Ea)|right].
      split; simpl; [done..| |done]. rewrite H4, decide_True by done.
      rewrite decide_False; [done|]. by intros [? _]%list_elem_of_filter.
    + destruct (ti_obj _ Hi _ _ Hl) as [?|[H1 H2 H3 H4 H5]]; [by left|right]. split; simpl; [done..| |done].
      rewrite H4. apply decide_ext. rewrite list_elem_of_filter. naive_solver.
  - intros a1 [Hne Hb1]%list_elem_of_filter. rewrite lookup_insert_ne by done. by apply (ti_build _ Hi).
  - apply (ti_pos _ Hi).
Qed.

Lemma join_inv st a st' : t_inv st → a ∉ building st → join st a = Ok (Some st') → t_inv st'.
Proof.
  intros Hi Hb E.
  unfold join in E. apply outcome_bind_ok in E as (th & Eo & E).
  destruct (objects st !! a) as [th0|] eqn:Eo0; [|done]. injection Eo as ->.
  case_decide; [by injection E as <-|]. destruct (r_pc <$> _) as [[]|]; try done. injection E as <-.
  apply (object_update st a th); [done..|]. by right.
Qed.

Lemma destroy_inv st a :
  t_inv st → a ∉ building st → t_inv (mkThreads (delete a (objects st)) (procs st) (building st) (called st)).
Proof.
  intros Hi Hb.
  assert (∀ tid r a1, procs st !! tid = Some r → early (r_pc r) = Some a1 → a1 ≠ a) as Hnot.
  { intros tid r a1 Hr Ea ->. by destruct (ti_early _ Hi _ _ _ Hr Ea). }
  split; simpl.
  - intros tid r a1 Hr Ea. pose proof (Hnot _ _ _ Hr Ea). rewrite lookup_delete_ne by done. by apply (ti_early _ Hi).
  - apply (ti_cb _ Hi).
  - intros a1 th1 [Hne Hl]%lookup_delete_Some.
    destruct (ti_obj _ Hi _ _ Hl) as [?|[H1 H2 H3 H4 H5]]; [by left|by right].
  - intros a1 Hb1. rewrite lookup_delete_ne by (by intros ->). by apply (ti_build _ Hi).
  - apply (ti_pos _ Hi).
Qed.

Lemma thread_step_inv st st' : t_inv st → tstep st st' → t_inv st'.
Proof.
  intros Hi Hstep. destruct Hstep;
    [by apply create_inv|by eapply run_step_inv|by apply built_inv|by eapply join_inv|by apply destroy_inv|by eapply SetName_inv].
Qed.

Lemma threads_inv st : rtc tstep threads_new st → t_inv st.
Proof.
  intros Hr. assert (t_inv threads_new) as Hi.
  { split; simpl; [by intros ? ? ? ?%lookup_empty_Some..|by intros ? ? ?%lookup_empty_Some|by intros ? ?%elem_of_nil|].
    by intros tid [r ?%lookup_empty_Some]. }
  induction Hr as [|st1 st2 st3 Hs _ IH]; [done|]. apply IH. by eapply thread_step_inv.
Qed.

(** How far a thread is from its [notify]. *)
Definition to_notify (pc : run_pc) : nat :=
  match pc with AtEntry _ => 4 | AtId _ => 3 | AtSwap _ => 2 | AtNotify _ _ => 1 | InCb _ | Finished => 0 end.

(** A thread that has not ended can go on. *)
Lemma run_progress st tid r :
  t_inv st → procs st !! tid = Some r → r_pc r ≠ Finished →
  ∃ st' r', run_step st tid = Ok st' ∧ procs st' !! tid = Some r' ∧ building st' = building st ∧
    to_notify (r_pc r') = pred (to_notify (r_pc r)) ∧ (r_pc r' = Finished ∨ early (r_pc r') = early (r_pc r) ∨
      to_notify (r_pc r') = 0%nat).
Proof.
  intros Hi Er Hpc. unfold run_step. rewrite Er. osimpl. destruct (early (r_pc r)) as [a|] eqn:Ea.
  - destruct (ti_early _ Hi _ _ _ Er Ea) as (_ & th & Eo & _).
    destruct (r_pc r) eqn:Epc; simpl in Ea; try done; injection Ea as ->; rewrite Eo; osimpl;
      (eexists _, _; split; [done|]; simpl; rewrite lookup_insert_eq; split_and!; [done..|]; simpl; auto).
  - destruct (r_pc r) as [| | | |cb|] eqn:Epc; try done. destruct (ti_cb _ Hi _ _ _ Er Epc) as [f ->]. osimpl.
    eexists _, _. split; [done|]. simpl. rewrite lookup_insert_eq. split_and!; [done..|]. by left.
Qed.

Lemma constructor_returns n : ∀ st tid r a,
  t_inv st → procs st !! tid = Some r → early (r_pc r) = Some a → to_notify (r_pc r) = n →
  ∃ st', rtc tstep st st' ∧ a ∉ building st'.
Proof.
  induction n as [|n IH]; intros st tid r a Hi Er Ea Hn.
  { by destruct (r_pc r). }
  destruct (run_progress st tid r Hi Er) as (st1 & r1 & E & Er1 & Eb & Hn1 & Hcase); [by intros Hf; rewrite Hf in Ea|].
  assert (tstep st st1) as Hstep by (eapply ts_run; [by eexists|done]).
  pose proof (run_step_inv _ _ _ Hi E) as Hi1. destruct (early (r_pc r1)) as [a1|] eqn:Ea1.
  - destruct Hcase as [Hf|[He|Hz]]; [by rewrite Hf in Ea1| |by destruct (r_pc r1)].
    destruct (IH st1 tid r1 a Hi1 Er1) as (st2 & Hr2 & Hnot); [congruence|lia|].
    exists st2. split; [by eapply rtc_l|done].
  - destruct (ti_early _ Hi _ _ _ Er Ea) as (Hb & _). rewrite <-Eb in Hb.
    destruct (ti_build _ Hi1 _ Hb) as [th Eo]. destruct (ti_obj _ Hi1 _ _ Eo) as [(t & r2 & Er2 & Ea2)|Hready].
    + destruct (ti_early _ Hi1 _ _ _ Er2 Ea2) as (_ & th2 & Eo2 & Ht2 & _).
      destruct (ti_early _ Hi _ _ _ Er Ea) as (_ & th0 & Eo0 & Ht0 & _).
      assert (t ≠ tid) by (intros ->; congruence).
      exfalso. revert E. unfold run_step. rewrite Er. osimpl. destruct (r_pc r) eqn:Epc; simpl in Ea; try done; injection Ea as ->;
        rewrite Eo0; osimpl; intros [= <-]; simpl in *; rewrite ?lookup_insert_eq, ?lookup_insert_ne in * by done;
        simplify_eq/=; congruence.
    + pose proof (rd_sem _ _ _ Hready) as Hs. rewrite decide_True in Hs by done.
      eexists. split; [eapply rtc_l; [done|]; apply rtc_once, (ts_built st1 a th Hb Eo); lia|].
      simpl. by intros [? _]%list_elem_of_filter.
Qed.

(** C34. When the constructor has returned, the thread has started: the object has
    the thread's id, the thread knows its object, and the callback has moved out of
    the object, in every interleaving. Up to then the object exists, so that a
    thread can always go on until it ends, and a constructor that waits is always
    woken. *)
Theorem thread_started st :
  rtc tstep threads_new st →
  (∀ a th, objects st !! a = Some th → a ∉ building st →
     m_cb th = None ∧ 0 < m_id th ∧ ∃ r, procs st !! m_id th = Some r ∧ early (r_pc r) = None ∧ t_thread r = Some a) ∧
  (∀ tid r, procs st !! tid = Some r → r_pc r ≠ Finished → ∃ st', run_step st tid = Ok st') ∧
  (∀ a, a ∈ building st → ∃ st', rtc tstep st st' ∧ a ∉ building st').
Proof.
  intros Hi%threads_inv. split_and!.
  - intros a th Eo Hb. destruct (ti_obj _ Hi _ _ Eo) as [(tid & r & Er & Ea)|[H1 H2 _ _ H3]].
    + by destruct (ti_early _ Hi _ _ _ Er Ea).
    + done.
  - intros tid r Er Hpc. destruct (run_progress st tid r Hi Er Hpc) as (st' & ? & ? & _). by exists st'.
  - intros a Hb. destruct (ti_build _ Hi _ Hb) as [th Eo].
    destruct (ti_obj _ Hi _ _ Eo) as [(tid & r & Er & Ea)|Hready]; [by eapply constructor_returns|].
    pose proof (rd_sem _ _ _ Hready) as Hs. rewrite decide_True in Hs by done.
    eexists. split; [apply rtc_once, (ts_built st a th Hb Eo); lia|]. simpl. by intros [? _]%list_elem_of_filter.
Qed.

(** A thread whose object was destroyed cannot be named: [t_thread] still points
    to the object. *)
Lemma SetName_after_destroy st tid r a name :
  procs st !! tid = Some r → t_thread r = Some a → objects st !! a = None → name ≠ [] → SetName st tid name = Stuck.
Proof. intros Er Ht Eo Hn. unfold SetName. rewrite decide_False, Er by done. osimpl. by rewrite Ht, Eo. Qed.

(** One thread that is being created. *)
Definition one_thread : threads :=
  mkThreads {[0%nat := Thread_new 5 7 (text "io")]} {[5 := running_new 0]} [0%nat] [].

Lemma thread_started_witness : ∃ st, rtc tstep one_thread st ∧ 0%nat ∉ building st.
Proof.
  apply (thread_started one_thread).
  - eapply rtc_once, (ts_create threads_new 0 5 7 (text "io")); [reflexivity|reflexivity|lia].
  - apply elem_of_cons. left. reflexivity.
Defined.
