(* ===== verification/FsUtil.v ===== *)
(** The file utilities ([FSUtil] of sylar/util.cc) over an interface to the file
    system. A path is its text; what the program sees of the file system is what
    the calls return. *)

From Stdlib Require Import ZArith Lia.
From stdpp Require Import base numbers option strings tactics sets list_numbers list.
From S2P Require Import Prelude StdSet Text.

Local Open Scope Z_scope.

Abbreviation path := (list Z).

(** [d_type] of an entry, of the system's headers. *)
Definition DT_UNKNOWN : Z := 0.
Definition DT_DIR : Z := 4.
Definition DT_REG : Z := 8.
Definition DT_LNK : Z := 10.

(** The bits of [st_mode] that hold the kind of a file, and those of a
    directory. *)
Definition S_IFMT : Z := 61440.
Definition S_IFDIR : Z := 16384.

(** The system calls; a call that changes the file system returns whether it
    succeeded. [fs_lstat] returns the mode, [fs_readdir] what a directory's
    entries are when [opendir] succeeds, [fs_getline] the first line of a file
    that can be opened and read, [fs_write] and [fs_read] whether a stream could
    be opened, and [fs_kill] whether a signal 0 reaches a process. *)
Class FileSystem (K : Type) : Type := {
  fs_access : K → path → bool;
  fs_lstat : K → path → option Z;
  fs_readdir : K → path → option (list (list Z * Z));
  fs_mkdir : K → path → bool * K;
  fs_unlink : K → path → bool * K;
  fs_rmdir : K → path → bool * K;
  fs_rename : K → path → path → bool * K;
  fs_symlink : K → path → path → bool * K;
  fs_realpath : K → path → option path;
  fs_getline : K → path → option (list Z);
  fs_read : K → path → bool;
  fs_write : K → path → bool * K;
  fs_kill : K → Z → bool
}.

(** [path + "/" + name]. *)
Definition slash : Z := 47.
Definition sub (p : path) (name : list Z) : path := p ++ slash :: name.

Definition is_dots (name : list Z) : bool := bool_decide (name = text "." ∨ name = text "..").

(** [atoi] as the C library has it: [strtol] stops at the ends of its range, and
    the result is cut to an [int]. *)
Definition clamp (lo hi n : Z) : Z := Z.max lo (Z.min hi n).
Definition atoi32 (s : list Z) : Z := s32 (clamp (- 2 ^ 63) (2 ^ 63 - 1) (atoi (c_str s))).

Section fsutil.
Context {K : Type} `{FileSystem K}.

(** ** Listing *)

(** The test of a name against the suffix. *)
Definition has_suffix (filename subfix : list Z) : bool :=
  if bool_decide (subfix = []) then true
  else if bool_decide (length filename < length subfix)%nat then false
  else bool_decide (drop (length filename - length subfix) filename = subfix).

(** One turn of the loop over the entries; [list_dir] is the recursive call. *)
Definition list_entry (list_dir : list path → path → outcome (list path)) (p : path) (subfix : list Z)
    (files : list path) (dt : list Z * Z) : outcome (list path) :=
  let '(d_name, d_type) := dt in
  if decide (d_type = DT_DIR) then
    if is_dots d_name then Ok files else list_dir files (sub p d_name)
  else if decide (d_type = DT_REG) then
    if has_suffix d_name subfix then Ok (files ++ [sub p d_name]) else Ok files
  else Ok files.

Fixpoint list_entries (list_dir : list path → path → outcome (list path)) (p : path) (subfix : list Z)
    (files : list path) (entries : list (list Z * Z)) : outcome (list path) :=
  match entries with
  | [] => Ok files
  | dt :: entries => files ← list_entry list_dir p subfix files dt; list_entries list_dir p subfix files entries
  end.

Fixpoint ListAllFile (fuel : nat) (k : K) (subfix : list Z) (files : list path) (p : path) :
    outcome (list path) :=
  match fuel with
  | O => Stuck
  | S fuel =>
    if fs_access k p then
      match fs_readdir k p with
      | None => Ok files
      | Some entries => list_entries (ListAllFile fuel k subfix) p subfix files entries
      end
    else Ok files
  end.

(** ** Creating *)

Definition mkdir1 (k : K) (dirname : path) : bool * K :=
  if fs_access k dirname then (true, k) else fs_mkdir k dirname.

(** The loop over the slashes of the path: [seen] is what precedes [ptr] while
    [strchr] moves it through [rest]. *)
Fixpoint mkdir_prefixes (k : K) (seen rest : path) : bool * K :=
  match rest with
  | [] => (true, k)
  | c :: rest =>
    if decide (c = slash) then
      let '(ok, k) := mkdir1 k seen in
      if ok then mkdir_prefixes k (seen ++ [c]) rest else (false, k)
    else mkdir_prefixes k (seen ++ [c]) rest
  end.

(** For an empty path, [path + 1] is past the end of the copy. *)
Definition Mkdir (k : K) (dirname : path) : outcome (bool * K) :=
  match fs_lstat k dirname with
  | Some _ => Ok (true, k)
  | None =>
    match dirname with
    | [] => Stuck
    | c :: rest =>
      let '(ok, k) := mkdir_prefixes k [c] rest in
      if ok then Ok (mkdir1 k dirname) else Ok (false, k)
    end
  end.

Definition IsRunningPidfile (k : K) (pidfile : path) : bool :=
  match fs_lstat k pidfile with
  | None => false
  | Some _ =>
    match fs_getline k pidfile with
    | None => false
    | Some line =>
      if bool_decide (line = []) then false
      else
        let pid := atoi32 line in
        if bool_decide (pid <= 1) then false else fs_kill k pid
    end
  end.

(** ** Removing *)

Definition Unlink (k : K) (filename : path) (exist : bool) : bool * K :=
  if negb exist && bool_decide (fs_lstat k filename = None) then (true, k)
  else fs_unlink k filename.

(** The loop over the entries; [rm] is the recursive call. *)
Fixpoint rm_entries (rm : K → path → outcome (bool * K)) (p : path) (ret : bool) (k : K)
    (entries : list (list Z * Z)) : outcome (bool * K) :=
  match entries with
  | [] => Ok (ret, k)
  | (d_name, _) :: entries =>
    if is_dots d_name then rm_entries rm p ret k entries
    else
      '(ret, k) ← rm k (sub p d_name);
      rm_entries rm p ret k entries
  end.

Fixpoint Rm (fuel : nat) (k : K) (p : path) : outcome (bool * K) :=
  match fuel with
  | O => Stuck
  | S fuel =>
    match fs_lstat k p with
    | None => Ok (true, k)
    | Some st_mode =>
      if decide (Z.land st_mode S_IFDIR = 0) then Ok (Unlink k p false)
      else
        match fs_readdir k p with
        | None => Ok (false, k)
        | Some entries =>
          '(ret, k) ← rm_entries (Rm fuel) p true k entries;
          let '(ok, k) := fs_rmdir k p in
          Ok (if ok then ret else false, k)
        end
    end
  end.

Definition Mv (fuel : nat) (k : K) (from to : path) : outcome (bool * K) :=
  '(ok, k) ← Rm fuel k to;
  if ok : bool then Ok (fs_rename k from to) else Ok (false, k).

Definition Symlink (fuel : nat) (k : K) (from to : path) : outcome (bool * K) :=
  '(ok, k) ← Rm fuel k to;
  if ok : bool then Ok (fs_symlink k from to) else Ok (false, k).

(** The result, and [rpath] afterwards. *)
Definition Realpath (k : K) (p rpath : path) : bool * path :=
  match fs_lstat k p with
  | None => (false, rpath)
  | Some _ => match fs_realpath k p with None => (false, rpath) | Some q => (true, q) end
  end.

(** ** Names *)

Definition Dirname (filename : path) : path :=
  match filename with
  | [] => text "."
  | _ =>
    match find_last (λ c, bool_decide (c = slash)) filename with
    | Some O => text "/"
    | None => text "."
    | Some pos => take pos filename
    end
  end.

Definition Basename (filename : path) : path :=
  match filename with
  | [] => filename
  | _ =>
    match find_last (λ c, bool_decide (c = slash)) filename with
    | None => filename
    | Some pos => drop (S pos) filename
    end
  end.

(** ** Streams *)

Definition OpenForRead (k : K) (filename : path) : bool := fs_read k filename.

Definition OpenForWrite (k : K) (filename : path) : outcome (bool * K) :=
  let '(ok, k) := fs_write k filename in
  if ok then Ok (true, k)
  else
    '(_, k) ← Mkdir k (Dirname filename);
    Ok (fs_write k filename).

End fsutil.
