(* ===== verification/ClientMachine.v ===== *)
(** The machine of the response parser (sylar/http/httpclient_parser.rl): its grammar, its
    actions and [httpclient_parser_execute], and what the client makes of a response that
    is sent in one piece or in chunks. *)

From Stdlib Require Import ZArith Lia.
From stdpp Require Import base numbers pmap option strings tactics list list_numbers.
From S2P Require Import Prelude StdSet Text FsUtil StdMap HashUtil Stream WebSocket Http HttpParser HttpClient Ragel Http11.

Local Open Scope Z_scope.

(** ** The grammar *)

(** The actions of the machine. *)
Inductive client_action : Type :=
| c_mark | c_start_field | c_write_field | c_start_value | c_write_content_len | c_write_connection_close | c_write_value
| c_reason_phrase | c_status_code | c_http_version | c_chunk_size | c_trans_chunked | c_done.

#[export] Instance client_action_eq_dec : EqDecision client_action.
Proof. solve_decision. Defined.

Section client_grammar.
Local Open Scope ragel_scope.

Definition cl_chr (s : string) : rx client_action := Chr (chars s).
Definition cl_CRLF : rx client_action := lit_bytes [13; 10] ∥ Chr [(10, 10)].

Definition CTL : cls := cntrl ++ [(127, 127)].
Definition tspecials : cls := chars "()<>@,;:\/[]?={} " ++ [(34, 34); (9, 9)].
Definition cl_token : cls := cls_diff ascii (CTL ++ tspecials).

(** [any -- CRLF]: of the two line ends only the second is one character. *)
Definition Reason_Phrase : rx client_action := Leave (Enter (Plus (Chr (cls_diff any [(10, 10)]))) c_mark) c_reason_phrase.
Definition Status_Code : rx client_action := Leave (Enter (Plus (Chr digit)) c_mark) c_status_code.
Definition cl_http_number : rx client_action := Plus (Chr digit) ⋅ cl_chr "." ⋅ Plus (Chr digit).
Definition cl_HTTP_Version : rx client_action := Leave (Enter (lit "HTTP/" ⋅ cl_http_number) c_mark) c_http_version.
Definition Status_Line : rx client_action :=
  EntryGuard (cl_HTTP_Version ⋅ cl_chr " " ⋅ Status_Code ⋅ cl_chr " " ⋅ Reason_Phrase) cl_CRLF.

Definition cl_field_name : rx client_action := Leave (Enter (Plus (Chr cl_token)) c_start_field) c_write_field.
Definition cl_field_value : rx client_action := Leave (Enter (Star (Chr any)) c_start_value) c_write_value.
Definition fields : rx client_action := EntryGuard (cl_field_name ⋅ cl_chr ":" ⋅ Star (Chr space) ⋅ cl_field_value) cl_CRLF.

Definition content_length : rx client_action :=
  Leave (Enter (nocase "Content-Length") c_start_field) c_write_field ⋅ cl_chr ":" ⋅ Star (Chr space)
  ⋅ Leave (Leave (Enter (Plus (Chr digit)) c_start_value) c_write_content_len) c_write_value ⋅ cl_CRLF.
Definition conn_close : rx client_action :=
  nocase "Connection" ⋅ cl_chr ":" ⋅ Star (Chr space) ⋅ nocase "close" ⋅ Leave cl_CRLF c_write_connection_close.
Definition transfer_encoding_chunked : rx client_action :=
  Leave (Enter (nocase "Transfer-Encoding") c_start_field) c_write_field ⋅ cl_chr ":" ⋅ Star (Chr space)
  ⋅ Leave (Enter (nocase "chunked") c_start_value) c_write_value ⋅ Finish cl_CRLF c_trans_chunked.

Definition cl_message_header : rx client_action := transfer_encoding_chunked ∥ conn_close ∥ content_length ∥ fields.
Definition Response : rx client_action := Status_Line ⋅ Star cl_message_header ⋅ cl_CRLF.

Definition chunk_ext_val : rx client_action := Plus (Chr cl_token).
Definition chunk_ext_name : rx client_action := Plus (Chr cl_token).
Definition chunk_extension : rx client_action :=
  Star (cl_chr ";" ⋅ Leave (Leave (Enter chunk_ext_name c_start_field) c_write_field) c_start_value
        ⋅ Leave (Opt (cl_chr "=" ⋅ Enter chunk_ext_val c_start_value)) c_write_value).
Definition chunk_size : rx client_action := Plus (Chr xdigit).
Definition Chunked_Header : rx client_action :=
  EntryGuard (Leave (Enter chunk_size c_mark) c_chunk_size ⋅ chunk_extension) cl_CRLF.

Definition client_main : rx client_action := Finish (Response ∥ Chunked_Header) c_done.
End client_grammar.

(** The table that is generated. *)
Definition client_table : table client_action := Eval vm_compute in compile client_main.

(** ** The parser *)

(** [struct httpclient_parser]; the state is a set of positions, empty for the error state. *)
Record httpclient_parser : Type := mkClient {
  cl_cs : list positive;
  cl_body_start : nat;
  cl_content_len : Z;
  cl_status : Z;
  cl_chunked : bool;
  cl_chunks_done : bool;
  cl_close : bool;
  cl_nread : nat;
  cl_mark : nat;
  cl_field_start : nat;
  cl_field_len : nat
}.

Definition cl_set_marks (p : httpclient_parser) (mark field_start field_len : nat) : httpclient_parser :=
  mkClient (cl_cs p) (cl_body_start p) (cl_content_len p) (cl_status p) (cl_chunked p) (cl_chunks_done p) (cl_close p)
    (cl_nread p) mark field_start field_len.
Definition cl_set_body (p : httpclient_parser) (start : nat) : httpclient_parser :=
  mkClient (cl_cs p) start (cl_content_len p) (cl_status p) (cl_chunked p) (cl_chunks_done p) (cl_close p)
    (cl_nread p) (cl_mark p) (cl_field_start p) (cl_field_len p).
Definition cl_set_length (p : httpclient_parser) (len : Z) (chunked done : bool) : httpclient_parser :=
  mkClient (cl_cs p) (cl_body_start p) len (cl_status p) chunked done (cl_close p)
    (cl_nread p) (cl_mark p) (cl_field_start p) (cl_field_len p).
Definition cl_set_status (p : httpclient_parser) (status : Z) : httpclient_parser :=
  mkClient (cl_cs p) (cl_body_start p) (cl_content_len p) status (cl_chunked p) (cl_chunks_done p) (cl_close p)
    (cl_nread p) (cl_mark p) (cl_field_start p) (cl_field_len p).
Definition cl_set_close (p : httpclient_parser) : httpclient_parser :=
  mkClient (cl_cs p) (cl_body_start p) (cl_content_len p) (cl_status p) (cl_chunked p) (cl_chunks_done p) true
    (cl_nread p) (cl_mark p) (cl_field_start p) (cl_field_len p).
Definition cl_set_state (p : httpclient_parser) (s : list positive) (n : nat) : httpclient_parser :=
  mkClient s (cl_body_start p) (cl_content_len p) (cl_status p) (cl_chunked p) (cl_chunks_done p) (cl_close p)
    n (cl_mark p) (cl_field_start p) (cl_field_len p).

(** [httpclient_parser_init]: [status] keeps what it had. *)
Definition httpclient_parser_init (p : httpclient_parser) : httpclient_parser :=
  mkClient start 0 (-1) (cl_status p) false false false 0 0 0 0.

(** [strtol(s, NULL, 16)]: blanks, a sign, a prefix 0x, and the digits that follow. *)
Definition hex_digit_value (c : Z) : option Z :=
  if decide (48 <= c <= 57) then Some (c - 48)
  else if decide (65 <= c <= 70) then Some (c - 55)
  else if decide (97 <= c <= 102) then Some (c - 87) else None.
Fixpoint hex_digits (acc : Z) (s : list Z) : Z :=
  match s with
  | c :: s => match hex_digit_value c with Some d => hex_digits (acc * 16 + d) s | None => acc end
  | [] => acc
  end.
Definition after_0x (s : list Z) : list Z :=
  match s with
  | 48 :: (120 | 88) :: c :: t => if hex_digit_value c is Some _ then c :: t else s
  | _ => s
  end.
Definition strtol_16 (s : list Z) : Z :=
  clamp (- 2 ^ 63) (2 ^ 63 - 1)
    (match skip_space s with
     | 45 :: s => - hex_digits 0 (after_0x s)
     | 43 :: s => hex_digits 0 (after_0x s)
     | s => hex_digits 0 (after_0x s)
     end).

Section client_execute.
Context (buffer : list Z).

(** The actions, with the macros of the request parser; all callbacks are set. An [int]
    takes the low 32 bits of what [strtol] gives. *)
Definition client_perform (a : client_action) (fpc : nat) (p : httpclient_parser) :
    outcome (httpclient_parser * list event * bool) :=
  match a with
  | c_mark | c_start_value => mret (cl_set_marks p fpc (cl_field_start p) (cl_field_len p), [], false)
  | c_start_field => mret (cl_set_marks p (cl_mark p) fpc (cl_field_len p), [], false)
  | c_write_field =>
    n ← LEN (cl_field_start p) fpc; mret (cl_set_marks p (cl_mark p) (cl_field_start p) n, [], false)
  | c_write_content_len =>
    mret (cl_set_length p (atoi32 (PTR_TO buffer (cl_mark p))) (cl_chunked p) (cl_chunks_done p), [], false)
  | c_write_connection_close => mret (cl_set_close p, [], false)
  | c_write_value =>
    n ← LEN (cl_mark p) fpc;
    mret (p, [EvField (PTR_TO buffer (cl_field_start p)) (cl_field_len p) (PTR_TO buffer (cl_mark p)) n], false)
  | c_reason_phrase => n ← LEN (cl_mark p) fpc; mret (p, [EvReason (PTR_TO buffer (cl_mark p)) n], false)
  | c_status_code =>
    n ← LEN (cl_mark p) fpc;
    mret (cl_set_status p (atoi32 (PTR_TO buffer (cl_mark p))), [EvStatus (PTR_TO buffer (cl_mark p)) n], false)
  | c_http_version => n ← LEN (cl_mark p) fpc; mret (p, [EvVersion (PTR_TO buffer (cl_mark p)) n], false)
  | c_chunk_size =>
    let len := s32 (strtol_16 (PTR_TO buffer (cl_mark p))) in
    let last := bool_decide (len <= 0) in
    _ ← LEN (cl_mark p) fpc;
    mret (cl_set_length p len true last, [if last then EvLastChunk else EvChunk], false)
  | c_trans_chunked => mret (cl_set_length p (cl_content_len p) true (cl_chunks_done p), [], false)
  | c_done => mret (cl_set_body p (S fpc), [EvHeaderDone], true)
  end.

(** [httpclient_parser_execute(parser, buffer, len, off)]; the callers put the zero that is
    asserted behind the buffer. *)
Definition httpclient_parser_execute (p : httpclient_parser) (off : nat) : outcome (httpclient_parser * list event * Z) :=
  let len := length buffer in
  let p := mkClient (cl_cs p) (cl_body_start p) (cl_content_len p) (cl_status p) (cl_chunked p) (cl_chunks_done p) (cl_close p) 0 0 0 0 in
  _ ← sylar_assert (bool_decide (off <= len)%nat) "offset past end of buffer";
  '(s, p, evs, q) ← exec_loop client_table client_perform (cl_cs p) off (drop off buffer) p [];
  let p := cl_set_state p s (cl_nread p + (q - off)) in
  _ ← sylar_assert (bool_decide (q <= len)%nat) "buffer overflow after parsing execute";
  _ ← sylar_assert (bool_decide (cl_nread p <= len)%nat) "nread longer than length";
  _ ← sylar_assert (bool_decide (cl_body_start p <= len)%nat) "body starts after buffer end";
  if decide (cl_mark p < len ∧ cl_field_len p <= len ∧ cl_field_start p < len)%nat
  then mret (p, evs, Z.of_nat (cl_nread p)) else mret (p, evs, -1).
End client_execute.

Definition httpclient_parser_has_error (p : httpclient_parser) : bool := bool_decide (cl_cs p = []).

(** [cs == httpclient_parser_first_final]: final states are numbered in the order in which
    they are found from the start, characters in order and in depth first; the first is
    the one that a line end after the size of a chunk leads to, where nothing can follow. *)
Definition httpclient_parser_is_finished (p : httpclient_parser) : bool :=
  is_final client_table (cl_cs p) &&
  every (λ q, bool_decide (default [] (tb_moves client_table !! q) = [])) (cl_cs p).

Definition httpclient_parser_finish (p : httpclient_parser) : Z :=
  if httpclient_parser_has_error p then -1 else if httpclient_parser_is_finished p then 1 else 0.

(** ** The states a response goes through *)

(** The characters of a reason and of a value, which begins with no blank. *)
Definition reason_cls : cls := cls_diff any [(10, 10); (13, 13)].
Definition cvalue_first : cls := cls_diff any space.

Definition cl_reach (s : string) : list positive := after client_table start (text s).
Definition v_code : list positive := Eval vm_compute in cl_reach "HTTP/1.1 ".
Definition v_reason : list positive := Eval vm_compute in cl_reach "HTTP/1.1 2 ".
Definition v_rcr : list positive := Eval vm_compute in after client_table v_reason [97; 13].
Definition v_lines : list positive := Eval vm_compute in after client_table v_rcr [10].
Definition fc_code : list (list positive) := Eval vm_compute in spread client_table 4 [[digit]] [after client_table v_code [48]].
Definition fc_reason : list (list positive) := Eval vm_compute in spread client_table 4 [[reason_cls]] [after client_table v_reason [97]].

(** The states in front of a line, in its name, behind the colon and the blank, in its
    value and at its end, and those of the empty line. *)
Definition some_lines : list (list Z) := (λ s, text s ++ crlf) <$> ["a: b"; "content-length: 0"; "connection: close"; "transfer-encoding: chunked"].
Definition fc_line : list (list positive) := Eval vm_compute in v_lines :: (after client_table v_lines <$> some_lines).
Definition fc_name : list (list positive) := Eval vm_compute in
  spread client_table 20 [[name_cls]] (next_states client_table fc_line name_cls).
Definition fc_colon : list (list positive) := Eval vm_compute in next_states client_table fc_name (chars ":").
Definition fc_blank : list (list positive) := Eval vm_compute in next_states client_table fc_colon (chars " ").
Definition fc_value : list (list positive) := Eval vm_compute in
  spread client_table 10 [[reason_cls]] (next_states client_table fc_blank cvalue_first).
Definition fc_cr : list (list positive) := Eval vm_compute in next_states client_table fc_value [(13, 13)].
Definition fc_last : list (list positive) := Eval vm_compute in next_states client_table fc_line [(13, 13)].
Definition fc_done : list (list positive) := Eval vm_compute in next_states client_table fc_last [(10, 10)].
Definition v_last : list positive := Eval vm_compute in after client_table v_lines [13].
Definition v_done : list positive := Eval vm_compute in after client_table v_last [10].

(** The words that the line for chunks is made of, and their positions. *)
Definition w_name : list cls := both_cases <$> text "transfer-encoding".
Definition w_value : list cls := both_cases <$> text "chunked".
Definition has_pos (q : positive) (s : list positive) : bool := bool_decide (q ∈ s).

(** The transitions of the status line. *)
Lemma status_checks :
  enters client_table [[digit]] v_code [c_mark] fc_code = true ∧ closed client_table [[digit]] fc_code = true ∧
  exit_on client_table fc_code 32 [c_status_code] v_reason = true ∧
  enters client_table [[reason_cls]] v_reason [c_mark] fc_reason = true ∧ closed client_table [[reason_cls]] fc_reason = true ∧
  exit_on client_table fc_reason 13 [c_reason_phrase] v_rcr = true ∧ trans client_table v_rcr 10 = Some ([], v_lines).
Proof. vm_compute. repeat split. Qed.

Definition name_acts : list (list client_action) :=
  [[c_start_field; c_write_connection_close]; [c_write_connection_close; c_start_field]; [c_start_field]].
Definition value_acts : list (list client_action) := [[c_write_content_len; c_write_value]; [c_write_value]].
Definition end_acts : list (list client_action) := [[c_write_connection_close]; []].

(** The transitions of the lines, with the place in the line for chunks. *)
Lemma name_checks :
  leads client_table fc_line name_cls (λ s c acts s', bool_decide (acts ∈ name_acts) && bool_decide (s' ∈ fc_name) &&
    bool_decide (level w_name 21 s' = follow w_name (Some 0%nat) c)) = true ∧
  follows client_table w_name 21 fc_name name_cls = true ∧
  leads client_table fc_name (chars ":") (λ s c acts s', bool_decide (acts = [c_write_field]) && bool_decide (s' ∈ fc_colon) &&
    bool_decide (has_pos 38 s' = bool_decide (level w_name 21 s = Some 17%nat))) = true ∧
  leads client_table fc_colon (chars " ") (λ s c acts s', bool_decide (acts = [c_start_value]) && bool_decide (s' ∈ fc_blank) &&
    bool_decide (has_pos 39 s' = has_pos 38 s)) = true.
Proof. vm_compute. repeat split. Qed.

Lemma value_checks :
  leads client_table fc_blank cvalue_first (λ s c acts s', bool_decide (acts = [c_start_value]) && bool_decide (s' ∈ fc_value) &&
    bool_decide (level w_value 40 s' = follow w_value (if has_pos 39 s then Some 0%nat else None) c)) = true ∧
  follows client_table w_value 40 fc_value reason_cls = true ∧
  leads client_table fc_value [(13, 13)] (λ s c acts s', bool_decide (acts ∈ value_acts) && bool_decide (s' ∈ fc_cr) &&
    bool_decide (has_pos 47 s' = bool_decide (level w_value 40 s = Some 7%nat))) = true ∧
  leads client_table fc_cr [(10, 10)] (λ s c acts s',
    bool_decide (acts = if has_pos 47 s then [c_trans_chunked] else []) && bool_decide (s' ∈ fc_line)) = true ∧
  leads client_table fc_line [(13, 13)] (λ s c acts s', bool_decide (acts ∈ end_acts) && bool_decide (s' = v_last)) = true ∧
  trans client_table v_last 10 = Some ([c_done], v_done).
Proof. vm_compute. repeat split. Qed.

#[local] Arguments trans : simpl never.
#[local] Arguments in_cls : simpl never.
#[local] Arguments PTR_TO : simpl never.
#[local] Arguments LEN : simpl never.

(** ** The events of a response *)

(** A text that the client takes as a value; it is not empty. *)
Definition cvalue_text (w : list Z) : bool :=
  match w with [] => false | c :: w => in_cls cvalue_first c && every (in_cls reason_cls) w end.
Definition reason_text (w : list Z) : bool := negb (bool_decide (w = [])) && every (in_cls reason_cls) w.

(** The line that announces chunks. *)
Definition chunked_line (kv : list Z * list Z) : bool :=
  bool_decide (tolower <$> kv.1 = text "transfer-encoding") && bool_decide (tolower <$> kv.2 = text "chunked").

Lemma both_cases_spec c d : 97 <= c <= 122 ∨ c = 45 → in_cls (both_cases c) d = true ↔ tolower d = c.
Proof.
  intros Hc. unfold both_cases, tolower. destruct Hc as [Hc | ->].
  - assert ((97 <=? c) && (c <=? 122) = true) as -> by lia. rewrite in_cls_spec. split.
    + intros (ab & [-> | [-> | ?%elem_of_nil]%elem_of_cons]%elem_of_cons & ?); simpl in *; case_decide; lia.
    + intros Hd. case_decide; [exists (c - 32, c - 32)|exists (c, c)]; simpl; (split; [set_solver|lia]).
  - cbn. rewrite in_cls_spec. split.
    + intros (ab & [-> | ?%elem_of_nil]%elem_of_cons & ?); simpl in *; case_decide; lia.
    + intros Hd. exists (45, 45). simpl. split; [set_solver|case_decide; lia].
Qed.

Lemma nocase_spec word w : Forall (λ c, 97 <= c <= 122 ∨ c = 45) word →
  Forall2 (λ k c, in_cls k c = true) (both_cases <$> word) w ↔ tolower <$> w = word.
Proof.
  intros Hw. revert w. induction Hw as [|c word Hc _ IH]; intros [|d w]; simpl.
  - split; [done|]. intros _. constructor.
  - split; [|done]. by intros ?%Forall2_nil_inv_l.
  - split; [|done]. by intros ?%Forall2_nil_inv_r.
  - rewrite Forall2_cons, both_cases_spec, IH by done. split; [intros [? ?]; by f_equal|]. by intros [= ? ?].
Qed.

Lemma level_name w : foldl (follow w_name) (Some 0%nat) w = Some 17%nat ↔ tolower <$> w = text "transfer-encoding".
Proof.
  change 17%nat with (length w_name). rewrite follow_spec by (simpl; lia). rewrite drop_0. apply nocase_spec.
  apply (bool_decide_unpack _). by vm_compute.
Qed.

Lemma level_value w : foldl (follow w_value) (Some 0%nat) w = Some 7%nat ↔ tolower <$> w = text "chunked".
Proof.
  change 7%nat with (length w_value). rewrite follow_spec by (simpl; lia). rewrite drop_0. apply nocase_spec.
  apply (bool_decide_unpack _). by vm_compute.
Qed.

(** What a transition of the lines does to the parser. *)
Section response.
Context (B : list Z).
#[local] Abbreviation cexec := (exec_loop client_table (client_perform B)).
#[local] Abbreviation crun := (run_actions (client_perform B)).

Lemma name_acts_run acts p m : acts ∈ name_acts →
  ∃ m', crun acts p m = Ok (m', [], false) ∧ cl_field_start m' = p ∧ cl_chunked m' = cl_chunked m.
Proof.
  intros H. repeat (apply elem_of_cons in H as [->|H]; [by eexists|]). by apply elem_of_nil in H.
Qed.

Lemma value_acts_run acts p m : acts ∈ value_acts → (cl_mark m <= p)%nat →
  ∃ m', crun acts p m = Ok (m', [EvField (drop (cl_field_start m) B) (cl_field_len m) (drop (cl_mark m) B) (p - cl_mark m)], false) ∧
    cl_chunked m' = cl_chunked m.
Proof.
  intros H Hm. repeat (apply elem_of_cons in H as [->|H]; [eexists; simpl; rewrite LEN_ok by (simpl; lia); by split|]).
  by apply elem_of_nil in H.
Qed.

Lemma end_acts_run acts p m : acts ∈ end_acts → ∃ m', crun acts p m = Ok (m', [], false) ∧ cl_chunked m' = cl_chunked m.
Proof. intros H. repeat (apply elem_of_cons in H as [->|H]; [by eexists|]). by apply elem_of_nil in H. Qed.

(** The name of a line, up to the blank behind the colon. *)
Lemma cname_run s name p rest m evs : s ∈ fc_line → name_text name = true →
  ∃ s' m', cexec s p (name ++ text ": " ++ rest) m evs = cexec s' (p + length name + 2) rest m' evs ∧ s' ∈ fc_blank ∧
    has_pos 39 s' = bool_decide (tolower <$> name = text "transfer-encoding") ∧
    cl_field_start m' = p ∧ cl_field_len m' = length name ∧ cl_chunked m' = cl_chunked m.
Proof.
  intros Hs Hn. unfold name_text in Hn. apply andb_true_iff in Hn as [Hne Hn]. destruct name as [|c name]; [done|].
  cbn [every] in Hn. destruct (in_cls name_cls c) eqn:Hc; [|done]. destruct name_checks as (H1 & H2 & H3 & H4).
  destruct (leads_spec _ _ _ _ s c H1 Hs Hc) as (acts & s1 & T1 & Q1). rewrite !andb_true_iff, !bool_decide_eq_true in Q1.
  destruct Q1 as [[Ha Hs1] Hl1]. destruct (name_acts_run acts p m Ha) as (m1 & R1 & Hf1 & Hk1).
  destruct (follows_run _ _ _ _ _ s1 name H2 Hs1 Hn) as (s2 & T2 & Hs2 & Hl2).
  destruct (leads_spec _ _ _ _ s2 58 H3 Hs2 eq_refl) as (acts3 & s3 & T3 & Q3). rewrite !andb_true_iff, !bool_decide_eq_true in Q3.
  destruct Q3 as [[-> Hs3] Hp3]. destruct (leads_spec _ _ _ _ s3 32 H4 Hs3 eq_refl) as (acts4 & s4 & T4 & Q4).
  rewrite !andb_true_iff, !bool_decide_eq_true in Q4. destruct Q4 as [[-> Hs4] Hp4].
  rewrite Hl1 in Hl2. assert (level w_name 21 s2 = foldl (follow w_name) (Some 0%nat) (c :: name)) as Hl by exact Hl2.
  exists s4. eexists. split; [|split_and!].
  - change (text ": ") with [58; 32]. rewrite <-app_comm_cons. rewrite (exec_step _ _ _ _ _ _ T1 _ _ _ _ _ _ R1).
    rewrite (exec_quiet _ _ _ _ _ T2). cbn [app]. erewrite (exec_step _ _ _ _ _ _ T3); [|simpl; rewrite LEN_ok by lia; reflexivity].
    erewrite (exec_step _ _ _ _ _ _ T4); [|reflexivity]. rewrite !app_nil_r. apply exec_eq; [simpl; lia|done].
  - done.
  - rewrite Hp4, Hp3, Hl. by apply bool_decide_ext, level_name.
  - simpl. done.
  - simpl. lia.
  - simpl. done.
Qed.

(** The value of a line, to its end. *)
Lemma cvalue_run s value p rest m evs : s ∈ fc_blank → cvalue_text value = true →
  ∃ s' m', cexec s p (value ++ crlf ++ rest) m evs = cexec s' (p + length value + 2) rest m'
      (evs ++ [EvField (drop (cl_field_start m) B) (cl_field_len m) (drop p B) (length value)]) ∧ s' ∈ fc_line ∧
    cl_chunked m' = cl_chunked m || has_pos 39 s && bool_decide (tolower <$> value = text "chunked").
Proof.
  intros Hs Hv. destruct value as [|c value]; [done|]. cbn [cvalue_text] in Hv. apply andb_true_iff in Hv as [Hc Hv].
  destruct value_checks as (H1 & H2 & H3 & H4 & _).
  destruct (leads_spec _ _ _ _ s c H1 Hs Hc) as (acts & s1 & T1 & Q1). rewrite !andb_true_iff, !bool_decide_eq_true in Q1.
  destruct Q1 as [[-> Hs1] Hl1]. destruct (follows_run _ _ _ _ _ s1 value H2 Hs1 Hv) as (s2 & T2 & Hs2 & Hl2).
  destruct (leads_spec _ _ _ _ s2 13 H3 Hs2 eq_refl) as (acts3 & s3 & T3 & Q3). rewrite !andb_true_iff, !bool_decide_eq_true in Q3.
  destruct Q3 as [[Ha Hs3] Hp3]. destruct (leads_spec _ _ _ _ s3 10 H4 Hs3 eq_refl) as (acts4 & s4 & T4 & Q4).
  rewrite !andb_true_iff, !bool_decide_eq_true in Q4. destruct Q4 as [-> Hs4].
  set (m1 := cl_set_marks m p (cl_field_start m) (cl_field_len m)).
  destruct (value_acts_run acts3 (S p + length value) m1 Ha ltac:(simpl; lia)) as (m3 & R3 & Hk3).
  assert (has_pos 47 s3 = has_pos 39 s && bool_decide (tolower <$> (c :: value) = text "chunked")) as Hp.
  { rewrite Hp3, Hl2, Hl1. destruct (has_pos 39 s); [by apply bool_decide_ext, (level_value (c :: value))|].
    change (follow w_value None c) with (@None nat). rewrite follow_none. by apply bool_decide_eq_false. }
  assert (∃ m4, crun (if has_pos 47 s3 then [c_trans_chunked] else []) (S (S p + length value)) m3 = Ok (m4, [], false) ∧
    cl_chunked m4 = cl_chunked m3 || has_pos 47 s3) as (m4 & R4 & Hk4).
  { destruct (has_pos 47 s3); eexists; (split; [reflexivity|]); [by rewrite orb_true_r|by rewrite orb_false_r]. }
  exists s4, m4. split_and!; [|done|by rewrite Hk4, Hk3, Hp].
  unfold crlf. rewrite <-app_comm_cons. erewrite (exec_step _ _ _ _ _ _ T1); [|reflexivity]. rewrite (exec_quiet _ _ _ _ _ T2). cbn [app].
  rewrite (exec_step _ _ _ _ _ _ T3 _ _ _ _ _ _ R3), (exec_step _ _ _ _ _ _ T4 _ _ _ _ _ _ R4), !app_nil_r.
  apply exec_eq; [simpl; lia|]. unfold m1. simpl. do 3 f_equal. lia.
Qed.

Definition cline_ok (kv : list Z * list Z) : Prop := name_text kv.1 = true ∧ cvalue_text kv.2 = true.

(** The lines of the header. *)
Lemma clines_run lines rest : ∀ s p m evs, s ∈ fc_line → Forall cline_ok lines →
  ∃ s' m', cexec s p (print_lines lines ++ rest) m evs =
    cexec s' (p + length (print_lines lines)) rest m' (evs ++ line_events B p lines) ∧ s' ∈ fc_line ∧
    cl_chunked m' = cl_chunked m || some chunked_line lines.
Proof.
  induction lines as [|[name value] lines IH]; intros s p m evs Hs Hl.
  - exists s, m. simpl. by rewrite Nat.add_0_r, app_nil_r, orb_false_r.
  - apply Forall_cons in Hl as [[Hn Hv] Hl]. simpl in Hn, Hv. rewrite print_lines_cons, <-!(assoc_L (++)).
    destruct (cname_run s name p (value ++ crlf ++ print_lines lines ++ rest) m evs Hs Hn) as (s1 & m1 & -> & Hs1 & Hp1 & Hf & Hfl & Hk1).
    destruct (cvalue_run s1 value (p + length name + 2) (print_lines lines ++ rest) m1 evs Hs1 Hv) as (s2 & m2 & -> & Hs2 & Hk2).
    rewrite Hf, Hfl. edestruct (IH s2 (p + length name + length value + 4)%nat m2) as (s3 & m3 & E3 & Hs3 & Hk3); [done|done|].
    exists s3, m3. split_and!; [|done|].
    + replace (p + length name + 2 + length value + 2)%nat with (p + length name + length value + 4)%nat by lia. rewrite E3.
      apply exec_eq; [|cbn [line_events]; by rewrite <-(assoc_L (++))].
      rewrite !length_app. change (length (text ": ")) with 2%nat. change (length crlf) with 2%nat. lia.
    + rewrite Hk3, Hk2, Hk1, Hp1. cbn [some]. unfold chunked_line at 2. simpl.
      destruct (bool_decide _ && bool_decide _); by rewrite ?orb_true_r, ?orb_false_r.
Qed.

(** The empty line. *)
Lemma cend_run s rest p m evs : s ∈ fc_line →
  ∃ m', cexec s p (crlf ++ rest) m evs = Ok (v_done, m', evs ++ [EvHeaderDone], (p + 2)%nat) ∧ cl_chunked m' = cl_chunked m.
Proof.
  intros Hs. destruct value_checks as (_ & _ & _ & _ & H5 & T2).
  destruct (leads_spec _ _ _ _ s 13 H5 Hs eq_refl) as (acts & s1 & T1 & Q1). rewrite !andb_true_iff, !bool_decide_eq_true in Q1.
  destruct Q1 as [Ha ->]. destruct (end_acts_run acts p m Ha) as (m1 & R1 & Hk1). eexists. split.
  - unfold crlf. cbn [app]. rewrite (exec_step _ _ _ _ _ _ T1 _ _ _ _ _ _ R1). erewrite (exec_break _ _ _ _ _ _ T2); [|reflexivity].
    by rewrite app_nil_r, (Nat.add_comm p 2).
  - done.
Qed.

(** The status line: the version, the code and the reason. *)
Lemma cversion_run v rest m : v = 17 ∨ v = 16 →
  ∃ m', cexec start 0 (print_version v ++ 32 :: rest) m [] = cexec v_code 9 rest m' [EvVersion B 8] ∧ cl_chunked m' = cl_chunked m.
Proof.
  intros Hv. assert (∃ s1 s2, trans client_table start 72 = Some ([c_mark], s1) ∧ quiet client_table s1 (drop 1 (print_version v)) = Some s2 ∧
    trans client_table s2 32 = Some ([c_http_version], v_code)) as (s1 & s2 & H1 & H2 & H3).
  { exists (after client_table start [72]), (after client_table start (print_version v)).
    destruct Hv as [-> | ->]; vm_compute; by repeat split. }
  assert (print_version v = 72 :: drop 1 (print_version v) ∧ length (drop 1 (print_version v)) = 7%nat) as [-> Hl]
    by (by destruct Hv as [-> | ->]; vm_compute).
  set (w := drop 1 (print_version v)) in *. clearbody w. cbn [drop] in *. rewrite ?drop_0 in *.
  eexists. rewrite <-app_comm_cons. split.
  - erewrite (exec_step _ _ _ _ _ _ H1); [|reflexivity]. rewrite (exec_quiet _ _ _ _ _ H2).
    erewrite (exec_step _ _ _ _ _ _ H3); [|simpl; rewrite ?LEN_ok by lia; reflexivity].
    apply exec_eq; [simpl; lia|]. simpl. unfold PTR_TO. rewrite drop_0. do 2 f_equal. lia.
  - done.
Qed.

Lemma code_run n p rest m evs : 0 <= n →
  ∃ m', cexec v_code p (dec n ++ 32 :: rest) m evs =
    cexec v_reason (p + length (dec n) + 1) rest m' (evs ++ [EvStatus (drop p B) (length (dec n))]) ∧ cl_chunked m' = cl_chunked m.
Proof.
  intros Hn. destruct status_checks as (He & Hcl & H32 & _).
  destruct (enters_run _ _ _ _ _ _ (dec n) He Hcl (dec_from n Hn)) as (c & w & s1 & s2 & -> & T1 & T2 & Hs2).
  eexists. rewrite <-app_comm_cons. split.
  - erewrite (exec_step _ _ _ _ _ _ T1); [|reflexivity]. rewrite (exec_quiet _ _ _ _ _ T2).
    erewrite (exec_step _ _ _ _ _ _ (exit_spec _ _ _ _ _ _ H32 Hs2)); [|simpl; rewrite LEN_ok by (simpl; lia); reflexivity].
    apply exec_eq; [simpl; lia|]. simpl. unfold PTR_TO. rewrite !app_nil_r. do 3 f_equal. lia.
  - done.
Qed.

Lemma reason_from w : reason_text w = true → text_from [[reason_cls]] [[reason_cls]] w.
Proof.
  unfold reason_text. intros [Hne Hw]%andb_true_iff. destruct w as [|c w]; [done|]. cbn [every] in Hw.
  destruct (in_cls reason_cls c) eqn:Hc; [|done]. apply (text_from_intro _ _ [reason_cls] [c]); [by left|shape_match|by apply class_text_of].
Qed.

Lemma reason_run w p rest m evs : reason_text w = true →
  ∃ m', cexec v_reason p (w ++ crlf ++ rest) m evs =
    cexec v_lines (p + length w + 2) rest m' (evs ++ [EvReason (drop p B) (length w)]) ∧ cl_chunked m' = cl_chunked m.
Proof.
  intros Hw%reason_from. destruct status_checks as (_ & _ & _ & He & Hcl & H13 & H10).
  destruct (enters_run _ _ _ _ _ _ w He Hcl Hw) as (c & w' & s1 & s2 & -> & T1 & T2 & Hs2).
  eexists. unfold crlf. rewrite <-app_comm_cons. split.
  - erewrite (exec_step _ _ _ _ _ _ T1); [|reflexivity]. rewrite (exec_quiet _ _ _ _ _ T2). cbn [app].
    erewrite (exec_step _ _ _ _ _ _ (exit_spec _ _ _ _ _ _ H13 Hs2)); [|simpl; rewrite LEN_ok by (simpl; lia); reflexivity].
    erewrite (exec_step _ _ _ _ _ _ H10); [|reflexivity].
    apply exec_eq; [simpl; lia|]. simpl. unfold PTR_TO. rewrite !app_nil_r. do 3 f_equal. lia.
  - done.
Qed.
End response.

(** ** The whole header *)

(** The marks stay behind [p]: what the code asserts and checks at its end; [b] is where
    the body of an earlier header began. *)
Definition cmarks_ok (b p : nat) (m : httpclient_parser) : Prop :=
  (cl_mark m <= pred p ∧ cl_field_start m <= pred p ∧ cl_field_len m <= pred p ∧ cl_body_start m <= b `max` p ∧ cl_nread m = 0)%nat.

Lemma client_perform_marks B a b0 p m m' ev b :
  cmarks_ok b0 (S p) m → client_perform B a p m = Ok (m', ev, b) → cmarks_ok b0 (S p) m'.
Proof.
  unfold cmarks_ok. destruct m. simpl. intros (? & ? & ? & ? & ?).
  destruct a; simpl; unfold LEN; repeat case_decide; simpl; try done; intros [= <- <- <-]; simpl; lia.
Qed.

(** A run of the loop from the beginning of a buffer gives the result. *)
Lemma client_execute_from_loop B p s m evs q :
  B ≠ [] → (cl_body_start p <= length B)%nat →
  let p1 := mkClient (cl_cs p) (cl_body_start p) (cl_content_len p) (cl_status p) (cl_chunked p) (cl_chunks_done p) (cl_close p) 0 0 0 0 in
  exec_loop client_table (client_perform B) (cl_cs p1) 0 B p1 [] = Ok (s, m, evs, q) →
  httpclient_parser_execute B p 0 = Ok (cl_set_state m s q, evs, Z.of_nat q) ∧ (q <= length B)%nat.
Proof.
  intros HB Hb p1 E. assert (0 < length B)%nat as Hlen by (destruct B; [done|simpl; lia]).
  pose proof (exec_range _ _ _ _ _ _ _ _ _ _ _ E) as Hq.
  assert (cmarks_ok (cl_body_start p) q m) as (H1 & H2 & H3 & H4 & H5).
  { apply (exec_inv _ _ (cmarks_ok (cl_body_start p)) (λ _, True)) in E as [? _]; [done| | | |done].
    - intros ? ? (? & ? & ? & ? & ?). unfold cmarks_ok. lia.
    - intros. split; [by eapply client_perform_marks|]. by apply Forall_true.
    - unfold cmarks_ok. simpl. lia. }
  unfold httpclient_parser_execute. rewrite bool_decide_true by lia. osimpl. fold p1. rewrite drop_0, E. osimpl.
  rewrite H5, Nat.sub_0_r, Nat.add_0_l. unfold sylar_assert. cbn [cl_set_state cl_nread cl_body_start]. rewrite !bool_decide_true by lia.
  osimpl. rewrite decide_True by (cbn [cl_set_state cl_mark cl_field_len cl_field_start]; lia). split; [done|lia].
Qed.

(** The text of a header, and what is made of it. *)
Definition rhead (v status : Z) (reason : list Z) (lines : list (list Z * list Z)) : list Z :=
  print_version v ++ text " " ++ dec status ++ text " " ++ reason ++ crlf ++ print_lines lines ++ crlf.

Definition head_ok (v status : Z) (reason : list Z) (lines : list (list Z * list Z)) : Prop :=
  (v = 17 ∨ v = 16) ∧ 0 <= status < 2 ^ 31 ∧ reason_text reason = true ∧ Forall cline_ok lines.

Definition reason_at (status : Z) : nat := (9 + length (dec status) + 1)%nat.
Definition response_events (B : list Z) (status : Z) (reason : list Z) (lines : list (list Z * list Z)) : list event :=
  [EvVersion B 8] ++ [EvStatus (drop 9 B) (length (dec status))] ++ [EvReason (drop (reason_at status) B) (length reason)] ++
  line_events B (reason_at status + length reason + 2) lines ++ [EvHeaderDone].

Lemma rhead_run v status reason lines B tail m :
  head_ok v status reason lines → B = rhead v status reason lines ++ tail →
  ∃ m', exec_loop client_table (client_perform B) start 0 B m [] =
    Ok (v_done, m', response_events B status reason lines, length (rhead v status reason lines)) ∧
    cl_chunked m' = cl_chunked m || some chunked_line lines.
Proof.
  intros (Hv & Hst & Hr & Hl) HB.
  assert (exec_loop client_table (client_perform B) start 0 B m [] =
    exec_loop client_table (client_perform B) start 0 (rhead v status reason lines ++ tail) m []) as -> by (by rewrite <-HB).
  clear HB. unfold rhead. rewrite <-!(assoc_L (++)). change (text " ") with [32]. cbn [app].
  edestruct (cversion_run B) as (m1 & -> & K1); [done|]. edestruct (code_run B status) as (m2 & -> & K2); [lia|].
  edestruct (reason_run B) as (m3 & -> & K3); [done|]. edestruct (clines_run B) as (s & m4 & -> & Hs & K4); [by left|done|].
  edestruct (cend_run B) as (m5 & -> & K5); [done|]. exists m5. split; [|congruence]. f_equal. unfold response_events, reason_at. f_equal.
  assert (length (print_version v) = 8%nat) as Hv8 by (by destruct Hv as [-> | ->]; vm_compute).
  repeat (rewrite length_app; cbn [length]). change (length crlf) with 2%nat. lia.
Qed.

(** What the callbacks make of the events. *)
Definition r_received (v status : Z) (reason : list Z) (lines : list (list Z * list Z)) : HttpResponse :=
  mkResponse status v true false [] reason (foldl (λ h kv, h_set h kv.1 kv.2) [] lines).

Section client_effect.
Context (eng : Engine).

Lemma clines_effect lines : ∀ pre post B (rp : HttpResponseParser eng), B = pre ++ print_lines lines ++ post → Forall cline_ok lines →
  ofoldl (on_response eng) rp (line_events B (length pre) lines) =
  Ok (cp_setData eng rp (r_setHeaders (cp_data eng rp) (foldl (λ h kv, h_set h kv.1 kv.2) (r_headers (cp_data eng rp)) lines))).
Proof.
  induction lines as [|[name value] lines IH]; intros pre post B rp HB Hl; [by destruct rp as [? [] ?]|].
  apply Forall_cons in Hl as [[Hn Hv] Hl]. simpl in Hn, Hv.
  rewrite print_lines_cons, <-!(assoc_L (++)) in HB. cbn [line_events ofoldl on_response]. unfold on_response_http_field.
  rewrite decide_False by (destruct name; simpl in *; [done|lia]).
  rewrite (string_at pre name _ B _ HB eq_refl).
  rewrite (string_at (pre ++ name ++ text ": ") value (crlf ++ print_lines lines ++ post) B)
    by (rewrite ?HB, <-?(assoc_L (++)), ?length_app; change (length (text ": ")) with 2%nat; done || lia).
  osimpl. replace (length pre + length name + length value + 4)%nat with (length (pre ++ name ++ text ": " ++ value ++ crlf))
    by (rewrite !length_app; change (length (text ": ")) with 2%nat; change (length crlf) with 2%nat; lia).
  rewrite (IH _ post B); [done| |done]. by rewrite HB, <-!(assoc_L (++)).
Qed.

Lemma response_effect v status reason lines tail B (m : machine eng) :
  head_ok v status reason lines → B = rhead v status reason lines ++ tail →
  ofoldl (on_response eng) (mkResponseParser eng m (HttpResponse_new 17 true) 0) (response_events B status reason lines) =
  Ok (mkResponseParser eng m (r_received v status reason lines) 0).
Proof.
  intros (Hv & Hst & Hr & Hl) HB. unfold rhead in HB. rewrite <-!(assoc_L (++)) in HB. unfold response_events. rewrite !ofoldl_app.
  assert (length (print_version v) = 8%nat) as Hv8 by (by destruct Hv as [-> | ->]; vm_compute).
  set (pre := print_version v ++ text " "). assert (length pre = 9%nat) as Hp by (unfold pre; rewrite length_app, Hv8; done).
  cbn [ofoldl on_response]. unfold on_response_version at 1. rewrite HB at 1. rewrite version_effect by done. osimpl.
  rewrite ofoldl_app. cbn [ofoldl on_response]. osimpl.
  assert (drop 9 B = dec status ++ text " " ++ reason ++ crlf ++ print_lines lines ++ crlf ++ tail) as Hd
    by (rewrite HB, (assoc_L (++)), <-Hp; apply drop_app_length).
  unfold on_response_status at 1. rewrite Hd. change (text " ") with [32]. cbn [app]. rewrite atoi_dec_app by (lia || done).
  rewrite swrap_small by (done || unfold in_signed; lia).
  cbn [ofoldl on_response]. unfold on_response_reason at 1.
  rewrite (string_at (pre ++ dec status ++ text " ") reason (crlf ++ print_lines lines ++ crlf ++ tail) B)
    by (unfold reason_at; rewrite ?HB, <-?(assoc_L (++)), ?length_app, ?Hp; unfold pre; rewrite <-?(assoc_L (++)); change (length (text " ")) with 1%nat; done || lia).
  osimpl. rewrite ofoldl_app. replace (reason_at status + length reason + 2)%nat with (length (pre ++ dec status ++ text " " ++ reason ++ crlf))
    by (unfold reason_at; rewrite !length_app, Hp; change (length (text " ")) with 1%nat; change (length crlf) with 2%nat; lia).
  rewrite (clines_effect _ _ (crlf ++ tail) B) by (try done; unfold pre; by rewrite HB, <-!(assoc_L (++))). done.
Qed.
End client_effect.

(** ** Receiving a response *)

(** The machine as the parser of [HttpClient]. A negative result is no offset in the
    buffer: the rest would be moved from in front of it. *)
Definition client_engine (p0 : httpclient_parser) : Engine :=
  mkEngine httpclient_parser (httpclient_parser_init p0)
    (λ p data,
       '(p, evs, n) ← httpclient_parser_execute data p 0;
       if decide (n < 0) then Stuck else mret (p, evs, Z.to_nat n))
    httpclient_parser_has_error httpclient_parser_is_finished cl_chunked cl_content_len cl_chunks_done.

Lemma rhead_nonempty v status reason lines tail : rhead v status reason lines ++ tail ≠ [].
Proof. unfold rhead. intros H%(f_equal length). rewrite !length_app in H. change (length crlf) with 2%nat in H. simpl in H. lia. Qed.

Lemma cp_execute_response p0 v status reason lines tail :
  head_ok v status reason lines →
  ∃ m, cp_execute (client_engine p0) false (HttpResponseParser_new (client_engine p0)) (rhead v status reason lines ++ tail) =
    Ok (mkResponseParser (client_engine p0) m (r_received v status reason lines) 0, length (rhead v status reason lines), tail) ∧
    httpclient_parser_has_error m = false ∧ httpclient_parser_is_finished m = true ∧ cl_chunked m = some chunked_line lines.
Proof.
  intros Hok. set (B := rhead v status reason lines ++ tail). unfold cp_execute.
  cbn [e_execute client_engine cp_parser HttpResponseParser_new e_init].
  destruct (rhead_run v status reason lines B tail (httpclient_parser_init p0) Hok eq_refl) as (m & E & Hk).
  destruct (client_execute_from_loop B (httpclient_parser_init p0) v_done m (response_events B status reason lines) (length (rhead v status reason lines)))
    as [-> _]; [apply rhead_nonempty|simpl; lia|exact E|].
  osimpl. rewrite decide_False, Nat2Z.id by lia. osimpl. assert (drop (length (rhead v status reason lines)) B = tail) as -> by apply drop_app_length.
  eexists. split; [|split_and!].
  - unfold HttpResponseParser_new. rewrite (response_effect (client_engine p0) v status reason lines tail B _ Hok eq_refl). done.
  - done.
  - done.
  - done.
Qed.

(** The header, when the first read gets all of it. *)
Lemma recv_header_response p0 buff_size fuel st v status reason lines more n :
  head_ok v status reason lines → s_open st = true → s_in st = rhead v status reason lines ++ more →
  n = transfer st (buff_size `min` length (s_in st)) → Z.of_nat (length (rhead v status reason lines)) <= n →
  let eng := client_engine p0 in
  let data := take (Z.to_nat n - length (rhead v status reason lines)) more in
  ∃ m, recv_header (cp_execute eng false) (cp_hasError eng) (cp_isFinished eng) buff_size (S fuel) st (HttpResponseParser_new eng) [] =
    Ok (Some (mkResponseParser eng m (r_received v status reason lines) 0, data),
        mkStream (drop (Z.to_nat n) (s_in st)) (s_out st) (tail (s_io st)) (s_open st)) ∧
    cl_chunked m = some chunked_line lines ∧ (length data < buff_size)%nat.
Proof.
  intros Hok Ho Hin Hn Hread eng data. set (head := rhead v status reason lines) in *.
  assert (0 < length head)%nat as Hpos.
  { pose proof (rhead_nonempty v status reason lines []) as Hne. rewrite app_nil_r in Hne. fold head in Hne. destruct head; [done|simpl; lia]. }
  pose proof (transfer_le st (buff_size `min` length (s_in st))) as Ht. rewrite <-Hn in Ht.
  cbn [recv_header length]. rewrite Nat.sub_0_r. unfold stream_read. rewrite Ho. cbv zeta. rewrite <-Hn.
  rewrite decide_False by lia. assert ([] ++ take (Z.to_nat n) (s_in st) = head ++ data) as -> by (rewrite Hin, app_nil_l, take_app_ge by lia; done).
  destruct (cp_execute_response p0 v status reason lines data Hok) as (m & E & He & Hf & Hk). fold head in E.
  unfold eng. rewrite E. osimpl. rewrite decide_False by (rewrite length_app; lia).
  unfold cp_hasError, cp_isFinished. cbn [cp_error cp_parser e_has_error e_is_finished client_engine]. rewrite He, Hf, bool_decide_false by (by intros []).
  cbn [orb]. assert (length data < buff_size)%nat as Hd.
  { unfold data. rewrite length_take. apply (f_equal length) in Hin. rewrite !length_app in Hin. lia. }
  rewrite decide_False by lia. exists m. by split_and!.
Qed.

(** What [HttpResponse::dump] writes. *)
Definition printed_reason (rsp : HttpResponse) : list Z :=
  if decide (r_reason rsp = []) then HttpStatusToString (r_status rsp) else r_reason rsp.
Definition rsp_head (rsp : HttpResponse) : list Z :=
  rhead (r_version rsp) (r_status rsp) (printed_reason rsp) (response_lines rsp).

Lemma r_dump_head rsp : r_dump rsp = rsp_head rsp ++ r_body rsp.
Proof. unfold r_dump, rsp_head, rhead, printed_reason. by rewrite <-!(assoc_L (++)). Qed.

(** A response that the grammar can carry. *)
Record response_ok (rsp : HttpResponse) : Prop := {
  rok_head : head_ok (r_version rsp) (r_status rsp) (printed_reason rsp) (response_lines rsp);
  rok_plain : some chunked_line (response_lines rsp) = false;
  rok_length : Forall (λ kv, fold_case (text "content-length") ≠ fold_case kv.1) (r_headers rsp)
}.

Definition rsp_received (rsp : HttpResponse) : HttpResponse :=
  r_setBody (r_received (r_version rsp) (r_status rsp) (printed_reason rsp) (response_lines rsp)) (r_body rsp).

Lemma response_length cast_u64 eng (m : machine eng) rsp :
  response_ok rsp → (∀ n, 0 <= n < 2 ^ 64 → cast_u64 (dec n) = Some n) → Z.of_nat (length (r_body rsp)) < 2 ^ 64 →
  cp_getContentLength eng cast_u64 (mkResponseParser eng m
    (r_received (r_version rsp) (r_status rsp) (printed_reason rsp) (response_lines rsp)) 0) = Z.of_nat (length (r_body rsp)).
Proof.
  intros [_ _ Hno] Hcast Hlen. unfold cp_getContentLength, getAs, r_received, response_lines. simpl. rewrite (assoc_L (++)), foldl_app.
  set (lines := map_lines _ _ ++ _). assert (Forall (λ kv, fold_case (text "content-length") ≠ fold_case kv.1) lines) as Hl.
  { apply Forall_app. split; [|unfold close_line; destruct (r_websocket rsp); repeat constructor; by vm_compute].
    unfold map_lines. apply Forall_forall. intros kv [_ Hin]%list_elem_of_filter. rewrite Forall_forall in Hno. by apply Hno. }
  destruct (lines_find lines (text "content-length") [] (map_ok_nil _ _) Hl) as [Hok Hf].
  unfold length_line. case_decide as Hb; simpl.
  - rewrite Hf, Hb. done.
  - unfold h_find at 1. unfold h_set at 1. rewrite (map_find_set_eq _ _ bytes_lt_strict) by done. simpl. rewrite Hcast; [done|lia].
Qed.


Definition sample_response : HttpResponse :=
  mkResponse 404 17 true false (text "gone") [] [(text "Server", text "sylar: 1")].

Lemma sample_response_ok : response_ok sample_response.
Proof.
  split; [split_and!; [by left|done|done|by vm_compute|]|by vm_compute|].
  - apply (bool_decide_unpack _). vm_compute. exact I.
  - repeat constructor. by vm_compute.
Qed.

Definition some_client : httpclient_parser := mkClient [] 0 0 77 false false false 0 0 0 0.
Definition response_stream : Stream := mkStream (r_dump sample_response ++ text "HTTP") [] [IoUpTo 90; IoUpTo 1] true.


(** ** Chunks *)

Definition v_ccr : list positive := Eval vm_compute in after client_table start (text "0" ++ [13]).
Definition v_cdone : list positive := Eval vm_compute in after client_table v_ccr [10].
Definition fc_size : list (list positive) := Eval vm_compute in spread client_table 4 [[xdigit]] [after client_table start (text "0")].

Lemma size_checks :
  enters client_table [[xdigit]] start [c_mark] fc_size = true ∧ closed client_table [[xdigit]] fc_size = true ∧
  exit_on client_table fc_size 13 [c_chunk_size] v_ccr = true ∧ trans client_table v_ccr 10 = Some ([c_done], v_cdone).
Proof. vm_compute. repeat split. Qed.

(** A size: hexadecimal digits, at least one. *)
Definition size_text (w : list Z) : bool := negb (bool_decide (w = [])) && every (in_cls xdigit) w.

Lemma size_from w : size_text w = true → text_from [[xdigit]] [[xdigit]] w.
Proof.
  unfold size_text. intros [Hne Hw]%andb_true_iff. destruct w as [|c w]; [done|]. cbn [every] in Hw.
  destruct (in_cls xdigit c) eqn:Hc; [|done]. apply (text_from_intro _ _ [xdigit] [c]); [by left|shape_match|by apply class_text_of].
Qed.

Lemma xdigit_value c : in_cls xdigit c = true ↔ is_Some (hex_digit_value c).
Proof.
  rewrite in_cls_spec. unfold hex_digit_value. split.
  - intros (ab & [-> | [-> | [-> | ?%elem_of_nil]%elem_of_cons]%elem_of_cons]%elem_of_cons & ?); simpl in *; repeat case_decide; by eauto || lia.
  - intros H. repeat case_decide; [exists (48, 57)|exists (65, 70)|exists (97, 102)|by destruct H]; (split; [set_solver|simpl; lia]).
Qed.

Lemma hex_digits_stop w t : ∀ acc, every (in_cls xdigit) w = true → hex_digits acc (w ++ 13 :: t) = hex_digits acc w.
Proof.
  induction w as [|c w IH]; intros acc Hw; [done|]. cbn [every] in Hw. destruct (in_cls xdigit c) eqn:Hc; [|done]. simpl.
  apply xdigit_value in Hc as [d ->]. by apply IH.
Qed.

(** [strtol] on a size and the line end behind it. *)
Lemma strtol_size w t : size_text w = true → strtol_16 (w ++ 13 :: t) = clamp (- 2 ^ 63) (2 ^ 63 - 1) (hex_digits 0 w).
Proof.
  unfold size_text. intros [Hne Hw]%andb_true_iff. rewrite <-(hex_digits_stop w t 0 Hw). unfold strtol_16. f_equal.
  destruct w as [|c w]; [done|]. cbn [every] in Hw. destruct (in_cls xdigit c) eqn:Hc; [|done].
  assert (after_0x ((c :: w) ++ 13 :: t) = (c :: w) ++ 13 :: t) as E.
  { unfold after_0x. destruct w as [|d w]; simpl; [by repeat case_match|]. cbn [every] in Hw.
    destruct (in_cls xdigit d) eqn:Hd; [|done]. assert (d ≠ 120 ∧ d ≠ 88) as [? ?] by (by split; intros ->). by repeat case_match. }
  apply in_cls_spec in Hc as (ab & Hab & Hc). assert (48 <= c) as Hc48 by (repeat (apply elem_of_cons in Hab as [->|Hab]; [simpl in Hc; lia|]); by apply elem_of_nil in Hab).
  assert (skip_space ((c :: w) ++ 13 :: t) = (c :: w) ++ 13 :: t) as ->.
  { simpl. replace (is_space c) with false; [done|]. symmetry. apply bool_decide_eq_false. lia. }
  transitivity (hex_digits 0 (after_0x ((c :: w) ++ 13 :: t))); [|by rewrite E].
  assert (c ≠ 45 ∧ c ≠ 43) as [? ?] by lia. cbn [app]. by repeat case_match.
Qed.

Lemma chunk_size_run w t n p m :
  size_text w = true → hex_digits 0 w = n → 0 <= n < 2 ^ 31 → cl_mark m = 0%nat →
  client_perform (w ++ crlf ++ t) c_chunk_size p m =
  Ok (cl_set_length m n true (bool_decide (n <= 0)), [if bool_decide (n <= 0) then EvLastChunk else EvChunk], false).
Proof.
  intros Hw Hn Hr Hm. cbn [client_perform]. rewrite Hm. unfold PTR_TO. rewrite drop_0. change (w ++ crlf ++ t) with (w ++ 13 :: 10 :: t).
  rewrite (strtol_size w _ Hw), Hn. unfold clamp. replace (Z.max (- 2 ^ 63) (Z.min (2 ^ 63 - 1) n)) with n by lia.
  rewrite swrap_small by (done || unfold in_signed; lia). rewrite LEN_ok by lia. done.
Qed.

(** The header of a chunk. *)
Lemma chunk_loop w t n m :
  size_text w = true → hex_digits 0 w = n → 0 <= n < 2 ^ 31 →
  ∃ m', exec_loop client_table (client_perform (w ++ crlf ++ t)) start 0 (w ++ crlf ++ t) m [] =
    Ok (v_cdone, m', [if bool_decide (n <= 0) then EvLastChunk else EvChunk; EvHeaderDone], (length w + 2)%nat) ∧
    cl_content_len m' = n ∧ cl_chunks_done m' = bool_decide (n <= 0).
Proof.
  intros Hw Hn Hr. pose proof (λ p m, chunk_size_run w t n p m Hw Hn Hr) as Hact. set (B := w ++ crlf ++ t) in *.
  destruct size_checks as (He & Hcl & H13 & H10).
  destruct (enters_run _ _ _ _ _ _ w He Hcl (size_from w Hw)) as (c & w' & s1 & s2 & Ew & T1 & T2 & Hs2).
  pose proof (exit_spec _ _ _ _ _ _ H13 Hs2) as T3. clear He Hcl H13 Hw.
  eexists. assert (B = c :: w' ++ 13 :: 10 :: t) as EB by (unfold B; rewrite Ew; reflexivity). rewrite EB at 2. split.
  - erewrite (exec_step _ _ _ _ _ _ T1); [|reflexivity]. rewrite (exec_quiet _ _ _ _ _ T2).
    erewrite (exec_step _ _ _ _ _ _ T3); [|cbn [run_actions]; rewrite Hact by reflexivity; reflexivity].
    erewrite (exec_break _ _ _ _ _ _ H10); [|reflexivity]. rewrite Ew. simpl. f_equal. f_equal. lia.
  - split; reflexivity.
Qed.

(** The parser of a connection on the header of a chunk: the machine has its size, and the
    response is left alone. *)
Lemma cp_execute_chunk p0 (p : HttpResponseParser (client_engine p0)) w tail n :
  size_text w = true → hex_digits 0 w = n → 0 <= n < 2 ^ 31 →
  ∃ m, cp_execute (client_engine p0) true p (w ++ crlf ++ tail) =
    Ok (mkResponseParser (client_engine p0) m (cp_data _ p) (cp_error _ p), (length w + 2)%nat, tail) ∧
    httpclient_parser_has_error m = false ∧ httpclient_parser_is_finished m = true ∧
    cl_content_len m = n ∧ cl_chunks_done m = bool_decide (n <= 0).
Proof.
  intros Hw Hn Hr. destruct (chunk_loop w tail n (httpclient_parser_init p0) Hw Hn Hr) as (m & E & Hm1 & Hm2).
  unfold cp_execute. cbn [e_execute client_engine e_init].
  assert (w ++ crlf ++ tail ≠ []) as Hne by (intros H%(f_equal length); rewrite !length_app in H; simpl in H; lia).
  destruct (client_execute_from_loop _ (httpclient_parser_init p0) _ _ _ _ Hne (Nat.le_0_l _) E) as [-> _].
  osimpl. rewrite decide_False, Nat2Z.id by lia. osimpl. exists (cl_set_state m v_cdone (length w + 2)). split_and!; [|done|done|done|done].
  assert (drop (length w + 2) (w ++ crlf ++ tail) = tail) as ->.
  { rewrite (assoc_L (++)). replace (length w + 2)%nat with (length (w ++ crlf)) by (by rewrite length_app). apply drop_app_length. }
  by destruct (bool_decide (n <= 0)).
Qed.

(** A chunk as its size and its data. *)
Definition piece_ok (c : list Z * list Z) : Prop :=
  size_text c.1 = true ∧ hex_digits 0 c.1 = Z.of_nat (length c.2) ∧ (0 < length c.2)%nat ∧ Z.of_nat (length c.2) < 2 ^ 31 - 2.
Definition print_chunk (c : list Z * list Z) : list Z := c.1 ++ crlf ++ c.2 ++ crlf.
Definition print_chunks (cs : list (list Z * list Z)) (last : list Z) : list Z :=
  mjoin (print_chunk <$> cs) ++ last ++ crlf ++ crlf.

Lemma print_chunks_cons w d cs last tail :
  print_chunks ((w, d) :: cs) last ++ tail = w ++ crlf ++ d ++ crlf ++ print_chunks cs last ++ tail.
Proof.
  unfold print_chunks. rewrite fmap_cons. change (print_chunk (w, d)) with (w ++ crlf ++ d ++ crlf).
  cbn [mjoin list_join]. by rewrite <-!(assoc_L (++)).
Qed.

Lemma chunks_count cs : (length cs <= length (mjoin (print_chunk <$> cs)))%nat.
Proof.
  induction cs as [|c cs IH]; [done|]. change (mjoin (print_chunk <$> c :: cs)) with (print_chunk c ++ mjoin (print_chunk <$> cs)).
  rewrite length_app. unfold print_chunk at 1. rewrite !length_app. change (length crlf) with 2%nat. simpl. lia.
Qed.

(** A chunk that is in the buffer. *)
Lemma chunk_in_buffer p0 buff_size fuel st (p : HttpResponseParser (client_engine p0)) w d tail body n :
  size_text w = true → hex_digits 0 w = n → n = Z.of_nat (length d) → n < 2 ^ 31 - 2 → cp_error _ p = 0 →
  (length (w ++ crlf ++ d ++ crlf ++ tail) <= buff_size)%nat →
  ∃ p', recv_chunks (client_engine p0) buff_size (S fuel) st p (w ++ crlf ++ d ++ crlf ++ tail) body =
    (if bool_decide (n <= 0) then Ok (Some (p', body ++ d), st) else recv_chunks (client_engine p0) buff_size fuel st p' tail (body ++ d)) ∧
    cp_data _ p' = cp_data _ p ∧ cp_error _ p' = 0.
Proof.
  intros Hw Hn Hd Hlt Herr Hbuf. destruct (cp_execute_chunk p0 p w (d ++ crlf ++ tail) n Hw Hn ltac:(lia)) as (m & E & He & Hf & Hl & Hdone).
  exists (mkResponseParser (client_engine p0) m (cp_data _ p) (cp_error _ p)). split; [|done].
  cbn [recv_chunks chunk_header negb orb]. rewrite bool_decide_false by (intros H%(f_equal length); rewrite !length_app in H; change (length crlf) with 2%nat in H; simpl in H; lia).
  rewrite decide_False by lia. rewrite app_nil_r, E. osimpl. rewrite !length_app in *. change (length crlf) with 2%nat in *.
  rewrite decide_False by lia. unfold cp_hasError, cp_isFinished. cbn [cp_error cp_parser e_has_error e_is_finished client_engine].
  rewrite He, Hf, Herr, bool_decide_false by (by intros []). cbn [orb]. rewrite decide_False by lia. osimpl.
  cbn [cp_parser e_content_len e_chunks_done client_engine]. rewrite Hl, Hdone. unfold chunk_data. rewrite decide_False by lia.
  rewrite decide_True by (rewrite !length_app; change (length crlf) with 2%nat; lia). osimpl.
  replace (Z.to_nat (n + 2)) with (length (d ++ crlf)) by (rewrite length_app; change (length crlf) with 2%nat; lia).
  rewrite Hd, Nat2Z.id, take_app_length. rewrite (assoc_L (++) d), drop_app_length. by case_bool_decide.
Qed.

(** The chunks that are in the buffer. *)
Lemma chunks_in_buffer p0 buff_size cs last tail : ∀ fuel st (p : HttpResponseParser (client_engine p0)) body,
  Forall piece_ok cs → size_text last = true → hex_digits 0 last = 0 → cp_error _ p = 0 → (length cs < fuel)%nat →
  (length (print_chunks cs last ++ tail) <= buff_size)%nat →
  ∃ p', recv_chunks (client_engine p0) buff_size fuel st p (print_chunks cs last ++ tail) body =
    Ok (Some (p', body ++ mjoin cs.*2), st) ∧ cp_data _ p' = cp_data _ p.
Proof.
  induction cs as [|[w d] cs IH]; intros fuel st p body Hcs Hl Hz Herr Hf Hb; (destruct fuel as [|fuel]; [lia|]).
  - assert (print_chunks [] last ++ tail = last ++ crlf ++ [] ++ crlf ++ tail) as Ep by (unfold print_chunks; simpl; by rewrite <-!(assoc_L (++))).
    rewrite Ep in *. destruct (chunk_in_buffer p0 buff_size fuel st p last [] tail body 0 Hl Hz) as (p' & -> & Hd & _); [done|lia|done|done|].
    by exists p'.
  - apply Forall_cons in Hcs as [(Hw & Hn & Hpos & Hlt) Hcs]. simpl in Hw, Hn, Hpos, Hlt. simpl in Hf.
    assert (print_chunks ((w, d) :: cs) last ++ tail = w ++ crlf ++ d ++ crlf ++ print_chunks cs last ++ tail) as Ep
      by exact (print_chunks_cons w d cs last tail).
    rewrite Ep in *. destruct (chunk_in_buffer p0 buff_size fuel st p w d (print_chunks cs last ++ tail) body _ Hw Hn eq_refl Hlt Herr Hb)
      as (p1 & -> & Hd1 & He1). rewrite bool_decide_false by lia.
    destruct (IH fuel st p1 (body ++ d) Hcs Hl Hz He1) as (p2 & -> & Hd2); [lia|rewrite !length_app in *; lia|].
    exists p2. split; [|congruence]. rewrite fmap_cons. cbn [mjoin list_join snd]. by rewrite <-(assoc_L (++)).
Qed.

(** C28. A response in chunks is received as the data of its chunks, one after the other: any
    header of version 1.0 or 1.1, a status of 31 bits, a reason that is not empty and has
    no line end, and lines with token names and with values that are not empty and have no
    line end and no white space in front, one of which is "Transfer-Encoding: chunked" in upper or
    lower case; any number of chunks that are not empty and shorter than 2^31 - 2 bytes, whose
    sizes are written with any hexadecimal digits; and a last chunk of size zero. The
    connection is open and its first read gets all of it. *)
Theorem chunked_roundtrip (mem : Memory) (p0 : httpclient_parser) (cast_u64 : list Z → option Z) (buff_size : nat) (st : Stream)
    (v status : Z) (reason : list Z) (lines : list (list Z * list Z)) (cs : list (list Z * list Z)) (last more : list Z) :
  head_ok v status reason lines → some chunked_line lines = true → Forall piece_ok cs → size_text last = true → hex_digits 0 last = 0 →
  s_open st = true → s_in st = rhead v status reason lines ++ print_chunks cs last ++ more →
  Z.of_nat (length (rhead v status reason lines ++ print_chunks cs last)) <= transfer st (buff_size `min` length (s_in st)) →
  ∃ st', recvResponse (client_engine p0) cast_u64 buff_size st =
    Ok (Some (r_setBody (r_received v status reason lines) (mjoin cs.*2)), st') ∧ s_out st' = s_out st ∧ s_open st' = true.
Proof.
  intros Hok Hch Hcs Hl Hz Ho Hin Hread. rewrite length_app in Hread. unfold recvResponse.
  destruct (recv_header_response p0 buff_size (length (s_in st)) st _ _ _ _ _ _ Hok Ho Hin eq_refl ltac:(lia)) as (m & -> & Hk & Hlen).
  osimpl. revert Hlen. set (head := rhead v status reason lines) in *. set (n := transfer st _) in *.
  rewrite take_app_ge by lia. set (tail_ := take _ more). intros Hlen. cbn [e_chunked client_engine cp_parser]. rewrite Hk, Hch.
  set (st1 := mkStream _ _ _ _).
  edestruct (chunks_in_buffer p0 buff_size cs last tail_) as (p' & -> & Hd); [done|done|done|reflexivity| |lia|].
  { rewrite length_app. unfold print_chunks. rewrite length_app. pose proof (chunks_count cs). lia. }
  osimpl. exists st1. split_and!; [|done|done]. rewrite Hd, app_nil_l. by case_decide as E; [rewrite E|].
Qed.

Definition chunked_stream : Stream :=
  mkStream (rhead 17 200 (text "OK") [(text "transfer-Encoding", text "CHUNKED"); (text "Server", text "s")] ++
    print_chunks [(text "3", text "abc"); (text "0B", text "hello world")] (text "00") ++ text "+") [] [] true.

Lemma chunked_roundtrip_witness :
  ∃ st', recvResponse (mem := gigabyte) (client_engine some_client) (λ _, None) 200 chunked_stream =
    Ok (Some (mkResponse 200 17 true false (text "abchello world") (text "OK")
          [(text "Server", text "s"); (text "transfer-Encoding", text "CHUNKED")]), st') ∧ s_out st' = [].
Proof.
  destruct (chunked_roundtrip gigabyte some_client (λ _, None) 200 chunked_stream 17 200 (text "OK")
    [(text "transfer-Encoding", text "CHUNKED"); (text "Server", text "s")]
    [(text "3", text "abc"); (text "0B", text "hello world")] (text "00") (text "+")) as (st' & E & Ho & _).
  - split_and!; [by left|done|done|by vm_compute|]. apply (bool_decide_unpack _). vm_compute. exact I.
  - vm_compute. reflexivity.
  - apply (bool_decide_unpack _). vm_compute. exact I.
  - vm_compute. reflexivity.
  - vm_compute. reflexivity.
  - reflexivity.
  - reflexivity.
  - vm_compute. discriminate.
  - exists st'. split; [exact E|exact Ho].
Defined.

(** ** Any bytes *)

(** What a callback is given lies within the buffer, but for the length of a name. *)
Definition cevent_within (B : list Z) (e : event) : Prop :=
  let within at_ n := ∃ i, at_ = drop i B ∧ (i + n <= length B)%nat in
  match e with
  | EvReason at_ n | EvStatus at_ n | EvVersion at_ n => within at_ n
  | EvField field _ value k => within field 0%nat ∧ within value k
  | _ => True
  end.

Lemma client_perform_safe B a b0 p m : (p < length B)%nat → cmarks_ok b0 (S p) m →
  ∃ m' ev b, client_perform B a p m = Ok (m', ev, b) ∧ cmarks_ok b0 (S p) m' ∧ Forall (cevent_within B) ev.
Proof.
  intros Hp Hm. pose proof Hm as (H1 & H2 & H3 & H4 & H5). simpl in H1, H2, H3.
  assert (∀ i n, (i + n <= length B)%nat → ∃ j, PTR_TO B i = drop j B ∧ (j + n <= length B)%nat) as Hw by (intros i n ?; by exists i).
  assert (∃ m' ev b, client_perform B a p m = Ok (m', ev, b) ∧ Forall (cevent_within B) ev) as (m' & ev & b & E & Hev).
  { destruct a; simpl; rewrite ?LEN_ok by lia; osimpl; do 3 eexists; (split; [reflexivity|]);
      repeat constructor; simpl; try (apply Hw; lia). by case_bool_decide. }
  exists m', ev, b. split_and!; [done| |done]. by apply (client_perform_marks B a b0 p m m' ev b).
Qed.

Lemma client_actions_safe B acts b0 p : (p < length B)%nat → ∀ m, cmarks_ok b0 (S p) m →
  ∃ m' ev b, run_actions (client_perform B) acts p m = Ok (m', ev, b) ∧ cmarks_ok b0 (S p) m' ∧ Forall (cevent_within B) ev.
Proof.
  intros Hp. induction acts as [|a acts IH]; intros m Hm; [by exists m, [], false|]. cbn [run_actions].
  destruct (client_perform_safe B a b0 p m Hp Hm) as (m1 & ev & [] & -> & Hm1 & Hev); osimpl; [by exists m1, ev, true|].
  destruct (IH m1 Hm1) as (m2 & ev2 & b & -> & Hm2 & Hev2). osimpl. exists m2, (ev ++ ev2), b. split_and!; [done..|by apply Forall_app].
Qed.

Lemma client_exec_safe B b0 rest : ∀ s p m evs, drop p B = rest → (p <= length B)%nat → cmarks_ok b0 p m → Forall (cevent_within B) evs →
  ∃ s' m' evs' p', exec_loop client_table (client_perform B) s p rest m evs = Ok (s', m', evs', p') ∧
    cmarks_ok b0 p' m' ∧ (p' <= length B)%nat ∧ Forall (cevent_within B) evs'.
Proof.
  induction rest as [|c rest IH]; intros s p m evs Hd Hp Hm He; [simpl; by do 4 eexists|]. cbn [exec_loop].
  destruct (trans client_table s c) as [[acts s1]|]; [|by do 4 eexists].
  assert (p < length B)%nat as Hlt by (apply (f_equal length) in Hd; rewrite length_drop in Hd; simpl in Hd; lia).
  destruct (client_actions_safe B acts b0 p Hlt m) as (m1 & ev & b & -> & Hm1 & Hev); [unfold cmarks_ok in *; simpl; lia|]. osimpl.
  destruct b; [do 4 eexists; split; [reflexivity|]; split_and!; [done|lia|by apply Forall_app]|].
  apply IH; [|lia|done|by apply Forall_app]. by rewrite <-Nat.add_1_r, <-drop_drop, Hd.
Qed.

(** The machine on any bytes, in any state: on a buffer that is not empty and not shorter
    than where the body after an earlier header began, [httpclient_parser_execute] returns; no assertion
    fails and no check, it uses at most the whole buffer, and the texts given to the
    callbacks lie within it, but for the length of the names. *)
Theorem client_parser_safe (p : httpclient_parser) (B : list Z) :
  B ≠ [] → (cl_body_start p <= length B)%nat →
  ∃ p' evs n, httpclient_parser_execute B p 0 = Ok (p', evs, Z.of_nat n) ∧ (n <= length B)%nat ∧ Forall (cevent_within B) evs.
Proof.
  intros HB Hb. set (p1 := mkClient (cl_cs p) (cl_body_start p) (cl_content_len p) (cl_status p) (cl_chunked p) (cl_chunks_done p) (cl_close p) 0 0 0 0).
  destruct (client_exec_safe B (cl_body_start p) B (cl_cs p1) 0 p1 []) as (s & m & evs & q & E & _ & Hq & Hev);
    [done|lia|unfold cmarks_ok; simpl; lia|done|].
  destruct (client_execute_from_loop B p s m evs q HB Hb E) as [E2 _]. exists (cl_set_state m s q), evs, q. by split_and!.
Qed.

Lemma client_parser_safe_witness :
  ∃ p' evs n, httpclient_parser_execute (text "HTTP/9") (httpclient_parser_init some_client) 0 = Ok (p', evs, Z.of_nat n) ∧ (n <= 6)%nat.
Proof.
  destruct (client_parser_safe (httpclient_parser_init some_client) (text "HTTP/9")) as (p' & evs & n & E & Hn & _).
  - discriminate.
  - vm_compute. apply Nat.le_0_l.
  - exists p', evs, n. split; [exact E|exact Hn].
Defined.

(** The machine is one of those that the theorems on [HttpClient] are about. *)
Lemma client_within_buffer p0 : within_buffer (client_engine p0).
Proof.
  intros p B p' evs' n HB. cbn [e_execute client_engine].
  unfold httpclient_parser_execute. rewrite bool_decide_true by lia. osimpl. rewrite drop_0.
  set (p1 := mkClient _ _ _ _ _ _ _ 0 0 0 0).
  destruct (client_exec_safe B (cl_body_start p) B (cl_cs p1) 0 p1 []) as (s & m & evs & q & -> & (H1 & H2 & H3 & _ & H5) & Hq & _);
    [done|lia|unfold cmarks_ok; simpl; lia|done|]. osimpl. unfold sylar_assert. cbn [cl_set_state cl_nread cl_body_start]. rewrite H5.
  assert (0 < length B)%nat by (destruct B; [done|simpl; lia]).
  repeat case_bool_decide; simpl; try done. rewrite decide_True by lia. simpl. rewrite decide_False by lia. intros [= _ _ <-]. lia.
Qed.

(** Where the client fails: the size of a chunk that is cut by two reads is read from its
    second half (16 becomes 0, the end of the body), and a size of 2^31 or more is
    negative, so that the body is made of undefined memory. *)
Lemma split_chunk :
  let head := rhead 17 200 (text "OK") [(text "Transfer-Encoding", text "chunked")] in
  let body := text "0123456789abcdef" in
  let receive cut := match recvResponse (mem := gigabyte) (client_engine some_client) (λ _, None) 200
      (mkStream (head ++ print_chunks [(text "10", body)] (text "0")) [] (IoUpTo (length head) :: cut) true) with
    | Ok (Some rsp, _) => Some (r_body rsp)
    | _ => None
    end in
  receive [] = Some body ∧ receive [IoUpTo 1] = Some [] ∧
  recvResponse (mem := gigabyte) (client_engine some_client) (λ _, None) 200 (mkStream (head ++ print_chunks [] (text "80000000")) [] [] true) = Stuck.
Proof. vm_compute. by repeat split. Qed.

(** A line for the connection, the length or the encoding whose value is empty goes on
    behind its line end, where blanks are allowed: a header that ends with one is reported
    as done, but the parser is not finished, and its assertion fails on a next buffer that
    is short, which ends the program. When digits follow in the next line, they are taken for the value, with a
    name that has the place of the new line and the length of the old one: 14 bytes are
    read where only 3 are left, from behind the bytes that were received. *)
Lemma empty_value :
  let line s := text s ++ crlf in
  let p := httpclient_parser_init some_client in
  (∃ p1 evs n, httpclient_parser_execute (line "HTTP/1.1 200 OK" ++ line "Connection:" ++ line "") p 0 = Ok (p1, evs, n) ∧
    last evs = Some EvHeaderDone ∧ httpclient_parser_finish p1 = 0 ∧
    httpclient_parser_execute (text "x") p1 0 = Throw (assertion_failed "body starts after buffer end")) ∧
  (∃ p1 evs n, httpclient_parser_execute (line "HTTP/1.1 200 OK" ++ line "Content-Length:" ++ line "5") p 0 = Ok (p1, evs, n) ∧
    last evs = Some (EvField (line "5") 14 (line "5") 1)) ∧
  let receive s cut := recvResponse (mem := gigabyte) (client_engine some_client) (λ _, None) 200 (mkStream s [] [IoUpTo cut] true) in
  receive (line "HTTP/1.1 200 OK" ++ line "Connection:" ++ line "" ++ text "x") 32%nat = Throw (assertion_failed "body starts after buffer end") ∧
  receive (line "HTTP/1.1 200 OK" ++ line "Content-Length:" ++ line "5") 40%nat = Stuck.
Proof.
  assert (∀ (o : outcome (httpclient_parser * list event * Z)) r (P : httpclient_parser → list event → Prop),
    o = Ok r → P r.1.1 r.1.2 → ∃ p1 evs n, o = Ok (p1, evs, n) ∧ P p1 evs) as Hr by (intros o [[p1 evs] n] P -> ?; by exists p1, evs, n).
  split; [|split]; [(eapply Hr; [vm_compute; reflexivity|]); vm_compute; by repeat split..|]. vm_compute. by repeat split.
Qed.
