(* ===== verification/FsSpec.v ===== *)
(** What the file utilities do to a file system: a path names a tree of files and
    directories, the calls act on it as their manual pages say, and the theorems
    say what [FSUtil] makes of them. *)

From Stdlib Require Import ZArith Lia.
From stdpp Require Import base numbers option strings tactics sets list_numbers list.
From S2P Require Import Prelude StdSet Text FsUtil.

Local Open Scope Z_scope.

(** ** Trees of files *)

Inductive leaf_kind : Type := Reg | Lnk | Sock | Blk | Chr | Fifo.

#[export] Instance leaf_kind_eq_dec : EqDecision leaf_kind.
Proof. solve_decision. Defined.

Inductive tree : Type :=
| Leaf (x : leaf_kind)
| Node (ns : list (list Z * tree)).

(** [d_type] of a file; the kind in its mode is that number in the bits from 12
    on. *)
Definition d_type (t : tree) : Z :=
  match t with
  | Leaf Reg => DT_REG
  | Leaf Lnk => DT_LNK
  | Leaf Sock => 12
  | Leaf Blk => 6
  | Leaf Chr => 2
  | Leaf Fifo => 1
  | Node _ => DT_DIR
  end.

Fixpoint height (t : tree) : nat :=
  match t with
  | Leaf _ => 0
  | Node ns => S (foldr (λ e, Nat.max (height e.2)) 0%nat ns)
  end.

Fixpoint child (n : list Z) (ns : list (list Z * tree)) : option tree :=
  match ns with
  | [] => None
  | (m, t) :: ns => if decide (n = m) then Some t else child n ns
  end.

Fixpoint put_child (n : list Z) (t : tree) (ns : list (list Z * tree)) : list (list Z * tree) :=
  match ns with
  | [] => [(n, t)]
  | (m, t') :: ns => if decide (n = m) then (n, t) :: ns else (m, t') :: put_child n t ns
  end.

Definition set_child (n : list Z) (ot : option tree) (ns : list (list Z * tree)) : list (list Z * tree) :=
  match ot with
  | Some t => put_child n t ns
  | None => filter (λ e, e.1 ≠ n) ns
  end.

(** What is at the relative path [l], and the tree with something else there. *)
Fixpoint tree_at (l : list (list Z)) (ot : option tree) : option tree :=
  match l, ot with
  | [], _ => ot
  | n :: l, Some (Node ns) => tree_at l (child n ns)
  | _, _ => None
  end.

Fixpoint put_at (l : list (list Z)) (x ot : option tree) : option tree :=
  match l, ot with
  | [], _ => x
  | n :: l, Some (Node ns) => Some (Node (set_child n (put_at l x (child n ns)) ns))
  | _, _ => ot
  end.

Definition kind (t : tree) : option leaf_kind := match t with Leaf x => Some x | Node _ => None end.

(** Names in a directory, and paths made of them. *)
Definition proper (n : list Z) : Prop := n ≠ [] ∧ (slash ∉ n) ∧ is_dots n = false.

Definition join (b : path) (l : list (list Z)) : path := foldl sub b l.

(** ** The laws of the system calls *)

(** [view k p] is what [lstat] finds at [p], with everything below it. Paths may
    lead through symbolic links, so that one file can be seen at several of them;
    only what is reached through directories alone is a part of the tree. *)
Class FsLaws (K : Type) `{FileSystem K} (view : K → path → option tree) : Prop := {
  lstat_view (k : K) p : match fs_lstat k p, view k p with
    | Some m, Some t => Z.land m S_IFMT = d_type t * 4096
    | None, None => True
    | _, _ => False end;
  view_names (k : K) p ns : view k p = Some (Node ns) → NoDup ns.*1 ∧ Forall proper ns.*1;
  view_sub (k : K) p ns n : view k p = Some (Node ns) → proper n → view k (sub p n) = child n ns;
  readdir_view (k : K) p es : fs_readdir k p = Some es →
    ∃ ns, view k p = Some (Node ns) ∧ filter (λ n, is_dots n = false) es.*1 ≡ₚ ns.*1;
  unlink_view (k k' : K) b l t ok : fs_unlink k (join b l) = (ok, k') → Forall proper l →
    tree_at l (view k b) = Some t →
    if ok : bool then (∃ x, t = Leaf x) ∧ view k' b = put_at l None (view k b)
    else view k' b = view k b;
  rmdir_view (k k' : K) b l t ok : fs_rmdir k (join b l) = (ok, k') → Forall proper l →
    tree_at l (view k b) = Some t →
    if ok : bool then t = Node [] ∧ view k' b = put_at l None (view k b)
    else view k' b = view k b
}.

(** ** Lemmas on trees *)

Lemma child_put m n t ns : child m (put_child n t ns) = if decide (m = n) then Some t else child m ns.
Proof.
  induction ns as [|[x y] ns IH]; simpl; [done|].
  destruct (decide (n = x)) as [->|]; simpl; repeat case_decide; naive_solver.
Qed.

Lemma child_set m n ot ns : child m (set_child n ot ns) = if decide (m = n) then ot else child m ns.
Proof.
  destruct ot as [t|]; simpl; [apply child_put|].
  induction ns as [|[x y] ns IH]; [by case_decide|].
  simpl in IH |- *. destruct (decide (x = n)) as [->|Hx].
  - rewrite filter_cons_False by naive_solver. rewrite IH. by repeat case_decide.
  - rewrite filter_cons_True by naive_solver. simpl. rewrite IH. repeat case_decide; naive_solver.
Qed.

Lemma child_elem n t ns : child n ns = Some t → (n, t) ∈ ns.
Proof.
  induction ns as [|[m t'] ns IH]; simpl; [done|].
  case_decide as E; [intros [= <-]; subst n; left|intros ?; right; auto].
Qed.

Lemma elem_child n ns : n ∈ ns.*1 → is_Some (child n ns).
Proof.
  induction ns as [|[m t'] ns IH]; simpl; [by intros ?%elem_of_nil|].
  intros [->|Hn]%elem_of_cons; [by rewrite decide_True|]. case_decide; [done|auto].
Qed.

Lemma child_names n t ns : child n ns = Some t → n ∈ ns.*1.
Proof. intros E%child_elem. apply list_elem_of_fmap. by exists (n, t). Qed.

Lemma no_children ns : (∀ n, child n ns = None) → ns = [].
Proof. destruct ns as [|[n t] ns]; [done|]. intros E. specialize (E n). simpl in E. by rewrite decide_True in E. Qed.

Lemma height_child n t ns : child n ns = Some t → (height t < height (Node ns))%nat.
Proof.
  simpl. induction ns as [|[m t'] ns IH]; simpl; [done|]. case_decide.
  - intros [= ->]. lia.
  - intros E%IH. lia.
Qed.

Lemma set_set_child n x y ns : set_child n x (set_child n (Some y) ns) = set_child n x ns.
Proof.
  destruct x as [t|]; simpl; induction ns as [|[m t'] ns IH]; simpl.
  - by rewrite decide_True.
  - repeat (case_decide; simpl); try congruence.
  - by rewrite filter_cons_False by naive_solver.
  - case_decide as E.
    + subst. rewrite !filter_cons_False by naive_solver. done.
    + rewrite !filter_cons_True by naive_solver. by f_equal.
Qed.

Lemma tree_at_put l x t v : tree_at l v = Some t → tree_at l (put_at l x v) = x.
Proof.
  revert v. induction l as [|n l IH]; intros v; simpl; [done|].
  destruct v as [[?|ns]|]; try done. intros E. rewrite child_set, decide_True by done. by apply IH.
Qed.

Lemma put_at_some l y v : is_Some v → is_Some (put_at l (Some y) v).
Proof. intros [[?|ns] ->]; destruct l; simpl; eauto. Qed.

Lemma put_put_at l x y t v : tree_at l v = Some t → put_at l x (put_at l (Some y) v) = put_at l x v.
Proof.
  revert v. induction l as [|n l IH]; intros v; simpl; [done|].
  destruct v as [[?|ns]|]; try done. intros E. do 2 f_equal.
  rewrite child_set, decide_True, (IH _ E) by done.
  destruct (put_at_some l y (child n ns)) as [z ->]; [|apply set_set_child].
  destruct l; simpl in E; [eauto|]. destruct (child n ns); [eauto|done].
Qed.

Lemma put_at_snoc l n x ns v :
  tree_at l v = Some (Node ns) → put_at (l ++ [n]) x v = put_at l (Some (Node (set_child n x ns))) v.
Proof.
  revert v. induction l as [|m l IH]; intros v; simpl; [by intros ->|].
  destruct v as [[?|ms]|]; try done. intros E. by rewrite IH.
Qed.

Lemma tree_at_snoc l n v :
  tree_at (l ++ [n]) v = match tree_at l v with Some (Node ns) => child n ns | _ => None end.
Proof.
  revert v. induction l as [|m l IH]; intros v; simpl; [by destruct v as [[]|]|].
  by destruct v as [[?|ns]|].
Qed.

Lemma join_snoc b l n : join b (l ++ [n]) = sub (join b l) n.
Proof. unfold join. by rewrite foldl_snoc. Qed.

(** ** [Rm] *)

(** What is left of a tree: nothing new, and nothing of another kind. *)
Definition left_of (ot : option tree) (t : tree) : Prop :=
  ∀ l x, kind <$> tree_at l ot = Some x → kind <$> tree_at l (Some t) = Some x.

(** The kinds [Rm] can remove: the mode of a socket or a block device contains
    the bit of [S_IFDIR]. *)
Definition removable (t : tree) : Prop :=
  ∀ l x, tree_at l (Some t) = Some (Leaf x) → x ≠ Sock ∧ x ≠ Blk.

Lemma left_of_refl t : left_of (Some t) t.
Proof. by intros l x. Qed.

Lemma left_of_None t : left_of None t.
Proof. intros [|n l] x; done. Qed.

Lemma left_of_node ns ns' :
  (∀ n t', child n ns' = Some t' → ∃ t, child n ns = Some t ∧ left_of (Some t') t) →
  left_of (Some (Node ns')) (Node ns).
Proof.
  intros Hc [|n l] x; simpl; [done|]. destruct (child n ns') as [t'|] eqn:E; [|by destruct l].
  destruct (Hc n t' E) as (t & -> & Hl). apply Hl.
Qed.

Lemma removable_node ns : removable (Node ns) ↔ ∀ n t, child n ns = Some t → removable t.
Proof.
  split.
  - intros Hr n t E l x Hl. apply (Hr (n :: l)). simpl. by rewrite E.
  - intros Hc [|n l] x; simpl; [done|]. destruct (child n ns) as [t|] eqn:E; [|by destruct l].
    intros Hl. by apply (Hc n t E l).
Qed.

Lemma removable_leaf x : removable (Leaf x) ↔ x ≠ Sock ∧ x ≠ Blk.
Proof.
  split; [intros Hr; by apply (Hr [])|]. intros Hx [|n l] y; simpl; [|done]. by intros [= <-].
Qed.

Section spec.
Context {K : Type} `{FileSystem K} (view : K → path → option tree) `{!FsLaws K view}.

(** The system refuses nothing that the manual pages do not make it refuse. *)
Definition permissive : Prop :=
  (∀ k p x, view k p = Some (Leaf x) → (fs_unlink k p).1 = true) ∧
  (∀ k p, view k p = Some (Node []) → (fs_rmdir k p).1 = true) ∧
  (∀ k p ns, view k p = Some (Node ns) → is_Some (fs_readdir k p)).

Lemma view_join k b l t : Forall proper l → tree_at l (view k b) = Some t → view k (join b l) = Some t.
Proof.
  induction l as [|n l IH] using rev_ind in t |- *; [done|].
  intros [Hl [Hn _]%Forall_cons]%Forall_app. rewrite tree_at_snoc, join_snoc. intros E.
  destruct (tree_at l (view k b)) as [[?|ns]|] eqn:El; try done.
  by rewrite (view_sub k _ ns n (IH _ Hl eq_refl) Hn).
Qed.

Lemma lstat_some k p t :
  view k p = Some t → ∃ m, fs_lstat k p = Some m ∧
    (Z.land m S_IFDIR = 0 ↔ ∃ x, t = Leaf x ∧ x ≠ Sock ∧ x ≠ Blk).
Proof.
  intros E. pose proof (lstat_view k p) as Hm. rewrite E in Hm.
  destruct (fs_lstat k p) as [m|]; [|done]. exists m. split; [done|].
  replace (Z.land m S_IFDIR) with (Z.land (Z.land m S_IFMT) S_IFDIR) by (by rewrite <-Z.land_assoc).
  rewrite Hm. destruct t as [[]|ns]; simpl; split; try (intros (? & [=] & ? & ?); congruence); try done; eauto.
Qed.

Lemma lstat_none k p : view k p = None → fs_lstat k p = None.
Proof. intros E. pose proof (lstat_view k p) as Hm. rewrite E in Hm. by destruct (fs_lstat k p). Qed.

(** The result of removing what is at [l] under [b]: [ot] is left of it. *)
Definition removed (k k' : K) b l t (r : bool) (ot : option tree) : Prop :=
  view k' b = put_at l ot (view k b) ∧ (r = true ↔ ot = None) ∧ left_of ot t ∧
  (r = true → removable t) ∧ (permissive → removable t → r = true).

Lemma put_at_same l v t : tree_at l v = Some t → put_at l (Some t) v = v.
Proof.
  revert v. induction l as [|n l IH]; intros v; simpl; [done|].
  destruct v as [[?|ns]|]; try done. intros E. rewrite (IH _ E). do 2 f_equal.
  destruct (child n ns) as [t'|] eqn:Ec; [|by destruct l]. simpl. clear -Ec.
  induction ns as [|[m u] ns IH]; simpl in *; [done|]. case_decide; [naive_solver|]. f_equal. auto.
Qed.

Lemma removed_kept k k' b l t :
  tree_at l (view k b) = Some t → view k' b = view k b → (permissive → ¬ removable t) →
  removed k k' b l t false (Some t).
Proof.
  intros E Hv Hp. split_and!; [by rewrite put_at_same| |apply left_of_refl|done|naive_solver].
  split; done.
Qed.

(** The loop of [Rm] over a directory: [ns'] is what it holds at the moment. *)
Definition cleared ns ns' ns'' (names : list (list Z)) : Prop :=
  (∀ n t', child n ns'' = Some t' → ∃ t, child n ns = Some t ∧ left_of (Some t') t) ∧
  (∀ n, n ∉ names → child n ns'' = child n ns') ∧
  (∀ n t, n ∈ names → child n ns = Some t → child n ns'' = None → removable t) ∧
  (permissive → removable (Node ns) → ∀ n, n ∈ names → child n ns'' = None).

Lemma rm_entries_ok fuel k0 b l ns :
  Forall proper l → tree_at l (view k0 b) = Some (Node ns) → (height (Node ns) <= fuel)%nat →
  (∀ k l t, Forall proper l → tree_at l (view k b) = Some t → (height t < fuel)%nat →
     ∃ r k' ot, Rm fuel k (join b l) = Ok (r, k') ∧ removed k k' b l t r ot) →
  ∀ es ns' k ret,
  NoDup (filter (λ n, is_dots n = false) es.*1) →
  (∀ n, n ∈ es.*1 → is_dots n = false → proper n ∧ child n ns' = child n ns ∧ is_Some (child n ns)) →
  (∀ n t', child n ns' = Some t' → ∃ t, child n ns = Some t ∧ left_of (Some t') t) →
  view k b = put_at l (Some (Node ns')) (view k0 b) → (ret = false → ns' ≠ []) →
  ∃ ret' k' ns'', rm_entries (Rm fuel) (join b l) ret k es = Ok (ret', k') ∧
    view k' b = put_at l (Some (Node ns'')) (view k0 b) ∧ (ret' = false → ns'' ≠ []) ∧
    cleared ns ns' ns'' (filter (λ n, is_dots n = false) es.*1).
Proof.
  intros Hl Hat Hfuel IH. induction es as [|[n dt] es IHes]; intros ns' k ret Hnd Hin Hleft Hv Hret.
  { exists ret, k, ns'. split; [done|]. split; [done|]. split; [done|].
    split_and!; [done|done|by intros ? ? ?%elem_of_nil|by intros _ _ ? ?%elem_of_nil]. }
  rewrite fmap_cons in *. cbn [fst rm_entries] in *. destruct (is_dots n) eqn:Hdots.
  { rewrite filter_cons_False in Hnd |- * by congruence.
    apply IHes; [done| |done..]. intros m Hm. apply Hin. by right. }
  rewrite filter_cons_True in Hnd |- * by done. apply NoDup_cons in Hnd as [Hnew Hnd].
  destruct (Hin n) as (Hproper & Hsame & [t Ht]); [by left|done|].
  assert (tree_at l (view k b) = Some (Node ns')) as Hat' by (rewrite Hv; by eapply tree_at_put).
  destruct (IH k (l ++ [n]) t) as (r & k1 & ot & E1 & Hv1 & Hr & Hlo & Hrem & Hperm).
  { apply Forall_app. split; [done|by apply Forall_singleton]. }
  { by rewrite tree_at_snoc, Hat', Hsame. }
  { pose proof (height_child _ _ _ Ht). lia. }
  rewrite join_snoc in E1. rewrite E1. osimpl.
  rewrite (put_at_snoc _ _ _ _ _ Hat'), Hv, (put_put_at _ _ _ _ _ Hat) in Hv1.
  assert (∀ m, m ∈ es.*1 → is_dots m = false → m ≠ n) as Hne.
  { intros m Hm Hd ->. apply Hnew, list_elem_of_filter. done. }
  destruct (IHes (set_child n ot ns') k1 r) as (ret' & k' & ns'' & E2 & Hv2 & Hret2 & Hc1 & Hc2 & Hc3 & Hc4); [done| | |done| |].
  - intros m Hm Hd. destruct (Hin m) as (? & ? & ?); [by right|done|].
    rewrite child_set, decide_False by auto. done.
  - intros m t'. rewrite child_set. case_decide as Em; [subst m; intros ->; eauto|apply Hleft].
  - intros -> E. assert (child n (set_child n ot ns') = ot) as Hs by (by rewrite child_set, decide_True).
    rewrite E in Hs. simpl in Hs. by destruct Hr as [_ Hr]; specialize (Hr (eq_sym Hs)).
  - exists ret', k', ns''. split; [done|]. split; [done|]. split; [done|].
    assert (child n ns'' = ot) as Hn by (rewrite Hc2, child_set, decide_True; done).
    split_and!; [done| | |].
    + intros m Hm. rewrite not_elem_of_cons in Hm. destruct Hm. by rewrite Hc2, child_set, decide_False.
    + intros m u [->|Hm]%elem_of_cons; [|by apply Hc3]. rewrite Ht, Hn. intros [= ->] ->. by apply Hrem, Hr.
    + intros Hp Hrm m [->|Hm]%elem_of_cons; [|by apply Hc4]. rewrite Hn. apply Hr, Hperm; [done|].
      by eapply removable_node in Hrm.
Qed.

Lemma rm_leaf k b l x :
  Forall proper l → tree_at l (view k b) = Some (Leaf x) →
  ∃ r k' ot, Unlink k (join b l) false = (r, k') ∧
    view k' b = put_at l ot (view k b) ∧ (r = true ↔ ot = None) ∧ left_of ot (Leaf x) ∧ (permissive → r = true).
Proof.
  intros Hl Hat. pose proof (view_join _ _ _ _ Hl Hat) as Hv.
  unfold Unlink. destruct (lstat_some _ _ _ Hv) as (m & -> & _). rewrite bool_decide_eq_false_2 by done. cbn [negb andb].
  destruct (fs_unlink k (join b l)) as [ok k'] eqn:E.
  pose proof (unlink_view _ _ _ _ _ _ E Hl Hat) as Hu. destruct ok.
  - exists true, k', None. destruct Hu as [_ Hu]. split_and!; [done|done|done|apply left_of_None|done].
  - exists false, k', (Some (Leaf x)). split_and!; [done|by rewrite put_at_same|done|apply left_of_refl|].
    intros (Hp & _). specialize (Hp _ _ _ Hv). by rewrite E in Hp.
Qed.

Lemma rm_ok fuel : ∀ k b l t,
  Forall proper l → tree_at l (view k b) = Some t → (height t < fuel)%nat →
  ∃ r k' ot, Rm fuel k (join b l) = Ok (r, k') ∧ removed k k' b l t r ot.
Proof.
  induction fuel as [|fuel IH]; [lia|]. intros k b l t Hl Hat Hf.
  pose proof (view_join _ _ _ _ Hl Hat) as Hv. cbn [Rm].
  destruct (lstat_some _ _ _ Hv) as (m & -> & Hm). case_decide as Hdir.
  { apply Hm in Hdir as (x & -> & Hx). destruct (rm_leaf k b l x Hl Hat) as (r & k' & ot & -> & ? & ? & ? & ?).
    exists r, k', ot. split; [done|]. split_and!; [done..| |auto]. intros _. by apply removable_leaf. }
  destruct (fs_readdir k (join b l)) as [es|] eqn:Er; cycle 1.
  { exists false, k, (Some t). split; [done|]. apply removed_kept; [done|done|]. intros (_ & _ & Hp) Hrm.
    destruct t as [x|ns]; [|by destruct (Hp _ _ _ Hv) as [? ?]; congruence].
    apply Hdir, Hm. exists x. split; [done|]. by apply removable_leaf. }
  destruct (readdir_view _ _ _ Er) as (ns & Ens & Hperm). rewrite Hv in Ens. injection Ens as ->.
  destruct (view_names _ _ _ Hv) as [Hnd Hprop].
  assert (∀ n, n ∈ ns.*1 → n ∈ filter (λ n, is_dots n = false) es.*1) as Hsub by (intros n Hn; by rewrite Hperm).
  destruct (rm_entries_ok fuel k b l ns) with (es := es) (ns' := ns) (k := k) (ret := true)
    as (ret & k1 & ns1 & -> & Hv1 & Hret & Hc1 & Hc2 & Hc3 & Hc4); [done|done|lia|by intros; apply IH|..].
  { by rewrite Hperm. }
  { intros n Hn Hd. assert (n ∈ ns.*1) as Hn' by (rewrite <-Hperm; apply list_elem_of_filter; done).
    split_and!; [by rewrite Forall_forall in Hprop; apply Hprop|done|by apply elem_child]. }
  { intros n t Hn. exists t. split; [done|apply left_of_refl]. }
  { symmetry. by apply put_at_same. }
  { done. }
  osimpl. assert (tree_at l (view k1 b) = Some (Node ns1)) as Hat1 by (rewrite Hv1; by eapply tree_at_put).
  destruct (fs_rmdir k1 (join b l)) as [ok k2] eqn:Ed.
  pose proof (rmdir_view _ _ _ _ _ _ Ed Hl Hat1) as Hd. destruct ok.
  - destruct Hd as [[= ->] Hv2]. destruct ret; [|by destruct Hret].
    exists true, k2, None. split; [done|].
    rewrite Hv1, (put_put_at _ _ _ _ _ Hat) in Hv2.
    split_and!; [done|done|apply left_of_None| |done].
    intros _. apply removable_node. intros n t Hn. apply (Hc3 n t); [by apply Hsub, (child_names n t)|done..].
  - exists false, k2, (Some (Node ns1)). split; [done|].
    split_and!; [by rewrite Hd|done|by apply left_of_node|done|].
    intros Hp Hrm. assert (ns1 = []) as ->.
    { apply no_children. intros n. destruct (decide (n ∈ filter (λ n, is_dots n = false) es.*1)) as [Hn|Hn]; [by apply Hc4|].
      rewrite Hc2 by done. destruct (child n ns) eqn:En; [|done]. by apply child_names, Hsub in En. }
    destruct Hp as (_ & Hp & _). specialize (Hp k1 (join b l) (view_join _ _ _ _ Hl Hat1)). by rewrite Ed in Hp.
Qed.

(** [Rm] reports exactly what it did: on a path that names a tree of files it
    returns, and it returns true if and only if nothing is left at the path. What
    is left was there before, everything outside the tree stays as it was, and
    nothing is left when the system permits every removal and the tree has no
    sockets and no block devices; with one of these it always fails. *)
Theorem Rm_exact fuel k p t :
  view k p = Some t → (height t < fuel)%nat →
  ∃ r k', Rm fuel k p = Ok (r, k') ∧
    (r = true ↔ view k' p = None) ∧ left_of (view k' p) t ∧
    (r = true → removable t) ∧ (permissive → removable t → r = true) ∧
    (∀ b l, p = join b l → Forall proper l → tree_at l (view k b) = Some t →
       view k' b = put_at l (view k' p) (view k b)).
Proof.
  intros Hv Hf. destruct (rm_ok fuel k p [] t) as (r & k' & ot & E & Hot & Hr & Hl & Hrem & Hp); [done|done|done|].
  cbn in E, Hot. subst ot. exists r, k'. split_and!; [done..|].
  intros b l -> Hpl Hat. destruct (rm_ok fuel k b l t) as (r2 & k2 & ot2 & E2 & Hv2 & Hr2 & _); [done|done|done|].
  rewrite E in E2. injection E2 as <- <-. rewrite Hv2. f_equal.
  destruct (view k' (join b l)) as [u|] eqn:Eu.
  - destruct ot2 as [u2|]; [|exfalso; destruct r; naive_solver].
    assert (tree_at l (view k' b) = Some u2) as Hat2 by (rewrite Hv2; by eapply tree_at_put).
    apply view_join in Hat2; [|done]. congruence.
  - destruct ot2; [|done]. exfalso. destruct r; naive_solver.
Qed.

(** [Mv] removes its target before it looks at its source: with a source that
    does not exist it fails and the target is gone. *)
Lemma Mv_missing_source fuel k from to t :
  view k to = Some t → (height t < fuel)%nat → removable t → permissive →
  (∀ k', fs_rename k' from to = (false, k')) →
  ∃ k', Mv fuel k from to = Ok (false, k') ∧ view k' to = None.
Proof.
  intros Hv Hf Hr Hp Hren.
  destruct (rm_ok fuel k to [] t) as (r & k' & ot & E & Hot & Hiff & _ & _ & Hall); [done|done|done|].
  cbn in E, Hot. exists k'. unfold Mv. rewrite E. osimpl. rewrite (Hall Hp Hr), Hren.
  split; [done|]. rewrite Hot. by apply Hiff, Hall.
Qed.

(** ** [ListAllFile] *)

(** Every directory can be read and the file system stores the kind of each
    entry; [.] and [..] are directories. *)
Definition listable (k : K) : Prop :=
  ∀ p ns, view k p = Some (Node ns) →
    fs_access k p = true ∧ ∃ es, fs_readdir k p = Some es ∧
      ∀ n dt, (n, dt) ∈ es →
        if is_dots n then dt = DT_DIR else ∃ t, child n ns = Some t ∧ dt = d_type t.

(** A regular file at [l] under a directory, with the suffix [s]. *)
Definition wanted (s : list Z) (ns : list (list Z * tree)) (l : list (list Z)) : Prop :=
  tree_at l (Some (Node ns)) = Some (Leaf Reg) ∧ ∃ n, last l = Some n ∧ s `suffix_of` n.

Lemma has_suffix_spec n s : has_suffix n s = true ↔ s `suffix_of` n.
Proof.
  unfold has_suffix. destruct (decide (s = [])) as [->|Hs].
  { rewrite bool_decide_eq_true_2 by done. split; [intros _; apply suffix_nil|done]. }
  rewrite (bool_decide_eq_false_2 (s = [])) by done. destruct (decide (length n < length s)%nat) as [Hl|Hl].
  { rewrite bool_decide_eq_true_2 by done. split; [done|]. intros E%suffix_length. lia. }
  rewrite bool_decide_eq_false_2, bool_decide_eq_true by done. split.
  - intros <-. exists (take (length n - length s) n). by rewrite take_drop.
  - intros [m ->]. rewrite length_app, Nat.add_sub. by rewrite drop_app_length.
Qed.

Lemma sub_inj p q n m : slash ∉ n → slash ∉ m → sub p n = sub q m → p = q ∧ n = m.
Proof.
  intros Hn Hm E. assert (length p = length q) as Hlen.
  { assert (∀ r x, slash ∉ x → find_last (λ c, bool_decide (c = slash)) (sub r x) = Some (length r)) as Hf.
    { intros r x Hx. apply find_last_app; [by apply bool_decide_eq_true|]. apply Forall_forall.
      intros c Hc. apply bool_decide_eq_false. by intros ->. }
    pose proof (Hf p n Hn) as H1. rewrite E, Hf in H1 by done. by injection H1. }
  apply app_inj_1 in E as [-> [=]]; done.
Qed.

Lemma length_join p l : (length p + length l <= length (join p l))%nat.
Proof.
  induction l as [|n l IH] using rev_ind; simpl; [lia|]. rewrite join_snoc. unfold sub.
  rewrite !length_app. simpl. lia.
Qed.

Lemma join_inj p l1 l2 : Forall proper l1 → Forall proper l2 → join p l1 = join p l2 → l1 = l2.
Proof.
  revert l2. induction l1 as [|n l1 IH] using rev_ind; intros l2 H1 H2 E.
  { destruct l2 as [|m l2]; [done|]. pose proof (length_join p (m :: l2)). rewrite <-E in H0. simpl in H0. lia. }
  destruct l2 as [|m l2 _] using rev_ind.
  { pose proof (length_join p (l1 ++ [n])). rewrite E, length_app in H0. simpl in H0. lia. }
  rewrite !join_snoc in E. apply Forall_app in H1 as [H1 [Hn _]%Forall_cons], H2 as [H2 [Hm _]%Forall_cons].
  apply sub_inj in E as [E ->]; [|apply Hn|apply Hm]. f_equal. by apply IH.
Qed.

Lemma join_cons p n l : join p (n :: l) = join (sub p n) l.
Proof. done. Qed.

(** Relative paths that lead somewhere are made of proper names. *)
Lemma tree_at_proper k p t l u :
  view k p = Some t → tree_at l (Some t) = Some u → Forall proper l.
Proof.
  revert p t. induction l as [|n l IH]; intros p t Hv; simpl; [constructor|].
  destruct t as [x|ns]; [done|]. destruct (child n ns) as [t'|] eqn:Ec; [|by destruct l]. intros Hl.
  destruct (view_names k p ns Hv) as [_ Hp]. rewrite Forall_forall in Hp.
  assert (proper n) as Hn by (by eapply Hp, child_names).
  constructor; [done|]. apply (IH (sub p n) t'); [|done]. by rewrite (view_sub k p ns).
Qed.

(** [new] holds the wanted files under [p] whose first name satisfies [P]. *)
Definition lists (s : list Z) p ns (P : list Z → Prop) (new : list path) : Prop :=
  NoDup new ∧ ∀ q, q ∈ new ↔ ∃ n l, P n ∧ wanted s ns (n :: l) ∧ q = join p (n :: l).

Lemma wanted_cons s ns n l :
  wanted s ns (n :: l) ↔
  match child n ns with
  | Some (Node ns') => wanted s ns' l
  | Some (Leaf Reg) => l = [] ∧ s `suffix_of` n
  | _ => False
  end.
Proof.
  unfold wanted. simpl. destruct (child n ns) as [[x|ns']|].
  - destruct l as [|m l]; simpl; [|destruct x; naive_solver].
    split; [intros [[= ->] (? & [= <-] & ?)]; done|]. destruct x; try done. intros [_ ?]. eauto.
  - destruct l as [|m l]; simpl; [|done]. naive_solver.
  - split; [|done]. by destruct l as [|m l]; intros [? _].
Qed.

Lemma list_entry_ok fuel k s p ns n t files :
  child n ns = Some t → is_dots n = false →
  (∀ ns', t = Node ns' → ∃ new, ListAllFile fuel k s files (sub p n) = Ok (files ++ new) ∧
     lists s (sub p n) ns' (λ _, True) new) →
  ∃ new, list_entry (ListAllFile fuel k s) p s files (n, d_type t) = Ok (files ++ new) ∧
    lists s p ns (λ m, m = n) new.
Proof.
  intros Hc Hd Hrec. unfold list_entry, lists. setoid_rewrite wanted_cons.
  assert (∀ l, join p (n :: l) = join (sub p n) l) as Hj by done. destruct t as [x|ns'].
  - destruct (decide (x = Reg)) as [->|Hx].
    + rewrite decide_False, decide_True by done. pose proof (has_suffix_spec n s) as Hs.
      destruct (has_suffix n s).
      * exists [sub p n]. split; [done|]. split; [apply NoDup_singleton|]. intros q.
        rewrite list_elem_of_singleton. split; [intros ->; exists n, []; rewrite Hc; naive_solver|].
        intros (? & l & -> & Hw & ->). rewrite Hc in Hw. by destruct Hw as [-> _].
      * exists []. rewrite app_nil_r. split; [done|]. split; [constructor|]. intros q.
        split; [by intros ?%elem_of_nil|]. intros (? & l & -> & Hw & ->). rewrite Hc in Hw. naive_solver.
    + rewrite decide_False by (by destruct x). rewrite decide_False by (by destruct x).
      exists []. rewrite app_nil_r. split; [done|]. split; [constructor|]. intros q.
      split; [by intros ?%elem_of_nil|]. intros (? & l & -> & Hw & ->). rewrite Hc in Hw. by destruct x.
  - rewrite decide_True, Hd by done. destruct (Hrec ns' eq_refl) as (new & -> & Hnd & Hin).
    exists new. split; [done|]. split; [done|]. intros q. rewrite Hin. split.
    + intros (m & l & _ & Hw & ->). exists n, (m :: l). rewrite Hc. done.
    + intros (? & l & -> & Hw & ->). rewrite Hc in Hw. destruct l as [|m l]; [by destruct Hw|].
      exists m, l. done.
Qed.

Lemma list_entries_ok fuel k s p ns :
  view k p = Some (Node ns) →
  (∀ n ns' files, child n ns = Some (Node ns') →
     ∃ new, ListAllFile fuel k s files (sub p n) = Ok (files ++ new) ∧ lists s (sub p n) ns' (λ _, True) new) →
  ∀ es files,
  NoDup (filter (λ n, is_dots n = false) es.*1) →
  (∀ n dt, (n, dt) ∈ es → if is_dots n then dt = DT_DIR else ∃ t, child n ns = Some t ∧ dt = d_type t) →
  ∃ new, list_entries (ListAllFile fuel k s) p s files es = Ok (files ++ new) ∧
    lists s p ns (λ n, n ∈ filter (λ n, is_dots n = false) es.*1) new.
Proof.
  intros Hv Hrec es. induction es as [|[n dt] es IH]; intros files Hnd Hes.
  { exists []. rewrite app_nil_r. split; [done|]. split; [constructor|]. intros q.
    split; [by intros ?%elem_of_nil|]. by intros (? & ? & ?%elem_of_nil & _). }
  rewrite fmap_cons in *. cbn [fst list_entries] in *.
  assert (∀ m d, (m, d) ∈ es → if is_dots m then d = DT_DIR else ∃ t, child m ns = Some t ∧ d = d_type t) as Hes'.
  { intros m d Hm. apply Hes. by right. }
  pose proof (Hes n dt (list_elem_of_here _ _)) as Hn. destruct (is_dots n) eqn:Hd.
  { subst dt. rewrite filter_cons_False in Hnd |- * by congruence.
    unfold list_entry at 1. rewrite decide_True, Hd by done. osimpl. by apply IH. }
  destruct Hn as (t & Ht & ->). rewrite filter_cons_True in Hnd |- * by done. apply NoDup_cons in Hnd as [Hnew Hnd].
  destruct (list_entry_ok fuel k s p ns n t files Ht Hd) as (new1 & -> & Hnd1 & Hin1).
  { intros ns' ->. by apply Hrec. }
  osimpl. destruct (IH (files ++ new1) Hnd Hes') as (new2 & -> & Hnd2 & Hin2).
  exists (new1 ++ new2). rewrite app_assoc. split; [done|]. split.
  - apply NoDup_app. split_and!; [done| |done]. intros q Hq1 Hq2.
    apply Hin1 in Hq1 as (n1 & l1 & -> & Hw1 & ->). apply Hin2 in Hq2 as (n2 & l2 & Hn2 & Hw2 & E).
    apply join_inj in E; [by injection E as -> _|..].
    + eapply tree_at_proper; [apply Hv|apply Hw1].
    + eapply tree_at_proper; [apply Hv|apply Hw2].
  - intros q. rewrite elem_of_app, Hin1, Hin2. setoid_rewrite elem_of_cons. naive_solver.
Qed.

Lemma list_ok fuel k s : listable k → ∀ p ns files,
  view k p = Some (Node ns) → (height (Node ns) < fuel)%nat →
  ∃ new, ListAllFile fuel k s files p = Ok (files ++ new) ∧ lists s p ns (λ _, True) new.
Proof.
  intros Hk. induction fuel as [|fuel IH]; [lia|]. intros p ns files Hv Hf. cbn [ListAllFile].
  destruct (Hk p ns Hv) as (-> & es & Er & Hes). rewrite Er.
  destruct (readdir_view k p es Er) as (ns0 & E & Hperm). rewrite Hv in E. injection E as <-.
  destruct (view_names k p ns Hv) as [Hnd Hprop]. rewrite Forall_forall in Hprop.
  destruct (list_entries_ok fuel k s p ns Hv) with (es := es) (files := files) as (new & -> & Hnew & Hin); [|by rewrite Hperm|done|].
  { intros n ns' fs Hc. apply IH; [|pose proof (height_child _ _ _ Hc); lia].
    rewrite (view_sub k p ns); [done|done|]. by eapply Hprop, child_names. }
  exists new. split; [done|]. split; [done|]. intros q. rewrite Hin. split; [naive_solver|].
  intros (n & l & _ & Hw & ->). exists n, l. split_and!; [|done|done]. rewrite Hperm.
  apply wanted_cons in Hw. destruct (child n ns) as [t|] eqn:Ec; [|done]. by eapply child_names.
Qed.

(** [ListAllFile] appends every regular file below the directory whose name
    ends with the suffix, each of them once, and nothing else, when directories
    can be read and the file system reports the kinds of the entries. *)
Theorem ListAllFile_exact fuel k s p ns files :
  listable k → view k p = Some (Node ns) → (height (Node ns) < fuel)%nat →
  ∃ new, ListAllFile fuel k s files p = Ok (files ++ new) ∧ NoDup new ∧
    ∀ q, q ∈ new ↔ ∃ l n, tree_at (l ++ [n]) (Some (Node ns)) = Some (Leaf Reg) ∧
      s `suffix_of` n ∧ q = join p (l ++ [n]).
Proof.
  intros Hk Hv Hf. destruct (list_ok fuel k s Hk p ns files Hv Hf) as (new & -> & Hnd & Hin).
  exists new. split; [done|]. split; [done|]. intros q. rewrite Hin. split.
  - intros (m & l & _ & (Hat & n & Hlast & Hs) & ->).
    apply last_Some in Hlast as [l' E]. rewrite E in *. eauto.
  - intros (l & n & Hat & Hs & ->). destruct (l ++ [n]) as [|m l'] eqn:E; [by destruct l|].
    exists m, l'. rewrite <-E. split_and!; [done| |done]. split; [by rewrite E|]. exists n. by rewrite last_snoc.
Qed.

(** ** [Mkdir] *)

(** [mkdir] makes its directory accessible and takes nothing away. *)
Definition mkdir_makes : Prop :=
  ∀ k k' p ok, fs_mkdir k p = (ok, k') →
    (ok = true → fs_access k' p = true) ∧ ∀ q, fs_access k q = true → fs_access k' q = true.

(** Why a call of [mkdir1] failed. *)
Definition refused p : Prop := ∃ k, fs_access k p = false ∧ (fs_mkdir k p).1 = false.

Lemma mkdir1_ok k p ok k' :
  mkdir_makes → mkdir1 k p = (ok, k') →
  (if ok then fs_access k' p = true else refused p) ∧ ∀ q, fs_access k q = true → fs_access k' q = true.
Proof.
  intros Hmk. unfold mkdir1. destruct (fs_access k p) eqn:Ea; [intros [= <- <-]; done|].
  intros E. destruct (Hmk _ _ _ _ E) as [H1 H2]. split; [|done]. destruct ok; [auto|].
  exists k. by rewrite E.
Qed.

Lemma mkdir_prefixes_ok rest : mkdir_makes → ∀ k seen ok k', mkdir_prefixes k seen rest = (ok, k') →
  (if ok then ∀ a b, rest = a ++ slash :: b → fs_access k' (seen ++ a) = true
   else ∃ a b, rest = a ++ slash :: b ∧ refused (seen ++ a)) ∧
  ∀ q, fs_access k q = true → fs_access k' q = true.
Proof.
  intros Hmk. induction rest as [|c rest IH]; intros k seen ok k'; cbn [mkdir_prefixes].
  { intros [= <- <-]. split; [|done]. by intros [] ?. }
  assert (∀ k1 ok2 k2, mkdir_prefixes k1 (seen ++ [c]) rest = (ok2, k2) →
    (if ok2 then ∀ a b, c :: rest = a ++ slash :: b → a ≠ [] → fs_access k2 (seen ++ a) = true
     else ∃ a b, c :: rest = a ++ slash :: b ∧ refused (seen ++ a)) ∧
    ∀ q, fs_access k1 q = true → fs_access k2 q = true) as Hrest.
  { intros k1 ok2 k2 E. destruct (IH _ _ _ _ E) as [H1 H2]. split; [|done]. destruct ok2.
    - intros [|x a] b; [done|]. intros [= -> Er] _. specialize (H1 a b Er). by rewrite <-app_assoc in H1.
    - destruct H1 as (a & b & -> & Hr). exists (c :: a), b. by rewrite <-app_assoc in Hr. }
  destruct (decide (c = slash)) as [->|Hc].
  - destruct (mkdir1 k seen) as [ok1 k1] eqn:E1. destruct (mkdir1_ok _ _ _ _ Hmk E1) as [H1 H2]. destruct ok1.
    + intros E. destruct (Hrest _ _ _ E) as [H3 H4]. split; [|auto]. destruct ok; [|done].
      intros [|x a] b Eab; [rewrite app_nil_r; auto|by apply (H3 _ _ Eab)].
    + intros [= <- <-]. split; [|done]. exists [], rest. by rewrite app_nil_r.
  - intros E. destruct (Hrest _ _ _ E) as [H3 H4]. split; [|done]. destruct ok; [|done].
    intros [|x a] b Eab; [by injection Eab|by apply (H3 _ _ Eab)].
Qed.

(** [Mkdir] creates a directory with everything that leads to it: when it
    returns true, the path and each part of it before a slash are accessible;
    when it returns false, the system has refused to create one of them, those
    before it being there; nothing that was accessible is lost. A path that
    exists already, of whatever kind, is taken for a success, and the empty path
    is read beyond its end. *)
Theorem Mkdir_makes k dirname :
  mkdir_makes →
  (is_Some (fs_lstat k dirname) → Mkdir k dirname = Ok (true, k)) ∧
  (fs_lstat k dirname = None → dirname = [] → Mkdir k dirname = Stuck) ∧
  (fs_lstat k dirname = None → dirname ≠ [] → ∃ ok k', Mkdir k dirname = Ok (ok, k') ∧
     (ok = true → fs_access k' dirname = true ∧
        ∀ a b, dirname = a ++ slash :: b → a ≠ [] → fs_access k' a = true) ∧
     (ok = false → refused dirname ∨ ∃ a b, dirname = a ++ slash :: b ∧ a ≠ [] ∧ refused a) ∧
     (∀ q, fs_access k q = true → fs_access k' q = true)).
Proof.
  intros Hmk. unfold Mkdir. split_and!; [by intros [m ->]|by intros -> ->|].
  intros -> Hne. destruct dirname as [|c rest]; [done|].
  destruct (mkdir_prefixes k [c] rest) as [ok1 k1] eqn:E1.
  destruct (mkdir_prefixes_ok _ Hmk _ _ _ _ E1) as [H1 H2]. destruct ok1.
  - destruct (mkdir1 k1 (c :: rest)) as [ok k'] eqn:E2. destruct (mkdir1_ok _ _ _ _ Hmk E2) as [H3 H4].
    exists ok, k'. split; [done|]. split_and!; [|by intros ->; left|auto]. intros ->. split; [done|].
    intros [|x a] b; [done|]. intros [= -> Er] _. apply H4. by apply (H1 a b Er).
  - exists false, k1. split; [done|]. split_and!; [done| |done]. intros _. right.
    destruct H1 as (a & b & -> & Hr). by exists (c :: a), b.
Qed.

End spec.

(** ** Names of files *)

(** [Dirname] and [Basename] split a path at its last slash: what precedes it, or
    the root, and what follows it. *)
Lemma Dirname_Basename p n :
  slash ∉ n →
  Dirname (sub p n) = (if decide (p = []) then text "/" else p) ∧ Basename (sub p n) = n ∧
  Dirname n = text "." ∧ Basename n = n.
Proof.
  intros Hn. set (P := λ c, bool_decide (c = slash)).
  assert (Forall (λ c, P c = false) n) as HP.
  { apply Forall_forall. intros c Hc. apply bool_decide_eq_false. by intros ->. }
  assert (find_last P (sub p n) = Some (length p)) as Hf by (apply find_last_app; [by apply bool_decide_eq_true|done]).
  assert (sub p n ≠ []) as Hne by (unfold sub; by destruct p).
  assert (find_last P n = None) as Hn' by (by apply find_last_None).
  unfold Dirname, Basename. fold P. rewrite Hf, Hn'.
  split_and!; [| |by destruct n|by destruct n].
  - destruct (sub p n) as [|x y] eqn:E; [done|]. destruct p as [|z p]; [done|]. simpl length. cbv iota.
    rewrite decide_False by done. rewrite <-E. unfold sub. apply (take_app_length (z :: p)).
  - destruct (sub p n) as [|x y] eqn:E; [done|]. rewrite <-E. unfold sub.
    by rewrite <-Nat.add_1_r, <-drop_drop, drop_app_length.
Qed.

(** ** A file system *)

(** One tree of files without symbolic links that are followed, and a list of
    paths that the system refuses to remove. *)
Module TinyFs.

Fixpoint words (cur p : list Z) : list (list Z) :=
  match p with
  | [] => if decide (cur = []) then [] else [cur]
  | c :: p =>
    if decide (c = slash) then (if decide (cur = []) then [] else [cur]) ++ words [] p
    else words (cur ++ [c]) p
  end.

Definition comps : path → list (list Z) := words [].

Lemma words_app cur p n : words cur (p ++ slash :: n) = words cur p ++ words [] n.
Proof.
  revert cur. induction p as [|c p IH]; intros cur; cbn [app words]; [by rewrite decide_True|].
  case_decide; [by rewrite IH, app_assoc|apply IH].
Qed.

Lemma words_plain cur n : slash ∉ n → words cur n = if decide (cur ++ n = []) then [] else [cur ++ n].
Proof.
  revert cur. induction n as [|c n IH]; intros cur; cbn [words]; [by rewrite app_nil_r|].
  rewrite not_elem_of_cons. intros [Hc Hn]. rewrite decide_False by done. by rewrite IH, <-app_assoc.
Qed.

Lemma comps_sub p n : proper n → comps (sub p n) = comps p ++ [n].
Proof.
  intros (Hn & Hs & _). unfold comps, sub. rewrite words_app. f_equal. rewrite words_plain by done.
  by rewrite decide_False.
Qed.

Lemma comps_join l b : Forall proper l → comps (join b l) = comps b ++ l.
Proof.
  induction l as [|n l IH] using rev_ind; [by rewrite app_nil_r|]. intros [Hl [Hn _]%Forall_cons]%Forall_app.
  by rewrite join_snoc, comps_sub, IH, app_assoc.
Qed.

#[export] Instance proper_dec n : Decision (proper n).
Proof. unfold proper. apply _. Defined.

(** Every directory of the tree has different, proper names. *)
Fixpoint wfb (t : tree) : bool :=
  match t with
  | Leaf _ => true
  | Node ns => bool_decide (NoDup ns.*1) && bool_decide (Forall proper ns.*1) && forallb (λ e, wfb e.2) ns
  end.

Record tiny : Type := mkTiny {
  root : tree;
  root_wf : wfb root = true;
  fixed : list (list (list Z))
}.

Lemma wfb_node ns :
  wfb (Node ns) = true ↔ NoDup ns.*1 ∧ Forall proper ns.*1 ∧ ∀ n t, (n, t) ∈ ns → wfb t = true.
Proof.
  simpl. rewrite !andb_true_iff, !bool_decide_eq_true, forallb_forall. split.
  - intros [[? ?] Hf]. split_and!; [done..|]. intros n t Hn. apply (Hf (n, t)). by apply list_elem_of_In.
  - intros (? & ? & Hf). split; [done|]. intros [n t] Hn%list_elem_of_In. by apply (Hf n).
Qed.

Lemma wfb_child ns n t : wfb (Node ns) = true → child n ns = Some t → wfb t = true.
Proof. intros (_ & _ & Hf)%wfb_node Hc%child_elem. eauto. Qed.

Lemma put_child_names n t ns : n ∈ ns.*1 → (put_child n t ns).*1 = ns.*1.
Proof.
  induction ns as [|[m u] ns IH]; simpl; [by intros ?%elem_of_nil|].
  intros [->|Hn]%elem_of_cons; [by rewrite decide_True|].
  case_decide; rewrite fmap_cons; [by subst|]. by rewrite IH.
Qed.

Lemma put_child_elem n t ns m u : (m, u) ∈ put_child n t ns → u = t ∨ (m, u) ∈ ns.
Proof.
  induction ns as [|[x y] ns IH]; simpl.
  - intros [[= -> ->]|?]%elem_of_cons; auto.
  - case_decide; intros [E|?]%elem_of_cons; [injection E; auto|right; by right|right; rewrite E; left|].
    destruct IH; [done|auto|right; by right].
Qed.

Lemma filter_names n (ns : list (list Z * tree)) : (filter (λ e, e.1 ≠ n) ns).*1 = filter (λ m, m ≠ n) ns.*1.
Proof.
  induction ns as [|[m u] ns IH]; [done|]. rewrite fmap_cons. destruct (decide (m = n)).
  - rewrite !filter_cons_False by naive_solver. done.
  - rewrite !filter_cons_True by naive_solver. rewrite fmap_cons. by f_equal.
Qed.

Lemma Forall_filter_proper n l : Forall proper l → Forall proper (filter (λ m, m ≠ n) l).
Proof. rewrite !Forall_forall. intros Hl m [_ Hm]%list_elem_of_filter. auto. Qed.

Lemma wfb_remove l v t :
  (∀ u, v = Some u → wfb u = true) → put_at l None v = Some t → wfb t = true.
Proof.
  revert v t. induction l as [|n l IH]; intros v t Hv; simpl; [done|].
  destruct v as [[x|ns]|]; [naive_solver| |done]. intros [= <-]. pose proof (Hv _ eq_refl) as Hw.
  destruct (child n ns) as [c|] eqn:Ec.
  - pose proof (wfb_child _ _ _ Hw Ec) as Hc. apply wfb_node in Hw as (Hnd & Hp & Hf).
    destruct (put_at l None (Some c)) as [c'|] eqn:E; apply wfb_node.
    + assert (wfb c' = true) as Hc' by (apply (IH (Some c) c'); [naive_solver|done]).
      simpl. rewrite put_child_names by (by eapply child_names). split_and!; [done..|].
      intros m u [->|Hm]%put_child_elem; [done|by eapply Hf].
    + simpl. rewrite filter_names. split_and!; [by apply NoDup_filter|by apply Forall_filter_proper|].
      intros m u [_ Hm]%list_elem_of_filter. by eapply Hf.
  - apply wfb_node in Hw as (Hnd & Hp & Hf). assert (put_at l None (None : option tree) = None) as -> by (by destruct l).
    apply wfb_node. simpl. rewrite filter_names. split_and!; [by apply NoDup_filter|by apply Forall_filter_proper|].
    intros m u [_ Hm]%list_elem_of_filter. by eapply Hf.
Qed.

Definition tiny_view (k : tiny) (p : path) : option tree := tree_at (comps p) (Some (root k)).

(** Remove what is at [l], if it satisfies [ok] and the system lets it. *)
Definition tiny_remove (ok : tree → bool) (k : tiny) (p : path) : bool * tiny :=
  match tree_at (comps p) (Some (root k)) with
  | Some t =>
    if ok t && bool_decide (comps p ∉ fixed k) then
      match put_at (comps p) None (Some (root k)) with
      | Some t' => match bool_dec (wfb t') true with
                   | left Hw => (true, mkTiny t' Hw (fixed k))
                   | right _ => (false, k)
                   end
      | None => (false, k)
      end
    else (false, k)
  | None => (false, k)
  end.

Definition is_leaf (t : tree) : bool := match t with Leaf _ => true | Node _ => false end.
Definition is_empty (t : tree) : bool := match t with Node [] => true | _ => false end.

#[export] Instance tiny_fs : FileSystem tiny := {
  fs_access k p := bool_decide (is_Some (tiny_view k p));
  fs_lstat k p := (λ t, d_type t * 4096 + 493) <$> tiny_view k p;
  fs_readdir k p :=
    match tiny_view k p with
    | Some (Node ns) => Some ((text ".", DT_DIR) :: (text "..", DT_DIR) :: ((λ e, (e.1, d_type e.2)) <$> ns))
    | _ => None
    end;
  fs_mkdir k p := (false, k);
  fs_unlink := tiny_remove is_leaf;
  fs_rmdir := tiny_remove is_empty;
  fs_rename k _ _ := (false, k);
  fs_symlink k _ _ := (false, k);
  fs_realpath k p := None;
  fs_getline k p := None;
  fs_read k p := false;
  fs_write k p := (false, k);
  fs_kill k pid := false
}.

Lemma wfb_at l v t : (∀ u, v = Some u → wfb u = true) → tree_at l v = Some t → wfb t = true.
Proof.
  revert v. induction l as [|n l IH]; intros v Hv; simpl; [apply Hv|].
  destruct v as [[x|ns]|]; try done. apply IH. intros u Hu. eapply wfb_child; [by apply Hv|done].
Qed.

Lemma tiny_view_wf k p t : tiny_view k p = Some t → wfb t = true.
Proof. apply wfb_at. intros u [= <-]. apply root_wf. Qed.

Lemma tree_at_put_app a l x v t :
  tree_at (a ++ l) v = Some t → tree_at a (put_at (a ++ l) x v) = put_at l x (tree_at a v).
Proof.
  revert v. induction a as [|n a IH]; intros v; simpl; [done|].
  destruct v as [[?|ns]|]; try done. intros E. rewrite child_set, decide_True by done. by apply IH.
Qed.

Lemma tree_at_app a l v : tree_at (a ++ l) v = tree_at l (tree_at a v).
Proof.
  revert v. induction a as [|n a IH]; intros v; simpl; [done|].
  destruct v as [[?|ns]|]; [by destruct l|apply IH|by destruct l].
Qed.

Lemma tiny_remove_view ok k k' b l t r :
  tiny_remove ok k (join b l) = (r, k') → Forall proper l → tree_at l (tiny_view k b) = Some t →
  if r : bool then ok t = true ∧ tiny_view k' b = put_at l None (tiny_view k b)
  else tiny_view k' b = tiny_view k b.
Proof.
  unfold tiny_remove, tiny_view. intros E Hl Hat. rewrite (comps_join l b Hl) in E.
  rewrite <-tree_at_app in Hat. rewrite Hat in E.
  destruct (ok t && bool_decide (comps b ++ l ∉ fixed k)) eqn:Eok; [|by injection E as <- <-].
  destruct (put_at (comps b ++ l) None (Some (root k))) as [t'|] eqn:Ep; [|by injection E as <- <-].
  destruct (bool_dec (wfb t') true); injection E as <- <-; [|done].
  apply andb_true_iff in Eok as [? _]. split; [done|]. cbn [root].
  rewrite <-Ep. by eapply tree_at_put_app.
Qed.

#[export] Instance tiny_laws : FsLaws tiny tiny_view.
Proof.
  split.
  - intros k p. cbn. destruct (tiny_view k p) as [[[]|ns]|]; done.
  - intros k p ns Hv. apply tiny_view_wf, wfb_node in Hv. naive_solver.
  - intros k p ns n Hv Hn. unfold tiny_view in *. by rewrite comps_sub, tree_at_snoc, Hv.
  - intros k p es. cbn. destruct (tiny_view k p) as [[|ns]|] eqn:Hv; try done. intros [= <-].
    exists ns. split; [done|]. apply tiny_view_wf, wfb_node in Hv as (_ & Hp & _).
    rewrite !fmap_cons, !filter_cons_False by done. rewrite <-list_fmap_compose.
    change (filter (λ n, is_dots n = false) ns.*1 ≡ₚ ns.*1).
    induction Hp as [|n l Hn _ IH]; [done|]. rewrite filter_cons_True by apply Hn. by constructor.
  - intros k k' b l t ok E Hl Hat. pose proof (tiny_remove_view _ _ _ _ _ _ _ E Hl Hat) as Hr.
    destruct ok; [|done]. destruct Hr as [Ht ?]. split; [|done]. destruct t; [eauto|done].
  - intros k k' b l t ok E Hl Hat. pose proof (tiny_remove_view _ _ _ _ _ _ _ E Hl Hat) as Hr.
    destruct ok; [|done]. destruct Hr as [Ht ?]. split; [|done]. by destruct t as [|[]].
Qed.

(** Files of a program: /w holds a configuration, a socket and a directory. *)
Definition files : tree := Node [(text "w", Node [
  (text "a.yml", Leaf Reg); (text "run", Node [(text "pid", Leaf Reg)]); (text "b.txt", Leaf Reg)])].

Definition disk : tiny := mkTiny files eq_refl [].

(** Removing works, and one file the system keeps makes it fail, though it is not
    the last one of its directory. *)
Lemma Rm_exact_witness :
  ∃ r k', Rm 5 disk (text "/w") = Ok (r, k') ∧ (r = true ↔ tiny_view k' (text "/w") = None).
Proof.
  destruct (Rm_exact tiny_view 5 disk (text "/w") (Node [
    (text "a.yml", Leaf Reg); (text "run", Node [(text "pid", Leaf Reg)]); (text "b.txt", Leaf Reg)]))
    as (r & k' & E & Hr & _); [reflexivity|simpl; lia|]. exists r, k'. split; [exact E|exact Hr].
Defined.

Example rm_kept :
  ∃ k', Rm 5 (mkTiny files eq_refl [[text "w"; text "a.yml"]]) (text "/w") = Ok (false, k') ∧
    tiny_view k' (text "/w") = Some (Node [(text "a.yml", Leaf Reg)]).
Proof. eexists. split; vm_compute; reflexivity. Qed.

Example rm_all : ∃ k', Rm 5 disk (text "/w") = Ok (true, k') ∧ root k' = Node [].
Proof. eexists. split; vm_compute; reflexivity. Qed.

(** A Unix socket in a directory cannot be removed. *)
Example rm_socket :
  ∃ k', Rm 5 (mkTiny (Node [(text "s", Leaf Sock)]) eq_refl []) (text "/s") = Ok (false, k').
Proof. eexists. vm_compute. reflexivity. Qed.

Lemma tiny_listable k : listable tiny_view k.
Proof.
  intros p ns Hv. unfold fs_access, fs_readdir, tiny_fs. rewrite Hv. split; [reflexivity|]. eexists. split; [done|].
  pose proof (tiny_view_wf _ _ _ Hv) as (Hnd & Hp & _)%wfb_node. rewrite Forall_forall in Hp.
  intros n dt [[= -> ->]|[[= -> ->]|Hn]%elem_of_cons]%elem_of_cons; [done|done|].
  apply list_elem_of_fmap in Hn as ([m t] & [= -> ->] & Hm).
  assert (m ∈ ns.*1) as Hm' by (apply list_elem_of_fmap; by exists (m, t)).
  destruct (Hp m Hm') as (_ & _ & ->). exists t. split; [|done].
  clear -Hnd Hm. induction ns as [|[x y] ns IH]; [by apply elem_of_nil in Hm|].
  rewrite fmap_cons in Hnd. apply NoDup_cons in Hnd as [Hx Hnd]. simpl.
  apply elem_of_cons in Hm as [[= -> ->]|Hm]; [by rewrite decide_True|].
  rewrite decide_False; [auto|]. intros ->. apply Hx, list_elem_of_fmap. by exists (x, t).
Qed.

Lemma ListAllFile_exact_witness :
  ∃ new, ListAllFile 5 disk (text ".yml") [] (text "/w") = Ok ([] ++ new) ∧ NoDup new.
Proof.
  destruct (ListAllFile_exact tiny_view 5 disk (text ".yml") (text "/w") [
    (text "a.yml", Leaf Reg); (text "run", Node [(text "pid", Leaf Reg)]); (text "b.txt", Leaf Reg)] [])
    as (new & E & Hn & _); [apply tiny_listable|reflexivity|simpl; lia|].
  exists new. split; [exact E|exact Hn].
Defined.

Example list_yml : ListAllFile 5 disk (text ".yml") [] (text "/w") = Ok [text "/w/a.yml"].
Proof. vm_compute. reflexivity. Qed.

(** A system that only has directories. *)
Definition dirs : Type := list path.

#[export] Instance dirs_fs : FileSystem dirs := {
  fs_access k p := bool_decide (p ∈ k);
  fs_lstat k p := if bool_decide (p ∈ k) then Some S_IFDIR else None;
  fs_readdir k p := None;
  fs_mkdir k p := if bool_decide (p = text "/x") then (false, k) else (true, p :: k);
  fs_unlink k p := (false, k);
  fs_rmdir k p := (false, k);
  fs_rename k _ _ := (false, k);
  fs_symlink k _ _ := (false, k);
  fs_realpath k p := None;
  fs_getline k p := None;
  fs_read k p := false;
  fs_write k p := (false, k);
  fs_kill k pid := false
}.

Lemma Mkdir_makes_witness :
  ∃ ok k', Mkdir ([] : dirs) (text "/a/b") = Ok (ok, k') ∧ (ok = true → bool_decide (text "/a/b" ∈ k') = true).
Proof.
  destruct (Mkdir_makes (K := dirs) [] (text "/a/b")) as (_ & _ & H).
  - intros k k' p ok. unfold fs_mkdir, fs_access, dirs_fs. case_bool_decide; intros [= <- <-]; [done|].
    split; [intros _; apply bool_decide_eq_true; left|]. intros q. rewrite !bool_decide_eq_true. by right.
  - destruct H as (ok & k' & E & H1 & _); [reflexivity|done|]. exists ok, k'. split; [exact E|]. intros Hok. apply (H1 Hok).
Defined.

Example mkdir_chain : Mkdir ([] : dirs) (text "/a/b") = Ok (true, [text "/a/b"; text "/a"]).
Proof. vm_compute. reflexivity. Qed.

End TinyFs.
