(* ===== verification/Util.v ===== *)
(** The remaining functions of sylar/util.cc (time, stack traces, conversions of
    text) and the JSON helpers of sylar/util/json_util.cc. Values of JSON belong
    to the library jsoncpp and are an interface. *)

From Stdlib Require Import ZArith Lia.
From stdpp Require Import base numbers option strings pretty tactics list_numbers list.
From S2P Require Import Prelude StdSet Text.

Local Open Scope Z_scope.

(** ** Time and stack traces *)

(** [gettimeofday] gives seconds and microseconds. *)
Definition GetCurretMS (tv_sec tv_usec : Z) : Z := u64 (tv_sec * 1000 + tv_usec / 1000).

Definition GetCurretUS (tv_sec tv_usec : Z) : Z := u64 (s64 (tv_sec * 1000) * 1000 + tv_usec).

(** The text has to fit into [buf] with its end; otherwise [strftime] leaves the
    array undefined. *)
Definition Time2Str (strftime : list Z → Z → list Z) (ts : Z) (format : list Z) : outcome (list Z) :=
  let buf := strftime (c_str format) ts in
  if decide (length buf < 64)%nat then Ok buf else Stuck.

(** [frames] are the symbols of the stack, none when [backtrace_symbols] fails;
    a negative [skip] is a large one. *)
Definition Backtrace (frames : option (list (list Z))) (bt : list (list Z)) (size skip : Z) : list (list Z) :=
  match frames with
  | None => bt
  | Some strings => bt ++ (if decide (0 <= skip) then drop (Z.to_nat skip) (take (Z.to_nat size) strings) else [])
  end.

Definition BacktraceToString (frames : option (list (list Z))) (size skip : Z) (prefix : list Z) : list Z :=
  concat ((λ s, prefix ++ s ++ [10]) <$> Backtrace frames [] size skip).

(** ** [TypeUtil] *)

(** [strtoull] in base 10: too large a number gives the largest one, a minus sign
    negates modulo 2^64. *)
Definition strtoull (s : list Z) : Z :=
  let cap n := if decide (2 ^ 64 <= n) then None else Some n in
  match skip_space s with
  | 45 :: s => match cap (digits 0 s) with Some n => u64 (- n) | None => 2 ^ 64 - 1 end
  | 43 :: s => default (2 ^ 64 - 1) (cap (digits 0 s))
  | s => default (2 ^ 64 - 1) (cap (digits 0 s))
  end.

Definition ToChar (str : list Z) : Z :=
  match str with
  | [] => 0
  | c :: _ => swrap 8 c
  end.

Definition Atoi (str : list Z) : Z :=
  match str with
  | [] => 0
  | _ => s64 (strtoull (c_str str))
  end.

Definition Atof {F : Type} (zero : F) (atof : list Z → F) (str : list Z) : F :=
  match str with
  | [] => zero
  | _ => atof (c_str str)
  end.

(** The versions for a [const char*], which may be null: the text up to its
    terminator. *)
Definition ToChar_ptr (str : option (list Z)) : Z :=
  match str with None => 0 | Some s => swrap 8 (default 0 (head (c_str s))) end.

Definition Atoi_ptr (str : option (list Z)) : Z :=
  match str with None => 0 | Some s => s64 (strtoull (c_str s)) end.

Definition Atof_ptr {F : Type} (zero : F) (atof : list Z → F) (str : option (list Z)) : F :=
  match str with None => zero | Some s => atof (c_str s) end.

(** ** JSON *)

(** The characters with an escape of their own, and its second character. *)
Definition escape_of (c : Z) : option Z :=
  if decide (c = 12) then Some 102
  else if decide (c = 9) then Some 116
  else if decide (c = 13) then Some 114
  else if decide (c = 10) then Some 110
  else if decide (c = 8) then Some 98
  else if decide (c = 34) then Some 34
  else if decide (c = 92) then Some 92
  else None.

Fixpoint NeedEscape (v : list Z) : bool :=
  match v with
  | [] => false
  | c :: v => match escape_of c with Some _ => true | None => NeedEscape v end
  end.

(** The first loop of [Escape]. *)
Fixpoint escape_size (size : nat) (v : list Z) : nat :=
  match v with
  | [] => size
  | c :: v => escape_size (match escape_of c with Some _ => size + 2 | None => size + 1 end) v
  end.

(** Its second loop, which appends to [rt]. *)
Fixpoint escape_append (rt v : list Z) : list Z :=
  match v with
  | [] => rt
  | c :: v => escape_append (rt ++ match escape_of c with Some e => [92; e] | None => [c] end) v
  end.

Definition Escape (v : list Z) : list Z :=
  let size := escape_size 0 v in
  if decide (size = length v) then v else escape_append (replicate size 0) v.

(** [Json::Value], as far as the helpers look at it: [isMember] throws for a
    value that is no object. *)
Class JsonValue (J F : Type) : Type := {
  isMember : J → list Z → outcome bool;
  member : J → list Z → J;
  isString : J → bool;
  asString : J → list Z;
  isDouble : J → bool;
  asDouble : J → F;
  isInt : J → bool;
  asInt : J → Z;
  isUInt : J → bool;
  asUInt : J → Z;
  isInt64 : J → bool;
  asInt64 : J → Z;
  isUInt64 : J → bool;
  asUInt64 : J → Z
}.

Section json.
Context {J F : Type} `{JsonValue J F}.

(** What the helpers have in common: the member's value if it is of the type, the
    number in a text, and the default otherwise. *)
Definition get_number {T} (test : J → bool) (as_ : J → T) (of_text : list Z → T)
    (json : J) (name : list Z) (default_value : T) : outcome T :=
  found ← isMember json name;
  if found : bool then
    let v := member json name in
    Ok (if test v then as_ v else if isString v then of_text (asString v) else default_value)
  else Ok default_value.

Definition GetString (json : J) (name default_value : list Z) : outcome (list Z) :=
  found ← isMember json name;
  if found : bool then
    let v := member json name in
    Ok (if isString v then asString v else default_value)
  else Ok default_value.

Definition GetDouble (zero : F) (atof : list Z → F) : J → list Z → F → outcome F :=
  get_number isDouble asDouble (Atof zero atof).

Definition GetInt32 : J → list Z → Z → outcome Z := get_number isInt asInt (λ s, s32 (Atoi s)).
Definition GetUint32 : J → list Z → Z → outcome Z := get_number isUInt asUInt (λ s, u32 (Atoi s)).
Definition GetInt64 : J → list Z → Z → outcome Z := get_number isInt64 asInt64 Atoi.
Definition GetUint64 : J → list Z → Z → outcome Z := get_number isUInt64 asUInt64 (λ s, u64 (Atoi s)).

End json.

(** ** Properties *)

(** Milliseconds are the microseconds without their last three digits. *)
Lemma GetCurretMS_US sec usec :
  0 <= sec < 2 ^ 40 → 0 <= usec < 1000000 → GetCurretMS sec usec = GetCurretUS sec usec / 1000.
Proof.
  intros Hs Hu. unfold GetCurretMS, GetCurretUS.
  assert (usec / 1000 < 1000) by (apply Z.div_lt_upper_bound; lia).
  assert (0 <= usec / 1000) by (apply Z.div_pos; lia).
  rewrite (swrap_small 64) by (unfold in_signed; lia).
  rewrite !uwrap_small by (unfold in_unsigned; lia).
  replace (sec * 1000 * 1000 + usec) with (usec + (sec * 1000) * 1000) by lia. rewrite Z.div_add by lia. lia.
Qed.

Lemma c_str_dec n : c_str (dec n) = dec n.
Proof.
  apply c_str_id. destruct (Z.neg_nonneg_cases n) as [Hn|Hn].
  - destruct n as [|p|p]; [lia..|]. assert (dec (Z.neg p) = 45 :: dec (Z.pos p)) as -> by exact (text_cons _ _).
    constructor; [done|]. eapply Forall_impl; [apply dec_digits; lia|].
    intros c Hc%bool_decide_eq_true. lia.
  - eapply Forall_impl; [by apply dec_digits|]. intros c Hc%bool_decide_eq_true. lia.
Qed.

Lemma strtoull_digits s :
  s ≠ [] → Forall (λ c, is_digit c = true) s →
  strtoull s = if decide (2 ^ 64 <= digits 0 s) then 2 ^ 64 - 1 else digits 0 s.
Proof.
  intros Hs Hd. destruct s as [|c s]; [done|]. apply Forall_cons in Hd as [Hc _].
  apply bool_decide_eq_true in Hc. unfold strtoull. cbn [skip_space].
  replace (is_space c) with false by (symmetry; apply bool_decide_eq_false; lia).
  assert (c = 48 ∨ c = 49 ∨ c = 50 ∨ c = 51 ∨ c = 52 ∨ c = 53 ∨ c = 54 ∨ c = 55 ∨ c = 56 ∨ c = 57) as Hcase by lia.
  destruct_or!; subst c; by case_decide.
Qed.

Lemma digits_of_dec n : 0 <= n → digits 0 (dec n) = n.
Proof. intros Hn. pose proof (digits_dec n [] Hn I) as E. by rewrite app_nil_r in E. Qed.

(** [Atoi] reads every 64-bit number as it is printed, into a signed one; a
    larger one gives -1. *)
Lemma Atoi_dec n :
  (- 2 ^ 63 <= n < 2 ^ 64 → Atoi (dec n) = s64 n) ∧ (2 ^ 64 <= n → Atoi (dec n) = -1).
Proof.
  assert (dec n ≠ [] → Atoi (dec n) = s64 (strtoull (dec n))) as Hne.
  { intros Hd. unfold Atoi. rewrite c_str_dec. by destruct (dec n). }
  split.
  - intros Hn. destruct (Z.neg_nonneg_cases n) as [Hneg|Hpos].
    + destruct n as [|p|p]; [lia..|].
      assert (dec (Z.neg p) = 45 :: dec (Z.pos p)) as E by exact (text_cons _ _).
      rewrite Hne by (by rewrite E). rewrite E. unfold strtoull. cbn [skip_space].
      replace (is_space 45) with false by done. cbv iota. rewrite digits_of_dec by lia.
      rewrite decide_False by lia. by rewrite swrap_uwrap.
    + rewrite Hne by (by apply dec_nonempty). rewrite strtoull_digits by (by apply dec_nonempty || by apply dec_digits).
      rewrite digits_of_dec by lia. by rewrite decide_False by lia.
  - intros Hn. rewrite Hne by (apply dec_nonempty; lia).
    rewrite strtoull_digits by (apply dec_nonempty || apply dec_digits; lia).
    rewrite digits_of_dec by lia. by rewrite decide_True.
Qed.

(** The escaped text, and reading it back. *)
Definition escaped (v : list Z) : list Z :=
  concat ((λ c, match escape_of c with Some e => [92; e] | None => [c] end) <$> v).

Definition unescape_of (e : Z) : option Z :=
  if decide (e = 102) then Some 12
  else if decide (e = 116) then Some 9
  else if decide (e = 114) then Some 13
  else if decide (e = 110) then Some 10
  else if decide (e = 98) then Some 8
  else if decide (e = 34) then Some 34
  else if decide (e = 92) then Some 92
  else None.

Fixpoint unescape (v : list Z) : option (list Z) :=
  match v with
  | [] => Some []
  | c :: v =>
    if decide (c = 92) then
      match v with
      | [] => None
      | e :: v => c ← unescape_of e; cons c <$> unescape v
      end
    else cons c <$> unescape v
  end.

Lemma escape_size_spec v : ∀ n, escape_size n v = (n + length (escaped v))%nat.
Proof.
  induction v as [|c v IH]; intros n; [simpl; lia|]. cbn [escape_size]. rewrite IH. unfold escaped.
  rewrite fmap_cons. cbn [concat]. rewrite length_app. destruct (escape_of c); simpl; lia.
Qed.

Lemma escape_append_spec v : ∀ rt, escape_append rt v = rt ++ escaped v.
Proof.
  induction v as [|c v IH]; intros rt; [by rewrite app_nil_r|]. cbn [escape_append]. rewrite IH. unfold escaped.
  rewrite fmap_cons. cbn [concat]. by rewrite app_assoc.
Qed.

Lemma escaped_plain v : NeedEscape v = false → escaped v = v.
Proof.
  induction v as [|c v IH]; [done|]. cbn [NeedEscape]. unfold escaped in *. rewrite fmap_cons. cbn [concat].
  destruct (escape_of c); [done|]. intros E. by rewrite IH.
Qed.

Lemma length_escaped v :
  (length v <= length (escaped v))%nat ∧ (NeedEscape v = true → (length v < length (escaped v))%nat).
Proof.
  induction v as [|c v [IH1 IH2]]; [done|]. cbn [NeedEscape]. unfold escaped in *. rewrite fmap_cons. cbn [concat].
  rewrite length_app. destruct (escape_of c); simpl; [lia|]. split; [lia|]. intros E%IH2. lia.
Qed.

Lemma unescape_escaped v : unescape (escaped v) = Some v.
Proof.
  induction v as [|c v IH]; [done|]. unfold escaped in *. rewrite fmap_cons. cbn [concat].
  destruct (escape_of c) as [e|] eqn:E; unfold escape_of in E; repeat case_decide; simplify_eq;
    cbn [app unescape]; [rewrite decide_True by done; simpl; by rewrite IH..|].
  rewrite decide_False by done. by rewrite IH.
Qed.

(** [Escape] returns a text that needs no escape as it is. Every other one it
    returns with all special characters replaced, which read back gives the
    text, but behind as many NUL characters as the escaped text is long. *)
Theorem Escape_exact v :
  (NeedEscape v = false → Escape v = v) ∧
  (NeedEscape v = true → Escape v = replicate (length (escaped v)) 0 ++ escaped v) ∧
  unescape (escaped v) = Some v ∧ (NeedEscape v = false ↔ escaped v = v).
Proof.
  unfold Escape. rewrite escape_size_spec, escape_append_spec, Nat.add_0_l. cbv zeta.
  destruct (length_escaped v) as [_ Hl]. pose proof (unescape_escaped v).
  split_and!; [| |done|].
  - intros E. by rewrite decide_True by (by rewrite escaped_plain).
  - intros E. specialize (Hl E). by rewrite decide_False by lia.
  - split; [apply escaped_plain|]. intros E. destruct (NeedEscape v); [|done]. specialize (Hl eq_refl). rewrite E in Hl. lia.
Qed.

Section json_numbers.
Context {J F : Type} `{JsonValue J F}.

(** A number kept as a text is read like one kept as a number if it fits. *)
Lemma json_text_numbers (json : J) name n d :
  isMember json name = Ok true → isString (member json name) = true → asString (member json name) = dec n →
  (isInt (member json name) = false → in_signed 32 n → GetInt32 json name d = Ok n) ∧
  (isUInt (member json name) = false → in_unsigned 32 n → GetUint32 json name d = Ok n) ∧
  (isInt64 (member json name) = false → in_signed 64 n → GetInt64 json name d = Ok n) ∧
  (isUInt64 (member json name) = false → in_unsigned 64 n → GetUint64 json name d = Ok n).
Proof.
  intros Hm Hs Ha. unfold GetInt32, GetUint32, GetInt64, GetUint64, get_number. rewrite Hm. osimpl.
  rewrite Hs, Ha. unfold in_signed, in_unsigned. split_and!; intros -> Hn; rewrite (proj1 (Atoi_dec n)) by lia.
  - by rewrite (swrap_small 64), swrap_small by (unfold in_signed; lia).
  - by rewrite swrap_small, uwrap_small by (unfold in_signed, in_unsigned; lia).
  - by rewrite swrap_small by (unfold in_signed; lia).
  - rewrite uwrap_swrap by lia. by rewrite uwrap_small by (unfold in_unsigned; lia).
Qed.

End json_numbers.

Example escape_nul : Escape (text "a" ++ [10]) = [0; 0; 0] ++ text "a\n".
Proof. reflexivity. Qed.
