(* ===== verification/StringPiece.v ===== *)
(** String pieces (sylar/stringpiece.h): a pointer into some memory and a length.
    Nothing is checked by the class, so that a piece may reach outside its
    memory; reading there is undefined. *)

From Stdlib Require Import ZArith Lia.
From stdpp Require Import base numbers option strings tactics list_numbers list.
From S2P Require Import Prelude StdSet Text.

Local Open Scope Z_scope.

(** A pointer: the object it points into, none for a null pointer, and its offset
    there. *)
Record pointer : Type := mkPtr {
  object : option (list Z);
  offset : Z
}.

Definition NULL : pointer := mkPtr None 0.

Definition ptr_add (p : pointer) (n : Z) : pointer := mkPtr (object p) (offset p + n).

(** The [n] bytes at [p]; reading no bytes is harmless everywhere. *)
Definition load (p : pointer) (n : Z) : outcome (list Z) :=
  if decide (n = 0) then Ok []
  else
    mem ← deref (object p);
    if decide (0 < n ∧ 0 <= offset p ∧ offset p + n <= Z.of_nat (length mem)) then
      Ok (slice (Z.to_nat (offset p)) (Z.to_nat n) mem)
    else Stuck.

Definition strlen (p : pointer) : outcome Z :=
  mem ← deref (object p);
  if decide (0 <= offset p ∧ 0 ∈ drop (Z.to_nat (offset p)) mem) then
    Ok (Z.of_nat (length (c_str (drop (Z.to_nat (offset p)) mem))))
  else Stuck.

(** The sign of the first difference; the value itself is not specified. *)
Fixpoint bytes_cmp (a b : list Z) : Z :=
  match a, b with
  | x :: a, y :: b => if decide (x < y) then -1 else if decide (y < x) then 1 else bytes_cmp a b
  | _, _ => 0
  end.

Definition memcmp (p q : pointer) (n : Z) : outcome Z :=
  a ← load p n; b ← load q n; Ok (bytes_cmp a b).

(** ** [StringPiece] *)

Record StringPiece : Type := mkPiece {
  ptr_ : pointer;
  length_ : Z
}.

Definition StringPiece_new : StringPiece := mkPiece NULL 0.
Definition StringPiece_cstr (str : pointer) : outcome StringPiece :=
  n ← strlen str; Ok (mkPiece str (s32 n)).
Definition StringPiece_string (str : list Z) : StringPiece :=
  mkPiece (mkPtr (Some (str ++ [0])) 0) (s32 (Z.of_nat (length str))).
Definition StringPiece_range (off : pointer) (len : Z) : StringPiece := mkPiece off len.

Definition data (s : StringPiece) : pointer := ptr_ s.
Definition size (s : StringPiece) : Z := length_ s.
Definition empty_piece (s : StringPiece) : bool := bool_decide (length_ s = 0).
Definition begin_ (s : StringPiece) : pointer := ptr_ s.
Definition end_ (s : StringPiece) : pointer := ptr_add (ptr_ s) (length_ s).

Definition clear_piece (s : StringPiece) : StringPiece := mkPiece NULL 0.
Definition set_range (s : StringPiece) (buffer : pointer) (len : Z) : StringPiece := mkPiece buffer len.
Definition set_cstr (s : StringPiece) (str : pointer) : outcome StringPiece :=
  n ← strlen str; Ok (mkPiece str (s32 n)).

Definition at_ (s : StringPiece) (i : Z) : outcome Z :=
  l ← load (ptr_add (ptr_ s) i) 1; deref (head l).

Definition remove_prefix (s : StringPiece) (n : Z) : StringPiece :=
  mkPiece (ptr_add (ptr_ s) n) (length_ s - n).
Definition remove_suffix (s : StringPiece) (n : Z) : StringPiece := mkPiece (ptr_ s) (length_ s - n).

Definition piece_eq (s x : StringPiece) : outcome bool :=
  if decide (length_ s = length_ x) then
    r ← memcmp (ptr_ s) (ptr_ x) (length_ s); Ok (bool_decide (r = 0))
  else Ok false.

Definition piece_ne (s x : StringPiece) : outcome bool := b ← piece_eq s x; Ok (negb b).

(** The comparison of what both have, which the operators and [compare] share. *)
Definition common (s x : StringPiece) : outcome Z :=
  memcmp (ptr_ s) (ptr_ x) (if decide (length_ s < length_ x) then length_ s else length_ x).

Definition piece_lt (s x : StringPiece) : outcome bool :=
  r ← common s x; Ok (bool_decide (r < 0) || bool_decide (r = 0) && bool_decide (length_ s < length_ x)).
Definition piece_le (s x : StringPiece) : outcome bool :=
  r ← common s x; Ok (bool_decide (r < 0) || bool_decide (r = 0) && bool_decide (length_ s <= length_ x)).
Definition piece_ge (s x : StringPiece) : outcome bool :=
  r ← common s x; Ok (bool_decide (r > 0) || bool_decide (r = 0) && bool_decide (length_ s >= length_ x)).
Definition piece_gt (s x : StringPiece) : outcome bool :=
  r ← common s x; Ok (bool_decide (r > 0) || bool_decide (r = 0) && bool_decide (length_ s > length_ x)).

Definition compare (s x : StringPiece) : outcome Z :=
  r ← common s x;
  Ok (if decide (r = 0) then
        if decide (length_ s < length_ x) then -1 else if decide (length_ s > length_ x) then 1 else r
      else r).

(** [std::string(ptr, n)] and [assign], which throw for a length that is
    negative as a [size_t]. *)
Definition as_string (s : StringPiece) : outcome (list Z) :=
  if decide (length_ s < 0) then Throw (logic_error "basic_string") else load (ptr_ s) (length_ s).

Definition CopyToString (s : StringPiece) : outcome (list Z) := as_string s.

Definition starts_with (s x : StringPiece) : outcome bool :=
  if decide (length_ s >= length_ x) then
    r ← memcmp (ptr_ s) (ptr_ x) (length_ x); Ok (bool_decide (r = 0))
  else Ok false.

(** ** Pieces that stay inside their memory *)

(** [s] holds the bytes [l]. *)
Definition holds (s : StringPiece) (l : list Z) : Prop :=
  length_ s = Z.of_nat (length l) ∧ load (ptr_ s) (length_ s) = Ok l.

Lemma load_take p n m l :
  load p n = Ok l → 0 <= m <= n → load p m = Ok (take (Z.to_nat m) l).
Proof.
  unfold load. intros E Hm. case_decide as Hn; [injection E as <-; rewrite decide_True by lia; by rewrite take_nil|].
  destruct (decide (m = 0)) as [->|Hm0]; [done|].
  destruct (object p) as [mem|]; [|done]. osimpl in E. osimpl. case_decide as Hr; [|done]. injection E as <-.
  rewrite decide_True by lia. f_equal. unfold slice. rewrite take_take. f_equal. lia.
Qed.

Lemma load_drop p n m l :
  load p n = Ok l → 0 <= m <= n → load (ptr_add p m) (n - m) = Ok (drop (Z.to_nat m) l).
Proof.
  unfold load, ptr_add. intros E Hm. cbn [object offset]. case_decide as Hn.
  { injection E as <-. rewrite decide_True by lia. by rewrite drop_nil. }
  destruct (object p) as [mem|]; [|done]. osimpl in E. osimpl. case_decide as Hr; [|done]. injection E as <-.
  destruct (decide (n - m = 0)) as [Hz|Hz].
  - f_equal. symmetry. apply length_zero_iff_nil. unfold slice. rewrite length_drop, length_take, length_drop. lia.
  - rewrite decide_True by lia. f_equal. unfold slice. rewrite skipn_firstn_comm, drop_drop. f_equal; [lia|]. f_equal. lia.
Qed.

Lemma bytes_cmp_spec a : ∀ b, length a = length b →
  (bytes_cmp a b < 0 ↔ bytes_lt a b = true) ∧ (bytes_cmp a b > 0 ↔ bytes_lt b a = true) ∧
  (bytes_cmp a b = 0 ↔ a = b).
Proof.
  induction a as [|x a IH]; intros [|y b] Hl; try done.
  cbn [bytes_cmp bytes_lt]. injection Hl as Hl. destruct (IH b Hl) as (H1 & H2 & H3).
  repeat case_decide; try lia.
  - split_and!; split; try done; try lia. intros [= -> ->]. lia.
  - split_and!; split; try done; try lia. intros [= -> ->]. lia.
  - assert (x = y) as -> by lia. split_and!; [done|done|]. rewrite H3. naive_solver.
Qed.

(** The order of two texts, by their common part and their lengths. *)
Lemma bytes_lt_prefix a b n :
  (n <= length a)%nat → (n <= length b)%nat → (n = length a ∨ n = length b)%nat →
  bytes_lt a b = true ↔
  bytes_lt (take n a) (take n b) = true ∨ (take n a = take n b ∧ (length a < length b)%nat).
Proof.
  revert a b. induction n as [|n IH]; intros a b Ha Hb Hn.
  { rewrite !take_0. destruct a as [|x a], b as [|y b]; cbn [bytes_lt length] in *; (split; [intros|intros [?|[_ ?]]]); try done; try lia.
    right. split; [done|lia]. }
  destruct a as [|x a], b as [|y b]; simpl in Ha, Hb; try lia. cbn [take bytes_lt length].
  repeat case_decide; try lia.
  - split; [done|]. intros [?|[[= -> _] _]]; [done|lia].
  - assert (x = y) as -> by lia. rewrite IH by (simpl in Hn; lia). rewrite <-Nat.succ_lt_mono.
    split; intros [?|[E ?]]; auto; right; (split; [congruence|done]).
Qed.

Section pieces.
Context (s x : StringPiece) (a b : list Z).
Hypothesis (Hs : holds s a) (Hx : holds x b).

Lemma common_ok :
  let n := Nat.min (length a) (length b) in common s x = Ok (bytes_cmp (take n a) (take n b)).
Proof.
  destruct Hs as [Hla Ha], Hx as [Hlb Hb]. unfold common, memcmp. cbv zeta.
  set (m := if decide (length_ s < length_ x) then length_ s else length_ x).
  assert (m = Z.of_nat (Nat.min (length a) (length b))) as Em by (unfold m; case_decide; lia).
  rewrite (load_take _ _ m _ Ha), (load_take _ _ m _ Hb) by lia. osimpl. by rewrite Em, Nat2Z.id.
Qed.

Lemma piece_order :
  ∃ r, common s x = Ok r ∧
    (r < 0 ∨ (r = 0 ∧ length_ s < length_ x) ↔ bytes_lt a b = true) ∧
    (r > 0 ∨ (r = 0 ∧ length_ s > length_ x) ↔ bytes_lt b a = true) ∧
    (r = 0 ∧ length_ s = length_ x ↔ a = b).
Proof.
  set (n := Nat.min (length a) (length b)). exists (bytes_cmp (take n a) (take n b)). split; [apply common_ok|].
  destruct (bytes_cmp_spec (take n a) (take n b)) as (H1 & H2 & H3); [rewrite !length_take; lia|].
  destruct Hs as [-> _], Hx as [-> _].
  rewrite (bytes_lt_prefix a b n), (bytes_lt_prefix b a n), H1, H2, H3 by lia.
  split_and!.
  - split; (intros [?|[? ?]]; [by left|right; split; [done|lia]]).
  - split; (intros [?|[? ?]]; [by left|right; split; [done|lia]]).
  - split; [intros [E Hl]|by intros ->]. by rewrite <-(take_ge a n), <-(take_ge b n) by lia.
Qed.

Lemma piece_eq_ok : piece_eq s x = Ok (bool_decide (a = b)).
Proof.
  destruct Hs as [Hla Ha], Hx as [Hlb Hb]. unfold piece_eq, memcmp. case_decide as E.
  - rewrite Ha, E, Hb. osimpl. f_equal. apply Bool.eq_iff_eq_true. rewrite !bool_decide_eq_true.
    apply bytes_cmp_spec. lia.
  - symmetry. f_equal. apply bool_decide_eq_false. intros ->. lia.
Qed.

Lemma starts_with_ok : starts_with s x = Ok (bool_decide (b `prefix_of` a)).
Proof.
  destruct Hs as [Hla Ha], Hx as [Hlb Hb]. unfold starts_with, memcmp. case_decide as E.
  - rewrite (load_take _ _ (length_ x) _ Ha), Hb by lia. osimpl. f_equal. apply Bool.eq_iff_eq_true.
    rewrite !bool_decide_eq_true, Hlb, Nat2Z.id.
    destruct (bytes_cmp_spec (take (length b) a) b) as (_ & _ & ->); [rewrite length_take; lia|]. split.
    + intros <-. apply prefix_take.
    + intros [c ->]. by rewrite take_app_length.
  - symmetry. f_equal. apply bool_decide_eq_false. intros [c ->]. rewrite length_app in Hla. lia.
Qed.

Local Ltac brute := rewrite orb_true_iff, andb_true_iff, !bool_decide_eq_true; lia.

(** C37. The comparison of pieces is the lexicographic order of unsigned bytes: for
    pieces inside their memory every operator and [compare] return what the order
    of their bytes says, and [starts_with] whether the one begins with the
    other. *)
Theorem stringpiece_order :
  piece_eq s x = Ok (bool_decide (a = b)) ∧ piece_ne s x = Ok (negb (bool_decide (a = b))) ∧
  piece_lt s x = Ok (bytes_lt a b) ∧ piece_le s x = Ok (negb (bytes_lt b a)) ∧
  piece_ge s x = Ok (negb (bytes_lt a b)) ∧ piece_gt s x = Ok (bytes_lt b a) ∧
  (∃ c, compare s x = Ok c ∧ (c < 0 ↔ bytes_lt a b = true) ∧ (c = 0 ↔ a = b) ∧ (c > 0 ↔ bytes_lt b a = true)) ∧
  starts_with s x = Ok (bool_decide (b `prefix_of` a)).
Proof.
  destruct piece_order as (r & Hc & Hlt & Hgt & Heq).
  assert (piece_eq s x = Ok (bool_decide (a = b))) as He by apply piece_eq_ok.
  split_and!.
  - done.
  - unfold piece_ne. by rewrite He.
  - unfold piece_lt. rewrite Hc. osimpl. f_equal. apply Bool.eq_iff_eq_true. rewrite <-Hlt. brute.
  - unfold piece_le. rewrite Hc. osimpl. f_equal. apply Bool.eq_iff_eq_true. rewrite negb_true_iff, <-not_true_iff_false, <-Hgt. brute.
  - unfold piece_ge. rewrite Hc. osimpl. f_equal. apply Bool.eq_iff_eq_true. rewrite negb_true_iff, <-not_true_iff_false, <-Hlt. brute.
  - unfold piece_gt. rewrite Hc. osimpl. f_equal. apply Bool.eq_iff_eq_true. rewrite <-Hgt. brute.
  - unfold compare. rewrite Hc. osimpl. eexists. split; [done|]. rewrite <-Hlt, <-Hgt, <-Heq.
    repeat case_decide; lia.
  - apply starts_with_ok.
Qed.

End pieces.

(** Cutting a piece inside its memory. *)
Lemma holds_remove s l n :
  holds s l → 0 <= n <= length_ s →
  holds (remove_prefix s n) (drop (Z.to_nat n) l) ∧
  holds (remove_suffix s n) (take (length l - Z.to_nat n) l).
Proof.
  intros [Hl Hd] Hn. unfold holds, remove_prefix, remove_suffix. cbn [ptr_ length_]. split; split.
  - rewrite length_drop. lia.
  - by apply load_drop.
  - rewrite length_take. lia.
  - rewrite (load_take _ _ _ _ Hd) by lia. do 2 f_equal. lia.
Qed.

(** The pieces of a text. *)
Lemma holds_string l : Z.of_nat (length l) < 2 ^ 31 → holds (StringPiece_string l) l.
Proof.
  intros Hl. unfold holds, StringPiece_string. cbn [ptr_ length_]. rewrite swrap_small by (unfold in_signed; lia).
  split; [done|]. unfold load. cbn [object offset]. case_decide as E; [by destruct l|]. osimpl.
  rewrite decide_True by (rewrite length_app; simpl; lia). rewrite Nat2Z.id. unfold slice.
  change (drop (Z.to_nat 0) (l ++ [0])) with (l ++ [0]). by rewrite take_app_length.
Qed.

Lemma stringpiece_order_witness :
  piece_lt (StringPiece_string (text "ab")) (StringPiece_string (text "abc")) = Ok true.
Proof.
  destruct (stringpiece_order (StringPiece_string (text "ab")) (StringPiece_string (text "abc")) (text "ab") (text "abc"))
    as (_ & _ & H & _); [split; reflexivity|split; reflexivity|exact H].
Defined.

(** Past its memory a piece cannot be read. *)
Example piece_overrun : as_string (remove_prefix (StringPiece_string (text "ab")) (-1)) = Stuck.
Proof. reflexivity. Qed.
