(* ===== verification/Timestamp.v ===== *)
(** Time stamps (sylar/timestamp.h, sylar/timestamp.cc): microseconds since 1970
    in 64 bits, and their texts. [gmtime_r] is the calendar of the C library,
    which is specified here by how a date follows the one before it. *)

From Stdlib Require Import ZArith Lia.
From stdpp Require Import base numbers option strings pretty tactics list_numbers list.
From S2P Require Import Prelude StdSet Text.

Local Open Scope Z_scope.

(** ** Printing numbers *)

(** [%0wd] and [%wd]. *)
Definition fill (c : Z) (w : nat) (s : list Z) : list Z := replicate (w - length s) c ++ s.

Definition printf0 (w : nat) (n : Z) : list Z :=
  if decide (n < 0) then 45 :: fill 48 (w - 1) (dec (- n)) else fill 48 w (dec n).

Definition printf_ (w : nat) (n : Z) : list Z := fill 32 w (dec n).

(** ** The calendar *)

Record date : Type := mkDate { year : Z; month : Z; day : Z }.

#[export] Instance date_eq_dec : EqDecision date.
Proof. solve_decision. Defined.

(** The date of a day, counted from 1970-01-01: years are taken to begin in
    March, and 400 of them have 146097 days. [split_year] gives the year among
    these and the day in it, [split_month] the month (March is 0) and the day in
    it. *)
Definition split_year (doe : Z) : Z * Z :=
  let c := Z.min (doe / 36524) 3 in
  let r := doe - 36524 * c in
  let y := Z.min (r mod 1461 / 365) 3 in
  (100 * c + 4 * (r / 1461) + y, r mod 1461 - 365 * y).

Definition split_month (doy : Z) : Z * Z :=
  let mp := (5 * doy + 2) / 153 in (mp, doy - (153 * mp + 2) / 5 + 1).

Definition civil_of (y doy : Z) : date :=
  let '(mp, d) := split_month doy in
  if decide (mp < 10) then mkDate y (mp + 3) d else mkDate (y + 1) (mp - 9) d.

Definition civil (z : Z) : date :=
  let '(yoe, doy) := split_year ((z + 719468) mod 146097) in
  civil_of (yoe + 400 * ((z + 719468) / 146097)) doy.

(** [struct tm], as far as it is used. *)
Record tm : Type := mkTm { tm_date : date; tm_hour : Z; tm_min : Z; tm_sec : Z }.

Definition gmtime_r (seconds : Z) : tm :=
  let sod := seconds mod 86400 in
  mkTm (civil (seconds / 86400)) (sod / 3600) (sod mod 3600 / 60) (sod mod 60).

(** ** [Timestamp] *)

Definition kMicroSecondsPerSecond : Z := 1000000.

(** A time stamp is its [m_microSecondSinceEpoch]. *)
Definition Timestamp : Type := Z.

Definition Timestamp_new : Timestamp := 0.
Definition Timestamp_of (microSecondsSinceEpochArg : Z) : Timestamp := microSecondsSinceEpochArg.
Definition swap_stamp (a b : Timestamp) : Timestamp * Timestamp := (b, a).
Definition valid (t : Timestamp) : bool := bool_decide (t > 0).
Definition secondSinceEpoch (t : Timestamp) : Z := Z.quot t kMicroSecondsPerSecond.
Definition now (tv_sec tv_usec : Z) : Timestamp := s64 (tv_sec * kMicroSecondsPerSecond + tv_usec).
Definition invalid : Timestamp := Timestamp_new.
Definition fromUnixTime (t microseconds : Z) : Timestamp := s64 (t * kMicroSecondsPerSecond + microseconds).
Definition stamp_lt (a b : Timestamp) : bool := bool_decide (a < b).
Definition stamp_eq (a b : Timestamp) : bool := bool_decide (a = b).

Definition toString (t : Timestamp) : list Z :=
  dec (Z.quot t kMicroSecondsPerSecond) ++ text "." ++ printf0 6 (Z.rem t kMicroSecondsPerSecond).

Definition toFormattedString (t : Timestamp) (showMicroseconds : bool) : list Z :=
  let x := gmtime_r (Z.quot t kMicroSecondsPerSecond) in
  printf_ 4 (year (tm_date x)) ++ printf0 2 (month (tm_date x)) ++ printf0 2 (day (tm_date x)) ++ text " " ++
  printf0 2 (tm_hour x) ++ text ":" ++ printf0 2 (tm_min x) ++ text ":" ++ printf0 2 (tm_sec x) ++
  (if showMicroseconds then text "." ++ printf0 6 (s32 (Z.rem t kMicroSecondsPerSecond)) else []).

(** Differences; the seconds of [timeDifference] and [addTime] are floating
    point numbers, whose conversions are arguments. *)
Definition timeDifference {F} (of_us : Z → F) (high low : Timestamp) : F := of_us (s64 (high - low)).
Definition addTime {F} (to_us : F → Z) (t : Timestamp) (seconds : F) : Timestamp := s64 (t + to_us seconds).

(** The numbers that [timeDifferenceFormat] prints, and the text, which is cut to
    the 23 characters its buffer holds. *)
Definition diff_fields (high low : Timestamp) : Z * Z * Z * Z :=
  let diff := s64 (high - low) in
  let total_seconds := Z.quot diff kMicroSecondsPerSecond in
  let days := s32 (Z.quot total_seconds (24 * 3600)) in
  let hours := s32 (Z.quot total_seconds 3600) in
  let total_seconds := Z.rem total_seconds 3600 in
  (days, hours, s32 (Z.quot total_seconds 60), s32 (Z.rem total_seconds 60)).

Definition timeDifferenceFormat (high low : Timestamp) : list Z :=
  let '(days, hours, minutes, seconds) := diff_fields high low in
  take 23 (dec days ++ text "days " ++ printf0 2 hours ++ text ":" ++ printf0 2 minutes ++ text ":" ++
    printf0 2 seconds).

(** ** The calendar is the Gregorian one *)

Definition leap (y : Z) : bool :=
  bool_decide (y mod 4 = 0) && (negb (bool_decide (y mod 100 = 0)) || bool_decide (y mod 400 = 0)).

Definition month_length (y m : Z) : Z :=
  if decide (m = 2) then if leap y then 29 else 28
  else if decide (m = 4 ∨ m = 6 ∨ m = 9 ∨ m = 11) then 30 else 31.

Definition next_date (d : date) : date :=
  if decide (day d < month_length (year d) (month d)) then mkDate (year d) (month d) (day d + 1)
  else if decide (month d < 12) then mkDate (year d) (month d + 1) 1
  else mkDate (year d + 1) 1 1.

(** The first day of a March year, and the length of such a year. *)
Definition year_start (y : Z) : Z := 365 * y + y / 4 - y / 100 + y / 400.
Definition year_length (y : Z) : Z := if leap (y + 1) then 366 else 365.

Lemma leap_spec y : leap y = true ↔ y mod 4 = 0 ∧ (y mod 100 ≠ 0 ∨ y mod 400 = 0).
Proof.
  unfold leap. rewrite andb_true_iff, orb_true_iff, negb_true_iff, !bool_decide_eq_true, bool_decide_eq_false. done.
Qed.

Lemma year_step y : year_start (y + 1) = year_start y + year_length y.
Proof.
  unfold year_start, year_length. destruct (leap (y + 1)) eqn:E.
  - apply leap_spec in E. dlia.
  - apply not_true_iff_false in E. rewrite leap_spec in E. dlia.
Qed.

Lemma year_start_mono a b : a <= b → year_start a <= year_start b.
Proof. unfold year_start. intros. dlia. Qed.

Lemma split_unique a b i j :
  year_start a + i = year_start b + j → 0 <= i < year_length a → 0 <= j < year_length b → a = b ∧ i = j.
Proof.
  intros E Hi Hj. destruct (Z.lt_trichotomy a b) as [Hl|[->|Hl]]; [|lia|].
  - pose proof (year_start_mono (a + 1) b). rewrite year_step in *. lia.
  - pose proof (year_start_mono (b + 1) a). rewrite year_step in *. lia.
Qed.

Lemma split_year_ok doe :
  0 <= doe < 146097 →
  let '(yoe, doy) := split_year doe in
  0 <= yoe < 400 ∧ doe = year_start yoe + doy ∧ 0 <= doy < year_length yoe.
Proof.
  intros Hd. unfold split_year. cbv zeta.
  set (c := Z.min (doe / 36524) 3). set (r := doe - 36524 * c).
  assert (0 <= c <= 3) as Hc by (unfold c; dlia).
  assert (0 <= r < 36524 ∨ c = 3 ∧ r = 36524) as Hr by (unfold r, c; dlia).
  set (q := r / 1461). set (m := r mod 1461). set (y := Z.min (m / 365) 3).
  assert (r = 1461 * q + m ∧ 0 <= m < 1461) as [Erm Hm] by (unfold q, m; dlia).
  assert (0 <= q <= 24) as Hq by lia.
  assert (0 <= y <= 3) as Hy by (unfold y; dlia).
  assert (0 <= m - 365 * y < 365 ∨ y = 3 ∧ m - 365 * y = 365) as Hdoy by (unfold y; dlia).
  assert (doe = 36524 * c + r) as Ed by (unfold r; lia). clearbody c r q m y.
  assert ((100 * c + 4 * q + y) / 4 = 25 * c + q) as E4 by dlia.
  assert ((100 * c + 4 * q + y) / 100 = c) as E100 by dlia.
  assert ((100 * c + 4 * q + y) / 400 = 0) as E400 by dlia.
  split; [lia|]. split; [unfold year_start; rewrite E4, E100, E400; lia|].
  unfold year_length. destruct (leap (100 * c + 4 * q + y + 1)) eqn:El; [lia|].
  apply not_true_iff_false in El. rewrite leap_spec in El.
  split; [lia|]. destruct Hdoy as [?|[-> Hl]]; [lia|]. exfalso. apply El.
  split; [dlia|]. destruct (decide (q = 24)) as [->|]; [|left; dlia]. right. dlia.
Qed.

Lemma year_start_era y k : year_start (y + 400 * k) = year_start y + 146097 * k.
Proof. unfold year_start. dlia. Qed.

Lemma leap_era y k : leap (y + 400 * k) = leap y.
Proof. apply Bool.eq_iff_eq_true. rewrite !leap_spec. dlia. Qed.

Lemma civil_split z :
  ∃ y doy, civil z = civil_of y doy ∧ z + 719468 = year_start y + doy ∧ 0 <= doy < year_length y.
Proof.
  unfold civil. pose proof (split_year_ok ((z + 719468) mod 146097)) as H.
  destruct (split_year _) as [yoe doy]. destruct H as (Hy & Ed & Hdoy); [apply Z.mod_pos_bound; lia|].
  eexists _, doy. split; [done|]. rewrite year_start_era. split.
  - rewrite (Z.div_mod (z + 719468) 146097) at 1 by lia. lia.
  - unfold year_length in *. by replace (yoe + 400 * _ + 1) with (yoe + 1 + 400 * ((z + 719468) / 146097)) by lia; rewrite leap_era.
Qed.

(** The months of a year that begins in March. *)
Definition good_doy (doy : Z) : bool :=
  let '(mp, d) := split_month doy in
  let '(mp', d') := split_month (doy + 1) in
  let len := if mp =? 11 then 29 else month_length 1 (if mp <? 10 then mp + 3 else mp - 9) in
  (0 <=? mp) && (mp <=? 11) && (1 <=? d) && (d <=? len) && ((153 * mp + 2) / 5 + d - 1 =? doy) &&
  ((doy =? 365) || (d <? len) && (mp' =? mp) && (d' =? d + 1) || (d =? len) && (mp' =? mp + 1) && (d' =? 1)).

Lemma good_doys : forallb good_doy (seqZ 0 366) = true.
Proof. vm_compute. reflexivity. Qed.

Lemma split_month_ok doy :
  0 <= doy < 366 →
  let '(mp, d) := split_month doy in
  let '(mp', d') := split_month (doy + 1) in
  let len := if mp =? 11 then 29 else month_length 1 (if mp <? 10 then mp + 3 else mp - 9) in
  0 <= mp <= 11 ∧ 1 <= d <= len ∧ (153 * mp + 2) / 5 + d - 1 = doy ∧
  (doy = 365 ∨ d < len ∧ mp' = mp ∧ d' = d + 1 ∨ d = len ∧ mp' = mp + 1 ∧ d' = 1).
Proof.
  intros Hd. pose proof good_doys as Hg. rewrite forallb_forall in Hg.
  assert (good_doy doy = true) as H by (apply Hg, list_elem_of_In, elem_of_seqZ; lia). clear Hg. revert H. unfold good_doy.
  destruct (split_month doy) as [mp d], (split_month (doy + 1)) as [mp' d']. cbv zeta.
  rewrite !andb_true_iff, !orb_true_iff, !andb_true_iff, !Z.leb_le, !Z.eqb_eq, Z.ltb_lt. tauto.
Qed.

Lemma month_length_le y m : month_length y m <= 31.
Proof. unfold month_length. case_decide; [destruct (leap y); lia|]. case_decide; lia. Qed.

Lemma month_length_year y m : m ≠ 2 → month_length y m = month_length 1 m.
Proof. intros Hm. unfold month_length. by rewrite !(decide_False (P := m = 2)) by done. Qed.

Lemma year_length_eq y : year_length y = 337 + month_length (y + 1) 2.
Proof.
  unfold year_length, month_length. rewrite decide_True by done.
  by destruct (leap (y + 1)).
Qed.

(** The day after a day of a March year. *)
Lemma next_in_year y doy :
  0 <= doy < year_length y →
  next_date (civil_of y doy) =
    if decide (doy + 1 < year_length y) then civil_of y (doy + 1) else civil_of (y + 1) 0.
Proof.
  intros Hd. assert (year_length y = 365 ∨ year_length y = 366) as Hlen by (unfold year_length; case_match; lia).
  pose proof (split_month_ok doy ltac:(lia)) as Hs. rewrite year_length_eq in *. unfold civil_of.
  change (split_month 0) with (0, 1). destruct (split_month doy) as [mp d], (split_month (doy + 1)) as [mp' d'].
  destruct Hs as (Hmp & Hday & Edoy & Hnext). unfold next_date.
  destruct (decide (mp = 11)) as [->|Hm11].
  - rewrite Z.eqb_refl in *. change ((153 * 11 + 2) / 5) with 337 in *. rewrite (decide_False (P := 11 < 10)) by lia. cbn [year month day].
    change (11 - 9) with 2. case_decide as Hl; case_decide as Hl'; try lia.
    + destruct Hnext as [->|[(_ & -> & ->)|(-> & _)]]; [lia|by rewrite decide_False by lia|lia].
    + by rewrite (decide_False (P := doy + 1 < _)) by lia.
  - rewrite (proj2 (Z.eqb_neq mp 11)) in * by done.
    assert (∀ m, m <= 10 → (153 * m + 2) / 5 <= 306) as Hb by (intros; dlia). pose proof (Hb mp ltac:(lia)).
    destruct (Z.ltb_spec mp 10) as [Hlt|Hge]; [rewrite (decide_True (P := mp < 10)) by done|rewrite (decide_False (P := mp < 10)) by lia];
      cbn [year month day]; rewrite (month_length_year _ (_ : Z)) by lia.
    + pose proof (month_length_le 1 (mp + 3)).
      destruct Hnext as [->|[(Hl & -> & ->)|(-> & -> & ->)]]; [lia|..].
      * rewrite decide_True by done. rewrite decide_True by lia. by rewrite decide_True by lia.
      * rewrite decide_False by lia. rewrite (decide_True (P := doy + 1 < _)) by lia.
        destruct (decide (mp = 9)) as [->|]; [done|]. rewrite decide_True by lia. rewrite decide_True by lia. f_equal; lia.
    + assert (mp = 10) as -> by lia. assert (month_length 1 (10 - 9) = 31) by done.
      destruct Hnext as [->|[(Hl & -> & ->)|(-> & -> & ->)]]; [lia|..].
      * rewrite decide_True by done. rewrite decide_True by lia. by rewrite decide_False by lia.
      * rewrite decide_False by lia. rewrite (decide_True (P := doy + 1 < _)) by lia. done.
Qed.

(** The calendar: day 0 is 1970-01-01, and each day is followed by the next date
    of the Gregorian calendar. *)
Lemma civil_next z : civil (z + 1) = next_date (civil z).
Proof.
  destruct (civil_split z) as (y & doy & -> & E & Hd). destruct (civil_split (z + 1)) as (y' & doy' & -> & E' & Hd').
  rewrite next_in_year by done. case_decide as Hl.
  - destruct (split_unique y y' (doy + 1) doy') as [-> ->]; [lia..|]. done.
  - destruct (split_unique (y + 1) y' 0 doy') as [-> <-]; [rewrite year_step; lia|..|done].
    + unfold year_length. case_match; lia.
    + done.
Qed.

(** Counting back from a date. *)
Definition days_of (d : date) : Z :=
  let y := if decide (month d <= 2) then year d - 1 else year d in
  let mp := if decide (month d <= 2) then month d + 9 else month d - 3 in
  year_start y + (153 * mp + 2) / 5 + day d - 1 - 719468.

Lemma civil_fields z :
  days_of (civil z) = z ∧ 1 <= month (civil z) <= 12 ∧ 1 <= day (civil z) <= 31 ∧
  (0 <= z < 2932897 → 1000 <= year (civil z) <= 9999).
Proof.
  destruct (civil_split z) as (y & doy & -> & E & Hd).
  assert (year_length y <= 366) by (unfold year_length; case_match; lia).
  pose proof (split_month_ok doy ltac:(lia)) as Hs. unfold civil_of, days_of.
  assert (doy < 306 → (split_month doy).1 < 10) as Hjan by (unfold split_month; simpl; intros; dlia).
  destruct (split_month doy) as [mp d], (split_month (doy + 1)) as [mp' d']. simpl in Hjan.
  destruct Hs as (Hmp & Hday & Edoy & _).
  assert (d <= 31) as Hd31.
  { destruct Hday as [_ Hday]. revert Hday. destruct (mp =? 11); [lia|].
    pose proof (month_length_le 1 (if mp <? 10 then mp + 3 else mp - 9)). lia. }
  assert (0 <= z < 2932897 → 1969 <= y ∧ (y < 9999 ∨ y = 9999 ∧ doy < 306)) as Hy.
  { intros Hz. split; [|destruct (decide (y < 9999)); [by left|right]].
    - destruct (decide (1969 <= y)); [done|]. pose proof (year_start_mono (y + 1) 1969 ltac:(lia)) as Hm.
      rewrite year_step in Hm. change (year_start 1969) with 719162 in Hm. lia.
    - destruct (decide (y = 9999)) as [->|].
      + change (year_start 9999) with 3652059 in E. lia.
      + pose proof (year_start_mono 10000 y ltac:(lia)) as Hm. change (year_start 10000) with 3652425 in Hm. lia. }
  destruct (decide (mp < 10)); cbn [year month day];
    [rewrite !decide_False by lia|rewrite !decide_True by lia]; split_and!; try lia.
  - replace (mp + 3 - 3) with mp by lia. lia.
  - replace (mp - 9 + 9) with mp by lia. replace (y + 1 - 1) with y by lia. lia.
Qed.

(** ** Reading the texts *)

Lemma digits_app_bound s : ∀ a, 0 <= a → Forall (λ c, is_digit c = true) s →
  0 <= digits a s < (a + 1) * 10 ^ Z.of_nat (length s).
Proof.
  induction s as [|c s IH]; intros a Ha Hs; cbn [digits length]; [change (Z.of_nat 0) with 0; lia|].
  apply Forall_cons in Hs as [Hc Hs]. rewrite Hc. apply bool_decide_eq_true in Hc.
  destruct (IH (a * 10 + (c - 48)) ltac:(lia) Hs) as [H1 H2]. split; [done|].
  rewrite Nat2Z.inj_succ, Z.pow_succ_r by lia. nia.
Qed.

Lemma pretty_length k : ∀ n s, (n < 10 ^ N.of_nat k)%N →
  (length (text (pretty_N_go n s)) <= k + length (text s))%nat.
Proof.
  induction k as [|k IH]; intros n s Hn.
  - assert (n = 0%N) as -> by (change (10 ^ N.of_nat 0)%N with 1%N in Hn; lia). by rewrite pretty_N_go_0.
  - destruct (decide (n = 0%N)) as [->|Hz]; [rewrite pretty_N_go_0; lia|].
    rewrite pretty_N_go_step by lia. etrans; [apply IH|rewrite text_cons; simpl; lia].
    rewrite Nat2N.inj_succ, N.pow_succ_r' in Hn. apply N.Div0.div_lt_upper_bound. lia.
Qed.

Lemma length_dec n (k : nat) : (0 < k)%nat → 0 <= n < 10 ^ Z.of_nat k → (length (dec n) <= k)%nat.
Proof.
  intros Hk Hn. unfold dec. destruct n as [|p|p]; [done| |lia].
  change (pretty (Z.pos p)) with (pretty_N_go (N.pos p) "").
  etrans; [apply (pretty_length k)|simpl; lia].
  apply N2Z.inj_lt. rewrite N2Z.inj_pow, nat_N_Z. simpl. lia.
Qed.

(** A number printed with leading zeros. *)
Lemma fill_digits w n :
  0 <= n → Forall (λ c, is_digit c = true) (fill 48 w (dec n)) ∧ atoi (fill 48 w (dec n)) = n.
Proof.
  intros Hn. unfold fill. set (z := replicate _ 48).
  assert (Forall (λ c, is_digit c = true) z) as Hz by (apply Forall_forall; by intros c [-> _]%elem_of_replicate).
  assert (∀ s, digits 0 (z ++ s) = digits 0 s) as Hd.
  { intros s. unfold z. generalize (w - length (dec n))%nat. intros k. by induction k. }
  assert (Forall (λ c, is_digit c = true) (z ++ dec n)) as Hf by (apply Forall_app; split; [done|by apply dec_digits]).
  split; [done|]. rewrite atoi_digits; [|by intros [_ ?%dec_nonempty]%app_nil|done]. rewrite Hd.
  pose proof (digits_dec n [] Hn I) as E. by rewrite app_nil_r in E.
Qed.

Lemma atoi_printf0 w n : atoi (printf0 w n) = n.
Proof.
  unfold printf0. case_decide as Hn; [|apply fill_digits; lia].
  destruct (fill_digits (w - 1) (- n) ltac:(lia)) as [Hd E].
  assert (fill 48 (w - 1) (dec (- n)) ≠ []) as Hne by (intros [_ Hd0]%app_nil; by apply dec_nonempty in Hd0; [|lia]).
  rewrite atoi_digits in E by done. unfold atoi. cbn [skip_space]. replace (is_space 45) with false by done.
  cbv iota. lia.
Qed.

Lemma length_printf0 (w : nat) n : (0 < w)%nat → 0 <= n < 10 ^ Z.of_nat w → length (printf0 w n) = w.
Proof.
  intros Hw Hn. unfold printf0. rewrite decide_False by lia. unfold fill. rewrite length_app, length_replicate.
  pose proof (length_dec n w Hw Hn). lia.
Qed.

Lemma printf_year y : 1000 <= y <= 9999 → printf_ 4 y = dec y ∧ length (dec y) = 4%nat.
Proof.
  intros Hy. assert (length (dec y) = 4%nat) as Hl.
  { pose proof (length_dec y 4 ltac:(lia) ltac:(simpl; lia)). assert (¬ (length (dec y) <= 3)%nat); [|lia]. intros Hs.
    destruct (digits_app_bound (dec y) 0 ltac:(lia) (dec_digits y ltac:(lia))) as [_ Hb].
    pose proof (digits_dec y [] ltac:(lia) I) as E. rewrite app_nil_r in E. rewrite E in Hb.
    assert (10 ^ Z.of_nat (length (dec y)) <= 10 ^ 3) by (apply Z.pow_le_mono_r; lia). lia. }
  split; [|done]. unfold printf_, fill. by rewrite Hl.
Qed.

(** What a reader makes of the two texts. *)
Definition read_stamp (s : list Z) : option Z :=
  i ← find_first (λ c, bool_decide (c = 46)) s;
  Some (atoi (take i s) * 1000000 + atoi (drop (S i) s)).

Definition read_formatted (s : list Z) : Z :=
  let f (i n : Z) := atoi (slice (Z.to_nat i) (Z.to_nat n) s) in
  (((days_of (mkDate (f 0 4) (f 4 2) (f 6 2)) * 24 + f 9 2) * 60 + f 12 2) * 60 + f 15 2) * 1000000 + f 18 6.

Lemma toString_roundtrip t : read_stamp (toString t) = Some t.
Proof.
  unfold read_stamp, toString. set (q := Z.quot t _). set (r := Z.rem t _).
  assert (Forall (λ c, bool_decide (c = 46) = false) (dec q)) as Hq.
  { assert (∀ n, 0 <= n → Forall (λ c, bool_decide (c = 46) = false) (dec n)) as Hp.
    { intros n Hn. eapply Forall_impl; [by apply dec_digits|]. intros c Hc%bool_decide_eq_true. apply bool_decide_eq_false. lia. }
    destruct q as [|p|p]; [by apply Hp|by apply Hp|].
    assert (dec (Z.neg p) = 45 :: dec (Z.pos p)) as -> by exact (text_cons _ _). constructor; [done|]. by apply Hp. }
  change (text ".") with [46]. rewrite (find_first_app _ (dec q) 46 (printf0 6 r)) by done. cbn [mbind option_bind].
  rewrite take_app_length, <-Nat.add_1_r, <-drop_drop, drop_app_length. cbn [app drop].
  rewrite drop_0, atoi_printf0, atoi_dec. f_equal. unfold q, r. pose proof (Z.quot_rem' t kMicroSecondsPerSecond).
  unfold kMicroSecondsPerSecond in *. lia.
Qed.

Lemma list_len2 (l : list Z) : length l = 2%nat → ∃ a b, l = [a; b].
Proof. destruct l as [|a [|b []]]; try done. eauto. Qed.

Lemma list_len4 (l : list Z) : length l = 4%nat → ∃ a b c d, l = [a; b; c; d].
Proof. destruct l as [|a [|b [|c [|d []]]]]; try done. eauto. Qed.

(** The texts of time stamps can be read back: the formatted text of every
    moment from 1970 to the end of the year 9999, cut at its fixed positions and
    counted by the Gregorian calendar, gives the microseconds again, and so do
    the seconds and microseconds of [toString] for every time stamp, before 1970
    too. *)
Theorem timestamp_roundtrip t :
  (0 <= t < 253402300800000000 → read_formatted (toFormattedString t true) = t) ∧
  read_stamp (toString t) = Some t.
Proof.
  split; [|apply toString_roundtrip]. intros Ht.
  unfold toFormattedString, gmtime_r, kMicroSecondsPerSecond. cbn [tm_date tm_hour tm_min tm_sec].
  rewrite Z.quot_div_nonneg, Z.rem_mod_nonneg by lia.
  set (q := t / 1000000). set (r := t mod 1000000).
  assert (t = q * 1000000 + r ∧ 0 <= r < 1000000 ∧ 0 <= q < 253402300800) as (Et & Hr & Hq) by (unfold q, r; dlia).
  set (z := q / 86400). set (m := q mod 86400).
  assert (q = z * 86400 + m ∧ 0 <= m < 86400 ∧ 0 <= z < 2932897) as (Eq & Hm & Hz) by (unfold z, m; dlia).
  rewrite (swrap_small 32) by (unfold in_signed; lia).
  assert (m = (m / 3600 * 60 + m mod 3600 / 60) * 60 + m mod 60 ∧ 0 <= m / 3600 < 24 ∧
    0 <= m mod 3600 / 60 < 60 ∧ 0 <= m mod 60 < 60) as (Em & Hh & Hmi & Hs) by dlia.
  destruct (civil_fields z) as (Ec & Hmo & Hda & Hy). specialize (Hy Hz).
  destruct (printf_year _ Hy) as [-> Hyl].
  pose proof (length_printf0 6 r ltac:(lia) ltac:(simpl; lia)) as H6.
  destruct (list_len4 _ Hyl) as (a1 & a2 & a3 & a4 & E1).
  destruct (list_len2 _ (length_printf0 2 (month (civil z)) ltac:(lia) ltac:(simpl; lia))) as (b1 & b2 & E2).
  destruct (list_len2 _ (length_printf0 2 (day (civil z)) ltac:(lia) ltac:(simpl; lia))) as (c1 & c2 & E3).
  destruct (list_len2 _ (length_printf0 2 (m / 3600) ltac:(lia) ltac:(simpl; lia))) as (d1 & d2 & E4).
  destruct (list_len2 _ (length_printf0 2 (m mod 3600 / 60) ltac:(lia) ltac:(simpl; lia))) as (e1 & e2 & E5).
  destruct (list_len2 _ (length_printf0 2 (m mod 60) ltac:(lia) ltac:(simpl; lia))) as (f1 & f2 & E6).
  unfold read_formatted, slice. rewrite E1, E2, E3, E4, E5, E6.
  cbv zeta. change (text " ") with [32]. change (text ":") with [58]. change (text ".") with [46].
  repeat match goal with |- context [Z.to_nat (Zpos ?p)] =>
    let v := eval vm_compute in (Z.to_nat (Zpos p)) in change (Z.to_nat (Zpos p)) with v end.
  change (Z.to_nat 0) with 0%nat. cbn [app drop take]. rewrite (take_ge (printf0 6 r)) by lia.
  rewrite <-E1, <-E2, <-E3, <-E4, <-E5, <-E6, !atoi_printf0, atoi_dec.
  replace (mkDate (year (civil z)) (month (civil z)) (day (civil z))) with (civil z) by (by destruct (civil z)).
  rewrite Ec. lia.
Qed.

Lemma timestamp_roundtrip_witness : read_formatted (toFormattedString 1700000000123456 true) = 1700000000123456.
Proof. apply (timestamp_roundtrip 1700000000123456). lia. Defined.

Example formatted : toFormattedString 1700000000123456 true = text "20231114 22:13:20.123456".
Proof. vm_compute. reflexivity. Qed.

(** ** Differences *)

(** [timeDifferenceFormat] does not take the days off before it counts the hours:
    the hours, minutes and seconds alone are the whole difference, and together
    with the days they count every full day twice. *)
Lemma timeDifferenceFormat_hours high low :
  0 <= high - low < 3600000000000000 →
  let '(d, h, m, s) := diff_fields high low in
  let total := (high - low) / 1000000 in
  timeDifferenceFormat high low =
    dec d ++ text "days " ++ printf0 2 h ++ text ":" ++ printf0 2 m ++ text ":" ++ printf0 2 s ∧
  d = total / 86400 ∧ h * 3600 + m * 60 + s = total ∧
  d * 86400 + h * 3600 + m * 60 + s = total + d * 86400 ∧ 0 <= m < 60 ∧ 0 <= s < 60.
Proof.
  intros Hd. unfold timeDifferenceFormat, diff_fields, kMicroSecondsPerSecond.
  rewrite (swrap_small 64) by (unfold in_signed; lia). set (diff := high - low) in *.
  rewrite (Z.quot_div_nonneg diff) by lia. set (total := diff / 1000000).
  assert (0 <= total < 3600000000) as Ht by (unfold total; dlia).
  rewrite !Z.quot_div_nonneg, !Z.rem_mod_nonneg by (try lia; dlia).
  rewrite !swrap_small by (unfold in_signed; dlia).
  assert (0 <= total / (24 * 3600) < 10 ^ 5 ∧ 0 <= total / 3600 < 10 ^ 6 ∧ 0 <= total mod 3600 / 60 < 60 ∧ 0 <= (total mod 3600) mod 60 < 60)
    as (H1 & H2 & H3 & H4) by dlia.
  assert (length (printf0 2 (total / 3600)) <= 6)%nat.
  { unfold printf0, fill. rewrite decide_False by lia. rewrite length_app, length_replicate.
    pose proof (length_dec (total / 3600) 6 ltac:(lia) ltac:(simpl; lia)). lia. }
  pose proof (length_dec (total / (24 * 3600)) 5 ltac:(lia) ltac:(simpl; lia)).
  pose proof (length_printf0 2 (total mod 3600 / 60) ltac:(lia) ltac:(simpl; lia)).
  pose proof (length_printf0 2 ((total mod 3600) mod 60) ltac:(lia) ltac:(simpl; lia)).
  split; [|dlia]. apply take_ge. rewrite !length_app. simpl length. lia.
Qed.

Example one_day : timeDifferenceFormat 86400000000 0 = text "1days 24:00:00".
Proof. vm_compute. reflexivity. Qed.
