(* ===== verification/FileUtils.v ===== *)
(** Reading small files and appending to files (sylar/file_utils.h,
    sylar/file_utils.cc), over the calls of the C library and the kernel. *)

From Stdlib Require Import ZArith Lia.
From stdpp Require Import base numbers option strings tactics list_numbers list.
From S2P Require Import Prelude StdSet Text.

Local Open Scope Z_scope.

(** ** Appending *)

(** A [FILE*]: [fwrite] returns how many bytes it took. *)
Class Stdio (F : Type) : Type := {
  fopen : list Z → option F;
  fwrite : F → list Z → nat * F;
  ferror : F → bool;
  fflush : F → F
}.

Record AppendFile (F : Type) : Type := mkAppendFile {
  fp_ : F;
  writtenBytes_ : Z
}.
Arguments mkAppendFile {F} _ _.
Arguments fp_ {F} _.
Arguments writtenBytes_ {F} _.

Section append.
Context {F : Type} `{Stdio F}.

Definition AppendFile_new (filename : list Z) : outcome (AppendFile F) :=
  match fopen (c_str filename) with
  | Some fp => Ok (mkAppendFile fp 0)
  | None => Throw (assertion_failed "fp_")
  end.

Definition AppendFile_write (fp : F) (logline : list Z) : nat * F := fwrite fp logline.

(** The loop of [append]: [written] bytes are taken. *)
Fixpoint append_loop (fuel : nat) (fp : F) (logline : list Z) (written : nat) : outcome (nat * F) :=
  match fuel with
  | O => Stuck
  | S fuel =>
    if decide (written = length logline) then Ok (written, fp)
    else
      let remain := (length logline - written)%nat in
      let '(n, fp) := AppendFile_write fp (drop written logline) in
      if decide (n ≠ remain) then
        if ferror fp then Ok (written, fp) else append_loop fuel fp logline (written + n)
      else append_loop fuel fp logline (written + n)
  end.

Definition append (fuel : nat) (f : AppendFile F) (logline : list Z) : outcome (AppendFile F) :=
  '(written, fp) ← append_loop fuel (fp_ f) logline 0;
  Ok (mkAppendFile fp (writtenBytes_ f + Z.of_nat written)).

Definition AppendFile_flush (f : AppendFile F) : AppendFile F := mkAppendFile (fflush (fp_ f)) (writtenBytes_ f).

End append.

(** ** Reading *)

Definition kBufferSize : nat := Z.to_nat 65536.
Definition EISDIR : Z := 21.

(** What [fstat] gives: whether the file is regular or a directory, its size and
    its times. *)
Record stat : Type := mkStat {
  st_isreg : bool;
  st_isdir : bool;
  st_size : Z;
  st_mtime : Z;
  st_ctime : Z
}.

(** The calls on a descriptor; a failure gives an error number. [file_open] and
    [file_read] change the kernel's state, [file_pread] reads from the start. *)
Class Files (K : Type) : Type := {
  file_open : K → list Z → (Z + Z) * K;
  file_close : K → Z → K;
  file_fstat : K → Z → stat + Z;
  file_read : K → Z → nat → (list Z + Z) * K;
  file_pread : K → Z → nat → list Z + Z
}.

(** [buf_] lists the bytes that were set so far; the others are undefined. *)
Record ReadSmallFile : Type := mkReadSmallFile {
  fd_ : Z;
  err_ : Z;
  buf_ : list Z
}.

(** The optional results of [readToString]; [None] for a null pointer. *)
Record outputs : Type := mkOutputs {
  fileSize : option Z;
  modifyTime : option Z;
  createTime : option Z
}.

Section read.
Context {K : Type} `{Files K}.

Definition ReadSmallFile_new (k : K) (filename : list Z) : ReadSmallFile * K :=
  match file_open k (c_str filename) with
  | (inl fd, k) => (mkReadSmallFile fd 0 [0], k)
  | (inr err, k) => (mkReadSmallFile (-1) err [0], k)
  end.

Definition ReadSmallFile_destroy (k : K) (f : ReadSmallFile) : K :=
  if decide (0 <= fd_ f) then file_close k (fd_ f) else k.

(** The loop that reads up to [limit] bytes: the content and the error. *)
Fixpoint read_loop (fuel : nat) (k : K) (fd : Z) (limit : Z) (content : list Z) (err : Z) :
    outcome (list Z * Z * K) :=
  match fuel with
  | O => Stuck
  | S fuel =>
    if decide (Z.of_nat (length content) < limit) then
      let toRead := Nat.min (Z.to_nat (limit - Z.of_nat (length content))) kBufferSize in
      match file_read k fd toRead with
      | (inl [], k) => Ok (content, err, k)
      | (inl bs, k) => read_loop fuel k fd limit (content ++ bs) err
      | (inr e, k) => Ok (content, e, k)
      end
    else Ok (content, err, k)
  end.

(** The part that asks for the size; [reserve] throws for a length that is
    negative as an [int]. *)
Definition read_stat (k : K) (fd maxSize : Z) (out : outputs) (err : Z) : outcome (Z * outputs) :=
  match fileSize out with
  | None => Ok (err, out)
  | Some size =>
    match file_fstat k fd with
    | inl st =>
      let mtime := (λ _, st_mtime st) <$> modifyTime out in
      let ctime := (λ _, st_ctime st) <$> createTime out in
      if st_isreg st then
        if decide (s32 (Z.min maxSize (st_size st)) < 0) then Throw (logic_error "basic_string::reserve")
        else Ok (err, mkOutputs (Some (st_size st)) mtime ctime)
      else Ok (if st_isdir st then EISDIR else err, mkOutputs (Some size) mtime ctime)
    | inr e => Ok (e, out)
    end
  end.

(** The error number, the content and the optional results. *)
Definition readToString (fuel : nat) (k : K) (f : ReadSmallFile) (maxSize : Z) (content : list Z) (out : outputs) :
    outcome (Z * list Z * outputs * K) :=
  if decide (0 <= fd_ f) then
    '(err, out) ← read_stat k (fd_ f) maxSize out (err_ f);
    '(content, err, k) ← read_loop fuel k (fd_ f) (u64 maxSize) [] err;
    Ok (err, content, out, k)
  else Ok (err_ f, content, out, k).

(** The error number, [*size] if it was asked for, and the buffer. *)
Definition readToBuffer (k : K) (f : ReadSmallFile) (size : option Z) : Z * option Z * ReadSmallFile :=
  if decide (0 <= fd_ f) then
    match file_pread k (fd_ f) (kBufferSize - 1) with
    | inl bs => (err_ f, (λ _, s32 (Z.of_nat (length bs))) <$> size,
                 mkReadSmallFile (fd_ f) (err_ f) (overwrite 0 (bs ++ [0]) (buf_ f)))
    | inr e => (e, size, f)
    end
  else (err_ f, size, f).

Definition readFile (fuel : nat) (k : K) (filename : list Z) (maxSize : Z) (content : list Z) (out : outputs) :
    outcome (Z * list Z * outputs * K) :=
  let '(f, k) := ReadSmallFile_new k filename in
  '(err, content, out, k) ← readToString fuel k f maxSize content out;
  Ok (err, content, out, ReadSmallFile_destroy k f).

(** What the callers of this library use: no optional results. *)
Definition readFile_text (fuel : nat) (k : K) (filename : list Z) (maxSize : Z) : outcome (list Z * K) :=
  '(_, content, _, k) ← readFile fuel k filename maxSize [] (mkOutputs None None None);
  Ok (content, k).

End read.

(** ** What is written *)

(** [fwrite] adds what it took to the stream, at most all of it, and takes less
    only when it sets the error of the stream. *)
Class StdioLaws (F : Type) `{Stdio F} (content : F → list Z) : Prop := {
  fwrite_takes (f f' : F) bs n : fwrite f bs = (n, f') →
    (n <= length bs)%nat ∧ content f' = content f ++ take n bs ∧ ((n < length bs)%nat → ferror f' = true)
}.

(** [append] returns after at most one call that takes everything, or reports
    an error: in the first case the line is in the stream and [writtenBytes_] has
    grown by its length; in the second a part of the line is in the stream, and
    [writtenBytes_] does not count it. *)
Theorem append_counts {F} `{Stdio F} content `{!StdioLaws F content} (f : AppendFile F) logline :
  ∃ f', append 2 f logline = Ok f' ∧
    ((content (fp_ f') = content (fp_ f) ++ logline ∧
      writtenBytes_ f' = writtenBytes_ f + Z.of_nat (length logline)) ∨
     (ferror (fp_ f') = true ∧ writtenBytes_ f' = writtenBytes_ f ∧
      ∃ n, (n < length logline)%nat ∧ content (fp_ f') = content (fp_ f) ++ take n logline)).
Proof.
  unfold append. cbn [append_loop]. destruct (decide (0%nat = length logline)) as [E|E].
  { osimpl. eexists. split; [done|]. left. destruct logline; [|done]. cbn [fp_ writtenBytes_ length]. by rewrite app_nil_r. }
  unfold AppendFile_write. rewrite drop_0. destruct (fwrite (fp_ f) logline) as [n fp] eqn:Ew.
  destruct (fwrite_takes _ _ _ _ Ew) as (Hn & Hc & He). rewrite Nat.sub_0_r.
  destruct (decide (n ≠ length logline)) as [Hne|Hne].
  - rewrite He by lia. osimpl. eexists. split; [done|]. right. cbn [fp_ writtenBytes_].
    split_and!; [apply He; lia|lia|]. exists n. split; [lia|done].
  - assert (n = length logline) as -> by lia. rewrite decide_True by lia. osimpl. eexists. split; [done|]. left.
    cbn [fp_ writtenBytes_]. rewrite Hc. by rewrite take_ge by lia.
Qed.

(** ** What is read *)

(** [rest k fd] is what follows the position of a descriptor in its file: [read]
    returns a part of it, none only at its end or when none is asked for. *)
Class ReadLaws (K : Type) `{Files K} (rest : K → Z → list Z) : Prop := {
  read_rest (k k' : K) fd n bs : file_read k fd n = (inl bs, k') →
    (length bs <= n)%nat ∧ rest k fd = bs ++ rest k' fd ∧ (bs = [] → n = 0%nat ∨ rest k fd = [])
}.

Lemma read_loop_ok {K} `{Files K} rest `{!ReadLaws K rest} fd limit : ∀ fuel k content err,
  (Z.to_nat (limit - Z.of_nat (length content)) < fuel)%nat → Z.of_nat (length content) <= limit →
  (∀ k n e k', file_read k fd n ≠ (inr e, k')) →
  ∃ k', read_loop fuel k fd limit content err =
    Ok (content ++ take (Z.to_nat (limit - Z.of_nat (length content))) (rest k fd), err, k').
Proof.
  induction fuel as [|fuel IH]; intros k content err Hf Hl Hno; [lia|]. cbn [read_loop].
  case_decide as Hlt; cycle 1.
  { replace (limit - Z.of_nat (length content)) with 0 by lia. rewrite take_0, app_nil_r. eauto. }
  set (n := Nat.min _ kBufferSize).
  assert (0 < n)%nat as Hn by (unfold n, kBufferSize; lia).
  destruct (file_read k fd n) as [[bs|e] k1] eqn:Er; [|by apply Hno in Er].
  destruct (read_rest _ _ _ _ _ Er) as (Hlen & Hrest & Hend). destruct bs as [|b bs].
  { destruct Hend as [?| ->]; [done|lia|]. rewrite take_nil, app_nil_r. eauto. }
  assert (length (b :: bs) <= Z.to_nat (limit - Z.of_nat (length content)))%nat by (unfold n in Hlen; lia).
  destruct (IH k1 (content ++ b :: bs) err) as [k2 ->]; [rewrite length_app; simpl in *; lia..|done|].
  exists k2. do 3 f_equal. rewrite Hrest, <-app_assoc. f_equal. rewrite length_app.
  rewrite take_app_ge by done. f_equal. f_equal. lia.
Qed.

(** [readFile] reads a file that can be opened and read, up to [maxSize]
    bytes of it, whatever the sizes of the single reads; it returns 0 and closes
    what it opened. When the file cannot be opened it returns the error and leaves
    the content as it was. *)
Theorem readFile_reads {K} `{Files K} rest `{!ReadLaws K rest} fuel (k : K) filename maxSize content :
  0 <= maxSize < 2 ^ 31 → (Z.to_nat maxSize < fuel)%nat →
  (∀ k n e k' fd, file_read k fd n ≠ (inr e, k')) →
  match file_open k (c_str filename) with
  | (inl fd, k1) => 0 <= fd →
      ∃ k2, readFile fuel k filename maxSize content (mkOutputs None None None) =
        Ok (0, take (Z.to_nat maxSize) (rest k1 fd), mkOutputs None None None, file_close k2 fd)
  | (inr err, k1) =>
      readFile fuel k filename maxSize content (mkOutputs None None None) =
        Ok (err, content, mkOutputs None None None, k1)
  end.
Proof.
  intros Hm Hf Hno. unfold readFile, ReadSmallFile_new.
  destruct (file_open k (c_str filename)) as [[fd|e] k1] eqn:Eo; [|done]. intros Hfd.
  unfold readToString, ReadSmallFile_destroy. cbn [fd_ err_]. rewrite decide_True by done.
  unfold read_stat. cbn [fileSize]. osimpl. rewrite (uwrap_small 64) by (unfold in_unsigned; lia).
  destruct (read_loop_ok rest fd maxSize fuel k1 [] 0) as [k2 ->]; [simpl; lia..|eauto|].
  exists k2. osimpl. rewrite decide_True by done. simpl length. by rewrite Z.sub_0_r.
Qed.

(** ** A file system with one file, and a stream of bounded size *)

Module TinyFiles.

(** The file "f" holds nine bytes; a read returns at most four. *)
Definition nine : list Z := text "123456789".

Record disk : Type := mkDisk { position : nat; opens : nat }.

#[export] Instance disk_files : Files disk := {
  file_open k name := if decide (name = text "f") then (inl 3, mkDisk 0 (S (opens k))) else (inr 2, k);
  file_close k fd := mkDisk (position k) (pred (opens k));
  file_fstat k fd := inl (mkStat true false 9 0 0);
  file_read k fd n :=
    let bs := take (Nat.min 4 n) (drop (position k) nine) in
    (inl bs, mkDisk (position k + length bs) (opens k));
  file_pread k fd n := inl (take n nine)
}.

#[export] Instance disk_laws : ReadLaws disk (λ k _, drop (position k) nine).
Proof.
  split. intros k k' fd n bs [E1 E2]%pair_equal_spec. set (r := drop (position k) nine).
  assert (bs = take (Nat.min 4 n) r) as -> by (unfold r; congruence). clear E1. rewrite <-E2. cbn [position]. fold r.
  split_and!.
  - rewrite length_take. lia.
  - rewrite length_take, <-drop_drop. fold r. rewrite <-(take_drop (Nat.min 4 n) r) at 1. f_equal.
    destruct (decide (Nat.min 4 n <= length r)%nat); [f_equal; lia|]. rewrite !drop_ge by lia. done.
  - intros E. destruct (decide (n = 0%nat)); [by left|right]. destruct r; [done|].
    destruct n; [done|]. by destruct (Nat.min 4 (S n)) eqn:En; [lia|].
Qed.

Lemma readFile_reads_witness :
  ∃ k2, readFile 10 (mkDisk 0 0) (text "f") 6 [] (mkOutputs None None None) =
    Ok (0, text "123456", mkOutputs None None None, file_close k2 3).
Proof.
  refine (readFile_reads (λ k _, drop (position k) nine) 10 (mkDisk 0 0) (text "f") 6 [] _ _ _ _); [lia|lia|done|lia].
Defined.

(** A stream that has room for five bytes. *)
Record paper : Type := mkPaper { ink : list Z; torn : bool }.

#[export] Instance paper_stdio : Stdio paper := {
  fopen _ := Some (mkPaper [] false);
  fwrite p bs :=
    let n := Nat.min (5 - length (ink p)) (length bs) in
    (n, mkPaper (ink p ++ take n bs) (torn p || bool_decide (n < length bs)%nat));
  ferror := torn;
  fflush p := p
}.

#[export] Instance paper_laws : StdioLaws paper ink.
Proof.
  split. intros f f' bs n [= <- <-]. cbn [ink torn]. split_and!; [lia|done|].
  intros Hn. unfold ferror, paper_stdio. cbn [torn]. rewrite bool_decide_eq_true_2 by done. by rewrite orb_true_r.
Qed.

Lemma append_counts_witness : ∃ f', append 2 (mkAppendFile (mkPaper [] false) 0) (text "abc") = Ok f'.
Proof. destruct (append_counts ink (mkAppendFile (mkPaper [] false) 0) (text "abc")) as (f' & E & _). exists f'. exact E. Defined.

(** Two bytes reach the stream and are not counted. *)
Example append_short :
  append 2 (mkAppendFile (mkPaper (text "abc") false) 3) (text "defg") = Ok (mkAppendFile (mkPaper (text "abcde") true) 3).
Proof. reflexivity. Qed.

End TinyFiles.
