(* ===== verification/ProcessInfo.v ===== *)
(** Facts about processes (sylar/process_info.h, sylar/process_info.cc), taken
    from the files under /proc and the system's calls, whose results are
    arguments. *)

From Stdlib Require Import ZArith Lia.
From stdpp Require Import base numbers option strings pretty sorting tactics list_numbers list.
From S2P Require Import Prelude StdSet Text FsUtil StringPiece Timestamp FileUtils.

Local Open Scope Z_scope.

(** ** Directories under /proc *)

(** The filters look at the first character of a name; a name is not empty. *)
Definition digit_name (d_name : list Z) : bool := is_digit (default 0 (head d_name)).

Definition fdDirFilter (count : Z) (d_name : list Z) : Z := if digit_name d_name then count + 1 else count.

Definition taskDirFilter (pids : list Z) (d_name : list Z) : list Z :=
  if digit_name d_name then pids ++ [atoi32 d_name] else pids.

(** [scandir] calls its filter for every entry and keeps none. *)
Definition scanDir {A} (names : list (list Z)) (filter : A → list Z → A) (acc : A) : A := foldl filter acc names.

(** ** [ProcessInfo] *)

Definition pidString (pid : Z) : list Z := dec pid.

(** [pw_name], if the user is known. *)
Definition username (pw_name : option (list Z)) : list Z := default (text "unknownuser") pw_name.

Definition hostname (gethostname : option (list Z)) : list Z :=
  match gethostname with
  | Some buf => c_str (take 255 buf)
  | None => text "unknownhost"
  end.

(** The name between the first opening and the last closing parenthesis, a piece
    of the line. *)
Definition procname (stat : list Z) : StringPiece :=
  match find_first (λ c, bool_decide (c = 40)) stat, find_last (λ c, bool_decide (c = 41)) stat with
  | Some lp, Some rp =>
    if decide (lp < rp)%nat then
      set_range StringPiece_new (mkPtr (Some (stat ++ [0])) (Z.of_nat lp + 1)) (s32 (Z.of_nat rp - Z.of_nat lp - 1))
    else StringPiece_new
  | _, _ => StringPiece_new
  end.

Definition procname_text (stat : list Z) : outcome (list Z) := as_string (procname stat).

Section files.
Context {K : Type} `{Files K}.

Definition procStatus (fuel : nat) (k : K) : outcome (list Z * K) := readFile_text fuel k (text "/proc/self/status") 65536.
Definition procStat (fuel : nat) (k : K) : outcome (list Z * K) := readFile_text fuel k (text "/proc/self/stat") 65536.

Definition numThreads (fuel : nat) (k : K) : outcome (Z * K) :=
  '(status, k) ← procStatus fuel k;
  Ok (match find_sub (text "Threads:") status with
      | Some pos => atoi32 (drop (pos + 8) status)
      | None => 0
      end, k).

End files.

(** [readlink] of /proc/self/exe into an array of 1024 bytes. *)
Definition exePath (readlink : option (list Z)) : list Z :=
  match readlink with
  | Some target => if decide (target = []) then [] else take 1024 target
  | None => []
  end.

Definition openedFiles (fds : list (list Z)) : Z := scanDir fds fdDirFilter 0.

(** [getrlimit] gives the limit or fails. *)
Definition maxOpenFiles (rlim_cur : option Z) (fds : list (list Z)) : Z :=
  match rlim_cur with
  | Some n => s32 n
  | None => openedFiles fds
  end.

Definition threads (tasks : list (list Z)) : list Z := merge_sort Z.le (scanDir tasks taskDirFilter []).

(** ** Properties *)

Lemma openedFiles_count fds : openedFiles fds = Z.of_nat (length (filter (λ n, digit_name n = true) fds)).
Proof.
  unfold openedFiles, scanDir. rewrite <-(Z.add_0_l (Z.of_nat _)). generalize 0.
  induction fds as [|n fds IH]; intros a; [simpl; lia|]. cbn [foldl]. rewrite IH. unfold fdDirFilter.
  rewrite filter_cons. destruct (digit_name n); simpl; lia.
Qed.

Lemma threads_sorted tasks :
  Sorted Z.le (threads tasks) ∧ threads tasks ≡ₚ atoi32 <$> filter (λ n, digit_name n = true) tasks.
Proof.
  unfold threads. split; [apply (Sorted_merge_sort Z.le)|]. rewrite merge_sort_Permutation. unfold scanDir.
  rewrite <-(app_nil_l (atoi32 <$> _)). generalize ([] : list Z).
  induction tasks as [|n tasks IH]; intros a; [by rewrite app_nil_r|]. cbn [foldl]. rewrite IH. unfold taskDirFilter.
  rewrite filter_cons. destruct (digit_name n); simpl; [by rewrite <-app_assoc|done].
Qed.

(** The line of a process, with any name in it. *)
Lemma procname_ok pid name rest :
  40 ∉ pid → 41 ∉ rest → Z.of_nat (length name) < 2 ^ 31 - 2 →
  let stat := pid ++ 40 :: name ++ 41 :: rest in
  procname_text stat = Ok name ∧
  end_ (procname stat) = mkPtr (Some (stat ++ [0])) (Z.of_nat (length pid + 1 + length name)).
Proof.
  intros Hp Hr Hl stat. unfold procname_text, procname.
  assert (find_first (λ c, bool_decide (c = 40)) stat = Some (length pid)) as ->.
  { apply find_first_app; [|by apply bool_decide_eq_true]. apply Forall_forall. intros c Hc.
    apply bool_decide_eq_false. by intros ->. }
  assert (stat = (pid ++ 40 :: name) ++ 41 :: rest) as Es by (unfold stat; by rewrite <-app_assoc).
  assert (find_last (λ c, bool_decide (c = 41)) stat = Some (length pid + 1 + length name)%nat) as ->.
  { rewrite Es, find_last_app.
    - rewrite length_app. f_equal. simpl. lia.
    - by apply bool_decide_eq_true.
    - apply Forall_forall. intros c Hc. apply bool_decide_eq_false. by intros ->. }
  rewrite decide_True by lia. unfold end_, ptr_add, set_range, as_string. cbn [ptr_ length_ object offset].
  rewrite swrap_small by (unfold in_signed; lia).
  replace (Z.of_nat (length pid + 1 + length name) - Z.of_nat (length pid) - 1) with (Z.of_nat (length name)) by lia.
  split; [|f_equal; lia]. rewrite decide_False by lia. unfold load. cbn [object offset].
  case_decide as Hz; [by destruct name|]. osimpl.
  rewrite decide_True by (unfold stat; rewrite !length_app; simpl; rewrite length_app; simpl; lia). f_equal.
  replace (Z.to_nat (Z.of_nat (length pid) + 1)) with (length (pid ++ [40])) by (rewrite length_app; simpl; lia).
  rewrite Nat2Z.id. unfold slice, stat.
  replace ((pid ++ 40 :: name ++ 41 :: rest) ++ [0]) with ((pid ++ [40]) ++ name ++ 41 :: rest ++ [0])
    by (by rewrite <-!app_assoc; simpl; rewrite <-app_assoc).
  by rewrite drop_app_length, take_app_length.
Qed.
