(* ===== verification/Plot.v ===== *)
(** The chart of the process monitor (4_procmon/plot.{h,cc}): the commands given to the
    drawing library, with the arithmetic of [double]. *)

From Stdlib Require Import ZArith QArith Qround Qabs Qminmax Lqa Lia.
From stdpp Require Import base numbers option strings tactics list_numbers list.
From S2P Require Import Prelude Text.

Local Open Scope Z_scope.

(** ** The arithmetic of [double] *)

(** The result of an operation is the rounded exact result. The values of a chart are
    far from the largest [double]; below the smallest normal one the error is absolute. *)
Class Rounding (rnd : Q → Q) : Prop := {
  rnd_mono x y : (x <= y → rnd x <= rnd y)%Q;
  rnd_half k : Z.abs k <= 2 ^ 53 → (rnd (k # 2) == k # 2)%Q;
  rnd_near x : (Qabs (rnd x - x) <= Qabs x * (1 # 9007199254740992) + (1 # 1267650600228229401496703205376))%Q
}.

(** [static_cast<int>(x)]. *)
Definition trunc (x : Q) : Z := Z.quot (Qnum x) (Zpos (Qden x)).

(** ** The commands *)

Inductive color : Type := Background | Black | Gray | Blue.

(** The calls of gd.h. *)
Inductive command : Type :=
| FilledRectangle (x1 y1 x2 y2 : Z) (c : color)
| SetThickness (n : Z)
| Line (x1 y1 x2 y2 : Z) (c : color)
| String (x y : Z) (s : list Z) (c : color).

#[export] Instance color_eq_dec : EqDecision color.
Proof. solve_decision. Defined.
#[export] Instance command_eq_dec : EqDecision command.
Proof. solve_decision. Defined.

(** [class Plot]; the image is what was drawn on it. *)
Record Plot : Type := mkPlot {
  m_width : Z;
  m_height : Z;
  m_totalSeconds : Z;
  m_samplingPeriod : Z;
  m_image : list command;
  m_fontWidth : Z;
  m_fontHeight : Z;
  m_kRightMargin : Z;
  m_ratioX : Q
}.

Definition s_kLeftMargin : Z := 0.
Definition s_kMarginY : Z := 0.

Definition set_image (p : Plot) (l : list command) : Plot :=
  mkPlot (m_width p) (m_height p) (m_totalSeconds p) (m_samplingPeriod p) l (m_fontWidth p) (m_fontHeight p)
    (m_kRightMargin p) (m_ratioX p).

(** The width of the curve. *)
Definition plot_width (p : Plot) : Z := m_width p - s_kLeftMargin - m_kRightMargin p.

(** [snprintf] with %.0f and %.1f: to the nearest, ties to even. *)
Definition nearest (x : Q) : Z :=
  let f := Qfloor x in
  match Qcompare (x - inject_Z f) (1 # 2) with
  | Lt => f
  | Gt => f + 1
  | Eq => if Z.even f then f else f + 1
  end.

Definition fixed0 (x : Q) : list Z := dec (nearest x).
Definition fixed1 (x : Q) : list Z :=
  let n := nearest (x * 10) in dec (n / 10) ++ text "." ++ dec (n mod 10).

Section plot.
Context (rnd : Q → Q).

#[local] Notation "x ⊕ y" := (rnd (x + y)%Q) (at level 50, only parsing).
#[local] Notation "x ⊖ y" := (rnd (x - y)%Q) (at level 50, only parsing).
#[local] Notation "x ⊗ y" := (rnd (x * y)%Q) (at level 40, only parsing).
#[local] Notation "x ⊘ y" := (rnd (x / y)%Q) (at level 40, only parsing).

(** The constructor; the font is that of the library. *)
Definition Plot_new (width height totalSeconds samplingPeriod fontWidth fontHeight : Z) : Plot :=
  let right := s32 (3 * fontWidth + 5) in
  mkPlot width height totalSeconds samplingPeriod [] fontWidth fontHeight right
    (inject_Z (s32 (samplingPeriod * (width - s_kLeftMargin - right))) ⊘ inject_Z totalSeconds).

Definition getX (p : Plot) (i total : Z) : Z :=
  let x := inject_Z (plot_width p) ⊕ (inject_Z (i - total) ⊗ m_ratioX p) in
  trunc (x ⊕ (1 # 2)) + s_kLeftMargin.

Definition getY (p : Plot) (value : Q) : Z :=
  trunc (((1 ⊖ value) ⊗ inject_Z (m_height p - 2 * s_kMarginY)) ⊕ (1 # 2)) + s_kMarginY.

(** [*std::max_element(...)]. *)
Definition max_element (d : Q) (data : list Q) : Q := foldl (λ m x, if Qlt_le_dec m x then x else m) d data.

(** The largest value that the chart shows. *)
Definition scale (max : Q) : Q :=
  if Qlt_le_dec max 10 then
    let m := inject_Z (Qceiling (max ⊗ 10)) ⊘ 10 in
    if Qlt_le_dec (rnd (1 # 10)) m then m else rnd (1 # 10)
  else inject_Z (Qceiling max).

Definition label (p : Plot) (maxValue : Q) : list command :=
  [String (m_width p - m_kRightMargin p + 3) (s_kMarginY - 3) (if Qlt_le_dec maxValue 10 then fixed1 maxValue else fixed0 maxValue) Black;
   String (m_width p - m_kRightMargin p + 3) (m_height p - s_kMarginY - 3 - m_fontHeight p `quot` 2) (text "0") Gray;
   String s_kLeftMargin (m_height p - s_kMarginY - m_fontHeight p) (text "-" ++ dec (m_totalSeconds p) ++ text "s") Blue].

(** The loop over the samples. *)
Fixpoint curve (p : Plot) (max : Q) (size i : Z) (data : list Q) : list command :=
  match data with
  | d :: (e :: _) as rest =>
    Line (getX p i size) (getY p (d ⊘ max)) (getX p (i + 1) size) (getY p (e ⊘ max)) Black :: curve p max size (i + 1) rest
  | _ => []
  end.

(** [plotCpu(data)], up to [toPng]. *)
Definition draw (p : Plot) (data : list Q) : list command :=
  [FilledRectangle 0 0 (m_width p) (m_height p) Background] ++
  (match data with
   | d :: _ :: _ =>
     let max := scale (max_element d data) in
     SetThickness 2 :: label p max ++ curve p max (Z.of_nat (length data)) 0 data
   | _ => []
   end) ++
  let total := m_totalSeconds p `quot` m_samplingPeriod p in
  [SetThickness 1;
   Line (getX p 0 total) (getY p 0 + 2) (getX p total total) (getY p 0 + 2) Gray;
   Line (getX p total total) (getY p 0 + 2) (getX p total total) (getY p 1 + 2) Gray].

(** [plotCpu(data)] with [toPng]; [png] is what gdImagePngPtr makes of the drawing. *)
Definition plotCpu (png : list command → list Z) (p : Plot) (data : list Q) : list Z * Plot :=
  let p := set_image p (m_image p ++ draw p data) in
  (png (m_image p), p).

End plot.

(** ** Where the curve goes *)

Section bounds.
Context (rnd : Q → Q) `{!Rounding rnd}.

Local Open Scope Q_scope.

#[local] Abbreviation eps := (1 # 9007199254740992) (only parsing).
#[local] Abbreviation eta := (1 # 1267650600228229401496703205376) (only parsing).

Lemma inject_half k : inject_Z k == (2 * k) # 2.
Proof. unfold Qeq. simpl. lia. Qed.

#[local] Instance rnd_proper : Proper (Qeq ==> Qeq) rnd.
Proof.
  intros x y E. apply Qle_antisym; apply rnd_mono; rewrite E; apply Qle_refl.
Qed.

Lemma rnd_int k : (Z.abs k <= 2 ^ 52)%Z → rnd (inject_Z k) == inject_Z k.
Proof. intros Hk. rewrite inject_half. apply rnd_half. lia. Qed.

Lemma rnd_bound_half k x : (Z.abs k <= 2 ^ 53)%Z → x <= k # 2 → rnd x <= k # 2.
Proof. intros Hk Hx. rewrite <-(rnd_half k) by done. by apply rnd_mono. Qed.

Lemma rnd_least_half k x : (Z.abs k <= 2 ^ 53)%Z → k # 2 <= x → k # 2 <= rnd x.
Proof. intros Hk Hx. rewrite <-(rnd_half k) by done. by apply rnd_mono. Qed.

Lemma rnd_bound_int k x : (Z.abs k <= 2 ^ 52)%Z → x <= inject_Z k → rnd x <= inject_Z k.
Proof. intros Hk Hx. rewrite <-(rnd_int k) by done. by apply rnd_mono. Qed.

Lemma rnd_least_int k x : (Z.abs k <= 2 ^ 52)%Z → inject_Z k <= x → inject_Z k <= rnd x.
Proof. intros Hk Hx. rewrite <-(rnd_int k) by done. by apply rnd_mono. Qed.

(** The error, one side at a time, for numbers of a known sign. *)
Lemma rnd_err_pos x : 0 <= x → x * (1 - eps) - eta <= rnd x <= x * (1 + eps) + eta.
Proof.
  intros Hx. pose proof (rnd_near x) as H. rewrite (Qabs_pos x Hx) in H. apply Qabs_Qle_condition in H. lra.
Qed.

Lemma rnd_err_neg x : x <= 0 → x * (1 + eps) - eta <= rnd x <= x * (1 - eps) + eta.
Proof.
  intros Hx. pose proof (rnd_near x) as H. rewrite (Qabs_neg x Hx) in H. apply Qabs_Qle_condition in H. lra.
Qed.

Lemma trunc_floor x : 0 <= x → trunc x = Qfloor x.
Proof.
  intros Hx. destruct x as [n d]. unfold trunc. simpl. apply Z.quot_div_nonneg; [|lia]. unfold Qle in Hx. simpl in Hx. lia.
Qed.

Lemma trunc_range x k : 0 <= x → x <= ((2 * k + 1) # 2) → (0 <= trunc x <= k)%Z.
Proof.
  intros H0 Hk. rewrite trunc_floor by done. split.
  - change 0%Z with (Qfloor 0). by apply Qfloor_resp_le.
  - pose proof (Qfloor_le x) as Hf. assert (inject_Z (Qfloor x) < inject_Z (k + 1)) as Hlt.
    { eapply Qle_lt_trans; [exact Hf|]. eapply Qle_lt_trans; [exact Hk|]. unfold Qlt. simpl. lia. }
    rewrite <-Zlt_Qlt in Hlt. lia.
Qed.

Lemma trunc_mono x y : 0 <= x → x <= y → (trunc x <= trunc y)%Z.
Proof.
  intros H0 Hxy. rewrite !trunc_floor by (done || by apply (Qle_trans _ x)). by apply Qfloor_resp_le.
Qed.

(** A chart of ordinary size. *)
Record plot_ok (p : Plot) : Prop := {
  ok_height : (0 < m_height p < 2 ^ 31)%Z;
  ok_width : (0 < plot_width p < 2 ^ 31)%Z;
  ok_period : (0 < m_samplingPeriod p)%Z;
  ok_total : (0 < m_totalSeconds p < 2 ^ 31)%Z;
  ok_ratio : m_ratioX p = rnd (inject_Z (m_samplingPeriod p * plot_width p) / inject_Z (m_totalSeconds p))
}.

(** A sample in units of the scale, up to rounding. *)
#[local] Abbreviation unit_value v := (0 <= v <= 1 + (1 # 1125899906842624)) (only parsing).

Lemma inject_bound k : (0 < k < 2 ^ 31)%Z → 1 <= inject_Z k <= 2147483647.
Proof. intros Hk. unfold Qle. simpl. lia. Qed.

Lemma getY_arg p v : plot_ok p → unit_value v →
  0 <= rnd (rnd (rnd (1 - v) * inject_Z (m_height p - 2 * s_kMarginY)) + (1 # 2)) <= ((2 * m_height p + 1) # 2).
Proof.
  intros Hp [H0 H1]. unfold s_kMarginY. replace (m_height p - 2 * 0)%Z with (m_height p) by lia.
  pose proof (ok_height p Hp) as Hh. pose proof (inject_bound _ Hh) as [Hb1 Hb2].
  assert (rnd (1 - v) <= 1) as Ht1.
  { apply (rnd_bound_int 1); [lia|]. unfold inject_Z. lra. }
  assert (- (1 # 1000000000000) <= rnd (1 - v)) as Ht2.
  { destruct (Qlt_le_dec (1 - v) 0) as [Hn|Hn].
    - pose proof (rnd_err_neg (1 - v) ltac:(lra)). lra.
    - pose proof (rnd_err_pos (1 - v) Hn). lra. }
  set (t := rnd (1 - v)) in *. set (h := inject_Z (m_height p)) in *.
  assert (rnd (t * h) <= h) as Hu1.
  { apply rnd_bound_int; [lia|]. fold h. nra. }
  assert (- (1 # 2) <= rnd (t * h)) as Hu2.
  { apply (rnd_least_half (-1)); [lia|]. change (-1 # 2) with (- (1 # 2)). nra. }
  split.
  - apply (rnd_least_int 0); [lia|]. unfold inject_Z. lra.
  - apply rnd_bound_half; [lia|]. assert (((2 * m_height p + 1) # 2) == h + (1 # 2)) as -> by (unfold h, Qeq; simpl; lia). lra.
Qed.

Lemma getY_range p v : plot_ok p → unit_value v → (0 <= getY rnd p v <= m_height p)%Z.
Proof.
  intros Hp Hv. destruct (getY_arg p v Hp Hv) as [H0 H1]. unfold getY. pose proof (trunc_range _ _ H0 H1).
  unfold s_kMarginY in *. lia.
Qed.

(** More is higher up. *)
Lemma getY_mono p v w : plot_ok p → unit_value v → unit_value w → v <= w → (getY rnd p w <= getY rnd p v)%Z.
Proof.
  intros Hp Hv Hw Hvw. destruct (getY_arg p w Hp Hw) as [H0 _]. unfold getY.
  apply Z.add_le_mono_r, trunc_mono; [done|]. apply rnd_mono. apply Qplus_le_compat; [|apply Qle_refl].
  apply rnd_mono, Qmult_le_compat_r; [apply rnd_mono; lra|]. pose proof (inject_bound _ (ok_height p Hp)).
  unfold s_kMarginY. replace (m_height p - 2 * 0)%Z with (m_height p) by lia. lra.
Qed.

(** The distance from the right end. *)
Lemma ratio_bound p j : plot_ok p → (0 <= j)%Z → (j * m_samplingPeriod p <= m_totalSeconds p)%Z →
  0 <= m_ratioX p ∧ inject_Z j * m_ratioX p <= inject_Z (plot_width p) + (1 # 1000).
Proof.
  intros Hp Hj Hjp. rewrite (ok_ratio p Hp). pose proof (ok_width p Hp) as Hw. pose proof (ok_total p Hp) as Ht.
  pose proof (ok_period p Hp) as Hs. pose proof (inject_bound _ Hw) as Hw'.
  set (R := inject_Z (m_samplingPeriod p * plot_width p) / inject_Z (m_totalSeconds p)).
  assert (0 <= R) as HR.
  { unfold R. apply Qle_shift_div_l; [unfold Qlt; simpl; lia|]. unfold Qle. simpl. nia. }
  assert (inject_Z j * R <= inject_Z (plot_width p)) as HjR.
  { assert (inject_Z j * R == inject_Z (j * (m_samplingPeriod p * plot_width p)) / inject_Z (m_totalSeconds p)) as ->
      by (unfold R, Qdiv; rewrite Qmult_assoc, <-inject_Z_mult; reflexivity).
    apply Qle_shift_div_r; [unfold Qlt; simpl; lia|]. rewrite <-inject_Z_mult, <-Zle_Qle. nia. }
  assert (0 <= inject_Z j <= 2147483647) as Hj' by (unfold Qle; simpl; nia).
  pose proof (rnd_err_pos R HR) as Hr. clearbody R. split; [by apply (rnd_least_int 0)|].
  assert (inject_Z j * rnd R <= inject_Z j * (R * (1 + eps) + eta)) as Hm by nra. nra.
Qed.

Lemma getX_arg p i total : plot_ok p → (i <= total)%Z → ((total - i) * m_samplingPeriod p <= m_totalSeconds p)%Z →
  0 <= rnd (rnd (inject_Z (plot_width p) + rnd (inject_Z (i - total) * m_ratioX p)) + (1 # 2)) <= ((2 * plot_width p + 1) # 2).
Proof.
  intros Hp Hi Hfit. destruct (ratio_bound p (total - i) Hp ltac:(lia) Hfit) as [Hr Hb].
  pose proof (ok_width p Hp) as Hw. pose proof (inject_bound _ Hw) as Hw'.
  assert (inject_Z (i - total) == - inject_Z (total - i)) as Hneg by (unfold Qeq; simpl; lia).
  set (a := inject_Z (i - total) * m_ratioX p).
  assert (- inject_Z (plot_width p) - (1 # 1000) <= a <= 0) as Ha.
  { assert (0 <= inject_Z (total - i)) by (unfold Qle; simpl; lia). unfold a. rewrite Hneg. nra. }
  clearbody a. pose proof (rnd_err_neg a ltac:(lra)) as He.
  assert (rnd a <= 0) as Ha0 by (apply (rnd_bound_int 0); [lia|unfold inject_Z; lra]).
  set (w := inject_Z (plot_width p)) in *.
  assert (rnd (w + rnd a) <= w) as Hx1 by (apply rnd_bound_int; [lia|fold w; lra]).
  assert (- (1 # 2) <= rnd (w + rnd a)) as Hx2.
  { apply (rnd_least_half (-1)); [lia|]. change (-1 # 2) with (- (1 # 2)). lra. }
  split.
  - apply (rnd_least_int 0); [lia|]. unfold inject_Z. lra.
  - apply rnd_bound_half; [lia|]. assert (((2 * plot_width p + 1) # 2) == w + (1 # 2)) as -> by (unfold w, Qeq; simpl; lia). lra.
Qed.

Lemma getX_range p i total : plot_ok p → (i <= total)%Z → ((total - i) * m_samplingPeriod p <= m_totalSeconds p)%Z →
  (0 <= getX rnd p i total <= plot_width p)%Z.
Proof.
  intros Hp Hi Hfit. destruct (getX_arg p i total Hp Hi Hfit) as [H0 H1]. unfold getX.
  pose proof (trunc_range _ _ H0 H1). unfold s_kLeftMargin. lia.
Qed.

Lemma getX_mono p i j total : plot_ok p → (i <= j <= total)%Z → ((total - i) * m_samplingPeriod p <= m_totalSeconds p)%Z →
  (getX rnd p i total <= getX rnd p j total)%Z.
Proof.
  intros Hp Hij Hfit. destruct (getX_arg p i total Hp ltac:(lia) Hfit) as [H0 _].
  destruct (ratio_bound p (total - i) Hp ltac:(lia) Hfit) as [Hr _]. unfold getX.
  apply Z.add_le_mono_r, trunc_mono; [done|]. apply rnd_mono, Qplus_le_compat; [|apply Qle_refl].
  apply rnd_mono, Qplus_le_compat; [apply Qle_refl|]. apply rnd_mono, Qmult_le_compat_r; [|done].
  rewrite <-Zle_Qle. lia.
Qed.

(** The scale is the largest sample, up to rounding, and not zero. *)
Lemma scale_bound max : 0 <= max → (9 # 100) <= scale rnd max ∧ max <= scale rnd max * (1 + (1 # 2251799813685248)).
Proof.
  intros H0. unfold scale. destruct (Qlt_le_dec max 10) as [Hlt|Hge].
  - pose proof (rnd_err_pos (1 # 10) ltac:(lra)) as Hm0. pose proof (rnd_err_pos (max * 10) ltac:(lra)) as Hm10.
    pose proof (Qle_ceiling (rnd (max * 10))) as Hc. set (c := inject_Z (Qceiling (rnd (max * 10)))) in *.
    assert (0 <= rnd (max * 10)) as Hpos by (apply (rnd_least_int 0); [lia|unfold inject_Z; lra]).
    assert (c / 10 == c * (1 # 10)) as Hdiv by reflexivity.
    pose proof (rnd_err_pos (c / 10) ltac:(rewrite Hdiv; lra)) as Hq. rewrite Hdiv in Hq at 1.
    set (q := rnd (c / 10)) in *. clearbody q c. destruct (Qlt_le_dec (rnd (1 # 10)) q); lra.
  - pose proof (Qle_ceiling max). lra.
Qed.

Lemma scaled_unit max d : 0 <= d → d <= max → unit_value (rnd (d / scale rnd max)).
Proof.
  intros H0 Hd. destruct (scale_bound max ltac:(lra)) as [Hs Hm]. set (m := scale rnd max) in *. clearbody m.
  assert (0 <= d / m) as Hp by (apply Qle_shift_div_l; lra).
  assert (d / m <= 1 + (1 # 2251799813685248)) as Hq by (apply Qle_shift_div_r; lra).
  split; [by apply (rnd_least_int 0)|]. pose proof (rnd_err_pos (d / m) Hp). lra.
Qed.

Lemma max_element_ge data : ∀ d0, d0 <= max_element d0 data ∧ ∀ d, d ∈ data → d <= max_element d0 data.
Proof.
  induction data as [|x data IH]; intros d0; simpl.
  { split; [apply Qle_refl|]. by intros d ?%elem_of_nil. }
  destruct (Qlt_le_dec d0 x) as [Hx|Hx].
  - destruct (IH x) as [H1 H2]. split; [lra|]. intros d [->|Hd]%elem_of_cons; [done|by apply H2].
  - destruct (IH d0) as [H1 H2]. split; [done|]. intros d [->|Hd]%elem_of_cons; [lra|by apply H2].
Qed.

(** The lines of the curve join the points of consecutive samples. *)
Lemma curve_elem p max size data : ∀ i c, c ∈ curve rnd p max size i data →
  ∃ j d e, (i <= j < i + Z.of_nat (length data) - 1)%Z ∧ d ∈ data ∧ e ∈ data ∧
    c = Line (getX rnd p j size) (getY rnd p (rnd (d / max))) (getX rnd p (j + 1) size) (getY rnd p (rnd (e / max))) Black.
Proof.
  induction data as [|d data IH]; intros i c; simpl; [by intros ?%elem_of_nil|].
  destruct data as [|e data]; [by intros ?%elem_of_nil|]. intros [->|Hc]%elem_of_cons.
  - exists i, d, e. split_and!; [lia|simpl; lia|by left|by right; left|done].
  - destruct (IH (i + 1)%Z c Hc) as (j & d' & e' & Hj & Hd & He & ->). exists j, d', e'. simpl in *.
    split_and!; [lia|lia|by right|by right|done].
Qed.

Lemma draw_black p data x1 y1 x2 y2 :
  Line x1 y1 x2 y2 Black ∈ draw rnd p data → ∃ d0, d0 ∈ data ∧
    Line x1 y1 x2 y2 Black ∈ curve rnd p (scale rnd (max_element d0 data)) (Z.of_nat (length data)) 0 data.
Proof.
  unfold draw. intros [H|[H|H]%elem_of_app]%elem_of_app.
  - by apply list_elem_of_singleton in H.
  - destruct data as [|d0 [|d1 data]]; [by apply elem_of_nil in H..|]. exists d0. split; [by left|].
    apply elem_of_cons in H as [H|H]; [done|]. apply elem_of_app in H as [H|H]; [|done].
    unfold label in H. repeat (apply elem_of_cons in H as [H|H]; [done|]). by apply elem_of_nil in H.
  - repeat (apply elem_of_cons in H as [H|H]; [done|]). by apply elem_of_nil in H.
Qed.

Lemma getY_zero p : plot_ok p → getY rnd p 0 = m_height p.
Proof.
  intros Hp. pose proof (getY_range p 0 Hp ltac:(lra)) as Hr. pose proof (ok_height p Hp) as Hh. apply Z.le_antisymm; [lia|].
  destruct (getY_arg p 0 Hp ltac:(lra)) as [H0 _]. unfold getY in *. unfold s_kMarginY in *. rewrite Z.add_0_r in *.
  replace (m_height p - 2 * 0)%Z with (m_height p) in * by lia. rewrite trunc_floor by done.
  rewrite <-(Qfloor_Z (m_height p)) at 1. apply Qfloor_resp_le.
  assert (1 <= rnd (1 - 0)) as H1 by (apply (rnd_least_int 1); [lia|unfold inject_Z; lra]).
  pose proof (inject_bound _ Hh) as Hb. apply rnd_least_int; [lia|].
  assert (inject_Z (m_height p) <= rnd (rnd (1 - 0) * inject_Z (m_height p))) by (apply rnd_least_int; [lia|nra]). lra.
Qed.

End bounds.

(** The curve lies within the chart. *)
Lemma chart_curve (rnd : Q → Q) `{!Rounding rnd} (p : Plot) (data : list Q) :
  plot_ok rnd p → Forall (Qle 0) data → Z.of_nat (length data) * m_samplingPeriod p <= m_totalSeconds p →
  ∀ x1 y1 x2 y2, Line x1 y1 x2 y2 Black ∈ draw rnd p data →
    0 <= x1 <= x2 ∧ x2 <= plot_width p ∧ 0 <= y1 <= m_height p ∧ 0 <= y2 <= m_height p.
Proof.
  intros Hp Hpos Hfit x1 y1 x2 y2 (d0 & Hd0 & Hc)%draw_black. rewrite Forall_forall in Hpos.
  destruct (max_element_ge data d0) as [_ Hmax]. apply curve_elem in Hc as (j & d & e & Hj & Hd & He & [= -> -> -> ->]).
  pose proof (ok_period _ _ Hp) as Hper.
  pose proof (getX_range rnd p j (Z.of_nat (length data)) Hp ltac:(lia) ltac:(nia)).
  pose proof (getX_range rnd p (j + 1) (Z.of_nat (length data)) Hp ltac:(lia) ltac:(nia)).
  pose proof (getX_mono rnd p j (j + 1) (Z.of_nat (length data)) Hp ltac:(lia) ltac:(nia)).
  pose proof (getY_range rnd p _ Hp (scaled_unit rnd _ d (Hpos d Hd) (Hmax d Hd))).
  pose proof (getY_range rnd p _ Hp (scaled_unit rnd _ e (Hpos e He) (Hmax e He))). lia.
Qed.

(** C40. The chart of the samples that fit into its time: the curve stays within the width
    of the chart and within rows 0 to [m_height], from left to right, and a larger
    sample is never drawn below a smaller one, whatever the rounding. The axis of time
    is drawn two rows below the image. *)
Theorem chart_drawn (rnd : Q → Q) (p : Plot) (data : list Q) :
  Rounding rnd → plot_ok rnd p → Forall (Qle 0) data →
  Z.of_nat (length data) * m_samplingPeriod p <= m_totalSeconds p →
  (∀ x1 y1 x2 y2, Line x1 y1 x2 y2 Black ∈ draw rnd p data →
    0 <= x1 <= x2 ∧ x2 <= plot_width p ∧ 0 <= y1 <= m_height p ∧ 0 <= y2 <= m_height p) ∧
  (∀ d0 d e, d0 ∈ data → d ∈ data → e ∈ data → (d <= e)%Q →
    let y x := getY rnd p (rnd (x / scale rnd (max_element d0 data))%Q) in y e <= y d) ∧
  ∃ x1 x2, Line x1 (m_height p + 2) x2 (m_height p + 2) Gray ∈ draw rnd p data.
Proof.
  intros Hrnd Hp Hpos Hfit. split_and!.
  - by apply chart_curve.
  - intros d0 d e Hd0 Hd He Hle y. rewrite Forall_forall in Hpos. destruct (max_element_ge data d0) as [_ Hmax].
    apply getY_mono; [done|done|by apply scaled_unit; auto|by apply scaled_unit; auto|]. apply rnd_mono.
    destruct (scale_bound rnd (max_element d0 data)) as [Hs _]; [pose proof (Hmax d Hd); pose proof (Hpos d Hd); lra|].
    unfold Qdiv. apply Qmult_le_compat_r; [done|]. apply Qinv_le_0_compat. lra.
  - do 2 eexists. unfold draw. apply elem_of_app. right. apply elem_of_app. right. rewrite (getY_zero rnd p Hp).
    apply elem_of_cons. right. by left.
Qed.

(** Exact arithmetic, and the chart of the monitor with a font six wide. *)
Lemma exact_rounding : Rounding (λ x, x).
Proof.
  split; [done|reflexivity|]. intros x. assert (x - x == 0)%Q as -> by ring. pose proof (Qabs_nonneg x).
  change (Qabs 0) with 0%Q. lra.
Qed.

Definition cpu_chart : Plot := Plot_new (λ x, x) 640 100 600 2 6 13.

Lemma chart_drawn_witness :
  draw (λ x, x) cpu_chart [(1 # 4); (1 # 2)]%Q =
    [FilledRectangle 0 0 640 100 Background; SetThickness 2; String 620 (-3) (text "0.5") Black;
     String 620 91 (text "0") Gray; String 0 87 (text "-600s") Blue; Line 613 50 615 0 Black; SetThickness 1;
     Line 0 102 617 102 Gray; Line 617 102 617 2 Gray] ∧
  0 <= 613 <= 615.
Proof.
  destruct (chart_drawn (λ x, x) cpu_chart [(1 # 4); (1 # 2)]%Q exact_rounding) as [Hlines _].
  - split; vm_compute; (reflexivity || split; (reflexivity || discriminate)).
  - repeat constructor; discriminate.
  - vm_compute. discriminate.
  - split; [vm_compute; reflexivity|]. apply (Hlines 613 50 615 0). apply (bool_decide_unpack _). vm_compute. exact I.
Defined.
