(* ===== verification/Procmon.v ===== *)
(** The process monitor (4_procmon/procmon.cc): reading /proc/PID/stat, sampling
    the use of the processor, and the pages of its HTTP server. The files are
    read with [FileUtils]; links, directories, the clock, printing a floating
    point number and drawing the chart are arguments. *)

From Stdlib Require Import ZArith Lia.
From stdpp Require Import base numbers option strings pretty tactics list_numbers list.
From S2P Require Import Prelude StdSet Text FsUtil StringPiece Timestamp FileUtils ProcessInfo.

Local Open Scope Z_scope.

(** ** Reading with [std::istringstream] *)

(** What is left of the text, and whether the stream is still good. *)
Record istream : Type := mkStream { ibuf : list Z; good : bool }.

Fixpoint drop_digits (s : list Z) : list Z :=
  match s with
  | c :: s' => if is_digit c then drop_digits s' else s
  | [] => []
  end.

(** [>>] into a [char]: blanks are skipped; a stream at its end fails and leaves
    the variable as it is. *)
Definition get_char (old : Z) (st : istream) : Z * istream :=
  if good st then
    match skip_space (ibuf st) with
    | [] => (old, mkStream [] false)
    | c :: s => (c, mkStream s true)
    end
  else (old, st).

(** [>>] into a signed integer of [w] bits, which may have no value yet: a text
    that is no number gives 0, one outside the range the nearest value, and both
    fail. *)
Definition get_num (w : Z) (old : option Z) (st : istream) : option Z * istream :=
  if good st then
    match skip_space (ibuf st) with
    | [] => (old, mkStream [] false)
    | c :: s =>
      let neg := bool_decide (c = 45) in
      let s := if decide (c = 45 ∨ c = 43) then s else c :: s in
      if is_digit (default 0 (head s)) then
        let v := (if neg then -1 else 1) * digits 0 s in
        let v' := clamp (- 2 ^ (w - 1)) (2 ^ (w - 1) - 1) v in
        (Some v', mkStream (drop_digits s) (bool_decide (v = v')))
      else (Some 0, mkStream s false)
    end
  else (old, st).

(** ** [StatData] *)

Record StatData : Type := mkStatData {
  state : Z;
  ppid : Z; pgrp : Z; session : Z; tty_nr : Z; tpgid : Z; flags : Z;
  minflt : Z; cminflt : Z; majflt : Z; cmajflt : Z;
  utime : Z; stime : Z; cutime : Z; cstime : Z;
  priority : Z; nice : Z; num_threads : Z; itrealvalue : Z; starttime : Z;
  vsizeKb : Z; rssKb : Z; rsslim : Z
}.

(** [bzero]. *)
Definition StatData_zero : StatData := mkStatData 0 0 0 0 0 0 0 0 0 0 0 0 0 0 0 0 0 0 0 0 0 0 0.

(** A member keeps its value when nothing is read into it. *)
Definition get_member (w old : Z) (st : istream) : Z * istream :=
  let '(v, st) := get_num w (Some old) st in (default old v, st).

(** [vsize] and [rss] have no value before they are read. *)
Definition parse (d : StatData) (startAtState : list Z) (kbPerPage : Z) : outcome StatData :=
  let iss := mkStream startAtState true in
  let '(state_, iss) := get_char (state d) iss in
  let '(ppid_, iss) := get_member 32 (ppid d) iss in
  let '(pgrp_, iss) := get_member 32 (pgrp d) iss in
  let '(session_, iss) := get_member 32 (session d) iss in
  let '(tty_nr_, iss) := get_member 32 (tty_nr d) iss in
  let '(tpgid_, iss) := get_member 32 (tpgid d) iss in
  let '(flags_, iss) := get_member 32 (flags d) iss in
  let '(minflt_, iss) := get_member 64 (minflt d) iss in
  let '(cminflt_, iss) := get_member 64 (cminflt d) iss in
  let '(majflt_, iss) := get_member 64 (majflt d) iss in
  let '(cmajflt_, iss) := get_member 64 (cmajflt d) iss in
  let '(utime_, iss) := get_member 64 (utime d) iss in
  let '(stime_, iss) := get_member 64 (stime d) iss in
  let '(cutime_, iss) := get_member 64 (cutime d) iss in
  let '(cstime_, iss) := get_member 64 (cstime d) iss in
  let '(priority_, iss) := get_member 64 (priority d) iss in
  let '(nice_, iss) := get_member 64 (nice d) iss in
  let '(num_threads_, iss) := get_member 64 (num_threads d) iss in
  let '(itrealvalue_, iss) := get_member 64 (itrealvalue d) iss in
  let '(starttime_, iss) := get_member 64 (starttime d) iss in
  let '(vsize, iss) := get_num 64 None iss in
  let '(rss, iss) := get_num 64 None iss in
  let '(rsslim_, iss) := get_member 64 (rsslim d) iss in
  vsize ← deref vsize;
  rss ← deref rss;
  Ok (mkStatData state_ ppid_ pgrp_ session_ tty_nr_ tpgid_ flags_ minflt_ cminflt_ majflt_ cmajflt_
    utime_ stime_ cutime_ cstime_ priority_ nice_ num_threads_ itrealvalue_ starttime_
    (Z.quot vsize 1024) (s64 (rss * kbPerPage)) rsslim_).

(** ** [Procmon] *)

Record CpuTime : Type := mkCpuTime { userTime : Z; sysTime : Z }.

Definition m_kPeriod : Z := 2.

Record Procmon : Type := mkProcmon {
  m_kClockTicksPerSecond : Z;
  m_kbPerPage : Z;
  m_kBootTime : Z;
  m_pid : Z;
  m_procname : list Z;
  m_hostname : list Z;
  m_cmdline : list Z;
  m_ticks : Z;
  m_lastStatData : StatData;
  m_cpuUsage : list CpuTime;
  m_response : list Z
}.

Definition set_response (p : Procmon) (r : list Z) : Procmon :=
  mkProcmon (m_kClockTicksPerSecond p) (m_kbPerPage p) (m_kBootTime p) (m_pid p) (m_procname p) (m_hostname p)
    (m_cmdline p) (m_ticks p) (m_lastStatData p) (m_cpuUsage p) r.

Definition set_samples (p : Procmon) (ticks : Z) (last : StatData) (usage : list CpuTime) : Procmon :=
  mkProcmon (m_kClockTicksPerSecond p) (m_kbPerPage p) (m_kBootTime p) (m_pid p) (m_procname p) (m_hostname p)
    (m_cmdline p) ticks last usage (m_response p).

(** [boost::circular_buffer::push_back] with room for 600 / m_kPeriod samples. *)
Definition capacity : nat := Z.to_nat (600 / m_kPeriod).

Definition push_sample (l : list CpuTime) (t : CpuTime) : list CpuTime :=
  if decide (length l < capacity)%nat then l ++ [t] else drop 1 (l ++ [t]).

(** The text at a pointer, up to its terminator. *)
Definition cstring (p : pointer) : outcome (list Z) := n ← strlen p; load p n.

(** [parse(procname.end() + 1, m_kbPerPage)] into a cleared [StatData]. *)
Definition parse_line (stat : list Z) (kbPerPage : Z) : outcome StatData :=
  s ← cstring (ptr_add (end_ (procname stat)) 1);
  parse StatData_zero s kbPerPage.

Definition tick_line (p : Procmon) (stat : list Z) : outcome Procmon :=
  if decide (stat = []) then Ok p
  else
    sd ← parse_line stat (m_kbPerPage p);
    let usage :=
      if decide (0 < m_ticks p) then
        push_sample (m_cpuUsage p) (mkCpuTime
          (Z.max 0 (s32 (s64 (utime sd - utime (m_lastStatData p)))))
          (Z.max 0 (s32 (s64 (stime sd - stime (m_lastStatData p))))))
      else m_cpuUsage p in
    Ok (set_samples p (s32 (m_ticks p + 1)) sd usage).

Definition getState (state : Z) : list Z :=
  if decide (state = 82) then text "Running"
  else if decide (state = 83) then text "Sleeping"
  else if decide (state = 68) then text "Disk sleep"
  else if decide (state = 90) then text "Zombie"
  else text "Unknown".

(** [atol] after the first occurrence of the key. *)
Definition getLong (status key : list Z) : Z :=
  match find_sub key status with
  | Some pos => clamp (- 2 ^ 63) (2 ^ 63 - 1) (atoi (c_str (drop (pos + length key) status)))
  | None => 0
  end.

(** [boost::replace_all_copy] of a single character. *)
Definition replace_char (c : Z) (by_ s : list Z) : list Z :=
  concat ((λ x, if decide (x = c) then by_ else [x]) <$> s).

Definition getStartTime (p : Procmon) (starttime : Z) : Timestamp :=
  s64 (s64 (kMicroSecondsPerSecond * m_kBootTime p) +
       Z.quot (s64 (kMicroSecondsPerSecond * starttime)) (m_kClockTicksPerSecond p)).

(** ** The answers *)

(** [vsnprintf] into an array of 1024 bytes, and the array appended to the
    response. *)
Definition appendResponse (p : Procmon) (formatted : list Z) : Procmon :=
  set_response p (m_response p ++ c_str (take 1023 formatted)).

(** [m_response << text]. *)
Definition put (p : Procmon) (s : list Z) : Procmon := set_response p (m_response p ++ s).

Definition quoted (s : string) : list Z := [34] ++ text s ++ [34].

Definition row (name value : list Z) : list Z :=
  text "<tr><td>" ++ c_str name ++ text "</td><td>" ++ value ++ text "</td></tr>" ++ [10].

Definition appendTableRow_long (p : Procmon) (name : string) (value : Z) : Procmon :=
  appendResponse p (row (text name) (dec value)).

Definition appendTableRow (p : Procmon) (name : string) (value : list Z) : Procmon :=
  appendResponse p (row (text name) (c_str value)).

Definition fillRefresh (p : Procmon) (query : list Z) : Procmon :=
  match find_sub (text "refresh=") query with
  | None => p
  | Some pos =>
    let seconds := atoi32 (drop (pos + 8) query) in
    if decide (0 < seconds) then
      appendResponse p (text "<meta http-equiv=" ++ quoted "refresh" ++ text " content=" ++ [34] ++ dec seconds ++
        [34] ++ text ">" ++ [10])
    else p
  end.

Definition getDirType (d_type : Z) : Z :=
  if decide (d_type = DT_REG) then 45
  else if decide (d_type = DT_DIR) then 100
  else if decide (d_type = DT_LNK) then 108
  else 63.

Definition dirFilter (d_name : list Z) : bool := negb (bool_decide (default 0 (head d_name) = 46)).

(** One entry of [listFiles]: [st] is what [lstat] finds, the modification time
    and the size; [link] what [readlink] finds. *)
Definition list_file (p : Procmon) (d_name : list Z) (d_type : Z) (st : option (Z * Z)) (link : option (list Z)) : Procmon :=
  match st with
  | None => p
  | Some (st_mtime, st_size) =>
    let mtime := s64 (st_mtime * kMicroSecondsPerSecond) in
    let p := appendResponse p ([getDirType d_type] ++ text " " ++ printf_ 9 st_size ++ text " " ++
      toFormattedString mtime false ++ text " " ++ c_str d_name) in
    let p :=
      if decide (d_type = DT_LNK) then
        match link with
        | Some target => if decide (target = []) then p
                         else appendResponse p (text " -> " ++ c_str (take 1023 target))
        | None => p
        end
      else p in
    appendResponse p [10]
  end.

(** The entries of the directory in the order of [alphasort], each with what is
    found about it. *)
Definition listFiles (p : Procmon) (entries : list (list Z * Z * option (Z * Z) * option (list Z))) : Procmon :=
  foldl (λ p e, let '(d_name, d_type, st, link) := e in list_file p d_name d_type st link)
    (set_response p []) (filter (λ e, dirFilter e.1.1.1 = true) entries).

Definition listThreads (p : Procmon) : Procmon := set_response p [].

Section pages.
Context {K : Type} `{Files K}.
(** [readlink] of a path, printing a number of seconds ([ticks] over the ticks of
    a second) with [%.2f], and the chart. *)
Context (readlink : list Z → option (list Z)) (seconds_text : Z → Z → list Z) (plot : list (Z * Z) → list Z).

Definition proc_path (pid : Z) (basename : list Z) : list Z := text "/proc/" ++ dec pid ++ text "/" ++ basename.

Definition readProcFile (fuel : nat) (k : K) (pid : Z) (basename : string) : outcome (list Z * K) :=
  readFile_text fuel k (proc_path pid (text basename)) (1024 * 1024).

Definition readLink (pid : Z) (basename : string) : list Z :=
  match readlink (proc_path pid (text basename)) with
  | Some target => if decide (target = []) then [] else take 1024 target
  | None => []
  end.

Definition getCmdLine (fuel : nat) (k : K) (pid : Z) : outcome (list Z * K) :=
  '(s, k) ← readProcFile fuel k pid "cmdline"; Ok (replace_char 0 [10; 9] s, k).

Definition getEnviron (fuel : nat) (k : K) (pid : Z) : outcome (list Z * K) :=
  '(s, k) ← readProcFile fuel k pid "environ"; Ok (replace_char 0 [10] s, k).

Definition getBootTime (fuel : nat) (k : K) : outcome (Z * K) :=
  '(stat, k) ← readFile_text fuel k (text "/proc/stat") 65536; Ok (getLong stat (text "btime "), k).

(** The constructor; changing to the directory of the process is left out. *)
Definition Procmon_new (fuel : nat) (k : K) (clockTicks pageSize pid : Z) (name host : list Z) : outcome (Procmon * K) :=
  '(boot, k) ← getBootTime fuel k;
  '(cmdline, k) ← getCmdLine fuel k pid;
  Ok (mkProcmon clockTicks (Z.quot pageSize 1024) boot pid name host cmdline 0 StatData_zero [] [], k).

Definition tick (fuel : nat) (k : K) (p : Procmon) : outcome (Procmon * K) :=
  '(stat, k) ← readProcFile fuel k (m_pid p) "stat";
  p ← tick_line p stat;
  Ok (p, k).

Definition appendTableRowFloat (p : Procmon) (name : string) (ticks : Z) : Procmon :=
  appendResponse p (row (text name) (seconds_text ticks (m_kClockTicksPerSecond p))).

Definition refresh_links : list Z :=
  concat ((λ n, text "<a href=" ++ [34] ++ text "?refresh=" ++ dec n ++ [34] ++ text ">" ++ dec n ++ text "s</a>")
    <$> [1]) ++ text " " ++
  concat ((λ n, text "<a href=" ++ [34] ++ text "?refresh=" ++ dec n ++ [34] ++ text ">" ++ dec n ++ text "s</a> ")
    <$> [2; 5; 15]) ++
  text "<a href=" ++ quoted "?refresh=60" ++ text ">60s</a>" ++ [10].

Definition page_links : list Z :=
  text "<p><a href=" ++ quoted "/cmdline" ++ text ">Command line</a>" ++ [10] ++
  text "<a href=" ++ quoted "/environ" ++ text ">Environment variables</a>" ++ [10] ++
  text "<a href=" ++ quoted "/threads" ++ text ">Threads</a>" ++ [10].

(** The rows of the table. *)
Definition overview_rows (p : Procmon) (now : Timestamp) (pid : Z) (d : StatData) : Procmon :=
  let p := appendTableRow_long p "PID" pid in
  let started := getStartTime p (starttime d) in
  let p := appendTableRow p "Started at" (toFormattedString started false ++ text " (UTC)") in
  let p := appendTableRow p "Uptime (s)" (timeDifferenceFormat now started) in
  let p := appendTableRow p "Executable" (readLink (m_pid p) "exe") in
  let p := appendTableRow p "Current dir" (readLink (m_pid p) "cwd") in
  let p := appendTableRow p "State" (getState (state d)) in
  let p := appendTableRowFloat p "User time (s)" (utime d) in
  let p := appendTableRowFloat p "System time (s)" (stime d) in
  let p := appendTableRow_long p "VmSize (KiB)" (vsizeKb d) in
  let p := appendTableRow_long p "VmRSS (KiB)" (rssKb d) in
  let p := appendTableRow_long p "Threads" (num_threads d) in
  let p := appendTableRow p "CPU usage" (text "<img src=" ++ quoted "/cpu.png" ++ text " height=" ++ quoted "100" ++
    text " witdh=" ++ quoted "640" ++ text ">") in
  let p := appendTableRow_long p "Priority" (priority d) in
  let p := appendTableRow_long p "Nice" (nice d) in
  let p := appendTableRow_long p "Minor page faults" (minflt d) in
  appendTableRow_long p "Major page faults" (majflt d).

Definition fillOverview (fuel : nat) (k : K) (p : Procmon) (now : Timestamp) (query : list Z) : outcome (Procmon * K) :=
  let p := set_response p [] in
  let p := appendResponse p (text "<html><head><title>" ++ c_str (m_procname p) ++ text " on " ++
    c_str (m_hostname p) ++ text "</title>" ++ [10]) in
  let p := fillRefresh p query in
  let p := appendResponse p (text "</head><body>" ++ [10]) in
  '(stat, k) ← readProcFile fuel k (m_pid p) "stat";
  if decide (stat = []) then
    Ok (appendResponse p (text "<h1>PID " ++ dec (m_pid p) ++ text " doesn't exist.</h1></body></html>"), k)
  else
    let pid := atoi32 stat in
    if decide (pid = m_pid p) then
      let p := appendResponse p (text "<h1>" ++ c_str (m_procname p) ++ text " on " ++ c_str (m_hostname p) ++
        text "</h1>" ++ [10]) in
      let p := put p (text "<p>Refresh " ++ refresh_links ++ page_links) in
      let p := appendResponse p (text "<p>Page generated at " ++ toFormattedString now false ++ text " (UTC)") in
      let p := put p (text "<p><table>") in
      d ← parse_line stat (m_kbPerPage p);
      let p := overview_rows p now pid d in
      Ok (put p (text "</table></body></html>"), k)
    else Throw (assertion_failed "pid == m_pid").

(** ** The servlets *)

Inductive page : Type := Overview | Cmdline | CpuPng | Environ | FileList | ThreadList | ProcFile (name : string).

Definition s_paths : list string := ["io"; "limits"; "maps"; "smaps"; "status"]%string.

(** The paths [addServlets] registers, in its order. *)
Definition addServlets : list (list Z * page) :=
  [(text "/", Overview); (text "/cmdline", Cmdline); (text "/cpu.png", CpuPng); (text "/environ", Environ);
   (text "/files", FileList); (text "/threads", ThreadList)] ++
  ((λ n, (text "/" ++ text n, ProcFile n)) <$> s_paths).

(** What a servlet puts into its response: the content type and the body. *)
Definition serve (fuel : nat) (k : K) (p : Procmon) (now : Timestamp) (query : list Z)
    (entries : list (list Z * Z * option (Z * Z) * option (list Z))) (pg : page) :
    outcome (list Z * list Z * Procmon * K) :=
  match pg with
  | Overview => '(p, k) ← fillOverview fuel k p now query; Ok (text "text/html", m_response p, p, k)
  | Cmdline => Ok (text "text/plain", m_cmdline p, p, k)
  | CpuPng =>
    Ok (text "image/png", plot ((λ t, (s32 (userTime t + sysTime t), m_kClockTicksPerSecond p * m_kPeriod)) <$> m_cpuUsage p), p, k)
  | Environ => '(s, k) ← getEnviron fuel k (m_pid p); Ok (text "text/plain", s, p, k)
  | FileList => let p := listFiles p entries in Ok (text "text/plain", m_response p, p, k)
  | ThreadList => let p := listThreads p in Ok (text "text/plain", m_response p, p, k)
  | ProcFile name => '(s, k) ← readProcFile fuel k (m_pid p) name; Ok (text "text/plain", s, p, k)
  end.

End pages.

(** ** The line of a process is read as it was printed *)

(** A number after a blank, as the kernel prints it. *)
Definition field (n : Z) (t : list Z) : list Z := 32 :: dec n ++ t.

Definition ints (d : StatData) : list Z := [ppid d; pgrp d; session d; tty_nr d; tpgid d; flags d].

Definition longs (d : StatData) : list Z :=
  [minflt d; cminflt d; majflt d; cmajflt d; utime d; stime d; cutime d; cstime d; priority d; nice d;
   num_threads d; itrealvalue d; starttime d].

(** /proc/PID/stat: the name of the program may hold any characters. [limit] is
    the resident set limit, an unsigned number. *)
Definition stat_line (pid : Z) (name : list Z) (d : StatData) (vsize rss limit : Z) (t : list Z) : list Z :=
  dec pid ++ 32 :: 40 :: name ++ 41 :: 32 :: state d ::
    foldr field t (ints d ++ longs d ++ [vsize; rss; limit]).

(** The values a line can have. *)
Record sample_ok (name : list Z) (d : StatData) (vsize rss limit : Z) (t : list Z) : Prop := {
  sample_name : Z.of_nat (length name) < 2 ^ 31 - 2;
  sample_state : is_space (state d) = false ∧ state d ≠ 0 ∧ state d ≠ 41;
  sample_ints : Forall (in_signed 32) (ints d);
  sample_longs : Forall (in_signed 64) (longs d ++ [vsize; rss]);
  sample_tail : match t with c :: _ => is_digit c = false | [] => True end ∧ (41 ∉ t) ∧ (0 ∉ t)
}.

Lemma drop_digits_all s t :
  Forall (λ c, is_digit c = true) s → match t with c :: _ => is_digit c = false | [] => True end →
  drop_digits (s ++ t) = t.
Proof.
  intros Hs Ht. induction Hs as [|c s Hc _ IH]; cbn [app drop_digits].
  - destruct t as [|c t]; [done|]. cbn [drop_digits]. by rewrite Ht.
  - by rewrite Hc.
Qed.

Lemma dec_head n : 0 <= n → ∃ c s, dec n = c :: s ∧ is_digit c = true.
Proof.
  intros Hn. pose proof (dec_digits n Hn) as Hd. pose proof (dec_nonempty n Hn). destruct (dec n) as [|c s]; [done|].
  apply Forall_cons in Hd as [? _]. eauto.
Qed.

Lemma digit_plain c : is_digit c = true → is_space c = false ∧ c ≠ 45 ∧ c ≠ 43 ∧ c ≠ 0 ∧ c ≠ 41.
Proof. intros Hc%bool_decide_eq_true. split; [apply bool_decide_eq_false; lia|lia]. Qed.

Lemma dec_neg n : n < 0 → dec n = 45 :: dec (- n).
Proof. intros Hn. destruct n as [|p|p]; [lia..|]. exact (text_cons _ _). Qed.

Lemma get_num_field w old n t :
  match t with c :: _ => is_digit c = false | [] => True end →
  let v := clamp (- 2 ^ (w - 1)) (2 ^ (w - 1) - 1) n in
  get_num w old (mkStream (field n t) true) = (Some v, mkStream t (bool_decide (n = v))).
Proof.
  intros Ht. unfold get_num, field. cbn [good ibuf skip_space]. replace (is_space 32) with true by done.
  destruct (Z.neg_nonneg_cases n) as [Hn|Hn].
  - rewrite dec_neg by done. cbn [app skip_space]. replace (is_space 45) with false by done.
    rewrite decide_True by auto. rewrite bool_decide_eq_true_2 by done.
    destruct (dec_head (- n) ltac:(lia)) as (c & s & E & Hc). rewrite E. cbn [app head default]. cbn [from_option id].
    rewrite Hc, app_comm_cons, <-E. rewrite digits_dec by (done || lia).
    rewrite drop_digits_all by (done || apply dec_digits; lia). by replace (-1 * - n) with n by lia.
  - destruct (dec_head n ltac:(lia)) as (c & s & E & Hc). destruct (digit_plain c Hc) as (Hs & H45 & H43 & _).
    rewrite E. cbn [app skip_space]. rewrite Hs. rewrite decide_False by naive_solver. rewrite bool_decide_eq_false_2 by done.
    cbn [head default from_option id]. rewrite Hc, app_comm_cons, <-E. rewrite digits_dec by done.
    rewrite drop_digits_all by (done || by apply dec_digits). by rewrite Z.mul_1_l.
Qed.

Lemma clamp_signed w n : in_signed w n → clamp (- 2 ^ (w - 1)) (2 ^ (w - 1) - 1) n = n.
Proof. unfold in_signed, clamp. lia. Qed.

Lemma get_member_field w old n t :
  in_signed w n → match t with c :: _ => is_digit c = false | [] => True end →
  get_member w old (mkStream (field n t) true) = (n, mkStream t true).
Proof.
  intros Hn Ht. unfold get_member. rewrite get_num_field by done. rewrite clamp_signed by done.
  by rewrite bool_decide_eq_true_2.
Qed.

Lemma get_local_field w n t :
  in_signed w n → match t with c :: _ => is_digit c = false | [] => True end →
  get_num w None (mkStream (field n t) true) = (Some n, mkStream t true).
Proof. intros Hn Ht. rewrite get_num_field by done. rewrite clamp_signed by done. by rewrite bool_decide_eq_true_2. Qed.

(** The values that [parse] makes of a line. *)
Definition parsed (d : StatData) (vsize rss limit kbPerPage : Z) : StatData :=
  mkStatData (state d) (ppid d) (pgrp d) (session d) (tty_nr d) (tpgid d) (flags d) (minflt d) (cminflt d)
    (majflt d) (cmajflt d) (utime d) (stime d) (cutime d) (cstime d) (priority d) (nice d) (num_threads d)
    (itrealvalue d) (starttime d) (Z.quot vsize 1024) (s64 (rss * kbPerPage)) (clamp (- 2 ^ 63) (2 ^ 63 - 1) limit).

Lemma parse_ok name d vsize rss limit t kbPerPage d0 :
  sample_ok name d vsize rss limit t →
  parse d0 (32 :: state d :: foldr field t (ints d ++ longs d ++ [vsize; rss; limit])) kbPerPage =
    Ok (parsed d vsize rss limit kbPerPage).
Proof.
  intros [_ (Hs & _ & _) Hi Hl (Ht & _ & _)]. unfold ints, longs in *. cbn [app foldr] in *.
  repeat match goal with H : Forall _ (_ :: _) |- _ => apply Forall_cons in H as [? H] end.
  unfold parse, get_char. cbn [good ibuf skip_space]. replace (is_space 32) with true by done. rewrite Hs.
  repeat (rewrite get_member_field by done). rewrite !get_local_field by done.
  unfold get_member. rewrite get_num_field by done. done.
Qed.

Lemma c_str_app_end l : c_str (l ++ [0]) = c_str l.
Proof. induction l as [|c l IH]; cbn [app c_str]; [done|]. case_decide; [done|]. by rewrite IH. Qed.

Lemma take_c_str l : take (length (c_str l)) l = c_str l.
Proof. induction l as [|c l IH]; cbn [c_str]; [done|]. case_decide; cbn [length take]; [done|]. by rewrite IH. Qed.

Lemma c_str_length l : (length (c_str l) <= length l)%nat.
Proof. rewrite <-take_c_str. rewrite length_take. lia. Qed.

(** A pointer into a [std::string] gives the rest of it. *)
Lemma cstring_ok s (i : nat) :
  (i <= length s)%nat → cstring (mkPtr (Some (s ++ [0])) (Z.of_nat i)) = Ok (c_str (drop i s)).
Proof.
  intros Hi. unfold cstring, strlen. cbn [object offset]. osimpl. rewrite Nat2Z.id.
  rewrite drop_app_le by done. rewrite decide_True; cycle 1.
  { split; [lia|]. apply elem_of_app. right. by left. }
  osimpl. rewrite c_str_app_end. unfold load. cbn [object offset].
  case_decide as Hz; [by destruct (c_str (drop i s))|]. osimpl.
  pose proof (c_str_length (drop i s)) as Hl. rewrite length_drop in Hl.
  rewrite decide_True by (rewrite length_app; simpl; lia). unfold slice. rewrite !Nat2Z.id.
  rewrite drop_app_le by done. rewrite take_app_le by apply c_str_length. by rewrite take_c_str.
Qed.

Lemma field_free c n t : is_digit c = false → c ≠ 45 → c ≠ 32 → (c ∉ t) → c ∉ field n t.
Proof.
  intros Hc H45 H32 Ht. unfold field. rewrite not_elem_of_cons, not_elem_of_app. split_and!; [done| |done].
  assert (∀ m, 0 <= m → c ∉ dec m) as Hm.
  { intros m Hm Hin. pose proof (dec_digits m Hm) as Hd. rewrite Forall_forall in Hd. apply Hd in Hin. congruence. }
  destruct (Z.neg_nonneg_cases n); [|by apply Hm]. rewrite dec_neg by done. rewrite not_elem_of_cons. split; [done|]. apply Hm. lia.
Qed.

Lemma fields_free c l t : is_digit c = false → c ≠ 45 → c ≠ 32 → (c ∉ t) → c ∉ foldr field t l.
Proof. intros Hc H45 H32 Ht. induction l as [|n l IH]; [done|]. cbn [foldr]. by apply field_free. Qed.

Lemma parse_line_ok pid name d vsize rss limit t kbPerPage :
  0 <= pid → sample_ok name d vsize rss limit t →
  parse_line (stat_line pid name d vsize rss limit t) kbPerPage = Ok (parsed d vsize rss limit kbPerPage).
Proof.
  intros Hpid Hok. unfold parse_line, stat_line.
  pose proof Hok as [Hname (Hs & H0 & H41) _ _ (_ & Ht41 & Ht0)].
  set (body := foldr field t _). set (tail := 32 :: state d :: body).
  assert (40 ∉ dec pid ++ [32]) as Hp.
  { rewrite not_elem_of_app, list_elem_of_singleton. split; [|done]. intros Hin.
    pose proof (dec_digits pid Hpid) as Hd. rewrite Forall_forall in Hd. by apply Hd in Hin. }
  assert (∀ c, is_digit c = false → c ≠ 45 → c ≠ 32 → c ≠ state d → (c ∉ t) → c ∉ tail) as Hfree.
  { intros c ? ? ? ? ?. unfold tail. rewrite !not_elem_of_cons. split_and!; [done|done|]. by apply fields_free. }
  replace (dec pid ++ 32 :: 40 :: name ++ 41 :: tail) with ((dec pid ++ [32]) ++ 40 :: name ++ 41 :: tail)
    by (by rewrite <-app_assoc).
  destruct (procname_ok (dec pid ++ [32]) name tail) as [_ ->]; [done|apply Hfree; done|done|].
  unfold ptr_add. cbn [object offset]. set (stat := (dec pid ++ [32]) ++ _).
  replace (Z.of_nat (length (dec pid ++ [32]) + 1 + length name) + 1)
    with (Z.of_nat (length ((dec pid ++ [32]) ++ 40 :: name ++ [41]))) by (rewrite !length_app; cbn [length]; rewrite length_app; cbn [length]; lia).
  assert (stat = ((dec pid ++ [32]) ++ 40 :: name ++ [41]) ++ tail) as ->.
  { unfold stat. rewrite <-!app_assoc. cbn [app]. by rewrite <-app_assoc. }
  generalize ((dec pid ++ [32]) ++ 40 :: name ++ [41]). intros pre.
  rewrite cstring_ok by (rewrite length_app; lia). osimpl. rewrite drop_app_length.
  rewrite c_str_id. { by apply (parse_ok name). }
  apply Forall_forall. intros c Hc ->. revert Hc. apply Hfree; done.
Qed.

(** ** Sampling *)

(** A reading of the monitored process: what its line holds. *)
Record reading : Type := mkReading {
  r_name : list Z; r_data : StatData; r_vsize : Z; r_rss : Z; r_limit : Z; r_tail : list Z
}.

Definition reading_ok (r : reading) : Prop :=
  sample_ok (r_name r) (r_data r) (r_vsize r) (r_rss r) (r_limit r) (r_tail r).

Definition line_of (pid : Z) (r : reading) : list Z :=
  stat_line pid (r_name r) (r_data r) (r_vsize r) (r_rss r) (r_limit r) (r_tail r).

Fixpoint ticks_lines (p : Procmon) (lines : list (list Z)) : outcome Procmon :=
  match lines with
  | [] => Ok p
  | l :: lines => p ← tick_line p l; ticks_lines p lines
  end.

(** The time used between two readings. *)
Definition used (a b : reading) : CpuTime :=
  mkCpuTime (Z.max 0 (s32 (s64 (utime (r_data b) - utime (r_data a)))))
            (Z.max 0 (s32 (s64 (stime (r_data b) - stime (r_data a))))).

Fixpoint usages (rs : list reading) : list CpuTime :=
  match rs with
  | a :: (b :: _) as rs' => used a b :: usages rs'
  | _ => []
  end.

Definition last_n {A} (n : nat) (l : list A) : list A := drop (length l - n) l.

Lemma push_sample_last l x : push_sample (last_n capacity l) x = last_n capacity (l ++ [x]).
Proof.
  unfold push_sample, last_n. rewrite length_drop, length_app. cbn [length].
  assert (0 < capacity)%nat by (unfold capacity, m_kPeriod; vm_compute; lia). case_decide as Hl.
  - assert (length l < capacity)%nat by lia. replace (length l - capacity)%nat with 0%nat by lia.
    by replace (length l + 1 - capacity)%nat with 0%nat by lia.
  - replace (length l + 1 - capacity)%nat with (S (length l - capacity)) by lia.
    rewrite <-drop_app_le by lia. rewrite drop_drop. f_equal. lia.
Qed.

(** The states of a monitor after some readings. *)
Definition sampled (p0 p : Procmon) (rs : list reading) : Prop :=
  m_ticks p = Z.of_nat (length rs) ∧ m_cpuUsage p = last_n capacity (usages rs) ∧
  m_pid p = m_pid p0 ∧ m_kbPerPage p = m_kbPerPage p0 ∧
  ∀ r, last rs = Some r → m_lastStatData p = parsed (r_data r) (r_vsize r) (r_rss r) (r_limit r) (m_kbPerPage p0).

Lemma usages_snoc rs a b : usages (rs ++ [a; b]) = usages (rs ++ [a]) ++ [used a b].
Proof.
  induction rs as [|x rs IH]; [done|]. destruct rs as [|y rs]; [done|].
  change (used x y :: usages ((y :: rs) ++ [a; b]) = used x y :: usages ((y :: rs) ++ [a]) ++ [used a b]). by rewrite IH.
Qed.

Lemma tick_sampled p0 p rs r :
  0 <= m_pid p0 → reading_ok r → Z.of_nat (length rs) < 2 ^ 31 - 1 → sampled p0 p rs →
  ∃ p', tick_line p (line_of (m_pid p0) r) = Ok p' ∧ sampled p0 p' (rs ++ [r]).
Proof.
  intros Hpid Hr Hlen (Ht & Hu & Hp & Hk & Hlast). unfold tick_line.
  rewrite decide_False by (unfold line_of, stat_line; by destruct (dec (m_pid p0))).
  unfold line_of. rewrite parse_line_ok by done. osimpl. eexists. split; [done|].
  unfold sampled, set_samples. cbn [m_ticks m_cpuUsage m_pid m_kbPerPage m_lastStatData].
  rewrite Ht, Hk, length_app. cbn [length]. split_and!; [|..|done|done|].
  - rewrite swrap_small by (unfold in_signed; lia). lia.
  - destruct rs as [|a rs _] using rev_ind; [done|]. rewrite decide_True by (rewrite length_app; simpl; lia).
    rewrite (Hlast a) by (by rewrite last_snoc). rewrite Hu, push_sample_last.
    replace ((rs ++ [a]) ++ [r]) with (rs ++ [a; r]) by (by rewrite <-app_assoc). by rewrite usages_snoc.
  - intros r'. rewrite last_snoc. by intros [= <-].
Qed.

(** The monitor samples exactly: whatever name the process has, with blanks
    and parentheses in it, every line of /proc/PID/stat is read as it was
    printed; after any number of ticks the last reading is kept, and the chart
    holds the times used between readings that follow each other, the last 300
    of them in their order. *)
Theorem procmon_samples p0 rs :
  m_ticks p0 = 0 → m_cpuUsage p0 = [] → 0 <= m_pid p0 → Forall reading_ok rs → Z.of_nat (length rs) < 2 ^ 31 →
  ∃ p, ticks_lines p0 (line_of (m_pid p0) <$> rs) = Ok p ∧
    m_cpuUsage p = drop (length (usages rs) - 300) (usages rs) ∧ m_ticks p = Z.of_nat (length rs) ∧
    ∀ r, last rs = Some r → m_lastStatData p = parsed (r_data r) (r_vsize r) (r_rss r) (r_limit r) (m_kbPerPage p0).
Proof.
  intros H0 Hu Hpid Hrs Hlen.
  assert (∀ done todo p, rs = done ++ todo → sampled p0 p done →
    ∃ p', ticks_lines p (line_of (m_pid p0) <$> todo) = Ok p' ∧ sampled p0 p' rs) as Hloop.
  { intros done todo. revert done. induction todo as [|r todo IH]; intros dn p -> Hs.
    - exists p. split; [done|]. by rewrite app_nil_r.
    - apply Forall_app in Hrs as [Hdn Hrs]. apply Forall_cons in Hrs as [Hr Htodo].
      rewrite length_app in Hlen. simpl in Hlen.
      destruct (tick_sampled p0 p dn r) as (p1 & E & Hs1); [done|done|lia|done|].
      rewrite fmap_cons. cbn [ticks_lines]. rewrite E. osimpl.
      destruct (IH (dn ++ [r]) p1) as (p2 & -> & Hs2); [by rewrite <-app_assoc|done|].
      exists p2. split; [done|]. done. }
  destruct (Hloop [] rs p0 eq_refl) as (p & -> & Ht & Hus & _ & _ & Hlast).
  { split_and!; done. }
  exists p. split_and!; done.
Qed.

Module SampleLine.

(** The process of the comment in the source. *)
Definition dummyload : StatData :=
  mkStatData 83 3161 3327 3161 34821 3327 4194304 439 0 0 0 573 10 0 0 20 0 2 0 135290 0 0 0.

Definition first_reading : reading :=
  mkReading (text "dummy (load)") dummyload 24911872 2656 18446744073709551615 (text " 99751965802496").

Definition monitor : Procmon := mkProcmon 100 4 0 3327 [] [] [] 0 StatData_zero [] [].

Lemma first_reading_ok : reading_ok first_reading.
Proof.
  split; [done|done| | |split; [done|]].
  - repeat (constructor; [unfold in_signed; simpl; lia|]). constructor.
  - repeat (constructor; [unfold in_signed; simpl; lia|]). constructor.
  - split; apply (bool_decide_unpack _); vm_compute; done.
Qed.

Lemma procmon_samples_witness :
  ∃ p, ticks_lines monitor (line_of 3327 <$> [first_reading; first_reading]) = Ok p ∧
    m_cpuUsage p = [mkCpuTime 0 0] ∧ m_ticks p = 2.
Proof.
  destruct (procmon_samples monitor [first_reading; first_reading]) as (p & E & H1 & H2 & _);
    [reflexivity|reflexivity|simpl; lia|apply Forall_cons; split; [|apply Forall_cons; split; [|constructor]]; exact first_reading_ok|simpl; lia|].
  exists p. split; [exact E|]. split; [exact H1|exact H2].
Defined.

(** A line without a closing parenthesis leads to a read through a null
    pointer. *)
Example no_name : tick_line monitor (text "3327") = Stuck.
Proof. reflexivity. Qed.

End SampleLine.

(** ** The monitor put together *)

(** The monitor put together (the rest of 4_procmon/procmon.cc): its main function, the
    start with the timer and the pages, and the chart of its samples, over [Procmon],
    [Plot], [Timer] and [Servlet]. *)

From Stdlib Require Import ZArith QArith Lqa Lia.
From stdpp Require Import base numbers gmap option strings tactics list_numbers sets list.
From S2P Require Import Prelude StdSet Text FsUtil Timestamp FileUtils Plot Timer Servlet.

Local Open Scope Z_scope.

(** ** The main function *)

(** What [main] does: print its usage, give up, or run the monitor. *)
Inductive main_action : Type := Usage | NoProcess (pid : Z) | RunMonitor (pid port : Z) (name : list Z).

Definition main_status (a : main_action) : Z := match a with NoProcess _ => 1 | _ => 0 end.

(** [ProcessExists(pid)] with [access(2)]. *)
Definition ProcessExists (readable : list Z → bool) (pid : Z) : bool :=
  readable (text "/proc/" ++ dec pid ++ text "/stat").

Definition monitor_main (readable : list Z → bool) (argv : list (list Z)) : main_action :=
  match argv with
  | _ :: pid :: port :: rest =>
    let pid := atoi32 pid in
    if ProcessExists readable pid then RunMonitor pid (u16 (atoi32 port)) (default [] (head rest)) else NoProcess pid
  | _ => Usage
  end.

(** [run_procmon] up to the constructor: the waits until the server is bound, and the
    name that is shown; [own] is the name of the monitor itself. *)
Fixpoint bind_loop (binds : list bool) : option nat :=
  match binds with
  | [] => None
  | ok :: binds => if ok then Some 0%nat else S <$> bind_loop binds
  end.

Definition shown_name (own name : list Z) : list Z := if decide (name = []) then own else name.

(** ** The pages *)

(** [addServlets] on the dispatcher of the server: the [i]-th page is function [i]. *)
Fixpoint add_pages (i : nat) (pages : list (list Z * page)) (d : ServletDispatch) : ServletDispatch :=
  match pages with
  | [] => d
  | (path, _) :: pages => add_pages (S i) pages (addServlet d path (FunctionServlet i))
  end.

(** [start()]: a sample, the timer and the pages. *)
Definition monitor_start (p : Procmon) (stat : list Z) (tm : TimerManager) (now : Z) (t : positive) (tick_cb self : nat)
    (d : ServletDispatch) : outcome (Procmon * TimerManager * bool * ServletDispatch) :=
  p ← tick_line p stat;
  let '(tm, front) := addConditionTimer tm now t (m_kPeriod * 1000) tick_cb self true in
  mret (p, tm, front, add_pages 0 addServlets d).

Lemma add_pages_find pages : ∀ i d path,
  NoDup pages.*1 →
  m_data (add_pages i pages d) !! path =
    match list_find (λ q, q.1 = path) pages with
    | Some (j, _) => Some (FunctionServlet (i + j))
    | None => m_data d !! path
    end ∧
  m_globs (add_pages i pages d) = m_globs d ∧ m_default (add_pages i pages d) = m_default d.
Proof.
  induction pages as [|[q pg] pages IH]; intros i d path Hnd; [done|]. simpl in *.
  apply NoDup_cons in Hnd as [Hq Hnd]. destruct (IH (S i) (addServlet d q (FunctionServlet i)) path Hnd) as (Hd & -> & ->).
  split; [|done]. rewrite Hd. clear Hd. case_decide as Hp.
  - subst q. rewrite Nat.add_0_r. destruct (list_find _ pages) as [[j x]|] eqn:E; [|by simpl; rewrite lookup_insert_eq].
    apply list_find_Some in E as (Hj & Hx & _). contradict Hq. apply list_elem_of_lookup. exists j.
    rewrite list_lookup_fmap, Hj. simpl. by rewrite Hx.
  - destruct (list_find _ pages) as [[j x]|] eqn:E; simpl; [by rewrite Nat.add_succ_r|]. by rewrite lookup_insert_ne.
Qed.

(** ** The chart *)

(** [cpuUsage(kPeriod, kClockTicksPerSecond)]. *)
Definition cpuUsage (rnd : Q → Q) (ticks : Z) (t : CpuTime) : Q :=
  rnd (inject_Z (s32 (userTime t + sysTime t)) / rnd (inject_Z ticks * inject_Z m_kPeriod))%Q.

(** What the samples satisfy. *)
Definition samples_ok (l : list CpuTime) : Prop :=
  (length l <= capacity)%nat ∧ Forall (λ t, 0 <= userTime t ∧ 0 <= sysTime t) l.

Lemma push_sample_ok l t : samples_ok l → 0 <= userTime t → 0 <= sysTime t → samples_ok (push_sample l t).
Proof.
  intros [Hl Hf] Hu Hs. unfold push_sample. assert (Forall (λ t, 0 <= userTime t ∧ 0 <= sysTime t) (l ++ [t])) as Hall.
  { apply Forall_app. split; [done|]. by repeat constructor. }
  case_decide; split; rewrite ?length_drop, ?length_app; simpl; [lia|done|lia|by apply Forall_drop].
Qed.

Lemma tick_line_ok p stat p' :
  tick_line p stat = Ok p' → samples_ok (m_cpuUsage p) →
  samples_ok (m_cpuUsage p') ∧ m_kClockTicksPerSecond p' = m_kClockTicksPerSecond p.
Proof.
  unfold tick_line. intros E Hs. case_decide; [by injection E as <-|].
  apply outcome_bind_ok in E as (sd & _ & [= <-]). split; [|done]. cbn [set_samples m_cpuUsage].
  case_decide; [|done]. apply push_sample_ok; simpl; [done|lia|lia].
Qed.

Lemma ticks_lines_ok lines : ∀ p p',
  ticks_lines p lines = Ok p' → samples_ok (m_cpuUsage p) →
  samples_ok (m_cpuUsage p') ∧ m_kClockTicksPerSecond p' = m_kClockTicksPerSecond p.
Proof.
  induction lines as [|l lines IH]; intros p p'; simpl; [by intros [= <-]|].
  intros (p1 & E & E')%outcome_bind_ok Hs. destruct (tick_line_ok p l p1 E Hs) as [Hs1 <-]. by apply IH.
Qed.

Lemma cpuUsage_nonneg rnd `{!Rounding rnd} ticks t :
  0 < ticks < 2 ^ 31 → 0 <= userTime t → 0 <= sysTime t → userTime t + sysTime t < 2 ^ 31 → (0 <= cpuUsage rnd ticks t)%Q.
Proof.
  intros Ht Hu Hs Hsum. unfold cpuUsage. rewrite swrap_small by (unfold in_signed; lia). unfold m_kPeriod.
  assert (0 < rnd (inject_Z ticks * inject_Z 2))%Q as Hpos.
  { apply (Qlt_le_trans _ (inject_Z 1)); [reflexivity|]. apply (rnd_least_int rnd); [lia|].
    rewrite <-inject_Z_mult, <-Zle_Qle. lia. }
  apply (rnd_least_int rnd 0); [lia|]. apply Qle_shift_div_l; [done|]. rewrite Qmult_0_l. change 0%Q with (inject_Z 0). rewrite <-Zle_Qle. lia.
Qed.

(** The chart of the processor: the constructor's. *)
Definition m_cpuChart (rnd : Q → Q) (fontWidth fontHeight : Z) : Plot := Plot_new rnd 640 100 600 m_kPeriod fontWidth fontHeight.

Lemma m_cpuChart_ok rnd fw fh : 0 <= fw <= 200 → plot_ok rnd (m_cpuChart rnd fw fh).
Proof.
  intros Hf. unfold m_cpuChart, Plot_new, s_kLeftMargin, m_kPeriod. rewrite (swrap_small 32 (3 * fw + 5)) by (unfold in_signed; lia).
  split; unfold plot_width; simpl; try (unfold s_kLeftMargin; lia).
  rewrite swrap_small by (unfold in_signed; lia). done.
Qed.

(** The chart of the monitor: whatever lines it has read, its samples fit into the ten
    minutes of the chart, and the curve of the page "/cpu.png" lies within it, as long
    as the times of an interval fit into an [int]. *)
Theorem monitor_chart (rnd : Q → Q) (p0 p : Procmon) (lines : list (list Z)) (fw fh : Z) :
  Rounding rnd → m_cpuUsage p0 = [] → 0 < m_kClockTicksPerSecond p0 < 2 ^ 31 → 0 <= fw <= 200 →
  ticks_lines p0 lines = Ok p → Forall (λ t, userTime t + sysTime t < 2 ^ 31) (m_cpuUsage p) →
  let chart := m_cpuChart rnd fw fh in
  let data := cpuUsage rnd (m_kClockTicksPerSecond p) <$> m_cpuUsage p in
  (length data <= 300)%nat ∧
  ∀ x1 y1 x2 y2, Line x1 y1 x2 y2 Black ∈ draw rnd chart data →
    0 <= x1 <= x2 ∧ x2 <= plot_width chart ∧ 0 <= y1 <= 100 ∧ 0 <= y2 <= 100.
Proof.
  intros Hrnd H0 Hticks Hfw E Hsum chart data.
  destruct (ticks_lines_ok lines p0 p E) as [[Hlen Hnn] Hclock]; [rewrite H0; split; [simpl; lia|constructor]|].
  assert (length data <= 300)%nat as Hdata by (unfold data; rewrite length_fmap; exact Hlen).
  split; [done|]. apply (chart_curve rnd chart data).
  - by apply m_cpuChart_ok.
  - unfold data. apply Forall_fmap. rewrite Forall_forall in *. intros t Ht. destruct (Hnn t Ht).
    apply cpuUsage_nonneg; [done|by rewrite Hclock|done|done|by apply Hsum].
  - unfold chart, m_cpuChart, Plot_new, m_kPeriod. simpl. lia.
Qed.

(** The start of the monitor: the timer samples every two seconds while the monitor is
    alive, each page is answered by its function and every other path by what the
    server has for it. *)
Theorem monitor_starts p stat p' tm now t tick_cb self d fnmatch :
  tick_line p stat = Ok p' → m_globs d = [] →
  ∃ tm' front d', monitor_start p stat tm now t tick_cb self d = Ok (p', tm', front, d') ∧
    m_heap tm' !! t = Some (Timer_new now 2000 (Some (onTimer_bound self tick_cb)) true) ∧
    (∀ i path pg, addServlets !! i = Some (path, pg) → getMatchedServlet fnmatch d' path = Some (FunctionServlet i)) ∧
    (∀ path, path ∉ addServlets.*1 → m_data d !! path = None → getMatchedServlet fnmatch d' path = m_default d).
Proof.
  intros E Hglobs. unfold monitor_start. rewrite E. osimpl. destruct (addConditionTimer _ _ _ _ _ _ _) as [tm' front] eqn:Et.
  eexists tm', front, _. split; [done|]. assert (NoDup addServlets.*1) as Hnd by (apply (bool_decide_unpack _); by vm_compute).
  split_and!.
  - unfold addConditionTimer, addTimer, addTimer_locked in Et. destruct (set_insert _ _ _) as [it timers]. injection Et as <- _.
    simpl. by rewrite lookup_insert_eq.
  - intros i path pg Hi. unfold getMatchedServlet. destruct (add_pages_find addServlets 0 d path Hnd) as (-> & _).
    destruct (list_find _ addServlets) as [[j x]|] eqn:Ef.
    + apply list_find_Some in Ef as (Hj & Hx & _). simpl. do 2 f_equal.
      eapply (NoDup_lookup addServlets.*1); [done|by rewrite list_lookup_fmap, Hj|]. rewrite list_lookup_fmap, Hi. simpl. by rewrite Hx.
    + apply list_find_None in Ef. rewrite Forall_forall in Ef. exfalso.
      apply (Ef (path, pg)); [by eapply list_elem_of_lookup_2|done].
  - intros path Hno Hd. unfold getMatchedServlet. destruct (add_pages_find addServlets 0 d path Hnd) as (-> & -> & ->).
    destruct (list_find _ addServlets) as [[j x]|] eqn:Ef; [|by rewrite Hd, Hglobs].
    apply list_find_Some in Ef as (Hj & Hx & _). contradict Hno. apply list_elem_of_lookup. exists j.
    rewrite list_lookup_fmap, Hj. simpl. by rewrite Hx.
Qed.
