(* ===== verification/Dummyload.v ===== *)
(** The load generator (4_procmon/dummyload.cc): the pattern of busy and idle
    intervals, the search for the length of an interval, and the threads of its
    main function. Times and trigonometric functions are arguments. *)

From Stdlib Require Import ZArith Lia.
From stdpp Require Import base numbers option strings tactics list_numbers list.
From S2P Require Import Prelude StdSet Text FsUtil.

Local Open Scope Z_scope.

(** ** [Load] *)

(** One turn of the loop: whether the interval is busy, and [err] and [count]
    afterwards. *)
Definition load_turn (percent err count : Z) : bool * Z * Z :=
  if decide (0 < err) then (true, s32 (err + 2 * (percent - 100)), s32 (count + 1))
  else (false, s32 (err + 2 * percent), count).

(** The loop over the intervals: what [g_busy] is set to in each of them. *)
Fixpoint load_loop (n : nat) (percent err count : Z) : list bool * Z :=
  match n with
  | O => ([], count)
  | S n =>
    let '(busy, err, count) := load_turn percent err count in
    let '(l, count) := load_loop n percent err count in
    (busy :: l, count)
  end.

Definition Load (percent : Z) : outcome (list bool) :=
  let percent := Z.max 0 percent in
  let percent := Z.min 100 percent in
  let '(l, count) := load_loop 100 percent (2 * percent - 100) 0 in
  _ ← sylar_assert (bool_decide (count = percent)) "count == percent";
  Ok l.

(** ** The curves *)

(** A sequence of calls of [Load]. *)
Fixpoint loads (percents : list Z) : outcome (list (list bool)) :=
  match percents with
  | [] => Ok []
  | p :: percents => l ← Load p; ls ← loads percents; Ok (l :: ls)
  end.

(** One period of each curve; the conversions of the floating point values are
    arguments. *)
Definition Fixed (g_percent : Z) (n : nat) : outcome (list (list bool)) := loads (replicate n g_percent).
Definition Cosine (percent_of : Z → Z) : outcome (list (list bool)) := loads (percent_of <$> seqZ 0 200).
Definition Sawtooth (percent_of : Z → Z) : outcome (list (list bool)) := loads (percent_of <$> seqZ 0 101).

(** ** [FindCycles] *)

(** [GetSeconds(cycles)] in microseconds. *)
Fixpoint find_cycles (fuel : nat) (seconds : Z → Z) (g_cycles : Z) : outcome Z :=
  match fuel with
  | O => Stuck
  | S fuel =>
    if decide (seconds g_cycles < 1000) then find_cycles fuel seconds (s32 (g_cycles + Z.quot g_cycles 4))
    else Ok g_cycles
  end.

Definition FindCycles (fuel : nat) (seconds : Z → Z) : outcome Z := find_cycles fuel seconds 1000.

(** ** The threads of [main] *)

(** The vector of threads: [resize] makes threads that do not run, [push_back]
    adds those that do. *)
Definition start_threads (num_threads : Z) : outcome (list bool) :=
  if decide (num_threads < 0) then Throw (logic_error "vector::_M_default_append")
  else Ok (replicate (Z.to_nat num_threads) false ++ replicate (Z.to_nat num_threads) true).

(** [join] throws for a thread that is not joinable. *)
Fixpoint join_threads (threads : list bool) (i n : nat) : outcome (list bool) :=
  match n with
  | O => Ok threads
  | S n =>
    match threads !! i with
    | None => Stuck
    | Some false => Throw (logic_error "std::system_error: Invalid argument")
    | Some true => join_threads (<[i := false]> threads) (S i) n
    end
  end.

(** [main] after a curve has ended. *)
Definition finish (num_threads : Z) : outcome (list bool) :=
  threads ← start_threads num_threads; join_threads threads 0 (Z.to_nat num_threads).

(** ** The pattern is exact and even *)

(** The number of busy intervals. *)
Definition busy_count (l : list bool) : Z := Z.of_nat (length (filter (λ b, b = true) l)).

Lemma busy_cons b l : busy_count (b :: l) = (if b then 1 else 0) + busy_count l.
Proof. unfold busy_count. rewrite filter_cons. destruct b; cbn [decide]; simpl length; lia. Qed.

(** The error term is what is left to the next interval: after [i] intervals with
    [count] busy ones it is [2 p i + 2 p - 100 - 200 count]. *)
Lemma load_loop_ok p : 0 <= p <= 100 → ∀ n i err count,
  err = 2 * p * i + 2 * p - 100 - 200 * count → 2 * p - 200 < err <= 2 * p → 0 <= count <= i → 0 <= i → i + Z.of_nat n <= 100 →
  ∃ l c, load_loop n p err count = (l, c) ∧ length l = n ∧ c = count + busy_count l ∧
    ∀ j, (j <= n)%nat → -100 < 2 * p * (i + Z.of_nat j) - 200 * (count + busy_count (take j l)) <= 100.
Proof.
  intros Hp. induction n as [|n IH]; intros i err count He Hr Hc Hi Hn.
  { exists [], count. split_and!; [done|done|unfold busy_count; simpl; lia|].
    intros j Hj. assert (j = 0%nat) as -> by lia. rewrite take_0. unfold busy_count. simpl. lia. }
  cbn [load_loop]. unfold load_turn. case_decide as Hb.
  - rewrite !swrap_small by (unfold in_signed; lia).
    destruct (IH (i + 1) (err + 2 * (p - 100)) (count + 1)) as (l & c & E & Hl & Hcnt & Hj); [lia..|].
    rewrite E. exists (true :: l), c. rewrite busy_cons. split_and!; [done|simpl; lia|lia|].
    intros [|j] Hjn; [rewrite take_0; unfold busy_count; simpl; lia|]. cbn [take]. rewrite busy_cons.
    specialize (Hj j ltac:(lia)). lia.
  - rewrite swrap_small by (unfold in_signed; lia).
    destruct (IH (i + 1) (err + 2 * p) count) as (l & c & E & Hl & Hcnt & Hj); [lia..|].
    rewrite E. exists (false :: l), c. rewrite busy_cons. split_and!; [done|simpl; lia|lia|].
    intros [|j] Hjn; [rewrite take_0; unfold busy_count; simpl; lia|]. cbn [take]. rewrite busy_cons.
    specialize (Hj j ltac:(lia)). lia.
Qed.

Lemma Load_ok percent :
  let p := Z.max 0 (Z.min 100 percent) in
  ∃ l, Load percent = Ok l ∧ length l = 100%nat ∧ busy_count l = p ∧
    ∀ j, (j <= 100)%nat → -50 < p * Z.of_nat j - 100 * busy_count (take j l) <= 50.
Proof.
  intros p. unfold Load. replace (Z.min 100 (Z.max 0 percent)) with p by lia.
  assert (0 <= p <= 100) as Hp by lia. clearbody p. cbv zeta.
  destruct (load_loop_ok p Hp 100 0 (2 * p - 100) 0) as (l & c & -> & Hl & Hc & Hj); [lia..|].
  assert (take 100 l = l) as Ht by (apply take_ge; lia).
  pose proof (Hj 100%nat ltac:(lia)) as H100. rewrite Ht in H100.
  rewrite bool_decide_eq_true_2 by lia. exists l. split_and!; [done|done|lia|].
  intros j Hjn. specialize (Hj j Hjn). lia.
Qed.

(** The load generator keeps its promise: for every requested percentage the
    assertion in [Load] holds, exactly that many of the 100 intervals are busy
    (0 and 100 for values beyond), and they are spread evenly: after each number
    of intervals the number of busy ones is the nearest to the share. *)
Theorem load_exact percent :
  ∃ l, Load percent = Ok l ∧ length l = 100%nat ∧ busy_count l = Z.max 0 (Z.min 100 percent) ∧
    ∀ j, (j <= 100)%nat →
      -50 < Z.max 0 (Z.min 100 percent) * Z.of_nat j - 100 * busy_count (take j l) <= 50.
Proof. apply (Load_ok percent). Qed.

Lemma loads_ok percents :
  ∃ ls, loads percents = Ok ls ∧ busy_count <$> ls = (λ p, Z.max 0 (Z.min 100 p)) <$> percents.
Proof.
  induction percents as [|p ps (ls & E & Hb)]; [by exists []|]. cbn [loads].
  destruct (Load_ok p) as (l & -> & _ & Hl & _). osimpl. rewrite E. osimpl. exists (l :: ls). split; [done|].
  rewrite !fmap_cons. by rewrite Hl, Hb.
Qed.

(** [FindCycles] ends as soon as some number of turns takes a millisecond, with
    at most a quarter more than that. *)
Lemma find_cycles_ok seconds c0 : c0 < 2 ^ 30 → (∀ c, c0 <= c → 1000 <= seconds c) → ∀ fuel g,
  1000 <= g → g <= Z.max 1000 (c0 + c0 / 4) → (Z.to_nat (c0 - g) < fuel)%nat →
  ∃ c, find_cycles fuel seconds g = Ok c ∧ g <= c <= Z.max 1000 (c0 + c0 / 4) ∧ 1000 <= seconds c.
Proof.
  intros Hc0 Hs. induction fuel as [|fuel IH]; intros g Hg Hgm Hf; [lia|]. cbn [find_cycles]. case_decide as Hlt.
  - assert (g < c0) as Hgc by (destruct (decide (g < c0)); [done|]; specialize (Hs g); lia).
    rewrite Z.quot_div_nonneg by lia.
    assert (0 <= g / 4 ∧ g / 4 <= c0 / 4 ∧ 1 <= g / 4 ∧ c0 / 4 <= c0) as (? & ? & ? & ?) by dlia.
    rewrite swrap_small by (unfold in_signed; lia).
    destruct (IH (g + g / 4)) as (c & -> & ? & ?); [lia..|]. exists c. split; [done|]. split; [lia|done].
  - exists g. split; [done|]. split; [lia|lia].
Qed.

(** When it comes to an end, the program joins threads that were never started:
    it dies of an exception for every number of threads but 0. *)
Lemma finish_throws n : 0 < n → finish n = Throw (logic_error "std::system_error: Invalid argument").
Proof.
  intros Hn. unfold finish, start_threads. rewrite decide_False by lia. osimpl.
  destruct (Z.to_nat n) as [|m] eqn:E; [lia|]. reflexivity.
Qed.

Example load_43 : (λ l, busy_count l) <$> (match Load 43 with Ok l => Some l | _ => None end) = Some 43.
Proof. vm_compute. reflexivity. Qed.

(** ** The threads *)

(** The threads of the load generator (ThreadFunc, and what Load and main do to its
    shared variables, in 4_procmon/dummyload.cc), as steps. *)

From Stdlib Require Import ZArith Lia.
From stdpp Require Import base numbers option strings tactics relations list.
From S2P Require Import Prelude .

Local Open Scope nat_scope.

(** Where a thread is: before the test of [g_done], before the test of [g_busy], in
    [g_sem.wait()], in [Busy], and at its end. *)
Inductive worker_pc : Type := Top | TestBusy | InWait | Working | Ended.

#[export] Instance worker_pc_eq_dec : EqDecision worker_pc.
Proof. solve_decision. Defined.

(** [g_done], [g_busy], [g_sem] and the threads. *)
Record load : Type := mkLoad { g_done : bool; g_busy : bool; g_sem : nat; workers : list worker_pc }.

Definition set_worker (s : load) (i : nat) (pc : worker_pc) : load :=
  mkLoad (g_done s) (g_busy s) (g_sem s) (<[i := pc]> (workers s)).

(** One step of [ThreadFunc]; [None] while it waits for the semaphore. *)
Definition ThreadFunc (s : load) (i : nat) (pc : worker_pc) : option load :=
  match pc with
  | Top => Some (set_worker s i (if g_done s then Ended else TestBusy))
  | TestBusy => Some (set_worker s i (if g_busy s then Working else InWait))
  | InWait =>
    match g_sem s with
    | O => None
    | S n => Some (mkLoad (g_done s) (g_busy s) n (<[i := TestBusy]> (workers s)))
    end
  | Working => Some (set_worker s i Top)
  | Ended => None
  end.

(** What the main thread does: [g_busy.exchange], [g_sem.notify] and [g_done.exchange]. *)
Inductive main_op : Type := SetBusy (b : bool) | NotifySem | SetDone.

Definition main_do (s : load) (o : main_op) : load :=
  match o with
  | SetBusy b => mkLoad (g_done s) b (g_sem s) (workers s)
  | NotifySem => mkLoad (g_done s) (g_busy s) (S (g_sem s)) (workers s)
  | SetDone => mkLoad true (g_busy s) (g_sem s) (workers s)
  end.

(** The turns of [Load], and the end of [main]. *)
Definition interval_ops (b : bool) : list main_op := [SetBusy b; NotifySem].
Definition end_ops : list main_op := [SetDone; SetBusy true; NotifySem].

(** The threads with what is left of the main thread's operations. *)
Inductive load_step : list main_op * load → list main_op * load → Prop :=
| load_main o ops s : load_step (o :: ops, s) (ops, main_do s o)
| load_worker ops s i pc s' : workers s !! i = Some pc → ThreadFunc s i pc = Some s' → load_step (ops, s) (ops, s').

Definition waiting (s : load) : nat := length (filter (λ pc, pc = InWait) (workers s)).
Fixpoint notifies (ops : list main_op) : nat :=
  match ops with
  | [] => 0
  | NotifySem :: ops => S (notifies ops)
  | _ :: ops => notifies ops
  end.

Lemma waiting_insert l i pc pc' : l !! i = Some pc →
  length (filter (λ pc, pc = InWait) (<[i := pc']> l)) + (if decide (pc = InWait) then 1 else 0) =
  length (filter (λ pc, pc = InWait) l) + (if decide (pc' = InWait) then 1 else 0).
Proof.
  intros Hi. rewrite insert_take_drop by (by eapply lookup_lt_Some). rewrite <-(take_drop_middle l i pc Hi) at 3.
  rewrite !filter_app, !length_app, !filter_cons. repeat case_decide; simpl; lia.
Qed.

(** Each wake-up takes one notification. *)
Lemma load_step_waiting x y : load_step x y →
  waiting x.2 + g_sem y.2 + notifies y.1 <= waiting y.2 + g_sem x.2 + notifies x.1.
Proof.
  destruct 1 as [o ops s|ops s i pc s' Hi E]; simpl; [destruct o; simpl; unfold waiting; simpl; lia|].
  unfold ThreadFunc in E. unfold waiting.
  destruct pc; [| |destruct (g_sem s) eqn:Hs; [done|]| |done]; injection E as <-; simpl;
    match goal with |- context [<[i := ?p]> (workers s)] => pose proof (waiting_insert (workers s) i _ p Hi) end;
    repeat case_decide; try (destruct (g_done s)); try (destruct (g_busy s)); try done; lia.
Qed.

Lemma load_run_waiting x y : rtc load_step x y →
  waiting x.2 + g_sem y.2 + notifies y.1 <= waiting y.2 + g_sem x.2 + notifies x.1.
Proof. induction 1 as [|x y z Hs%load_step_waiting _ IH]; lia. Qed.

(** How far the end of [main] has come, for one thread. *)
Definition ending_ok (x : list main_op * load) : Prop :=
  length (workers x.2) = 1 ∧
  (x.1 = end_ops ∨ x.1 = [SetBusy true; NotifySem] ∧ g_done x.2 = true ∨
   x.1 = [NotifySem] ∧ g_done x.2 = true ∧ g_busy x.2 = true ∨
   x.1 = [] ∧ g_done x.2 = true ∧ g_busy x.2 = true ∧ (workers x.2 = [InWait] → 0 < g_sem x.2)).

Lemma load_step_ending x y : ending_ok x → load_step x y → ending_ok y.
Proof.
  intros [Hl Hx] Hs. destruct Hs as [o ops s|ops s i pc s' Hi E]; simpl in *.
  - destruct Hx as [[= -> ->]|[([= -> ->] & Hd)|[([= -> ->] & Hd & Hb)|([=] & _)]]]; split; simpl; auto 6.
    right; right; right. split_and!; [done..|]. intros _. lia.
  - assert (workers s = [pc] ∧ i = 0) as [Hw ->].
    { destruct (workers s) as [|p [|]]; try done. destruct i; [|done]. injection Hi as ->. done. }
    unfold ThreadFunc in E. split.
    { destruct pc; [| |destruct (g_sem s); [done|]| |done]; injection E as <-; simpl; by rewrite length_insert. }
    assert (g_done s' = g_done s ∧ g_busy s' = g_busy s) as [Hd' Hb'].
    { destruct pc; [| |destruct (g_sem s); [done|]| |done]; by injection E as <-. }
    simpl. rewrite Hd', Hb'. destruct Hx as [?|[?|[?|(-> & Hd & Hb & Hin)]]]; [by auto..|]. right; right; right.
    split_and!; [done..|]. intros Hw'. exfalso.
    destruct pc; [| |destruct (g_sem s); [done|]| |done]; injection E as <-; simpl in Hw'; rewrite Hw in Hw'; simpl in Hw';
      rewrite ?Hd, ?Hb in Hw'; done.
Qed.

(** The end of the load generator. Of the threads that wait for the semaphore only as
    many get on as there are notifications, so that all but one keep waiting when the
    main thread has set [g_done] and notified once; a single thread comes to its end,
    wherever it was. *)
Theorem threads_end (s : load) :
  (∀ s', rtc load_step (end_ops, s) ([], s') → waiting s <= waiting s' + g_sem s + 1) ∧
  (length (workers s) = 1 → ∀ ops s', rtc load_step (end_ops, s) (ops, s') →
    (∀ y, ~ load_step (ops, s') y) → workers s' = [Ended] ∧ ops = []).
Proof.
  split; [intros s' Hrun%load_run_waiting; simpl in Hrun; lia|]. intros Hl ops s' Hrun Hstuck.
  assert (ending_ok (ops, s')) as [Hl' Hend].
  { revert Hrun. apply (rtc_ind_r ending_ok); [split; [done|by left]|]. intros y z _ Hstep Hy. by apply (load_step_ending y). }
  destruct ops as [|o ops]; [|destruct (Hstuck _ (load_main o ops s'))].
  destruct Hend as [[=]|[([=] & _)|[([=] & _)|(_ & Hd & Hb & Hin)]]]. simpl in *.
  destruct (workers s') as [|pc [|]] eqn:Hw; try done. split; [|done].
  destruct pc; [| | | |done]; exfalso.
  - by destruct (Hstuck _ (load_worker [] s' 0 Top _ ltac:(by rewrite Hw) eq_refl)).
  - by destruct (Hstuck _ (load_worker [] s' 0 TestBusy _ ltac:(by rewrite Hw) eq_refl)).
  - specialize (Hin eq_refl). destruct (g_sem s') as [|n] eqn:Hs; [lia|].
    eapply Hstuck, (load_worker [] s' 0 InWait); [by rewrite Hw|]. simpl. by rewrite Hs.
  - by destruct (Hstuck _ (load_worker [] s' 0 Working _ ltac:(by rewrite Hw) eq_refl)).
Qed.
