(* ===== verification/NetUtil.v ===== *)
(** The shared helpers of the network programs (util/util.cc): writing and reading
    a fixed number of bytes over a blocking descriptor, with interrupted calls,
    and the clock. *)

From Stdlib Require Import ZArith Lia.
From stdpp Require Import base numbers option strings tactics list_numbers list.
From S2P Require Import Prelude StdSet Text.

Local Open Scope Z_scope.

Definition EINTR : Z := 4.

(** What the kernel does at the next call: transfer at most [n] bytes (at least
    one if it can), report the end of the stream, or fail with an error. *)
Inductive call : Type :=
| UpTo (n : nat)
| Nothing
| Fails (errno : Z).

(** A descriptor: the bytes that will arrive, those that were sent, and what the
    kernel does at the coming calls; after these it transfers all it can. *)
Record Fd : Type := mkFd {
  fd_in : list Z;
  fd_out : list Z;
  fd_calls : list call
}.

(** The result of a transfer of at most [avail] bytes: the number, or the error. *)
Definition sys_transfer (fd : Fd) (avail : nat) : nat + Z :=
  match fd_calls fd with
  | [] => inl avail
  | UpTo n :: _ => inl (avail `min` (n `max` 1))%nat
  | Nothing :: _ => inl 0%nat
  | Fails e :: _ => inr e
  end.

(** [write] and [read]. *)
Definition sys_write (fd : Fd) (buf : list Z) : (nat + Z) * Fd :=
  match sys_transfer fd (length buf) with
  | inl n => (inl n, mkFd (fd_in fd) (fd_out fd ++ take n buf) (tail (fd_calls fd)))
  | inr e => (inr e, mkFd (fd_in fd) (fd_out fd) (tail (fd_calls fd)))
  end.

Definition sys_read (fd : Fd) (n : nat) : (list Z + Z) * Fd :=
  match sys_transfer fd (n `min` length (fd_in fd)) with
  | inl m => (inl (take m (fd_in fd)), mkFd (drop m (fd_in fd)) (fd_out fd) (tail (fd_calls fd)))
  | inr e => (inr e, mkFd (fd_in fd) (fd_out fd) (tail (fd_calls fd)))
  end.

(** The loops; the fuel is used by a call that transfers a byte or is one of
    those the kernel has planned. *)
Fixpoint write_fixed (fuel : nat) (fd : Fd) (buf : list Z) (written : nat) : outcome (nat * Fd) :=
  match fuel with
  | O => Stuck
  | S fuel =>
    if decide (written < length buf)%nat then
      match sys_write fd (drop written buf) with
      | (inl O, fd) => Ok (written, fd)
      | (inl nw, fd) => write_fixed fuel fd buf (written + nw)
      | (inr e, fd) => if decide (e = EINTR) then write_fixed fuel fd buf written else Ok (written, fd)
      end
    else Ok (written, fd)
  end.

Definition WriteFixedBytes (fd : Fd) (buf : list Z) : outcome (nat * Fd) :=
  write_fixed (S (length buf + length (fd_calls fd))) fd buf 0.

Fixpoint read_fixed (fuel : nat) (fd : Fd) (length_ : nat) (buf : list Z) : outcome (list Z * Fd) :=
  match fuel with
  | O => Stuck
  | S fuel =>
    if decide (length buf < length_)%nat then
      match sys_read fd (length_ - length buf) with
      | (inl [], fd) => Ok (buf, fd)
      | (inl bs, fd) => read_fixed fuel fd length_ (buf ++ bs)
      | (inr e, fd) => if decide (e = EINTR) then read_fixed fuel fd length_ buf else Ok (buf, fd)
      end
    else Ok (buf, fd)
  end.

(** The bytes that were read; the code returns their number. *)
Definition ReadFixedBytes (fd : Fd) (length_ : nat) : outcome (list Z * Fd) :=
  read_fixed (S (length_ + length (fd_calls fd))) fd length_ [].

(** [gettimeofday] in microseconds. *)
Definition GetNow (tv_sec tv_usec : Z) : Z := s64 (tv_sec * 1000000 + tv_usec).

(** ** Exactness *)

(** A plan with nothing but transfers and interruptions. *)
Definition benign (c : call) : Prop := match c with UpTo _ => True | Nothing => False | Fails e => e = EINTR end.

Lemma tail_benign l : Forall benign l → Forall benign (tail l).
Proof. by destruct 1. Qed.

Lemma length_tail {A} (l : list A) : length (tail l) = pred (length l).
Proof. by destruct l. Qed.

(** What one call transfers. *)
Lemma sys_transfer_ok fd avail :
  match sys_transfer fd avail with
  | inl n => (n <= avail)%nat ∧ (Forall benign (fd_calls fd) → (0 < avail)%nat → (0 < n)%nat)
  | inr e => (length (tail (fd_calls fd)) < length (fd_calls fd))%nat ∧ (Forall benign (fd_calls fd) → e = EINTR)
  end.
Proof.
  unfold sys_transfer. destruct (fd_calls fd) as [|[n| |e] l]; cbn [tail length].
  - split; [lia|lia].
  - split; [lia|lia].
  - split; [lia|]. intros Hb. apply Forall_cons in Hb as [[] _].
  - split; [lia|]. intros Hb. apply Forall_cons in Hb as [? _]. done.
Qed.

Lemma write_fixed_ok buf : ∀ fuel fd written,
  (written <= length buf)%nat → (length buf - written + length (fd_calls fd) < fuel)%nat →
  ∃ n fd', write_fixed fuel fd buf written = Ok ((written + n)%nat, fd') ∧
    (written + n <= length buf)%nat ∧ fd_in fd' = fd_in fd ∧
    fd_out fd' = fd_out fd ++ take n (drop written buf) ∧
    (Forall benign (fd_calls fd) → (written + n)%nat = length buf ∧ Forall benign (fd_calls fd')).
Proof.
  induction fuel as [|fuel IH]; intros fd written Hw Hf; [lia|]. cbn [write_fixed].
  case_decide as Hlt; cycle 1.
  { exists 0%nat, fd. rewrite Nat.add_0_r, take_0, app_nil_r. split_and!; [done|done|done|done|].
    intros Hb. split; [lia|done]. }
  unfold sys_write. pose proof (sys_transfer_ok fd (length (drop written buf))) as Ht.
  destruct (sys_transfer fd (length (drop written buf))) as [n|e]; rewrite ?length_drop in Ht.
  - destruct Ht as [Hn Hpos]. destruct n as [|n].
    { exists 0%nat, (mkFd (fd_in fd) (fd_out fd ++ take 0 (drop written buf)) (tail (fd_calls fd))).
      rewrite Nat.add_0_r. split_and!; [done|done|done|done|]. intros Hb. specialize (Hpos Hb). lia. }
    set (fd1 := mkFd (fd_in fd) (fd_out fd ++ take (S n) (drop written buf)) (tail (fd_calls fd))).
    destruct (IH fd1 (written + S n)%nat) as (m & fd' & E & Hle & Hin & Hout & Hb).
    { lia. } { cbn [fd1 fd_calls]. rewrite length_tail. lia. }
    exists (S n + m)%nat, fd'. rewrite E, Nat.add_assoc. split_and!; [done|lia|done| |].
    + rewrite Hout. cbn [fd1 fd_out]. rewrite <-app_assoc. f_equal.
      rewrite <-drop_drop, take_take_drop. f_equal.
    + intros Hben. destruct Hb; [by apply tail_benign|]. split; [lia|done].
  - destruct Ht as [Hlen He]. set (fd1 := mkFd (fd_in fd) (fd_out fd) (tail (fd_calls fd))). case_decide as Hei.
    + destruct (IH fd1 written) as (m & fd' & E & Hle & Hin & Hout & Hb); [done|cbn [fd1 fd_calls]; lia|].
      exists m, fd'. rewrite E. split_and!; [done|done|done|done|]. intros Hben. apply Hb. by apply tail_benign.
    + exists 0%nat, fd1. rewrite Nat.add_0_r, take_0. cbn [fd1 fd_in fd_out]. rewrite app_nil_r.
      split_and!; [done|done|done|done|]. intros Hben. by specialize (He Hben).
Qed.

Lemma read_fixed_ok length_ : ∀ fuel fd buf,
  (length buf <= length_)%nat → (length_ - length buf + length (fd_calls fd) < fuel)%nat →
  ∃ bs fd', read_fixed fuel fd length_ buf = Ok (buf ++ bs, fd') ∧
    (length (buf ++ bs) <= length_)%nat ∧ fd_in fd = bs ++ fd_in fd' ∧ fd_out fd' = fd_out fd ∧
    (Forall benign (fd_calls fd) →
       (length (buf ++ bs) = length_ ∨ fd_in fd' = []) ∧ Forall benign (fd_calls fd')).
Proof.
  induction fuel as [|fuel IH]; intros fd buf Hw Hf; [lia|]. cbn [read_fixed].
  case_decide as Hlt; cycle 1.
  { exists [], fd. rewrite app_nil_r. split_and!; [done|done|done|done|]. intros Hb. split; [left; lia|done]. }
  unfold sys_read. set (avail := ((length_ - length buf) `min` length (fd_in fd))%nat). pose proof (sys_transfer_ok fd avail) as Ht.
  destruct (sys_transfer fd avail) as [n|e].
  - destruct Ht as [Hn Hpos]. set (fd1 := mkFd (drop n (fd_in fd)) (fd_out fd) (tail (fd_calls fd))).
    assert (length (take n (fd_in fd)) = n) as Hlen by (rewrite length_take; lia).
    destruct (take n (fd_in fd)) as [|b bs] eqn:Et.
    { exists [], fd1. rewrite app_nil_r. cbn [fd1 fd_in fd_out fd_calls]. simpl in Hlen. subst n. rewrite drop_0.
      split_and!; [done|done|done|done|]. intros Hb. specialize (Hpos Hb). split; [right|by apply tail_benign].
      destruct (fd_in fd); [done|]. simpl in avail. lia. }
    destruct (IH fd1 (buf ++ b :: bs)) as (bs' & fd' & E & Hle & Hin & Hout & Hb).
    { rewrite length_app. lia. } { cbn [fd1 fd_calls]. rewrite length_app, length_tail. simpl in *. lia. }
    rewrite <-app_assoc in *. exists ((b :: bs) ++ bs'), fd'. rewrite E. split_and!; [done|done| |done|].
    + rewrite <-(take_drop n (fd_in fd)), Et, <-app_assoc. f_equal. apply Hin.
    + intros Hben. apply Hb. by apply tail_benign.
  - destruct Ht as [Hlen He]. set (fd1 := mkFd (fd_in fd) (fd_out fd) (tail (fd_calls fd))). case_decide as Hei.
    + destruct (IH fd1 buf) as (bs & fd' & E & Hle & Hin & Hout & Hb); [done|cbn [fd1 fd_calls]; lia|].
      exists bs, fd'. rewrite E. split_and!; [done|done|done|done|]. intros Hben. apply Hb. by apply tail_benign.
    + exists [], fd1. rewrite app_nil_r. split_and!; [done|done|done|done|]. intros Hben. by specialize (He Hben).
Qed.

(** The transfers of a fixed size are exact: for every plan of the kernel,
    with short transfers, interruptions, errors and the end of the stream,
    [WriteFixedBytes] returns, what it says it wrote is the beginning of the
    buffer and was sent, and [ReadFixedBytes] returns the bytes it took off the
    stream, never more than asked for; without errors the one writes everything
    and the other stops short only at the end of the stream. *)
Theorem fixed_bytes_exact fd buf length_ :
  (∃ n fd', WriteFixedBytes fd buf = Ok (n, fd') ∧ (n <= length buf)%nat ∧ fd_in fd' = fd_in fd ∧
     fd_out fd' = fd_out fd ++ take n buf ∧ (Forall benign (fd_calls fd) → n = length buf)) ∧
  (∃ bs fd', ReadFixedBytes fd length_ = Ok (bs, fd') ∧ (length bs <= length_)%nat ∧
     fd_in fd = bs ++ fd_in fd' ∧ fd_out fd' = fd_out fd ∧
     (Forall benign (fd_calls fd) → length bs = length_ ∨ fd_in fd' = [])).
Proof.
  split.
  - destruct (write_fixed_ok buf (S (length buf + length (fd_calls fd))) fd 0) as (n & fd' & E & Hn & Hin & Hout & Hb); [lia|lia|].
    rewrite drop_0 in Hout. exists n, fd'. split_and!; [done..|]. intros Hben. by apply Hb.
  - destruct (read_fixed_ok length_ (S (length_ + length (fd_calls fd))) fd []) as (bs & fd' & E & Hn & Hin & Hout & Hb); [simpl; lia..|].
    exists bs, fd'. split_and!; [done..|]. intros Hben. by apply Hb.
Qed.
