(* ===== verification/Netcat.v ===== *)
(** netcat and its relatives (3_netcat/netcat.cc, nc_sender.cc, nc_receiver.cc, the
    echo server) with the rest of util/util.cc: the two threads of netcat, the user
    and the peer as one step relation, and the programs that copy a file. *)

From Stdlib Require Import ZArith Lia.
From stdpp Require Import base numbers option strings tactics relations list_numbers list.
From S2P Require Import Prelude StdSet Text NetUtil.

(** ** The two threads of netcat *)

(** The main thread in [run_grace]: at [select], before it reads the standard input,
    sends, looks at the socket because the pipe is readable, shuts the socket down for
    writing, joins; the flag is whether the pipe was in the set. *)
Inductive main_pc : Type :=
| MSelect
| MStdin (pipe_set : bool)
| MSend (buf : list Z) (pipe_set : bool)
| MPipe
| MShut
| MJoin
| MEnd.

(** The network thread: before it receives, writes to the standard output, writes to
    the pipe, shuts the socket down for reading. *)
Inductive net_pc : Type :=
| NRecv
| NWrite (buf : list Z)
| NNotify
| NShut
| NDone.

Record netcat : Type := mkNc {
  n_typed : list Z;        (* all that the user has typed *)
  n_stdin : list Z;        (* what of it was not read *)
  n_eof : bool;
  n_peer : list Z;         (* all that the peer has sent *)
  n_in : list Z;           (* what of it was not received *)
  n_closed : bool;         (* the peer has closed its side *)
  n_out : list Z;          (* what was sent to the peer *)
  n_stdout : list Z;
  n_pipe : nat;
  n_rd_shut : bool;
  n_wr_shut : bool;
  n_main : main_pc;
  n_net : net_pc
}.

Definition nc_start : netcat := mkNc [] [] false [] [] false [] [] 0 false false MSelect NRecv.

Definition with_main (s : netcat) (p : main_pc) : netcat :=
  mkNc (n_typed s) (n_stdin s) (n_eof s) (n_peer s) (n_in s) (n_closed s) (n_out s) (n_stdout s) (n_pipe s)
    (n_rd_shut s) (n_wr_shut s) p (n_net s).
Definition with_net (s : netcat) (p : net_pc) : netcat :=
  mkNc (n_typed s) (n_stdin s) (n_eof s) (n_peer s) (n_in s) (n_closed s) (n_out s) (n_stdout s) (n_pipe s)
    (n_rd_shut s) (n_wr_shut s) (n_main s) p.
Definition set_stdin (s : netcat) (bs : list Z) : netcat :=
  mkNc (n_typed s) bs (n_eof s) (n_peer s) (n_in s) (n_closed s) (n_out s) (n_stdout s) (n_pipe s)
    (n_rd_shut s) (n_wr_shut s) (n_main s) (n_net s).
Definition set_in (s : netcat) (bs : list Z) : netcat :=
  mkNc (n_typed s) (n_stdin s) (n_eof s) (n_peer s) bs (n_closed s) (n_out s) (n_stdout s) (n_pipe s)
    (n_rd_shut s) (n_wr_shut s) (n_main s) (n_net s).
Definition send_out (s : netcat) (bs : list Z) : netcat :=
  mkNc (n_typed s) (n_stdin s) (n_eof s) (n_peer s) (n_in s) (n_closed s) (n_out s ++ bs) (n_stdout s) (n_pipe s)
    (n_rd_shut s) (n_wr_shut s) (n_main s) (n_net s).
Definition print_out (s : netcat) (bs : list Z) : netcat :=
  mkNc (n_typed s) (n_stdin s) (n_eof s) (n_peer s) (n_in s) (n_closed s) (n_out s) (n_stdout s ++ bs) (n_pipe s)
    (n_rd_shut s) (n_wr_shut s) (n_main s) (n_net s).
Definition notify (s : netcat) : netcat :=
  mkNc (n_typed s) (n_stdin s) (n_eof s) (n_peer s) (n_in s) (n_closed s) (n_out s) (n_stdout s) (S (n_pipe s))
    (n_rd_shut s) (n_wr_shut s) (n_main s) NShut.
Definition shutdownRead (s : netcat) : netcat :=
  mkNc (n_typed s) (n_stdin s) (n_eof s) (n_peer s) (n_in s) (n_closed s) (n_out s) (n_stdout s) (n_pipe s)
    true (n_wr_shut s) (n_main s) NDone.
Definition shutdownWrite (s : netcat) : netcat :=
  mkNc (n_typed s) (n_stdin s) (n_eof s) (n_peer s) (n_in s) (n_closed s) (n_out s) (n_stdout s) (n_pipe s)
    (n_rd_shut s) true MJoin (n_net s).

(** What [select] finds, and whether a [recv] without data returns 0. *)
Definition stdin_ready (s : netcat) : bool := bool_decide (n_stdin s ≠ []) || n_eof s.
Definition pipe_ready (s : netcat) : bool := bool_decide (0 < n_pipe s).
Definition at_end (s : netcat) : Prop := n_in s = [] ∧ (n_closed s = true ∨ n_rd_shut s = true).

(** One step of the program; with [fails], a write or a system call may fail. *)
Inductive nc_step (fails : bool) (s : netcat) : netcat → Prop :=
| m_select_stdin :
    n_main s = MSelect → stdin_ready s = true → nc_step fails s (with_main s (MStdin (pipe_ready s)))
| m_select_pipe :
    n_main s = MSelect → stdin_ready s = false → pipe_ready s = true → nc_step fails s (with_main s MPipe)
| m_select_error : fails = true → n_main s = MSelect → nc_step fails s (with_main s MShut)
| m_read b buf rest :
    n_main s = MStdin b → n_stdin s = buf ++ rest → buf ≠ [] → (Z.of_nat (length buf) <= 8192)%Z →
    nc_step fails s (with_main (set_stdin s rest) (MSend buf b))
| m_read_end b : n_main s = MStdin b → n_stdin s = [] → n_eof s = true → nc_step fails s (with_main s MShut)
| m_read_error b : fails = true → n_main s = MStdin b → nc_step fails s (with_main s MShut)
| m_send b buf :
    n_main s = MSend buf b → nc_step fails s (with_main (send_out s buf) (if b then MPipe else MSelect))
| m_send_error b buf k :
    fails = true → n_main s = MSend buf b → k < length buf →
    nc_step fails s (with_main (send_out s (take k buf)) MShut)
| m_recv buf rest :
    n_main s = MPipe → n_in s = buf ++ rest → buf ≠ [] → (Z.of_nat (length buf) <= 8192)%Z →
    nc_step fails s (with_main (set_in s rest) MSelect)
| m_recv_end : n_main s = MPipe → at_end s → nc_step fails s (with_main s MShut)
| m_recv_error : fails = true → n_main s = MPipe → nc_step fails s (with_main s MShut)
| m_shut : n_main s = MShut → nc_step fails s (shutdownWrite s)
| m_join : n_main s = MJoin → n_net s = NDone → nc_step fails s (with_main s MEnd)
| t_recv buf rest :
    n_net s = NRecv → n_in s = buf ++ rest → buf ≠ [] → (Z.of_nat (length buf) <= 8192)%Z →
    nc_step fails s (with_net (set_in s rest) (NWrite buf))
| t_recv_end : n_net s = NRecv → at_end s → nc_step fails s (with_net s NNotify)
| t_recv_error : fails = true → n_net s = NRecv → nc_step fails s (with_net s NNotify)
| t_write buf : n_net s = NWrite buf → nc_step fails s (with_net (print_out s buf) NRecv)
| t_write_error buf k :
    fails = true → n_net s = NWrite buf → k < length buf →
    nc_step fails s (with_net (print_out s (take k buf)) NNotify)
| t_notify : n_net s = NNotify → nc_step fails s (notify s)
| t_shut : n_net s = NShut → nc_step fails s (shutdownRead s).

(** What the user and the peer do. *)
Inductive env_step (s : netcat) : netcat → Prop :=
| e_type bs :
    n_eof s = false →
    env_step s (mkNc (n_typed s ++ bs) (n_stdin s ++ bs) false (n_peer s) (n_in s) (n_closed s) (n_out s) (n_stdout s)
                  (n_pipe s) (n_rd_shut s) (n_wr_shut s) (n_main s) (n_net s))
| e_eof :
    env_step s (mkNc (n_typed s) (n_stdin s) true (n_peer s) (n_in s) (n_closed s) (n_out s) (n_stdout s)
                  (n_pipe s) (n_rd_shut s) (n_wr_shut s) (n_main s) (n_net s))
| e_peer bs :
    n_closed s = false →
    env_step s (mkNc (n_typed s) (n_stdin s) (n_eof s) (n_peer s ++ bs) (n_in s ++ bs) false (n_out s) (n_stdout s)
                  (n_pipe s) (n_rd_shut s) (n_wr_shut s) (n_main s) (n_net s))
| e_close :
    env_step s (mkNc (n_typed s) (n_stdin s) (n_eof s) (n_peer s) (n_in s) true (n_out s) (n_stdout s)
                  (n_pipe s) (n_rd_shut s) (n_wr_shut s) (n_main s) (n_net s)).

Definition any_step (fails : bool) (s s' : netcat) : Prop := nc_step fails s s' ∨ env_step s s'.

(** ** Invariant *)

Record nc_inv (fails : bool) (s : netcat) : Prop := {
  nv_pipe : 0 < n_pipe s ↔ n_net s = NShut ∨ n_net s = NDone;
  nv_shut : n_net s = NDone ↔ n_rd_shut s = true;
  nv_main : match n_main s with
            | MStdin b => stdin_ready s = true ∧ (b = true → 0 < n_pipe s)
            | MSend _ b => b = true → 0 < n_pipe s
            | MPipe => 0 < n_pipe s
            | MEnd => n_net s = NDone
            | _ => True
            end;
  nv_out : match n_main s with
           | MSend buf _ => n_typed s = n_out s ++ buf ++ n_stdin s
           | MSelect | MStdin _ | MPipe => n_typed s = n_out s ++ n_stdin s
           | _ => n_out s `prefix_of` n_typed s ∧ (fails = false → n_typed s = n_out s ++ n_stdin s)
           end;
  nv_in : match n_net s with
          | NRecv => n_peer s = n_stdout s ++ n_in s
          | NWrite buf => n_peer s = n_stdout s ++ buf ++ n_in s
          | _ => n_stdout s `prefix_of` n_peer s ∧
                 (fails = false → n_stdout s = n_peer s ∧ n_in s = [] ∧ n_closed s = true)
          end
}.

Lemma env_inv fails s s' : nc_inv fails s → env_step s s' → nc_inv fails s'.
Proof.
  intros [Hp Hs Hm Ho Hi] He. destruct He as [bs Hn| |bs Hn|]; split; simpl; try done.
  - destruct (n_main s); try done. destruct Hm as [Hr Hb]. split; [|done].
    unfold stdin_ready in *. simpl. rewrite Hn, orb_false_r in *. apply bool_decide_eq_true in Hr. apply bool_decide_eq_true.
    by destruct (n_stdin s).
  - destruct (n_main s); rewrite ?Ho, <-?(assoc_L (++)); try done; destruct Ho as [Ho Hf];
      (split; [by apply prefix_app_r|intros E; by rewrite (Hf E), <-(assoc_L (++))]).
  - destruct (n_main s); try done. destruct Hm as [Hr Hb]. split; [|done]. unfold stdin_ready. simpl. apply orb_true_r.
  - destruct (n_net s); rewrite ?Hi, <-?(assoc_L (++)); try done; destruct Hi as [Hi Hf];
      (split; [by apply prefix_app_r|intros E; destruct (Hf E) as (_ & _ & ?); congruence]).
  - destruct (n_net s); try done; destruct Hi as [Hi Hf]; (split; [done|]); intros E; by destruct (Hf E) as (-> & -> & _).
Qed.

(** The output of the main thread when it gives up, whatever it had in hand. *)
Lemma given_up fails (typed out rest : list Z) :
  typed = out ++ rest → out `prefix_of` typed ∧ (fails = false → typed = out ++ rest).
Proof. intros ->. split; [by apply prefix_app_r|done]. Qed.

Lemma prefix_part k (out buf rest : list Z) : out ++ take k buf `prefix_of` out ++ buf ++ rest.
Proof. apply prefix_app. rewrite <-(take_drop k buf) at 2. rewrite <-(assoc_L (++)). by apply prefix_app_r. Qed.

(** Moving between program counters that do not matter for the pipe and the shutdown. *)
Lemma pipe_kept n (p q : net_pc) :
  (0 < n ↔ p = NShut ∨ p = NDone) → p ≠ NShut → p ≠ NDone → q ≠ NShut → q ≠ NDone →
  (0 < n ↔ q = NShut ∨ q = NDone).
Proof. intros [H1 _] ? ? ? ?. split; [intros Hn; by destruct (H1 Hn)|by intros [?|?]]. Qed.

Lemma shut_kept b (p q : net_pc) :
  (p = NDone ↔ b = true) → p ≠ NDone → q ≠ NDone → (q = NDone ↔ b = true).
Proof. intros [_ H2] ? ?. split; [done|]. intros E. by destruct (H2 E). Qed.

Ltac pcs Hp Hs := try done; try (by eapply (pipe_kept _ _ _ Hp)); try (by eapply (shut_kept _ _ _ Hs));
  try (by destruct (n_main _)).

Lemma nc_inv_step fails s s' : nc_inv fails s → nc_step fails s s' → nc_inv fails s'.
Proof.
  intros [Hp Hs Hm Ho Hi] He.
  destruct He as [Hpc Hr|Hpc Hr Hb|Hf Hpc|b buf rest Hpc Hin Hne Hl|b Hpc Hin He|b Hf Hpc|b buf Hpc|b buf k Hf Hpc Hk
    |buf rest Hpc Hin Hne Hl|Hpc He|Hf Hpc|Hpc|Hpc Hnet|buf rest Hpc Hin Hne Hl|Hpc He|Hf Hpc|buf Hpc|buf k Hf Hpc Hk|Hpc|Hpc];
    rewrite Hpc in *; split; simpl; pcs Hp Hs.
  - split; [done|]. unfold pipe_ready. by intros ?%bool_decide_eq_true.
  - unfold pipe_ready in Hb. by apply bool_decide_eq_true in Hb.
  - by apply given_up.
  - by destruct Hm.
  - by rewrite Ho, Hin.
  - by apply given_up.
  - by apply given_up.
  - destruct b; simpl; auto.
  - rewrite Ho. destruct b; simpl; by rewrite <-(assoc_L (++)).
  - rewrite Ho. split; [by apply prefix_part|by rewrite Hf].
  - apply Hp in Hm. destruct Hm as [Hn|Hn]; rewrite Hn in *; destruct Hi as [Hi Hf];
      (split; [done|]); intros E; destruct (Hf E) as (_ & E2 & _); rewrite E2 in Hin; by destruct buf.
  - by apply given_up.
  - by apply given_up.
  - by rewrite Hi, Hin.
  - destruct He as [Hin He]. rewrite Hi, Hin, app_nil_r. split; [done|]. intros _. split_and!; [done|done|].
    destruct He as [?|He]; [done|]. by apply Hs in He.
  - split; [rewrite Hi; by apply prefix_app_r|by rewrite Hf].
  - by rewrite Hi, <-(assoc_L (++)).
  - rewrite Hi. split; [by apply prefix_part|by rewrite Hf].
  - split; [by left|lia].
  - destruct (n_main s); try done; [destruct Hm; split; [done|lia]|lia|lia].
  - split; [by right|]. intros _. apply Hp. by left.
Qed.

Lemma nc_reachable_inv fails s : rtc (any_step fails) nc_start s → nc_inv fails s.
Proof.
  intros Hr. assert (nc_inv fails nc_start) as Hi.
  { split; simpl; try done; split; intros; (lia || naive_solver). }
  revert Hi. induction Hr as [|x y z [Hs|Hs] _ IH]; [done| |]; intros Hi; apply IH.
  - by eapply nc_inv_step.
  - by eapply env_inv.
Qed.

(** ** Ending *)

Definition main_left (p : main_pc) : nat :=
  match p with MSelect => 4 | MStdin _ => 3 | MSend _ _ => 5 | MPipe => 3 | MShut => 2 | MJoin => 1 | MEnd => 0 end.
Definition net_left (p : net_pc) : nat :=
  match p with NRecv => 3 | NWrite _ => 4 | NNotify => 2 | NShut => 1 | NDone => 0 end.

(** How many steps the program can make on its own. *)
Definition nc_left (s : netcat) : nat :=
  6 * length (n_stdin s) + 3 * length (n_in s) + main_left (n_main s) + net_left (n_net s).

Lemma nc_step_left fails s s' : nc_step fails s s' → nc_left s' < nc_left s.
Proof.
  intros He. unfold nc_left.
  destruct He as [Hpc Hr|Hpc Hr Hb|Hf Hpc|b buf rest Hpc Hin Hne Hl|b Hpc Hin He|b Hf Hpc|b buf Hpc|b buf k Hf Hpc Hk
    |buf rest Hpc Hin Hne Hl|Hpc He|Hf Hpc|Hpc|Hpc Hnet|buf rest Hpc Hin Hne Hl|Hpc He|Hf Hpc|buf Hpc|buf k Hf Hpc Hk|Hpc|Hpc];
    simpl; rewrite ?Hpc; simpl; try lia; rewrite ?Hin, ?length_app; try (destruct buf; [done|]); simpl; try lia.
  all: destruct b; simpl; lia.
Qed.

(** A chunk of what is there. *)
Lemma some_chunk (l : list Z) : l ≠ [] → ∃ buf rest, l = buf ++ rest ∧ buf ≠ [] ∧ (Z.of_nat (length buf) <= 8192)%Z.
Proof. destruct l as [|x l]; [done|]. intros _. exists [x], l. split_and!; [done|done|]. simpl. lia. Qed.

Lemma nc_progress fails s : nc_inv fails s → n_closed s = true → n_main s = MEnd ∨ ∃ s', nc_step fails s s'.
Proof.
  intros [Hp Hs Hm Ho Hi] Hc. destruct (n_net s) as [|buf| | |] eqn:En.
  - right. destruct (decide (n_in s = [])) as [E|E]; [eexists; apply t_recv_end; [done|split; auto]|].
    destruct (some_chunk _ E) as (buf & rest & ? & ? & ?). eexists. by eapply t_recv.
  - right. eexists. by eapply t_write.
  - right. eexists. by apply t_notify.
  - right. eexists. by apply t_shut.
  - assert (0 < n_pipe s) as Hpipe by (apply Hp; auto). assert (n_rd_shut s = true) as Hsh by (by apply Hs).
    destruct (n_main s) as [|b|buf b| | | |] eqn:Em; [right..|by left].
    + destruct (stdin_ready s) eqn:Er; eexists; [by apply m_select_stdin|apply m_select_pipe; [done|done|]].
      unfold pipe_ready. by rewrite bool_decide_true.
    + destruct (decide (n_stdin s = [])) as [E|E].
      * eexists. eapply m_read_end; [done|done|]. destruct Hm as [Hr _]. unfold stdin_ready in Hr. by rewrite E in Hr.
      * destruct (some_chunk _ E) as (buf & rest & ? & ? & ?). eexists. by eapply m_read.
    + eexists. by eapply m_send.
    + destruct (decide (n_in s = [])) as [E|E]; [eexists; apply m_recv_end; [done|split; auto]|].
      destruct (some_chunk _ E) as (buf & rest & ? & ? & ?). eexists. by eapply m_recv.
    + eexists. by apply m_shut.
    + eexists. by apply m_join.
Qed.

(** However the threads of netcat, the user and the peer interleave: what is sent to
    the peer is the beginning of what was typed and what is printed the beginning of
    what the peer sent, in order; without failures nothing is lost between them, and
    when netcat ends, all that the peer sent has been printed. It cannot go on without
    end on what it has, and once the peer has closed it is never stuck before its end. *)
Theorem netcat_transparent (fails : bool) (s : netcat) :
  rtc (any_step fails) nc_start s →
  n_out s `prefix_of` n_typed s ∧ n_stdout s `prefix_of` n_peer s ∧
  (fails = false → n_main s = MEnd → n_stdout s = n_peer s ∧ n_typed s = n_out s ++ n_stdin s ∧ n_closed s = true) ∧
  (∀ k s', nsteps (nc_step fails) k s s' → k + nc_left s' ≤ nc_left s) ∧
  (n_closed s = true → n_main s = MEnd ∨ ∃ s', nc_step fails s s').
Proof.
  intros Hi%nc_reachable_inv. split_and!.
  - pose proof (nv_out _ _ Hi) as Ho. destruct (n_main s); try (by destruct Ho); rewrite Ho; by apply prefix_app_r.
  - pose proof (nv_in _ _ Hi) as Ho. destruct (n_net s); try (by destruct Ho); rewrite Ho; by apply prefix_app_r.
  - intros Hf Hm. destruct Hi as [_ _ Hmain Ho Hin]. rewrite Hm in *. rewrite Hmain in Hin.
    destruct Hin as [_ Hin]. destruct (Hin Hf) as (? & _ & ?). split_and!; [done|by apply Ho|done].
  - intros k s' Hk. clear Hi. induction Hk as [|k x y z Hs _ IH]; [done|]. apply nc_step_left in Hs. lia.
  - by eapply nc_progress.
Qed.

(** The peer sends two bytes and closes; nothing was typed. *)
Definition nc_over : netcat := mkNc [] [] false [1; 2]%Z [] true [] [1; 2]%Z 1 true true MEnd NDone.

Lemma netcat_transparent_witness :
  rtc (any_step false) nc_start nc_over ∧ n_stdout nc_over = n_peer nc_over.
Proof.
  assert (rtc (any_step false) nc_start nc_over) as Hr.
  { eapply rtc_l; [right; apply (e_peer _ [1; 2]%Z); reflexivity|].
    eapply rtc_l; [right; apply e_close|].
    eapply rtc_l; [left; eapply (t_recv _ _ [1; 2]%Z []); [reflexivity|reflexivity|discriminate|simpl; lia]|].
    eapply rtc_l; [left; eapply t_write; reflexivity|].
    eapply rtc_l; [left; apply t_recv_end; [reflexivity|split; [reflexivity|left; reflexivity]]|].
    eapply rtc_l; [left; apply t_notify; reflexivity|].
    eapply rtc_l; [left; apply t_shut; reflexivity|].
    eapply rtc_l; [left; apply m_select_pipe; reflexivity|].
    eapply rtc_l; [left; apply m_recv_end; [reflexivity|split; [reflexivity|left; reflexivity]]|].
    eapply rtc_l; [left; apply m_shut; reflexivity|].
    eapply rtc_l; [left; apply m_join; reflexivity|]. apply rtc_refl. }
  split; [exact Hr|].
  destruct (netcat_transparent false nc_over Hr) as (_ & _ & H & _). apply H; reflexivity.
Defined.

(** ** Sockets and errno *)

Local Open Scope Z_scope.

(** A [Socket]: without a connection its operations return -1 and leave [errno] as
    it is. *)
Record Sock : Type := mkSock { sk_connected : bool; sk_fd : Fd; sk_errno : Z }.

Definition sock_send (s : Sock) (buf : list Z) : option nat * Sock :=
  if sk_connected s then
    match sys_write (sk_fd s) buf with
    | (inl n, fd) => (Some n, mkSock true fd (sk_errno s))
    | (inr e, fd) => (None, mkSock true fd e)
    end
  else (None, s).

Definition sock_recv (s : Sock) (n : nat) : option (list Z) * Sock :=
  if sk_connected s then
    match sys_read (sk_fd s) n with
    | (inl bs, fd) => (Some bs, mkSock true fd (sk_errno s))
    | (inr e, fd) => (None, mkSock true fd e)
    end
  else (None, s).

(** [Util::WriteFixedBytes(sock, buf, length)], with a bound on its turns. *)
Fixpoint write_sock (fuel : nat) (s : Sock) (buf : list Z) (written : nat) : outcome (nat * Sock) :=
  match fuel with
  | O => Stuck
  | S fuel =>
    if decide (written < length buf)%nat then
      match sock_send s (drop written buf) with
      | (Some O, s) => Ok (written, s)
      | (Some nw, s) => write_sock fuel s buf (written + nw)
      | (None, s) => if decide (sk_errno s = EINTR) then write_sock fuel s buf written else Ok (written, s)
      end
    else Ok (written, s)
  end.

(** [Util::ReadFixedBytes(sock, buf, length)]. *)
Fixpoint read_sock (fuel : nat) (s : Sock) (length_ : nat) (buf : list Z) : outcome (list Z * Sock) :=
  match fuel with
  | O => Stuck
  | S fuel =>
    if decide (length buf < length_)%nat then
      match sock_recv s (length_ - length buf) with
      | (Some [], s) => Ok (buf, s)
      | (Some bs, s) => read_sock fuel s length_ (buf ++ bs)
      | (None, s) => if decide (sk_errno s = EINTR) then read_sock fuel s length_ buf else Ok (buf, s)
      end
    else Ok (buf, s)
  end.

(** On a connected socket they are the versions on descriptors. *)
Lemma write_sock_fd fuel : ∀ s buf written,
  sk_connected s = true →
  match write_fixed fuel (sk_fd s) buf written with
  | Ok (n, fd) => ∃ s', write_sock fuel s buf written = Ok (n, s') ∧ sk_fd s' = fd ∧ sk_connected s' = true
  | _ => write_sock fuel s buf written = Stuck
  end.
Proof.
  induction fuel as [|fuel IH]; intros [cn fd e0] buf written Hc; [done|]. simpl in Hc. subst cn.
  cbn [write_fixed write_sock sk_fd]. unfold sock_send. cbn [sk_connected sk_fd sk_errno]. case_decide; [|by eexists]. destruct (sys_write fd (drop written buf)) as [[[|n]|e] fd'] eqn:E.
  - by eexists.
  - apply (IH (mkSock true fd' e0)). done.
  - cbn [sk_errno]. case_decide; [|by eexists]. apply (IH (mkSock true fd' e)). done.
Qed.

Lemma read_sock_fd fuel : ∀ s length_ buf,
  sk_connected s = true →
  match read_fixed fuel (sk_fd s) length_ buf with
  | Ok (bs, fd) => ∃ s', read_sock fuel s length_ buf = Ok (bs, s') ∧ sk_fd s' = fd ∧ sk_connected s' = true
  | _ => read_sock fuel s length_ buf = Stuck
  end.
Proof.
  induction fuel as [|fuel IH]; intros [cn fd e0] length_ buf Hc; [done|]. simpl in Hc. subst cn.
  cbn [read_fixed read_sock sk_fd]. unfold sock_recv. cbn [sk_connected sk_fd sk_errno]. case_decide; [|by eexists]. destruct (sys_read fd (length_ - length buf)) as [[[|b bs]|e] fd'] eqn:E.
  - by eexists.
  - apply (IH (mkSock true fd' e0)). done.
  - cbn [sk_errno]. case_decide; [|by eexists]. apply (IH (mkSock true fd' e)). done.
Qed.

(** Without a connection the versions on sockets return at once, unless [errno]
    still holds the code of an interrupted call: then they never return. *)
Theorem stale_errno_spins (s : Sock) (buf : list Z) (n : nat) :
  sk_connected s = false → buf ≠ [] → (0 < n)%nat →
  (sk_errno s ≠ EINTR → ∀ fuel, write_sock (S fuel) s buf 0 = Ok (0%nat, s) ∧ read_sock (S fuel) s n [] = Ok ([], s)) ∧
  (sk_errno s = EINTR → ∀ fuel, write_sock fuel s buf 0 = Stuck ∧ read_sock fuel s n [] = Stuck).
Proof.
  intros Hc Hb Hn. assert (0 < length buf)%nat by (destruct buf; [done|simpl; lia]). split.
  - intros He fuel. cbn [write_sock read_sock length]. unfold sock_send, sock_recv. rewrite Hc.
    repeat case_decide; (done || lia).
  - intros He fuel. induction fuel as [|fuel [IH1 IH2]]; [done|]. cbn [write_sock read_sock length].
    unfold sock_send, sock_recv. rewrite Hc. repeat case_decide; (done || lia).
Qed.

Lemma stale_errno_spins_witness :
  ∀ fuel, write_sock fuel (mkSock false (mkFd [] [] []) 4) [1] 0 = Stuck.
Proof.
  intros fuel. apply (stale_errno_spins (mkSock false (mkFd [] [] []) 4) [1] 1); [reflexivity|discriminate|lia|reflexivity].
Defined.

(** ** Copying a file *)

(** The sizes of the buffers; the receiver passes the size of a [std::string]. *)
Definition echo_chunk : nat := Z.to_nat 4096.
Definition file_chunk : nat := Z.to_nat 8192.
Definition string_size : nat := 32.

(** The thread of a client in the echo server. *)
Fixpoint echo_thread (fuel : nat) (fd : Fd) : outcome Fd :=
  match fuel with
  | O => Stuck
  | S fuel =>
    match sys_read fd echo_chunk with
    | (inl [], fd) => Ok fd
    | (inl bs, fd) =>
      '(nw, fd) ← WriteFixedBytes fd bs;
      if decide (nw < length bs)%nat then Ok fd else echo_thread fuel fd
    | (inr _, fd) => Ok fd
    end
  end.

(** [ifs.open(filename, std::ios_base::app)]: with [app], the file is opened for
    reading and writing and created if there is none. *)
Definition open_app (file : option (list Z)) (may_write : bool) : option (list Z) :=
  if may_write then Some (default [] file) else None.

(** The loop [while (!ifs.eof())] of [sender]; the results of the writes are not
    looked at. *)
Fixpoint send_file (fuel : nat) (fd : Fd) (file : list Z) : outcome Fd :=
  match fuel with
  | O => Stuck
  | S fuel =>
    let chunk := take file_chunk file in
    '(_, fd) ← WriteFixedBytes fd chunk;
    if decide (length chunk < file_chunk)%nat then Ok fd else send_file fuel fd (drop file_chunk file)
  end.

(** [sender(filename, sockfd)]. *)
Definition sender (file : option (list Z)) (may_write : bool) (fd : Fd) : outcome Fd :=
  match open_app file may_write with
  | None => mret fd
  | Some content => send_file (S (length content)) fd content
  end.

(** The loop of the receiver: the number of bytes it prints. *)
Fixpoint receive_all (fuel : nat) (fd : Fd) (total_bytes : Z) : outcome (Z * Fd) :=
  match fuel with
  | O => Stuck
  | S fuel =>
    match sys_read fd string_size with
    | (inl [], fd) => Ok (total_bytes, fd)
    | (inl bs, fd) => receive_all fuel fd (s32 (total_bytes + Z.of_nat (length bs)))
    | (inr _, fd) => Ok (total_bytes, fd)
    end
  end.

Definition receiver (fd : Fd) : outcome (Z * Fd) := receive_all (S (length (fd_in fd))) fd 0.

(** A kernel that only cuts transfers up. *)
Definition smooth (fd : Fd) : Prop := Forall (λ c, ∃ n, c = UpTo n) (fd_calls fd).

Lemma smooth_benign fd : smooth fd → Forall benign (fd_calls fd).
Proof. intros Hs. eapply Forall_impl; [exact Hs|]. by intros ? [n ->]. Qed.

Lemma smooth_tail fd l l' : smooth fd → smooth (mkFd l l' (tail (fd_calls fd))).
Proof. unfold smooth. simpl. by destruct 1. Qed.

(** One read on such a kernel: a piece of what is there, or the end. *)
Lemma smooth_read fd n :
  smooth fd → (0 < n)%nat →
  ∃ bs fd', sys_read fd n = (inl bs, fd') ∧ fd_in fd = bs ++ fd_in fd' ∧ fd_out fd' = fd_out fd ∧ smooth fd' ∧
    (length bs ≤ n)%nat ∧ (bs = [] → fd_in fd = []).
Proof.
  intros Hs Hn. unfold sys_read. pose proof (sys_transfer_ok fd (n `min` length (fd_in fd))) as Ht.
  destruct (sys_transfer fd _) as [m|e] eqn:E.
  - destruct Ht as [Hm Hpos]. eexists _, _. split; [done|]. simpl. rewrite take_drop.
    split_and!; [done|done|by apply smooth_tail|rewrite length_take; lia|].
    intros Hnil. destruct (fd_in fd) as [|x l] eqn:Ein; [done|]. exfalso.
    specialize (Hpos (smooth_benign fd Hs)). simpl in *. destruct m; [lia|done].
  - unfold sys_transfer in E. unfold smooth in Hs. destruct Hs as [|? ? [k ->]]; done.
Qed.

(** Writing only uses calls up. *)
Lemma write_fixed_calls (P : call → Prop) buf : ∀ fuel fd written n fd',
  Forall P (fd_calls fd) → write_fixed fuel fd buf written = Ok (n, fd') → Forall P (fd_calls fd').
Proof.
  induction fuel as [|fuel IH]; intros fd written n fd' Hp; [done|]. cbn [write_fixed].
  case_decide; [|by intros [= _ <-]]. unfold sys_write.
  assert (Forall P (tail (fd_calls fd))) as Ht by (by destruct Hp).
  destruct (sys_transfer fd _) as [[|m]|e]; [by intros [= _ <-]|by apply IH|].
  case_decide; [by apply IH|by intros [= _ <-]].
Qed.

Lemma write_smooth fd buf :
  smooth fd → ∃ fd', WriteFixedBytes fd buf = Ok (length buf, fd') ∧ fd_in fd' = fd_in fd ∧
    fd_out fd' = fd_out fd ++ buf ∧ smooth fd'.
Proof.
  intros Hs. destruct (write_fixed_ok buf (S (length buf + length (fd_calls fd))) fd 0)
    as (n & fd' & E & Hn & Hin & Hout & Hb); [lia|lia|].
  destruct (Hb (smooth_benign fd Hs)) as [Hn' _]. simpl in Hn'. subst n. exists fd'. rewrite drop_0, take_ge in Hout by lia.
  split_and!; [done|done|done|]. by eapply write_fixed_calls.
Qed.

Lemma echo_thread_ok fuel : ∀ fd,
  smooth fd → (length (fd_in fd) < fuel)%nat →
  ∃ fd', echo_thread fuel fd = Ok fd' ∧ fd_in fd' = [] ∧ fd_out fd' = fd_out fd ++ fd_in fd.
Proof.
  induction fuel as [|fuel IH]; intros fd Hs Hf; [lia|]. cbn [echo_thread].
  destruct (smooth_read fd echo_chunk Hs) as (bs & fd1 & -> & Hin & Hout & Hs1 & _ & Hnil); [by vm_compute; lia|].
  destruct bs as [|b bs].
  - exists fd1. rewrite (Hnil eq_refl), app_nil_r. rewrite (Hnil eq_refl) in Hin. by destruct (fd_in fd1).
  - destruct (write_smooth fd1 (b :: bs) Hs1) as (fd2 & -> & Hin2 & Hout2 & Hs2). osimpl. rewrite decide_False by lia.
    destruct (IH fd2 Hs2) as (fd' & -> & ? & Hout'); [rewrite Hin2; rewrite Hin, length_app in Hf; simpl in Hf; lia|].
    exists fd'. split_and!; [done|done|]. rewrite Hout', Hout2, Hin2, Hout, Hin. by rewrite <-(assoc_L (++)).
Qed.

Lemma send_file_ok fuel : ∀ fd file,
  smooth fd → (length file < fuel)%nat →
  ∃ fd', send_file fuel fd file = Ok fd' ∧ fd_in fd' = fd_in fd ∧ fd_out fd' = fd_out fd ++ file.
Proof.
  induction fuel as [|fuel IH]; intros fd file Hs Hf; [lia|]. cbn [send_file].
  assert (0 < file_chunk)%nat by (vm_compute; lia).
  destruct (write_smooth fd (take file_chunk file) Hs) as (fd1 & -> & Hin1 & Hout1 & Hs1). osimpl.
  case_decide as Hd; rewrite length_take in Hd.
  - exists fd1. rewrite take_ge in Hout1 by lia. done.
  - destruct (IH fd1 (drop file_chunk file) Hs1) as (fd' & -> & ? & Hout'); [rewrite length_drop; lia|].
    exists fd'. split_and!; [done|congruence|]. by rewrite Hout', Hout1, <-(assoc_L (++)), take_drop.
Qed.

Lemma receive_all_ok fuel : ∀ fd total,
  smooth fd → (length (fd_in fd) < fuel)%nat → s32 total = total →
  ∃ fd', receive_all fuel fd total = Ok (s32 (total + Z.of_nat (length (fd_in fd))), fd') ∧ fd_in fd' = [].
Proof.
  induction fuel as [|fuel IH]; intros fd total Hs Hf Ht; [lia|]. cbn [receive_all].
  destruct (smooth_read fd string_size Hs) as (bs & fd1 & -> & Hin & Hout & Hs1 & _ & Hnil); [unfold string_size; lia|].
  destruct bs as [|b bs].
  - exists fd1. rewrite (Hnil eq_refl) in *. simpl. rewrite Z.add_0_r, Ht. by destruct (fd_in fd1).
  - set (bs' := b :: bs) in *. destruct (IH fd1 (s32 (total + Z.of_nat (length bs'))) Hs1) as (fd' & -> & ?).
    { rewrite Hin, length_app in Hf. simpl in Hf. lia. }
    { apply swrap_small; [lia|]. by apply swrap_range. }
    exists fd'. split; [|done]. rewrite swrap_add by lia. rewrite Hin, length_app. do 3 f_equal. lia.
Qed.

(** Over a connection that only cuts transfers up, the echo server sends back exactly
    what it is sent, the sender sends exactly the file, creating it empty if there is
    none, and a receiver at the other end prints its size, as long as an [int] holds
    it. *)
Theorem copies_exact (fd rfd : Fd) (file : option (list Z)) :
  smooth fd → smooth rfd →
  (∃ fd', echo_thread (S (length (fd_in fd))) fd = Ok fd' ∧ fd_in fd' = [] ∧ fd_out fd' = fd_out fd ++ fd_in fd) ∧
  (∃ fd', sender file true fd = Ok fd' ∧ fd_out fd' = fd_out fd ++ default [] file) ∧
  (∀ content, file = Some content → fd_in rfd = content → Z.of_nat (length content) < 2 ^ 31 →
     ∃ rfd', receiver rfd = Ok (Z.of_nat (length content), rfd') ∧ fd_in rfd' = []).
Proof.
  intros Hs Hr. split_and!.
  - by apply echo_thread_ok; [|lia].
  - unfold sender, open_app. destruct (send_file_ok (S (length (default [] file))) fd (default [] file) Hs)
      as (fd' & E & _ & Hout); [lia|]. exists fd'. split; [exact E|exact Hout].
  - intros content _ Hin Hlen. destruct (receive_all_ok (S (length (fd_in rfd))) rfd 0 Hr) as (rfd' & E & ?); [lia|done|].
    exists rfd'. split; [|done]. unfold receiver. rewrite E, Hin. do 2 f_equal. apply swrap_small; [lia|]. unfold in_signed. lia.
Qed.

Lemma copies_exact_witness :
  ∃ rfd', receiver (mkFd [1; 2; 3] [] [UpTo 2]) = Ok (3, rfd') ∧ fd_in rfd' = [].
Proof.
  destruct (copies_exact (mkFd [] [] []) (mkFd [1; 2; 3] [] [UpTo 2]) (Some [1; 2; 3])) as (_ & _ & H).
  - constructor.
  - constructor; [exists 2%nat; reflexivity|constructor].
  - apply (H [1; 2; 3]); [reflexivity|reflexivity|simpl; lia].
Defined.

(** ** Listening *)

(** [sockaddr_in] with any address and a port in network order. *)
Definition any_address (port : Z) : list Z := [2; 0; port / 256; port mod 256] ++ replicate 12 0.

(** [Util::GetListenfd]: what [socket], [setsockopt], [bind] and [listen] return;
    the descriptor and the address bound, or the name of the call after which the
    program exits. *)
Definition GetListenfd (port r_socket r_setsockopt r_bind r_listen : Z) : outcome (string + Z * list Z) :=
  _ ← sylar_assert (0 <=? r_socket) "listenfd >= 0";
  mret (if negb (r_setsockopt =? 0) then inl "setsockopt"%string
        else if negb (r_bind =? 0) then inl "bind"%string
        else if negb (r_listen =? 0) then inl "listen"%string
        else inr (r_socket, any_address port)).

(** [Util::AcceptOrDie]: the connection, and the descriptor that was closed. *)
Definition AcceptOrDie (port r_socket r_setsockopt r_bind r_listen r_accept : Z) : outcome (string + Z * Z) :=
  l ← GetListenfd port r_socket r_setsockopt r_bind r_listen;
  mret (match l with
        | inl what => inl what
        | inr (listenfd, _) => if r_accept <? 0 then inl "accept"%string else inr (r_accept, listenfd)
        end).

(** A connection is returned exactly when every call succeeded, and then the
    listening descriptor is the one that was closed. *)
Lemma AcceptOrDie_connection port r1 r2 r3 r4 r5 connfd closed :
  AcceptOrDie port r1 r2 r3 r4 r5 = Ok (inr (connfd, closed)) ↔
  0 <= r1 ∧ r2 = 0 ∧ r3 = 0 ∧ r4 = 0 ∧ 0 <= r5 ∧ connfd = r5 ∧ closed = r1.
Proof.
  unfold AcceptOrDie, GetListenfd, sylar_assert.
  destruct (Z.leb_spec 0 r1); osimpl; [|split; [done|lia]].
  destruct (Z.eqb_spec r2 0), (Z.eqb_spec r3 0), (Z.eqb_spec r4 0); simpl; try (split; [done|lia]).
  destruct (Z.ltb_spec r5 0); (split; [|intros; destruct_and!; subst; (done || lia)]); intros [=]; lia.
Qed.
