(* ===== verification/NetPrograms.v ===== *)
(** The network programs on top of the library: ttcp (1_ttcp), the echo pair
    (1_ttcp/echo), the clock difference over UDP (2_roundtrip) and the character
    generator and Nagle test (3_netcat). Each pair of programs is a step relation
    of the two and the bytes under way between them. *)

From Stdlib Require Import ZArith Lia.
From stdpp Require Import base numbers option strings tactics relations list_numbers list.
From S2P Require Import Prelude StdSet Text Endian.

Local Open Scope Z_scope.

(** ** Numbers on the wire *)

Definition htonl (order : endian) (n : Z) : Z := byteswapOnLittleEndian order int32_t n.
Definition ntohl (order : endian) (n : Z) : Z := byteswapOnLittleEndian order int32_t n.

(** The bytes of a number in network order, and the number in such bytes. *)
Definition net32 (order : endian) (n : Z) : list Z := to_memory order int32_t (htonl order n).
Definition host32 (order : endian) (bs : list Z) : Z := ntohl order (of_memory order int32_t bs).

Lemma net32_host32 order n : in_signed 32 n → host32 order (net32 order n) = n.
Proof.
  intros Hn. unfold host32, net32, htonl, ntohl. assert (in_type int32_t n) as Ht by done.
  rewrite of_to_memory_id; [by apply byteswapOnLittleEndian_twice; [simpl; lia|]|simpl; lia|].
  destruct order; cbn [byteswapOnLittleEndian]; [apply byteswap_in_type; simpl; lia|done].
Qed.

Lemma length_net32 order n : length (net32 order n) = 4%nat.
Proof. unfold net32, to_memory. destruct order; rewrite ?length_reverse; apply length_bytes_le. Qed.

(** ** ttcp *)

Record Options : Type := mkOptions {
  opt_length : Z;
  opt_number : Z;
  opt_transmit : bool;
  opt_receive : bool
}.

(** [ParseCommandLine] after boost has read the options: [trans], [recv] and
    [help] say which of them were given. *)
Definition ParseCommandLine (length number : Z) (trans recv help : bool) : bool * Options :=
  let opt := mkOptions length number trans recv in
  if help then (false, opt)
  else if bool_decide (trans = recv) then (false, opt)
  else (true, opt).

(** The two ends, each between two of its transfers; a transfer of a fixed size is
    one step ([fixed_bytes_exact] of [NetUtil]). [TDie] and [RDie] are failed
    assertions. *)
Inductive sender : Type := TSession | TPayload (i : nat) | TAck (i : nat) | TDone | TDie.

Inductive receiver : Type :=
| RSession
| RHeader (i : nat) (number length : Z)
| RBody (i : nat) (number length plen : Z)
| RAck (i : nat) (number length plen : Z)
| RDone
| RDie.

(** [payload->data]. *)
Definition pattern (n : nat) : list Z := (λ i, default 0 (text "0123456789ABCDEF" !! (i `mod` 16)%nat)) <$> seq 0 n.

Section ttcp.
Context (order : endian) (opt : Options).

Definition session_msg : list Z := net32 order (opt_number opt) ++ net32 order (opt_length opt).
Definition payload : list Z := net32 order (opt_length opt) ++ pattern (Z.to_nat (opt_length opt)).

(** The tests of the two loops. *)
Definition tnext (i : nat) : sender := if decide (Z.of_nat i < opt_number opt) then TPayload i else TDone.
Definition rnext (i : nat) (number length : Z) : receiver :=
  if decide (Z.of_nat i < number) then RHeader i number length else RDone.

(** [transmit]: what the sender does next, given the bytes that have come back:
    its new state, the bytes it sends and the bytes left to read. *)
Definition transmit (t : sender) (back : list Z) : option (sender * list Z * list Z) :=
  match t with
  | TSession => Some (tnext 0, session_msg, back)
  | TPayload i => Some (TAck i, payload, back)
  | TAck i =>
    if decide (4 <= length back)%nat then
      let ack := host32 order (take 4 back) in
      Some (if decide (ack = opt_length opt) then tnext (S i) else TDie, [], drop 4 back)
    else None
  | TDone | TDie => None
  end.

(** [receive]. *)
Definition receive (r : receiver) (fwd : list Z) : option (receiver * list Z * list Z) :=
  match r with
  | RSession =>
    if decide (8 <= length fwd)%nat then
      Some (rnext 0 (host32 order (take 4 fwd)) (host32 order (take 4 (drop 4 fwd))), [], drop 8 fwd)
    else None
  | RHeader i number len =>
    if decide (4 <= length fwd)%nat then
      let plen := host32 order (take 4 fwd) in
      Some (if decide (plen = len) then RBody i number len plen else RDie, [], drop 4 fwd)
    else None
  | RBody i number len plen =>
    if decide (Z.to_nat plen <= length fwd)%nat then Some (RAck i number len plen, [], drop (Z.to_nat plen) fwd) else None
  | RAck i number len plen => Some (rnext (S i) number len, net32 order plen, fwd)
  | RDone | RDie => None
  end.

(** A connection: both ends and the bytes on their way in either direction. *)
Record conn : Type := mkConn { c_tx : sender; c_rx : receiver; c_fwd : list Z; c_back : list Z }.

Inductive ttcp_step : conn → conn → Prop :=
| step_tx t r fwd back t' sent back' :
    transmit t back = Some (t', sent, back') → ttcp_step (mkConn t r fwd back) (mkConn t' r (fwd ++ sent) back')
| step_rx t r fwd back r' sent fwd' :
    receive r fwd = Some (r', sent, fwd') → ttcp_step (mkConn t r fwd back) (mkConn t r' fwd' (back ++ sent)).

Definition ttcp_start : conn := mkConn TSession RSession [] [].
Definition ttcp_end : conn := mkConn TDone RDone [] [].

(** ** ttcp completes *)

Hypothesis (Hlen : 0 <= opt_length opt < 2 ^ 31 - 4) (Hnum : 0 <= opt_number opt < 2 ^ 31).

Abbreviation n := (Z.to_nat (opt_number opt)).
Abbreviation num := (opt_number opt).
Abbreviation len := (opt_length opt).
Abbreviation body := (pattern (Z.to_nat (opt_length opt))).

(** The states of a session: [i] payloads are acknowledged. *)
Inductive shape : conn → Prop :=
| at_start : shape ttcp_start
| session_sent : shape (mkConn (tnext 0) RSession session_msg [])
| payload_early : (0 < n)%nat → shape (mkConn (TAck 0) RSession (session_msg ++ payload) [])
| at_round i : (i <= n)%nat → shape (mkConn (tnext i) (rnext i num len) [] [])
| payload_sent i : (i < n)%nat → shape (mkConn (TAck i) (RHeader i num len) payload [])
| header_read i : (i < n)%nat → shape (mkConn (TAck i) (RBody i num len len) body [])
| body_read i : (i < n)%nat → shape (mkConn (TAck i) (RAck i num len len) [] [])
| ack_sent i : (i < n)%nat → shape (mkConn (TAck i) (rnext (S i) num len) [] (net32 order len)).

(** How many steps the two ends have to go. *)
Definition tx_left (t : sender) : nat :=
  match t with TSession => 1 + 2 * n | TPayload i => 2 * (n - i) | TAck i => 2 * (n - i) - 1 | TDone | TDie => 0 end.
Definition rx_left (r : receiver) : nat :=
  match r with
  | RSession => 1 + 3 * n
  | RHeader i _ _ => 3 * (n - i)
  | RBody i _ _ _ => 3 * (n - i) - 1
  | RAck i _ _ _ => 3 * (n - i) - 2
  | RDone | RDie => 0
  end.
Definition steps_left (c : conn) : nat := tx_left (c_tx c) + rx_left (c_rx c).

Lemma tnext_lt i : (i < n)%nat → tnext i = TPayload i.
Proof. intros. unfold tnext. by rewrite decide_True by lia. Qed.
Lemma tnext_ge i : (n <= i)%nat → tnext i = TDone.
Proof. intros. unfold tnext. by rewrite decide_False by lia. Qed.
Lemma rnext_lt i : (i < n)%nat → rnext i num len = RHeader i num len.
Proof. intros. unfold rnext. by rewrite decide_True by lia. Qed.
Lemma rnext_ge i : (n <= i)%nat → rnext i num len = RDone.
Proof. intros. unfold rnext. by rewrite decide_False by lia. Qed.

Lemma tx_left_next i : (i <= n)%nat → tx_left (tnext i) = (2 * (n - i))%nat.
Proof. intros. destruct (decide (i < n)%nat); [by rewrite tnext_lt|rewrite tnext_ge by lia; simpl; lia]. Qed.
Lemma rx_left_next i : (i <= n)%nat → rx_left (rnext i num len) = (3 * (n - i))%nat.
Proof. intros. destruct (decide (i < n)%nat); [by rewrite rnext_lt|rewrite rnext_ge by lia; simpl; lia]. Qed.

Lemma length_body : length body = Z.to_nat len.
Proof. unfold pattern. by rewrite length_fmap, length_seq. Qed.

Lemma take4_net32 m t : take 4 (net32 order m ++ t) = net32 order m.
Proof. rewrite <-(length_net32 order m). apply take_app_length. Qed.
Lemma drop4_net32 m t : drop 4 (net32 order m ++ t) = t.
Proof. rewrite <-(length_net32 order m). apply drop_app_length. Qed.

Lemma receive_session t :
  receive RSession (session_msg ++ t) = Some (rnext 0 num len, [], t).
Proof.
  unfold receive, session_msg. rewrite decide_True by (rewrite !length_app, !length_net32; lia).
  replace (drop 8 ((net32 order num ++ net32 order len) ++ t))
    with (drop 4 (drop 4 (net32 order num ++ net32 order len ++ t))) by (by rewrite drop_drop, app_assoc).
  by rewrite <-!app_assoc, !take4_net32, !drop4_net32, take4_net32, !net32_host32 by (unfold in_signed; lia).
Qed.

Lemma receive_header i t :
  receive (RHeader i num len) (net32 order len ++ t) = Some (RBody i num len len, [], t).
Proof.
  unfold receive. rewrite decide_True by (rewrite length_app, length_net32; lia).
  rewrite take4_net32, drop4_net32, net32_host32 by (unfold in_signed; lia). by rewrite decide_True.
Qed.

Lemma receive_empty i : (i <= n)%nat → receive (rnext i num len) [] = None.
Proof. intros. destruct (decide (i < n)%nat); [by rewrite rnext_lt|by rewrite rnext_ge by lia]. Qed.

Lemma shape_tx c c' t' sent back' :
  shape c → transmit (c_tx c) (c_back c) = Some (t', sent, back') →
  c' = mkConn t' (c_rx c) (c_fwd c ++ sent) back' → shape c' ∧ steps_left c = S (steps_left c').
Proof.
  intros Hs E ->. unfold steps_left.
  destruct Hs as [| |Hn|i Hi|i Hi|i Hi|i Hi|i Hi]; cbn [c_tx c_rx c_fwd c_back ttcp_start] in *; try done.
  - injection E as <- <- <-. split; [constructor|]. rewrite tx_left_next by lia. simpl. lia.
  - destruct (decide (0 < n)%nat) as [Hn|Hn]; [|by rewrite tnext_ge in E by lia].
    rewrite tnext_lt in E by done. injection E as <- <- <-. split; [by constructor|]. rewrite tx_left_next by lia. simpl. lia.
  - destruct (decide (i < n)%nat) as [Hn|Hn]; [|by rewrite tnext_ge in E by lia].
    rewrite tnext_lt in E by done. injection E as <- <- <-. rewrite rnext_lt by done. split; [by constructor|].
    rewrite tnext_lt by done. simpl. lia.
  - unfold transmit in E. rewrite decide_True in E by (rewrite length_net32; lia). injection E as <- <- <-.
    rewrite <-(app_nil_r (net32 order len)), take4_net32, drop4_net32, net32_host32 by (unfold in_signed; lia).
    rewrite decide_True by done. split; [by constructor; lia|]. rewrite tx_left_next by lia. simpl. lia.
Qed.

Lemma shape_rx c c' r' sent fwd' :
  shape c → receive (c_rx c) (c_fwd c) = Some (r', sent, fwd') →
  c' = mkConn (c_tx c) r' fwd' (c_back c ++ sent) → shape c' ∧ steps_left c = S (steps_left c').
Proof.
  intros Hs E ->. unfold steps_left.
  destruct Hs as [| |Hn|i Hi|i Hi|i Hi|i Hi|i Hi]; cbn [c_tx c_rx c_fwd c_back ttcp_start] in *; try done.
  - rewrite <-(app_nil_r session_msg) in E. rewrite receive_session in E. injection E as <- <- <-.
    split; [by constructor; lia|]. rewrite rx_left_next by lia. simpl. lia.
  - rewrite receive_session in E. injection E as <- <- <-. rewrite rnext_lt by done. split; [by constructor|]. simpl. lia.
  - by rewrite receive_empty in E by lia.
  - unfold payload in E. rewrite receive_header in E. injection E as <- <- <-. split; [by constructor|]. simpl. lia.
  - unfold receive in E. rewrite decide_True in E by (by rewrite length_body). injection E as <- <- <-.
    rewrite drop_ge by (by rewrite length_body). split; [by constructor|]. simpl. lia.
  - injection E as <- <- <-. split; [by constructor|]. rewrite rx_left_next by lia. simpl. lia.
  - by rewrite receive_empty in E by lia.
Qed.

Lemma shape_step c c' : shape c → ttcp_step c c' → shape c' ∧ steps_left c = S (steps_left c').
Proof.
  intros Hs Hst. revert Hs. destruct Hst as [t r fwd back t' sent back' E|t r fwd back r' sent fwd' E]; intros Hs;
  [exact (shape_tx (mkConn t r fwd back) _ t' sent back' Hs E eq_refl)|exact (shape_rx (mkConn t r fwd back) _ r' sent fwd' Hs E eq_refl)].
Qed.

Lemma shape_progress c : shape c → c = ttcp_end ∨ ∃ c', ttcp_step c c'.
Proof.
  destruct 1 as [| |Hn|i Hi|i Hi|i Hi|i Hi|i Hi].
  - right. eexists. by constructor.
  - right. eexists. eapply step_rx. rewrite <-(app_nil_r session_msg). apply receive_session.
  - right. eexists. eapply step_rx. apply receive_session.
  - destruct (decide (i < n)%nat); [right|left].
    + rewrite tnext_lt by done. eexists. by eapply step_tx.
    + by rewrite tnext_ge, rnext_ge by lia.
  - right. eexists. eapply step_rx. apply receive_header.
  - right. eexists. eapply step_rx. unfold receive. by rewrite decide_True by (by rewrite length_body).
  - right. eexists. by eapply step_rx.
  - right. eexists. eapply step_tx. unfold transmit. by rewrite decide_True by (rewrite length_net32; lia).
Qed.

Lemma shape_nsteps k : ∀ c0 c, shape c0 → nsteps ttcp_step k c0 c →
  shape c ∧ steps_left c0 = (k + steps_left c)%nat.
Proof.
  induction k as [|k IH]; intros c0 c H0 Hn; inversion Hn as [|? ? c1 ? H1 H2]; subst; [done|].
  destruct (shape_step _ _ H0 H1) as [Hs1 E]. destruct (IH c1 c Hs1 H2) as [Hs E2]. split; [done|lia].
Qed.

(** A ttcp session completes: for every length and number of buffers that the
    options can hold, however the two ends are interleaved, no assertion fails,
    no state but the end is without a next step, and every run reaches the end,
    both ends done and no bytes under way, after exactly two steps and five for
    each buffer. *)
Theorem ttcp_completes k c :
  nsteps ttcp_step k ttcp_start c →
  c_tx c ≠ TDie ∧ c_rx c ≠ RDie ∧ (c = ttcp_end ∨ ∃ c', ttcp_step c c') ∧
  (k <= 2 + 5 * Z.to_nat (opt_number opt))%nat ∧ (k = 2 + 5 * Z.to_nat (opt_number opt) → c = ttcp_end)%nat.
Proof.
  intros Hk. destruct (shape_nsteps k ttcp_start c at_start Hk) as [Hs Hl].
  assert (steps_left ttcp_start = 2 + 5 * n)%nat as E0 by (unfold steps_left; simpl; lia).
  assert (c_tx c ≠ TDie ∧ c_rx c ≠ RDie) as [H1 H2].
  { destruct Hs as [| |Hn|i Hi|i Hi|i Hi|i Hi|i Hi]; split; cbn [c_tx c_rx ttcp_start]; try done; unfold tnext, rnext; by case_decide. }
  split_and!; [done|done|by apply shape_progress|lia|]. intros ->.
  destruct (shape_progress c Hs) as [->|[c' Hc]]; [done|]. destruct (shape_step _ _ Hs Hc) as [_ E]. lia.
Qed.

End ttcp.

Module TtcpSample.

Definition two_buffers : Options := mkOptions 3 2 true false.

Lemma ttcp_completes_witness :
  ∃ c, ttcp_step SYLAR_LITTLE_ENDIAN two_buffers ttcp_start c ∧ c_tx c ≠ TDie.
Proof.
  eexists. split; [apply step_tx; reflexivity|].
  refine (proj1 (ttcp_completes SYLAR_LITTLE_ENDIAN two_buffers _ _ 1 _ _)); [simpl; lia|simpl; lia|].
  apply nsteps_once. apply step_tx. reflexivity.
Defined.

End TtcpSample.

(** ** The echo programs block each other *)

(** The client writes [len] bytes and then reads them back; a thread of the server
    reads at most 4096 bytes and writes them back. [c1] and [c2] are the bytes the
    kernel can hold on the way there and back. Bytes are counted: written and read
    by the client, on the way, and in the buffer of the server. *)
Record echo : Type := mkEcho { e_written : Z; e_read : Z; e_q1 : Z; e_buf : Z; e_q2 : Z }.

Section echo.
Context (len c1 c2 : Z).

Inductive echo_step : echo → echo → Prop :=
| client_write w r q1 b q2 k :
    0 < k → w + k <= len → q1 + k <= c1 → echo_step (mkEcho w r q1 b q2) (mkEcho (w + k) r (q1 + k) b q2)
| client_read r q1 b q2 k :
    0 < k → k <= q2 → r + k <= len → echo_step (mkEcho len r q1 b q2) (mkEcho len (r + k) q1 b (q2 - k))
| server_read w r q1 q2 k :
    0 < k → k <= q1 → k <= 4096 → echo_step (mkEcho w r q1 0 q2) (mkEcho w r (q1 - k) k q2)
| server_write w r q1 b q2 k :
    0 < k → k <= b → q2 + k <= c2 → echo_step (mkEcho w r q1 b q2) (mkEcho w r q1 (b - k) (q2 + k)).

Definition echo_start : echo := mkEcho 0 0 0 0 0.

Definition echo_inv (e : echo) : Prop :=
  e_written e = e_read e + e_q1 e + e_buf e + e_q2 e ∧ 0 <= e_q1 e <= c1 ∧ 0 <= e_q2 e <= c2 ∧
  0 <= e_buf e <= 4096 ∧ 0 <= e_read e ∧ e_written e <= len ∧ (0 < e_read e → e_written e = len).

(** The way the bytes still have to go. *)
Definition echo_left (e : echo) : Z := 4 * (len - e_written e) + 3 * e_q1 e + 2 * e_buf e + e_q2 e.

Lemma echo_step_inv e e' : echo_inv e → echo_step e e' → echo_inv e' ∧ 0 <= echo_left e' < echo_left e.
Proof.
  unfold echo_inv, echo_left. intros Hi Hs. revert Hi.
  destruct Hs; cbn [e_written e_read e_q1 e_buf e_q2]; lia.
Qed.

Lemma echo_reachable e : 0 <= len → 0 <= c1 → 0 <= c2 → rtc echo_step echo_start e → echo_inv e.
Proof.
  intros Hl H1 H2 Hr. assert (echo_inv echo_start) as H0 by (unfold echo_inv; simpl; lia).
  revert H0. induction Hr as [|x y z Hs _ IH]; [done|]. intros Hi. apply IH. by eapply echo_step_inv.
Qed.

Lemma echo_never_reads e :
  0 <= len → 0 <= c1 → 0 <= c2 → c1 + 4096 + c2 < len → rtc echo_step echo_start e → e_read e = 0.
Proof.
  intros Hl H1 H2 Hb Hr. assert (echo_inv echo_start ∧ e_read echo_start = 0) as H0 by (unfold echo_inv; simpl; lia).
  revert H0. induction Hr as [|x y z Hs _ IH]; [by intros [_ ?]|]. intros [Hi H0]. apply IH.
  split; [by eapply echo_step_inv|]. unfold echo_inv in Hi. clear IH. destruct Hs; cbn [e_written e_read e_q1 e_buf e_q2] in *; lia.
Qed.

(** The echo client writes everything before it reads: with more bytes than
    the two directions of the connection and the server's buffer can hold it
    never gets to read, in no run at all, as the comment in the source warns.
    With at most one byte more than the two directions hold, every state but the
    end has a next step, and each step brings the end nearer: no run is
    infinite. *)
Theorem echo_blocks e :
  0 <= len → 0 < c1 → 0 < c2 → rtc echo_step echo_start e →
  (c1 + 4096 + c2 < len → e_written e < len ∧ e_read e = 0) ∧
  (len <= c1 + c2 + 1 → e = mkEcho len len 0 0 0 ∨ ∃ e', echo_step e e') ∧
  (∀ e', echo_step e e' → 0 <= echo_left e' < echo_left e).
Proof.
  intros Hl H1 H2 Hr. pose proof (echo_reachable e Hl ltac:(lia) ltac:(lia) Hr) as Hi.
  split_and!; [intros Hb; pose proof (echo_never_reads e Hl ltac:(lia) ltac:(lia) Hb Hr); unfold echo_inv in Hi; lia| |by intros e' Hs; eapply echo_step_inv].
  intros Hle. destruct e as [w r q1 b q2]. unfold echo_inv in Hi. cbn [e_written e_read e_q1 e_buf e_q2] in Hi.
  destruct (decide (0 < b)) as [Hb|Hb].
  { destruct (decide (q2 < c2)); [right; eexists; apply (server_write _ _ _ _ _ 1); lia|].
    destruct (decide (w = len)) as [->|]; [right; eexists; apply (client_read _ _ _ _ 1); lia|].
    right. eexists. apply (client_write _ _ _ _ _ 1); lia. }
  assert (b = 0) as -> by lia. destruct (decide (0 < q1)); [right; eexists; apply (server_read _ _ _ _ 1); lia|].
  destruct (decide (w = len)) as [->|]; [|right; eexists; apply (client_write _ _ _ _ _ 1); lia].
  destruct (decide (0 < q2)); [right; eexists; apply (client_read _ _ _ _ 1); lia|].
  left. f_equal; lia.
Qed.

End echo.

Lemma echo_blocks_witness : e_written echo_start < 20480000 ∧ e_read echo_start = 0.
Proof.
  apply (echo_blocks 20480000 2500000 6000000 echo_start); [lia|lia|lia|apply rtc_refl|lia].
Defined.

(** ** The clock difference *)

(** A message: two 64-bit numbers in the order of the machine. *)
Definition udp_message (order : endian) (request response : Z) : list Z :=
  to_memory order int64_t request ++ to_memory order int64_t response.

(** [RunServer]: the answer to a datagram that came at [now], if it has the size
    of a message. *)
Definition RunServer (order : endian) (datagram : list Z) (now : Z) : option (list Z) :=
  if decide (length datagram = 16%nat) then
    Some (take 8 datagram ++ to_memory order int64_t now)
  else None.

(** [RunClient]: the round trip and the clock error it prints for a datagram that
    came at [back]. *)
Definition RunClient (order : endian) (datagram : list Z) (back : Z) : option (Z * Z) :=
  if decide (length datagram = 16%nat) then
    let request := of_memory order int64_t (take 8 datagram) in
    let response := of_memory order int64_t (drop 8 datagram) in
    let mine := Z.quot (s64 (back + request)) 2 in
    Some (s64 (back - request), s64 (response - mine))
  else None.

Lemma length_int64 order n : length (to_memory order int64_t n) = 8%nat.
Proof. unfold to_memory. destruct order; rewrite ?length_reverse; apply length_bytes_le. Qed.

Lemma take_int64 order n t : take 8 (to_memory order int64_t n ++ t) = to_memory order int64_t n.
Proof. rewrite <-(length_int64 order n). apply take_app_length. Qed.
Lemma drop_int64 order n t : drop 8 (to_memory order int64_t n ++ t) = t.
Proof. rewrite <-(length_int64 order n). apply drop_app_length. Qed.

Lemma in_int64 n : - 2 ^ 63 <= n < 2 ^ 63 → in_type int64_t n.
Proof. intros Hn. change (in_signed 64 n). unfold in_signed. lia. Qed.

(** The clock error is right up to half the round trip: a client that sends
    at [t], whose datagram takes [d1] to the server and [d2] back, the clock of
    the server being [offset] ahead, prints a round trip of [d1 + d2] and an error
    that differs from [offset] by at most half of it, rounded up. *)
Theorem clock_error order t d1 d2 offset :
  0 <= t < 2 ^ 60 → 0 <= d1 < 2 ^ 60 → 0 <= d2 < 2 ^ 60 → - 2 ^ 60 <= offset < 2 ^ 60 →
  ∃ reply rtt err, RunServer order (udp_message order t 0) (t + d1 + offset) = Some reply ∧
    RunClient order reply (t + d1 + d2) = Some (rtt, err) ∧
    rtt = d1 + d2 ∧ - rtt <= 2 * (err - offset) <= rtt + 1.
Proof.
  intros Ht H1 H2 Ho. unfold RunServer, udp_message.
  rewrite decide_True by (rewrite length_app, !length_int64; done).
  rewrite take_int64. eexists _, _, _. split; [done|].
  unfold RunClient. rewrite decide_True by (rewrite length_app, !length_int64; done). rewrite take_int64, drop_int64. split; [done|].
  rewrite !of_to_memory_id by (simpl; lia || apply in_int64; lia).
  rewrite (swrap_small 64 (t + d1 + d2 + t)) by (unfold in_signed; lia). rewrite Z.quot_div_nonneg by lia.
  rewrite (swrap_small 64 (t + d1 + d2 - t)) by (unfold in_signed; lia).
  rewrite swrap_small by (unfold in_signed; dlia). split; [lia|dlia].
Qed.

Lemma clock_error_witness :
  ∃ reply rtt err, RunServer SYLAR_LITTLE_ENDIAN (udp_message SYLAR_LITTLE_ENDIAN 1000 0) 1530 = Some reply ∧
    RunClient SYLAR_LITTLE_ENDIAN reply 1050 = Some (rtt, err) ∧ rtt = 50 ∧ - rtt <= 2 * (err - 500) <= rtt + 1.
Proof. exact (clock_error SYLAR_LITTLE_ENDIAN 1000 30 20 500 ltac:(lia) ltac:(lia) ltac:(lia) ltac:(lia)). Defined.

(** ** The character generator *)

(** [GetMessage]. *)
Definition line : list Z := seqZ 33 94 ++ seqZ 33 94.

Definition GetMessage : list Z := concat ((λ i, take 72 (drop i line) ++ [10]) <$> seq 0 94).

(** Every line of the message is 72 printable characters that go round. *)
Lemma GetMessage_lines :
  Z.of_nat (length GetMessage) = 6862 ∧
  ∀ i j, (i < 94)%nat → (j < 72)%nat →
    GetMessage !! (73 * i + j)%nat = Some (33 + Z.of_nat ((i + j) mod 94)).
Proof.
  split; [vm_compute; reflexivity|].
  assert (forallb (λ i, forallb (λ j, bool_decide (GetMessage !! (73 * i + j)%nat = Some (33 + Z.of_nat ((i + j) mod 94))))
    (seq 0 72)) (seq 0 94) = true) as Hall by (vm_compute; reflexivity).
  rewrite forallb_forall in Hall. intros i j Hi Hj.
  assert (forallb (λ j, bool_decide (GetMessage !! (73 * i + j)%nat = Some (33 + Z.of_nat ((i + j) mod 94)))) (seq 0 72) = true)
    as Hrow by (apply (Hall i), list_elem_of_In, elem_of_seq; lia).
  rewrite forallb_forall in Hrow. eapply bool_decide_eq_true_1, Hrow, list_elem_of_In, elem_of_seq. lia.
Qed.

(** ** The test of Nagle's algorithm *)

(** The bytes of [nodelay_client]: in one write or in two they are the same. *)
Definition nodelay_client (order : endian) (buffering : bool) (len : Z) : list (list Z) :=
  if buffering then
    let message := replicate (Z.to_nat (len + 4)) 83 in
    [overwrite 0 (to_memory order int32_t len) message]
  else [to_memory order int32_t len; replicate (Z.to_nat len) 83].

(** [nodelay_server] on the bytes of one client: its answer and what is left. *)
Definition nodelay_server (order : endian) (input : list Z) : outcome (list Z * list Z) :=
  let len := of_memory order int32_t (take 4 input) in
  let buf := take (Z.to_nat len) (drop 4 input) in
  _ ← sylar_assert (bool_decide (Z.of_nat (length buf) = len)) "nr == len";
  Ok (to_memory order int32_t len, drop (4 + Z.to_nat len) input).

Lemma nodelay_roundtrip order buffering len :
  0 <= len < 2 ^ 31 →
  concat (nodelay_client order buffering len) = to_memory order int32_t len ++ replicate (Z.to_nat len) 83 ∧
  nodelay_server order (concat (nodelay_client order buffering len)) = Ok (to_memory order int32_t len, []).
Proof.
  intros Hl. assert (length (to_memory order int32_t len) = 4%nat) as H4
    by (unfold to_memory; destruct order; rewrite ?length_reverse; apply length_bytes_le).
  assert (concat (nodelay_client order buffering len) = to_memory order int32_t len ++ replicate (Z.to_nat len) 83) as E.
  { unfold nodelay_client. destruct buffering; cbn [concat]; rewrite app_nil_r; [|done].
    unfold overwrite. rewrite take_0, H4. cbn [app Nat.add]. f_equal. rewrite drop_replicate. f_equal. lia. }
  split; [done|]. rewrite E. unfold nodelay_server.
  assert (∀ t, take 4 (to_memory order int32_t len ++ t) = to_memory order int32_t len) as Ht
    by (intros; rewrite <-H4; apply take_app_length).
  assert (∀ t, drop 4 (to_memory order int32_t len ++ t) = t) as Hd by (intros; rewrite <-H4; apply drop_app_length).
  rewrite Ht, Hd, of_to_memory_id by (simpl; lia || (change (in_signed 32 len); unfold in_signed; lia)).
  rewrite take_ge by (rewrite length_replicate; lia). rewrite length_replicate.
  rewrite bool_decide_eq_true_2 by lia. unfold sylar_assert. osimpl. rewrite <-drop_drop, Hd. do 2 f_equal. apply drop_ge.
  rewrite length_replicate. lia.
Qed.
