(* ===== verification/Programs.v ===== *)
(** The main functions of the small network programs (1_ttcp, 2_roundtrip, 3_netcat)
    and, first, the character generator and its meter (chargen and measure in 3_netcat/chargen.cc):
    any number of connections that add to one atomic counter, which is read and cleared
    every second. *)

From Stdlib Require Import ZArith Lia.
From stdpp Require Import base numbers option strings tactics relations list list_numbers.
From S2P Require Import Prelude StdSet Text NetUtil Netcat NetPrograms.

Local Open Scope Z_scope.

(** Where a thread of [chargen] is: before the write, before the addition of what was
    written, and at its end. *)
Inductive gen_pc : Type := GWrite | GAdd (nw : nat) | GEnd.

Record generator : Type := mkGen { g_sock : Sock; g_pc : gen_pc }.

(** The counter, what the meter has read so far, and the connections. *)
Record meter : Type := mkMeter { g_bytes : Z; m_reported : list Z; m_gens : list generator }.

(** The two halves of a turn of the loop; a write ends after as many calls as it has
    bytes and the kernel has planned. *)
Definition gen_write (g : generator) : outcome generator :=
  '(nw, s) ← write_sock (S (length GetMessage + length (fd_calls (sk_fd (g_sock g))))) (g_sock g) GetMessage 0;
  mret (mkGen s (GAdd nw)).

Definition gen_next (nw : nat) : gen_pc := if decide (Z.of_nat nw < Z.of_nat (length GetMessage)) then GEnd else GWrite.

(** [eplased], in whole seconds. *)
Definition elapsed (start end_ : Z) : Z := Z.quot (Z.quot (end_ - start) 1000) 1000.

Inductive meter_step : meter → meter → Prop :=
| meter_write m i g g' :
    m_gens m !! i = Some g → g_pc g = GWrite → gen_write g = Ok g' →
    meter_step m (mkMeter (g_bytes m) (m_reported m) (<[i := g']> (m_gens m)))
| meter_add m i g nw :
    m_gens m !! i = Some g → g_pc g = GAdd nw →
    meter_step m (mkMeter (s64 (g_bytes m + Z.of_nat nw)) (m_reported m) (<[i := mkGen (g_sock g) (gen_next nw)]> (m_gens m)))
| meter_read m : meter_step m (mkMeter 0 (m_reported m ++ [g_bytes m]) (m_gens m))
| meter_accept m s :
    fd_out (sk_fd s) = [] → sk_connected s = true → meter_step m (mkMeter (g_bytes m) (m_reported m) (m_gens m ++ [mkGen s GWrite])).

(** ** What is written and what is counted *)

Definition sent (g : generator) : list Z := fd_out (sk_fd (g_sock g)).
Definition pending (g : generator) : Z := match g_pc g with GAdd nw => Z.of_nat nw | _ => 0 end.
Definition total {A} (f : A → Z) (l : list A) : Z := foldr (λ x, Z.add (f x)) 0 l.
#[local] Arguments total : simpl never.
#[local] Opaque GetMessage.

Lemma total_insert {A} (f : A → Z) l i g g' : l !! i = Some g → total f (<[i := g']> l) = total f l - f g + f g'.
Proof.
  unfold total. revert i. induction l as [|x l IH]; intros [|i] Hi; simpl in *; try done.
  - injection Hi as ->. lia.
  - rewrite (IH i Hi). lia.
Qed.

Lemma total_app {A} (f : A → Z) l l' : total f (l ++ l') = total f l + total f l'.
Proof. unfold total. induction l; simpl; lia. Qed.

(** A turn writes the beginning of the message, and returns. *)
Lemma gen_write_ok g :
  sk_connected (g_sock g) = true →
  ∃ nw s, gen_write g = Ok (mkGen s (GAdd nw)) ∧ (nw <= length GetMessage)%nat ∧ sk_connected s = true ∧
    fd_out (sk_fd s) = sent g ++ take nw GetMessage.
Proof.
  intros Hc. unfold gen_write. set (msg := GetMessage). clearbody msg.
  destruct (write_fixed_ok msg (S (length msg + length (fd_calls (sk_fd (g_sock g))))) (sk_fd (g_sock g)) 0)
    as (n & fd' & E & Hn & _ & Hout & _); [lia|lia|].
  pose proof (write_sock_fd (S (length msg + length (fd_calls (sk_fd (g_sock g))))) (g_sock g) msg 0 Hc) as Hw.
  rewrite E in Hw. destruct Hw as (s & -> & Hfd & Hcs). exists n, s. rewrite drop_0 in Hout.
  split_and!; [done|lia|done|]. by rewrite Hfd.
Qed.

(** A connection carries whole messages and, once it has failed, part of another. *)
Definition gen_ok (g : generator) : Prop :=
  sk_connected (g_sock g) = true ∧
  ∃ k nw, sent g = concat (replicate k GetMessage) ++ take nw GetMessage ∧
    match g_pc g with
    | GWrite => nw = 0%nat
    | GAdd n => n = nw ∧ (nw <= length GetMessage)%nat
    | GEnd => (nw < length GetMessage)%nat
    end.

Definition counted (m : meter) : Prop :=
  s64 (total (λ g, Z.of_nat (length (sent g))) (m_gens m)) =
  s64 (g_bytes m + total id (m_reported m) + total pending (m_gens m)).

Definition meter_inv (m : meter) : Prop := Forall gen_ok (m_gens m) ∧ counted m.

Lemma meter_step_inv m m' : meter_inv m → meter_step m m' → meter_inv m'.
Proof.
  intros [Hall Hc] Hs. unfold counted in *. destruct Hs as [m i g g' Hi Hpc E|m i g nw Hi Hpc|m|m s Hout Hconn]; split; unfold counted; simpl.
  - apply Forall_insert; [done|]. rewrite Forall_lookup in Hall. destruct (Hall i g Hi) as (Hcon & k & nw & Hsent & Hn).
    rewrite Hpc in Hn. subst nw. destruct (gen_write_ok g Hcon) as (nw & s & E' & Hle & Hcs & Ho). rewrite E in E'.
    injection E' as ->. split; [done|]. exists k, nw. unfold sent in *. simpl. rewrite Ho, Hsent, take_0, app_nil_r. done.
  - rewrite Forall_lookup in Hall. destruct (Hall i g Hi) as (Hcon & _).
    destruct (gen_write_ok g Hcon) as (nw & s & E' & Hle & _ & Ho). rewrite E in E'. injection E' as ->.
    rewrite !(total_insert _ _ _ g) by done. unfold pending at 2 3, sent at 3. simpl. rewrite Hpc, Ho, length_app, length_take.
    replace (total _ _ - _ + _) with (total (λ g, Z.of_nat (length (sent g))) (m_gens m) + Z.of_nat nw) by lia.
    rewrite <-swrap_add by lia. rewrite Hc, swrap_add by lia. f_equal. lia.
  - apply Forall_insert; [done|]. rewrite Forall_lookup in Hall. destruct (Hall i g Hi) as (Hcon & k & n & Hsent & Hn).
    rewrite Hpc in Hn. destruct Hn as [-> Hle]. split; [done|]. unfold sent, gen_next in *. simpl. case_decide.
    + exists k, n. split; [done|lia].
    + exists (S k), 0%nat. split; [|done]. rewrite Hsent, take_ge by lia. rewrite take_0, app_nil_r, replicate_S_end, concat_app.
      simpl. by rewrite app_nil_r.
  - rewrite !(total_insert _ _ _ g) by done. unfold pending at 2 3, sent at 3. simpl. rewrite Hpc.
    replace (total _ _ - _ + _) with (total (λ g, Z.of_nat (length (sent g))) (m_gens m)) by (unfold sent; lia).
    rewrite Hc. assert (match gen_next nw with GAdd n => Z.of_nat n | _ => 0 end = 0) as -> by (unfold gen_next; by case_decide).
    rewrite <-!Z.add_assoc. rewrite swrap_add by lia. f_equal. lia.
  - done.
  - rewrite total_app, Hc. replace (total id [g_bytes m]) with (g_bytes m) by (unfold total; simpl; unfold id; lia). f_equal. lia.
  - apply Forall_app. split; [done|]. constructor; [|done]. split; [done|]. exists 0%nat, 0%nat. done.
  - rewrite !total_app. unfold total at 2 4. unfold sent, pending. simpl. rewrite Hout. simpl. rewrite !Z.add_0_r. exact Hc.
Qed.

(** The meter of the character generator, after any steps of its threads: every
    connection carries the message over and over, the last one cut short only when the
    connection has failed; and what the meter has reported and still holds is what was
    written, but for the writes whose addition is still to come. *)
Theorem chargen_measured (m : meter) :
  rtc meter_step (mkMeter 0 [] []) m →
  Forall (λ g, ∃ k nw, sent g = concat (replicate k GetMessage) ++ take nw GetMessage ∧
    (g_pc g = GWrite → nw = 0%nat)) (m_gens m) ∧
  (0 <= g_bytes m + total id (m_reported m) + total pending (m_gens m) < 2 ^ 63 →
   total (λ g, Z.of_nat (length (sent g))) (m_gens m) < 2 ^ 63 →
   total (λ g, Z.of_nat (length (sent g))) (m_gens m) = g_bytes m + total id (m_reported m) + total pending (m_gens m)).
Proof.
  intros Hrun. assert (meter_inv m) as [Hall Hc].
  { revert Hrun. apply (rtc_ind_r meter_inv); [split; [constructor|done]|]. intros x y _ Hs Hx. by apply (meter_step_inv x). }
  split.
  - eapply Forall_impl; [exact Hall|]. intros g (_ & k & nw & Hsent & Hn). exists k, nw. split; [done|]. intros Hpc. by rewrite Hpc in Hn.
  - intros Hb Ht. unfold counted in Hc.
    assert (0 <= total (λ g, Z.of_nat (length (sent g))) (m_gens m)) as Hpos.
    { unfold total. clear. induction (m_gens m); simpl; lia. }
    rewrite !swrap_small in Hc by (unfold in_signed; lia). done.
Qed.

(** The seconds of the meter are cut off, so that the rate it prints is too high, by up
    to a factor of two. *)
Lemma elapsed_cut start end_ : start <= end_ → elapsed start end_ * 1000000 <= end_ - start < (elapsed start end_ + 1) * 1000000.
Proof. intros H. unfold elapsed. rewrite !Z.quot_div_nonneg by dlia. dlia. Qed.

(** ** The main functions *)

(** The main functions of the small network programs (1_ttcp, 2_roundtrip, 3_netcat):
    what they make of their arguments, and what they run. The addresses and connections
    that can be had are arguments. *)

From Stdlib Require Import ZArith Lia.
From stdpp Require Import base numbers option strings tactics list.
From S2P Require Import Prelude StdSet Text FsUtil NetPrograms.

Local Open Scope Z_scope.

(** [argv[i]]: nothing can be read behind the last argument. *)
Definition arg (argv : list (list Z)) (i : nat) : outcome (list Z) := deref (argv !! i).
Definition port16 (s : list Z) : Z := u16 (atoi32 s).

(** What a program does: it leaves with a status, or runs with what it was given. *)
Inductive run (P : Type) : Type := Leave (status : Z) | Run (p : P).
Arguments Leave {P} _.
Arguments Run {P} _.

(** ** Fixed positions *)

(** The echo pair: the address, the port and the number of bytes. *)
Definition echo_client_main (argv : list (list Z)) : outcome (run (list Z * Z * Z)) :=
  if decide (length argv < 2)%nat then mret (Leave 1)
  else
    ip ← arg argv 1; port ← arg argv 2; len ← arg argv 3;
    mret (Run (ip, port16 port, atoi32 len)).

Definition echo_server_main (argv : list (list Z)) : outcome (run (list Z * Z)) :=
  if decide (length argv < 2)%nat then mret (Leave 1)
  else ip ← arg argv 1; port ← arg argv 2; mret (Run (ip, port16 port)).

(** The programs that copy a file. *)
Definition nc_sender_main (argv : list (list Z)) : outcome (run (list Z * Z)) :=
  if decide (length argv < 3)%nat then mret (Leave 1)
  else file ← arg argv 1; port ← arg argv 2; mret (Run (file, atoi32 port)).

Definition nc_receiver_main (argv : list (list Z)) : outcome (run (list Z * Z)) :=
  if decide (length argv < 3)%nat then mret (Leave 1)
  else ip ← arg argv 1; port ← arg argv 2; mret (Run (ip, port16 port)).

(** ** A server or a client *)

(** netcat: on a connection of its own, which may not be connected, or on an accepted
    one. *)
Inductive netcat_run : Type := Accepted | Connecting (connected : bool).

Definition server_host (port : Z) : list Z := text "localhost:" ++ dec port.
Definition client_host (host : list Z) (port : Z) : list Z := host ++ text ":" ++ dec port.

Section hosts.
(** Which hosts have an address, whether a client comes, and whether a connection is made. *)
Context (resolves : list Z → bool) (accepts connects : bool).

Definition netcat_main (argv : list (list Z)) : outcome (run netcat_run) :=
  if decide (length argv < 3)%nat then mret (Leave 0)
  else
    mode ← arg argv 1; p ← arg argv 2;
    let port := atoi32 p in
    if decide (c_str mode = text "-l") then
      mret (if resolves (server_host port) && accepts then Run Accepted else Leave 0)
    else
      mret (if resolves (client_host mode port) then Run (Connecting connects) else Leave 0).

(** chargen: serving every client, or generating on one connection. *)
Inductive chargen_run : Type := ServeAll | GenerateOnce.

Definition chargen_main (argv : list (list Z)) : outcome (run chargen_run) :=
  if decide (length argv < 3)%nat then mret (Leave 0)
  else
    mode ← arg argv 1; p ← arg argv 2;
    let port := atoi32 p in
    if decide (c_str mode = text "-l") then
      mret (if resolves (server_host port) then Run ServeAll else Leave 0)
    else
      mret (if resolves (client_host mode port) && connects then Run GenerateOnce else Leave 0).
End hosts.

(** The clock difference: the address and the port, for the server and the client. *)
Definition roundtrip_main (argv : list (list Z)) : outcome (run (bool * list Z * Z)) :=
  if decide (2 < length argv)%nat then
    mode ← arg argv 1; p ← arg argv 2;
    mret (Run (if decide (c_str mode = text "-s") then (true, text "127.0.0.1", port16 p) else (false, mode, port16 p)))
  else mret (Leave 0).

(** ttcp: [true] for the transmitter. *)
Definition ttcp_main (length number : Z) (trans recv help : bool) : outcome (run (bool * Options)) :=
  let '(ok, opts) := ParseCommandLine length number trans recv help in
  if ok then
    if opt_transmit opts then mret (Run (true, opts))
    else if opt_receive opts then mret (Run (false, opts))
    else Throw (assertion_failed "assert(0)")
  else mret (Leave 0).

(** ** The options of the delay test *)

(** [getopt(argc, argv, "bN")] called to its end: the options it returns, an unknown one
    as '?', and the arguments that are left, which it has moved behind the options. *)
Definition getopt_char (c : Z) : Z := if decide (c = 98 ∨ c = 78) then c else 63.

Fixpoint getopt_all (args : list (list Z)) : list Z * list (list Z) :=
  match args with
  | [] => ([], [])
  | a :: args =>
    if decide (a = text "--") then ([], args)
    else match a with
         | 45 :: c :: cs => let '(opts, rest) := getopt_all args in ((getopt_char <$> c :: cs) ++ opts, rest)
         | _ => let '(opts, rest) := getopt_all args in (opts, a :: rest)
         end
  end.

(** What the client sends: to whom, how much, in one write or two, and the value it gives
    TCP_NODELAY. *)
Record delay_run : Type := mkDelay { d_host : list Z; d_len : Z; d_buffering : bool; d_nodelay : Z }.

Definition nodelay_main (resolves : list Z → bool) (connects : bool) (argv : list (list Z)) : outcome (run delay_run) :=
  if decide (length argv < 3)%nat then mret (Leave 1)
  else
    let '(opts, rest) := getopt_all (drop 1 argv) in
    let buffering := bool_decide (98 ∈ opts) in
    let nagle := bool_decide (78 ∈ opts) in
    if decide (length rest < 2)%nat then mret (Leave 1)
    else
      hostname ← arg rest 0; l ← arg rest 1;
      if resolves (hostname ++ text ":3210") && connects
      then mret (Run (mkDelay hostname (atoi32 l) buffering (if nagle then 0 else 1)))
      else mret (Leave 1).

(** ** Results *)

Lemma arg_ok argv i : (i < length argv)%nat → ∃ s, arg argv i = Ok s ∧ argv !! i = Some s.
Proof. intros Hi. apply lookup_lt_is_Some in Hi as [s Hs]. exists s. unfold arg. by rewrite Hs. Qed.

Lemma arg_cases argv i :
  (i < length argv)%nat ∧ (∃ s, arg argv i = Ok s) ∨ (length argv <= i)%nat ∧ arg argv i = Stuck.
Proof.
  destruct (decide (i < length argv)%nat) as [Hi|Hi].
  - left. split; [done|]. destruct (arg_ok argv i Hi) as (s & Hs & _). by exists s.
  - right. split; [lia|]. unfold arg. by rewrite lookup_ge_None_2 by lia.
Qed.

(** Reading an argument that is there, and one that may not be. *)
Ltac read_arg argv i := destruct (arg_cases argv i) as [[_ [? ->]]|[? _]]; [|simpl in *; lia].
Ltac try_arg argv i := destruct (arg_cases argv i) as [[? [? ->]]|[? ->]].

(** The tests of the number of arguments are enough for all programs but the echo pair:
    with two or three arguments the client, and with two the server, read behind the end
    of their arguments. ttcp never gets to its assertion, and netcat goes on with a socket
    that could not be connected. *)
Theorem arguments_checked (argv : list (list Z)) resolves accepts connects length_ number trans recv help :
  is_ok (nc_sender_main argv) = true ∧ is_ok (nc_receiver_main argv) = true ∧
  is_ok (netcat_main resolves accepts connects argv) = true ∧ is_ok (chargen_main resolves connects argv) = true ∧
  is_ok (roundtrip_main argv) = true ∧ is_ok (nodelay_main resolves connects argv) = true ∧
  is_ok (ttcp_main length_ number trans recv help) = true ∧
  (is_ok (echo_client_main argv) = true ↔ (length argv < 2 ∨ 4 <= length argv)%nat) ∧
  (is_ok (echo_server_main argv) = true ↔ (length argv < 2 ∨ 3 <= length argv)%nat) ∧
  (∀ host port, resolves (client_host host (atoi32 port)) = true → c_str host ≠ text "-l" →
    netcat_main resolves accepts false [text "netcat"; host; port] = Ok (Run (Connecting false))).
Proof.
  split_and!.
  - unfold nc_sender_main. case_decide; [done|]. read_arg argv 1%nat. by read_arg argv 2%nat.
  - unfold nc_receiver_main. case_decide; [done|]. read_arg argv 1%nat. by read_arg argv 2%nat.
  - unfold netcat_main. case_decide; [done|]. read_arg argv 1%nat. read_arg argv 2%nat. osimpl. by case_decide.
  - unfold chargen_main. case_decide; [done|]. read_arg argv 1%nat. read_arg argv 2%nat. osimpl. by case_decide.
  - unfold roundtrip_main. case_decide; [|done]. read_arg argv 1%nat. by read_arg argv 2%nat.
  - unfold nodelay_main. case_decide; [done|]. destruct (getopt_all _) as [opts rest]. case_decide; [done|].
    read_arg rest 0%nat. read_arg rest 1%nat. osimpl. by case_match.
  - unfold ttcp_main, ParseCommandLine. by destruct help, trans, recv.
  - unfold echo_client_main. case_decide; [split; [by left|done]|]. read_arg argv 1%nat.
    try_arg argv 2%nat; [|split; [done|lia]]. try_arg argv 3%nat; osimpl; split; try done; lia.
  - unfold echo_server_main. case_decide; [split; [by left|done]|]. read_arg argv 1%nat.
    try_arg argv 2%nat; osimpl; split; try done; lia.
  - intros host port Hr Hh. unfold netcat_main, arg. simpl. rewrite decide_False by done. by rewrite Hr.
Qed.

(** What looks like an option. *)
Definition is_option (a : list Z) : bool := match a with 45 :: _ :: _ => true | _ => false end.
Definition option_chars (a : list Z) : list Z := if is_option a then getopt_char <$> drop 1 a else [].

Lemma getopt_cons a args : a ≠ text "--" →
  getopt_all (a :: args) =
    (option_chars a ++ (getopt_all args).1, (if is_option a then [] else [a]) ++ (getopt_all args).2).
Proof.
  intros Ha. cbn [getopt_all]. rewrite decide_False by done. destruct (getopt_all args) as [opts rest].
  destruct a as [|c [|d cs]]; [done| |]; unfold option_chars, is_option; repeat (case_match; try done).
Qed.

(** The options of the delay test may stand anywhere among the arguments, alone or
    together, up to "--": the client buffers if one of them has a b, switches
    TCP_NODELAY off if one has an N, and takes the host and the length from the first
    two of the other arguments, in their order. *)
Theorem nodelay_options (resolves : list Z → bool) (name : list Z) (before after : list (list Z)) (stop : bool) :
  Forall (λ a, a ≠ text "--") before → (stop = false → after = []) →
  let argv := name :: before ++ (if stop then text "--" :: after else []) in
  let opts := concat (option_chars <$> before) in
  let rest := filter (λ a, is_option a = false) before ++ after in
  getopt_all (drop 1 argv) = (opts, rest) ∧
  ∀ host len more, rest = host :: len :: more → resolves (host ++ text ":3210") = true →
    nodelay_main resolves true argv =
      Ok (Run (mkDelay host (atoi32 len) (bool_decide (98 ∈ opts)) (if bool_decide (78 ∈ opts) then 0 else 1))).
Proof.
  intros Hb Hstop argv opts rest. assert (getopt_all (drop 1 argv) = (opts, rest)) as E.
  { unfold argv, opts, rest. cbn [drop]. rewrite drop_0. clear argv opts rest. induction Hb as [|a before Ha Hb IH].
    - destruct stop; [done|by rewrite Hstop].
    - rewrite <-app_comm_cons, (getopt_cons a _ Ha), IH, filter_cons, fmap_cons. cbn [concat fst snd].
      by destruct (is_option a). }
  split; [done|]. intros host len more Hrest Hr. unfold nodelay_main. rewrite E.
  assert (2 <= length (drop 1 argv))%nat as Hlen.
  { unfold argv. cbn [drop]. rewrite drop_0, length_app. assert (length rest = S (S (length more))) as Hl by (by rewrite Hrest).
    unfold rest in Hl. rewrite length_app in Hl. pose proof (length_filter (λ a, is_option a = false) before).
    destruct stop; simpl; [lia|]. rewrite Hstop in Hl by done. simpl in Hl. lia. }
  rewrite length_drop in Hlen. rewrite decide_False by lia. rewrite Hrest. simpl. unfold arg. simpl. by rewrite Hr.
Qed.
