(* ===== verification/Daemon.v ===== *)
(** Running the program as a daemon (sylar/daemon.h, sylar/daemon.cc): the
    supervisor that forks the program, waits for it and starts it again. What
    [fork], [waitpid] and the clock return is an argument; the program itself is
    a function on the state [W] that the processes share (the file system). *)

From Stdlib Require Import ZArith Lia.
From stdpp Require Import base numbers option strings tactics sets list_numbers list.
From S2P Require Import Prelude Text Util.

Local Open Scope Z_scope.

(** ** Processes *)

(** How a process ends: it exits with a code, or a signal ends it. *)
Inductive ending : Type :=
| Exited (code : Z)
| Killed (signal : Z) (core : bool).

(** What a call of the program does: it returns, the process ends in it, or it
    goes on for ever. *)
Inductive fate : Type :=
| Returns (n : Z)
| Ends (e : ending)
| Serves.

#[export] Instance ending_eq_dec : EqDecision ending.
Proof. solve_decision. Defined.
#[export] Instance fate_eq_dec : EqDecision fate.
Proof. solve_decision. Defined.

(** The status [waitpid] stores. *)
Definition wait_status (e : ending) : Z :=
  match e with
  | Exited code => Z.shiftl (Z.land code 255) 8
  | Killed signal core => Z.lor (Z.land signal 127) (if core then 128 else 0)
  end.

(** [struct ProcessInfo]. *)
Record ProcessInfo : Type := mkProcessInfo {
  parent_id : Z;
  main_id : Z;
  parent_start_time : Z;
  main_start_time : Z;
  restart_count : Z
}.

Definition ProcessInfo_new : ProcessInfo := mkProcessInfo 0 0 0 0 0.

Definition set_parent (p : ProcessInfo) (pid time : Z) : ProcessInfo :=
  mkProcessInfo pid (main_id p) (u64 time) (main_start_time p) (restart_count p).
Definition set_main (p : ProcessInfo) (pid time : Z) : ProcessInfo :=
  mkProcessInfo (parent_id p) pid (parent_start_time p) (u64 time) (restart_count p).
Definition count_restart (p : ProcessInfo) : ProcessInfo :=
  mkProcessInfo (parent_id p) (main_id p) (parent_start_time p) (main_start_time p) (u64 (restart_count p + 1)).

(** [toString()]. *)
Definition process_toString (strftime : list Z → Z → list Z) (p : ProcessInfo) : outcome (list Z) :=
  parent ← Time2Str strftime (s64 (parent_start_time p)) (text "%Y-%m-%d %H:%M:%S");
  main ← Time2Str strftime (s64 (main_start_time p)) (text "%Y-%m-%d %H:%M:%S");
  mret (text "[ProcessInfo parent_id=" ++ dec (parent_id p) ++ text " main_id=" ++ dec (main_id p) ++
        text " parent_start_time=" ++ parent ++ text " main_start_time=" ++ main ++
        text " restart_count=" ++ dec (restart_count p) ++ text "]").

(** What [fork] returns: an error, or a child with its process id and the time
    at which it starts; [waited] is whether [waitpid] then succeeds. *)
Inductive forked : Type :=
| ForkFails
| Child (pid time : Z) (waited : bool).

Section daemon.
Context {W : Type}.
(** [main_cb], with the [ProcessInfo] of its process, and the exit code of a
    process in which [start_daemon] returned. *)
Context (main_cb : ProcessInfo → W → fate * W) (exit_code : Z → Z).

Definition real_start (p : ProcessInfo) (w : W) : fate * W := main_cb p w.

(** How the child ends, if it does: its [real_daemeon] returns what the program
    returned, and with it the process. *)
Definition child_ending (f : fate) : option ending :=
  match f with
  | Returns n => Some (Exited (exit_code n))
  | Ends e => Some e
  | Serves => None
  end.

(** What the supervisor did: what its call comes to, its [ProcessInfo], the
    children with their [ProcessInfo] and the status the supervisor saw, none for
    a child that is still running, the times it slept, and the state. *)
Record supervision : Type := mkSup {
  sv_fate : fate;
  sv_info : ProcessInfo;
  sv_children : list (ProcessInfo * option Z);
  sv_slept : list Z;
  sv_state : W
}.

Definition add_child (c : ProcessInfo * option Z) (interval : Z) (r : supervision) : supervision :=
  mkSup (sv_fate r) (sv_info r) (c :: sv_children r) (interval :: sv_slept r) (sv_state r).

(** The loop, over what [fork] returns turn by turn; when these are used up the
    loop goes on. [interval] is [daemon.restart_interval]. *)
Fixpoint daemon_loop (interval : Z) (p : ProcessInfo) (forks : list forked) (w : W) : supervision :=
  match forks with
  | [] => mkSup Serves p [] [] w
  | ForkFails :: _ => mkSup (Returns (-1)) p [] [] w
  | Child pid time waited :: forks =>
    let info := set_main p pid time in
    let '(f, w) := real_start info w in
    match child_ending f with
    | None => if waited then mkSup Serves p [(info, None)] [] w else mkSup (Returns 0) p [(info, Some 0)] [] w
    | Some e =>
      let status := if waited then wait_status e else 0 in
      if decide (status = 0) then mkSup (Returns 0) p [(info, Some status)] [] w
      else add_child (info, Some status) interval (daemon_loop interval (count_restart p) forks w)
    end
  end.

(** [real_daemeon]: [daemonized] is whether [daemon(1, 0)] succeeds, [pid] and
    [now] are what [getpid] and [time] return after it. *)
Definition real_daemeon (daemonized : bool) (pid now interval : Z) (p : ProcessInfo) (forks : list forked) (w : W) :
    supervision :=
  if negb daemonized then mkSup (Returns (-1)) p [] [] w
  else daemon_loop interval (set_parent p pid now) forks w.

Definition start_daemon (is_daemon daemonized : bool) (pid now interval : Z) (p : ProcessInfo)
    (forks : list forked) (w : W) : supervision :=
  if negb is_daemon then let '(f, w) := real_start p w in mkSup f p [] [] w
  else real_daemeon daemonized pid now interval p forks w.

(** ** Correctness *)

(** The status the supervisor sees of a child with this fate. *)
Definition seen (f : fate) (waited : bool) : option Z :=
  match child_ending f with
  | None => if waited then None else Some 0
  | Some e => Some (if waited then wait_status e else 0)
  end.

(** Child [i] of a supervisor that began with [p]: it ran the program in some
    state of the system, and the supervisor saw the status [st]. *)
Record is_child (p : ProcessInfo) (forks : list forked) (i : nat) (info : ProcessInfo) (st : option Z) : Prop := {
  ic_fork : ∃ time waited w, forks !! i = Some (Child (main_id info) time waited) ∧
    main_start_time info = u64 time ∧ st = seen (main_cb info w).1 waited;
  ic_parent : parent_id info = parent_id p ∧ parent_start_time info = parent_start_time p;
  ic_count : restart_count info = u64 (restart_count p + Z.of_nat i)
}.

Lemma u64_succ a b : u64 (u64 (a + 1) + b) = u64 (a + Z.succ b).
Proof. unfold uwrap. rewrite Z.add_mod_idemp_l by lia. f_equal. lia. Qed.

Lemma is_child_next p c forks i info st :
  is_child (count_restart p) forks i info st → is_child p (c :: forks) (S i) info st.
Proof.
  intros [(time & waited & w & E & Ht) Hp Hc]. split; [by exists time, waited, w|done|].
  rewrite Hc. simpl restart_count. by rewrite u64_succ, Nat2Z.inj_succ.
Qed.

Lemma is_child_first p forks pid time waited w :
  0 <= restart_count p < 2 ^ 64 →
  is_child p (Child pid time waited :: forks) 0 (set_main p pid time)
    (seen (main_cb (set_main p pid time) w).1 waited).
Proof.
  intros Hp. split; [by exists time, waited, w|done|]. simpl. rewrite Z.add_0_r.
  symmetry. by apply uwrap_small.
Qed.

(** What the outcome of the supervisor says about its last child. *)
Definition loop_end (p : ProcessInfo) (forks : list forked) (r : supervision) : Prop :=
  match sv_fate r with
  | Returns n =>
    (n = 0 ∧ ∃ info, last (sv_children r) = Some (info, Some 0) ∧ length (sv_slept r) = pred (length (sv_children r))) ∨
    (n = -1 ∧ forks !! length (sv_slept r) = Some ForkFails ∧ length (sv_slept r) = length (sv_children r))
  | Ends _ => False
  | Serves =>
    (∃ info, last (sv_children r) = Some (info, None)) ∨
    (length (sv_children r) = length forks ∧ length (sv_slept r) = length forks)
  end.

Lemma loop_end_cons p p' c forks x interval r :
  loop_end p forks r → loop_end p' (c :: forks) (add_child x interval r).
Proof.
  unfold loop_end. simpl. destruct (sv_fate r) as [n|e|]; [|done|].
  - intros [(-> & info & Hl & Hlen)|(-> & Hf & Hlen)]; [left|right; split_and!; [done|done|simpl; congruence]].
    split; [done|]. exists info. destruct (sv_children r) as [|c0 cs] eqn:E; [done|].
    split; [done|]. simpl in *. lia.
  - intros [(info & Hl)|[H1 H2]]; [left|right; simpl; split; congruence]. exists info.
    by destruct (sv_children r).
Qed.

Lemma only_child p forks info st :
  is_child p forks 0 info st →
  ∀ i info' st', [(info, st)] !! i = Some (info', st') →
    is_child p forks i info' st' ∧ ((S i < length [(info, st)])%nat → ∃ s, st' = Some s ∧ s ≠ 0).
Proof. intros Hc [|i] info' st'; [|done]. intros [= <- <-]. split; [done|]. simpl. lia. Qed.

Lemma daemon_loop_ok interval forks : ∀ p w,
  0 <= restart_count p < 2 ^ 64 →
  let r := daemon_loop interval p forks w in
  (∀ i info st, sv_children r !! i = Some (info, st) →
     is_child p forks i info st ∧ ((S i < length (sv_children r))%nat → ∃ s, st = Some s ∧ s ≠ 0)) ∧
  Forall (λ t, t = interval) (sv_slept r) ∧
  restart_count (sv_info r) = u64 (restart_count p + Z.of_nat (length (sv_slept r))) ∧
  loop_end p forks r.
Proof.
  induction forks as [|[|pid time waited] forks IH]; intros p w Hp r; subst r.
  - simpl. rewrite Z.add_0_r. split_and!; [done|done|by rewrite uwrap_small|by right].
  - simpl. rewrite Z.add_0_r. split_and!; [done|done|by rewrite uwrap_small|]. right. done.
  - pose proof (is_child_first p forks pid time waited w Hp) as Hfirst.
    cbn [daemon_loop]. unfold real_start. unfold seen in Hfirst. destruct (main_cb _ w) as [f w']. simpl in Hfirst.
    destruct (child_ending f) as [e|].
    + set (status := if waited then wait_status e else 0) in *. case_decide as Hs.
      * rewrite Hs in *. simpl. rewrite Z.add_0_r. split_and!; [by apply only_child|done|by rewrite uwrap_small|].
        left. split; [done|]. by eexists.
      * destruct (IH (count_restart p) w') as (Hch & Hsl & Hct & Hend).
        { simpl. apply (uwrap_range 64). lia. }
        split_and!.
        -- intros [|i] info st; simpl.
           ++ intros [= <- <-]. split; [done|]. intros _. by eexists.
           ++ intros Hi. destruct (Hch i info st Hi) as [H1 H2]. split; [by apply is_child_next|].
              intros Hlt. apply H2. lia.
        -- by constructor.
        -- simpl. rewrite Hct. simpl. by rewrite u64_succ, Nat2Z.inj_succ.
        -- by eapply loop_end_cons.
    + destruct waited; simpl; rewrite Z.add_0_r; (split_and!; [by apply only_child|done|by rewrite uwrap_small|left]).
      * by eexists.
      * split; [done|]. by eexists.
Qed.

(** A child is taken for finished exactly when it exits with a multiple of 256. *)
Lemma wait_status_zero e :
  match e with Exited _ => True | Killed s _ => 0 < s < 127 end →
  wait_status e = 0 ↔ ∃ n, e = Exited (256 * n).
Proof.
  destruct e as [code|s core]; intros Hs; simpl.
  - rewrite Z.shiftl_eq_0_iff by lia. change 255 with (Z.ones 8). rewrite Z.land_ones by lia.
    change (2 ^ 8) with 256. split.
    + intros Hm. exists (code / 256). f_equal. pose proof (Z.div_mod code 256). lia.
    + intros [n [= ->]]. rewrite Z.mul_comm. by apply Z.mod_mul.
  - change 127 with (Z.ones 7). rewrite Z.land_ones by lia. rewrite (Z.mod_small s) by (change (2 ^ 7) with 128; lia).
    split; [|by intros [n ?]]. intros [? _]%Z.lor_eq_0_iff. lia.
Qed.

(** C33. The supervisor starts the program again after every end that is not an
    exit with a status of zero, after sleeping the configured interval, and only
    then: all children but the last were seen to fail, the children know which
    restart they are and who their parent is, and the call returns 0 only after a
    child that was seen to succeed, and -1 only when [fork] or [daemon] failed;
    otherwise it goes on. A child whose [waitpid] failed counts as one that
    succeeded, also while it is running. *)
Theorem daemon_supervises daemonized pid now interval p forks w :
  0 <= restart_count p < 2 ^ 64 →
  let r := start_daemon true daemonized pid now interval p forks w in
  if daemonized then
    (∀ i info st, sv_children r !! i = Some (info, st) →
       is_child (set_parent p pid now) forks i info st ∧
       ((S i < length (sv_children r))%nat → ∃ s, st = Some s ∧ s ≠ 0)) ∧
    Forall (λ t, t = interval) (sv_slept r) ∧
    restart_count (sv_info r) = u64 (restart_count p + Z.of_nat (length (sv_slept r))) ∧
    loop_end (set_parent p pid now) forks r
  else r = mkSup (Returns (-1)) p [] [] w.
Proof.
  intros Hp r. subst r. unfold start_daemon, real_daemeon. simpl. destruct daemonized; [|done].
  by apply (daemon_loop_ok interval forks (set_parent p pid now) w).
Qed.

End daemon.

Arguments mkSup {W} _ _ _ _ _.
Arguments sv_fate {W} _.
Arguments sv_info {W} _.
Arguments sv_children {W} _.
Arguments sv_slept {W} _.
Arguments sv_state {W} _.

(** A program that crashes twice and then ends; the state counts its runs. *)
Definition crashes_twice (_ : ProcessInfo) (runs : nat) : fate * nat :=
  (match runs with 0%nat => Ends (Killed 11 true) | 1%nat => Ends (Exited 3) | _ => Returns 0 end, S runs).

Definition three_forks : list forked := [Child 101 1000 true; Child 102 1005 true; Child 103 1010 true].

Lemma daemon_supervises_witness :
  let r := start_daemon crashes_twice id true true 100 999 5 ProcessInfo_new three_forks 0%nat in
  length (sv_children r) = 3%nat ∧ sv_fate r = Returns 0 ∧ restart_count (sv_info r) = 2 ∧
  ∀ info st, sv_children r !! 2%nat = Some (info, st) → restart_count info = 2.
Proof.
  pose proof (daemon_supervises crashes_twice id true 100 999 5 ProcessInfo_new three_forks 0%nat
    ltac:(simpl; lia)) as (H & _ & Hc & _).
  intros r. split; [reflexivity|]. split; [reflexivity|]. split; [exact Hc|].
  intros info st Hi. exact (ic_count _ _ _ _ _ _ _ (proj1 (H 2%nat info st Hi))).
Defined.
