(* ===== verification/Application.v ===== *)
(** The application (sylar/application.h, sylar/application.cc, sylar/main.cc):
    it reads the command line and the configuration, loads the modules, and
    starts the servers, alone or under the supervisor of [Daemon]. It puts
    together the environment, the configuration, the file utilities, modules,
    workers, addresses and servers. *)

From Stdlib Require Import ZArith Lia.
From stdpp Require Import base numbers gmap option strings tactics sets sorting list_numbers list.
From S2P Require Import Prelude StdSet StdMap Text Endian Address IOManager FdManager Hook Socket TcpServer.
From S2P Require Import ConfigCast Config ServerConf Module Worker Env FsUtil Daemon.

Local Open Scope Z_scope.

(** ** Settings *)

(** The types of the configuration variables the application reads, and their
    values. *)
Inductive kind : Type := KText | KServers | KWorkers.

Inductive setting : Type :=
| SText (s : list Z)
| SServers (l : list TcpServerConf)
| SWorkers (l : list (list Z * list (list Z * list Z))).

#[export] Instance kind_eq_dec : EqDecision kind.
Proof. solve_decision. Defined.
#[export] Instance setting_eq_dec : EqDecision setting.
Proof. solve_decision. Defined.

Section settings.
Context {Y : Type} `{!Yaml Y} (to_int : list Z → option Z).

Definition conf_cast : Cast TcpServerConf := mkCast TcpServerConf (conf_from (Y := Y) to_int) (conf_to (Y := Y)).

(** The [LexicalCast]s of the three types. *)
Definition setting_cast (k : kind) : Cast setting :=
  match k with
  | KText => mkCast setting (λ v, Some (SText v)) (λ x, match x with SText s => Some s | _ => None end)
  | KServers =>
    mkCast setting (λ v, SServers <$> from_str (vector_cast (Y := Y) conf_cast) v)
      (λ x, match x with SServers l => to_str (vector_cast (Y := Y) conf_cast) l | _ => None end)
  | KWorkers =>
    mkCast setting (λ v, SWorkers <$> from_str (map_cast (Y := Y) (map_cast (Y := Y) string_cast)) v)
      (λ x, match x with SWorkers l => to_str (map_cast (Y := Y) (map_cast (Y := Y) string_cast)) l | _ => None end)
  end.

End settings.

(** The variables the program's static objects create. *)
Definition register {LW} (cfg : Config kind setting LW) : outcome (Config kind setting LW) :=
  '(_, cfg) ← Lookup_create cfg KText (text "server.work_path") (SText (text "/home/lambda/apps/work/sylar"))
                (text "server work path");
  '(_, cfg) ← Lookup_create cfg KText (text "server.pid_file") (SText (text "sylar.pid")) (text "server pid file");
  '(_, cfg) ← Lookup_create cfg KServers (text "servers") (SServers []) (text "http servers config");
  '(_, cfg) ← Lookup_create cfg KText (text "module.path") (SText (text "module")) (text "module path");
  '(_, cfg) ← Lookup_create cfg KWorkers (text "workers") (SWorkers []) (text "worker config");
  mret cfg.

(** [getValue()] of the variables, by their types. *)
Definition text_value {LW} (cfg : Config kind setting LW) (name : list Z) : outcome (list Z) :=
  v ← deref (Config.Lookup cfg KText name);
  match m_val v with SText s => Ok s | _ => Stuck end.

Definition servers_value {LW} (cfg : Config kind setting LW) : outcome (list TcpServerConf) :=
  v ← deref (Config.Lookup cfg KServers (text "servers"));
  match m_val v with SServers l => Ok l | _ => Stuck end.

Definition workers_value {LW} (cfg : Config kind setting LW) : outcome (list (list Z * list (list Z * list Z))) :=
  v ← deref (Config.Lookup cfg KWorkers (text "workers"));
  match m_val v with SWorkers l => Ok l | _ => Stuck end.

(** [g_server_work_path->getValue() + "/" + g_server_pid_file->getValue()]. *)
Definition pidfile_value {LW} (cfg : Config kind setting LW) : outcome (list Z) :=
  work_path ← text_value cfg (text "server.work_path");
  pid_file ← text_value cfg (text "server.pid_file");
  mret (work_path ++ text "/" ++ pid_file).

(** ** The state *)

(** The two kinds of servers; an http server with [m_isKeepalive]. *)
Inductive server_kind : Type :=
| HttpServer (keepalive : bool)
| WSServer.

(** A server of [m_servers]: its workers, none for the thread's own
    [IOManager], its name and configuration, its sockets, and the sockets with an
    accepting fiber. *)
Record app_server {C X : Type} : Type := mkAppServer {
  s_kind : server_kind;
  s_process : option worker;
  s_accept : option worker;
  s_name : list Z;
  s_conf : TcpServerConf;
  s_socks : list (Socket + SSLSocket C X);
  s_accepting : list nat
}.
Arguments app_server : clear implicits.
Arguments mkAppServer {C X}.

(** The calls of the modules' functions, and what is printed. *)
Inductive app_event : Type :=
| BeforeArgsParse (m : Module)
| AfterArgsParse (m : Module)
| OnLoad (m : Module)
| OnServerReady (m : Module)
| Printed (help : list Z).

(** Whether [run_fiber] went through or called [_exit(0)]. *)
Inductive progress : Type := Done | Quit.

Section application.
Context {FS K EP C X Y LW : Type} `{FileSystem FS} `{!Yaml Y}.
Context {HK : Kernel K} {HN : Net K} {HE : Epoll EP} `{OpenSSL C X K}.
Context (order : endian) (to_int lexical_cast : list Z → option Z).
(** Modification times, YAML documents, shared objects, and [ofs << pid] into a
    file, none when it cannot be opened. *)
Context (lstat_mtime : FS → path → option Z) (LoadFile : FS → path → option Y).
Context (GetModule : path → option Module) (onLoad : Module → bool).
Context (fs_put : FS → path → list Z → option FS).
(** The resolver and the interfaces. *)
Context (getaddrinfo : list Z → option (list Z) → Z → Z → Z → bool → option (list (list Z))).
Context (getifaddrs : option (list ifaddrs)).
(** [rand()], call by call, and the settings of the TCP servers. *)
Context (rand : nat → Z) (connect_timeout read_timeout : Z).

Record Application : Type := mkApp {
  a_env : Env;
  a_mtimes : gmap (list Z) Z;
  a_config : Config kind setting LW;
  a_listeners : LW;
  a_fs : FS;
  a_modules : module_map * list Module;
  a_workers : WorkerManager;
  a_world : world K EP;
  a_servers : list (list Z * list (app_server C X));
  a_events : list app_event
}.

Definition set_env (a : Application) (e : Env) : Application :=
  mkApp e (a_mtimes a) (a_config a) (a_listeners a) (a_fs a) (a_modules a) (a_workers a) (a_world a)
    (a_servers a) (a_events a).
Definition set_config (a : Application) (mt : gmap (list Z) Z) (cfg : Config kind setting LW) (lw : LW) : Application :=
  mkApp (a_env a) mt cfg lw (a_fs a) (a_modules a) (a_workers a) (a_world a) (a_servers a) (a_events a).
Definition set_fs (a : Application) (k : FS) : Application :=
  mkApp (a_env a) (a_mtimes a) (a_config a) (a_listeners a) k (a_modules a) (a_workers a) (a_world a)
    (a_servers a) (a_events a).
Definition set_modules (a : Application) (m : module_map * list Module) : Application :=
  mkApp (a_env a) (a_mtimes a) (a_config a) (a_listeners a) (a_fs a) m (a_workers a) (a_world a)
    (a_servers a) (a_events a).
Definition set_workers (a : Application) (m : WorkerManager) : Application :=
  mkApp (a_env a) (a_mtimes a) (a_config a) (a_listeners a) (a_fs a) (a_modules a) m (a_world a)
    (a_servers a) (a_events a).
Definition set_servers (a : Application) (w : world K EP) (s : list (list Z * list (app_server C X))) : Application :=
  mkApp (a_env a) (a_mtimes a) (a_config a) (a_listeners a) (a_fs a) (a_modules a) (a_workers a) w
    s (a_events a).
Definition log_events (a : Application) (es : list app_event) : Application :=
  mkApp (a_env a) (a_mtimes a) (a_config a) (a_listeners a) (a_fs a) (a_modules a) (a_workers a) (a_world a)
    (a_servers a) (a_events a ++ es).

(** ** Starting up *)

(** [Config::loadFromConfDir(path, force)]. *)
Definition loadFromConfDir (fuel : nat) (a : Application) (p : path) (force : bool) : outcome Application :=
  files ← ListAllFile fuel (a_fs a) (text ".yml") [] (getAbsolutePath (a_env a) p);
  '(mt, (cfg, lw)) ← load_files (Y := Y) (setting_cast (Y := Y) to_int) (lstat_mtime (a_fs a)) (LoadFile (a_fs a))
                       fuel files force (a_mtimes a) (a_config a, a_listeners a);
  mret (set_config a mt cfg lw).

(** The loop of [ModuleManagr::init]: [Library::GetModule] reads the
    configuration again after each module. *)
Fixpoint init_modules (fuel : nat) (files : list path) (a : Application) : outcome Application :=
  match files with
  | [] => mret a
  | file :: files =>
    match GetModule file with
    | None => init_modules fuel files a
    | Some module =>
      a ← loadFromConfDir fuel a (getConfigPath (a_env a)) true;
      init_modules fuel files (set_modules a (module_add (a_modules a) module))
    end
  end.

(** [ModuleMgr::GetInstance()->init()]. *)
Definition modules_init (fuel : nat) (a : Application) : outcome Application :=
  module_path ← text_value (a_config a) (text "module.path");
  files ← ListAllFile fuel (a_fs a) (text ".so") [] (getAbsolutePath (a_env a) module_path);
  init_modules fuel (merge_sort name_le files) a.

Definition helpers (e : Env) : Env :=
  let e := addHelper e (text "s") (text "start with the terminal") in
  let e := addHelper e (text "d") (text "run as daemon") in
  let e := addHelper e (text "c") (text "default conf path: ./conf") in
  addHelper e (text "p") (text "print help").

(** [run_type]. *)
Definition run_type (e : Env) : Z :=
  let t := if env_has e (text "s") then 1 else 0 in
  if env_has e (text "d") then 2 else t.

(** The end of [init]: the pid file and the working directory. *)
Definition claim_work_path (a : Application) : outcome (bool * Application) :=
  pidfile ← pidfile_value (a_config a);
  if IsRunningPidfile (a_fs a) pidfile then mret (false, a) else
  work_path ← text_value (a_config a) (text "server.work_path");
  '(ok, k) ← Mkdir (a_fs a) work_path;
  mret (ok, set_fs a k).

(** [init(argc, argv)]. *)
Definition app_init (fuel : nat) (a : Application) (argv : list (list Z)) (exe : option (list Z)) :
    outcome (bool * Application) :=
  '(ok, e) ← env_init (helpers (a_env a)) argv exe;
  let is_print_help := negb ok || env_has e (text "p") in
  let a := set_env a e in
  a ← loadFromConfDir fuel a (getConfigPath e) false;
  a ← modules_init fuel a;
  let modules := listAll (a_modules a).1 in
  let a := log_events a (BeforeArgsParse <$> modules) in
  if is_print_help then mret (false, log_events a [Printed (printHelper (a_env a))]) else
  let a := log_events a (AfterArgsParse <$> modules) in
  if decide (run_type (a_env a) = 0) then mret (false, log_events a [Printed (printHelper (a_env a))]) else
  claim_work_path a.

(** ** The servers *)

(** [addr.find(":")]. *)
Definition find_colon (addr : list Z) : option nat := find_first (λ c, bool_decide (c = 58)) addr.

(** [GetInterfaceAddresses] with the loop over its results: a pointer that is
    not an [IPAddress] would be pushed as null. *)
Definition with_port (port : Z) (a : Address) : option Address :=
  v ← as_ip (Some a); set_port order v (u16 port).

Definition with_ports (port : Z) (results : list (Address * Z)) : list (option Address) :=
  (λ res : Address * Z, with_port port res.1) <$> results.

Definition interface_addrs (iface : list Z) (port : Z) : outcome (option (list (option Address))) :=
  '(ok, results) ← GetInterfaceAddresses_of order getifaddrs [] iface AF_INET;
  mret (if (ok : bool) then Some (with_ports port results) else None).

(** One turn of the loop over [conf.address]: what is pushed, none where the
    process exits. *)
Definition parse_address (addr : list Z) : outcome (option (list (option Address))) :=
  match find_colon addr with
  | None => a ← UnixAddress_new addr; mret (Some [Some a])
  | Some pos =>
    let port := atoi32 (drop (S pos) addr) in
    p_addr ← IPAddress_Create order getaddrinfo (take pos addr) (u16 port);
    match p_addr with
    | Some a => mret (Some [Some a])
    | None =>
      results ← interface_addrs (take pos addr) port;
      match results with
      | Some l => mret (Some l)
      | None =>
        aaddr ← LookupAny order getaddrinfo addr AF_INET 0 0;
        mret (match aaddr with Some a => Some [Some a] | None => None end)
      end
    end
  end.

Fixpoint parse_addresses (addrs : list (list Z)) (p_addrs : list (option Address)) :
    outcome (option (list (option Address))) :=
  match addrs with
  | [] => mret (Some p_addrs)
  | addr :: addrs =>
    r ← parse_address addr;
    match r with
    | None => mret None
    | Some l => parse_addresses addrs (p_addrs ++ l)
    end
  end.

(** A worker by its name; the empty name stands for the thread's own. The inner
    option is the pointer, the outer one whether there is such a worker. *)
Definition find_worker (mgr : WorkerManager) (name : list Z) (r : Z) : outcome (option (option worker)) :=
  if decide (name = []) then mret (Some None) else
  w ← getAsIOManager mgr name r;
  mret (match w with Some w => Some (Some w) | None => None end).

Definition make_kind (conf : TcpServerConf) : option server_kind :=
  if decide (conf_type conf = text "http") then Some (HttpServer (bool_decide (keepalive conf ≠ 0)))
  else if decide (conf_type conf = text "ws") then Some WSServer
  else None.

(** The server's sockets, as [TcpServer] has them before [start]. *)
Definition bound (socks : list Socket) (w : world K EP) : TcpServer :=
  mkServer (list_to_map (zip (seq 0 (length socks)) socks)) (seq 0 (length socks)) read_timeout true [] 0 [] w.

(** The sockets of an encrypted server are [SSLSocket]s, with the certificates
    if they can be loaded; a failure is only logged. *)
Definition secure (conf : TcpServerConf) (socks : list Socket) : list (Socket + SSLSocket C X) :=
  if decide (ssl conf = 0) then inl <$> socks
  else (TcpServer_loadCertificates ((λ s, inr (mkSSLSocket s None None)) <$> socks) (cert_file conf) (key_file conf)).2.

(** [m_servers[conf.type].push_back(server)]. *)
Definition push_server (m : list (list Z * list (app_server C X))) (type : list Z) (s : app_server C X) :
    list (list Z * list (app_server C X)) :=
  map_set id bytes_lt m type (default [] (map_find id bytes_lt m type) ++ [s]).

(** One turn of the loop over the configurations, the [i]th; none where the
    process exits. *)
Definition start_server (i : nat) (conf : TcpServerConf) (a : Application) : outcome (option Application) :=
  r ← parse_addresses (address conf) [];
  match r with
  | None => mret None
  | Some p_addrs =>
    a_worker ← find_worker (a_workers a) (accept_worker conf) (rand (2 * i));
    match a_worker with
    | None => mret None
    | Some a_worker =>
      p_worker ← find_worker (a_workers a) (process_worker conf) (rand (S (2 * i)));
      match p_worker with
      | None => mret None
      | Some p_worker =>
        match make_kind conf with
        | None => mret None
        | Some kind =>
          addrs ← mapM deref p_addrs;
          '(ok, socks, _, w) ← TcpServer_bind order [] [] addrs (a_world a) connect_timeout;
          if negb ok then mret None else
          let name := if decide (conf_name conf = []) then text "sylar/1.0.0" else conf_name conf in
          let server := mkAppServer kind p_worker a_worker name conf (secure conf socks)
                          (t_accepting (TcpServer_start (bound socks w))) in
          mret (Some (set_servers a w (push_server (a_servers a) (conf_type conf) server)))
        end
      end
    end
  end.

(** The loop: the state with the servers that were started, and how it ended. *)
Fixpoint start_servers (i : nat) (confs : list TcpServerConf) (a : Application) : Application * outcome progress :=
  match confs with
  | [] => (a, Ok Done)
  | conf :: confs =>
    match start_server i conf a with
    | Ok (Some a) => start_servers (S i) confs a
    | Ok None => (a, Ok Quit)
    | Throw e => (a, Throw e)
    | Stuck => (a, Stuck)
    end
  end.

(** [run_fiber]. *)
Definition run_fiber (a : Application) : Application * outcome progress :=
  let modules := listAll (a_modules a).1 in
  let a := log_events a (OnLoad <$> modules) in
  if negb (forallb onLoad modules) then (a, Ok Quit) else
  match (workers ← workers_value (a_config a); manager_init lexical_cast workers 0 (a_workers a)) with
  | Throw e => (a, Throw e)
  | Stuck => (a, Stuck)
  | Ok mgr =>
    let a := set_workers a mgr in
    match servers_value (a_config a) with
    | Throw e => (a, Throw e)
    | Stuck => (a, Stuck)
    | Ok http_confs =>
      let '(a, r) := start_servers 0 http_confs a in
      match r with
      | Ok Done => (log_events a (OnServerReady <$> modules), Ok Done)
      | r => (a, r)
      end
    end
  end.

(** ** Running *)

Definition SIGABRT : Z := 6.

(** What becomes of the process once [run_fiber] ended: the fiber catches its
    exceptions, an assertion aborts, and [stop()] waits as long as the recurring
    timer exists. *)
Definition fiber_fate (r : outcome progress) : outcome fate :=
  match r with
  | Ok Done => Ok Serves
  | Ok Quit => Ok (Ends (Exited 0))
  | Throw (assertion_failed _) => Ok (Ends (Killed SIGABRT true))
  | Throw _ => Ok Serves
  | Stuck => Stuck
  end.

(** [Application::main]; [pid] is what [getpid()] returns. *)
Definition app_main (fuel : nat) (pid : Z) (a : Application) : outcome (fate * Application) :=
  a ← loadFromConfDir fuel a (getConfigPath (a_env a)) true;
  pidfile ← pidfile_value (a_config a);
  match fs_put (a_fs a) pidfile (dec pid) with
  | None => mret (Returns 0, a)
  | Some k =>
    let '(a, r) := run_fiber (set_fs a k) in
    f ← fiber_fate r;
    mret (f, a)
  end.

(** [run()] as the exit code of [main]: its [bool], which is true for every
    result but zero. *)
Definition exit_code (n : Z) : Z := if decide (n = 0) then 0 else 1.

(** The program as [start_daemon] sees it: a process begins with the state at
    [fork] and the files as they are. A child of the supervisor has its own
    process id, otherwise it is [pid]. A process that gets stuck may end in any
    way, which [crash] says. *)
Definition main_cb (fuel : nat) (crash : fate) (pid : Z) (a : Application) (p : ProcessInfo) (k : FS) : fate * FS :=
  match app_main fuel (if decide (main_id p = 0) then pid else main_id p) (set_fs a k) with
  | Ok (f, a) => (f, a_fs a)
  | Throw _ => (Ends (Killed SIGABRT true), k)
  | Stuck => (crash, k)
  end.

(** [run()]. *)
Definition app_run (fuel : nat) (crash : fate) (a : Application) (daemonized : bool) (pid now interval : Z)
    (p : ProcessInfo) (forks : list forked) : supervision :=
  start_daemon (main_cb fuel crash pid a) exit_code (env_has (a_env a) (text "d")) daemonized pid now interval p forks
    (a_fs a).

(** [getServer(type, servers)]. *)
Definition getServer (a : Application) (type : list Z) (servers : list (app_server C X)) :
    bool * list (app_server C X) :=
  match map_find id bytes_lt (a_servers a) type with
  | None => (false, servers)
  | Some l => (true, l)
  end.

End application.

Arguments Application : clear implicits.
