(* ===== verification/AppSpec.v ===== *)
(** Correctness of the application: which servers run after [run_fiber], with
    which sockets, and when the process gives up; one process at a time for a
    working directory; and what the supervisor makes of a failed start. *)

From Stdlib Require Import ZArith Lia.
From stdpp Require Import base numbers gmap option strings tactics sets sorting list_numbers list.
From S2P Require Import Prelude StdSet StdMap Text Endian Address AddressSpec IOManager FdManager Hook Socket SocketSpec.
From S2P Require Import SocketTheorems TcpServer ConfigCast Config ServerConf Module Worker Env FsUtil Util Daemon Application.

Local Open Scope Z_scope.

(** ** Addresses *)

Section addresses.
Context (order : endian).
Context (getaddrinfo : list Z → option (list Z) → Z → Z → Z → bool → option (list (list Z))).
Context (getifaddrs : option (list ifaddrs)).

(** A pointer to an address that can be bound. *)
Definition good (o : option Address) : Prop := ∃ a, o = Some a ∧ usable a.

Definition is_ip (a : Address) : Prop := as_ip (Some a) = Some a.

(** The terminating zero of a path is copied, or the path is an abstract one,
    which begins with a zero. *)
Lemma UnixAddress_usable p a :
  Z.of_nat (length p) < 2 ^ 32 - 1 → UnixAddress_new p = Ok a → usable a.
Proof.
  intros Hlen. unfold UnixAddress_new. rewrite (uwrap_small 32 (_ + 1)) by (unfold in_unsigned; lia).
  set (n := if bool_decide _ then _ else _). case_decide as Hn; [done|].
  intros [= <-]. unfold usable, getPath, SUN_OFFSET, SUN_PATH in *. cbn [sun_path].
  assert (1 <= n <= 108 ∧ 0 ∈ take (Z.to_nat n) (p ++ [0])) as [Hb Hin].
  { subst n. case_bool_decide as Eh.
    - destruct p as [|c p]; [done|]. injection Eh as ->. simpl in *.
      rewrite uwrap_small in * by (unfold in_unsigned; lia).
      split; [lia|]. replace (Z.to_nat _) with (S (length p)) by lia. simpl. apply elem_of_cons. by left.
    - split; [lia|]. rewrite take_ge by (rewrite length_app; simpl; lia). apply elem_of_app. right.
      by apply list_elem_of_singleton. }
  set (sp := overwrite _ _ _). assert (0 ∈ sp) as Hsp.
  { unfold sp, overwrite. simpl. apply elem_of_app. by left. }
  rewrite (uwrap_small 32 (n + 2)) by (unfold in_unsigned; lia).
  destruct (_ && _); unfold abstract_name, print_path, SUN_PATH; rewrite decide_True by (done || lia); by eexists.
Qed.

Lemma Address_Create_not_unix bs o : Address_Create order (Some bs) = Ok o → good o.
Proof.
  unfold Address_Create. case_decide; [done|]. repeat case_decide;
    intros (m & _ & [= <-])%outcome_bind_ok; by eexists.
Qed.

Lemma create_all_good found l : create_all order found = Ok l → Forall good l.
Proof.
  revert l. induction found as [|bs found IH]; intros l; simpl.
  { intros [= <-]. constructor. }
  intros (o & Ho & (rest & Hr & [= <-])%outcome_bind_ok)%outcome_bind_ok.
  constructor; [by eapply Address_Create_not_unix|by apply IH].
Qed.

Lemma LookupAny_usable host family type protocol a :
  LookupAny order getaddrinfo host family type protocol = Ok (Some a) → usable a.
Proof.
  unfold LookupAny, Address.Lookup. destruct (split_host host) as [node service]. destruct (getaddrinfo _ _ _ _ _ _) as [found|].
  - destruct (create_all order found) as [l| |] eqn:E; osimpl; [|done..]. intros Hh.
    destruct l as [|o l]; [done|]. injection Hh as ->. apply create_all_good, Forall_cons in E as [(b & [= <-] & Hb) _]. done.
  - osimpl. done.
Qed.

Lemma set_port_ip a port : is_ip a → ∃ b, set_port order a port = Some b ∧ is_ip b.
Proof. unfold is_ip. destruct a; simpl; [by eexists..|done|done]. Qed.

Lemma ip_usable a : is_ip a → usable a.
Proof. by destruct a. Qed.

Lemma as_ip_Some o a : as_ip o = Some a → is_ip a.
Proof. destruct o as [[]|]; simpl; intros [= <-]; done. Qed.

Lemma IPAddress_Create_usable address port a :
  IPAddress_Create order getaddrinfo address port = Ok (Some a) → usable a.
Proof.
  unfold IPAddress_Create. destruct (getaddrinfo _ _ _ _ _ _) as [results|]; [|done].
  intros (bs & _ & (o & Ho & [= E])%outcome_bind_ok)%outcome_bind_ok.
  destruct (as_ip o) as [b|] eqn:Eb; [|done]. simpl in E. apply as_ip_Some in Eb.
  destruct (set_port_ip b port Eb) as (c & Ec & Hc). rewrite Ec in E. injection E as ->. by apply ip_usable.
Qed.

Definition ip_result (v : Address * Z) : Prop := is_ip v.1.

Lemma Address_Create_ip bs o :
  Address_Create order (Some bs) = Ok o → u16_at order bs 0 = AF_INET ∨ u16_at order bs 0 = AF_INET6 →
  ∃ a, o = Some a ∧ is_ip a.
Proof.
  unfold Address_Create. case_decide; [done|]. case_decide; [|case_decide]; intros E Hf; [..|naive_solver];
    apply outcome_bind_ok in E as (m & _ & [= <-]); by eexists.
Qed.

Lemma interface_address_ip next family v :
  interface_address order next family = Ok (Some v) → ip_result v.
Proof.
  unfold interface_address. intros (bs & _ & E)%outcome_bind_ok. destruct (_ && _); [done|].
  case_decide; [|case_decide; [|done]];
    apply outcome_bind_ok in E as (o & Ho & (? & _ & (? & _ & (? & _ & [= E])%outcome_bind_ok)%outcome_bind_ok)%outcome_bind_ok);
    apply Address_Create_ip in Ho as (a & -> & Ha); try (by auto); simpl in E; by injection E as <-.
Qed.

Lemma multimap_insert_Forall {V} (P : V → Prop) (m : list (list Z * V)) k v :
  Forall (λ kv, P kv.2) m → P v → Forall (λ kv, P kv.2) (multimap_insert m k v).
Proof.
  intros Hm Hv. unfold multimap_insert. apply Forall_app. split; [by apply Forall_take|].
  constructor; [done|by apply Forall_drop].
Qed.

Lemma interface_loop_ip family l : ∀ result result',
  Forall (λ kv, ip_result kv.2) result → interface_loop order l family result = Ok result' →
  Forall (λ kv, ip_result kv.2) result'.
Proof.
  induction l as [|next l IH]; intros result result' Hr; simpl; [by intros [= <-]|].
  intros (o & Ho & E)%outcome_bind_ok. eapply IH; [|exact E]. destruct o as [v|]; [|done].
  apply multimap_insert_Forall; [done|by eapply interface_address_ip].
Qed.

Lemma interfaces_ip iface family b results :
  GetInterfaceAddresses_of order getifaddrs [] iface family = Ok (b, results) → Forall ip_result results.
Proof.
  unfold GetInterfaceAddresses_of, GetInterfaceAddresses. case_bool_decide.
  - intros [= <- <-]. apply Forall_app. split; case_bool_decide; by repeat constructor.
  - destruct getifaddrs as [l|]; osimpl; [|by intros [= <- <-]].
    destruct (interface_loop order l family []) as [res| |] eqn:E; osimpl; [|done..].
    apply interface_loop_ip in E; [|constructor]. case_bool_decide; simpl; [by intros [= <- <-]|].
    intros [= <- <-]. apply Forall_fmap. apply Forall_forall. intros kv Hkv. apply list_elem_of_filter in Hkv as [_ Hkv].
    by eapply (proj1 (Forall_forall _ _) E).
Qed.

(** No null pointer is pushed, and every address can be bound. *)
Lemma parse_address_good addr l :
  Z.of_nat (length addr) < 2 ^ 32 - 1 →
  parse_address order getaddrinfo getifaddrs addr = Ok (Some l) → Forall good l.
Proof.
  intros Hlen. unfold parse_address. destruct (find_colon addr) as [pos|].
  - intros (o & Ho & E)%outcome_bind_ok. destruct o as [a|].
    { injection E as <-. constructor; [|constructor]. exists a. split; [done|]. by eapply IPAddress_Create_usable. }
    apply outcome_bind_ok in E as (r & Hr & E). destruct r as [l'|].
    + injection E as <-. unfold interface_addrs in Hr. apply outcome_bind_ok in Hr as ([b results] & Hi & [= Hr]).
      destruct b; [|done]. injection Hr as <-. apply interfaces_ip in Hi. unfold with_ports.
      apply Forall_fmap. eapply Forall_impl; [exact Hi|]. intros [v len] Hip. simpl. unfold with_port.
      unfold ip_result, is_ip in Hip. simpl in *. rewrite Hip. simpl.
      destruct (set_port_ip v (u16 (atoi32 (drop (S pos) addr))) Hip) as (c & -> & Hc). exists c. split; [done|by apply ip_usable].
    + apply outcome_bind_ok in E as (o & Ho' & E). destruct o as [a|]; [|done]. injection E as <-.
      constructor; [|constructor]. exists a. split; [done|]. by eapply LookupAny_usable.
  - intros (a & Ha & [= <-])%outcome_bind_ok. constructor; [|constructor]. exists a. split; [done|].
    by eapply UnixAddress_usable.
Qed.

Definition short (addr : list Z) : Prop := Z.of_nat (length addr) < 2 ^ 32 - 1.

Lemma parse_addresses_good addrs : ∀ acc l,
  Forall short addrs → Forall good acc →
  parse_addresses order getaddrinfo getifaddrs addrs acc = Ok (Some l) → Forall good l.
Proof.
  induction addrs as [|addr addrs IH]; intros acc l Hs Hacc; simpl; [by intros [= <-]|].
  apply Forall_cons in Hs as [Ha Hs]. intros (r & Hr & E)%outcome_bind_ok. destruct r as [l'|]; [|done].
  eapply IH; [done| |exact E]. apply Forall_app. split; [done|]. by eapply parse_address_good.
Qed.

Lemma good_deref l : Forall good l → ∃ addrs, mapM deref l = Ok addrs ∧ Forall usable addrs ∧ l = Some <$> addrs.
Proof.
  induction 1 as [|o l (a & -> & Ha) _ (addrs & E & Hu & Hl)]; [by exists []|].
  exists (a :: addrs). simpl. osimpl. rewrite E. osimpl. split_and!; [done|by constructor|by rewrite Hl].
Qed.

(** A configured address that begins with a colon, as IPv6 addresses may, is
    taken for all IPv4 interfaces, with a port from the text behind the colon. *)
Lemma colon_address rest :
  getaddrinfo [] None AF_UNSPEC 0 0 true = None →
  parse_address order getaddrinfo getifaddrs (58 :: rest) =
  Ok (Some [Some (IPv4Address (v4_setPort order (IPv4Address_new order 0 0) (u16 (atoi32 rest))))]).
Proof.
  intros Hn. unfold parse_address, IPAddress_Create. simpl. change (c_str []) with (@nil Z). rewrite Hn. osimpl.
  unfold interface_addrs, GetInterfaceAddresses_of. done.
Qed.

End addresses.

(** ** Servers *)

Section servers.
Context {FS K EP C X Y LW : Type} `{FileSystem FS} `{!Yaml Y}.
Context {HK : Kernel K} {HN : Net K} {HE : Epoll EP} `{OpenSSL C X K}.
Context (opened : K → gset Z) `{!NetLaws K opened}.
Context (names : K → Z → option (list Z) * bool) `{!BindLaws K names}.
Context (order : endian) (to_int lexical_cast : list Z → option Z).
Context (onLoad : Module → bool).
Context (getaddrinfo : list Z → option (list Z) → Z → Z → Z → bool → option (list (list Z))).
Context (getifaddrs : option (list ifaddrs)).
Context (rand : nat → Z) (connect_timeout read_timeout : Z).

Abbreviation app := (Application FS K EP C X LW).
Abbreviation open a := (opened (w_kernel (a_world a))).
Abbreviation parse := (parse_addresses order getaddrinfo getifaddrs).
Abbreviation start_server := (start_server order getaddrinfo getifaddrs rand connect_timeout read_timeout).
Abbreviation start_servers := (start_servers order getaddrinfo getifaddrs rand connect_timeout read_timeout).
Implicit Types a b c : app.

(** The worker a name stands for. *)
Definition stands_for (mgr : WorkerManager) (name : list Z) (o : option worker) : Prop :=
  (name = [] ∧ o = None) ∨ ∃ w, o = Some w ∧ w ∈ members mgr ∧ wk_name w = name ∧ wk_io w = true.

Lemma find_worker_ok mgr name r :
  manager_ok mgr → 0 <= r →
  ∃ o, find_worker mgr name r = Ok o ∧ ∀ w, o = Some w → stands_for mgr name w.
Proof.
  intros Hm Hr. unfold find_worker. case_decide as Hn.
  { eexists. split; [done|]. intros w [= <-]. by left. }
  destruct (manager_get_spec mgr name r Hm Hr) as (o & E & Hs & _). unfold getAsIOManager. rewrite E. osimpl.
  destruct o as [w|]; [|by exists None]. destruct (wk_io w) eqn:Eio; [|by exists None].
  eexists. split; [done|]. intros ? [= <-]. destruct (Hs w eq_refl). right. by exists w.
Qed.

(** The plain socket inside. *)
Definition inner (s : Socket + SSLSocket C X) : Socket :=
  match s with inl s => s | inr s => ssl_socket s end.

Lemma loadCertificates_inner (socks : list (Socket + SSLSocket C X)) cert key :
  inner <$> (TcpServer_loadCertificates socks cert key).2 = inner <$> socks.
Proof.
  induction socks as [|[s|s] socks IH]; [done|..]; cbn [TcpServer_loadCertificates]; rewrite fmap_cons.
  - destruct (TcpServer_loadCertificates socks cert key) as [ok l]. cbn [snd] in *. by rewrite fmap_cons, IH.
  - assert (ssl_socket (SSLSocket_loadCertificates s cert key).2 = ssl_socket s) as Hs.
    { unfold SSLSocket_loadCertificates. by repeat (case_decide || destruct (SSL_CTX_use_certificate_chain_file _ _)
        || destruct (SSL_CTX_use_PrivateKey_file _ _)). }
    destruct (SSLSocket_loadCertificates s cert key) as [ok s']. cbn [snd] in Hs. destruct ok; cbn [negb].
    + destruct (TcpServer_loadCertificates socks cert key) as [ok l]. cbn [snd] in *.
      rewrite fmap_cons, IH. cbn [inner]. by rewrite Hs.
    + cbn [snd]. rewrite fmap_cons. cbn [inner]. by rewrite Hs.
Qed.

Lemma inner_fmap (f : Socket → Socket + SSLSocket C X) (socks : list Socket) :
  (∀ s, inner (f s) = s) → inner <$> (f <$> socks) = socks.
Proof. intros Hf. induction socks as [|s socks IH]; [done|]. rewrite !fmap_cons, Hf. by f_equal. Qed.

Lemma secure_inner conf (socks : list Socket) : inner <$> secure (C := C) (X := X) conf socks = socks.
Proof.
  unfold secure. case_decide; [by apply inner_fmap|]. rewrite loadCertificates_inner. by apply inner_fmap.
Qed.

(** The descriptors of a server. *)
Definition fds (s : app_server C X) : list Z := (λ x, m_sock (inner x)) <$> s_socks s.

Lemma fds_secure k p w n conf (socks : list Socket) l :
  fds (mkAppServer k p w n conf (secure conf socks) l) = m_sock <$> socks.
Proof. rewrite <-(secure_inner conf socks) at 2. unfold fds. simpl. by rewrite <-list_fmap_compose. Qed.

(** A running server of the configuration [conf]: every address it resolves to
    has a socket that is bound to it and listening, and every socket a fiber that
    accepts. *)
Record started (mgr : WorkerManager) (w : world K EP) (conf : TcpServerConf) (s : app_server C X) : Prop := {
  st_conf : s_conf s = conf;
  st_kind : make_kind conf = Some (s_kind s);
  st_accept : stands_for mgr (accept_worker conf) (s_accept s);
  st_process : stands_for mgr (process_worker conf) (s_process s);
  st_addrs : ∃ addrs, parse (address conf) [] = Ok (Some (Some <$> addrs)) ∧
    Forall2 (listens_on names order w) (inner <$> s_socks s) addrs;
  st_accepting : s_accepting s = seq 0 (length (s_socks s));
  st_name : s_name s = if decide (conf_name conf = []) then text "sylar/1.0.0" else conf_name conf
}.

(** What other descriptors do is no concern of it. *)
Lemma started_world mgr w w' conf s :
  started mgr w conf s → (∀ fd, fd ∈ fds s → names (w_kernel w') fd = names (w_kernel w) fd) → started mgr w' conf s.
Proof.
  intros [H1 H2 H3 H4 (addrs & Ha & Hf) H6 H7] Hn. split; try done. exists addrs. split; [done|].
  apply Forall2_same_length_lookup. apply Forall2_same_length_lookup in Hf as [Hlen Hf]. split; [done|].
  intros i x addr Hx Haddr. unfold listens_on. rewrite Hn; [by eapply Hf|]. unfold fds.
  rewrite list_lookup_fmap in Hx. apply fmap_Some in Hx as (y & Hy & ->).
  apply list_elem_of_fmap. exists y. split; [done|by eapply list_elem_of_lookup_2].
Qed.

(** Why the process exits instead. *)
Definition refused (i : nat) (conf : TcpServerConf) a : Prop :=
  parse (address conf) [] = Ok None ∨
  find_worker (a_workers a) (accept_worker conf) (rand (2 * i)) = Ok None ∨
  find_worker (a_workers a) (process_worker conf) (rand (S (2 * i))) = Ok None ∨
  make_kind conf = None ∨
  ∃ addrs socks failed w, (mapM deref ∘ default []) <$> (match parse (address conf) [] with Ok l => Some l | _ => None end) =
      Some (Ok addrs) ∧
    TcpServer_bind order [] [] addrs (a_world a) connect_timeout = Ok (false, socks, failed, w).

Lemma bound_accepting socks w :
  t_accepting (TcpServer_start (bound read_timeout (K := K) (EP := EP) socks w)) = seq 0 (length socks).
Proof. done. Qed.

Lemma bind_fresh a addrs :
  world_ok opened (a_world a) → Forall usable addrs →
  ∃ ok socks failed w, TcpServer_bind order [] [] addrs (a_world a) connect_timeout = Ok (ok, socks, failed, w) ∧
    (ok = true → listeners opened (open a) socks w ∧ same_names names (open a) (a_world a) w ∧
       Forall2 (listens_on names order w) socks addrs).
Proof.
  intros Hw Hu. unfold TcpServer_bind.
  assert (listeners opened (open a) [] (a_world a)) as Hl.
  { split; [done|by intros ? ?%elem_of_nil|apply NoDup_nil_2|simpl; by rewrite union_empty_l_L|by intros ? ?%elem_of_nil]. }
  destruct (bind_loop_ok opened names order (open a) addrs connect_timeout [] [] (a_world a) Hl Hu)
    as (new & bad & good & w1 & -> & Hl1 & Hn & Hall & _ & _ & Hgood). rewrite !app_nil_l in *. osimpl. case_decide as Hb.
  - destruct (clear_socks_ok opened names (open a) new w1 Hl1) as (w2 & -> & _). osimpl. by eexists _, _, _, _.
  - eexists true, new, bad, w1. split; [done|]. intros _. split_and!; [done|done|].
    rewrite Hall in Hgood; [done|]. by destruct bad.
Qed.

(** What a turn of the loop does. *)
Lemma start_server_ok i conf a :
  world_ok opened (a_world a) → manager_ok (a_workers a) → 0 <= rand (2 * i) → 0 <= rand (S (2 * i)) →
  Forall short (address conf) → parse (address conf) [] ≠ Stuck →
  match start_server i conf a with
  | Ok (Some b) => ∃ s w, started (a_workers a) w conf s ∧ same_names names (open a) (a_world a) w ∧
      b = set_servers a w (push_server (a_servers a) (conf_type conf) s) ∧
      world_ok opened w ∧ NoDup (fds s) ∧ opened (w_kernel w) = list_to_set (fds s) ∪ open a ∧
      ∀ fd, fd ∈ fds s → (fd ∉ open a) ∧ 0 <= fd
  | Ok None => refused i conf a
  | Throw e => parse (address conf) [] = Throw e
  | Stuck => False
  end.
Proof.
  intros Hw Hm Hr1 Hr2 Hs Hp. unfold Application.start_server.
  destruct (parse (address conf) []) as [[p_addrs|]|e|] eqn:Ep; osimpl; [|left; exact Ep|done|done].
  destruct (find_worker_ok (a_workers a) (accept_worker conf) _ Hm Hr1) as (oa & Ea & Ha). rewrite Ea. osimpl.
  destruct oa as [wa|]; [|right; left; exact Ea].
  destruct (find_worker_ok (a_workers a) (process_worker conf) _ Hm Hr2) as (op & Epr & Hpr). rewrite Epr. osimpl.
  destruct op as [wp|]; [|right; right; left; exact Epr].
  destruct (make_kind conf) as [kind|] eqn:Ek; [|right; right; right; left; exact Ek].
  destruct (good_deref p_addrs) as (addrs & Ed & Hu & Hl).
  { eapply parse_addresses_good; [exact Hs|constructor|exact Ep]. }
  rewrite Ed. osimpl. destruct (bind_fresh a addrs Hw Hu) as (ok & socks & failed & w & Eb & Hok). rewrite Eb. osimpl.
  destruct ok; cbn [negb].
  - destruct (Hok eq_refl) as ([Hw' Hsane Hnd Ho Hbase] & Hnames & Hon).
    assert (length (secure (C := C) (X := X) conf socks) = length socks) as Hsec.
    { rewrite <-(secure_inner conf socks) at 2. by rewrite length_fmap. }
    eexists _, w. split; [|split; [exact Hnames|split; [reflexivity|]]].
    + split; simpl; [done|done|by apply Ha|by apply Hpr| | |done].
      * exists addrs. split; [by rewrite <-Hl|]. by rewrite secure_inner.
      * by rewrite Hsec.
    + rewrite fds_secure. split_and!; [done..|].
      intros fd Hfd. apply list_elem_of_fmap in Hfd as (s & -> & Hin). split; [by apply Hbase|].
      destruct (Hsane s Hin) as [Hs' Hv]. by destruct (sane_range s Hs').
  - right; right; right; right. exists addrs, socks, failed, w. split; [|done]. rewrite Ep. simpl. by rewrite Ed.
Qed.

Definition push_all (m : list (list Z * list (app_server C X))) (srvs : list (app_server C X)) :
    list (list Z * list (app_server C X)) :=
  foldl (λ m s, push_server m (conf_type (s_conf s)) s) m srvs.

Lemma push_all_snoc m srvs s :
  push_all m (srvs ++ [s]) = push_server (push_all m srvs) (conf_type (s_conf s)) s.
Proof. unfold push_all. by rewrite foldl_app. Qed.

(** The servers of a type, in the order of the configuration. *)
Definition of_type (t : list Z) (srvs : list (app_server C X)) : list (app_server C X) :=
  filter (λ s, conf_type (s_conf s) = t) srvs.

Lemma push_all_find srvs t :
  map_ok id bytes_lt (push_all [] srvs) ∧
  map_find id bytes_lt (push_all [] srvs) t = match of_type t srvs with [] => None | l => Some l end.
Proof.
  revert t. induction srvs as [|s srvs IH] using rev_ind; intros t; [split; [constructor|done]|].
  rewrite push_all_snoc. unfold push_server, of_type. rewrite filter_app.
  destruct (IH (conf_type (s_conf s))) as [Hok E]. split.
  { by apply (map_set_ok id bytes_lt bytes_lt_strict). }
  rewrite E. destruct (decide (conf_type (s_conf s) = t)) as [<-|Hne].
  - rewrite (map_find_set_eq id bytes_lt bytes_lt_strict) by done. rewrite filter_cons_True, filter_nil by done.
    fold (of_type (conf_type (s_conf s)) srvs). by destruct (of_type (conf_type (s_conf s)) srvs).
  - rewrite (map_find_set_ne id bytes_lt bytes_lt_strict) by (done || naive_solver).
    rewrite filter_cons_False, filter_nil, app_nil_r by done. by destruct (IH t).
Qed.

(** What the loop may assume of a configuration. *)
Definition readable (conf : TcpServerConf) : Prop :=
  Forall short (address conf) ∧ parse (address conf) [] ≠ Stuck.

Abbreviation all_fds srvs := (mjoin (fds <$> srvs)).

(** How the loop ended after [n] servers, in state [b]. *)
Definition loop_ended (i n : nat) (confs : list TcpServerConf) b (r : outcome progress) : Prop :=
  match r with
  | Ok Done => n = length confs
  | Ok Quit => ∃ conf, confs !! n = Some conf ∧ refused (i + n) conf b
  | Throw e => ∃ conf, confs !! n = Some conf ∧ parse (address conf) [] = Throw e
  | Stuck => False
  end.

(** The loop took the state [a] to [b], starting the servers of the first
    configurations. *)
Definition loop_result (i : nat) (confs : list TcpServerConf) a b (r : outcome progress) : Prop :=
  ∃ srvs w, b = set_servers a w (push_all (a_servers a) srvs) ∧
    Forall2 (started (a_workers a) w) (take (length srvs) confs) srvs ∧ same_names names (open a) (a_world a) w ∧
    world_ok opened w ∧ NoDup (all_fds srvs) ∧ opened (w_kernel w) = list_to_set (all_fds srvs) ∪ open a ∧
    (∀ fd, fd ∈ all_fds srvs → fd ∉ open a) ∧ loop_ended i (length srvs) confs b r.

Lemma loop_result_none i confs a r :
  world_ok opened (a_world a) → loop_ended i 0 confs a r → loop_result i confs a a r.
Proof.
  intros Hw He. exists [], (a_world a). split; [by destruct a|].
  split_and!; [done|done|done|apply NoDup_nil_2|by simpl; rewrite union_empty_l_L|by intros ? ?%elem_of_nil|done].
Qed.

Lemma start_servers_ok confs : ∀ i a,
  world_ok opened (a_world a) → manager_ok (a_workers a) → (∀ n, 0 <= rand n) → Forall readable confs →
  loop_result i confs a (start_servers i confs a).1 (start_servers i confs a).2.
Proof.
  induction confs as [|conf confs IH]; intros i a Hw Hm Hr Hc; cbn [Application.start_servers].
  { by apply loop_result_none. }
  apply Forall_cons in Hc as [[Hs Hp] Hc].
  pose proof (start_server_ok i conf a Hw Hm (Hr _) (Hr _) Hs Hp) as Hone.
  destruct (start_server i conf a) as [[a1|]|e|]; [| | |done].
  - destruct Hone as (s & w1 & Hst & Hn1 & -> & Hw1 & Hnd & Ho & Hd).
    specialize (IH (S i) (set_servers a w1 (push_server (a_servers a) (conf_type conf) s)) Hw1 Hm Hr Hc).
    destruct (start_servers (S i) confs _) as [b r]. cbn [fst snd] in *.
    destruct IH as (srvs & w & -> & Hsrvs & Hn2 & Hw' & Hnd' & Ho' & Hd' & Hend). exists (s :: srvs), w.
    cbn [a_servers set_servers a_workers a_world] in *. split.
    { unfold push_all. simpl. by rewrite (st_conf _ _ _ _ Hst). }
    assert (open a ⊆ opened (w_kernel w1)) as Hsub by (rewrite Ho; set_solver). split.
    { constructor; [|done]. apply (started_world _ w1); [done|]. intros fd Hfd. apply Hn2; [|by apply Hd].
      rewrite Ho. apply elem_of_union_l. by apply elem_of_list_to_set. }
    split; [eapply same_names_trans; [exact Hn1|]; intros fd Hfd; apply Hn2; by apply Hsub|].
    split; [done|]. simpl. split_and!.
    + apply NoDup_app. split_and!; [done| |done]. intros fd Hfd Hfd'. apply (Hd' fd Hfd'). rewrite Ho.
      apply elem_of_union_l, elem_of_list_to_set. done.
    + rewrite Ho', Ho, list_to_set_app_L. set_solver.
    + intros fd [Hfd|Hfd]%elem_of_app; [by apply Hd|]. specialize (Hd' fd Hfd). rewrite Ho in Hd'. set_solver.
    + unfold loop_ended in *. simpl. rewrite <-plus_n_Sm. destruct r as [[]| |]; [congruence|done..].
  - apply loop_result_none; [done|]. exists conf. split; [done|]. by rewrite Nat.add_0_r.
  - apply loop_result_none; [done|]. by exists conf.
Qed.

Abbreviation run_fiber :=
  (run_fiber order lexical_cast onLoad getaddrinfo getifaddrs rand connect_timeout read_timeout).

(** C32. When the settings of the workers and servers are read and the workers are made
    (an error there ends [run_fiber] before any server), and no address runs
    into undefined behaviour while it is read, [run_fiber] starts the configured
    servers in their order, each of the configured type, on the workers its names stand
    for, with one socket per address, bound to that address and listening at the end,
    and one accepting fiber per socket, all on descriptors of their own. It goes
    through exactly when all of them started, and then tells every module; it stops
    at the first configuration that is not accepted (an address that does not
    resolve, an unknown worker or type, an address that cannot be bound), where the
    process exits, or whose path is too long, where the exception is caught by the
    fiber and the servers so far go on without the rest. If a module fails to load,
    nothing is started. [getServer] returns the servers of a type in order. *)
Theorem application_starts a ws confs mgr b r :
  world_ok opened (a_world a) → a_servers a = [] → a_workers a = WorkerManager_new → (∀ n, 0 <= rand n) →
  workers_value (a_config a) = Ok ws → manager_init lexical_cast ws 0 WorkerManager_new = Ok mgr →
  servers_value (a_config a) = Ok confs → Forall readable confs → run_fiber a = (b, r) →
  let modules := listAll (a_modules a).1 in
  if forallb onLoad modules then
    ∃ srvs, Forall2 (started mgr (a_world b)) (take (length srvs) confs) srvs ∧
      (∀ t l, getServer b t l = match of_type t srvs with [] => (false, l) | srvs => (true, srvs) end) ∧
      world_ok opened (a_world b) ∧ NoDup (all_fds srvs) ∧ open b = list_to_set (all_fds srvs) ∪ open a ∧
      (∀ fd, fd ∈ all_fds srvs → fd ∉ open a) ∧
      loop_ended 0 (length srvs) confs b r ∧
      a_events b = a_events a ++ (OnLoad <$> modules) ++ match r with Ok Done => OnServerReady <$> modules | _ => [] end
  else r = Ok Quit ∧ a_servers b = [] ∧ a_world b = a_world a ∧ a_events b = a_events a ++ (OnLoad <$> modules).
Proof.
  intros Hw Hs0 Hw0 Hr Ews Em Ec Hc E modules. unfold Application.run_fiber in E. fold modules in E.
  destruct (forallb onLoad modules) eqn:El; cbn [negb] in E; [|by injection E as <- <-].
  cbn [log_events a_config a_workers] in E. rewrite Ews in E. osimpl in E. rewrite Hw0, Em in E.
  cbn [log_events set_workers a_config] in E. rewrite Ec in E. revert E.
  set (a0 := set_workers _ _).
  assert (manager_ok mgr) as Hm.
  { unfold manager_init in Em. apply outcome_bind_ok in Em as (mgr1 & Em & [= <-]).
    destruct (init_loop_spec lexical_cast ws _ _ _ (empty_ok false) Em) as (Hok & _). by destruct Hok. }
  pose proof (start_servers_ok confs 0 a0 Hw Hm Hr Hc) as Hres.
  destruct (start_servers 0 confs a0) as [b' r']. cbn [fst snd] in Hres.
  destruct Hres as (srvs & w & -> & Hst & _ & Hw' & Hnd & Ho & Hd & Hend).
  assert (∀ t l, getServer (set_servers a0 w (push_all (a_servers a0) srvs)) t l =
    match of_type t srvs with [] => (false, l) | srvs => (true, srvs) end) as Hget.
  { intros t l. unfold getServer. cbn. rewrite Hs0. rewrite (proj2 (push_all_find srvs t)). by destruct (of_type t srvs). }
  destruct r' as [[]|e|]; intros [= <- <-]; exists srvs; (split_and!; [done..|]); simpl;
    by rewrite ?app_nil_r, <-?app_assoc.
Qed.

(** [run_fiber] does not touch the files or the settings. *)
Lemma start_servers_keeps confs : ∀ i a,
  a_fs (start_servers i confs a).1 = a_fs a ∧ a_config (start_servers i confs a).1 = a_config a.
Proof.
  induction confs as [|conf confs IH]; intros i a; cbn [Application.start_servers]; [done|].
  destruct (start_server i conf a) as [[b|]|e|] eqn:E; [|done..].
  assert (∃ w s, b = set_servers a w s) as (w & s & ->).
  { unfold Application.start_server in E. apply outcome_bind_ok in E as ([l|] & _ & E); [|done].
    apply outcome_bind_ok in E as ([wa|] & _ & E); [|done]. apply outcome_bind_ok in E as ([wp|] & _ & E); [|done].
    destruct (make_kind conf); [|done]. apply outcome_bind_ok in E as (addrs & _ & E).
    apply outcome_bind_ok in E as ([[[ok socks] failed] w] & _ & E). destruct ok; [|done].
    injection E as <-. by eexists _, _. }
  destruct (IH (S i) (set_servers a w s)) as [-> ->]. done.
Qed.

Lemma run_fiber_keeps a : a_fs (run_fiber a).1 = a_fs a ∧ a_config (run_fiber a).1 = a_config a.
Proof.
  unfold Application.run_fiber. destruct (negb _); [done|]. destruct (_ ≫= _) as [mgr| |]; [|done..].
  destruct (servers_value _) as [confs| |]; [|done..].
  set (a0 := set_workers _ _). pose proof (start_servers_keeps confs 0 a0) as Hk.
  destruct (start_servers 0 confs a0) as [b r]. cbn [fst] in Hk. destruct r as [[]| |]; apply Hk.
Qed.

(** ** The process *)

Context (lstat_mtime : FS → path → option Z) (LoadFile : FS → path → option Y).
Context (GetModule : path → option Module).
Context (fs_put : FS → path → list Z → option FS).

Abbreviation loadFromConfDir := (loadFromConfDir to_int lstat_mtime LoadFile).
Abbreviation app_main := (app_main order to_int lexical_cast lstat_mtime LoadFile onLoad fs_put getaddrinfo getifaddrs
                            rand connect_timeout read_timeout).
Abbreviation app_run := (app_run order to_int lexical_cast lstat_mtime LoadFile onLoad fs_put getaddrinfo getifaddrs
                           rand connect_timeout read_timeout).

Lemma dec_plain n (c : Z) : 0 <= n → c < 48 → c ∉ dec n.
Proof.
  intros Hn Hc Hin. pose proof (proj1 (Forall_forall _ _) (dec_digits n Hn) c Hin) as Hd.
  unfold is_digit in Hd. apply bool_decide_eq_true in Hd. lia.
Qed.

(** A file has the text that was written into it. *)
Class PutLaws : Prop := {
  put_stat k p s k' : fs_put k p s = Some k' → is_Some (fs_lstat k' p);
  put_line k p s k' : fs_put k p s = Some k' → s ≠ [] → 10 ∉ s → fs_getline k' p = Some s
}.

Lemma pidfile_alive k pid p k' :
  PutLaws → 1 < pid < 2 ^ 31 → fs_put k p (dec pid) = Some k' → fs_kill k' pid = true → IsRunningPidfile k' p = true.
Proof.
  intros Hput Hpid E Halive. unfold IsRunningPidfile. destruct (put_stat _ _ _ _ E) as [m ->].
  rewrite (put_line _ _ _ _ E) by (apply dec_nonempty || apply dec_plain; lia).
  rewrite bool_decide_false by (apply dec_nonempty; lia).
  assert (atoi32 (dec pid) = pid) as ->.
  { unfold atoi32. rewrite c_str_dec, atoi_dec. unfold clamp. rewrite swrap_small; [lia|done|unfold in_signed; lia]. }
  rewrite bool_decide_false by lia. done.
Qed.

(** One process for a working directory: while the process that wrote its id
    into the pid file lives, another that reads the same files and settings does
    not start. *)
Theorem single_instance fuel pid a b c f p :
  PutLaws → app_main fuel pid a = Ok (f, b) → f ≠ Returns 0 → 1 < pid < 2 ^ 31 →
  pidfile_value (a_config b) = Ok p → fs_kill (a_fs b) pid = true →
  a_fs c = a_fs b → pidfile_value (a_config c) = Ok p →
  claim_work_path c = Ok (false, c).
Proof.
  intros Hput E Hf Hpid Ep Halive Ec Epc. unfold Application.app_main in E.
  apply outcome_bind_ok in E as (a1 & _ & E). apply outcome_bind_ok in E as (p1 & Ep1 & E).
  destruct (fs_put (a_fs a1) p1 (dec pid)) as [k|] eqn:Ek; [|by injection E as <- _].
  pose proof (run_fiber_keeps (set_fs a1 k)) as [Hfs Hcfg].
  destruct (run_fiber (set_fs a1 k)) as [b' r]. cbn [fst] in Hfs, Hcfg.
  apply outcome_bind_ok in E as (f' & _ & [= <- <-]). rewrite Hfs in *. rewrite Hcfg in *. cbn in *.
  assert (p1 = p) as -> by congruence.
  unfold claim_work_path. rewrite Epc. osimpl. rewrite Ec. by rewrite (pidfile_alive _ _ _ _ Hput Hpid Ek Halive).
Qed.

(** The process of a child of the supervisor, up to [run_fiber]. *)
Record child_start (fuel : nat) a (k : FS) (a1 : app) (p : path) : Prop := {
  cs_load : loadFromConfDir fuel (set_fs a k) (getConfigPath (a_env a)) true = Ok a1;
  cs_pidfile : pidfile_value (a_config a1) = Ok p
}.

(** How its start ends: none where the pid file cannot be written. *)
Definition start_result (a1 : app) (p : path) (pid : Z) : option (outcome progress) :=
  (λ k, (run_fiber (set_fs a1 k)).2) <$> fs_put (a_fs a1) p (dec pid).

(** A start that fails is not repeated: where the process cannot write its
    pid file, a module does not load, or a server's configuration is refused, it
    ends with the code of success, so that the supervisor ends as well, with its
    first child and without a restart. A failed assertion, as for workers without
    threads, is a crash, and the supervisor starts the program again; once the
    servers run, the supervisor waits. *)
Theorem failed_start_ends_daemon fuel crash a pid now interval info cpid time forks a1 p res :
  env_has (a_env a) (text "d") = true → cpid ≠ 0 → child_start fuel a (a_fs a) a1 p → start_result a1 p cpid = res →
  let r := app_run fuel crash a true pid now interval info (Child cpid time true :: forks) in
  match res with
  | None | Some (Ok Quit) => sv_fate r = Returns 0 ∧ length (sv_children r) = 1%nat ∧ sv_slept r = []
  | Some (Throw (assertion_failed _)) => ∃ rest, sv_slept r = interval :: rest
  | Some (Ok Done) | Some (Throw _) => sv_fate r = Serves ∧ length (sv_children r) = 1%nat ∧ sv_slept r = []
  | Some Stuck => True
  end.
Proof.
  intros Hd Hc [El Ep] Hres r. subst r. unfold Application.app_run, start_daemon, real_daemeon. rewrite Hd. cbn [negb].
  cbn [daemon_loop]. unfold real_start, main_cb. cbn [main_id set_main]. rewrite decide_False by done.
  unfold Application.app_main. cbn [a_env set_fs]. rewrite El. osimpl. rewrite Ep. osimpl.
  unfold start_result in Hres. destruct (fs_put (a_fs a1) p (dec cpid)) as [k|]; [|by subst res].
  simpl in Hres. destruct (run_fiber (set_fs a1 k)) as [b r]. cbn [snd] in Hres. subst res.
  destruct r as [[]|[]|]; cbn; try done.
  eexists. reflexivity.
Qed.

(** ** Starting up *)

Lemma loadFromConfDir_keeps fuel a p force b :
  loadFromConfDir fuel a p force = Ok b → a_env b = a_env a ∧ a_fs b = a_fs a ∧ a_events b = a_events a.
Proof.
  unfold Application.loadFromConfDir. intros (fs & _ & E)%outcome_bind_ok.
  apply outcome_bind_ok in E as ([mt [cfg lw]] & _ & [= <-]). done.
Qed.

Lemma init_modules_keeps fuel fs : ∀ a b,
  init_modules to_int lstat_mtime LoadFile GetModule fuel fs a = Ok b →
  a_env b = a_env a ∧ a_fs b = a_fs a ∧ a_events b = a_events a.
Proof.
  induction fs as [|file fs IH]; intros a b; cbn [init_modules]; [by intros [= <-]|].
  destruct (GetModule file) as [m|]; [|apply IH]. intros (a1 & E1 & E)%outcome_bind_ok.
  apply loadFromConfDir_keeps in E1 as (H1 & H2 & H3). apply IH in E as (-> & -> & ->). done.
Qed.

(** [init] returns true only for a command line made of options, one of which
    says how to run and none of which asks for help, when no other process has
    the pid file and the working directory was made; all modules were then told
    before and after, and no help was printed. *)
Lemma init_accepts fuel a argv exe b :
  app_init to_int lstat_mtime LoadFile GetModule fuel a argv exe = Ok (true, b) →
  (∃ opts, Forall option_ok opts ∧ tail argv = render opts) ∧
  env_has (a_env b) (text "p") = false ∧ run_type (a_env b) ≠ 0 ∧
  (∃ k p wp, pidfile_value (a_config b) = Ok p ∧ IsRunningPidfile k p = false ∧
     text_value (a_config b) (text "server.work_path") = Ok wp ∧ Mkdir k wp = Ok (true, a_fs b)) ∧
  a_events b = a_events a ++ (BeforeArgsParse <$> listAll (a_modules b).1) ++ (AfterArgsParse <$> listAll (a_modules b).1).
Proof.
  unfold app_init. intros ([ok e] & Ee & E)%outcome_bind_ok. apply outcome_bind_ok in E as (a1 & E1 & E).
  apply outcome_bind_ok in E as (a2 & E2 & E).
  apply loadFromConfDir_keeps in E1 as (Henv1 & _ & Hev1).
  unfold modules_init in E2. apply outcome_bind_ok in E2 as (mp & _ & E2). apply outcome_bind_ok in E2 as (fs & _ & E2).
  apply init_modules_keeps in E2 as (Henv2 & _ & Hev2).
  cbn [log_events a_env] in E. rewrite Henv2, Henv1 in E. cbn [set_env a_env] in E.
  destruct ok; [|done]. destruct (env_has e (text "p")) eqn:Ep; [done|]. cbn [negb orb] in E.
  case_decide as Hrt; [done|]. unfold claim_work_path in E. apply outcome_bind_ok in E as (p & Epid & E).
  destruct (IsRunningPidfile _ p) eqn:Er; [done|]. apply outcome_bind_ok in E as (wp & Ewp & E).
  apply outcome_bind_ok in E as ([ok k] & Ek & [= -> <-]). cbn in *. rewrite Henv2, Henv1. cbn. split_and!; [|done|done| |].
  - unfold env_init in Ee. destruct exe as [path|]; [|done]. case_decide; [done|].
    apply outcome_bind_ok in Ee as (prog & _ & Ee).
    destruct (parse_args _ _ _) as [ok' args] eqn:Epa. injection Ee as -> _.
    apply parse_args_spec in Epa as ([v|] & opts & Ho & Et & _ & Hv); [by destruct Hv as [_ [? ?]]|]. by exists opts.
  - by eexists _, p, wp.
  - by rewrite <-app_assoc, Hev2, Hev1.
Qed.

End servers.

(** ** A small system *)

Module AppSample.
Import TreeYaml TinyNet TinyServer.
#[local] Existing Instance table_epoll.

(** Files by their paths, none of them below a directory that can be listed; all
    processes are alive. *)
Abbreviation files := (gmap (list Z) (list Z)).

#[local] Instance plain_files : FileSystem files := {
  fs_access k p := false;
  fs_lstat k p := (λ _, 33188) <$> (k !! p);
  fs_readdir k p := None;
  fs_mkdir k p := (true, k);
  fs_unlink k p := (bool_decide (is_Some (k !! p)), delete p k);
  fs_rmdir k p := (false, k);
  fs_rename k p q := (false, k);
  fs_symlink k p q := (false, k);
  fs_realpath k p := Some p;
  fs_getline k p := k !! p;
  fs_read k p := bool_decide (is_Some (k !! p));
  fs_write k p := (true, <[p := []]> k);
  fs_kill k pid := true
}.

Definition put (k : files) (p s : list Z) : option files := Some (<[p := s]> k).

Lemma put_laws : PutLaws put.
Proof.
  split; [intros k p s k' [= <-]|intros k p s k' [= <-] _ _]; simpl; rewrite lookup_insert_eq; [by eexists|done].
Qed.

#[local] Instance no_ssl : OpenSSL unit unit kernel := {
  SSL_CTX_new _ := tt;
  SSL_CTX_use_certificate_chain_file _ _ := (0, tt);
  SSL_CTX_use_PrivateKey_file _ _ := (0, tt);
  SSL_CTX_check_private_key _ := 0;
  SSL_new _ := None;
  SSL_set_fd x _ := x;
  SSL_connect x k := (0, x, k);
  SSL_accept x k := (0, x, k);
  SSL_write x k _ := (0, x, k);
  SSL_read x k b := (0, b, x, k)
}.

(** No resolver, no interfaces, no documents. *)
Definition no_resolver (_ : list Z) (_ : option (list Z)) (_ _ _ : Z) (_ : bool) : option (list (list Z)) := None.
Definition no_mtime (_ : files) (_ : path) : option Z := None.
Definition no_document (_ : files) (_ : path) : option tree := None.
Definition no_int (_ : list Z) : option Z := None.

Abbreviation sample := (Application files kernel (gmap nat Z) unit unit unit).

(** A server on port 80 of all interfaces. *)
Definition web (type : list Z) : TcpServerConf :=
  mkConf [text ":80"] 1 120000 0 [] type (text "web") [] [] [] [] [].

Definition with_servers (confs : list TcpServerConf) : Config kind setting unit :=
  match register Config_new with
  | Ok cfg => set_var cfg (text "servers")
                (ConfigVar_new KServers (text "servers") (SServers confs) (text "http servers config"))
  | _ => Config_new
  end.

Definition daemon_args : Env := env_add Env_new (text "d") [].

Definition sample_app (confs : list TcpServerConf) : sample :=
  mkApp daemon_args ∅ (with_servers confs) tt ∅ ([], []) WorkerManager_new start_io [] [].

Definition run : sample → sample * outcome progress :=
  run_fiber le no_int (λ _, true) no_resolver None (λ _, 0) 5000 120000.

Lemma web_readable type : Forall (readable le no_resolver None) [web type].
Proof.
  constructor; [|constructor]. split; [constructor; [unfold short; simpl; lia|constructor]|].
  vm_compute. discriminate.
Qed.

Lemma application_starts_witness :
  ∃ s, getServer (run (sample_app [web (text "http")])).1 (text "http") [] = (true, [s]) ∧ s_accepting s = [0%nat].
Proof.
  destruct (application_starts snd tiny_name le no_int (λ _, true) no_resolver None (λ _, 0) 5000 120000
    (sample_app [web (text "http")]) [] [web (text "http")] (mkManager [] true)
    (run (sample_app [web (text "http")])).1 (Ok Done) start_io_ok eq_refl eq_refl
    ltac:(intros; lia) ltac:(vm_compute; reflexivity) ltac:(vm_compute; reflexivity) ltac:(vm_compute; reflexivity)
    (web_readable (text "http")) ltac:(vm_compute; reflexivity)) as (srvs & Hst & Hget & _ & _ & _ & _ & Hlen & _).
  cbn in Hlen. destruct srvs as [|s [|? ?]]; [discriminate| |discriminate].
  cbn [length take] in Hst. apply Forall2_cons_1 in Hst as [Hs _]. exists s. split.
  - rewrite Hget. unfold of_type. rewrite filter_cons_True, filter_nil; [reflexivity|].
    destruct Hs as [Hconf _ _ _ _ _ _]. rewrite Hconf. reflexivity.
  - destruct Hs as [_ _ _ _ (addrs & Ea & El) Hacc _]. apply Forall2_length in El. rewrite length_fmap in El.
    rewrite Hacc, El. apply (f_equal (λ m, match m with Ok (Some l) => length l | _ => 0%nat end)) in Ea.
    rewrite length_fmap in Ea. rewrite <-Ea. vm_compute. reflexivity.
Defined.

Definition main (pid : Z) (a : sample) : outcome (fate * sample) :=
  app_main (Y := tree) le no_int no_int no_mtime no_document (λ _, true) put no_resolver None (λ _, 0) 5000 120000 1 pid a.

Definition started_app : sample :=
  match main 77 (sample_app [web (text "http")]) with Ok (_, b) => b | _ => sample_app [] end.

Lemma single_instance_witness : claim_work_path started_app = Ok (false, started_app).
Proof.
  apply (single_instance (Y := tree) le no_int no_int (λ _, true) no_resolver None (λ _, 0) 5000 120000
    no_mtime no_document put 1 77 (sample_app [web (text "http")]) started_app started_app Serves
    (text "/home/lambda/apps/work/sylar/sylar.pid") put_laws);
    [vm_compute; reflexivity|discriminate|lia|vm_compute; reflexivity|reflexivity|reflexivity|vm_compute; reflexivity].
Defined.

(** A server of an unknown type. *)
Lemma failed_start_ends_daemon_witness :
  let r := app_run (Y := tree) le no_int no_int no_mtime no_document (λ _, true) put no_resolver None (λ _, 0) 5000 120000
             1 Serves (sample_app [web (text "tcp")]) true 100 999 5 ProcessInfo_new [Child 101 1000 true] in
  sv_fate r = Returns 0 ∧ sv_slept r = [].
Proof.
  pose proof (failed_start_ends_daemon (Y := tree) le no_int no_int (λ _, true) no_resolver None (λ _, 0) 5000 120000
    no_mtime no_document put 1 Serves (sample_app [web (text "tcp")]) 100 999 5 ProcessInfo_new 101 1000 []
    (sample_app [web (text "tcp")]) (text "/home/lambda/apps/work/sylar/sylar.pid") (Some (Ok Quit))
    ltac:(vm_compute; reflexivity) ltac:(lia) ltac:(split; vm_compute; reflexivity) ltac:(vm_compute; reflexivity)) as H.
  destruct H as (H1 & _ & H2). exact (conj H1 H2).
Defined.

End AppSample.
